(* ===== verification/_CoqProject ===== *)
-Q . S2P
Prelude.v
Json.v
Protocol.v
Wire.v
Routing.v
Plan.v
PlanProofs.v
Scheduler.v
SchedulerInv.v
SchedulerSteps.v
SchedulerRestore.v
SchedulerLifecycle.v
SchedulerProofs.v
Limits.v
LimitsOps.v
LimitsProofs.v
LimitsRestore.v
Gateway.v
Branch.v
Suspension.v
Policy.v
Context.v
ContextProofs.v
Calls.v
Agent.v
AgentProofs.v
SubagentProofs.v
Legacy.v
Node.v
Runtime.v
RuntimeProofs.v
StdioProofs.v
Authority.v
AuthorityProofs.v
Broker.v
BrokerSpec.v
BrokerInv.v
BrokerProofs.v
Lifecycle.v
LifecycleProofs.v
LifecycleTheorems.v
Recovery.v
Supervisor.v
SupervisorProofs.v
SupervisorTheorems.v
History.v
Export.v
PortableCodec.v
ObjectStore.v
ObjectStoreProofs.v
Repository.v
RepositoryProofs.v
Projection.v
Integrity.v
IntegrityProofs.v
Manifest.v
Journal.v
Portable.v
PortableProofs.v
PortableTheorems.v
Committer.v
RepositoryWitness.v
PortableWitness.v
RepairModel.v
RepairValidation.v
RepairAggregate.v
RepairProofs.v
RepairOrchestrator.v
RepairOutbox.v
RepairRetry.v
RepairWitness.v
HelperJournal.v
HelperJournalProofs.v
HelperJournalTheorems.v
HelperCoordinator.v
HelperCoordinatorProofs.v
HelperTheorems.v
HelperGateway.v
HelperGatewayProofs.v
HelperWitness.v
