(* ===== verification/Prelude.v ===== *)
(** * The Aworkit workflow worker and trusted core, verified

    Aworkit runs workflows of agents.  A trusted core owns history, authority
    and all external effects; each run is executed by a separate _workflow
    worker_ process, which holds a frozen snapshot of the workflow, decides
    what happens next, and tells the core only by _proposals_, which take
    effect when the core commits and acknowledges them.  This library models
    the worker ([src/crates/aworkit-workflow-worker/src]), the part of the
    protocol crate it speaks ([src/crates/aworkit-protocol/src]), and of the
    core ([src/crates/aworkit-trusted-core/src]) the freezing of authority, the
    invocation broker, the run lifecycle, recovery, worker supervision, the
    repair of recurring errors and the committing of history, with the journal
    of portable commits ([src/crates/aworkit-local-store/src/portable_journal.rs])
    and the portable repository they go to ([src/crates/aworkit-portable-store/src]),
    and of the helper that replaces a running build
    ([src/crates/aworkit-bootstrap-helper/src]) its journal, its gateway and its
    coordinator.  It proves what the sides rely on: a crash, a duplicate delivery or a stale process can
    neither repeat an effect nor lose a budget, no effect happens without
    authority, and a chat has one linear history.

    ** How the parts fit together

<<
   core --frames--> serve_stdio --> WorkerServiceV1.handle
                      (Runtime)        |-> compile            (Plan)
                                       |-> rehydrate          (Suspension)
                                       `-> CoreGatewayV1      (Gateway)
   compiled plan --> SchedulerV1       (Scheduler)  -- predicates --> Routing
   tokens        --> BranchJoinCoordinator (Branch), SuspensionControllerV1
                     (Suspension), AttemptLedger (Policy)
   nodes         --> ExecutorRegistryV1 (Node), AgentLoopV1 and
                     SubagentManagerV1  (Agent)
   Agent         --> LimitLedger        (Limits)  and ContextStore (Context)
   core: SnapshotFreezerV1 (Authority) --snapshot--> compile
         DurableInvocationBroker (Broker): proposals --> ledger --> host
         RunAggregateV1 (Lifecycle): commands --> events; LocalRecovery
         (Recovery): stored events --> aggregate, replacement worker
         ProcessWorkerSupervisorV1 (Supervisor): worker processes
         CanonicalCommitter (Committer) --> PortableCommitGate (Portable)
           --> PortableRuntimeJournal (Journal), PortableRepository
               (Repository) --> objects and references in files (ObjectStore)
         PortableIntegrityEngine (Integrity), ProjectionFeed (Projection),
         ManifestCatalog (Manifest) on the same files
         RepairOrchestratorV1 (RepairOrchestrator) --events--> repair ledger
           --> RepairAggregateV1 (RepairAggregate); --> bootstrap helper
   helper: BootstrapGateway (HelperGateway), ActivationRollbackCoordinator
           (HelperCoordinator) --> ActivationJournal (HelperJournal);
           --> slots, selector, watchdog (ports)
>>

    ** Files

    - [Prelude]: results and the state-and-error monad [stm] (a method
      [&mut self -> Result<_, _>]; the state is kept on the error branch),
      fixed-width arithmetic ([checked_add], [saturating_add] against
      [u32_max] and [u64_max]), [BTreeMap] and [BTreeSet] in key order over
      [gmap], stable sorting by a comparison ([Cmp]), the tactics [run_inv],
      [res_inv], [err_inv] and [boolify], and lemmas on lists, maps and strings.
    - [Json], [Protocol], [Wire]: [serde_json::Value]; identifiers, envelopes
      and framing ([lib.rs]); the core/worker contracts ([runtime.rs]).
    - [Routing] ([routing.rs]): the predicate language and route choice.
    - [Plan], [PlanProofs] ([plan.rs]): validation, canonical
      order and indices of a snapshot.  [PlanWf] is the interface between
      [compile], which establishes it, and the scheduler, whose theorems
      assume nothing else of its plan.
    - [Scheduler] and [SchedulerInv] to [SchedulerProofs] ([scheduler.rs]).
    - [Limits] and [LimitsOps] to [LimitsRestore] ([limits.rs]).
    - [Gateway], [Branch], [Suspension], [Policy] (the files of those names).
    - [Context], [ContextProofs] ([context.rs]).
    - [Calls]: running a method of one component on its part of a larger
      state ([lens], [call], [attempt]), and the error texts that cross such
      a boundary.
    - [Agent], [AgentProofs], [SubagentProofs] ([agent.rs]).  [BudgetOps] is
      what an agent calls of a ledger and [BudgetLaws] what it may assume, of
      its own calls and of those of other clients; the
      agent theorems are proved against the class and [ledger_laws] discharges
      it for [LimitLedger].
    - [Legacy]: the compatibility types kept in [plan.rs], [scheduler.rs] and
      [suspension.rs].
    - [Node] ([node.rs]).
    - [Runtime], [RuntimeProofs], [StdioProofs] ([runtime.rs]).
    - [Authority], [AuthorityProofs] ([authority.rs] of the core, with the
      workspace checks of [project.rs]).
    - [Broker]: the broker and its memory ledger ([broker.rs] of the core).
      [BrokerSpec]: the port's contract ([LedgerLaws]), the legal histories of
      an invocation ([legal]) and the invariant of ledger and host
      ([books_ok]).  [BrokerInv]: a program logic for calls on them.
      [BrokerProofs]: every method keeps the books, and the theorems.
    - [Lifecycle], [LifecycleProofs], [LifecycleTheorems] ([lifecycle.rs]) and
      [Recovery] ([recovery.rs]).
    - [Supervisor], [SupervisorProofs], [SupervisorTheorems]
      ([supervisor.rs]): the state is the supervisor and the operating system
      (children not waited for, controls written, the outcomes of the waits
      to come, whose failures the code ignores); what else the system answers
      is an input of each call.
    - [History] ([history.rs] of the protocol): the records of the history
      ports, the ports as records of operations on the world of stores, and
      what the core may rely on of them ([RepositoryLaws], [JournalLaws],
      [SeparateStores]).
    - [Journal] ([portable_journal.rs] of the local store): the table as a map;
      [journal_laws] discharges [JournalLaws].
    - [Portable], [PortableProofs], [PortableTheorems] ([portable.rs]): the
      commit gate, proved against the laws, as moves of an abstract system of
      heads and records.  [Committer] ([committer.rs]).
    - [Export], [PortableCodec] ([export.rs], [codec.rs] of the portable
      store): the export policy, canonical records and segments.
      [PlainRecord] and [JsonRecord] are what the codec asks of a serializer
      for records without and with JSON values of their own;
      [RepositoryWitness] has concrete ones.  With them, rebinding and
      retention plans ([rebind.rs]).
    - [ObjectStore] ([workspace.rs], [repository.rs], [artifact.rs]): the
      files of a project root; every operation is a sequence of calls of the
      operating system, of which any may fail before or after its effect.
      [ObjectStoreProofs]: a program logic over the files ([hoare], [reads]).
    - [Repository], [RepositoryProofs] ([commit.rs], [port.rs]): preparing, publishing and verifying commits;
      [repository_laws] discharges [RepositoryLaws].
    - [Projection] ([projection.rs]), [Integrity] and [IntegrityProofs]
      ([integrity.rs]), [Manifest] ([manifest.rs], and every operation of the
      crate on a repository as [store_op]).
    - [RepositoryWitness], [PortableWitness]: concrete runs over the repository and the journal.
    - [RepairModel], [RepairValidation], [RepairAggregate] ([bootstrap.rs] of
      the protocol, [repair/model], [repair/validation], [repair/aggregate.rs]
      of the core): the records of a repair, their checks and hashes, and the
      fold of a group's event stream.  [RepairProofs]: the transitions as a
      relation ([repair_step]) and the invariant of every stream
      ([repair_inv]).  [RepairOrchestrator] ([repair/orchestrator],
      [repair/ports.rs]): a command is an interaction with the ports ([prog]),
      which answer as they like.  [RepairOutbox]: when a call is justified
      ([call_justified]), and a program logic for conversations ([holds]).
      [RepairRetry]: the commands over a ledger that answers reads truthfully
      and appends only at the expected version, but need neither recognize an
      operation nor acknowledge honestly ([LedgerContract]), and investigations under a frozen manifest.
      [RepairWitness]: a repair from failure to verification.
    - [HelperJournal] ([journal/] of the bootstrap helper): the files of a
      journal root, storage calls that fail before or after they took effect,
      and every operation on the chain.  [HelperJournalProofs]: what a root
      stores ([root_view]), the changes it can undergo ([journal_step]) and a
      weakest-precondition logic ([wp]) in which each operation has its
      specification.  [HelperJournalTheorems].
    - [HelperCoordinator] ([coordinator/]): execution, rollback and recovery of
      an activation over ports that answer as they like; the calls that act on
      the platform are recorded with the journal as it was ([co_trace]).
      [HelperCoordinatorProofs]: when a call is entitled ([call_justified])
      and the invariant of journal and calls ([helper_inv]).  [HelperTheorems].
    - [HelperGateway], [HelperGatewayProofs] ([protocol/]): challenges,
      admission, commands, results and the recovery of a session.
      [HelperWitness]: concrete activations and admissions.

    A definition has the name of the function or type it translates, with the
    component as a prefix where two components use one name
    ([limit_restore], [branch_restore]); record fields carry a short prefix.

    ** What the theorems show

    - Scheduler: every reachable state satisfies [sched_inv]
      ([reachable_invariant]; for plans whose loop bounds are below [u32::MAX],
      [loop_bounds_fit], and token ids that do not collide, [no_collision]);
      every call is a sequence of moves of the token
      automaton ([run_call_refines]); a loop is never taken more often than
      its bound, proposals in flight included ([loop_traversals_bounded]); a
      failed call changes nothing ([failed_call_changes_nothing]); what an
      acknowledgement and a cancellation do; checkpoints restore to the same
      scheduler, and [restore] accepts nothing that violates the invariant.
    - Budgets: initial budget = remaining + reserved + spent in each metered
      dimension along every run ([budget_conserved]); a refused reservation
      leaves every ancestor untouched; a child never holds more than its
      parent; checkpoints round-trip.
    - Plans: compilation establishes [PlanWf]; it does not depend on the order
      in which a snapshot lists its parts; the cycle check ends on every graph,
      accepts exactly those whose cycles all pass through declared loop edges,
      and rejects by naming an edge of such a cycle.
    - Boundary: the gateway admits only its own chat, run, generation and
      snapshot ([gateway_fence]), each control once, and its buffers stay
      within their bounds; the frame decoder inverts the encoder under any
      chunking; a recovery envelope is used only if plan, hash, generation and
      cursors agree ([rehydrate_fences]).
    - Service: the plan and the identity fence agree after any sequence of
      controls ([service_plan_matches_identity]); refused controls are
      harmless; redelivery is answered as a duplicate; [serve_stdio] ends on
      every input ([serve_stdio_terminates]) and refines the message-by-message
      handler, up to the first reply that does not fit a frame or cannot be
      written ([serve_stdio_refines]).
    - Agents: one turn in flight, its reservation held by the ledger under the
      turn's id, unless another client of the ledger charges or releases that
      very id ([agent_run_invariant]); a failed call undoes its reservation
      ([agent_call_atomic]); a settled turn costs its committed tokens and
      money on every scope to the root and nothing else ([agent_turn_cost]);
      a child's budget scope is open exactly while it is running or completed
      ([subagent_scopes_match]); its result is consumed once.
    - Authority: a snapshot the core froze is never refused by the worker for
      its versions, hashes or bindings ([frozen_snapshot_accepted]); an
      approval is used once, for what it was given ([approval_single_use]).
    - Broker: over any run, with writes that fail and hosts that call back,
      every invocation's history is legal and the outboxes agree with it
      ([broker_histories_legal]); the host is sent an invocation at most once
      and only with authority ([dispatched_at_most_once]); settlements are
      final, proposals idempotent, deliveries complete ([settlement_final],
      [propose_idempotent], [deliver_drains]).
    - Lifecycle and recovery: every reachable run satisfies its invariant and
      its history folds back to it ([run_reachable_invariant],
      [run_history_replays]); recorded facts are permanent, a command acts
      once; recovery builds an envelope exactly when the worker accepts it
      ([replacement_accepted_iff]) and its decision agrees with the lifecycle.
    - Supervision: a process is only ever sent controls of the chat and
      generation it was launched with, and later launches have later
      generations ([supervisor_fences_processes]); no child is left behind
      outside the listed failures and failed waits
      ([supervisor_accounts_children]); crashes are bounded by the restart
      budget, after which no launch of either kind has an effect
      ([restart_budget_bounds_crashes]); a worker that answers a launch is
      accepted ([launched_worker_accepted]).
    - Portable history: an acknowledged commit is published and linked
      ([portable_commit_acknowledged]); linked receipts of a branch form one
      line, whatever cores share the stores ([portable_history_linear]); after
      a stop at any port call, and whatever others do meanwhile, recovery
      resumes exactly the commits that are the head of their branch
      ([portable_crash_recovery], [portable_recovery_decides]); a chat
      is committed through one backend only ([canonical_backend_unique]), and
      requests the router builds pass it ([portable_request_accepted]).
    - Portable repository: wherever a call of the operating system fails, it
      is the history store the gate's theorems assume ([repository_refines]);
      objects read back as published until they are deleted, by name or as
      orphans ([objects_immutable]), and segments decode to what was encoded,
      up to the spelling of JSON values ([segment_roundtrip]); what is exported is exactly
      what the policy allows ([scrub_exact]); pages cover a segment once
      ([pages_cover]); collection under a clean inspection keeps everything
      reachable ([collection_safe]); a child continuation is confirmed, bound
      to unique providers and recorded as such ([child_continuation]).
    - Repair: the candidate the ledger reports as verified has its whole chain
      of custody in the stream, in order, with every check of its plan passed
      ([verified_repair_custody]; in a stream whose activations name the active
      candidate, as the orchestrator requires); while an activation has no
      result nothing replaces what it was decided on ([handoff_exclusive]);
      whatever the ports answer, an effect is asked for only when a committed
      stream read since the last append calls for it ([outbox_discipline]); an
      operation enters the ledger at most once, also when the ledger does not
      recognize a repeated one ([append_exactly_once],
      [record_failure_retry]); replaying an appended batch is its preview
      ([replay_is_preview]); an investigation gets only capabilities of the
      manifest the core froze ([frozen_manifest_investigable]).
    - Bootstrap helper: the journal on disk is a chain that verifies, legal at
      every record, and nothing durable is ever replaced ([journal_custody]);
      every act on the platform was entitled by the journal on disk, and a
      receipt claims no more than the watchdog reported
      ([activation_disciplined]); a recovery on working storage ends the
      activation with a durable receipt ([recovery_completes]); whatever the
      gateway acknowledged is durable ([acknowledgements_durable]), and a
      baton is admitted once per challenge, to the peer that was challenged,
      or is one that was answered before and gets that answer again
      ([admission_fenced]).
    - Branches, suspensions, attempts, context, nodes: a join integrates once,
      a wait is resolved once, an attempt is repeated only when its effect
      cannot have happened, revisions are immutable and pruning keeps what a
      head reaches, an executor runs only under the hash and kind frozen in
      the plan.

    Some theorems document where the code falls short of its intention:
    [own_checkpoint_refused], [own_attempt_checkpoint_refused] and
    [own_subagent_checkpoint_refused] (a component refuses a checkpoint it
    took itself), [plan_policies_unsupported], [pause_overwrites_waits],
    [backpressured_input_lost], [redelivery_after_fold_refused],
    [retry_skips_guards], [stale_checkpoint_refused],
    [oversized_envelope_refused], [failed_shutdown_loses_child],
    [fresh_supervisor_refuses_replacement],
    [quarantined_operation_publishes], [moved_head_reported_certain],
    [damaged_history_collected], [leftover_blocks_collection],
    [clean_branch_refuses_commits], [rejected_enrollment_wedges],
    [superseded_activation_folds],
    [append_after_seal_loses_receipt], [manual_without_notice_wedges],
    [interrupted_admission_wedges], [unsupported_admission_unrecoverable] and
    [no_report_passes_both].

    ** What is assumed

    Code outside the repository is an interface: [Sha256] with [Sha256Laws]
    (the digest is 64 lower-case hexadecimal digits), [Serialize],
    [Deserialize] and [SerdeRoundTrip] for [serde_json] and [serde_jcs],
    [JsonPointer] for [Value::pointer], [ToValue], [FromValue] and
    [ValueRoundTrip] for conversions to and from JSON values; the file system
    is a function that resolves a workspace ([Authority]), and the operating
    system's answers are inputs ([Supervisor]); for the portable store, files
    are a map and the fates of the calls to come a list ([ObjectStore]), its
    serializers satisfy [PlainRecord] (a record of strings, integers, tags,
    options and lists prints as one line that parses back to it) or
    [JsonRecord] (a record with JSON values prints as one line, and a value
    that prints as that line and parses to a record gives the same record up
    to the spelling of its JSON values: RFC 8785 prints [1.0] as [1]), and a
    branch reference of short fields fits the bound it is read with
    ([BoundedRefs]).  The ports of the repair orchestrator are
    unconstrained, but for the ledger where a theorem says so
    ([LedgerContract]); so are those of the bootstrap helper.  That an
    activation can be completed at all needs encoders that encode
    ([HelperEncodes]).  Identifiers are truncated digests;
    where a theorem needs two of them to differ it says so ([no_collision]),
    and no theorem assumes the digest to be injective.  The arithmetic of
    token ordinals is bounded by a hypothesis where the code would saturate,
    and the bounds of loops by [loop_bounds_fit], which leaves out
    [maximum_iterations] = [u32::MAX].
    Every assumption is met by the concrete instance in the witness of the
    theorem.

    ** Fuel

    Recursion that is not structural has fuel and returns [None] without it.
    The cycle searches get one more than the number of nodes: a node is
    entered once per path and a path does not repeat one
    ([v1_cycle_search_total], [legacy_cycle_search_total]); the checks are
    defined from their results by these proofs.  The graph searches of [Context] get one unit per
    revision and parent.  [read_exact] and [serve_loop] get one more than the
    events or bytes left, of which every turn uses one; [read_prefix] four, a
    turn per byte.  The walks along a lineage of segments have a bound of
    their own in the code, and fuel for one turn more
    ([follow_lineage_enough]).  That the fuel suffices is proved in each case, and [None]
    is nowhere identified with success.

    ** What is not modelled

    - Memory exhaustion and the byte format of serialization are outside the
      model.
    - [main.rs] of the worker only connects standard input and output to
      [serve_stdio].
    - The broker's methods are modelled one call at a time, nested calls
      included; calls from several threads at once are not.
    - The supervisor's wall-clock timeouts are answers of the environment; a
      poisoned lock is not modelled.  A statement on the journal either
      happens or fails without effect.
    - Of the core, secrets, extensions and desktop command routing are not
      modelled.  The commands of the repair orchestrator are modelled one at a
      time; what other processes append meanwhile shows in what the ledger
      answers.
    - Of the portable store, power loss and concurrent processes are not
      modelled (a failed call may leave any part of its effect, but what a
      call reported as done stays), nor opening a root and reading Git
      metadata, which only look at the file system.
    - Of the bootstrap helper, the build slots, the platform's profile and
      selector and the launch watchdog are ports; threads that call the
      gateway or the coordinator at once are not modelled (a mutex orders
      them), and a file is written whole or not at all, as the code's
      rename-into-place does.
    - The local ledger, the capability host, process control and the desktop
      application are separate programs: SQL over SQLite, external effects,
      operating-system processes and a user interface. *)
From stdpp Require Export base gmap strings list fin_maps pretty sorting.
From Stdlib Require Export Sorting.Sorted.
From Stdlib Require Strings.Ascii.
Export (notations) Strings.Ascii.

#[global] Open Scope N_scope.
#[global] Open Scope stdpp_scope.

(** ** Results and the state-and-error monad

    [result E A] is Rust's [Result<A, E>].  [stm S E A] is a method
    [&mut self -> Result<A, E>]: the new state is returned on the error
    branch too, because the code may have mutated [self] before it
    returns [Err]. *)

Inductive result (E A : Type) : Type :=
| Ok (a : A)
| Err (e : E).
Arguments Ok {E A} a.
Arguments Err {E A} e.

#[export] Instance result_ret {E} : MRet (result E) := λ A a, Ok a.
#[export] Instance result_bind {E} : MBind (result E) := λ A B k m,
  match m with Ok a => k a | Err e => Err e end.
#[export] Instance result_fmap {E} : FMap (result E) := λ A B f m,
  match m with Ok a => Ok (f a) | Err e => Err e end.

Definition is_ok {E A} (r : result E A) : bool :=
  match r with Ok _ => true | Err _ => false end.

Definition is_err {E A} (r : result E A) : bool := negb (is_ok r).

(** [Option::is_some]. *)
Definition is_some {A} (o : option A) : bool := match o with Some _ => true | None => false end.

(** [Option::ok_or]. *)
Definition ok_or {E A} (o : option A) (e : E) : result E A :=
  match o with Some a => Ok a | None => Err e end.

(** [Result::map_err]. *)
Definition map_err {E F A} (f : E → F) (r : result E A) : result F A :=
  match r with Ok a => Ok a | Err e => Err (f e) end.

(** [if b { return Err(e) }] in a function that returns [Result]. *)
Definition fail_if {E} (b : bool) (e : E) : result E () :=
  if b then Err e else Ok ().

Definition stm (S E A : Type) : Type := S → S * result E A.

#[export] Instance stm_ret {S E} : MRet (stm S E) := λ A a s, (s, Ok a).
#[export] Instance stm_bind {S E} : MBind (stm S E) := λ A B k m s,
  match m s with
  | (s', Ok a) => k a s'
  | (s', Err e) => (s', Err e)
  end.

(** The current value of [self]. *)
Definition read {S E} : stm S E S := λ s, (s, Ok s).
(** An assignment to fields of [self]. *)
Definition modify {S E} (f : S → S) : stm S E () := λ s, (f s, Ok ()).
(** A [?] on a computation that does not mutate [self]. *)
Definition lift {S E A} (r : result E A) : stm S E A := λ s, (s, r).
Definition throw {S E A} (e : E) : stm S E A := λ s, (s, Err e).
(** [if b { return Err(e) }] *)
Definition reject_if {S E} (b : bool) (e : E) : stm S E () :=
  λ s, (s, fail_if b e).

(** [for x in l { f(x)?; }] and [iter.map(f).collect::<Result<Vec<_>, _>>()]. *)
Fixpoint for_each {E A} (f : A → result E ()) (l : list A) : result E () :=
  match l with
  | [] => Ok ()
  | x :: l => match f x with Ok _ => for_each f l | Err e => Err e end
  end.

Fixpoint fold_res {E A S} (f : S → A → result E S) (s : S) (l : list A) : result E S :=
  match l with
  | [] => Ok s
  | x :: l => match f s x with Ok s' => fold_res f s' l | Err e => Err e end
  end.

Fixpoint map_res {E A B} (f : A → result E B) (l : list A) : result E (list B) :=
  match l with
  | [] => Ok []
  | x :: l =>
      match f x with
      | Ok y => match map_res f l with Ok ys => Ok (y :: ys) | Err e => Err e end
      | Err e => Err e
      end
  end.

Fixpoint map_stm {S E A B} (f : A → stm S E B) (l : list A) : stm S E (list B) :=
  match l with
  | [] => mret []
  | x :: l => y ← f x; ys ← map_stm f l; mret (y :: ys)
  end.

(** ** Machine integers

    Unsigned integers are [N] kept at their width by the operations the
    code uses; [usize] is 64 bits wide. *)

Definition u16_max : N := 65535.
Definition u32_max : N := 4294967295.
Definition u64_max : N := 18446744073709551615.
Definition usize_max : N := u64_max.

Definition checked_add (max a b : N) : option N :=
  if a + b <=? max then Some (a + b) else None.
Definition saturating_add (max a b : N) : N := N.min (a + b) max.
Definition checked_sub (a b : N) : option N :=
  if b <=? a then Some (a - b) else None.
Definition saturating_sub (a b : N) : N := a - b.
(** [usize] length of a [Vec], a map or a set. *)
Definition len {A} (l : list A) : N := N.of_nat (length l).
Definition is_nil {A} (l : list A) : bool := match l with [] => true | _ => false end.
Definition str_len (s : string) : N := N.of_nat (String.length s).

(** ** Orderings

    [core::cmp::Ordering] is [comparison]; [Cmp] is what [Ord] promises. *)

Class Cmp {A} (cmp : A → A → comparison) : Prop := {
  cmp_opp : ∀ x y, cmp y x = CompOpp (cmp x y);
  cmp_le_trans : ∀ x y z, cmp x y ≠ Gt → cmp y z ≠ Gt → cmp x z ≠ Gt
}.

Arguments cmp_opp {A} cmp {_} x y.
Arguments cmp_le_trans {A} cmp {_} x y z.

(** Comparisons whose [Equal] is equality ([Eq] of the same type). *)
Class CmpEq {A} (cmp : A → A → comparison) : Prop :=
  cmp_eq_eq : ∀ x y, cmp x y = Eq → x = y.
Arguments cmp_eq_eq {A} cmp {_} x y.

Definition then_with (c d : comparison) : comparison :=
  match c with Eq => d | _ => c end.
Definition on_key {A B} (f : A → B) (cmp : B → B → comparison) (x y : A) : comparison :=
  cmp (f x) (f y).
Definition cmp_leb {A} (cmp : A → A → comparison) (x y : A) : bool :=
  match cmp x y with Gt => false | _ => true end.

(** [slice::sort_by]: a stable sort.  Insertion from the right keeps equal
    elements in their order, and a stable sort is unique. *)
Fixpoint insert_by {A} (cmp : A → A → comparison) (x : A) (l : list A) : list A :=
  match l with
  | [] => [x]
  | y :: l' => if cmp_leb cmp x y then x :: y :: l' else y :: insert_by cmp x l'
  end.
Definition sort_by {A} (cmp : A → A → comparison) : list A → list A :=
  foldr (insert_by cmp) [].

(** ** [BTreeMap] and [BTreeSet]

    Maps are [gmap] and sets are [gset]; what the tree adds is the iteration
    order, which [bt_iter] and [bt_elems] give. *)

Definition bt_iter {V} (m : gmap string V) : list (string * V) :=
  sort_by (on_key fst String.compare) (map_to_list m).
Definition bt_keys {V} (m : gmap string V) : list string := (bt_iter m).*1.
Definition bt_values {V} (m : gmap string V) : list V := (bt_iter m).*2.
Definition bt_elems (s : gset string) : list string :=
  sort_by String.compare (elements s).
Definition bt_len {V} (m : gmap string V) : N := N.of_nat (size m).
Definition bs_len (s : gset string) : N := N.of_nat (size s).
Definition bt_contains {V} (m : gmap string V) (k : string) : bool :=
  match m !! k with Some _ => true | None => false end.
(** [map.values().filter(f).count()] *)
Definition count_values {V} (f : V → bool) (m : gmap string V) : N :=
  len (filter (λ v, f v = true) (bt_values m)).
(** The sum of a quantity over the values of a map. *)
Definition sum_values {V} (f : V → N) (m : gmap string V) : N :=
  foldr (λ v acc, f v + acc) 0 (bt_values m).
Definition bs_contains (s : gset string) (k : string) : bool :=
  bool_decide (k ∈ s).

(** ** Text

    A Rust [String] is the list of its UTF-8 bytes. *)

Definition byte_of (c : Ascii.ascii) : N := Ascii.N_of_ascii c.
Definition in_range (lo hi b : N) : bool := (lo <=? b) && (b <=? hi).

Fixpoint all_bytes (f : N → bool) (s : string) : bool :=
  match s with
  | EmptyString => true
  | String c s => f (byte_of c) && all_bytes f s
  end.

Definition is_ascii_alphanumeric (b : N) : bool :=
  in_range 48 57 b || in_range 65 90 b || in_range 97 122 b.
Definition is_ascii_hexdigit (b : N) : bool :=
  in_range 48 57 b || in_range 65 70 b || in_range 97 102 b.
Definition is_lower_hexdigit (b : N) : bool :=
  in_range 48 57 b || in_range 97 102 b.

Definition str_is_empty (s : string) : bool :=
  match s with EmptyString => true | _ => false end.

Fixpoint strip_prefix (p s : string) : option string :=
  match p, s with
  | EmptyString, _ => Some s
  | String a p, String b s => if bool_decide (a = b) then strip_prefix p s else None
  | String _ _, EmptyString => None
  end.
Definition starts_with (p s : string) : bool :=
  match strip_prefix p s with Some _ => true | None => false end.

(** [&s[..n]] on an ASCII string: the slice panics when the string is
    shorter, so the callers' strings are at least that long. *)
Fixpoint str_take (n : nat) (s : string) : string :=
  match n, s with
  | S n, String c s => String c (str_take n s)
  | _, _ => EmptyString
  end.

(** [str::split(c)]: at least one piece; [str::split_once(c)]. *)
Fixpoint split_on (sep : Ascii.ascii) (s : string) : list string :=
  match s with
  | EmptyString => [EmptyString]
  | String c s =>
      if bool_decide (c = sep) then EmptyString :: split_on sep s
      else match split_on sep s with
           | [] => [String c EmptyString]
           | p :: ps => String c p :: ps
           end
  end.
Fixpoint split_once (sep : Ascii.ascii) (s : string) : option (string * string) :=
  match s with
  | EmptyString => None
  | String c s =>
      if bool_decide (c = sep) then Some (EmptyString, s)
      else match split_once sep s with
           | Some (a, b) => Some (String c a, b)
           | None => None
           end
  end.

Fixpoint str_join (sep : string) (l : list string) : string :=
  match l with
  | [] => ""
  | [x] => x
  | x :: l => x +:+ sep +:+ str_join sep l
  end.

(** Number of [char]s of a UTF-8 string: the bytes that do not continue one. *)
Fixpoint chars_count (s : string) : N :=
  match s with
  | EmptyString => 0
  | String c s => (if in_range 128 191 (byte_of c) then 0 else 1) + chars_count s
  end.

(** [char::is_whitespace] (Unicode [White_Space]): the UTF-8 encodings, and
    dropping one such character from the front. *)
Definition strip_whitespace (s : string) : option string :=
  match s with
  | EmptyString => None
  | String a s1 =>
      let a := byte_of a in
      if in_range 9 13 a || (a =? 32) then Some s1
      else match s1 with
           | EmptyString => None
           | String b s2 =>
               let b := byte_of b in
               if (a =? 194) && ((b =? 133) || (b =? 160)) then Some s2
               else match s2 with
                    | EmptyString => None
                    | String c s3 =>
                        let c := byte_of c in
                        if ((a =? 225) && (b =? 154) && (c =? 128))
                           || ((a =? 226) && (b =? 128)
                               && (in_range 128 138 c || (c =? 168) || (c =? 169) || (c =? 175)))
                           || ((a =? 226) && (b =? 129) && (c =? 159))
                           || ((a =? 227) && (b =? 128) && (c =? 128))
                        then Some s3 else None
                    end
           end
  end.

Fixpoint trim_start_fuel (fuel : nat) (s : string) : string :=
  match fuel with
  | O => s
  | S fuel => match strip_whitespace s with
              | Some s' => trim_start_fuel fuel s'
              | None => s
              end
  end.
Definition trim_start (s : string) : string := trim_start_fuel (String.length s) s.

(** [s.trim().is_empty()]: nothing is left when whitespace is dropped. *)
Definition trim_is_empty (s : string) : bool := str_is_empty (trim_start s).

(** The string is one whitespace character. *)
Definition is_whitespace_char (s : string) : bool :=
  match strip_whitespace s with Some EmptyString => true | _ => false end.
Fixpoint ends_with_whitespace (s : string) : bool :=
  is_whitespace_char s
  || match s with EmptyString => false | String _ s' => ends_with_whitespace s' end.
(** [s.trim() != s]. *)
Definition trim_changes (s : string) : bool :=
  match strip_whitespace s with Some _ => true | None => ends_with_whitespace s end.

(** [s.chars().any(char::is_control)] (general category Cc). *)
Fixpoint any_control (s : string) : bool :=
  match s with
  | EmptyString => false
  | String a s1 =>
      (byte_of a <? 32) || (byte_of a =? 127)
      || match s1 with
         | EmptyString => false
         | String b _ => (byte_of a =? 194) && in_range 128 159 (byte_of b)
         end
      || any_control s1
  end.

(** ** Tactics and hint databases *)

Create HintDb aworkit.

(** Case split on the scrutinee of a hypothesis, dropping the branches that
    contradict it. *)
Ltac inv_case H :=
  repeat (first
    [ progress simplify_eq/=
    | match type of H with
      | context [match ?x with _ => _ end] =>
          lazymatch x with
          | context [match _ with _ => _ end] => fail
          | _ => let E := fresh "E" in destruct x eqn:E; simplify_eq/=
          end
      end ]).

(** ** Inversion of the monads *)

Section monad_facts.
Context {S E : Type}.

Lemma bind_ok {A B} (k : A → stm S E B) m s s' b :
  (m ≫= k) s = (s', Ok b) ↔ ∃ s1 a, m s = (s1, Ok a) ∧ k a s1 = (s', Ok b).
Proof.
  unfold mbind, stm_bind. destruct (m s) as [s1 [a|e]]; split.
  - intros Hk. eauto.
  - intros (?&?&[= <- <-]&Hk). exact Hk.
  - intros [=].
  - intros (?&?&[=]&_).
Qed.

Lemma bind_err {A B} (k : A → stm S E B) m s s' e :
  (m ≫= k) s = (s', Err e) ↔
  m s = (s', Err e) ∨ ∃ s1 a, m s = (s1, Ok a) ∧ k a s1 = (s', Err e).
Proof.
  unfold mbind, stm_bind. destruct (m s) as [s1 [a|e1]]; split.
  - intros Hk. eauto.
  - intros [[=]|(?&?&[= <- <-]&Hk)]. exact Hk.
  - intros [= <- <-]. auto.
  - intros [[= <- <-]|(?&?&[=]&_)]. done.
Qed.

Lemma reject_if_ok b (e : E) (s s' : S) u : reject_if b e s = (s', Ok u) ↔ b = false ∧ s' = s.
Proof. unfold reject_if, fail_if. destruct b, u; naive_solver. Qed.
Lemma reject_if_err b (e e' : E) (s s' : S) : reject_if b e s = (s', Err e') ↔ b = true ∧ s' = s ∧ e' = e.
Proof. unfold reject_if, fail_if. destruct b; naive_solver. Qed.
Lemma lift_ok {A} (r : result E A) (s s' : S) a : lift r s = (s', Ok a) ↔ r = Ok a ∧ s' = s.
Proof. unfold lift. naive_solver. Qed.
Lemma lift_err {A} (r : result E A) (s s' : S) e : lift r s = (s', Err e) ↔ r = Err e ∧ s' = s.
Proof. unfold lift. naive_solver. Qed.
Lemma modify_ok (f : S → S) (s s' : S) u : modify (E:=E) f s = (s', Ok u) ↔ s' = f s.
Proof. unfold modify. destruct u. naive_solver. Qed.
Lemma read_ok (s s' a : S) : read (E:=E) s = (s', Ok a) ↔ s' = s ∧ a = s.
Proof. unfold read. naive_solver. Qed.
Lemma ret_ok {A} (a b : A) (s s' : S) : mret (M:=stm S E) a s = (s', Ok b) ↔ s' = s ∧ b = a.
Proof. unfold mret, stm_ret. naive_solver. Qed.
End monad_facts.

Lemma ok_or_ok {E A} (o : option A) (e : E) a : ok_or o e = Ok a ↔ o = Some a.
Proof. destruct o; naive_solver. Qed.
Lemma fail_if_ok {E} b (e : E) u : fail_if b e = Ok u ↔ b = false.
Proof. destruct b, u; naive_solver. Qed.
Lemma map_err_ok {E F A} (f : E → F) (r : result E A) a : map_err f r = Ok a ↔ r = Ok a.
Proof. destruct r; naive_solver. Qed.

(** [run_inv H] inverts a successful run [m s = (s', Ok a)]. *)
Ltac run_inv_step H :=
  lazymatch type of H with
  | mbind _ _ _ = (_, Ok _) =>
      let H1 := fresh H in
      apply bind_ok in H as (? & ? & H1 & H); run_inv_step H1; run_inv_step H
  | reject_if _ _ _ = (_, Ok _) => apply reject_if_ok in H as [H ->]
  | lift _ _ = (_, Ok _) =>
      apply lift_ok in H as [H ->];
      lazymatch type of H with
      | ok_or _ _ = Ok _ => apply ok_or_ok in H
      | map_err _ _ = Ok _ => apply map_err_ok in H
      | _ => idtac
      end
  | modify _ _ = (_, Ok _) => apply modify_ok in H as ->
  | read _ = (_, Ok _) => apply read_ok in H as [-> ->]
  | mret _ _ = (_, Ok _) => apply ret_ok in H as [-> H]; try subst
  | _ => idtac
  end.
Ltac run_inv H := run_inv_step H; simplify_eq/=.

(** [err_inv H] splits a failed run [m s = (s', Err e)] into the places
    where it can have failed. *)
Ltac err_inv Hx :=
  lazymatch type of Hx with
  | mbind _ _ _ = (_, Err _) =>
      let H1 := fresh Hx in
      apply bind_err in Hx as [Hx|(? & ? & H1 & Hx)];
      [err_inv Hx|run_inv_step H1; err_inv Hx]
  | reject_if _ _ _ = (_, Err _) => apply reject_if_err in Hx as (? & -> & ->)
  | lift _ _ = (_, Err _) => apply lift_err in Hx as [? ->]
  | read _ = (_, Err _) => discriminate Hx
  | modify _ _ = (_, Err _) => discriminate Hx
  | mret _ _ = (_, Err _) => discriminate Hx
  | _ => idtac
  end.

Lemma rbind_ok {E A B} (k : A → result E B) (m : result E A) b :
  m ≫= k = Ok b ↔ ∃ a, m = Ok a ∧ k a = Ok b.
Proof. destruct m; simpl; naive_solver. Qed.

(** [res_inv H] inverts a successful [Result] computation. *)
Ltac res_inv H :=
  lazymatch type of H with
  | mbind _ _ = Ok _ =>
      let H1 := fresh H in
      apply rbind_ok in H as (? & H1 & H); cbv beta in H; res_inv H1; res_inv H
  | fail_if _ _ = Ok _ => apply fail_if_ok in H
  | ok_or _ _ = Ok _ => apply ok_or_ok in H
  | map_err _ _ = Ok _ => apply map_err_ok in H
  | (if ?b then Err _ else _) = Ok _ =>
      let E := fresh "E" in destruct b eqn:E; [discriminate H|res_inv H]
  | Ok _ = Ok _ => first [injection H as H; subst | clear H]
  | _ => idtac
  end.

Lemma is_err_false {E} (r : result E ()) : is_err r = false ↔ r = Ok ().
Proof. destruct r as [[]|]; split; done. Qed.

Lemma for_each_ok {E A} (f : A → result E ()) l u :
  for_each f l = Ok u ↔ ∀ x, x ∈ l → f x = Ok ().
Proof.
  induction l as [|x l IH]; simpl.
  - destruct u. set_solver.
  - destruct (f x) as [[]|e] eqn:Hx; [rewrite IH; set_solver|].
    split; [done|]. intros Hall. rewrite (Hall x) in Hx by set_solver. done.
Qed.

Lemma existsb_false {A} (f : A → bool) l : existsb f l = false ↔ ∀ x, x ∈ l → f x = false.
Proof. induction l as [|x l IH]; simpl; [set_solver|]. rewrite orb_false_iff, IH. set_solver. Qed.
Lemma existsb_true {A} (f : A → bool) l : existsb f l = true ↔ ∃ x, x ∈ l ∧ f x = true.
Proof. induction l as [|x l IH]; simpl; [set_solver|]. rewrite orb_true_iff, IH. set_solver. Qed.

Lemma map_res_ok {E A B} (f : A → result E B) l ys :
  map_res f l = Ok ys ↔ Forall2 (λ x y, f x = Ok y) l ys.
Proof.
  revert ys. induction l as [|x l IH]; intros ys; simpl.
  - split; [intros [= <-]; constructor|]. inversion 1. done.
  - destruct (f x) as [y|e] eqn:Hx.
    + destruct (map_res f l) as [ys'|e] eqn:Hl.
      * split.
        -- intros [= <-]. constructor; [done|]. by apply IH.
        -- inversion 1 as [|?? ? ys2 Hy Hys]; subst. apply IH in Hys. congruence.
      * split; [done|]. inversion 1 as [|?? ? ys2 Hy Hys]; subst. apply IH in Hys. congruence.
    + split; [done|]. inversion 1; congruence.
Qed.

(** [fold_res] as an invariant rule. *)
Lemma fold_res_inv {E A S} (f : S → A → result E S) (P : list A → S → Prop) s l s' :
  P [] s →
  (∀ done x s1 s2, P done s1 → f s1 x = Ok s2 → P (done ++ [x]) s2) →
  fold_res f s l = Ok s' → P l s'.
Proof.
  intros H0 Hstep. enough (∀ pre s1, P pre s1 → fold_res f s1 l = Ok s' → P (pre ++ l) s')
    as Hgen by (intros; by apply (Hgen [] s)).
  induction l as [|x l IH]; intros pre s1 Hpre Hf; simpl in Hf.
  - rewrite app_nil_r. by simplify_eq.
  - destruct (f s1 x) as [s2|] eqn:Hx; [|done].
    replace (pre ++ x :: l) with ((pre ++ [x]) ++ l) by (by rewrite <-app_assoc).
    eapply IH; [|done]. eauto.
Qed.

Lemma checked_add_ok max a b : a + b ≤ max → checked_add max a b = Some (a + b).
Proof. intros Hn. unfold checked_add. by rewrite (proj2 (N.leb_le _ _) Hn). Qed.

(** ** Orderings and stable sorting *)

Section cmp_facts.
Context {A : Type} (cmp : A → A → comparison) `{!Cmp cmp}.

Lemma cmp_refl x : cmp x x = Eq.
Proof. pose proof (cmp_opp cmp x x) as H. by destruct (cmp x x). Qed.

Lemma cmp_eq_sym x y : cmp x y = Eq → cmp y x = Eq.
Proof. intros H. by rewrite (cmp_opp cmp x y), H. Qed.

Lemma cmp_eq_trans_l x y z : cmp x y = Eq → cmp x z = cmp y z.
Proof.
  intros Hxy. pose proof (cmp_eq_sym _ _ Hxy) as Hyx.
  pose proof (cmp_le_trans cmp x y z) as H1. pose proof (cmp_le_trans cmp y x z) as H2.
  pose proof (cmp_le_trans cmp z x y) as H3. pose proof (cmp_le_trans cmp z y x) as H4.
  rewrite (cmp_opp cmp x z), (cmp_opp cmp y z) in H3, H4. rewrite Hxy in *. rewrite Hyx in *.
  destruct (cmp x z), (cmp y z); simpl in *; try done; exfalso;
    first [by apply H1 | by apply H2 | by apply H3 | by apply H4].
Qed.

Lemma cmp_eq_trans_r x y z : cmp y z = Eq → cmp x z = cmp x y.
Proof.
  intros Hyz. rewrite (cmp_opp cmp z x), (cmp_opp cmp y x). f_equal.
  by apply cmp_eq_trans_l, cmp_eq_sym.
Qed.

Lemma cmp_lt_trans x y z : cmp x y = Lt → cmp y z = Lt → cmp x z = Lt.
Proof.
  intros Hxy Hyz. pose proof (cmp_le_trans cmp x y z) as H. rewrite Hxy, Hyz in H.
  destruct (cmp x z) eqn:Hxz; [|done|by destruct H].
  apply (cmp_eq_trans_l _ _ y) in Hxz. rewrite Hxy, (cmp_opp cmp y z), Hyz in Hxz. done.
Qed.

Lemma cmp_leb_total x y : cmp_leb cmp x y = true ∨ cmp_leb cmp y x = true.
Proof. unfold cmp_leb. rewrite (cmp_opp cmp x y). destruct (cmp x y); auto. Qed.

Lemma cmp_leb_false x y : cmp_leb cmp x y = false → cmp_leb cmp y x = true.
Proof. destruct (cmp_leb_total x y); congruence. Qed.

Lemma cmp_leb_trans x y z :
  cmp_leb cmp x y = true → cmp_leb cmp y z = true → cmp_leb cmp x z = true.
Proof.
  pose proof (cmp_le_trans cmp x y z) as H. unfold cmp_leb.
  destruct (cmp x y), (cmp y z), (cmp x z); naive_solver.
Qed.

Definition sorted_by (l : list A) : Prop := StronglySorted (λ x y, cmp_leb cmp x y = true) l.

Lemma insert_by_perm x l : insert_by cmp x l ≡ₚ x :: l.
Proof.
  induction l as [|y l IH]; simpl; [done|].
  destruct (cmp_leb cmp x y); [done|]. rewrite IH. apply Permutation_swap.
Qed.

Lemma sort_by_perm l : sort_by cmp l ≡ₚ l.
Proof. induction l as [|x l IH]; simpl; [done|]. by rewrite insert_by_perm, IH. Qed.

Lemma elem_of_sort_by x l : x ∈ sort_by cmp l ↔ x ∈ l.
Proof. by rewrite sort_by_perm. Qed.

Lemma length_sort_by l : length (sort_by cmp l) = length l.
Proof. by rewrite sort_by_perm. Qed.

Lemma insert_by_sorted x l : sorted_by l → sorted_by (insert_by cmp x l).
Proof.
  induction 1 as [|y l Hl IH Hy]; simpl; [repeat constructor|].
  destruct (cmp_leb cmp x y) eqn:Hxy.
  - constructor; [by constructor|]. constructor; [done|].
    eapply Forall_impl; [exact Hy|]. simpl. eauto using cmp_leb_trans.
  - constructor; [exact IH|]. rewrite insert_by_perm. constructor; [|done].
    by apply cmp_leb_false.
Qed.

Lemma sort_by_sorted l : sorted_by (sort_by cmp l).
Proof. induction l; simpl; [constructor|]. by apply insert_by_sorted. Qed.

Lemma insert_by_head x l :
  Forall (λ y, cmp_leb cmp x y = true) l → insert_by cmp x l = x :: l.
Proof. destruct 1 as [|y l Hy]; simpl; [done|]. by rewrite Hy. Qed.

Lemma sort_by_id l : sorted_by l → sort_by cmp l = l.
Proof. induction 1 as [|x l Hl IH Hx]; simpl; [done|]. rewrite IH. by apply insert_by_head. Qed.

Lemma sort_by_idemp l : sort_by cmp (sort_by cmp l) = sort_by cmp l.
Proof. apply sort_by_id, sort_by_sorted. Qed.

(** Two permutations of a list whose elements are told apart by [cmp] sort
    to the same list. *)
Lemma sort_by_perm_eq l1 l2 :
  (∀ x y, x ∈ l1 → y ∈ l1 → cmp x y = Eq → x = y) →
  l1 ≡ₚ l2 → sort_by cmp l1 = sort_by cmp l2.
Proof.
  intros Hinj Hp. apply (StronglySorted_unique_strong (λ x y, cmp_leb cmp x y = true)).
  - intros x y Hx Hy Hxy Hyx. rewrite elem_of_sort_by in Hx, Hy. rewrite <-Hp in Hy.
    apply Hinj; [done..|]. unfold cmp_leb in *. rewrite (cmp_opp cmp x y) in Hyx.
    by destruct (cmp x y).
  - apply sort_by_sorted.
  - apply sort_by_sorted.
  - by rewrite !sort_by_perm.
Qed.
End cmp_facts.

#[export] Instance cmp_then_with {A} (c1 c2 : A → A → comparison) `{!Cmp c1, !Cmp c2} :
  Cmp (λ x y, then_with (c1 x y) (c2 x y)).
Proof.
  split.
  - intros x y. rewrite (cmp_opp c1 x y), (cmp_opp c2 x y).
    by destruct (c1 x y), (c2 x y).
  - intros x y z. pose proof (cmp_le_trans c2 x y z) as H2.
    destruct (c1 x y) eqn:Exy; simpl; [|..|done].
    + rewrite (cmp_eq_trans_l c1 x y z Exy). destruct (c1 y z); simpl; auto.
    + destruct (c1 y z) eqn:Eyz; simpl; [|..|done]; intros _ _.
      * by rewrite (cmp_eq_trans_r c1 x y z Eyz), Exy.
      * by rewrite (cmp_lt_trans c1 x y z Exy Eyz).
Qed.
#[export] Instance cmp_on_key {A B} (f : A → B) (cmp : B → B → comparison) `{!Cmp cmp} :
  Cmp (on_key f cmp).
Proof.
  split; unfold on_key; [intros; apply (cmp_opp cmp)|]. intros x y z. apply (cmp_le_trans cmp).
Qed.
#[export] Instance cmp_N : Cmp N.compare.
Proof. split; [intros; apply N.compare_antisym|]. intros ???. rewrite !N.compare_gt_iff. lia. Qed.
#[export] Instance cmp_Z : Cmp Z.compare.
Proof. split; [intros; apply Z.compare_antisym|]. intros ???. rewrite !Z.compare_gt_iff. lia. Qed.
#[export] Instance cmp_eq_N : CmpEq N.compare := N.compare_eq.
#[export] Instance cmp_eq_Z : CmpEq Z.compare := Z.compare_eq.

#[export] Instance cmp_string : Cmp String.compare.
Proof.
  split; [intros; apply String.compare_antisym|].
  intros x. induction x as [|a x IH]; intros [|b y] [|c z]; simpl; try done.
  unfold Ascii.compare.
  destruct (N.compare_spec (Ascii.N_of_ascii a) (Ascii.N_of_ascii b)) as [H1|H1|H1];
  destruct (N.compare_spec (Ascii.N_of_ascii b) (Ascii.N_of_ascii c)) as [H2|H2|H2];
  destruct (N.compare_spec (Ascii.N_of_ascii a) (Ascii.N_of_ascii c)) as [H3|H3|H3];
  try done; try lia. apply IH.
Qed.
#[export] Instance cmp_eq_string : CmpEq String.compare.
Proof. intros x y. apply String.compare_eq_iff. Qed.

(** Sorting on a key that determines the element does not depend on the
    order of the input. *)
Lemma sort_by_key_perm {A K} (key : A → K) (cmp : K → K → comparison) `{!Cmp cmp, !CmpEq cmp} l1 l2 :
  NoDup (key <$> l1) → l1 ≡ₚ l2 →
  sort_by (on_key key cmp) l1 = sort_by (on_key key cmp) l2.
Proof.
  intros Hnd Hp. apply sort_by_perm_eq; [apply _| |done].
  intros x y Hx Hy Hxy. apply (cmp_eq_eq cmp) in Hxy.
  apply list_elem_of_lookup in Hx as [i Hi]. apply list_elem_of_lookup in Hy as [j Hj].
  assert (i = j) as <-; [|congruence].
  eapply (NoDup_lookup (key <$> l1)); [done| |]; rewrite list_lookup_fmap.
  - by rewrite Hi.
  - rewrite Hj. simpl. by rewrite Hxy.
Qed.

(** ** Iteration over maps and sets *)

Section btree_facts.
Context {V : Type}.
Implicit Types m : gmap string V.

Lemma elem_of_bt_iter m k v : (k, v) ∈ bt_iter m ↔ m !! k = Some v.
Proof. unfold bt_iter. by rewrite elem_of_sort_by, elem_of_map_to_list. Qed.

Lemma elem_of_bt_values m v : v ∈ bt_values m ↔ ∃ k, m !! k = Some v.
Proof.
  unfold bt_values. rewrite list_elem_of_fmap. split.
  - intros ([k v'] & -> & H). apply elem_of_bt_iter in H. eauto.
  - intros [k H]. exists (k, v). split; [done|]. by apply elem_of_bt_iter.
Qed.

Lemma elem_of_bt_keys m k : k ∈ bt_keys m ↔ is_Some (m !! k).
Proof.
  unfold bt_keys. rewrite list_elem_of_fmap. split.
  - intros ([k' v'] & -> & H). apply elem_of_bt_iter in H. eauto.
  - intros [v H]. exists (k, v). split; [done|]. by apply elem_of_bt_iter.
Qed.

Lemma NoDup_bt_keys m : NoDup (bt_keys m).
Proof. unfold bt_keys, bt_iter. rewrite sort_by_perm. apply NoDup_fst_map_to_list. Qed.

Lemma list_to_map_bt_iter m : list_to_map (bt_iter m) = m.
Proof.
  unfold bt_iter. rewrite <-(list_to_map_to_list m) at 2.
  apply list_to_map_proper; [|apply sort_by_perm].
  rewrite sort_by_perm. apply NoDup_fst_map_to_list.
Qed.

Lemma length_bt_iter m : length (bt_iter m) = size m.
Proof. unfold bt_iter. rewrite length_sort_by. apply length_map_to_list. Qed.

Lemma length_bt_values m : length (bt_values m) = size m.
Proof. unfold bt_values. by rewrite length_fmap, length_bt_iter. Qed.

Lemma alter_lookup (f : V → V) m k v : m !! k = Some v → alter f k m = <[k := f v]> m.
Proof.
  intros Hk. apply map_eq. intros i. destruct (decide (i = k)) as [->|Hne].
  - by rewrite lookup_alter_eq, lookup_insert_eq, Hk.
  - by rewrite lookup_alter_ne, lookup_insert_ne.
Qed.

Lemma bt_values_perm m : bt_values m ≡ₚ (map_to_list m).*2.
Proof. unfold bt_values, bt_iter. by rewrite sort_by_perm. Qed.

Lemma count_values_insert f m k v :
  m !! k = None → count_values f (<[k:=v]> m) = (if f v then 1 else 0) + count_values f m.
Proof.
  intros Hk. unfold count_values, len. rewrite !bt_values_perm, map_to_list_insert by done.
  csimpl. rewrite filter_cons. destruct (f v); case_decide; simpl; (lia || congruence).
Qed.

Lemma count_values_update f m k v w :
  m !! k = Some v →
  count_values f (<[k:=w]> m) + (if f v then 1 else 0) = (if f w then 1 else 0) + count_values f m.
Proof.
  intros Hk. rewrite <-(insert_delete_eq m k w).
  rewrite <-(insert_delete_id m k v Hk) at 2.
  rewrite !count_values_insert by apply lookup_delete_eq. lia.
Qed.

Lemma count_values_fmap f g (h : V → V) m :
  (∀ k v, m !! k = Some v → f (h v) = g v) → count_values f (h <$> m) = count_values g m.
Proof.
  intros Hfg. unfold count_values, len. rewrite !bt_values_perm, map_to_list_fmap.
  assert (∀ k v, (k, v) ∈ map_to_list m → f (h v) = g v) as Hl
    by (intros k v Hin; apply (Hfg k); by apply elem_of_map_to_list).
  clear Hfg. induction (map_to_list m) as [|[k v] l IH]; [done|]. csimpl.
  rewrite !filter_cons, (Hl k v) by set_solver.
  assert (∀ k v, (k, v) ∈ l → f (h v) = g v) as Hl' by set_solver.
  specialize (IH Hl'). case_decide; simpl; lia.
Qed.

Lemma sum_values_insert f m k v :
  m !! k = None → sum_values f (<[k:=v]> m) = f v + sum_values f m.
Proof.
  intros Hk. unfold sum_values.
  assert (∀ l1 l2 : list V, l1 ≡ₚ l2 → foldr (λ v acc, f v + acc) 0 l1 = foldr (λ v acc, f v + acc) 0 l2)
    as Hp by (induction 1; simpl; lia).
  rewrite (Hp _ (v :: bt_values m)); [done|].
  by rewrite !bt_values_perm, map_to_list_insert.
Qed.

Lemma sum_values_delete f m k v :
  m !! k = Some v → sum_values f m = f v + sum_values f (delete k m).
Proof.
  intros Hk. rewrite <-(insert_delete_id m k v Hk) at 1.
  rewrite sum_values_insert by apply lookup_delete_eq. done.
Qed.

Lemma sum_values_ext f g m :
  (∀ k v, m !! k = Some v → f v = g v) → sum_values f m = sum_values g m.
Proof.
  intros Hfg. unfold sum_values.
  assert (∀ v, v ∈ bt_values m → f v = g v) as Hl by (intros v [k Hv]%elem_of_bt_values; eauto).
  clear Hfg. induction (bt_values m) as [|v l IH]; [done|]. simpl.
  rewrite (Hl v), IH by set_solver. done.
Qed.

Lemma bt_contains_true m k : bt_contains m k = true ↔ is_Some (m !! k).
Proof. unfold bt_contains. destruct (m !! k); split; eauto; [done|]. by intros []. Qed.

Lemma bt_contains_insert m k k' v :
  bt_contains (<[k:=v]> m) k' = bool_decide (k = k') || bt_contains m k'.
Proof.
  unfold bt_contains. destruct (decide (k = k')) as [->|Hne].
  - by rewrite lookup_insert_eq, bool_decide_true.
  - by rewrite lookup_insert_ne, bool_decide_false.
Qed.

Lemma bt_contains_false m k : bt_contains m k = false ↔ m !! k = None.
Proof. unfold bt_contains. by destruct (m !! k). Qed.
End btree_facts.

Lemma list_filter_all_false {A} (f : A → bool) l :
  (∀ x, x ∈ l → ¬ f x = true) → filter (λ x, f x = true) l = [].
Proof.
  induction l as [|x l IH]; intros Hn; [done|]. rewrite filter_cons, decide_False by (apply Hn; by left).
  apply IH. set_solver.
Qed.

(** Counting depends only on the predicate's value at each key. *)
Lemma count_values_id {V} (f : V → bool) (m : gmap string V) :
  count_values id (f <$> m) = count_values f m.
Proof.
  unfold count_values, len. rewrite !bt_values_perm, map_to_list_fmap.
  induction (map_to_list m) as [|[k v] l IH]; [done|]. csimpl. rewrite !filter_cons.
  unfold id in *. destruct (f v); repeat case_decide; simpl; (congruence || lia).
Qed.
Lemma count_values_eq {V W} (f : V → bool) (g : W → bool) (m : gmap string V) (m' : gmap string W) :
  (∀ i, f <$> m !! i = g <$> m' !! i) → count_values f m = count_values g m'.
Proof.
  intros Hfg. rewrite <-(count_values_id f m), <-(count_values_id g m'). f_equal.
  apply map_eq. intros i. by rewrite !lookup_fmap.
Qed.

Lemma elem_of_bt_elems (s : gset string) x : x ∈ bt_elems s ↔ x ∈ s.
Proof. unfold bt_elems. by rewrite elem_of_sort_by, elem_of_elements. Qed.

Lemma list_to_set_bt_elems (s : gset string) : list_to_set (bt_elems s) = s.
Proof. apply set_eq. intros x. by rewrite elem_of_list_to_set, elem_of_bt_elems. Qed.

Lemma NoDup_bt_elems (s : gset string) : NoDup (bt_elems s).
Proof. unfold bt_elems. rewrite sort_by_perm. apply NoDup_elements. Qed.

Lemma length_bt_elems (s : gset string) : length (bt_elems s) = size s.
Proof. unfold bt_elems. by rewrite length_sort_by. Qed.

#[export] Hint Rewrite @elem_of_bt_iter @elem_of_bt_values @elem_of_bt_keys elem_of_bt_elems
  @length_bt_iter @length_bt_values length_bt_elems : aworkit.

(** Collecting a vector into a set keeps its length exactly when it has no
    duplicates: the [BTreeSet] duplicate test of the code. *)
Lemma size_list_to_set_NoDup (l : list string) :
  size (list_to_set l : gset string) = length l ↔ NoDup l.
Proof.
  split; [|intros; by apply size_list_to_set].
  induction l as [|x l IH]; [constructor|]. simpl. intros Hs.
  assert (size (list_to_set l : gset string) ≤ length l)%nat as Hle.
  { clear. induction l as [|y l IH]; simpl; [done|].
    rewrite size_union_alt, size_singleton.
    assert (size (list_to_set l ∖ {[y]} : gset string) ≤ size (list_to_set l : gset string))%nat
      by (apply subseteq_size; set_solver). lia. }
  destruct (decide (x ∈ (list_to_set l : gset string))) as [Hx|Hx].
  - rewrite subseteq_union_1_L in Hs by set_solver. lia.
  - rewrite size_union, size_singleton in Hs by set_solver.
    constructor; [set_solver|]. apply IH. lia.
Qed.

(** ** Searches that are shown to end *)

Lemma is_Some_proj_Some {A} (m : option A) (H : is_Some m) : m = Some (is_Some_proj H).
Proof. destruct m; [done|]. by destruct (is_Some_None H). Qed.

(** ** Collecting into maps *)

Lemma foldl_insert_lookup {V} (l : list (string * V)) (m : gmap string V) k v :
  NoDup l.*1 → foldl (λ m kv, <[kv.1 := kv.2]> m) m l !! k = Some v ↔
  (k, v) ∈ l ∨ (k ∉ l.*1 ∧ m !! k = Some v).
Proof.
  revert m. induction l as [|[k' v'] l IH]; intros m Hnd; simpl; [set_solver|].
  apply NoDup_cons in Hnd as [Hk Hnd]. rewrite IH by done.
  rewrite lookup_insert_Some, !elem_of_cons. split.
  - intros [?|(Hn & [[<- <-]|[Hne Hm]])]; [auto|auto|]. right. split; [|done]. intros [->|?]; done.
  - intros [[[= -> ->]|?]|[Hn Hm]]; [|auto|].
    + right. auto.
    + right. split; [|right; split; [|done]]; intros ?; apply Hn; auto.
Qed.

(** A validating loop that inserts every element under a fresh key. *)
Lemma fold_collect {E A V} (f : gmap string V → A → result E (gmap string V)) (kv : A → string * V) l m :
  (∀ x m, x ∈ l → m !! (kv x).1 = None → f m x = Ok (<[(kv x).1 := (kv x).2]> m)) →
  NoDup (fst ∘ kv <$> l) → (∀ x, x ∈ l → m !! (kv x).1 = None) →
  fold_res f m l = Ok (foldl (λ m p, <[p.1 := p.2]> m) m (kv <$> l)).
Proof.
  revert m. induction l as [|x l IH]; intros m Hf Hnd Hm; csimpl; [done|].
  apply NoDup_cons in Hnd as [Hx Hnd]. rewrite Hf; [|by left|apply Hm; by left].
  apply IH; [intros y m' Hy; apply Hf; by right|done|].
  intros y Hy. rewrite lookup_insert_ne; [apply Hm; by right|]. intros Heq. apply Hx.
  apply list_elem_of_fmap. exists y. split; [exact Heq|done].
Qed.

Lemma NoDup_bt_values {V} (key : V → string) (m : gmap string V) :
  (∀ k v, m !! k = Some v → k = key v) → NoDup (bt_values m).
Proof.
  intros Hk. apply (NoDup_fmap_1 key). unfold bt_values.
  rewrite <-list_fmap_compose.
  rewrite (list_fmap_ext _ fst); [apply NoDup_bt_keys|].
  intros i [k v] Hin%list_elem_of_lookup_2. apply elem_of_bt_iter, Hk in Hin. done.
Qed.

(** Restoring the values of a map keyed by a field of the value. *)
Lemma bt_values_keyed {V} (key : V → string) (m : gmap string V) :
  (∀ k v, m !! k = Some v → k = key v) → (λ v, (key v, v)) <$> bt_values m = bt_iter m.
Proof.
  intros Hk. unfold bt_values. rewrite <-list_fmap_compose.
  rewrite (list_fmap_ext _ id); [apply list_fmap_id|].
  intros i [k v] Hin%list_elem_of_lookup_2. apply elem_of_bt_iter, Hk in Hin. by subst.
Qed.
Lemma foldl_insert_values {V} (key : V → string) (m : gmap string V) :
  (∀ k v, m !! k = Some v → k = key v) →
  foldl (λ m p, <[p.1 := p.2]> m) ∅ ((λ v, (key v, v)) <$> bt_values m) = m.
Proof.
  intros Hk. rewrite bt_values_keyed by done. apply map_eq. intros k. apply option_eq. intros v.
  rewrite foldl_insert_lookup by apply NoDup_bt_keys. rewrite elem_of_bt_iter, lookup_empty. naive_solver.
Qed.
Lemma NoDup_keyed {V} (key : V → string) (m : gmap string V) :
  (∀ k v, m !! k = Some v → k = key v) → NoDup (key <$> bt_values m).
Proof.
  intros Hk. change key with (λ v, fst ((λ v, (key v, v)) v)).
  rewrite (list_fmap_compose (λ v, (key v, v)) fst), bt_values_keyed by done. apply NoDup_bt_keys.
Qed.
Lemma fold_restore_values {E V} (f : gmap string V → V → result E (gmap string V))
    (key : V → string) (m : gmap string V) :
  (∀ k v, m !! k = Some v → k = key v) →
  (∀ k v acc, m !! k = Some v → acc !! key v = None → f acc v = Ok (<[key v := v]> acc)) →
  fold_res f ∅ (bt_values m) = Ok m.
Proof.
  intros Hk Hf. rewrite (fold_collect f (λ v, (key v, v))).
  - by rewrite foldl_insert_values.
  - intros v acc [k Hv]%elem_of_bt_values. by apply (Hf k).
  - by apply (NoDup_keyed key).
  - intros. apply lookup_empty.
Qed.

(** Elements with distinct keys are determined by their key. *)
Lemma NoDup_key_inj {A B} (key : A → B) (l : list A) x y :
  NoDup (key <$> l) → x ∈ l → y ∈ l → key x = key y → x = y.
Proof.
  induction l as [|z l IH]; [intros _ []%elem_of_nil|]. rewrite fmap_cons.
  intros [Hz Hnd]%NoDup_cons [->|Hx]%elem_of_cons [->|Hy]%elem_of_cons Heq; [done|..|by apply IH].
  - destruct Hz. rewrite Heq. apply list_elem_of_fmap. eauto.
  - destruct Hz. rewrite <-Heq. apply list_elem_of_fmap. eauto.
Qed.

(** ** Guards *)

(** Turn boolean guards into propositions. *)
Ltac boolify :=
  repeat match goal with
  | H : _ && _ = true |- _ => apply andb_true_iff in H; destruct H
  | H : _ || _ = false |- _ => apply orb_false_iff in H; destruct H
  | H : negb _ = true |- _ => apply negb_true_iff in H
  | H : negb _ = false |- _ => apply negb_false_iff in H
  | H : bool_decide _ = true |- _ => apply bool_decide_eq_true in H
  | H : bool_decide _ = false |- _ => apply bool_decide_eq_false in H
  | H : (_ =? _) = true |- _ => apply N.eqb_eq in H
  | H : (_ =? _) = false |- _ => apply N.eqb_neq in H
  | H : (_ <? _) = true |- _ => apply N.ltb_lt in H
  | H : (_ <? _) = false |- _ => apply N.ltb_ge in H
  | H : (_ <=? _) = true |- _ => apply N.leb_le in H
  | H : (_ <=? _) = false |- _ => apply N.leb_gt in H
  | H : bt_contains _ _ = true |- _ => apply bt_contains_true in H
  | H : bt_contains _ _ = false |- _ => apply bt_contains_false in H
  | H : bs_contains _ _ = _ |- _ => unfold bs_contains in H
  end.

(** ** Text facts *)

Lemma all_bytes_app f a b : all_bytes f (a +:+ b) = all_bytes f a && all_bytes f b.
Proof. induction a as [|c a IH]; simpl; [done|]. by rewrite IH, andb_assoc. Qed.

Lemma all_bytes_impl f g s :
  (∀ b, f b = true → g b = true) → all_bytes f s = true → all_bytes g s = true.
Proof.
  intros Hfg. induction s as [|c s IH]; [done|]. cbn [all_bytes].
  intros [H1 H2]%andb_true_iff. rewrite (Hfg _ H1). auto.
Qed.

Lemma all_bytes_take f n s : all_bytes f s = true → all_bytes f (str_take n s) = true.
Proof.
  revert s. induction n as [|n IH]; intros [|c s]; cbn [str_take all_bytes]; try done.
  intros [H1 H2]%andb_true_iff. rewrite H1. simpl. auto.
Qed.

Lemma str_length_app a b : String.length (a +:+ b) = (String.length a + String.length b)%nat.
Proof. induction a as [|c a IH]; simpl; [done|]. by rewrite IH. Qed.

Lemma strip_prefix_Some p s r : strip_prefix p s = Some r ↔ s = p +:+ r.
Proof.
  revert s. induction p as [|c p IH]; intros s; cbn [strip_prefix String.append].
  { split; [by intros [= ->]|by intros ->]. }
  destruct s as [|c' s]; [done|]. case_bool_decide; [|split; [done|by intros [= -> _]]].
  subst. rewrite IH. split; [by intros ->|by intros [= ->]].
Qed.

Lemma str_app_inj a b c : a +:+ b = a +:+ c → b = c.
Proof. induction a as [|x a IH]; simpl; [done|]. intros [= Heq]. auto. Qed.

Lemma length_str_take n s : (String.length (str_take n s) ≤ n)%nat.
Proof. revert s. induction n as [|n IH]; intros [|c s]; simpl; try lia. specialize (IH s). lia. Qed.
