(* ===== verification/Json.v ===== *)
(** * JSON values and the code the worker calls but does not own

    [json] is [serde_json::Value]: the public data type, with the accessors
    the crate uses.  Objects are association lists in iteration order with
    distinct keys; equality does not depend on that order.  SHA-256, the
    serializers ([serde_json], [serde_jcs]) and JSON-pointer lookup are
    interfaces: [Sha256], [Serialize], [Deserialize], [JsonPointer]. *)
From S2P Require Export Prelude.
From Stdlib Require Export Strings.Byte.
From Stdlib Require Import Floats.SpecFloat.

(** ** Values *)

(** [serde_json::Number]: [u64], a negative [i64] or a finite [f64]. *)
Inductive number : Type :=
| PosInt (n : N)
| NegInt (z : Z)
| Float (f : spec_float).

Inductive json : Type :=
| JNull
| JBool (b : bool)
| JNumber (n : number)
| JString (s : string)
| JArray (items : list json)
| JObject (fields : list (string * json)).

Abbreviation obj := (list (string * json)).

Definition as_object (v : json) : option obj :=
  match v with JObject o => Some o | _ => None end.
Definition as_array (v : json) : option (list json) :=
  match v with JArray l => Some l | _ => None end.
Definition as_str_value (v : json) : option string :=
  match v with JString s => Some s | _ => None end.
Definition as_bool (v : json) : option bool :=
  match v with JBool b => Some b | _ => None end.
Definition as_u64 (v : json) : option N :=
  match v with JNumber (PosInt n) => Some n | _ => None end.
Definition is_null (v : json) : bool := match v with JNull => true | _ => false end.
Definition is_boolean (v : json) : bool := match v with JBool _ => true | _ => false end.
Definition is_number (v : json) : bool := match v with JNumber _ => true | _ => false end.
Definition is_string (v : json) : bool := match v with JString _ => true | _ => false end.
Definition is_array (v : json) : bool := match v with JArray _ => true | _ => false end.
Definition is_object (v : json) : bool := match v with JObject _ => true | _ => false end.

(** [Map::get], [Map::contains_key], [Map::insert]. *)
Fixpoint obj_get (k : string) (o : obj) : option json :=
  match o with
  | [] => None
  | (k', v) :: o => if bool_decide (k = k') then Some v else obj_get k o
  end.
Definition obj_contains (k : string) (o : obj) : bool :=
  match obj_get k o with Some _ => true | None => false end.
Fixpoint obj_insert (k : string) (v : json) (o : obj) : obj :=
  match o with
  | [] => [(k, v)]
  | (k', v') :: o => if bool_decide (k = k') then (k, v) :: o else (k', v') :: obj_insert k v o
  end.
(** [for (k, v) in other { map.insert(k, v); }] *)
Definition obj_extend (o other : obj) : obj :=
  foldl (λ acc kv, obj_insert kv.1 kv.2 acc) o other.

(** [Value::get] with a string index. *)
Definition value_get (k : string) (v : json) : option json :=
  match v with JObject o => obj_get k o | _ => None end.

(** [PartialEq for Value]: numbers of different kinds differ, floats compare
    as IEEE numbers, objects as maps. *)
Definition number_eqb (a b : number) : bool :=
  match a, b with
  | PosInt n, PosInt m => n =? m
  | NegInt n, NegInt m => (n =? m)%Z
  | Float f, Float g => SFeqb f g
  | _, _ => false
  end.

Fixpoint json_eqb (a b : json) {struct a} : bool :=
  match a, b with
  | JNull, JNull => true
  | JBool x, JBool y => Bool.eqb x y
  | JNumber x, JNumber y => number_eqb x y
  | JString x, JString y => bool_decide (x = y)
  | JArray x, JArray y =>
      (fix go (x y : list json) : bool :=
         match x, y with
         | [], [] => true
         | u :: x, v :: y => json_eqb u v && go x y
         | _, _ => false
         end) x y
  | JObject x, JObject y =>
      (len x =? len y) &&
      (fix go (x : obj) : bool :=
         match x with
         | [] => true
         | (k, u) :: x =>
             match obj_get k y with Some v => json_eqb u v | None => false end && go x
         end) x
  | _, _ => false
  end.

Definition opt_json_eqb (a b : option json) : bool :=
  match a, b with
  | None, None => true
  | Some x, Some y => json_eqb x y
  | _, _ => false
  end.

(** [str::parse::<usize>]: an optional [+], then decimal digits, no overflow. *)
Fixpoint parse_digits (acc : N) (s : string) : option N :=
  match s with
  | EmptyString => Some acc
  | String c s =>
      if in_range 48 57 (byte_of c) then
        let acc := acc * 10 + (byte_of c - 48) in
        if acc <=? usize_max then parse_digits acc s else None
      else None
  end.
Definition parse_usize (s : string) : option N :=
  match s with
  | EmptyString => None
  | String c s' =>
      if byte_of c =? 43
      then (if str_is_empty s' then None else parse_digits 0 s')
      else parse_digits 0 s
  end.

(** ** Interfaces to code outside the repository *)

Abbreviation bytes := (list Byte.byte).
Definition as_bytes (s : string) : bytes := String.list_byte_of_string s.

(** [format!("{:x}", Sha256::digest(bytes))]. *)
Class Sha256 : Type := sha256_hex : bytes → string.
(** The digest prints as 64 lower-case hexadecimal digits. *)
Class Sha256Laws `{Sha256} : Prop := {
  sha256_hex_len : ∀ m, String.length (sha256_hex m) = 64%nat;
  sha256_hex_digits : ∀ m, all_bytes is_lower_hexdigit (sha256_hex m) = true
}.

(** [serde_json::to_vec] and [serde_jcs::to_vec] at one type. *)
Class Serialize (T : Type) : Type := {
  to_vec : T → option bytes;
  jcs_to_vec : T → option bytes
}.
(** [serde_json::from_slice] at one type. *)
Class Deserialize (T : Type) : Type := from_slice : bytes → option T.
(** Deriving both traits on one type gives mutually inverse functions. *)
Class SerdeRoundTrip (T : Type) `{Serialize T, Deserialize T} : Prop :=
  from_slice_to_vec : ∀ (x : T) bs, to_vec x = Some bs → from_slice bs = Some x.

(** [Value::pointer]. *)
Class JsonPointer : Type := value_pointer : json → string → option json.

(** A concrete digest for evaluating the model: a multiplicative hash printed
    as 64 hexadecimal digits.  It is not SHA-256; it only satisfies the same
    interface. *)
Definition hex_char (n : N) : Ascii.ascii :=
  if n <? 10 then Ascii.ascii_of_N (48 + n) else Ascii.ascii_of_N (87 + n).
Fixpoint hex_digits (count : nat) (n : N) : string :=
  match count with
  | O => EmptyString
  | S c => String (hex_char (n mod 16)) (hex_digits c (n / 16))
  end.
Definition demo_digest (m : bytes) : N :=
  foldl (λ acc b, ((acc + Byte.to_N b + 1) * 340282366920938463463374607431768211507)
                  mod 2 ^ 256) 5381 m.
Definition demo_sha256 : Sha256 := λ m, hex_digits 64 (demo_digest m).

(** ** Facts *)

Section object_facts.
Implicit Types o : obj.

Lemma obj_get_insert k k' v o :
  obj_get k (obj_insert k' v o) = if bool_decide (k = k') then Some v else obj_get k o.
Proof.
  induction o as [|[k1 v1] o IH]; simpl; [done|].
  repeat case_bool_decide; simplify_eq/=; repeat case_bool_decide; simplify_eq/=; done.
Qed.

Lemma obj_get_None k o : obj_get k o = None ↔ k ∉ o.*1.
Proof.
  induction o as [|[k1 v1] o IH]; simpl; [set_solver|].
  case_bool_decide; set_solver.
Qed.

Lemma obj_get_Some_elem k v o : obj_get k o = Some v → (k, v) ∈ o.
Proof.
  induction o as [|[k1 v1] o IH]; simpl; [done|].
  case_bool_decide; [intros [= ->]; subst; by left|]. intros. right. auto.
Qed.

Lemma obj_get_elem k v o : NoDup o.*1 → (k, v) ∈ o → obj_get k o = Some v.
Proof.
  induction o as [|[k1 v1] o IH]; [set_solver|]. simpl.
  intros [Hk Hnd]%NoDup_cons [[= -> ->]|Hin]%elem_of_cons; [by rewrite bool_decide_true|].
  rewrite bool_decide_false; [auto|]. intros ->. apply Hk.
  apply list_elem_of_fmap. by exists (k1, v).
Qed.

Lemma obj_insert_keys k v o :
  (obj_insert k v o).*1 = if bool_decide (k ∈ o.*1) then o.*1 else o.*1 ++ [k].
Proof.
  induction o as [|[k1 v1] o IH]; [done|]. cbn [obj_insert].
  destruct (decide (k = k1)) as [<-|Hne].
  - rewrite bool_decide_true by done. csimpl. rewrite bool_decide_true; [done|by left].
  - rewrite (bool_decide_false (k = k1)) by done. csimpl. rewrite IH.
    destruct (decide (k ∈ o.*1)) as [Hin|Hin].
    + rewrite !bool_decide_true; [done|by right|done].
    + rewrite !bool_decide_false; [done| |done]. by rewrite not_elem_of_cons.
Qed.

Lemma obj_insert_NoDup k v o : NoDup o.*1 → NoDup (obj_insert k v o).*1.
Proof.
  intros Hnd. rewrite obj_insert_keys. case_bool_decide; [done|].
  rewrite NoDup_app. split_and!; [done|set_solver|apply NoDup_singleton].
Qed.
End object_facts.

Lemma hex_digits_len c n : String.length (hex_digits c n) = c.
Proof. revert n. induction c; simpl; auto. Qed.

Lemma hex_char_lower n : n < 16 → is_lower_hexdigit (byte_of (hex_char n)) = true.
Proof.
  intros Hn. unfold hex_char, byte_of, is_lower_hexdigit, in_range.
  destruct (n <? 10) eqn:E; boolify; rewrite Ascii.N_ascii_embedding by lia;
    rewrite ?orb_true_iff, ?andb_true_iff, ?N.leb_le; lia.
Qed.

Lemma hex_digits_lower c n : all_bytes is_lower_hexdigit (hex_digits c n) = true.
Proof.
  revert n. induction c as [|c IH]; intros n; cbn [hex_digits all_bytes]; [done|].
  rewrite IH, hex_char_lower; [done|]. apply N.mod_lt. lia.
Qed.

#[export] Instance demo_sha256_laws : @Sha256Laws demo_sha256.
Proof. split; intros; [apply hex_digits_len|apply hex_digits_lower]. Qed.
