(* ===== verification/Protocol.v ===== *)
(** * Protocol primitives ([crates/aworkit-protocol/src/lib.rs])

    Stable identifiers, envelopes and their validation, and the bounded
    four-byte length-prefixed framing with its incremental decoder. *)
From S2P Require Export Json.

Definition MAX_FRAME_BYTES : N := 1024 * 1024.
Definition FRAME_PREFIX_BYTES : nat := 4.
Definition MAX_SAFE_WIRE_INTEGER : N := 9007199254740991.

Inductive EnvelopeKind : Type :=
| KCommand | KEvent | KRequest | KResult | KError.
#[export] Instance EnvelopeKind_eq_dec : EqDecision EnvelopeKind.
Proof. solve_decision. Defined.

Inductive ProtocolError : Type :=
| InvalidStableId
| FrameTooLarge
| TruncatedFrame
| TrailingBytes
| UnsupportedSchemaVersion (v : N)
| EnvelopeKindMismatch (expected actual : EnvelopeKind)
| InvalidProcessGeneration
| InvalidWireInteger
| InvalidText
| InvalidJson.

(** ** Stable identifiers *)

Definition valid_stable_id (value : string) : bool :=
  negb (str_is_empty value)
  && (str_len value <=? 128)
  && all_bytes (λ b, is_ascii_alphanumeric b || (b =? 95) || (b =? 45) || (b =? 46)) value.

(** The field is private and [parse] is the only constructor, so a value of
    the type carries its validity. *)
Record StableId : Type := StableId_ {
  as_str : string;
  as_str_valid : Is_true (valid_stable_id as_str)
}.

Definition parse_with (value : string) (b : bool) :
    (Is_true b → Is_true (valid_stable_id value)) → option StableId :=
  match b with
  | true => λ f, Some (StableId_ value (f I))
  | false => λ _, None
  end.
Definition parse_opt (value : string) : option StableId :=
  parse_with value (valid_stable_id value) (λ x, x).
Definition StableId_parse (value : string) : result ProtocolError StableId :=
  ok_or (parse_opt value) InvalidStableId.

Definition ProcessGeneration : Type := N.

(** ** Envelopes *)

Record Envelope (T : Type) : Type := MkEnvelope {
  env_schema_version : N;
  env_message_id : StableId;
  env_generation : ProcessGeneration;
  env_kind : EnvelopeKind;
  env_payload : T
}.
Arguments MkEnvelope {T}.
Arguments env_schema_version {T}.
Arguments env_message_id {T}.
Arguments env_generation {T}.
Arguments env_kind {T}.
Arguments env_payload {T}.

(** [trait WirePayload]. *)
Class WirePayload (T : Type) : Type := {
  KIND : EnvelopeKind;
  wire_validate : T → result ProtocolError ()
}.
Arguments KIND T {_}.

Definition Envelope_v1 {T} (message_id : StableId) (generation : ProcessGeneration)
    (kind : EnvelopeKind) (payload : T) : Envelope T :=
  MkEnvelope 1 message_id generation kind payload.
Definition Envelope_typed `{WirePayload T} (message_id : StableId)
    (generation : ProcessGeneration) (payload : T) : Envelope T :=
  Envelope_v1 message_id generation (KIND T) payload.

Definition validate_envelope {T} (e : Envelope T) : result ProtocolError () :=
  _ ← fail_if (negb (env_schema_version e =? 1)) (UnsupportedSchemaVersion (env_schema_version e));
  _ ← fail_if (MAX_SAFE_WIRE_INTEGER <? env_generation e) InvalidProcessGeneration;
  Ok ().

Definition validate_typed `{WirePayload T} (e : Envelope T) : result ProtocolError () :=
  _ ← validate_envelope e;
  _ ← fail_if (negb (bool_decide (env_kind e = KIND T)))
              (EnvelopeKindMismatch (KIND T) (env_kind e));
  wire_validate (env_payload e).

Definition validate_bounded_text (value : string) (maximum : N) : result ProtocolError () :=
  fail_if (str_is_empty value || (maximum <? chars_count value)) InvalidText.
Definition validate_safe_wire_integer (value : N) : result ProtocolError () :=
  fail_if (MAX_SAFE_WIRE_INTEGER <? value) InvalidWireInteger.

Record BaseCommand : Type := MkBaseCommand { cmd_name : string; cmd_target_id : StableId }.
Record BaseEvent : Type := MkBaseEvent { ev_name : string; ev_sequence : N }.
Record BaseRequest : Type := MkBaseRequest { req_operation : string; req_correlation_id : StableId }.
Record BaseResult : Type := MkBaseResult { res_correlation_id : StableId; res_accepted : bool }.
Record BaseError : Type := MkBaseError { err_code : string; err_message : string; err_retryable : bool }.

#[export] Instance BaseCommand_wire : WirePayload BaseCommand := {|
  KIND := KCommand;
  wire_validate c := validate_bounded_text (cmd_name c) 256
|}.
#[export] Instance BaseEvent_wire : WirePayload BaseEvent := {|
  KIND := KEvent;
  wire_validate e := _ ← validate_bounded_text (ev_name e) 256; validate_safe_wire_integer (ev_sequence e)
|}.
#[export] Instance BaseRequest_wire : WirePayload BaseRequest := {|
  KIND := KRequest;
  wire_validate r := validate_bounded_text (req_operation r) 256
|}.
#[export] Instance BaseResult_wire : WirePayload BaseResult := {|
  KIND := KResult;
  wire_validate _ := Ok ()
|}.
#[export] Instance BaseError_wire : WirePayload BaseError := {|
  KIND := KError;
  wire_validate e := _ ← validate_bounded_text (err_code e) 256; validate_bounded_text (err_message e) 4096
|}.

(** ** Framing *)

Definition byte_of_N (n : N) : Byte.byte := default Byte.x00 (Byte.of_N (n mod 256)).
(** [u32::to_be_bytes] and [u32::from_be_bytes]. *)
Definition to_be_bytes (n : N) : bytes :=
  [byte_of_N (n / 2 ^ 24); byte_of_N (n / 2 ^ 16); byte_of_N (n / 2 ^ 8); byte_of_N n].
Definition from_be_bytes (b : bytes) : N :=
  foldl (λ acc x, acc * 256 + Byte.to_N x) 0 b.

Definition encode_frame `{Serialize T} (message : T) : result ProtocolError bytes :=
  body ← ok_or (to_vec message) InvalidJson;
  _ ← fail_if (MAX_FRAME_BYTES <? len body) FrameTooLarge;
  _ ← fail_if (u32_max <? len body) FrameTooLarge;
  Ok (to_be_bytes (len body) ++ body).

Definition encode_typed_frame `{WirePayload T} `{Serialize (Envelope T)} (e : Envelope T) :
    result ProtocolError bytes :=
  _ ← validate_typed e; encode_frame e.

Definition decode_frame `{Deserialize T} (frame : bytes) : result ProtocolError T :=
  _ ← fail_if (length frame <? FRAME_PREFIX_BYTES)%nat TruncatedFrame;
  let body_length := from_be_bytes (take FRAME_PREFIX_BYTES frame) in
  _ ← fail_if (MAX_FRAME_BYTES <? body_length) FrameTooLarge;
  let expected_length := 4 + body_length in
  _ ← fail_if (len frame <? expected_length) TruncatedFrame;
  _ ← fail_if (expected_length <? len frame) TrailingBytes;
  ok_or (from_slice (drop FRAME_PREFIX_BYTES frame)) InvalidJson.

Definition decode_typed_frame `{WirePayload T} `{Deserialize (Envelope T)} (frame : bytes) :
    result ProtocolError (Envelope T) :=
  e ← decode_frame frame; _ ← validate_typed e; Ok e.

(** [FrameDecoder]: the state is the buffered prefix of the next frame. *)
Record FrameDecoder : Type := MkFrameDecoder { buffer : bytes }.
Definition FrameDecoder_default : FrameDecoder := MkFrameDecoder [].

(** The [while offset < chunk.len()] loop of [push]; [chunk] is what is left
    of the input.  Every iteration consumes at least one byte, so the length
    of the chunk is enough fuel. *)
Fixpoint push_loop `{Deserialize T} (fuel : nat) (buf chunk : bytes) (messages : list T) :
    bytes * result ProtocolError (list T) :=
  match fuel with
  | O => (buf, Ok messages)
  | S fuel =>
      if bool_decide (chunk = []) then (buf, Ok messages) else
      let need_prefix := (length buf <? FRAME_PREFIX_BYTES)%nat in
      let prefix_bytes :=
        if need_prefix then Nat.min (FRAME_PREFIX_BYTES - length buf) (length chunk) else 0%nat in
      let buf := buf ++ take prefix_bytes chunk in
      let chunk := drop prefix_bytes chunk in
      if (length buf <? FRAME_PREFIX_BYTES)%nat then push_loop fuel buf chunk messages else
      let body_length := from_be_bytes (take FRAME_PREFIX_BYTES buf) in
      if MAX_FRAME_BYTES <? body_length then ([], Err FrameTooLarge) else
      let frame_length := (FRAME_PREFIX_BYTES + N.to_nat body_length)%nat in
      let body_bytes := Nat.min (frame_length - length buf) (length chunk) in
      let buf := buf ++ take body_bytes chunk in
      let chunk := drop body_bytes chunk in
      if negb (length buf =? frame_length)%nat then push_loop fuel buf chunk messages else
      match decode_frame buf with
      | Ok m => push_loop fuel [] chunk (messages ++ [m])
      | Err e => ([], Err e)
      end
  end.

Definition push `{Deserialize T} (chunk : bytes) : stm FrameDecoder ProtocolError (list T) :=
  λ d, let '(b, r) := push_loop (length chunk) (buffer d) chunk [] in (MkFrameDecoder b, r).

(** ** Identifier facts *)

Lemma as_str_inj i j : as_str i = as_str j → i = j.
Proof.
  destruct i as [s Hs], j as [t Ht]; simpl. intros <-. f_equal. apply proof_irrel.
Qed.
#[export] Instance as_str_injective : Inj (=) (=) as_str := as_str_inj.
#[export] Instance StableId_eq_dec : EqDecision StableId.
Proof.
  intros i j. destruct (decide (as_str i = as_str j)) as [H|H].
  - left. by apply as_str_inj.
  - right. congruence.
Defined.

Lemma parse_with_Some s b f i :
  (Is_true (valid_stable_id s) → Is_true b) → parse_with s b f = Some i ↔ as_str i = s.
Proof.
  intros Hb. destruct i as [t Ht], b; simpl.
  - split; [by intros [= ->]|]. intros <-. do 2 f_equal. apply proof_irrel.
  - split; [done|]. intros <-. destruct (Hb Ht).
Qed.

Lemma parse_opt_Some s i : parse_opt s = Some i ↔ as_str i = s.
Proof. by apply parse_with_Some. Qed.

Lemma parse_opt_as_str i : parse_opt (as_str i) = Some i.
Proof. by apply parse_opt_Some. Qed.

Lemma StableId_parse_ok s i : StableId_parse s = Ok i ↔ as_str i = s.
Proof. unfold StableId_parse. by rewrite ok_or_ok, parse_opt_Some. Qed.

Lemma parse_opt_is_Some s : is_Some (parse_opt s) ↔ valid_stable_id s = true.
Proof.
  split.
  - intros [i <-%parse_opt_Some]. apply Is_true_true, as_str_valid.
  - intros H. apply Is_true_true in H. exists (StableId_ s H). by apply parse_opt_Some.
Qed.

(** [set.iter().filter_map(|id| StableId::parse(id).ok())] loses nothing when
    every element is an identifier. *)
Lemma parsed_ids (s : gset string) :
  (∀ i, i ∈ s → is_Some (parse_opt i)) → as_str <$> omap parse_opt (bt_elems s) = bt_elems s.
Proof.
  intros Hs. assert (∀ i, i ∈ bt_elems s → is_Some (parse_opt i)) as Hl by (intros i ?%elem_of_bt_elems; auto).
  induction (bt_elems s) as [|i l IH]; [done|]. csimpl.
  destruct (Hl i ltac:(by left)) as [j Hj]. rewrite Hj. csimpl.
  rewrite IH by (intros; apply Hl; by right). apply parse_opt_Some in Hj. by subst.
Qed.
Lemma length_parsed_ids (s : gset string) :
  (∀ i, i ∈ s → is_Some (parse_opt i)) → len (omap parse_opt (bt_elems s)) = bs_len s.
Proof.
  intros Hs. unfold len, bs_len. by rewrite <-(length_fmap as_str), parsed_ids, length_bt_elems.
Qed.

(** ** Identifiers made from a digest *)

Lemma hexdigit_alphanumeric b : is_lower_hexdigit b = true → is_ascii_alphanumeric b = true.
Proof.
  unfold is_lower_hexdigit, is_ascii_alphanumeric, in_range.
  rewrite !orb_true_iff, !andb_true_iff, !N.leb_le. lia.
Qed.

Lemma digest_id_total `{Sha256Laws} p n m :
  all_bytes (λ b, is_ascii_alphanumeric b || (b =? 95) || (b =? 45) || (b =? 46)) p = true →
  str_is_empty p = false → (String.length p + n <=? 128)%nat = true →
  ∃ i, StableId_parse (p +:+ str_take n (sha256_hex m)) = Ok i.
Proof.
  intros Hp Hne Hlen%Nat.leb_le.
  assert (is_Some (parse_opt (p +:+ str_take n (sha256_hex m)))) as [i Hi];
    [|exists i; unfold StableId_parse; by rewrite Hi].
  apply parse_opt_is_Some. unfold valid_stable_id. rewrite !andb_true_iff. split_and!.
  - by destruct p.
  - apply N.leb_le. unfold str_len. rewrite str_length_app.
    pose proof (length_str_take n (sha256_hex m)). lia.
  - rewrite all_bytes_app, Hp. eapply all_bytes_impl; [|apply all_bytes_take, sha256_hex_digits].
    intros b ->%hexdigit_alphanumeric. done.
Qed.

(** ** Frame facts *)

Lemma to_N_byte_of_N n : Byte.to_N (byte_of_N n) = n mod 256.
Proof.
  unfold byte_of_N. destruct (Byte.of_N (n mod 256)) as [b|] eqn:E; simpl.
  - by apply Byte.to_of_N in E.
  - apply Byte.of_N_None_iff in E. pose proof (N.mod_lt n 256). lia.
Qed.

Lemma from_to_be_bytes n : n ≤ u32_max → from_be_bytes (to_be_bytes n) = n.
Proof.
  intros Hn. unfold from_be_bytes, to_be_bytes. cbn [foldl]. rewrite !to_N_byte_of_N.
  unfold u32_max in Hn. change (2 ^ 24) with 16777216. change (2 ^ 16) with 65536.
  change (2 ^ 8) with 256. rewrite <-!(N.Div0.div_div n 256) || idtac.
  pose proof (N.Div0.div_mod n 256). pose proof (N.Div0.div_mod (n / 256) 256).
  pose proof (N.Div0.div_mod (n / 256 / 256) 256).
  assert (n / 65536 = n / 256 / 256) as -> by (by rewrite N.Div0.div_div).
  assert (n / 16777216 = n / 256 / 256 / 256) as -> by (by rewrite !N.Div0.div_div).
  assert (n / 256 / 256 / 256 < 256).
  { rewrite !N.Div0.div_div. apply N.Div0.div_lt_upper_bound. lia. }
  rewrite (N.mod_small (n / 256 / 256 / 256)) by lia. lia.
Qed.

Section framing.
Context {T : Type} `{!Serialize T} `{!Deserialize T}.

(** A buffer that holds no complete frame and no rejected prefix. *)
Definition decoder_ok (buf : bytes) : Prop :=
  (length buf < FRAME_PREFIX_BYTES)%nat ∨
  (from_be_bytes (take FRAME_PREFIX_BYTES buf) ≤ MAX_FRAME_BYTES ∧
   (length buf < FRAME_PREFIX_BYTES
                 + N.to_nat (from_be_bytes (take FRAME_PREFIX_BYTES buf)))%nat).

(** Reference decoder: cut the whole byte stream into frames. *)
Fixpoint decode_stream (fuel : nat) (s : bytes) (messages : list T) :
    bytes * result ProtocolError (list T) :=
  match fuel with
  | O => (s, Ok messages)
  | S fuel =>
      if (length s <? FRAME_PREFIX_BYTES)%nat then (s, Ok messages) else
      let body_length := from_be_bytes (take FRAME_PREFIX_BYTES s) in
      if MAX_FRAME_BYTES <? body_length then ([], Err FrameTooLarge) else
      let frame_length := (FRAME_PREFIX_BYTES + N.to_nat body_length)%nat in
      if (length s <? frame_length)%nat then (s, Ok messages) else
      match decode_frame (take frame_length s) with
      | Ok m => decode_stream fuel (drop frame_length s) (messages ++ [m])
      | Err e => ([], Err e)
      end
  end.

Lemma decode_stream_idle fuel buf msgs :
  decoder_ok buf → decode_stream fuel buf msgs = (buf, Ok msgs).
Proof.
  intros [H|[H1 H2]]; destruct fuel; cbn [decode_stream]; try done.
  - by apply Nat.ltb_lt in H as ->.
  - destruct (length buf <? FRAME_PREFIX_BYTES)%nat; [done|].
    apply N.ltb_ge in H1 as ->. by apply Nat.ltb_lt in H2 as ->.
Qed.

Lemma decode_stream_fuel n m s msgs :
  (length s <= n)%nat → (length s <= m)%nat → decode_stream n s msgs = decode_stream m s msgs.
Proof.
  revert m s msgs. induction n as [|n IH]; intros m s msgs Hn Hm.
  { assert (s = []) as -> by (destruct s; simpl in *; [done|lia]).
    symmetry. apply decode_stream_idle. left. simpl. unfold FRAME_PREFIX_BYTES. lia. }
  destruct m as [|m].
  { assert (s = []) as -> by (destruct s; simpl in *; [done|lia]).
    apply decode_stream_idle. left. simpl. unfold FRAME_PREFIX_BYTES. lia. }
  cbn [decode_stream]. destruct (Nat.ltb_spec (length s) FRAME_PREFIX_BYTES); [done|].
  destruct (MAX_FRAME_BYTES <? _); [done|].
  destruct (Nat.ltb_spec (length s)
    (FRAME_PREFIX_BYTES + N.to_nat (from_be_bytes (take FRAME_PREFIX_BYTES s)))); [done|].
  destruct (decode_frame _); [|done].
  apply IH; rewrite length_drop; unfold FRAME_PREFIX_BYTES in *; lia.
Qed.

Lemma push_loop_stream n m buf chunk msgs :
  decoder_ok buf → (length chunk <= n)%nat → (length (buf ++ chunk) <= m)%nat →
  push_loop n buf chunk msgs = decode_stream m (buf ++ chunk) msgs.
Proof.
  revert m buf chunk msgs. induction n as [|n IH]; intros m buf chunk msgs Hok Hn Hm.
  { assert (chunk = []) as -> by (destruct chunk; simpl in *; [done|lia]).
    rewrite app_nil_r. by rewrite decode_stream_idle. }
  cbn [push_loop]. case_bool_decide as Hc.
  { subst. rewrite app_nil_r. by rewrite decode_stream_idle. }
  assert (0 < length chunk)%nat as Hpos by (destruct chunk; simpl; [done|lia]).
  set (p := if (length buf <? FRAME_PREFIX_BYTES)%nat
            then Nat.min (FRAME_PREFIX_BYTES - length buf) (length chunk) else 0%nat).
  assert (Hp : (length buf < FRAME_PREFIX_BYTES
                 ∧ p = Nat.min (FRAME_PREFIX_BYTES - length buf) (length chunk)
               ∨ FRAME_PREFIX_BYTES <= length buf ∧ p = 0)%nat)
    by (unfold p; destruct (Nat.ltb_spec (length buf) FRAME_PREFIX_BYTES); auto).
  clearbody p.
  assert (Hsplit : buf ++ chunk = (buf ++ take p chunk) ++ drop p chunk)
    by (by rewrite <-app_assoc, take_drop).
  assert (Hlen1 : (length (buf ++ take p chunk) = length buf + p)%nat)
    by (rewrite length_app, length_take; lia).
  assert (Hlc1 : (length (drop p chunk) = length chunk - p)%nat) by apply length_drop.
  assert (Hsame : (FRAME_PREFIX_BYTES <= length buf)%nat →
                  take FRAME_PREFIX_BYTES (buf ++ take p chunk) = take FRAME_PREFIX_BYTES buf)
    by (intros; by rewrite take_app_le).
  set (buf1 := buf ++ take p chunk) in *. set (chunk1 := drop p chunk) in *.
  destruct (Nat.ltb_spec (length buf1) FRAME_PREFIX_BYTES) as [Hshort|Hlong].
  { rewrite Hsplit. apply IH; [by left|lia|by rewrite <-Hsplit]. }
  assert (Htake : take FRAME_PREFIX_BYTES (buf ++ chunk) = take FRAME_PREFIX_BYTES buf1)
    by (rewrite Hsplit; by rewrite take_app_le).
  assert (Hinc : (length buf < FRAME_PREFIX_BYTES
                   + N.to_nat (from_be_bytes (take FRAME_PREFIX_BYTES buf1)))%nat).
  { destruct Hok as [?|[_ ?]]; [lia|].
    destruct (Nat.le_gt_cases FRAME_PREFIX_BYTES (length buf)); [|lia]. by rewrite Hsame. }
  set (bl := from_be_bytes (take FRAME_PREFIX_BYTES buf1)) in *.
  assert (Hlen : (length (buf ++ chunk) = length buf1 + length chunk1)%nat)
    by (rewrite Hsplit; apply length_app).
  destruct m as [|m]; [lia|].
  cbn [decode_stream]. rewrite Htake. fold bl.
  destruct (Nat.ltb_spec (length (buf ++ chunk)) FRAME_PREFIX_BYTES); [lia|].
  destruct (N.ltb_spec MAX_FRAME_BYTES bl) as [|Hbl]; [done|].
  set (fl := (FRAME_PREFIX_BYTES + N.to_nat bl)%nat) in *.
  assert (Hb1 : (length buf1 <= fl)%nat) by (unfold fl; lia).
  set (q := Nat.min (fl - length buf1) (length chunk1)).
  assert (Hq : q = Nat.min (fl - length buf1) (length chunk1)) by done. clearbody q.
  assert (Hlen2 : (length (buf1 ++ take q chunk1) = length buf1 + q)%nat)
    by (rewrite length_app, length_take; lia).
  rewrite Hlen2. destruct (Nat.eqb_spec (length buf1 + q) fl) as [Hfull|Hpart]; cbn [negb].
  - destruct (Nat.ltb_spec (length (buf ++ chunk)) fl); [lia|].
    rewrite Hsplit, <-Hfull, take_app_add, drop_app_add.
    destruct (decode_frame _) as [msg|e]; [|done].
    rewrite <-(app_nil_l (drop q chunk1)). apply IH.
    + left. cbn. unfold FRAME_PREFIX_BYTES. lia.
    + rewrite length_drop. lia.
    + rewrite app_nil_l, length_drop. unfold FRAME_PREFIX_BYTES in *. lia.
  - destruct (Nat.ltb_spec (length (buf ++ chunk)) fl); [|lia].
    assert (drop q chunk1 = []) as -> by (apply nil_length_inv; rewrite length_drop; lia).
    assert (Hok2 : decoder_ok (buf1 ++ take q chunk1)).
    { right. rewrite take_app_le by lia. fold bl. rewrite Hlen2. fold fl. lia. }
    rewrite (IH (S m)) by (rewrite ?app_nil_r, ?Hlen2; try done; simpl; lia).
    rewrite app_nil_r, (decode_stream_idle _ _ _ Hok2), Hsplit. do 3 f_equal.
    apply take_ge. lia.
Qed.

Lemma decode_stream_acc n s pre msgs :
  decode_stream n s (pre ++ msgs)
  = match decode_stream n s msgs with
    | (r, Ok ms) => (r, Ok (pre ++ ms))
    | (r, Err e) => (r, Err e)
    end.
Proof.
  revert s msgs. induction n as [|n IH]; intros s msgs; cbn [decode_stream]; [done|].
  destruct (_ <? FRAME_PREFIX_BYTES)%nat; [done|]. destruct (MAX_FRAME_BYTES <? _); [done|].
  destruct (_ <? _)%nat; [done|]. destruct (decode_frame _); [|done].
  rewrite <-app_assoc. apply IH.
Qed.

Lemma decode_stream_shrinks n s msgs rest ms :
  decode_stream n s msgs = (rest, Ok ms) → (length rest <= length s)%nat.
Proof.
  revert s msgs. induction n as [|n IH]; intros s msgs; cbn [decode_stream]; [by intros [= <- <-]|].
  repeat (case_match; try done); intros E; simplify_eq; try done.
  apply IH in E. rewrite length_drop in E. lia.
Qed.

Lemma decode_stream_rest_ok n s msgs rest ms :
  (length s <= n)%nat → decode_stream n s msgs = (rest, Ok ms) → decoder_ok rest.
Proof.
  revert s msgs. induction n as [|n IH]; intros s msgs Hn; cbn [decode_stream].
  { intros [= <- <-]. left. unfold FRAME_PREFIX_BYTES. lia. }
  destruct (Nat.ltb_spec (length s) FRAME_PREFIX_BYTES); [intros [= <- <-]; by left|].
  destruct (N.ltb_spec MAX_FRAME_BYTES (from_be_bytes (take FRAME_PREFIX_BYTES s))); [done|].
  destruct (Nat.ltb_spec (length s)
    (FRAME_PREFIX_BYTES + N.to_nat (from_be_bytes (take FRAME_PREFIX_BYTES s)))).
  { intros [= <- <-]. right. lia. }
  destruct (decode_frame _); [|done]. apply IH.
  rewrite length_drop. unfold FRAME_PREFIX_BYTES in *. lia.
Qed.

(** The stream [s ++ b] decodes as [s], then what is left of [s] with [b]. *)
Lemma decode_stream_app n s b msgs :
  (length (s ++ b) <= n)%nat →
  decode_stream n (s ++ b) msgs
  = match decode_stream n s msgs with
    | (rest, Ok ms) => decode_stream n (rest ++ b) ms
    | (rest, Err e) => (rest, Err e)
    end.
Proof.
  revert s msgs. induction n as [|n IH]; intros s msgs Hn.
  { by assert (s = []) as -> by (destruct s; simpl in *; [done|lia]). }
  destruct (decide (length s < FRAME_PREFIX_BYTES)%nat) as [Hs|Hs].
  { rewrite (decode_stream_idle _ s) by (by left). done. }
  assert (Htake : take FRAME_PREFIX_BYTES (s ++ b) = take FRAME_PREFIX_BYTES s)
    by (apply take_app_le; lia).
  set (fl := (FRAME_PREFIX_BYTES + N.to_nat (from_be_bytes (take FRAME_PREFIX_BYTES s)))%nat).
  destruct (N.ltb_spec MAX_FRAME_BYTES (from_be_bytes (take FRAME_PREFIX_BYTES s))) as [Hb|Hb].
  { cbn [decode_stream]. rewrite Htake, length_app. apply N.ltb_lt in Hb as ->.
    by rewrite !(proj2 (Nat.ltb_ge _ _)) by lia. }
  destruct (decide (length s < fl)%nat) as [Hfl|Hfl].
  { rewrite (decode_stream_idle _ s) by (right; fold fl; lia). done. }
  cbn [decode_stream]. rewrite Htake, length_app. apply N.ltb_ge in Hb as ->. fold fl.
  rewrite !(proj2 (Nat.ltb_ge _ _)) by lia.
  rewrite take_app_le, drop_app_le by lia.
  destruct (decode_frame (take fl s)) as [m|e]; [|done].
  assert (Hfl4 : (FRAME_PREFIX_BYTES <= fl)%nat) by (unfold fl; lia).
  rewrite length_app in Hn. unfold FRAME_PREFIX_BYTES in *.
  rewrite IH by (rewrite length_app, length_drop; lia).
  destruct (decode_stream n (drop fl s) _) as [rest [ms|e]] eqn:E; [|done].
  apply decode_stream_shrinks in E.
  apply (decode_stream_fuel n (S n)); rewrite length_app, ?length_drop in *; lia.
Qed.

Lemma push_stream d chunk :
  decoder_ok (buffer d) →
  push chunk d = let '(b, r) := decode_stream (length (buffer d ++ chunk)) (buffer d ++ chunk) []
                 in (MkFrameDecoder b, r).
Proof. intros Hok. unfold push. by rewrite (push_loop_stream _ (length (buffer d ++ chunk))). Qed.

(** Chunk boundaries do not matter to the incremental decoder: pushing
    [a ++ b] gives the messages of pushing [a] and then [b], and leaves the
    same buffer; a chunk that is rejected is rejected with the same error
    whatever follows it. *)
Theorem push_chunking (d d' : FrameDecoder) (a b : bytes) (r : result ProtocolError (list T)) :
  decoder_ok (buffer d) → push a d = (d', r) →
  match r with
  | Ok ms =>
      decoder_ok (buffer d') ∧
      push (a ++ b) d = (let '(d2, r2) := push b d' in (d2, (ms ++.) <$> r2))
  | Err e => push (T:=T) (a ++ b) d = (d', Err e)
  end.
Proof.
  intros Hok Hpush. rewrite (push_stream _ _ Hok) in Hpush.
  set (n := length (buffer d ++ a ++ b)).
  rewrite (decode_stream_fuel _ n) in Hpush by (unfold n; rewrite !length_app; lia).
  rewrite (push_stream _ (a ++ b) Hok). fold n.
  rewrite app_assoc, decode_stream_app by (unfold n; by rewrite !length_app, Nat.add_assoc).
  destruct (decode_stream n (buffer d ++ a) []) as [rest [ms|e]] eqn:E; simplify_eq/=; [|done].
  assert (decoder_ok rest) as Hrest.
  { eapply decode_stream_rest_ok; [|exact E]. unfold n. rewrite !length_app. lia. }
  split; [done|]. rewrite push_stream by done. simpl.
  rewrite <-(app_nil_r ms) at 1. rewrite decode_stream_acc.
  apply decode_stream_shrinks in E.
  rewrite (decode_stream_fuel n (length (rest ++ b)))
    by (unfold n; rewrite ?length_app in *; lia).
  by destruct (decode_stream _ (rest ++ b) []) as [? []].
Qed.
End framing.

(** The identity codec on raw bytes: a concrete message type for evaluating
    the framing. *)
Definition raw_serialize : Serialize bytes := {| to_vec := Some; jcs_to_vec := Some |}.
Definition raw_deserialize : Deserialize bytes := Some.
Lemma raw_round_trip : @SerdeRoundTrip bytes raw_serialize raw_deserialize.
Proof. intros x bs. exact (λ H, eq_sym H). Qed.

Lemma push_chunking_witness :
  decoder_ok [] ∧ ∃ d', push (T:=bytes) (H:=raw_deserialize) [x00; x00; x00; x01] FrameDecoder_default = (d', Ok [])
  ∧ decoder_ok (buffer d')
  ∧ push (T:=bytes) (H:=raw_deserialize) ([x00; x00; x00; x01] ++ [x41]) FrameDecoder_default
    = (MkFrameDecoder [], Ok [[x41]]).
Proof.
  assert (decoder_ok []) as H0 by (left; unfold FRAME_PREFIX_BYTES; simpl; lia).
  split; [exact H0|]. eexists. split; [vm_compute; reflexivity|].
  pose proof (push_chunking (T:=bytes) (Deserialize0:=raw_deserialize) FrameDecoder_default
                (MkFrameDecoder [x00; x00; x00; x01]) [x00; x00; x00; x01] [x41] (Ok []) H0 eq_refl)
    as [Hok Heq].
  split; [exact Hok|]. rewrite Heq. vm_compute. reflexivity.
Defined.

Section round_trip.
Context {T : Type} `{!Serialize T} `{!Deserialize T} `{!SerdeRoundTrip T}.

Lemma encode_frame_ok (m : T) f :
  encode_frame m = Ok f ↔
  ∃ body, to_vec m = Some body ∧ len body ≤ MAX_FRAME_BYTES ∧ f = to_be_bytes (len body) ++ body.
Proof.
  unfold encode_frame. destruct (to_vec m) as [body|]; simpl; [|naive_solver].
  unfold fail_if, MAX_FRAME_BYTES, u32_max.
  destruct (N.ltb_spec (1024 * 1024) (len body)); simpl.
  { split; [done|]. intros (b & [= ->] & Hle & _). lia. }
  destruct (N.ltb_spec 4294967295 (len body)); simpl; [lia|].
  split; [intros [= <-]; eauto|]. by intros (b & [= ->] & Hle & ->).
Qed.

Lemma frame_header body :
  len body ≤ MAX_FRAME_BYTES →
  from_be_bytes (take FRAME_PREFIX_BYTES (to_be_bytes (len body) ++ body)) = len body.
Proof.
  intros Hle. rewrite take_app_le by done. rewrite firstn_all2 by done.
  apply from_to_be_bytes. unfold MAX_FRAME_BYTES, u32_max in *. lia.
Qed.

Lemma decode_encoded (m : T) body :
  to_vec m = Some body → len body ≤ MAX_FRAME_BYTES →
  decode_frame (to_be_bytes (len body) ++ body) = Ok m.
Proof using SerdeRoundTrip0.
  intros Hbody Hle.
  assert (len (to_be_bytes (len body) ++ body) = 4 + len body) as Hlen
    by (unfold len; rewrite length_app; simpl; lia).
  unfold decode_frame. rewrite frame_header, Hlen by done. unfold fail_if.
  destruct (Nat.ltb_spec (length (to_be_bytes (len body) ++ body)) FRAME_PREFIX_BYTES) as [H|H].
  { rewrite length_app in H. unfold FRAME_PREFIX_BYTES in H. simpl in H. lia. }
  rewrite (proj2 (N.ltb_ge _ _)) by done. cbn. rewrite !(proj2 (N.ltb_ge _ _)) by lia. cbn.
  by rewrite (from_slice_to_vec _ _ Hbody).
Qed.

(** A frame that [encode_frame] produces decodes to the message it was
    made from, and no message larger than the frame limit is ever framed. *)
Theorem frame_round_trip (m : T) (f : bytes) :
  encode_frame m = Ok f → decode_frame f = Ok m ∧ len f ≤ 4 + MAX_FRAME_BYTES.
Proof using SerdeRoundTrip0.
  intros (body & Hbody & Hle & ->)%encode_frame_ok.
  split; [by apply decode_encoded|]. unfold len in *. rewrite length_app. simpl. lia.
Qed.

Lemma decode_stream_step (m : T) body n rest acc :
  to_vec m = Some body → len body ≤ MAX_FRAME_BYTES →
  decode_stream (S n) ((to_be_bytes (len body) ++ body) ++ rest) acc
  = decode_stream n rest (acc ++ [m]).
Proof using SerdeRoundTrip0.
  intros Hbody Hle. pose proof (decode_encoded m body Hbody Hle) as Hdec.
  pose proof (frame_header body Hle) as Hhead.
  set (f := to_be_bytes (len body) ++ body) in *.
  assert (Hlf : length f = (FRAME_PREFIX_BYTES + N.to_nat (len body))%nat)
    by (unfold f, len; rewrite length_app; simpl; lia).
  cbn [decode_stream]. rewrite take_app_le by lia. rewrite Hhead.
  rewrite (proj2 (N.ltb_ge _ _)) by done.
  rewrite !(proj2 (Nat.ltb_ge _ _)) by (rewrite length_app; lia).
  by rewrite <-Hlf, take_app_length, drop_app_length, Hdec.
Qed.

(** Feeding the concatenation of encoded frames to a fresh decoder, in
    one chunk, returns exactly the messages in order and leaves the buffer
    empty. *)
Theorem push_encoded_frames (ms : list T) (fs : list bytes) :
  Forall2 (λ m f, encode_frame m = Ok f) ms fs →
  push (mjoin fs) FrameDecoder_default = (FrameDecoder_default, Ok ms).
Proof using SerdeRoundTrip0.
  intros Hall. rewrite push_stream by (left; cbn; unfold FRAME_PREFIX_BYTES; lia).
  cbn [buffer FrameDecoder_default app].
  enough (∀ acc, decode_stream (length (mjoin fs)) (mjoin fs) acc = ([], Ok (acc ++ ms))) as Hgen
    by (by rewrite Hgen).
  induction Hall as [|m f ms fs Hf Hall IH]; intros acc; [by rewrite app_nil_r|].
  apply encode_frame_ok in Hf as (body & Hbody & Hle & ->).
  change (mjoin (?f :: fs)) with (f ++ mjoin fs).
  rewrite (decode_stream_fuel _ (S (S (S (S (length body + length (mjoin fs)))))))
    by (rewrite !length_app; cbn [length to_be_bytes]; lia).
  rewrite (decode_stream_step m) by done.
  rewrite (decode_stream_fuel _ (length (mjoin fs))) by lia. by rewrite IH, <-app_assoc.
Qed.
End round_trip.

Lemma frame_round_trip_witness :
  ∃ f, encode_frame (H:=raw_serialize) [x41; x42] = Ok f
       ∧ decode_frame (H:=raw_deserialize) f = Ok [x41; x42].
Proof.
  exists [x00; x00; x00; x02; x41; x42]. split; [vm_compute; reflexivity|].
  apply (@frame_round_trip bytes raw_serialize raw_deserialize raw_round_trip).
  vm_compute. reflexivity.
Defined.

Lemma push_encoded_frames_witness :
  push (H:=raw_deserialize) [x00; x00; x00; x01; x41; x00; x00; x00; x00] FrameDecoder_default
  = (FrameDecoder_default, Ok [[x41]; []]).
Proof.
  apply (@push_encoded_frames bytes raw_serialize raw_deserialize raw_round_trip
           [[x41]; []] [[x00; x00; x00; x01; x41]; [x00; x00; x00; x00]]).
  repeat constructor; vm_compute; reflexivity.
Defined.
