(* ===== verification/Wire.v ===== *)
(** * Core/worker contracts ([crates/aworkit-protocol/src/runtime.rs],
    with the extension and history types it mentions)

    The data that crosses the boundary between the trusted core and the
    workflow worker.  A field keeps its name behind a prefix for its record. *)
From S2P Require Export Protocol.

Record WorkerPortV1 : Type := MkPort {
  port_name : string;
  port_schema_ref : option string;
  port_required : bool
}.

Inductive WorkerExecutorKindV1 : Type :=
| ExPure | ExBrokered | ExModel | ExAgent | ExSubagent
| ExWait | ExRouter | ExBranch | ExJoin | ExTerminal.
#[export] Instance WorkerExecutorKindV1_eq_dec : EqDecision WorkerExecutorKindV1.
Proof. solve_decision. Defined.

Record WorkerNodeV1 : Type := MkNode {
  wn_node_id : StableId;
  wn_node_type : string;
  wn_node_version : N;
  wn_contribution_hash : string;
  wn_inputs : list WorkerPortV1;
  wn_outputs : list WorkerPortV1;
  wn_executor : WorkerExecutorKindV1;
  wn_config : json;
  wn_capability_ref : option StableId;
  wn_result_schema_ref : option string
}.

Record WorkerTransitionV1 : Type := MkTransition {
  wt_transition_id : StableId;
  wt_from_node : StableId;
  wt_from_port : string;
  wt_to_node : StableId;
  wt_to_port : string;
  wt_priority : Z;
  wt_predicate : option json;
  wt_declared_loop_id : option StableId
}.

Record WorkerLoopDescriptorV1 : Type := MkLoop {
  wl_loop_id : StableId;
  wl_maximum_iterations : N;
  wl_body_entry : StableId;
  wl_body_exit : StableId
}.

Record WorkerJoinDescriptorV1 : Type := MkJoin {
  wj_join_id : StableId;
  wj_node_id : StableId;
  wj_expected_branches : list StableId;
  wj_merge_policy : string
}.

Record WorkerRouteRuleV1 : Type := MkRoute {
  wr_route_id : StableId;
  wr_node_id : StableId;
  wr_priority : Z;
  wr_predicate : json;
  wr_destination_transition : StableId
}.

Record WorkerBudgetV1 : Type := MkBudget {
  wb_turns : N; wb_attempts : N; wb_tool_calls : N; wb_tokens : N; wb_cost_micros : N;
  wb_actions : N; wb_depth : N; wb_fanout : N; wb_parallel : N; wb_deadline_ms : N
}.

Record ExtensionIdentityV1 : Type := MkExtensionIdentity {
  ei_extension_id : StableId;
  ei_version : string;
  ei_content_hash : string
}.

Record ExtensionRuntimeBindingV1 : Type := MkExtensionBinding {
  eb_identity : ExtensionIdentityV1;
  eb_contribution_id : StableId;
  eb_host_id : StableId;
  eb_host_generation : ProcessGeneration;
  eb_handshake_hash : string
}.

Record FrozenCapabilityBindingV1 : Type := MkBinding {
  fb_capability_id : StableId;
  fb_adapter_id : StableId;
  fb_adapter_version : string;
  fb_descriptor_hash : string;
  fb_extension : option ExtensionRuntimeBindingV1;
  fb_required_isolation_profile : option string
}.

Inductive HistoryBackendV1 : Type :=
| LocalSqlite
| PortableProject (repository_id : StableId).

Record WorkerFrozenRunSnapshotV1 : Type := MkSnapshot {
  ws_snapshot_id : StableId;
  ws_snapshot_hash : string;
  ws_chat_id : StableId;
  ws_run_id : StableId;
  ws_schema_version : N;
  ws_compiler_version : string;
  ws_workflow_hash : string;
  ws_nodes : list WorkerNodeV1;
  ws_transitions : list WorkerTransitionV1;
  ws_entry_nodes : list StableId;
  ws_loop_descriptors : list WorkerLoopDescriptorV1;
  ws_join_descriptors : list WorkerJoinDescriptorV1;
  ws_route_rules : list WorkerRouteRuleV1;
  ws_authority_manifest_ref : StableId;
  ws_authority_manifest_hash : string;
  ws_capability_bindings : list FrozenCapabilityBindingV1;
  ws_capability_refs : list StableId;
  ws_workspace_identity : json;
  ws_budget : WorkerBudgetV1;
  ws_history_mode : HistoryBackendV1
}.

Inductive ApprovalOutcomeV1 : Type :=
| AoApproved | AoDenied | AoExpired | AoCancelled.

Inductive CapabilityOutcomeClassV1 : Type :=
| CoSuccess | CoDefiniteNotStarted | CoFailedKnownStarted
| CoCancelledEvidence | CoUncertain | CoDenied.

Record CapabilityOutcomeV1 : Type := MkOutcome {
  co_outcome_id : StableId;
  co_invocation_id : StableId;
  co_class : CapabilityOutcomeClassV1;
  co_retry_safe_proof : bool;
  co_payload : json;
  co_usage : option json
}.

Record WorkerCheckpointV1 : Type := MkCheckpoint {
  wc_checkpoint_id : StableId;
  wc_snapshot_hash : string;
  wc_plan_hash : string;
  wc_checkpoint_hash : string;
  wc_prior_generation : ProcessGeneration;
  wc_committed_cursor : N;
  wc_proposal_sequence : N;
  wc_token_frontier : json;
  wc_context_heads : json;
  wc_context_revision_dag : json;
  wc_branch_frames : json;
  wc_loop_frames : json;
  wc_budget_state : json;
  wc_attempt_state : json;
  wc_no_resend_state : json;
  wc_suspension_state : json;
  wc_child_frames : json
}.

Record RehydrationEnvelopeV1 : Type := MkRehydration {
  re_snapshot : WorkerFrozenRunSnapshotV1;
  re_checkpoint : WorkerCheckpointV1;
  re_replacement_generation : ProcessGeneration;
  re_committed_deltas : list json;
  re_reconciled_outcomes : list CapabilityOutcomeV1
}.

Inductive WorkerControlKindV1 : Type :=
| CkStart (snapshot : WorkerFrozenRunSnapshotV1)
| CkRestore (rehydration : RehydrationEnvelopeV1)
| CkInput (input_id : StableId) (payload : json)
| CkApproval (approval_id : StableId) (outcome : ApprovalOutcomeV1)
| CkPause (control_id : StableId) (scope : string)
| CkResume (control_id : StableId) (scope : string)
| CkCancel (control_id : StableId) (scope : string)
| CkCapabilityOutcome (outcome : CapabilityOutcomeV1)
| CkCommittedAck (proposal_id : StableId) (committed_cursor : N)
| CkShutdown (control_id : StableId).

Record WorkerControlEnvelopeV1 : Type := MkControl {
  ce_message_id : StableId;
  ce_chat_id : StableId;
  ce_run_id : StableId;
  ce_generation : ProcessGeneration;
  ce_snapshot_hash : string;
  ce_committed_cursor : N;
  ce_control : WorkerControlKindV1
}.

Record WorkerInvocationProposalV1 : Type := MkInvocation {
  ip_invocation_id : StableId;
  ip_node_id : StableId;
  ip_attempt_id : StableId;
  ip_capability_ref : StableId;
  ip_authority_manifest_ref : StableId;
  ip_budget_ref : StableId;
  ip_payload : json
}.

Inductive WorkerProposalKindV1 : Type :=
| PkReady (plan_fingerprint : string)
| PkTransition (transition_id : StableId) (facts : json)
| PkInvocation (invocation : WorkerInvocationProposalV1)
| PkSuspension (suspension_id : StableId) (state : json)
| PkCheckpoint (checkpoint : WorkerCheckpointV1)
| PkTerminal (outcome : string) (facts : json)
| PkHealth (facts : json)
| PkRehydrationReady (checkpoint_hash : string)
| PkRehydrationBlocked (code message : string).

Record WorkerProposalEnvelopeV1 : Type := MkProposal {
  pe_proposal_id : StableId;
  pe_chat_id : StableId;
  pe_run_id : StableId;
  pe_generation : ProcessGeneration;
  pe_snapshot_hash : string;
  pe_worker_sequence : N;
  pe_base_committed_cursor : N;
  pe_proposal : WorkerProposalKindV1
}.

Record WorkerHandshakeV1 : Type := MkHandshake {
  wh_protocol_version : N;
  wh_worker_version : string;
  wh_chat_id : StableId;
  wh_run_id : StableId;
  wh_generation : ProcessGeneration;
  wh_snapshot_hash : string;
  wh_plan_fingerprint : string;
  wh_executable_identity : string
}.

Record WorkerHeartbeatV1 : Type := MkHeartbeat {
  hb_sequence : N;
  hb_monotonic_time_ms : N;
  hb_active : bool;
  hb_quiescent : bool
}.

Inductive WorkerOutputKindV1 : Type :=
| OkHandshake (handshake : WorkerHandshakeV1)
| OkProposal (proposal : WorkerProposalEnvelopeV1)
| OkHeartbeat (heartbeat : WorkerHeartbeatV1)
| OkError (code message : string)
| OkShutdownAck (control_id : StableId).

Record WorkerOutputEnvelopeV1 : Type := MkOutput {
  oe_message_id : StableId;
  oe_generation : ProcessGeneration;
  oe_output : WorkerOutputKindV1
}.

(** [is_canonical_sha256] of [extension.rs]: [sha256:] and 64 lower-case
    hexadecimal digits. *)
Definition is_canonical_sha256 (value : string) : bool :=
  (str_len value =? 71)
  && match strip_prefix "sha256:" value with
     | Some digest => all_bytes is_lower_hexdigit digest
     | None => false
     end.

(** An identifier for evaluating the model. *)
Definition sid (s : string) (H : Is_true (valid_stable_id s)) : StableId := StableId_ s H.
Notation "'id:' s" := (sid s I) (at level 1, s at level 0, only parsing) : stdpp_scope.
