(* ===== verification/Routing.v ===== *)
(** * Route predicates and route choice
    ([crates/aworkit-workflow-worker/src/routing.rs]) *)
From S2P Require Export Wire.

Definition MAX_PREDICATE_DEPTH : N := 32.
Definition MAX_PREDICATE_TERMS : N := 256.

Inductive RouteTraceOutcome : Type := Matched | NotMatched.

Record RouteTraceEntry : Type := MkTraceEntry {
  te_route_id : StableId;
  te_priority : Z;
  te_outcome : RouteTraceOutcome
}.

Record RoutingDecisionV1 : Type := MkDecision {
  rd_route_id : StableId;
  rd_transition_id : StableId;
  rd_trace : list RouteTraceEntry
}.

Inductive RoutingError : Type :=
| NoMatch (node : string)
| InvalidPredicate (message : string)
| PredicateTooComplex.

(** [resolve_path]: [path.split('.').try_fold(...)]. *)
Definition resolve_step (value : option json) (segment : string) : option json :=
  match value with
  | None => None
  | Some v =>
      if str_is_empty segment then None
      else match parse_usize segment with
           | Some index => l ← as_array v; l !! N.to_nat index
           | None => o ← as_object v; obj_get segment o
           end
  end.
Definition resolve_path (facts : json) (path : string) : option json :=
  if str_is_empty path || (512 <? str_len path) then None
  else foldl resolve_step (Some facts) (split_on "."%char path).

(** The outcome of evaluating one predicate: the number of terms visited so
    far (the [&mut usize] counter) and the result. *)
Definition eval_out : Type := N * result RoutingError bool.

(** The loops over the children of [and] ([stop := false]) and [or]
    ([stop := true]): evaluation stops at the first child equal to [stop]. *)
Fixpoint eval_children (eval : json → N → eval_out) (stop : bool)
    (children : list json) (terms : N) : eval_out :=
  match children with
  | [] => (terms, Ok (negb stop))
  | child :: children =>
      match eval child terms with
      | (terms, Ok b) =>
          if Bool.eqb b stop then (terms, Ok stop) else eval_children eval stop children terms
      | (terms, Err e) => (terms, Err e)
      end
  end.

(** [evaluate].  The recursion depth is bounded by the code itself; [fuel]
    counts the levels left before the guard [depth > MAX_PREDICATE_DEPTH]
    rejects, so fuel zero is that rejection. *)
Fixpoint evaluate (fuel : nat) (predicate facts : json) (depth terms : N) : eval_out :=
  match fuel with
  | O => (terms, Err PredicateTooComplex)
  | S fuel =>
      if (MAX_PREDICATE_DEPTH <? depth) || (MAX_PREDICATE_TERMS <=? terms)
      then (terms, Err PredicateTooComplex) else
      let terms := terms + 1 in
      match as_object predicate with
      | None => (terms, Err (InvalidPredicate "predicate must be an object"))
      | Some [(operator, operand)] =>
          if bool_decide (operator = "always") then
            (terms, ok_or (as_bool operand) (InvalidPredicate "always requires a boolean"))
          else if bool_decide (operator = "exists") then
            match as_str_value operand with
            | None => (terms, Err (InvalidPredicate "exists requires a path"))
            | Some path =>
                (terms, Ok (match resolve_path facts path with Some _ => true | None => false end))
            end
          else if bool_decide (operator = "eq") || bool_decide (operator = "neq") then
            match as_object operand with
            | None => (terms, Err (InvalidPredicate (operator +:+ " requires an object")))
            | Some comparison =>
                if negb (len comparison =? 2)
                   || negb (obj_contains "path" comparison)
                   || negb (obj_contains "value" comparison)
                then (terms, Err (InvalidPredicate (operator +:+ " requires only path and value")))
                else match obj_get "path" comparison ≫= as_str_value with
                     | None => (terms, Err (InvalidPredicate (operator +:+ ".path must be text")))
                     | Some path =>
                         let equal := opt_json_eqb (resolve_path facts path)
                                                   (obj_get "value" comparison) in
                         (terms, Ok (if bool_decide (operator = "eq") then equal else negb equal))
                     end
            end
          else if bool_decide (operator = "and") || bool_decide (operator = "or") then
            match as_array operand with
            | None => (terms, Err (InvalidPredicate (operator +:+ " requires an array")))
            | Some children =>
                if is_nil children || (MAX_PREDICATE_TERMS <? len children)
                then (terms, Err (InvalidPredicate
                                    (operator +:+ " requires a non-empty bounded array")))
                else eval_children (λ child terms, evaluate fuel child facts (depth + 1) terms)
                       (bool_decide (operator = "or")) children terms
            end
          else if bool_decide (operator = "not") then
            match evaluate fuel operand facts (depth + 1) terms with
            | (terms, Ok b) => (terms, Ok (negb b))
            | (terms, Err e) => (terms, Err e)
            end
          else (terms, Err (InvalidPredicate ("unknown operator " +:+ operator)))
      | Some _ => (terms, Err (InvalidPredicate "predicate must contain exactly one operator"))
      end
  end.

(** The guard admits depths [0..32], so 34 levels of fuel cover every call:
    the guard fires before the fuel runs out. *)
Definition EVALUATE_FUEL : nat := 34.

Definition evaluate_predicate (predicate facts : json) : result RoutingError bool :=
  (evaluate EVALUATE_FUEL predicate facts 0 0).2.

Definition route_cmp (left right : WorkerRouteRuleV1) : comparison :=
  then_with (Z.compare (wr_priority left) (wr_priority right))
            (String.compare (as_str (wr_route_id left)) (as_str (wr_route_id right))).

(** The loop of [choose_route] over the ordered rules. *)
Fixpoint choose_loop (node_id : StableId) (ordered : list WorkerRouteRuleV1)
    (facts : json) (trace : list RouteTraceEntry) : result RoutingError RoutingDecisionV1 :=
  match ordered with
  | [] => Err (NoMatch (as_str node_id))
  | rule :: ordered =>
      match evaluate_predicate (wr_predicate rule) facts with
      | Err e => Err e
      | Ok matched =>
          let trace := trace ++ [MkTraceEntry (wr_route_id rule) (wr_priority rule)
                                   (if matched then Matched else NotMatched)] in
          if matched
          then Ok (MkDecision (wr_route_id rule) (wr_destination_transition rule) trace)
          else choose_loop node_id ordered facts trace
      end
  end.
Definition choose_route (node_id : StableId) (rules : list WorkerRouteRuleV1) (facts : json) :
    result RoutingError RoutingDecisionV1 :=
  choose_loop node_id (sort_by route_cmp rules) facts [].

(** ** Route choice *)

#[export] Instance route_cmp_ord : Cmp route_cmp.
Proof.
  unfold route_cmp. apply (cmp_then_with (on_key wr_priority Z.compare)
    (on_key (λ r, as_str (wr_route_id r)) String.compare)).
Qed.

Definition rule_matches (facts : json) (b : bool) (r : WorkerRouteRuleV1) : Prop :=
  evaluate_predicate (wr_predicate r) facts = Ok b.
Definition trace_entry (o : RouteTraceOutcome) (r : WorkerRouteRuleV1) : RouteTraceEntry :=
  MkTraceEntry (wr_route_id r) (wr_priority r) o.

Lemma choose_loop_ok node ordered facts trace d :
  choose_loop node ordered facts trace = Ok d ↔
  ∃ pre r post, ordered = pre ++ r :: post
    ∧ Forall (rule_matches facts false) pre ∧ rule_matches facts true r
    ∧ d = MkDecision (wr_route_id r) (wr_destination_transition r)
            (trace ++ (trace_entry NotMatched <$> pre) ++ [trace_entry Matched r]).
Proof.
  revert trace. induction ordered as [|r ordered IH]; intros trace; simpl.
  { split; [done|]. intros (pre & r & post & H & _). by destruct pre. }
  destruct (evaluate_predicate (wr_predicate r) facts) as [[]|e] eqn:E.
  - split.
    + intros [= <-]. exists [], r, ordered. auto.
    + intros (pre & r' & post & Heq & Hpre & Hr & ->). destruct pre as [|r1 pre]; simplify_eq/=; [done|].
      apply Forall_cons in Hpre as [Hr1 _]. unfold rule_matches in Hr1. congruence.
  - rewrite IH. split.
    + intros (pre & r' & post & -> & Hpre & Hr & ->). exists (r :: pre), r', post.
      split_and!; [done|by constructor|done|]. by rewrite <-!app_assoc.
    + intros (pre & r' & post & Heq & Hpre & Hr & ->). destruct pre as [|r1 pre]; simplify_eq/=.
      { unfold rule_matches in Hr. congruence. }
      apply Forall_cons in Hpre as [Hr1 Hpre]. exists pre, r', post.
      split_and!; [done..|]. by rewrite <-!app_assoc.
  - split; [done|]. intros (pre & r' & post & Heq & Hpre & Hr & ->).
    destruct pre as [|r1 pre]; simplify_eq/=; unfold rule_matches in *; [congruence|].
    apply Forall_cons in Hpre as [Hr1 _]. congruence.
Qed.

(** [choose_route] selects the least rule, in [(priority, route_id)] order,
    whose predicate holds: every rule before it in that order evaluates to
    false, every rule that evaluates to true is not before it, and the trace
    records exactly the rules that were tried. *)
Theorem choose_route_least (node : StableId) (rules : list WorkerRouteRuleV1) (facts : json)
    (d : RoutingDecisionV1) :
  choose_route node rules facts = Ok d →
  ∃ r pre, r ∈ rules ∧ rule_matches facts true r
    ∧ rd_route_id d = wr_route_id r ∧ rd_transition_id d = wr_destination_transition r
    ∧ rd_trace d = (trace_entry NotMatched <$> pre) ++ [trace_entry Matched r]
    ∧ (∀ r', r' ∈ pre → r' ∈ rules ∧ rule_matches facts false r')
    ∧ (∀ r', r' ∈ rules → rule_matches facts true r' → route_cmp r r' ≠ Gt)
    ∧ (∀ r', r' ∈ rules → route_cmp r' r = Lt → rule_matches facts false r').
Proof.
  intros (pre & r & post & Heq & Hpre & Hr & ->)%choose_loop_ok.
  pose proof (sort_by_sorted route_cmp rules) as Hs. rewrite Heq in Hs.
  unfold sorted_by in Hs. apply StronglySorted_app in Hs as (Hlr & _ & Hs).
  apply StronglySorted_cons in Hs as [Hpost _]. rewrite Forall_forall in Hpre, Hpost.
  assert (∀ x, x ∈ rules ↔ x ∈ pre ++ r :: post) as Hin
    by (intros x; by rewrite <-Heq, elem_of_sort_by).
  exists r, pre. split_and!; try done.
  - apply Hin. set_solver.
  - intros r' Hr'. split; [apply Hin; set_solver|by apply Hpre].
  - intros r' Hr'%Hin Hm. apply elem_of_app in Hr' as [Hr'|Hr'].
    + apply Hpre in Hr'. unfold rule_matches in *. congruence.
    + apply elem_of_cons in Hr' as [->|Hr']; [by rewrite (cmp_refl route_cmp)|].
      specialize (Hpost _ Hr'). unfold cmp_leb in Hpost. by destruct (route_cmp r r').
  - intros r' Hr'%Hin Hlt. apply elem_of_app in Hr' as [Hr'|Hr']; [by apply Hpre|].
    apply elem_of_cons in Hr' as [->|Hr']; [by rewrite (cmp_refl route_cmp) in Hlt|].
    specialize (Hpost _ Hr'). unfold cmp_leb in Hpost. rewrite (cmp_opp route_cmp r' r), Hlt in Hpost.
    done.
Qed.

Definition demo_rule (i : StableId) (p : Z) (pred : json) : WorkerRouteRuleV1 :=
  MkRoute i (id:"router") p pred (id:"t1").

Lemma choose_route_least_witness :
  ∃ d, choose_route (id:"router")
         [demo_rule (id:"b") 5 (JObject [("always", JBool true)]);
          demo_rule (id:"a") 1 (JObject [("always", JBool false)])] JNull = Ok d
       ∧ rd_route_id d = id:"b" ∧ length (rd_trace d) = 2%nat.
Proof.
  eexists. split; [vm_compute; reflexivity|].
  edestruct (choose_route_least (id:"router")
    [demo_rule (id:"b") 5 (JObject [("always", JBool true)]);
     demo_rule (id:"a") 1 (JObject [("always", JBool false)])] JNull) as (r & pre & _);
    [vm_compute; reflexivity|].
  split; vm_compute; reflexivity.
Defined.

(** Route choice does not depend on the order in which the frozen rules
    are listed, as long as no two of them share priority and identifier. *)
Theorem choose_route_order_independent (node : StableId) (rules rules' : list WorkerRouteRuleV1)
    (facts : json) :
  NoDup ((λ r, (wr_priority r, wr_route_id r)) <$> rules) → rules ≡ₚ rules' →
  choose_route node rules facts = choose_route node rules' facts.
Proof.
  intros Hnd Hp. unfold choose_route. f_equal. apply sort_by_perm_eq; [apply _| |done].
  intros x y Hx Hy Hxy. unfold route_cmp in Hxy.
  destruct (Z.compare_spec (wr_priority x) (wr_priority y)) as [Hpr|?|?]; simpl in Hxy; try done.
  apply (cmp_eq_eq String.compare), as_str_inj in Hxy.
  apply list_elem_of_lookup in Hx as [i Hi]. apply list_elem_of_lookup in Hy as [j Hj].
  assert (i = j) as <-; [|congruence].
  eapply NoDup_lookup; [exact Hnd| |]; rewrite list_lookup_fmap.
  - by rewrite Hi.
  - rewrite Hj. simpl. by rewrite Hpr, Hxy.
Qed.

Lemma choose_route_order_independent_witness :
  choose_route (id:"router")
    [demo_rule (id:"b") 5 (JObject [("always", JBool true)]);
     demo_rule (id:"a") 5 (JObject [("always", JBool true)])] JNull
  = choose_route (id:"router")
    [demo_rule (id:"a") 5 (JObject [("always", JBool true)]);
     demo_rule (id:"b") 5 (JObject [("always", JBool true)])] JNull.
Proof.
  apply choose_route_order_independent; [|apply Permutation_swap].
  simpl. repeat constructor; set_unfold; naive_solver.
Defined.

(** ** Meaning of the predicate language

    [pred] is the abstract syntax the JSON encodes, [denote] its truth value
    in a fact base, without counters, depth limits or short-circuiting. *)

Inductive pred : Type :=
| PAlways (b : bool)
| PExists (path : string)
| PEq (path : string) (v : json)
| PNeq (path : string) (v : json)
| PAnd (ps : list pred)
| POr (ps : list pred)
| PNot (p : pred).

Fixpoint denote (facts : json) (p : pred) : bool :=
  match p with
  | PAlways b => b
  | PExists path => bool_decide (is_Some (resolve_path facts path))
  | PEq path v => opt_json_eqb (resolve_path facts path) (Some v)
  | PNeq path v => negb (opt_json_eqb (resolve_path facts path) (Some v))
  | PAnd ps => forallb (denote facts) ps
  | POr ps => existsb (denote facts) ps
  | PNot p => negb (denote facts p)
  end.

Fixpoint pred_json (p : pred) : json :=
  JObject [match p with
           | PAlways b => ("always", JBool b)
           | PExists path => ("exists", JString path)
           | PEq path v => ("eq", JObject [("path", JString path); ("value", v)])
           | PNeq path v => ("neq", JObject [("path", JString path); ("value", v)])
           | PAnd ps => ("and", JArray (map pred_json ps))
           | POr ps => ("or", JArray (map pred_json ps))
           | PNot p => ("not", pred_json p)
           end].

Fixpoint pred_depth (p : pred) : nat :=
  match p with
  | PAnd ps | POr ps => S (foldr Nat.max 0%nat (map pred_depth ps))
  | PNot p => S (pred_depth p)
  | _ => 0%nat
  end.
Fixpoint pred_size (p : pred) : nat :=
  match p with
  | PAnd ps | POr ps => S (foldr Nat.add 0%nat (map pred_size ps))
  | PNot p => S (pred_size p)
  | _ => 1%nat
  end.
(** Connectives have at least one operand. *)
Fixpoint pred_ok (p : pred) : bool :=
  match p with
  | PAnd ps | POr ps => negb (is_nil ps) && forallb pred_ok ps
  | PNot p => pred_ok p
  | _ => true
  end.

Section pred_induction.
Variable P : pred → Prop.
Hypothesis Halways : ∀ b, P (PAlways b).
Hypothesis Hexists : ∀ path, P (PExists path).
Hypothesis Heq : ∀ path v, P (PEq path v).
Hypothesis Hneq : ∀ path v, P (PNeq path v).
Hypothesis Hand : ∀ ps, Forall P ps → P (PAnd ps).
Hypothesis Hor : ∀ ps, Forall P ps → P (POr ps).
Hypothesis Hnot : ∀ p, P p → P (PNot p).
Fixpoint pred_nested_ind (p : pred) : P p :=
  let go := fix go ps : Forall P ps :=
    match ps with [] => Forall_nil_2 _ | p :: ps => Forall_cons_2 _ _ _ (pred_nested_ind p) (go ps) end in
  match p with
  | PAlways b => Halways b
  | PExists path => Hexists path
  | PEq path v => Heq path v
  | PNeq path v => Hneq path v
  | PAnd ps => Hand ps (go ps)
  | POr ps => Hor ps (go ps)
  | PNot p => Hnot p (pred_nested_ind p)
  end.
End pred_induction.

Definition fits (p : pred) (fuel : nat) (depth terms : N) : Prop :=
  (pred_depth p < fuel)%nat ∧ depth + N.of_nat (pred_depth p) ≤ MAX_PREDICATE_DEPTH
  ∧ terms + N.of_nat (pred_size p) ≤ MAX_PREDICATE_TERMS.

Definition eval_agrees (facts : json) (p : pred) : Prop :=
  ∀ fuel depth terms, pred_ok p = true → fits p fuel depth terms →
  ∃ terms', evaluate fuel (pred_json p) facts depth terms = (terms', Ok (denote facts p))
    ∧ terms' ≤ terms + N.of_nat (pred_size p).

Lemma pred_size_pos p : (0 < pred_size p)%nat.
Proof. destruct p; simpl; lia. Qed.

(** The loop over the children of a connective. *)
Lemma eval_children_agrees facts fuel depth stop ps terms :
  Forall (eval_agrees facts) ps → forallb pred_ok ps = true →
  (foldr Nat.max 0 (map pred_depth ps) < fuel)%nat →
  depth + N.of_nat (foldr Nat.max 0%nat (map pred_depth ps)) ≤ MAX_PREDICATE_DEPTH →
  terms + N.of_nat (foldr Nat.add 0%nat (map pred_size ps)) ≤ MAX_PREDICATE_TERMS →
  ∃ terms',
    eval_children (λ c t, evaluate fuel c facts depth t) stop (map pred_json ps) terms
    = (terms', Ok (if stop then existsb (denote facts) ps else forallb (denote facts) ps))
    ∧ terms' ≤ terms + N.of_nat (foldr Nat.add 0%nat (map pred_size ps)).
Proof.
  intros Hall. revert terms. induction Hall as [|p ps Hp Hall IH]; intros terms; simpl.
  { intros. exists terms. destruct stop; split; auto; lia. }
  intros [Hok Hoks]%andb_true_iff Hf Hd Ht.
  destruct (Hp fuel depth terms Hok) as (t1 & -> & Ht1); [unfold fits; lia|].
  destruct (IH t1) as (t2 & Hev & Ht2); [done|lia..|].
  destruct (Bool.eqb_spec (denote facts p) stop) as [E|E].
  - exists t1. split; [|lia]. rewrite E. by destruct stop.
  - exists t2. rewrite Hev. split; [|lia]. by destruct (denote facts p), stop.
Qed.

Lemma eval_guard_open depth terms :
  depth ≤ MAX_PREDICATE_DEPTH → terms < MAX_PREDICATE_TERMS →
  (MAX_PREDICATE_DEPTH <? depth) || (MAX_PREDICATE_TERMS <=? terms) = false.
Proof. intros. apply orb_false_iff. rewrite N.ltb_ge, N.leb_gt. lia. Qed.

Lemma length_le_sum_sizes ps : (length ps <= foldr Nat.add 0 (map pred_size ps))%nat.
Proof. induction ps as [|p ps IH]; simpl; [done|]. pose proof (pred_size_pos p). lia. Qed.

Lemma eval_connective_guard ps terms :
  negb (is_nil ps) = true →
  terms + N.of_nat (S (foldr Nat.add 0%nat (map pred_size ps))) ≤ MAX_PREDICATE_TERMS →
  is_nil (map pred_json ps) || (MAX_PREDICATE_TERMS <? len (map pred_json ps)) = false.
Proof.
  intros Hne Ht. pose proof (length_le_sum_sizes ps) as Hl.
  apply orb_false_iff. split; [by destruct ps|].
  apply N.ltb_ge. unfold len. rewrite length_map. lia.
Qed.

Lemma eval_agrees_all facts p : eval_agrees facts p.
Proof.
  induction p as [b|path|path v|path v|ps Hps|ps Hps|p IH] using pred_nested_ind;
    intros [|fuel] depth terms Hok (Hf & Hd & Ht); simpl in Hok, Hf, Hd, Ht; try lia;
    (rewrite <-?andb_lazy_alt in Hok); cbn [evaluate]; rewrite eval_guard_open by lia;
    cbn [pred_json as_object as_bool as_str_value as_array ok_or obj_get obj_contains len length];
    repeat first [rewrite bool_decide_true by done | rewrite bool_decide_false by done];
    cbn [orb negb].
  - exists (terms + 1). split; [done|simpl; lia].
  - exists (terms + 1). split; [|simpl; lia]. do 2 f_equal. simpl.
    destruct (resolve_path facts path); [by rewrite bool_decide_true|].
    rewrite bool_decide_false; [done|]. by intros [? ?].
  - exists (terms + 1). split; [|simpl; lia]. vm_compute (negb _ || _ || _). done.
  - exists (terms + 1). split; [|simpl; lia]. done.
  - apply andb_true_iff in Hok as [Hne Hok].
    rewrite (eval_connective_guard ps terms) by (done || simpl; lia).
    destruct (eval_children_agrees facts fuel (depth + 1) false ps (terms + 1)) as (t & -> & Hle);
      [done..|lia|lia|lia|]. exists t. split; [done|simpl; lia].
  - apply andb_true_iff in Hok as [Hne Hok].
    rewrite (eval_connective_guard ps terms) by (done || simpl; lia).
    destruct (eval_children_agrees facts fuel (depth + 1) true ps (terms + 1)) as (t & -> & Hle);
      [done..|lia|lia|lia|]. exists t. split; [done|simpl; lia].
  - destruct (IH fuel (depth + 1) (terms + 1)) as (t & -> & Hle); [done|unfold fits; lia|].
    exists t. split; [done|simpl; lia].
Qed.

(** On the JSON encoding of a predicate of depth at most 32 with at most
    256 terms, the bounded short-circuiting evaluator computes the predicate's
    truth value. *)
Theorem evaluate_predicate_denotes (facts : json) (p : pred) :
  pred_ok p = true → (pred_depth p <= 32)%nat → (pred_size p <= 256)%nat →
  evaluate_predicate (pred_json p) facts = Ok (denote facts p).
Proof.
  intros Hok Hd Hs. destruct (eval_agrees_all facts p EVALUATE_FUEL 0 0 Hok) as (t & H & _).
  - unfold fits, EVALUATE_FUEL, MAX_PREDICATE_DEPTH, MAX_PREDICATE_TERMS. lia.
  - unfold evaluate_predicate. by rewrite H.
Qed.

Lemma evaluate_predicate_denotes_witness :
  evaluate_predicate
    (JObject [("and", JArray [JObject [("not", JObject [("exists", JString "b")])];
                              JObject [("eq", JObject [("path", JString "a.0"); ("value", JBool true)])]])])
    (JObject [("a", JArray [JBool true])]) = Ok true.
Proof.
  apply (evaluate_predicate_denotes (JObject [("a", JArray [JBool true])])
           (PAnd [PNot (PExists "b"); PEq "a.0" (JBool true)])); vm_compute; [reflexivity|lia|lia].
Defined.

Lemma eval_children_ext ev1 ev2 stop cs t :
  (∀ c t, c ∈ cs → ev1 c t = ev2 c t) →
  eval_children ev1 stop cs t = eval_children ev2 stop cs t.
Proof.
  revert t. induction cs as [|c cs IH]; intros t H; simpl; [done|].
  rewrite (H c t) by set_solver. destruct (ev2 c t) as [t' [b|e]]; [|done].
  destruct (Bool.eqb b stop); [done|]. apply IH. set_solver.
Qed.

Lemma eval_children_bound ev stop cs t :
  (∀ c t, t ≤ MAX_PREDICATE_TERMS → (ev c t).1 ≤ MAX_PREDICATE_TERMS) →
  t ≤ MAX_PREDICATE_TERMS → (eval_children ev stop cs t).1 ≤ MAX_PREDICATE_TERMS.
Proof.
  intros H. revert t. induction cs as [|c cs IH]; intros t Ht; simpl; [done|].
  specialize (H c t Ht). destruct (ev c t) as [t' [b|e]]; simpl in *; [|done].
  destruct (Bool.eqb b stop); [done|]. by apply IH.
Qed.

Lemma evaluate_fuel n m p f d t :
  MAX_PREDICATE_DEPTH + 2 ≤ N.of_nat n + d → MAX_PREDICATE_DEPTH + 2 ≤ N.of_nat m + d →
  evaluate n p f d t = evaluate m p f d t.
Proof.
  unfold MAX_PREDICATE_DEPTH.
  assert (∀ m p d t, 32 < d → evaluate m p f d t = (t, Err PredicateTooComplex)) as Hdeep.
  { intros [|k] q e u He; cbn [evaluate]; [done|]. unfold MAX_PREDICATE_DEPTH.
    apply N.ltb_lt in He as ->. done. }
  revert m p d t. induction n as [|n IH]; intros [|m] p d t Hn Hm; [done|..];
    try (rewrite !Hdeep by lia; done).
  cbn [evaluate]. destruct (_ || _); [done|].
  destruct (as_object p) as [[|[op arg] [|]]|]; try done.
  do 3 (case_bool_decide; [done|]). destruct (_ || _); [done|].
  destruct (bool_decide (op = "and") || bool_decide (op = "or")).
  - destruct (as_array arg) as [cs|]; [|done]. destruct (_ || _); [done|].
    apply eval_children_ext. intros c t' _. apply IH; lia.
  - case_bool_decide; [|done]. by rewrite (IH m) by lia.
Qed.

Lemma evaluate_terms n p f d t :
  t ≤ MAX_PREDICATE_TERMS → (evaluate n p f d t).1 ≤ MAX_PREDICATE_TERMS.
Proof.
  revert p d t. induction n as [|n IH]; intros p d t Ht; cbn [evaluate]; [done|].
  destruct (_ || _) eqn:Hg; [done|]. boolify.
  assert (t + 1 ≤ MAX_PREDICATE_TERMS) as Ht1 by lia.
  destruct (as_object p) as [[|[op arg] [|]]|]; try done.
  case_bool_decide; [by destruct (as_bool arg)|].
  case_bool_decide; [by destruct (as_str_value arg)|].
  destruct (_ || _).
  { destruct (as_object arg) as [c|]; [|done]. destruct (_ || _ || _); [done|].
    by destruct (obj_get "path" c ≫= as_str_value). }
  destruct (bool_decide (op = "and") || bool_decide (op = "or")).
  { destruct (as_array arg) as [cs|]; [|done]. destruct (_ || _); [done|].
    apply eval_children_bound; auto. }
  case_bool_decide; [|done].
  specialize (IH arg (d + 1) (t + 1) Ht1). by destruct (evaluate n arg f _ _) as [? []].
Qed.

(** Predicate evaluation is bounded whatever the predicate: it never
    counts more than 256 terms, and the fuel of the model is never the reason
    for a result (any larger fuel gives the same one). *)
Theorem evaluate_bounded (predicate facts : json) (extra : nat) :
  (evaluate EVALUATE_FUEL predicate facts 0 0).1 ≤ MAX_PREDICATE_TERMS
  ∧ evaluate (EVALUATE_FUEL + extra) predicate facts 0 0
    = evaluate EVALUATE_FUEL predicate facts 0 0.
Proof.
  split; [by apply evaluate_terms|].
  apply evaluate_fuel; unfold EVALUATE_FUEL, MAX_PREDICATE_DEPTH; lia.
Qed.
