(* ===== verification/Plan.v ===== *)
(** * Validation and compilation of frozen run snapshots
    ([crates/aworkit-workflow-worker/src/plan.rs])

    [compile] checks a snapshot and indexes it; [PlanWf] is what a compiled
    plan promises to the scheduler. *)
From S2P Require Export Routing.

Definition SUPPORTED_WORKER_SCHEMA_VERSION : N := 1.
Definition WORKER_COMPILER_VERSION : string := "aworkit-worker-v1".

Inductive PlanError : Type :=
| GenerationMismatch
| EmptyGraph
| DuplicateNode (node : string)
| DuplicateTransition (transition : string)
| UnknownPlanNode (transition node : string)
| UnboundedCycle (transition : string)
| UnsupportedSchema (version : N)
| UnsupportedCompiler (version : string)
| SnapshotHashMismatch
| InvalidHash
| InvalidEntry (entry : string)
| InvalidNodeContract (node : string)
| InvalidPort (node port : string)
| PortMismatch (transition : string)
| UnresolvedCapability (node capability : string)
| InvalidLoop (loop_id : string)
| InvalidJoin (join_id : string)
| InvalidRoute (route_id : string)
| PlanTooLarge
| PlanEncoding.

Record ExecutionPlanV1 : Type := MkPlan {
  plan_snapshot : WorkerFrozenRunSnapshotV1;
  plan_nodes : gmap string WorkerNodeV1;
  plan_outgoing : gmap string (list WorkerTransitionV1);
  plan_transitions : gmap string WorkerTransitionV1;
  plan_loops : gmap string WorkerLoopDescriptorV1;
  plan_joins : gmap string WorkerJoinDescriptorV1;
  plan_routes : gmap string (list WorkerRouteRuleV1);
  plan_fingerprint : string
}.

(** ** Accessors *)

Definition plan_node (p : ExecutionPlanV1) (i : StableId) : option WorkerNodeV1 :=
  plan_nodes p !! as_str i.
Definition plan_transition (p : ExecutionPlanV1) (i : StableId) : option WorkerTransitionV1 :=
  plan_transitions p !! as_str i.
Definition plan_outgoing_of (p : ExecutionPlanV1) (i : StableId) : list WorkerTransitionV1 :=
  default [] (plan_outgoing p !! as_str i).
Definition plan_loop_descriptor (p : ExecutionPlanV1) (i : StableId) :
    option WorkerLoopDescriptorV1 := plan_loops p !! as_str i.
Definition plan_join_descriptor (p : ExecutionPlanV1) (i : StableId) :
    option WorkerJoinDescriptorV1 := plan_joins p !! as_str i.
Definition plan_route_rules (p : ExecutionPlanV1) (i : StableId) : list WorkerRouteRuleV1 :=
  default [] (plan_routes p !! as_str i).

(** ** Canonical order *)

Definition id_cmp {A} (key : A → StableId) : A → A → comparison :=
  on_key (λ x, as_str (key x)) String.compare.
Definition canonicalize_node (n : WorkerNodeV1) : WorkerNodeV1 :=
  MkNode (wn_node_id n) (wn_node_type n) (wn_node_version n) (wn_contribution_hash n)
    (sort_by (on_key port_name String.compare) (wn_inputs n))
    (sort_by (on_key port_name String.compare) (wn_outputs n))
    (wn_executor n) (wn_config n) (wn_capability_ref n) (wn_result_schema_ref n).
Definition canonicalize_snapshot (s : WorkerFrozenRunSnapshotV1) : WorkerFrozenRunSnapshotV1 :=
  MkSnapshot (ws_snapshot_id s) (ws_snapshot_hash s) (ws_chat_id s) (ws_run_id s)
    (ws_schema_version s) (ws_compiler_version s) (ws_workflow_hash s)
    (canonicalize_node <$> sort_by (id_cmp wn_node_id) (ws_nodes s))
    (sort_by (id_cmp wt_transition_id) (ws_transitions s))
    (sort_by (id_cmp id) (ws_entry_nodes s))
    (sort_by (id_cmp wl_loop_id) (ws_loop_descriptors s))
    (sort_by (id_cmp wj_join_id) (ws_join_descriptors s))
    (sort_by (id_cmp wr_route_id) (ws_route_rules s))
    (ws_authority_manifest_ref s) (ws_authority_manifest_hash s)
    (sort_by (id_cmp fb_capability_id) (ws_capability_bindings s))
    (sort_by (id_cmp id) (ws_capability_refs s))
    (ws_workspace_identity s) (ws_budget s) (ws_history_mode s).
Definition with_snapshot_hash (h : string) (s : WorkerFrozenRunSnapshotV1) :
    WorkerFrozenRunSnapshotV1 :=
  MkSnapshot (ws_snapshot_id s) h (ws_chat_id s) (ws_run_id s)
    (ws_schema_version s) (ws_compiler_version s) (ws_workflow_hash s)
    (ws_nodes s) (ws_transitions s) (ws_entry_nodes s) (ws_loop_descriptors s)
    (ws_join_descriptors s) (ws_route_rules s) (ws_authority_manifest_ref s)
    (ws_authority_manifest_hash s) (ws_capability_bindings s) (ws_capability_refs s)
    (ws_workspace_identity s) (ws_budget s) (ws_history_mode s).

(** ** Validation *)

Definition valid_port_name (value : string) : bool :=
  negb (str_is_empty value) && (str_len value <=? 128)
  && all_bytes (λ b, is_ascii_alphanumeric b || (b =? 46) || (b =? 95) || (b =? 45)) value.
Definition valid_sha256 (value : string) : bool :=
  (str_len value =? 64) && all_bytes is_ascii_hexdigit value.

(** One [BTreeSet] insertion that rejects a repeated name. *)
Definition validate_port (node : WorkerNodeV1) (names : gset string) (port : WorkerPortV1) :
    result PlanError (gset string) :=
  if negb (valid_port_name (port_name port)) || bs_contains names (port_name port)
  then Err (InvalidPort (as_str (wn_node_id node)) (port_name port))
  else Ok ({[port_name port]} ∪ names).

Definition validate_node (node : WorkerNodeV1) (capabilities : gset string) :
    result PlanError () :=
  _ ← fail_if (str_is_empty (wn_node_type node) || (128 <? str_len (wn_node_type node))
               || (wn_node_version node =? 0) || negb (valid_sha256 (wn_contribution_hash node)))
        (InvalidNodeContract (as_str (wn_node_id node)));
  _ ← fold_res (validate_port node) ∅ (wn_inputs node);
  _ ← fold_res (validate_port node) ∅ (wn_outputs node);
  match wn_executor node, wn_capability_ref node with
  | (ExBrokered | ExModel | ExAgent), Some c =>
      if bs_contains capabilities (as_str c) then Ok ()
      else Err (UnresolvedCapability (as_str (wn_node_id node)) (as_str c))
  | (ExBrokered | ExModel | ExAgent), None =>
      Err (InvalidNodeContract (as_str (wn_node_id node)))
  | _, Some c =>
      if negb (bs_contains capabilities (as_str c))
      then Err (UnresolvedCapability (as_str (wn_node_id node)) (as_str c)) else Ok ()
  | _, None => Ok ()
  end.

Definition find_port (name : string) (ports : list WorkerPortV1) : option WorkerPortV1 :=
  snd <$> list_find (λ p, port_name p = name) ports.

Definition binding_invalid (b : FrozenCapabilityBindingV1) : bool :=
  let invalid_extension :=
    match fb_extension b with
    | None => false
    | Some e => (eb_host_generation e =? 0)
                || negb (bool_decide (eb_contribution_id e = fb_adapter_id b))
                || negb (is_canonical_sha256 (ei_content_hash (eb_identity e)))
                || negb (is_canonical_sha256 (eb_handshake_hash e))
    end in
  let invalid_isolation :=
    match fb_required_isolation_profile b with
    | None => false
    | Some p => str_is_empty p || (256 <? str_len p) || trim_changes p || any_control p
    end in
  trim_is_empty (fb_adapter_version b)
  || negb (is_canonical_sha256 (fb_descriptor_hash b))
  || invalid_extension || invalid_isolation.

Definition validate_loop_descriptor (nodes : gmap string WorkerNodeV1)
    (loops : gmap string WorkerLoopDescriptorV1) (d : WorkerLoopDescriptorV1) :
    result PlanError (gmap string WorkerLoopDescriptorV1) :=
  if (wl_maximum_iterations d =? 0)
     || negb (bt_contains nodes (as_str (wl_body_entry d)))
     || negb (bt_contains nodes (as_str (wl_body_exit d)))
     || bt_contains loops (as_str (wl_loop_id d))
  then Err (InvalidLoop (as_str (wl_loop_id d)))
  else Ok (<[as_str (wl_loop_id d) := d]> loops).

Definition validate_loop_transition (loops : gmap string WorkerLoopDescriptorV1)
    (used : gset string) (t : WorkerTransitionV1) : result PlanError (gset string) :=
  match wt_declared_loop_id t with
  | None => Ok used
  | Some loop_id =>
      match loops !! as_str loop_id with
      | None => Err (InvalidLoop (as_str loop_id))
      | Some d =>
          if negb (bool_decide (wt_from_node t = wl_body_exit d))
             || negb (bool_decide (wt_to_node t = wl_body_entry d))
          then Err (InvalidLoop (as_str loop_id))
          else Ok ({[as_str loop_id]} ∪ used)
      end
  end.

Definition validate_loops (descriptors : list WorkerLoopDescriptorV1)
    (nodes : gmap string WorkerNodeV1) (transitions : gmap string WorkerTransitionV1) :
    result PlanError (gmap string WorkerLoopDescriptorV1) :=
  loops ← fold_res (validate_loop_descriptor nodes) ∅ descriptors;
  used ← fold_res (validate_loop_transition loops) ∅ (bt_values transitions);
  match list_find (λ k, bs_contains used k = false) (bt_keys loops) with
  | Some (_, unused) => Err (InvalidLoop unused)
  | None => Ok loops
  end.

Definition allowed_merge_policies : list string := ["require_equal"; "object_union"; "ordered_array"].

Definition validate_join (nodes : gmap string WorkerNodeV1)
    (joins : gmap string WorkerJoinDescriptorV1) (d : WorkerJoinDescriptorV1) :
    result PlanError (gmap string WorkerJoinDescriptorV1) :=
  match nodes !! as_str (wj_node_id d) with
  | None => Err (InvalidJoin (as_str (wj_join_id d)))
  | Some node =>
      let branch_count := bs_len (list_to_set (as_str <$> wj_expected_branches d)) in
      if negb (bool_decide (wn_executor node = ExJoin))
         || (len (wj_expected_branches d) <? 2)
         || negb (branch_count =? len (wj_expected_branches d))
         || negb (bool_decide (wj_merge_policy d ∈ allowed_merge_policies))
         || bt_contains joins (as_str (wj_node_id d))
      then Err (InvalidJoin (as_str (wj_join_id d)))
      else Ok (<[as_str (wj_node_id d) := d]> joins)
  end.
Definition validate_joins (descriptors : list WorkerJoinDescriptorV1)
    (nodes : gmap string WorkerNodeV1) : result PlanError (gmap string WorkerJoinDescriptorV1) :=
  fold_res (validate_join nodes) ∅ descriptors.

Definition transition_cmp (left right : WorkerTransitionV1) : comparison :=
  then_with (Z.compare (wt_priority left) (wt_priority right))
            (String.compare (as_str (wt_transition_id left)) (as_str (wt_transition_id right))).

(** [map.entry(key).or_default().push(value)] *)
Definition push_entry {A} (key : string) (x : A) (m : gmap string (list A)) :
    gmap string (list A) :=
  <[key := default [] (m !! key) ++ [x]]> m.

(** ** Cycle check

    [visit] is the depth-first search over the transitions that declare no
    loop.  [None] is exhausted fuel, which is no result of the code: a
    recursion that does not end runs out of any fuel.  [v1_cycle_search_total]
    shows that the search ends within the fuel it is given, and
    [validate_v1_cycles] is the result the search then has. *)
Definition undeclared (e : WorkerTransitionV1) : bool :=
  match wt_declared_loop_id e with None => true | Some _ => false end.

Abbreviation dfs_state := (gset string * gset string)%type.

Fixpoint visit_edges (visit : string → dfs_state → option (result PlanError dfs_state))
    (edges : list WorkerTransitionV1) (st : dfs_state) : option (result PlanError dfs_state) :=
  match edges with
  | [] => Some (Ok st)
  | edge :: edges =>
      if bs_contains st.1 (as_str (wt_to_node edge))
      then Some (Err (UnboundedCycle (as_str (wt_transition_id edge))))
      else match visit (as_str (wt_to_node edge)) st with
           | None => None
           | Some (Err e) => Some (Err e)
           | Some (Ok st) => visit_edges visit edges st
           end
  end.

Fixpoint visit (fuel : nat) (outgoing : gmap string (list WorkerTransitionV1))
    (node : string) (st : dfs_state) : option (result PlanError dfs_state) :=
  match fuel with
  | O => None
  | S fuel =>
      let '(visiting, visited) := st in
      if bs_contains visited node then Some (Ok (visiting, visited)) else
      let visiting := {[node]} ∪ visiting in
      match (match outgoing !! node with
             | None => Some (Ok (visiting, visited))
             | Some edges => visit_edges (visit fuel outgoing) (filter (λ e, undeclared e = true) edges)
                               (visiting, visited)
             end) with
      | None => None
      | Some (Err e) => Some (Err e)
      | Some (Ok (visiting, visited)) => Some (Ok (visiting ∖ {[node]}, {[node]} ∪ visited))
      end
  end.

Fixpoint visit_all (fuel : nat) (outgoing : gmap string (list WorkerTransitionV1))
    (nodes : list string) (st : dfs_state) : option (result PlanError dfs_state) :=
  match nodes with
  | [] => Some (Ok st)
  | node :: nodes =>
      match visit fuel outgoing node st with
      | None => None
      | Some (Err e) => Some (Err e)
      | Some (Ok st) => visit_all fuel outgoing nodes st
      end
  end.

Definition v1_cycle_search (nodes : gmap string WorkerNodeV1)
    (outgoing : gmap string (list WorkerTransitionV1)) : option (result PlanError ()) :=
  match visit_all (S (S (size outgoing))) outgoing (bt_keys nodes) (∅, ∅) with
  | None => None
  | Some (Err e) => Some (Err e)
  | Some (Ok _) => Some (Ok ())
  end.

(** *** Totality: the search ends *)

Section search_total.
Context (outgoing : gmap string (list WorkerTransitionV1)).

Definition dfs_measure (visiting : gset string) : nat := size (dom outgoing ∖ visiting).

Lemma dfs_measure_step n visiting es :
  outgoing !! n = Some es → n ∉ visiting →
  (dfs_measure ({[n]} ∪ visiting) < dfs_measure visiting)%nat.
Proof.
  intros Hes Hn. unfold dfs_measure. apply subset_size.
  assert (n ∈ dom outgoing) by (by eapply elem_of_dom_2). set_solver.
Qed.

Lemma visit_edges_total vis es st :
  (∀ n s, n ∉ s.1 → s.1 = st.1 → ∃ r, vis n s = Some r ∧ ∀ s', r = Ok s' → s'.1 = s.1) →
  ∃ r, visit_edges vis es st = Some r ∧ ∀ s', r = Ok s' → s'.1 = st.1.
Proof.
  intros Hvis. remember st.1 as vg eqn:Hvg. revert st Hvg.
  induction es as [|e es IH]; intros st Hvg; simpl; [naive_solver|].
  destruct (bs_contains _ _) eqn:Hc; [eexists; split; [done|]; done|].
  apply bool_decide_eq_false in Hc.
  destruct (Hvis (as_str (wt_to_node e)) st Hc (eq_sym Hvg)) as ([s|err] & -> & Hs);
    [|eexists; split; [done|]; done].
  apply IH. by rewrite (Hs s eq_refl).
Qed.

Lemma visit_total fuel n st :
  n ∉ st.1 → (dfs_measure st.1 < fuel)%nat →
  ∃ r, visit fuel outgoing n st = Some r ∧ ∀ s', r = Ok s' → s'.1 = st.1.
Proof.
  revert n st. induction fuel as [|fuel IH]; intros n [visiting visited] Hn Hm; simpl in *; [lia|].
  destruct (bs_contains visited n); [naive_solver|].
  destruct (outgoing !! n) as [es|] eqn:Hes.
  - destruct (visit_edges_total (visit fuel outgoing) (filter (λ e, undeclared e = true) es)
                ({[n]} ∪ visiting, visited)) as ([[vg vd]|err] & -> & Hr).
    + simpl. intros m s Hms Hs. apply IH; [done|]. rewrite Hs.
      pose proof (dfs_measure_step n visiting es Hes Hn). lia.
    + specialize (Hr _ eq_refl). simpl in Hr. subst vg. eexists. split; [done|].
      intros s' [= <-]. simpl. set_solver.
    + eexists. split; [done|]. done.
  - eexists. split; [done|]. intros s' [= <-]. simpl. set_solver.
Qed.

Lemma dfs_measure_start : (dfs_measure ∅ < S (S (size outgoing)))%nat.
Proof. unfold dfs_measure. rewrite difference_empty_L, size_dom. lia. Qed.

Lemma visit_all_total ns visited :
  is_Some (visit_all (S (S (size outgoing))) outgoing ns (∅, visited)).
Proof.
  revert visited. induction ns as [|n ns IH]; intros visited; cbn [visit_all]; [done|].
  destruct (visit_total (S (S (size outgoing))) n (∅, visited)) as ([[vg vd]|e] & -> & Hok);
    [set_solver|apply dfs_measure_start| |done].
  specialize (Hok _ eq_refl). simpl in Hok. subst vg. apply IH.
Qed.
End search_total.

Lemma v1_cycle_search_total nodes outgoing : is_Some (v1_cycle_search nodes outgoing).
Proof.
  unfold v1_cycle_search.
  by destruct (visit_all_total outgoing (bt_keys nodes) ∅) as [[?|?] ->].
Qed.

Definition validate_v1_cycles (nodes : gmap string WorkerNodeV1)
    (outgoing : gmap string (list WorkerTransitionV1)) : result PlanError () :=
  is_Some_proj (v1_cycle_search_total nodes outgoing).

Lemma validate_v1_cycles_search nodes outgoing :
  v1_cycle_search nodes outgoing = Some (validate_v1_cycles nodes outgoing).
Proof. apply is_Some_proj_Some. Qed.

(** ** Compilation *)

Section compile.
Context `{Sha256} `{Serialize WorkerFrozenRunSnapshotV1} `{Serialize json}
        `{Serialize (string * WorkerFrozenRunSnapshotV1 * string)}.

Definition snapshot_content_hash (s : WorkerFrozenRunSnapshotV1) : result PlanError string :=
  bytes ← ok_or (jcs_to_vec (canonicalize_snapshot (with_snapshot_hash "" s))) PlanEncoding;
  Ok (sha256_hex bytes).

Definition plan_fingerprint_of (s : WorkerFrozenRunSnapshotV1) : result PlanError string :=
  bytes ← ok_or (jcs_to_vec (WORKER_COMPILER_VERSION, s, "deterministic-plan-v1")) PlanEncoding;
  Ok (sha256_hex bytes).

Definition validate_snapshot_bounds (s : WorkerFrozenRunSnapshotV1) : result PlanError () :=
  if (100000 <? len (ws_nodes s))
     || (500000 <? len (ws_transitions s))
     || (1024 <? len (ws_entry_nodes s))
     || (10000 <? len (ws_loop_descriptors s))
     || (10000 <? len (ws_join_descriptors s))
     || (100000 <? len (ws_route_rules s))
     || (4096 <? len (ws_capability_bindings s))
     || (4096 <? len (ws_capability_refs s))
  then Err PlanTooLarge
  else bytes ← ok_or (to_vec s) PlanEncoding;
       fail_if (16 * 1024 * 1024 <? len bytes) PlanTooLarge.

Definition validate_transition (t : WorkerTransitionV1) (nodes : gmap string WorkerNodeV1) :
    result PlanError () :=
  let tid := as_str (wt_transition_id t) in
  from ← ok_or (nodes !! as_str (wt_from_node t)) (UnknownPlanNode tid (as_str (wt_from_node t)));
  to ← ok_or (nodes !! as_str (wt_to_node t)) (UnknownPlanNode tid (as_str (wt_to_node t)));
  output ← ok_or (find_port (wt_from_port t) (wn_outputs from)) (PortMismatch tid);
  input ← ok_or (find_port (wt_to_port t) (wn_inputs to)) (PortMismatch tid);
  _ ← fail_if (match port_schema_ref output, port_schema_ref input with
               | Some a, Some b => negb (bool_decide (a = b))
               | _, _ => false
               end) (PortMismatch tid);
  match wt_predicate t with
  | None => Ok ()
  | Some predicate =>
      bytes ← ok_or (to_vec predicate) PlanEncoding;
      fail_if (64 * 1024 <? len bytes) PlanTooLarge
  end.

Abbreviation route_state := (gset string * gmap string (list WorkerRouteRuleV1))%type.

Definition validate_route (nodes : gmap string WorkerNodeV1)
    (transitions : gmap string WorkerTransitionV1) (st : route_state) (rule : WorkerRouteRuleV1) :
    result PlanError route_state :=
  let '(ids, routes) := st in
  let invalid := InvalidRoute (as_str (wr_route_id rule)) in
  node ← ok_or (nodes !! as_str (wr_node_id rule)) invalid;
  transition ← ok_or (transitions !! as_str (wr_destination_transition rule)) invalid;
  if negb (bool_decide (wn_executor node = ExRouter))
     || negb (bool_decide (wt_from_node transition = wr_node_id rule))
     || bs_contains ids (as_str (wr_route_id rule))
  then Err invalid
  else bytes ← ok_or (to_vec (wr_predicate rule)) PlanEncoding;
       if 64 * 1024 <? len bytes then Err invalid
       else Ok ({[as_str (wr_route_id rule)]} ∪ ids,
                push_entry (as_str (wr_node_id rule)) rule routes).

Definition validate_routes (rules : list WorkerRouteRuleV1) (nodes : gmap string WorkerNodeV1)
    (transitions : gmap string WorkerTransitionV1) :
    result PlanError (gmap string (list WorkerRouteRuleV1)) :=
  st ← fold_res (validate_route nodes transitions) (∅ : gset string, ∅) rules;
  Ok (fmap (M:=gmap string) (sort_by route_cmp) st.2).

Definition compile_node (capabilities : gset string) (nodes : gmap string WorkerNodeV1)
    (node : WorkerNodeV1) : result PlanError (gmap string WorkerNodeV1) :=
  _ ← validate_node node capabilities;
  if bt_contains nodes (as_str (wn_node_id node))
  then Err (DuplicateNode (as_str (wn_node_id node)))
  else Ok (<[as_str (wn_node_id node) := node]> nodes).

Definition compile_entry (nodes : gmap string WorkerNodeV1) (seen : gset string)
    (entry : StableId) : result PlanError (gset string) :=
  if bs_contains seen (as_str entry) || negb (bt_contains nodes (as_str entry))
  then Err (InvalidEntry (as_str entry))
  else Ok ({[as_str entry]} ∪ seen).

Abbreviation edge_state :=
  (gmap string WorkerTransitionV1 * gmap string (list WorkerTransitionV1))%type.

Definition compile_transition (nodes : gmap string WorkerNodeV1) (st : edge_state)
    (t : WorkerTransitionV1) : result PlanError edge_state :=
  let '(transitions, outgoing) := st in
  _ ← validate_transition t nodes;
  if bt_contains transitions (as_str (wt_transition_id t))
  then Err (DuplicateTransition (as_str (wt_transition_id t)))
  else Ok (<[as_str (wt_transition_id t) := t]> transitions,
           push_entry (as_str (wt_from_node t)) t outgoing).

Definition check_bindings (s : WorkerFrozenRunSnapshotV1) : result PlanError (gset string) :=
  let capability_refs : gset string := list_to_set (as_str <$> ws_capability_refs s) in
  _ ← fail_if (negb (bs_len capability_refs =? len (ws_capability_refs s)))
        (InvalidNodeContract "duplicate capability reference");
  let frozen : gset string :=
    list_to_set ((λ b, as_str (fb_capability_id b)) <$> ws_capability_bindings s) in
  _ ← fail_if (negb (bs_len frozen =? len (ws_capability_bindings s))
               || negb (bool_decide (frozen = capability_refs)))
        (InvalidNodeContract "frozen capability bindings differ from capability references");
  _ ← for_each (λ b, fail_if (binding_invalid b)
                 (InvalidNodeContract ("invalid frozen capability binding "
                                       +:+ as_str (fb_capability_id b))))
        (ws_capability_bindings s);
  Ok capability_refs.

(** The indexing half of [compile], on the canonical snapshot. *)
Definition build_plan (s : WorkerFrozenRunSnapshotV1) : result PlanError ExecutionPlanV1 :=
  capability_refs ← check_bindings s;
  nodes ← fold_res (compile_node capability_refs) ∅ (ws_nodes s);
  _ ← fail_if (bool_decide (nodes = ∅)) EmptyGraph;
  entries ← fold_res (compile_entry nodes) ∅ (ws_entry_nodes s);
  _ ← fail_if (bool_decide (entries = ∅)) (InvalidEntry "<empty>");
  edges ← fold_res (compile_transition nodes) (∅ : gmap string WorkerTransitionV1, ∅) (ws_transitions s);
  let transitions := edges.1 in
  let outgoing := fmap (M:=gmap string) (sort_by transition_cmp) edges.2 in
  loops ← validate_loops (ws_loop_descriptors s) nodes transitions;
  _ ← validate_v1_cycles nodes outgoing;
  joins ← validate_joins (ws_join_descriptors s) nodes;
  routes ← validate_routes (ws_route_rules s) nodes transitions;
  fingerprint ← plan_fingerprint_of s;
  Ok (MkPlan s nodes outgoing transitions loops joins routes fingerprint).

Definition compile (s : WorkerFrozenRunSnapshotV1) (declared_snapshot_hash : string) :
    result PlanError ExecutionPlanV1 :=
  _ ← validate_snapshot_bounds s;
  _ ← fail_if (negb (ws_schema_version s =? SUPPORTED_WORKER_SCHEMA_VERSION))
        (UnsupportedSchema (ws_schema_version s));
  _ ← fail_if (negb (bool_decide (ws_compiler_version s = WORKER_COMPILER_VERSION)))
        (UnsupportedCompiler (ws_compiler_version s));
  _ ← fail_if (negb (valid_sha256 (ws_workflow_hash s))
               || negb (valid_sha256 (ws_authority_manifest_hash s))
               || negb (valid_sha256 (ws_snapshot_hash s))
               || negb (valid_sha256 declared_snapshot_hash)) InvalidHash;
  calculated_hash ← snapshot_content_hash s;
  _ ← fail_if (negb (bool_decide (ws_snapshot_hash s = declared_snapshot_hash))
               || negb (bool_decide (calculated_hash = ws_snapshot_hash s)))
        SnapshotHashMismatch;
  build_plan (canonicalize_snapshot s).
End compile.
