(* ===== verification/PlanProofs.v ===== *)
(** * What a compiled plan promises

    [PlanWf] is the interface the scheduler relies on: every index of the
    plan is keyed by identity, edges connect declared nodes, declared loops
    are bounded and used, routes leave their router.  [compile_wf] shows that
    [compile] establishes it.  The cycle check accepts
    exactly the graphs without undeclared cycles ([validate_v1_cycles] of
    [plan.rs]).  The last part shows that compilation does
    not depend on the order in which a snapshot lists its parts. *)
From stdpp Require Import relations.
From S2P Require Export Plan.

(** * The cycle check *)

Section cycles.
Context (outgoing : gmap string (list WorkerTransitionV1)).

(** An edge of the graph left when declared loop transitions are removed. *)
Definition plan_edge (a b : string) : Prop :=
  ∃ es e, outgoing !! a = Some es ∧ e ∈ es ∧ undeclared e = true ∧ b = as_str (wt_to_node e).

(** No cycle can be reached from [n]. *)
Definition no_cycle_from (n : string) : Prop :=
  ∀ m, rtc plan_edge n m → ¬ tc plan_edge m m.

Definition terminates (n : string) : Prop := Acc (λ b a, plan_edge a b) n.

Lemma terminates_rtc n m : rtc plan_edge n m → terminates n → terminates m.
Proof. induction 1 as [|x y z Hxy _ IH]; [done|]. intros [Hx]. by apply IH, Hx. Qed.

Lemma terminates_no_self n : terminates n → ¬ tc plan_edge n n.
Proof.
  induction 1 as [n _ IH]. intros Hnn.
  assert (∃ m, plan_edge n m ∧ rtc plan_edge m n) as (m & Hnm & Hmn).
  { inversion Hnn as [? ? Hs|? y ? Hs Ht]; subst; eauto using rtc_refl, tc_rtc. }
  apply (IH m Hnm). eapply tc_rtc_l; [exact Hmn|]. by constructor.
Qed.

Lemma terminates_no_cycle n : terminates n → no_cycle_from n.
Proof. intros Hn m Hm. by eapply terminates_no_self, terminates_rtc. Qed.

(** ** Soundness: what is marked visited starts no infinite path *)

Definition visited_terminate (st : dfs_state) : Prop := ∀ v, v ∈ st.2 → terminates v.

Lemma visit_edges_sound vis es st st' :
  (∀ n s s', vis n s = Some (Ok s') → visited_terminate s →
     visited_terminate s' ∧ s.2 ⊆ s'.2 ∧ n ∈ s'.2) →
  visit_edges vis es st = Some (Ok st') → visited_terminate st →
  visited_terminate st' ∧ st.2 ⊆ st'.2 ∧ ∀ e, e ∈ es → as_str (wt_to_node e) ∈ st'.2.
Proof.
  intros Hvis. revert st. induction es as [|e es IH]; intros st; simpl.
  { intros [= <-] Hst. set_solver. }
  destruct (bs_contains _ _); [done|].
  destruct (vis _ st) as [[s|]|] eqn:E; [|done..]. intros Hes Hst.
  destruct (Hvis _ _ _ E Hst) as (H1 & H2 & H3).
  destruct (IH _ Hes H1) as (H4 & H5 & H6). set_solver.
Qed.

Lemma visit_sound fuel n st st' :
  visit fuel outgoing n st = Some (Ok st') → visited_terminate st →
  visited_terminate st' ∧ st.2 ⊆ st'.2 ∧ n ∈ st'.2.
Proof.
  revert n st st'. induction fuel as [|fuel IH]; intros n [visiting visited] st'; [done|].
  cbn [visit]. destruct (bs_contains visited n) eqn:Hv.
  { intros [= <-] Hst. apply bool_decide_eq_true in Hv. set_solver. }
  intros H Hst.
  assert (∃ visiting' visited', st' = (visiting' ∖ {[n]}, {[n]} ∪ visited')
    ∧ visited_terminate (visiting', visited') ∧ visited ⊆ visited'
    ∧ ∀ m, plan_edge n m → m ∈ visited') as (vg & vd & -> & Hvd & Hsub & Hedges).
  { destruct (outgoing !! n) as [es|] eqn:Hes.
    - destruct (visit_edges _ _ _) as [[[vg vd]|]|] eqn:E; simplify_eq.
      apply (visit_edges_sound _ _ _ _ IH) in E as (H1 & H2 & H3); [|exact Hst].
      exists vg, vd. split_and!; [done..|]. intros m (es' & e & He1 & He2 & Hu & ->).
      apply (H3 e). apply list_elem_of_filter. naive_solver.
    - simplify_eq. exists ({[n]} ∪ visiting), visited. split_and!; [done..|].
      intros m (es' & e & He1 & _). congruence. }
  split_and!; [|set_solver|set_solver].
  intros v. simpl. rewrite elem_of_union, elem_of_singleton. intros [->|Hin]; [|by apply Hvd].
  constructor. intros m Hm. by apply Hvd, Hedges.
Qed.

Lemma visit_all_sound fuel ns st st' :
  visit_all fuel outgoing ns st = Some (Ok st') → visited_terminate st →
  visited_terminate st' ∧ st.2 ⊆ st'.2 ∧ ∀ n, n ∈ ns → n ∈ st'.2.
Proof.
  revert st. induction ns as [|n ns IH]; intros st; simpl.
  { intros [= <-] Hst. set_solver. }
  destruct (visit fuel outgoing n st) as [[s|]|] eqn:E; [|done..]. intros Hns Hst.
  apply visit_sound in E as (H1 & H2 & H3); [|done].
  destruct (IH _ Hns H1) as (H4 & H5 & H6). set_solver.
Qed.

(** ** Completeness: a rejection names an edge of a reachable cycle *)

(** [id] is the transition of an undeclared edge that can be reached from [n]
    and lies on a cycle of undeclared edges. *)
Definition closes_cycle (n : string) (id : string) : Prop :=
  ∃ c es t, rtc plan_edge n c ∧ outgoing !! c = Some es ∧ t ∈ es ∧ undeclared t = true
    ∧ rtc plan_edge (as_str (wt_to_node t)) c ∧ id = as_str (wt_transition_id t).

Lemma closes_cycle_step n m id : plan_edge n m → closes_cycle m id → closes_cycle n id.
Proof. intros Hnm (c & es & t & Hc & Ht). exists c, es, t. split; [by eapply rtc_l|done]. Qed.

Lemma closes_cycle_cyclic n id : closes_cycle n id → ¬ no_cycle_from n.
Proof.
  intros (c & es & t & Hc & Hes & Ht & Hu & Hback & _) Hno. apply (Hno c Hc).
  eapply tc_rtc_r; [|exact Hback]. apply tc_once. by exists es, t.
Qed.

Lemma visit_edges_err vis es st e n :
  (∀ m s s', vis m s = Some (Ok s') → m ∉ s.1 → s.1 = st.1 → s'.1 = s.1) →
  (∀ m s err, vis m s = Some (Err err) → s.1 = st.1 → (∀ v, v ∈ s.1 → tc plan_edge v m) →
     m ∉ s.1 → ∃ id, err = UnboundedCycle id ∧ closes_cycle m id) →
  (∀ d, d ∈ es → ∃ ds, outgoing !! n = Some ds ∧ d ∈ ds ∧ undeclared d = true) →
  (∀ v, v ∈ st.1 → rtc plan_edge v n) →
  visit_edges vis es st = Some (Err e) → ∃ id, e = UnboundedCycle id ∧ closes_cycle n id.
Proof.
  intros Hok Herr. remember st.1 as vg eqn:Hvg. revert st Hvg.
  induction es as [|d es IH]; intros st Hvg Hes Hv; simpl; [done|].
  destruct (Hes d) as (ds & Hds & Hin & Hu); [set_solver|].
  assert (plan_edge n (as_str (wt_to_node d))) as Hd by (by exists ds, d).
  destruct (bs_contains _ _) eqn:Hc.
  - intros [= <-]. apply bool_decide_eq_true in Hc. rewrite <-Hvg in Hc.
    eexists. split; [done|]. exists n, ds, d. split_and!; [apply rtc_refl|done..|by apply Hv|done].
  - apply bool_decide_eq_false in Hc.
    destruct (vis _ st) as [[s|err]|] eqn:E; [| |done].
    + apply IH; [|set_solver|done]. by rewrite (Hok _ _ _ E) by done.
    + intros [= <-]. destruct (Herr _ _ _ E) as (id & -> & Hid); [done| |done|].
      * rewrite <-Hvg. intros v Hvin. eapply tc_rtc_l; [by apply Hv|]. by apply tc_once.
      * exists id. split; [done|]. by eapply closes_cycle_step.
Qed.

Lemma visit_err fuel n st e :
  visit fuel outgoing n st = Some (Err e) → (dfs_measure outgoing st.1 < fuel)%nat → n ∉ st.1 →
  (∀ v, v ∈ st.1 → tc plan_edge v n) → ∃ id, e = UnboundedCycle id ∧ closes_cycle n id.
Proof.
  revert n st e. induction fuel as [|fuel IH]; intros n [visiting visited] e; [done|].
  cbn [visit]. destruct (bs_contains visited n); [done|]. intros H Hm Hn Hv. simpl in *.
  destruct (outgoing !! n) as [es|] eqn:Hes; [|done].
  destruct (visit_edges _ _ _) as [[[vg vd]|err]|] eqn:E; simplify_eq.
  pose proof (dfs_measure_step outgoing n visiting es Hes Hn) as Hstep.
  eapply visit_edges_err; [| | | |exact E]; simpl.
  - intros m s s' Hs Hms Hseq.
    destruct (visit_total outgoing fuel m s Hms) as (r & Hr & Hrs); [rewrite Hseq; lia|].
    apply Hrs. congruence.
  - intros m s err Hs Hseq Hvs Hms. eapply IH; [exact Hs|rewrite Hseq; lia|done|done].
  - intros d [Hu Hd]%list_elem_of_filter. by exists es.
  - intros v [->%elem_of_singleton|Hin]%elem_of_union; [apply rtc_refl|]. by apply tc_rtc, Hv.
Qed.

Lemma visit_all_err ns visited e :
  visit_all (S (S (size outgoing))) outgoing ns (∅, visited) = Some (Err e) →
  ∃ n id, n ∈ ns ∧ e = UnboundedCycle id ∧ closes_cycle n id.
Proof.
  revert visited. induction ns as [|n ns IH]; intros visited; cbn [visit_all]; [done|].
  pose proof (dfs_measure_start outgoing) as Hm.
  destruct (visit_total outgoing (S (S (size outgoing))) n (∅, visited)) as ([[vg vd]|e'] & Hr & Hok);
    [set_solver|done|rewrite Hr..].
  - specialize (Hok _ eq_refl). simpl in Hok. subst vg.
    intros (n' & id & Hn' & ?)%IH. exists n', id. split; [set_solver|done].
  - intros [= <-]. destruct (visit_err _ _ _ _ Hr) as (id & He & Hid); [done|set_solver..|].
    exists n, id. split; [set_solver|done].
Qed.
End cycles.

Section check.
Context (nodes : gmap string WorkerNodeV1) (outgoing : gmap string (list WorkerTransitionV1)).

Lemma v1_cycles_sound :
  validate_v1_cycles nodes outgoing = Ok () →
  ∀ n, is_Some (nodes !! n) → no_cycle_from outgoing n.
Proof.
  pose proof (validate_v1_cycles_search nodes outgoing) as Hs. intros Hok n Hn.
  rewrite Hok in Hs. unfold v1_cycle_search in Hs.
  destruct (visit_all _ _ _ _) as [[st|e]|] eqn:Hr; [|done..].
  apply visit_all_sound in Hr as (Hterm & _ & Hall); [|intros v; set_solver].
  apply terminates_no_cycle, Hterm, Hall. by apply elem_of_bt_keys.
Qed.

Lemma v1_cycles_err e :
  validate_v1_cycles nodes outgoing = Err e →
  ∃ n id, is_Some (nodes !! n) ∧ e = UnboundedCycle id ∧ closes_cycle outgoing n id.
Proof.
  pose proof (validate_v1_cycles_search nodes outgoing) as Hs. intros He.
  rewrite He in Hs. unfold v1_cycle_search in Hs.
  destruct (visit_all _ _ _ _) as [[st|e']|] eqn:Hr; simplify_eq.
  apply visit_all_err in Hr as (n & id & Hn & ?). exists n, id. split; [|done].
  by apply elem_of_bt_keys.
Qed.

(** C38: the search of [validate_v1_cycles] ends on every graph (the
    recursion, of which [v1_cycle_search] leaves [None] where it would not
    end, has a result, and it is the result of the check); it accepts a
    graph exactly when no node of the plan can reach a cycle made only of
    transitions that declare no loop, whatever the traversal order; and a
    rejection names a transition that declares no loop, can be reached from
    a node of the plan and lies on such a cycle. *)
Theorem validate_v1_cycles_iff :
  v1_cycle_search nodes outgoing = Some (validate_v1_cycles nodes outgoing)
  ∧ (validate_v1_cycles nodes outgoing = Ok () ↔
       ∀ n, is_Some (nodes !! n) → no_cycle_from outgoing n)
  ∧ (∀ e, validate_v1_cycles nodes outgoing = Err e →
       ∃ n id, is_Some (nodes !! n) ∧ e = UnboundedCycle id ∧ closes_cycle outgoing n id).
Proof.
  split_and!; [apply validate_v1_cycles_search| |apply v1_cycles_err].
  split; [apply v1_cycles_sound|]. intros Hno.
  destruct (validate_v1_cycles nodes outgoing) as [[]|e] eqn:Hr; [done|].
  destruct (v1_cycles_err e Hr) as (n & id & Hn & _ & Hc).
  by destruct (closes_cycle_cyclic outgoing n id Hc (Hno n Hn)).
Qed.
End check.

(** * Compiled plans *)

Class PlanWf (p : ExecutionPlanV1) : Prop := {
  pwf_node_id : ∀ k n, plan_nodes p !! k = Some n → k = as_str (wn_node_id n);
  pwf_nodes_listed : ∀ n, n ∈ ws_nodes (plan_snapshot p) ↔ plan_node p (wn_node_id n) = Some n;
  pwf_transition_id : ∀ k t, plan_transitions p !! k = Some t → k = as_str (wt_transition_id t);
  pwf_endpoints : ∀ k t, plan_transitions p !! k = Some t →
    is_Some (plan_node p (wt_from_node t)) ∧ is_Some (plan_node p (wt_to_node t));
  pwf_outgoing : ∀ i t, t ∈ plan_outgoing_of p i ↔
    plan_transition p (wt_transition_id t) = Some t ∧ wt_from_node t = i;
  pwf_outgoing_sorted : ∀ i, sorted_by transition_cmp (plan_outgoing_of p i);
  pwf_loop_id : ∀ k d, plan_loops p !! k = Some d → k = as_str (wl_loop_id d);
  pwf_loops_listed : ∀ d, d ∈ ws_loop_descriptors (plan_snapshot p)
    ↔ plan_loop_descriptor p (wl_loop_id d) = Some d;
  pwf_loop_positive : ∀ k d, plan_loops p !! k = Some d → 0 < wl_maximum_iterations d;
  pwf_loop_declared : ∀ k t l, plan_transitions p !! k = Some t → wt_declared_loop_id t = Some l →
    ∃ d, plan_loop_descriptor p l = Some d ∧ wt_from_node t = wl_body_exit d
         ∧ wt_to_node t = wl_body_entry d;
  pwf_loop_used : ∀ l, is_Some (plan_loop_descriptor p l) →
    ∃ k t, plan_transitions p !! k = Some t ∧ wt_declared_loop_id t = Some l;
  pwf_acyclic : ∀ n, is_Some (plan_nodes p !! n) → no_cycle_from (plan_outgoing p) n;
  pwf_entries : ws_entry_nodes (plan_snapshot p) ≠ [] ∧ NoDup (ws_entry_nodes (plan_snapshot p))
    ∧ ∀ e, e ∈ ws_entry_nodes (plan_snapshot p) → is_Some (plan_node p e);
  pwf_join : ∀ k d, plan_joins p !! k = Some d → k = as_str (wj_node_id d) ∧
    (∃ n, plan_node p (wj_node_id d) = Some n ∧ wn_executor n = ExJoin)
    ∧ NoDup (wj_expected_branches d) ∧ 2 ≤ len (wj_expected_branches d);
  pwf_route : ∀ i r, r ∈ plan_route_rules p i → wr_node_id r = i ∧
    (∃ n, plan_node p i = Some n ∧ wn_executor n = ExRouter)
    ∧ ∃ t, plan_transition p (wr_destination_transition r) = Some t ∧ wt_from_node t = i;
  pwf_routes_sorted : ∀ i, sorted_by route_cmp (plan_route_rules p i)
}.

(** ** The indexing loops *)

Lemma list_elem_of_snoc {A} (x y : A) l : x ∈ l ++ [y] ↔ x ∈ l ∨ x = y.
Proof. by rewrite elem_of_app, list_elem_of_singleton. Qed.

Lemma push_entry_lookup {A} k (x : A) m i :
  default [] (push_entry k x m !! i) = default [] (m !! i) ++ (if decide (i = k) then [x] else []).
Proof.
  unfold push_entry. destruct (decide (i = k)) as [->|Hne].
  - by rewrite lookup_insert_eq.
  - by rewrite lookup_insert_ne, app_nil_r.
Qed.

Lemma NoDup_as_str (l : list StableId) : NoDup (as_str <$> l) → NoDup l.
Proof. apply NoDup_fmap_1. Qed.

Section folds.
Context `{Sha256} `{Serialize WorkerFrozenRunSnapshotV1} `{Serialize json}
        `{Serialize (string * WorkerFrozenRunSnapshotV1 * string)}.

(** Every node map key is the node's own id. *)
Lemma compile_nodes_spec caps l nodes :
  fold_res (compile_node caps) ∅ l = Ok nodes →
  NoDup (wn_node_id <$> l) ∧
  (∀ k n, nodes !! k = Some n ↔ n ∈ l ∧ k = as_str (wn_node_id n)) ∧
  ∀ n, n ∈ l → validate_node n caps = Ok ().
Proof.
  apply (fold_res_inv _ (λ l m, NoDup (wn_node_id <$> l) ∧
    (∀ k n, m !! k = Some n ↔ n ∈ l ∧ k = as_str (wn_node_id n)) ∧
    ∀ n, n ∈ l → validate_node n caps = Ok ())).
  { split_and!; [constructor|set_solver|set_solver]. }
  intros seen x m1 m2 (Hnd & Hk & Hv) Hs. unfold compile_node in Hs. res_inv Hs.
  apply bt_contains_false in E as Hnone.
  assert (∀ n, n ∈ seen → as_str (wn_node_id n) ≠ as_str (wn_node_id x)) as Hfresh.
  { intros n Hn Heq. assert (m1 !! as_str (wn_node_id n) = Some n) by (by apply Hk). congruence. }
  split_and!.
  - rewrite fmap_app, NoDup_app. split_and!; [done| |apply NoDup_singleton].
    intros i (n & -> & Hn)%list_elem_of_fmap Hin. apply list_elem_of_singleton in Hin.
    apply (Hfresh n Hn). congruence.
  - intros k n. rewrite list_elem_of_snoc, lookup_insert_Some, Hk. naive_solver.
  - intros n [Hn| ->]%list_elem_of_snoc; [auto|]. by destruct x0.
Qed.

Lemma compile_entries_spec nodes l seen :
  fold_res (compile_entry nodes) ∅ l = Ok seen →
  NoDup l ∧ seen = list_to_set (as_str <$> l) ∧ ∀ e, e ∈ l → is_Some (nodes !! as_str e).
Proof.
  apply (fold_res_inv _ (λ l seen,
    NoDup l ∧ seen = list_to_set (as_str <$> l) ∧ ∀ e, e ∈ l → is_Some (nodes !! as_str e))).
  { split_and!; [constructor|done|set_solver]. }
  intros pre x s1 s2 (Hnd & -> & Hk) Hs. unfold compile_entry in Hs. res_inv Hs.
  apply orb_false_iff in E as [E1 E2]. apply bool_decide_eq_false in E1.
  apply negb_false_iff, bt_contains_true in E2.
  rewrite elem_of_list_to_set in E1.
  split_and!.
  - rewrite NoDup_app. split_and!; [done| |apply NoDup_singleton].
    intros e He ->%list_elem_of_singleton. apply E1, list_elem_of_fmap. eauto.
  - rewrite fmap_app, list_to_set_app_L. simpl. set_solver.
  - intros e [He| ->]%list_elem_of_snoc; auto.
Qed.

Lemma compile_transitions_spec nodes l transitions outgoing :
  fold_res (compile_transition nodes) (∅, ∅) l = Ok (transitions, outgoing) →
  NoDup (wt_transition_id <$> l) ∧
  (∀ k t, transitions !! k = Some t ↔ t ∈ l ∧ k = as_str (wt_transition_id t)) ∧
  (∀ t, t ∈ l → validate_transition t nodes = Ok ()) ∧
  ∀ n, default [] (outgoing !! n) = filter (λ t, as_str (wt_from_node t) = n) l.
Proof.
  apply (fold_res_inv _ (λ l st, NoDup (wt_transition_id <$> l) ∧
    (∀ k t, st.1 !! k = Some t ↔ t ∈ l ∧ k = as_str (wt_transition_id t)) ∧
    (∀ t, t ∈ l → validate_transition t nodes = Ok ()) ∧
    ∀ n, default [] (st.2 !! n) = filter (λ t, as_str (wt_from_node t) = n) l)).
  { split_and!; [constructor|set_solver|set_solver|done]. }
  intros pre x [m1 o1] [m2 o2] (Hnd & Hk & Hv & Ho) Hs. unfold compile_transition in Hs.
  simpl in *. res_inv Hs. apply bt_contains_false in E as Hnone.
  assert (∀ n, n ∈ pre → as_str (wt_transition_id n) ≠ as_str (wt_transition_id x)) as Hfresh.
  { intros n Hn Heq. assert (m1 !! as_str (wt_transition_id n) = Some n) by (by apply Hk). congruence. }
  split_and!.
  - rewrite fmap_app, NoDup_app. split_and!; [done| |apply NoDup_singleton].
    intros i (n & -> & Hn)%list_elem_of_fmap Hin. apply list_elem_of_singleton in Hin.
    apply (Hfresh n Hn). congruence.
  - intros k n. rewrite list_elem_of_snoc, lookup_insert_Some, Hk. naive_solver.
  - intros n [Hn| ->]%list_elem_of_snoc; [auto|]. by destruct x0.
  - intros n. rewrite push_entry_lookup, Ho, filter_app. f_equal.
    rewrite filter_cons, filter_nil. repeat case_decide; congruence.
Qed.

Lemma validate_loops_spec l nodes transitions loops :
  validate_loops l nodes transitions = Ok loops →
  (∀ k d, loops !! k = Some d ↔ d ∈ l ∧ k = as_str (wl_loop_id d)) ∧
  (∀ k d, loops !! k = Some d → 0 < wl_maximum_iterations d) ∧
  (∀ k t i, transitions !! k = Some t → wt_declared_loop_id t = Some i →
     ∃ d, loops !! as_str i = Some d ∧ wt_from_node t = wl_body_exit d
          ∧ wt_to_node t = wl_body_entry d) ∧
  ∀ k, is_Some (loops !! k) → ∃ k' t i, transitions !! k' = Some t ∧
     wt_declared_loop_id t = Some i ∧ as_str i = k.
Proof.
  unfold validate_loops. intros Hl. res_inv Hl. rename x into loops', x0 into used.
  destruct (list_find _ _) as [[??]|] eqn:Hfind; simplify_eq.
  assert ((∀ k d, loops !! k = Some d ↔ d ∈ l ∧ k = as_str (wl_loop_id d)) ∧
          ∀ d, d ∈ l → 0 < wl_maximum_iterations d) as [Hk Hpos].
  { revert Hl0. apply (fold_res_inv _ (λ l m,
      (∀ k d, m !! k = Some d ↔ d ∈ l ∧ k = as_str (wl_loop_id d)) ∧
      ∀ d, d ∈ l → 0 < wl_maximum_iterations d)); [set_solver|].
    intros pre x m1 m2 [Hk Hp] Hs. unfold validate_loop_descriptor in Hs. res_inv Hs.
    boolify. split.
    - intros k d. rewrite list_elem_of_snoc, lookup_insert_Some, Hk.
      split; [naive_solver|]. intros [[Hd| ->] ->]; [|by left]. right.
      split; [|done]. intros Heq. assert (m1 !! as_str (wl_loop_id d) = Some d) by (by apply Hk).
      congruence.
    - intros d [Hd| ->]%list_elem_of_snoc; [auto|lia]. }
  assert ((∀ t i, t ∈ bt_values transitions → wt_declared_loop_id t = Some i →
     ∃ d, loops !! as_str i = Some d ∧ wt_from_node t = wl_body_exit d
          ∧ wt_to_node t = wl_body_entry d) ∧
     ∀ k, k ∈ used → ∃ t i, t ∈ bt_values transitions ∧ wt_declared_loop_id t = Some i
          ∧ as_str i = k) as [Hdecl Hused].
  { revert Hl1. apply (fold_res_inv _ (λ l u, (∀ t i, t ∈ l → wt_declared_loop_id t = Some i →
       ∃ d, loops !! as_str i = Some d ∧ wt_from_node t = wl_body_exit d
          ∧ wt_to_node t = wl_body_entry d) ∧
       ∀ k, k ∈ u → ∃ t i, t ∈ l ∧ wt_declared_loop_id t = Some i ∧ as_str i = k)); [set_solver|].
    intros pre x u1 u2 [H1' H2'] Hs. unfold validate_loop_transition in Hs.
    destruct (wt_declared_loop_id x) as [i|] eqn:Hx; simplify_eq.
    - destruct (loops !! as_str i) as [d|] eqn:Hi; [|done]. res_inv Hs. boolify. split.
      + intros t j [Ht| ->]%list_elem_of_snoc ?; [eauto|]. simplify_eq. eauto.
      + intros k [->%elem_of_singleton|Hin]%elem_of_union.
        * exists x, i. split_and!; [|done..]. apply list_elem_of_snoc. auto.
        * destruct (H2' k Hin) as (t & j & ? & ? & ?). exists t, j.
          rewrite list_elem_of_snoc. auto.
    - split.
      + intros t j [Ht| ->]%list_elem_of_snoc ?; [eauto|]. congruence.
      + intros k Hin. destruct (H2' k Hin) as (t & j & ? & ? & ?). exists t, j.
        rewrite list_elem_of_snoc. auto. }
  split_and!; [done| | |].
  - intros k d [Hd _]%Hk. auto.
  - intros k t i Ht Hi. apply (Hdecl t); [|done]. apply elem_of_bt_values. eauto.
  - intros k Hin. destruct (Hused k) as (t & i & [k' Ht]%elem_of_bt_values & Hi & Hki); [|eauto 10].
    apply list_find_None in Hfind. rewrite Forall_forall in Hfind.
    apply elem_of_bt_keys, Hfind in Hin. unfold bs_contains in Hin.
    case_bool_decide; [done|]. by destruct Hin.
Qed.

Lemma validate_joins_spec l nodes joins :
  validate_joins l nodes = Ok joins →
  ∀ k d, joins !! k = Some d → d ∈ l ∧ k = as_str (wj_node_id d) ∧
    (∃ n, nodes !! as_str (wj_node_id d) = Some n ∧ wn_executor n = ExJoin)
    ∧ NoDup (wj_expected_branches d) ∧ 2 ≤ len (wj_expected_branches d).
Proof.
  apply (fold_res_inv _ (λ l m, ∀ k d, m !! k = Some d → d ∈ l ∧ k = as_str (wj_node_id d) ∧
    (∃ n, nodes !! as_str (wj_node_id d) = Some n ∧ wn_executor n = ExJoin)
    ∧ NoDup (wj_expected_branches d) ∧ 2 ≤ len (wj_expected_branches d))); [set_solver|].
  intros pre x m1 m2 Hm Hs k d. unfold validate_join in Hs.
  destruct (nodes !! _) as [n|] eqn:Hn; [|done]. res_inv Hs. boolify.
  rewrite lookup_insert_Some, list_elem_of_snoc. intros [[<- <-]|[_ Hd]].
  - split_and!; [by right|done|eauto| |lia]. apply NoDup_as_str, size_list_to_set_NoDup.
    rewrite length_fmap. unfold bs_len, len in *. lia.
  - apply Hm in Hd. naive_solver.
Qed.

Lemma validate_routes_spec l nodes transitions routes :
  validate_routes l nodes transitions = Ok routes →
  ∀ k rs, routes !! k = Some rs → sorted_by route_cmp rs ∧
    ∀ r, r ∈ rs → as_str (wr_node_id r) = k ∧
    (∃ n, nodes !! k = Some n ∧ wn_executor n = ExRouter)
    ∧ ∃ t, transitions !! as_str (wr_destination_transition r) = Some t
           ∧ wt_from_node t = wr_node_id r.
Proof.
  unfold validate_routes. intros Hr. res_inv Hr. destruct x as [ids routes].
  assert (∀ k r, r ∈ default [] (routes !! k) → as_str (wr_node_id r) = k ∧
    (∃ n, nodes !! k = Some n ∧ wn_executor n = ExRouter)
    ∧ ∃ t, transitions !! as_str (wr_destination_transition r) = Some t
           ∧ wt_from_node t = wr_node_id r) as Hrs.
  { revert Hr0. apply (fold_res_inv _ (λ _ st, ∀ k r, r ∈ default [] (st.2 !! k) →
      as_str (wr_node_id r) = k ∧ (∃ n, nodes !! k = Some n ∧ wn_executor n = ExRouter)
      ∧ ∃ t, transitions !! as_str (wr_destination_transition r) = Some t
             ∧ wt_from_node t = wr_node_id r)); [set_solver|].
    intros _ x [i1 m1] [i2 m2] Hm Hs k r. unfold validate_route in Hs. res_inv Hs. boolify.
    simpl. rewrite push_entry_lookup, elem_of_app. intros [Hin|Hin]; [by apply Hm|].
    case_decide; [|set_solver]. apply list_elem_of_singleton in Hin as ->. subst. eauto 10. }
  intros k rs. simpl. rewrite lookup_fmap, fmap_Some. intros (rs0 & Hk & ->). split.
  - apply sort_by_sorted, _.
  - intros r. rewrite elem_of_sort_by. intros Hin. apply Hrs. by rewrite Hk.
Qed.

(** What [validate_transition] accepts has both ends among the nodes. *)
Lemma validate_transition_ends t nodes u :
  validate_transition t nodes = Ok u →
  is_Some (nodes !! as_str (wt_from_node t)) ∧ is_Some (nodes !! as_str (wt_to_node t)).
Proof. unfold validate_transition. intros Ht. res_inv Ht; eauto. Qed.

#[export] Instance transition_cmp_ord : Cmp transition_cmp.
Proof.
  apply (cmp_then_with (on_key wt_priority Z.compare)
           (on_key (λ t, as_str (wt_transition_id t)) String.compare)).
Qed.

Lemma build_plan_wf s p : build_plan s = Ok p → PlanWf p ∧ plan_snapshot p = s.
Proof.
  unfold build_plan. intros Hb.
  apply rbind_ok in Hb as (caps & _ & Hb). apply rbind_ok in Hb as (nodes & Hnodes & Hb).
  apply rbind_ok in Hb as (_ & _ & Hb). apply rbind_ok in Hb as (entries & Hentries & Hb).
  apply rbind_ok in Hb as (u & Hne & Hb). apply fail_if_ok in Hne.
  apply rbind_ok in Hb as ([transitions outgoing] & Hedges & Hb). cbn beta iota zeta in Hb.
  apply rbind_ok in Hb as (loops & Hloops & Hb). apply rbind_ok in Hb as ([] & Hcycles & Hb).
  apply rbind_ok in Hb as (joins & Hjoins & Hb). apply rbind_ok in Hb as (routes & Hroutes & Hb).
  apply rbind_ok in Hb as (fp & _ & Hb). cbn [fst snd] in *. injection Hb as <-.
  apply compile_nodes_spec in Hnodes as (_ & Hn & _).
  apply compile_entries_spec in Hentries as (Hed & -> & Hen).
  apply compile_transitions_spec in Hedges as (_ & Ht & Hv & Ho).
  apply validate_loops_spec in Hloops as (Hlk & Hlp & Hld & Hlu).
  pose proof (v1_cycles_sound _ _ Hcycles) as Hcyc.
  pose proof (validate_joins_spec _ _ _ Hjoins) as Hj.
  pose proof (validate_routes_spec _ _ _ _ Hroutes) as Hr.
  assert (∀ i, default [] ((sort_by transition_cmp <$> outgoing) !! i)
               = sort_by transition_cmp (default [] (outgoing !! i))) as Hsort
    by (intros i; rewrite lookup_fmap; by destruct (outgoing !! i)).
  split; [|done]. split; cbn [plan_nodes plan_transitions plan_loops plan_outgoing plan_snapshot
    plan_joins plan_routes plan_node plan_transition plan_outgoing_of plan_loop_descriptor
    plan_route_rules]; unfold plan_node, plan_transition, plan_outgoing_of, plan_loop_descriptor,
    plan_route_rules; cbn [plan_nodes plan_transitions plan_loops plan_outgoing plan_snapshot
    plan_joins plan_routes].
  - intros k n. rewrite Hn. naive_solver.
  - intros n. rewrite Hn. naive_solver.
  - intros k t. rewrite Ht. naive_solver.
  - intros k t [Hin ->]%Ht. by eapply validate_transition_ends, Hv.
  - intros i t. rewrite Hsort, elem_of_sort_by, Ho, list_elem_of_filter, Ht. naive_solver.
  - intros i. rewrite Hsort. apply sort_by_sorted, _.
  - intros k d. rewrite Hlk. naive_solver.
  - intros d. rewrite Hlk. naive_solver.
  - done.
  - naive_solver.
  - intros l Hl. destruct (Hlu _ Hl) as (k & t & i & ? & ? & ?%(inj _)). subst. eauto.
  - done.
  - split_and!; [|done..]. intros Hnil. boolify. by rewrite Hnil in Hne.
  - intros k d Hd. destruct (Hj k d Hd) as (_ & ? & ? & ? & ?). done.
  - intros i r Hin. destruct (routes !! as_str i) as [rs|] eqn:Hrs; simpl in Hin; [|set_solver].
    apply Hr in Hrs as [_ Hrs]. apply Hrs in Hin as (?%(inj _) & ? & t & ? & ?).
    subst. split_and!; eauto.
  - intros i. destruct (routes !! as_str i) as [rs|] eqn:Hrs; simpl; [by apply Hr in Hrs as []|].
    constructor.
Qed.

Lemma compile_build s h p : compile s h = Ok p → build_plan (canonicalize_snapshot s) = Ok p.
Proof. unfold compile. intros Hc. by res_inv Hc. Qed.
End folds.

(** ** A concrete plan

    Three nodes [start -> body -> done], with a declared loop of at most two
    iterations on [body].  The serializers write only the identity of their
    argument, which is enough to run the model. *)
Module Demo.
#[export] Instance sha : Sha256 := demo_sha256.
#[export] Instance snapshot_ser : Serialize WorkerFrozenRunSnapshotV1 := {|
  to_vec s := Some (as_bytes (as_str (ws_snapshot_id s)));
  jcs_to_vec s := Some (as_bytes (as_str (ws_snapshot_id s)))
|}.
#[export] Instance json_ser : Serialize json := {|
  to_vec _ := Some (as_bytes "json"); jcs_to_vec _ := Some (as_bytes "json")
|}.
#[export] Instance fingerprint_ser : Serialize (string * WorkerFrozenRunSnapshotV1 * string) := {|
  to_vec x := Some (as_bytes (x.1.1 +:+ as_str (ws_snapshot_id x.1.2)));
  jcs_to_vec x := Some (as_bytes (x.1.1 +:+ as_str (ws_snapshot_id x.1.2)))
|}.

Definition hash64 : string := hex_digits 64 0.
Definition node (i : StableId) (kind : WorkerExecutorKindV1) : WorkerNodeV1 :=
  MkNode i "demo" 1 hash64 [MkPort "in" None true] [MkPort "out" None true] kind JNull None None.
Definition edge (t a b : StableId) (priority : Z) (declared : option StableId) :
    WorkerTransitionV1 := MkTransition t a "out" b "in" priority None declared.
Definition budget : WorkerBudgetV1 := MkBudget 10 10 10 1000 1000 10 3 10 2 60000.
Definition draft : WorkerFrozenRunSnapshotV1 :=
  MkSnapshot id:"snapshot" "" id:"chat" id:"run" 1 WORKER_COMPILER_VERSION hash64
    [node id:"start" ExPure; node id:"body" ExPure; node id:"done" ExTerminal]
    [edge id:"t-enter" id:"start" id:"body" 0 None;
     edge id:"t-again" id:"body" id:"body" 0 (Some id:"loop");
     edge id:"t-exit" id:"body" id:"done" 1 None]
    [id:"start"] [MkLoop id:"loop" 2 id:"body" id:"body"] [] [] id:"authority" hash64 [] []
    JNull budget LocalSqlite.
Definition snapshot : WorkerFrozenRunSnapshotV1 :=
  match snapshot_content_hash draft with Ok h => with_snapshot_hash h draft | Err _ => draft end.
Definition plan : option ExecutionPlanV1 :=
  match compile snapshot (ws_snapshot_hash snapshot) with Ok p => Some p | Err _ => None end.
End Demo.

(** ** Compilation does not depend on the order of the snapshot's lists *)

(** Two nodes that list the same ports in another order. *)
Record node_reordered (n n' : WorkerNodeV1) : Prop := {
  nr_fields : (wn_node_id n, wn_node_type n, wn_node_version n, wn_contribution_hash n,
               wn_executor n, wn_config n, wn_capability_ref n, wn_result_schema_ref n)
            = (wn_node_id n', wn_node_type n', wn_node_version n', wn_contribution_hash n',
               wn_executor n', wn_config n', wn_capability_ref n', wn_result_schema_ref n');
  nr_inputs : wn_inputs n ≡ₚ wn_inputs n' ∧ NoDup (port_name <$> wn_inputs n);
  nr_outputs : wn_outputs n ≡ₚ wn_outputs n' ∧ NoDup (port_name <$> wn_outputs n)
}.

(** A reordering of a list whose elements have distinct identities. *)
Definition reordered {A} (key : A → StableId) (l l' : list A) : Prop :=
  l ≡ₚ l' ∧ NoDup (key <$> l).

(** Two snapshots that differ only in the order of their lists. *)
Record snapshot_reordered (s s' : WorkerFrozenRunSnapshotV1) : Prop := {
  sr_fields : (ws_snapshot_id s, ws_snapshot_hash s, ws_chat_id s, ws_run_id s,
               ws_schema_version s, ws_compiler_version s, ws_workflow_hash s,
               ws_authority_manifest_ref s, ws_authority_manifest_hash s,
               ws_workspace_identity s, ws_budget s, ws_history_mode s)
            = (ws_snapshot_id s', ws_snapshot_hash s', ws_chat_id s', ws_run_id s',
               ws_schema_version s', ws_compiler_version s', ws_workflow_hash s',
               ws_authority_manifest_ref s', ws_authority_manifest_hash s',
               ws_workspace_identity s', ws_budget s', ws_history_mode s');
  sr_nodes : ∃ l, reordered wn_node_id (ws_nodes s) l ∧ Forall2 node_reordered l (ws_nodes s');
  sr_transitions : reordered wt_transition_id (ws_transitions s) (ws_transitions s');
  sr_entries : reordered id (ws_entry_nodes s) (ws_entry_nodes s');
  sr_loops : reordered wl_loop_id (ws_loop_descriptors s) (ws_loop_descriptors s');
  sr_joins : reordered wj_join_id (ws_join_descriptors s) (ws_join_descriptors s');
  sr_routes : reordered wr_route_id (ws_route_rules s) (ws_route_rules s');
  sr_bindings : reordered fb_capability_id (ws_capability_bindings s) (ws_capability_bindings s');
  sr_capabilities : reordered id (ws_capability_refs s) (ws_capability_refs s')
}.

Lemma reordered_sort {A} (key : A → StableId) l l' :
  reordered key l l' → sort_by (id_cmp key) l = sort_by (id_cmp key) l'.
Proof.
  intros [Hp Hnd]. apply (sort_by_key_perm (λ x, as_str (key x)) String.compare); [|done].
  change (NoDup (as_str ∘ key <$> l)). rewrite (list_fmap_compose key as_str l). by apply NoDup_fmap_2; [apply _|].
Qed.

Lemma canonicalize_node_reordered n n' :
  node_reordered n n' → canonicalize_node n = canonicalize_node n'.
Proof.
  intros [Hf [Hi Hin] [Ho Hon]]. injection Hf as H1 H2 H3 H4 H5 H6 H7 H8. unfold canonicalize_node.
  rewrite H1, H2, H3, H4, H5, H6, H7, H8.
  by rewrite (sort_by_key_perm port_name String.compare _ _ Hin Hi),
    (sort_by_key_perm port_name String.compare _ _ Hon Ho).
Qed.

(** Sorting on the id commutes with a map that keeps the id. *)
Lemma fmap_sort_by_id {A} (key : A → StableId) (f : A → A) l :
  (∀ x, key (f x) = key x) → f <$> sort_by (id_cmp key) l = sort_by (id_cmp key) (f <$> l).
Proof.
  intros Hf.
  assert (∀ x l1, f <$> insert_by (id_cmp key) x l1 = insert_by (id_cmp key) (f x) (f <$> l1)) as Hi.
  { intros x l1. induction l1 as [|y l1 IH]; csimpl; [done|].
    replace (cmp_leb (id_cmp key) (f x) (f y)) with (cmp_leb (id_cmp key) x y)
      by (unfold cmp_leb, id_cmp, on_key; by rewrite !Hf).
    destruct (cmp_leb (id_cmp key) x y); csimpl; [done|]. by rewrite IH. }
  induction l as [|x l IH]; [done|]. rewrite fmap_cons. unfold sort_by in *. cbn [foldr]. by rewrite Hi, IH.
Qed.

Lemma canonicalize_nodes_reordered l1 l l2 :
  reordered wn_node_id l1 l → Forall2 node_reordered l l2 →
  canonicalize_node <$> sort_by (id_cmp wn_node_id) l1
  = canonicalize_node <$> sort_by (id_cmp wn_node_id) l2.
Proof.
  intros H1 H2. rewrite (reordered_sort _ _ _ H1), !fmap_sort_by_id by done. f_equal.
  clear H1. induction H2 as [|n n' l l' Hn _ IH]; [done|]. rewrite !fmap_cons.
  by rewrite (canonicalize_node_reordered _ _ Hn), IH.
Qed.

Lemma canonicalize_reordered s s' :
  snapshot_reordered s s' → canonicalize_snapshot s = canonicalize_snapshot s'.
Proof.
  intros [Hf (l & Hn1 & Hn2) Ht He Hl Hj Hr Hb Hc].
  injection Hf as E1 E2 E3 E4 E5 E6 E7 E8 E9 E10 E11 E12. unfold canonicalize_snapshot.
  rewrite E1, E2, E3, E4, E5, E6, E7, E8, E9, E10, E11, E12.
  by rewrite (canonicalize_nodes_reordered _ _ _ Hn1 Hn2), (reordered_sort _ _ _ Ht),
    (reordered_sort _ _ _ He), (reordered_sort _ _ _ Hl), (reordered_sort _ _ _ Hj),
    (reordered_sort _ _ _ Hr), (reordered_sort _ _ _ Hb), (reordered_sort _ _ _ Hc).
Qed.

Lemma canonicalize_node_idemp n : canonicalize_node (canonicalize_node n) = canonicalize_node n.
Proof. unfold canonicalize_node. simpl. f_equal; apply sort_by_idemp, _. Qed.

Lemma canonicalize_with_hash h s :
  canonicalize_snapshot (with_snapshot_hash h s) = with_snapshot_hash h (canonicalize_snapshot s).
Proof. done. Qed.

(** [canonicalize_snapshot] is idempotent, so hashing or compiling an
    already canonical snapshot changes nothing. *)
Theorem canonicalize_snapshot_idemp s :
  canonicalize_snapshot (canonicalize_snapshot s) = canonicalize_snapshot s.
Proof.
  unfold canonicalize_snapshot. cbn [ws_nodes ws_transitions ws_entry_nodes ws_loop_descriptors
    ws_join_descriptors ws_route_rules ws_capability_bindings ws_capability_refs].
  f_equal; try (apply sort_by_idemp, _).
  rewrite fmap_sort_by_id, <-list_fmap_compose by done.
  rewrite (list_fmap_ext (canonicalize_node ∘ canonicalize_node) canonicalize_node)
    by (intros; apply canonicalize_node_idemp).
  rewrite <-fmap_sort_by_id by done. by rewrite sort_by_idemp by apply _.
Qed.

Section compiled.
Context `{Sha256} `{Serialize WorkerFrozenRunSnapshotV1} `{Serialize json}
        `{Serialize (string * WorkerFrozenRunSnapshotV1 * string)}.

(** C37: a plan that [compile] returns is well formed: its indexes are keyed
    by identity, every transition joins two declared nodes, the outgoing
    edges of a node are exactly its transitions in priority order, every
    declared loop has a positive bound and is used by the transition from its
    exit to its entry, entries exist, joins and routes are attached to join
    and router nodes, and no cycle avoids the declared loops. *)
Theorem compile_wf s h p : compile s h = Ok p → PlanWf p.
Proof. intros Hc%compile_build. by apply build_plan_wf in Hc as []. Qed.

(** Two snapshots that list the same parts in different orders have the
    same content hash, and, when both are within the size bounds, compile to
    the same plan or fail with the same error. *)
Theorem compile_order_independent s s' h :
  snapshot_reordered s s' →
  validate_snapshot_bounds s = Ok () → validate_snapshot_bounds s' = Ok () →
  snapshot_content_hash s = snapshot_content_hash s' ∧ compile s h = compile s' h.
Proof.
  intros Hr Hb Hb'.
  assert (snapshot_content_hash s = snapshot_content_hash s') as Hh.
  { unfold snapshot_content_hash. by rewrite !canonicalize_with_hash, (canonicalize_reordered _ _ Hr). }
  split; [done|]. unfold compile. rewrite Hb, Hb', Hh, (canonicalize_reordered _ _ Hr).
  destruct Hr as [Hf _ _ _ _ _ _ _ _]. injection Hf as E1 E2 E3 E4 E5 E6 E7 E8 E9 E10 E11 E12.
  by rewrite E2, E5, E6, E7, E9.
Qed.
End compiled.

Section compiled_witness.
Import (hints) Demo.

Lemma compile_wf_witness : ∃ p,
  compile Demo.snapshot (ws_snapshot_hash Demo.snapshot) = Ok p ∧ PlanWf p.
Proof.
  assert (is_ok (compile Demo.snapshot (ws_snapshot_hash Demo.snapshot)) = true) as Hok
    by (vm_compute; reflexivity).
  destruct (compile Demo.snapshot (ws_snapshot_hash Demo.snapshot)) as [p|e] eqn:E;
    [|discriminate Hok].
  exists p. split; [done|]. exact (compile_wf Demo.snapshot (ws_snapshot_hash Demo.snapshot) p E).
Defined.

(** The demo snapshot with its nodes and transitions listed backwards. *)
Definition demo_backwards : WorkerFrozenRunSnapshotV1 :=
  let s := Demo.snapshot in
  MkSnapshot (ws_snapshot_id s) (ws_snapshot_hash s) (ws_chat_id s) (ws_run_id s)
    (ws_schema_version s) (ws_compiler_version s) (ws_workflow_hash s)
    (reverse (ws_nodes s)) (reverse (ws_transitions s)) (ws_entry_nodes s)
    (ws_loop_descriptors s) (ws_join_descriptors s) (ws_route_rules s)
    (ws_authority_manifest_ref s) (ws_authority_manifest_hash s) (ws_capability_bindings s)
    (ws_capability_refs s) (ws_workspace_identity s) (ws_budget s) (ws_history_mode s).

Lemma demo_reordered : snapshot_reordered Demo.snapshot demo_backwards.
Proof.
  assert (∀ i k, node_reordered (Demo.node i k) (Demo.node i k)) as Hn.
  { intros i k. split; [done|split; [done|]..]; apply NoDup_singleton. }
  split; try (split; [done|]; by apply (bool_decide_unpack _); vm_compute).
  - done.
  - exists (reverse (ws_nodes Demo.snapshot)). split.
    + split; [symmetry; apply reverse_Permutation|]. apply (bool_decide_unpack _). by vm_compute.
    + do 3 (apply Forall2_cons; split; [apply Hn|]). by apply Forall2_nil.
  - split; [symmetry; apply reverse_Permutation|]. apply (bool_decide_unpack _). by vm_compute.
Qed.

Lemma compile_order_independent_witness :
  snapshot_content_hash Demo.snapshot = snapshot_content_hash demo_backwards
  ∧ compile Demo.snapshot (ws_snapshot_hash Demo.snapshot)
    = compile demo_backwards (ws_snapshot_hash Demo.snapshot).
Proof.
  apply (compile_order_independent Demo.snapshot demo_backwards (ws_snapshot_hash Demo.snapshot)
           demo_reordered); vm_compute; reflexivity.
Defined.
End compiled_witness.
