(* ===== verification/Scheduler.v ===== *)
(** * The token scheduler ([SchedulerV1] of
    [crates/aworkit-workflow-worker/src/scheduler.rs])

    Definitions only: the state, one function per method, and the checkpoint
    with its validation.  A method [&mut self] is a state transformer; the
    new state is kept on the error branch.  The invariant is in
    [SchedulerInv], the theorems in [SchedulerProofs]. *)
From S2P Require Export PlanProofs.

Inductive TokenStateV1 : Type :=
| Ready | InFlight | AwaitingCommit | Completed | Suspended | Cancelled.
#[export] Instance TokenStateV1_eq_dec : EqDecision TokenStateV1.
Proof. solve_decision. Defined.

Inductive ExternalCompletionV1 : Type := WaitInputReceived.
#[export] Instance ExternalCompletionV1_eq_dec : EqDecision ExternalCompletionV1.
Proof. solve_decision. Defined.

Record TokenV1 : Type := MkToken {
  tk_token_id : StableId;
  tk_node_id : StableId;
  tk_context_revision : N;
  tk_logical_tick : N;
  tk_branch_lineage : string;
  tk_state : TokenStateV1;
  tk_awaiting_proposal_id : option StableId;
  tk_selected_transition_id : option StableId;
  tk_selected_loop_id : option StableId;
  tk_external_completion : option ExternalCompletionV1
}.

Record ReadyKeyV1 : Type := MkReadyKey {
  rk_logical_tick : N;
  rk_node_ordinal : N;
  rk_branch_lineage : string;
  rk_token_id : string
}.
#[export] Instance ReadyKeyV1_eq_dec : EqDecision ReadyKeyV1.
Proof. solve_decision. Defined.
Definition rk_tuple (k : ReadyKeyV1) : N * N * string * string :=
  (rk_logical_tick k, rk_node_ordinal k, rk_branch_lineage k, rk_token_id k).
Definition rk_of_tuple (x : N * N * string * string) : ReadyKeyV1 :=
  MkReadyKey x.1.1.1 x.1.1.2 x.1.2 x.2.
#[export] Instance ReadyKeyV1_countable : Countable ReadyKeyV1.
Proof. apply (inj_countable' rk_tuple rk_of_tuple). by intros []. Defined.

(** The derived [Ord]: lexicographic in declaration order. *)
Definition ready_cmp (a b : ReadyKeyV1) : comparison :=
  then_with (N.compare (rk_logical_tick a) (rk_logical_tick b))
   (then_with (N.compare (rk_node_ordinal a) (rk_node_ordinal b))
     (then_with (String.compare (rk_branch_lineage a) (rk_branch_lineage b))
        (String.compare (rk_token_id a) (rk_token_id b)))).
Definition ready_iter (r : gset ReadyKeyV1) : list ReadyKeyV1 := sort_by ready_cmp (elements r).

Record TransitionProposalV1 : Type := MkTransitionProposal {
  tp_proposal_id : StableId; tp_token_id : StableId; tp_transition_id : StableId; tp_facts : json
}.
Record TerminalProposalV1 : Type := MkTerminalProposal {
  te_proposal_id : StableId; te_token_id : StableId; te_outcome_text : string; te_facts : json
}.
Record WaitInputProposalV1 : Type := MkWaitInputProposal {
  wi_proposal_id : StableId; wi_token_id : StableId; wi_facts : json
}.
Record AckAdmissionV1 : Type := MkAck { ack_duplicate : bool; ack_admitted_token : option TokenV1 }.

Record SchedulerCheckpointV1 : Type := MkSchedulerCheckpoint {
  scp_logical_tick : N;
  scp_next_token_ordinal : N;
  scp_committed_cursor : N;
  scp_tokens : list TokenV1;
  scp_ready : list (N * N * string * string);
  scp_loop_counts : gmap string N;
  scp_acknowledged_proposals : gmap string (option string)
}.

Inductive SchedulerErrorV1 : Type :=
| SeUnknownNode (node : string)
| SeUnknownToken (token : string)
| SeInvalidTokenState (token : string)
| SeNoTransition (node : string)
| SeInvalidPredicate (message : string)
| SeLoopExhausted (loop_id : string)
| SeAckMismatch
| SeNotTerminal (token : string)
| SeNotWait (token : string)
| SeCursorRegression
| SeInvalidCheckpoint
| SeInvalidIdentifier.

Record SchedulerV1 : Type := MkScheduler {
  sc_plan : ExecutionPlanV1;
  sc_node_ordinals : gmap string N;
  sc_ready : gset ReadyKeyV1;
  sc_tokens : gmap string TokenV1;
  sc_next_token_ordinal : N;
  sc_logical_tick : N;
  sc_committed_cursor : N;
  sc_loop_counts : gmap string N;
  sc_acknowledged_proposals : gmap string (option string)
}.

(** ** Field updates *)

Definition set_ready r s :=
  MkScheduler (sc_plan s) (sc_node_ordinals s) r (sc_tokens s) (sc_next_token_ordinal s)
    (sc_logical_tick s) (sc_committed_cursor s) (sc_loop_counts s) (sc_acknowledged_proposals s).
Definition set_tokens m s :=
  MkScheduler (sc_plan s) (sc_node_ordinals s) (sc_ready s) m (sc_next_token_ordinal s)
    (sc_logical_tick s) (sc_committed_cursor s) (sc_loop_counts s) (sc_acknowledged_proposals s).
Definition set_next_token_ordinal n s :=
  MkScheduler (sc_plan s) (sc_node_ordinals s) (sc_ready s) (sc_tokens s) n
    (sc_logical_tick s) (sc_committed_cursor s) (sc_loop_counts s) (sc_acknowledged_proposals s).
Definition set_logical_tick n s :=
  MkScheduler (sc_plan s) (sc_node_ordinals s) (sc_ready s) (sc_tokens s) (sc_next_token_ordinal s)
    n (sc_committed_cursor s) (sc_loop_counts s) (sc_acknowledged_proposals s).
Definition set_committed_cursor n s :=
  MkScheduler (sc_plan s) (sc_node_ordinals s) (sc_ready s) (sc_tokens s) (sc_next_token_ordinal s)
    (sc_logical_tick s) n (sc_loop_counts s) (sc_acknowledged_proposals s).
Definition set_loop_counts m s :=
  MkScheduler (sc_plan s) (sc_node_ordinals s) (sc_ready s) (sc_tokens s) (sc_next_token_ordinal s)
    (sc_logical_tick s) (sc_committed_cursor s) m (sc_acknowledged_proposals s).
Definition set_acknowledged_proposals m s :=
  MkScheduler (sc_plan s) (sc_node_ordinals s) (sc_ready s) (sc_tokens s) (sc_next_token_ordinal s)
    (sc_logical_tick s) (sc_committed_cursor s) (sc_loop_counts s) m.
Definition with_state (st : TokenStateV1) (t : TokenV1) : TokenV1 :=
  MkToken (tk_token_id t) (tk_node_id t) (tk_context_revision t) (tk_logical_tick t)
    (tk_branch_lineage t) st (tk_awaiting_proposal_id t) (tk_selected_transition_id t)
    (tk_selected_loop_id t) (tk_external_completion t).
(** The five assignments by which a proposal blocks its token. *)
Definition awaiting (proposal : StableId) (transition loop_id : option StableId)
    (external : option ExternalCompletionV1) (t : TokenV1) : TokenV1 :=
  MkToken (tk_token_id t) (tk_node_id t) (tk_context_revision t) (tk_logical_tick t)
    (tk_branch_lineage t) AwaitingCommit (Some proposal) transition loop_id external.

(** [self.tokens.get_mut(id)], followed by an update through the reference. *)
Definition update_token (i : string) (f : TokenV1 → TokenV1) (s : SchedulerV1) : SchedulerV1 :=
  set_tokens (alter f i (sc_tokens s)) s.

(** ** Helpers *)

Definition routing_error_to_string (e : RoutingError) : string :=
  match e with
  | NoMatch n => "no declared route matched node " +:+ n
  | InvalidPredicate m => "route predicate is malformed: " +:+ m
  | PredicateTooComplex => "route predicate exceeded its bounded complexity"
  end.

Definition lineage_matches (candidate cancelled : string) : bool :=
  bool_decide (candidate = cancelled)
  || match strip_prefix cancelled candidate with
     | Some suffix => starts_with "/" suffix
     | None => false
     end.

Definition ready_key (ordinal : N) (t : TokenV1) : ReadyKeyV1 :=
  MkReadyKey (tk_logical_tick t) ordinal (tk_branch_lineage t) (as_str (tk_token_id t)).

(** [tokens.values().find(|t| t.awaiting_proposal_id == Some(p))] *)
Definition find_awaiting (tokens : gmap string TokenV1) (p : string) : option TokenV1 :=
  snd <$> list_find (λ t, (as_str <$> tk_awaiting_proposal_id t) = Some p) (bt_values tokens).

Definition pending_on (loop_id : StableId) (t : TokenV1) : bool :=
  bool_decide (tk_state t = AwaitingCommit) && bool_decide (tk_selected_loop_id t = Some loop_id).
Definition pending_count (tokens : gmap string TokenV1) (loop_id : StableId) : N :=
  count_values (pending_on loop_id) tokens.
Definition u32_try_from (n : N) : option N := if n <=? u32_max then Some n else None.
Definition u64_try_from (n : N) : option N := if n <=? u64_max then Some n else None.
(** [*counts.entry(key).or_default() += 1] on [u32]. *)
Definition bump_count (key : string) (counts : gmap string N) : gmap string N :=
  <[key := (default 0 (counts !! key) + 1) mod (u32_max + 1)]> counts.

Definition executor_is (p : ExecutionPlanV1) (node : StableId) (k : WorkerExecutorKindV1) : bool :=
  match plan_node p node with
  | Some n => bool_decide (wn_executor n = k)
  | None => false
  end.

(** [(executor, external)] of a completion without a transition. *)
Definition valid_completion (n : WorkerNodeV1) (e : option ExternalCompletionV1) : bool :=
  match wn_executor n, e with
  | ExTerminal, None => true
  | ExWait, Some WaitInputReceived => true
  | _, _ => false
  end.

Definition validate_restored_token (p : ExecutionPlanV1) (t : TokenV1) :
    result SchedulerErrorV1 () :=
  node ← ok_or (plan_node p (tk_node_id t)) SeInvalidCheckpoint;
  _ ← fail_if (str_is_empty (tk_branch_lineage t) || (512 <? str_len (tk_branch_lineage t)))
        SeInvalidCheckpoint;
  match tk_state t with
  | Ready | InFlight | Suspended | Cancelled =>
      fail_if (is_some (tk_awaiting_proposal_id t) || is_some (tk_selected_transition_id t)
               || is_some (tk_selected_loop_id t) || is_some (tk_external_completion t))
        SeInvalidCheckpoint
  | AwaitingCommit | Completed =>
      _ ← fail_if (negb (is_some (tk_awaiting_proposal_id t))) SeInvalidCheckpoint;
      match tk_selected_transition_id t with
      | Some transition_id =>
          transition ← ok_or (plan_transition p transition_id) SeInvalidCheckpoint;
          fail_if (negb (bool_decide (wt_from_node transition = tk_node_id t))
                   || negb (bool_decide (wt_declared_loop_id transition = tk_selected_loop_id t))
                   || is_some (tk_external_completion t)) SeInvalidCheckpoint
      | None =>
          fail_if (is_some (tk_selected_loop_id t)
                   || negb (valid_completion node (tk_external_completion t))) SeInvalidCheckpoint
      end
  end.

(** ** Construction *)

Fixpoint ordinals_from (k : N) (nodes : list WorkerNodeV1) (m : gmap string N) : gmap string N :=
  match nodes with
  | [] => m
  | n :: nodes => ordinals_from (k + 1) nodes (<[as_str (wn_node_id n) := k]> m)
  end.
Definition node_ordinals_of (p : ExecutionPlanV1) : gmap string N :=
  ordinals_from 0 (ws_nodes (plan_snapshot p)) ∅.
Definition SchedulerV1_new (p : ExecutionPlanV1) : SchedulerV1 :=
  MkScheduler p (node_ordinals_of p) ∅ ∅ 1 0 0 ∅ ∅.

Section scheduler.
Context `{Sha256}.

Definition stable_id (material : string) : result SchedulerErrorV1 StableId :=
  let digest := sha256_hex (as_bytes material) in
  map_err (λ _, SeInvalidIdentifier) (StableId_parse ("worker." +:+ str_take 48 digest)).

Definition token_material (s : SchedulerV1) (node_id : StableId) (lineage : string) : string :=
  "token:" +:+ plan_fingerprint (sc_plan s) +:+ ":" +:+ pretty (sc_next_token_ordinal s)
  +:+ ":" +:+ as_str node_id +:+ ":" +:+ lineage.

Definition enqueue (node_id : StableId) (context_revision : N) (branch_lineage : string) :
    stm SchedulerV1 SchedulerErrorV1 TokenV1 :=
  s ← read;
  ordinal ← lift (ok_or (sc_node_ordinals s !! as_str node_id) (SeUnknownNode (as_str node_id)));
  _ ← reject_if (str_is_empty branch_lineage || (512 <? str_len branch_lineage)) SeInvalidCheckpoint;
  token_id ← lift (stable_id (token_material s node_id branch_lineage));
  next ← lift (ok_or (checked_add u64_max (sc_next_token_ordinal s) 1) SeInvalidCheckpoint);
  _ ← modify (set_next_token_ordinal next);
  let token := MkToken token_id node_id context_revision (sc_logical_tick s) branch_lineage
                 Ready None None None None in
  _ ← modify (λ s, set_ready ({[ready_key ordinal token]} ∪ sc_ready s) s);
  _ ← modify (λ s, set_tokens (<[as_str token_id := token]> (sc_tokens s)) s);
  mret token.

Definition seed_entries (context_revision : N) : stm SchedulerV1 SchedulerErrorV1 (list TokenV1) :=
  s ← read;
  map_stm (λ node, enqueue node context_revision "root") (ws_entry_nodes (plan_snapshot (sc_plan s))).

Definition claim_next (s : SchedulerV1) : SchedulerV1 * option TokenV1 :=
  match ready_iter (sc_ready s) with
  | [] => (s, None)
  | key :: _ =>
      let s := set_ready (sc_ready s ∖ {[key]}) s in
      match sc_tokens s !! rk_token_id key with
      | None => (s, None)
      | Some token =>
          if negb (bool_decide (tk_state token = Ready)) then (s, None)
          else (update_token (rk_token_id key) (with_state InFlight) s,
                Some (with_state InFlight token))
      end
  end.

(** The loop of [select_transition] over the outgoing edges. *)
Fixpoint first_matching (node_id : StableId) (facts : json) (edges : list WorkerTransitionV1) :
    result SchedulerErrorV1 WorkerTransitionV1 :=
  match edges with
  | [] => Err (SeNoTransition (as_str node_id))
  | transition :: edges =>
      matches ← match wt_predicate transition with
                | None => Ok true
                | Some predicate => map_err (λ e, SeInvalidPredicate (routing_error_to_string e))
                                      (evaluate_predicate predicate facts)
                end;
      if (matches : bool) then Ok transition else first_matching node_id facts edges
  end.

Definition select_transition (p : ExecutionPlanV1) (node_id : StableId) (facts : json) :
    result SchedulerErrorV1 WorkerTransitionV1 :=
  let routes := plan_route_rules p node_id in
  if negb (is_nil routes) then
    decision ← map_err (λ e, SeInvalidPredicate (routing_error_to_string e))
                 (choose_route node_id routes facts);
    ok_or (plan_transition p (rd_transition_id decision)) (SeNoTransition (as_str node_id))
  else first_matching node_id facts (plan_outgoing_of p node_id).

(** The frozen loop bound, counting committed and pending iterations. *)
Definition check_loop_capacity (s : SchedulerV1) (transition : WorkerTransitionV1) :
    result SchedulerErrorV1 () :=
  match wt_declared_loop_id transition with
  | None => Ok ()
  | Some loop_id =>
      let exhausted := SeLoopExhausted (as_str loop_id) in
      descriptor ← ok_or (plan_loop_descriptor (sc_plan s) loop_id) exhausted;
      let committed := default 0 (sc_loop_counts s !! as_str loop_id) in
      pending ← ok_or (u32_try_from (pending_count (sc_tokens s) loop_id)) exhausted;
      fail_if (wl_maximum_iterations descriptor <=? saturating_add u32_max committed pending) exhausted
  end.

(** [tokens.get(id)] that must be in flight: the guard all three proposals share. *)
Definition in_flight_token (token_id : StableId) : stm SchedulerV1 SchedulerErrorV1 TokenV1 :=
  s ← read;
  token ← lift (ok_or (sc_tokens s !! as_str token_id) (SeUnknownToken (as_str token_id)));
  _ ← reject_if (negb (bool_decide (tk_state token = InFlight))) (SeInvalidTokenState (as_str token_id));
  mret token.

Definition propose_transition (token_id : StableId) (facts : json) :
    stm SchedulerV1 SchedulerErrorV1 TransitionProposalV1 :=
  s ← read;
  token ← in_flight_token token_id;
  transition ← lift (select_transition (sc_plan s) (tk_node_id token) facts);
  _ ← lift (check_loop_capacity s transition);
  proposal_id ← lift (stable_id ("transition:" +:+ plan_fingerprint (sc_plan s) +:+ ":"
                        +:+ as_str token_id +:+ ":" +:+ as_str (wt_transition_id transition)));
  _ ← modify (update_token (as_str token_id)
                (awaiting proposal_id (Some (wt_transition_id transition))
                   (wt_declared_loop_id transition) None));
  mret (MkTransitionProposal proposal_id token_id (wt_transition_id transition) facts).

Definition propose_terminal (token_id : StableId) (outcome : string) (facts : json) :
    stm SchedulerV1 SchedulerErrorV1 TerminalProposalV1 :=
  s ← read;
  token ← in_flight_token token_id;
  _ ← reject_if (negb (executor_is (sc_plan s) (tk_node_id token) ExTerminal))
        (SeNotTerminal (as_str token_id));
  _ ← reject_if (trim_is_empty outcome || (256 <? str_len outcome)) SeInvalidCheckpoint;
  proposal_id ← lift (stable_id ("terminal:" +:+ plan_fingerprint (sc_plan s) +:+ ":"
                        +:+ as_str token_id +:+ ":" +:+ outcome));
  _ ← modify (update_token (as_str token_id) (awaiting proposal_id None None None));
  mret (MkTerminalProposal proposal_id token_id outcome facts).

Definition propose_wait_input (token_id : StableId) (facts : json) :
    stm SchedulerV1 SchedulerErrorV1 WaitInputProposalV1 :=
  s ← read;
  token ← in_flight_token token_id;
  _ ← reject_if (negb (executor_is (sc_plan s) (tk_node_id token) ExWait))
        (SeNotWait (as_str token_id));
  proposal_id ← lift (stable_id ("wait-input:" +:+ plan_fingerprint (sc_plan s) +:+ ":"
                        +:+ as_str token_id));
  _ ← modify (update_token (as_str token_id) (awaiting proposal_id None None (Some WaitInputReceived)));
  mret (MkWaitInputProposal proposal_id token_id facts).

(** ** Acknowledgements *)

Definition acknowledge_transition (proposal_id : StableId) (committed_cursor context_revision : N) :
    stm SchedulerV1 SchedulerErrorV1 AckAdmissionV1 :=
  s ← read;
  _ ← reject_if (committed_cursor <? sc_committed_cursor s) SeCursorRegression;
  match sc_acknowledged_proposals s !! as_str proposal_id with
  | Some child => mret (MkAck true (child ≫= λ i, sc_tokens s !! i))
  | None =>
      _ ← reject_if (committed_cursor <=? sc_committed_cursor s) SeCursorRegression;
      source_id ← lift (ok_or (tk_token_id <$> find_awaiting (sc_tokens s) (as_str proposal_id))
                          SeAckMismatch);
      source ← lift (ok_or (sc_tokens s !! as_str source_id) SeAckMismatch);
      _ ← reject_if (negb (bool_decide (tk_state source = AwaitingCommit))
                     || is_some (tk_external_completion source)) SeAckMismatch;
      transition_id ← lift (ok_or (tk_selected_transition_id source) SeAckMismatch);
      transition ← lift (ok_or (plan_transition (sc_plan s) transition_id) SeAckMismatch);
      _ ← modify (λ s, match tk_selected_loop_id source with
                       | Some loop_id =>
                           set_loop_counts (bump_count (as_str loop_id) (sc_loop_counts s)) s
                       | None => s
                       end);
      _ ← modify (update_token (as_str source_id) (with_state Completed));
      _ ← modify (λ s, set_logical_tick (saturating_add u64_max (sc_logical_tick s) 1) s);
      _ ← modify (set_committed_cursor committed_cursor);
      child ← enqueue (wt_to_node transition) context_revision (tk_branch_lineage source);
      _ ← modify (λ s, set_acknowledged_proposals
                         (<[as_str proposal_id := Some (as_str (tk_token_id child))]>
                            (sc_acknowledged_proposals s)) s);
      mret (MkAck false (Some child))
  end.

(** The common body of [acknowledge_terminal] and [acknowledge_wait_input],
    which differ in the executor and the external completion they expect. *)
Definition wrong_completion (s : SchedulerV1) (kind : WorkerExecutorKindV1)
    (external : option ExternalCompletionV1) (source : TokenV1) : bool :=
  is_some (tk_selected_transition_id source)
  || negb (bool_decide (tk_external_completion source = external))
  || negb (executor_is (sc_plan s) (tk_node_id source) kind).

Definition acknowledge_completion (kind : WorkerExecutorKindV1)
    (external : option ExternalCompletionV1) (proposal_id : StableId) (committed_cursor : N) :
    stm SchedulerV1 SchedulerErrorV1 AckAdmissionV1 :=
  s ← read;
  _ ← reject_if (committed_cursor <? sc_committed_cursor s) SeCursorRegression;
  if bt_contains (sc_acknowledged_proposals s) (as_str proposal_id) then
    source ← lift (ok_or (find_awaiting (sc_tokens s) (as_str proposal_id)) SeAckMismatch);
    _ ← reject_if (wrong_completion s kind external source) SeAckMismatch;
    mret (MkAck true None)
  else
    _ ← reject_if (committed_cursor <=? sc_committed_cursor s) SeCursorRegression;
    source_id ← lift (ok_or (tk_token_id <$> find_awaiting (sc_tokens s) (as_str proposal_id))
                        SeAckMismatch);
    source ← lift (ok_or (sc_tokens s !! as_str source_id) SeAckMismatch);
    _ ← reject_if (negb (bool_decide (tk_state source = AwaitingCommit))
                   || wrong_completion s kind external source) SeAckMismatch;
    _ ← modify (update_token (as_str source_id) (with_state Completed));
    _ ← modify (λ s, set_logical_tick (saturating_add u64_max (sc_logical_tick s) 1) s);
    _ ← modify (set_committed_cursor committed_cursor);
    _ ← modify (λ s, set_acknowledged_proposals
                       (<[as_str proposal_id := None]> (sc_acknowledged_proposals s)) s);
    mret (MkAck false None).
Definition acknowledge_terminal (proposal_id : StableId) (committed_cursor : N) :
    stm SchedulerV1 SchedulerErrorV1 AckAdmissionV1 :=
  acknowledge_completion ExTerminal None proposal_id committed_cursor.
Definition acknowledge_wait_input (proposal_id : StableId) (committed_cursor : N) :
    stm SchedulerV1 SchedulerErrorV1 AckAdmissionV1 :=
  acknowledge_completion ExWait (Some WaitInputReceived) proposal_id committed_cursor.

(** ** Suspension, cancellation, quiescence *)

Definition suspend (token_id : StableId) : stm SchedulerV1 SchedulerErrorV1 () :=
  s ← read;
  token ← lift (ok_or (sc_tokens s !! as_str token_id) (SeUnknownToken (as_str token_id)));
  _ ← reject_if (negb (bool_decide (tk_state token = InFlight))) (SeInvalidTokenState (as_str token_id));
  modify (update_token (as_str token_id) (with_state Suspended)).

(** The token is made ready before its node ordinal is looked up. *)
Definition resume (token_id : StableId) : stm SchedulerV1 SchedulerErrorV1 () :=
  s ← read;
  token ← lift (ok_or (sc_tokens s !! as_str token_id) (SeUnknownToken (as_str token_id)));
  _ ← reject_if (negb (bool_decide (tk_state token = Suspended))) (SeInvalidTokenState (as_str token_id));
  _ ← modify (update_token (as_str token_id) (with_state Ready));
  ordinal ← lift (ok_or (sc_node_ordinals s !! as_str (tk_node_id token))
                    (SeUnknownNode (as_str (tk_node_id token))));
  modify (λ s, set_ready ({[ready_key ordinal token]} ∪ sc_ready s) s).

Definition cancels (lineage : string) (t : TokenV1) : bool :=
  lineage_matches (tk_branch_lineage t) lineage
  && negb (bool_decide (tk_state t ∈ [AwaitingCommit; Completed; Cancelled])).
Definition cancel_lineage (lineage : string) (s : SchedulerV1) : SchedulerV1 * N :=
  let ready := filter (λ k, lineage_matches (rk_branch_lineage k) lineage = false) (sc_ready s) in
  let count := count_values (cancels lineage) (sc_tokens s) in
  (set_tokens ((λ t, if cancels lineage t then with_state Cancelled t else t) <$> sc_tokens s)
     (set_ready ready s), count).

Definition is_quiescent (s : SchedulerV1) : bool :=
  bool_decide (sc_ready s = ∅)
  && forallb (λ t, bool_decide (tk_state t ∈ [Completed; Suspended; Cancelled])) (bt_values (sc_tokens s)).

(** ** Checkpoint and restore *)

Definition checkpoint (s : SchedulerV1) : SchedulerCheckpointV1 :=
  MkSchedulerCheckpoint (sc_logical_tick s) (sc_next_token_ordinal s) (sc_committed_cursor s)
    (bt_values (sc_tokens s)) (rk_tuple <$> ready_iter (sc_ready s))
    (sc_loop_counts s) (sc_acknowledged_proposals s).

Definition checkpoint_loop_bound (p : ExecutionPlanV1) (loop_id : StableId) : option N :=
  wl_maximum_iterations <$> plan_loop_descriptor p loop_id.

Definition restore_loop_count (p : ExecutionPlanV1) (entry : string * N) :
    result SchedulerErrorV1 () :=
  loop_id ← map_err (λ _, SeInvalidCheckpoint) (StableId_parse entry.1);
  fail_if (match checkpoint_loop_bound p loop_id with
           | None => true
           | Some bound => bound <? entry.2
           end) SeInvalidCheckpoint.

(** One iteration over the checkpointed tokens; [proposal_ids] is the set of
    proposals seen so far. *)
Definition restore_token (p : ExecutionPlanV1) (logical_tick : N)
    (st : gset string * gmap string TokenV1) (token : TokenV1) :
    result SchedulerErrorV1 (gset string * gmap string TokenV1) :=
  let '(proposal_ids, tokens) := st in
  let repeated := match tk_awaiting_proposal_id token with
                  | Some i => bs_contains proposal_ids (as_str i)
                  | None => false
                  end in
  if (logical_tick <? tk_logical_tick token)
     || is_err (validate_restored_token p token)
     || repeated
     || bt_contains tokens (as_str (tk_token_id token))
  then Err SeInvalidCheckpoint
  else Ok (match tk_awaiting_proposal_id token with
           | Some i => {[as_str i]} ∪ proposal_ids
           | None => proposal_ids
           end,
           <[as_str (tk_token_id token) := token]> tokens).

Definition restore_ready (ordinals : gmap string N) (tokens : gmap string TokenV1)
    (ready : gset ReadyKeyV1) (entry : N * N * string * string) :
    result SchedulerErrorV1 (gset ReadyKeyV1) :=
  let key := rk_of_tuple entry in
  token ← ok_or (tokens !! rk_token_id key) SeInvalidCheckpoint;
  _ ← fail_if (negb (bool_decide (tk_state token = Ready))
               || negb (tk_logical_tick token =? rk_logical_tick key)
               || negb (bool_decide (tk_branch_lineage token = rk_branch_lineage key))
               || negb (bool_decide (ordinals !! as_str (tk_node_id token)
                                     = Some (rk_node_ordinal key)))) SeInvalidCheckpoint;
  if bool_decide (key ∈ ready) then Err SeInvalidCheckpoint else Ok ({[key]} ∪ ready).

Definition restore_acknowledged (p : ExecutionPlanV1) (tokens : gmap string TokenV1)
    (entry : string * option string) : result SchedulerErrorV1 () :=
  let '(proposal_id, child_id) := entry in
  _ ← map_err (λ _, SeInvalidCheckpoint) (StableId_parse proposal_id);
  source ← ok_or (find_awaiting tokens proposal_id) SeInvalidCheckpoint;
  _ ← fail_if (negb (bool_decide (tk_state source = Completed))) SeInvalidCheckpoint;
  match child_id with
  | Some child_id =>
      child ← ok_or (tokens !! child_id) SeInvalidCheckpoint;
      transition ← ok_or (tk_selected_transition_id source ≫= plan_transition p) SeInvalidCheckpoint;
      fail_if (negb (bool_decide (wt_to_node transition = tk_node_id child))
               || negb (bool_decide (tk_branch_lineage source = tk_branch_lineage child))
               || is_some (tk_external_completion source)) SeInvalidCheckpoint
  | None =>
      let valid := match plan_node p (tk_node_id source) with
                   | Some node => valid_completion node (tk_external_completion source)
                   | None => false
                   end in
      fail_if (is_some (tk_selected_transition_id source) || negb valid) SeInvalidCheckpoint
  end.

Definition is_acknowledged (acks : gmap string (option string)) (t : TokenV1) : bool :=
  match tk_awaiting_proposal_id t with
  | Some p => bt_contains acks (as_str p)
  | None => false
  end.
Definition restore_completed (acks : gmap string (option string)) (t : TokenV1) :
    result SchedulerErrorV1 () :=
  let acknowledged := is_acknowledged acks t in
  fail_if (negb (Bool.eqb (bool_decide (tk_state t = Completed)) acknowledged)
           || (bool_decide (tk_state t = AwaitingCommit) && acknowledged)) SeInvalidCheckpoint.

Definition restore_loop_capacity (tokens : gmap string TokenV1) (counts : gmap string N)
    (d : WorkerLoopDescriptorV1) : result SchedulerErrorV1 () :=
  let committed := default 0 (counts !! as_str (wl_loop_id d)) in
  pending ← ok_or (u32_try_from (pending_count tokens (wl_loop_id d))) SeInvalidCheckpoint;
  fail_if (wl_maximum_iterations d <? saturating_add u32_max committed pending) SeInvalidCheckpoint.

Definition restore (p : ExecutionPlanV1) (c : SchedulerCheckpointV1) :
    result SchedulerErrorV1 SchedulerV1 :=
  acknowledged_len ← ok_or (u64_try_from (bt_len (scp_acknowledged_proposals c))) SeInvalidCheckpoint;
  _ ← fail_if ((scp_next_token_ordinal c =? 0) || (scp_committed_cursor c <? acknowledged_len))
        SeInvalidCheckpoint;
  _ ← for_each (restore_loop_count p) (bt_iter (scp_loop_counts c));
  restored ← fold_res (restore_token p (scp_logical_tick c)) (∅ : gset string, ∅) (scp_tokens c);
  let tokens := restored.2 in
  token_len ← ok_or (u64_try_from (bt_len tokens)) SeInvalidCheckpoint;
  expected_next ← ok_or (checked_add u64_max token_len 1) SeInvalidCheckpoint;
  _ ← fail_if (negb (scp_next_token_ordinal c =? expected_next)) SeInvalidCheckpoint;
  ready ← fold_res (restore_ready (node_ordinals_of p) tokens) (∅ : gset ReadyKeyV1) (scp_ready c);
  _ ← fail_if (existsb (λ t, bool_decide (tk_state t = Ready)
                             && negb (existsb (λ k, bool_decide (rk_token_id k = as_str (tk_token_id t)))
                                        (ready_iter ready))) (bt_values tokens)) SeInvalidCheckpoint;
  _ ← for_each (restore_acknowledged p tokens) (bt_iter (scp_acknowledged_proposals c));
  _ ← for_each (restore_completed (scp_acknowledged_proposals c)) (bt_values tokens);
  _ ← for_each (restore_loop_capacity tokens (scp_loop_counts c))
        (ws_loop_descriptors (plan_snapshot p));
  Ok (MkScheduler p (node_ordinals_of p) ready tokens (scp_next_token_ordinal c)
        (scp_logical_tick c) (scp_committed_cursor c) (scp_loop_counts c)
        (scp_acknowledged_proposals c)).
End scheduler.
