(* ===== verification/SchedulerInv.v ===== *)
(** * The scheduler's invariant

    [sched_inv] is what a live scheduler guarantees between two calls; it is
    also exactly what [restore] demands of a checkpoint ([SchedulerProofs]).
    The lemmas here say how inserting a token, replacing a token and moving
    the logical clock preserve it. *)
From S2P Require Export Scheduler.

(** A completed source and the child its acknowledgement admitted, if any. *)
Definition ack_ok (p : ExecutionPlanV1) (tokens : gmap string TokenV1) (source : TokenV1)
    (child : option string) : Prop :=
  match child with
  | Some c => ∃ t ch, tk_selected_transition_id source ≫= plan_transition p = Some t
      ∧ tokens !! c = Some ch ∧ wt_to_node t = tk_node_id ch
      ∧ tk_branch_lineage source = tk_branch_lineage ch ∧ tk_external_completion source = None
  | None => tk_selected_transition_id source = None
      ∧ ∃ n, plan_node p (tk_node_id source) = Some n
             ∧ valid_completion n (tk_external_completion source) = true
  end.

(** The ready set holds one key for each token in state [Ready]. *)
Definition is_ready_key (ordinals : gmap string N) (tokens : gmap string TokenV1)
    (key : ReadyKeyV1) : Prop :=
  ∃ t o, tokens !! rk_token_id key = Some t ∧ tk_state t = Ready
         ∧ ordinals !! as_str (tk_node_id t) = Some o ∧ key = ready_key o t.

Definition awaits (t : TokenV1) (p : string) : Prop :=
  as_str <$> tk_awaiting_proposal_id t = Some p.

Definition loop_bounds_fit (p : ExecutionPlanV1) : Prop :=
  ∀ k d, plan_loops p !! k = Some d → wl_maximum_iterations d < u32_max.

Record sched_inv (s : SchedulerV1) : Prop := {
  si_plan : PlanWf (sc_plan s);
  (** [maximum_iterations] is a [u32]; the largest value is excluded because
      the saturating capacity test of [restore] cannot tell it from more. *)
  si_width : loop_bounds_fit (sc_plan s);
  si_ordinals : sc_node_ordinals s = node_ordinals_of (sc_plan s);
  si_key : ∀ k t, sc_tokens s !! k = Some t → k = as_str (tk_token_id t);
  si_valid : ∀ k t, sc_tokens s !! k = Some t → validate_restored_token (sc_plan s) t = Ok ();
  si_tick : ∀ k t, sc_tokens s !! k = Some t → tk_logical_tick t ≤ sc_logical_tick s;
  si_tick_width : sc_logical_tick s ≤ u64_max;
  si_next : sc_next_token_ordinal s = bt_len (sc_tokens s) + 1;
  si_next_width : sc_next_token_ordinal s ≤ u64_max;
  si_ready : ∀ key, key ∈ sc_ready s ↔ is_ready_key (sc_node_ordinals s) (sc_tokens s) key;
  si_awaiting : ∀ k1 k2 t1 t2 p, sc_tokens s !! k1 = Some t1 → sc_tokens s !! k2 = Some t2 →
    awaits t1 p → awaits t2 p → k1 = k2;
  si_acked : ∀ p c, sc_acknowledged_proposals s !! p = Some c →
    ∃ k source, sc_tokens s !! k = Some source ∧ awaits source p
      ∧ tk_state source = Completed ∧ ack_ok (sc_plan s) (sc_tokens s) source c;
  si_completed : ∀ k t, sc_tokens s !! k = Some t →
    is_acknowledged (sc_acknowledged_proposals s) t = bool_decide (tk_state t = Completed);
  si_cursor : bt_len (sc_acknowledged_proposals s) ≤ sc_committed_cursor s;
  si_cursor_width : sc_committed_cursor s ≤ u64_max;
  si_loop_known : ∀ k c, sc_loop_counts s !! k = Some c → is_Some (plan_loops (sc_plan s) !! k);
  si_loop_bound : ∀ d, plan_loop_descriptor (sc_plan s) (wl_loop_id d) = Some d →
    default 0 (sc_loop_counts s !! as_str (wl_loop_id d)) + pending_count (sc_tokens s) (wl_loop_id d)
    ≤ wl_maximum_iterations d
}.

(** ** Tokens *)

Section tokens.
Context (p : ExecutionPlanV1).

Lemma valid_node t : validate_restored_token p t = Ok () → is_Some (plan_node p (tk_node_id t)).
Proof. unfold validate_restored_token. intros Hv. res_inv Hv. eauto. Qed.

Lemma valid_lineage t : validate_restored_token p t = Ok () →
  str_is_empty (tk_branch_lineage t) || (512 <? str_len (tk_branch_lineage t)) = false.
Proof. unfold validate_restored_token. intros Hv. res_inv Hv. done. Qed.

(** Tokens that have proposed nothing carry no proposal data. *)
Definition idle (st : TokenStateV1) : Prop := st ∈ [Ready; InFlight; Suspended; Cancelled].

Lemma valid_idle t : idle (tk_state t) → validate_restored_token p t = Ok () →
  tk_awaiting_proposal_id t = None ∧ tk_selected_transition_id t = None
  ∧ tk_selected_loop_id t = None ∧ tk_external_completion t = None.
Proof.
  unfold validate_restored_token, idle. intros Hst Hv. res_inv Hv. revert Hv.
  destruct (tk_state t); try (exfalso; set_solver); intros Hv; apply fail_if_ok in Hv; boolify;
    destruct (tk_awaiting_proposal_id t), (tk_selected_transition_id t), (tk_selected_loop_id t),
      (tk_external_completion t); done.
Qed.

Lemma valid_with_state t st : idle (tk_state t) → idle st → validate_restored_token p t = Ok () →
  validate_restored_token p (with_state st t) = Ok ().
Proof.
  intros H1 H2 Hv. destruct (valid_idle t H1 Hv) as (Ha & Hb & Hc & Hd).
  pose proof (valid_lineage t Hv) as Hl. destruct (valid_node t Hv) as [n Hn].
  unfold validate_restored_token. simpl. rewrite Hn, Hl, Ha, Hb, Hc, Hd. simpl.
  unfold idle in H2. destruct st; try done; exfalso; set_solver.
Qed.

Lemma valid_completed t : tk_state t = AwaitingCommit → validate_restored_token p t = Ok () →
  validate_restored_token p (with_state Completed t) = Ok ().
Proof. intros Hst. unfold validate_restored_token. simpl. by rewrite Hst. Qed.

Lemma valid_awaiting_transition t i tr e :
  idle (tk_state t) → validate_restored_token p t = Ok () →
  plan_transition p (wt_transition_id tr) = Some tr → wt_from_node tr = tk_node_id t → e = None →
  validate_restored_token p (awaiting i (Some (wt_transition_id tr)) (wt_declared_loop_id tr) e t) = Ok ().
Proof.
  intros Hi Hv Htr Hfrom ->. pose proof (valid_lineage t Hv) as Hl.
  destruct (valid_node t Hv) as [n Hn]. unfold validate_restored_token. simpl.
  rewrite Hn, Hl, Htr. simpl. by rewrite !bool_decide_true.
Qed.

Lemma valid_awaiting_external t i n e :
  idle (tk_state t) → validate_restored_token p t = Ok () →
  plan_node p (tk_node_id t) = Some n → valid_completion n e = true →
  validate_restored_token p (awaiting i None None e t) = Ok ().
Proof.
  intros Hi Hv Hn He. pose proof (valid_lineage t Hv) as Hl.
  unfold validate_restored_token. cbn -[valid_completion str_len]. rewrite Hn, Hl.
  cbn -[valid_completion]. by rewrite He.
Qed.

(** The three shapes of a token that has proposed. *)
Lemma valid_proposed t : validate_restored_token p t = Ok () →
  tk_state t = AwaitingCommit ∨ tk_state t = Completed →
  is_Some (tk_awaiting_proposal_id t) ∧
  ((∃ i tr, tk_selected_transition_id t = Some i ∧ plan_transition p i = Some tr
     ∧ wt_from_node tr = tk_node_id t ∧ wt_declared_loop_id tr = tk_selected_loop_id t
     ∧ tk_external_completion t = None)
   ∨ (tk_selected_transition_id t = None ∧ tk_selected_loop_id t = None
      ∧ ∃ n, plan_node p (tk_node_id t) = Some n
             ∧ valid_completion n (tk_external_completion t) = true)).
Proof.
  unfold validate_restored_token. intros Hv Hst. res_inv Hv.
  assert (∃ (u : unit), (_ ← fail_if (negb (is_some (tk_awaiting_proposal_id t))) SeInvalidCheckpoint;
      match tk_selected_transition_id t with
      | Some transition_id =>
          transition ← ok_or (plan_transition p transition_id) SeInvalidCheckpoint;
          fail_if (negb (bool_decide (wt_from_node transition = tk_node_id t))
                   || negb (bool_decide (wt_declared_loop_id transition = tk_selected_loop_id t))
                   || is_some (tk_external_completion t)) SeInvalidCheckpoint
      | None =>
          fail_if (is_some (tk_selected_loop_id t)
                   || negb (valid_completion x (tk_external_completion t))) SeInvalidCheckpoint
      end) = Ok u) as [u Hu] by (exists (); destruct Hst as [Hs|Hs]; rewrite Hs in Hv; exact Hv).
  clear Hv. res_inv Hu.
  destruct (tk_awaiting_proposal_id t) as [i|] eqn:Ha; [|done]. split; [eauto|].
  destruct (tk_selected_transition_id t) as [j|] eqn:Hs.
  - left. res_inv Hu. boolify. destruct (tk_external_completion t); [done|]. eauto 10.
  - right. apply fail_if_ok in Hu. boolify. destruct (tk_selected_loop_id t); [done|]. eauto 10.
Qed.
End tokens.

Lemma pending_idle l t : tk_state t ≠ AwaitingCommit → pending_on l t = false.
Proof. intros H. unfold pending_on. by rewrite bool_decide_false. Qed.

(** ** How the invariant moves *)

Lemma is_ready_key_insert ords tokens k t key :
  is_ready_key ords (<[k:=t]> tokens) key ↔
  (rk_token_id key ≠ k ∧ is_ready_key ords tokens key)
  ∨ (rk_token_id key = k ∧ tk_state t = Ready
     ∧ ∃ o, ords !! as_str (tk_node_id t) = Some o ∧ key = ready_key o t).
Proof.
  unfold is_ready_key. split.
  - intros (t' & o & Ht & Hs & Ho & ->).
    apply lookup_insert_Some in Ht as [[<- ->]|[Hne Ht]]; [right; eauto 10|left; eauto 10].
  - intros [(Hne & t' & o & Ht & Hs & Ho & ->)|(Hk & Hs & o & Ho & ->)].
    + exists t', o. by rewrite lookup_insert_ne.
    + exists t, o. by rewrite Hk, lookup_insert_eq.
Qed.

Lemma ack_ok_insert p tokens k t source c :
  (∀ t0, tokens !! k = Some t0 →
     tk_node_id t = tk_node_id t0 ∧ tk_branch_lineage t = tk_branch_lineage t0) →
  ack_ok p tokens source c → ack_ok p (<[k:=t]> tokens) source c.
Proof.
  intros Hsame. destruct c as [c|]; [|done]. intros (tr & ch & Htr & Hch & Hto & Hl & He).
  destruct (decide (c = k)) as [->|Hne].
  - destruct (Hsame _ Hch) as [H1 H2]. exists tr, t. rewrite lookup_insert_eq, H1, H2. done.
  - exists tr, ch. by rewrite lookup_insert_ne.
Qed.

Lemma is_ready_none_awaits s k t p :
  sched_inv s → sc_tokens s !! k = Some t → idle (tk_state t) → ¬ awaits t p.
Proof.
  intros Hinv Hk Hi. destruct (valid_idle _ t Hi (si_valid s Hinv _ _ Hk)) as (Ha & _).
  unfold awaits. by rewrite Ha.
Qed.

Lemma awaits_not_idle s k t p :
  sched_inv s → sc_tokens s !! k = Some t → awaits t p →
  tk_state t = AwaitingCommit ∨ tk_state t = Completed.
Proof.
  intros Hinv Hk Ha. destruct (tk_state t) eqn:Hst; auto; exfalso;
    (eapply (is_ready_none_awaits s k t p); [done|done| |done]; unfold idle; rewrite Hst; set_solver).
Qed.

(** A fresh ready token. *)
Lemma insert_inv s token ordinal :
  sched_inv s →
  sc_tokens s !! as_str (tk_token_id token) = None →
  tk_state token = Ready → validate_restored_token (sc_plan s) token = Ok () →
  tk_logical_tick token ≤ sc_logical_tick s →
  sc_node_ordinals s !! as_str (tk_node_id token) = Some ordinal →
  sc_next_token_ordinal s + 1 ≤ u64_max →
  sched_inv (set_tokens (<[as_str (tk_token_id token) := token]> (sc_tokens s))
    (set_ready ({[ready_key ordinal token]} ∪ sc_ready s)
      (set_next_token_ordinal (sc_next_token_ordinal s + 1) s))).
Proof.
  intros Hinv Hfresh Hst Hv Ht Ho Hw. pose proof Hinv as [].
  assert (idle (tk_state token)) as Hidle by (rewrite Hst; unfold idle; set_solver).
  destruct (valid_idle _ token Hidle Hv) as (Ha & _ & Hloop & _).
  split; simpl; try done.
  - intros k t [[<- <-]|[_ Hk]]%lookup_insert_Some; eauto.
  - intros k t [[<- <-]|[_ Hk]]%lookup_insert_Some; eauto.
  - intros k t [[<- <-]|[_ Hk]]%lookup_insert_Some; eauto.
  - unfold bt_len in *. rewrite map_size_insert_None by done. lia.
  - intros key. rewrite elem_of_union, elem_of_singleton, si_ready0, is_ready_key_insert. split.
    + intros [->|Hk]; [right; eauto|left]. split; [|done].
      destruct Hk as (t & o & Hk & _). intros Heq. rewrite Heq in Hk. congruence.
    + intros [[_ Hk]|(Hk & _ & o & Ho' & ->)]; [by right|left]. simplify_eq. done.
  - intros k1 k2 t1 t2 q H1 H2 Hw1 Hw2.
    assert (∀ k t, <[as_str (tk_token_id token):=token]> (sc_tokens s) !! k = Some t →
      awaits t q → sc_tokens s !! k = Some t) as Hold.
    { intros k t [[<- <-]|[_ Hk]]%lookup_insert_Some Hq; [|done]. unfold awaits in Hq.
      by rewrite Ha in Hq. }
    eauto.
  - intros q c Hq. destruct (si_acked0 q c Hq) as (k & src & Hk & Hw' & Hs' & Hok).
    exists k, src. rewrite lookup_insert_ne by congruence. split_and!; [done..|].
    apply ack_ok_insert; [|done]. intros t0 Ht0. congruence.
  - intros k t [[<- <-]|[_ Hk]]%lookup_insert_Some; [|eauto].
    unfold is_acknowledged. by rewrite Ha, Hst.
  - intros d Hd. specialize (si_loop_bound0 d Hd). unfold pending_count in *.
    rewrite count_values_insert by done. rewrite pending_idle by (rewrite Hst; done). lia.
Qed.

(** Moving the clock and the cursor forward. *)
Lemma advance_inv s tick cursor :
  sched_inv s → sc_logical_tick s ≤ tick → tick ≤ u64_max →
  sc_committed_cursor s ≤ cursor → cursor ≤ u64_max →
  sched_inv (set_committed_cursor cursor (set_logical_tick tick s)).
Proof.
  intros [] Ht Htw Hc Hw. split; simpl; try done; [|lia]. intros k t Hk. specialize (si_tick0 _ _ Hk). lia.
Qed.

(** Replacing an idle token by another version of it that is not completed. *)
Lemma replace_inv s k t t' ready :
  sched_inv s → sc_tokens s !! k = Some t → idle (tk_state t) →
  tk_token_id t' = tk_token_id t → tk_node_id t' = tk_node_id t →
  tk_branch_lineage t' = tk_branch_lineage t → tk_logical_tick t' = tk_logical_tick t →
  validate_restored_token (sc_plan s) t' = Ok () → tk_state t' ≠ Completed →
  (∀ key, key ∈ ready ↔ is_ready_key (sc_node_ordinals s) (<[k:=t']> (sc_tokens s)) key) →
  (∀ q, awaits t' q → sc_acknowledged_proposals s !! q = None
        ∧ ∀ k2 t2, sc_tokens s !! k2 = Some t2 → ¬ awaits t2 q) →
  (∀ d, plan_loop_descriptor (sc_plan s) (wl_loop_id d) = Some d → pending_on (wl_loop_id d) t' = true →
     default 0 (sc_loop_counts s !! as_str (wl_loop_id d))
     + pending_count (sc_tokens s) (wl_loop_id d) < wl_maximum_iterations d) →
  sched_inv (set_tokens (<[k:=t']> (sc_tokens s)) (set_ready ready s)).
Proof.
  intros Hinv Hk Hi E1 E2 E3 E4 Hv Hnc Hready Haw Hloop. pose proof Hinv as [].
  assert (∀ q, ¬ awaits t q) as Hna by (intros q; by eapply is_ready_none_awaits).
  assert (tk_state t ≠ Completed) as Hnc0 by (intros Hc; rewrite Hc in Hi; unfold idle in Hi; set_solver).
  assert (∀ l, pending_on l t = false) as Hp.
  { intros l. apply pending_idle. intros Hc. rewrite Hc in Hi. unfold idle in Hi. set_solver. }
  split; simpl; try done.
  - intros k' x [[<- <-]|[_ Hx]]%lookup_insert_Some; [rewrite E1|]; eauto.
  - intros k' x [[<- <-]|[_ Hx]]%lookup_insert_Some; eauto.
  - intros k' x [[<- <-]|[_ Hx]]%lookup_insert_Some; [rewrite E4|]; eauto.
  - rewrite si_next0. unfold bt_len. by rewrite map_size_insert_Some by eauto.
  - intros k1 k2 t1 t2 q [[<- <-]|[N1 H1]]%lookup_insert_Some
      [[<- <-]|[N2 H2]]%lookup_insert_Some Hw1 Hw2; [done|..].
    + destruct (Haw q Hw1) as [_ Hn]. by edestruct Hn.
    + destruct (Haw q Hw2) as [_ Hn]. by edestruct Hn.
    + eauto.
  - intros q c Hq. destruct (si_acked0 q c Hq) as (k' & src & Hk' & Hw' & Hs' & Hok).
    exists k', src. assert (k' ≠ k) by (intros ->; congruence).
    rewrite lookup_insert_ne by done. split_and!; [done..|].
    apply ack_ok_insert; [|done]. intros t0 Ht0. simplify_eq. done.
  - intros k' x [[<- <-]|[_ Hx]]%lookup_insert_Some; [|eauto].
    rewrite (bool_decide_false (tk_state t' = Completed)) by done. unfold is_acknowledged.
    destruct (tk_awaiting_proposal_id t') as [q|] eqn:Hq; [|done].
    apply bt_contains_false. destruct (Haw (as_str q)) as [Hn _]; [|done].
    unfold awaits. by rewrite Hq.
  - intros d Hd. specialize (si_loop_bound0 d Hd). specialize (Hloop d Hd).
    pose proof (count_values_update (pending_on (wl_loop_id d)) _ _ _ t' Hk) as Hc.
    rewrite Hp in Hc. unfold pending_count in *.
    destruct (pending_on (wl_loop_id d) t'); [specialize (Hloop eq_refl)|]; lia.
Qed.

Lemma selected_loop_known s k t l :
  sched_inv s → sc_tokens s !! k = Some t → tk_selected_loop_id t = Some l →
  is_Some (plan_loops (sc_plan s) !! as_str l).
Proof.
  intros Hinv Hk Hl. pose proof (si_valid _ Hinv _ _ Hk) as Hv.
  assert (tk_state t = AwaitingCommit ∨ tk_state t = Completed) as Hst.
  { destruct (decide (idle (tk_state t))) as [Hi|Hi].
    - destruct (valid_idle _ _ Hi Hv) as (_ & _ & Hn & _). congruence.
    - unfold idle in Hi. destruct (tk_state t); auto; exfalso; set_solver. }
  destruct (valid_proposed _ _ Hv Hst) as (_ & [(i & tr & _ & Htr & _ & Hd & _)|(_ & Hn & _)]);
    [|congruence].
  rewrite Hl in Hd. pose proof (si_plan _ Hinv) as Hwf.
  destruct (pwf_loop_declared _ _ _ Htr Hd) as (d & Hd' & _). unfold plan_loop_descriptor in Hd'. eauto.
Qed.

(** Completing a token whose proposal is acknowledged. *)
Lemma complete_inv s k t q c cursor counts :
  sched_inv s → sc_tokens s !! k = Some t → tk_state t = AwaitingCommit → awaits t q →
  ack_ok (sc_plan s) (sc_tokens s) t c →
  sc_committed_cursor s < cursor → cursor ≤ u64_max →
  counts = match tk_selected_loop_id t with
           | Some l => bump_count (as_str l) (sc_loop_counts s) | None => sc_loop_counts s end →
  sched_inv (set_acknowledged_proposals (<[q := c]> (sc_acknowledged_proposals s))
    (set_committed_cursor cursor (set_loop_counts counts
      (set_tokens (<[k:=with_state Completed t]> (sc_tokens s)) s)))).
Proof.
  intros Hinv Hk Hst Hq Hack Hcur Hw ->. pose proof Hinv as [].
  assert (sc_acknowledged_proposals s !! q = None) as Hnew.
  { pose proof (si_completed0 _ _ Hk) as Hc. rewrite Hst, bool_decide_false in Hc by done.
    unfold is_acknowledged, awaits in *. destruct (tk_awaiting_proposal_id t) as [q'|]; [|done].
    simplify_eq/=. by apply bt_contains_false. }
  split; simpl; try done.
  - intros k' x [[<- <-]|[_ Hx]]%lookup_insert_Some; simpl; eauto.
  - intros k' x [[<- <-]|[_ Hx]]%lookup_insert_Some; [|eauto]. apply valid_completed; eauto.
  - intros k' x [[<- <-]|[_ Hx]]%lookup_insert_Some; simpl; eauto.
  - rewrite si_next0. unfold bt_len. by rewrite map_size_insert_Some by eauto.
  - intros key. rewrite si_ready0, is_ready_key_insert. split.
    + intros Hr. left. split; [|done]. destruct Hr as (t0 & o & H0 & Hs0 & _). intros Heq.
      rewrite Heq in H0. congruence.
    + intros [[_ Hr]|(_ & [=] & _)]. done.
  - assert (∀ k0 t0, <[k:=with_state Completed t]> (sc_tokens s) !! k0 = Some t0 →
      ∃ t1, sc_tokens s !! k0 = Some t1 ∧ tk_awaiting_proposal_id t1 = tk_awaiting_proposal_id t0)
      as Hsame by (intros k0 t0 [[<- <-]|[_ Hx]]%lookup_insert_Some; eauto).
    intros k1 k2 t1 t2 p (u1 & Hu1 & E1)%Hsame (u2 & Hu2 & E2)%Hsame Hw1 Hw2.
    unfold awaits in *. rewrite <-E1 in Hw1. rewrite <-E2 in Hw2. eauto.
  - intros p c' [[<- <-]|[Hne Hp]]%lookup_insert_Some.
    + exists k, (with_state Completed t). rewrite lookup_insert_eq. split_and!; [done..|].
      apply (ack_ok_insert _ _ _ _ (with_state Completed t)); [|done].
      intros t0 Ht0. simplify_eq. done.
    + destruct (si_acked0 p c' Hp) as (k' & src & Hk' & Hw' & Hs' & Hok).
      exists k', src. assert (k' ≠ k) by (intros ->; congruence).
      rewrite lookup_insert_ne by done. split_and!; [done..|].
      apply ack_ok_insert; [|done]. intros t0 Ht0. simplify_eq. done.
  - intros k' x Hx. unfold is_acknowledged in *.
    apply lookup_insert_Some in Hx as [[<- <-]|[Hne Hx]].
    + simpl. unfold awaits in Hq. destruct (tk_awaiting_proposal_id t) as [q'|]; [|done].
      simplify_eq/=. by rewrite bt_contains_insert, bool_decide_true.
    + rewrite <-(si_completed0 _ _ Hx). destruct (tk_awaiting_proposal_id x) as [q'|] eqn:Hq'; [|done].
      rewrite bt_contains_insert, bool_decide_false; [done|]. intros Heq. apply Hne.
      apply (si_awaiting0 k k' t x q); [done..|]. unfold awaits. rewrite Hq'. simpl. by rewrite Heq.
  - unfold bt_len in *. rewrite map_size_insert_None by done. lia.
  - intros l c' Hc. destruct (tk_selected_loop_id t) as [l0|] eqn:Hl0; [|eauto].
    unfold bump_count in Hc. apply lookup_insert_Some in Hc as [[<- <-]|[_ Hc]]; [|eauto].
    by eapply selected_loop_known.
  - intros d Hd. specialize (si_loop_bound0 d Hd). pose proof (si_width0 _ _ Hd) as Hwd.
    pose proof (count_values_update (pending_on (wl_loop_id d)) _ _ _ (with_state Completed t) Hk) as Hc.
    unfold pending_count in *. rewrite (pending_idle _ (with_state Completed t)) in Hc by done.
    unfold pending_on in Hc at 2. rewrite Hst, bool_decide_true in Hc by done. simpl in Hc.
    destruct (tk_selected_loop_id t) as [l0|]; [|rewrite bool_decide_false in Hc by done; lia].
    unfold bump_count. destruct (decide (l0 = wl_loop_id d)) as [->|Hne].
    + rewrite lookup_insert_eq. rewrite bool_decide_true in Hc by done. simpl.
      rewrite N.mod_small; lia.
    + rewrite lookup_insert_ne by (intros ?%(inj _); done).
      rewrite bool_decide_false in Hc by congruence. lia.
Qed.
