(* ===== verification/SchedulerSteps.v ===== *)
(** * Calls on a scheduler, and the invariant along every run

    [run_call] is one call of the public interface; [reachable] closes
    [SchedulerV1::new] under successful and failed calls.  Identifiers are
    truncated digests, so a run is assumed free of collisions where it
    creates one ([no_collision]). *)
From S2P Require Export SchedulerInv.

Section steps.
Context `{Sha256}.

Inductive sched_call : Type :=
| CallSeed (context_revision : N)
| CallEnqueue (node : StableId) (context_revision : N) (lineage : string)
| CallClaim
| CallProposeTransition (token : StableId) (facts : json)
| CallProposeTerminal (token : StableId) (outcome : string) (facts : json)
| CallProposeWaitInput (token : StableId) (facts : json)
| CallAckTransition (proposal : StableId) (cursor context_revision : N)
| CallAckTerminal (proposal : StableId) (cursor : N)
| CallAckWaitInput (proposal : StableId) (cursor : N)
| CallSuspend (token : StableId)
| CallResume (token : StableId)
| CallCancel (lineage : string).

Inductive sched_out : Type :=
| OutTokens (ts : list TokenV1)
| OutClaimed (t : option TokenV1)
| OutProposal (proposal : StableId)
| OutAck (a : AckAdmissionV1)
| OutUnit
| OutCount (n : N).

Definition stm_map {S E A B} (f : A → B) (m : stm S E A) : stm S E B := a ← m; mret (f a).

Definition run_call (c : sched_call) : stm SchedulerV1 SchedulerErrorV1 sched_out :=
  match c with
  | CallSeed r => stm_map OutTokens (seed_entries r)
  | CallEnqueue n r l => stm_map (λ t, OutTokens [t]) (enqueue n r l)
  | CallClaim => λ s, let '(s', t) := claim_next s in (s', Ok (OutClaimed t))
  | CallProposeTransition t f => stm_map (λ p, OutProposal (tp_proposal_id p)) (propose_transition t f)
  | CallProposeTerminal t o f => stm_map (λ p, OutProposal (te_proposal_id p)) (propose_terminal t o f)
  | CallProposeWaitInput t f => stm_map (λ p, OutProposal (wi_proposal_id p)) (propose_wait_input t f)
  | CallAckTransition p c r => stm_map OutAck (acknowledge_transition p c r)
  | CallAckTerminal p c => stm_map OutAck (acknowledge_terminal p c)
  | CallAckWaitInput p c => stm_map OutAck (acknowledge_wait_input p c)
  | CallSuspend t => stm_map (λ _, OutUnit) (suspend t)
  | CallResume t => stm_map (λ _, OutUnit) (resume t)
  | CallCancel l => λ s, let '(s', n) := cancel_lineage l s in (s', Ok (OutCount n))
  end.

(** The identifiers a call created were not in use before it. *)
Definition no_collision (s : SchedulerV1) (o : sched_out) : Prop :=
  match o with
  | OutTokens ts => NoDup (tk_token_id <$> ts)
      ∧ ∀ t, t ∈ ts → sc_tokens s !! as_str (tk_token_id t) = None
  | OutProposal p => ∀ k t, sc_tokens s !! k = Some t → tk_awaiting_proposal_id t ≠ Some p
  | OutAck (MkAck false (Some t)) => sc_tokens s !! as_str (tk_token_id t) = None
  | _ => True
  end.

(** Cursors are [u64]. *)
Definition call_width (c : sched_call) : Prop :=
  match c with
  | CallAckTransition _ cursor _ | CallAckTerminal _ cursor | CallAckWaitInput _ cursor =>
      cursor ≤ u64_max
  | _ => True
  end.

(** ** Lookups *)

Lemma ordinals_from_dom k l m i :
  is_Some (ordinals_from k l m !! i) ↔ is_Some (m !! i) ∨ ∃ n, n ∈ l ∧ as_str (wn_node_id n) = i.
Proof.
  revert k m. induction l as [|n l IH]; intros k m; simpl; [set_solver|].
  rewrite IH. destruct (decide (as_str (wn_node_id n) = i)) as [Heq|Hne].
  - subst. rewrite lookup_insert_eq. split; [right; exists n; set_solver|]. left. eauto.
  - rewrite lookup_insert_ne by done. set_solver.
Qed.

Lemma node_ordinals_is_Some p (Hwf : PlanWf p) n :
  is_Some (plan_node p n) → is_Some (node_ordinals_of p !! as_str n).
Proof.
  intros [w Hw]. apply ordinals_from_dom. right. exists w.
  assert (as_str n = as_str (wn_node_id w)) as Heq by (by apply pwf_node_id).
  split; [|done]. apply pwf_nodes_listed. unfold plan_node in *. by rewrite <-Heq.
Qed.

Lemma find_awaiting_Some tokens p t :
  find_awaiting tokens p = Some t → awaits t p ∧ ∃ k, tokens !! k = Some t.
Proof.
  unfold find_awaiting. destruct (list_find _ _) as [[i t']|] eqn:Hf; [|done]. intros [= ->].
  apply list_find_Some in Hf as (Hi & Ha & _). split; [done|].
  apply elem_of_bt_values. by eapply list_elem_of_lookup_2.
Qed.

Lemma find_awaiting_unique s k t p :
  sched_inv s → sc_tokens s !! k = Some t → awaits t p → find_awaiting (sc_tokens s) p = Some t.
Proof.
  intros Hinv Hk Ha. unfold find_awaiting.
  destruct (list_find _ _) as [[i t']|] eqn:Hf.
  - apply list_find_Some in Hf as (Hi & Ha' & _). simpl. f_equal.
    assert (t' ∈ bt_values (sc_tokens s)) as [k' Hk']%elem_of_bt_values
      by (by eapply list_elem_of_lookup_2).
    assert (k' = k) as -> by (by eapply (si_awaiting s Hinv)). congruence.
  - apply list_find_None in Hf. rewrite Forall_forall in Hf. destruct (Hf t); [|done].
    apply elem_of_bt_values. eauto.
Qed.

(** ** Each method keeps the invariant *)

Lemma enqueue_ok s s' node rev lineage t :
  enqueue node rev lineage s = (s', Ok t) →
  ∃ o, sc_node_ordinals s !! as_str node = Some o
    ∧ str_is_empty lineage || (512 <? str_len lineage) = false
    ∧ sc_next_token_ordinal s + 1 ≤ u64_max
    ∧ (∃ i, stable_id (token_material s node lineage) = Ok i
        ∧ t = MkToken i node rev (sc_logical_tick s) lineage Ready None None None None)
    ∧ s' = set_tokens (<[as_str (tk_token_id t) := t]> (sc_tokens s))
            (set_ready ({[ready_key o t]} ∪ sc_ready s)
              (set_next_token_ordinal (sc_next_token_ordinal s + 1) s)).
Proof.
  unfold enqueue. intros He. run_inv He.
  unfold checked_add in *. case_match eqn:Hnext; simplify_eq. apply N.leb_le in Hnext.
  match goal with Ho : sc_node_ordinals _ !! _ = Some ?o |- _ => exists o end.
  split_and!; try done. eexists. split; [eassumption|reflexivity].
Qed.

Lemma enqueue_inv s s' node rev lineage t :
  sched_inv s → enqueue node rev lineage s = (s', Ok t) →
  sc_tokens s !! as_str (tk_token_id t) = None → sched_inv s'.
Proof.
  intros Hinv (o & Ho & Hl & Hw & (i & _ & Ht) & ->)%enqueue_ok Hfresh.
  pose proof Ho as Hn. rewrite (si_ordinals s Hinv) in Hn.
  apply insert_inv; subst t; simpl; try done.
  assert (is_Some (plan_node (sc_plan s) node)) as [n Hn'].
  { pose proof (si_plan s Hinv). assert (is_Some (node_ordinals_of (sc_plan s) !! as_str node)) as Hs
      by eauto. unfold node_ordinals_of in Hs. apply ordinals_from_dom in Hs as [[? ?]|(w & Hw' & He)];
      [done|]. apply pwf_nodes_listed in Hw'. unfold plan_node in *. rewrite He in Hw'. eauto. }
  unfold validate_restored_token. simpl. rewrite Hn', Hl. done.
Qed.

Lemma map_enqueue_inv rev lineage nodes s s' ts :
  sched_inv s → map_stm (λ n, enqueue n rev lineage) nodes s = (s', Ok ts) →
  NoDup (tk_token_id <$> ts) → (∀ t, t ∈ ts → sc_tokens s !! as_str (tk_token_id t) = None) →
  sched_inv s'.
Proof.
  revert s ts. induction nodes as [|n nodes IH]; intros s ts Hinv Hm Hnd Hf; simpl in Hm.
  { by run_inv Hm. }
  apply bind_ok in Hm as (s1 & t & Ht & Hm). apply bind_ok in Hm as (s2 & ts' & Hts & Hm).
  run_inv Hm. apply NoDup_cons in Hnd as [Hnt Hnd].
  eapply (IH s1 ts'); [|exact Hts|exact Hnd|].
  - eapply enqueue_inv; [exact Hinv|exact Ht|]. apply Hf. by left.
  - intros t' Ht'. destruct (enqueue_ok _ _ _ _ _ _ Ht) as (o & _ & _ & _ & _ & ->). simpl.
    rewrite lookup_insert_ne; [apply Hf; by right|]. intros Heq%(inj _). apply Hnt.
    rewrite Heq. apply list_elem_of_fmap. eauto.
Qed.

#[export] Instance ready_cmp_ord : Cmp ready_cmp.
Proof.
  apply (cmp_then_with (on_key rk_logical_tick N.compare)
    (λ a b, then_with (N.compare (rk_node_ordinal a) (rk_node_ordinal b))
      (then_with (String.compare (rk_branch_lineage a) (rk_branch_lineage b))
        (String.compare (rk_token_id a) (rk_token_id b))))).
Qed.

Lemma elem_of_ready_iter r k : k ∈ ready_iter r ↔ k ∈ r.
Proof. unfold ready_iter. by rewrite elem_of_sort_by, elem_of_elements. Qed.

(** Under the invariant [claim_next] pops the least key and its token. *)
Lemma claim_next_cases s s' o :
  sched_inv s → claim_next s = (s', o) →
  (o = None ∧ s' = s ∧ sc_ready s = ∅) ∨
  ∃ key keys t ord, ready_iter (sc_ready s) = key :: keys ∧ o = Some (with_state InFlight t)
    ∧ sc_tokens s !! rk_token_id key = Some t ∧ tk_state t = Ready
    ∧ sc_node_ordinals s !! as_str (tk_node_id t) = Some ord ∧ key = ready_key ord t
    ∧ s' = set_tokens (<[rk_token_id key := with_state InFlight t]> (sc_tokens s))
             (set_ready (sc_ready s ∖ {[key]}) s).
Proof.
  intros Hinv. unfold claim_next. destruct (ready_iter (sc_ready s)) as [|key keys] eqn:Hr.
  - intros [= <- <-]. left. split_and!; [done..|]. apply set_eq. intros k.
    rewrite <-elem_of_ready_iter, Hr. set_solver.
  - assert (key ∈ sc_ready s) as Hk by (apply elem_of_ready_iter; rewrite Hr; by left).
    apply (si_ready s Hinv) in Hk as (t & ord & Ht & Hst & Ho & Hkey). simpl. rewrite Ht, Hst.
    simpl. intros [= <- <-]. right. exists key, keys, t, ord. split_and!; try done.
    unfold update_token. simpl. by rewrite (alter_lookup _ _ _ _ Ht).
Qed.

Lemma claim_next_inv s s' o : sched_inv s → claim_next s = (s', o) → sched_inv s'.
Proof.
  intros Hinv Hc. destruct (claim_next_cases s s' o Hinv Hc)
    as [(_ & -> & _)|(key & keys & t & ord & Hr & _ & Ht & Hst & Hord & Hkey & ->)]; [done|].
  assert (idle (tk_state t)) as Hi by (rewrite Hst; unfold idle; set_solver).
  eapply replace_inv; try done.
  - apply valid_with_state; [done|unfold idle; set_solver|]. by eapply (si_valid s Hinv).
  - intros k. rewrite is_ready_key_insert, elem_of_difference, elem_of_singleton, (si_ready s Hinv).
    split.
    + intros [(t0 & o0 & H0 & Hs0 & Ho0 & Hk0) Hne]. left. split; [|by exists t0, o0].
      intros Heq. apply Hne. rewrite Heq in H0. congruence.
    + intros [[Hne Hk]|(_ & [=] & _)]. split; [done|]. by intros ->.
  - intros q Hq. exfalso. by eapply (is_ready_none_awaits s _ t q).
Qed.

Lemma in_flight_ok i s s' t :
  in_flight_token i s = (s', Ok t) →
  s' = s ∧ sc_tokens s !! as_str i = Some t ∧ tk_state t = InFlight.
Proof. unfold in_flight_token. intros Hi. run_inv Hi. boolify. done. Qed.

(** Blocking an in-flight token on a fresh proposal. *)
Lemma propose_inv s i t q tr l e :
  sched_inv s → sc_tokens s !! as_str i = Some t → tk_state t = InFlight →
  validate_restored_token (sc_plan s) (awaiting q tr l e t) = Ok () →
  (∀ k t, sc_tokens s !! k = Some t → tk_awaiting_proposal_id t ≠ Some q) →
  (∀ d, plan_loop_descriptor (sc_plan s) (wl_loop_id d) = Some d → l = Some (wl_loop_id d) →
     default 0 (sc_loop_counts s !! as_str (wl_loop_id d))
     + pending_count (sc_tokens s) (wl_loop_id d) < wl_maximum_iterations d) →
  sched_inv (update_token (as_str i) (awaiting q tr l e) s).
Proof.
  intros Hinv Ht Hst Hv Hfresh Hloop. unfold update_token. rewrite (alter_lookup _ _ _ _ Ht).
  assert (∀ k2 t2, sc_tokens s !! k2 = Some t2 → ¬ awaits t2 (as_str q)) as Hna.
  { intros k2 t2 H2. unfold awaits. pose proof (Hfresh _ _ H2) as Hne.
    destruct (tk_awaiting_proposal_id t2); [|done]. simpl. intros [= ?%(inj _)]. congruence. }
  apply (replace_inv s (as_str i) t (awaiting q tr l e t) (sc_ready s)); try done.
  - rewrite Hst. unfold idle. set_solver.
  - intros key. rewrite is_ready_key_insert, (si_ready s Hinv). split.
    + intros Hk. left. split; [|done]. destruct Hk as (t0 & o0 & H0 & Hs0 & _). intros Heq.
      rewrite Heq in H0. congruence.
    + intros [[_ Hk]|(_ & [=] & _)]. done.
  - intros q' Hq'. unfold awaits in Hq'. simpl in Hq'. simplify_eq. split; [|done].
    destruct (sc_acknowledged_proposals s !! as_str q) as [c|] eqn:Hc; [|done].
    destruct (si_acked s Hinv _ _ Hc) as (k & src & Hk & Hw & _). by edestruct Hna.
  - intros d Hd Hp. apply Hloop; [done|]. unfold pending_on in Hp. boolify. done.
Qed.

Lemma first_matching_ok node facts edges t :
  first_matching node facts edges = Ok t → t ∈ edges.
Proof.
  induction edges as [|e edges IH]; simpl; [done|]. intros Hf. apply rbind_ok in Hf as (b & _ & Hf).
  destruct b; [|right; auto]. injection Hf as ->. by left.
Qed.

Lemma choose_route_elem node rules facts d :
  choose_route node rules facts = Ok d →
  ∃ r, r ∈ rules ∧ rd_transition_id d = wr_destination_transition r.
Proof.
  intros (pre & r & post & Heq & _ & _ & ->)%choose_loop_ok. exists r. split; [|done].
  apply (elem_of_sort_by route_cmp). rewrite Heq. set_solver.
Qed.

(** The selected transition is a transition of the plan that leaves the node. *)
Lemma select_transition_ok p (Hwf : PlanWf p) node facts t :
  select_transition p node facts = Ok t →
  plan_transition p (wt_transition_id t) = Some t ∧ wt_from_node t = node.
Proof.
  unfold select_transition. destruct (negb _).
  - intros Hs. res_inv Hs. destruct (choose_route_elem _ _ _ _ Hs0) as (r & Hr & Hd).
    destruct (pwf_route _ _ Hr) as (_ & _ & tr & Htr & Hfrom). rewrite Hd, Htr in Hs.
    injection Hs as ->. split; [|done]. unfold plan_transition in *.
    by rewrite <-(pwf_transition_id _ _ Htr).
  - intros Hf%first_matching_ok. by apply pwf_outgoing in Hf.
Qed.

Lemma loop_capacity_ok s t u d :
  sched_inv s → check_loop_capacity s t = Ok u →
  plan_loop_descriptor (sc_plan s) (wl_loop_id d) = Some d →
  wt_declared_loop_id t = Some (wl_loop_id d) →
  default 0 (sc_loop_counts s !! as_str (wl_loop_id d))
  + pending_count (sc_tokens s) (wl_loop_id d) < wl_maximum_iterations d.
Proof.
  intros Hinv Hc Hd Ht. unfold check_loop_capacity in Hc. rewrite Ht in Hc. simpl in Hc.
  rewrite Hd in Hc. simpl in Hc. unfold u32_try_from, saturating_add in Hc.
  pose proof (si_width s Hinv _ _ Hd). destruct (_ <=? u32_max) eqn:Hp; simpl in Hc; [|done].
  apply fail_if_ok in Hc. boolify. lia.
Qed.

Lemma propose_transition_inv s s' i facts pr :
  sched_inv s → propose_transition i facts s = (s', Ok pr) →
  no_collision s (OutProposal (tp_proposal_id pr)) → sched_inv s'.
Proof.
  unfold propose_transition. intros Hinv Hp Hfresh. run_inv Hp.
  apply in_flight_ok in Hp0 as (-> & Ht & Hst).
  destruct (select_transition_ok _ (si_plan s Hinv) _ _ _ Hp1) as [Htr Hfrom].
  eapply propose_inv; try done.
  - apply valid_awaiting_transition; try done; [rewrite Hst; unfold idle; set_solver|].
    by eapply (si_valid s Hinv).
  - intros d Hd Hl. by eapply loop_capacity_ok.
Qed.

Lemma executor_is_ok p n k : executor_is p n k = true → ∃ w, plan_node p n = Some w ∧ wn_executor w = k.
Proof. unfold executor_is. destruct (plan_node p n); [|done]. intros ?%bool_decide_eq_true. eauto. Qed.

Lemma propose_terminal_inv s s' i outcome facts pr :
  sched_inv s → propose_terminal i outcome facts s = (s', Ok pr) →
  no_collision s (OutProposal (te_proposal_id pr)) → sched_inv s'.
Proof.
  unfold propose_terminal. intros Hinv Hp Hfresh. run_inv Hp.
  apply in_flight_ok in Hp0 as (-> & Ht & Hst). apply negb_false_iff, executor_is_ok in Hp1 as (w & Hw & Hx).
  eapply propose_inv; try done.
  eapply valid_awaiting_external; try done; [rewrite Hst; unfold idle; set_solver| |].
  - by eapply (si_valid s Hinv).
  - unfold valid_completion. by rewrite Hx.
Qed.

Lemma propose_wait_input_inv s s' i facts pr :
  sched_inv s → propose_wait_input i facts s = (s', Ok pr) →
  no_collision s (OutProposal (wi_proposal_id pr)) → sched_inv s'.
Proof.
  unfold propose_wait_input. intros Hinv Hp Hfresh. run_inv Hp.
  apply in_flight_ok in Hp0 as (-> & Ht & Hst). apply negb_false_iff, executor_is_ok in Hp1 as (w & Hw & Hx).
  eapply propose_inv; try done.
  eapply valid_awaiting_external; try done; [rewrite Hst; unfold idle; set_solver| |].
  - by eapply (si_valid s Hinv).
  - unfold valid_completion. by rewrite Hx.
Qed.

Lemma awaiting_source s q t0 source :
  sched_inv s → find_awaiting (sc_tokens s) q = Some t0 →
  sc_tokens s !! as_str (tk_token_id t0) = Some source → source = t0 ∧ awaits t0 q.
Proof.
  intros Hinv [Hw [k Hk]]%find_awaiting_Some Hs.
  rewrite <-(si_key s Hinv _ _ Hk) in Hs. split; congruence.
Qed.

(** The two outcomes of [acknowledge_transition]: a duplicate that changes
    nothing, or the completion of the source and the admission of a child. *)
Lemma ack_transition_ok s s' q cur rev a :
  sched_inv s → acknowledge_transition q cur rev s = (s', Ok a) →
  (∃ c, sc_acknowledged_proposals s !! as_str q = Some c ∧ sc_committed_cursor s ≤ cur
     ∧ s' = s ∧ a = MkAck true (c ≫= λ i, sc_tokens s !! i))
  ∨ ∃ k t tr child o s1,
     sc_acknowledged_proposals s !! as_str q = None ∧ sc_committed_cursor s < cur
     ∧ sc_tokens s !! k = Some t ∧ awaits t (as_str q) ∧ tk_state t = AwaitingCommit
     ∧ tk_selected_transition_id t ≫= plan_transition (sc_plan s) = Some tr
     ∧ tk_external_completion t = None
     ∧ a = MkAck false (Some child)
     ∧ sc_node_ordinals s !! as_str (wt_to_node tr) = Some o
     ∧ sc_next_token_ordinal s + 1 ≤ u64_max
     ∧ child = MkToken (tk_token_id child) (wt_to_node tr) rev
                 (saturating_add u64_max (sc_logical_tick s) 1) (tk_branch_lineage t)
                 Ready None None None None
     ∧ s1 = set_committed_cursor (sc_committed_cursor s)
              (set_logical_tick (saturating_add u64_max (sc_logical_tick s) 1) s)
     ∧ s' = set_acknowledged_proposals
              (<[as_str q := Some (as_str (tk_token_id child))]> (sc_acknowledged_proposals s))
              (set_committed_cursor cur
                (set_loop_counts (match tk_selected_loop_id t with
                                  | Some l => bump_count (as_str l) (sc_loop_counts s)
                                  | None => sc_loop_counts s end)
                  (set_tokens (<[as_str (tk_token_id child) := child]>
                                 (<[k := with_state Completed t]> (sc_tokens s)))
                    (set_ready ({[ready_key o child]} ∪ sc_ready s)
                      (set_next_token_ordinal (sc_next_token_ordinal s + 1) s1))))).
Proof.
  intros Hinv Ha. unfold acknowledge_transition in Ha. run_inv Ha.
  destruct (sc_acknowledged_proposals s !! as_str q) as [c|] eqn:Hc.
  { run_inv Ha. left. boolify. eauto. }
  run_inv Ha. right.
  apply fmap_Some in Ha2 as (t & Ha2 & ->).
  destruct (awaiting_source s _ _ _ Hinv Ha2 Ha3) as [-> Hw].
  apply enqueue_ok in Ha7 as (o & Ho & _ & Hn & (i & _ & Hchild) & ->).
  boolify. destruct (tk_external_completion t) eqn:Hext; [done|].
  unfold update_token in *. destruct (tk_selected_loop_id t) as [l|] eqn:Hl; simpl in *;
    rewrite (alter_lookup _ _ _ _ Ha3);
    (exists (as_str (tk_token_id t)), t, x6, x11, o; eexists; rewrite Ha5, Hl;
     subst x11; split_and!; try done; by destruct s).
Qed.

Lemma child_valid s t tr child :
  sched_inv s → validate_restored_token (sc_plan s) t = Ok () →
  tk_selected_transition_id t ≫= plan_transition (sc_plan s) = Some tr →
  child = MkToken (tk_token_id child) (wt_to_node tr) (tk_context_revision child)
            (tk_logical_tick child) (tk_branch_lineage t) Ready None None None None →
  validate_restored_token (sc_plan s) child = Ok ().
Proof.
  intros Hinv Hv Htr ->. pose proof (valid_lineage _ _ Hv) as Hl.
  destruct (tk_selected_transition_id t) as [i|]; simpl in Htr; [|done].
  pose proof (si_plan s Hinv). destruct (pwf_endpoints _ _ Htr) as [_ [n Hn]].
  unfold validate_restored_token. simpl. rewrite Hn, Hl. done.
Qed.

Lemma ack_transition_inv s s' q cur rev a :
  sched_inv s → acknowledge_transition q cur rev s = (s', Ok a) → cur ≤ u64_max →
  no_collision s (OutAck a) → sched_inv s'.
Proof.
  intros Hinv Ha Hw Hfresh. destruct (ack_transition_ok _ _ _ _ _ _ Hinv Ha)
    as [(c & _ & _ & -> & _)|(k & t & tr & child & o & s1 & Hq & Hcur & Ht & Haw & Hst & Htr & Hext
        & -> & Ho & Hn & Hchild & Hs1 & ->)]; [done|]. simpl in Hfresh.
  assert (sched_inv s1) as Hinv1.
  { subst s1. pose proof (si_tick_width s Hinv). unfold saturating_add.
    apply advance_inv; [done|lia|lia|lia|apply (si_cursor_width s Hinv)]. }
  assert (k ≠ as_str (tk_token_id child)) as Hne by congruence.
  assert (tk_node_id child = wt_to_node tr ∧ tk_state child = Ready
    ∧ tk_branch_lineage child = tk_branch_lineage t
    ∧ tk_logical_tick child = sc_logical_tick s1) as (E1 & E2 & E3 & E4).
  { subst s1. split_and!; [exact (f_equal tk_node_id Hchild)|exact (f_equal tk_state Hchild)
      |exact (f_equal tk_branch_lineage Hchild)|exact (f_equal tk_logical_tick Hchild)]. }
  pose proof (insert_inv s1 child o Hinv1) as Hins. subst s1. simpl in Hins.
  rewrite E1 in Hins. specialize (Hins Hfresh E2). unfold saturating_add in *.
  assert (validate_restored_token (sc_plan s) child = Ok ()) as Hvc.
  { eapply child_valid; [done|by eapply (si_valid s Hinv)|exact Htr|]. rewrite Hchild. done. }
  specialize (Hins Hvc ltac:(by rewrite E4) Ho Hn).
  rewrite (insert_insert_ne _ (as_str (tk_token_id child)) k) by done.
  refine (complete_inv _ k t (as_str q) (Some (as_str (tk_token_id child))) cur _ Hins _ Hst Haw
            _ Hcur Hw eq_refl); simpl; [by rewrite lookup_insert_ne|].
  exists tr, child. rewrite lookup_insert_eq, E1, E3. done.
Qed.

(** The two outcomes of the other acknowledgements. *)
Lemma ack_completion_ok kind ext s s' q cur a :
  sched_inv s → acknowledge_completion kind ext q cur s = (s', Ok a) →
  (s' = s ∧ a = MkAck true None ∧ sc_committed_cursor s ≤ cur
   ∧ is_Some (sc_acknowledged_proposals s !! as_str q)) ∨
  ∃ k t n, sc_acknowledged_proposals s !! as_str q = None ∧ sc_committed_cursor s < cur
    ∧ sc_tokens s !! k = Some t ∧ awaits t (as_str q) ∧ tk_state t = AwaitingCommit
    ∧ tk_selected_transition_id t = None ∧ tk_external_completion t = ext
    ∧ plan_node (sc_plan s) (tk_node_id t) = Some n ∧ wn_executor n = kind
    ∧ a = MkAck false None
    ∧ s' = set_acknowledged_proposals (<[as_str q := None]> (sc_acknowledged_proposals s))
             (set_committed_cursor cur
               (set_logical_tick (saturating_add u64_max (sc_logical_tick s) 1)
                 (set_tokens (<[k := with_state Completed t]> (sc_tokens s)) s))).
Proof.
  intros Hinv Ha. unfold acknowledge_completion in Ha. run_inv Ha.
  destruct (bt_contains _ _) eqn:Hc; run_inv Ha.
  { left. boolify. done. }
  right. apply fmap_Some in Ha2 as (t & Ha2 & ->).
  destruct (awaiting_source s _ _ _ Hinv Ha2 Ha3) as [-> Hw].
  unfold wrong_completion in *. boolify. destruct (tk_selected_transition_id t) eqn:Htr; [done|].
  match goal with He : executor_is _ _ _ = true |- _ => apply executor_is_ok in He as (n & Hn & Hk) end.
  exists (as_str (tk_token_id t)), t, n. unfold update_token. rewrite (alter_lookup _ _ _ _ Ha3).
  split_and!; try done; by destruct s.
Qed.

Lemma ack_completion_inv kind ext s s' q cur a :
  (∀ n, wn_executor n = kind → valid_completion n ext = true) →
  sched_inv s → acknowledge_completion kind ext q cur s = (s', Ok a) → cur ≤ u64_max → sched_inv s'.
Proof.
  intros Hext Hinv Ha Hw. destruct (ack_completion_ok _ _ _ _ _ _ _ Hinv Ha)
    as [(-> & _)|(k & t & n & Hq & Hcur & Ht & Haw & Hst & Hsel & He & Hn & Hk & _ & ->)]; [done|].
  set (tick := saturating_add _ _ _).
  assert (sched_inv (set_committed_cursor (sc_committed_cursor s) (set_logical_tick tick s))) as Hs1.
  { pose proof (si_tick_width s Hinv). unfold tick, saturating_add.
    apply advance_inv; [done|lia|lia|lia|apply (si_cursor_width s Hinv)]. }
  pose proof (valid_proposed _ _ (si_valid s Hinv _ _ Ht) (or_introl Hst))
    as (_ & [(i & ? & Hi & _)|(_ & Hl & _)]); [congruence|].
  refine (complete_inv _ k t (as_str q) None cur (sc_loop_counts s) Hs1 Ht Hst Haw _ Hcur Hw _);
    simpl; [|by rewrite Hl]. split; [done|]. exists n. rewrite He. auto.
Qed.

Lemma suspend_inv s s' i u : sched_inv s → suspend i s = (s', Ok u) → sched_inv s'.
Proof.
  unfold suspend. intros Hinv Hs. run_inv Hs. boolify. rename x0 into t, Hs0 into Ht.
  assert (idle (tk_state t)) as Hi by (rewrite Hs1; unfold idle; set_solver).
  unfold update_token. rewrite (alter_lookup _ _ _ _ Ht).
  apply (replace_inv s (as_str i) t (with_state Suspended t) (sc_ready s)); try done.
  - apply valid_with_state; [done|unfold idle; set_solver|]. by eapply (si_valid s Hinv).
  - intros key. rewrite is_ready_key_insert, (si_ready s Hinv). split.
    + intros Hk. left. split; [|done]. destruct Hk as (t0 & o0 & H0 & Hs & _). intros Heq.
      rewrite Heq in H0. congruence.
    + intros [[_ Hk]|(_ & [=] & _)]. done.
  - intros q Hq. exfalso. by eapply (is_ready_none_awaits s _ t q).
Qed.

Lemma resume_inv s s' i u : sched_inv s → resume i s = (s', Ok u) → sched_inv s'.
Proof.
  unfold resume. intros Hinv Hs. run_inv Hs. boolify. rename x0 into t, Hs0 into Ht.
  assert (idle (tk_state t)) as Hi by (rewrite Hs1; unfold idle; set_solver).
  unfold update_token. simpl. rewrite (alter_lookup _ _ _ _ Ht).
  pose proof (si_key s Hinv _ _ Ht) as Hkey.
  change (sched_inv (set_tokens (<[as_str i := with_state Ready t]> (sc_tokens s))
    (set_ready ({[ready_key x3 t]} ∪ sc_ready s) s))).
  apply (replace_inv s (as_str i) t (with_state Ready t) _ Hinv Ht Hi); try done.
  - apply valid_with_state; [done|unfold idle; set_solver|]. by eapply (si_valid s Hinv).
  - intros key. rewrite is_ready_key_insert, elem_of_union, elem_of_singleton, (si_ready s Hinv).
    simpl. split.
    + intros [->|Hk]; [right; simpl; eauto 10|left]. split; [|done].
      destruct Hk as (t0 & o0 & H0 & Hs & _). intros Heq. rewrite Heq in H0. congruence.
    + intros [[_ Hk]|(_ & _ & o & Ho & ->)]; [by right|left]. simplify_eq. done.
  - intros q Hq. exfalso. by eapply (is_ready_none_awaits s _ t q).
Qed.

(** What cancellation does to one token. *)
Definition cancelled_token (lineage : string) (t : TokenV1) : TokenV1 :=
  if cancels lineage t then with_state Cancelled t else t.

Lemma cancelled_same lineage t :
  tk_token_id (cancelled_token lineage t) = tk_token_id t
  ∧ tk_node_id (cancelled_token lineage t) = tk_node_id t
  ∧ tk_logical_tick (cancelled_token lineage t) = tk_logical_tick t
  ∧ tk_branch_lineage (cancelled_token lineage t) = tk_branch_lineage t
  ∧ tk_awaiting_proposal_id (cancelled_token lineage t) = tk_awaiting_proposal_id t
  ∧ tk_selected_transition_id (cancelled_token lineage t) = tk_selected_transition_id t
  ∧ tk_selected_loop_id (cancelled_token lineage t) = tk_selected_loop_id t
  ∧ tk_external_completion (cancelled_token lineage t) = tk_external_completion t.
Proof. unfold cancelled_token. by destruct (cancels lineage t). Qed.

Lemma cancels_idle lineage t : cancels lineage t = true → idle (tk_state t).
Proof. unfold cancels, idle. intros Hc. boolify. destruct (tk_state t); set_solver. Qed.

Lemma cancelled_state lineage t st :
  st = AwaitingCommit ∨ st = Completed →
  tk_state (cancelled_token lineage t) = st ↔ tk_state t = st.
Proof.
  intros Hst. unfold cancelled_token. destruct (cancels lineage t) eqn:Hc; [|done].
  apply cancels_idle in Hc. unfold idle in Hc. simpl.
  split; intros Heq; destruct Hst; subst; try done; rewrite Heq in Hc; set_solver.
Qed.

Lemma cancelled_ready lineage t :
  tk_state (cancelled_token lineage t) = Ready ↔
  tk_state t = Ready ∧ lineage_matches (tk_branch_lineage t) lineage = false.
Proof.
  unfold cancelled_token, cancels. destruct (lineage_matches _ _); simpl; [|naive_solver].
  destruct (bool_decide _) eqn:Hb; simpl; [|split; [done|]; by intros []]. boolify.
  split; [|by intros []]. intros Hr. rewrite Hr in Hb. set_solver.
Qed.

Lemma cancel_inv s s' lineage n :
  sched_inv s → cancel_lineage lineage s = (s', n) → sched_inv s'.
Proof.
  intros Hinv [= <- _]. pose proof Hinv as [].
  change (λ t, if cancels lineage t then with_state Cancelled t else t)
    with (cancelled_token lineage).
  assert (∀ k t, (cancelled_token lineage <$> sc_tokens s) !! k = Some t →
    ∃ t0, sc_tokens s !! k = Some t0 ∧ t = cancelled_token lineage t0) as Hlk.
  { intros k t. rewrite lookup_fmap, fmap_Some. naive_solver. }
  split; simpl; try done.
  - intros k t (t0 & H0 & ->)%Hlk. destruct (cancelled_same lineage t0) as (-> & _). eauto.
  - intros k t (t0 & H0 & ->)%Hlk. specialize (si_valid _ _ H0). unfold cancelled_token.
    destruct (cancels lineage t0) eqn:Hc; [|done].
    apply valid_with_state; [by eapply cancels_idle|unfold idle; set_solver|done].
  - intros k t (t0 & H0 & ->)%Hlk. destruct (cancelled_same lineage t0) as (_ & _ & -> & _). eauto.
  - unfold bt_len. by rewrite map_size_fmap.
  - intros key. rewrite elem_of_filter, si_ready. unfold is_ready_key. split.
    + intros [Hl (t & o & Ht & Hst & Ho & ->)]. exists (cancelled_token lineage t), o.
      rewrite lookup_fmap, Ht. simpl in *.
      destruct (cancelled_same lineage t) as (E1 & E2 & E3 & E4 & _).
      split_and!; [done|by apply cancelled_ready|by rewrite E2|].
      unfold ready_key. by rewrite E1, E3, E4.
    + intros (t & o & (t0 & H0 & ->)%Hlk & Hst & Ho & ->).
      destruct (cancelled_same lineage t0) as (E1 & E2 & E3 & E4 & _).
      apply cancelled_ready in Hst as [Hst Hl]. unfold ready_key in *. simpl in *.
      rewrite E1, E2, E3, E4 in *. split; [done|]. exists t0, o. done.
  - intros k1 k2 t1 t2 p (u1 & H1 & ->)%Hlk (u2 & H2 & ->)%Hlk. unfold awaits in *.
    destruct (cancelled_same lineage u1) as (_ & _ & _ & _ & -> & _).
    destruct (cancelled_same lineage u2) as (_ & _ & _ & _ & -> & _). eauto.
  - intros p c Hc. destruct (si_acked p c Hc) as (k & src & Hk & Hw & Hst & Hok).
    exists k, (cancelled_token lineage src). rewrite lookup_fmap, Hk.
    destruct (cancelled_same lineage src) as (E1 & E2 & E3 & E4 & E5 & E6 & E7 & E8).
    split_and!; [done|unfold awaits in *; by rewrite E5|apply cancelled_state; auto|].
    unfold ack_ok in *. rewrite E2, E4, E6, E8. destruct c as [c|]; [|done].
    destruct Hok as (tr & ch & Htr & Hch & Hto & Hl & He). exists tr, (cancelled_token lineage ch).
    rewrite lookup_fmap, Hch. destruct (cancelled_same lineage ch) as (_ & -> & _ & -> & _). done.
  - intros k t (t0 & H0 & ->)%Hlk. unfold is_acknowledged in *.
    destruct (cancelled_same lineage t0) as (_ & _ & _ & _ & -> & _).
    rewrite (si_completed _ _ H0). apply bool_decide_ext. symmetry. apply cancelled_state. auto.
  - intros d Hd. unfold pending_count.
    rewrite (count_values_fmap _ (pending_on (wl_loop_id d))); [by apply si_loop_bound|].
    intros k t Ht. unfold pending_on. f_equal.
    + apply bool_decide_ext. apply cancelled_state. auto.
    + by destruct (cancelled_same lineage t) as (_ & _ & _ & _ & _ & _ & -> & _).
Qed.

(** ** Runs *)

Lemma stm_map_ok {S E A B} (f : A → B) (m : stm S E A) s s' b :
  stm_map f m s = (s', Ok b) ↔ ∃ a, m s = (s', Ok a) ∧ b = f a.
Proof.
  unfold stm_map. rewrite bind_ok. split.
  - intros (s1 & a & Hm & Hr). apply ret_ok in Hr as [-> ->]. eauto.
  - intros (a & Hm & ->). exists s', a. by rewrite ret_ok.
Qed.

Lemma run_call_inv c s s' o :
  sched_inv s → run_call c s = (s', Ok o) → call_width c → no_collision s o → sched_inv s'.
Proof.
  intros Hinv Hc Hw Hf.
  destruct c; simpl in Hc;
    repeat match goal with
    | H : stm_map _ _ _ = (_, Ok _) |- _ => apply stm_map_ok in H as (? & H & ->)
    end.
  - unfold seed_entries in Hc. run_inv Hc. destruct Hf. by eapply map_enqueue_inv.
  - destruct Hf as [_ Hf]. eapply enqueue_inv; [done..|]. apply Hf. by left.
  - destruct (claim_next s) eqn:E. simplify_eq. by eapply claim_next_inv.
  - by eapply propose_transition_inv.
  - by eapply propose_terminal_inv.
  - by eapply propose_wait_input_inv.
  - by eapply ack_transition_inv.
  - eapply ack_completion_inv; [|done..]. intros n Hn. unfold valid_completion. by rewrite Hn.
  - eapply ack_completion_inv; [|done..]. intros n Hn. unfold valid_completion. by rewrite Hn.
  - by eapply suspend_inv.
  - by eapply resume_inv.
  - destruct (cancel_lineage lineage s) eqn:E. simplify_eq. by eapply cancel_inv.
Qed.

Lemma new_inv p :
  PlanWf p → loop_bounds_fit p →
  sched_inv (SchedulerV1_new p).
Proof.
  intros Hwf Hw. split; simpl; try done.
  - intros key. split; [set_solver|]. by intros (t & o & Ht & _).
  - intros d Hd. pose proof (pwf_loop_positive _ _ Hd). change (pending_count ∅ (wl_loop_id d)) with 0.
    rewrite lookup_empty. simpl. lia.
Qed.

(** No call replaces the plan. *)
Lemma enqueue_plan n r l s : sc_plan (enqueue n r l s).1 = sc_plan s.
Proof.
  unfold enqueue, mbind, stm_bind, read, lift, reject_if. simpl.
  destruct (ok_or _ _); [|done]. destruct (fail_if _ _); [|done]. destruct (stable_id _); [|done].
  by destruct (ok_or _ _).
Qed.

Lemma map_enqueue_plan r l nodes s :
  sc_plan (map_stm (λ n, enqueue n r l) nodes s).1 = sc_plan s.
Proof.
  revert s. induction nodes as [|n nodes IH]; intros s; [done|]. simpl. unfold mbind, stm_bind.
  pose proof (enqueue_plan n r l s) as He. destruct (enqueue n r l s) as [s1 [t|e]]; [|done].
  specialize (IH s1). destruct (map_stm _ nodes s1) as [s2 [ts|e]]; simpl in *; congruence.
Qed.

Lemma run_call_plan c s s' o : sched_inv s → run_call c s = (s', Ok o) → sc_plan s' = sc_plan s.
Proof.
  intros Hinv Hc. destruct c; simpl in Hc;
    repeat match goal with
    | Hx : stm_map _ _ _ = (_, Ok _) |- _ => apply stm_map_ok in Hx as (? & Hx & ->)
    end.
  - unfold seed_entries in Hc. run_inv Hc.
    pose proof (map_enqueue_plan context_revision "root" (ws_entry_nodes (plan_snapshot (sc_plan s))) s)
      as Hp. by rewrite Hc in Hp.
  - pose proof (enqueue_plan node context_revision lineage s) as Hp. by rewrite Hc in Hp.
  - destruct (claim_next s) as [s1 o1] eqn:E. simplify_eq.
    by destruct (claim_next_cases _ _ _ Hinv E) as [(_ & -> & _)|(? & ? & ? & ? & _ & _ & _ & _ & _ & _ & ->)].
  - unfold propose_transition in Hc. run_inv Hc. by apply in_flight_ok in Hc0 as (-> & _).
  - unfold propose_terminal in Hc. run_inv Hc. by apply in_flight_ok in Hc0 as (-> & _).
  - unfold propose_wait_input in Hc. run_inv Hc. by apply in_flight_ok in Hc0 as (-> & _).
  - destruct (ack_transition_ok _ _ _ _ _ _ Hinv Hc)
      as [(? & _ & _ & -> & _)|(? & ? & ? & ? & ? & ? & _ & _ & _ & _ & _ & _ & _ & _ & _ & _ & _ & -> & ->)];
      done.
  - by destruct (ack_completion_ok _ _ _ _ _ _ _ Hinv Hc)
      as [(-> & _)|(? & ? & ? & _ & _ & _ & _ & _ & _ & _ & _ & _ & _ & ->)].
  - by destruct (ack_completion_ok _ _ _ _ _ _ _ Hinv Hc)
      as [(-> & _)|(? & ? & ? & _ & _ & _ & _ & _ & _ & _ & _ & _ & _ & ->)].
  - unfold suspend in Hc. by run_inv Hc.
  - unfold resume in Hc. by run_inv Hc.
  - unfold cancel_lineage in Hc. by simplify_eq.
Qed.
End steps.
