(* ===== verification/SchedulerRestore.v ===== *)
(** * Checkpoints of the scheduler

    [restore] accepts exactly the states that satisfy [sched_inv]: a
    checkpoint of a live scheduler restores to the same scheduler, and a
    restored scheduler satisfies the invariant. *)
From S2P Require Export SchedulerSteps.

Section restore_loops.
Context (p : ExecutionPlanV1).

(** ** The loop over the tokens *)

Lemma restore_tokens_sound tick l ids tokens :
  fold_res (restore_token p tick) (∅, ∅) l = Ok (ids, tokens) →
  (∀ k t, tokens !! k = Some t ↔ t ∈ l ∧ k = as_str (tk_token_id t)) ∧
  (∀ t, t ∈ l → tk_logical_tick t ≤ tick ∧ validate_restored_token p t = Ok ()) ∧
  (∀ k1 k2 t1 t2 q, tokens !! k1 = Some t1 → tokens !! k2 = Some t2 →
     awaits t1 q → awaits t2 q → k1 = k2) ∧ NoDup l.
Proof.
  intros Hf.
  assert ((∀ k t, tokens !! k = Some t ↔ t ∈ l ∧ k = as_str (tk_token_id t)) ∧
    (∀ t, t ∈ l → tk_logical_tick t ≤ tick ∧ validate_restored_token p t = Ok ()) ∧
    (∀ k1 k2 t1 t2 q, tokens !! k1 = Some t1 → tokens !! k2 = Some t2 →
       awaits t1 q → awaits t2 q → k1 = k2) ∧ NoDup l ∧
    ∀ k t q, tokens !! k = Some t → awaits t q → q ∈ ids) as (? & ? & ? & ? & _); [|done].
  revert Hf. apply (fold_res_inv _ (λ l st,
    (∀ k t, st.2 !! k = Some t ↔ t ∈ l ∧ k = as_str (tk_token_id t)) ∧
    (∀ t, t ∈ l → tk_logical_tick t ≤ tick ∧ validate_restored_token p t = Ok ()) ∧
    (∀ k1 k2 t1 t2 q, st.2 !! k1 = Some t1 → st.2 !! k2 = Some t2 →
       awaits t1 q → awaits t2 q → k1 = k2) ∧ NoDup l ∧
    ∀ k t q, st.2 !! k = Some t → awaits t q → q ∈ st.1)).
  { simpl. split_and!; [|set_solver|done|constructor|done]. intros k t. rewrite lookup_empty. set_solver. }
  intros pre x [ids1 m1] [ids2 m2] (Hk & Hv & Hu & Hnd & Hi) Hs. simpl in *.
  destruct (_ || _) eqn:Hb in Hs; [done|]. injection Hs as <- <-. boolify.
  match goal with Hx : is_err _ = false |- _ => apply is_err_false in Hx end.
  assert (∀ q, awaits x q → ∀ k t, m1 !! k = Some t → ¬ awaits t q) as Hnew.
  { intros q Hx k t Ht Haw. specialize (Hi _ _ _ Ht Haw). unfold awaits in Hx.
    destruct (tk_awaiting_proposal_id x); simplify_eq/=. boolify. done. }
  split_and!.
  - intros k t. rewrite lookup_insert_Some, list_elem_of_snoc, Hk. split; [naive_solver|].
    intros [[Ht| ->] ->]; [|by left]. right. split; [|done]. intros Heq.
    assert (m1 !! as_str (tk_token_id t) = Some t) by (by apply Hk). congruence.
  - intros t [Ht| ->]%list_elem_of_snoc; [auto|]. done.
  - intros k1 k2 t1 t2 q [[<- <-]|[_ H1']]%lookup_insert_Some
      [[<- <-]|[_ H2']]%lookup_insert_Some Hw1 Hw2; [done|..|by eauto]; exfalso; by eapply Hnew.
  - apply NoDup_app. split_and!; [done| |apply NoDup_singleton].
    intros t Ht ->%list_elem_of_singleton.
    assert (m1 !! as_str (tk_token_id x) = Some x) by (by apply Hk). congruence.
  - intros k t q [[<- <-]|[_ Ht]]%lookup_insert_Some Haw.
    + unfold awaits in Haw. destruct (tk_awaiting_proposal_id x); simplify_eq/=. set_solver.
    + specialize (Hi _ _ _ Ht Haw). destruct (tk_awaiting_proposal_id x); set_solver.
Qed.

Lemma restore_tokens_complete tick l ids m :
  (∀ t, t ∈ l → tk_logical_tick t ≤ tick ∧ validate_restored_token p t = Ok ()) →
  NoDup (tk_token_id <$> l) → (∀ t, t ∈ l → m !! as_str (tk_token_id t) = None) →
  NoDup (omap tk_awaiting_proposal_id l) →
  (∀ q, q ∈ omap tk_awaiting_proposal_id l → as_str q ∉ ids) →
  ∃ r, fold_res (restore_token p tick) (ids, m) l = Ok r.
Proof.
  revert ids m. induction l as [|t l IH]; intros ids m Hok Hnd Hm Hq Hids; simpl; [eauto|].
  destruct (Hok t) as [Ht Hv]; [by left|]. apply NoDup_cons in Hnd as [Hnt Hnd].
  assert ((tick <? tk_logical_tick t) = false) as -> by (apply N.ltb_ge; lia).
  rewrite Hv. simpl.
  assert (bt_contains m (as_str (tk_token_id t)) = false) as -> by (apply bt_contains_false, Hm; by left).
  assert (∀ t', t' ∈ l → <[as_str (tk_token_id t):=t]> m !! as_str (tk_token_id t') = None) as Hm'.
  { intros t' Ht'. rewrite lookup_insert_ne; [apply Hm; by right|]. intros ?%(inj _).
    apply Hnt, list_elem_of_fmap. eauto. }
  destruct (tk_awaiting_proposal_id t) as [q|] eqn:Haw; simpl.
  - assert (omap tk_awaiting_proposal_id (t :: l) = q :: omap tk_awaiting_proposal_id l) as Ho
      by (simpl; by rewrite Haw).
    rewrite Ho in Hq, Hids. apply NoDup_cons in Hq as [Hq1 Hq2].
    assert (bs_contains ids (as_str q) = false) as ->
      by (apply bool_decide_eq_false, Hids; by left). simpl.
    apply IH; [set_solver|done|done|done|].
    intros q' Hq'. assert (q ≠ q') by congruence. apply not_elem_of_union. split.
    + apply not_elem_of_singleton. intros ?%(inj _). congruence.
    + apply Hids. by right.
  - assert (omap tk_awaiting_proposal_id (t :: l) = omap tk_awaiting_proposal_id l) as Ho
      by (simpl; by rewrite Haw).
    rewrite Ho in Hq, Hids. apply IH; [set_solver|done|done|done|done].
Qed.

(** ** The loop over the ready keys *)

Definition ready_entry_ok (ords : gmap string N) (tokens : gmap string TokenV1) (key : ReadyKeyV1) :=
  ∃ t, tokens !! rk_token_id key = Some t ∧ tk_state t = Ready
    ∧ tk_logical_tick t = rk_logical_tick key ∧ tk_branch_lineage t = rk_branch_lineage key
    ∧ ords !! as_str (tk_node_id t) = Some (rk_node_ordinal key).

Lemma restore_ready_ok ords tokens r e r' :
  restore_ready ords tokens r e = Ok r' ↔
  ready_entry_ok ords tokens (rk_of_tuple e) ∧ rk_of_tuple e ∉ r ∧ r' = {[rk_of_tuple e]} ∪ r.
Proof.
  unfold restore_ready, ready_entry_ok. cbv zeta. generalize (rk_of_tuple e). intros key. split.
  - intros Hr. res_inv Hr. boolify. eauto 10.
  - intros ((t & -> & Hst & Htick & Hl & Ho) & Hn & ->). simpl.
    rewrite Hst, Htick, Hl, Ho, N.eqb_refl, (bool_decide_false (key ∈ r)) by done.
    by rewrite !bool_decide_true by done.
Qed.

Lemma restore_ready_sound ords tokens l ready :
  fold_res (restore_ready ords tokens) ∅ l = Ok ready →
  (∀ key, key ∈ ready ↔ key ∈ rk_of_tuple <$> l) ∧
  (∀ key, key ∈ ready → ready_entry_ok ords tokens key) ∧ NoDup (rk_of_tuple <$> l).
Proof.
  apply (fold_res_inv _ (λ l r, (∀ key, key ∈ r ↔ key ∈ rk_of_tuple <$> l) ∧
    (∀ key, key ∈ r → ready_entry_ok ords tokens key) ∧ NoDup (rk_of_tuple <$> l))).
  { split_and!; [set_solver|set_solver|constructor]. }
  intros pre e r1 r2 (H1 & H2 & H3) (Hok & Hn & ->)%restore_ready_ok. split_and!.
  - intros key. rewrite fmap_app, elem_of_app, elem_of_union, H1, elem_of_singleton. simpl.
    rewrite list_elem_of_singleton. naive_solver.
  - intros key [->%elem_of_singleton|Hin]%elem_of_union; auto.
  - rewrite fmap_app, NoDup_app. split_and!; [done| |apply NoDup_singleton].
    intros k Hk ->%list_elem_of_singleton. by apply Hn, H1.
Qed.

Lemma restore_ready_complete ords tokens l r :
  NoDup l → (∀ key, key ∈ l → ready_entry_ok ords tokens key) → (∀ key, key ∈ l → key ∉ r) →
  ∃ r', fold_res (restore_ready ords tokens) r (rk_tuple <$> l) = Ok r'.
Proof.
  revert r. induction l as [|key l IH]; intros r Hnd Hok Hr; simpl; [eauto|].
  apply NoDup_cons in Hnd as [Hnk Hnd].
  assert (rk_of_tuple (rk_tuple key) = key) as Hkey by (by destruct key).
  assert (restore_ready ords tokens r (rk_tuple key) = Ok ({[key]} ∪ r)) as ->.
  { apply restore_ready_ok. rewrite Hkey. split_and!; [apply Hok|apply Hr|done]; by left. }
  apply IH; [done|set_solver|]. intros k Hk. apply not_elem_of_union. split; [|apply Hr; by right].
  apply not_elem_of_singleton. by intros ->.
Qed.
End restore_loops.

Lemma ready_entry_is_key s key :
  (∀ k t, sc_tokens s !! k = Some t → k = as_str (tk_token_id t)) →
  ready_entry_ok (sc_node_ordinals s) (sc_tokens s) key ↔
  is_ready_key (sc_node_ordinals s) (sc_tokens s) key.
Proof.
  intros Hkey. unfold ready_entry_ok, is_ready_key. split.
  - intros (t & Ht & Hst & Hti & Hl & Ho). exists t, (rk_node_ordinal key). split_and!; try done.
    destruct key as [tick o l i]. unfold ready_key. simpl in *. rewrite <-(Hkey _ _ Ht). congruence.
  - intros (t & o & Ht & Hst & Ho & ->). exists t. done.
Qed.

(** ** Soundness *)

(** The same checkpoint up to the order of its vectors. *)
Record same_checkpoint (c c' : SchedulerCheckpointV1) : Prop := {
  sck_numbers : (scp_logical_tick c, scp_next_token_ordinal c, scp_committed_cursor c)
              = (scp_logical_tick c', scp_next_token_ordinal c', scp_committed_cursor c');
  sck_tokens : scp_tokens c ≡ₚ scp_tokens c';
  sck_ready : scp_ready c ≡ₚ scp_ready c';
  sck_loops : scp_loop_counts c = scp_loop_counts c';
  sck_acks : scp_acknowledged_proposals c = scp_acknowledged_proposals c'
}.

Lemma restore_acknowledged_ok p tokens q c u :
  restore_acknowledged p tokens (q, c) = Ok u →
  ∃ k source, tokens !! k = Some source ∧ awaits source q ∧ tk_state source = Completed
    ∧ ack_ok p tokens source c.
Proof.
  unfold restore_acknowledged. intros Hr. res_inv Hr.
  apply find_awaiting_Some in Hr1 as [Hw [k Hk]]. boolify. exists k, x0. split_and!; [done..|].
  destruct c as [c|]; res_inv Hr; boolify.
  - destruct (tk_external_completion x0) eqn:Hx; [done|]. unfold ack_ok. eauto 10.
  - destruct (tk_selected_transition_id x0) eqn:Hx; [done|]. unfold ack_ok.
    destruct (plan_node p (tk_node_id x0)); [|done]. eauto.
Qed.

Lemma restore_completed_ok acks t u :
  restore_completed acks t = Ok u → is_acknowledged acks t = bool_decide (tk_state t = Completed).
Proof.
  unfold restore_completed. intros Hr. res_inv Hr. boolify.
  match goal with Hx : Bool.eqb _ _ = true |- _ => apply Bool.eqb_prop in Hx end. done.
Qed.

Lemma restore_sound p c s :
  PlanWf p → loop_bounds_fit p →
  scp_logical_tick c ≤ u64_max → scp_committed_cursor c ≤ u64_max →
  restore p c = Ok s → sched_inv s ∧ sc_plan s = p ∧ same_checkpoint (checkpoint s) c.
Proof.
  intros Hwf Hw Ht64 Hc64 Hr. unfold restore in Hr.
  apply rbind_ok in Hr as (al & Hal & Hr). apply rbind_ok in Hr as (u1 & Hguard & Hr).
  apply rbind_ok in Hr as (u2 & Hloops & Hr). apply rbind_ok in Hr as ([ids tokens] & Htok & Hr).
  cbv zeta in Hr. cbn [fst snd] in Hr.
  apply rbind_ok in Hr as (tl & Htl & Hr). apply rbind_ok in Hr as (en & Hen & Hr).
  apply rbind_ok in Hr as (u3 & Hnext & Hr). apply rbind_ok in Hr as (ready & Hready & Hr).
  apply rbind_ok in Hr as (u4 & Hrall & Hr). apply rbind_ok in Hr as (u5 & Hacks & Hr).
  apply rbind_ok in Hr as (u6 & Hcompl & Hr). apply rbind_ok in Hr as (u7 & Hcap & Hr).
  injection Hr as <-.
  apply restore_tokens_sound in Htok as (Hk & Hv & Haw & Hndl).
  apply restore_ready_sound in Hready as (Hre & Hrok & Hndr).
  pose proof (proj1 (for_each_ok _ _ _) Hloops) as Hloops'.
  pose proof (proj1 (for_each_ok _ _ _) Hacks) as Hacks'.
  pose proof (proj1 (for_each_ok _ _ _) Hcompl) as Hcompl'.
  pose proof (proj1 (for_each_ok _ _ _) Hcap) as Hcap'.
  clear Hloops Hacks Hcompl Hcap.
  apply ok_or_ok in Hal, Htl, Hen. apply fail_if_ok in Hguard, Hnext, Hrall.
  unfold u64_try_from, checked_add in *.
  destruct (bt_len (scp_acknowledged_proposals c) <=? u64_max); simplify_eq.
  destruct (bt_len tokens <=? u64_max); simplify_eq.
  destruct (bt_len tokens + 1 <=? u64_max) eqn:E3; simplify_eq. boolify.
  assert (∀ k t, tokens !! k = Some t → k = as_str (tk_token_id t)) as Hkey
    by (intros k t [_ ->]%Hk; done).
  set (s := MkScheduler _ _ _ _ _ _ _ _ _).
  split_and!; [|done|].
  - split; simpl; try done.
    + intros k t [Hin _]%Hk. by apply Hv.
    + intros k t [Hin _]%Hk. by apply Hv.
    + lia.
    + intros key. pose proof (ready_entry_is_key s key Hkey) as Hiff. simpl in Hiff.
      rewrite <-Hiff. split; [apply Hrok|].
      intros (t & Ht & Hst & Hti & Hl & Ho).
      apply (proj1 (existsb_false _ _)) with (x := t) in Hrall;
        [|apply elem_of_bt_values; eauto].
      rewrite Hst in Hrall. simpl in Hrall. apply negb_false_iff, existsb_true in Hrall as (k' & Hin & Hk').
      apply elem_of_ready_iter in Hin as Hin'. boolify.
      assert (key = k') as ->; [|done].
      destruct (Hrok _ Hin') as (t' & Ht' & _ & Hti' & Hl' & Ho').
      rewrite Hk', <-(Hkey _ _ Ht) in Ht'. destruct key, k'; simplify_eq/=. by rewrite <-(Hkey _ _ Ht).
    + intros q ch Hq. apply (restore_acknowledged_ok _ _ _ _ ()), Hacks', elem_of_bt_iter, Hq.
    + intros k t Ht. apply (restore_completed_ok _ _ ()), Hcompl', elem_of_bt_values. eauto.
    + intros k n Hn. specialize (Hloops' (k, n)). rewrite elem_of_bt_iter in Hloops'.
      specialize (Hloops' Hn). unfold restore_loop_count in Hloops'. res_inv Hloops'. simpl in *.
      apply StableId_parse_ok in Hloops'0. unfold checkpoint_loop_bound in Hloops'.
      destruct (plan_loop_descriptor p x) eqn:Hd; [|done]. rewrite <-Hloops'0. eauto.
    + intros d Hd. specialize (Hcap' d (proj2 (pwf_loops_listed d) Hd)).
      unfold restore_loop_capacity in Hcap'. res_inv Hcap'. unfold u32_try_from in *.
      destruct (_ <=? u32_max) eqn:E in Hcap'0; simplify_eq. boolify.
      pose proof (Hw _ _ Hd). unfold saturating_add in *. lia.
  - split; simpl; try done.
    + apply NoDup_Permutation; [by apply (NoDup_bt_values (λ t, as_str (tk_token_id t)))|done|].
      intros t. rewrite elem_of_bt_values. setoid_rewrite Hk. naive_solver.
    + assert (scp_ready c = rk_tuple <$> (rk_of_tuple <$> scp_ready c)) as ->.
      { rewrite <-list_fmap_compose. rewrite <-(list_fmap_id (scp_ready c)) at 1.
        apply list_fmap_ext. by intros i [[[]]]. }
      apply fmap_Permutation. apply NoDup_Permutation; [|done|].
      * unfold ready_iter. rewrite sort_by_perm. apply NoDup_elements.
      * intros k. by rewrite elem_of_ready_iter, Hre.
Qed.

(** ** Completeness *)

Lemma NoDup_omap_inj {A B} (f : A → option B) l :
  NoDup l → (∀ x y b, x ∈ l → y ∈ l → f x = Some b → f y = Some b → x = y) → NoDup (omap f l).
Proof.
  induction 1 as [|x l Hx Hnd IH]; intros Hinj; [constructor|].
  assert (NoDup (omap f l)) as Hl by (apply IH; set_solver). csimpl.
  destruct (f x) as [b|] eqn:Hb; [|done]. constructor; [|done].
  rewrite list_elem_of_omap. intros (y & Hy & Hyb). apply Hx.
  rewrite (Hinj x y b); [done|by left|by right|done|done].
Qed.

Lemma u64_try_from_ok n : n ≤ u64_max → u64_try_from n = Some n.
Proof. intros Hn. unfold u64_try_from. by rewrite (proj2 (N.leb_le _ _) Hn). Qed.

Section complete.
Context (s : SchedulerV1) (Hinv : sched_inv s).

Lemma restore_tokens_checkpoint :
  ∃ ids, fold_res (restore_token (sc_plan s) (sc_logical_tick s)) (∅, ∅) (bt_values (sc_tokens s))
         = Ok (ids, sc_tokens s).
Proof.
  destruct (restore_tokens_complete (sc_plan s) (sc_logical_tick s) (bt_values (sc_tokens s)) ∅ ∅)
    as [[ids m] Hr].
  - intros t [k Ht]%elem_of_bt_values. split; [by eapply (si_tick s Hinv)|by eapply (si_valid s Hinv)].
  - apply (NoDup_fmap_1 as_str). rewrite <-list_fmap_compose. unfold bt_values.
    rewrite <-list_fmap_compose. rewrite (list_fmap_ext _ fst); [apply NoDup_bt_keys|].
    intros i [k t] Ht%list_elem_of_lookup_2. apply elem_of_bt_iter, (si_key s Hinv) in Ht. done.
  - intros t _. apply lookup_empty.
  - apply NoDup_omap_inj.
    + apply (NoDup_bt_values (λ t, as_str (tk_token_id t))), (si_key s Hinv).
    + intros t1 t2 q [k1 H1]%elem_of_bt_values [k2 H2]%elem_of_bt_values Hq1 Hq2.
      assert (k1 = k2) as <-; [|congruence].
      apply (si_awaiting s Hinv k1 k2 t1 t2 (as_str q)); [done..| |]; unfold awaits;
        by rewrite ?Hq1, ?Hq2.
  - intros q _. set_solver.
  - exists ids. rewrite Hr. apply restore_tokens_sound in Hr as (Hk & _). do 2 f_equal.
    apply map_eq. intros k. apply option_eq. intros t. rewrite Hk, elem_of_bt_values. split.
    + intros [[k' Hk'] ->]. by rewrite <-(si_key s Hinv _ _ Hk').
    + intros Ht. split; [eauto|by apply (si_key s Hinv)].
Qed.

Lemma restore_ready_checkpoint :
  fold_res (restore_ready (node_ordinals_of (sc_plan s)) (sc_tokens s)) ∅
    (rk_tuple <$> ready_iter (sc_ready s)) = Ok (sc_ready s).
Proof.
  rewrite <-(si_ordinals s Hinv).
  destruct (restore_ready_complete (sc_node_ordinals s) (sc_tokens s) (ready_iter (sc_ready s)) ∅)
    as [r Hr].
  - unfold ready_iter. rewrite sort_by_perm. apply NoDup_elements.
  - intros key Hin%elem_of_ready_iter. apply ready_entry_is_key; [apply (si_key s Hinv)|].
    by apply (si_ready s Hinv).
  - set_solver.
  - rewrite Hr. apply restore_ready_sound in Hr as (Hk & _). f_equal. apply set_eq. intros key.
    rewrite Hk, <-list_fmap_compose, (list_fmap_ext _ id), list_fmap_id by (by intros i []).
    apply elem_of_ready_iter.
Qed.

Lemma restore_loop_count_checkpoint k n :
  sc_loop_counts s !! k = Some n → restore_loop_count (sc_plan s) (k, n) = Ok ().
Proof.
  intros Hn. destruct (si_loop_known s Hinv _ _ Hn) as [d Hd]. pose proof (si_plan s Hinv).
  pose proof (pwf_loop_id _ _ Hd) as Hk. unfold restore_loop_count. simpl.
  rewrite Hk. unfold StableId_parse. rewrite parse_opt_as_str. simpl.
  assert (plan_loop_descriptor (sc_plan s) (wl_loop_id d) = Some d) as Hd'
    by (unfold plan_loop_descriptor; by rewrite <-Hk).
  unfold checkpoint_loop_bound. rewrite Hd'. simpl. apply fail_if_ok, N.ltb_ge.
  pose proof (si_loop_bound s Hinv d Hd') as Hb. rewrite <-Hk, Hn in Hb. simpl in Hb. lia.
Qed.

Lemma restore_acknowledged_checkpoint q c :
  sc_acknowledged_proposals s !! q = Some c →
  restore_acknowledged (sc_plan s) (sc_tokens s) (q, c) = Ok ().
Proof.
  intros Hq. destruct (si_acked s Hinv _ _ Hq) as (k & src & Hk & Hw & Hst & Hok).
  unfold restore_acknowledged. rewrite (find_awaiting_unique s k src q Hinv Hk Hw).
  unfold awaits in Hw. destruct (tk_awaiting_proposal_id src) as [i|]; [|done]. simplify_eq/=.
  unfold StableId_parse. rewrite parse_opt_as_str. simpl. rewrite Hst. simpl.
  destruct c as [c|]; simpl in Hok.
  - destruct Hok as (tr & ch & Htr & Hch & Hto & Hl & He). rewrite Hch. simpl. rewrite Htr. simpl.
    by rewrite Hto, Hl, He, !bool_decide_true.
  - destruct Hok as (-> & n & -> & ->). done.
Qed.

Lemma restore_capacity_checkpoint d :
  d ∈ ws_loop_descriptors (plan_snapshot (sc_plan s)) →
  restore_loop_capacity (sc_tokens s) (sc_loop_counts s) d = Ok ().
Proof.
  pose proof (si_plan s Hinv) as Hwf. intros Hd%pwf_loops_listed.
  pose proof (si_loop_bound s Hinv d Hd) as Hb. pose proof (si_width s Hinv _ _ Hd).
  unfold restore_loop_capacity, u32_try_from, saturating_add.
  rewrite (proj2 (N.leb_le _ _)) by lia. simpl. apply fail_if_ok, N.ltb_ge. lia.
Qed.

Lemma restore_complete : restore (sc_plan s) (checkpoint s) = Ok s.
Proof.
  unfold restore. cbn [checkpoint scp_acknowledged_proposals scp_next_token_ordinal scp_tokens
    scp_committed_cursor scp_loop_counts scp_logical_tick scp_ready].
  pose proof (si_next s Hinv) as Hn. pose proof (si_next_width s Hinv) as Hnw.
  pose proof (si_cursor s Hinv) as Hc. pose proof (si_cursor_width s Hinv) as Hcw.
  rewrite u64_try_from_ok by lia. simpl.
  rewrite (proj2 (N.eqb_neq _ _)), (proj2 (N.ltb_ge _ _)) by lia. simpl.
  rewrite (proj2 (for_each_ok (restore_loop_count (sc_plan s)) _ ())) by
    (intros [k n] Hin%elem_of_bt_iter; by apply restore_loop_count_checkpoint). simpl.
  destruct restore_tokens_checkpoint as [ids ->]. simpl.
  rewrite u64_try_from_ok by lia. simpl. rewrite checked_add_ok by lia. simpl. rewrite <-Hn, N.eqb_refl. simpl.
  rewrite restore_ready_checkpoint. simpl.
  assert (existsb (λ t, bool_decide (tk_state t = Ready)
    && negb (existsb (λ k, bool_decide (rk_token_id k = as_str (tk_token_id t)))
              (ready_iter (sc_ready s)))) (bt_values (sc_tokens s)) = false) as ->.
  { apply existsb_false. intros t [k Ht]%elem_of_bt_values.
    destruct (bool_decide (tk_state t = Ready)) eqn:Hst; [simpl; boolify|done].
    apply negb_false_iff, existsb_true. pose proof (si_plan s Hinv) as Hwf.
    destruct (node_ordinals_is_Some _ Hwf (tk_node_id t)) as [o Ho].
    { by eapply valid_node, (si_valid s Hinv). }
    rewrite <-(si_ordinals s Hinv) in Ho. pose proof (si_key s Hinv _ _ Ht) as Hk.
    exists (ready_key o t). split; [|by rewrite bool_decide_true].
    apply elem_of_ready_iter, (si_ready s Hinv). exists t, o. simpl. by rewrite <-Hk. }
  simpl. rewrite (proj2 (for_each_ok (restore_acknowledged (sc_plan s) (sc_tokens s)) _ ())) by
    (intros [q c] Hin%elem_of_bt_iter; by apply restore_acknowledged_checkpoint). simpl.
  rewrite (proj2 (for_each_ok (restore_completed (sc_acknowledged_proposals s)) _ ())); simpl.
  2: { intros t [k Ht]%elem_of_bt_values. unfold restore_completed.
       rewrite (si_completed s Hinv _ _ Ht). by destruct (tk_state t). }
  rewrite (proj2 (for_each_ok _ _ ()) restore_capacity_checkpoint). simpl.
  rewrite <-(si_ordinals s Hinv). by destruct s.
Qed.
End complete.
