(* ===== verification/SchedulerLifecycle.v ===== *)
(** * Failed calls and the life of a token

    Failed scheduler calls change nothing: every method checks before it
    writes, except [acknowledge_transition], [resume] and [seed_entries], which
    write and then call something fallible; the invariant rules those failures
    out as long as token ordinals are left.

    The abstract specification of the scheduler: a token moves through the
    automaton [lifecycle], its identity is fixed, and a proposal, once made,
    is never changed.  [run_call_refines] shows that every call of the
    scheduler is a sequence of such moves. *)
From stdpp Require Import relations.
From S2P Require Export SchedulerSteps.

(** * Failed calls *)

Section errors.
Context `{Sha256Laws}.

Lemma stable_id_total m : ∃ i, stable_id m = Ok i.
Proof.
  destruct (digest_id_total "worker." 48 (as_bytes m)) as [i Hi]; [done..|].
  exists i. unfold stable_id. cbv zeta. by rewrite Hi.
Qed.

Lemma enqueue_total s node rev lineage :
  is_Some (sc_node_ordinals s !! as_str node) →
  str_is_empty lineage || (512 <? str_len lineage) = false →
  sc_next_token_ordinal s + 1 ≤ u64_max → ∃ s' t, enqueue node rev lineage s = (s', Ok t).
Proof.
  intros [o Ho] Hl Hn. destruct (stable_id_total (token_material s node lineage)) as [i Hi].
  do 2 eexists. unfold enqueue. apply bind_ok. exists s, s. split; [done|].
  apply bind_ok. exists s, o. split; [by rewrite Ho|].
  apply bind_ok. exists s, (). split; [by rewrite Hl|].
  apply bind_ok. exists s, i. split; [by rewrite Hi|].
  apply bind_ok. exists s, (sc_next_token_ordinal s + 1). split; [|reflexivity].
  unfold checked_add. by rewrite (proj2 (N.leb_le _ _) Hn).
Qed.

(** Room for as many tokens as one call can create. *)
Definition ordinals_left (s : SchedulerV1) : Prop :=
  sc_next_token_ordinal s + len (ws_entry_nodes (plan_snapshot (sc_plan s))) + 1 ≤ u64_max.

Lemma map_enqueue_total rev lineage nodes s :
  (∀ n, n ∈ nodes → is_Some (sc_node_ordinals s !! as_str n)) →
  str_is_empty lineage || (512 <? str_len lineage) = false →
  sc_next_token_ordinal s + len nodes ≤ u64_max →
  ∃ s' ts, map_stm (λ n, enqueue n rev lineage) nodes s = (s', Ok ts).
Proof.
  revert s. induction nodes as [|n nodes IH]; intros s Hn Hl Hlen; simpl; [by eexists _, _|].
  unfold len in *. cbn [length] in Hlen.
  destruct (enqueue_total s n rev lineage) as (s1 & t & Ht); [set_solver|done|lia|].
  destruct (enqueue_ok _ _ _ _ _ _ Ht) as (o & _ & _ & _ & _ & Hs1).
  destruct (IH s1) as (s2 & ts & Hts); [subst; set_solver|done|subst; simpl; lia|].
  eexists s2, (t :: ts). apply bind_ok. exists s1, t. split; [done|].
  apply bind_ok. exists s2, ts. done.
Qed.

Lemma enqueue_err s s' node rev lineage e : enqueue node rev lineage s = (s', Err e) → s' = s.
Proof. unfold enqueue. intros He. err_inv He; simplify_eq/=; done. Qed.

Lemma in_flight_err s s' i e : in_flight_token i s = (s', Err e) → s' = s.
Proof. unfold in_flight_token. intros He. err_inv He; simplify_eq/=; done. Qed.

Lemma ack_transition_err s s' q cur rev e :
  sched_inv s → ordinals_left s → acknowledge_transition q cur rev s = (s', Err e) → s' = s.
Proof.
  unfold acknowledge_transition, ordinals_left. intros Hinv Hleft He.
  err_inv He; simplify_eq/=; try done.
  destruct (sc_acknowledged_proposals s !! as_str q); err_inv He; simplify_eq/=; try done.
  exfalso. pose proof (si_plan s Hinv) as Hwf.
  match type of He with enqueue ?n ?r ?l ?s1 = _ =>
    destruct (enqueue_total s1 n r l) as (s2 & t & Ht); [| | |congruence] end.
  - assert (is_Some (node_ordinals_of (sc_plan s) !! as_str (wt_to_node x6))) as Ho.
    { apply node_ordinals_is_Some; [done|]. by apply (pwf_endpoints (as_str x5) x6). }
    rewrite <-(si_ordinals s Hinv) in Ho. by destruct (tk_selected_loop_id x3).
  - eapply valid_lineage, (si_valid s Hinv), He3.
  - destruct (tk_selected_loop_id x3); simpl; lia.
Qed.

Lemma ack_completion_err kind ext s s' q cur e :
  acknowledge_completion kind ext q cur s = (s', Err e) → s' = s.
Proof.
  unfold acknowledge_completion. intros He. err_inv He; simplify_eq/=; try done.
  destruct (bt_contains _ _); err_inv He; simplify_eq/=; done.
Qed.

Lemma resume_err s s' i e : sched_inv s → resume i s = (s', Err e) → s' = s.
Proof.
  unfold resume. intros Hinv He. err_inv He; simplify_eq/=; try done.
  exfalso. destruct (node_ordinals_is_Some _ (si_plan s Hinv) (tk_node_id x0)) as [o Ho].
  { eapply valid_node, (si_valid s Hinv), He0. }
  rewrite <-(si_ordinals s Hinv) in Ho. rewrite Ho in *. done.
Qed.

Lemma seed_err s s' r e :
  sched_inv s → ordinals_left s → seed_entries r s = (s', Err e) → s' = s.
Proof.
  unfold seed_entries, ordinals_left. intros Hinv Hleft He. err_inv He; simplify_eq/=.
  destruct (map_enqueue_total r "root" (ws_entry_nodes (plan_snapshot (sc_plan s))) s)
    as (s1 & ts & Hts); [|done|lia|congruence].
  intros n Hn. rewrite (si_ordinals s Hinv). pose proof (si_plan s Hinv).
  apply node_ordinals_is_Some; [done|]. by apply pwf_entries.
Qed.

Lemma stm_map_err {S E A B} (f : A → B) (m : stm S E A) s s' e :
  stm_map f m s = (s', Err e) ↔ m s = (s', Err e).
Proof. unfold stm_map. rewrite bind_err. split; [intros [?|(?&?&?&?)]; done|auto]. Qed.

(** C36: a scheduler call that returns an error leaves the scheduler exactly
    as it was, whatever the call, while token ordinals are left. *)
Theorem failed_call_changes_nothing c s s' e :
  sched_inv s → ordinals_left s → run_call c s = (s', Err e) → s' = s.
Proof.
  intros Hinv Hleft Hc. destruct c; simpl in Hc;
    repeat match goal with Hx : stm_map _ _ _ = (_, Err _) |- _ => apply stm_map_err in Hx end.
  - by eapply seed_err.
  - by eapply enqueue_err.
  - by destruct (claim_next s).
  - unfold propose_transition in Hc. err_inv Hc; simplify_eq/=; try done; [by eapply in_flight_err|..];
      by apply in_flight_ok in Hc0 as (-> & _).
  - unfold propose_terminal in Hc. err_inv Hc; simplify_eq/=; try done; [by eapply in_flight_err|..];
      by apply in_flight_ok in Hc0 as (-> & _).
  - unfold propose_wait_input in Hc. err_inv Hc; simplify_eq/=; try done; [by eapply in_flight_err|..];
      by apply in_flight_ok in Hc0 as (-> & _).
  - by eapply ack_transition_err.
  - by eapply ack_completion_err.
  - by eapply ack_completion_err.
  - unfold suspend in Hc. err_inv Hc; simplify_eq/=; done.
  - by eapply resume_err.
  - by destruct (cancel_lineage lineage s).
Qed.
End errors.

(** * The life of a token *)

Inductive lifecycle : TokenStateV1 → TokenStateV1 → Prop :=
| lc_claim : lifecycle Ready InFlight
| lc_propose : lifecycle InFlight AwaitingCommit
| lc_commit : lifecycle AwaitingCommit Completed
| lc_suspend : lifecycle InFlight Suspended
| lc_resume : lifecycle Suspended Ready
| lc_cancel st : st ∈ [Ready; InFlight; Suspended] → lifecycle st Cancelled.

(** What of a token never changes. *)
Definition identity (t : TokenV1) : StableId * StableId * N * N * string :=
  (tk_token_id t, tk_node_id t, tk_context_revision t, tk_logical_tick t, tk_branch_lineage t).
(** What a proposal fixes. *)
Definition proposal_data (t : TokenV1) :
    option StableId * option StableId * option StableId * option ExternalCompletionV1 :=
  (tk_awaiting_proposal_id t, tk_selected_transition_id t, tk_selected_loop_id t,
   tk_external_completion t).

Record token_step (t t' : TokenV1) : Prop := {
  ts_state : lifecycle (tk_state t) (tk_state t');
  ts_identity : identity t' = identity t;
  ts_proposal : tk_state t' ≠ AwaitingCommit → proposal_data t' = proposal_data t
}.

(** The committed iterations after completing [t]. *)
Definition counted (t : TokenV1) (counts : gmap string N) : gmap string N :=
  match tk_selected_loop_id t with
  | Some l => bump_count (as_str l) counts
  | None => counts
  end.

(** One abstract move of the token store and the loop counters. *)
Inductive micro : gmap string TokenV1 * gmap string N → gmap string TokenV1 * gmap string N → Prop :=
| mi_new (k : string) t (tokens : gmap string TokenV1) (counts : gmap string N) :
    tokens !! k = None → tk_state t = Ready → proposal_data t = (None, None, None, None) →
    micro (tokens, counts) (<[k:=t]> tokens, counts)
| mi_move (k : string) t t' (tokens : gmap string TokenV1) (counts : gmap string N) :
    tokens !! k = Some t → token_step t t' → tk_state t' ≠ Completed →
    micro (tokens, counts) (<[k:=t']> tokens, counts)
| mi_commit (k : string) t t' (tokens : gmap string TokenV1) (counts : gmap string N) :
    tokens !! k = Some t → token_step t t' → tk_state t' = Completed →
    (∀ l, tk_selected_loop_id t = Some l → default 0 (counts !! as_str l) < u32_max) →
    micro (tokens, counts) (<[k:=t']> tokens, counted t counts)
| mi_cancel lineage (tokens : gmap string TokenV1) (counts : gmap string N) :
    micro (tokens, counts) (cancelled_token lineage <$> tokens, counts).

Definition store (s : SchedulerV1) : gmap string TokenV1 * gmap string N :=
  (sc_tokens s, sc_loop_counts s).

Section refines.
Context `{Sha256}.

Lemma with_state_step t st :
  lifecycle (tk_state t) st → st ≠ AwaitingCommit → token_step t (with_state st t).
Proof. intros Hl Hn. split; done. Qed.

Lemma awaiting_step t q tr l e :
  tk_state t = InFlight → token_step t (awaiting q tr l e t).
Proof. intros Hs. split; [rewrite Hs; constructor|done|]. by intros []. Qed.

Lemma enqueue_micro s s' n r l t :
  enqueue n r l s = (s', Ok t) → sc_tokens s !! as_str (tk_token_id t) = None →
  micro (store s) (store s').
Proof.
  intros (o & _ & _ & _ & (i & _ & ->) & ->)%enqueue_ok Hf. by apply mi_new.
Qed.

Lemma seed_micro r l nodes s s' ts :
  map_stm (λ n, enqueue n r l) nodes s = (s', Ok ts) →
  NoDup (tk_token_id <$> ts) → (∀ t, t ∈ ts → sc_tokens s !! as_str (tk_token_id t) = None) →
  rtc micro (store s) (store s').
Proof.
  revert s ts. induction nodes as [|n nodes IH]; intros s ts Hm Hnd Hf; simpl in Hm.
  { run_inv Hm. reflexivity. }
  apply bind_ok in Hm as (s1 & t & Ht & Hm). apply bind_ok in Hm as (s2 & ts' & Hts & Hm).
  run_inv Hm. apply NoDup_cons in Hnd as [Hnt Hnd].
  eapply rtc_l; [eapply enqueue_micro; [exact Ht|apply Hf; by left]|].
  eapply IH; [exact Hts|exact Hnd|]. intros t' Ht'.
  destruct (enqueue_ok _ _ _ _ _ _ Ht) as (o & _ & _ & _ & _ & ->). simpl.
  rewrite lookup_insert_ne; [apply Hf; by right|]. intros Heq%(inj _). apply Hnt.
  rewrite Heq. apply list_elem_of_fmap. eauto.
Qed.

Lemma count_below s k t l :
  sched_inv s → sc_tokens s !! k = Some t → tk_state t = AwaitingCommit →
  tk_selected_loop_id t = Some l → default 0 (sc_loop_counts s !! as_str l) < u32_max.
Proof.
  intros Hinv Hk Hst Hl. destruct (selected_loop_known s k t l Hinv Hk Hl) as [d Hd].
  pose proof (si_plan s Hinv). pose proof (pwf_loop_id _ _ Hd) as Heq.
  apply (inj as_str) in Heq. subst l.
  pose proof (si_loop_bound s Hinv d Hd). pose proof (si_width s Hinv _ _ Hd). lia.
Qed.

Lemma propose_micro s i t q tr l e :
  sc_tokens s !! as_str i = Some t → tk_state t = InFlight →
  rtc micro (store s) (store (update_token (as_str i) (awaiting q tr l e) s)).
Proof.
  intros Ht Hst. apply rtc_once. unfold update_token, store. simpl.
  rewrite (alter_lookup _ _ _ _ Ht). eapply mi_move; [done| |done]. by apply awaiting_step.
Qed.

Lemma completion_micro s k t :
  sched_inv s → sc_tokens s !! k = Some t → tk_state t = AwaitingCommit →
  tk_selected_transition_id t = None →
  micro (store s) (<[k := with_state Completed t]> (sc_tokens s), sc_loop_counts s).
Proof.
  intros Hinv Ht Hst Hsel.
  destruct (valid_proposed _ _ (si_valid s Hinv _ _ Ht) (or_introl Hst))
    as (_ & [(i & ? & Hi & _)|(_ & Hl & _)]); [congruence|].
  replace (sc_loop_counts s) with (counted t (sc_loop_counts s)) at 1
    by (unfold counted; by rewrite Hl).
  eapply mi_commit; [done| |done|congruence].
  apply with_state_step; [rewrite Hst; constructor|done].
Qed.

Lemma run_call_micro c s s' o :
  sched_inv s → run_call c s = (s', Ok o) → no_collision s o → rtc micro (store s) (store s').
Proof.
  intros Hinv Hc Hf. destruct c; simpl in Hc;
    repeat match goal with
    | Hx : stm_map _ _ _ = (_, Ok _) |- _ => apply stm_map_ok in Hx as (? & Hx & ->)
    end.
  - unfold seed_entries in Hc. run_inv Hc. destruct Hf. by eapply seed_micro.
  - destruct Hf as [_ Hf]. apply rtc_once. eapply enqueue_micro; [done|]. apply Hf. by left.
  - destruct (claim_next s) as [s1 o1] eqn:E. simplify_eq.
    destruct (claim_next_cases _ _ _ Hinv E)
      as [(_ & -> & _)|(key & keys & t & ord & _ & _ & Ht & Hst & _ & _ & ->)]; [done|].
    apply rtc_once. eapply mi_move; [exact Ht| |done].
    apply with_state_step; [rewrite Hst; constructor|done].
  - unfold propose_transition in Hc. run_inv Hc. apply in_flight_ok in Hc0 as (-> & Ht & Hst).
    by eapply propose_micro.
  - unfold propose_terminal in Hc. run_inv Hc. apply in_flight_ok in Hc0 as (-> & Ht & Hst).
    by eapply propose_micro.
  - unfold propose_wait_input in Hc. run_inv Hc. apply in_flight_ok in Hc0 as (-> & Ht & Hst).
    by eapply propose_micro.
  - destruct (ack_transition_ok _ _ _ _ _ _ Hinv Hc)
      as [(c & _ & _ & -> & _)|(k & t & tr & child & ord & s1 & Hq & Hcur & Ht & Haw & Hst & Htr
          & Hext & -> & Ho & Hn & Hchild & -> & ->)]; [done|]. simpl in Hf.
    unfold store. simpl. eapply rtc_l; [eapply (mi_commit k t (with_state Completed t))|apply rtc_once].
    + done.
    + apply with_state_step; [rewrite Hst; constructor|done].
    + done.
    + intros l Hl. by eapply count_below.
    + apply mi_new; [rewrite lookup_insert_ne by congruence; done|..]; by rewrite Hchild.
  - destruct (ack_completion_ok _ _ _ _ _ _ _ Hinv Hc)
      as [(-> & _)|(k & t & n & _ & _ & Ht & _ & Hst & Hsel & _ & _ & _ & _ & ->)]; [done|].
    apply rtc_once. by apply (completion_micro s k t).
  - destruct (ack_completion_ok _ _ _ _ _ _ _ Hinv Hc)
      as [(-> & _)|(k & t & n & _ & _ & Ht & _ & Hst & Hsel & _ & _ & _ & _ & ->)]; [done|].
    apply rtc_once. by apply (completion_micro s k t).
  - unfold suspend in Hc. run_inv Hc. boolify. apply rtc_once. unfold update_token, store. simpl.
    rewrite (alter_lookup _ _ _ _ Hc0). eapply mi_move; [done| |done].
    apply with_state_step; [rewrite Hc1; constructor|done].
  - unfold resume in Hc. run_inv Hc. boolify. apply rtc_once. unfold update_token, store. simpl.
    rewrite (alter_lookup _ _ _ _ Hc0). eapply mi_move; [done| |done].
    apply with_state_step; [rewrite Hc1; constructor|done].
  - unfold cancel_lineage in Hc. simplify_eq. apply rtc_once. apply (mi_cancel lineage).
Qed.
End refines.

(** ** Consequences of the moves *)

Definition new_token (t : TokenV1) : Prop :=
  tk_state t = Ready ∧ proposal_data t = (None, None, None, None).

(** Tokens persist and move only along the automaton; others are new. *)
Definition store_evolves (m m' : gmap string TokenV1) : Prop :=
  ∀ k, match m !! k, m' !! k with
       | Some t, Some t' => rtc token_step t t'
       | None, Some t' => ∃ t0, new_token t0 ∧ rtc token_step t0 t'
       | Some _, None => False
       | None, None => True
       end.

Lemma cancelled_step lineage t : rtc token_step t (cancelled_token lineage t).
Proof.
  unfold cancelled_token. destruct (cancels lineage t) eqn:Hc; [|done].
  apply rtc_once, with_state_step; [|done]. constructor.
  unfold cancels in Hc. boolify. destruct (tk_state t); set_solver.
Qed.

Lemma micro_evolves a b : micro a b → store_evolves a.1 b.1.
Proof.
  intros [k t tokens counts Hk Hs Hp|k t t' tokens counts Hk Ht Hn|k t t' tokens counts Hk Ht Hn Hl
         |lineage tokens counts] i; simpl.
  - destruct (decide (i = k)) as [->|Hne]; [rewrite Hk, lookup_insert_eq|rewrite lookup_insert_ne by done].
    + exists t. split; [done|apply rtc_refl].
    + destruct (tokens !! i); [apply rtc_refl|done].
  - destruct (decide (i = k)) as [->|Hne]; [rewrite Hk, lookup_insert_eq|rewrite lookup_insert_ne by done].
    + by apply rtc_once.
    + destruct (tokens !! i); [apply rtc_refl|done].
  - destruct (decide (i = k)) as [->|Hne]; [rewrite Hk, lookup_insert_eq|rewrite lookup_insert_ne by done].
    + by apply rtc_once.
    + destruct (tokens !! i); [apply rtc_refl|done].
  - rewrite lookup_fmap. destruct (tokens !! i); [|done]. simpl. apply cancelled_step.
Qed.

Lemma store_evolves_trans m1 m2 m3 :
  store_evolves m1 m2 → store_evolves m2 m3 → store_evolves m1 m3.
Proof.
  intros H1 H2 k. specialize (H1 k). specialize (H2 k).
  destruct (m1 !! k) as [t1|], (m2 !! k) as [t2|], (m3 !! k) as [t3|]; try done.
  - by etrans.
  - destruct H1 as (t0 & Ht0 & Hs). exists t0. split; [done|]. by etrans.
Qed.

Lemma micros_evolve a b : rtc micro a b → store_evolves a.1 b.1.
Proof.
  induction 1 as [a|a b c Hab _ IH].
  - intros k. destruct (a.1 !! k); [apply rtc_refl|done].
  - eapply store_evolves_trans; [by apply micro_evolves|done].
Qed.

(** Completed and cancelled tokens never change again, and a token that
    awaits its commit can only be completed. *)
Lemma final_token t t' :
  rtc token_step t t' → tk_state t = Completed ∨ tk_state t = Cancelled → t' = t.
Proof.
  intros Hs Hst. inversion Hs as [|x y z Hxy _]; [done|]. subst.
  destruct Hxy as [Hl _ _]. destruct Hst as [Heq|Heq]; rewrite Heq in Hl; inversion Hl; set_solver.
Qed.

Lemma awaiting_token t t' :
  rtc token_step t t' → tk_state t = AwaitingCommit → t' = t ∨ t' = with_state Completed t.
Proof.
  intros Hs Hst. inversion Hs as [|x y z Hxy Hyz]; [by left|]. subst. right.
  destruct Hxy as [Hl Hi Hp]. rewrite Hst in Hl. inversion Hl as [| |Hc| | |st Hin Hb]; [|set_solver].
  symmetry in Hc. specialize (Hp ltac:(congruence)).
  assert (y = with_state Completed t) as Hy.
  { destruct y, t. unfold identity, proposal_data, with_state in *. simpl in *. by simplify_eq/=. }
  rewrite <-Hy. apply (final_token y t'); [done|]. auto.
Qed.

(** ** Loop iterations *)

(** Tokens that took, or are about to take, a declared loop. *)
Definition traversals (l : StableId) (m : gmap string TokenV1) : N :=
  count_values (λ t, bool_decide (tk_selected_loop_id t = Some l)) m.

(** The counters hold exactly the completed traversals, and idle tokens have
    selected no loop. *)
Record loops_counted (st : gmap string TokenV1 * gmap string N) : Prop := {
  lc_count : ∀ l, traversals l st.1 = default 0 (st.2 !! as_str l) + pending_count st.1 l;
  lc_idle : ∀ k t, st.1 !! k = Some t → idle (tk_state t) → tk_selected_loop_id t = None
}.

Lemma pending_update l m k t t' :
  m !! k = Some t →
  pending_count (<[k:=t']> m) l + (if pending_on l t then 1 else 0)
  = (if pending_on l t' then 1 else 0) + pending_count m l.
Proof. apply count_values_update. Qed.

Lemma traversals_update l m k t t' :
  m !! k = Some t →
  traversals l (<[k:=t']> m) + (if bool_decide (tk_selected_loop_id t = Some l) then 1 else 0)
  = (if bool_decide (tk_selected_loop_id t' = Some l) then 1 else 0) + traversals l m.
Proof. apply (count_values_update (λ t, bool_decide (tk_selected_loop_id t = Some l))). Qed.

Lemma lifecycle_from_idle st st' :
  lifecycle st st' → st' ≠ Completed → idle st.
Proof. unfold idle. destruct 1; intros; set_solver. Qed.

Lemma lifecycle_awaiting_or_idle st st' :
  lifecycle st st' → st' = AwaitingCommit ∨ st' = Completed ∨ idle st'.
Proof. unfold idle. destruct 1; set_solver. Qed.

Lemma micro_loops a b : micro a b → loops_counted a → loops_counted b.
Proof.
  intros Hm [Hc Hi]. destruct Hm as [k t m n Hk Hs Hp|k t t' m n Hk Ht Hn|k t t' m n Hk Ht Hn Hl
    |lineage m n]; simpl in *.
  - assert (tk_selected_loop_id t = None) as Hsel by (by inversion Hp).
    split; simpl.
    + intros l. specialize (Hc l). unfold traversals, pending_count in *.
      rewrite !count_values_insert by done.
      rewrite Hsel, bool_decide_false, pending_idle by (rewrite ?Hs; done). lia.
    + intros i x [[<- <-]|[_ Hx]]%lookup_insert_Some; eauto.
  - destruct Ht as [Hlc Hid Hpd].
    pose proof (lifecycle_from_idle _ _ Hlc Hn) as Hidle. pose proof (Hi _ _ Hk Hidle) as Hsel.
    assert (∀ l, pending_on l t = false) as Hpt.
    { intros l. unfold pending_on. rewrite Hsel. by rewrite (bool_decide_false (None = Some l)), andb_false_r. }
    assert (∀ l, pending_on l t' = bool_decide (tk_selected_loop_id t' = Some l)) as Hpt'.
    { intros l. unfold pending_on. destruct (decide (tk_state t' = AwaitingCommit)) as [Ha|Ha].
      - by rewrite (bool_decide_true _ Ha).
      - rewrite (bool_decide_false _ Ha). specialize (Hpd Ha). unfold proposal_data in Hpd.
        simplify_eq. assert (tk_selected_loop_id t' = None) as -> by congruence. done. }
    split; simpl.
    + intros l. specialize (Hc l). pose proof (pending_update l m k t t' Hk) as H1.
      pose proof (traversals_update l m k t t' Hk) as H2. rewrite Hpt, Hpt' in H1.
      rewrite Hsel, (bool_decide_false (None = Some l)) in H2 by done. lia.
    + intros i x [[<- <-]|[_ Hx]]%lookup_insert_Some Hix; [|eauto].
      assert (tk_state t' ≠ AwaitingCommit) as Ha
        by (intros Heq; rewrite Heq in Hix; unfold idle in Hix; set_solver).
      specialize (Hpd Ha). unfold proposal_data in Hpd. congruence.
  - destruct Ht as [Hlc Hid Hpd]. specialize (Hpd ltac:(congruence)). unfold proposal_data in Hpd.
    injection Hpd as _ _ Hsel _.
    assert (tk_state t = AwaitingCommit) as Hst by (rewrite Hn in Hlc; by inversion Hlc).
    split; simpl.
    + intros l. specialize (Hc l). pose proof (pending_update l m k t t' Hk) as H1.
      pose proof (traversals_update l m k t t' Hk) as H2. rewrite Hsel in H2.
      rewrite (pending_idle l t') in H1 by congruence.
      unfold pending_on in H1. rewrite Hst, (bool_decide_true (AwaitingCommit = _)) in H1 by done.
      simpl in H1. unfold counted. destruct (tk_selected_loop_id t) as [l0|].
      * unfold bump_count. destruct (decide (l0 = l)) as [->|Hne].
        -- rewrite lookup_insert_eq, bool_decide_true in * by done. specialize (Hl l eq_refl).
           simpl. rewrite N.mod_small; lia.
        -- rewrite lookup_insert_ne by (intros ?%(inj _); done).
           rewrite bool_decide_false in * by congruence. lia.
      * rewrite bool_decide_false in * by done. lia.
    + intros i x [[<- <-]|[_ Hx]]%lookup_insert_Some Hix; [|eauto].
      rewrite Hn in Hix. unfold idle in Hix. set_solver.
  - split; simpl.
    + intros l. specialize (Hc l). unfold traversals, pending_count in *.
      rewrite (count_values_fmap _ (λ t, bool_decide (tk_selected_loop_id t = Some l))),
        (count_values_fmap _ (pending_on l)); [done|..]; intros i t Ht.
      * unfold pending_on. f_equal; [apply bool_decide_ext, cancelled_state; auto|].
        by destruct (cancelled_same lineage t) as (_ & _ & _ & _ & _ & _ & -> & _).
      * by destruct (cancelled_same lineage t) as (_ & _ & _ & _ & _ & _ & -> & _).
    + intros i t. rewrite lookup_fmap, fmap_Some. intros (t0 & H0 & ->) Hid.
      destruct (cancelled_same lineage t0) as (_ & _ & _ & _ & _ & _ & -> & _).
      apply (Hi _ _ H0). unfold cancelled_token in Hid.
      destruct (cancels lineage t0) eqn:Hcc; [by eapply cancels_idle|done].
Qed.

Lemma micros_loops a b : rtc micro a b → loops_counted a → loops_counted b.
Proof. induction 1; eauto using micro_loops. Qed.
