(* ===== verification/SchedulerProofs.v ===== *)
(** * Theorems about the scheduler *)
From stdpp Require Import relations.
From S2P Require Export SchedulerLifecycle SchedulerRestore.

(** ** Runs *)

Section runs.
Context `{Sha256}.

Inductive reachable (p : ExecutionPlanV1) : SchedulerV1 → Prop :=
| reach_new : reachable p (SchedulerV1_new p)
| reach_call s s' c o :
    reachable p s → run_call c s = (s', Ok o) → call_width c → no_collision s o → reachable p s'.

Lemma reachable_facts p s :
  PlanWf p → loop_bounds_fit p → reachable p s →
  sched_inv s ∧ sc_plan s = p ∧ loops_counted (store s).
Proof.
  intros Hwf Hw. induction 1 as [|s s' c o Hr (Hinv & Hp & Hl) Hc Hcw Hf].
  - split_and!; [by apply new_inv|done|]. split; [|done].
    intros l. simpl. by rewrite lookup_empty.
  - split_and!.
    + by eapply run_call_inv.
    + rewrite <-Hp. by eapply run_call_plan.
    + eapply micros_loops; [|exact Hl]. by eapply run_call_micro.
Qed.
End runs.

(** ** Runs that can be executed *)

Definition no_collision_b (s : SchedulerV1) (o : sched_out) : bool :=
  match o with
  | OutTokens ts => bool_decide (NoDup (tk_token_id <$> ts))
      && forallb (λ t, negb (bt_contains (sc_tokens s) (as_str (tk_token_id t)))) ts
  | OutProposal p =>
      forallb (λ t, negb (bool_decide (tk_awaiting_proposal_id t = Some p))) (bt_values (sc_tokens s))
  | OutAck (MkAck false (Some t)) => negb (bt_contains (sc_tokens s) (as_str (tk_token_id t)))
  | _ => true
  end.
Definition call_width_b (c : sched_call) : bool :=
  match c with
  | CallAckTransition _ cursor _ | CallAckTerminal _ cursor | CallAckWaitInput _ cursor =>
      cursor <=? u64_max
  | _ => true
  end.

Section scripts.
Context `{Sha256}.

(** Calls chosen from the state they run in. *)
Fixpoint run_script (l : list (SchedulerV1 → sched_call)) (s : SchedulerV1) : option SchedulerV1 :=
  match l with
  | [] => Some s
  | f :: l => match run_call (f s) s with
              | (s', Ok o) => if call_width_b (f s) && no_collision_b s o then run_script l s' else None
              | (_, Err _) => None
              end
  end.

Lemma no_collision_b_ok s o : no_collision_b s o = true → no_collision s o.
Proof.
  destruct o as [ts| |q|[[] [t|]]| |]; simpl; try done.
  - intros [Hnd Hall]%andb_true_iff. apply bool_decide_eq_true in Hnd. split; [done|].
    rewrite forallb_forall in Hall. intros t Ht. apply list_elem_of_In, Hall in Ht.
    apply negb_true_iff in Ht. by apply bt_contains_false.
  - rewrite forallb_forall. intros Hall k t Ht. specialize (Hall t).
    rewrite <-list_elem_of_In, elem_of_bt_values in Hall. specialize (Hall ltac:(eauto)).
    apply negb_true_iff in Hall. by apply bool_decide_eq_false in Hall.
  - intros Hc%negb_true_iff. by apply bt_contains_false.
Qed.

Lemma run_script_reachable p l s s' :
  reachable p s → run_script l s = Some s' → reachable p s'.
Proof.
  revert s. induction l as [|f l IH]; intros s Hr; simpl; [by intros [= <-]|].
  destruct (run_call (f s) s) as [s1 [o|e]] eqn:Hc; [|done].
  destruct (call_width_b (f s)) eqn:Hw; [|done]. destruct (no_collision_b s o) eqn:Hn; [|done].
  apply IH. eapply reach_call; [done|exact Hc| |by apply no_collision_b_ok].
  destruct (f s); simpl in *; try done; by apply N.leb_le.
Qed.
End scripts.

(** Seed the demo plan, run [start], enter the loop body, take the loop once
    and leave it; [done] is claimed at the end. *)
Module DemoRun.
Import (hints) Demo.
Definition plan : ExecutionPlanV1 :=
  default (MkPlan Demo.draft ∅ ∅ ∅ ∅ ∅ ∅ "") Demo.plan.
Definition in_state (st : TokenStateV1) (s : SchedulerV1) : option TokenV1 :=
  snd <$> list_find (λ t, tk_state t = st) (bt_values (sc_tokens s)).
Definition flying (s : SchedulerV1) : StableId := default id:"none" (tk_token_id <$> in_state InFlight s).
Definition waiting (s : SchedulerV1) : StableId :=
  default id:"none" (in_state AwaitingCommit s ≫= tk_awaiting_proposal_id).
Definition claim (s : SchedulerV1) : sched_call := CallClaim.
Definition advance (s : SchedulerV1) : sched_call := CallProposeTransition (flying s) JNull.
Definition commit (cursor : N) (s : SchedulerV1) : sched_call := CallAckTransition (waiting s) cursor 1.
Definition prefix : list (SchedulerV1 → sched_call) :=
  [(λ _, CallSeed 0); claim; advance; commit 1; claim; advance].
Definition script : list (SchedulerV1 → sched_call) := prefix ++ [commit 2; claim].
Definition get (l : list (SchedulerV1 → sched_call)) : SchedulerV1 :=
  default (SchedulerV1_new plan) (run_script l (SchedulerV1_new plan)).
(** Midway, with a loop transition awaiting its commit, and at the end. *)
Definition middle : SchedulerV1 := get prefix.
Definition final : SchedulerV1 := get script.

Lemma plan_wf : PlanWf plan.
Proof.
  assert (is_ok (compile Demo.snapshot (ws_snapshot_hash Demo.snapshot)) = true) as Hok
    by (vm_compute; reflexivity).
  unfold plan, Demo.plan.
  destruct (compile Demo.snapshot (ws_snapshot_hash Demo.snapshot)) as [p|e] eqn:E; [|done].
  apply compile_build, build_plan_wf in E as [Hwf _]. exact Hwf.
Qed.
Lemma plan_fits : loop_bounds_fit plan.
Proof.
  assert (map_Forall (λ _ d, wl_maximum_iterations d < u32_max) (plan_loops plan)) as Hf
    by (apply (bool_decide_unpack _); vm_compute; reflexivity).
  exact Hf.
Qed.
Lemma reach l : is_some (run_script l (SchedulerV1_new plan)) = true → reachable plan (get l).
Proof.
  unfold get. destruct (run_script l _) as [s|] eqn:Hs; [|done]. intros _.
  eapply run_script_reachable; [apply reach_new|exact Hs].
Qed.
Lemma middle_reachable : reachable plan middle.
Proof. apply reach. vm_compute. reflexivity. Qed.
Lemma final_reachable : reachable plan final.
Proof. apply reach. vm_compute. reflexivity. Qed.
Lemma middle_inv : sched_inv middle.
Proof. apply (reachable_facts plan middle plan_wf plan_fits middle_reachable). Qed.
End DemoRun.

(** ** Theorems *)

Section theorems.
Context `{Sha256}.

(** C1: in every state a scheduler can reach from [SchedulerV1::new] on a
    compiled plan, the invariant holds: tokens are keyed by their identity
    and well formed, the ready set holds exactly the ready tokens, a proposal
    is awaited by one token only, a token is completed exactly when its
    proposal is acknowledged, every acknowledged transition has its child
    token, and committed plus pending iterations of each declared loop stay
    within its frozen bound.  A run is of calls whose new token ids, truncated
    digests, are not in use ([no_collision]), on a plan whose loop bounds are
    below [u32::MAX] ([loop_bounds_fit]). *)
Theorem reachable_invariant p s :
  PlanWf p → loop_bounds_fit p → reachable p s → sched_inv s ∧ sc_plan s = p.
Proof. intros Hwf Hw Hr. destruct (reachable_facts p s Hwf Hw Hr) as (? & ? & _). done. Qed.

(** C30: the checkpoint of every reachable scheduler is accepted by [restore]
    and gives back the very same scheduler: no reachable state can produce a
    checkpoint that recovery would refuse or alter (as long as ids do not
    collide and loop bounds are below [u32::MAX]). *)
Theorem checkpoint_restore_roundtrip p s :
  PlanWf p → loop_bounds_fit p → reachable p s → restore p (checkpoint s) = Ok s.
Proof.
  intros Hwf Hw Hr. destruct (reachable_facts p s Hwf Hw Hr) as (Hinv & <- & _).
  by apply restore_complete.
Qed.

(** Whatever checkpoint [restore] accepts, the scheduler it builds
    satisfies the invariant, runs the given plan, and checkpoints to the same
    data up to the order of the vectors: a forged or damaged checkpoint that
    would break an invariant is refused. *)
Theorem restore_establishes_invariant p c s :
  PlanWf p → loop_bounds_fit p → scp_logical_tick c ≤ u64_max → scp_committed_cursor c ≤ u64_max →
  restore p c = Ok s → sched_inv s ∧ sc_plan s = p ∧ same_checkpoint (checkpoint s) c.
Proof. apply restore_sound. Qed.

(** C29: over a whole run, the number of tokens that took or are about to take
    a declared loop never exceeds the frozen bound of that loop, and the
    committed counter is exactly the number of completed traversals (as long
    as ids do not collide and loop bounds are below [u32::MAX]). *)
Theorem loop_traversals_bounded p s d :
  PlanWf p → loop_bounds_fit p → reachable p s → plan_loop_descriptor p (wl_loop_id d) = Some d →
  traversals (wl_loop_id d) (sc_tokens s) ≤ wl_maximum_iterations d
  ∧ default 0 (sc_loop_counts s !! as_str (wl_loop_id d))
    = traversals (wl_loop_id d) (sc_tokens s) - pending_count (sc_tokens s) (wl_loop_id d).
Proof.
  intros Hwf Hw Hr Hd. destruct (reachable_facts p s Hwf Hw Hr) as (Hinv & <- & [Hc _]).
  specialize (Hc (wl_loop_id d)). simpl in Hc. pose proof (si_loop_bound s Hinv d Hd). lia.
Qed.

(** C2: every scheduler call refines the token life cycle: no token
    disappears, tokens move only along ready, in flight, awaiting commit,
    completed, with suspension and cancellation on the side, their identity
    never changes, a proposal is never altered once made, and tokens that
    appear start ready and without a proposal. *)
Theorem run_call_refines c s s' o :
  sched_inv s → run_call c s = (s', Ok o) → no_collision s o →
  store_evolves (sc_tokens s) (sc_tokens s').
Proof. intros Hinv Hc Hf. by apply (micros_evolve (store s) (store s')), (run_call_micro c s s' o). Qed.

(** [claim_next] returns nothing only when nothing is ready, and
    otherwise takes the ready token that is least in the order (logical tick,
    node ordinal, branch lineage, token id), marks it in flight, removes its
    key and changes nothing else. *)
Theorem claim_next_least s s' r :
  sched_inv s → claim_next s = (s', r) →
  match r with
  | None => s' = s ∧ ∀ k t, sc_tokens s !! k = Some t → tk_state t ≠ Ready
  | Some t => ∃ key t0, is_ready_key (sc_node_ordinals s) (sc_tokens s) key
      ∧ sc_tokens s !! rk_token_id key = Some t0 ∧ t = with_state InFlight t0
      ∧ (∀ key', is_ready_key (sc_node_ordinals s) (sc_tokens s) key' → ready_cmp key key' ≠ Gt)
      ∧ s' = set_tokens (<[rk_token_id key := t]> (sc_tokens s))
               (set_ready (sc_ready s ∖ {[key]}) s)
  end.
Proof.
  intros Hinv Hc. destruct (claim_next_cases _ _ _ Hinv Hc)
    as [(-> & -> & Hr)|(key & keys & t & ord & Hr & -> & Ht & Hst & Ho & Hk & ->)].
  - split; [done|]. intros k t Ht Hst. pose proof (si_plan s Hinv) as Hwf.
    destruct (node_ordinals_is_Some _ Hwf (tk_node_id t)) as [o Ho].
    { by eapply valid_node, (si_valid s Hinv). }
    rewrite <-(si_ordinals s Hinv) in Ho. pose proof (si_key s Hinv _ _ Ht) as Hkey.
    assert (ready_key o t ∈ sc_ready s) as Hin; [|rewrite Hr in Hin; set_solver].
    apply (si_ready s Hinv). exists t, o. simpl. by rewrite <-Hkey.
  - exists key, t. split_and!; try done.
    + apply (si_ready s Hinv), elem_of_ready_iter. rewrite Hr. by left.
    + intros key' Hk'%(si_ready s Hinv)%elem_of_ready_iter.
      pose proof (sort_by_sorted ready_cmp (elements (sc_ready s))) as Hs.
      unfold ready_iter in *. rewrite Hr in Hs, Hk'. apply elem_of_cons in Hk' as [->|Hk'].
      * by rewrite (cmp_refl ready_cmp).
      * apply StronglySorted_cons in Hs as [Hall _]. rewrite Forall_forall in Hall.
        specialize (Hall _ Hk'). unfold cmp_leb in Hall. by destruct (ready_cmp key key').
Qed.

(** Acknowledging a transition a second time, at any cursor that does not
    go back, changes nothing and returns the child that the first
    acknowledgement admitted, marked as a duplicate. *)
Theorem acknowledge_transition_idempotent s s' q cur rev child :
  sched_inv s → acknowledge_transition q cur rev s = (s', Ok (MkAck false (Some child))) →
  ∀ cur' rev', cur ≤ cur' →
  acknowledge_transition q cur' rev' s' = (s', Ok (MkAck true (Some child))).
Proof.
  intros Hinv Ha cur' rev' Hcur. destruct (ack_transition_ok _ _ _ _ _ _ Hinv Ha)
    as [(? & _ & _ & _ & [=])|(k & t & tr & ch & o & s1 & _ & _ & _ & _ & _ & _ & _ & [= <-] & _
        & _ & _ & -> & ->)].
  unfold acknowledge_transition, mbind, stm_bind, read, reject_if. simpl.
  rewrite (proj2 (N.ltb_ge _ _)) by done. simpl. rewrite lookup_insert_eq. simpl.
  by rewrite lookup_insert_eq.
Qed.

(** An acknowledgement is admitted only with a cursor past the committed
    one, commits that cursor, and completes exactly the token that awaited
    the proposal; a stale cursor is refused with [CursorRegression]. *)
Theorem acknowledge_transition_commits s q cur rev s' r :
  sched_inv s → acknowledge_transition q cur rev s = (s', r) →
  (cur < sc_committed_cursor s → r = Err SeCursorRegression ∧ s' = s) ∧
  (∀ a, r = Ok a → ack_duplicate a = false →
     sc_committed_cursor s < cur ∧ sc_committed_cursor s' = cur ∧
     ∃ k t, sc_tokens s !! k = Some t ∧ awaits t (as_str q) ∧ tk_state t = AwaitingCommit
       ∧ sc_acknowledged_proposals s' !! as_str q ≠ None
       ∧ (k ≠ default "" (as_str ∘ tk_token_id <$> ack_admitted_token a) →
          sc_tokens s' !! k = Some (with_state Completed t))).
Proof.
  intros Hinv Ha. split.
  - intros Hlt. unfold acknowledge_transition, mbind, stm_bind, read, reject_if in Ha. simpl in Ha.
    rewrite (proj2 (N.ltb_lt _ _)) in Ha by done. simpl in Ha. by simplify_eq.
  - intros a -> Hd. destruct (ack_transition_ok _ _ _ _ _ _ Hinv Ha)
      as [(? & _ & _ & _ & ->)|(k & t & tr & ch & o & s1 & _ & Hc & Ht & Haw & Hst & _ & _ & -> & _
          & _ & _ & -> & ->)]; [done|]. simpl. split_and!; [done|done|].
    exists k, t. rewrite lookup_insert_eq. split_and!; [done..|]. intros Hne.
    by rewrite lookup_insert_ne, lookup_insert_eq.
Qed.
End theorems.

(** A lineage and the branches below it. *)
Definition in_lineage (candidate lineage : string) : Prop :=
  candidate = lineage ∨ ∃ rest, candidate = lineage +:+ "/" +:+ rest.

Lemma lineage_matches_iff candidate lineage :
  lineage_matches candidate lineage = true ↔ in_lineage candidate lineage.
Proof.
  unfold lineage_matches, in_lineage. rewrite orb_true_iff, bool_decide_eq_true.
  destruct (strip_prefix lineage candidate) as [r|] eqn:Hs.
  - apply strip_prefix_Some in Hs as ->. unfold starts_with.
    destruct (strip_prefix "/" r) as [r'|] eqn:Hr.
    + apply strip_prefix_Some in Hr as ->. split; [|auto]. intros _. right. by exists r'.
    + split; [by intros [?|?]; [left|]|]. intros [?|[rest Heq]]; [by left|].
      apply str_app_inj in Heq. subst. simpl in Hr. done.
  - split; [intros [?|?]; [by left|done]|]. intros [?|[rest ->]]; [by left|].
    assert (strip_prefix lineage (lineage +:+ "/" +:+ rest) = Some ("/" +:+ rest)) by
      (by apply strip_prefix_Some). congruence.
Qed.

(** Cancelling a lineage cancels exactly the tokens of that lineage and
    of the branches below it that are ready, in flight or suspended, counts
    them, drops their ready keys, and leaves every other token as it is; in
    particular a token that awaits a commit keeps its proposal. *)
Theorem cancel_lineage_effect lineage s s' n :
  cancel_lineage lineage s = (s', n) →
  (∀ k, sc_tokens s' !! k = cancelled_token lineage <$> sc_tokens s !! k) ∧
  (∀ t, cancelled_token lineage t =
     if bool_decide (tk_state t ∈ [Ready; InFlight; Suspended]) && lineage_matches (tk_branch_lineage t) lineage
     then with_state Cancelled t else t) ∧
  (∀ t, lineage_matches (tk_branch_lineage t) lineage = true ↔ in_lineage (tk_branch_lineage t) lineage) ∧
  (∀ key, key ∈ sc_ready s' ↔ key ∈ sc_ready s ∧ ¬ in_lineage (rk_branch_lineage key) lineage) ∧
  n = count_values (λ t, bool_decide (tk_state t ∈ [Ready; InFlight; Suspended])
                         && lineage_matches (tk_branch_lineage t) lineage) (sc_tokens s).
Proof.
  intros [= <- <-].
  assert (∀ t, cancels lineage t = bool_decide (tk_state t ∈ [Ready; InFlight; Suspended])
    && lineage_matches (tk_branch_lineage t) lineage) as Hc.
  { intros t. unfold cancels. rewrite andb_comm. f_equal. by destruct (tk_state t). }
  split_and!.
  - intros k. simpl. by rewrite lookup_fmap.
  - intros t. unfold cancelled_token. by rewrite Hc.
  - intros t. apply lineage_matches_iff.
  - intros key. simpl. rewrite elem_of_filter, <-lineage_matches_iff, not_true_iff_false. tauto.
  - rewrite <-(map_fmap_id (sc_tokens s)) at 1. apply count_values_fmap. intros k t _. apply Hc.
Qed.

(** A scheduler that satisfies its invariant reports quiescence exactly
    when no token is ready, in flight or awaiting a commit. *)
Theorem is_quiescent_iff s :
  sched_inv s →
  is_quiescent s = true ↔
  ∀ k t, sc_tokens s !! k = Some t → tk_state t ∈ [Completed; Suspended; Cancelled].
Proof.
  intros Hinv. unfold is_quiescent. rewrite andb_true_iff, forallb_forall, bool_decide_eq_true. split.
  - intros [_ Hall] k t Ht. specialize (Hall t). rewrite <-list_elem_of_In, elem_of_bt_values in Hall.
    specialize (Hall ltac:(eauto)). by apply bool_decide_eq_true in Hall.
  - intros Hall. split.
    + apply set_eq. intros key. split; [|set_solver]. intros Hk%(si_ready s Hinv).
      destruct Hk as (t & o & Ht & Hst & _). apply Hall in Ht. rewrite Hst in Ht. set_solver.
    + intros t. rewrite <-list_elem_of_In, elem_of_bt_values. intros [k Ht].
      apply bool_decide_eq_true. eauto.
Qed.

(** ** Witnesses on the demo run *)

Section witnesses.
Import (hints) Demo.

Lemma reachable_invariant_witness :
  reachable DemoRun.plan DemoRun.final ∧ sched_inv DemoRun.final ∧ sc_plan DemoRun.final = DemoRun.plan.
Proof.
  split; [exact DemoRun.final_reachable|].
  exact (reachable_invariant DemoRun.plan DemoRun.final DemoRun.plan_wf DemoRun.plan_fits
           DemoRun.final_reachable).
Defined.

Lemma checkpoint_restore_roundtrip_witness :
  restore DemoRun.plan (checkpoint DemoRun.middle) = Ok DemoRun.middle
  ∧ bt_len (sc_tokens DemoRun.middle) = 2.
Proof.
  split; [|vm_compute; reflexivity].
  exact (checkpoint_restore_roundtrip DemoRun.plan DemoRun.middle DemoRun.plan_wf DemoRun.plan_fits
           DemoRun.middle_reachable).
Defined.

Lemma restore_establishes_invariant_witness : ∃ s,
  restore DemoRun.plan (checkpoint DemoRun.final) = Ok s ∧ sched_inv s.
Proof.
  assert (is_ok (restore DemoRun.plan (checkpoint DemoRun.final)) = true) as Hok
    by (vm_compute; reflexivity).
  destruct (restore DemoRun.plan (checkpoint DemoRun.final)) as [s|e] eqn:E; [|discriminate Hok].
  exists s. split; [reflexivity|].
  apply (restore_establishes_invariant DemoRun.plan (checkpoint DemoRun.final) s
           DemoRun.plan_wf DemoRun.plan_fits); [| |exact E].
  - apply N.leb_le. vm_compute. reflexivity.
  - apply N.leb_le. vm_compute. reflexivity.
Defined.

Lemma loop_traversals_bounded_witness :
  traversals id:"loop" (sc_tokens DemoRun.final) ≤ 2
  ∧ traversals id:"loop" (sc_tokens DemoRun.final) = 1.
Proof.
  split; [|vm_compute; reflexivity].
  apply (loop_traversals_bounded DemoRun.plan DemoRun.final (MkLoop id:"loop" 2 id:"body" id:"body")
           DemoRun.plan_wf DemoRun.plan_fits DemoRun.final_reachable).
  vm_compute. reflexivity.
Defined.

Lemma run_call_refines_witness :
  store_evolves (sc_tokens DemoRun.middle)
    (sc_tokens (run_call (DemoRun.commit 2 DemoRun.middle) DemoRun.middle).1).
Proof.
  assert (match run_call (DemoRun.commit 2 DemoRun.middle) DemoRun.middle with
          | (_, Ok o) => no_collision_b DemoRun.middle o | _ => false end = true) as Hok
    by (vm_compute; reflexivity).
  destruct (run_call (DemoRun.commit 2 DemoRun.middle) DemoRun.middle) as [s [o|e]] eqn:E;
    [|discriminate Hok].
  apply (run_call_refines (DemoRun.commit 2 DemoRun.middle) DemoRun.middle s o DemoRun.middle_inv E).
  by apply no_collision_b_ok.
Defined.

(** The demo scheduler after seeding: one ready token. *)
Definition seeded : SchedulerV1 := DemoRun.get [(λ _, CallSeed 0)].
Lemma seeded_inv : sched_inv seeded.
Proof.
  apply (reachable_facts DemoRun.plan seeded DemoRun.plan_wf DemoRun.plan_fits).
  apply DemoRun.reach. vm_compute. reflexivity.
Qed.

Lemma claim_next_least_witness :
  ∃ t key, (claim_next seeded).2 = Some t ∧ tk_state t = InFlight
    ∧ is_ready_key (sc_node_ordinals seeded) (sc_tokens seeded) key
    ∧ rk_token_id key = as_str (tk_token_id t).
Proof.
  assert (is_some (claim_next seeded).2 = true) as Hok by (vm_compute; reflexivity).
  destruct (claim_next seeded) as [s' [t|]] eqn:E; [|discriminate Hok].
  destruct (claim_next_least seeded s' (Some t) seeded_inv E) as (key & t0 & Hk & Ht & -> & _).
  exists (with_state InFlight t0), key. split_and!; [done..|].
  exact (si_key _ seeded_inv _ _ Ht).
Defined.

Lemma acknowledge_transition_idempotent_witness : ∃ s' child,
  acknowledge_transition (DemoRun.waiting DemoRun.middle) 2 1 DemoRun.middle
    = (s', Ok (MkAck false (Some child)))
  ∧ acknowledge_transition (DemoRun.waiting DemoRun.middle) 5 9 s' = (s', Ok (MkAck true (Some child))).
Proof.
  assert (match acknowledge_transition (DemoRun.waiting DemoRun.middle) 2 1 DemoRun.middle with
          | (_, Ok (MkAck false (Some _))) => true | _ => false end = true) as Hok
    by (vm_compute; reflexivity).
  destruct (acknowledge_transition (DemoRun.waiting DemoRun.middle) 2 1 DemoRun.middle)
    as [s' [[[] [child|]]|e]] eqn:E; try discriminate Hok.
  exists s', child. split; [reflexivity|].
  apply (acknowledge_transition_idempotent DemoRun.middle s' _ 2 1 child DemoRun.middle_inv E). lia.
Defined.

Lemma acknowledge_transition_commits_witness :
  (acknowledge_transition (DemoRun.waiting DemoRun.middle) 0 1 DemoRun.middle).2
  = Err SeCursorRegression.
Proof.
  destruct (acknowledge_transition (DemoRun.waiting DemoRun.middle) 0 1 DemoRun.middle)
    as [s' r] eqn:E.
  destruct (acknowledge_transition_commits DemoRun.middle (DemoRun.waiting DemoRun.middle) 0 1 s' r
              DemoRun.middle_inv E) as [H1 _].
  destruct H1 as [-> _]; [vm_compute; reflexivity|reflexivity].
Defined.

Lemma cancel_lineage_effect_witness :
  (cancel_lineage "root" seeded).2 = 1
  ∧ ∀ key, key ∈ sc_ready (cancel_lineage "root" seeded).1 → ¬ in_lineage (rk_branch_lineage key) "root".
Proof.
  split; [vm_compute; reflexivity|].
  destruct (cancel_lineage_effect "root" seeded _ _ (surjective_pairing _)) as (_ & _ & _ & Hr & _).
  intros key Hin. exact (proj2 (proj1 (Hr key) Hin)).
Defined.

Lemma is_quiescent_iff_witness :
  is_quiescent DemoRun.middle = false
  ∧ ¬ ∀ k t, sc_tokens DemoRun.middle !! k = Some t → tk_state t ∈ [Completed; Suspended; Cancelled].
Proof.
  assert (is_quiescent DemoRun.middle = false) as Hq by (vm_compute; reflexivity).
  split; [exact Hq|]. intros Hall.
  apply (is_quiescent_iff DemoRun.middle DemoRun.middle_inv) in Hall. rewrite Hq in Hall. discriminate Hall.
Defined.

Lemma failed_call_changes_nothing_witness :
  (run_call (CallSuspend id:"nobody") DemoRun.middle).1 = DemoRun.middle.
Proof.
  assert (is_err (run_call (CallSuspend id:"nobody") DemoRun.middle).2 = true) as Herr
    by (vm_compute; reflexivity).
  destruct (run_call (CallSuspend id:"nobody") DemoRun.middle) as [s' [o|e]] eqn:E.
  - discriminate Herr.
  - apply (failed_call_changes_nothing (CallSuspend id:"nobody") DemoRun.middle s' e
             DemoRun.middle_inv); [|exact E]. apply N.leb_le. vm_compute. reflexivity.
Defined.
End witnesses.
