(* ===== verification/Limits.v ===== *)
(** * Execution limits ([crates/aworkit-workflow-worker/src/limits.rs])

    Definitions: the compatibility [LimitController] and the hierarchical
    [LimitLedger] of scopes, reservations, charges and loop counters. *)
From S2P Require Export Prelude.

Inductive LimitError : Type :=
| Exhausted
| DeadlineExceeded
| InvalidReservation
| UnknownScope (scope : string)
| DuplicateId (i : string)
| UnknownReservation (reservation : string)
| ReservationExceeded
| StructuralLimit
| Overflow
| DeadlineExtension.

(** ** [LimitController] *)

Record Budget : Type := MkCompatBudget { bg_turns : N; bg_attempts : N; bg_deadline_tick : N }.
Record Reservation : Type := MkReservation { rv_turns : N; rv_attempts : N }.
Record LimitController : Type := MkController { lc_remaining : Budget; lc_tick : N }.

Definition LimitController_new (budget : Budget) : LimitController := MkController budget 0.
Definition ensure_before_deadline (c : LimitController) : result LimitError () :=
  if bg_deadline_tick (lc_remaining c) <=? lc_tick c then Err DeadlineExceeded else Ok ().
Definition controller_remaining (c : LimitController) : Budget := lc_remaining c.
Definition controller_reserve (r : Reservation) : stm LimitController LimitError () :=
  c ← read;
  _ ← reject_if ((rv_turns r =? 0) && (rv_attempts r =? 0)) InvalidReservation;
  _ ← lift (ensure_before_deadline c);
  _ ← reject_if ((bg_turns (lc_remaining c) <? rv_turns r)
                 || (bg_attempts (lc_remaining c) <? rv_attempts r)) Exhausted;
  modify (λ c, MkController (MkCompatBudget (bg_turns (lc_remaining c) - rv_turns r)
                               (bg_attempts (lc_remaining c) - rv_attempts r)
                               (bg_deadline_tick (lc_remaining c))) (lc_tick c)).
Definition controller_advance : stm LimitController LimitError () :=
  c ← read;
  tick ← lift (ok_or (checked_add u64_max (lc_tick c) 1) Overflow);
  _ ← modify (λ c, MkController (lc_remaining c) tick);
  c ← read;
  lift (ensure_before_deadline c).

(** ** Envelopes and usage *)

Record Usage : Type := MkUsage {
  us_turns : N; us_attempts : N; us_tool_calls : N; us_tokens : N; us_cost_micros : N; us_actions : N
}.
Record BudgetEnvelope : Type := MkEnvelope10 {
  be_turns : N; be_attempts : N; be_tool_calls : N; be_tokens : N; be_cost_micros : N; be_actions : N;
  be_max_depth : N; be_max_fan_out : N; be_max_parallel : N; be_deadline_tick : N
}.
#[export] Instance Usage_eq_dec : EqDecision Usage.
Proof. solve_decision. Defined.
#[export] Instance BudgetEnvelope_eq_dec : EqDecision BudgetEnvelope.
Proof. solve_decision. Defined.

Definition component_min (a b : BudgetEnvelope) : BudgetEnvelope :=
  MkEnvelope10 (N.min (be_turns a) (be_turns b)) (N.min (be_attempts a) (be_attempts b))
    (N.min (be_tool_calls a) (be_tool_calls b)) (N.min (be_tokens a) (be_tokens b))
    (N.min (be_cost_micros a) (be_cost_micros b)) (N.min (be_actions a) (be_actions b))
    (N.min (be_max_depth a) (be_max_depth b)) (N.min (be_max_fan_out a) (be_max_fan_out b))
    (N.min (be_max_parallel a) (be_max_parallel b)) (N.min (be_deadline_tick a) (be_deadline_tick b)).

Definition envelope_checked_sub (b : BudgetEnvelope) (u : Usage) : result LimitError BudgetEnvelope :=
  turns ← ok_or (checked_sub (be_turns b) (us_turns u)) Exhausted;
  attempts ← ok_or (checked_sub (be_attempts b) (us_attempts u)) Exhausted;
  tool_calls ← ok_or (checked_sub (be_tool_calls b) (us_tool_calls u)) Exhausted;
  tokens ← ok_or (checked_sub (be_tokens b) (us_tokens u)) Exhausted;
  cost_micros ← ok_or (checked_sub (be_cost_micros b) (us_cost_micros u)) Exhausted;
  actions ← ok_or (checked_sub (be_actions b) (us_actions u)) Exhausted;
  Ok (MkEnvelope10 turns attempts tool_calls tokens cost_micros actions
        (be_max_depth b) (be_max_fan_out b) (be_max_parallel b) (be_deadline_tick b)).

Definition checked_add_usage (b : BudgetEnvelope) (u : Usage) : result LimitError BudgetEnvelope :=
  turns ← ok_or (checked_add u64_max (be_turns b) (us_turns u)) Overflow;
  attempts ← ok_or (checked_add u64_max (be_attempts b) (us_attempts u)) Overflow;
  tool_calls ← ok_or (checked_add u64_max (be_tool_calls b) (us_tool_calls u)) Overflow;
  tokens ← ok_or (checked_add u64_max (be_tokens b) (us_tokens u)) Overflow;
  cost_micros ← ok_or (checked_add u64_max (be_cost_micros b) (us_cost_micros u)) Overflow;
  actions ← ok_or (checked_add u64_max (be_actions b) (us_actions u)) Overflow;
  Ok (MkEnvelope10 turns attempts tool_calls tokens cost_micros actions
        (be_max_depth b) (be_max_fan_out b) (be_max_parallel b) (be_deadline_tick b)).

Definition usage_is_zero (u : Usage) : bool :=
  (us_turns u =? 0) && (us_attempts u =? 0) && (us_tool_calls u =? 0) && (us_tokens u =? 0)
  && (us_cost_micros u =? 0) && (us_actions u =? 0).
Definition usage_contains (r actual : Usage) : bool :=
  (us_turns actual <=? us_turns r) && (us_attempts actual <=? us_attempts r)
  && (us_tool_calls actual <=? us_tool_calls r) && (us_tokens actual <=? us_tokens r)
  && (us_cost_micros actual <=? us_cost_micros r) && (us_actions actual <=? us_actions r).
Definition usage_checked_sub (r actual : Usage) : result LimitError Usage :=
  turns ← ok_or (checked_sub (us_turns r) (us_turns actual)) Overflow;
  attempts ← ok_or (checked_sub (us_attempts r) (us_attempts actual)) Overflow;
  tool_calls ← ok_or (checked_sub (us_tool_calls r) (us_tool_calls actual)) Overflow;
  tokens ← ok_or (checked_sub (us_tokens r) (us_tokens actual)) Overflow;
  cost_micros ← ok_or (checked_sub (us_cost_micros r) (us_cost_micros actual)) Overflow;
  actions ← ok_or (checked_sub (us_actions r) (us_actions actual)) Overflow;
  Ok (MkUsage turns attempts tool_calls tokens cost_micros actions).

(** ** The ledger *)

Record ReservationRecord : Type := MkReservationRecord {
  rr_reservation_id : string; rr_scope_id : string; rr_reserved : Usage
}.
Record BudgetScope : Type := MkScope {
  bs_parent : option string; bs_depth : N; bs_remaining : BudgetEnvelope;
  bs_active_children : N; bs_active_parallel : N
}.
Record BudgetScopeCheckpoint : Type := MkScopeCheckpoint {
  bc_scope_id : string; bc_parent_scope_id : option string; bc_depth : N;
  bc_remaining : BudgetEnvelope; bc_active_children : N; bc_active_parallel : N
}.
Record LimitCheckpoint : Type := MkLimitCheckpoint {
  lk_current_tick : N;
  lk_scopes : list BudgetScopeCheckpoint;
  lk_reservations : list ReservationRecord;
  lk_charge_ids : list string;
  lk_loop_iterations : list (string * N)
}.
Record LimitLedger : Type := MkLedger {
  ll_tick : N;
  ll_scopes : gmap string BudgetScope;
  ll_reservations : gmap string ReservationRecord;
  ll_charge_ids : gset string;
  ll_loop_iterations : gmap string N
}.

Definition set_scopes m l :=
  MkLedger (ll_tick l) m (ll_reservations l) (ll_charge_ids l) (ll_loop_iterations l).
Definition set_reservations m l :=
  MkLedger (ll_tick l) (ll_scopes l) m (ll_charge_ids l) (ll_loop_iterations l).
Definition set_charge_ids m l :=
  MkLedger (ll_tick l) (ll_scopes l) (ll_reservations l) m (ll_loop_iterations l).
Definition set_loop_iterations m l :=
  MkLedger (ll_tick l) (ll_scopes l) (ll_reservations l) (ll_charge_ids l) m.
Definition set_tick t l :=
  MkLedger t (ll_scopes l) (ll_reservations l) (ll_charge_ids l) (ll_loop_iterations l).
Definition with_remaining b sc :=
  MkScope (bs_parent sc) (bs_depth sc) b (bs_active_children sc) (bs_active_parallel sc).
Definition with_active_children n sc :=
  MkScope (bs_parent sc) (bs_depth sc) (bs_remaining sc) n (bs_active_parallel sc).
Definition with_active_parallel n sc :=
  MkScope (bs_parent sc) (bs_depth sc) (bs_remaining sc) (bs_active_children sc) n.
Definition with_deadline t b :=
  MkEnvelope10 (be_turns b) (be_attempts b) (be_tool_calls b) (be_tokens b) (be_cost_micros b)
    (be_actions b) (be_max_depth b) (be_max_fan_out b) (be_max_parallel b) t.

Definition validate_logical_id (value : string) : result LimitError () :=
  fail_if (str_is_empty value || (128 <? str_len value)
           || negb (all_bytes (λ b, is_ascii_alphanumeric b || (b =? 46) || (b =? 95)
                                    || (b =? 45) || (b =? 58)) value)) InvalidReservation.

(** [scope_lineage]: from a scope to the root.  Each turn of the loop visits
    a scope not seen before, so one turn more than there are scopes suffices;
    running out of turns is a repeated scope. *)
Fixpoint lineage_from (fuel : nat) (scopes : gmap string BudgetScope) (seen : gset string)
    (i : string) : result LimitError (list string) :=
  match fuel with
  | O => Err InvalidReservation
  | S fuel =>
      if bs_contains seen i then Err InvalidReservation
      else match scopes !! i with
           | None => Err (UnknownScope i)
           | Some sc =>
               match bs_parent sc with
               | None => Ok [i]
               | Some parent =>
                   rest ← lineage_from fuel scopes ({[i]} ∪ seen) parent; Ok (i :: rest)
               end
           end
  end.
Definition scope_lineage (scopes : gmap string BudgetScope) (scope_id : string) :
    result LimitError (list string) :=
  lineage_from (S (size scopes)) scopes ∅ scope_id.

Definition LimitLedger_new (root_scope_id : string) (budget : BudgetEnvelope) :
    result LimitError LimitLedger :=
  _ ← validate_logical_id root_scope_id;
  Ok (MkLedger 0 {[root_scope_id := MkScope None 0 budget 0 0]} ∅ ∅ ∅).

Definition create_child (scope_id parent_scope_id : string) (configured : BudgetEnvelope) :
    stm LimitLedger LimitError () :=
  _ ← lift (validate_logical_id scope_id);
  l ← read;
  _ ← reject_if (bt_contains (ll_scopes l) scope_id) (DuplicateId scope_id);
  parent ← lift (ok_or (ll_scopes l !! parent_scope_id) (UnknownScope parent_scope_id));
  depth ← lift (ok_or (checked_add u32_max (bs_depth parent) 1) Overflow);
  _ ← reject_if ((be_max_depth (bs_remaining parent) <? depth)
                 || (be_max_fan_out (bs_remaining parent) <=? bs_active_children parent))
        StructuralLimit;
  _ ← modify (λ l, set_scopes (<[parent_scope_id :=
                     with_active_children (bs_active_children parent + 1) parent]> (ll_scopes l)) l);
  modify (λ l, set_scopes (<[scope_id := MkScope (Some parent_scope_id) depth
                 (component_min configured (bs_remaining parent)) 0 0]> (ll_scopes l)) l).

Definition can_close_child (l : LimitLedger) (scope_id : string) : result LimitError () :=
  scope ← ok_or (ll_scopes l !! scope_id) (UnknownScope scope_id);
  match bs_parent scope with
  | None => Err InvalidReservation
  | Some _ =>
      fail_if (existsb (λ r, bool_decide (rr_scope_id r = scope_id)) (bt_values (ll_reservations l))
               || existsb (λ c, bool_decide (bs_parent c = Some scope_id)) (bt_values (ll_scopes l)))
        InvalidReservation
  end.

(** Closing removes the scope, then decrements the parent. *)
Definition close_child (scope_id : string) : stm LimitLedger LimitError () :=
  l ← read;
  _ ← lift (can_close_child l scope_id);
  scope ← lift (ok_or (ll_scopes l !! scope_id) (UnknownScope scope_id));
  _ ← modify (λ l, set_scopes (delete scope_id (ll_scopes l)) l);
  match bs_parent scope with
  | None => mret ()
  | Some parent_id =>
      l ← read;
      parent ← lift (ok_or (ll_scopes l !! parent_id) (UnknownScope parent_id));
      modify (λ l, set_scopes (<[parent_id := with_active_children
                     (saturating_sub (bs_active_children parent) 1) parent]> (ll_scopes l)) l)
  end.

(** The read-only loop of [reserve] over the lineage. *)
Definition admit_scope (l : LimitLedger) (usage : Usage) (ancestor : string) : result LimitError () :=
  scope ← ok_or (ll_scopes l !! ancestor) (UnknownScope ancestor);
  _ ← fail_if (be_deadline_tick (bs_remaining scope) <=? ll_tick l) DeadlineExceeded;
  _ ← envelope_checked_sub (bs_remaining scope) usage;
  Ok ().

(** [for a in lineage { scope(a).remaining = f(scope(a).remaining)?; }]: the
    scopes updated before a failure stay updated. *)
Fixpoint update_remaining (f : BudgetEnvelope → result LimitError BudgetEnvelope)
    (lineage : list string) : stm LimitLedger LimitError () :=
  match lineage with
  | [] => mret ()
  | ancestor :: lineage =>
      l ← read;
      scope ← lift (ok_or (ll_scopes l !! ancestor) (UnknownScope ancestor));
      remaining ← lift (f (bs_remaining scope));
      _ ← modify (λ l, set_scopes (<[ancestor := with_remaining remaining scope]> (ll_scopes l)) l);
      update_remaining f lineage
  end.

Definition reserve (scope_id reservation_id : string) (usage : Usage) : stm LimitLedger LimitError () :=
  _ ← lift (validate_logical_id reservation_id);
  _ ← reject_if (usage_is_zero usage) InvalidReservation;
  l ← read;
  _ ← reject_if (bt_contains (ll_reservations l) reservation_id
                 || bs_contains (ll_charge_ids l) reservation_id) (DuplicateId reservation_id);
  lineage ← lift (scope_lineage (ll_scopes l) scope_id);
  _ ← lift (for_each (admit_scope l usage) lineage);
  _ ← update_remaining (λ b, envelope_checked_sub b usage) lineage;
  modify (λ l, set_reservations (<[reservation_id := MkReservationRecord reservation_id scope_id usage]>
                                   (ll_reservations l)) l).

Definition charge (reservation_id charge_id : string) (actual : Usage) : stm LimitLedger LimitError () :=
  _ ← lift (validate_logical_id charge_id);
  l ← read;
  if bs_contains (ll_charge_ids l) charge_id then mret () else
  reservation ← lift (ok_or (ll_reservations l !! reservation_id) (UnknownReservation reservation_id));
  _ ← modify (λ l, set_reservations (delete reservation_id (ll_reservations l)) l);
  if negb (usage_contains (rr_reserved reservation) actual) then
    _ ← modify (λ l, set_reservations (<[rr_reservation_id reservation := reservation]>
                                         (ll_reservations l)) l);
    throw ReservationExceeded
  else
    unused ← lift (usage_checked_sub (rr_reserved reservation) actual);
    l ← read;
    lineage ← lift (scope_lineage (ll_scopes l) (rr_scope_id reservation));
    _ ← update_remaining (λ b, checked_add_usage b unused) lineage;
    modify (λ l, set_charge_ids ({[charge_id]} ∪ ll_charge_ids l) l).

Definition release (reservation_id : string) : stm LimitLedger LimitError () :=
  l ← read;
  reservation ← lift (ok_or (ll_reservations l !! reservation_id) (UnknownReservation reservation_id));
  _ ← modify (λ l, set_reservations (delete reservation_id (ll_reservations l)) l);
  l ← read;
  lineage ← lift (scope_lineage (ll_scopes l) (rr_scope_id reservation));
  update_remaining (λ b, checked_add_usage b (rr_reserved reservation)) lineage.

Definition scope_before_deadline (l : LimitLedger) (scope_id : string) : result LimitError BudgetScope :=
  scope ← ok_or (ll_scopes l !! scope_id) (UnknownScope scope_id);
  _ ← fail_if (be_deadline_tick (bs_remaining scope) <=? ll_tick l) DeadlineExceeded;
  Ok scope.

Definition enter_parallel (scope_id : string) : stm LimitLedger LimitError () :=
  l ← read;
  scope ← lift (scope_before_deadline l scope_id);
  _ ← reject_if (be_max_parallel (bs_remaining scope) <=? bs_active_parallel scope) StructuralLimit;
  modify (λ l, set_scopes (<[scope_id := with_active_parallel (bs_active_parallel scope + 1) scope]>
                             (ll_scopes l)) l).

Definition leave_parallel (scope_id : string) : stm LimitLedger LimitError () :=
  l ← read;
  scope ← lift (ok_or (ll_scopes l !! scope_id) (UnknownScope scope_id));
  modify (λ l, set_scopes (<[scope_id := with_active_parallel
                 (saturating_sub (bs_active_parallel scope) 1) scope]> (ll_scopes l)) l).

Definition loop_key (scope_id loop_id : string) : string := scope_id +:+ ":" +:+ loop_id.
Definition next_loop_iteration (scope_id loop_id : string) (maximum : N) : stm LimitLedger LimitError N :=
  l ← read;
  _ ← lift (scope_before_deadline l scope_id);
  _ ← reject_if (maximum =? 0) StructuralLimit;
  let key := loop_key scope_id loop_id in
  let current := default 0 (ll_loop_iterations l !! key) in
  _ ← reject_if (maximum <=? current) Exhausted;
  next ← lift (ok_or (checked_add u32_max current 1) Overflow);
  _ ← modify (λ l, set_loop_iterations (<[key := next]> (ll_loop_iterations l)) l);
  mret next.

Definition advance_to (tick : N) : stm LimitLedger LimitError () :=
  l ← read;
  _ ← reject_if (tick <? ll_tick l) DeadlineExtension;
  _ ← modify (set_tick tick);
  reject_if (existsb (λ sc, be_deadline_tick (bs_remaining sc) <=? tick) (bt_values (ll_scopes l)))
    DeadlineExceeded.

Definition remaining (l : LimitLedger) (scope_id : string) : option BudgetEnvelope :=
  bs_remaining <$> ll_scopes l !! scope_id.

(** ** Checkpoint and restore *)

Definition limit_checkpoint (l : LimitLedger) : LimitCheckpoint :=
  MkLimitCheckpoint (ll_tick l)
    ((λ '(i, sc), MkScopeCheckpoint i (bs_parent sc) (bs_depth sc)
        (with_deadline (saturating_sub (be_deadline_tick (bs_remaining sc)) (ll_tick l)) (bs_remaining sc))
        (bs_active_children sc) (bs_active_parallel sc)) <$> bt_iter (ll_scopes l))
    (bt_values (ll_reservations l)) (bt_elems (ll_charge_ids l)) (bt_iter (ll_loop_iterations l)).

Definition restore_scope (new_tick : N) (scopes : gmap string BudgetScope) (saved : BudgetScopeCheckpoint) :
    result LimitError (gmap string BudgetScope) :=
  _ ← validate_logical_id (bc_scope_id saved);
  deadline_tick ← ok_or (checked_add u64_max new_tick (be_deadline_tick (bc_remaining saved))) Overflow;
  Ok (<[bc_scope_id saved := MkScope (bc_parent_scope_id saved) (bc_depth saved)
          (with_deadline deadline_tick (bc_remaining saved))
          (bc_active_children saved) (bc_active_parallel saved)]> scopes).

Definition restore_check_scope (new_tick : N) (scopes : gmap string BudgetScope) (scope : BudgetScope) :
    result LimitError () :=
  _ ← match bs_parent scope with
      | Some parent => fail_if (negb (bt_contains scopes parent)) (UnknownScope parent)
      | None => Ok ()
      end;
  _ ← fail_if (be_max_parallel (bs_remaining scope) <? bs_active_parallel scope) StructuralLimit;
  fail_if (be_deadline_tick (bs_remaining scope) <=? new_tick) DeadlineExceeded.

Definition children_count (scopes : gmap string BudgetScope) (scope_id : string) : N :=
  count_values (λ c, bool_decide (bs_parent c = Some scope_id)) scopes.

Definition restore_check_tree (scopes : gmap string BudgetScope) (entry : string * BudgetScope) :
    result LimitError () :=
  let '(scope_id, scope) := entry in
  _ ← fail_if (negb (children_count scopes scope_id =? bs_active_children scope)) StructuralLimit;
  _ ← fail_if (be_max_fan_out (bs_remaining scope) <? bs_active_children scope) StructuralLimit;
  match bs_parent scope with
  | Some parent_id =>
      parent ← ok_or (scopes !! parent_id) (UnknownScope parent_id);
      fail_if (negb (bs_depth scope =? saturating_add u32_max (bs_depth parent) 1)
               || (be_max_depth (bs_remaining parent) <? bs_depth scope)) StructuralLimit
  | None => fail_if (negb (bs_depth scope =? 0)) StructuralLimit
  end.

Definition restore_reservation (scopes : gmap string BudgetScope)
    (reservations : gmap string ReservationRecord) (record : ReservationRecord) :
    result LimitError (gmap string ReservationRecord) :=
  _ ← validate_logical_id (rr_reservation_id record);
  if negb (bt_contains scopes (rr_scope_id record)) || usage_is_zero (rr_reserved record)
     || bt_contains reservations (rr_reservation_id record)
  then Err InvalidReservation
  else Ok (<[rr_reservation_id record := record]> reservations).

Definition bad_loop_entry (scopes : gmap string BudgetScope) (entry : string * N) : bool :=
  (entry.2 =? 0)
  || match split_once ":"%char entry.1 with
     | None => true
     | Some (scope_id, loop_id) =>
         negb (bt_contains scopes scope_id) || is_err (validate_logical_id loop_id)
     end.

(** Collecting an iterator of pairs into a map: later entries win. *)
Definition collect_map {V} (l : list (string * V)) : gmap string V :=
  foldl (λ m kv, <[kv.1 := kv.2]> m) ∅ l.

Definition limit_restore (c : LimitCheckpoint) (new_tick : N) : result LimitError LimitLedger :=
  scopes ← fold_res (restore_scope new_tick) ∅ (lk_scopes c);
  _ ← for_each (restore_check_scope new_tick scopes) (bt_values scopes);
  _ ← fail_if (negb (count_values (λ sc, bool_decide (bs_parent sc = None)) scopes =? 1)) StructuralLimit;
  _ ← for_each (restore_check_tree scopes) (bt_iter scopes);
  reservations ← fold_res (restore_reservation scopes) ∅ (lk_reservations c);
  let charge_ids : gset string := list_to_set (lk_charge_ids c) in
  _ ← fail_if (negb (bs_len charge_ids =? len (lk_charge_ids c))
               || existsb (λ i, is_err (validate_logical_id i) || bt_contains reservations i)
                    (bt_elems charge_ids)) InvalidReservation;
  let loop_iterations := collect_map (lk_loop_iterations c) in
  _ ← fail_if (negb (bt_len loop_iterations =? len (lk_loop_iterations c))
               || existsb (bad_loop_entry scopes) (bt_iter loop_iterations)) InvalidReservation;
  Ok (MkLedger new_tick scopes reservations charge_ids loop_iterations).
