(* ===== verification/LimitsOps.v ===== *)
(** * The ledger's invariant

    Scopes form a tree, and every scope holds, in each of the six metered
    dimensions, at most what remains once all outstanding reservations below
    it are given back ([headroom]).  The second part: what the operations of
    the ledger do to the invariant and the headroom; [ledger_inv] is kept by
    every operation ([LimitsProofs]). *)
From S2P Require Export Limits.

(** * The invariant *)

(** ** Dimensions *)

Inductive dim : Type := Turns | Attempts | ToolCalls | Tokens | CostMicros | Actions.
Definition u_get (d : dim) (u : Usage) : N :=
  match d with
  | Turns => us_turns u | Attempts => us_attempts u | ToolCalls => us_tool_calls u
  | Tokens => us_tokens u | CostMicros => us_cost_micros u | Actions => us_actions u
  end.
Definition b_get (d : dim) (b : BudgetEnvelope) : N :=
  match d with
  | Turns => be_turns b | Attempts => be_attempts b | ToolCalls => be_tool_calls b
  | Tokens => be_tokens b | CostMicros => be_cost_micros b | Actions => be_actions b
  end.
(** The limits no reservation changes. *)
Definition frozen (b : BudgetEnvelope) : N * N * N * N :=
  (be_max_depth b, be_max_fan_out b, be_max_parallel b, be_deadline_tick b).

Lemma envelope_ext a b : (∀ d, b_get d a = b_get d b) → frozen a = frozen b → a = b.
Proof.
  intros Hd Hf. pose proof (Hd Turns). pose proof (Hd Attempts). pose proof (Hd ToolCalls).
  pose proof (Hd Tokens). pose proof (Hd CostMicros). pose proof (Hd Actions).
  destruct a, b; simpl in *; unfold frozen in Hf; simplify_eq/=. congruence.
Qed.

Lemma checked_sub_Some a b c : checked_sub a b = Some c ↔ b ≤ a ∧ c = a - b.
Proof. unfold checked_sub. destruct (b <=? a) eqn:E; boolify; split; [naive_solver|naive_solver|done|lia]. Qed.
Lemma checked_add_Some m a b c : checked_add m a b = Some c ↔ a + b ≤ m ∧ c = a + b.
Proof. unfold checked_add. destruct (a + b <=? m) eqn:E; boolify; split; [naive_solver|naive_solver|done|lia]. Qed.

Lemma envelope_sub_ok b u b' :
  envelope_checked_sub b u = Ok b' ↔
  (∀ d, u_get d u ≤ b_get d b ∧ b_get d b' = b_get d b - u_get d u) ∧ frozen b' = frozen b.
Proof.
  unfold envelope_checked_sub. split.
  - intros Hs. res_inv Hs. rewrite !checked_sub_Some in *. split; [|done].
    intros []; simpl; naive_solver.
  - intros [Hd Hf].
    assert (∀ d, checked_sub (b_get d b) (u_get d u) = Some (b_get d b')) as Hs
      by (intros d; apply checked_sub_Some, Hd).
    rewrite (Hs Turns : checked_sub (be_turns b) (us_turns u) = _), (Hs Attempts : checked_sub (be_attempts b) (us_attempts u) = _),
      (Hs ToolCalls : checked_sub (be_tool_calls b) (us_tool_calls u) = _), (Hs Tokens : checked_sub (be_tokens b) (us_tokens u) = _),
      (Hs CostMicros : checked_sub (be_cost_micros b) (us_cost_micros u) = _), (Hs Actions : checked_sub (be_actions b) (us_actions u) = _).
    simpl. f_equal. unfold frozen in Hf. destruct b'; simpl in *. congruence.
Qed.

Lemma envelope_add_ok b u b' :
  checked_add_usage b u = Ok b' ↔
  (∀ d, b_get d b + u_get d u ≤ u64_max ∧ b_get d b' = b_get d b + u_get d u) ∧ frozen b' = frozen b.
Proof.
  unfold checked_add_usage. split.
  - intros Hs. res_inv Hs. rewrite !checked_add_Some in *. split; [|done].
    intros []; simpl; naive_solver.
  - intros [Hd Hf].
    assert (∀ d, checked_add u64_max (b_get d b) (u_get d u) = Some (b_get d b')) as Hs
      by (intros d; apply checked_add_Some, Hd).
    rewrite (Hs Turns : checked_add u64_max (be_turns b) (us_turns u) = _), (Hs Attempts : checked_add u64_max (be_attempts b) (us_attempts u) = _),
      (Hs ToolCalls : checked_add u64_max (be_tool_calls b) (us_tool_calls u) = _), (Hs Tokens : checked_add u64_max (be_tokens b) (us_tokens u) = _),
      (Hs CostMicros : checked_add u64_max (be_cost_micros b) (us_cost_micros u) = _), (Hs Actions : checked_add u64_max (be_actions b) (us_actions u) = _).
    simpl. f_equal. unfold frozen in Hf. destruct b'; simpl in *. congruence.
Qed.

Lemma envelope_sub_is_ok b u : (∀ d, u_get d u ≤ b_get d b) → ∃ b', envelope_checked_sub b u = Ok b'.
Proof.
  intros Hd. exists (MkEnvelope10 (be_turns b - us_turns u) (be_attempts b - us_attempts u)
    (be_tool_calls b - us_tool_calls u) (be_tokens b - us_tokens u)
    (be_cost_micros b - us_cost_micros u) (be_actions b - us_actions u)
    (be_max_depth b) (be_max_fan_out b) (be_max_parallel b) (be_deadline_tick b)).
  apply envelope_sub_ok. split; [|done]. intros d. split; [apply Hd|]. by destruct d.
Qed.

Lemma envelope_add_is_ok b u :
  (∀ d, b_get d b + u_get d u ≤ u64_max) → ∃ b', checked_add_usage b u = Ok b'.
Proof.
  intros Hd. exists (MkEnvelope10 (be_turns b + us_turns u) (be_attempts b + us_attempts u)
    (be_tool_calls b + us_tool_calls u) (be_tokens b + us_tokens u)
    (be_cost_micros b + us_cost_micros u) (be_actions b + us_actions u)
    (be_max_depth b) (be_max_fan_out b) (be_max_parallel b) (be_deadline_tick b)).
  apply envelope_add_ok. split; [|done]. intros d. split; [apply Hd|]. by destruct d.
Qed.

Lemma usage_contains_iff r a : usage_contains r a = true ↔ ∀ d, u_get d a ≤ u_get d r.
Proof.
  unfold usage_contains. rewrite !andb_true_iff, !N.leb_le. split.
  - intros Hall []; simpl; naive_solver.
  - intros Hd. pose proof (Hd Turns). pose proof (Hd Attempts). pose proof (Hd ToolCalls).
    pose proof (Hd Tokens). pose proof (Hd CostMicros). pose proof (Hd Actions). done.
Qed.

Lemma usage_sub_ok r a u :
  usage_checked_sub r a = Ok u → ∀ d, u_get d a ≤ u_get d r ∧ u_get d u = u_get d r - u_get d a.
Proof.
  unfold usage_checked_sub. intros Hs. res_inv Hs. rewrite !checked_sub_Some in *.
  intros []; simpl; naive_solver.
Qed.

Lemma usage_sub_is_ok r a : (∀ d, u_get d a ≤ u_get d r) → ∃ u, usage_checked_sub r a = Ok u.
Proof.
  intros Hd. exists (MkUsage (us_turns r - us_turns a) (us_attempts r - us_attempts a)
    (us_tool_calls r - us_tool_calls a) (us_tokens r - us_tokens a)
    (us_cost_micros r - us_cost_micros a) (us_actions r - us_actions a)).
  unfold usage_checked_sub.
  assert (∀ d, checked_sub (u_get d r) (u_get d a) = Some (u_get d r - u_get d a)) as Hs
    by (intros d; apply checked_sub_Some; split; [apply Hd|done]).
  rewrite (Hs Turns : checked_sub (us_turns r) (us_turns a) = _), (Hs Attempts : checked_sub (us_attempts r) (us_attempts a) = _),
    (Hs ToolCalls : checked_sub (us_tool_calls r) (us_tool_calls a) = _), (Hs Tokens : checked_sub (us_tokens r) (us_tokens a) = _),
    (Hs CostMicros : checked_sub (us_cost_micros r) (us_cost_micros a) = _), (Hs Actions : checked_sub (us_actions r) (us_actions a) = _).
  done.
Qed.

(** ** Lineages *)

Inductive is_lineage (scopes : gmap string BudgetScope) : string → list string → Prop :=
| lin_root i sc : scopes !! i = Some sc → bs_parent sc = None → is_lineage scopes i [i]
| lin_child i sc p l :
    scopes !! i = Some sc → bs_parent sc = Some p → is_lineage scopes p l →
    is_lineage scopes i (i :: l).

Lemma lineage_det scopes i l l' : is_lineage scopes i l → is_lineage scopes i l' → l = l'.
Proof.
  intros H. revert l'. induction H as [i sc Hi Hp|i sc p l Hi Hp _ IH]; intros l' Hl';
    inversion Hl' as [? sc' Hi' Hp'|? sc' p' l'' Hi' Hp' Hl'']; simplify_eq; [done|].
  f_equal. auto.
Qed.

Lemma lineage_suffix scopes i l j :
  is_lineage scopes i l → j ∈ l → ∃ l', is_lineage scopes j l' ∧ (length l' ≤ length l)%nat.
Proof.
  induction 1 as [i sc Hi Hp|i sc p l Hi Hp Hl IH]; intros Hj.
  - apply list_elem_of_singleton in Hj as ->. exists [i]. split; [by eapply lin_root|done].
  - apply elem_of_cons in Hj as [->|Hj]; [exists (i :: l); split; [by eapply lin_child|done]|].
    destruct (IH Hj) as (l' & Hl' & Hlen). exists l'. split; [done|simpl; lia].
Qed.

Lemma lineage_NoDup scopes i l : is_lineage scopes i l → NoDup l.
Proof.
  induction 1 as [i sc Hi Hp|i sc p l Hi Hp Hl IH]; [apply NoDup_singleton|].
  constructor; [|done]. intros Hin. destruct (lineage_suffix _ _ _ _ Hl Hin) as (l' & Hl' & Hlen).
  assert (is_lineage scopes i (i :: l)) as Hil by (by eapply lin_child).
  rewrite (lineage_det _ _ _ _ Hl' Hil) in Hlen. simpl in Hlen. lia.
Qed.

Lemma lineage_in_scopes scopes i l j : is_lineage scopes i l → j ∈ l → is_Some (scopes !! j).
Proof.
  induction 1 as [i sc Hi Hp|i sc p l Hi Hp Hl IH]; intros Hj.
  - apply list_elem_of_singleton in Hj as ->. eauto.
  - apply elem_of_cons in Hj as [->|Hj]; eauto.
Qed.

Lemma lineage_from_sound fuel scopes seen i l :
  lineage_from fuel scopes seen i = Ok l → is_lineage scopes i l.
Proof.
  revert seen i l. induction fuel as [|fuel IH]; intros seen i l; simpl; [done|].
  destruct (bs_contains seen i); [done|]. destruct (scopes !! i) as [sc|] eqn:Hi; [|done].
  destruct (bs_parent sc) as [p|] eqn:Hp.
  - intros Hl. res_inv Hl. eapply lin_child; eauto.
  - intros [= <-]. by eapply lin_root.
Qed.

Lemma lineage_from_complete fuel scopes seen i l :
  is_lineage scopes i l → (length l ≤ fuel)%nat → (∀ j, j ∈ l → j ∉ seen) →
  lineage_from fuel scopes seen i = Ok l.
Proof.
  intros Hl. revert fuel seen. induction Hl as [i sc Hi Hp|i sc p l Hi Hp Hl IH];
    intros [|fuel] seen Hlen Hseen; simpl in Hlen; try lia; simpl.
  - unfold bs_contains. rewrite bool_decide_false by (apply Hseen; by left). by rewrite Hi, Hp.
  - unfold bs_contains. rewrite bool_decide_false by (apply Hseen; by left). rewrite Hi, Hp.
    rewrite IH; [done|lia|]. intros j Hj [->%elem_of_singleton|Hin]%elem_of_union.
    + assert (NoDup (i :: l)) as [Hn _]%NoDup_cons by (eapply lineage_NoDup; by eapply lin_child). done.
    + eapply Hseen; [|done]. by right.
Qed.

(** The loop of [scope_lineage] computes the lineage: its fuel is enough. *)
Lemma scope_lineage_iff scopes i l : scope_lineage scopes i = Ok l ↔ is_lineage scopes i l.
Proof.
  split; [apply lineage_from_sound|]. intros Hl. apply lineage_from_complete; [done| |set_solver].
  assert (length l ≤ size (dom scopes))%nat as Hle; [|rewrite size_dom in Hle; lia].
  rewrite <-(size_list_to_set (C:=gset string) l) by (by eapply lineage_NoDup).
  apply subseteq_size. intros j Hj%elem_of_list_to_set. apply elem_of_dom.
  by eapply lineage_in_scopes.
Qed.

(** Lineages depend only on the parent links. *)
Lemma lineage_same_parents scopes scopes' i l :
  (∀ j sc, j ∈ l → scopes !! j = Some sc → ∃ sc', scopes' !! j = Some sc' ∧ bs_parent sc' = bs_parent sc) →
  is_lineage scopes i l → is_lineage scopes' i l.
Proof.
  intros Hsame Hl. induction Hl as [i sc Hi Hp|i sc p l Hi Hp Hl IH].
  - destruct (Hsame i sc) as (sc' & H1 & H2); [by left|done|]. apply (lin_root _ _ sc'); [done|]. by rewrite H2.
  - destruct (Hsame i sc) as (sc' & H1 & H2); [by left|done|].
    apply (lin_child _ _ sc' p); [done|by rewrite H2|]. apply IH. intros j sc0 Hj. apply Hsame. by right.
Qed.

(** ** Rewriting the envelopes of a lineage *)

Lemma update_remaining_ok f lin l l' :
  NoDup lin → update_remaining f lin l = (l', Ok ()) →
  ∃ m, l' = set_scopes m l ∧ (∀ i, i ∉ lin → m !! i = ll_scopes l !! i) ∧
    ∀ i, i ∈ lin → ∃ sc b, ll_scopes l !! i = Some sc ∧ f (bs_remaining sc) = Ok b
                           ∧ m !! i = Some (with_remaining b sc).
Proof.
  revert l. induction lin as [|a lin IH]; intros l Hnd Hu; simpl in Hu.
  { run_inv Hu. exists (ll_scopes l). split_and!; [by destruct l|done|set_solver]. }
  run_inv Hu. apply NoDup_cons in Hnd as [Ha Hnd].
  destruct (IH _ Hnd Hu) as (m & -> & Hout & Hin). simpl in *. exists m. split_and!; [done|..].
  - intros i [Hia Hi]%not_elem_of_cons. rewrite Hout by done. by rewrite lookup_insert_ne.
  - intros i [->|Hi]%elem_of_cons.
    + rewrite Hout, lookup_insert_eq by done. eauto.
    + destruct (Hin i Hi) as (sc & b & Hsc & Hf & Hm). rewrite lookup_insert_ne in Hsc by congruence.
      eauto.
Qed.

Lemma update_remaining_total f lin l :
  NoDup lin →
  (∀ i, i ∈ lin → ∃ sc b, ll_scopes l !! i = Some sc ∧ f (bs_remaining sc) = Ok b) →
  ∃ l', update_remaining f lin l = (l', Ok ()).
Proof.
  revert l. induction lin as [|a lin IH]; intros l Hnd Hok; simpl; [by eexists|].
  apply NoDup_cons in Hnd as [Ha Hnd]. destruct (Hok a) as (sc & b & Hsc & Hf); [by left|].
  destruct (IH (set_scopes (<[a := with_remaining b sc]> (ll_scopes l)) l) Hnd) as [l' Hl'].
  - intros i Hi. simpl. rewrite lookup_insert_ne by congruence. apply Hok. by right.
  - exists l'. unfold mbind, stm_bind, read, lift, modify.
    rewrite Hsc. simpl. rewrite Hf. exact Hl'.
Qed.

(** ** The invariant *)

(** Whether a reservation counts against scope [i]. *)
Definition covers (scopes : gmap string BudgetScope) (i : string) (r : ReservationRecord) : bool :=
  match scope_lineage scopes (rr_scope_id r) with
  | Ok lin => bool_decide (i ∈ lin)
  | Err _ => false
  end.
(** What is reserved, and not yet settled, below scope [i]. *)
Definition outstanding (d : dim) (l : LimitLedger) (i : string) : N :=
  sum_values (λ r, if covers (ll_scopes l) i r then u_get d (rr_reserved r) else 0) (ll_reservations l).
Definition remaining_of (d : dim) (l : LimitLedger) (i : string) : N :=
  match ll_scopes l !! i with Some sc => b_get d (bs_remaining sc) | None => 0 end.
(** Remaining budget plus what outstanding reservations would give back. *)
Definition headroom (d : dim) (l : LimitLedger) (i : string) : N :=
  remaining_of d l i + outstanding d l i.

Record ledger_inv (root : string) (l : LimitLedger) : Prop := {
  li_root : ∃ sc, ll_scopes l !! root = Some sc ∧ bs_parent sc = None ∧ bs_depth sc = 0;
  li_tree : ∀ i sc, ll_scopes l !! i = Some sc → i ≠ root →
    ∃ p psc, bs_parent sc = Some p ∧ ll_scopes l !! p = Some psc ∧ bs_depth sc = bs_depth psc + 1
             ∧ bs_depth sc ≤ be_max_depth (bs_remaining psc);
  li_depth : ∀ i sc, ll_scopes l !! i = Some sc → bs_depth sc ≤ u32_max;
  li_children : ∀ i sc, ll_scopes l !! i = Some sc →
    bs_active_children sc = children_count (ll_scopes l) i
    ∧ bs_active_children sc ≤ be_max_fan_out (bs_remaining sc);
  li_parallel : ∀ i sc, ll_scopes l !! i = Some sc →
    bs_active_parallel sc ≤ be_max_parallel (bs_remaining sc);
  li_scope_id : ∀ i sc, ll_scopes l !! i = Some sc → validate_logical_id i = Ok ();
  li_reservation : ∀ k r, ll_reservations l !! k = Some r →
    rr_reservation_id r = k ∧ is_Some (ll_scopes l !! rr_scope_id r)
    ∧ usage_is_zero (rr_reserved r) = false ∧ validate_logical_id k = Ok ();
  li_charge : ∀ i, i ∈ ll_charge_ids l → validate_logical_id i = Ok ();
  li_headroom : ∀ d i, headroom d l i ≤ u64_max
}.

Lemma inv_lineage root l i sc :
  ledger_inv root l → ll_scopes l !! i = Some sc → ∃ lin, is_lineage (ll_scopes l) i lin ∧ root ∈ lin.
Proof.
  intros Hinv. remember (N.to_nat (bs_depth sc)) as n eqn:Hn. revert i sc Hn.
  induction (lt_wf n) as [n _ IH]. intros i sc -> Hi.
  destruct (decide (i = root)) as [->|Hne].
  - destruct (li_root _ _ Hinv) as (sc' & Hr & Hp & _). simplify_eq.
    exists [root]. split; [by eapply lin_root|by left].
  - destruct (li_tree _ _ Hinv _ _ Hi Hne) as (p & psc & Hp & Hps & Hd & _).
    destruct (IH (N.to_nat (bs_depth psc)) ltac:(lia) p psc eq_refl Hps) as (lin & Hl & Hr).
    exists (i :: lin). split; [by eapply lin_child|by right].
Qed.

Lemma reservation_lineage root l k r :
  ledger_inv root l → ll_reservations l !! k = Some r →
  ∃ lin, is_lineage (ll_scopes l) (rr_scope_id r) lin ∧ root ∈ lin.
Proof.
  intros Hinv Hk. destruct (li_reservation _ _ Hinv _ _ Hk) as (_ & [sc Hsc] & _).
  by eapply inv_lineage.
Qed.

Lemma covers_lineage scopes i r lin :
  is_lineage scopes (rr_scope_id r) lin → covers scopes i r = bool_decide (i ∈ lin).
Proof. intros Hl. unfold covers. by rewrite (proj2 (scope_lineage_iff _ _ _) Hl). Qed.

(** Outstanding sums agree on ledgers with the same parent links. *)
Lemma outstanding_same_parents root d l l' i :
  ledger_inv root l → ll_reservations l' = ll_reservations l →
  (∀ j sc, ll_scopes l !! j = Some sc →
     (∃ k r lin, ll_reservations l !! k = Some r ∧ is_lineage (ll_scopes l) (rr_scope_id r) lin ∧ j ∈ lin) →
     ∃ sc', ll_scopes l' !! j = Some sc' ∧ bs_parent sc' = bs_parent sc) →
  outstanding d l' i = outstanding d l i.
Proof.
  intros Hinv Hr Hsame. unfold outstanding. rewrite Hr. apply sum_values_ext. intros k r Hk.
  destruct (reservation_lineage _ _ _ _ Hinv Hk) as (lin & Hl & _).
  rewrite (covers_lineage _ _ _ _ Hl), (covers_lineage (ll_scopes l') i r lin); [done|].
  eapply lineage_same_parents; [|exact Hl]. intros j sc Hj Hsc. eapply Hsame; eauto 10.
Qed.

(** * The operations *)

(** Scopes that differ only in their metered amounts. *)
Definition shape (sc : BudgetScope) : option string * N * N * N * (N * N * N * N) :=
  (bs_parent sc, bs_depth sc, bs_active_children sc, bs_active_parallel sc, frozen (bs_remaining sc)).
Definition same_shape (m m' : gmap string BudgetScope) : Prop := ∀ i, shape <$> m !! i = shape <$> m' !! i.

Lemma same_shape_lookup m m' i sc' :
  same_shape m m' → m' !! i = Some sc' → ∃ sc, m !! i = Some sc ∧ shape sc = shape sc'.
Proof.
  intros Hs Hi. specialize (Hs i). rewrite Hi in Hs. destruct (m !! i) as [sc|]; [|done].
  apply (inj Some) in Hs. eauto.
Qed.

Lemma same_shape_sym m m' : same_shape m m' → same_shape m' m.
Proof. intros Hs i. by rewrite (Hs i). Qed.

Lemma same_shape_children m m' i : same_shape m m' → children_count m i = children_count m' i.
Proof.
  intros Hs. apply count_values_eq. intros j. specialize (Hs j).
  destruct (m !! j) as [a|], (m' !! j) as [b|]; try done.
  apply (inj Some) in Hs. simpl. f_equal. apply (f_equal (λ x, x.1.1.1.1)) in Hs. simpl in Hs. by rewrite Hs.
Qed.

Lemma same_shape_lineage m m' i lin : same_shape m m' → is_lineage m i lin → is_lineage m' i lin.
Proof.
  intros Hs. apply lineage_same_parents. intros j sc _ Hj. apply same_shape_sym in Hs.
  destruct (same_shape_lookup _ _ _ _ Hs Hj) as (sc' & Hj' & Hsh). exists sc'. split; [done|].
  unfold shape in Hsh. congruence.
Qed.

(** The tree part of the invariant does not see metered amounts. *)
Lemma reshape_inv root l l' :
  ledger_inv root l → same_shape (ll_scopes l) (ll_scopes l') →
  (∀ k r, ll_reservations l' !! k = Some r → rr_reservation_id r = k ∧ is_Some (ll_scopes l' !! rr_scope_id r)
     ∧ usage_is_zero (rr_reserved r) = false ∧ validate_logical_id k = Ok ()) →
  (∀ i, i ∈ ll_charge_ids l' → validate_logical_id i = Ok ()) →
  (∀ d i, headroom d l' i ≤ headroom d l i) → ledger_inv root l'.
Proof.
  intros Hinv Hs Hr Hc Hh.
  assert (∀ i sc', ll_scopes l' !! i = Some sc' → ∃ sc, ll_scopes l !! i = Some sc ∧ shape sc = shape sc')
    as Hlk by (intros; by eapply same_shape_lookup).
  assert (∀ i sc, ll_scopes l !! i = Some sc → ∃ sc', ll_scopes l' !! i = Some sc' ∧ shape sc = shape sc')
    as Hlk'.
  { intros i sc Hi. pose proof (same_shape_sym _ _ Hs) as Hs'.
    destruct (same_shape_lookup _ _ _ _ Hs' Hi) as (sc' & ? & ?). eauto. }
  unfold shape, frozen in *. split; try done.
  - destruct (li_root _ _ Hinv) as (sc & Hi & Hp & Hd). destruct (Hlk' _ _ Hi) as (sc' & Hi' & Heq).
    exists sc'. simplify_eq. split_and!; congruence.
  - intros i sc' Hi' Hne. destruct (Hlk _ _ Hi') as (sc & Hi & Heq).
    destruct (li_tree _ _ Hinv _ _ Hi Hne) as (p & psc & Hp & Hps & Hd & Hm).
    destruct (Hlk' _ _ Hps) as (psc' & Hps' & Heq'). exists p, psc'. simplify_eq.
    split_and!; (done || congruence).
  - intros i sc' Hi'. destruct (Hlk _ _ Hi') as (sc & Hi & Heq).
    pose proof (li_depth _ _ Hinv _ _ Hi). simplify_eq. congruence.
  - intros i sc' Hi'. destruct (Hlk _ _ Hi') as (sc & Hi & Heq).
    destruct (li_children _ _ Hinv _ _ Hi) as [H1 H2]. rewrite <-(same_shape_children _ _ i Hs).
    simplify_eq. split; congruence.
  - intros i sc' Hi'. destruct (Hlk _ _ Hi') as (sc & Hi & Heq).
    pose proof (li_parallel _ _ Hinv _ _ Hi). simplify_eq. congruence.
  - intros i sc' Hi'. destruct (Hlk _ _ Hi') as (sc & Hi & _). by eapply (li_scope_id _ _ Hinv).
  - intros d i. pose proof (li_headroom _ _ Hinv d i). specialize (Hh d i). lia.
Qed.

(** Scopes after an update of a lineage that keeps the frozen limits. *)
Lemma update_shape (f : BudgetEnvelope → result LimitError BudgetEnvelope) (lin : list string) l m :
  (∀ i, i ∉ lin → m !! i = ll_scopes l !! i) →
  (∀ i, i ∈ lin → ∃ sc b, ll_scopes l !! i = Some sc ∧ f (bs_remaining sc) = Ok b
                          ∧ m !! i = Some (with_remaining b sc)) →
  (∀ b b', f b = Ok b' → frozen b' = frozen b) → same_shape (ll_scopes l) m.
Proof.
  intros Hout Hin Hf i. destruct (decide (i ∈ lin)) as [Hi|Hi].
  - destruct (Hin i Hi) as (sc & b & -> & Hb & ->). simpl. unfold shape. simpl. by rewrite (Hf _ _ Hb).
  - by rewrite Hout.
Qed.

(** ** [reserve] *)

Lemma reserve_ok sid rid u l l' :
  reserve sid rid u l = (l', Ok ()) →
  ∃ lin m, validate_logical_id rid = Ok () ∧ usage_is_zero u = false
    ∧ ll_reservations l !! rid = None ∧ rid ∉ ll_charge_ids l
    ∧ is_lineage (ll_scopes l) sid lin
    ∧ (∀ i, i ∉ lin → m !! i = ll_scopes l !! i)
    ∧ (∀ i, i ∈ lin → ∃ sc b, ll_scopes l !! i = Some sc ∧ envelope_checked_sub (bs_remaining sc) u = Ok b
         ∧ ll_tick l < be_deadline_tick (bs_remaining sc) ∧ m !! i = Some (with_remaining b sc))
    ∧ l' = set_reservations (<[rid := MkReservationRecord rid sid u]> (ll_reservations l)) (set_scopes m l).
Proof.
  unfold reserve. intros Hr. run_inv Hr. boolify. rename x3 into lin. destruct x5.
  match goal with Hx : update_remaining _ _ _ = _ |- _ => rename Hx into Hu end.
  match goal with Hx : for_each _ _ = _ |- _ => pose proof (proj1 (for_each_ok _ _ _) Hx) as Hadm end.
  match goal with Hx : scope_lineage _ _ = _ |- _ => apply scope_lineage_iff in Hx as Hl end.
  apply update_remaining_ok in Hu as (m & -> & Hout & Hin); [|by eapply lineage_NoDup].
  exists lin, m. split_and!; try done; [by destruct x0|].
  intros i Hi. destruct (Hin i Hi) as (sc & b & Hsc & Hb & Hm). exists sc, b.
  specialize (Hadm i Hi). unfold admit_scope in Hadm. rewrite Hsc in Hadm. simpl in Hadm.
  res_inv Hadm. boolify. done.
Qed.

(** A reservation either succeeds as a whole or changes nothing. *)
Lemma reserve_err sid rid u l l' e : reserve sid rid u l = (l', Err e) → l' = l.
Proof.
  unfold reserve. intros Hr. err_inv Hr; simplify_eq/=; try done.
  exfalso. apply scope_lineage_iff in Hr3 as Hl. pose proof (proj1 (for_each_ok _ _ _) Hr4) as Hadm.
  match type of Hr with update_remaining ?f ?lin ?l = _ =>
    destruct (update_remaining_total f lin l) as [l2 Hl2]; [by eapply lineage_NoDup| |congruence] end.
  intros i Hi. specialize (Hadm i Hi). unfold admit_scope in Hadm. res_inv Hadm. eauto.
Qed.

Lemma covers_shape m m' i r : same_shape m m' → covers m i r = covers m' i r.
Proof.
  intros Hs. unfold covers.
  destruct (scope_lineage m (rr_scope_id r)) as [lin|e] eqn:H1;
  destruct (scope_lineage m' (rr_scope_id r)) as [lin'|e'] eqn:H2; try done.
  - apply scope_lineage_iff in H1, H2. apply (same_shape_lineage m m') in H1; [|done].
    by rewrite (lineage_det _ _ _ _ H1 H2).
  - apply scope_lineage_iff, (same_shape_lineage m m'), scope_lineage_iff in H1; [|done]. congruence.
  - apply scope_lineage_iff, (same_shape_lineage m' m), scope_lineage_iff in H2;
      [|by apply same_shape_sym]. congruence.
Qed.

(** What counts against [i] when the reservations are [rs]. *)
Definition outstanding_in (d : dim) (scopes : gmap string BudgetScope)
    (rs : gmap string ReservationRecord) (i : string) : N :=
  sum_values (λ r, if covers scopes i r then u_get d (rr_reserved r) else 0) rs.

Lemma outstanding_in_shape d m m' rs i : same_shape m m' → outstanding_in d m rs i = outstanding_in d m' rs i.
Proof. intros Hs. apply sum_values_ext. intros k r _. by rewrite (covers_shape _ _ i r Hs). Qed.

Lemma reserve_shape sid rid u l l' :
  reserve sid rid u l = (l', Ok ()) → same_shape (ll_scopes l) (ll_scopes l').
Proof.
  intros (lin & m & _ & _ & _ & _ & Hl & Hout & Hin & ->)%reserve_ok.
  apply (update_shape (λ b, envelope_checked_sub b u) lin); simpl; [done| |].
  - intros i Hi. destruct (Hin i Hi) as (sc & b & ? & ? & _ & ?). eauto.
  - intros b b' [_ Hf]%envelope_sub_ok. done.
Qed.

Lemma reserve_headroom sid rid u l l' d i :
  reserve sid rid u l = (l', Ok ()) → headroom d l' i = headroom d l i.
Proof.
  intros Hr. pose proof (reserve_shape _ _ _ _ _ Hr) as Hs.
  destruct (reserve_ok _ _ _ _ _ Hr) as (lin & m & _ & _ & Hf & _ & Hl & Hout & Hin & ->).
  unfold headroom, outstanding, remaining_of. simpl in *.
  rewrite sum_values_insert by done. fold (outstanding_in d m (ll_reservations l) i).
  fold (outstanding_in d (ll_scopes l) (ll_reservations l) i).
  rewrite <-(outstanding_in_shape d (ll_scopes l) m) by done.
  rewrite <-(covers_shape (ll_scopes l) m) by done.
  rewrite (covers_lineage _ i (MkReservationRecord rid sid u) lin) by done. simpl.
  case_bool_decide as Hi.
  - destruct (Hin i Hi) as (sc & b & -> & [Hb _]%envelope_sub_ok & _ & ->). simpl.
    destruct (Hb d) as [H1 H2]. lia.
  - rewrite Hout by done. lia.
Qed.

Lemma reserve_inv root sid rid u l l' :
  ledger_inv root l → reserve sid rid u l = (l', Ok ()) → ledger_inv root l'.
Proof.
  intros Hinv Hr. pose proof (reserve_shape _ _ _ _ _ Hr) as Hs.
  eapply reshape_inv; [exact Hinv|exact Hs|..].
  - intros k r Hk. assert (is_Some (ll_scopes l' !! rr_scope_id r) ↔ is_Some (ll_scopes l !! rr_scope_id r)) as Hiff.
    { specialize (Hs (rr_scope_id r)). destruct (ll_scopes l !! _), (ll_scopes l' !! _); try done. }
    rewrite Hiff. clear Hiff Hs.
    destruct (reserve_ok _ _ _ _ _ Hr) as (lin & m & Hv & Hz & _ & _ & Hl & _ & _ & ->). simpl in Hk.
    apply lookup_insert_Some in Hk as [[<- <-]|[_ Hk]]; [|by apply (li_reservation _ _ Hinv)].
    split_and!; [done| |done|done]. eapply lineage_in_scopes; [exact Hl|].
    inversion Hl; by left.
  - destruct (reserve_ok _ _ _ _ _ Hr) as (lin & m & _ & _ & _ & _ & _ & _ & _ & ->).
    apply (li_charge _ _ Hinv).
  - intros d i. by rewrite (reserve_headroom _ _ _ _ _ d i Hr).
Qed.

(** ** Settling a reservation: [release] and [charge] *)

Lemma settle_ok root k r lin give l :
  ledger_inv root l → ll_reservations l !! k = Some r → is_lineage (ll_scopes l) (rr_scope_id r) lin →
  (∀ d, u_get d give ≤ u_get d (rr_reserved r)) →
  ∃ m, update_remaining (λ b, checked_add_usage b give) lin
         (set_reservations (delete k (ll_reservations l)) l)
       = (set_scopes m (set_reservations (delete k (ll_reservations l)) l), Ok ())
  ∧ same_shape (ll_scopes l) m
  ∧ (∀ i, i ∉ lin → m !! i = ll_scopes l !! i)
  ∧ (∀ i, i ∈ lin → ∃ sc b, ll_scopes l !! i = Some sc ∧ m !! i = Some (with_remaining b sc)
       ∧ frozen b = frozen (bs_remaining sc)
       ∧ ∀ d, b_get d b = b_get d (bs_remaining sc) + u_get d give)
  ∧ ∀ d i, headroom d (set_scopes m (set_reservations (delete k (ll_reservations l)) l)) i
         + (if bool_decide (i ∈ lin) then u_get d (rr_reserved r) - u_get d give else 0)
         = headroom d l i.
Proof.
  intros Hinv Hk Hl Hg. set (l1 := set_reservations _ l).
  assert (∀ d i, outstanding d l i = (if bool_decide (i ∈ lin) then u_get d (rr_reserved r) else 0)
    + outstanding_in d (ll_scopes l) (delete k (ll_reservations l)) i) as Hsum.
  { intros d i. unfold outstanding. rewrite (sum_values_delete _ _ _ _ Hk).
    by rewrite (covers_lineage _ i r lin Hl). }
  destruct (update_remaining_total (λ b, checked_add_usage b give) lin l1) as [l2 Hu].
  { by eapply lineage_NoDup. }
  { intros i Hi. destruct (lineage_in_scopes _ _ _ _ Hl Hi) as [sc Hsc]. exists sc.
    destruct (envelope_add_is_ok (bs_remaining sc) give) as [b Hb]; [|eauto].
    intros d. pose proof (li_headroom _ _ Hinv d i) as Hh. unfold headroom, remaining_of in Hh.
    rewrite Hsc, Hsum, bool_decide_true in Hh by done. specialize (Hg d). lia. }
  destruct (update_remaining_ok _ _ _ _ (lineage_NoDup _ _ _ Hl) Hu) as (m & -> & Hout & Hin).
  simpl in Hout, Hin.
  assert (same_shape (ll_scopes l) m) as Hs.
  { eapply (update_shape (λ b, checked_add_usage b give) lin l); [done|done|].
    intros b b' [_ Hf]%envelope_add_ok. done. }
  exists m. split_and!; [done|done|done|..].
  - intros i Hi. destruct (Hin i Hi) as (sc & b & Hsc & [Hb Hf]%envelope_add_ok & Hm).
    exists sc, b. split_and!; [done..|]. intros d. by destruct (Hb d).
  - intros d i. unfold headroom at 2. rewrite Hsum. unfold headroom, outstanding, remaining_of. simpl.
    fold (outstanding_in d m (delete k (ll_reservations l)) i).
    rewrite <-(outstanding_in_shape d (ll_scopes l) m) by done. case_bool_decide as Hi.
    + destruct (Hin i Hi) as (sc & b & -> & [Hb _]%envelope_add_ok & ->). simpl.
      destruct (Hb d) as [_ ->]. specialize (Hg d). lia.
    + rewrite Hout by done. lia.
Qed.

Lemma settle_inv root k r lin give l m cs :
  ledger_inv root l → ll_reservations l !! k = Some r → is_lineage (ll_scopes l) (rr_scope_id r) lin →
  same_shape (ll_scopes l) m → (∀ i, i ∈ cs → validate_logical_id i = Ok ()) →
  (∀ d i, headroom d (set_scopes m (set_reservations (delete k (ll_reservations l)) l)) i
         + (if bool_decide (i ∈ lin) then u_get d (rr_reserved r) - u_get d give else 0)
         = headroom d l i) →
  ledger_inv root (set_charge_ids cs (set_scopes m (set_reservations (delete k (ll_reservations l)) l))).
Proof.
  intros Hinv Hk Hl Hs Hcs Hh. eapply reshape_inv; [exact Hinv|exact Hs| |exact Hcs|].
  - intros k' r' Hk'. simpl in Hk'. apply lookup_delete_Some in Hk' as [_ Hk']. simpl.
    destruct (li_reservation _ _ Hinv _ _ Hk') as (H1 & H2 & H3 & H4). split_and!; try done.
    specialize (Hs (rr_scope_id r')). destruct (ll_scopes l !! _), (m !! _); done.
  - intros d i. specialize (Hh d i).
    change (headroom d (set_charge_ids cs (set_scopes m (set_reservations (delete k (ll_reservations l)) l))) i)
      with (headroom d (set_scopes m (set_reservations (delete k (ll_reservations l)) l)) i). lia.
Qed.

Lemma release_run root k r l :
  ledger_inv root l → ll_reservations l !! k = Some r →
  ∃ lin m, is_lineage (ll_scopes l) (rr_scope_id r) lin
  ∧ release k l = (set_scopes m (set_reservations (delete k (ll_reservations l)) l), Ok ())
  ∧ same_shape (ll_scopes l) m
  ∧ (∀ i, i ∉ lin → m !! i = ll_scopes l !! i)
  ∧ (∀ i, i ∈ lin → ∃ sc b, ll_scopes l !! i = Some sc ∧ m !! i = Some (with_remaining b sc)
       ∧ frozen b = frozen (bs_remaining sc)
       ∧ ∀ d, b_get d b = b_get d (bs_remaining sc) + u_get d (rr_reserved r))
  ∧ ledger_inv root (set_scopes m (set_reservations (delete k (ll_reservations l)) l))
  ∧ ∀ d i, headroom d (set_scopes m (set_reservations (delete k (ll_reservations l)) l)) i = headroom d l i.
Proof.
  intros Hinv Hk. destruct (reservation_lineage _ _ _ _ Hinv Hk) as (lin & Hl & _).
  destruct (settle_ok root k r lin (rr_reserved r) l Hinv Hk Hl) as (m & Hu & Hs & Hout & Hin & Hh);
    [done|]. exists lin, m. split_and!; try done.
  - unfold release, mbind, stm_bind, read, lift, modify. rewrite Hk. simpl.
    rewrite (proj2 (scope_lineage_iff _ _ _) Hl). exact Hu.
  - pose proof (settle_inv root k r lin (rr_reserved r) l m (ll_charge_ids l) Hinv Hk Hl Hs
      (li_charge _ _ Hinv) Hh) as Hi. exact Hi.
  - intros d i. specialize (Hh d i). rewrite N.sub_diag in Hh. destruct (bool_decide _); lia.
Qed.

(** The outcome of charging [actual] against an outstanding reservation. *)
Lemma charge_run root rid cid actual r l :
  ledger_inv root l → validate_logical_id cid = Ok () → cid ∉ ll_charge_ids l →
  ll_reservations l !! rid = Some r →
  if usage_contains (rr_reserved r) actual then
    ∃ lin m, is_lineage (ll_scopes l) (rr_scope_id r) lin
    ∧ charge rid cid actual l = (set_charge_ids ({[cid]} ∪ ll_charge_ids l)
        (set_scopes m (set_reservations (delete rid (ll_reservations l)) l)), Ok ())
    ∧ same_shape (ll_scopes l) m
    ∧ (∀ i, i ∉ lin → m !! i = ll_scopes l !! i)
    ∧ (∀ i, i ∈ lin → ∃ sc b, ll_scopes l !! i = Some sc ∧ m !! i = Some (with_remaining b sc)
         ∧ frozen b = frozen (bs_remaining sc)
         ∧ ∀ d, b_get d b = b_get d (bs_remaining sc) + (u_get d (rr_reserved r) - u_get d actual))
    ∧ ledger_inv root (set_charge_ids ({[cid]} ∪ ll_charge_ids l)
        (set_scopes m (set_reservations (delete rid (ll_reservations l)) l)))
    ∧ ∀ d i, headroom d (set_charge_ids ({[cid]} ∪ ll_charge_ids l)
        (set_scopes m (set_reservations (delete rid (ll_reservations l)) l))) i
        + (if bool_decide (i ∈ lin) then u_get d actual else 0) = headroom d l i
  else charge rid cid actual l = (l, Err ReservationExceeded).
Proof.
  intros Hinv Hv Hc Hk. unfold charge, mbind, stm_bind, read, lift, modify, throw. rewrite Hv.
  unfold bs_contains. rewrite bool_decide_false by done. rewrite Hk. simpl.
  destruct (usage_contains (rr_reserved r) actual) eqn:Hu; simpl.
  - pose proof (proj1 (usage_contains_iff _ _) Hu) as Hle. destruct (usage_sub_is_ok _ _ Hle) as [unused Hun].
    pose proof (usage_sub_ok _ _ _ Hun) as Hd.
    destruct (reservation_lineage _ _ _ _ Hinv Hk) as (lin & Hl & _).
    destruct (settle_ok root rid r lin unused l Hinv Hk Hl) as (m & Hup & Hs & Hout & Hin & Hh).
    { intros d. destruct (Hd d) as [_ ->]. lia. }
    assert (∀ d, u_get d (rr_reserved r) - u_get d unused = u_get d actual) as Hact.
    { intros d. destruct (Hd d) as [? ->]. lia. }
    exists lin, m. split_and!; try done.
    + rewrite Hun. simpl. rewrite (proj2 (scope_lineage_iff _ _ _) Hl). by rewrite Hup.
    + intros i Hi. destruct (Hin i Hi) as (sc & b & ? & ? & ? & Hb). exists sc, b. split_and!; [done..|].
      intros d. rewrite Hb. by destruct (Hd d) as [_ ->].
    + eapply settle_inv; try done. intros i [->%elem_of_singleton|Hi]%elem_of_union; [done|].
      by apply (li_charge _ _ Hinv).
    + intros d i. rewrite <-(Hh d i), Hact. done.
  - destruct (li_reservation _ _ Hinv _ _ Hk) as (-> & _). rewrite insert_delete_id by done.
    by destruct l.
Qed.

(** ** Opening and closing scopes *)

(** Reservations cover the same scopes when no lineage changes. *)
Lemma outstanding_lineages root d l scopes' i :
  ledger_inv root l →
  (∀ k r lin, ll_reservations l !! k = Some r → is_lineage (ll_scopes l) (rr_scope_id r) lin →
     is_lineage scopes' (rr_scope_id r) lin) →
  outstanding_in d scopes' (ll_reservations l) i = outstanding d l i.
Proof.
  intros Hinv Hl. apply sum_values_ext. intros k r Hk.
  destruct (reservation_lineage _ _ _ _ Hinv Hk) as (lin & Hlin & _).
  by rewrite (covers_lineage _ i r lin Hlin), (covers_lineage _ i r lin (Hl _ _ _ Hk Hlin)).
Qed.

Lemma create_child_ok sid pid conf l l' :
  create_child sid pid conf l = (l', Ok ()) →
  ∃ parent, ll_scopes l !! pid = Some parent ∧ ll_scopes l !! sid = None
    ∧ validate_logical_id sid = Ok () ∧ bs_depth parent + 1 ≤ u32_max
    ∧ bs_depth parent + 1 ≤ be_max_depth (bs_remaining parent)
    ∧ bs_active_children parent < be_max_fan_out (bs_remaining parent)
    ∧ l' = set_scopes (<[sid := MkScope (Some pid) (bs_depth parent + 1)
                           (component_min conf (bs_remaining parent)) 0 0]>
             (<[pid := with_active_children (bs_active_children parent + 1) parent]> (ll_scopes l))) l.
Proof.
  unfold create_child. intros Hc. run_inv Hc. boolify.
  match goal with Hx : checked_add _ _ _ = Some _ |- _ => apply checked_add_Some in Hx as [? ->] end.
  match goal with Hx : ll_scopes l !! pid = Some ?p |- _ => exists p end.
  split_and!; try done. by destruct x0.
Qed.

Lemma component_min_le a b d : b_get d (component_min a b) ≤ b_get d a ∧ b_get d (component_min a b) ≤ b_get d b.
Proof. destruct d; simpl; lia. Qed.

Lemma children_count_update m i sc sc' j :
  m !! i = Some sc → bs_parent sc' = bs_parent sc →
  children_count (<[i:=sc']> m) j = children_count m j.
Proof.
  intros Hi Hp. apply count_values_eq. intros k. destruct (decide (k = i)) as [->|Hne].
  - rewrite lookup_insert_eq, Hi. simpl. by rewrite Hp.
  - by rewrite lookup_insert_ne.
Qed.

Lemma create_child_headroom root sid pid conf l l' d i :
  ledger_inv root l → create_child sid pid conf l = (l', Ok ()) →
  (i ≠ sid → headroom d l' i = headroom d l i) ∧ (i = sid → headroom d l' i ≤ u64_max).
Proof.
  intros Hinv (parent & Hp & Hs & _ & _ & _ & _ & ->)%create_child_ok.
  assert (sid ≠ pid) as Hne by congruence.
  set (scopes' := <[sid := _]> _).
  assert (∀ k r lin, ll_reservations l !! k = Some r → is_lineage (ll_scopes l) (rr_scope_id r) lin →
     sid ∉ lin ∧ is_lineage scopes' (rr_scope_id r) lin) as Hlin.
  { intros k r lin Hk Hl. assert (sid ∉ lin) as Hn.
    { intros Hin. destruct (lineage_in_scopes _ _ _ _ Hl Hin) as [? ?]. congruence. }
    split; [done|]. eapply lineage_same_parents; [|exact Hl]. intros j sc Hj Hsc.
    unfold scopes'. rewrite lookup_insert_ne by (intros <-; done).
    destruct (decide (j = pid)) as [->|Hjp].
    - rewrite lookup_insert_eq. simplify_eq. eauto.
    - rewrite lookup_insert_ne by done. eauto. }
  assert (outstanding d (set_scopes scopes' l) i = outstanding d l i) as Ho.
  { apply (outstanding_lineages root d l scopes' i); [done|]. intros k r lin Hk Hl. by apply (Hlin k r lin). }
  unfold headroom, remaining_of. rewrite Ho. simpl. unfold scopes'. split.
  - intros Hi. rewrite lookup_insert_ne by done. destruct (decide (i = pid)) as [->|Hip].
    + by rewrite lookup_insert_eq, Hp.
    + by rewrite lookup_insert_ne.
  - intros ->. rewrite lookup_insert_eq. simpl.
    pose proof (component_min_le conf (bs_remaining parent) d) as [_ Hm].
    pose proof (li_headroom _ _ Hinv d pid) as Hh. unfold headroom, remaining_of in Hh. rewrite Hp in Hh.
    assert (outstanding d l sid = 0) as ->; [|lia].
    unfold outstanding. rewrite (sum_values_ext _ (λ _, 0)).
    + unfold sum_values. induction (bt_values (ll_reservations l)); simpl; lia.
    + intros k r Hk. destruct (reservation_lineage _ _ _ _ Hinv Hk) as (lin & Hl & _).
      rewrite (covers_lineage _ _ _ _ Hl). destruct (Hlin _ _ _ Hk Hl) as [Hn _].
      by rewrite bool_decide_false.
Qed.

Lemma create_child_inv root sid pid conf l l' :
  ledger_inv root l → create_child sid pid conf l = (l', Ok ()) → ledger_inv root l'.
Proof.
  intros Hinv Hc. pose proof (λ d i, create_child_headroom root sid pid conf l l' d i Hinv Hc) as Hh.
  apply create_child_ok in Hc as (parent & Hp & Hs & Hv & Hd & Hmd & Hfo & ->).
  assert (sid ≠ pid) as Hne by congruence.
  assert (∀ j sc, <[pid := with_active_children (bs_active_children parent + 1) parent]> (ll_scopes l) !! j
    = Some sc → ∃ sc0, ll_scopes l !! j = Some sc0 ∧ bs_parent sc = bs_parent sc0 ∧ bs_depth sc = bs_depth sc0
      ∧ bs_remaining sc = bs_remaining sc0 ∧ bs_active_parallel sc = bs_active_parallel sc0
      ∧ bs_active_children sc = bs_active_children sc0 + (if decide (j = pid) then 1 else 0)) as Hold.
  { intros j sc [[<- <-]|[Hn Hj]]%lookup_insert_Some.
    - exists parent. rewrite decide_True by done. done.
    - exists sc. rewrite decide_False, N.add_0_r by done. done. }
  assert (∀ j, children_count (<[sid := MkScope (Some pid) (bs_depth parent + 1)
      (component_min conf (bs_remaining parent)) 0 0]>
      (<[pid := with_active_children (bs_active_children parent + 1) parent]> (ll_scopes l))) j
      = children_count (ll_scopes l) j + (if decide (j = pid) then 1 else 0)) as Hcc.
  { intros j. unfold children_count. rewrite count_values_insert by (by rewrite lookup_insert_ne).
    fold (children_count (<[pid := with_active_children (bs_active_children parent + 1) parent]> (ll_scopes l)) j).
    rewrite (children_count_update _ _ parent) by done. simpl. unfold children_count.
    destruct (decide (j = pid)) as [->|Hj]; [rewrite bool_decide_true|rewrite bool_decide_false]; (lia || done || congruence). }
  split; simpl.
  - destruct (li_root _ _ Hinv) as (sc & Hr & Hrp & Hrd). rewrite lookup_insert_ne by congruence.
    destruct (decide (root = pid)) as [->|Hrne].
    + rewrite lookup_insert_eq. simplify_eq. eauto.
    + rewrite lookup_insert_ne by done. eauto.
  - intros j sc [[<- <-]|[Hjs Hj]]%lookup_insert_Some Hjr.
    + exists pid, (with_active_children (bs_active_children parent + 1) parent).
      rewrite lookup_insert_ne, lookup_insert_eq by done. done.
    + destruct (Hold _ _ Hj) as (sc0 & Hj0 & E1 & E2 & E3 & _).
      destruct (li_tree _ _ Hinv _ _ Hj0 Hjr) as (p & psc & Hpp & Hps & Hdd & Hmm).
      assert (p ≠ sid) as Hps' by congruence. rewrite E1, E2. exists p.
      destruct (decide (p = pid)) as [->|Hppid].
      * exists (with_active_children (bs_active_children parent + 1) parent). simplify_eq.
        rewrite lookup_insert_ne, lookup_insert_eq by done. done.
      * exists psc. rewrite !lookup_insert_ne by done. done.
  - intros j sc [[<- <-]|[Hjs Hj]]%lookup_insert_Some; [done|].
    destruct (Hold _ _ Hj) as (sc0 & Hj0 & _ & -> & _). by eapply (li_depth _ _ Hinv).
  - intros j sc Hj. rewrite Hcc. apply lookup_insert_Some in Hj as [[<- <-]|[Hjs Hj]].
    + rewrite decide_False by done. simpl. split; [|lia].
      assert (children_count (ll_scopes l) sid = 0) as ->; [|done].
      unfold children_count, count_values, len. rewrite list_filter_all_false; [done|].
      intros sc [k Hk]%elem_of_bt_values Hb%bool_decide_eq_true.
      destruct (decide (k = root)) as [->|Hkr].
      * destruct (li_root _ _ Hinv) as (rsc & Hr & Hrp & _). congruence.
      * destruct (li_tree _ _ Hinv _ _ Hk Hkr) as (p & psc & Hpp & Hps & _). congruence.
    + destruct (Hold _ _ Hj) as (sc0 & Hj0 & _ & _ & -> & _ & ->).
      destruct (li_children _ _ Hinv _ _ Hj0) as [H1 H2]. rewrite H1. split; [done|].
      destruct (decide (j = pid)) as [->|]; [|lia]. simplify_eq. lia.
  - intros j sc [[<- <-]|[Hjs Hj]]%lookup_insert_Some; [simpl; lia|].
    destruct (Hold _ _ Hj) as (sc0 & Hj0 & _ & _ & -> & -> & _). by eapply (li_parallel _ _ Hinv).
  - intros j sc [[<- <-]|[Hjs Hj]]%lookup_insert_Some; [done|].
    destruct (Hold _ _ Hj) as (sc0 & Hj0 & _). by eapply (li_scope_id _ _ Hinv).
  - intros k r Hk. destruct (li_reservation _ _ Hinv _ _ Hk) as (H1 & [sc H2] & H3 & H4).
    split_and!; try done. rewrite lookup_insert_ne by congruence.
    destruct (decide (rr_scope_id r = pid)) as [->|]; [rewrite lookup_insert_eq|rewrite lookup_insert_ne by done]; eauto.
  - apply (li_charge _ _ Hinv).
  - intros d j. destruct (decide (j = sid)) as [->|Hjs].
    + by apply (Hh d sid).
    + rewrite (proj1 (Hh d j) Hjs). apply (li_headroom _ _ Hinv).
Qed.

Lemma close_child_ok sid l l' :
  close_child sid l = (l', Ok ()) →
  ∃ scope p parent, ll_scopes l !! sid = Some scope ∧ bs_parent scope = Some p ∧ p ≠ sid
    ∧ ll_scopes l !! p = Some parent
    ∧ (∀ k r, ll_reservations l !! k = Some r → rr_scope_id r ≠ sid)
    ∧ (∀ j sc, ll_scopes l !! j = Some sc → bs_parent sc ≠ Some sid)
    ∧ l' = set_scopes (<[p := with_active_children (saturating_sub (bs_active_children parent) 1) parent]>
                         (delete sid (ll_scopes l))) l.
Proof.
  unfold close_child. intros Hc. run_inv Hc. rename x1 into scope.
  unfold can_close_child in Hc0. rewrite Hc1 in Hc0. simpl in Hc0.
  destruct (bs_parent scope) as [p|] eqn:Hp; [|done]. apply fail_if_ok, orb_false_iff in Hc0 as [Hr Hs].
  run_inv Hc.
  match goal with Hx : delete sid _ !! p = Some ?y |- _ =>
    apply lookup_delete_Some in Hx as [Hne Hpar]; rename y into parent end.
  exists scope, p, parent. split_and!; try done.
  - intros k r Hk Heq. pose proof (proj1 (existsb_false _ _) Hr r) as Hf.
    rewrite elem_of_bt_values in Hf. specialize (Hf ltac:(eauto)). by apply bool_decide_eq_false in Hf.
  - intros j sc Hj Heq. pose proof (proj1 (existsb_false _ _) Hs sc) as Hf.
    rewrite elem_of_bt_values in Hf. specialize (Hf ltac:(eauto)). by apply bool_decide_eq_false in Hf.
Qed.

Lemma close_lineage l sid scope p parent k r lin :
  ll_scopes l !! sid = Some scope → ll_scopes l !! p = Some parent → p ≠ sid →
  (∀ j sc, ll_scopes l !! j = Some sc → bs_parent sc ≠ Some sid) →
  ll_reservations l !! k = Some r → rr_scope_id r ≠ sid →
  is_lineage (ll_scopes l) (rr_scope_id r) lin →
  is_lineage (<[p := with_active_children (saturating_sub (bs_active_children parent) 1) parent]>
                (delete sid (ll_scopes l))) (rr_scope_id r) lin.
Proof.
  intros Hs Hp Hne Hleaf Hk Hr Hl.
  assert (sid ∉ lin) as Hn.
  { clear Hk. remember (rr_scope_id r) as i eqn:Hi. clear Hi. revert Hr.
    induction Hl as [i sc Hi Hpar|i sc q lin Hi Hpar Hl IH]; intros Hr.
    - rewrite list_elem_of_singleton. done.
    - rewrite not_elem_of_cons. split; [done|]. apply IH. intros ->. by eapply Hleaf. }
  eapply lineage_same_parents; [|exact Hl]. intros j sc Hj Hsc.
  destruct (decide (j = p)) as [->|Hjp].
  - rewrite lookup_insert_eq. simplify_eq. eauto.
  - rewrite lookup_insert_ne, lookup_delete_ne by (done || (intros <-; done)). eauto.
Qed.

Lemma close_child_headroom root sid l l' d i :
  ledger_inv root l → close_child sid l = (l', Ok ()) → i ≠ sid → headroom d l' i = headroom d l i.
Proof.
  intros Hinv (scope & p & parent & Hs & Hp & Hne & Hpar & Hres & Hleaf & ->)%close_child_ok Hi.
  set (scopes' := <[p := _]> _).
  assert (outstanding d (set_scopes scopes' l) i = outstanding d l i) as Ho.
  { apply (outstanding_lineages root d l scopes' i); [done|]. intros k r lin Hk Hl.
    eapply close_lineage; eauto. }
  unfold headroom, remaining_of. rewrite Ho. simpl. unfold scopes'.
  destruct (decide (i = p)) as [->|Hip].
  - by rewrite lookup_insert_eq, Hpar.
  - by rewrite lookup_insert_ne, lookup_delete_ne.
Qed.

Lemma close_child_inv root sid l l' :
  ledger_inv root l → close_child sid l = (l', Ok ()) → ledger_inv root l'.
Proof.
  intros Hinv Hc. pose proof (λ d i, close_child_headroom root sid l l' d i Hinv Hc) as Hh.
  apply close_child_ok in Hc as (scope & p & parent & Hs & Hp & Hne & Hpar & Hres & Hleaf & ->).
  assert (sid ≠ root) as Hroot.
  { intros ->. destruct (li_root _ _ Hinv) as (sc & Hr & Hrp & _). congruence. }
  set (m := <[p := _]> _) in *.
  assert (∀ j sc, m !! j = Some sc → j ≠ sid ∧ ∃ sc0, ll_scopes l !! j = Some sc0
      ∧ bs_parent sc = bs_parent sc0 ∧ bs_depth sc = bs_depth sc0
      ∧ bs_remaining sc = bs_remaining sc0 ∧ bs_active_parallel sc = bs_active_parallel sc0
      ∧ bs_active_children sc = bs_active_children sc0 - (if decide (j = p) then 1 else 0)) as Hold.
  { intros j sc [[<- <-]|[Hn [Hjs Hj]%lookup_delete_Some]]%lookup_insert_Some.
    - split; [done|]. exists parent. rewrite decide_True by done. done.
    - split; [done|]. exists sc. rewrite decide_False, N.sub_0_r by done. done. }
  assert (∀ j sc0, ll_scopes l !! j = Some sc0 → j ≠ sid → ∃ sc, m !! j = Some sc
      ∧ bs_parent sc = bs_parent sc0 ∧ bs_depth sc = bs_depth sc0 ∧ bs_remaining sc = bs_remaining sc0) as Hnew.
  { intros j sc0 Hj Hjs. unfold m. destruct (decide (j = p)) as [->|Hjp].
    - rewrite lookup_insert_eq. simplify_eq. eauto.
    - rewrite lookup_insert_ne, lookup_delete_ne by done. eauto. }
  assert (∀ j, children_count (ll_scopes l) j = children_count m j + (if decide (j = p) then 1 else 0)) as Hcc.
  { intros j. unfold m. rewrite (children_count_update (delete sid (ll_scopes l)) p parent);
      [|by rewrite lookup_delete_ne|done].
    rewrite <-(insert_delete_id (ll_scopes l) sid scope Hs) at 1. unfold children_count.
    rewrite count_values_insert by apply lookup_delete_eq. rewrite Hp.
    destruct (decide (j = p)) as [->|Hj]; [rewrite bool_decide_true|rewrite bool_decide_false];
      (lia || done || congruence). }
  split; simpl.
  - destruct (li_root _ _ Hinv) as (sc & Hr & Hrp & Hrd).
    destruct (Hnew _ _ Hr ltac:(done)) as (sc' & Hr' & E1 & E2 & _). exists sc'. split_and!; [done|congruence..].
  - intros j sc Hj Hjr. destruct (Hold _ _ Hj) as (Hjs & sc0 & Hj0 & E1 & E2 & _).
    destruct (li_tree _ _ Hinv _ _ Hj0 Hjr) as (q & qsc & Hq & Hqs & Hd & Hm).
    assert (q ≠ sid) as Hqne by (intros ->; exact (Hleaf _ _ Hj0 Hq)).
    destruct (Hnew _ _ Hqs Hqne) as (qsc' & Hqs' & F1 & F2 & F3). exists q, qsc'.
    rewrite E1, E2, F2, F3. done.
  - intros j sc Hj. destruct (Hold _ _ Hj) as (_ & sc0 & Hj0 & _ & -> & _). by eapply (li_depth _ _ Hinv).
  - intros j sc Hj. destruct (Hold _ _ Hj) as (_ & sc0 & Hj0 & _ & _ & -> & _ & ->).
    destruct (li_children _ _ Hinv _ _ Hj0) as [H1 H2]. specialize (Hcc j). split; lia.
  - intros j sc Hj. destruct (Hold _ _ Hj) as (_ & sc0 & Hj0 & _ & _ & -> & -> & _).
    by eapply (li_parallel _ _ Hinv).
  - intros j sc Hj. destruct (Hold _ _ Hj) as (_ & sc0 & Hj0 & _). by eapply (li_scope_id _ _ Hinv).
  - intros k r Hk. destruct (li_reservation _ _ Hinv _ _ Hk) as (H1 & [sc H2] & H3 & H4).
    split_and!; try done. destruct (Hnew _ _ H2 (Hres _ _ Hk)) as (sc' & Hsc' & _). eauto.
  - apply (li_charge _ _ Hinv).
  - intros d j. destruct (decide (j = sid)) as [->|Hjs].
    + unfold headroom, remaining_of. simpl. unfold m. rewrite lookup_insert_ne, lookup_delete_eq by done.
      fold m. change (outstanding d (set_scopes m l) sid) with (outstanding_in d m (ll_reservations l) sid).
      rewrite (outstanding_lineages root d l m sid); [|done|].
      * pose proof (li_headroom _ _ Hinv d sid) as Hb. unfold headroom in Hb. lia.
      * intros k r lin Hk Hl. eapply close_lineage; eauto.
    + rewrite Hh by done. apply (li_headroom _ _ Hinv).
Qed.

(** ** Parallel regions *)

Lemma set_parallel_inv root sid sc n l :
  ledger_inv root l → ll_scopes l !! sid = Some sc → n ≤ be_max_parallel (bs_remaining sc) →
  ledger_inv root (set_scopes (<[sid := with_active_parallel n sc]> (ll_scopes l)) l)
  ∧ ∀ d i, headroom d (set_scopes (<[sid := with_active_parallel n sc]> (ll_scopes l)) l) i = headroom d l i.
Proof.
  intros Hinv Hs Hn. set (m := <[sid := _]> _).
  assert (∀ j sc', m !! j = Some sc' → ∃ sc0, ll_scopes l !! j = Some sc0
      ∧ bs_parent sc' = bs_parent sc0 ∧ bs_depth sc' = bs_depth sc0 ∧ bs_remaining sc' = bs_remaining sc0
      ∧ bs_active_children sc' = bs_active_children sc0
      ∧ (bs_active_parallel sc' = bs_active_parallel sc0 ∨ bs_active_parallel sc' ≤ be_max_parallel (bs_remaining sc'))) as Hold.
  { intros j sc' [[<- <-]|[Hj Hsc]]%lookup_insert_Some; [exists sc|exists sc']; simpl; auto 10. }
  assert (∀ j sc0, ll_scopes l !! j = Some sc0 → ∃ sc', m !! j = Some sc'
      ∧ bs_parent sc' = bs_parent sc0 ∧ bs_depth sc' = bs_depth sc0 ∧ bs_remaining sc' = bs_remaining sc0) as Hnew.
  { intros j sc0 Hj. unfold m. destruct (decide (j = sid)) as [->|]; [rewrite lookup_insert_eq|rewrite lookup_insert_ne by done];
      simplify_eq; eauto. }
  assert (∀ d i, headroom d (set_scopes m l) i = headroom d l i) as Hh.
  { intros d i. unfold headroom.
    change (outstanding d (set_scopes m l) i) with (outstanding_in d m (ll_reservations l) i).
    rewrite (outstanding_lineages root d l m i); [|done|].
    - unfold remaining_of. simpl. destruct (m !! i) as [sc'|] eqn:Hi.
      + destruct (Hold _ _ Hi) as (sc0 & -> & _ & _ & -> & _). done.
      + destruct (ll_scopes l !! i) as [sc0|] eqn:Hi0; [|done].
        destruct (Hnew _ _ Hi0) as (? & ? & _). congruence.
    - intros k r lin Hk Hl. eapply lineage_same_parents; [|exact Hl]. intros j sc0 _ Hj.
      destruct (Hnew _ _ Hj) as (sc' & ? & ? & _). eauto. }
  split; [|done]. split; simpl.
  - destruct (li_root _ _ Hinv) as (sc0 & Hr & Hrp & Hrd). destruct (Hnew _ _ Hr) as (sc' & Hr' & E1 & E2 & _).
    exists sc'. split_and!; [done|congruence..].
  - intros j sc' Hj Hjr. destruct (Hold _ _ Hj) as (sc0 & Hj0 & E1 & E2 & _).
    destruct (li_tree _ _ Hinv _ _ Hj0 Hjr) as (q & qsc & Hq & Hqs & Hd & Hm).
    destruct (Hnew _ _ Hqs) as (qsc' & Hqs' & F1 & F2 & F3). exists q, qsc'. rewrite E1, E2, F2, F3. done.
  - intros j sc' Hj. destruct (Hold _ _ Hj) as (sc0 & Hj0 & _ & -> & _). by eapply (li_depth _ _ Hinv).
  - intros j sc' Hj. destruct (Hold _ _ Hj) as (sc0 & Hj0 & _ & _ & -> & -> & _).
    unfold m. rewrite (children_count_update _ _ sc) by done. by apply (li_children _ _ Hinv).
  - intros j sc' Hj. destruct (Hold _ _ Hj) as (sc0 & Hj0 & _ & _ & E3 & _ & [->|]); [|done].
    rewrite E3. by eapply (li_parallel _ _ Hinv).
  - intros j sc' Hj. destruct (Hold _ _ Hj) as (sc0 & Hj0 & _). by eapply (li_scope_id _ _ Hinv).
  - intros k r Hk. destruct (li_reservation _ _ Hinv _ _ Hk) as (H1 & [sc0 H2] & H3 & H4).
    split_and!; try done. destruct (Hnew _ _ H2) as (sc' & Hsc' & _). eauto.
  - apply (li_charge _ _ Hinv).
  - intros d i. rewrite Hh. apply (li_headroom _ _ Hinv).
Qed.
