(* ===== verification/LimitsProofs.v ===== *)
(** * Theorems about the limit ledger *)
From S2P Require Export LimitsOps.

(** ** Calls and runs *)

Inductive ledger_op : Type :=
| OpCreate (scope parent : string) (configured : BudgetEnvelope)
| OpClose (scope : string)
| OpReserve (scope reservation : string) (usage : Usage)
| OpCharge (reservation charge_id : string) (actual : Usage)
| OpRelease (reservation : string)
| OpEnter (scope : string)
| OpLeave (scope : string)
| OpLoop (scope loop_id : string) (maximum : N)
| OpAdvance (tick : N).

Definition run_op (o : ledger_op) : stm LimitLedger LimitError () :=
  match o with
  | OpCreate s p c => create_child s p c
  | OpClose s => close_child s
  | OpReserve s r u => reserve s r u
  | OpCharge r c u => charge r c u
  | OpRelease r => release r
  | OpEnter s => enter_parallel s
  | OpLeave s => leave_parallel s
  | OpLoop s i n => _ ← next_loop_iteration s i n; mret ()
  | OpAdvance t => advance_to t
  end.

(** What a call commits: the actual usage of a charge that is not a repeat. *)
Definition committed_by (o : ledger_op) (l : LimitLedger) (d : dim) : N :=
  match o with
  | OpCharge r c u =>
      if is_ok (charge r c u l).2 && negb (bs_contains (ll_charge_ids l) c) then u_get d u else 0
  | _ => 0
  end.

(** The ledgers a run can reach, with the usage committed on the way.  Failed
    calls are part of a run. *)
Inductive ledger_run (root : string) (b : BudgetEnvelope) : (dim → N) → LimitLedger → Prop :=
| run_new l : LimitLedger_new root b = Ok l → ledger_run root b (λ _, 0) l
| run_step committed l o l' r :
    ledger_run root b committed l → run_op o l = (l', r) →
    ledger_run root b (λ d, committed d + committed_by o l d) l'.

Lemma ledger_new_inv root b l :
  (∀ d, b_get d b ≤ u64_max) → LimitLedger_new root b = Ok l →
  ledger_inv root l ∧ (∀ d, headroom d l root = b_get d b) ∧ ll_scopes l !! root = Some (MkScope None 0 b 0 0).
Proof.
  unfold LimitLedger_new. intros Hb Hn. res_inv Hn. destruct x.
  assert (∀ d i, outstanding d (MkLedger 0 {[root := MkScope None 0 b 0 0]} ∅ ∅ ∅) i = 0) as Ho by done.
  split_and!; simpl.
  - split; simpl; try set_solver.
    + exists (MkScope None 0 b 0 0). rewrite lookup_singleton_eq. done.
    + intros i sc [<- <-]%lookup_singleton_Some. done.
    + intros i sc [<- <-]%lookup_singleton_Some. done.
    + intros i sc [<- <-]%lookup_singleton_Some. simpl. split; [|lia].
      symmetry. unfold children_count. rewrite <-insert_empty.
      by rewrite count_values_insert by apply lookup_empty.
    + intros i sc [<- <-]%lookup_singleton_Some. simpl. lia.
    + intros i sc [<- <-]%lookup_singleton_Some. done.
    + intros d i. unfold headroom, remaining_of. rewrite Ho. simpl.
      destruct (decide (i = root)) as [->|]; [rewrite lookup_singleton_eq|rewrite lookup_singleton_ne by done];
        simpl; [specialize (Hb d)|]; lia.
  - intros d. unfold headroom, remaining_of. rewrite Ho. simpl. rewrite lookup_singleton_eq. simpl. lia.
  - by rewrite lookup_singleton_eq.
Qed.

(** ** One call *)

(** Failed calls change nothing, except that [advance_to] keeps the new tick
    when it reports an expired deadline. *)
Lemma close_child_err root s l l' e : ledger_inv root l → close_child s l = (l', Err e) → l' = l.
Proof.
  intros Hinv. unfold close_child. intros Hc. err_inv Hc; simplify_eq/=; try done.
  rename x1 into scope. destruct (bs_parent scope) as [p|] eqn:Hp; [|done].
  err_inv Hc; simplify_eq/=. exfalso.
  assert (s ≠ root) as Hne.
  { intros ->. destruct (li_root _ _ Hinv) as (sc & Hr & Hrp & _). congruence. }
  destruct (li_tree _ _ Hinv _ _ Hc1 Hne) as (q & psc & Hq & Hps & Hd & _).
  assert (q ≠ s) by (intros ->; simplify_eq; lia). simplify_eq.
  rewrite lookup_delete_ne in * by done. rewrite Hps in *. done.
Qed.

Lemma charge_err root r c u l l' e : ledger_inv root l → charge r c u l = (l', Err e) → l' = l.
Proof.
  intros Hinv Hc. destruct (validate_logical_id c) as [[]|e'] eqn:Hv.
  2: { unfold charge, mbind, stm_bind, lift in Hc. rewrite Hv in Hc. by simplify_eq. }
  destruct (decide (c ∈ ll_charge_ids l)) as [Hin|Hin].
  { unfold charge, mbind, stm_bind, lift, read in Hc. rewrite Hv in Hc. unfold bs_contains in Hc.
    rewrite bool_decide_true in Hc by done. by simplify_eq. }
  destruct (ll_reservations l !! r) as [rec|] eqn:Hr.
  2: { unfold charge, mbind, stm_bind, lift, read in Hc. rewrite Hv in Hc. unfold bs_contains in Hc.
       rewrite bool_decide_false, Hr in Hc by done. by simplify_eq/=. }
  pose proof (charge_run root r c u rec l Hinv Hv Hin Hr) as Hrun.
  destruct (usage_contains _ _); [destruct Hrun as (lin & m & _ & Heq & _)|]; congruence.
Qed.

Lemma release_err root r l l' e : ledger_inv root l → release r l = (l', Err e) → l' = l.
Proof.
  intros Hinv Hc. destruct (ll_reservations l !! r) as [rec|] eqn:Hr.
  - destruct (release_run root r rec l Hinv Hr) as (lin & m & _ & Heq & _). congruence.
  - unfold release, mbind, stm_bind, lift, read in Hc. rewrite Hr in Hc. by simplify_eq/=.
Qed.

Lemma failed_op root o l l' e :
  ledger_inv root l → run_op o l = (l', Err e) →
  l' = l ∨ ∃ t, o = OpAdvance t ∧ e = DeadlineExceeded ∧ l' = set_tick t l.
Proof.
  intros Hinv Ho. destruct o; simpl in Ho.
  - left. unfold create_child in Ho. err_inv Ho; simplify_eq/=; done.
  - left. by eapply close_child_err.
  - left. by eapply reserve_err.
  - left. by eapply charge_err.
  - left. by eapply release_err.
  - left. unfold enter_parallel in Ho. err_inv Ho; simplify_eq/=; done.
  - left. unfold leave_parallel in Ho. err_inv Ho; simplify_eq/=; done.
  - left. unfold next_loop_iteration in Ho. err_inv Ho; simplify_eq/=; done.
  - unfold advance_to in Ho. err_inv Ho; simplify_eq/=; eauto.
Qed.

(** The frozen limits (depth, fan-out, parallelism, deadline) of every scope
    that exists before and after. *)
Definition limits_kept (l l' : LimitLedger) : Prop :=
  ∀ i sc sc', ll_scopes l !! i = Some sc → ll_scopes l' !! i = Some sc' →
    frozen (bs_remaining sc') = frozen (bs_remaining sc).

Lemma same_shape_limits l l' : same_shape (ll_scopes l) (ll_scopes l') → limits_kept l l'.
Proof.
  intros Hs i sc sc' Hi Hi'. specialize (Hs i). rewrite Hi, Hi' in Hs. apply (inj Some) in Hs.
  unfold shape in Hs. congruence.
Qed.

Lemma same_remaining_limits l l' :
  (∀ i sc sc', ll_scopes l !! i = Some sc → ll_scopes l' !! i = Some sc' → bs_remaining sc' = bs_remaining sc) →
  limits_kept l l'.
Proof. intros Hs i sc sc' Hi Hi'. by rewrite (Hs i sc sc'). Qed.

Lemma set_parallel_limits sid sc n l :
  ll_scopes l !! sid = Some sc →
  limits_kept l (set_scopes (<[sid := with_active_parallel n sc]> (ll_scopes l)) l).
Proof.
  intros Hs. apply same_remaining_limits. intros i sc1 sc2 H1. simpl.
  intros [[<- <-]|[_ H2]]%lookup_insert_Some; simplify_eq; done.
Qed.

(** Ledgers with the same scopes and reservations have the same invariant. *)
Lemma same_books_inv root l l' :
  ll_scopes l' = ll_scopes l → ll_reservations l' = ll_reservations l → ll_charge_ids l' = ll_charge_ids l →
  ledger_inv root l → ledger_inv root l' ∧ (∀ d i, headroom d l' i = headroom d l i) ∧ limits_kept l l'.
Proof.
  intros E1 E2 E3 Hinv.
  assert (∀ d i, headroom d l' i = headroom d l i) as Hh
    by (intros d i; unfold headroom, remaining_of, outstanding; by rewrite E1, E2).
  split_and!; [|done|].
  - destruct Hinv. split; rewrite ?E1, ?E2, ?E3; try done. intros d i. rewrite Hh. auto.
  - intros i sc sc'. rewrite E1. congruence.
Qed.

Lemma charge_cases r c u l l' :
  charge r c u l = (l', Ok ()) → validate_logical_id c = Ok () ∧
  ((c ∈ ll_charge_ids l ∧ l' = l) ∨ (c ∉ ll_charge_ids l ∧ ∃ rec, ll_reservations l !! r = Some rec)).
Proof.
  unfold charge. intros Hc. apply bind_ok in Hc as (l0 & [] & Hv & Hc). apply lift_ok in Hv as [Hv ->].
  apply bind_ok in Hc as (l0 & l1 & Hread & Hc). apply read_ok in Hread as [-> ->].
  split; [done|]. unfold bs_contains in Hc. case_bool_decide.
  - left. by apply ret_ok in Hc as [-> _].
  - right. split; [done|]. apply bind_ok in Hc as (l0 & rec & Hr & _). apply lift_ok in Hr as [Hr _].
    apply ok_or_ok in Hr. eauto.
Qed.

Lemma op_ok root o l l' :
  ledger_inv root l → run_op o l = (l', Ok ()) →
  ledger_inv root l' ∧ (∀ d, headroom d l' root + committed_by o l d = headroom d l root) ∧ limits_kept l l'.
Proof.
  intros Hinv Ho. destruct o; simpl in Ho; cbn [committed_by]; setoid_rewrite N.add_0_r || idtac.
  - split_and!; [by eapply create_child_inv|..].
    + intros d. eapply create_child_headroom; [done..|].
      intros ->. apply create_child_ok in Ho as (par & _ & Hs & _).
      destruct (li_root _ _ Hinv) as (sc & Hr & _). congruence.
    + apply create_child_ok in Ho as (par & Hp & Hs & _ & _ & _ & _ & ->).
      apply same_remaining_limits. intros i sc sc' Hi. simpl.
      rewrite lookup_insert_ne by congruence.
      intros [[<- <-]|[_ H2]]%lookup_insert_Some; simplify_eq; done.
  - split_and!; [by eapply close_child_inv|..].
    + intros d. eapply close_child_headroom; [done..|].
      intros ->. apply close_child_ok in Ho as (sc & p & _ & Hs & Hp & _).
      destruct (li_root _ _ Hinv) as (sc' & Hr & Hrp & _). congruence.
    + apply close_child_ok in Ho as (sc & p & parent & Hs & Hp & Hne & Hpar & _ & _ & ->).
      apply same_remaining_limits. intros i sc1 sc2 Hi. simpl.
      intros [[<- <-]|[_ [_ H2]%lookup_delete_Some]]%lookup_insert_Some; simplify_eq; done.
  - split_and!; [by eapply reserve_inv| |by eapply same_shape_limits, reserve_shape].
    intros d. by eapply reserve_headroom.
  - rewrite Ho. simpl. unfold bs_contains.
    destruct (charge_cases _ _ _ _ _ Ho) as (Hv & [[Hin ->]|(Hin & rec & Hr)]).
    + rewrite (bool_decide_true _ Hin). simpl. split_and!; [done|intros; lia|]. intros i sc sc'. congruence.
    + pose proof (charge_run root reservation charge_id actual rec l Hinv Hv Hin Hr) as Hrun.
      destruct (usage_contains _ _); [|congruence].
      destruct Hrun as (lin & m & Hl & Heq & Hs & _ & _ & Hi & Hh).
      rewrite (bool_decide_false _ Hin). simpl. rewrite Heq in Ho. injection Ho as <-.
      split_and!; [done| |by apply same_shape_limits].
      intros d. specialize (Hh d root). rewrite bool_decide_true in Hh; [done|].
      destruct (li_reservation _ _ Hinv _ _ Hr) as (_ & [sc Hsc] & _).
      destruct (inv_lineage _ _ _ _ Hinv Hsc) as (lin' & Hl' & Hroot).
      by rewrite (lineage_det _ _ _ _ Hl Hl').
  - destruct (ll_reservations l !! reservation) as [rec|] eqn:Hr.
    2: { unfold release, mbind, stm_bind, lift, read in Ho. rewrite Hr in Ho. by simplify_eq/=. }
    destruct (release_run root reservation rec l Hinv Hr) as (lin & m & _ & Heq & Hs & _ & _ & Hi & Hh).
    rewrite Heq in Ho. injection Ho as <-. split_and!; [done|by intros; rewrite Hh|by apply same_shape_limits].
  - unfold enter_parallel in Ho. run_inv Ho. boolify. unfold scope_before_deadline in *.
    match goal with Hx : mbind _ _ = Ok _ |- _ => res_inv Hx end. boolify.
    edestruct set_parallel_inv as [Hi Hh]; [exact Hinv| | |]; cycle 2.
    { split_and!; [exact Hi|intros; apply Hh|by apply set_parallel_limits]. } { done. } { lia. }
  - unfold leave_parallel in Ho. run_inv Ho.
    match goal with Hx : ll_scopes l !! _ = Some ?y |- _ => rename Hx into Hs; rename y into sc end.
    pose proof (li_parallel _ _ Hinv _ _ Hs).
    edestruct (set_parallel_inv root scope sc (saturating_sub (bs_active_parallel sc) 1)) as [Hi Hh];
      [done|done|unfold saturating_sub; lia|].
    split_and!; [exact Hi|intros; apply Hh|by apply set_parallel_limits].
  - unfold next_loop_iteration in Ho. run_inv Ho.
    match goal with |- ledger_inv _ ?l1 ∧ _ =>
      destruct (same_books_inv root l l1 eq_refl eq_refl eq_refl Hinv) as (H1 & H2 & H3) end.
    split_and!; [done|by intros; rewrite H2|done].
  - unfold advance_to in Ho. run_inv Ho.
    destruct (same_books_inv root l (set_tick tick l) eq_refl eq_refl eq_refl Hinv) as (H1 & H2 & H3).
    split_and!; [done|by intros; rewrite H2|done].
Qed.

(** ** Theorems *)

Lemma run_facts root b committed l :
  (∀ d, b_get d b ≤ u64_max) → ledger_run root b committed l →
  ledger_inv root l ∧ (∀ d, headroom d l root + committed d = b_get d b)
  ∧ ∃ sc, ll_scopes l !! root = Some sc ∧ frozen (bs_remaining sc) = frozen b.
Proof.
  intros Hb. induction 1 as [l Hn|committed l o l' r Hrun (Hinv & Hh & sc & Hsc & Hf) Ho].
  - destruct (ledger_new_inv root b l Hb Hn) as (H1 & H2 & H3). split_and!; [done| |eauto].
    intros d. rewrite H2. lia.
  - destruct r as [[]|e].
    + destruct (op_ok root o l l' Hinv Ho) as (H1 & H2 & H3). split_and!; [done|..].
      * intros d. specialize (H2 d). specialize (Hh d). lia.
      * destruct (li_root _ _ H1) as (sc' & Hsc' & _). exists sc'. split; [done|].
        by rewrite (H3 _ _ _ Hsc Hsc').
    + assert (∀ d, committed_by o l d = 0) as Hc.
      { intros d. destruct o; try done. simpl in *. by rewrite Ho. }
      destruct (failed_op root o l l' e Hinv Ho) as [->|(t & -> & -> & ->)].
      * split_and!; [done| |eauto]. intros d. rewrite Hc, N.add_0_r. apply Hh.
      * destruct (same_books_inv root l (set_tick t l) eq_refl eq_refl eq_refl Hinv) as (H1 & H2 & H3).
        split_and!; [done| |eauto]. intros d. rewrite H2, Hc, N.add_0_r. apply Hh.
Qed.

(** C32: budget conservation.  Along every run of the ledger, failed calls
    included, and in each metered dimension, the root's remaining allowance,
    plus what outstanding reservations hold, plus the usage committed by
    charges counted once per charge id, is exactly the budget the run started
    with; and the root's depth, fan-out, parallelism and deadline limits are
    the frozen ones.  No sequence of calls mints budget or extends
    the root's deadline. *)
Theorem budget_conserved root b committed l :
  (∀ d, b_get d b ≤ u64_max) → ledger_run root b committed l →
  (∀ d, remaining_of d l root + outstanding d l root + committed d = b_get d b)
  ∧ ∃ sc, ll_scopes l !! root = Some sc ∧ frozen (bs_remaining sc) = frozen b.
Proof. intros Hb Hr. destruct (run_facts root b committed l Hb Hr) as (_ & H1 & H2). done. Qed.

(** Along every run the ledger's invariant holds: the scopes form a tree
    under the root within the frozen depth, fan-out and parallelism limits,
    child counters are exact, every reservation belongs to an open scope, and
    giving everything back can never overflow. *)
Theorem ledger_run_inv root b committed l :
  (∀ d, b_get d b ≤ u64_max) → ledger_run root b committed l → ledger_inv root l.
Proof. intros Hb Hr. by destruct (run_facts root b committed l Hb Hr) as (H & _). Qed.

(** [reserve] is atomic over the whole lineage: when it succeeds, each
    scope from the given one to the root loses exactly the requested usage
    and no other scope changes; when it fails, for instance because one
    ancestor cannot pay or has expired, nothing changes at all. *)
Theorem reserve_atomic sid rid u l l' r :
  reserve sid rid u l = (l', r) →
  match r with
  | Err _ => l' = l
  | Ok _ => ∃ lin, is_lineage (ll_scopes l) sid lin
      ∧ ll_reservations l !! rid = None
      ∧ ll_reservations l' = <[rid := MkReservationRecord rid sid u]> (ll_reservations l)
      ∧ (∀ i, i ∉ lin → ll_scopes l' !! i = ll_scopes l !! i)
      ∧ ∀ i, i ∈ lin → ∃ sc sc', ll_scopes l !! i = Some sc ∧ ll_scopes l' !! i = Some sc'
          ∧ shape sc' = shape sc ∧ ll_tick l < be_deadline_tick (bs_remaining sc)
          ∧ ∀ d, b_get d (bs_remaining sc) = b_get d (bs_remaining sc') + u_get d u
  end.
Proof.
  intros Hr. destruct r as [[]|e]; [|by eapply reserve_err].
  destruct (reserve_ok _ _ _ _ _ Hr) as (lin & m & _ & _ & Hf & _ & Hl & Hout & Hin & ->).
  exists lin. split_and!; try done. intros i Hi. destruct (Hin i Hi) as (sc & b & Hsc & Hb & Ht & Hm).
  exists sc, (with_remaining b sc). apply envelope_sub_ok in Hb as [Hd Hfr].
  split_and!; try done.
  - unfold shape. simpl. by rewrite Hfr.
  - intros d. simpl. destruct (Hd d) as [H1 H2]. lia.
Qed.

(** Releasing a reservation undoes it: the ledger after [reserve] and
    [release] is the ledger before. *)
Theorem reserve_release_identity root sid rid u l l1 :
  ledger_inv root l → reserve sid rid u l = (l1, Ok ()) → release rid l1 = (l, Ok ()).
Proof.
  intros Hinv Hr. pose proof (reserve_inv root _ _ _ _ _ Hinv Hr) as Hinv1.
  destruct (reserve_ok _ _ _ _ _ Hr) as (lin & m & _ & _ & Hf & _ & Hl & Hout & Hin & ->).
  destruct (release_run root rid (MkReservationRecord rid sid u) _ Hinv1)
    as (lin' & m' & Hl' & Heq & Hs & Hout' & Hin' & _); [apply lookup_insert_eq|].
  rewrite Heq. simpl in *. f_equal.
  assert (lin' = lin) as ->.
  { eapply lineage_det; [exact Hl'|]. apply (same_shape_lineage (ll_scopes l)); [|done].
    pose proof (reserve_shape _ _ _ _ _ Hr) as Hs1. exact Hs1. }
  assert (m' = ll_scopes l) as ->.
  { apply map_eq. intros i. destruct (decide (i ∈ lin)) as [Hi|Hi]; [|by rewrite Hout', Hout].
    destruct (Hin i Hi) as (sc & b & -> & [Hd Hfr]%envelope_sub_ok & _ & Hm).
    destruct (Hin' i Hi) as (sc' & b' & Hm' & -> & Hfr' & Hd'). rewrite Hm in Hm'. simplify_eq/=.
    f_equal. destruct sc as [p dep rem ch par]. unfold with_remaining. simpl in *. f_equal.
    apply envelope_ext; [|unfold frozen in *; congruence]. intros d. rewrite Hd'. destruct (Hd d). lia. }
  rewrite delete_insert_id by done. by destruct l.
Qed.

(** A charge settles a reservation exactly: after [reserve] and [charge],
    every scope of the lineage has lost the actual usage and nothing else, no
    reservation is left, and charging the same id again is a no-op. *)
Theorem reserve_charge_exact root sid rid cid u actual l l1 :
  ledger_inv root l → reserve sid rid u l = (l1, Ok ()) → validate_logical_id cid = Ok () →
  cid ∉ ll_charge_ids l → usage_contains u actual = true →
  ∃ l2 lin, charge rid cid actual l1 = (l2, Ok ()) ∧ is_lineage (ll_scopes l) sid lin
    ∧ ll_reservations l2 = ll_reservations l
    ∧ (∀ i, i ∉ lin → ll_scopes l2 !! i = ll_scopes l !! i)
    ∧ (∀ i, i ∈ lin → ∃ sc sc', ll_scopes l !! i = Some sc ∧ ll_scopes l2 !! i = Some sc'
         ∧ shape sc' = shape sc
         ∧ ∀ d, b_get d (bs_remaining sc) = b_get d (bs_remaining sc') + u_get d actual)
    ∧ ∀ rid' actual', charge rid' cid actual' l2 = (l2, Ok ()).
Proof.
  intros Hinv Hr Hv Hc Hu. pose proof (reserve_inv root _ _ _ _ _ Hinv Hr) as Hinv1.
  pose proof (reserve_shape _ _ _ _ _ Hr) as Hsh.
  destruct (reserve_ok _ _ _ _ _ Hr) as (lin & m & _ & _ & Hf & _ & Hl & Hout & Hin & ->).
  pose proof (charge_run root rid cid actual (MkReservationRecord rid sid u) _ Hinv1 Hv) as Hrun.
  simpl in Hrun. rewrite lookup_insert_eq, Hu in Hrun. specialize (Hrun Hc eq_refl).
  destruct Hrun as (lin' & m' & Hl' & Heq & Hs & Hout' & Hin' & _).
  assert (lin' = lin) as ->.
  { eapply lineage_det; [exact Hl'|]. apply (same_shape_lineage (ll_scopes l)); [exact Hsh|done]. }
  eexists _, lin. split; [exact Heq|]. simpl in *. split_and!; try done.
  - by rewrite delete_insert_id.
  - intros i Hi. by rewrite Hout', Hout.
  - intros i Hi. destruct (Hin i Hi) as (sc & b & Hsc & [Hd Hfr]%envelope_sub_ok & _ & Hm).
    destruct (Hin' i Hi) as (sc' & b' & Hm' & Hm2 & Hfr' & Hd'). rewrite Hm in Hm'. simplify_eq/=.
    exists sc, (with_remaining b' (with_remaining b sc)). split_and!; try done.
    + unfold shape, frozen in *. simpl in *. congruence.
    + intros d. simpl. rewrite Hd'. destruct (Hd d).
      pose proof (proj1 (usage_contains_iff _ _) Hu d). lia.
  - intros rid' actual'. unfold charge, mbind, stm_bind, lift, read. rewrite Hv. simpl.
    unfold bs_contains. rewrite bool_decide_true by set_solver. done.
Qed.

(** A ledger call that fails changes nothing, except that [advance_to]
    keeps the new tick when it reports that a deadline has passed. *)
Theorem failed_ledger_call root o l l' e :
  ledger_inv root l → run_op o l = (l', Err e) →
  l' = l ∨ ∃ t, o = OpAdvance t ∧ e = DeadlineExceeded ∧ l' = set_tick t l.
Proof. apply failed_op. Qed.

(** A child scope never gets more than its parent has left: in every
    dimension and for every frozen limit the child's envelope is the minimum
    of its configuration and the parent's remaining envelope, its depth is
    the parent's plus one and within the parent's depth limit, and nothing of
    the parent is consumed. *)
Theorem create_child_narrows sid pid conf l l' :
  create_child sid pid conf l = (l', Ok ()) →
  ∃ parent child, ll_scopes l !! pid = Some parent ∧ ll_scopes l !! sid = None
    ∧ ll_scopes l' !! sid = Some child ∧ bs_parent child = Some pid
    ∧ bs_depth child = bs_depth parent + 1 ∧ bs_depth child ≤ be_max_depth (bs_remaining parent)
    ∧ (∀ d, b_get d (bs_remaining child) = N.min (b_get d conf) (b_get d (bs_remaining parent)))
    ∧ be_deadline_tick (bs_remaining child) ≤ be_deadline_tick (bs_remaining parent)
    ∧ be_max_depth (bs_remaining child) ≤ be_max_depth (bs_remaining parent)
    ∧ remaining l' pid = Some (bs_remaining parent).
Proof.
  intros (parent & Hp & Hs & _ & _ & Hd & _ & ->)%create_child_ok.
  assert (sid ≠ pid) by congruence. eexists parent, _. unfold remaining. simpl.
  rewrite lookup_insert_eq, lookup_insert_ne, lookup_insert_eq by done.
  split_and!; try done; simpl; try lia. by intros [].
Qed.

(** [next_loop_iteration] numbers the iterations of a loop one by one and
    never hands out more than the maximum: a success returns the previous
    count plus one, at most the maximum, and once the maximum is reached the
    call fails without changing the ledger. *)
Theorem next_loop_iteration_bounded sid lid maximum l l' r :
  next_loop_iteration sid lid maximum l = (l', r) →
  let current := default 0 (ll_loop_iterations l !! loop_key sid lid) in
  match r with
  | Ok n => n = current + 1 ∧ n ≤ maximum ∧ l' = set_loop_iterations (<[loop_key sid lid := n]> (ll_loop_iterations l)) l
  | Err _ => l' = l
  end ∧ (maximum ≤ current → is_err r = true).
Proof.
  intros Hr. cbv zeta. unfold next_loop_iteration in Hr. destruct r as [n|e].
  - run_inv Hr. boolify.
    match goal with Hx : checked_add _ _ _ = Some _ |- _ => apply checked_add_Some in Hx as [? ->] end.
    split_and!; [done|lia|done|]. intros. lia.
  - err_inv Hr; simplify_eq/=; done.
Qed.
