(* ===== verification/LimitsRestore.v ===== *)
(** * Checkpoints of the limit ledger *)
From S2P Require Export LimitsProofs.

(** ** Collecting into maps *)

Lemma collect_map_iter {V} (m : gmap string V) : collect_map (bt_iter m) = m.
Proof.
  apply map_eq. intros k. apply option_eq. intros v. unfold collect_map.
  rewrite foldl_insert_lookup by apply NoDup_bt_keys. rewrite elem_of_bt_iter, lookup_empty. naive_solver.
Qed.

(** ** Round trip *)

(** What the ledger must avoid for its checkpoint to be accepted: expired or
    unrepresentable deadlines, a charge id that is also a live reservation,
    and loop counters whose key does not name an open scope. *)
Record restorable (l : LimitLedger) (new_tick : N) : Prop := {
  rs_deadline : ∀ i sc, ll_scopes l !! i = Some sc →
    ll_tick l < be_deadline_tick (bs_remaining sc)
    ∧ new_tick + (be_deadline_tick (bs_remaining sc) - ll_tick l) ≤ u64_max;
  rs_charge : ∀ i, i ∈ ll_charge_ids l → ll_reservations l !! i = None;
  rs_loop : ∀ k n, ll_loop_iterations l !! k = Some n → bad_loop_entry (ll_scopes l) (k, n) = false
}.

(** The ledger with its deadlines moved to a new epoch. *)
Definition rebase_scope (old new : N) (sc : BudgetScope) : BudgetScope :=
  with_remaining (with_deadline (new + (be_deadline_tick (bs_remaining sc) - old)) (bs_remaining sc)) sc.
Definition rebase (new : N) (l : LimitLedger) : LimitLedger :=
  MkLedger new (rebase_scope (ll_tick l) new <$> ll_scopes l) (ll_reservations l) (ll_charge_ids l)
    (ll_loop_iterations l).

Section roundtrip.
Context (root : string) (l : LimitLedger) (new_tick : N).
Context (Hinv : ledger_inv root l) (Hrs : restorable l new_tick).

Let scopes' : gmap string BudgetScope := rebase_scope (ll_tick l) new_tick <$> ll_scopes l.

Lemma rebase_lookup i sc' : scopes' !! i = Some sc' ↔
  ∃ sc, ll_scopes l !! i = Some sc ∧ sc' = rebase_scope (ll_tick l) new_tick sc.
Proof. unfold scopes'. rewrite lookup_fmap, fmap_Some. done. Qed.

Lemma rebase_contains i : bt_contains scopes' i = bt_contains (ll_scopes l) i.
Proof. unfold bt_contains, scopes'. rewrite lookup_fmap. by destruct (ll_scopes l !! i). Qed.

Lemma rebase_count f : (∀ sc, f (rebase_scope (ll_tick l) new_tick sc) = f sc) →
  count_values f scopes' = count_values f (ll_scopes l).
Proof. intros Hf. apply count_values_fmap. intros. apply Hf. Qed.

Lemma restore_scopes_roundtrip :
  fold_res (restore_scope new_tick) ∅ (lk_scopes (limit_checkpoint l)) = Ok scopes'.
Proof.
  simpl. set (save := λ '(i, sc), MkScopeCheckpoint i (bs_parent sc) (bs_depth sc) _ _ _).
  set (kv := λ c : BudgetScopeCheckpoint, (bc_scope_id c,
    MkScope (bc_parent_scope_id c) (bc_depth c)
      (with_deadline (new_tick + be_deadline_tick (bc_remaining c)) (bc_remaining c))
      (bc_active_children c) (bc_active_parallel c))).
  assert (kv ∘ save <$> bt_iter (ll_scopes l)
    = (λ p, (p.1, rebase_scope (ll_tick l) new_tick p.2)) <$> bt_iter (ll_scopes l)) as Hkv.
  { apply list_fmap_ext. intros i [j sc] _. done. }
  rewrite (fold_collect _ kv).
  - f_equal. rewrite <-list_fmap_compose, Hkv. apply map_eq. intros i. apply option_eq. intros sc'.
    rewrite foldl_insert_lookup, rebase_lookup, lookup_empty, list_elem_of_fmap.
    + split.
      * intros [([j sc] & [= -> ->] & Hin%elem_of_bt_iter)|[_ [=]]]. eauto.
      * intros (sc & Hsc & ->). left. exists (i, sc). split; [done|]. by apply elem_of_bt_iter.
    + rewrite <-list_fmap_compose. apply NoDup_bt_keys.
  - intros c m Hc _. apply list_elem_of_fmap in Hc as ([i sc] & -> & Hin%elem_of_bt_iter).
    unfold restore_scope, save. simpl. rewrite (li_scope_id _ _ Hinv _ _ Hin). simpl.
    destruct (rs_deadline _ _ Hrs _ _ Hin) as [_ Hd]. unfold saturating_sub.
    by rewrite checked_add_ok by done.
  - rewrite <-list_fmap_compose. replace (fst ∘ kv ∘ save <$> bt_iter (ll_scopes l)) with (bt_keys (ll_scopes l));
      [apply NoDup_bt_keys|]. apply list_fmap_ext. by intros i [j sc] _.
  - done.
Qed.

Lemma restore_check_scope_roundtrip sc' :
  sc' ∈ bt_values scopes' → restore_check_scope new_tick scopes' sc' = Ok ().
Proof.
  intros [i (sc & Hsc & ->)%rebase_lookup]%elem_of_bt_values. unfold restore_check_scope. simpl.
  pose proof (li_parallel _ _ Hinv _ _ Hsc). destruct (rs_deadline _ _ Hrs _ _ Hsc) as [Hd _].
  assert (match bs_parent sc with
      | Some parent => fail_if (negb (bt_contains scopes' parent)) (UnknownScope parent)
      | None => Ok () end = Ok ()) as ->.
  { destruct (bs_parent sc) as [p|] eqn:Hp; [|done]. rewrite rebase_contains.
    destruct (decide (i = root)) as [->|Hne].
    - destruct (li_root _ _ Hinv) as (rsc & Hr & Hrp & _). congruence.
    - destruct (li_tree _ _ Hinv _ _ Hsc Hne) as (q & psc & Hq & Hps & _). simplify_eq.
      unfold bt_contains. by rewrite Hps. }
  simpl. rewrite (proj2 (N.ltb_ge _ _)) by done. simpl. apply fail_if_ok, N.leb_gt. lia.
Qed.

Lemma one_root : count_values (λ sc, bool_decide (bs_parent sc = None)) scopes' = 1.
Proof.
  rewrite rebase_count by done. destruct (li_root _ _ Hinv) as (rsc & Hr & Hrp & _).
  rewrite <-(insert_delete_id (ll_scopes l) root rsc Hr).
  rewrite count_values_insert by apply lookup_delete_eq. rewrite bool_decide_true by done.
  unfold count_values, len. rewrite list_filter_all_false; [done|].
  intros sc [k [Hk Hsc]%lookup_delete_Some]%elem_of_bt_values Hb%bool_decide_eq_true.
  destruct (li_tree _ _ Hinv _ _ Hsc) as (q & psc & Hq & _); congruence.
Qed.

Lemma restore_check_tree_roundtrip e :
  e ∈ bt_iter scopes' → restore_check_tree scopes' e = Ok ().
Proof.
  destruct e as [i sc']. intros (sc & Hsc & ->)%elem_of_bt_iter%rebase_lookup. simpl.
  destruct (li_children _ _ Hinv _ _ Hsc) as [Hc Hf].
  assert (children_count scopes' i = bs_active_children sc) as ->
    by (rewrite Hc; unfold children_count; by rewrite rebase_count).
  rewrite N.eqb_refl. simpl. rewrite (proj2 (N.ltb_ge _ _)) by done. simpl.
  destruct (decide (i = root)) as [->|Hne].
  - destruct (li_root _ _ Hinv) as (rsc & Hr & Hrp & Hrd). simplify_eq. rewrite Hrp, Hrd. done.
  - destruct (li_tree _ _ Hinv _ _ Hsc Hne) as (q & psc & Hq & Hps & Hd & Hm). rewrite Hq.
    unfold scopes'. rewrite lookup_fmap, Hps. simpl. unfold saturating_add.
    pose proof (li_depth _ _ Hinv _ _ Hsc). rewrite N.min_l, <-Hd, N.eqb_refl by lia. simpl.
    by rewrite (proj2 (N.ltb_ge _ _)).
Qed.

Lemma restore_reservations_roundtrip :
  fold_res (restore_reservation scopes') ∅ (bt_values (ll_reservations l)) = Ok (ll_reservations l).
Proof.
  assert ((λ r, (rr_reservation_id r, r)) <$> bt_values (ll_reservations l) = bt_iter (ll_reservations l)) as Hkv.
  { unfold bt_values. rewrite <-list_fmap_compose. rewrite <-(list_fmap_id (bt_iter _)) at 2.
    apply list_fmap_ext. intros j [k r] Hin%list_elem_of_lookup_2%elem_of_bt_iter.
    simpl. destruct (li_reservation _ _ Hinv _ _ Hin) as (-> & _). done. }
  rewrite (fold_collect _ (λ r, (rr_reservation_id r, r))).
  - rewrite Hkv. f_equal. apply collect_map_iter.
  - intros r m [k Hk]%elem_of_bt_values Hm. unfold restore_reservation. simpl in *.
    destruct (li_reservation _ _ Hinv _ _ Hk) as (Hid & [sc Hsc] & Hz & Hv).
    rewrite Hid, Hv in *. simpl. rewrite rebase_contains, Hz, (proj2 (bt_contains_false _ _) Hm).
    unfold bt_contains. by rewrite Hsc.
  - rewrite list_fmap_compose, Hkv. apply NoDup_bt_keys.
  - done.
Qed.

Lemma limit_restore_roundtrip : limit_restore (limit_checkpoint l) new_tick = Ok (rebase new_tick l).
Proof.
  unfold limit_restore. rewrite restore_scopes_roundtrip. simpl.
  rewrite (proj2 (for_each_ok _ _ ()) restore_check_scope_roundtrip). simpl.
  rewrite one_root. simpl.
  rewrite (proj2 (for_each_ok _ _ ()) restore_check_tree_roundtrip). simpl.
  rewrite restore_reservations_roundtrip. simpl. rewrite list_to_set_bt_elems.
  unfold bs_len, len. rewrite length_bt_elems, N.eqb_refl. simpl.
  assert (existsb (λ i, is_err (validate_logical_id i) || bt_contains (ll_reservations l) i)
            (bt_elems (ll_charge_ids l)) = false) as ->.
  { apply existsb_false. intros i Hi%elem_of_bt_elems. rewrite (li_charge _ _ Hinv _ Hi). simpl.
    apply bt_contains_false. by apply (rs_charge _ _ Hrs). }
  simpl.
  rewrite collect_map_iter. unfold bt_len. rewrite length_bt_iter, N.eqb_refl. simpl.
  rewrite (proj2 (existsb_false _ _)); [done|].
  intros [k n] Hk%elem_of_bt_iter. pose proof (rs_loop _ _ Hrs _ _ Hk) as Hb.
  unfold bad_loop_entry in *. destruct (split_once _ _) as [[a b]|]; [|done].
  by rewrite rebase_contains.
Qed.
End roundtrip.

(** The checkpoint of a ledger restores, at a new epoch, to the same
    ledger with every deadline the same duration away: budgets,
    reservations, charges and loop counters are kept, and no deadline is
    extended.  The ledger must have no expired scope, no charge id that is
    also a live reservation, and loop counters only of open scopes. *)
Theorem limit_checkpoint_roundtrip root l new_tick :
  ledger_inv root l → restorable l new_tick →
  limit_restore (limit_checkpoint l) new_tick = Ok (rebase new_tick l).
Proof. apply limit_restore_roundtrip. Qed.

(** ** Executable runs, witnesses and refused checkpoints *)

Fixpoint run_ops (ops : list ledger_op) (l : LimitLedger) : LimitLedger :=
  match ops with [] => l | o :: ops => run_ops ops (run_op o l).1 end.

Lemma run_ops_run root b ops committed l :
  ledger_run root b committed l → ∃ committed', ledger_run root b committed' (run_ops ops l).
Proof.
  revert committed l. induction ops as [|o ops IH]; intros committed l Hr; simpl; [eauto|].
  destruct (run_op o l) as [l' r] eqn:Ho. eapply IH. eapply run_step; [exact Hr|exact Ho].
Qed.

Module DemoLedger.
Definition budget : BudgetEnvelope := MkEnvelope10 100 100 100 100 100 100 3 4 2 1000.
Definition start (root : string) : LimitLedger :=
  match LimitLedger_new root budget with Ok l => l | Err _ => MkLedger 0 ∅ ∅ ∅ ∅ end.
Definition use (n : N) : Usage := MkUsage n n n n n n.
(** A child scope with one settled and one outstanding reservation. *)
Definition ops : list ledger_op :=
  [OpCreate "child" "run" (MkEnvelope10 10 10 10 10 10 10 3 4 2 500);
   OpReserve "child" "r1" (use 4); OpCharge "r1" "c1" (use 3);
   OpReserve "child" "r2" (use 2); OpLoop "child" "loop" 3; OpAdvance 7].
Definition ledger : LimitLedger := run_ops ops (start "run").

Lemma budget_fits d : b_get d budget ≤ u64_max.
Proof. by destruct d. Qed.
Lemma demo_reach root ops' : validate_logical_id root = Ok () →
  ∃ committed, ledger_run root budget committed (run_ops ops' (start root)).
Proof.
  intros Hv. apply (run_ops_run root budget ops' (λ _, 0)). apply run_new. unfold start, LimitLedger_new.
  by rewrite Hv.
Qed.
Lemma inv root ops' : validate_logical_id root = Ok () → ledger_inv root (run_ops ops' (start root)).
Proof. intros Hv. destruct (demo_reach root ops' Hv) as [c Hr]. by apply (run_facts root budget c _ budget_fits). Qed.
End DemoLedger.

(** Three runs after which the ledger refuses its own checkpoint: a loop
    counter in a scope whose id contains a colon, a loop counter left behind
    by a closed scope, and a charge filed under the id of a live
    reservation. *)
Theorem own_checkpoint_refused :
  Forall (λ '(root, ops), (∃ c, ledger_run root DemoLedger.budget c (run_ops ops (DemoLedger.start root)))
    ∧ limit_restore (limit_checkpoint (run_ops ops (DemoLedger.start root))) 0 = Err InvalidReservation)
  [("run:1", [OpLoop "run:1" "loop" 3]);
   ("run", [OpCreate "child" "run" DemoLedger.budget; OpLoop "child" "loop" 3; OpClose "child"]);
   ("run", [OpReserve "run" "a" (DemoLedger.use 1); OpReserve "run" "b" (DemoLedger.use 1);
            OpCharge "a" "b" (DemoLedger.use 1)])].
Proof. repeat constructor; (apply DemoLedger.demo_reach || idtac); vm_compute; reflexivity. Qed.

Lemma budget_conserved_witness : ∃ committed,
  (∀ d, remaining_of d DemoLedger.ledger "run" + outstanding d DemoLedger.ledger "run" + committed d = 100)
  ∧ remaining_of Tokens DemoLedger.ledger "run" = 95 ∧ outstanding Tokens DemoLedger.ledger "run" = 2.
Proof.
  destruct (DemoLedger.demo_reach "run" DemoLedger.ops eq_refl) as [c Hr]. exists c. split.
  - intros d. transitivity (b_get d DemoLedger.budget); [|by destruct d].
    exact (proj1 (budget_conserved "run" DemoLedger.budget c _ DemoLedger.budget_fits Hr) d).
  - split; vm_compute; reflexivity.
Defined.

Lemma ledger_run_inv_witness : ledger_inv "run" DemoLedger.ledger.
Proof.
  destruct (DemoLedger.demo_reach "run" DemoLedger.ops eq_refl) as [c Hr].
  exact (ledger_run_inv "run" DemoLedger.budget c _ DemoLedger.budget_fits Hr).
Defined.

Lemma reserve_atomic_witness :
  (reserve "child" "r3" (DemoLedger.use 6) DemoLedger.ledger).1 = DemoLedger.ledger
  ∧ (reserve "child" "r3" (DemoLedger.use 6) DemoLedger.ledger).2 = Err Exhausted.
Proof.
  assert ((reserve "child" "r3" (DemoLedger.use 6) DemoLedger.ledger).2 = Err Exhausted) as He
    by (vm_compute; reflexivity).
  split; [|exact He].
  pose proof (reserve_atomic "child" "r3" (DemoLedger.use 6) DemoLedger.ledger _ _ (surjective_pairing _)) as Ha.
  rewrite He in Ha. exact Ha.
Defined.

Lemma reserve_release_identity_witness : ∃ l1,
  reserve "child" "r3" (DemoLedger.use 1) DemoLedger.ledger = (l1, Ok ())
  ∧ release "r3" l1 = (DemoLedger.ledger, Ok ()).
Proof.
  assert (is_ok (reserve "child" "r3" (DemoLedger.use 1) DemoLedger.ledger).2 = true) as Hok
    by (vm_compute; reflexivity).
  destruct (reserve "child" "r3" (DemoLedger.use 1) DemoLedger.ledger) as [l1 [[]|e]] eqn:E;
    [|discriminate Hok].
  exists l1. split; [reflexivity|].
  exact (reserve_release_identity "run" "child" "r3" (DemoLedger.use 1) DemoLedger.ledger l1
           (DemoLedger.inv "run" DemoLedger.ops eq_refl) E).
Defined.

Lemma reserve_charge_exact_witness : ∃ l1 l2,
  reserve "child" "r3" (DemoLedger.use 3) DemoLedger.ledger = (l1, Ok ())
  ∧ charge "r3" "c3" (DemoLedger.use 2) l1 = (l2, Ok ())
  ∧ charge "r9" "c3" (DemoLedger.use 9) l2 = (l2, Ok ()).
Proof.
  assert (is_ok (reserve "child" "r3" (DemoLedger.use 3) DemoLedger.ledger).2 = true) as Hok
    by (vm_compute; reflexivity).
  destruct (reserve "child" "r3" (DemoLedger.use 3) DemoLedger.ledger) as [l1 [[]|e]] eqn:E;
    [|discriminate Hok].
  destruct (reserve_charge_exact "run" "child" "r3" "c3" (DemoLedger.use 3) (DemoLedger.use 2)
    DemoLedger.ledger l1 (DemoLedger.inv "run" DemoLedger.ops eq_refl) E) as (l2 & lin & H1 & _ & _ & _ & _ & H2).
  - reflexivity.
  - apply (bool_decide_unpack _). vm_compute. reflexivity.
  - reflexivity.
  - exists l1, l2. split_and!; [reflexivity|exact H1|apply H2].
Defined.

Lemma failed_ledger_call_witness :
  (run_op (OpClose "child") DemoLedger.ledger).1 = DemoLedger.ledger.
Proof.
  assert (is_err (run_op (OpClose "child") DemoLedger.ledger).2 = true) as Herr by (vm_compute; reflexivity).
  destruct (run_op (OpClose "child") DemoLedger.ledger) as [l' [u|e]] eqn:E; [discriminate Herr|].
  destruct (failed_ledger_call "run" (OpClose "child") DemoLedger.ledger l' e
    (DemoLedger.inv "run" DemoLedger.ops eq_refl) E) as [->|(t & Ht & _)]; [reflexivity|discriminate Ht].
Defined.

Lemma create_child_narrows_witness : ∃ l' child,
  create_child "g" "child" DemoLedger.budget DemoLedger.ledger = (l', Ok ())
  ∧ ll_scopes l' !! "g" = Some child ∧ be_tokens (bs_remaining child) = 5.
Proof.
  assert (is_ok (create_child "g" "child" DemoLedger.budget DemoLedger.ledger).2 = true) as Hok
    by (vm_compute; reflexivity).
  destruct (create_child "g" "child" DemoLedger.budget DemoLedger.ledger) as [l' [[]|e]] eqn:E;
    [|discriminate Hok].
  destruct (create_child_narrows "g" "child" DemoLedger.budget DemoLedger.ledger l' E)
    as (parent & child & Hp & _ & Hc & _ & _ & _ & Hm & _).
  exists l', child. split_and!; [reflexivity|exact Hc|]. specialize (Hm Tokens). simpl in Hm. rewrite Hm.
  assert (be_tokens ∘ bs_remaining <$> ll_scopes DemoLedger.ledger !! "child" = Some 5) as Hv
    by (vm_compute; reflexivity).
  rewrite Hp in Hv. injection Hv as Hv. unfold b_get. rewrite Hv. reflexivity.
Defined.

Lemma next_loop_iteration_bounded_witness :
  is_err (next_loop_iteration "child" "loop" 1 DemoLedger.ledger).2 = true.
Proof.
  destruct (next_loop_iteration_bounded "child" "loop" 1 DemoLedger.ledger _ _ (surjective_pairing _)) as [_ H].
  apply H. apply N.leb_le. vm_compute. reflexivity.
Defined.

Lemma limit_checkpoint_roundtrip_witness :
  limit_restore (limit_checkpoint DemoLedger.ledger) 20 = Ok (rebase 20 DemoLedger.ledger).
Proof.
  apply (limit_checkpoint_roundtrip "run" DemoLedger.ledger 20 (DemoLedger.inv "run" DemoLedger.ops eq_refl)).
  split.
  - assert (map_Forall (λ _ sc, ll_tick DemoLedger.ledger < be_deadline_tick (bs_remaining sc)
      ∧ 20 + (be_deadline_tick (bs_remaining sc) - ll_tick DemoLedger.ledger) ≤ u64_max)
      (ll_scopes DemoLedger.ledger)) as Hf by (apply (bool_decide_unpack _); vm_compute; reflexivity).
    exact Hf.
  - assert (set_Forall (λ i, ll_reservations DemoLedger.ledger !! i = None) (ll_charge_ids DemoLedger.ledger)) as Hf.
    { intros i Hi. assert (ll_charge_ids DemoLedger.ledger = {["c1"]}) as Hc by (vm_compute; reflexivity).
      rewrite Hc in Hi. apply elem_of_singleton in Hi as ->. vm_compute. reflexivity. }
    exact Hf.
  - assert (map_Forall (λ k n, bad_loop_entry (ll_scopes DemoLedger.ledger) (k, n) = false)
      (ll_loop_iterations DemoLedger.ledger)) as Hf by (apply (bool_decide_unpack _); vm_compute; reflexivity).
    exact Hf.
Defined.
