(* ===== verification/Gateway.v ===== *)
(** * The worker's boundary to the trusted core ([CoreGatewayV1] of
    [crates/aworkit-workflow-worker/src/gateway.rs])

    Inbound: identity and generation fence, duplicate control messages,
    acknowledgements.  Outbound: numbered proposals, kept until acknowledged,
    under a count and a byte bound with a reserved lane for control replies. *)
From S2P Require Export PlanProofs.

Definition DEFAULT_MAX_PENDING_PROPOSALS : N := 1024.
Definition DEFAULT_MAX_PENDING_BYTES : N := 8 * 1024 * 1024.
Definition MAX_RESERVED_CONTROL_PROPOSALS : N := 64.

Inductive AdmissionV1 : Type := AdNew | AdDuplicate.

Inductive GatewayError : Type :=
| GeNotInitialized
| GeAlreadyInitialized
| GeMessageIdentityConflict
| GeIdentityMismatch
| GeGenerationMismatch
| GeSnapshotMismatch
| GeCursorMismatch
| GeBackpressure
| GeUnknownAcknowledgement
| GeSequenceExhausted
| GeEncoding
| GeInvalidIdentifier.

Record ActiveIdentity : Type := MkIdentity {
  ai_chat_id : StableId;
  ai_run_id : StableId;
  ai_generation : ProcessGeneration;
  ai_snapshot_hash : string
}.

Record CoreGatewayV1 : Type := MkGateway {
  gw_identity : option ActiveIdentity;
  gw_worker_sequence : N;
  gw_committed_cursor : N;
  gw_seen_messages : gmap string string;
  gw_pending : gmap string WorkerProposalEnvelopeV1;
  gw_pending_bytes : N;
  gw_max_pending_proposals : N;
  gw_max_pending_bytes : N;
  gw_acknowledged : gset string
}.

(** ** Field updates *)

Definition gw_set_identity i c g :=
  MkGateway (Some i) (gw_worker_sequence g) c (gw_seen_messages g) (gw_pending g)
    (gw_pending_bytes g) (gw_max_pending_proposals g) (gw_max_pending_bytes g) (gw_acknowledged g).
Definition gw_set_cursor c g :=
  MkGateway (gw_identity g) (gw_worker_sequence g) c (gw_seen_messages g) (gw_pending g)
    (gw_pending_bytes g) (gw_max_pending_proposals g) (gw_max_pending_bytes g) (gw_acknowledged g).
Definition gw_set_seen m g :=
  MkGateway (gw_identity g) (gw_worker_sequence g) (gw_committed_cursor g) m (gw_pending g)
    (gw_pending_bytes g) (gw_max_pending_proposals g) (gw_max_pending_bytes g) (gw_acknowledged g).
Definition gw_set_pending p g :=
  MkGateway (gw_identity g) (gw_worker_sequence g) (gw_committed_cursor g) (gw_seen_messages g) p
    (gw_pending_bytes g) (gw_max_pending_proposals g) (gw_max_pending_bytes g) (gw_acknowledged g).
Definition gw_set_pending_bytes b g :=
  MkGateway (gw_identity g) (gw_worker_sequence g) (gw_committed_cursor g) (gw_seen_messages g)
    (gw_pending g) b (gw_max_pending_proposals g) (gw_max_pending_bytes g) (gw_acknowledged g).
Definition gw_set_sequence n g :=
  MkGateway (gw_identity g) n (gw_committed_cursor g) (gw_seen_messages g) (gw_pending g)
    (gw_pending_bytes g) (gw_max_pending_proposals g) (gw_max_pending_bytes g) (gw_acknowledged g).
Definition gw_set_acknowledged a g :=
  MkGateway (gw_identity g) (gw_worker_sequence g) (gw_committed_cursor g) (gw_seen_messages g)
    (gw_pending g) (gw_pending_bytes g) (gw_max_pending_proposals g) (gw_max_pending_bytes g) a.

Definition with_bounds (max_pending_proposals max_pending_bytes : N) : CoreGatewayV1 :=
  MkGateway None 0 0 ∅ ∅ 0 max_pending_proposals max_pending_bytes ∅.
Definition CoreGatewayV1_new : CoreGatewayV1 :=
  with_bounds DEFAULT_MAX_PENDING_PROPOSALS DEFAULT_MAX_PENDING_BYTES.

Definition gateway_validate_identity (g : CoreGatewayV1) (e : WorkerControlEnvelopeV1) :
    result GatewayError () :=
  identity ← ok_or (gw_identity g) GeNotInitialized;
  _ ← fail_if (negb (bool_decide (ai_chat_id identity = ce_chat_id e))
               || negb (bool_decide (ai_run_id identity = ce_run_id e))) GeIdentityMismatch;
  _ ← fail_if (negb (ai_generation identity =? ce_generation e)) GeGenerationMismatch;
  fail_if (negb (bool_decide (ai_snapshot_hash identity = ce_snapshot_hash e))) GeSnapshotMismatch.

Definition retransmit_pending (g : CoreGatewayV1) : list WorkerProposalEnvelopeV1 :=
  sort_by (on_key pe_worker_sequence N.compare) (bt_values (gw_pending g)).
Definition gateway_generation (g : CoreGatewayV1) : option ProcessGeneration :=
  ai_generation <$> gw_identity g.
Definition gateway_identity (g : CoreGatewayV1) : option (StableId * StableId * string) :=
  (λ i, (ai_chat_id i, ai_run_id i, ai_snapshot_hash i)) <$> gw_identity g.

(** The identity an initial envelope establishes. *)
Definition envelope_identity (e : WorkerControlEnvelopeV1) : ActiveIdentity :=
  MkIdentity (ce_chat_id e) (ce_run_id e) (ce_generation e) (ce_snapshot_hash e).
(** [snapshot.chat_id != envelope.chat_id || ... || snapshot_hash ...] *)
Definition snapshot_differs (s : WorkerFrozenRunSnapshotV1) (e : WorkerControlEnvelopeV1) : bool :=
  negb (bool_decide (ws_chat_id s = ce_chat_id e)) || negb (bool_decide (ws_run_id s = ce_run_id e))
  || negb (bool_decide (ws_snapshot_hash s = ce_snapshot_hash e)).

Section gateway.
Context `{Sha256, !Serialize WorkerControlEnvelopeV1, !Serialize WorkerProposalEnvelopeV1}.

Definition gateway_stable_id (material : string) : result GatewayError StableId :=
  let digest := sha256_hex (as_bytes material) in
  map_err (λ _, GeInvalidIdentifier) (StableId_parse ("gateway." +:+ str_take 48 digest)).

Definition gateway_acknowledge (proposal_id : StableId) (committed_cursor : N) :
    stm CoreGatewayV1 GatewayError () :=
  g ← read;
  if bs_contains (gw_acknowledged g) (as_str proposal_id) then
    _ ← reject_if (committed_cursor <? gw_committed_cursor g) GeCursorMismatch;
    modify (gw_set_cursor committed_cursor)
  else
    _ ← reject_if (committed_cursor <=? gw_committed_cursor g) GeCursorMismatch;
    removed ← lift (ok_or (gw_pending g !! as_str proposal_id) GeUnknownAcknowledgement);
    _ ← modify (gw_set_pending (delete (as_str proposal_id) (gw_pending g)));
    bytes ← lift (ok_or (to_vec removed) GeEncoding);
    _ ← modify (gw_set_pending_bytes (saturating_sub (gw_pending_bytes g) (len bytes)));
    _ ← modify (gw_set_acknowledged ({[as_str proposal_id]} ∪ gw_acknowledged g));
    modify (gw_set_cursor committed_cursor).

(** The first [match] of [admit_control]: the identity fence. *)
Definition admit_identity (e : WorkerControlEnvelopeV1) : stm CoreGatewayV1 GatewayError () :=
  g ← read;
  match ce_control e with
  | CkStart snapshot =>
      _ ← reject_if (is_some (gw_identity g)) GeAlreadyInitialized;
      _ ← reject_if (snapshot_differs snapshot e) GeIdentityMismatch;
      modify (gw_set_identity (envelope_identity e) (ce_committed_cursor e))
  | CkRestore rehydration =>
      _ ← reject_if (is_some (gw_identity g)) GeAlreadyInitialized;
      _ ← reject_if (snapshot_differs (re_snapshot rehydration) e
                     || negb (re_replacement_generation rehydration =? ce_generation e))
            GeIdentityMismatch;
      modify (gw_set_identity (envelope_identity e) (ce_committed_cursor e))
  | _ => lift (gateway_validate_identity g e)
  end.

Definition control_hash (e : WorkerControlEnvelopeV1) : option string :=
  (λ bytes, sha256_hex bytes) <$> jcs_to_vec e.

Definition admit_control (e : WorkerControlEnvelopeV1) : stm CoreGatewayV1 GatewayError AdmissionV1 :=
  message_hash ← lift (ok_or (control_hash e) GeEncoding);
  g ← read;
  match gw_seen_messages g !! as_str (ce_message_id e) with
  | Some existing =>
      _ ← reject_if (negb (bool_decide (existing = message_hash))) GeMessageIdentityConflict;
      _ ← lift (gateway_validate_identity g e);
      mret AdDuplicate
  | None =>
      _ ← admit_identity e;
      g ← read;
      _ ← match ce_control e with
          | CkCommittedAck proposal_id committed_cursor =>
              gateway_acknowledge proposal_id committed_cursor
          | _ => reject_if (negb (ce_committed_cursor e =? gw_committed_cursor g)) GeCursorMismatch
          end;
      _ ← modify (λ g, gw_set_seen (<[as_str (ce_message_id e) := message_hash]> (gw_seen_messages g)) g);
      mret AdNew
  end.

Definition proposal_material (i : ActiveIdentity) (sequence : N) : string :=
  "proposal:" +:+ as_str (ai_chat_id i) +:+ ":" +:+ as_str (ai_run_id i) +:+ ":"
  +:+ pretty (ai_generation i) +:+ ":" +:+ pretty sequence.

Definition emit_inner (proposal : WorkerProposalKindV1) (reserved : bool) :
    stm CoreGatewayV1 GatewayError WorkerProposalEnvelopeV1 :=
  g ← read;
  identity ← lift (ok_or (gw_identity g) GeNotInitialized);
  let hard_proposal_limit :=
    saturating_add usize_max (gw_max_pending_proposals g) MAX_RESERVED_CONTROL_PROPOSALS in
  _ ← reject_if ((negb reserved && (gw_max_pending_proposals g <=? bt_len (gw_pending g)))
                 || (hard_proposal_limit <=? bt_len (gw_pending g))) GeBackpressure;
  next_sequence ← lift (ok_or (checked_add u64_max (gw_worker_sequence g) 1) GeSequenceExhausted);
  proposal_id ← lift (gateway_stable_id (proposal_material identity next_sequence));
  let envelope := MkProposal proposal_id (ai_chat_id identity) (ai_run_id identity)
    (ai_generation identity) (ai_snapshot_hash identity) next_sequence (gw_committed_cursor g) proposal in
  encoded ← lift (ok_or (to_vec envelope) GeEncoding);
  new_bytes ← lift (ok_or (checked_add usize_max (gw_pending_bytes g) (len encoded)) GeBackpressure);
  let reserved_byte_limit := saturating_add usize_max (gw_max_pending_bytes g) (256 * 1024) in
  _ ← reject_if ((negb reserved && (gw_max_pending_bytes g <? new_bytes))
                 || (reserved_byte_limit <? new_bytes)) GeBackpressure;
  _ ← modify (gw_set_pending_bytes new_bytes);
  _ ← modify (gw_set_sequence next_sequence);
  _ ← modify (λ g, gw_set_pending (<[as_str proposal_id := envelope]> (gw_pending g)) g);
  mret envelope.
Definition emit (proposal : WorkerProposalKindV1) := emit_inner proposal false.
Definition emit_reserved (proposal : WorkerProposalKindV1) := emit_inner proposal true.
End gateway.

(** ** Runs

    Any sequence of calls, failed ones included. *)

Section gateway_runs.
Context `{Sha256, !Serialize WorkerControlEnvelopeV1, !Serialize WorkerProposalEnvelopeV1}.
Implicit Types (g : CoreGatewayV1) (e : WorkerControlEnvelopeV1).

Inductive gateway_call : Type :=
| GcAdmit (e : WorkerControlEnvelopeV1)
| GcEmit (p : WorkerProposalKindV1)
| GcEmitReserved (p : WorkerProposalKindV1).
Definition gateway_step (g : CoreGatewayV1) (c : gateway_call) : CoreGatewayV1 :=
  match c with
  | GcAdmit e => (admit_control e g).1
  | GcEmit p => (emit p g).1
  | GcEmitReserved p => (emit_reserved p g).1
  end.
Definition gateway_run (cs : list gateway_call) (g : CoreGatewayV1) : CoreGatewayV1 :=
  foldl gateway_step g cs.

Definition wire_bytes (p : WorkerProposalEnvelopeV1) : N :=
  match to_vec p with Some b => len b | None => 0 end.

(** The proposal was issued by this gateway under its identity. *)
Definition issued_by (g : CoreGatewayV1) (p : WorkerProposalEnvelopeV1) : Prop :=
  ∃ i, gw_identity g = Some i
    ∧ pe_chat_id p = ai_chat_id i ∧ pe_run_id p = ai_run_id i
    ∧ pe_generation p = ai_generation i ∧ pe_snapshot_hash p = ai_snapshot_hash i
    ∧ gateway_stable_id (proposal_material i (pe_worker_sequence p)) = Ok (pe_proposal_id p)
    ∧ pe_worker_sequence p ≤ gw_worker_sequence g
    ∧ pe_base_committed_cursor p ≤ gw_committed_cursor g.

Record gateway_inv (g : CoreGatewayV1) : Prop := {
  gi_key : ∀ k p, gw_pending g !! k = Some p → k = as_str (pe_proposal_id p);
  gi_issued : ∀ k p, gw_pending g !! k = Some p → issued_by g p;
  gi_encodes : ∀ k p, gw_pending g !! k = Some p → is_Some (to_vec p);
  gi_bytes : sum_values wire_bytes (gw_pending g) ≤ gw_pending_bytes g;
  gi_bytes_max : gw_pending_bytes g ≤ gw_max_pending_bytes g + 256 * 1024;
  gi_count : bt_len (gw_pending g) ≤ gw_max_pending_proposals g + MAX_RESERVED_CONTROL_PROPOSALS;
  gi_fresh : gw_identity g = None → gw_committed_cursor g = 0
}.

(** What no call changes once the identity is set, and what only grows. *)
Record gateway_grows (g g' : CoreGatewayV1) : Prop := {
  gg_identity : is_Some (gw_identity g) → gw_identity g' = gw_identity g;
  gg_cursor : gw_committed_cursor g ≤ gw_committed_cursor g';
  gg_sequence : gw_worker_sequence g ≤ gw_worker_sequence g';
  gg_seen : gw_seen_messages g ⊆ gw_seen_messages g';
  gg_acknowledged : gw_acknowledged g ⊆ gw_acknowledged g';
  gg_max : gw_max_pending_proposals g' = gw_max_pending_proposals g
    ∧ gw_max_pending_bytes g' = gw_max_pending_bytes g
}.
#[export] Instance gateway_grows_preorder : PreOrder gateway_grows.
Proof.
  split; [by split|]. intros g1 g2 g3 [] []. split; try (etrans; eassumption).
  - intros Hi. rewrite gg_identity1; [auto|]. by rewrite gg_identity0.
  - destruct gg_max0, gg_max1. split; congruence.
Qed.

Lemma validate_identity_ok g e :
  gateway_validate_identity g e = Ok () ↔ gw_identity g = Some (envelope_identity e).
Proof.
  unfold gateway_validate_identity, envelope_identity. split.
  - intros Hv. res_inv Hv. boolify. destruct (gw_identity g) as [[]|]; naive_solver.
  - intros ->. simpl. by rewrite !bool_decide_true, N.eqb_refl by done.
Qed.

(** ** What a call does *)

Lemma acknowledge_cases g g' i c :
  gateway_acknowledge i c g = (g', Ok ()) →
  (as_str i ∈ gw_acknowledged g ∧ gw_committed_cursor g ≤ c ∧ g' = gw_set_cursor c g) ∨
  (as_str i ∉ gw_acknowledged g ∧ gw_committed_cursor g < c ∧
   ∃ p b, gw_pending g !! as_str i = Some p ∧ to_vec p = Some b ∧
     g' = MkGateway (gw_identity g) (gw_worker_sequence g) c (gw_seen_messages g)
            (delete (as_str i) (gw_pending g)) (gw_pending_bytes g - len b)
            (gw_max_pending_proposals g) (gw_max_pending_bytes g) ({[as_str i]} ∪ gw_acknowledged g)).
Proof.
  unfold gateway_acknowledge. intros Ha. apply bind_ok in Ha as (? & ? & [= <- <-] & Ha).
  destruct (bs_contains (gw_acknowledged g) (as_str i)) eqn:Hb; run_inv Ha; boolify; [left; naive_solver|].
  right. split_and!; [done..|]. do 2 eexists. split_and!; [done..|]. done.
Qed.

Lemma acknowledge_err g g' i c (er : GatewayError) :
  gateway_inv g → gateway_acknowledge i c g = (g', Err er) → g' = g.
Proof.
  intros Hinv. unfold gateway_acknowledge. intros Ha.
  apply bind_err in Ha as [[=]|(? & ? & [= <- <-] & Ha)].
  destruct (bs_contains _ _); err_inv Ha; simplify_eq/=; try done.
  destruct (gi_encodes g Hinv _ _ ltac:(eassumption)) as [b Hb].
  match goal with Hn : ok_or (to_vec _) _ = Err _ |- _ => rewrite Hb in Hn; discriminate Hn end.
Qed.

Lemma emit_inner_ok g g' k r p :
  emit_inner k r g = (g', Ok p) →
  ∃ i b, gw_identity g = Some i
    ∧ gateway_stable_id (proposal_material i (gw_worker_sequence g + 1)) = Ok (pe_proposal_id p)
    ∧ p = MkProposal (pe_proposal_id p) (ai_chat_id i) (ai_run_id i) (ai_generation i)
            (ai_snapshot_hash i) (gw_worker_sequence g + 1) (gw_committed_cursor g) k
    ∧ to_vec p = Some b
    ∧ bt_len (gw_pending g) < gw_max_pending_proposals g + (if r then MAX_RESERVED_CONTROL_PROPOSALS else 0)
    ∧ gw_pending_bytes g + len b ≤ gw_max_pending_bytes g + (if r then 256 * 1024 else 0)
    ∧ g' = MkGateway (gw_identity g) (gw_worker_sequence g + 1) (gw_committed_cursor g)
             (gw_seen_messages g) (<[as_str (pe_proposal_id p) := p]> (gw_pending g))
             (gw_pending_bytes g + len b) (gw_max_pending_proposals g) (gw_max_pending_bytes g)
             (gw_acknowledged g).
Proof.
  unfold emit_inner. intros He. run_inv He.
  unfold checked_add in *. do 2 case_match; simplify_eq/=.
  exists x0, x4. split_and!; try done; unfold saturating_add in *; destruct r; simpl in *; boolify; lia.
Qed.

Lemma emit_inner_err g g' k r (er : GatewayError) : emit_inner k r g = (g', Err er) → g' = g.
Proof. unfold emit_inner. intros He. by err_inv He. Qed.

(** The identity fence: an initial envelope sets the identity and the
    cursor, any other one must match. *)
Lemma admit_identity_ok g g' e :
  admit_identity e g = (g', Ok ()) →
  gw_identity g' = Some (envelope_identity e) ∧
  (g' = g ∨ gw_identity g = None ∧ g' = gw_set_identity (envelope_identity e) (ce_committed_cursor e) g).
Proof.
  unfold admit_identity. intros Ha. apply bind_ok in Ha as (? & ? & [= <- <-] & Ha).
  destruct (ce_control e); run_inv Ha;
    try (split; [by apply validate_identity_ok|by left]);
    split; try done; right; split; try done; by destruct (gw_identity g).
Qed.
Lemma admit_identity_err g g' e (er : GatewayError) : admit_identity e g = (g', Err er) → g' = g.
Proof.
  unfold admit_identity. intros Ha. apply bind_err in Ha as [[=]|(? & ? & [= <- <-] & Ha)].
  destruct (ce_control e); by err_inv Ha.
Qed.

(** ** The invariant *)

Lemma issued_grows g g' p : gateway_grows g g' → issued_by g p → issued_by g' p.
Proof.
  intros [] (i & Hi & ? & ? & ? & ? & ? & ? & ?). exists i.
  rewrite gg_identity0 by eauto. split_and!; try done; lia.
Qed.

Lemma sum_values_insert_le {V} (f : V → N) (m : gmap string V) k v :
  sum_values f (<[k:=v]> m) ≤ f v + sum_values f m.
Proof.
  destruct (m !! k) as [w|] eqn:Hk; [|by rewrite sum_values_insert].
  rewrite <-(insert_delete_eq m k v), sum_values_insert by apply lookup_delete_eq.
  rewrite (sum_values_delete f m k w Hk). lia.
Qed.

Lemma bt_len_insert_le {V} (m : gmap string V) k v : bt_len (<[k:=v]> m) ≤ bt_len m + 1.
Proof.
  unfold bt_len. destruct (m !! k) eqn:Hk; [rewrite map_size_insert_Some by eauto; lia|].
  rewrite map_size_insert_None by done. lia.
Qed.

Lemma bt_len_delete_le {V} (m : gmap string V) k : bt_len (delete k m) ≤ bt_len m.
Proof. unfold bt_len. rewrite map_size_delete. destruct (m !! k); simpl; lia. Qed.

Lemma with_bounds_inv m b : gateway_inv (with_bounds m b).
Proof. split; simpl; try done. - lia. - unfold bt_len. rewrite map_size_empty. lia. Qed.

Lemma acknowledge_inv g g' i c :
  gateway_inv g → is_Some (gw_identity g) → gateway_acknowledge i c g = (g', Ok ()) →
  gateway_inv g' ∧ gateway_grows g g'.
Proof.
  intros Hinv Hid Ha. apply acknowledge_cases in Ha as [(_ & Hc & ->)|(_ & Hc & p & b & Hp & Hb & ->)].
  - assert (gateway_grows g (gw_set_cursor c g)) as Hg by (split; simpl; done). split; [|done].
    destruct Hinv. split; simpl; eauto using issued_grows. by intros Hn%eq_None_not_Some.
  - match goal with |- gateway_inv ?g' ∧ _ => assert (gateway_grows g g') as Hg end.
    { split; simpl; try done; [lia|set_solver]. }
    split; [|done]. destruct Hinv. split; simpl.
    + intros k q [_ Hq]%lookup_delete_Some. eauto.
    + intros k q [_ Hq]%lookup_delete_Some. eauto using issued_grows.
    + intros k q [_ Hq]%lookup_delete_Some. eauto.
    + rewrite (sum_values_delete _ _ _ _ Hp) in gi_bytes0. unfold wire_bytes in gi_bytes0 at 1.
      rewrite Hb in gi_bytes0. lia.
    + lia.
    + pose proof (bt_len_delete_le (gw_pending g) (as_str i)). lia.
    + by intros Hn%eq_None_not_Some.
Qed.

Lemma admit_inv g g' e a :
  gateway_inv g → admit_control e g = (g', Ok a) → gateway_inv g' ∧ gateway_grows g g'.
Proof.
  intros Hinv. unfold admit_control. intros Ha.
  apply bind_ok in Ha as (? & h & Hh & Ha). run_inv_step Hh.
  apply bind_ok in Ha as (? & ? & [= <- <-] & Ha).
  destruct (gw_seen_messages g !! _) as [h'|] eqn:Hseen; [run_inv Ha; done|].
  apply bind_ok in Ha as (g1 & [] & Hid & Ha). apply bind_ok in Ha as (? & ? & [= <- <-] & Ha).
  apply bind_ok in Ha as (g2 & [] & Hc & Ha). run_inv Ha.
  apply admit_identity_ok in Hid as [Hi Hcase].
  assert (gateway_inv g1 ∧ gateway_grows g g1 ∧ gw_seen_messages g1 = gw_seen_messages g) as (Hinv1 & Hg1 & Hs1).
  { destruct Hcase as [->|[Hn ->]]; [done|]. destruct Hinv.
    assert (gw_pending g = ∅) as Hp0.
    { apply map_empty. intros k. apply eq_None_not_Some. intros [q Hq].
      destruct (gi_issued0 _ _ Hq) as (? & Hsome & _). congruence. }
    split_and!; [..|done]; split; simpl; rewrite ?Hp0 in *; try done.
    - rewrite Hn. by intros [].
    - rewrite gi_fresh0 by done. lia. }
  assert (gateway_inv g2 ∧ gateway_grows g1 g2 ∧ gw_seen_messages g2 = gw_seen_messages g1) as (Hinv2 & Hg2 & Hs2).
  { destruct (ce_control e); run_inv Hc; try done.
    destruct (acknowledge_inv _ _ _ _ Hinv1 ltac:(rewrite Hi; eauto) Hc) as [??]. split_and!; [done..|].
    by apply acknowledge_cases in Hc as [(_ & _ & ->)|(_ & _ & ? & ? & _ & _ & ->)]. }
  split; [destruct Hinv2; split; eauto|]. trans g1; [done|]. trans g2; [done|].
  split; simpl; try done. rewrite Hs2, Hs1. by apply insert_subseteq.
Qed.

Lemma emit_inv g g' k r p :
  gateway_inv g → emit_inner k r g = (g', Ok p) →
  gateway_inv g' ∧ gateway_grows g g' ∧ issued_by g' p.
Proof.
  intros Hinv He. apply emit_inner_ok in He as (i & b & Hi & Hid & Hp & Hb & Hcount & Hbytes & ->).
  match goal with |- gateway_inv ?g' ∧ _ => assert (gateway_grows g g') as Hg end.
  { split; simpl; try done; lia. }
  match goal with |- gateway_inv ?g' ∧ _ => assert (issued_by g' p) as Hissued end.
  { exists i. rewrite Hp. simpl. split_and!; try done. }
  split; [|done]. destruct Hinv. split; simpl.
  - intros k' q [[<- <-]|[_ Hq]]%lookup_insert_Some; [done|eauto].
  - intros k' q [[<- <-]|[_ Hq]]%lookup_insert_Some; [done|eauto using issued_grows].
  - intros k' q [[<- <-]|[_ Hq]]%lookup_insert_Some; [eauto|eauto].
  - etrans; [apply sum_values_insert_le|]. unfold wire_bytes at 1. rewrite Hb. lia.
  - destruct r; lia.
  - etrans; [apply bt_len_insert_le|]. unfold MAX_RESERVED_CONTROL_PROPOSALS in *. destruct r; lia.
  - rewrite Hi. done.
Qed.

Lemma admit_err g g' e (er : GatewayError) : gateway_inv g → admit_control e g = (g', Err er) → g' = g.
Proof.
  intros Hinv. unfold admit_control. intros Ha.
  apply bind_err in Ha as [Ha|(? & h & Hh & Ha)]; [by err_inv Ha|]. run_inv_step Hh.
  apply bind_err in Ha as [[=]|(? & ? & [= <- <-] & Ha)].
  destruct (gw_seen_messages g !! _) as [h'|]; [by err_inv Ha|].
  apply bind_err in Ha as [Ha|(g1 & [] & Hid & Ha)]; [by apply admit_identity_err in Ha|].
  apply bind_err in Ha as [[=]|(? & ? & [= <- <-] & Ha)].
  apply bind_err in Ha as [Ha|(g2 & [] & Hc & Ha)]; [|by err_inv Ha].
  unfold admit_identity in Hid. apply bind_ok in Hid as (? & ? & [= <- <-] & Hid).
  destruct (ce_control e); run_inv Hid;
    first [by apply acknowledge_err in Ha | err_inv Ha; simpl in *; boolify; congruence].
Qed.

Lemma gateway_step_inv g c : gateway_inv g → gateway_inv (gateway_step g c) ∧ gateway_grows g (gateway_step g c).
Proof.
  intros Hinv. destruct c as [e|k|k]; simpl; unfold emit, emit_reserved.
  - destruct (admit_control e g) as [g' [a|er]] eqn:E; simpl; [eauto using admit_inv|].
    by rewrite (admit_err _ _ _ _ Hinv E).
  - destruct (emit_inner k false g) as [g' [p|er]] eqn:E; simpl; [apply emit_inv in E; naive_solver|].
    by rewrite (emit_inner_err _ _ _ _ _ E).
  - destruct (emit_inner k true g) as [g' [p|er]] eqn:E; simpl; [apply emit_inv in E; naive_solver|].
    by rewrite (emit_inner_err _ _ _ _ _ E).
Qed.

Lemma gateway_run_inv cs g : gateway_inv g → gateway_inv (gateway_run cs g) ∧ gateway_grows g (gateway_run cs g).
Proof.
  revert g. induction cs as [|c cs IH]; intros g Hinv; [done|]. simpl.
  destruct (gateway_step_inv g c Hinv) as [Hinv' Hg]. destruct (IH _ Hinv') as [Hinv'' Hg'].
  split; [done|]. by trans (gateway_step g c).
Qed.

(** ** Retransmission *)

Lemma retransmit_elem g p : p ∈ retransmit_pending g ↔ ∃ k, gw_pending g !! k = Some p.
Proof. unfold retransmit_pending. by rewrite elem_of_sort_by, elem_of_bt_values. Qed.

(** A sequence number determines the pending proposal. *)
Lemma pending_sequence_inj g k1 k2 p1 p2 :
  gateway_inv g → gw_pending g !! k1 = Some p1 → gw_pending g !! k2 = Some p2 →
  pe_worker_sequence p1 = pe_worker_sequence p2 → k1 = k2.
Proof.
  intros [] H1 H2 Hs. rewrite (gi_key0 _ _ H1), (gi_key0 _ _ H2). f_equal.
  destruct (gi_issued0 _ _ H1) as (i1 & Hi1 & _ & _ & _ & _ & Hid1 & _).
  destruct (gi_issued0 _ _ H2) as (i2 & Hi2 & _ & _ & _ & _ & Hid2 & _). congruence.
Qed.

Lemma retransmit_sorted g :
  gateway_inv g → StronglySorted N.lt (pe_worker_sequence <$> retransmit_pending g).
Proof.
  intros Hinv.
  assert (NoDup (pe_worker_sequence <$> retransmit_pending g)) as Hnd.
  { unfold retransmit_pending. rewrite sort_by_perm, bt_values_perm, <-list_fmap_compose.
    apply NoDup_fmap_2_strong; [|apply NoDup_map_to_list].
    intros [k1 p1] [k2 p2] H1%elem_of_map_to_list H2%elem_of_map_to_list Hs. simpl in Hs.
    pose proof (pending_sequence_inj g _ _ _ _ Hinv H1 H2 Hs) as ->. congruence. }
  pose proof (sort_by_sorted (on_key pe_worker_sequence N.compare) (bt_values (gw_pending g))) as Hs.
  fold (retransmit_pending g) in Hs. unfold sorted_by in Hs.
  induction Hs as [|p l Hl IH Hp]; csimpl in *; [constructor|].
  apply NoDup_cons in Hnd as [Hnin Hnd]. constructor; [auto|].
  apply Forall_forall. intros n Hn. apply list_elem_of_fmap in Hn as (q & -> & Hq).
  rewrite Forall_forall in Hp. specialize (Hp q Hq). unfold cmp_leb, on_key in Hp.
  destruct (N.compare_spec (pe_worker_sequence p) (pe_worker_sequence q)) as [E|E|E]; try done.
  destruct Hnin. rewrite E. apply list_elem_of_fmap. eauto.
Qed.

Lemma admit_new_facts g g1 e :
  admit_control e g = (g1, Ok AdNew) →
  gw_identity g1 = Some (envelope_identity e)
  ∧ ∃ h, control_hash e = Some h ∧ gw_seen_messages g1 !! as_str (ce_message_id e) = Some h.
Proof.
  unfold admit_control. intros Ha. apply bind_ok in Ha as (? & h & Hh & Ha). run_inv_step Hh.
  apply bind_ok in Ha as (? & ? & [= <- <-] & Ha).
  destruct (gw_seen_messages g !! _) as [h'|] eqn:Hseen; [by run_inv Ha|].
  apply bind_ok in Ha as (g' & [] & Hid & Ha). apply bind_ok in Ha as (? & ? & [= <- <-] & Ha).
  apply bind_ok in Ha as (g2 & [] & Hc & Ha). run_inv Ha.
  apply admit_identity_ok in Hid as [Hi _]. split.
  - rewrite <-Hi. destruct (ce_control e); run_inv Hc; try done.
    by apply acknowledge_cases in Hc as [(_ & _ & ->)|(_ & _ & ? & ? & _ & _ & ->)].
  - exists h. split; [done|]. apply lookup_insert_eq.
Qed.

Lemma admit_seen g e h h' :
  control_hash e = Some h → gw_seen_messages g !! as_str (ce_message_id e) = Some h' →
  admit_control e g =
    (g, if bool_decide (h' = h)
        then match gateway_validate_identity g e with Ok _ => Ok AdDuplicate | Err er => Err er end
        else Err GeMessageIdentityConflict).
Proof.
  intros Hh Hs. unfold admit_control, mbind, stm_bind, lift, read, reject_if. rewrite Hh. simpl. rewrite Hs.
  unfold fail_if. destruct (bool_decide (h' = h)); simpl; [|done].
  by destruct (gateway_validate_identity g e).
Qed.

(** ** Properties *)

(** From any bounds and after any sequence of calls, failed ones
    included, the gateway holds at most 64 proposals and 256 KiB more than
    its bounds, its byte counter covers the encoded size of what is pending,
    and retransmission yields proposals it issued under its own identity,
    in strictly increasing sequence. *)
Theorem gateway_run_bounded (m b : N) (cs : list gateway_call) :
  let g := gateway_run cs (with_bounds m b) in
  bt_len (gw_pending g) ≤ m + MAX_RESERVED_CONTROL_PROPOSALS
  ∧ sum_values wire_bytes (gw_pending g) ≤ gw_pending_bytes g
  ∧ gw_pending_bytes g ≤ b + 256 * 1024
  ∧ StronglySorted N.lt (pe_worker_sequence <$> retransmit_pending g)
  ∧ Forall (issued_by g) (retransmit_pending g).
Proof.
  intros g. destruct (gateway_run_inv cs (with_bounds m b) (with_bounds_inv m b)) as [Hinv Hg].
  fold g in Hinv, Hg. destruct (gg_max _ _ Hg) as [Hm Hb]. simpl in Hm, Hb.
  split_and!; [rewrite <-Hm; apply Hinv|apply Hinv|rewrite <-Hb; apply Hinv|by apply retransmit_sorted|].
  apply Forall_forall. intros p [k Hp]%retransmit_elem. by eapply gi_issued.
Qed.

(** A control message that was admitted once is a no-op ever after:
    whatever calls follow, delivering it again is reported as a duplicate and
    changes nothing, and another message under the same identifier is refused. *)
Theorem admit_control_exactly_once g g1 e (cs : list gateway_call) :
  gateway_inv g → admit_control e g = (g1, Ok AdNew) →
  let g2 := gateway_run cs g1 in
  admit_control e g2 = (g2, Ok AdDuplicate)
  ∧ ∀ e' h', ce_message_id e' = ce_message_id e → control_hash e' = Some h' → control_hash e ≠ Some h' →
      admit_control e' g2 = (g2, Err GeMessageIdentityConflict).
Proof.
  intros Hinv Ha g2. destruct (admit_inv _ _ _ _ Hinv Ha) as [Hinv1 _].
  destruct (gateway_run_inv cs g1 Hinv1) as [_ Hg]. fold g2 in Hg.
  destruct (admit_new_facts _ _ _ Ha) as (Hid & h & Hh & Hs).
  pose proof (lookup_weaken _ _ _ _ Hs (gg_seen _ _ Hg)) as Hs2.
  assert (gateway_validate_identity g2 e = Ok ()) as Hv.
  { apply validate_identity_ok. rewrite (gg_identity _ _ Hg); [done|]. rewrite Hid. eauto. }
  split.
  - rewrite (admit_seen g2 e h h Hh Hs2), bool_decide_true, Hv by done. done.
  - intros e' h' Hm Hh' Hne. rewrite <-Hm in Hs2. rewrite (admit_seen g2 e' h' h Hh' Hs2).
    rewrite bool_decide_false; [done|]. intros ->. auto.
Qed.

(** Generation fence.  Once an identity is set no sequence of calls
    changes it or moves the committed cursor back, every control envelope
    admitted later carries exactly that chat, run, generation and snapshot,
    and every proposal emitted later carries it too, with the next number. *)
Theorem gateway_fence g i (cs : list gateway_call) :
  gateway_inv g → gw_identity g = Some i →
  let g' := gateway_run cs g in
  gw_identity g' = Some i ∧ gw_committed_cursor g ≤ gw_committed_cursor g'
  ∧ (∀ e a g2, admit_control e g' = (g2, Ok a) → envelope_identity e = i)
  ∧ (∀ k r p g2, emit_inner k r g' = (g2, Ok p) →
       issued_by g2 p ∧ gw_identity g2 = Some i ∧ pe_worker_sequence p = gw_worker_sequence g' + 1).
Proof.
  intros Hinv Hi g'. destruct (gateway_run_inv cs g Hinv) as [Hinv' Hg]. fold g' in Hinv', Hg.
  assert (gw_identity g' = Some i) as Hi' by (rewrite (gg_identity _ _ Hg); eauto).
  split_and!; [done|apply Hg| |].
  - intros e [] g2 Ha.
    + destruct (admit_inv _ _ _ _ Hinv' Ha) as [_ Hg2]. apply admit_new_facts in Ha as [Ha _].
      rewrite (gg_identity _ _ Hg2) in Ha by eauto. congruence.
    + unfold admit_control in Ha. apply bind_ok in Ha as (? & h & Hh & Ha). run_inv_step Hh.
      apply bind_ok in Ha as (? & ? & [= <- <-] & Ha).
      destruct (gw_seen_messages g' !! _); run_inv Ha.
      match goal with Hv : gateway_validate_identity _ _ = Ok ?u |- _ => destruct u; apply validate_identity_ok in Hv end.
      congruence.
  - intros k r p g2 He. destruct (emit_inv _ _ _ _ _ Hinv' He) as (_ & Hg2 & Hp). split; [done|].
    split; [rewrite (gg_identity _ _ Hg2); eauto|].
    apply emit_inner_ok in He as (? & ? & _ & _ & -> & _). done.
Qed.

(** A call that returns an error leaves the gateway as it was. *)
Theorem failed_gateway_call g (er : GatewayError) :
  gateway_inv g →
  (∀ e g', admit_control e g = (g', Err er) → g' = g)
  ∧ (∀ k g', emit k g = (g', Err er) → g' = g)
  ∧ (∀ k g', emit_reserved k g = (g', Err er) → g' = g).
Proof.
  intros Hinv. split_and!; intros x g' He;
    [by apply admit_err in He|by apply emit_inner_err in He|by apply emit_inner_err in He].
Qed.
End gateway_runs.

(** ** A concrete gateway *)

Module DemoGateway.
Import (hints) Demo.
#[export] Instance control_ser : Serialize WorkerControlEnvelopeV1 := {|
  to_vec e := Some (as_bytes (as_str (ce_message_id e)));
  jcs_to_vec e := Some (as_bytes (as_str (ce_message_id e) +:+ pretty (ce_committed_cursor e)))
|}.
#[export] Instance proposal_ser : Serialize WorkerProposalEnvelopeV1 := {|
  to_vec p := Some (as_bytes (as_str (pe_proposal_id p)));
  jcs_to_vec p := Some (as_bytes (as_str (pe_proposal_id p)))
|}.
Definition control (m : StableId) (cursor : N) (k : WorkerControlKindV1) : WorkerControlEnvelopeV1 :=
  MkControl m id:"chat" id:"run" 7 (ws_snapshot_hash Demo.draft) cursor k.
Definition start : WorkerControlEnvelopeV1 := control id:"m1" 3 (CkStart Demo.draft).
Definition pause : WorkerControlEnvelopeV1 := control id:"m2" 3 (CkPause id:"c" "run").
Definition fresh : CoreGatewayV1 := with_bounds 1 1000.
Definition started : CoreGatewayV1 := gateway_run [GcAdmit start; GcEmit (PkReady "f")] fresh.
Lemma started_inv : gateway_inv started.
Proof. apply gateway_run_inv, with_bounds_inv. Qed.
End DemoGateway.

Section gateway_witnesses.
Import (hints) Demo DemoGateway.
Import DemoGateway.

Lemma admit_control_exactly_once_witness :
  let g := gateway_run [GcAdmit pause; GcEmitReserved (PkHealth JNull)] started in
  admit_control pause g = (g, Ok AdDuplicate)
  ∧ admit_control (control id:"m2" 4 (CkPause id:"c" "run")) g = (g, Err GeMessageIdentityConflict).
Proof.
  assert ((admit_control pause started).2 = Ok AdNew) as Hn by (vm_compute; reflexivity).
  destruct (admit_control_exactly_once started (admit_control pause started).1 pause
              [GcEmitReserved (PkHealth JNull)] started_inv) as [H1 H2].
  - rewrite <-Hn. apply surjective_pairing.
  - split; [exact H1|]. eapply (H2 (control id:"m2" 4 (CkPause id:"c" "run")));
      [reflexivity|reflexivity|]. vm_compute. discriminate.
Defined.

Lemma gateway_fence_witness :
  gw_identity (gateway_run [GcAdmit pause] started) = Some (envelope_identity start)
  ∧ (admit_control (MkControl id:"m9" id:"chat" id:"run" 8 (ws_snapshot_hash Demo.draft) 3 (CkShutdown id:"c"))
       started).2 = Err GeGenerationMismatch.
Proof.
  split; [|vm_compute; reflexivity].
  apply (gateway_fence started (envelope_identity start) [GcAdmit pause] started_inv).
  vm_compute. reflexivity.
Defined.

Lemma failed_gateway_call_witness :
  (emit (PkHealth JNull) started).1 = started ∧ (emit (PkHealth JNull) started).2 = Err GeBackpressure.
Proof.
  assert ((emit (PkHealth JNull) started).2 = Err GeBackpressure) as He by (vm_compute; reflexivity).
  split; [|exact He].
  destruct (failed_gateway_call started GeBackpressure started_inv) as (_ & Hf & _).
  apply (Hf (PkHealth JNull)). rewrite <-He. apply surjective_pairing.
Defined.
End gateway_witnesses.
