(* ===== verification/Branch.v ===== *)
(** * Parallel branches and joins ([BranchJoinCoordinator] of
    [crates/aworkit-workflow-worker/src/branch.rs])

    Frames of branches opened by a parallel or for-each node, their
    lifecycle, the merge at the join, and checkpoint and restore. *)
From S2P Require Export Gateway.

Definition MAX_BRANCHES_PER_FRAME : N := 1024.

Inductive BranchStateV1 : Type := BrReady | BrRunning | BrCompleted | BrCancelled | BrFailed.
#[export] Instance BranchStateV1_eq_dec : EqDecision BranchStateV1.
Proof. solve_decision. Defined.

Record BranchRecordV1 : Type := MkBranch {
  br_branch_id : StableId;
  br_ordinal : N;
  br_state : BranchStateV1;
  br_result : option json
}.

Record BranchFrameV1 : Type := MkFrame {
  bf_frame_id : StableId;
  bf_parent_token_id : StableId;
  bf_join_node_id : StableId;
  bf_branches : list BranchRecordV1;
  bf_merge_policy : string;
  bf_integrated : bool
}.

Record BranchCheckpointV1 : Type := MkBranchCheckpoint { bcp_frames : list BranchFrameV1 }.

Inductive BranchError : Type :=
| DuplicateFrame (frame : string)
| UnknownFrame (frame : string)
| UnknownBranch (branch : string)
| BranchTerminal (branch : string)
| JoinNotReady
| AlreadyIntegrated
| InvalidBranchCount
| DuplicateBranch
| UnsupportedMergePolicy (policy : string)
| ObjectMergeType.

Record BranchJoinCoordinator : Type := MkCoordinator { bj_frames : gmap string BranchFrameV1 }.
Definition BranchJoinCoordinator_new : BranchJoinCoordinator := MkCoordinator ∅.

Definition with_branches (l : list BranchRecordV1) (f : BranchFrameV1) : BranchFrameV1 :=
  MkFrame (bf_frame_id f) (bf_parent_token_id f) (bf_join_node_id f) l (bf_merge_policy f)
    (bf_integrated f).
Definition with_integrated (f : BranchFrameV1) : BranchFrameV1 :=
  MkFrame (bf_frame_id f) (bf_parent_token_id f) (bf_join_node_id f) (bf_branches f)
    (bf_merge_policy f) true.
Definition with_branch_state (st : BranchStateV1) (b : BranchRecordV1) : BranchRecordV1 :=
  MkBranch (br_branch_id b) (br_ordinal b) st (br_result b).
Definition set_frame (f : BranchFrameV1) (c : BranchJoinCoordinator) : BranchJoinCoordinator :=
  MkCoordinator (<[as_str (bf_frame_id f) := f]> (bj_frames c)).
(** A write through the reference that [get_mut(key)] returned. *)
Definition write_frame (key : StableId) (f : BranchFrameV1) (c : BranchJoinCoordinator) :
    BranchJoinCoordinator := MkCoordinator (<[as_str key := f]> (bj_frames c)).

(** The [matches!] on terminal states and on merge policies. *)
Definition branch_terminal (b : BranchRecordV1) : bool :=
  match br_state b with BrCompleted | BrCancelled | BrFailed => true | _ => false end.
Definition supported_merge_policy (policy : string) : bool :=
  bool_decide (policy = "ordered_array") || bool_decide (policy = "object_overlay").

Abbreviation coord A := (stm BranchJoinCoordinator BranchError A).

Definition open_parallel (frame_id parent_token_id join_node_id : StableId)
    (declared_branch_ids : list StableId) (merge_policy : string) : coord (list BranchRecordV1) :=
  _ ← reject_if (is_nil declared_branch_ids || (MAX_BRANCHES_PER_FRAME <? len declared_branch_ids))
        InvalidBranchCount;
  _ ← reject_if (negb (supported_merge_policy merge_policy)) (UnsupportedMergePolicy merge_policy);
  c ← read;
  _ ← reject_if (bt_contains (bj_frames c) (as_str frame_id)) (DuplicateFrame (as_str frame_id));
  let unique : gset string := list_to_set (as_str <$> declared_branch_ids) in
  _ ← reject_if (negb (bs_len unique =? len declared_branch_ids)) DuplicateBranch;
  let branches := imap (λ ordinal i, MkBranch i (N.of_nat ordinal) BrReady None) declared_branch_ids in
  _ ← modify (set_frame (MkFrame frame_id parent_token_id join_node_id branches merge_policy false));
  mret branches.

Section for_each_ids.
Context `{Sha256}.

Definition stable_branch_id (frame_id : StableId) (ordinal : nat) : option StableId :=
  let digest := sha256_hex (as_bytes (as_str frame_id +:+ ":" +:+ pretty ordinal)) in
  parse_opt (str_take 64 ("branch." +:+ pretty ordinal +:+ "." +:+ digest)).

Definition open_for_each (frame_id parent_token_id join_node_id : StableId)
    (items : list json) (maximum_items : N) (merge_policy : string) :
    coord (list (BranchRecordV1 * json)) :=
  _ ← reject_if (is_nil items || (maximum_items <? len items) || (MAX_BRANCHES_PER_FRAME <? len items))
        InvalidBranchCount;
  ids ← lift (map_res (λ ordinal, ok_or (stable_branch_id frame_id ordinal) InvalidBranchCount)
                (seq 0 (length items)));
  branches ← open_parallel frame_id parent_token_id join_node_id ids merge_policy;
  mret (zip branches items).
End for_each_ids.

(** The frame, and the first branch of it with this id and its position. *)
Definition branch_mut (c : BranchJoinCoordinator) (frame_id branch_id : StableId) :
    result BranchError (BranchFrameV1 * (nat * BranchRecordV1)) :=
  frame ← ok_or (bj_frames c !! as_str frame_id) (UnknownFrame (as_str frame_id));
  found ← ok_or (list_find (λ b, br_branch_id b = branch_id) (bf_branches frame))
            (UnknownBranch (as_str branch_id));
  Ok (frame, found).
Definition write_branch (frame_id : StableId) (frame : BranchFrameV1) (i : nat) (b : BranchRecordV1) :=
  write_frame frame_id (with_branches (<[i := b]> (bf_branches frame)) frame).

Definition mark_running (frame_id branch_id : StableId) : coord () :=
  c ← read;
  found ← lift (branch_mut c frame_id branch_id);
  let '(frame, (i, branch)) := found in
  _ ← reject_if (negb (bool_decide (br_state branch = BrReady))) (BranchTerminal (as_str branch_id));
  modify (write_branch frame_id frame i (with_branch_state BrRunning branch)).

Definition complete_branch (frame_id branch_id : StableId) (result : json) : coord () :=
  c ← read;
  found ← lift (branch_mut c frame_id branch_id);
  let '(frame, (i, branch)) := found in
  _ ← reject_if (branch_terminal branch) (BranchTerminal (as_str branch_id));
  modify (write_branch frame_id frame i
    (MkBranch (br_branch_id branch) (br_ordinal branch) BrCompleted (Some result))).

Definition cancel_branch (b : BranchRecordV1) : BranchRecordV1 :=
  if branch_terminal b then b else with_branch_state BrCancelled b.
Definition cancel_frame (frame_id : StableId) : coord () :=
  c ← read;
  frame ← lift (ok_or (bj_frames c !! as_str frame_id) (UnknownFrame (as_str frame_id)));
  modify (write_frame frame_id (with_branches (cancel_branch <$> bf_branches frame) frame)).

Definition all_terminal (f : BranchFrameV1) : bool := forallb branch_terminal (bf_branches f).
Definition is_join_ready (c : BranchJoinCoordinator) (frame_id : StableId) : bool :=
  match bj_frames c !! as_str frame_id with Some frame => all_terminal frame | None => false end.

(** The merge loops of [integrate]. *)
Fixpoint overlay (merged : obj) (branches : list BranchRecordV1) : result BranchError obj :=
  match branches with
  | [] => Ok merged
  | b :: branches =>
      match br_result b with
      | None => overlay merged branches
      | Some value =>
          object ← ok_or (as_object value) ObjectMergeType;
          overlay (obj_extend merged object) branches
      end
  end.
Definition merge_branches (frame : BranchFrameV1) : result BranchError json :=
  if bool_decide (bf_merge_policy frame = "ordered_array") then
    Ok (JArray ((λ b, default JNull (br_result b)) <$> bf_branches frame))
  else if bool_decide (bf_merge_policy frame = "object_overlay") then
    merged ← overlay [] (bf_branches frame); Ok (JObject merged)
  else Err (UnsupportedMergePolicy (bf_merge_policy frame)).

Definition integrate (frame_id : StableId) : coord json :=
  c ← read;
  frame ← lift (ok_or (bj_frames c !! as_str frame_id) (UnknownFrame (as_str frame_id)));
  _ ← reject_if (bf_integrated frame) AlreadyIntegrated;
  _ ← reject_if (negb (all_terminal frame)) JoinNotReady;
  value ← lift (merge_branches frame);
  _ ← modify (write_frame frame_id (with_integrated frame));
  mret value.

Definition branch_checkpoint (c : BranchJoinCoordinator) : BranchCheckpointV1 :=
  MkBranchCheckpoint (bt_values (bj_frames c)).

(** [branches.iter().any(|branch| match branch.state { .. })] *)
Definition result_mismatch (b : BranchRecordV1) : bool :=
  match br_state b with
  | BrCompleted => negb (is_some (br_result b))
  | _ => is_some (br_result b)
  end.
Definition validate_frame (frame : BranchFrameV1) : result BranchError () :=
  _ ← fail_if (is_nil (bf_branches frame) || (MAX_BRANCHES_PER_FRAME <? len (bf_branches frame)))
        InvalidBranchCount;
  _ ← fail_if (negb (supported_merge_policy (bf_merge_policy frame)))
        (UnsupportedMergePolicy (bf_merge_policy frame));
  let ids : gset string := list_to_set ((λ b, as_str (br_branch_id b)) <$> bf_branches frame) in
  let ordinals : gset N := list_to_set (br_ordinal <$> bf_branches frame) in
  let expected_ordinals : gset N := list_to_set (N.of_nat <$> seq 0 (length (bf_branches frame))) in
  fail_if (negb (bs_len ids =? len (bf_branches frame))
           || negb (bool_decide (ordinals = expected_ordinals))
           || existsb result_mismatch (bf_branches frame)
           || (bf_integrated frame && negb (all_terminal frame))) DuplicateBranch.
Definition restore_frame (frames : gmap string BranchFrameV1) (frame : BranchFrameV1) :
    result BranchError (gmap string BranchFrameV1) :=
  _ ← validate_frame frame;
  if bt_contains frames (as_str (bf_frame_id frame)) then Err DuplicateBranch
  else Ok (<[as_str (bf_frame_id frame) := frame]> frames).
Definition branch_restore (checkpoint : BranchCheckpointV1) : result BranchError BranchJoinCoordinator :=
  frames ← fold_res restore_frame ∅ (bcp_frames checkpoint);
  Ok (MkCoordinator frames).

(** ** Runs *)

Section branch_runs.
Context `{Sha256}.
Implicit Types (c : BranchJoinCoordinator) (f : BranchFrameV1) (b : BranchRecordV1).

Inductive branch_call : Type :=
| BcParallel (frame_id parent join : StableId) (ids : list StableId) (policy : string)
| BcForEach (frame_id parent join : StableId) (items : list json) (maximum : N) (policy : string)
| BcRunning (frame_id branch_id : StableId)
| BcComplete (frame_id branch_id : StableId) (result : json)
| BcCancel (frame_id : StableId)
| BcIntegrate (frame_id : StableId).
Definition branch_step (c : BranchJoinCoordinator) (call : branch_call) : BranchJoinCoordinator :=
  match call with
  | BcParallel f p j ids policy => (open_parallel f p j ids policy c).1
  | BcForEach f p j items maximum policy => (open_for_each f p j items maximum policy c).1
  | BcRunning f b => (mark_running f b c).1
  | BcComplete f b r => (complete_branch f b r c).1
  | BcCancel f => (cancel_frame f c).1
  | BcIntegrate f => (integrate f c).1
  end.
Definition branch_run (calls : list branch_call) (c : BranchJoinCoordinator) : BranchJoinCoordinator :=
  foldl branch_step c calls.

Definition coordinator_inv (c : BranchJoinCoordinator) : Prop :=
  ∀ k f, bj_frames c !! k = Some f → k = as_str (bf_frame_id f) ∧ validate_frame f = Ok ().

(** A branch keeps its id and ordinal, and a terminal one keeps everything. *)
Definition branch_evolves (b b' : BranchRecordV1) : Prop :=
  br_branch_id b' = br_branch_id b ∧ br_ordinal b' = br_ordinal b
  ∧ (branch_terminal b = true → b' = b).
Record frame_evolves (f f' : BranchFrameV1) : Prop := {
  fe_id : bf_frame_id f' = bf_frame_id f;
  fe_policy : bf_merge_policy f' = bf_merge_policy f;
  fe_branches : Forall2 branch_evolves (bf_branches f) (bf_branches f');
  fe_integrated : bf_integrated f = true → bf_integrated f' = true
}.
Definition coordinator_evolves (c c' : BranchJoinCoordinator) : Prop :=
  ∀ k f, bj_frames c !! k = Some f → ∃ f', bj_frames c' !! k = Some f' ∧ frame_evolves f f'.

#[export] Instance branch_evolves_preorder : PreOrder branch_evolves.
Proof.
  split; [by split|]. intros b1 b2 b3 (H1 & H2 & H3) (H4 & H5 & H6).
  split_and!; [congruence..|]. intros Ht. rewrite <-H3 by done. apply H6. by rewrite H3.
Qed.
#[export] Instance frame_evolves_preorder : PreOrder frame_evolves.
Proof.
  split; [by split|]. intros f1 f2 f3 [] []. split; [congruence..|by etrans|auto].
Qed.
#[export] Instance coordinator_evolves_preorder : PreOrder coordinator_evolves.
Proof.
  split; [intros c i f Hf; by exists f|]. intros c1 c2 c3 H1 H2 i f Hf.
  destruct (H1 i f Hf) as (f2 & Hf2 & E2). destruct (H2 i f2 Hf2) as (f3 & Hf3 & E3).
  exists f3. split; [done|]. by trans f2.
Qed.

(** What [validate_frame] accepts. *)
Lemma validate_frame_ok f :
  validate_frame f = Ok () ↔
  bf_branches f ≠ [] ∧ len (bf_branches f) ≤ MAX_BRANCHES_PER_FRAME
  ∧ supported_merge_policy (bf_merge_policy f) = true
  ∧ NoDup ((λ b, as_str (br_branch_id b)) <$> bf_branches f)
  ∧ (list_to_set (br_ordinal <$> bf_branches f) : gset N)
    = list_to_set (N.of_nat <$> seq 0 (length (bf_branches f)))
  ∧ (∀ b, b ∈ bf_branches f → result_mismatch b = false)
  ∧ (bf_integrated f = true → all_terminal f = true).
Proof.
  unfold validate_frame. rewrite <-size_list_to_set_NoDup, length_fmap. split.
  - intros Hv. res_inv Hv. boolify. unfold bs_len, len in *.
    split_and!; try done.
    + by destruct (bf_branches f).
    + lia.
    + intros b Hb. by eapply existsb_false.
    + intros Hi. rewrite Hi in *. simpl in *. by boolify.
  - intros (Hne & Hlen & Hp & Hnd & Hord & Hmis & Hint).
    assert (is_nil (bf_branches f) = false) as -> by (by destruct (bf_branches f)). simpl.
    rewrite (proj2 (N.ltb_ge _ _) Hlen), Hp. simpl. unfold bs_len, len. rewrite Hnd, N.eqb_refl. simpl.
    rewrite bool_decide_true by done. simpl.
    rewrite (proj2 (existsb_false _ _)) by done. simpl.
    destruct (bf_integrated f); simpl; [by rewrite Hint|done].
Qed.

Lemma evolves_ids f f' : frame_evolves f f' →
  length (bf_branches f') = length (bf_branches f)
  ∧ (λ b, as_str (br_branch_id b)) <$> bf_branches f' = (λ b, as_str (br_branch_id b)) <$> bf_branches f
  ∧ br_ordinal <$> bf_branches f' = br_ordinal <$> bf_branches f.
Proof.
  intros [_ _ Hb _]. induction Hb as [|b b' l l' (H1 & H2 & _) _ (IH1 & IH2 & IH3)]; [done|].
  csimpl. rewrite H1, H2. split_and!; congruence.
Qed.

Lemma validate_evolves f f' :
  validate_frame f = Ok () → frame_evolves f f' →
  (∀ b, b ∈ bf_branches f' → result_mismatch b = false) →
  (bf_integrated f' = true → all_terminal f' = true) → validate_frame f' = Ok ().
Proof.
  intros (Hne & Hlen & Hp & Hnd & Hord & _ & _)%validate_frame_ok He Hmis Hint.
  destruct (evolves_ids f f' He) as (Hl & Hids & Hords).
  apply validate_frame_ok. rewrite Hids, Hords, (fe_policy _ _ He), Hl. unfold len. rewrite Hl.
  split_and!; try done. intros Hn. rewrite Hn in Hl. by destruct (bf_branches f).
Qed.

Lemma write_frame_inv c key f f' :
  coordinator_inv c → bj_frames c !! as_str key = Some f → frame_evolves f f' →
  validate_frame f' = Ok () →
  coordinator_inv (write_frame key f' c) ∧ coordinator_evolves c (write_frame key f' c).
Proof.
  intros Hinv Hf He Hv. destruct (Hinv _ _ Hf) as [Hk _]. split.
  - intros i f2 Hl. simpl in Hl. apply lookup_insert_Some in Hl as [[<- <-]|[_ H2]]; [|by apply Hinv].
    split; [|done]. by rewrite (fe_id _ _ He).
  - intros i f2 H2. simpl. destruct (decide (as_str key = i)) as [<-|Hne].
    + rewrite lookup_insert_eq. exists f'. split; [done|]. by simplify_eq.
    + rewrite lookup_insert_ne by done. by exists f2.
Qed.

Lemma all_terminal_evolves f f' :
  all_terminal f = true → frame_evolves f f' → bf_branches f' = bf_branches f.
Proof.
  unfold all_terminal. intros Ht [_ _ Hb _].
  induction Hb as [|b b' l l' (_ & _ & H3) _ IH]; [done|]. simpl in Ht. boolify.
  rewrite IH by done. f_equal. auto.
Qed.

Lemma update_branch_evolves f i b b' :
  bf_branches f !! i = Some b → branch_evolves b b' →
  frame_evolves f (with_branches (<[i := b']> (bf_branches f)) f).
Proof.
  intros Hi Hb. split; try done. simpl. apply Forall2_same_length_lookup_2; [by rewrite length_insert|].
  intros j x y Hx Hy. destruct (decide (i = j)) as [<-|Hne].
  - rewrite list_lookup_insert_eq in Hy by (eapply lookup_lt_Some; eassumption). by simplify_eq.
  - rewrite list_lookup_insert_ne in Hy by done. by simplify_eq.
Qed.

(** Updating a branch that has not ended keeps the frame valid: it cannot
    have been integrated. *)
Lemma update_branch_valid f i b b' :
  validate_frame f = Ok () → bf_branches f !! i = Some b → branch_terminal b = false →
  br_branch_id b' = br_branch_id b → br_ordinal b' = br_ordinal b → result_mismatch b' = false →
  frame_evolves f (with_branches (<[i := b']> (bf_branches f)) f)
  ∧ validate_frame (with_branches (<[i := b']> (bf_branches f)) f) = Ok ().
Proof.
  intros Hv Hi Ht Hid Hord Hm.
  assert (frame_evolves f (with_branches (<[i := b']> (bf_branches f)) f)) as He.
  { eapply update_branch_evolves; [done|]. split_and!; [done..|]. congruence. }
  split; [done|]. apply (validate_evolves f); [done|done| |];
    apply validate_frame_ok in Hv as (_ & _ & _ & _ & _ & Hmis & Hint); simpl.
  - intros x Hx. apply list_elem_of_lookup in Hx as [j Hj].
    apply list_lookup_insert_Some in Hj as [(_ & <- & _)|[_ Hj]]; [done|].
    apply Hmis. by eapply list_elem_of_lookup_2.
  - intros Hin. specialize (Hint Hin). unfold all_terminal in Hint. rewrite forallb_forall in Hint.
    rewrite (Hint b) in Ht; [done|]. apply list_elem_of_In. by eapply list_elem_of_lookup_2.
Qed.

Lemma branch_mut_ok c fid bid f i b :
  branch_mut c fid bid = Ok (f, (i, b)) →
  bj_frames c !! as_str fid = Some f ∧ bf_branches f !! i = Some b ∧ br_branch_id b = bid.
Proof.
  unfold branch_mut. intros Hb. res_inv Hb. simplify_eq/=.
  match goal with Hl : list_find _ _ = Some _ |- _ => apply list_find_Some in Hl as (? & ? & _) end. done.
Qed.

(** ** Every call preserves the invariant *)

Abbreviation call_ok c c' := (coordinator_inv c' ∧ coordinator_evolves c c').

Lemma open_parallel_inv c c' fid p j ids policy bs :
  coordinator_inv c → open_parallel fid p j ids policy c = (c', Ok bs) → call_ok c c'.
Proof.
  intros Hinv. unfold open_parallel. intros Ho. run_inv Ho. boolify. unfold bs_len, len in *.
  split.
  - intros i f Hl'. simpl in Hl'. apply lookup_insert_Some in Hl' as [[<- <-]|[_ H2]]; [|by apply Hinv].
    split; [done|]. apply validate_frame_ok. simpl. rewrite length_imap.
    split_and!; try done.
    + by destruct ids.
    + unfold len. rewrite length_imap. lia.
    + rewrite fmap_imap. change (imap _ ids) with (imap (const as_str) ids). rewrite imap_const.
      apply size_list_to_set_NoDup. rewrite length_fmap. lia.
    + rewrite fmap_imap. unfold compose. simpl. f_equal. apply list_eq. intros n.
      rewrite list_lookup_imap, list_lookup_fmap. destruct (ids !! n) as [x|] eqn:Hn; simpl.
      * apply lookup_lt_Some in Hn. by rewrite lookup_seq_lt.
      * apply lookup_ge_None in Hn. by rewrite lookup_seq_ge.
    + intros b Hb. apply elem_of_lookup_imap in Hb as (n & x & -> & _). done.
  - intros i f Hf. simpl. exists f. split; [|done]. rewrite lookup_insert_ne; [done|]. congruence.
Qed.

Lemma mark_running_inv c c' fid bid u :
  coordinator_inv c → mark_running fid bid c = (c', Ok u) → call_ok c c'.
Proof.
  intros Hinv Hm. unfold mark_running in Hm. apply bind_ok in Hm as (? & ? & [= <- <-] & Hm).
  apply bind_ok in Hm as (? & [f [i b]] & [Hb ->]%lift_ok & Hm). run_inv Hm. boolify.
  apply branch_mut_ok in Hb as (Hf & Hi & _). destruct (Hinv _ _ Hf) as [_ Hv].
  pose proof (proj1 (validate_frame_ok f) Hv) as (_ & _ & _ & _ & _ & Hmis & _).
  specialize (Hmis b (list_elem_of_lookup_2 _ _ _ Hi)). unfold result_mismatch in Hmis.
  destruct (update_branch_valid f i b (with_branch_state BrRunning b)) as [He Hv']; try done.
  - unfold branch_terminal. by destruct (br_state b).
  - unfold result_mismatch. simpl. by destruct (br_state b).
  - by eapply write_frame_inv.
Qed.

Lemma complete_branch_inv c c' fid bid r u :
  coordinator_inv c → complete_branch fid bid r c = (c', Ok u) → call_ok c c'.
Proof.
  intros Hinv Hm. unfold complete_branch in Hm. apply bind_ok in Hm as (? & ? & [= <- <-] & Hm).
  apply bind_ok in Hm as (? & [f [i b]] & [Hb ->]%lift_ok & Hm). run_inv Hm. boolify.
  apply branch_mut_ok in Hb as (Hf & Hi & _). destruct (Hinv _ _ Hf) as [_ Hv].
  edestruct (update_branch_valid f i b (MkBranch (br_branch_id b) (br_ordinal b) BrCompleted (Some r)))
    as [He Hv']; try done. by eapply write_frame_inv.
Qed.

Lemma cancel_branch_evolves b : branch_evolves b (cancel_branch b).
Proof. unfold cancel_branch. destruct (branch_terminal b) eqn:Ht; split_and!; try done. by rewrite Ht. Qed.
Lemma cancel_branch_terminal b : branch_terminal (cancel_branch b) = true.
Proof. unfold cancel_branch. by destruct (branch_terminal b) eqn:Ht. Qed.

Lemma cancel_frame_inv c c' fid u :
  coordinator_inv c → cancel_frame fid c = (c', Ok u) → call_ok c c'.
Proof.
  intros Hinv Hm. unfold cancel_frame in Hm. run_inv Hm. destruct (Hinv _ _ Hm0) as [_ Hv].
  match goal with |- context [write_frame fid ?f'] => assert (frame_evolves x0 f') as He end.
  { split; try done. simpl. apply Forall2_fmap_r, Forall_Forall2_diag, Forall_forall.
    intros b _. apply cancel_branch_evolves. }
  eapply write_frame_inv; [done..|]. apply (validate_evolves x0); [done..| |]; simpl.
  - intros b' (b & -> & Hb)%list_elem_of_fmap.
    apply validate_frame_ok in Hv as (_ & _ & _ & _ & _ & Hmis & _). specialize (Hmis b Hb).
    unfold cancel_branch, branch_terminal, result_mismatch in *. by destruct (br_state b) eqn:Hs; rewrite ?Hs.
  - intros _. unfold all_terminal. simpl. apply forallb_forall. intros b' Hb'%list_elem_of_In.
    apply list_elem_of_fmap in Hb' as (b & -> & _). apply cancel_branch_terminal.
Qed.

Lemma integrate_ok c c' fid v :
  integrate fid c = (c', Ok v) →
  ∃ f, bj_frames c !! as_str fid = Some f ∧ bf_integrated f = false ∧ all_terminal f = true
    ∧ merge_branches f = Ok v ∧ c' = write_frame fid (with_integrated f) c.
Proof. unfold integrate. intros Hm. run_inv Hm. boolify. eauto 10. Qed.

Lemma integrate_inv c c' fid v :
  coordinator_inv c → integrate fid c = (c', Ok v) → call_ok c c'.
Proof.
  intros Hinv (f & Hf & Hi & Ht & _ & ->)%integrate_ok. destruct (Hinv _ _ Hf) as [_ Hv].
  assert (frame_evolves f (with_integrated f)) as He by (split; [done..|simpl; reflexivity|done]).
  eapply write_frame_inv; [done..|]. apply (validate_evolves f); [done..| |]; simpl.
  - by apply validate_frame_ok in Hv as (_ & _ & _ & _ & _ & Hmis & _).
  - done.
Qed.

Lemma branch_step_inv c call :
  coordinator_inv c → call_ok c (branch_step c call).
Proof.
  intros Hinv. destruct call as [f p j ids pol|f p j items n pol|f b|f b r|f|f]; simpl.
  - destruct (open_parallel f p j ids pol c) as [c' [a|e]] eqn:E; simpl; [by eapply open_parallel_inv|].
    unfold open_parallel in E. by err_inv E.
  - unfold open_for_each. destruct (_ : _ * result _ _) as [c' [a|e]] eqn:E; simpl.
    + apply bind_ok in E as (? & ? & H1 & E). run_inv_step H1.
      apply bind_ok in E as (? & ? & H2 & E). run_inv_step H2.
      apply bind_ok in E as (c1 & ? & H3 & E). run_inv E. by eapply open_parallel_inv.
    + apply bind_err in E as [E|(? & ? & H1 & E)]; [by err_inv E|]. run_inv_step H1.
      apply bind_err in E as [E|(? & ? & H2 & E)]; [by err_inv E|]. run_inv_step H2.
      apply bind_err in E as [E|(? & ? & H3 & E)]; [|by err_inv E].
      unfold open_parallel in E. by err_inv E.
  - destruct (mark_running f b c) as [c' [a|e]] eqn:E; simpl; [by eapply mark_running_inv|].
    unfold mark_running in E. apply bind_err in E as [E|(? & ? & [= <- <-] & E)]; [by err_inv E|].
    apply bind_err in E as [E|(? & [f' [i b']] & [Hb ->]%lift_ok & E)]; by err_inv E.
  - destruct (complete_branch f b r c) as [c' [a|e]] eqn:E; simpl; [by eapply complete_branch_inv|].
    unfold complete_branch in E. apply bind_err in E as [E|(? & ? & [= <- <-] & E)]; [by err_inv E|].
    apply bind_err in E as [E|(? & [f' [i b']] & [Hb ->]%lift_ok & E)]; by err_inv E.
  - destruct (cancel_frame f c) as [c' [a|e]] eqn:E; simpl; [by eapply cancel_frame_inv|].
    unfold cancel_frame in E. by err_inv E.
  - destruct (integrate f c) as [c' [a|e]] eqn:E; simpl; [by eapply integrate_inv|].
    unfold integrate in E. by err_inv E.
Qed.

Lemma branch_run_inv calls c : coordinator_inv c → call_ok c (branch_run calls c).
Proof.
  revert c. induction calls as [|call calls IH]; intros c Hinv; [done|]. simpl.
  destruct (branch_step_inv c call Hinv) as [H1 H2]. destruct (IH _ H1) as [H3 H4].
  split; [done|]. by trans (branch_step c call).
Qed.

(** A coordinator starts empty or restored from a checkpoint. *)
Definition branch_origin (c : BranchJoinCoordinator) : Prop :=
  c = BranchJoinCoordinator_new ∨ ∃ cp, branch_restore cp = Ok c.

Lemma branch_restore_inv cp c : branch_restore cp = Ok c → coordinator_inv c.
Proof.
  unfold branch_restore. intros Hr. res_inv Hr.
  apply (fold_res_inv _ (λ _ frames, coordinator_inv (MkCoordinator frames))) in Hr0; [done|done|].
  intros l f m m' IH Hf. unfold restore_frame in Hf. res_inv Hf. destruct (bt_contains _ _); [done|].
  simplify_eq. intros i f2 Hl. simpl in Hl. apply lookup_insert_Some in Hl as [[<- <-]|[_ H2]]; [|by apply IH].
  split; [done|]. by match goal with u : () |- _ => destruct u end.
Qed.

(** What it can have become: any calls, failed ones included. *)
Definition branch_reachable (c : BranchJoinCoordinator) : Prop :=
  ∃ c0 calls, branch_origin c0 ∧ branch_run calls c0 = c.

Lemma branch_reachable_inv c : branch_reachable c → coordinator_inv c.
Proof.
  intros (c0 & calls & Ho & <-). apply branch_run_inv.
  destruct Ho as [->|[cp Hr]]; [done|by eapply branch_restore_inv].
Qed.

(** ** Properties *)

(** Whatever calls a new or restored coordinator has seen, restoring
    its checkpoint succeeds and gives the same coordinator back. *)
Theorem branch_checkpoint_roundtrip c :
  branch_reachable c → branch_restore (branch_checkpoint c) = Ok c.
Proof.
  intros Hinv%branch_reachable_inv. unfold branch_restore, branch_checkpoint. simpl.
  rewrite (fold_restore_values restore_frame (λ f, as_str (bf_frame_id f))); [by destruct c|apply Hinv|].
  intros k f acc Hf Hacc. unfold restore_frame. destruct (Hinv _ _ Hf) as [_ ->]. simpl.
  by rewrite (proj2 (bt_contains_false _ _) Hacc).
Qed.

(** C39: a join integrates once, and what it integrates is final: the
    value merges branches that have all ended, whatever follows leaves those
    branches as they are, and integrating the frame again is refused. *)
Theorem join_integrates_once c c' fid v (calls : list branch_call) :
  branch_reachable c → integrate fid c = (c', Ok v) →
  ∃ f, bj_frames c !! as_str fid = Some f ∧ all_terminal f = true ∧ merge_branches f = Ok v
    ∧ (∃ f', bj_frames (branch_run calls c') !! as_str fid = Some f' ∧ bf_branches f' = bf_branches f)
    ∧ integrate fid (branch_run calls c') = (branch_run calls c', Err AlreadyIntegrated).
Proof.
  intros Hinv%branch_reachable_inv Hi. destruct (integrate_inv _ _ _ _ Hinv Hi) as [Hinv' _].
  apply integrate_ok in Hi as (f & Hf & _ & Ht & Hm & ->). exists f. split_and!; [done..| |];
    destruct (branch_run_inv calls _ Hinv') as [_ He];
    destruct (He (as_str fid) (with_integrated f)) as (f' & Hf' & E);
    try (simpl; apply lookup_insert_eq).
  - exists f'. split; [done|]. by apply (all_terminal_evolves (with_integrated f)).
  - unfold integrate, mbind, stm_bind, read, lift, reject_if. rewrite Hf'. simpl.
    by rewrite (fe_integrated _ _ E).
Qed.

(** *** Overlay *)

Lemma obj_extend_get o o' k :
  NoDup o'.*1 →
  obj_get k (obj_extend o o') = match obj_get k o' with Some v => Some v | None => obj_get k o end.
Proof.
  unfold obj_extend. revert o. induction o' as [|[k' v'] o' IH]; intros o Hnd; [done|]. csimpl in *.
  apply NoDup_cons in Hnd as [Hk Hnd]. rewrite IH by done. rewrite obj_get_insert.
  destruct (obj_get k o') eqn:Hg; repeat case_bool_decide; subst; try done.
  apply obj_get_Some_elem in Hg. destruct Hk. apply list_elem_of_fmap. by exists (k', j).
Qed.

(** The value a key has in the last branch, in declared order, that has it. *)
Definition last_value (k : string) (bs : list BranchRecordV1) (start : option json) : option json :=
  foldl (λ acc b, match br_result b ≫= value_get k with Some v => Some v | None => acc end) start bs.

Lemma overlay_get bs k acc merged :
  Forall (λ b, ∀ o, br_result b = Some (JObject o) → NoDup o.*1) bs →
  overlay acc bs = Ok merged → obj_get k merged = last_value k bs (obj_get k acc).
Proof.
  revert acc. induction bs as [|b bs IH]; intros acc Hnd Ho; simpl in *; [congruence|].
  apply Forall_cons in Hnd as [Hb Hnd]. destruct (br_result b) as [v|] eqn:Hr; simpl; [|by apply IH].
  res_inv Ho. destruct v; simplify_eq/=. rewrite (IH _ Hnd Ho), obj_extend_get by auto. done.
Qed.

Lemma overlay_total bs acc :
  (∃ merged, overlay acc bs = Ok merged) ↔
  Forall (λ b, ∀ v, br_result b = Some v → is_object v = true) bs.
Proof.
  revert acc. induction bs as [|b bs IH]; intros acc; simpl; [split; eauto|].
  rewrite Forall_cons. destruct (br_result b) as [v|] eqn:Hr; simpl.
  - destruct v as [|?|?|?|?|o]; simpl;
      try (split; [by intros [? [=]]|intros [Hv _]; by specialize (Hv _ eq_refl)]).
    rewrite IH. naive_solver.
  - rewrite IH. naive_solver.
Qed.

(** An object overlay join succeeds exactly when every branch that
    produced a result produced an object, and then each key has the value of
    the last branch, in declared order, whose result has that key. *)
Theorem object_overlay_last_wins f :
  bf_merge_policy f = "object_overlay" →
  Forall (λ b, ∀ o, br_result b = Some (JObject o) → NoDup o.*1) (bf_branches f) →
  ((∃ v, merge_branches f = Ok v) ↔
     Forall (λ b, ∀ v, br_result b = Some v → is_object v = true) (bf_branches f))
  ∧ ∀ v k, merge_branches f = Ok v → value_get k v = last_value k (bf_branches f) None.
Proof.
  intros Hp Hnd. unfold merge_branches. rewrite Hp. simpl. split.
  - rewrite <-(overlay_total _ []). destruct (overlay [] (bf_branches f)); simpl; naive_solver.
  - intros v k Hv. res_inv Hv. simplify_eq/=. by apply (overlay_get _ k []).
Qed.
End branch_runs.

(** Join policies that plan validation accepts and the coordinator does not
    implement. *)
Lemma plan_policies_unsupported :
  filter (λ p, supported_merge_policy p = false) allowed_merge_policies = ["require_equal"; "object_union"].
Proof. reflexivity. Qed.

(** ** A concrete frame *)

Module DemoBranch.
Import (hints) Demo.
Definition frame : StableId := id:"frame".
Definition opened : list branch_call :=
  [BcParallel frame id:"token" id:"join" [id:"a"; id:"b"; id:"c"] "object_overlay";
   BcRunning frame id:"a"; BcComplete frame id:"b" (JObject [("x", JBool true); ("y", JNull)]);
   BcComplete frame id:"a" (JObject [("x", JBool false); ("z", JBool true)]); BcCancel frame].

Definition two : BranchFrameV1 :=
  MkFrame frame frame frame
    [MkBranch id:"a" 0 BrCompleted (Some (JObject [("x", JBool false)]));
     MkBranch id:"b" 1 BrCompleted (Some (JObject [("x", JBool true)]))] "object_overlay" false.
Lemma opened_reachable : branch_reachable (branch_run opened BranchJoinCoordinator_new).
Proof. exists BranchJoinCoordinator_new, opened. split; [by left|done]. Qed.
End DemoBranch.

Section branch_witnesses.
Import (hints) Demo.
Import DemoBranch.

Lemma branch_checkpoint_roundtrip_witness :
  let c := branch_run opened BranchJoinCoordinator_new in
  bt_len (bj_frames c) = 1 ∧ branch_restore (branch_checkpoint c) = Ok c.
Proof.
  split; [vm_compute; reflexivity|].
  exact (branch_checkpoint_roundtrip _ opened_reachable).
Defined.

Lemma join_integrates_once_witness :
  let c := branch_run opened BranchJoinCoordinator_new in
  let c' := branch_run [BcComplete frame id:"c" JNull; BcCancel frame] (integrate frame c).1 in
  (integrate frame c).2 = Ok (JObject [("x", JBool true); ("z", JBool true); ("y", JNull)])
  ∧ integrate frame c' = (c', Err AlreadyIntegrated).
Proof.
  set (c := branch_run opened BranchJoinCoordinator_new).
  assert ((integrate frame c).2 = Ok (JObject [("x", JBool true); ("z", JBool true); ("y", JNull)])) as Hv
    by (vm_compute; reflexivity).
  split; [exact Hv|].
  destruct (join_integrates_once c (integrate frame c).1 frame
    (JObject [("x", JBool true); ("z", JBool true); ("y", JNull)])
    [BcComplete frame id:"c" JNull; BcCancel frame]) as (f & _ & _ & _ & _ & Ha).
  - exact opened_reachable.
  - rewrite <-Hv. apply surjective_pairing.
  - exact Ha.
Defined.

Lemma object_overlay_last_wins_witness :
  merge_branches two = Ok (JObject [("x", JBool true)])
  ∧ value_get "x" (JObject [("x", JBool true)]) = last_value "x" (bf_branches two) None.
Proof.
  assert (merge_branches two = Ok (JObject [("x", JBool true)])) as Hv by (vm_compute; reflexivity).
  split; [exact Hv|].
  refine (proj2 (object_overlay_last_wins two eq_refl _) _ "x" Hv).
  repeat constructor; intros o [= <-]; repeat constructor; set_solver.
Defined.
End branch_witnesses.
