(* ===== verification/Suspension.v ===== *)
(** * Suspension frames and rehydration ([SuspensionControllerV1] and
    [RehydratorV1] of [crates/aworkit-workflow-worker/src/suspension.rs])

    Which tokens wait for an input, an approval or a resume, each consumed
    once; and the fence a recovery envelope passes before its checkpoint is
    used. *)
From S2P Require Export Branch.

Inductive SuspensionKindV1 : Type :=
| SkInput (input_id : StableId)
| SkApproval (approval_id : StableId)
| SkPaused (scope : string)
| SkCancelling (scope : string).
#[export] Instance SuspensionKindV1_eq_dec : EqDecision SuspensionKindV1.
Proof. solve_decision. Defined.

Record SuspensionFrameV1 : Type := MkSuspension {
  sf_suspension_id : StableId;
  sf_token_id : StableId;
  sf_kind : SuspensionKindV1;
  sf_resolved : bool
}.

Record SuspensionCheckpointV1 : Type := MkSuspensionCheckpoint {
  sk_frames : list SuspensionFrameV1;
  sk_consumed_inputs : list StableId;
  sk_consumed_approvals : list StableId;
  sk_applied_controls : list StableId
}.

Inductive SuspensionErrorV1 : Type :=
| DuplicateSuspension (suspension : string)
| UnknownSuspension (suspension : string)
| AlreadyResolved
| ControlMismatch
| SuspensionInvalidCheckpoint.

Record SuspensionControllerV1 : Type := MkController {
  su_frames : gmap string SuspensionFrameV1;
  su_consumed_inputs : gset string;
  su_consumed_approvals : gset string;
  su_applied_controls : gset string
}.
Definition SuspensionControllerV1_new : SuspensionControllerV1 := MkController ∅ ∅ ∅ ∅.

Definition su_set_frames m c :=
  MkController m (su_consumed_inputs c) (su_consumed_approvals c) (su_applied_controls c).
Definition su_add_input i c :=
  MkController (su_frames c) ({[i]} ∪ su_consumed_inputs c) (su_consumed_approvals c)
    (su_applied_controls c).
Definition su_add_approval i c :=
  MkController (su_frames c) (su_consumed_inputs c) ({[i]} ∪ su_consumed_approvals c)
    (su_applied_controls c).
Definition su_add_control i c :=
  MkController (su_frames c) (su_consumed_inputs c) (su_consumed_approvals c)
    ({[i]} ∪ su_applied_controls c).
Definition sf_resolve (f : SuspensionFrameV1) : SuspensionFrameV1 :=
  MkSuspension (sf_suspension_id f) (sf_token_id f) (sf_kind f) true.
Definition sf_set_kind (k : SuspensionKindV1) (f : SuspensionFrameV1) : SuspensionFrameV1 :=
  MkSuspension (sf_suspension_id f) (sf_token_id f) k (sf_resolved f).

Abbreviation susp A := (stm SuspensionControllerV1 SuspensionErrorV1 A).

Definition suspend_frame (frame : SuspensionFrameV1) : susp () :=
  c ← read;
  _ ← reject_if (sf_resolved frame
                 || existsb (λ existing, negb (sf_resolved existing)
                              && bool_decide (sf_token_id existing = sf_token_id frame))
                      (bt_values (su_frames c))
                 || bt_contains (su_frames c) (as_str (sf_suspension_id frame)))
        (DuplicateSuspension (as_str (sf_suspension_id frame)));
  modify (su_set_frames (<[as_str (sf_suspension_id frame) := frame]> (su_frames c))).

Definition frame_unresolved (c : SuspensionControllerV1) (suspension_id : StableId) :
    result SuspensionErrorV1 SuspensionFrameV1 :=
  frame ← ok_or (su_frames c !! as_str suspension_id) (UnknownSuspension (as_str suspension_id));
  _ ← fail_if (sf_resolved frame) AlreadyResolved;
  Ok frame.

Definition resolve_input (suspension_id input_id : StableId) : susp bool :=
  c ← read;
  if bs_contains (su_consumed_inputs c) (as_str input_id) then mret false
  else
    frame ← lift (frame_unresolved c suspension_id);
    _ ← reject_if (negb (bool_decide (sf_kind frame = SkInput input_id))) ControlMismatch;
    _ ← modify (su_set_frames (<[as_str suspension_id := sf_resolve frame]> (su_frames c)));
    _ ← modify (su_add_input (as_str input_id));
    mret true.

Definition resolve_approval (suspension_id approval_id : StableId) (outcome : ApprovalOutcomeV1) :
    susp bool :=
  c ← read;
  if bs_contains (su_consumed_approvals c) (as_str approval_id) then mret false
  else
    frame ← lift (frame_unresolved c suspension_id);
    _ ← reject_if (negb (bool_decide (sf_kind frame = SkApproval approval_id))) ControlMismatch;
    _ ← modify (su_set_frames (<[as_str suspension_id := sf_resolve frame]> (su_frames c)));
    _ ← modify (su_add_approval (as_str approval_id));
    mret true.

Definition controlled (cancelling : bool) (scope : string) (f : SuspensionFrameV1) : SuspensionFrameV1 :=
  if sf_resolved f then f
  else sf_set_kind (if cancelling then SkCancelling scope else SkPaused scope) f.
Definition apply_control (control_id : StableId) (scope : string) (cancelling : bool) : susp bool :=
  _ ← reject_if (str_is_empty scope || (512 <? str_len scope)) ControlMismatch;
  c ← read;
  if bs_contains (su_applied_controls c) (as_str control_id) then mret false
  else
    _ ← modify (su_add_control (as_str control_id));
    _ ← modify (su_set_frames (fmap (M:=gmap string) (controlled cancelling scope) (su_frames c)));
    mret true.

Definition resumable (scope : string) (f : SuspensionFrameV1) : bool :=
  bool_decide (sf_kind f = SkPaused scope) && negb (sf_resolved f).
Definition resume_pause (control_id : StableId) (scope : string) : susp (list StableId) :=
  _ ← reject_if (str_is_empty scope || (512 <? str_len scope)) ControlMismatch;
  c ← read;
  if bs_contains (su_applied_controls c) (as_str control_id) then mret []
  else
    _ ← modify (su_add_control (as_str control_id));
    let resumed := sf_token_id <$> filter (λ f, resumable scope f = true) (bt_values (su_frames c)) in
    _ ← modify (su_set_frames (fmap (M:=gmap string)
          (λ f, if resumable scope f then sf_resolve f else f) (su_frames c)));
    mret resumed.

Definition unresolved (c : SuspensionControllerV1) : list SuspensionFrameV1 :=
  filter (λ f, negb (sf_resolved f) = true) (bt_values (su_frames c)).

(** ** Checkpoints *)

Definition suspension_checkpoint (c : SuspensionControllerV1) : SuspensionCheckpointV1 :=
  MkSuspensionCheckpoint (bt_values (su_frames c))
    (omap parse_opt (bt_elems (su_consumed_inputs c)))
    (omap parse_opt (bt_elems (su_consumed_approvals c)))
    (omap parse_opt (bt_elems (su_applied_controls c))).

Definition unique_ids (ids : list StableId) : result SuspensionErrorV1 (gset string) :=
  let expected := len ids in
  let ids : gset string := list_to_set (as_str <$> ids) in
  if negb (bs_len ids =? expected) then Err SuspensionInvalidCheckpoint else Ok ids.

(** One iteration of the restoring loop; the second test of the code, on
    the result of [insert], repeats [contains_key]. *)
Definition restore_suspension (st : gset string * gmap string SuspensionFrameV1)
    (frame : SuspensionFrameV1) : result SuspensionErrorV1 (gset string * gmap string SuspensionFrameV1) :=
  let '(tokens, frames) := st in
  _ ← fail_if ((negb (sf_resolved frame) && bs_contains tokens (as_str (sf_token_id frame)))
               || bt_contains frames (as_str (sf_suspension_id frame))) SuspensionInvalidCheckpoint;
  Ok (if sf_resolved frame then tokens else {[as_str (sf_token_id frame)]} ∪ tokens,
      <[as_str (sf_suspension_id frame) := frame]> frames).

Definition resolved_input (f : SuspensionFrameV1) : option string :=
  match sf_kind f with
  | SkInput i => if sf_resolved f then Some (as_str i) else None
  | _ => None
  end.
Definition resolved_approval (f : SuspensionFrameV1) : option string :=
  match sf_kind f with
  | SkApproval i => if sf_resolved f then Some (as_str i) else None
  | _ => None
  end.
Definition collect_ids (g : SuspensionFrameV1 → option string) (m : gmap string SuspensionFrameV1) :
    gset string := list_to_set (omap g (bt_values m)).

Definition suspension_restore (k : SuspensionCheckpointV1) :
    result SuspensionErrorV1 SuspensionControllerV1 :=
  _ ← fail_if (10000 <? len (sk_frames k)) SuspensionInvalidCheckpoint;
  st ← fold_res restore_suspension (∅ : gset string, ∅) (sk_frames k);
  let frames := st.2 in
  inputs ← unique_ids (sk_consumed_inputs k);
  approvals ← unique_ids (sk_consumed_approvals k);
  controls ← unique_ids (sk_applied_controls k);
  _ ← fail_if (negb (bool_decide (collect_ids resolved_input frames = inputs))
               || negb (bool_decide (collect_ids resolved_approval frames = approvals)))
        SuspensionInvalidCheckpoint;
  Ok (MkController frames inputs approvals controls).

(** ** Rehydration *)

Record RehydratedStateV1 : Type := MkRehydrated {
  rh_checkpoint : WorkerCheckpointV1;
  rh_committed_deltas : list json;
  rh_reconciled_outcome_ids : list StableId
}.

Inductive RecoveryErrorV1 : Type :=
| ReSnapshotMismatch
| RePlanMismatch
| ReCheckpointHashMismatch
| ReGenerationFence
| ReDeltaGap
| ReOutcomeConflict
| RePayloadTooLarge
| ReEncoding.

Definition clear_checkpoint_hash (k : WorkerCheckpointV1) : WorkerCheckpointV1 :=
  MkCheckpoint (wc_checkpoint_id k) (wc_snapshot_hash k) (wc_plan_hash k) "" (wc_prior_generation k)
    (wc_committed_cursor k) (wc_proposal_sequence k) (wc_token_frontier k) (wc_context_heads k)
    (wc_context_revision_dag k) (wc_branch_frames k) (wc_loop_frames k) (wc_budget_state k)
    (wc_attempt_state k) (wc_no_resend_state k) (wc_suspension_state k) (wc_child_frames k).

Fixpoint validate_deltas_from (expected : N) (deltas : list json) : result RecoveryErrorV1 () :=
  match deltas with
  | [] => Ok ()
  | delta :: deltas =>
      cursor ← ok_or (value_get "cursor" delta ≫= as_u64) ReDeltaGap;
      _ ← fail_if (negb (cursor =? expected)) ReDeltaGap;
      validate_deltas_from (saturating_add u64_max expected 1) deltas
  end.
Definition validate_delta_cursors (start : N) (deltas : list json) : result RecoveryErrorV1 () :=
  validate_deltas_from (saturating_add u64_max start 1) deltas.

(** [serde_json::to_value] at one type. *)
Class ToValue (T : Type) : Type := to_value : T → option json.

Section rehydrate.
Context `{Sha256, !Serialize WorkerFrozenRunSnapshotV1, !Serialize json,
  !Serialize (string * WorkerFrozenRunSnapshotV1 * string), !Serialize WorkerCheckpointV1,
  !ToValue CapabilityOutcomeV1}.

Definition checkpoint_hash (k : WorkerCheckpointV1) : result RecoveryErrorV1 string :=
  bytes ← ok_or (jcs_to_vec (clear_checkpoint_hash k)) ReEncoding;
  Ok (sha256_hex bytes).

Definition reconcile_outcome (seen : gmap string (string * json)) (outcome : CapabilityOutcomeV1) :
    result RecoveryErrorV1 (gmap string (string * json)) :=
  value ← ok_or (to_value outcome) ReEncoding;
  let key := as_str (co_invocation_id outcome) in
  let current := (as_str (co_outcome_id outcome), value) in
  _ ← fail_if (match seen !! key with
               | Some previous => negb (bool_decide (previous.1 = current.1) && json_eqb previous.2 current.2)
               | None => false
               end) ReOutcomeConflict;
  Ok (<[key := current]> seen).

Definition rehydrate (e : RehydrationEnvelopeV1) : result RecoveryErrorV1 RehydratedStateV1 :=
  _ ← fail_if ((10000 <? len (re_committed_deltas e)) || (10000 <? len (re_reconciled_outcomes e)))
        RePayloadTooLarge;
  calculated_snapshot ← map_err (λ _, ReEncoding) (snapshot_content_hash (re_snapshot e));
  _ ← fail_if (negb (bool_decide (ws_snapshot_hash (re_snapshot e) = calculated_snapshot))
               || negb (bool_decide (wc_snapshot_hash (re_checkpoint e) = calculated_snapshot)))
        ReSnapshotMismatch;
  plan ← map_err (λ _, RePlanMismatch) (compile (re_snapshot e) calculated_snapshot);
  _ ← fail_if (negb (bool_decide (wc_plan_hash (re_checkpoint e) = plan_fingerprint plan))) RePlanMismatch;
  _ ← fail_if (re_replacement_generation e <=? wc_prior_generation (re_checkpoint e)) ReGenerationFence;
  hash ← checkpoint_hash (re_checkpoint e);
  _ ← fail_if (negb (bool_decide (hash = wc_checkpoint_hash (re_checkpoint e)))) ReCheckpointHashMismatch;
  _ ← validate_delta_cursors (wc_committed_cursor (re_checkpoint e)) (re_committed_deltas e);
  _ ← fold_res reconcile_outcome ∅ (re_reconciled_outcomes e);
  Ok (MkRehydrated (re_checkpoint e) (re_committed_deltas e) (co_outcome_id <$> re_reconciled_outcomes e)).
End rehydrate.

(** ** Runs *)

Implicit Types (c : SuspensionControllerV1) (f : SuspensionFrameV1).

Inductive suspension_call : Type :=
| ScSuspend (frame : SuspensionFrameV1)
| ScInput (suspension_id input_id : StableId)
| ScApproval (suspension_id approval_id : StableId) (outcome : ApprovalOutcomeV1)
| ScControl (control_id : StableId) (scope : string) (cancelling : bool)
| ScResume (control_id : StableId) (scope : string).
Definition suspension_step (c : SuspensionControllerV1) (call : suspension_call) : SuspensionControllerV1 :=
  match call with
  | ScSuspend f => (suspend_frame f c).1
  | ScInput s i => (resolve_input s i c).1
  | ScApproval s a o => (resolve_approval s a o c).1
  | ScControl i scope cancelling => (apply_control i scope cancelling c).1
  | ScResume i scope => (resume_pause i scope c).1
  end.
Definition suspension_run (calls : list suspension_call) (c : SuspensionControllerV1) :
    SuspensionControllerV1 := foldl suspension_step c calls.

Record suspension_inv (c : SuspensionControllerV1) : Prop := {
  si_key : ∀ k f, su_frames c !! k = Some f → k = as_str (sf_suspension_id f);
  si_token : ∀ k1 k2 f1 f2, su_frames c !! k1 = Some f1 → su_frames c !! k2 = Some f2 →
    sf_resolved f1 = false → sf_resolved f2 = false → sf_token_id f1 = sf_token_id f2 → k1 = k2;
  si_inputs : collect_ids resolved_input (su_frames c) = su_consumed_inputs c;
  si_approvals : collect_ids resolved_approval (su_frames c) = su_consumed_approvals c;
  si_controls : ∀ i, i ∈ su_applied_controls c → is_Some (parse_opt i)
}.

(** Resolved frames are frozen and the consumed sets only grow. *)
Record suspension_grows (c c' : SuspensionControllerV1) : Prop := {
  sg_frames : ∀ k f, su_frames c !! k = Some f →
    ∃ f', su_frames c' !! k = Some f' ∧ sf_token_id f' = sf_token_id f
      ∧ (sf_resolved f = true → f' = f);
  sg_inputs : su_consumed_inputs c ⊆ su_consumed_inputs c';
  sg_approvals : su_consumed_approvals c ⊆ su_consumed_approvals c';
  sg_controls : su_applied_controls c ⊆ su_applied_controls c'
}.
#[export] Instance suspension_grows_preorder : PreOrder suspension_grows.
Proof.
  split; [intros c; split; eauto|]. intros c1 c2 c3 [F1 I1 A1 C1] [F2 I2 A2 C2].
  split; [|by etrans..]. intros i f Hf. destruct (F1 i f Hf) as (f2 & Hf2 & Ht2 & Hr2).
  destruct (F2 i f2 Hf2) as (f3 & Hf3 & Ht3 & Hr3). exists f3. split_and!; [done|congruence|].
  intros Hr. specialize (Hr2 Hr). subst. auto.
Qed.

Lemma elem_of_collect g m i : i ∈ collect_ids g m ↔ ∃ k f, m !! k = Some f ∧ g f = Some i.
Proof.
  unfold collect_ids. rewrite elem_of_list_to_set, list_elem_of_omap. split.
  - intros (f & [k Hk]%elem_of_bt_values & Hg). eauto.
  - intros (k & f & Hk & Hg). exists f. split; [|done]. apply elem_of_bt_values. eauto.
Qed.

(** Replacing one frame changes the collected ids by that frame's id. *)
Lemma collect_insert g m k f f' :
  m !! k = Some f → g f = None →
  collect_ids g (<[k := f']> m) =
    (match g f' with Some i => {[i]} | None => ∅ end) ∪ collect_ids g m.
Proof.
  intros Hk Hg. apply set_eq. intros i. rewrite elem_of_union, !elem_of_collect. split.
  - intros (k2 & f2 & [[<- <-]|[_ H2]]%lookup_insert_Some & Hi); [|eauto 6]. rewrite Hi. left. set_solver.
  - intros [Hi|(k2 & f2 & H2 & Hi)].
    + exists k, f'. rewrite lookup_insert_eq. destruct (g f'); set_solver.
    + exists k2, f2. rewrite lookup_insert_ne; [done|]. intros <-. congruence.
Qed.
Lemma collect_fresh g m k f' :
  m !! k = None → g f' = None → collect_ids g (<[k := f']> m) = collect_ids g m.
Proof.
  intros Hk Hg. apply set_eq. intros i. rewrite !elem_of_collect. split.
  - intros (k2 & f2 & [[<- <-]|[_ H2]]%lookup_insert_Some & Hi); [congruence|eauto].
  - intros (k2 & f2 & H2 & Hi). exists k2, f2. rewrite lookup_insert_ne; [done|]. intros <-. congruence.
Qed.
Lemma collect_fmap g h m :
  (∀ k f, m !! k = Some f → g (h f) = g f) → collect_ids g (h <$> m) = collect_ids g m.
Proof.
  intros Hg. apply set_eq. intros i. rewrite !elem_of_collect. split.
  - intros (k & f & Hl & Hi). rewrite lookup_fmap in Hl. apply fmap_Some in Hl as (f0 & Hf0 & ->).
    exists k, f0. by rewrite <-(Hg k f0).
  - intros (k & f & Hf & Hi). exists k, (h f). rewrite lookup_fmap, Hf. by rewrite (Hg k f).
Qed.

Lemma unresolved_none f : sf_resolved f = false → resolved_input f = None ∧ resolved_approval f = None.
Proof. unfold resolved_input, resolved_approval. intros ->. by destruct (sf_kind f). Qed.

Abbreviation susp_ok c c' := (suspension_inv c' ∧ suspension_grows c c').

Lemma suspend_frame_inv c c' f u : suspension_inv c → suspend_frame f c = (c', Ok u) → susp_ok c c'.
Proof.
  intros [] Hs. unfold suspend_frame in Hs. run_inv Hs. boolify.
  rename H into Hr, H1 into Hex, H0 into Hfresh.
  destruct (unresolved_none f Hr) as [Hi Ha].
  assert (∀ k g, su_frames c !! k = Some g → sf_resolved g = false → sf_token_id g ≠ sf_token_id f) as Htok.
  { intros k g Hg Hres Heq.
    pose proof (proj1 (existsb_false _ _) Hex g (proj2 (elem_of_bt_values _ _) (ex_intro _ k Hg))) as Hn.
    simpl in Hn. rewrite Hres, bool_decide_true in Hn by done. discriminate Hn. }
  split; [split; simpl|split; simpl; [|done..]].
  - intros k g [[<- <-]|[_ Hg]]%lookup_insert_Some; auto.
  - intros k1 k2 f1 f2 [[<- <-]|[_ H1]]%lookup_insert_Some [[<- <-]|[_ H2]]%lookup_insert_Some R1 R2 E; try done.
    + by destruct (Htok k2 f2).
    + by destruct (Htok k1 f1).
    + by apply (si_token0 k1 k2 f1 f2).
  - by rewrite collect_fresh.
  - by rewrite collect_fresh.
  - done.
  - intros k g Hg. exists g. rewrite lookup_insert_ne; [done|]. congruence.
Qed.

Lemma frame_unresolved_ok c s f :
  frame_unresolved c s = Ok f ↔ su_frames c !! as_str s = Some f ∧ sf_resolved f = false.
Proof.
  unfold frame_unresolved. split.
  - intros Hf. res_inv Hf. by simplify_eq.
  - intros [-> Hr]. simpl. by rewrite Hr.
Qed.

(** Marking an unresolved frame resolved. *)
Lemma resolve_frame_frames c s f :
  suspension_inv c → su_frames c !! as_str s = Some f → sf_resolved f = false →
  let m := <[as_str s := sf_resolve f]> (su_frames c) in
  (∀ k g, m !! k = Some g → k = as_str (sf_suspension_id g))
  ∧ (∀ k1 k2 f1 f2, m !! k1 = Some f1 → m !! k2 = Some f2 →
      sf_resolved f1 = false → sf_resolved f2 = false → sf_token_id f1 = sf_token_id f2 → k1 = k2)
  ∧ (∀ k g, su_frames c !! k = Some g → ∃ g', m !! k = Some g' ∧ sf_token_id g' = sf_token_id g
       ∧ (sf_resolved g = true → g' = g)).
Proof.
  intros [] Hf Hr m. subst m. split_and!.
  - intros k g [[<- <-]|[_ Hg]]%lookup_insert_Some; [|auto]. simpl. by apply si_key0.
  - intros k1 k2 f1 f2 [[<- <-]|[_ H1]]%lookup_insert_Some [[<- <-]|[_ H2]]%lookup_insert_Some; try done; eauto.
  - intros k g Hg. destruct (decide (as_str s = k)) as [<-|Hne].
    + rewrite lookup_insert_eq. eexists. split; [done|]. simplify_eq. split; [done|congruence].
    + rewrite lookup_insert_ne by done. eauto.
Qed.

Lemma resolve_input_cases c c' s i b :
  resolve_input s i c = (c', Ok b) →
  (b = false ∧ as_str i ∈ su_consumed_inputs c ∧ c' = c) ∨
  (b = true ∧ as_str i ∉ su_consumed_inputs c ∧ ∃ f, su_frames c !! as_str s = Some f
   ∧ sf_resolved f = false ∧ sf_kind f = SkInput i
   ∧ c' = MkController (<[as_str s := sf_resolve f]> (su_frames c)) ({[as_str i]} ∪ su_consumed_inputs c)
            (su_consumed_approvals c) (su_applied_controls c)).
Proof.
  unfold resolve_input. intros Hr. apply bind_ok in Hr as (? & ? & [= <- <-] & Hr).
  destruct (bs_contains _ _) eqn:Hc; run_inv Hr; boolify; [by left|]. right.
  apply frame_unresolved_ok in Hr0 as [Hf Hres]. eauto 10.
Qed.

Lemma resolve_input_inv c c' s i b :
  suspension_inv c → resolve_input s i c = (c', Ok b) → susp_ok c c'.
Proof.
  intros Hinv [(_ & _ & ->)|(_ & _ & f & Hf & Hr & Hk & ->)]%resolve_input_cases; [done|].
  destruct (resolve_frame_frames c s f Hinv Hf Hr) as (F1 & F2 & F3).
  destruct (unresolved_none f Hr) as [Hi Ha]. destruct Hinv.
  split; split; simpl; try done; try apply union_subseteq_r.
  - rewrite (collect_insert _ _ _ f) by done. unfold resolved_input at 1. simpl. rewrite Hk. by f_equal.
  - rewrite (collect_insert _ _ _ f) by done. unfold resolved_approval at 1. simpl. by rewrite Hk, (left_id_L ∅ _).
Qed.

Lemma resolve_approval_cases c c' s i o b :
  resolve_approval s i o c = (c', Ok b) →
  (b = false ∧ as_str i ∈ su_consumed_approvals c ∧ c' = c) ∨
  (b = true ∧ as_str i ∉ su_consumed_approvals c ∧ ∃ f, su_frames c !! as_str s = Some f
   ∧ sf_resolved f = false ∧ sf_kind f = SkApproval i
   ∧ c' = MkController (<[as_str s := sf_resolve f]> (su_frames c)) (su_consumed_inputs c)
            ({[as_str i]} ∪ su_consumed_approvals c) (su_applied_controls c)).
Proof.
  unfold resolve_approval. intros Hr. apply bind_ok in Hr as (? & ? & [= <- <-] & Hr).
  destruct (bs_contains _ _) eqn:Hc; run_inv Hr; boolify; [by left|]. right.
  apply frame_unresolved_ok in Hr0 as [Hf Hres]. eauto 10.
Qed.

Lemma resolve_approval_inv c c' s i o b :
  suspension_inv c → resolve_approval s i o c = (c', Ok b) → susp_ok c c'.
Proof.
  intros Hinv [(_ & _ & ->)|(_ & _ & f & Hf & Hr & Hk & ->)]%resolve_approval_cases; [done|].
  destruct (resolve_frame_frames c s f Hinv Hf Hr) as (F1 & F2 & F3).
  destruct (unresolved_none f Hr) as [Hi Ha]. destruct Hinv.
  split; split; simpl; try done; try apply union_subseteq_r.
  - rewrite (collect_insert _ _ _ f) by done. unfold resolved_input at 1. simpl. by rewrite Hk, (left_id_L ∅ _).
  - rewrite (collect_insert _ _ _ f) by done. unfold resolved_approval at 1. simpl. rewrite Hk. by f_equal.
Qed.

(** Updating every frame by a function that keeps ids, tokens and resolved
    frames, and resolves only frames of kind [Paused]. *)
Lemma map_frames_inv c (h : SuspensionFrameV1 → SuspensionFrameV1) i :
  suspension_inv c →
  (∀ f, sf_suspension_id (h f) = sf_suspension_id f ∧ sf_token_id (h f) = sf_token_id f
    ∧ (sf_resolved f = true → h f = f) ∧ resolved_input (h f) = resolved_input f
    ∧ resolved_approval (h f) = resolved_approval f) →
  susp_ok c (MkController (h <$> su_frames c) (su_consumed_inputs c) (su_consumed_approvals c)
               ({[as_str i]} ∪ su_applied_controls c)).
Proof.
  intros [] Hh.
  assert (∀ f, sf_resolved (h f) = false → sf_resolved f = false) as Hmono.
  { intros f Hf. destruct (sf_resolved f) eqn:Hr; [|done]. destruct (Hh f) as (_ & _ & Heq & _).
    rewrite (Heq Hr) in Hf. congruence. }
  split; split; simpl; try done; try apply union_subseteq_r.
  - intros k g Hl. rewrite lookup_fmap in Hl. apply fmap_Some in Hl as (f & Hf & ->).
    rewrite (proj1 (Hh f)). auto.
  - intros k1 k2 f1 f2 H1 H2 R1 R2. rewrite lookup_fmap in H1, H2.
    apply fmap_Some in H1 as (g1 & G1 & ->). apply fmap_Some in H2 as (g2 & G2 & ->).
    rewrite (proj1 (proj2 (Hh g1))), (proj1 (proj2 (Hh g2))). eauto.
  - rewrite <-si_inputs0. apply collect_fmap. intros k f _. apply Hh.
  - rewrite <-si_approvals0. apply collect_fmap. intros k f _. apply Hh.
  - intros j [->%elem_of_singleton|Hj]%elem_of_union; [|auto]. rewrite parse_opt_as_str. eauto.
  - intros k f Hf. exists (h f). rewrite lookup_fmap, Hf. split; [done|]. split; apply Hh.
Qed.

Lemma apply_control_inv c c' i scope b r :
  suspension_inv c → apply_control i scope b c = (c', Ok r) → susp_ok c c'.
Proof.
  intros Hinv Ha. unfold apply_control in Ha. apply bind_ok in Ha as (? & [] & Hg & Ha). run_inv_step Hg.
  apply bind_ok in Ha as (? & ? & [= <- <-] & Ha). destruct (bs_contains _ _); run_inv Ha; [done|].
  apply (map_frames_inv c _ i Hinv). intros f. unfold controlled. destruct (sf_resolved f) eqn:Hr; [done|].
  destruct (unresolved_none f Hr) as [-> ->]. split_and!; try done; by destruct b; simpl.
Qed.

Lemma resume_pause_inv c c' i scope r :
  suspension_inv c → resume_pause i scope c = (c', Ok r) → susp_ok c c'.
Proof.
  intros Hinv Ha. unfold resume_pause in Ha. apply bind_ok in Ha as (? & [] & Hg & Ha). run_inv_step Hg.
  apply bind_ok in Ha as (? & ? & [= <- <-] & Ha). destruct (bs_contains _ _); run_inv Ha; [done|].
  apply (map_frames_inv c _ i Hinv). intros f. destruct (resumable scope f) eqn:Hr; [|done].
  unfold resumable in Hr. boolify. unfold resolved_input, resolved_approval. simpl.
  rewrite H. split_and!; try done. intros ?; congruence.
Qed.

Lemma suspension_step_inv c call : suspension_inv c → susp_ok c (suspension_step c call).
Proof.
  intros Hinv. destruct call as [f|s i|s i o|i sc b|i sc]; simpl.
  - destruct (suspend_frame f c) as [c' [a|e]] eqn:E; simpl; [by eapply suspend_frame_inv|].
    unfold suspend_frame in E. by err_inv E.
  - destruct (resolve_input s i c) as [c' [a|e]] eqn:E; simpl; [by eapply resolve_input_inv|].
    unfold resolve_input in E. apply bind_err in E as [E|(? & ? & [= <- <-] & E)]; [by err_inv E|].
    destruct (bs_contains _ _); by err_inv E.
  - destruct (resolve_approval s i o c) as [c' [a|e]] eqn:E; simpl; [by eapply resolve_approval_inv|].
    unfold resolve_approval in E. apply bind_err in E as [E|(? & ? & [= <- <-] & E)]; [by err_inv E|].
    destruct (bs_contains _ _); by err_inv E.
  - destruct (apply_control i sc b c) as [c' [a|e]] eqn:E; simpl; [by eapply apply_control_inv|].
    unfold apply_control in E. apply bind_err in E as [E|(? & ? & Hg & E)]; [by err_inv E|]. run_inv_step Hg.
    apply bind_err in E as [E|(? & ? & [= <- <-] & E)]; [by err_inv E|]. destruct (bs_contains _ _); by err_inv E.
  - destruct (resume_pause i sc c) as [c' [a|e]] eqn:E; simpl; [by eapply resume_pause_inv|].
    unfold resume_pause in E. apply bind_err in E as [E|(? & ? & Hg & E)]; [by err_inv E|]. run_inv_step Hg.
    apply bind_err in E as [E|(? & ? & [= <- <-] & E)]; [by err_inv E|]. destruct (bs_contains _ _); by err_inv E.
Qed.

Lemma suspension_run_inv calls c : suspension_inv c → susp_ok c (suspension_run calls c).
Proof.
  revert c. induction calls as [|call calls IH]; intros c Hinv; [done|]. simpl.
  destruct (suspension_step_inv c call Hinv) as [H1 H2]. destruct (IH _ H1) as [H3 H4].
  split; [done|]. by trans (suspension_step c call).
Qed.

(** ** Restore *)

Lemma restore_loop l T M :
  NoDup ((λ f, as_str (sf_suspension_id f)) <$> l) →
  (∀ f, f ∈ l → M !! as_str (sf_suspension_id f) = None) →
  NoDup ((λ f, as_str (sf_token_id f)) <$> filter (λ f, sf_resolved f = false) l) →
  (∀ f, f ∈ l → sf_resolved f = false → as_str (sf_token_id f) ∉ T) →
  ∃ T', fold_res restore_suspension (T, M) l
    = Ok (T', foldl (λ m p, <[p.1 := p.2]> m) M ((λ f, (as_str (sf_suspension_id f), f)) <$> l)).
Proof.
  revert T M. induction l as [|f l IH]; intros T M Hnd HM Hnt HT; [eauto|]. csimpl.
  csimpl in *. apply NoDup_cons in Hnd as [Hf Hnd]. rewrite filter_cons in Hnt.
  rewrite (proj2 (bt_contains_false _ _) (HM f ltac:(by left))), orb_false_r.
  assert (∀ g, g ∈ l → <[as_str (sf_suspension_id f) := f]> M !! as_str (sf_suspension_id g) = None) as HM'.
  { intros g Hg. rewrite lookup_insert_ne; [apply HM; by right|]. intros Heq. apply Hf.
    apply list_elem_of_fmap. by exists g. }
  destruct (sf_resolved f) eqn:Hr; simpl.
  - rewrite decide_False in Hnt by done. apply IH; auto. intros g Hg. apply HT. by right.
  - rewrite decide_True in Hnt by done. csimpl in Hnt. apply NoDup_cons in Hnt as [Ht Hnt].
    unfold bs_contains. rewrite bool_decide_false by (apply HT; [by left|done]). simpl.
    apply IH; auto. intros g Hg Hrg [Heq%elem_of_singleton|Hin]%elem_of_union.
    + apply Ht. apply list_elem_of_fmap. exists g. split; [done|]. apply list_elem_of_filter. done.
    + by apply (HT g ltac:(by right) Hrg).
Qed.

Lemma unique_ids_parsed (s : gset string) :
  (∀ i, i ∈ s → is_Some (parse_opt i)) → unique_ids (omap parse_opt (bt_elems s)) = Ok s.
Proof.
  intros Hs. unfold unique_ids.
  by rewrite parsed_ids, list_to_set_bt_elems, length_parsed_ids, N.eqb_refl.
Qed.

Lemma collect_parses g m i :
  (∀ f i, g f = Some i → is_Some (parse_opt i)) → i ∈ collect_ids g m → is_Some (parse_opt i).
Proof. intros Hg (k & f & _ & Hi)%elem_of_collect. eauto. Qed.
Lemma resolved_input_parses f i : resolved_input f = Some i → is_Some (parse_opt i).
Proof. unfold resolved_input. intros Hf. inv_case Hf. rewrite parse_opt_as_str. eauto. Qed.
Lemma resolved_approval_parses f i : resolved_approval f = Some i → is_Some (parse_opt i).
Proof. unfold resolved_approval. intros Hf. inv_case Hf. rewrite parse_opt_as_str. eauto. Qed.

Lemma suspension_roundtrip c :
  suspension_inv c → bt_len (su_frames c) ≤ 10000 → suspension_restore (suspension_checkpoint c) = Ok c.
Proof.
  intros [] Hlen. unfold suspension_restore, suspension_checkpoint. simpl.
  unfold len, bt_len in *. rewrite length_bt_values. rewrite (proj2 (N.ltb_ge _ _) Hlen). simpl.
  destruct (restore_loop (bt_values (su_frames c)) ∅ ∅) as [T' ->].
  - by apply (NoDup_keyed (λ f, as_str (sf_suspension_id f))).
  - intros. apply lookup_empty.
  - apply NoDup_fmap_2_strong; [|apply NoDup_filter, (NoDup_bt_values (λ f, as_str (sf_suspension_id f))); auto].
    intros f1 f2 [R1 [k1 H1]%elem_of_bt_values]%list_elem_of_filter
      [R2 [k2 H2]%elem_of_bt_values]%list_elem_of_filter Heq%as_str_inj.
    pose proof (si_token0 _ _ _ _ H1 H2 R1 R2 Heq). congruence.
  - set_solver.
  - simpl. rewrite (foldl_insert_values (λ f, as_str (sf_suspension_id f))) by auto.
    rewrite !unique_ids_parsed; simpl.
    + rewrite si_inputs0, si_approvals0, !bool_decide_true by done. by destruct c.
    + intros i. rewrite <-si_inputs0. apply collect_parses, resolved_input_parses.
    + intros i. rewrite <-si_approvals0. apply collect_parses, resolved_approval_parses.
    + auto.
Qed.

Lemma unique_ids_ok ids s : unique_ids ids = Ok s → ∀ i, i ∈ s → is_Some (parse_opt i).
Proof.
  unfold unique_ids. case_match; [done|]. intros [= <-] i Hi.
  apply elem_of_list_to_set, list_elem_of_fmap in Hi as (j & -> & _). rewrite parse_opt_as_str. eauto.
Qed.

Lemma suspension_restore_inv k c : suspension_restore k = Ok c → suspension_inv c.
Proof.
  unfold suspension_restore. intros Hr. res_inv Hr. boolify. simplify_eq. simpl in *.
  destruct x0 as [T M]. simpl in *.
  apply (fold_res_inv _ (λ _ '(T, M),
    (∀ k f, M !! k = Some f → k = as_str (sf_suspension_id f))
    ∧ (∀ k f, M !! k = Some f → sf_resolved f = false → as_str (sf_token_id f) ∈ T)
    ∧ (∀ k1 k2 f1 f2, M !! k1 = Some f1 → M !! k2 = Some f2 →
      sf_resolved f1 = false → sf_resolved f2 = false → sf_token_id f1 = sf_token_id f2 → k1 = k2))) in Hr1.
  - destruct Hr1 as (H1 & _ & H3). split; simpl; try done. by eapply unique_ids_ok.
  - split_and!; intros; by simplify_map_eq.
  - clear. intros l f [T M] [T' M'] (H1 & H2 & H3) Hf. unfold restore_suspension in Hf. res_inv Hf. boolify.
    simplify_eq. split_and!.
    + intros i g [[<- <-]|[_ Hg]]%lookup_insert_Some; auto.
    + intros i g [[<- <-]|[_ Hg]]%lookup_insert_Some Hr; [rewrite Hr; set_solver|].
      specialize (H2 i g Hg Hr). destruct (sf_resolved f); set_solver.
    + assert (∀ i g, M !! i = Some g → sf_resolved g = false → sf_resolved f = false →
        sf_token_id g = sf_token_id f → False) as Hne.
      { intros i g Hg Rg Rf E. specialize (H2 i g Hg Rg). rewrite E in H2.
        match goal with Hg : negb (sf_resolved f) && _ = false |- _ => rewrite Rf in Hg; simpl in Hg; boolify end.
        done. }
      intros i1 i2 f1 f2 [[<- <-]|[_ G1]]%lookup_insert_Some [[<- <-]|[_ G2]]%lookup_insert_Some R1 R2 E;
        try done; [by destruct (Hne i2 f2)|by destruct (Hne i1 f1)|by apply (H3 i1 i2 f1 f2)].
Qed.

(** New or restored, then any calls, failed ones included. *)
Definition suspension_reachable (c : SuspensionControllerV1) : Prop :=
  ∃ c0 calls, (c0 = SuspensionControllerV1_new ∨ ∃ k, suspension_restore k = Ok c0)
    ∧ suspension_run calls c0 = c.

Lemma suspension_reachable_inv c : suspension_reachable c → suspension_inv c.
Proof.
  intros (c0 & calls & Ho & <-). apply suspension_run_inv.
  destruct Ho as [->|[k Hk]]; [|by eapply suspension_restore_inv].
  split; simpl; try done; try (intros; by simplify_map_eq).
Qed.

(** ** Properties *)

(** A controller of at most 10,000 frames survives checkpoint and
    restore unchanged, whatever calls it has seen. *)
Theorem suspension_checkpoint_roundtrip c :
  suspension_reachable c → bt_len (su_frames c) ≤ 10000 →
  suspension_restore (suspension_checkpoint c) = Ok c.
Proof. intros Hr Hlen. apply suspension_roundtrip; [by apply suspension_reachable_inv|done]. Qed.

(** An input or approval is consumed once.  After the call that
    resolves a frame with it, whatever follows, the frame stays resolved by
    it and every further delivery of it, to any frame, is ignored and changes
    nothing; and no token ever waits in two unresolved frames. *)
Theorem resolution_consumed_once c c' s i (calls : list suspension_call) :
  suspension_reachable c → (resolve_input s i c = (c', Ok true) ∨ ∃ o, resolve_approval s i o c = (c', Ok true)) →
  let c2 := suspension_run calls c' in
  (∃ f, su_frames c2 !! as_str s = Some f ∧ sf_resolved f = true
     ∧ (sf_kind f = SkInput i ∨ sf_kind f = SkApproval i))
  ∧ (resolve_input s i c = (c', Ok true) → ∀ s', resolve_input s' i c2 = (c2, Ok false))
  ∧ (∀ o, resolve_approval s i o c = (c', Ok true) → ∀ s' o', resolve_approval s' i o' c2 = (c2, Ok false))
  ∧ NoDup (sf_token_id <$> unresolved c2).
Proof.
  intros Hinv%suspension_reachable_inv Hcall c2.
  assert (susp_ok c c') as [Hinv' _]
    by (destruct Hcall as [Hc|[o Hc]]; [by eapply resolve_input_inv|by eapply resolve_approval_inv]).
  destruct (suspension_run_inv calls c' Hinv') as [Hinv2 Hg]. fold c2 in Hinv2, Hg.
  split_and!.
  - assert (∃ f, su_frames c' !! as_str s = Some f ∧ sf_resolved f = true
      ∧ (sf_kind f = SkInput i ∨ sf_kind f = SkApproval i)) as (f & Hf & Hr & Hk).
    { destruct Hcall as [Hc|[o Hc]];
        [apply resolve_input_cases in Hc as [([=] & _)|(_ & _ & f & _ & _ & Hk & ->)]
        |apply resolve_approval_cases in Hc as [([=] & _)|(_ & _ & f & _ & _ & Hk & ->)]];
        exists (sf_resolve f); simpl; rewrite lookup_insert_eq; auto. }
    destruct (sg_frames _ _ Hg _ _ Hf) as (f' & Hf' & _ & Heq). rewrite (Heq Hr) in Hf'. eauto.
  - intros Hc s'. apply resolve_input_cases in Hc as [([=] & _)|(_ & _ & f & _ & _ & _ & ->)].
    unfold resolve_input, mbind, stm_bind, read. unfold bs_contains. rewrite bool_decide_true; [done|].
    apply (sg_inputs _ _ Hg). simpl. set_solver.
  - intros o Hc s' o'. apply resolve_approval_cases in Hc as [([=] & _)|(_ & _ & f & _ & _ & _ & ->)].
    unfold resolve_approval, mbind, stm_bind, read. unfold bs_contains. rewrite bool_decide_true; [done|].
    apply (sg_approvals _ _ Hg). simpl. set_solver.
  - unfold unresolved. apply NoDup_fmap_2_strong.
    + intros f1 f2 [R1 [k1 H1]%elem_of_bt_values]%list_elem_of_filter
        [R2 [k2 H2]%elem_of_bt_values]%list_elem_of_filter Heq. boolify.
      pose proof (si_token _ Hinv2 _ _ _ _ H1 H2 R1 R2 Heq). congruence.
    + apply NoDup_filter, (NoDup_bt_values (λ f, as_str (sf_suspension_id f))). apply Hinv2.
Qed.

(** *** Rehydration *)

Lemma deltas_from_ok start deltas :
  start + len deltas ≤ u64_max + 1 →
  validate_deltas_from start deltas = Ok () ↔
  ∀ n d, deltas !! n = Some d → value_get "cursor" d ≫= as_u64 = Some (start + N.of_nat n).
Proof.
  revert start. induction deltas as [|d deltas IH]; intros start Hb; simpl; [by split|].
  assert (len (d :: deltas) = len deltas + 1) as Hlen by (unfold len; simpl; lia). rewrite Hlen in Hb.
  assert (saturating_add u64_max start 1 = start + 1 ∨ deltas = []) as Hsat.
  { destruct deltas as [|d' ds]; [by right|left]. unfold saturating_add.
    assert (1 ≤ len (d' :: ds)) by (unfold len; simpl; lia). lia. }
  assert (validate_deltas_from (saturating_add u64_max start 1) deltas = Ok ()
    ↔ ∀ n d, deltas !! n = Some d → value_get "cursor" d ≫= as_u64 = Some (start + 1 + N.of_nat n)) as IH'.
  { destruct Hsat as [->| ->]; [apply IH; lia|simpl; by split]. }
  split.
  - intros Hv. res_inv Hv. boolify. subst. pose proof (proj1 IH' Hv) as Hall. clear Hv. rename Hall into Hv.
    intros [|n] d' Hd'; simplify_eq/=; [by rewrite N.add_0_r|]. rewrite (Hv n d' Hd'). f_equal. lia.
  - intros Hall. pose proof (Hall O d eq_refl) as H0. rewrite H0. simpl. rewrite N.add_0_r, N.eqb_refl. simpl.
    apply IH'. intros n d' Hd'. rewrite (Hall (S n) d' Hd'). f_equal. lia.
Qed.

Section rehydrate_facts.
Context `{Sha256, !Serialize WorkerFrozenRunSnapshotV1, !Serialize json,
  !Serialize (string * WorkerFrozenRunSnapshotV1 * string), !Serialize WorkerCheckpointV1,
  !ToValue CapabilityOutcomeV1}.

Lemma reconcile_unique outcomes seen :
  fold_res reconcile_outcome ∅ outcomes = Ok seen →
  ∀ o, o ∈ outcomes → ∃ v, seen !! as_str (co_invocation_id o) = Some (as_str (co_outcome_id o), v).
Proof.
  apply (fold_res_inv _ (λ l m, ∀ o, o ∈ l →
    ∃ v, m !! as_str (co_invocation_id o) = Some (as_str (co_outcome_id o), v))); [set_solver|].
  intros l o m m' IH Hf o2 Ho2. unfold reconcile_outcome in Hf. res_inv Hf. simplify_eq/=.
  apply elem_of_app in Ho2 as [Hin|Hin].
  - destruct (IH o2 Hin) as [v Hv]. destruct (decide (as_str (co_invocation_id o) = as_str (co_invocation_id o2)))
      as [Heq|Hne]; [|rewrite lookup_insert_ne by done; eauto].
    rewrite Heq, lookup_insert_eq. rewrite Heq, Hv in Hf1. simpl in Hf1. boolify. rewrite H0. eauto.
  - apply list_elem_of_singleton in Hin as ->. rewrite lookup_insert_eq. eauto.
Qed.

(** Recovery is fenced.  An envelope is accepted only when the
    replacement generation is newer than the checkpoint's, the snapshot
    compiles to the plan the checkpoint was taken under, the checkpoint's
    content hash is right, the committed deltas carry the cursors that follow
    the checkpoint's one by one, and no invocation has two reconciled
    outcomes; what is restored is the checkpoint, the deltas and the outcome
    ids of the envelope and nothing else. *)
Theorem rehydrate_fences e st :
  rehydrate e = Ok st →
  wc_committed_cursor (re_checkpoint e) + len (re_committed_deltas e) ≤ u64_max →
  st = MkRehydrated (re_checkpoint e) (re_committed_deltas e) (co_outcome_id <$> re_reconciled_outcomes e)
  ∧ wc_prior_generation (re_checkpoint e) < re_replacement_generation e
  ∧ (∃ p, compile (re_snapshot e) (wc_snapshot_hash (re_checkpoint e)) = Ok p
        ∧ plan_fingerprint p = wc_plan_hash (re_checkpoint e))
  ∧ checkpoint_hash (re_checkpoint e) = Ok (wc_checkpoint_hash (re_checkpoint e))
  ∧ (∀ n d, re_committed_deltas e !! n = Some d →
       value_get "cursor" d ≫= as_u64 = Some (wc_committed_cursor (re_checkpoint e) + 1 + N.of_nat n))
  ∧ (∀ o1 o2, o1 ∈ re_reconciled_outcomes e → o2 ∈ re_reconciled_outcomes e →
       co_invocation_id o1 = co_invocation_id o2 → co_outcome_id o1 = co_outcome_id o2).
Proof.
  intros Hr Hb. unfold rehydrate in Hr. res_inv Hr. boolify. simplify_eq/=. split_and!; try done.
  - eexists. split; [|done]. congruence.
  - intros n d Hd.
    match goal with Hv : validate_delta_cursors _ _ = Ok ?u |- _ =>
      destruct u; unfold validate_delta_cursors in Hv end.
    assert (1 ≤ len (re_committed_deltas e)) by (apply lookup_lt_Some in Hd; unfold len; lia).
    match goal with Hv : validate_deltas_from ?s _ = Ok _ |- _ =>
      replace s with (wc_committed_cursor (re_checkpoint e) + 1) in Hv by (unfold saturating_add; lia);
      refine (proj1 (deltas_from_ok _ _ _) Hv n d Hd); lia end.
  - intros o1 o2 Ho1 Ho2 Heq. match goal with Hf : fold_res _ _ _ = Ok _ |- _ =>
      destruct (reconcile_unique _ _ Hf o1 Ho1) as [v1 Hv1];
      destruct (reconcile_unique _ _ Hf o2 Ho2) as [v2 Hv2] end.
    rewrite Heq in Hv1. apply as_str_inj. congruence.
Qed.
End rehydrate_facts.

(** ** Concrete controllers *)

Module DemoSuspension.
Definition waits (s t : StableId) (k : SuspensionKindV1) : suspension_call :=
  ScSuspend (MkSuspension s t k false).
Definition calls : list suspension_call :=
  [waits id:"s1" id:"t1" (SkInput id:"in1"); waits id:"s2" id:"t2" (SkApproval id:"ok1");
   waits id:"s3" id:"t2" (SkInput id:"in2"); ScInput id:"s1" id:"in1";
   waits id:"s4" id:"t1" (SkInput id:"in3")].
Definition start : SuspensionControllerV1 := suspension_run calls SuspensionControllerV1_new.
Lemma start_reachable : suspension_reachable start.
Proof. exists SuspensionControllerV1_new, calls. split; [by left|done]. Qed.
End DemoSuspension.

(** A pause overwrites what a frame waits for: after pause and resume the
    token runs although its input never arrived, and the input is then
    refused.  A pause also ignores its scope: a second one, for another
    scope, takes over every frame of the first, whose resume then resumes
    nothing. *)
Lemma pause_overwrites_waits :
  let c := suspension_run [DemoSuspension.waits id:"s" id:"t" (SkInput id:"in"); ScControl id:"p" "a" false]
             SuspensionControllerV1_new in
  (resume_pause id:"r" "a" c).2 = Ok [id:"t"]
  ∧ (resolve_input id:"s" id:"in" (suspension_run [ScResume id:"r" "a"] c)).2 = Err AlreadyResolved
  ∧ (resume_pause id:"r" "a" (suspension_run [ScControl id:"q" "b" false] c)).2 = Ok [].
Proof. vm_compute. auto. Qed.

Module DemoRecovery.
Import (hints) Demo.
#[export] Instance checkpoint_ser : Serialize WorkerCheckpointV1 := {|
  to_vec k := Some (as_bytes (as_str (wc_checkpoint_id k) +:+ wc_checkpoint_hash k));
  jcs_to_vec k := Some (as_bytes (as_str (wc_checkpoint_id k) +:+ wc_checkpoint_hash k))
|}.
#[export] Instance outcome_to_value : ToValue CapabilityOutcomeV1 :=
  λ o, Some (JString (as_str (co_outcome_id o))).
Definition checkpoint (hash : string) : WorkerCheckpointV1 :=
  MkCheckpoint id:"ck" (ws_snapshot_hash Demo.snapshot)
    (match Demo.plan with Some p => plan_fingerprint p | None => "" end) hash 3 10 4
    JNull JNull JNull JNull JNull JNull JNull JNull JNull JNull.
Definition sealed : WorkerCheckpointV1 :=
  match checkpoint_hash (checkpoint "") with Ok h => checkpoint h | Err _ => checkpoint "" end.
Definition delta (n : N) : json := JObject [("cursor", JNumber (PosInt n))].
Definition envelope (generation : N) (deltas : list json) : RehydrationEnvelopeV1 :=
  MkRehydration Demo.snapshot sealed generation deltas
    [MkOutcome id:"o1" id:"i1" CoSuccess false JNull None].
End DemoRecovery.

Section suspension_witnesses.
Import (hints) Demo DemoRecovery.
Import DemoSuspension DemoRecovery.

Lemma suspension_checkpoint_roundtrip_witness :
  len (unresolved start) = 2 ∧ suspension_restore (suspension_checkpoint start) = Ok start.
Proof.
  split; [vm_compute; reflexivity|].
  apply (suspension_checkpoint_roundtrip start start_reachable). vm_compute. discriminate.
Defined.

Lemma resolution_consumed_once_witness :
  let c2 := suspension_run [ScControl id:"p" "root" false] (resolve_input id:"s4" id:"in3" start).1 in
  (resolve_input id:"s4" id:"in3" start).2 = Ok true
  ∧ ∀ s', resolve_input s' id:"in3" c2 = (c2, Ok false).
Proof.
  assert ((resolve_input id:"s4" id:"in3" start).2 = Ok true) as Hv by (vm_compute; reflexivity).
  assert (resolve_input id:"s4" id:"in3" start = ((resolve_input id:"s4" id:"in3" start).1, Ok true)) as Hc
    by (rewrite <-Hv; apply surjective_pairing).
  split; [exact Hv|].
  exact (proj1 (proj2 (resolution_consumed_once start _ id:"s4" id:"in3" [ScControl id:"p" "root" false]
    start_reachable (or_introl Hc))) Hc).
Defined.

Lemma rehydrate_fences_witness :
  is_ok (rehydrate (envelope 4 [delta 11; delta 12])) = true
  ∧ is_ok (rehydrate (envelope 3 [delta 11])) = false
  ∧ is_ok (rehydrate (envelope 4 [delta 12])) = false
  ∧ wc_prior_generation sealed < 4.
Proof.
  split_and!; [vm_compute; reflexivity..|].
  assert (is_ok (rehydrate (envelope 4 [delta 11; delta 12])) = true) as Hok by (vm_compute; reflexivity).
  destruct (rehydrate (envelope 4 [delta 11; delta 12])) as [st|er] eqn:E; [|discriminate Hok].
  refine (proj1 (proj2 (rehydrate_fences (envelope 4 [delta 11; delta 12]) st E _))).
  vm_compute. discriminate.
Defined.
End suspension_witnesses.
