(* ===== verification/Policy.v ===== *)
(** * Attempt policy ([crates/aworkit-workflow-worker/src/policy.rs])

    What follows an attempt: retry, reconcile, an existing edge, a fallback,
    an approval, a user decision or failure; and the ledger that makes a
    decision final and remembers which invocations may not be sent again. *)
From S2P Require Export Suspension.

(** ** The compatibility policy *)

Inductive EffectOutcome : Type := EoSuccess | EoDefiniteNotStarted | EoFailed | EoOutcomeUncertain.
Inductive AttemptDecision : Type :=
| AdContinue | AdRetry | AdFallback (node : string) | AdWaitForApproval | AdTerminalFailure.
Record AttemptPolicy : Type := MkAttemptPolicy {
  ap_max_retries : N; ap_fallback : option string; ap_requires_approval : bool
}.

Definition attempt_policy_decide (p : AttemptPolicy) (attempt : N) (outcome : EffectOutcome) :
    AttemptDecision :=
  let exit := match ap_fallback p with Some f => AdFallback f | None => AdTerminalFailure end in
  match outcome with
  | EoSuccess => AdContinue
  | EoOutcomeUncertain => AdWaitForApproval
  | EoDefiniteNotStarted => if attempt <? ap_max_retries p then AdRetry else exit
  | EoFailed => exit
  end.

(** ** The attempt ledger *)

Inductive OutcomeClass : Type :=
| OcSucceeded | OcDefiniteNotStarted | OcContractFailure | OcFailedKnownStarted
| OcCancelledWithEvidence | OcOutcomeUncertain | OcDenied.
#[export] Instance OutcomeClass_eq_dec : EqDecision OutcomeClass.
Proof. solve_decision. Defined.

Record RetryProof : Type := MkRetryProof {
  rp_invocation_id : string;
  rp_descriptor_idempotent : bool;
  rp_same_id_deduplicated : bool;
  rp_effect_absence_proven : bool
}.

Record AttemptPolicyV1 : Type := MkAttemptPolicyV1 {
  av_policy_id : string;
  av_max_attempts : N;
  av_fallback_node_id : option string;
  av_feedback_transition_id : option string;
  av_evaluator_transition_id : option string;
  av_approval_gate_id : option string
}.

Record AttemptInputV1 : Type := MkAttemptInput {
  at_operation_id : string;
  at_attempt_id : string;
  at_attempt_ordinal : N;
  at_outcome : OutcomeClass;
  at_retry_proof : option RetryProof;
  at_evaluator_passed : option bool;
  at_gate_passed : option bool;
  at_cancelled : bool
}.

Inductive AttemptDecisionV1 : Type :=
| Complete
| RetryWithNewAttempt (next_ordinal : N)
| ReconcileSameInvocation (invocation_id : string)
| FollowExistingEdge (transition_id : string)
| SelectExistingFallback (node_id : string)
| AwaitApproval (gate_id : string)
| RequireUserDecision
| FailAttempt (reason : string).

Record AttemptRecordV1 : Type := MkAttemptRecord {
  ar_operation_id : string;
  ar_attempt_id : string;
  ar_attempt_ordinal : N;
  ar_outcome : OutcomeClass;
  ar_decision : AttemptDecisionV1
}.

Inductive PolicyError : Type :=
| AttemptIdentityConflict
| AttemptOrdinalGap
| MalformedOutcome
| PolicyInvalidCheckpoint.

Record AttemptLedger : Type := MkAttemptLedger {
  al_records : gmap string AttemptRecordV1;
  al_last_ordinal : gmap string N;
  al_no_resend_invocations : gset string
}.
Definition AttemptLedger_default : AttemptLedger := MkAttemptLedger ∅ ∅ ∅.

Definition non_repeating_exit (policy : AttemptPolicyV1) (reason : string) :
    result PolicyError AttemptDecisionV1 :=
  match av_feedback_transition_id policy with
  | Some transition_id => Ok (FollowExistingEdge transition_id)
  | None =>
      match av_fallback_node_id policy with
      | Some node_id => Ok (SelectExistingFallback node_id)
      | None => Ok (FailAttempt reason)
      end
  end.

(** The [match input.outcome] that ends [evaluate]. *)
Definition evaluate_outcome (policy : AttemptPolicyV1) (input : AttemptInputV1) :
    result PolicyError AttemptDecisionV1 :=
  match at_outcome input with
  | OcSucceeded => Ok Complete
  | OcDefiniteNotStarted | OcContractFailure =>
      if at_attempt_ordinal input <? av_max_attempts policy
      then Ok (RetryWithNewAttempt (at_attempt_ordinal input + 1))
      else non_repeating_exit policy "attempts_exhausted"
  | OcFailedKnownStarted | OcCancelledWithEvidence =>
      match at_retry_proof input with
      | Some proof =>
          if rp_descriptor_idempotent proof && rp_same_id_deduplicated proof
          then Ok (ReconcileSameInvocation (rp_invocation_id proof))
          else non_repeating_exit policy "known_started"
      | None => non_repeating_exit policy "known_started"
      end
  | OcOutcomeUncertain => Ok RequireUserDecision
  | OcDenied => non_repeating_exit policy "denied"
  end.

Definition evaluate_gate (policy : AttemptPolicyV1) (input : AttemptInputV1) :
    result PolicyError AttemptDecisionV1 :=
  match at_gate_passed input, av_approval_gate_id policy with
  | Some false, Some gate_id => Ok (AwaitApproval gate_id)
  | _, _ => evaluate_outcome policy input
  end.

Definition evaluate_attempt (policy : AttemptPolicyV1) (input : AttemptInputV1) :
    result PolicyError AttemptDecisionV1 :=
  if at_cancelled input then Ok (FailAttempt "cancelled")
  else match at_evaluator_passed input, av_evaluator_transition_id policy with
       | Some false, Some transition_id => Ok (FollowExistingEdge transition_id)
       | _, _ => evaluate_gate policy input
       end.

(** [matches!(outcome, FailedKnownStarted | CancelledWithEvidence | OutcomeUncertain)] *)
Definition possibly_started (o : OutcomeClass) : bool :=
  match o with OcFailedKnownStarted | OcCancelledWithEvidence | OcOutcomeUncertain => true | _ => false end.
Definition is_reconcile (d : AttemptDecisionV1) : bool :=
  match d with ReconcileSameInvocation _ => true | _ => false end.
Definition block_resend (input : AttemptInputV1) (d : AttemptDecisionV1) (s : gset string) : gset string :=
  match at_retry_proof input with
  | Some proof =>
      if possibly_started (at_outcome input) && negb (is_reconcile d)
      then {[rp_invocation_id proof]} ∪ s else s
  | None => s
  end.

Definition same_attempt (r : AttemptRecordV1) (input : AttemptInputV1) : bool :=
  bool_decide (ar_operation_id r = at_operation_id input)
  && (ar_attempt_ordinal r =? at_attempt_ordinal input)
  && bool_decide (ar_outcome r = at_outcome input).

Definition decide_attempt (policy : AttemptPolicyV1) (input : AttemptInputV1) :
    stm AttemptLedger PolicyError AttemptDecisionV1 :=
  l ← read;
  match al_records l !! at_attempt_id input with
  | Some existing =>
      if same_attempt existing input then mret (ar_decision existing) else throw AttemptIdentityConflict
  | None =>
      let previous := default 0 (al_last_ordinal l !! at_operation_id input) in
      _ ← reject_if (negb (at_attempt_ordinal input =? saturating_add u32_max previous 1)) AttemptOrdinalGap;
      decision ← lift (evaluate_attempt policy input);
      _ ← modify (λ l, MkAttemptLedger (al_records l) (al_last_ordinal l)
                         (block_resend input decision (al_no_resend_invocations l)));
      _ ← modify (λ l, MkAttemptLedger (al_records l)
                         (<[at_operation_id input := at_attempt_ordinal input]> (al_last_ordinal l))
                         (al_no_resend_invocations l));
      _ ← modify (λ l, MkAttemptLedger
                         (<[at_attempt_id input := MkAttemptRecord (at_operation_id input)
                              (at_attempt_id input) (at_attempt_ordinal input) (at_outcome input) decision]>
                            (al_records l)) (al_last_ordinal l) (al_no_resend_invocations l));
      mret decision
  end.

Definition may_send_invocation (l : AttemptLedger) (invocation_id : string) : bool :=
  negb (bs_contains (al_no_resend_invocations l) invocation_id).

(** ** Checkpoints *)

Definition attempt_checkpoint (l : AttemptLedger) : list AttemptRecordV1 * list string :=
  (bt_values (al_records l), bt_elems (al_no_resend_invocations l)).

Definition decision_matches_outcome (r : AttemptRecordV1) : bool :=
  match ar_outcome r, ar_decision r with
  | OcSucceeded, Complete | OcOutcomeUncertain, RequireUserDecision => true
  | (OcDefiniteNotStarted | OcContractFailure), RetryWithNewAttempt next_ordinal =>
      next_ordinal =? saturating_add u32_max (ar_attempt_ordinal r) 1
  | (OcFailedKnownStarted | OcCancelledWithEvidence), ReconcileSameInvocation _ => true
  | _, (FollowExistingEdge _ | SelectExistingFallback _ | AwaitApproval _ | FailAttempt _) => true
  | _, _ => false
  end.

Abbreviation attempt_state := (gmap string AttemptRecordV1 * gmap string (gset N))%type.

Definition restore_record (st : attempt_state) (r : AttemptRecordV1) : result PolicyError attempt_state :=
  let '(records, ordinals) := st in
  _ ← fail_if (trim_is_empty (ar_operation_id r) || trim_is_empty (ar_attempt_id r)
               || (512 <? str_len (ar_operation_id r)) || (512 <? str_len (ar_attempt_id r))
               || (ar_attempt_ordinal r =? 0) || negb (decision_matches_outcome r)
               || bt_contains records (ar_attempt_id r)) PolicyInvalidCheckpoint;
  Ok (<[ar_attempt_id r := r]> records,
      <[ar_operation_id r := {[ar_attempt_ordinal r]} ∪ default ∅ (ordinals !! ar_operation_id r)]> ordinals).

(** A [BTreeSet<u32>] in order, and [1..=maximum]. *)
Definition ordinal_iter (s : gset N) : list N := sort_by N.compare (elements s).
Definition range_from_1 (maximum : N) : list N := N.of_nat <$> seq 1 (N.to_nat maximum).
Definition restore_ordinals (acc : gmap string N) (entry : string * gset N) :
    result PolicyError (gmap string N) :=
  let maximum := default 0 (last (ordinal_iter entry.2)) in
  _ ← fail_if (negb (N.of_nat (size entry.2) =? maximum)
               || negb (bool_decide (ordinal_iter entry.2 = range_from_1 maximum))) PolicyInvalidCheckpoint;
  Ok (<[entry.1 := maximum]> acc).

Definition restore_no_resend (s : gset string) (invocation : string) : result PolicyError (gset string) :=
  _ ← fail_if (trim_is_empty invocation || (512 <? str_len invocation) || bs_contains s invocation)
        PolicyInvalidCheckpoint;
  Ok ({[invocation]} ∪ s).

Definition reconciles_blocked (s : gset string) (r : AttemptRecordV1) : bool :=
  match ar_decision r with ReconcileSameInvocation i => bs_contains s i | _ => false end.

Definition attempt_restore (checkpoint : list AttemptRecordV1 * list string) :
    result PolicyError AttemptLedger :=
  st ← fold_res restore_record (∅ : gmap string AttemptRecordV1, ∅) checkpoint.1;
  last_ordinal ← fold_res restore_ordinals ∅ (bt_iter st.2);
  no_resend ← fold_res restore_no_resend ∅ checkpoint.2;
  _ ← fail_if (existsb (reconciles_blocked no_resend) (bt_values st.1)) PolicyInvalidCheckpoint;
  Ok (MkAttemptLedger st.1 last_ordinal no_resend).

(** ** Runs *)

Implicit Types (l : AttemptLedger) (p : AttemptPolicyV1) (input : AttemptInputV1).

(** Any calls, failed ones included; [max_attempts] is a [u32]. *)
Definition attempt_run (calls : list (AttemptPolicyV1 * AttemptInputV1)) (l : AttemptLedger) : AttemptLedger :=
  foldl (λ l call, (decide_attempt call.1 call.2 l).1) l calls.
Definition attempt_width (calls : list (AttemptPolicyV1 * AttemptInputV1)) : Prop :=
  Forall (λ call, av_max_attempts call.1 ≤ u32_max) calls.

Record attempt_inv (l : AttemptLedger) : Prop := {
  ai_record : ∀ k r, al_records l !! k = Some r →
    k = ar_attempt_id r ∧ decision_matches_outcome r = true ∧ 1 ≤ ar_attempt_ordinal r;
  ai_upper : ∀ k r, al_records l !! k = Some r →
    ∃ n, al_last_ordinal l !! ar_operation_id r = Some n ∧ ar_attempt_ordinal r ≤ n;
  ai_contiguous : ∀ op n, al_last_ordinal l !! op = Some n →
    1 ≤ n ≤ u32_max ∧ ∀ m, 1 ≤ m ≤ n →
      ∃ k r, al_records l !! k = Some r ∧ ar_operation_id r = op ∧ ar_attempt_ordinal r = m
}.

(** What no call undoes. *)
Record attempt_grows (l l' : AttemptLedger) : Prop := {
  ag_records : al_records l ⊆ al_records l';
  ag_no_resend : al_no_resend_invocations l ⊆ al_no_resend_invocations l'
}.
#[export] Instance attempt_grows_preorder : PreOrder attempt_grows.
Proof. split; [by split|]. intros l1 l2 l3 [] []. split; by etrans. Qed.

Lemma evaluate_matches p input d :
  av_max_attempts p ≤ u32_max → evaluate_attempt p input = Ok d →
  decision_matches_outcome (MkAttemptRecord (at_operation_id input) (at_attempt_id input)
    (at_attempt_ordinal input) (at_outcome input) d) = true.
Proof.
  intros Hw. unfold evaluate_attempt, evaluate_gate, evaluate_outcome, non_repeating_exit.
  unfold decision_matches_outcome. simpl. intros He.
  destruct (at_outcome input); inv_case He; try done;
    boolify; apply N.eqb_eq; unfold saturating_add; lia.
Qed.

Lemma decide_new l l' p input d :
  al_records l !! at_attempt_id input = None → decide_attempt p input l = (l', Ok d) →
  at_attempt_ordinal input = saturating_add u32_max (default 0 (al_last_ordinal l !! at_operation_id input)) 1
  ∧ evaluate_attempt p input = Ok d
  ∧ l' = MkAttemptLedger
      (<[at_attempt_id input := MkAttemptRecord (at_operation_id input) (at_attempt_id input)
           (at_attempt_ordinal input) (at_outcome input) d]> (al_records l))
      (<[at_operation_id input := at_attempt_ordinal input]> (al_last_ordinal l))
      (block_resend input d (al_no_resend_invocations l)).
Proof.
  intros Hn Hd. unfold decide_attempt in Hd. apply bind_ok in Hd as (? & ? & [= <- <-] & Hd).
  rewrite Hn in Hd. run_inv Hd. boolify. done.
Qed.

Lemma decide_seen l p input r :
  al_records l !! at_attempt_id input = Some r →
  decide_attempt p input l =
    (l, if same_attempt r input then Ok (ar_decision r) else Err AttemptIdentityConflict).
Proof.
  intros Hr. unfold decide_attempt, mbind, stm_bind, read. rewrite Hr. by destruct (same_attempt r input).
Qed.

Lemma decide_err l l' p input (e : PolicyError) : decide_attempt p input l = (l', Err e) → l' = l.
Proof.
  destruct (al_records l !! at_attempt_id input) as [r|] eqn:Hr.
  - rewrite (decide_seen _ _ _ _ Hr). by intros [= <- _].
  - unfold decide_attempt. intros Hd. apply bind_err in Hd as [Hd|(? & ? & [= <- <-] & Hd)]; [by err_inv Hd|].
    rewrite Hr in Hd. by err_inv Hd.
Qed.

Lemma decide_inv l l' p input d :
  attempt_inv l → av_max_attempts p ≤ u32_max → decide_attempt p input l = (l', Ok d) →
  attempt_inv l' ∧ attempt_grows l l'.
Proof.
  intros Hinv Hw Hd. destruct (al_records l !! at_attempt_id input) as [r|] eqn:Hr.
  { rewrite (decide_seen _ _ _ _ Hr) in Hd. simplify_eq. done. }
  apply decide_new in Hd as (Hord & He & ->); [|done]. destruct Hinv as [Hrec Hup Hcont].
  set (op := at_operation_id input) in *. set (n := at_attempt_ordinal input) in *.
  assert (default 0 (al_last_ordinal l !! op) ≤ n ∧ 1 ≤ n ≤ u32_max) as [Hle Hn].
  { unfold saturating_add in Hord. destruct (al_last_ordinal l !! op) as [m|] eqn:Hm; simpl in *;
      [destruct (Hcont _ _ Hm) as [? _]|]; unfold u32_max in *; lia. }
  split; [split|split; simpl].
  - simpl. intros k r [[<- <-]|[_ Hk]]%lookup_insert_Some; [|by apply Hrec].
    split_and!; [done|by apply (evaluate_matches p)|simpl; lia].
  - simpl. intros k r [[<- <-]|[_ Hk]]%lookup_insert_Some; simpl.
    + exists n. rewrite lookup_insert_eq. split; [done|lia].
    + destruct (Hup _ _ Hk) as (m & Hm & Hle'). destruct (decide (op = ar_operation_id r)) as [Heq|Hne].
      * exists n. rewrite Heq, lookup_insert_eq. split; [done|]. rewrite <-Heq in Hm. rewrite Hm in Hle. simpl in Hle. lia.
      * exists m. by rewrite lookup_insert_ne.
  - simpl. intros op' m [[<- <-]|[Hne Hm]]%lookup_insert_Some.
    + split; [done|]. intros m Hm. destruct (decide (m = n)) as [->|Hmn].
      * eexists _, _. rewrite lookup_insert_eq. done.
      * unfold saturating_add in Hord. destruct (al_last_ordinal l !! op) as [q|] eqn:Hq; simpl in *; [|unfold u32_max in *; lia].
        destruct (Hcont _ _ Hq) as [Hq' Hall]. destruct (Hall m) as (k & r & Hk & Hop & Ho); [unfold u32_max in *; lia|].
        exists k, r. rewrite lookup_insert_ne; [done|]. congruence.
    + destruct (Hcont _ _ Hm) as [? Hall]. split; [done|]. intros q Hq.
      destruct (Hall q Hq) as (k & r & Hk & Hop & Ho). exists k, r. rewrite lookup_insert_ne; [done|]. congruence.
  - by apply insert_subseteq.
  - unfold block_resend. destruct (at_retry_proof input); [|done].
    destruct (_ && _); [apply union_subseteq_r|done].
Qed.

Lemma attempt_run_inv calls l :
  attempt_inv l → attempt_width calls → attempt_inv (attempt_run calls l) ∧ attempt_grows l (attempt_run calls l).
Proof.
  revert l. induction calls as [|[p input] calls IH]; intros l Hinv Hw; [done|]. simpl.
  apply Forall_cons in Hw as [Hp Hw]. simpl in Hp.
  assert (attempt_inv (decide_attempt p input l).1 ∧ attempt_grows l (decide_attempt p input l).1) as [H1 H2].
  { destruct (decide_attempt p input l) as [l' [d|e]] eqn:E; simpl; [by eapply decide_inv|].
    by rewrite (decide_err _ _ _ _ _ E). }
  destruct (IH _ H1 Hw) as [H3 H4]. split; [done|]. by trans (decide_attempt p input l).1.
Qed.

Lemma attempt_default_inv : attempt_inv AttemptLedger_default.
Proof. split; intros; by simplify_map_eq. Qed.

(** ** Restore *)

Definition add_ordinal (m : gmap string (gset N)) (r : AttemptRecordV1) : gmap string (gset N) :=
  <[ar_operation_id r := {[ar_attempt_ordinal r]} ∪ default ∅ (m !! ar_operation_id r)]> m.

(** The bounds [restore] puts on a record. *)
Definition record_bounds (r : AttemptRecordV1) : bool :=
  negb (trim_is_empty (ar_operation_id r)) && negb (trim_is_empty (ar_attempt_id r))
  && (str_len (ar_operation_id r) <=? 512) && (str_len (ar_attempt_id r) <=? 512).

Lemma restore_records_loop rs M O :
  NoDup (ar_attempt_id <$> rs) → (∀ r, r ∈ rs → M !! ar_attempt_id r = None) →
  (∀ r, r ∈ rs → record_bounds r = true ∧ 1 ≤ ar_attempt_ordinal r ∧ decision_matches_outcome r = true) →
  fold_res restore_record (M, O) rs
  = Ok (foldl (λ m kv, <[kv.1 := kv.2]> m) M ((λ r, (ar_attempt_id r, r)) <$> rs), foldl add_ordinal O rs).
Proof.
  revert M O. induction rs as [|r rs IH]; intros M O Hnd HM Hok; [done|]. csimpl.
  csimpl in *. apply NoDup_cons in Hnd as [Hr Hnd].
  destruct (Hok r ltac:(by left)) as (Hb & Ho & Hd). unfold record_bounds in Hb. boolify.
  rewrite (proj2 (bt_contains_false _ _) (HM r ltac:(by left))).
  repeat match goal with Ht : trim_is_empty _ = false |- _ => rewrite Ht end.
  rewrite Hd, !(proj2 (N.ltb_ge _ _)), (proj2 (N.eqb_neq _ _)) by lia. simpl.
  apply IH; [done| |intros; apply Hok; by right].
  intros r' Hr'. rewrite lookup_insert_ne; [apply HM; by right|]. intros Heq. apply Hr.
  rewrite Heq. apply list_elem_of_fmap. by exists r'.
Qed.

Lemma add_ordinals_lookup rs O op :
  default ∅ (foldl add_ordinal O rs !! op)
    = default ∅ (O !! op) ∪ list_to_set (ar_attempt_ordinal <$> filter (λ r, ar_operation_id r = op) rs)
  ∧ (is_Some (foldl add_ordinal O rs !! op) ↔ is_Some (O !! op) ∨ ∃ r, r ∈ rs ∧ ar_operation_id r = op).
Proof.
  revert O. induction rs as [|r rs IH]; intros O; csimpl; [set_solver|].
  destruct (IH (add_ordinal O r)) as [-> ->]. unfold add_ordinal. rewrite filter_cons.
  destruct (decide (ar_operation_id r = op)) as [<-|Hne].
  - rewrite lookup_insert_eq. simpl. split; [set_solver|]. split; [|eauto]. set_solver.
  - rewrite lookup_insert_ne by done. split; [done|]. set_solver.
Qed.

Lemma range_from_1_elem n m : m ∈ range_from_1 n ↔ 1 ≤ m ≤ n.
Proof.
  unfold range_from_1. rewrite list_elem_of_fmap. split.
  - intros (k & -> & Hk%elem_of_seq). lia.
  - intros Hm. exists (N.to_nat m). split; [lia|]. apply elem_of_seq. lia.
Qed.

Lemma range_sorted a n : sorted_by N.compare (N.of_nat <$> seq a n).
Proof.
  revert a. induction n as [|n IH]; intros a; csimpl; [constructor|]. constructor; [apply IH|].
  apply Forall_forall. intros x (k & -> & Hk%elem_of_seq)%list_elem_of_fmap.
  unfold cmp_leb. destruct (N.compare_spec (N.of_nat a) (N.of_nat k)); [done|done|lia].
Qed.

Lemma ordinal_iter_range (s : gset N) n :
  (∀ m, m ∈ s ↔ 1 ≤ m ≤ n) → ordinal_iter s = range_from_1 n.
Proof.
  intros Hs. unfold ordinal_iter. rewrite <-(sort_by_id N.compare (range_from_1 n) (range_sorted 1 (N.to_nat n))).
  apply sort_by_perm_eq; [apply _| |].
  - intros x y _ _. apply N.compare_eq.
  - apply NoDup_Permutation; [apply NoDup_elements| |].
    + unfold range_from_1. apply (NoDup_fmap_2 _), NoDup_seq.
    + intros m. by rewrite elem_of_elements, range_from_1_elem.
Qed.

Lemma last_range n : default 0 (last (range_from_1 n)) = n.
Proof.
  unfold range_from_1. destruct (N.to_nat n) as [|k] eqn:Hn; [simpl; lia|].
  rewrite seq_S, fmap_app. csimpl. rewrite last_snoc. simpl. lia.
Qed.

Lemma restore_ordinals_range acc op (s : gset N) n :
  (∀ m, m ∈ s ↔ 1 ≤ m ≤ n) → restore_ordinals acc (op, s) = Ok (<[op := n]> acc).
Proof.
  intros Hs. unfold restore_ordinals. simpl. rewrite (ordinal_iter_range s n Hs), last_range.
  assert (N.of_nat (size s) = n) as ->.
  { unfold size, set_size. simpl. rewrite <-(length_sort_by N.compare). fold (ordinal_iter s).
    rewrite (ordinal_iter_range s n Hs). unfold range_from_1. rewrite length_fmap, length_seq. lia. }
  by rewrite N.eqb_refl, bool_decide_true.
Qed.

(** What a ledger's identifiers must satisfy for its checkpoint to be accepted. *)
Definition attempt_restorable (l : AttemptLedger) : bool :=
  forallb record_bounds (bt_values (al_records l))
  && forallb (λ i, negb (trim_is_empty i) && (str_len i <=? 512)) (bt_elems (al_no_resend_invocations l))
  && negb (existsb (reconciles_blocked (al_no_resend_invocations l)) (bt_values (al_records l))).

Section attempt_roundtrip.
Context (l : AttemptLedger) (Hinv : attempt_inv l).

Let O : gmap string (gset N) := foldl add_ordinal ∅ (bt_values (al_records l)).

Lemma ordinals_is_Some op : is_Some (O !! op) ↔ is_Some (al_last_ordinal l !! op).
Proof.
  destruct Hinv as [Hrec Hup Hcont].
  destruct (add_ordinals_lookup (bt_values (al_records l)) ∅ op) as [_ Hsome]. fold O in Hsome.
  rewrite Hsome. split.
  - intros [[? [=]]|(r & [k Hr]%elem_of_bt_values & <-)]. destruct (Hup _ _ Hr) as (n & Hn & _). eauto.
  - intros [n Hn]. right. destruct (Hcont _ _ Hn) as [Hle Hall].
    destruct (Hall 1 ltac:(lia)) as (k & r & Hr & Hop & _).
    exists r. split; [apply elem_of_bt_values; eauto|done].
Qed.

Lemma ordinals_range op s n m :
  O !! op = Some s → al_last_ordinal l !! op = Some n → m ∈ s ↔ 1 ≤ m ≤ n.
Proof.
  intros Hs Hn. destruct Hinv as [Hrec Hup Hcont].
  destruct (add_ordinals_lookup (bt_values (al_records l)) ∅ op) as [Hset _]. fold O in Hset.
  rewrite lookup_empty, Hs in Hset. simpl in Hset.
  rewrite Hset, elem_of_union, elem_of_list_to_set, list_elem_of_fmap. split.
  - intros [[]%elem_of_empty|(r & -> & [Hop [k Hr]%elem_of_bt_values]%list_elem_of_filter)].
    destruct (Hrec _ _ Hr) as (_ & _ & Hge). destruct (Hup _ _ Hr) as (n' & Hn' & Hle). rewrite Hop in Hn'.
    simplify_eq. lia.
  - intros Hm. right. destruct (proj2 (Hcont _ _ Hn) m Hm) as (k & r & Hr & Hop & <-). exists r.
    split; [done|]. apply list_elem_of_filter. split; [done|]. apply elem_of_bt_values. eauto.
Qed.

Lemma restore_last_ordinal : fold_res restore_ordinals ∅ (bt_iter O) = Ok (al_last_ordinal l).
Proof.
  rewrite (fold_collect _ (λ e, (e.1, default 0 (al_last_ordinal l !! e.1)))).
  - f_equal. apply map_eq. intros op. apply option_eq. intros n.
    rewrite foldl_insert_lookup by (rewrite <-list_fmap_compose; apply NoDup_bt_keys).
    rewrite lookup_empty, list_elem_of_fmap. split.
    + intros [([op' s] & [= -> ->] & Hin%elem_of_bt_iter)|[_ [=]]]. simpl.
      by destruct (proj1 (ordinals_is_Some op') ltac:(eauto)) as [n ->].
    + intros Hn. left. destruct (proj2 (ordinals_is_Some op) ltac:(eauto)) as [s Hs].
      exists (op, s). simpl. rewrite Hn. split; [done|]. by apply elem_of_bt_iter.
  - intros [op s] m Hin%elem_of_bt_iter _. simpl.
    destruct (proj1 (ordinals_is_Some op) ltac:(eauto)) as [n Hn]. rewrite Hn.
    apply restore_ordinals_range. intros. by apply (ordinals_range op).
  - apply NoDup_bt_keys.
  - intros. apply lookup_empty.
Qed.

Lemma restore_no_resend_all (js : list string) (s : gset string) :
  NoDup js → (∀ i, i ∈ js → i ∉ s ∧ negb (trim_is_empty i) && (str_len i <=? 512) = true) →
  fold_res restore_no_resend s js = Ok (list_to_set js ∪ s).
Proof.
  revert s. induction js as [|i js IH]; intros s Hnd Hok; simpl; [by rewrite (left_id_L ∅ _)|].
  apply NoDup_cons in Hnd as [Hi Hnd]. destruct (Hok i ltac:(by left)) as [Hs Hb]. boolify.
  unfold restore_no_resend at 1. rewrite H, (proj2 (N.ltb_ge _ _)) by lia.
  unfold bs_contains. rewrite bool_decide_false by done. simpl. rewrite IH; [f_equal; set_solver|done|].
  intros j Hj. destruct (Hok j ltac:(by right)) as [? ?]. split; [|done]. set_solver.
Qed.

Lemma attempt_roundtrip :
  attempt_restorable l = true → attempt_restore (attempt_checkpoint l) = Ok l.
Proof.
  intros [[Hb Hids]%andb_true_iff Hblocked%negb_true_iff]%andb_true_iff.
  rewrite forallb_forall in Hb, Hids.
  assert (∀ k r, al_records l !! k = Some r → k = ar_attempt_id r) as Hkey by (intros; by apply Hinv).
  unfold attempt_restore, attempt_checkpoint. simpl. rewrite restore_records_loop; simpl.
  - rewrite (foldl_insert_values ar_attempt_id) by done. fold O. rewrite restore_last_ordinal. simpl.
    rewrite restore_no_resend_all; simpl.
    + rewrite (right_id_L ∅ _), list_to_set_bt_elems, Hblocked. simpl. by destruct l.
    + apply NoDup_bt_elems.
    + intros i Hi. split; [set_solver|]. by apply Hids, list_elem_of_In.
  - by apply NoDup_keyed.
  - intros. apply lookup_empty.
  - intros r [k Hr]%elem_of_bt_values. destruct (ai_record _ Hinv _ _ Hr) as (_ & ? & ?). split_and!; try done.
    apply Hb, list_elem_of_In, elem_of_bt_values. eauto.
Qed.
End attempt_roundtrip.

(** ** Properties *)

(** An effect is repeated only when that is safe.  For a first
    decision on an attempt, a new attempt is ordered only when the effect
    definitely did not start or broke its contract and attempts are left; the
    same invocation is reconciled only after a known start, with a proof that
    it is idempotent and deduplicated, and under the proof's invocation id;
    and an uncertain outcome is never repeated. *)
Theorem repeat_only_when_safe p input l l' d :
  al_records l !! at_attempt_id input = None → decide_attempt p input l = (l', Ok d) →
  (∀ n, d = RetryWithNewAttempt n →
     (at_outcome input = OcDefiniteNotStarted ∨ at_outcome input = OcContractFailure)
     ∧ n = at_attempt_ordinal input + 1 ∧ n ≤ av_max_attempts p)
  ∧ (∀ i, d = ReconcileSameInvocation i →
     (at_outcome input = OcFailedKnownStarted ∨ at_outcome input = OcCancelledWithEvidence)
     ∧ ∃ proof, at_retry_proof input = Some proof ∧ rp_invocation_id proof = i
         ∧ rp_descriptor_idempotent proof = true ∧ rp_same_id_deduplicated proof = true)
  ∧ (d = Complete → at_outcome input = OcSucceeded).
Proof.
  intros Hn (_ & He & _)%decide_new; [|done].
  unfold evaluate_attempt, evaluate_gate, evaluate_outcome, non_repeating_exit in He.
  destruct (at_outcome input) eqn:Ho; inv_case He;
    boolify; (split_and!; [intros ? [=]|intros ? [=]|intros [=]]); subst; eauto 10; split_and!; eauto; lia.
Qed.

(** A decision is final.  After the call that takes it, whatever
    follows, the same attempt gets the same decision under any policy and
    changes nothing, another operation, ordinal or outcome under that attempt
    id is refused, and an invocation that may have started and was not
    reconciled may never be sent again. *)
Theorem decided_attempt_is_final p input l l' d calls :
  attempt_inv l → av_max_attempts p ≤ u32_max → attempt_width calls →
  al_records l !! at_attempt_id input = None → decide_attempt p input l = (l', Ok d) →
  let l2 := attempt_run calls l' in
  (∀ p', decide_attempt p' input l2 = (l2, Ok d))
  ∧ (∀ p' other, at_attempt_id other = at_attempt_id input →
      (at_operation_id other, at_attempt_ordinal other, at_outcome other)
        ≠ (at_operation_id input, at_attempt_ordinal input, at_outcome input) →
      decide_attempt p' other l2 = (l2, Err AttemptIdentityConflict))
  ∧ (∀ proof, at_retry_proof input = Some proof → possibly_started (at_outcome input) = true →
      is_reconcile d = false → may_send_invocation l2 (rp_invocation_id proof) = false).
Proof.
  intros Hinv Hw Hcw Hn Hd l2. destruct (decide_inv _ _ _ _ _ Hinv Hw Hd) as [Hinv' _].
  destruct (attempt_run_inv calls l' Hinv' Hcw) as [_ Hg]. fold l2 in Hg.
  apply decide_new in Hd as (_ & _ & Heq); [|done].
  assert (al_records l2 !! at_attempt_id input = Some (MkAttemptRecord (at_operation_id input)
    (at_attempt_id input) (at_attempt_ordinal input) (at_outcome input) d)) as Hr.
  { eapply lookup_weaken; [|apply Hg]. rewrite Heq. simpl. apply lookup_insert_eq. }
  split_and!.
  - intros p'. rewrite (decide_seen _ _ _ _ Hr). unfold same_attempt. simpl.
    by rewrite !bool_decide_true, N.eqb_refl by done.
  - intros p' other Hid Hne. rewrite <-Hid in Hr. rewrite (decide_seen _ _ _ _ Hr). unfold same_attempt. simpl.
    destruct (_ && _) eqn:Hs; [|done]. boolify. destruct Hne. congruence.
  - intros proof Hp Hs Hrec. unfold may_send_invocation, bs_contains.
    rewrite bool_decide_true; [done|]. apply Hg. rewrite Heq. simpl. unfold block_resend.
    rewrite Hp, Hs, Hrec. simpl. set_solver.
Qed.

(** From a new ledger, whatever decisions were taken, the checkpoint
    restores to the same ledger, provided its identifiers are within the
    bounds [restore] checks and no reconciled invocation was blocked later. *)
Theorem attempt_checkpoint_roundtrip calls :
  attempt_width calls →
  let l := attempt_run calls AttemptLedger_default in
  attempt_restorable l = true → attempt_restore (attempt_checkpoint l) = Ok l.
Proof.
  intros Hw l Hrs. apply attempt_roundtrip; [|done]. by apply attempt_run_inv; [apply attempt_default_inv|].
Qed.

(** ** Concrete ledgers *)

Module DemoPolicy.
Definition policy : AttemptPolicyV1 := MkAttemptPolicyV1 "p" 3 (Some "fallback") None None None.
Definition attempt (op id : string) (n : N) (o : OutcomeClass) (proof : option RetryProof) : AttemptInputV1 :=
  MkAttemptInput op id n o proof None None false.
Definition calls : list (AttemptPolicyV1 * AttemptInputV1) :=
  [(policy, attempt "op" "a1" 1 OcDefiniteNotStarted None);
   (policy, attempt "op" "a2" 2 OcFailedKnownStarted (Some (MkRetryProof "i2" false true false)))].
Definition ledger : AttemptLedger := attempt_run calls AttemptLedger_default.
Lemma calls_width : attempt_width calls.
Proof. repeat constructor; vm_compute; discriminate. Qed.
Lemma ledger_inv : attempt_inv ledger.
Proof. apply attempt_run_inv; [apply attempt_default_inv|apply calls_width]. Qed.
End DemoPolicy.

(** A reconciled invocation whose later attempt is uncertain is blocked, and
    the ledger's own checkpoint is then refused. *)
Lemma own_attempt_checkpoint_refused :
  let proof := Some (MkRetryProof "i" true true false) in
  attempt_restore (attempt_checkpoint (attempt_run
    [(DemoPolicy.policy, DemoPolicy.attempt "op" "a1" 1 OcFailedKnownStarted proof);
     (DemoPolicy.policy, DemoPolicy.attempt "op" "a2" 2 OcOutcomeUncertain proof)] AttemptLedger_default))
  = Err PolicyInvalidCheckpoint.
Proof. vm_compute. reflexivity. Qed.

Section policy_witnesses.
Import DemoPolicy.

Lemma repeat_only_when_safe_witness :
  let input := attempt "op" "a3" 3 OcCancelledWithEvidence (Some (MkRetryProof "i3" true true false)) in
  (decide_attempt policy input ledger).2 = Ok (ReconcileSameInvocation "i3")
  ∧ ∃ proof, at_retry_proof input = Some proof ∧ rp_same_id_deduplicated proof = true.
Proof.
  intros input.
  assert ((decide_attempt policy input ledger).2 = Ok (ReconcileSameInvocation "i3")) as Hd
    by (vm_compute; reflexivity).
  split; [exact Hd|].
  destruct (repeat_only_when_safe policy input ledger (decide_attempt policy input ledger).1
    (ReconcileSameInvocation "i3")) as (_ & Hr & _).
  - vm_compute. reflexivity.
  - rewrite <-Hd. apply surjective_pairing.
  - destruct (Hr "i3" eq_refl) as (_ & proof & H1 & _ & _ & H2). exists proof. split; [exact H1|exact H2].
Defined.

Lemma decided_attempt_is_final_witness :
  let input := attempt "op" "a3" 3 OcOutcomeUncertain (Some (MkRetryProof "i3" true true false)) in
  let l' := (decide_attempt policy input ledger).1 in
  decide_attempt policy input l' = (l', Ok RequireUserDecision) ∧ may_send_invocation l' "i3" = false.
Proof.
  intros input l'.
  assert ((decide_attempt policy input ledger).2 = Ok RequireUserDecision) as Hd by (vm_compute; reflexivity).
  destruct (decided_attempt_is_final policy input ledger l' RequireUserDecision []) as (H1 & _ & H3).
  - apply ledger_inv.
  - vm_compute. discriminate.
  - constructor.
  - vm_compute. reflexivity.
  - rewrite <-Hd. apply surjective_pairing.
  - split; [exact (H1 policy)|]. exact (H3 _ eq_refl eq_refl eq_refl).
Defined.

Lemma attempt_checkpoint_roundtrip_witness :
  bt_len (al_records ledger) = 2 ∧ attempt_restore (attempt_checkpoint ledger) = Ok ledger.
Proof.
  split; [vm_compute; reflexivity|].
  apply (attempt_checkpoint_roundtrip calls calls_width). vm_compute. reflexivity.
Defined.
End policy_witnesses.
