(* ===== verification/Context.v ===== *)
(** * Harness context revisions ([ContextStore] of
    [crates/aworkit-workflow-worker/src/context.rs])

    A bounded DAG of immutable revisions with live heads: appends, patches,
    forks, projections, for-each windows, joins, child contexts and pruning.
    Definitions only; the theorems are in [ContextProofs]. *)
From S2P Require Export Policy.

Definition DEFAULT_MAX_REVISIONS : N := 16384.
Definition DEFAULT_MAX_INLINE_BYTES : N := 1024 * 1024.

Inductive RevisionKind : Type :=
| RkRoot | RkReplace | RkPatch | RkFork | RkProjection | RkForEach | RkJoin | RkChildRoot
| RkChildIntegration.

Record ContextProvenance : Type := MkProvenance {
  pv_kind : RevisionKind;
  pv_operation_id : string;
  pv_source_pointer : option string;
  pv_omitted_pointers : list string;
  pv_child_id : option string
}.
Definition provenance_simple (kind : RevisionKind) (operation_id : string) : ContextProvenance :=
  MkProvenance kind operation_id None [] None.
Definition with_source_pointer (p : string) (v : ContextProvenance) : ContextProvenance :=
  MkProvenance (pv_kind v) (pv_operation_id v) (Some p) (pv_omitted_pointers v) (pv_child_id v).
Definition with_child_id (i : string) (v : ContextProvenance) : ContextProvenance :=
  MkProvenance (pv_kind v) (pv_operation_id v) (pv_source_pointer v) (pv_omitted_pointers v) (Some i).

Record ContextRevision : Type := MkRevision {
  cr_id : N;
  cr_parents : list N;
  cr_value : json;
  cr_content_hash : string;
  cr_lineage : list string;
  cr_provenance : ContextProvenance
}.

Inductive JoinStrategy : Type := RequireEqual | ObjectUnion | OrderedArray.
Record JoinContract : Type := MkJoinContract {
  jc_contract_id : string;
  jc_common_ancestor : N;
  jc_ordered_heads : list N;
  jc_strategy : JoinStrategy
}.
Record ChildContextSpec : Type := MkChildSpec {
  cs_child_id : string;
  cs_parent_revision : N;
  cs_selected_pointers : list (list string);
  cs_instructions : json
}.
Inductive ChildIntegration : Type :=
| ReplaceAtKey (key : string)
| MergeObjectAtKey (key : string)
| AppendSummaryAtKey (key : string).

Inductive ContextError : Type :=
| UnknownRevision (id : N)
| CxInvalidJoin
| UnequalBranches
| ConflictingJoin
| MissingPath (path : string)
| NotArray
| TooLarge
| RevisionLimit
| UndeclaredJoin
| RevisionExhausted
| InvalidChildIntegration
| PatchRequiresObject.

Record ChildRecord : Type := MkChild { ch_root_revision : N; ch_integrated : bool }.

Record ContextStore : Type := MkContext {
  cx_revisions : gmap N ContextRevision;
  cx_heads : gset N;
  cx_children : gmap string ChildRecord;
  cx_next_id : N;
  cx_max_revisions : N;
  cx_max_inline_bytes : N
}.

Definition cx_set_heads h c :=
  MkContext (cx_revisions c) h (cx_children c) (cx_next_id c) (cx_max_revisions c) (cx_max_inline_bytes c).
Definition cx_set_children m c :=
  MkContext (cx_revisions c) (cx_heads c) m (cx_next_id c) (cx_max_revisions c) (cx_max_inline_bytes c).
Definition cx_set_next_id n c :=
  MkContext (cx_revisions c) (cx_heads c) (cx_children c) n (cx_max_revisions c) (cx_max_inline_bytes c).
Definition cx_set_revisions m c :=
  MkContext m (cx_heads c) (cx_children c) (cx_next_id c) (cx_max_revisions c) (cx_max_inline_bytes c).

Definition get_revision (c : ContextStore) (i : N) : result ContextError ContextRevision :=
  ok_or (cx_revisions c !! i) (UnknownRevision i).

(** [set.iter()] and [map.len()] for maps with integer keys. *)
Definition ns_iter (s : gset N) : list N := sort_by N.compare (elements s).
Definition nm_len {V} (m : gmap N V) : N := N.of_nat (size m).

Definition context_heads (c : ContextStore) : list N := ns_iter (cx_heads c).

(** ** Graph searches

    Both loops pop an id, skip it if seen, and add its parents; the fuel
    bounds the number of pops. *)
Definition pops (c : ContextStore) (pending : list N) : nat :=
  length pending + foldr (λ r acc, length (cr_parents r) + acc)%nat O (map_to_list (cx_revisions c)).*2.

Fixpoint descends (fuel : nat) (c : ContextStore) (ancestor : N) (pending : list N) (seen : gset N) : bool :=
  match fuel, pending with
  | S fuel, i :: pending =>
      if i =? ancestor then true
      else if bool_decide (i ∈ seen) then descends fuel c ancestor pending seen
      else match cx_revisions c !! i with
           | Some r => descends fuel c ancestor (rev (cr_parents r) ++ pending) ({[i]} ∪ seen)
           | None => descends fuel c ancestor pending ({[i]} ∪ seen)
           end
  | _, _ => false
  end.
Definition is_descendant_of (c : ContextStore) (candidate ancestor : N) : bool :=
  descends (S (pops c [candidate])) c ancestor [candidate] ∅.

(** The queue loop of [prune_unreachable]; [None] when the fuel runs out. *)
Fixpoint reach_from (fuel : nat) (c : ContextStore) (pending : list N) (reachable : gset N) :
    option (result ContextError (gset N)) :=
  match fuel, pending with
  | _, [] => Some (Ok reachable)
  | O, _ => None
  | S fuel, i :: pending =>
      if bool_decide (i ∈ reachable) then reach_from fuel c pending reachable
      else match cx_revisions c !! i with
           | Some r => reach_from fuel c (pending ++ cr_parents r) ({[i]} ∪ reachable)
           | None => Some (Err (UnknownRevision i))
           end
  end.

Definition cx (A : Type) : Type := stm ContextStore ContextError A.
#[export] Instance cx_bind : MBind cx := @stm_bind ContextStore ContextError.
#[export] Instance cx_ret : MRet cx := @stm_ret ContextStore ContextError.

Definition prune_unreachable (committed_heads : list N) (c : ContextStore) :
    option (ContextStore * result ContextError N) :=
  match reach_from (pops c committed_heads) c committed_heads ∅ with
  | None => None
  | Some (Err e) => Some (c, Err e)
  | Some (Ok reachable) =>
      let before := nm_len (cx_revisions c) in
      let kept := filter (λ '(i, _), i ∈ reachable) (cx_revisions c) in
      Some (MkContext kept (filter (λ i, i ∈ reachable) (cx_heads c))
              (filter (λ '(_, child), ch_root_revision child ∈ reachable) (cx_children c))
              (cx_next_id c) (cx_max_revisions c) (cx_max_inline_bytes c),
            Ok (before - nm_len kept))
  end.

Section context.
Context `{Sha256, !Serialize json, !Serialize (list N * json * ContextProvenance)}.

Definition encoded_size (value : json) : result ContextError N :=
  match to_vec value with Some bytes => Ok (len bytes) | None => Err TooLarge end.

(** The code expects the serialization of a JSON value to succeed. *)
Definition hash_revision (parents : list N) (value : json) (provenance : ContextProvenance) : string :=
  sha256_hex (default [] (to_vec (parents, value, provenance))).

Definition with_limits (root : json) (max_revisions max_inline_bytes : N) :
    result ContextError ContextStore :=
  if max_revisions =? 0 then Err TooLarge
  else
    size ← encoded_size root;
    _ ← fail_if (max_inline_bytes <? size) TooLarge;
    let provenance := provenance_simple RkRoot "root" in
    let revision := MkRevision 1 [] root (hash_revision [] root provenance) ["root"] provenance in
    Ok (MkContext {[1 := revision]} {[1]} ∅ 2 max_revisions max_inline_bytes).
Definition ContextStore_new (root : json) : result ContextError ContextStore :=
  with_limits root DEFAULT_MAX_REVISIONS DEFAULT_MAX_INLINE_BYTES.

(** The loop over the parents: known and distinct. *)
Definition check_parent (c : ContextStore) (unique : gset N) (parent : N) : result ContextError (gset N) :=
  _ ← get_revision c parent;
  if bool_decide (parent ∈ unique) then Err CxInvalidJoin else Ok ({[parent]} ∪ unique).

Definition append_with_provenance (parents : list N) (value : json) (provenance : ContextProvenance)
    (lineage_suffix : option string) : cx N :=
  c ← read;
  _ ← reject_if (is_nil parents) CxInvalidJoin;
  _ ← reject_if (cx_max_revisions c <=? nm_len (cx_revisions c)) RevisionLimit;
  size ← lift (encoded_size value);
  _ ← reject_if (cx_max_inline_bytes c <? size) TooLarge;
  _ ← lift (fold_res (check_parent c) ∅ parents);
  let i := cx_next_id c in
  next ← lift (ok_or (checked_add u64_max (cx_next_id c) 1) RevisionExhausted);
  _ ← modify (cx_set_next_id next);
  first ← lift (get_revision c (default 0 (head parents)));
  let lineage := cr_lineage first ++ match lineage_suffix with Some s => [s] | None => [] end in
  let content_hash := hash_revision parents value provenance in
  _ ← modify (λ c, cx_set_revisions
        (<[i := MkRevision i parents value content_hash lineage provenance]> (cx_revisions c)) c);
  _ ← modify (λ c, cx_set_heads (cx_heads c ∖ list_to_set parents) c);
  _ ← modify (λ c, cx_set_heads ({[i]} ∪ cx_heads c) c);
  mret i.

Definition append_revision (parent : N) (value : json) : cx N :=
  append_with_provenance [parent] value
    (provenance_simple RkReplace ("replace-" +:+ pretty parent)) None.

Definition patch_object (parent : N) (operation_id : string) (patch : gmap string json) : cx N :=
  c ← read;
  revision ← lift (get_revision c parent);
  object ← lift (ok_or (as_object (cr_value revision)) PatchRequiresObject);
  append_with_provenance [parent] (JObject (obj_extend object (bt_iter patch)))
    (provenance_simple RkPatch operation_id) None.

Definition fork (parent : N) (copies : nat) : cx (list N) :=
  _ ← reject_if (Nat.eqb copies 0) CxInvalidJoin;
  c ← read;
  base ← lift (get_revision c parent);
  map_stm (λ index, append_with_provenance [parent] (cr_value base)
             (provenance_simple RkFork ("fork-" +:+ pretty parent +:+ "-" +:+ pretty index))
             (Some ("branch-" +:+ pretty index)))
    (seq 0 copies).

(** [for key in keys { current = current.get(key)? }] *)
Fixpoint walk (v : json) (keys : list string) : option json :=
  match keys with
  | [] => Some v
  | key :: keys => match value_get key v with Some v' => walk v' keys | None => None end
  end.

Definition project (parent : N) (keys : list string) : cx N :=
  c ← read;
  revision ← lift (get_revision c parent);
  current ← lift (ok_or (walk (cr_value revision) keys) (MissingPath ("/" +:+ str_join "/" keys)));
  append_with_provenance [parent] current
    (with_source_pointer ("/" +:+ str_join "/" keys)
       (provenance_simple RkProjection ("project-" +:+ pretty parent +:+ "-" +:+ str_join "." keys))) None.

Definition for_each_window (parent : N) (start limit : nat) : cx (list N) :=
  c ← read;
  revision ← lift (get_revision c parent);
  all ← lift (ok_or (as_array (cr_value revision)) NotArray);
  let items := take limit (drop start all) in
  map_stm (λ entry : nat * json,
             append_with_provenance [parent] entry.2
               (provenance_simple RkForEach ("foreach-" +:+ pretty parent +:+ "-" +:+ pretty (start + entry.1)%nat))
               (Some ("item-" +:+ pretty (start + entry.1)%nat)))
    (imap pair items).
Definition for_each_revision (parent : N) : cx (list N) :=
  c ← read;
  revision ← lift (get_revision c parent);
  all ← lift (ok_or (as_array (cr_value revision)) NotArray);
  for_each_window parent 0 (length all).

(** ** Joins *)

(** [for (key, value) in object { reject a different previous value; insert }] *)
Definition union_field (joined : obj) (entry : string * json) : result ContextError obj :=
  _ ← fail_if (match obj_get entry.1 joined with
               | Some previous => negb (json_eqb previous entry.2)
               | None => false
               end) ConflictingJoin;
  Ok (obj_insert entry.1 entry.2 joined).
Definition union_object (joined : obj) (v : json) : result ContextError obj :=
  object ← ok_or (as_object v) ConflictingJoin;
  fold_res union_field joined object.

(** [windows(2).all(|pair| pair[0].value == pair[1].value)] *)
Fixpoint windows_equal (vs : list json) : bool :=
  match vs with
  | v :: ((w :: _) as rest) => json_eqb v w && windows_equal rest
  | _ => true
  end.

Definition join_value (strategy : JoinStrategy) (values : list json) : result ContextError json :=
  match strategy with
  | RequireEqual =>
      if windows_equal values then ok_or (head values) CxInvalidJoin else Err UnequalBranches
  | ObjectUnion => joined ← fold_res union_object [] values; Ok (JObject joined)
  | OrderedArray => Ok (JArray values)
  end.

Definition join_values (ordered_heads : list N) (strategy : JoinStrategy) (provenance : ContextProvenance) :
    cx N :=
  c ← read;
  revisions ← lift (map_res (get_revision c) ordered_heads);
  value ← lift (join_value strategy (cr_value <$> revisions));
  append_with_provenance ordered_heads value provenance (Some "join").

Definition join_heads (heads : list N) (strategy : JoinStrategy) : cx N :=
  let unique : gset N := list_to_set heads in
  _ ← reject_if (N.of_nat (size unique) <? 2) CxInvalidJoin;
  join_values (ns_iter unique) strategy (provenance_simple RkJoin "compat-join").

Definition join_declared (contract : JoinContract) : cx N :=
  c ← read;
  let unique : gset N := list_to_set (jc_ordered_heads contract) in
  _ ← reject_if ((len (jc_ordered_heads contract) <? 2)
                 || negb (N.of_nat (size unique) =? len (jc_ordered_heads contract))
                 || existsb (λ head, negb (bool_decide (head ∈ cx_heads c))
                              || negb (is_descendant_of c head (jc_common_ancestor contract)))
                      (jc_ordered_heads contract)) UndeclaredJoin;
  join_values (jc_ordered_heads contract) (jc_strategy contract)
    (provenance_simple RkJoin (jc_contract_id contract)).

(** ** Children *)

Definition select_pointer (parent : json) (selected : obj) (pointer : list string) : result ContextError obj :=
  value ← ok_or (walk parent pointer) (MissingPath ("/" +:+ str_join "/" pointer));
  Ok (obj_insert (str_join "." pointer) value selected).

Definition spawn_child (spec : ChildContextSpec) : cx N :=
  c ← read;
  _ ← reject_if (bt_contains (cx_children c) (cs_child_id spec)) InvalidChildIntegration;
  parent ← lift (get_revision c (cs_parent_revision spec));
  selected ← lift (fold_res (select_pointer (cr_value parent)) [] (cs_selected_pointers spec));
  let selected := obj_insert "instructions" (cs_instructions spec) selected in
  root_revision ← append_with_provenance [cs_parent_revision spec] (JObject selected)
    (with_child_id (cs_child_id spec) (provenance_simple RkChildRoot ("spawn-" +:+ cs_child_id spec)))
    (Some ("child-" +:+ cs_child_id spec));
  _ ← modify (λ c, cx_set_heads ({[cs_parent_revision spec]} ∪ cx_heads c) c);
  _ ← modify (λ c, cx_set_children (<[cs_child_id spec := MkChild root_revision false]> (cx_children c)) c);
  mret root_revision.

Definition integrate_value (parent : obj) (result : json) (integration : ChildIntegration) :
    Prelude.result ContextError obj :=
  match integration with
  | ReplaceAtKey key => Ok (obj_insert key result parent)
  | MergeObjectAtKey key =>
      fields ← ok_or (as_object result) ConflictingJoin;
      target ← ok_or (as_object (default (JObject []) (obj_get key parent))) ConflictingJoin;
      merged ← fold_res union_field target fields;
      Ok (obj_insert key (JObject merged) parent)
  | AppendSummaryAtKey key =>
      target ← ok_or (as_array (default (JArray []) (obj_get key parent))) ConflictingJoin;
      Ok (obj_insert key (JArray (target ++ [result])) parent)
  end.

Definition integrate_child (child_id : string) (child_head parent_head : N) (result : json)
    (integration : ChildIntegration) : cx N :=
  c ← read;
  child ← lift (ok_or (cx_children c !! child_id) InvalidChildIntegration);
  _ ← reject_if (ch_integrated child || negb (bool_decide (child_head ∈ cx_heads c))
                 || negb (bool_decide (parent_head ∈ cx_heads c))
                 || negb (is_descendant_of c child_head (ch_root_revision child)))
        InvalidChildIntegration;
  revision ← lift (get_revision c parent_head);
  parent ← lift (ok_or (as_object (cr_value revision)) PatchRequiresObject);
  parent ← lift (integrate_value parent result integration);
  i ← append_with_provenance [parent_head; child_head] (JObject parent)
    (with_child_id child_id (provenance_simple RkChildIntegration ("integrate-" +:+ child_id)))
    (Some ("integrated-" +:+ child_id));
  _ ← modify (λ c, cx_set_children
        (alter (λ child, MkChild (ch_root_revision child) true) child_id (cx_children c)) c);
  mret i.
End context.
