(* ===== verification/ContextProofs.v ===== *)
(** * Properties of the context store

    The graph searches decide reachability and terminate; revisions are
    immutable and acyclic; joins and children act on live heads only. *)
From stdpp Require Import relations.
From S2P Require Export Context.

Implicit Types (c : ContextStore) (i j : N) (seen : gset N).

(** ** Reachability along parents *)

Definition parent_of (c : ContextStore) (i j : N) : Prop :=
  ∃ r, cx_revisions c !! i = Some r ∧ j ∈ cr_parents r.
Definition ancestor_or_self (c : ContextStore) (i j : N) : Prop := rtc (parent_of c) i j.

(** What is left to pop: the pending ids and the parents of unseen revisions. *)
Definition unseen (c : ContextStore) (seen : gset N) : nat :=
  foldr (λ kv acc, (if bool_decide (kv.1 ∈ seen) then 0 else length (cr_parents kv.2)) + acc)%nat O
    (map_to_list (cx_revisions c)).

Lemma unseen_visit c i r seen :
  cx_revisions c !! i = Some r → i ∉ seen →
  unseen c seen = (length (cr_parents r) + unseen c ({[i]} ∪ seen))%nat.
Proof.
  intros Hr Hi. unfold unseen.
  assert (NoDup (map_to_list (cx_revisions c)).*1) as Hnd by apply NoDup_fst_map_to_list.
  apply elem_of_map_to_list in Hr.
  induction (map_to_list (cx_revisions c)) as [|[k x] l IH]; [set_solver|]. csimpl in *.
  apply NoDup_cons in Hnd as [Hk Hnd]. apply elem_of_cons in Hr as [[= <- <-]|Hr].
  - rewrite (bool_decide_false (i ∈ seen)), (bool_decide_true (i ∈ {[i]} ∪ seen)) by set_solver.
    f_equal. simpl. clear IH. induction l as [|[k y] l IH]; [done|]. csimpl in *.
    apply NoDup_cons in Hnd as [_ Hnd]. rewrite IH by set_solver. f_equal.
    assert (k ≠ i) by set_solver. repeat case_bool_decide; set_solver.
  - rewrite (IH Hr Hnd). assert (k ≠ i) by (intros ->; apply Hk, list_elem_of_fmap; by exists (i, r)).
    assert (bool_decide (k ∈ {[i]} ∪ seen) = bool_decide (k ∈ seen)) as ->
      by (apply bool_decide_ext; set_solver). lia.
Qed.

Lemma unseen_miss c i seen :
  cx_revisions c !! i = None → unseen c ({[i]} ∪ seen) = unseen c seen.
Proof.
  intros Hr. unfold unseen.
  assert (∀ k x, (k, x) ∈ map_to_list (cx_revisions c) → k ≠ i) as Hk
    by (intros k x Hin%elem_of_map_to_list ->; congruence).
  induction (map_to_list (cx_revisions c)) as [|[k x] l IH]; [done|]. csimpl.
  rewrite IH by set_solver. f_equal. specialize (Hk k x ltac:(by left)).
  by rewrite (bool_decide_ext (k ∈ {[i]} ∪ seen) (k ∈ seen)) by set_solver.
Qed.

Lemma pops_unseen c pending : pops c pending = (length pending + unseen c ∅)%nat.
Proof.
  unfold pops, unseen. f_equal. induction (map_to_list (cx_revisions c)) as [|[k x] l IH]; [done|].
  csimpl. rewrite IH. by rewrite bool_decide_false by set_solver.
Qed.

(** The seen ids were expanded: their parents are seen or pending. *)
Definition expanded (c : ContextStore) (seen : gset N) (pending : list N) : Prop :=
  ∀ i j, i ∈ seen → parent_of c i j → j ∈ seen ∨ j ∈ pending.

Lemma expanded_closed c seen i j :
  expanded c seen [] → i ∈ seen → ancestor_or_self c i j → j ∈ seen.
Proof.
  intros He Hi. induction 1 as [|x y z Hxy _ IH]; [done|].
  apply IH. destruct (He x y Hi Hxy) as [?|?]; [done|set_solver].
Qed.

Lemma expanded_skip c seen i pending :
  i ∈ seen → expanded c seen (i :: pending) → expanded c seen pending.
Proof. intros Hi He x y Hx Hxy. destruct (He x y Hx Hxy); set_solver. Qed.

Lemma expanded_visit c seen i r pending pending' :
  cx_revisions c !! i = Some r → expanded c seen (i :: pending) →
  (∀ x, x ∈ pending' ↔ x ∈ cr_parents r ∨ x ∈ pending) →
  expanded c ({[i]} ∪ seen) pending'.
Proof.
  intros Hr He Hp x y Hx Hxy. rewrite Hp. apply elem_of_union in Hx as [->%elem_of_singleton|Hx].
  - destruct Hxy as (r' & Hr' & Hy). simplify_eq. auto.
  - destruct (He x y Hx Hxy) as [?|?]; [set_solver|]. set_solver.
Qed.

Lemma expanded_miss c seen i pending :
  cx_revisions c !! i = None → expanded c seen (i :: pending) → expanded c ({[i]} ∪ seen) pending.
Proof.
  intros Hr He x y Hx Hxy. apply elem_of_union in Hx as [->%elem_of_singleton|Hx].
  - destruct Hxy as (r' & Hr' & _). congruence.
  - destruct (He x y Hx Hxy) as [?|?]; set_solver.
Qed.

Lemma descends_sound fuel c a pending seen :
  descends fuel c a pending seen = true → ∃ i, i ∈ pending ∧ ancestor_or_self c i a.
Proof.
  revert pending seen. induction fuel as [|fuel IH]; intros [|i pending] seen; simpl; try done.
  destruct (i =? a) eqn:Hia.
  { intros _. apply N.eqb_eq in Hia as ->. exists a. split; [by left|apply rtc_refl]. }
  case_bool_decide.
  { intros (x & Hx & Hxa)%IH. exists x. split; [by right|done]. }
  destruct (cx_revisions c !! i) as [r|] eqn:Hr; intros (x & Hx & Hxa)%IH; [|exists x; split; [by right|done]].
  apply elem_of_app in Hx as [Hx|Hx]; [|exists x; split; [by right|done]].
  exists i. split; [by left|]. eapply rtc_l; [|done]. exists r. split; [done|].
  apply list_elem_of_In, in_rev, list_elem_of_In in Hx. done.
Qed.

Lemma descends_complete fuel c a pending seen :
  (length pending + unseen c seen < fuel)%nat → expanded c seen pending → a ∉ seen →
  (∃ i, (i ∈ seen ∨ i ∈ pending) ∧ ancestor_or_self c i a) → descends fuel c a pending seen = true.
Proof.
  revert pending seen. induction fuel as [|fuel IH]; intros pending seen Hf He Ha (i & Hi & Hp); [lia|].
  destruct pending as [|x pending].
  { destruct Hi as [Hi|Hi]; [|set_solver]. by destruct Ha; apply (expanded_closed c seen i a). }
  simpl in *. destruct (x =? a) eqn:Hxa; [done|]. apply N.eqb_neq in Hxa.
  case_bool_decide as Hx.
  { apply IH; [lia|by apply (expanded_skip c seen x)|done|]. exists i. set_solver. }
  destruct (cx_revisions c !! x) as [r|] eqn:Hr.
  - apply IH.
    + rewrite (unseen_visit c x r) in Hf by done. rewrite length_app, length_rev. lia.
    + eapply expanded_visit; [done..|]. intros y. rewrite elem_of_app, !list_elem_of_In, <-in_rev. done.
    + set_solver.
    + exists i. split; [|done]. rewrite elem_of_app. set_solver.
  - apply IH; [rewrite unseen_miss by done; lia|by apply expanded_miss|set_solver|]. exists i. set_solver.
Qed.

Lemma is_descendant_iff c i a : is_descendant_of c i a = true ↔ ancestor_or_self c i a.
Proof.
  unfold is_descendant_of. split.
  - intros (x & ->%list_elem_of_singleton & Hp)%descends_sound. done.
  - intros Hp. apply descends_complete; [rewrite pops_unseen; lia|intros ??; set_solver|set_solver|].
    exists i. split; [right; by left|done].
Qed.

Lemma reach_from_spec fuel c pending seen :
  (length pending + unseen c seen ≤ fuel)%nat → expanded c seen pending →
  ∃ res, reach_from fuel c pending seen = Some res ∧
    match res with
    | Ok found =>
        (∀ i, i ∈ seen ∨ i ∈ pending → i ∈ found) ∧ expanded c found []
        ∧ (∀ j, j ∈ found → j ∈ seen ∨ (is_Some (cx_revisions c !! j) ∧ ∃ i, i ∈ pending ∧ ancestor_or_self c i j))
    | Err e => ∃ i j, i ∈ pending ∧ ancestor_or_self c i j ∧ cx_revisions c !! j = None ∧ e = UnknownRevision j
    end.
Proof.
  revert pending seen. induction fuel as [|fuel IH]; intros [|i pending] seen Hf He; simpl in *; try lia.
  - eexists. split; [done|]. simpl. split_and!; [set_solver|done|auto].
  - eexists. split; [done|]. simpl. split_and!; [set_solver|done|auto].
  - case_bool_decide as Hi.
    { destruct (IH pending seen) as (res & Hres & Hspec); [lia|by apply (expanded_skip c seen i)|].
      exists res. split; [done|]. destruct res as [found|e].
      - destruct Hspec as (H1 & H2 & H3). split_and!; [set_solver|done|]. intros j Hj.
        destruct (H3 j Hj) as [?|(? & x & ? & ?)]; [auto|right]. split; [done|]. exists x. split; [by right|done].
      - destruct Hspec as (x & j & ? & ?). exists x, j. split; [by right|done]. }
    destruct (cx_revisions c !! i) as [r|] eqn:Hr.
    2: { eexists. split; [done|]. simpl. exists i, i. split_and!; [by left|apply rtc_refl|done|done]. }
    destruct (IH (pending ++ cr_parents r) ({[i]} ∪ seen)) as (res & Hres & Hspec).
    { rewrite length_app. rewrite (unseen_visit c i r) in Hf by done. lia. }
    { eapply expanded_visit; [done..|]. intros x. rewrite elem_of_app. tauto. }
    assert (∀ x j, x ∈ pending ++ cr_parents r → ancestor_or_self c x j →
      ∃ y, y ∈ i :: pending ∧ ancestor_or_self c y j) as Hlift.
    { intros x j [Hx|Hx]%elem_of_app Hxj; [exists x; split; [by right|done]|].
      exists i. split; [by left|]. eapply rtc_l; [|done]. by exists r. }
    exists res. split; [done|]. destruct res as [found|e].
    + destruct Hspec as (H1 & H2 & H3). split_and!; [|done|].
      * intros x Hx. apply H1. rewrite elem_of_app. set_solver.
      * intros j Hj. destruct (H3 j Hj) as [[->%elem_of_singleton|?]%elem_of_union|(? & x & Hx & Hxj)].
        -- right. split; [eauto|]. exists i. split; [by left|apply rtc_refl].
        -- auto.
        -- right. split; [done|]. eauto.
    + destruct Hspec as (x & j & Hx & Hxj & Hnone & ->). destruct (Hlift x j Hx Hxj) as (y & Hy & Hyj). eauto 6.
Qed.

(** The loop never runs out of fuel, fails only on an unknown revision, and
    otherwise finds exactly the committed heads and their ancestors. *)
Lemma reach_from_total c committed :
  ∃ res, reach_from (pops c committed) c committed ∅ = Some res ∧
    match res with
    | Ok found => (∀ j, j ∈ found ↔ ∃ i, i ∈ committed ∧ ancestor_or_self c i j)
        ∧ (∀ j, j ∈ found → is_Some (cx_revisions c !! j))
    | Err e => ∃ i j, i ∈ committed ∧ ancestor_or_self c i j ∧ cx_revisions c !! j = None ∧ e = UnknownRevision j
    end.
Proof.
  destruct (reach_from_spec (pops c committed) c committed ∅) as (res & Hres & Hspec);
    [by rewrite pops_unseen|intros ??; set_solver|].
  exists res. split; [done|]. destruct res as [found|e]; [|done]. destruct Hspec as (H1 & H2 & H3).
  split.
  - intros j. split; [intros [?|[_ ?]]%H3; [set_solver|done]|].
    intros (i & Hi & Hij). apply (expanded_closed c found i); [done|auto|done].
  - intros j [?|[? _]]%H3; [set_solver|done].
Qed.

(** ** The invariant *)

Section context_facts.
Context `{Sha256, !Serialize json, !Serialize (list N * json * ContextProvenance)}.

Definition revision_ok (c : ContextStore) (i : N) (r : ContextRevision) : Prop :=
  cr_id r = i ∧ 1 ≤ i ∧ i < cx_next_id c ∧ NoDup (cr_parents r)
  ∧ (∀ p, p ∈ cr_parents r → p < i ∧ is_Some (cx_revisions c !! p))
  ∧ cr_content_hash r = hash_revision (cr_parents r) (cr_value r) (cr_provenance r).
Record context_inv (c : ContextStore) : Prop := {
  xi_revision : ∀ i r, cx_revisions c !! i = Some r → revision_ok c i r;
  xi_heads : ∀ i, i ∈ cx_heads c → is_Some (cx_revisions c !! i);
  xi_children : ∀ k ch, cx_children c !! k = Some ch → is_Some (cx_revisions c !! ch_root_revision ch);
  xi_count : nm_len (cx_revisions c) ≤ cx_max_revisions c
}.

(** A revision id never changes its content: what exists under an id already
    issued is what was there. *)
Record context_evolves (c c' : ContextStore) : Prop := {
  xe_next : cx_next_id c ≤ cx_next_id c';
  xe_revisions : ∀ i r, cx_revisions c' !! i = Some r → i < cx_next_id c → cx_revisions c !! i = Some r;
  xe_limits : cx_max_revisions c' = cx_max_revisions c ∧ cx_max_inline_bytes c' = cx_max_inline_bytes c
}.
#[export] Instance context_evolves_preorder : PreOrder context_evolves.
Proof.
  split; [by split|]. intros c1 c2 c3 [N1 R1 [L1 M1]] [N2 R2 [L2 M2]]. split; [lia| |split; congruence].
  intros i r Hr Hi. apply R1; [|done]. apply R2; [done|lia].
Qed.

Lemma check_parents_ok c parents s s' :
  fold_res (check_parent c) s parents = Ok s' →
  (∀ p, p ∈ parents → is_Some (cx_revisions c !! p) ∧ p ∉ s) ∧ NoDup parents.
Proof.
  revert s. induction parents as [|p ps IH]; intros s Hf; simpl in *; [split; [set_solver|constructor]|].
  destruct (check_parent c s p) as [s1|e] eqn:Hp; [|done]. unfold check_parent, get_revision in Hp.
  res_inv Hp. destruct (bool_decide (p ∈ s)) eqn:Hs; [done|]. boolify. simplify_eq.
  destruct (IH _ Hf) as [Hall Hnd]. split.
  - intros q [->|Hq]%elem_of_cons; [eauto|]. destruct (Hall q Hq). set_solver.
  - constructor; [|done]. intros Hin. destruct (Hall p Hin). set_solver.
Qed.

Lemma append_ok c c' parents v pv suffix i :
  append_with_provenance parents v pv suffix c = (c', Ok i) →
  ∃ lineage, parents ≠ [] ∧ NoDup parents ∧ (∀ p, p ∈ parents → is_Some (cx_revisions c !! p))
    ∧ nm_len (cx_revisions c) < cx_max_revisions c ∧ cx_next_id c + 1 ≤ u64_max ∧ i = cx_next_id c
    ∧ c' = MkContext
        (<[i := MkRevision i parents v (hash_revision parents v pv) lineage pv]> (cx_revisions c))
        ({[i]} ∪ cx_heads c ∖ list_to_set parents) (cx_children c) (cx_next_id c + 1)
        (cx_max_revisions c) (cx_max_inline_bytes c).
Proof.
  unfold append_with_provenance. intros Ha. run_inv Ha. boolify.
  match goal with Hf : fold_res _ _ _ = Ok _ |- _ => apply check_parents_ok in Hf as [Hall Hnd] end.
  match goal with Hc : checked_add _ _ _ = Some _ |- _ => unfold checked_add in Hc; case_match; [|done]; simplify_eq end.
  boolify. eexists. split_and!; try done; [by destruct parents|naive_solver].
Qed.

Lemma append_err c c' parents v pv suffix (e : ContextError) :
  append_with_provenance parents v pv suffix c = (c', Err e) → c' = c.
Proof.
  unfold append_with_provenance. intros Ha. err_inv Ha; try done. exfalso.
  match goal with Hf : fold_res _ _ _ = Ok _ |- _ => apply check_parents_ok in Hf as [Hall _] end.
  destruct parents as [|p ps]; [done|]. destruct (Hall p ltac:(by left)) as [[r Hr] _].
  simpl in *. unfold get_revision in *. by rewrite Hr in *.
Qed.

(** ** Every operation preserves the invariant

    [preserves m]: whatever [m] returns, the invariant still holds and the
    store has evolved. *)
Definition preserves {A} (m : cx A) : Prop :=
  ∀ c c' r, context_inv c → m c = (c', r) → context_inv c' ∧ context_evolves c c'.

Lemma preserves_pure {A} (m : cx A) : (∀ c, (m c).1 = c) → preserves m.
Proof. intros Hm c c' r Hinv Heq. pose proof (Hm c) as Hc. rewrite Heq in Hc. simpl in Hc. by subst. Qed.
Lemma preserves_bind {A B} (m : cx A) (k : A → cx B) :
  preserves m → (∀ a, preserves (k a)) → preserves (m ≫= k).
Proof.
  intros Hm Hk c c' r Hinv. unfold mbind, cx_bind, stm_bind.
  destruct (m c) as [c1 [a|e]] eqn:E; [|intros [= <- <-]; by eapply Hm].
  destruct (Hm _ _ _ Hinv E) as [Hinv1 He1]. intros Hr. destruct (Hk a _ _ _ Hinv1 Hr) as [Hinv2 He2].
  split; [done|]. by trans c1.
Qed.
Lemma preserves_map {A B} (f : A → cx B) l : (∀ x, preserves (f x)) → preserves (map_stm f l).
Proof.
  intros Hf. induction l as [|x l IH]; simpl; [by apply preserves_pure|].
  apply preserves_bind; [done|]. intros y. apply preserves_bind; [done|]. intros ys. by apply preserves_pure.
Qed.

Lemma nm_len_insert {V} (m : gmap N V) i v : m !! i = None → nm_len (<[i := v]> m) = nm_len m + 1.
Proof. intros Hi. unfold nm_len. rewrite map_size_insert_None by done. lia. Qed.

Lemma fresh_id c : context_inv c → cx_revisions c !! cx_next_id c = None.
Proof.
  intros Hinv. apply eq_None_not_Some. intros [r Hr].
  destruct (xi_revision _ Hinv _ _ Hr) as (_ & _ & Hlt & _). lia.
Qed.

Lemma append_preserves parents v pv suffix : preserves (append_with_provenance parents v pv suffix).
Proof.
  intros c c' [i|e] Hinv Ha; [|by rewrite (append_err _ _ _ _ _ _ _ Ha)].
  apply append_ok in Ha as (lineage & Hne & Hnd & Hall & Hlen & Hmax & -> & ->).
  pose proof (fresh_id c Hinv) as Hfresh.
  assert (∀ j, is_Some (cx_revisions c !! j) → is_Some (<[cx_next_id c :=
    MkRevision (cx_next_id c) parents v (hash_revision parents v pv) lineage pv]> (cx_revisions c) !! j)) as Hmono.
  { intros j Hj. rewrite lookup_insert_ne; [done|]. intros <-. rewrite Hfresh in Hj. by destruct Hj. }
  split; [split|split]; simpl.
  - intros i r [[<- <-]|[_ Hr]]%lookup_insert_Some; unfold revision_ok; simpl.
    + assert (1 ≤ cx_next_id c) as H1.
      { destruct parents as [|p ps]; [done|]. destruct (Hall p ltac:(by left)) as [r Hr].
        destruct (xi_revision _ Hinv _ _ Hr) as (_ & ? & ? & _). lia. }
      split_and!; try done; [lia|]. intros p Hp. split; [|by apply Hmono, Hall].
      destruct (Hall p Hp) as [r Hr]. by destruct (xi_revision _ Hinv _ _ Hr) as (_ & _ & ? & _).
    + destruct (xi_revision _ Hinv _ _ Hr) as (? & ? & ? & ? & Hp & ?). split_and!; try done; [lia|].
      intros p Hin. destruct (Hp p Hin). split; [done|]. by apply Hmono.
  - intros i [->%elem_of_singleton|[Hi _]%elem_of_difference]%elem_of_union; [rewrite lookup_insert_eq; eauto|].
    by apply Hmono, (xi_heads _ Hinv).
  - intros k ch Hch. by apply Hmono, (xi_children _ Hinv k).
  - rewrite nm_len_insert by done. lia.
  - lia.
  - intros i r [[<- <-]|[_ Hr]]%lookup_insert_Some; [lia|done].
  - done.
Qed.

Lemma prune_preserves committed c :
  context_inv c → ∃ c' r, prune_unreachable committed c = Some (c', r)
    ∧ context_inv c' ∧ context_evolves c c'.
Proof.
  intros Hinv. unfold prune_unreachable. destruct (reach_from_total c committed) as (res & -> & Hspec).
  destruct res as [found|e]; [|by do 2 eexists]. do 2 eexists. split; [done|].
  destruct Hspec as [Hfound _].
  assert (∀ i, is_Some (cx_revisions c !! i) → i ∈ found →
    is_Some (filter (λ '(i, _), i ∈ found) (cx_revisions c) !! i)) as Hkeep.
  { intros i [r Hr] Hi. exists r. apply map_lookup_filter_Some. done. }
  split; [split|split]; simpl.
  - intros i r [Hr Hi]%map_lookup_filter_Some. destruct (xi_revision _ Hinv _ _ Hr) as (? & ? & ? & ? & Hp & ?).
    split_and!; try done. intros p Hin. destruct (Hp p Hin) as [? Hsome]. split; [done|]. apply Hkeep; [done|].
    apply Hfound. apply Hfound in Hi as (x & Hx & Hxi). exists x. split; [done|]. eapply rtc_r; [done|]. by exists r.
  - intros i [Hi Hh]%elem_of_filter. apply Hkeep; [|done]. by apply (xi_heads _ Hinv).
  - intros k ch [Hch Hi]%map_lookup_filter_Some. apply Hkeep; [|done]. by apply (xi_children _ Hinv k).
  - etrans; [|apply (xi_count _ Hinv)]. unfold nm_len.
    assert (size (filter (λ '(i, _), i ∈ found) (cx_revisions c)) ≤ size (cx_revisions c))%nat
      by (apply map_subseteq_size, map_filter_subseteq). lia.
  - done.
  - intros i r [Hr _]%map_lookup_filter_Some. done.
  - done.
Qed.

(** Structural cases: pure steps and binds. *)
Ltac preserve :=
  repeat first
    [ apply append_preserves
    | apply preserves_bind; [|intros ?]
    | apply preserves_map; intros ?
    | solve [apply preserves_pure; intros ?; reflexivity] ].

Lemma append_revision_preserves p v : preserves (append_revision p v).
Proof. apply append_preserves. Qed.
Lemma patch_object_preserves p o m : preserves (patch_object p o m).
Proof. unfold patch_object. preserve. Qed.
Lemma fork_preserves p n : preserves (fork p n).
Proof. unfold fork. preserve. Qed.
Lemma project_preserves p keys : preserves (project p keys).
Proof. unfold project. preserve. Qed.
Lemma for_each_window_preserves p s n : preserves (for_each_window p s n).
Proof. unfold for_each_window. preserve. Qed.
Lemma for_each_preserves p : preserves (for_each_revision p).
Proof. unfold for_each_revision, for_each_window. preserve. Qed.
Lemma join_values_preserves heads st pv : preserves (join_values heads st pv).
Proof. unfold join_values. preserve. Qed.
Lemma join_heads_preserves heads st : preserves (join_heads heads st).
Proof. unfold join_heads, join_values. preserve. Qed.
Lemma join_declared_preserves k : preserves (join_declared k).
Proof. unfold join_declared, join_values. preserve. Qed.

Lemma update_children_inv c f :
  context_inv c → (∀ k ch, f (cx_children c) !! k = Some ch → is_Some (cx_revisions c !! ch_root_revision ch)) →
  context_inv (cx_set_children (f (cx_children c)) c) ∧ context_evolves c (cx_set_children (f (cx_children c)) c).
Proof. intros [] Hf. split; [split|split]; try done. Qed.

Lemma spawn_child_ok c c' spec i :
  spawn_child spec c = (c', Ok i) →
  ∃ c1 v, append_with_provenance [cs_parent_revision spec] v
      (with_child_id (cs_child_id spec) (provenance_simple RkChildRoot ("spawn-" +:+ cs_child_id spec)))
      (Some ("child-" +:+ cs_child_id spec)) c = (c1, Ok i)
    ∧ cx_children c !! cs_child_id spec = None
    ∧ c' = cx_set_children (<[cs_child_id spec := MkChild i false]> (cx_children c1))
             (cx_set_heads ({[cs_parent_revision spec]} ∪ cx_heads c1) c1).
Proof. unfold spawn_child. intros Hs. run_inv Hs. boolify. eauto. Qed.

Lemma spawn_child_preserves spec : preserves (spawn_child spec).
Proof.
  intros c c' [i|e] Hinv Hs.
  - apply spawn_child_ok in Hs as (c1 & v & Ha & _ & ->).
    destruct (append_preserves _ _ _ _ _ _ _ Hinv Ha) as [Hinv1 He1].
    apply append_ok in Ha as (lineage & _ & _ & Hall & _ & _ & -> & ->).
    set (c1 := MkContext _ _ _ _ _ _) in *.
    assert (is_Some (cx_revisions c1 !! cs_parent_revision spec)) as Hparent.
    { destruct (Hall (cs_parent_revision spec) ltac:(by left)) as [r Hr]. exists r. simpl.
      rewrite lookup_insert_ne; [done|]. intros Heq. rewrite <-Heq, fresh_id in Hr by done. discriminate Hr. }
    set (c2 := cx_set_heads ({[cs_parent_revision spec]} ∪ cx_heads c1) c1).
    assert (context_inv c2) as Hinv2.
    { destruct Hinv1. split; try done. intros j [->%elem_of_singleton|?]%elem_of_union; auto. }
    destruct (update_children_inv c2 (<[cs_child_id spec := MkChild (cx_next_id c) false]>) Hinv2) as [Hinv3 He3].
    { intros k ch [[<- <-]|[_ Hch]]%lookup_insert_Some; [|by apply (xi_children _ Hinv2 k)].
      simpl. rewrite lookup_insert_eq. eauto. }
    split; [done|]. trans c1; [done|]. trans c2; [by split|]. done.
  - unfold spawn_child in Hs. err_inv Hs; try done.
    match goal with Ha : append_with_provenance _ _ _ _ _ = _ |- _ => apply append_err in Ha; by subst end.
Qed.

Lemma integrate_child_ok c c' k ch ph v how i :
  integrate_child k ch ph v how c = (c', Ok i) →
  ∃ child o c1, cx_children c !! k = Some child ∧ ch_integrated child = false
    ∧ ch ∈ cx_heads c ∧ ph ∈ cx_heads c ∧ ancestor_or_self c ch (ch_root_revision child)
    ∧ append_with_provenance [ph; ch] (JObject o)
        (with_child_id k (provenance_simple RkChildIntegration ("integrate-" +:+ k)))
        (Some ("integrated-" +:+ k)) c = (c1, Ok i)
    ∧ c' = cx_set_children (alter (λ child, MkChild (ch_root_revision child) true) k (cx_children c1)) c1.
Proof.
  unfold integrate_child. intros Hs. run_inv Hs. boolify.
  match goal with Hd : is_descendant_of _ _ _ = true |- _ => apply is_descendant_iff in Hd end. eauto 15.
Qed.

Lemma integrate_child_preserves k ch ph v how : preserves (integrate_child k ch ph v how).
Proof.
  intros c c' [i|e] Hinv Hs.
  - apply integrate_child_ok in Hs as (child & o & c1 & _ & _ & _ & _ & _ & Ha & ->).
    destruct (append_preserves _ _ _ _ _ _ _ Hinv Ha) as [Hinv1 He1].
    destruct (update_children_inv c1 (alter (λ child, MkChild (ch_root_revision child) true) k) Hinv1) as [Hinv2 He2].
    { intros k' ch' Hl. apply lookup_alter_Some in Hl as [(_ & ch0 & Hc & ->)|[_ Hc]]; by apply (xi_children _ Hinv1) in Hc. }
    split; [done|]. by trans c1.
  - unfold integrate_child in Hs. err_inv Hs; try done.
    match goal with Ha : append_with_provenance _ _ _ _ _ = _ |- _ => apply append_err in Ha; by subst end.
Qed.

(** ** Runs *)

Inductive context_call : Type :=
| XcAppend (parent : N) (value : json)
| XcPatch (parent : N) (operation : string) (patch : gmap string json)
| XcFork (parent : N) (copies : nat)
| XcProject (parent : N) (keys : list string)
| XcForEach (parent : N) (start limit : nat)
| XcJoin (heads : list N) (strategy : JoinStrategy)
| XcJoinDeclared (contract : JoinContract)
| XcSpawn (spec : ChildContextSpec)
| XcIntegrate (child : string) (child_head parent_head : N) (value : json) (how : ChildIntegration)
| XcPrune (committed : list N).
Definition context_step (c : ContextStore) (call : context_call) : ContextStore :=
  match call with
  | XcAppend p v => (append_revision p v c).1
  | XcPatch p o m => (patch_object p o m c).1
  | XcFork p n => (fork p n c).1
  | XcProject p keys => (project p keys c).1
  | XcForEach p start limit => (for_each_window p start limit c).1
  | XcJoin heads st => (join_heads heads st c).1
  | XcJoinDeclared k => (join_declared k c).1
  | XcSpawn spec => (spawn_child spec c).1
  | XcIntegrate k ch ph v how => (integrate_child k ch ph v how c).1
  | XcPrune committed => match prune_unreachable committed c with Some (c', _) => c' | None => c end
  end.
Definition context_run (calls : list context_call) (c : ContextStore) : ContextStore :=
  foldl context_step c calls.

Lemma preserves_step {A} (m : cx A) c :
  preserves m → context_inv c → context_inv (m c).1 ∧ context_evolves c (m c).1.
Proof. intros Hm Hinv. destruct (m c) as [c' r] eqn:E. by apply (Hm c c' r). Qed.

Lemma context_step_inv c call :
  context_inv c → context_inv (context_step c call) ∧ context_evolves c (context_step c call).
Proof.
  intros Hinv. destruct call; simpl;
    eauto using preserves_step, append_revision_preserves, patch_object_preserves, fork_preserves,
      project_preserves, for_each_window_preserves, join_heads_preserves, join_declared_preserves,
      spawn_child_preserves, integrate_child_preserves.
  destruct (prune_preserves committed c Hinv) as (c' & r & -> & H1 & H2). done.
Qed.

Lemma context_run_inv calls c :
  context_inv c → context_inv (context_run calls c) ∧ context_evolves c (context_run calls c).
Proof.
  revert c. induction calls as [|call calls IH]; intros c Hinv; [done|]. simpl.
  destruct (context_step_inv c call Hinv) as [H1 H2]. destruct (IH _ H1) as [H3 H4].
  split; [done|]. by trans (context_step c call).
Qed.

Lemma with_limits_inv root m b c :
  with_limits root m b = Ok c → context_inv c ∧ cx_max_revisions c = m.
Proof.
  unfold with_limits. case_match eqn:Hm; [done|]. intros Hw. res_inv Hw. boolify. simplify_eq.
  split; [split|done]; simpl.
  - intros i r [<- <-]%lookup_singleton_Some. split_and!; simpl; try done; [constructor|set_solver].
  - intros i ->%elem_of_singleton. rewrite lookup_singleton_eq. eauto.
  - intros k ch Hch. by simplify_map_eq.
  - unfold nm_len. rewrite map_size_singleton. lia.
Qed.

(** ** Properties *)

(** Revisions are immutable and acyclic.  After any calls on a new
    store, failed ones included, the store holds at most its bound of
    revisions, each under its own id, with its content hash, and with parents
    that are present and have smaller ids; and whatever calls follow, an id
    that is still present denotes the very same revision. *)
Theorem context_revisions_immutable root m b c0 (calls later : list context_call) :
  with_limits root m b = Ok c0 →
  let c1 := context_run calls c0 in
  let c2 := context_run later c1 in
  nm_len (cx_revisions c1) ≤ m
  ∧ (∀ i r, cx_revisions c1 !! i = Some r →
      cr_id r = i ∧ cr_content_hash r = hash_revision (cr_parents r) (cr_value r) (cr_provenance r)
      ∧ ∀ p, p ∈ cr_parents r → p < i ∧ is_Some (cx_revisions c1 !! p))
  ∧ (∀ i r r', cx_revisions c1 !! i = Some r → cx_revisions c2 !! i = Some r' → r' = r).
Proof.
  intros Hw c1 c2. destruct (with_limits_inv _ _ _ _ Hw) as [Hinv0 Hm].
  destruct (context_run_inv calls c0 Hinv0) as [Hinv1 He1]. fold c1 in Hinv1, He1.
  destruct (context_run_inv later c1 Hinv1) as [_ He2]. fold c2 in He2. split_and!.
  - rewrite <-Hm, <-(proj1 (xe_limits _ _ He1)). apply Hinv1.
  - intros i r Hr. by destruct (xi_revision _ Hinv1 _ _ Hr) as (? & _ & _ & _ & ? & ?).
  - intros i r r' Hr Hr'. destruct (xi_revision _ Hinv1 _ _ Hr) as (_ & _ & Hlt & _).
    pose proof (xe_revisions _ _ He2 i r' Hr' Hlt). congruence.
Qed.

(** Pruning always ends, and keeps exactly what the committed heads
    reach: every revision that is a committed head or an ancestor of one is
    unchanged, every other one is dropped, and the result counts them.  It
    fails only when a committed head is unknown, and then changes nothing. *)
Theorem prune_keeps_reachable c (committed : list N) :
  context_inv c →
  ∃ c' res, prune_unreachable committed c = Some (c', res) ∧
    match res with
    | Ok n =>
        (∀ i r, cx_revisions c' !! i = Some r ↔
           cx_revisions c !! i = Some r ∧ ∃ h, h ∈ committed ∧ ancestor_or_self c h i)
        ∧ n = nm_len (cx_revisions c) - nm_len (cx_revisions c')
    | Err e => c' = c ∧ ∃ h, h ∈ committed ∧ cx_revisions c !! h = None
    end.
Proof.
  intros Hinv. unfold prune_unreachable. destruct (reach_from_total c committed) as (res & -> & Hspec).
  destruct res as [found|e]; do 2 eexists; (split; [done|]); simpl.
  - split; [|done]. intros i r. rewrite map_lookup_filter_Some, (proj1 Hspec). done.
  - split; [done|]. destruct Hspec as (i & j & Hi & Hij & Hnone & _). exists i. split; [done|].
    apply rtc_inv_r in Hij as [->|(k & _ & r & Hr & Hj)]; [done|].
    destruct (xi_revision _ Hinv _ _ Hr) as (_ & _ & _ & _ & Hp & _).
    destruct (Hp j Hj) as [_ Hsome]. rewrite Hnone in Hsome. by destruct Hsome.
Qed.

(** A declared join consumes exactly the heads it declares.  It
    succeeds only on two or more distinct live heads that all descend from
    the declared ancestor; the new revision has those heads as its parents in
    the declared order and replaces them among the heads; and no other
    revision changes. *)
Theorem join_declared_exact c c' k i :
  join_declared k c = (c', Ok i) →
  (2 ≤ length (jc_ordered_heads k))%nat ∧ NoDup (jc_ordered_heads k)
  ∧ (∀ h, h ∈ jc_ordered_heads k → h ∈ cx_heads c ∧ ancestor_or_self c h (jc_common_ancestor k))
  ∧ cx_heads c' = {[i]} ∪ cx_heads c ∖ list_to_set (jc_ordered_heads k)
  ∧ ∃ r, cx_revisions c' = <[i := r]> (cx_revisions c) ∧ cr_parents r = jc_ordered_heads k
      ∧ ∃ revisions, Forall2 (λ h r, cx_revisions c !! h = Some r) (jc_ordered_heads k) revisions
          ∧ join_value (jc_strategy k) (cr_value <$> revisions) = Ok (cr_value r).
Proof.
  unfold join_declared, join_values. intros Hj. run_inv Hj. boolify.
  match goal with Ha : append_with_provenance _ _ _ _ _ = _ |- _ =>
    apply append_ok in Ha as (lineage & _ & Hnd & _ & _ & _ & -> & ->) end.
  match goal with Hex : existsb _ _ = false |- _ => pose proof (proj1 (existsb_false _ _) Hex) as Hh end.
  split_and!; simpl; try done.
  - unfold len in *. lia.
  - intros h Hin. specialize (Hh h Hin). simpl in Hh. boolify. split; [done|]. by apply is_descendant_iff.
  - eexists. split; [done|]. split; [done|]. simpl.
    match goal with Hm : map_res _ _ = Ok ?rs |- _ => exists rs; split; [|done]; apply map_res_ok in Hm;
      eapply Forall2_impl; [exact Hm|] end.
    intros h r Hr. unfold get_revision in Hr. by apply ok_or_ok in Hr.
Qed.
End context_facts.

(** ** A concrete store *)

Module DemoContext.
Import (hints) Demo.
#[export] Instance revision_ser : Serialize (list N * json * ContextProvenance) := {|
  to_vec x := Some (as_bytes (pv_operation_id x.2)); jcs_to_vec x := Some (as_bytes (pv_operation_id x.2))
|}.
Definition start : option ContextStore :=
  match with_limits (JObject [("a", JBool true)]) 8 100 with Ok c => Some c | Err _ => None end.
Definition forked : ContextStore :=
  context_run [XcFork 1 2; XcAppend 2 (JBool true); XcAppend 3 (JBool false)]
    (default (MkContext ∅ ∅ ∅ 0 0 0) start).
End DemoContext.

Section context_witnesses.
Import (hints) Demo DemoContext.
Import DemoContext.

Lemma start_inv : context_inv (default (MkContext ∅ ∅ ∅ 0 0 0) start).
Proof.
  assert (is_some start = true) as Hs by (vm_compute; reflexivity). unfold start in *.
  destruct (with_limits _ 8 100) as [c|e] eqn:E; [|discriminate Hs].
  by apply with_limits_inv in E as [Hinv _].
Qed.
Lemma forked_inv : context_inv forked.
Proof. apply context_run_inv, start_inv. Qed.

Lemma context_revisions_immutable_witness : ∃ c0,
  with_limits (JObject [("a", JBool true)]) 8 100 = Ok c0
  ∧ nm_len (cx_revisions (context_run [XcFork 1 2; XcPrune [3]] c0)) ≤ 8.
Proof.
  destruct (with_limits (JObject [("a", JBool true)]) 8 100) as [c0|e] eqn:E; [|vm_compute in E; discriminate E].
  exists c0. split; [reflexivity|].
  exact (proj1 (context_revisions_immutable (JObject [("a", JBool true)]) 8 100 c0 [XcFork 1 2; XcPrune [3]] [] E)).
Defined.

Lemma prune_keeps_reachable_witness :
  (∃ c' res, prune_unreachable [4] forked = Some (c', res))
  ∧ (snd <$> prune_unreachable [4] forked) = Some (Ok 2).
Proof.
  split; [|vm_compute; reflexivity].
  destruct (prune_keeps_reachable forked [4] forked_inv) as (c' & res & Hp & _). exists c', res. exact Hp.
Defined.

Lemma join_declared_exact_witness :
  let k := MkJoinContract "j" 1 [5; 4] OrderedArray in
  (join_declared k forked).2 = Ok 6 ∧ cx_heads (join_declared k forked).1 = {[6]} ∪ cx_heads forked ∖ {[5; 4]}.
Proof.
  intros k. assert ((join_declared k forked).2 = Ok 6) as Hj by (vm_compute; reflexivity).
  split; [exact Hj|].
  assert (join_declared k forked = ((join_declared k forked).1, Ok 6)) as Hr
    by (rewrite <-Hj; apply surjective_pairing).
  destruct (join_declared_exact forked _ k 6 Hr) as (_ & _ & _ & Hh & _).
  etransitivity; [exact Hh|]. vm_compute. reflexivity.
Defined.
End context_witnesses.
