(* ===== verification/Calls.v ===== *)
(** * Calls between components

    A method that borrows another component mutably ([&mut LimitLedger],
    [&mut ContextStore], a field of [self]) runs that component's method on
    its part of a larger state: [call].  The errors that cross such a boundary
    are turned into text by their [Display] implementations (the [#[error]]
    attributes of [limits.rs], [context.rs], [gateway.rs], [plan.rs] and
    [suspension.rs]). *)
From S2P Require Export ContextProofs LimitsRestore.

(** ** Borrowing a part of the state *)

(** Where a component lives in a larger state. *)
Record lens (S T : Type) : Type := MkLens {
  part : S → T;
  set_part : T → S → S
}.
Arguments MkLens {S T}.
Arguments part {S T}.
Arguments set_part {S T}.

Class LensLaws {S T} (w : lens S T) : Prop := {
  part_set : ∀ t s, part w (set_part w t s) = t;
  set_part_part : ∀ s, set_part w (part w s) s = s;
  set_part_set : ∀ t t' s, set_part w t (set_part w t' s) = set_part w t s
}.

Definition first {A B} : lens (A * B) A := MkLens fst (λ a s, (a, s.2)).
Definition second {A B} : lens (A * B) B := MkLens snd (λ b s, (s.1, b)).
#[export] Instance first_laws {A B} : LensLaws (@first A B).
Proof. split; [done|by intros []|done]. Qed.
#[export] Instance second_laws {A B} : LensLaws (@second A B).
Proof. split; [done|by intros []|done]. Qed.

(** [self.part.method(..).map_err(f)?]: the part keeps the state the method
    left, also when the method fails. *)
Definition call {S T E F A} (w : lens S T) (f : E → F) (m : stm T E A) : stm S F A := λ s,
  match m (part w s) with
  | (t, Ok a) => (set_part w t s, Ok a)
  | (t, Err e) => (set_part w t s, Err (f e))
  end.

(** [match self.part.method(..) { Ok(a) => .., Err(e) => .. }]: the error is
    a value the caller handles. *)
Definition attempt {S T E F A} (w : lens S T) (m : stm T E A) : stm S F (result E A) := λ s,
  let '(t, r) := m (part w s) in (set_part w t s, Ok r).

Section call_facts.
Context {S T E F A : Type} (w : lens S T) (f : E → F).
Implicit Types (m : stm T E A) (s : S).

Lemma call_ok m s s' a :
  call w f m s = (s', Ok a) ↔ ∃ t, m (part w s) = (t, Ok a) ∧ s' = set_part w t s.
Proof. unfold call. destruct (m (part w s)) as [t [b|e]]; naive_solver. Qed.

Lemma call_err m s s' e' :
  call w f m s = (s', Err e') ↔ ∃ t e, m (part w s) = (t, Err e) ∧ s' = set_part w t s ∧ e' = f e.
Proof. unfold call. destruct (m (part w s)) as [t [b|e]]; naive_solver. Qed.

Lemma attempt_ok m s s' r :
  attempt (F:=F) w m s = (s', Ok r) ↔ ∃ t, m (part w s) = (t, r) ∧ s' = set_part w t s.
Proof. unfold attempt. destruct (m (part w s)) as [t r']. naive_solver. Qed.

Lemma attempt_not_err m s s' e : attempt (F:=F) w m s = (s', Err e) → False.
Proof. unfold attempt. by destruct (m (part w s)). Qed.
End call_facts.

(** Inversion of borrowing calls; unit answers. *)
Ltac call_inv :=
  repeat match goal with
  | H : call _ _ _ _ = (_, Ok _) |- _ => apply call_ok in H as (? & H & ->)
  | H : call _ _ _ _ = (_, Err _) |- _ => apply call_err in H as (? & ? & H & -> & ->)
  | H : attempt _ _ _ = (_, Ok _) |- _ => apply attempt_ok in H as (? & H & ->)
  | H : attempt _ _ _ = (_, Err _) |- _ => by apply attempt_not_err in H
  end; simpl in *.

Ltac units := repeat match goal with u : () |- _ => destruct u end.

(** ** Error texts *)

Definition limit_error_text (e : LimitError) : string :=
  match e with
  | Exhausted => "budget exhausted"
  | DeadlineExceeded => "deadline exceeded"
  | InvalidReservation => "invalid reservation"
  | UnknownScope i => "unknown budget scope " +:+ i
  | DuplicateId i => "duplicate budget scope, reservation, or charge id " +:+ i
  | UnknownReservation i => "reservation " +:+ i +:+ " is unknown or already settled"
  | ReservationExceeded => "usage exceeds the amount reserved"
  | StructuralLimit => "nested depth, fan-out, or parallelism limit exceeded"
  | Overflow => "budget arithmetic overflow"
  | DeadlineExtension => "checkpoint would extend a frozen deadline"
  end.

Definition context_error_text (e : ContextError) : string :=
  match e with
  | UnknownRevision i => "unknown context revision " +:+ pretty i
  | CxInvalidJoin => "join requires at least two distinct branch heads"
  | UnequalBranches => "branch values are not identical"
  | ConflictingJoin => "object-union join requires objects with non-conflicting keys"
  | MissingPath p => "projection path does not exist: " +:+ p
  | NotArray => "for-each input must be an array"
  | TooLarge => "revision exceeds the bounded inline context size"
  | RevisionLimit => "revision limit reached before a committed checkpoint allowed pruning"
  | UndeclaredJoin => "join heads do not belong to the declared ancestor and order"
  | RevisionExhausted => "revision ID arithmetic overflow"
  | InvalidChildIntegration => "child result was already integrated or does not match its child lineage"
  | PatchRequiresObject => "patch requires an object base"
  end.

Definition gateway_error_text (e : GatewayError) : string :=
  match e with
  | GeNotInitialized => "worker gateway has not accepted a start or restore envelope"
  | GeAlreadyInitialized => "worker gateway is already initialized"
  | GeMessageIdentityConflict => "control message ID was reused with different content"
  | GeIdentityMismatch => "control envelope does not match the active Chat/Run identity"
  | GeGenerationMismatch => "stale or unexpected process generation"
  | GeSnapshotMismatch => "frozen snapshot hash does not match the active Run"
  | GeCursorMismatch => "committed cursor regressed or skipped required acknowledgement state"
  | GeBackpressure => "proposal buffer is full; scheduling must stop until an ack arrives"
  | GeUnknownAcknowledgement => "unknown proposal acknowledgement"
  | GeSequenceExhausted => "proposal sequence exhausted"
  | GeEncoding => "proposal cannot be encoded"
  | GeInvalidIdentifier => "stable identifier construction failed"
  end.

Definition plan_error_text (e : PlanError) : string :=
  match e with
  | GenerationMismatch => "snapshot belongs to a different worker generation"
  | EmptyGraph => "snapshot must contain at least one node"
  | DuplicateNode n => "duplicate node id " +:+ n
  | DuplicateTransition t => "duplicate transition id " +:+ t
  | UnknownPlanNode t n => "transition " +:+ t +:+ " references unknown node " +:+ n
  | UnboundedCycle t => "cycle requires an explicit positive loop bound on transition " +:+ t
  | UnsupportedSchema v => "unsupported worker snapshot schema version " +:+ pretty v
  | UnsupportedCompiler v => "unsupported worker compiler version " +:+ v
  | SnapshotHashMismatch => "snapshot hash does not match its canonical content"
  | InvalidHash => "workflow, contribution, authority, or plan hash is malformed"
  | InvalidEntry n => "entry node is duplicated or absent from the plan: " +:+ n
  | InvalidNodeContract n => "node type/version or contribution is malformed: " +:+ n
  | InvalidPort n p => "duplicate or malformed port " +:+ p +:+ " on node " +:+ n
  | PortMismatch t => "transition " +:+ t +:+ " has incompatible ports"
  | UnresolvedCapability n c => "node " +:+ n +:+ " references an unfrozen capability " +:+ c
  | InvalidLoop i => "loop descriptor is missing, duplicate, invalid, or unused: " +:+ i
  | InvalidJoin i => "join descriptor is missing, duplicate, or invalid: " +:+ i
  | InvalidRoute i => "route rule is missing, duplicate, invalid, or points outside its router: " +:+ i
  | PlanTooLarge => "snapshot exceeds a bounded worker compilation limit"
  | PlanEncoding => "snapshot cannot be encoded canonically"
  end.

Definition recovery_error_text (e : RecoveryErrorV1) : string :=
  match e with
  | ReSnapshotMismatch => "rehydration snapshot hash is invalid"
  | RePlanMismatch => "rehydration plan hash is invalid"
  | ReCheckpointHashMismatch => "checkpoint content hash is invalid"
  | ReGenerationFence => "replacement process generation must be newer"
  | ReDeltaGap => "committed recovery deltas are not contiguous"
  | ReOutcomeConflict => "reconciled capability outcomes conflict"
  | RePayloadTooLarge => "rehydration payload exceeds its bound"
  | ReEncoding => "rehydration payload cannot be encoded"
  end.
