(* ===== verification/Agent.v ===== *)
(** * The agent loop ([crates/aworkit-workflow-worker/src/agent.rs])

    [AgentLoopV1]: one model turn at a time, each a broker proposal whose
    budget is reserved before it is emitted and charged when its committed
    outcome comes back; [SubagentManagerV1]: child agents with a budget scope
    and a context of their own; and the compatibility [AgentLoop] and
    [SubagentManager].  Definitions only; the theorems are in [AgentProofs]
    and [SubagentProofs]. *)
From S2P Require Export Calls.

(** ** The ledger as its clients see it

    The budget operations the agent calls.  [LimitLedger] implements them;
    the laws the agent relies on are in [AgentProofs]. *)
Class BudgetOps (L : Type) : Type := {
  bo_reserve : string → string → Usage → stm L LimitError ();
  bo_charge : string → string → Usage → stm L LimitError ();
  bo_release : string → stm L LimitError ();
  bo_create_child : string → string → BudgetEnvelope → stm L LimitError ();
  bo_can_close_child : L → string → result LimitError ();
  bo_close_child : string → stm L LimitError ()
}.
#[export] Instance ledger_ops : BudgetOps LimitLedger := {|
  bo_reserve := reserve;
  bo_charge := charge;
  bo_release := release;
  bo_create_child := create_child;
  bo_can_close_child := can_close_child;
  bo_close_child := close_child
|}.

(** ** Shared helpers *)

Inductive AgentErrorV1 : Type :=
| AgInvalidState
| AgInvocationPending
| AgCapabilityDenied
| AgOutcomeMismatch
| AgCancelled
| AgContextProjection
| AgBudget (text : string)
| AgInvalidIdentifier.

Definition Usage_default : Usage := MkUsage 0 0 0 0 0 0.
(** Only tokens and cost are metered by an agent loop. *)
Definition resource_usage (usage : Usage) : Usage :=
  MkUsage (us_turns Usage_default) (us_attempts Usage_default) (us_tool_calls Usage_default)
    (us_tokens usage) (us_cost_micros usage) (us_actions Usage_default).

Definition budget_error (e : LimitError) : AgentErrorV1 := AgBudget (limit_error_text e).

Section agent_helpers.
Context `{Sha256, JsonPointer}.

Definition agent_stable_id (material : string) : result AgentErrorV1 StableId :=
  let digest := sha256_hex (as_bytes material) in
  map_err (λ _, AgInvalidIdentifier) (StableId_parse ("agent." +:+ str_take 48 digest)).

Definition project_pointer (context : json) (projected : obj) (pointer : string) :
    result AgentErrorV1 obj :=
  _ ← fail_if (str_is_empty pointer || (512 <? str_len pointer) || negb (starts_with "/" pointer))
        AgContextProjection;
  value ← ok_or (value_pointer context pointer) AgContextProjection;
  Ok (obj_insert pointer value projected).
Definition project_context (context : json) (pointers : list string) : result AgentErrorV1 json :=
  if is_nil pointers then Ok context
  else projected ← fold_res (project_pointer context) [] pointers; Ok (JObject projected).
End agent_helpers.

(** ** The compatibility loop and manager *)

(** [Proposal] of [node.rs]. *)
Record Proposal : Type := MkCompatProposal {
  pr_kind : string;
  pr_node_id : StableId;
  pr_payload : json
}.
Record AgentStep : Type := MkAgentStep { as_proposal : Proposal; as_turn : N }.
Definition next_step (node_id : StableId) (context : json) (turn : N) :
    stm LimitController LimitError AgentStep :=
  _ ← controller_reserve (MkReservation 1 1);
  mret (MkAgentStep (MkCompatProposal "model" node_id
          (JObject [("context", context); ("turn", JNumber (PosInt turn))])) turn).

Record SubagentRequest : Type := MkSubagentRequest {
  sr_parent_revision : N;
  sr_delegated : json;
  sr_depth : N;
  sr_max_depth : N
}.
Inductive SubagentError : Type := SeDepthExceeded.

Section subagent_compat.
Context `{Sha256, !Serialize json, !Serialize (list N * json * ContextProvenance)}.
Definition subagent_start (request : SubagentRequest) : stm ContextStore SubagentError N :=
  _ ← reject_if (sr_max_depth request <=? sr_depth request) SeDepthExceeded;
  call (MkLens id (λ c _, c)) (λ _, SeDepthExceeded)
    (append_revision (sr_parent_revision request) (sr_delegated request)).
Definition subagent_integrate (parent : N) (result : json) : stm ContextStore SubagentError N :=
  call (MkLens id (λ c _, c)) (λ _, SeDepthExceeded) (append_revision parent result).
End subagent_compat.

(** ** [AgentLoopV1] *)

Record AgentLoopConfigV1 : Type := MkAgentConfig {
  ac_loop_id : StableId;
  ac_node_id : StableId;
  ac_model_capability_ref : StableId;
  ac_authority_manifest_ref : StableId;
  ac_budget_ref : StableId;
  ac_scope_id : string;
  ac_legacy_maximum_turns : option N;
  ac_turn_reservation : Usage;
  ac_context_pointers : list string;
  ac_allowed_tool_capability_refs : list StableId
}.
Record AgentLoopCheckpointV1 : Type := MkAgentCheckpoint {
  ak_config : AgentLoopConfigV1;
  ak_next_turn : N;
  ak_pending_invocation_id : option StableId;
  ak_pending_reservation_id : option string;
  ak_completed_outcome_ids : list StableId;
  ak_cancelled : bool
}.
Record AgentLoopV1 : Type := MkAgentLoop {
  al_config : AgentLoopConfigV1;
  al_next_turn : N;
  al_pending_invocation_id : option StableId;
  al_pending_reservation_id : option string;
  al_completed_outcome_ids : gset string;
  al_cancelled : bool
}.

Definition al_set_pending i r a :=
  MkAgentLoop (al_config a) (al_next_turn a) i r (al_completed_outcome_ids a) (al_cancelled a).
Definition al_set_completed s a :=
  MkAgentLoop (al_config a) (al_next_turn a) (al_pending_invocation_id a)
    (al_pending_reservation_id a) s (al_cancelled a).
Definition al_set_next_turn n a :=
  MkAgentLoop (al_config a) n (al_pending_invocation_id a) (al_pending_reservation_id a)
    (al_completed_outcome_ids a) (al_cancelled a).
Definition al_set_cancelled b a :=
  MkAgentLoop (al_config a) (al_next_turn a) (al_pending_invocation_id a)
    (al_pending_reservation_id a) (al_completed_outcome_ids a) b.

Definition AgentLoopV1_new (config : AgentLoopConfigV1) : result AgentErrorV1 AgentLoopV1 :=
  if str_is_empty (ac_scope_id config)
     || usage_is_zero (resource_usage (ac_turn_reservation config))
     || (256 <? len (ac_context_pointers config))
     || (256 <? len (ac_allowed_tool_capability_refs config))
  then Err AgInvalidState
  else Ok (MkAgentLoop config 0 None None ∅ false).

Definition reservation_id_of (config : AgentLoopConfigV1) (turn : N) : string :=
  "agent." +:+ as_str (ac_loop_id config) +:+ "." +:+ pretty turn.
Definition invocation_material (config : AgentLoopConfigV1) (turn : N) : string :=
  "agent:" +:+ as_str (ac_loop_id config) +:+ ":" +:+ pretty turn.
Definition attempt_material (config : AgentLoopConfigV1) (turn : N) : string :=
  "attempt:" +:+ as_str (ac_loop_id config) +:+ ":" +:+ pretty turn.
Definition turn_payload (config : AgentLoopConfigV1) (turn : N) (projected : json) : json :=
  JObject [("turn", JNumber (PosInt turn)); ("context", projected);
           ("allowedToolCapabilityRefs",
             JArray (JString ∘ as_str <$> ac_allowed_tool_capability_refs config))].

Definition outcome_is_duplicate_or_matching (a : AgentLoopV1) (outcome : CapabilityOutcomeV1) :
    result AgentErrorV1 bool :=
  if bs_contains (al_completed_outcome_ids a) (as_str (co_outcome_id outcome)) then Ok true
  else if bool_decide (al_pending_invocation_id a = Some (co_invocation_id outcome)) then Ok false
  else Err AgOutcomeMismatch.

Definition validate_tool_capability (a : AgentLoopV1) (capability : StableId) : result AgentErrorV1 () :=
  fail_if (negb (bool_decide (capability ∈ ac_allowed_tool_capability_refs (al_config a))))
    AgCapabilityDenied.

Definition agent_cancel : stm AgentLoopV1 AgentErrorV1 bool :=
  a ← read;
  if al_cancelled a then mret false else
  _ ← reject_if (is_some (al_pending_invocation_id a)) AgInvocationPending;
  _ ← modify (al_set_cancelled true);
  mret true.

(** The classes after which the loop stops. *)
Definition ends_loop (c : CapabilityOutcomeClassV1) : bool :=
  match c with CoCancelledEvidence | CoDenied => true | _ => false end.
Definition permits_zero_turns (c : CapabilityOutcomeClassV1) : bool :=
  match c with CoDefiniteNotStarted | CoDenied => true | _ => false end.

Section agent_loop.
Context {L : Type} `{BudgetOps L} `{Sha256, JsonPointer}.
(** The loop and the ledger it borrows. *)
Abbreviation ag := (stm (AgentLoopV1 * L) AgentErrorV1).

Definition self_is (f : AgentLoopV1 → AgentLoopV1) : ag () := modify (λ s, (f s.1, s.2)).

Definition propose_model_turn (context : json) : ag WorkerInvocationProposalV1 :=
  s ← read;
  let a := s.1 in
  _ ← reject_if (al_cancelled a) AgCancelled;
  _ ← reject_if (is_some (al_pending_invocation_id a)) AgInvocationPending;
  invocation_id ← lift (agent_stable_id (invocation_material (al_config a) (al_next_turn a)));
  let reservation_id := reservation_id_of (al_config a) (al_next_turn a) in
  _ ← call second budget_error
        (bo_reserve (ac_scope_id (al_config a)) reservation_id
           (resource_usage (ac_turn_reservation (al_config a))));
  projected ←
    match project_context context (ac_context_pointers (al_config a)) with
    | Ok projected => mret projected
    | Err error => _ ← call second budget_error (bo_release reservation_id); throw error
    end;
  _ ← self_is (al_set_pending (Some invocation_id) (Some reservation_id));
  attempt_id ← lift (agent_stable_id (attempt_material (al_config a) (al_next_turn a)));
  mret (MkInvocation invocation_id (ac_node_id (al_config a)) attempt_id
          (ac_model_capability_ref (al_config a)) (ac_authority_manifest_ref (al_config a))
          (ac_budget_ref (al_config a)) (turn_payload (al_config a) (al_next_turn a) projected)).

Definition settle_reserved_outcome (outcome : CapabilityOutcomeV1) (actual_usage : Usage) : ag bool :=
  s ← read;
  reservation_id ← lift (ok_or (al_pending_reservation_id s.1) AgOutcomeMismatch);
  _ ← call second budget_error
        (bo_charge reservation_id (as_str (co_outcome_id outcome)) actual_usage);
  _ ← self_is (λ a, al_set_completed ({[as_str (co_outcome_id outcome)]} ∪ al_completed_outcome_ids a) a);
  _ ← self_is (al_set_pending None None);
  _ ← self_is (λ a, al_set_next_turn (saturating_add u32_max (al_next_turn a) 1) a);
  _ ← self_is (λ a, if ends_loop (co_class outcome) then al_set_cancelled true a else a);
  mret true.

Definition settle_committed_outcome (outcome : CapabilityOutcomeV1) (actual_usage : Usage) : ag bool :=
  s ← read;
  duplicate ← lift (outcome_is_duplicate_or_matching s.1 outcome);
  if duplicate : bool then mret false else
  _ ← reject_if (negb (us_turns actual_usage =? 1) || negb (us_attempts actual_usage =? 1))
        (AgBudget "a committed model turn must charge exactly one turn and attempt");
  settle_reserved_outcome outcome (resource_usage actual_usage).

Definition settle_committed_run_outcome (outcome : CapabilityOutcomeV1) (actual_usage : Usage) : ag bool :=
  s ← read;
  duplicate ← lift (outcome_is_duplicate_or_matching s.1 outcome);
  if duplicate : bool then mret false else
  _ ← reject_if (negb (us_turns actual_usage =? us_attempts actual_usage)
                 || ((us_turns actual_usage =? 0) && negb (permits_zero_turns (co_class outcome))))
        (AgBudget "a committed Agent run must charge its actual provider turns and attempts");
  settle_reserved_outcome outcome (resource_usage actual_usage).
End agent_loop.

(** [filter_map(|id| StableId::parse(id).ok())] *)
Definition agent_checkpoint (a : AgentLoopV1) : AgentLoopCheckpointV1 :=
  MkAgentCheckpoint (al_config a) (al_next_turn a) (al_pending_invocation_id a)
    (al_pending_reservation_id a) (omap parse_opt (bt_elems (al_completed_outcome_ids a)))
    (al_cancelled a).

Definition agent_restore (k : AgentLoopCheckpointV1) : result AgentErrorV1 AgentLoopV1 :=
  let pending_consistent :=
    Bool.eqb (is_some (ak_pending_invocation_id k)) (is_some (ak_pending_reservation_id k)) in
  let completed : gset string := list_to_set (as_str <$> ak_completed_outcome_ids k) in
  if negb pending_consistent
     || negb (bs_len completed =? len (ak_completed_outcome_ids k))
     || negb (ak_next_turn k =? bs_len completed)
  then Err AgInvalidState
  else
    restored ← AgentLoopV1_new (ak_config k);
    Ok (MkAgentLoop (al_config restored) (ak_next_turn k) (ak_pending_invocation_id k)
          (ak_pending_reservation_id k) completed (ak_cancelled k)).

(** ** [SubagentManagerV1] *)

Inductive ChildStateV1 : Type := CsRunning | CsCompleted | CsIntegrated | CsCancelled.
#[export] Instance ChildStateV1_eq_dec : EqDecision ChildStateV1.
Proof. solve_decision. Defined.

Record ChildFrameV1 : Type := MkChildFrame {
  cf_child_id : StableId;
  cf_parent_revision : N;
  cf_child_root_revision : N;
  cf_child_head_revision : N;
  cf_scope_id : string;
  cf_state : ChildStateV1;
  cf_result : option json
}.
Record SubagentCheckpointV1 : Type := MkSubagentCheckpoint { sk_children : list ChildFrameV1 }.
Record SubagentManagerV1 : Type := MkSubagentManager { sm_children : gmap string ChildFrameV1 }.
Definition SubagentManagerV1_new : SubagentManagerV1 := MkSubagentManager ∅.

Inductive SubagentErrorV1 : Type :=
| SvDuplicateChild (child : string)
| SvUnknownChild (child : string)
| SvInvalidState
| SvContext (text : string)
| SvBudget (text : string).

Definition cf_set_state st f :=
  MkChildFrame (cf_child_id f) (cf_parent_revision f) (cf_child_root_revision f)
    (cf_child_head_revision f) (cf_scope_id f) st (cf_result f).
Definition cf_completed head result f :=
  MkChildFrame (cf_child_id f) (cf_parent_revision f) (cf_child_root_revision f)
    head (cf_scope_id f) CsCompleted (Some result).

Definition child_scope_id (child_id : StableId) : string := "child." +:+ as_str child_id.
Definition sub_budget_error (e : LimitError) : SubagentErrorV1 := SvBudget (limit_error_text e).
Definition sub_context_error (e : ContextError) : SubagentErrorV1 := SvContext (context_error_text e).

(** The frame in place of the child's entry. *)
Definition sm_insert (k : string) (f : ChildFrameV1) (m : SubagentManagerV1) : SubagentManagerV1 :=
  MkSubagentManager (<[k := f]> (sm_children m)).

Section subagents.
Context {L : Type} `{BudgetOps L}.
Context `{Sha256, !Serialize json, !Serialize (list N * json * ContextProvenance)}.

(** The manager, the context store and the ledger it borrows. *)
Record sub_state : Type := MkSub { ss_manager : SubagentManagerV1; ss_context : ContextStore; ss_limits : L }.
Definition manager : lens sub_state SubagentManagerV1 :=
  MkLens ss_manager (λ m s, MkSub m (ss_context s) (ss_limits s)).
Definition context_of : lens sub_state ContextStore :=
  MkLens ss_context (λ c s, MkSub (ss_manager s) c (ss_limits s)).
Definition limits_of : lens sub_state L :=
  MkLens ss_limits (λ l s, MkSub (ss_manager s) (ss_context s) l).

Abbreviation sub := (stm sub_state SubagentErrorV1).

(** [self.children.get_mut(child_id).ok_or(UnknownChild)]. *)
Definition get_child (child_id : StableId) : sub ChildFrameV1 :=
  s ← read;
  lift (ok_or (sm_children (ss_manager s) !! as_str child_id) (SvUnknownChild (as_str child_id))).
(** An assignment through the borrowed frame. *)
Definition put_child (child_id : StableId) (f : ChildFrameV1) : sub () :=
  modify (λ s, set_part manager (sm_insert (as_str child_id) f (ss_manager s)) s).

Definition subagent_spawn (child_id : StableId) (parent_scope_id : string)
    (child_budget : BudgetEnvelope) (spec : ChildContextSpec) : sub ChildFrameV1 :=
  s ← read;
  _ ← reject_if (bt_contains (sm_children (ss_manager s)) (as_str child_id)
                 || negb (bool_decide (cs_child_id spec = as_str child_id)))
        (SvDuplicateChild (as_str child_id));
  let scope_id := child_scope_id child_id in
  _ ← call limits_of sub_budget_error (bo_create_child scope_id parent_scope_id child_budget);
  outcome ← attempt context_of (spawn_child spec);
  root ←
    match outcome with
    | Ok root => mret root
    | Err error =>
        _ ← call limits_of sub_budget_error (bo_close_child scope_id);
        throw (sub_context_error error)
    end;
  let frame := MkChildFrame child_id (cs_parent_revision spec) root root scope_id CsRunning None in
  _ ← put_child child_id frame;
  mret frame.

Definition subagent_complete (child_id : StableId) (child_head_revision : N) (result : json) : sub () :=
  frame ← get_child child_id;
  _ ← reject_if (negb (bool_decide (cf_state frame = CsRunning))) SvInvalidState;
  put_child child_id (cf_completed child_head_revision result frame).

Definition subagent_integrate_v1 (child_id : StableId) (parent_head : N)
    (integration : ChildIntegration) : sub N :=
  frame ← get_child child_id;
  _ ← reject_if (negb (bool_decide (cf_state frame = CsCompleted))) SvInvalidState;
  s ← read;
  _ ← lift (map_err sub_budget_error (bo_can_close_child (ss_limits s) (cf_scope_id frame)));
  result ← lift (ok_or (cf_result frame) SvInvalidState);
  revision ← call context_of sub_context_error
    (integrate_child (as_str child_id) (cf_child_head_revision frame) parent_head result integration);
  _ ← call limits_of sub_budget_error (bo_close_child (cf_scope_id frame));
  _ ← put_child child_id (cf_set_state CsIntegrated frame);
  mret revision.

Definition subagent_cancel (child_id : StableId) : sub bool :=
  frame ← get_child child_id;
  if bool_decide (cf_state frame = CsIntegrated) || bool_decide (cf_state frame = CsCancelled)
  then mret false
  else
    _ ← call limits_of sub_budget_error (bo_close_child (cf_scope_id frame));
    _ ← put_child child_id (cf_set_state CsCancelled frame);
    mret true.
End subagents.
Arguments sub_state : clear implicits.

Definition subagent_checkpoint (m : SubagentManagerV1) : SubagentCheckpointV1 :=
  MkSubagentCheckpoint (bt_values (sm_children m)).

Definition valid_result (child : ChildFrameV1) : bool :=
  match cf_state child with
  | CsRunning => negb (is_some (cf_result child))
  | CsCompleted | CsIntegrated => is_some (cf_result child)
  | CsCancelled => true
  end.
Definition restore_child (state : gmap string ChildFrameV1 * gset string) (child : ChildFrameV1) :
    result SubagentErrorV1 (gmap string ChildFrameV1 * gset string) :=
  let '(children, scopes) := state in
  _ ← fail_if ((cf_parent_revision child =? 0) || (cf_child_root_revision child =? 0)
               || (cf_child_head_revision child <? cf_child_root_revision child)
               || negb (bool_decide (cf_scope_id child = child_scope_id (cf_child_id child)))
               || negb (valid_result child)
               || bs_contains scopes (cf_scope_id child)) SvInvalidState;
  _ ← fail_if (bt_contains children (as_str (cf_child_id child))) SvInvalidState;
  Ok (<[as_str (cf_child_id child) := child]> children, {[cf_scope_id child]} ∪ scopes).
Definition subagent_restore (k : SubagentCheckpointV1) : result SubagentErrorV1 SubagentManagerV1 :=
  '(children, _) ← fold_res restore_child (∅, ∅) (sk_children k);
  Ok (MkSubagentManager children).
