(* ===== verification/AgentProofs.v ===== *)
(** * The agent loop is a budgeted state machine

    The laws the loop needs of its ledger ([BudgetLaws]), discharged by
    [LimitLedger]; the loop's invariant over runs in which other clients use
    the same ledger between its calls; atomic calls; the exact cost of a turn;
    and the checkpoint round trip. *)
From S2P Require Export Agent.

(** ** What the ledger promises *)

Class BudgetLaws (L : Type) `{BudgetOps L} : Type := {
  (** The ledger is well formed. *)
  bl_inv : L → Prop;
  (** The scope and amount of an outstanding reservation. *)
  bl_held : L → string → option (string * Usage);
  (** The charge ids committed so far. *)
  bl_charged : L → gset string;
  (** The open budget scopes. *)
  bl_scopes : L → gset string;

  bl_reserve_err l l' s r u e : bl_inv l → bo_reserve s r u l = (l', Err e) → l' = l;
  bl_reserve_ok l l' s r u :
    bl_inv l → bo_reserve s r u l = (l', Ok ()) →
    bl_inv l' ∧ bl_held l r = None ∧ bl_held l' r = Some (s, u) ∧ bl_charged l' = bl_charged l;
  bl_release l l1 s r u :
    bl_inv l → bo_reserve s r u l = (l1, Ok ()) → bo_release r l1 = (l, Ok ());
  bl_charge_err l l' r c u e : bl_inv l → bo_charge r c u l = (l', Err e) → l' = l;
  bl_charge_ok l l' r c u :
    bl_inv l → bo_charge r c u l = (l', Ok ()) →
    bl_inv l' ∧ bl_charged l' = {[c]} ∪ bl_charged l
    ∧ (c ∈ bl_charged l → l' = l) ∧ (c ∉ bl_charged l → bl_held l' r = None);
  bl_create_err l l' s p b e : bl_inv l → bo_create_child s p b l = (l', Err e) → l' = l;
  bl_create_ok l l' s p b :
    bl_inv l → bo_create_child s p b l = (l', Ok ()) →
    bl_inv l' ∧ s ∉ bl_scopes l ∧ bl_scopes l' = {[s]} ∪ bl_scopes l;
  bl_create_close l l1 s p b :
    bl_inv l → bo_create_child s p b l = (l1, Ok ()) → bo_close_child s l1 = (l, Ok ());
  bl_close_err l l' s e : bl_inv l → bo_close_child s l = (l', Err e) → l' = l;
  bl_close_ok l l' s :
    bl_inv l → bo_close_child s l = (l', Ok ()) →
    bl_inv l' ∧ s ∈ bl_scopes l ∧ bl_scopes l' = bl_scopes l ∖ {[s]};
  bl_can_close l s :
    bl_inv l → bo_can_close_child l s = Ok () → ∃ l', bo_close_child s l = (l', Ok ());

  (** The calls its clients can make, the ledger after one, and the reservation
      a call settles. *)
  bl_call : Type;
  bl_do : bl_call → L → L;
  bl_settles : bl_call → option string;
  bl_do_inv c l : bl_inv l → bl_inv (bl_do c l);
  bl_do_charged c l : bl_inv l → bl_charged l ⊆ bl_charged (bl_do c l);
  bl_do_held c l r x :
    bl_inv l → bl_held l r = Some x → bl_settles c ≠ Some r → bl_held (bl_do c l) r = Some x
}.

(** ** The ledger keeps the promise *)

Definition held (l : LimitLedger) (r : string) : option (string * Usage) :=
  (λ rec, (rr_scope_id rec, rr_reserved rec)) <$> ll_reservations l !! r.

Lemma charge_ok_facts root l l' r c u :
  ledger_inv root l → charge r c u l = (l', Ok ()) →
  ledger_inv root l' ∧ ll_charge_ids l' = {[c]} ∪ ll_charge_ids l
  ∧ (c ∈ ll_charge_ids l → l' = l) ∧ (c ∉ ll_charge_ids l → held l' r = None).
Proof.
  intros Hinv Hc. destruct (charge_cases _ _ _ _ _ Hc) as [Hv [[Hin ->]|[Hn [rec Hr]]]].
  { split_and!; [done| |done|done]. apply set_eq. intros x. rewrite elem_of_union, elem_of_singleton.
    naive_solver. }
  pose proof (charge_run root r c u rec l Hinv Hv Hn Hr) as Hrun.
  destruct (usage_contains _ _); [|congruence].
  destruct Hrun as (lin & m & _ & Hrun & _ & _ & _ & Hinv' & _). rewrite Hrun in Hc. simplify_eq.
  split_and!; try done. intros _. unfold held. simpl. by rewrite lookup_delete_eq.
Qed.

Lemma can_close_child_iff l s :
  can_close_child l s = Ok () ↔
  (∃ sc p, ll_scopes l !! s = Some sc ∧ bs_parent sc = Some p)
  ∧ (∀ k r, ll_reservations l !! k = Some r → rr_scope_id r ≠ s)
  ∧ (∀ j sc, ll_scopes l !! j = Some sc → bs_parent sc ≠ Some s).
Proof.
  unfold can_close_child. split.
  - intros Hc. res_inv Hc. destruct (bs_parent x) as [p|] eqn:Hp; [|done]. res_inv Hc.
    apply orb_false_iff in Hc as [Hr Hs]. split_and!; [eauto| |].
    + intros k r Hk. apply (existsb_false _ _) with (x := r) in Hr; [by boolify|].
      apply elem_of_bt_values. eauto.
    + intros j sc Hj. apply (existsb_false _ _) with (x := sc) in Hs; [by boolify|].
      apply elem_of_bt_values. eauto.
  - intros ((sc & p & Hs & Hp) & Hr & Hj). rewrite Hs. simpl. rewrite Hp. apply fail_if_ok, orb_false_iff.
    split; apply existsb_false; intros x [k Hk]%elem_of_bt_values; apply bool_decide_eq_false; eauto.
Qed.

Lemma close_child_total root l s :
  ledger_inv root l → can_close_child l s = Ok () → ∃ l', close_child s l = (l', Ok ()).
Proof.
  intros Hinv Hcan. destruct (proj1 (can_close_child_iff _ _) Hcan) as ((sc & p & Hs & Hp) & _ & Hj).
  assert (∃ psc, ll_scopes l !! p = Some psc) as [psc Hps].
  { destruct (decide (s = root)) as [->|Hr].
    - destruct (li_root _ _ Hinv) as (r0 & ? & ? & _). congruence.
    - destruct (li_tree _ _ Hinv _ _ Hs Hr) as (q & psc & ? & ? & _). simplify_eq. eauto. }
  assert (s ≠ p) by (intros ->; by apply (Hj p sc)).
  unfold close_child, mbind, stm_bind, read, lift, modify. rewrite Hcan, Hs. cbn [ok_or].
  rewrite Hp. cbn [ll_scopes set_scopes]. rewrite lookup_delete_ne, Hps by done. eauto.
Qed.

Lemma create_close_identity root l l1 s p b :
  ledger_inv root l → create_child s p b l = (l1, Ok ()) → close_child s l1 = (l, Ok ()).
Proof.
  intros Hinv Hc. destruct (create_child_ok _ _ _ _ _ Hc) as (parent & Hp & Hs & _ & _ & _ & _ & ->).
  assert (p ≠ s) as Hne by congruence. set (l1 := set_scopes _ l).
  assert (Hcan : can_close_child l1 s = Ok ()).
  { apply can_close_child_iff. subst l1. simpl. split_and!.
    - rewrite lookup_insert_eq. eauto.
    - intros k r Hk Heq. destruct (li_reservation _ _ Hinv _ _ Hk) as (_ & Hin & _).
      rewrite Heq, Hs in Hin. by destruct Hin.
    - intros j sc [[<- <-]|[Hj Hl]]%lookup_insert_Some; [simpl; congruence|].
      assert (∃ sc0, ll_scopes l !! j = Some sc0 ∧ bs_parent sc = bs_parent sc0) as (sc0 & Hj0 & ->)
        by (apply lookup_insert_Some in Hl as [[<- <-]|[_ Hl]]; eauto).
      intros Hpar. destruct (decide (j = root)) as [->|Hr].
      + destruct (li_root _ _ Hinv) as (r0 & Hr0 & Hn & _). congruence.
      + destruct (li_tree _ _ Hinv _ _ Hj0 Hr) as (q & psc & Hq & Hps & _). congruence. }
  destruct (close_child_total root l1 s) as [l2 Hl2]; [by eapply create_child_inv|done|].
  rewrite Hl2. destruct (close_child_ok _ _ _ Hl2) as (sc & q & qs & Hsc & Hq & _ & Hqs & _ & _ & ->).
  subst l1. simpl in *. rewrite lookup_insert_eq in Hsc. simplify_eq/=.
  rewrite lookup_insert_ne, lookup_insert_eq in Hqs by done. simplify_eq/=.
  destruct l as [tick scopes rs cs loops]. unfold set_scopes. simpl in *. do 3 f_equal.
  rewrite delete_insert_id by (by rewrite lookup_insert_ne).
  rewrite insert_insert_eq. unfold with_active_children, saturating_sub. simpl.
  rewrite N.add_sub. apply insert_id. by destruct parent.
Qed.

(** The reservation a call settles. *)
Definition op_settles (o : ledger_op) : option string :=
  match o with
  | OpCharge r _ _ | OpRelease r => Some r
  | _ => None
  end.

(** What a call does to the reservations and the charge ids. *)
Lemma op_books root o l l' res :
  ledger_inv root l → run_op o l = (l', res) →
  ll_charge_ids l ⊆ ll_charge_ids l'
  ∧ ∀ r, op_settles o ≠ Some r → is_Some (ll_reservations l !! r) → ll_reservations l' !! r = ll_reservations l !! r.
Proof.
  intros Hinv Ho. destruct res as [[]|e]; [|by destruct (failed_op root o l l' e Hinv Ho) as [->|(t & _ & _ & ->)]].
  destruct o; simpl in Ho.
  - by apply create_child_ok in Ho as (? & _ & _ & _ & _ & _ & _ & ->).
  - by apply close_child_ok in Ho as (? & ? & ? & _ & _ & _ & _ & _ & _ & ->).
  - apply reserve_ok in Ho as (lin & m & _ & _ & Hn & _ & _ & _ & _ & ->). simpl. split; [done|].
    intros r _ [x Hx]. rewrite lookup_insert_ne; [done|congruence].
  - destruct (charge_cases _ _ _ _ _ Ho) as [Hv [[Hin ->]|[Hn [rec Hr]]]]; [done|].
    pose proof (charge_run root reservation charge_id actual rec l Hinv Hv Hn Hr) as Hrun.
    destruct (usage_contains _ _); [|congruence]. destruct Hrun as (lin & m & _ & Hrun & _).
    rewrite Hrun in Ho. injection Ho as <-. simpl. split; [set_solver|].
    intros r Hne _. rewrite lookup_delete_ne; [done|congruence].
  - destruct (ll_reservations l !! reservation) as [rec|] eqn:Hr.
    + destruct (release_run root reservation rec l Hinv Hr) as (lin & m & _ & Hrun & _).
      rewrite Hrun in Ho. injection Ho as <-. simpl. split; [done|].
      intros r Hne _. rewrite lookup_delete_ne; [done|congruence].
    + unfold release, mbind, stm_bind, lift, read in Ho. rewrite Hr in Ho. by simplify_eq/=.
  - unfold enter_parallel in Ho. by run_inv Ho.
  - unfold leave_parallel in Ho. by run_inv Ho.
  - unfold next_loop_iteration in Ho. by run_inv Ho.
  - unfold advance_to in Ho. by run_inv Ho.
Qed.

Lemma op_inv root o l : ledger_inv root l → ledger_inv root (run_op o l).1.
Proof.
  intros Hinv. destruct (run_op o l) as [l' [[]|e]] eqn:Ho; simpl; [by eapply op_ok|].
  destruct (failed_op root o l l' e Hinv Ho) as [->|(t & _ & _ & ->)]; [done|].
  by eapply (same_books_inv root l (set_tick t l)).
Qed.

#[export, refine] Instance ledger_laws : BudgetLaws LimitLedger := {|
  bl_inv l := ∃ root, ledger_inv root l;
  bl_held := held;
  bl_charged := ll_charge_ids;
  bl_scopes l := dom (ll_scopes l);
  bl_call := ledger_op;
  bl_do o l := (run_op o l).1;
  bl_settles := op_settles
|}.
Proof.
  - intros l l' s r u e _. apply reserve_err.
  - intros l l' s r u [root Hinv] Hr. simpl in Hr. pose proof (reserve_inv _ _ _ _ _ _ Hinv Hr).
    apply reserve_ok in Hr as (lin & m & _ & _ & Hn & _ & _ & _ & _ & ->).
    unfold held. simpl. rewrite Hn, lookup_insert_eq. split_and!; eauto.
  - intros l l1 s r u [root Hinv]. by eapply reserve_release_identity.
  - intros l l' r c u e [root Hinv]. by eapply charge_err.
  - intros l l' r c u [root Hinv] Hc. destruct (charge_ok_facts _ _ _ _ _ _ Hinv Hc) as (? & ? & ? & ?).
    split_and!; eauto.
  - intros l l' s p b e _ Hc. simpl in Hc. unfold create_child in Hc. err_inv Hc; by simplify_eq/=.
  - intros l l' s p b [root Hinv] Hc. split; [exists root; by eapply create_child_inv|].
    apply create_child_ok in Hc as (parent & Hp & Hs & _ & _ & _ & _ & ->). simpl.
    rewrite not_elem_of_dom. split; [done|]. rewrite !dom_insert_L. apply elem_of_dom_2 in Hp. set_solver.
  - intros l l1 s p b [root Hinv]. by eapply create_close_identity.
  - intros l l' s e [root Hinv]. by eapply close_child_err.
  - intros l l' s [root Hinv] Hc. split; [exists root; by eapply close_child_inv|].
    apply close_child_ok in Hc as (scope & p & parent & Hs & _ & Hne & Hp & _ & _ & ->). simpl.
    split; [by eapply elem_of_dom_2|]. rewrite dom_insert_L, dom_delete_L. apply elem_of_dom_2 in Hp. set_solver.
  - intros l s [root Hinv]. by eapply close_child_total.
  - intros o l [root Hinv]. exists root. by apply op_inv.
  - intros o l [root Hinv]. destruct (run_op o l) as [l' r] eqn:Ho. by eapply op_books.
  - intros o l r x [root Hinv] Hx Hne. destruct (run_op o l) as [l' res] eqn:Ho. unfold held in *. simpl.
    destruct (op_books root o l l' res Hinv Ho) as [_ Hr]. rewrite Hr; [done..|].
    destruct (ll_reservations l !! r); [done|discriminate Hx].
Defined.

Lemma agent_stable_id_total `{Sha256Laws} m : ∃ i, agent_stable_id m = Ok i.
Proof.
  destruct (digest_id_total "agent." 48 (as_bytes m)) as [i Hi]; [done..|].
  exists i. unfold agent_stable_id. by rewrite Hi.
Qed.

Lemma stable_id_logical i : validate_logical_id (as_str i) = Ok ().
Proof.
  pose proof (as_str_valid i) as Hv%Is_true_true. unfold valid_stable_id in Hv.
  apply andb_true_iff in Hv as [[Hne Hlen]%andb_true_iff Hb]. unfold validate_logical_id.
  apply fail_if_ok, orb_false_iff. split; [apply orb_false_iff; split|].
  - by apply negb_true_iff.
  - apply N.ltb_ge. by apply N.leb_le.
  - apply negb_false_iff. eapply all_bytes_impl; [|exact Hb]. intros b.
    rewrite !orb_true_iff. tauto.
Qed.

(** ** Calls and runs *)

Section agent_runs.
Context {L : Type} `{BudgetLaws L} `{Sha256Laws, JsonPointer}.
Implicit Types (a : AgentLoopV1) (l : L) (s : AgentLoopV1 * L).

Inductive agent_call : Type :=
| AcPropose (context : json)
| AcSettle (outcome : CapabilityOutcomeV1) (actual : Usage)
| AcSettleRun (outcome : CapabilityOutcomeV1) (actual : Usage)
| AcCancel.

(** What a call answers: a proposal or a flag. *)
Definition agent_do (c : agent_call) : stm (AgentLoopV1 * L) AgentErrorV1
    (WorkerInvocationProposalV1 + bool) :=
  match c with
  | AcPropose context => p ← propose_model_turn context; mret (inl p)
  | AcSettle o u => b ← settle_committed_outcome o u; mret (inr b)
  | AcSettleRun o u => b ← settle_committed_run_outcome o u; mret (inr b)
  | AcCancel => b ← call first id agent_cancel; mret (inr b)
  end.

(** Runs of a loop on a ledger it shares.  Between two calls of the loop the
    other clients of the ledger make any calls, failing ones included.  The
    set collects the reservation ids that they tried to charge or release
    since the loop last proposed a turn: the ledger lets any client settle any
    reservation it can name. *)
Inductive agent_run (config : AgentLoopConfigV1) : gset string → AgentLoopV1 * L → Prop :=
| agent_new a l : AgentLoopV1_new config = Ok a → bl_inv l → agent_run config ∅ (a, l)
| agent_step named s c s' r :
    agent_run config named s → agent_do c s = (s', r) →
    agent_run config (match r with Ok (inl _) => ∅ | _ => named end) s'
| agent_others named a l (c : bl_call) :
    agent_run config named (a, l) →
    agent_run config (match bl_settles c with Some r => {[r]} ∪ named | None => named end) (a, bl_do c l).

Record agent_inv (config : AgentLoopConfigV1) (named : gset string) (s : AgentLoopV1 * L) : Prop := {
  ga_ledger : bl_inv s.2;
  ga_config : al_config s.1 = config;
  ga_accepted : is_ok (AgentLoopV1_new config) = true;
  ga_pending :
    (al_pending_invocation_id s.1 = None ∧ al_pending_reservation_id s.1 = None) ∨
    (∃ i, al_pending_invocation_id s.1 = Some i
       ∧ agent_stable_id (invocation_material config (al_next_turn s.1)) = Ok i
       ∧ al_pending_reservation_id s.1 = Some (reservation_id_of config (al_next_turn s.1))
       ∧ (reservation_id_of config (al_next_turn s.1) ∉ named →
          bl_held s.2 (reservation_id_of config (al_next_turn s.1))
          = Some (ac_scope_id config, resource_usage (ac_turn_reservation config)))
       ∧ al_cancelled s.1 = false);
  ga_turn : al_next_turn s.1 = N.min (bs_len (al_completed_outcome_ids s.1)) u32_max;
  ga_charged : al_completed_outcome_ids s.1 ⊆ bl_charged s.2;
  ga_ids : ∀ x, x ∈ al_completed_outcome_ids s.1 → is_Some (parse_opt x)
}.

Lemma agent_new_inv config a l :
  AgentLoopV1_new config = Ok a → bl_inv l → agent_inv config ∅ (a, l).
Proof.
  intros Ha Hl. pose proof Ha as Ha'. unfold AgentLoopV1_new in Ha. case_match; simplify_eq.
  split; simpl; try done; [by rewrite Ha'|by left].
Qed.

(** A successful proposal. *)
Lemma propose_ok context s s' p :
  propose_model_turn context s = (s', Ok p) →
  ∃ i t l1 v, al_cancelled s.1 = false ∧ al_pending_invocation_id s.1 = None
    ∧ agent_stable_id (invocation_material (al_config s.1) (al_next_turn s.1)) = Ok i
    ∧ agent_stable_id (attempt_material (al_config s.1) (al_next_turn s.1)) = Ok t
    ∧ project_context context (ac_context_pointers (al_config s.1)) = Ok v
    ∧ bo_reserve (ac_scope_id (al_config s.1)) (reservation_id_of (al_config s.1) (al_next_turn s.1))
        (resource_usage (ac_turn_reservation (al_config s.1))) s.2 = (l1, Ok ())
    ∧ s' = (al_set_pending (Some i) (Some (reservation_id_of (al_config s.1) (al_next_turn s.1))) s.1, l1)
    ∧ p = MkInvocation i (ac_node_id (al_config s.1)) t (ac_model_capability_ref (al_config s.1))
            (ac_authority_manifest_ref (al_config s.1)) (ac_budget_ref (al_config s.1))
            (turn_payload (al_config s.1) (al_next_turn s.1) v).
Proof.
  unfold propose_model_turn, self_is. intros Hp. run_inv Hp. call_inv. boolify.
  destruct (project_context _ _) as [v|e] eqn:Hv.
  - run_inv Hp4. destruct (al_pending_invocation_id s.1) eqn:Hi; [done|].
    units. do 4 eexists. split_and!; done.
  - apply bind_ok in Hp4 as (? & ? & _ & Hp4). discriminate Hp4.
Qed.

(** Every failure of a proposal leaves the loop and the ledger as they were:
    a failed projection gives its reservation back, and identifiers made from
    a digest are always valid. *)
Lemma propose_err context s s' e :
  bl_inv s.2 → propose_model_turn context s = (s', Err e) → s' = s.
Proof.
  intros Hinv. unfold propose_model_turn, self_is. intros Hp. err_inv Hp; call_inv; try done.
  - apply bl_reserve_err in Hp; [|done]. subst. by destruct s.
  - destruct (project_context _ _) as [v|e'] eqn:Hv; [discriminate Hp|].
    units.
    pose proof (bl_release _ _ _ _ _ Hinv Hp3) as Hrel.
    err_inv Hp; call_inv; [congruence|]. unfold throw in Hp. simplify_eq/=.
    units. rewrite Hrel in *. simplify_eq. by destruct s.
  - match goal with Hid : agent_stable_id ?m = Err _ |- _ =>
      destruct (agent_stable_id_total m) as [i Hi]; congruence end.
Qed.

(** The loop after settling its pending turn with [outcome]. *)
Definition settled (outcome : CapabilityOutcomeV1) (a : AgentLoopV1) : AgentLoopV1 :=
  MkAgentLoop (al_config a) (saturating_add u32_max (al_next_turn a) 1) None None
    ({[as_str (co_outcome_id outcome)]} ∪ al_completed_outcome_ids a)
    (al_cancelled a || ends_loop (co_class outcome)).

Lemma settle_reserved_ok outcome u s s' b :
  settle_reserved_outcome outcome u s = (s', Ok b) →
  ∃ r l1, al_pending_reservation_id s.1 = Some r
    ∧ bo_charge r (as_str (co_outcome_id outcome)) u s.2 = (l1, Ok ())
    ∧ s' = (settled outcome s.1, l1) ∧ b = true.
Proof.
  unfold settle_reserved_outcome, self_is. intros Hs. run_inv Hs. call_inv.
  units. do 2 eexists. split_and!; try done.
  unfold settled. destruct s as [[] l]; simpl in *. destruct (ends_loop _); simpl;
    rewrite ?orb_true_r, ?orb_false_r; done.
Qed.

Lemma settle_reserved_err outcome u s s' e :
  bl_inv s.2 → settle_reserved_outcome outcome u s = (s', Err e) → s' = s.
Proof.
  intros Hinv. unfold settle_reserved_outcome, self_is. intros Hs. err_inv Hs; call_inv; try done.
  apply bl_charge_err in Hs; [|done]. subst. by destruct s.
Qed.

(** Both settle methods: a duplicate is answered [false] and changes nothing;
    otherwise the outcome must be the pending one, and its usage is settled. *)
Lemma agent_settle_ok (run : bool) outcome u s s' b :
  (if run then settle_committed_run_outcome else settle_committed_outcome) outcome u s = (s', Ok b) →
  (b = false ∧ s' = s ∧ as_str (co_outcome_id outcome) ∈ al_completed_outcome_ids s.1) ∨
  (b = true ∧ as_str (co_outcome_id outcome) ∉ al_completed_outcome_ids s.1
   ∧ al_pending_invocation_id s.1 = Some (co_invocation_id outcome)
   ∧ ∃ r l1, al_pending_reservation_id s.1 = Some r
       ∧ bo_charge r (as_str (co_outcome_id outcome)) (resource_usage u) s.2 = (l1, Ok ())
       ∧ s' = (settled outcome s.1, l1)).
Proof.
  destruct run; unfold settle_committed_run_outcome, settle_committed_outcome,
    outcome_is_duplicate_or_matching; intros Hs.
  all: apply bind_ok in Hs as (? & ? & [= <- <-] & Hs); apply bind_ok in Hs as (? & ? & Hd & Hs).
  all: apply lift_ok in Hd as [Hd ->]; repeat case_match; boolify; simplify_eq; run_inv Hs; [by left|].
  all: match goal with Hr : settle_reserved_outcome _ _ _ = _ |- _ =>
    apply settle_reserved_ok in Hr as (r & l1 & ? & ? & -> & ->) end; right; eauto 10.
Qed.

Lemma settle_err (run : bool) outcome u s s' e :
  bl_inv s.2 →
  (if run then settle_committed_run_outcome else settle_committed_outcome) outcome u s = (s', Err e) → s' = s.
Proof.
  intros Hinv. destruct run; unfold settle_committed_run_outcome, settle_committed_outcome; intros Hs.
  all: apply bind_err in Hs as [[=]|(? & ? & [= <- <-] & Hs)].
  all: apply bind_err in Hs as [[_ ->]%lift_err|(? & ? & [_ ->]%lift_ok & Hs)]; [done|].
  all: case_match; err_inv Hs; simplify_eq; try done; by apply settle_reserved_err in Hs.
Qed.

Lemma settle_committed_eq outcome u a l l2 r :
  as_str (co_outcome_id outcome) ∉ al_completed_outcome_ids a →
  al_pending_invocation_id a = Some (co_invocation_id outcome) →
  al_pending_reservation_id a = Some r → us_turns u = 1 → us_attempts u = 1 →
  bo_charge r (as_str (co_outcome_id outcome)) (resource_usage u) l = (l2, Ok ()) →
  settle_committed_outcome outcome u (a, l) = ((settled outcome a, l2), Ok true).
Proof.
  intros Hn Hi Hr Ht Ha Hc.
  unfold settle_committed_outcome, settle_reserved_outcome, outcome_is_duplicate_or_matching, self_is,
    mbind, stm_bind, lift, read, reject_if, modify, call, mret, stm_ret. simpl.
  unfold bs_contains. rewrite bool_decide_false, bool_decide_true, Ht, Ha by done. simpl.
  rewrite Hr. simpl. rewrite Hc. unfold settled. destruct a. simpl in *.
  destruct (ends_loop _); simpl; by rewrite ?orb_true_r, ?orb_false_r.
Qed.

Lemma cancel_cases a a' r :
  agent_cancel a = (a', r) →
  (r = Ok false ∧ al_cancelled a = true ∧ a' = a)
  ∨ (r = Err AgInvocationPending ∧ is_Some (al_pending_invocation_id a) ∧ a' = a)
  ∨ (r = Ok true ∧ al_pending_invocation_id a = None ∧ a' = al_set_cancelled true a).
Proof.
  unfold agent_cancel, mbind, stm_bind, read, reject_if, fail_if. simpl.
  destruct (al_cancelled a) eqn:Hc, (al_pending_invocation_id a) eqn:Hp; simpl; intros [= <- <-]; eauto 8.
Qed.

(** ** The invariant *)

Lemma agent_propose_inv config named context s s' p :
  agent_inv config named s → propose_model_turn context s = (s', Ok p) → agent_inv config ∅ s'.
Proof.
  intros [Hl Hc Hacc Hpend Hturn Hch Hids] Hp.
  apply propose_ok in Hp as (i & t & l1 & v & Hcan & Hnone & Hi & _ & _ & Hr & -> & _).
  rewrite Hc in *. apply bl_reserve_ok in Hr as (Hl1 & _ & Hheld & Hch1); [|done].
  split; simpl; try done; [right; eauto 10|by rewrite Hch1].
Qed.

Lemma settled_inv config named outcome u r s l1 :
  agent_inv config named s → as_str (co_outcome_id outcome) ∉ al_completed_outcome_ids s.1 →
  bo_charge r (as_str (co_outcome_id outcome)) u s.2 = (l1, Ok ()) →
  agent_inv config named (settled outcome s.1, l1).
Proof.
  intros [Hl Hc Hacc Hpend Hturn Hch Hids] Hnew Hcharge.
  apply bl_charge_ok in Hcharge as (Hl1 & Hch1 & _); [|done].
  split; simpl; try done; [by left| | |].
  - rewrite Hturn. unfold bs_len, saturating_add. rewrite size_union, size_singleton by set_solver. lia.
  - rewrite Hch1. set_solver.
  - intros x [->%elem_of_singleton|Hx]%elem_of_union; [rewrite parse_opt_as_str; eauto|auto].
Qed.

(** A call is a method whose answer is tagged. *)
Lemma tagged_run {A} (m : stm (AgentLoopV1 * L) AgentErrorV1 A) (f : A → WorkerInvocationProposalV1 + bool)
    s s' r :
  (x ← m; mret (f x)) s = (s', r) → ∃ r0, m s = (s', r0) ∧ r = f <$> r0.
Proof.
  unfold mbind, stm_bind, mret, stm_ret. destruct (m s) as [s1 [x|e]]; intros [= <- <-]; eauto.
Qed.

Lemma agent_settle_inv (run : bool) config named outcome u s s' b :
  agent_inv config named s →
  (if run then settle_committed_run_outcome else settle_committed_outcome) outcome u s = (s', Ok b) →
  agent_inv config named s'.
Proof.
  intros Hinv Hs. apply agent_settle_ok in Hs as [(_ & -> & _)|(_ & Hn & _ & r & l1 & _ & Hc & ->)]; [done|].
  by eapply settled_inv.
Qed.

Lemma agent_cancel_inv config named a a' l r :
  agent_inv config named (a, l) → agent_cancel a = (a', r) → agent_inv config named (a', l).
Proof.
  intros Hinv Hc. apply cancel_cases in Hc as [(-> & _ & ->)|[(-> & _ & ->)|(-> & Hn & ->)]]; [done..|].
  destruct Hinv as [? ? ? [[? ?]|(? & Hp & _)] ? ? ?]; simpl in *; [|congruence]. split; simpl; auto.
Qed.

Lemma agent_do_err c s s' e : bl_inv s.2 → agent_do c s = (s', Err e) → s' = s.
Proof.
  intros Hl. destruct c; simpl; intros ([a|e0] & Hd & [=])%tagged_run.
  - by apply propose_err in Hd.
  - by apply (settle_err false) in Hd.
  - by apply (settle_err true) in Hd.
  - call_inv. apply cancel_cases in Hd as [([=] & _)|[(_ & _ & ->)|([=] & _)]]. by destruct s.
Qed.

Lemma agent_do_inv config named c s s' r :
  agent_inv config named s → agent_do c s = (s', r) →
  agent_inv config (match r with Ok (inl _) => ∅ | _ => named end) s'.
Proof.
  intros Hinv. destruct r as [x|e]; [|by intros ->%agent_do_err; [|apply Hinv]].
  destruct c; simpl; intros ([b|e0] & Hd & [= ->])%tagged_run.
  - by eapply agent_propose_inv.
  - by eapply (agent_settle_inv false).
  - by eapply (agent_settle_inv true).
  - call_inv. destruct s. by eapply agent_cancel_inv.
Qed.

Lemma agent_others_inv config named a l (c : bl_call) :
  agent_inv config named (a, l) →
  agent_inv config (match bl_settles c with Some r => {[r]} ∪ named | None => named end) (a, bl_do c l).
Proof.
  intros [Hl Hc Hacc Hp Hturn Hch Hids]. simpl in *. split; simpl; try done;
    [by apply bl_do_inv| |by etransitivity; [|apply bl_do_charged]].
  destruct Hp as [?|(i & ? & ? & ? & Hh & ?)]; [by left|]. right. exists i. split_and!; try done.
  intros Hn. apply bl_do_held; [done| |intros Heq; rewrite Heq in Hn; set_solver].
  apply Hh. destruct (bl_settles c); set_solver.
Qed.

Lemma agent_run_inv config named s : agent_run config named s → agent_inv config named s.
Proof.
  induction 1 as [a l Ha Hl|named s c s' r _ IH Hd|named a l c _ IH];
    [by apply agent_new_inv|by eapply agent_do_inv|by apply agent_others_inv].
Qed.

(** C34: Every reachable loop satisfies its invariant, whatever calls the other
    clients of the ledger make between its own.  At most one turn is in flight,
    and then the loop is not cancelled and the ledger holds exactly the frozen
    token and cost reservation for it, in the loop's scope and under the id of
    that turn, unless another client has named that very id in a [charge] or a
    [release] since the turn was proposed, which the ledger does not prevent;
    no other call can touch it.  The turn counter counts the settled outcomes
    (saturating at [u32::MAX]), and every settled outcome has been charged. *)
Theorem agent_run_invariant config named a l :
  agent_run config named (a, l) →
  al_config a = config
  ∧ (is_some (al_pending_invocation_id a) = is_some (al_pending_reservation_id a))
  ∧ (∀ r, al_pending_reservation_id a = Some r →
      r = reservation_id_of config (al_next_turn a) ∧ al_cancelled a = false
      ∧ (r ∈ named ∨ bl_held l r = Some (ac_scope_id config, resource_usage (ac_turn_reservation config))))
  ∧ al_next_turn a = N.min (bs_len (al_completed_outcome_ids a)) u32_max
  ∧ al_completed_outcome_ids a ⊆ bl_charged l.
Proof.
  intros [? ? ? Hp ? ? ?]%agent_run_inv. simpl in *.
  split_and!; [done| | |done|done]; destruct Hp as [[Hi Hr]|(i & Hi & _ & Hr & Hh & ?)]; rewrite ?Hi, ?Hr; try done.
  intros r [= <-]. split_and!; [done|done|]. destruct (decide (reservation_id_of config (al_next_turn a) ∈ named)); auto.
Qed.

(** A call of the agent loop that fails, at any point, leaves the loop and
    the shared ledger exactly as they were: in particular a proposal whose
    context projection fails gives its reservation back. *)
Theorem agent_call_atomic config named s c s' e :
  agent_run config named s → agent_do c s = (s', Err e) → s' = s.
Proof. intros Hr%agent_run_inv. apply agent_do_err, Hr. Qed.

(** The checkpoint of a reachable loop restores to the same loop, pending
    turn included, as long as the turn counter has not saturated. *)
Theorem agent_checkpoint_roundtrip config named a l :
  agent_run config named (a, l) → bs_len (al_completed_outcome_ids a) ≤ u32_max →
  agent_restore (agent_checkpoint a) = Ok a.
Proof.
  intros [_ Hc Hacc Hp Ht _ Hids]%agent_run_inv Hle. simpl in *.
  unfold agent_restore, agent_checkpoint. simpl.
  rewrite parsed_ids, length_parsed_ids, list_to_set_bt_elems, Ht, N.min_l, !N.eqb_refl by done.
  assert (is_some (al_pending_invocation_id a) = is_some (al_pending_reservation_id a)) as ->
    by (destruct Hp as [[-> ->]|(i & -> & _ & -> & _)]; done).
  rewrite eqb_reflx, Hc. simpl. unfold AgentLoopV1_new in *. case_match; [done|]. simpl.
  destruct a; simpl in *. subst. by rewrite N.min_l.
Qed.
End agent_runs.

(** ** The cost of a turn *)

Section turn_cost.
Context `{Sha256Laws, JsonPointer}.

(** One turn over the ledger: once a proposal is out, the committed outcome
    of that invocation settles it, and then every scope from the loop's own
    to the root has lost exactly the tokens and the cost of the outcome,
    nothing of the other dimensions and nothing more; the ledger's
    reservations are those from before the turn, and delivering the outcome
    again is answered [false] without any effect. *)
Theorem agent_turn_cost root config named a l context s1 p outcome u :
  ledger_inv root l → agent_run config named (a, l) →
  propose_model_turn context (a, l) = (s1, Ok p) →
  co_invocation_id outcome = ip_invocation_id p →
  as_str (co_outcome_id outcome) ∉ ll_charge_ids l →
  us_turns u = 1 → us_attempts u = 1 →
  us_tokens u ≤ us_tokens (ac_turn_reservation config) →
  us_cost_micros u ≤ us_cost_micros (ac_turn_reservation config) →
  ∃ l2 lin, settle_committed_outcome outcome u s1 = ((settled outcome a, l2), Ok true)
    ∧ is_lineage (ll_scopes l) (ac_scope_id config) lin
    ∧ ll_reservations l2 = ll_reservations l
    ∧ (∀ i, i ∉ lin → ll_scopes l2 !! i = ll_scopes l !! i)
    ∧ (∀ i, i ∈ lin → ∃ sc sc', ll_scopes l !! i = Some sc ∧ ll_scopes l2 !! i = Some sc'
         ∧ shape sc' = shape sc
         ∧ ∀ d, b_get d (bs_remaining sc) = b_get d (bs_remaining sc')
             + match d with Tokens => us_tokens u | CostMicros => us_cost_micros u | _ => 0 end)
    ∧ ∀ u', settle_committed_outcome outcome u' (settled outcome a, l2) = ((settled outcome a, l2), Ok false).
Proof.
  intros Hinv Hrun Hp Hi Hnew Ht Ha Htok Hcost.
  destruct (agent_run_inv _ _ _ Hrun) as [_ Hc _ _ _ Hch _]. simpl in *.
  apply propose_ok in Hp as (i & t & l1 & v & Hcan & Hnone & Hid & _ & _ & Hr & -> & ->). simpl in *.
  rewrite Hc in *.
  destruct (reserve_charge_exact root _ _ (as_str (co_outcome_id outcome)) _ (resource_usage u) _ _ Hinv Hr)
    as (l2 & lin & Hcharge & Hlin & Hres & Hout & Hinl & _); [apply stable_id_logical|done| |].
  { apply usage_contains_iff. intros []; simpl; lia. }
  exists l2, lin. split_and!; try done.
  - rewrite (settle_committed_eq _ _ _ _ l2 (reservation_id_of config (al_next_turn a))); try done.
    + simpl. set_solver.
    + simpl. by rewrite Hi.
  - intros u'. unfold settle_committed_outcome, outcome_is_duplicate_or_matching, mbind, stm_bind, lift, read.
    simpl. unfold bs_contains. rewrite bool_decide_true by set_solver. done.
Qed.
End turn_cost.

(** ** A loop over the demonstration ledger *)

Module DemoAgent.
Import (hints) Demo.
(** Pointers of one segment. *)
#[export] Instance pointer : JsonPointer := λ v p,
  match strip_prefix "/" p with Some key => value_get key v | None => None end.
Definition config : AgentLoopConfigV1 :=
  MkAgentConfig id:"loop" id:"node" id:"model" id:"authority" id:"budget" "child" None
    (MkUsage 9 9 9 4 3 9) ["/goal"] [id:"tool"].
Definition fresh : AgentLoopV1 := MkAgentLoop config 0 None None ∅ false.
Definition context : json := JObject [("goal", JString "g"); ("secret", JNull)].
Definition outcome (i : StableId) : CapabilityOutcomeV1 :=
  MkOutcome id:"outcome" i CoSuccess false JNull None.
(** The loop with one turn proposed. *)
Definition proposed : AgentLoopV1 * LimitLedger :=
  (propose_model_turn context (fresh, DemoLedger.ledger)).1.
Lemma fresh_run : agent_run config ∅ (fresh, DemoLedger.ledger).
Proof. apply agent_new; [reflexivity|]. exists "run". by apply DemoLedger.inv. Qed.
Lemma proposed_run : agent_run config ∅ proposed.
Proof.
  assert (is_ok (propose_model_turn context (fresh, DemoLedger.ledger)).2 = true) as Hok by (vm_compute; reflexivity).
  unfold proposed. destruct (propose_model_turn context (fresh, DemoLedger.ledger)) as [s [p|e]] eqn:Hp; [|discriminate Hok].
  exact (agent_step config ∅ _ (AcPropose context) s (Ok (inl p)) fresh_run
    ltac:(unfold agent_do, mbind, stm_bind; by rewrite Hp)).
Qed.
(** Another client reserves in the same scope and gives it back. *)
Definition crowded : LimitLedger :=
  bl_do (OpRelease "other") (bl_do (OpReserve "child" "other" (MkUsage 0 0 0 1 0 0)) proposed.2).
Lemma crowded_run : agent_run config ({["other"]} ∪ ∅) (proposed.1, crowded).
Proof.
  pose proof proposed_run as Hrun. rewrite (surjective_pairing proposed) in Hrun.
  exact (agent_others config _ _ _ (OpRelease "other")
    (agent_others config _ _ _ (OpReserve "child" "other" (MkUsage 0 0 0 1 0 0)) Hrun)).
Qed.
End DemoAgent.

Section agent_witnesses.
Import (hints) Demo DemoAgent.
Import DemoAgent.

Lemma agent_run_invariant_witness :
  al_pending_reservation_id proposed.1 = Some "agent.loop.0"
  ∧ bl_held crowded "agent.loop.0" = Some ("child", MkUsage 0 0 0 4 3 0).
Proof.
  assert (al_pending_reservation_id proposed.1 = Some "agent.loop.0") as Hr by (vm_compute; reflexivity).
  split; [exact Hr|].
  destruct (agent_run_invariant config _ proposed.1 crowded crowded_run) as (_ & _ & Hp & _).
  destruct (Hp _ Hr) as (_ & _ & [Hin|Hheld]); [|exact Hheld]. exfalso.
  apply elem_of_union in Hin as [Hin|Hin]; [apply elem_of_singleton in Hin; discriminate Hin|].
  by apply not_elem_of_empty in Hin.
Defined.

Lemma agent_call_atomic_witness :
  (agent_do (AcPropose (JObject [])) (fresh, DemoLedger.ledger)).1 = (fresh, DemoLedger.ledger)
  ∧ (agent_do (AcPropose (JObject [])) (fresh, DemoLedger.ledger)).2 = Err AgContextProjection.
Proof.
  assert ((agent_do (AcPropose (JObject [])) (fresh, DemoLedger.ledger)).2 = Err AgContextProjection) as He
    by (vm_compute; reflexivity).
  split; [|exact He]. eapply (agent_call_atomic config ∅ _ (AcPropose (JObject [])) _ AgContextProjection fresh_run).
  rewrite <-He. apply surjective_pairing.
Defined.

Lemma agent_checkpoint_roundtrip_witness :
  agent_restore (agent_checkpoint proposed.1) = Ok proposed.1
  ∧ is_some (ak_pending_invocation_id (agent_checkpoint proposed.1)) = true.
Proof.
  split; [|vm_compute; reflexivity].
  pose proof proposed_run as Hrun. rewrite (surjective_pairing proposed) in Hrun.
  apply (agent_checkpoint_roundtrip config ∅ proposed.1 proposed.2 Hrun). vm_compute. discriminate.
Defined.

Lemma agent_turn_cost_witness : ∃ p l2,
  propose_model_turn context (fresh, DemoLedger.ledger) = (proposed, Ok p)
  ∧ settle_committed_outcome (outcome (ip_invocation_id p)) (MkUsage 1 1 0 2 1 0) proposed
    = ((settled (outcome (ip_invocation_id p)) fresh, l2), Ok true)
  ∧ ll_reservations l2 = ll_reservations DemoLedger.ledger.
Proof.
  destruct (propose_model_turn context (fresh, DemoLedger.ledger)) as [s1 [p|e]] eqn:Hp.
  - destruct (agent_turn_cost "run" config ∅ fresh DemoLedger.ledger context s1 p
      (outcome (ip_invocation_id p)) (MkUsage 1 1 0 2 1 0)) as (l2 & lin & Hs & _ & Hr & _).
    + by apply DemoLedger.inv.
    + exact fresh_run.
    + exact Hp.
    + reflexivity.
    + apply (bool_decide_eq_false_1 (as_str id:"outcome" ∈ ll_charge_ids DemoLedger.ledger)). vm_compute. reflexivity.
    + reflexivity.
    + reflexivity.
    + vm_compute. discriminate.
    + vm_compute. discriminate.
    + exists p, l2. unfold proposed. rewrite Hp. split_and!; [reflexivity|exact Hs|exact Hr].
  - vm_compute in Hp. discriminate Hp.
Defined.
End agent_witnesses.
