(* ===== verification/SubagentProofs.v ===== *)
(** * Child agents: atomic calls, lifecycle, budget scopes, checkpoints *)
From S2P Require Export AgentProofs.

(** ** Failed context operations change nothing *)

Section context_errors.
Context `{Sha256, !Serialize json, !Serialize (list N * json * ContextProvenance)}.

Lemma spawn_child_err c c' spec (e : ContextError) : spawn_child spec c = (c', Err e) → c' = c.
Proof.
  unfold spawn_child. intros Hs. err_inv Hs; try done.
  match goal with Ha : append_with_provenance _ _ _ _ _ = _ |- _ => by apply append_err in Ha end.
Qed.

Lemma integrate_child_err c c' k ch ph v how (e : ContextError) :
  integrate_child k ch ph v how c = (c', Err e) → c' = c.
Proof.
  unfold integrate_child. intros Hs. err_inv Hs; try done.
  match goal with Ha : append_with_provenance _ _ _ _ _ = _ |- _ => by apply append_err in Ha end.
Qed.
End context_errors.

Section subagent_runs.
Context {L : Type} `{BudgetLaws L}.
Context `{Sha256, !Serialize json, !Serialize (list N * json * ContextProvenance)}.
Implicit Types (s : sub_state L) (f : ChildFrameV1).

Inductive sub_call : Type :=
| SbSpawn (child_id : StableId) (parent_scope : string) (budget : BudgetEnvelope) (spec : ChildContextSpec)
| SbComplete (child_id : StableId) (head : N) (result : json)
| SbIntegrate (child_id : StableId) (parent_head : N) (how : ChildIntegration)
| SbCancel (child_id : StableId).
Definition sub_do (c : sub_call) : stm (sub_state L) SubagentErrorV1 () :=
  match c with
  | SbSpawn i p b spec => _ ← subagent_spawn i p b spec; mret ()
  | SbComplete i h v => subagent_complete i h v
  | SbIntegrate i h how => _ ← subagent_integrate_v1 i h how; mret ()
  | SbCancel i => _ ← subagent_cancel i; mret ()
  end.

Lemma forget_run {A} (m : stm (sub_state L) SubagentErrorV1 A) s s' r :
  (_ ← m; mret ()) s = (s', r) → ∃ r0, m s = (s', r0) ∧ is_err r0 = is_err r.
Proof. unfold mbind, stm_bind, mret, stm_ret. destruct (m s) as [s1 [x|e]]; intros [= <- <-]; eauto. Qed.

(** ** What a call does *)

Lemma spawn_ok i p b spec s s' f :
  subagent_spawn i p b spec s = (s', Ok f) →
  ∃ l1 c1 root, sm_children (ss_manager s) !! as_str i = None ∧ cs_child_id spec = as_str i
    ∧ bo_create_child (child_scope_id i) p b (ss_limits s) = (l1, Ok ())
    ∧ spawn_child spec (ss_context s) = (c1, Ok root)
    ∧ f = MkChildFrame i (cs_parent_revision spec) root root (child_scope_id i) CsRunning None
    ∧ s' = MkSub (sm_insert (as_str i) f (ss_manager s)) c1 l1.
Proof.
  unfold subagent_spawn, put_child. intros Hs. run_inv Hs. call_inv. boolify.
  units. match goal with Hm : match ?o with Ok _ => _ | Err _ => _ end _ = _ |- _ => destruct o as [root|e] end.
  - run_inv Hs3. do 3 eexists. split_and!; done.
  - apply bind_ok in Hs3 as (? & ? & _ & Hs3). discriminate Hs3.
Qed.

Lemma spawn_err i p b spec s s' e :
  bl_inv (ss_limits s) → subagent_spawn i p b spec s = (s', Err e) → s' = s.
Proof.
  intros Hinv. unfold subagent_spawn, put_child. intros Hs. err_inv Hs; call_inv; units; try done.
  - apply bl_create_err in Hs; [|done]. subst. by destruct s.
  - match goal with Hm : match ?o with Ok _ => _ | Err _ => _ end _ = _ |- _ => destruct o as [root|e0] end;
      [discriminate Hs|].
    match goal with Hc : spawn_child _ _ = _ |- _ => apply spawn_child_err in Hc; subst end.
    match goal with Hc : bo_create_child _ _ _ _ = _ |- _ => pose proof (bl_create_close _ _ _ _ _ Hinv Hc) as Hcl end.
    err_inv Hs; call_inv; units; [congruence|]. unfold throw in Hs. rewrite Hcl in *. simplify_eq/=. by destruct s.
Qed.

Lemma complete_ok i h v s s' :
  subagent_complete i h v s = (s', Ok ()) →
  ∃ f, sm_children (ss_manager s) !! as_str i = Some f ∧ cf_state f = CsRunning
    ∧ s' = MkSub (sm_insert (as_str i) (cf_completed h v f) (ss_manager s)) (ss_context s) (ss_limits s).
Proof.
  unfold subagent_complete, get_child, put_child. intros Hs. run_inv Hs. boolify. eauto.
Qed.

Lemma subagent_integrate_ok i h how s s' rev :
  subagent_integrate_v1 i h how s = (s', Ok rev) →
  ∃ f v c1 l1, sm_children (ss_manager s) !! as_str i = Some f ∧ cf_state f = CsCompleted
    ∧ cf_result f = Some v
    ∧ integrate_child (as_str i) (cf_child_head_revision f) h v how (ss_context s) = (c1, Ok rev)
    ∧ bo_close_child (cf_scope_id f) (ss_limits s) = (l1, Ok ())
    ∧ s' = MkSub (sm_insert (as_str i) (cf_set_state CsIntegrated f) (ss_manager s)) c1 l1.
Proof.
  unfold subagent_integrate_v1, get_child, put_child. intros Hs. run_inv Hs. call_inv. boolify. units. eauto 15.
Qed.

Lemma cancel_ok i s s' b :
  subagent_cancel i s = (s', Ok b) →
  ∃ f, sm_children (ss_manager s) !! as_str i = Some f ∧
    if b then
      (cf_state f = CsRunning ∨ cf_state f = CsCompleted) ∧
      ∃ l1, bo_close_child (cf_scope_id f) (ss_limits s) = (l1, Ok ())
        ∧ s' = MkSub (sm_insert (as_str i) (cf_set_state CsCancelled f) (ss_manager s)) (ss_context s) l1
    else (cf_state f = CsIntegrated ∨ cf_state f = CsCancelled) ∧ s' = s.
Proof.
  unfold subagent_cancel, get_child, put_child. intros Hs. apply bind_ok in Hs as (? & f & Hg & Hs). run_inv Hg.
  exists f. split; [done|]. destruct (cf_state f) eqn:Hf; simpl in Hs; run_inv Hs; call_inv; units; eauto 6.
Qed.

(** ** Failed calls *)

Lemma sub_do_err c s s' e : bl_inv (ss_limits s) → sub_do c s = (s', Err e) → s' = s.
Proof.
  intros Hinv. destruct c; simpl.
  - intros ([f|e0] & Hd & [=])%forget_run. by eapply spawn_err.
  - unfold subagent_complete, get_child, put_child. intros Hd. by err_inv Hd.
  - intros ([f|e0] & Hd & [=])%forget_run. unfold subagent_integrate_v1, get_child, put_child in Hd.
    err_inv Hd; call_inv; units; try done.
    + match goal with Hc : integrate_child _ _ _ _ _ _ = _ |- _ => apply integrate_child_err in Hc; subst end.
      by destruct s.
    + match goal with Hc : bo_can_close_child _ _ = Ok _ |- _ => apply bl_can_close in Hc as [l1 Hc]; [|done] end.
      congruence.
  - intros ([f|e0] & Hd & [=])%forget_run. unfold subagent_cancel, get_child, put_child in Hd.
    apply bind_err in Hd as [Hd|(? & f & Hg & Hd)]; [by err_inv Hd|]. run_inv Hg.
    case_match; [discriminate Hd|]. err_inv Hd; call_inv. apply bl_close_err in Hd; [|done]. subst. by destruct s.
Qed.

(** ** Runs *)

(** A child whose budget scope is open. *)
Definition child_open (f : ChildFrameV1) : bool :=
  match cf_state f with CsRunning | CsCompleted => true | _ => false end.
(** An integrated or cancelled child. *)
Definition child_final (f : ChildFrameV1) : bool := negb (child_open f).

Record frame_ok (k : string) (f : ChildFrameV1) : Prop := {
  fo_key : k = as_str (cf_child_id f);
  fo_parent : cf_parent_revision f ≠ 0;
  fo_root : cf_child_root_revision f ≠ 0;
  fo_scope : cf_scope_id f = child_scope_id (cf_child_id f);
  fo_result : valid_result f = true
}.

Record sub_inv (s : sub_state L) : Prop := {
  sb_ledger : bl_inv (ss_limits s);
  sb_context : context_inv (ss_context s);
  sb_frame : ∀ k f, sm_children (ss_manager s) !! k = Some f → frame_ok k f;
  sb_scope : ∀ k f, sm_children (ss_manager s) !! k = Some f →
    bool_decide (cf_scope_id f ∈ bl_scopes (ss_limits s)) = child_open f
}.

(** Between two calls the run's other parts may use the same context store
    and ledger, as long as both stay well formed and the children's scopes
    are left to the manager. *)
Definition sub_others (s s' : sub_state L) : Prop :=
  ss_manager s' = ss_manager s ∧ context_inv (ss_context s') ∧ bl_inv (ss_limits s')
  ∧ ∀ k f, sm_children (ss_manager s) !! k = Some f →
      (cf_scope_id f ∈ bl_scopes (ss_limits s') ↔ cf_scope_id f ∈ bl_scopes (ss_limits s)).

Inductive sub_run : sub_state L → sub_state L → Prop :=
| sub_here s : sub_run s s
| sub_call_step s s1 c s' r : sub_run s s1 → sub_do c s1 = (s', r) → sub_run s s'
| sub_other_step s s1 s' : sub_run s s1 → sub_others s1 s' → sub_run s s'.

Lemma child_scope_inj i j : child_scope_id i = child_scope_id j → i = j.
Proof. unfold child_scope_id. intros Heq%str_app_inj. by apply as_str_inj. Qed.

(** Replacing one child's frame while its scope is opened or closed. *)
Lemma put_frame_inv s i f m c l :
  sub_inv s → frame_ok (as_str i) f → context_inv c → bl_inv l →
  bool_decide (cf_scope_id f ∈ bl_scopes l) = child_open f →
  (∀ x, x ≠ child_scope_id i → x ∈ bl_scopes l ↔ x ∈ bl_scopes (ss_limits s)) →
  m = sm_insert (as_str i) f (ss_manager s) → sub_inv (MkSub m c l).
Proof.
  intros [Hl Hc Hf Hs] Hok Hc' Hl' Hopen Hother ->. split; simpl; try done.
  - intros k g [[<- <-]|[_ Hk]]%lookup_insert_Some; [done|]. auto.
  - intros k g [[<- <-]|[Hne Hk]]%lookup_insert_Some; [done|]. rewrite <-(Hs k g Hk).
    apply bool_decide_ext, Hother. destruct (Hf k g Hk) as [-> _ _ -> _].
    intros Heq%child_scope_inj. congruence.
Qed.

Lemma spawn_inv i p b spec s s' f :
  sub_inv s → subagent_spawn i p b spec s = (s', Ok f) → sub_inv s'.
Proof.
  intros Hinv Hs. apply spawn_ok in Hs as (l1 & c1 & root & Hnew & Hid & Hcr & Hsp & -> & ->).
  destruct (spawn_child_preserves _ _ _ _ (sb_context _ Hinv) Hsp) as [Hc1 _].
  apply bl_create_ok in Hcr as (Hl1 & Hns & Hsc); [|apply Hinv].
  apply spawn_child_ok in Hsp as (c2 & v & Ha & _ & _).
  apply append_ok in Ha as (lin & _ & _ & Hall & _ & _ & -> & _).
  destruct (Hall (cs_parent_revision spec)) as [r Hr]; [by left|].
  destruct (xi_revision _ (sb_context _ Hinv) _ _ Hr) as (? & ? & ? & _).
  eapply put_frame_inv; try done.
  - split; simpl; try done; lia.
  - simpl. rewrite Hsc. apply bool_decide_eq_true. set_solver.
  - intros x Hx. rewrite Hsc. set_solver.
Qed.

Lemma close_scopes l l' i :
  bl_inv l → bo_close_child (child_scope_id i) l = (l', Ok ()) →
  bl_inv l' ∧ child_scope_id i ∉ bl_scopes l'
  ∧ ∀ x, x ≠ child_scope_id i → x ∈ bl_scopes l' ↔ x ∈ bl_scopes l.
Proof. intros Hl Hc. apply bl_close_ok in Hc as (? & _ & ->); [|done]. split_and!; [done|set_solver..]. Qed.

Lemma closed_inv s i f c l st :
  sub_inv s → sm_children (ss_manager s) !! as_str i = Some f →
  bo_close_child (cf_scope_id f) (ss_limits s) = (l, Ok ()) → context_inv c →
  child_open (cf_set_state st f) = false → valid_result (cf_set_state st f) = true →
  sub_inv (MkSub (sm_insert (as_str i) (cf_set_state st f) (ss_manager s)) c l).
Proof.
  intros Hinv Hf Hcl Hc Hopen Hv. pose proof (sb_frame _ Hinv _ _ Hf) as [Hk ? ? Hs ?].
  apply as_str_inj in Hk as Hi. rewrite <-Hi in Hs. rewrite Hs in Hcl.
  apply close_scopes in Hcl as (Hl & Hn & Hother); [|apply Hinv].
  eapply put_frame_inv; try done; [split; simpl; by rewrite <-?Hi|].
  rewrite Hopen. apply bool_decide_eq_false. simpl. by rewrite Hs.
Qed.

Lemma sub_do_inv c s s' r : sub_inv s → sub_do c s = (s', r) → sub_inv s'.
Proof.
  intros Hinv. destruct r as [[]|e]; [|by intros ->%sub_do_err; [|apply Hinv]].
  destruct c; simpl; intros Hd.
  - apply forget_run in Hd as ([f|e0] & Hd & [=]). by eapply spawn_inv.
  - apply complete_ok in Hd as (f & Hf & Hst & ->).
    pose proof (sb_frame _ Hinv _ _ Hf) as [? ? ? ? ?]. pose proof (sb_scope _ Hinv _ _ Hf) as Hopen.
    unfold child_open in Hopen. rewrite Hst in Hopen.
    apply (put_frame_inv s child_id (cf_completed head result f));
      [exact Hinv|by split|apply Hinv|apply Hinv|exact Hopen|done|done].
  - apply forget_run in Hd as ([f|e0] & Hd & [=]).
    apply subagent_integrate_ok in Hd as (f1 & v & c1 & l1 & Hf & Hst & Hv & Hi & Hcl & ->).
    destruct (integrate_child_preserves _ _ _ _ _ _ _ _ (sb_context _ Hinv) Hi) as [Hc1 _].
    eapply closed_inv; try done. unfold valid_result. simpl. by rewrite Hv.
  - apply forget_run in Hd as ([b|e0] & Hd & [=]).
    apply cancel_ok in Hd as (f & Hf & Hd). destruct b; [|by destruct Hd as [_ ->]].
    destruct Hd as (_ & l1 & Hcl & ->). eapply closed_inv; try done. apply Hinv.
Qed.

Lemma sub_run_inv s s' : sub_inv s → sub_run s s' → sub_inv s'.
Proof.
  intros Hinv. induction 1 as [s|s s1 c s' r _ IH Hd|s s1 s' _ IH (Hm & Hc & Hl & Hs)]; [done|..].
  - eapply sub_do_inv; [by apply IH|exact Hd].
  - destruct (IH Hinv) as [_ _ Hf Hsc]. split; try done; rewrite Hm; [done|].
    intros k f Hk. rewrite <-(Hsc k f Hk). by apply bool_decide_ext, (Hs k).
Qed.

(** Integrated and cancelled children never change again, and no child is
    forgotten. *)
Lemma sub_do_final c s s' r k f :
  sub_inv s → sub_do c s = (s', r) → sm_children (ss_manager s) !! k = Some f →
  child_final f = true → sm_children (ss_manager s') !! k = Some f.
Proof.
  intros Hinv. destruct r as [[]|e]; [|by intros ->%sub_do_err; [|apply Hinv]].
  assert (∀ i g m, (∀ f, sm_children m !! as_str i = Some f → child_final f = true → False) →
    sm_children m !! k = Some f → child_final f = true → sm_children (sm_insert (as_str i) g m) !! k = Some f) as Hput.
  { intros i g m Hi Hk Hf. simpl. rewrite lookup_insert_ne; [done|]. intros <-. eauto. }
  unfold child_final, child_open in *. destruct c; simpl; intros Hd.
  - apply forget_run in Hd as ([g|e0] & Hd & [=]).
    apply spawn_ok in Hd as (l1 & c1 & root & Hnew & _ & _ & _ & _ & ->). apply Hput. congruence.
  - apply complete_ok in Hd as (g & Hg & Hst & ->). apply Hput. intros ? ?. simplify_eq. by rewrite Hst.
  - apply forget_run in Hd as ([g|e0] & Hd & [=]).
    apply subagent_integrate_ok in Hd as (g1 & v & c1 & l1 & Hg & Hst & _ & _ & _ & ->).
    apply Hput. intros ? ?. simplify_eq. by rewrite Hst.
  - apply forget_run in Hd as ([b|e0] & Hd & [=]). apply cancel_ok in Hd as (g & Hg & Hd).
    destruct b; [|by destruct Hd as [_ ->]]. destruct Hd as (Hst & l1 & _ & ->).
    apply Hput. intros ? ?. simplify_eq. by destruct Hst as [-> | ->].
Qed.

Lemma sub_run_final s s' k f :
  sub_inv s → sub_run s s' → sm_children (ss_manager s) !! k = Some f →
  child_final f = true → sm_children (ss_manager s') !! k = Some f.
Proof.
  intros Hinv. induction 1 as [s|s s1 c s' r Hrun IH Hd|s s1 s' Hrun IH (-> & _)]; intros Hk Hf; auto.
  eapply sub_do_final; [by eapply sub_run_inv|exact Hd|auto|done].
Qed.

Lemma sub_new_inv c l : context_inv c → bl_inv l → sub_inv (MkSub SubagentManagerV1_new c l).
Proof. intros Hc Hl. split; simpl; try done. all: intros k f Hk; by rewrite lookup_empty in Hk. Qed.

(** ** Theorems *)

(** A call of the subagent manager that fails leaves the manager, the context
    store and the ledger exactly as they were: when the context refuses the
    child, the budget scope opened for it is closed again, and an integration
    is only written once its scope is known to close. *)
Theorem subagent_call_atomic c s s' e :
  sub_inv s → sub_do c s = (s', Err e) → s' = s.
Proof. intros Hinv. apply sub_do_err, Hinv. Qed.

(** Along every run, also when other parts use the context store and the
    ledger in between, every child is filed under its own id and scope, has a
    result exactly when its state requires one, and its budget scope is open
    exactly while it is running or completed: no scope is leaked by a child
    that was integrated or cancelled, and none is closed early. *)
Theorem subagent_scopes_match c l s k f :
  context_inv c → bl_inv l → sub_run (MkSub SubagentManagerV1_new c l) s →
  sm_children (ss_manager s) !! k = Some f →
  k = as_str (cf_child_id f) ∧ cf_scope_id f = child_scope_id (cf_child_id f)
  ∧ valid_result f = true
  ∧ (cf_scope_id f ∈ bl_scopes (ss_limits s) ↔ cf_state f = CsRunning ∨ cf_state f = CsCompleted).
Proof.
  intros Hc Hl Hrun Hk.
  destruct (sub_run_inv _ _ (sub_new_inv c l Hc Hl) Hrun) as [_ _ Hf Hs].
  destruct (Hf k f Hk) as [? _ _ ? ?]. split_and!; try done. specialize (Hs k f Hk).
  unfold child_open in Hs. destruct (cf_state f); boolify; naive_solver.
Qed.

(** A child is consumed once.  Once it is integrated (or cancelled), it stays
    so with the same result whatever is called next: integrating it again
    fails, cancelling it answers [false], and neither has any effect. *)
Theorem subagent_consumed_once s s' i f :
  sub_inv s → sub_run s s' → sm_children (ss_manager s) !! as_str i = Some f →
  cf_state f = CsIntegrated ∨ cf_state f = CsCancelled →
  sm_children (ss_manager s') !! as_str i = Some f
  ∧ (∀ h how, subagent_integrate_v1 i h how s' = (s', Err SvInvalidState))
  ∧ (∀ h v, subagent_complete i h v s' = (s', Err SvInvalidState))
  ∧ subagent_cancel i s' = (s', Ok false).
Proof.
  intros Hinv Hrun Hk Hst.
  assert (sm_children (ss_manager s') !! as_str i = Some f) as Hk'.
  { eapply sub_run_final; [done..|]. unfold child_final, child_open. by destruct Hst as [-> | ->]. }
  split; [done|]. unfold subagent_integrate_v1, subagent_complete, subagent_cancel, get_child, mbind, stm_bind,
    read, lift, reject_if. simpl. rewrite Hk'. simpl. by destruct Hst as [-> | ->].
Qed.
End subagent_runs.

(** ** Checkpoints *)

Lemma restore_children fs m sc :
  NoDup ((λ f, as_str (cf_child_id f)) <$> fs) →
  (∀ f, f ∈ fs → frame_ok (as_str (cf_child_id f)) f ∧ cf_child_root_revision f ≤ cf_child_head_revision f
     ∧ m !! as_str (cf_child_id f) = None ∧ child_scope_id (cf_child_id f) ∉ sc) →
  ∃ sc', fold_res restore_child (m, sc) fs
    = Ok (foldl (λ m p, <[p.1 := p.2]> m) m ((λ f, (as_str (cf_child_id f), f)) <$> fs), sc').
Proof.
  revert m sc. induction fs as [|f fs IH]; intros m sc Hnd Hall; [by eexists|].
  csimpl in Hnd. apply NoDup_cons in Hnd as [Hf Hnd]. rewrite fmap_cons. cbn [foldl fold_res fst snd].
  destruct (Hall f ltac:(by left)) as ([? Hp Hr Hs Hv] & Hle & Hm & Hsc).
  assert (restore_child (m, sc) f = Ok (<[as_str (cf_child_id f) := f]> m, {[cf_scope_id f]} ∪ sc)) as Hstep.
  { unfold restore_child. apply N.eqb_neq in Hp as ->. apply N.eqb_neq in Hr as ->.
    apply N.ltb_ge in Hle as ->. rewrite Hv, Hs. unfold bs_contains. rewrite bool_decide_true, bool_decide_false by done.
    simpl. unfold bt_contains. by rewrite Hm. }
  rewrite Hstep. apply IH; [done|]. intros g Hg. destruct (Hall g ltac:(by right)) as (? & ? & ? & ?).
  assert (as_str (cf_child_id f) ≠ as_str (cf_child_id g)) as Hne.
  { intros Heq. apply Hf. rewrite Heq. apply list_elem_of_fmap. eauto. }
  split_and!; [done..| |].
  - by rewrite lookup_insert_ne.
  - rewrite Hs. intros [Heq%elem_of_singleton|?]%elem_of_union; [|done]. apply child_scope_inj in Heq. congruence.
Qed.

(** The manager's checkpoint restores to the same manager when every
    completed child reported a head that does not precede its root. *)
Theorem subagent_checkpoint_roundtrip (m : SubagentManagerV1) :
  (∀ k f, sm_children m !! k = Some f → frame_ok k f ∧ cf_child_root_revision f ≤ cf_child_head_revision f) →
  subagent_restore (subagent_checkpoint m) = Ok m.
Proof.
  intros Hall. unfold subagent_restore, subagent_checkpoint. simpl.
  assert (∀ k f, sm_children m !! k = Some f → k = as_str (cf_child_id f)) as Hkey
    by (intros k f Hk; by destruct (Hall k f Hk) as [[] _]).
  destruct (restore_children (bt_values (sm_children m)) ∅ ∅) as [sc' ->].
  - apply (NoDup_keyed (λ f, as_str (cf_child_id f))). done.
  - intros f [k Hk]%elem_of_bt_values. destruct (Hall k f Hk) as [Hok ?]. rewrite <-(Hkey k f Hk).
    split_and!; [done..|set_solver].
  - simpl. rewrite (foldl_insert_values (λ f, as_str (cf_child_id f))) by done. by destruct m.
Qed.

(** ** A manager over the demonstration context and ledger *)

Module DemoSub.
Import (hints) Demo DemoContext.
Definition start : sub_state LimitLedger :=
  MkSub SubagentManagerV1_new DemoContext.forked DemoLedger.ledger.
Definition spec (parent : N) : ChildContextSpec := MkChildSpec "kid" parent [["a"]] JNull.
Definition spawned : sub_state LimitLedger :=
  (sub_do (SbSpawn id:"kid" "child" DemoLedger.budget (spec 1)) start).1.
Definition integrated : sub_state LimitLedger :=
  (sub_do (SbIntegrate id:"kid" 1 (ReplaceAtKey "b"))
    (sub_do (SbComplete id:"kid" 6 (JBool true)) spawned).1).1.
Lemma ledger_ok : bl_inv DemoLedger.ledger.
Proof. exists "run". by apply DemoLedger.inv. Qed.
Lemma start_ok : sub_inv start.
Proof. apply sub_new_inv; [apply forked_inv|apply ledger_ok]. Qed.
Lemma spawned_run : sub_run start spawned.
Proof. eapply sub_call_step; [apply sub_here|]. unfold spawned. apply surjective_pairing. Qed.
Lemma integrated_run : sub_run start integrated.
Proof.
  eapply sub_call_step; [eapply sub_call_step; [apply spawned_run|apply surjective_pairing]|].
  unfold integrated. apply surjective_pairing.
Qed.
Lemma integrated_ok : sub_inv integrated.
Proof. apply (sub_run_inv _ _ start_ok integrated_run). Qed.
End DemoSub.

Section subagent_witnesses.
Import (hints) Demo DemoContext.
Import DemoSub.

Lemma subagent_call_atomic_witness :
  (sub_do (SbSpawn id:"kid" "child" DemoLedger.budget (spec 99)) start).1 = start
  ∧ (sub_do (SbSpawn id:"kid" "child" DemoLedger.budget (spec 99)) start).2
    = Err (SvContext "unknown context revision 99").
Proof.
  assert ((sub_do (SbSpawn id:"kid" "child" DemoLedger.budget (spec 99)) start).2
    = Err (SvContext "unknown context revision 99")) as He by (vm_compute; reflexivity).
  split; [|exact He].
  eapply (subagent_call_atomic (SbSpawn id:"kid" "child" DemoLedger.budget (spec 99)) start _ _ start_ok).
  rewrite <-He. apply surjective_pairing.
Defined.

Lemma subagent_scopes_match_witness : ∃ f,
  sm_children (ss_manager integrated) !! "kid" = Some f ∧ cf_state f = CsIntegrated
  ∧ ¬ (cf_scope_id f ∈ bl_scopes (ss_limits integrated)).
Proof.
  destruct (sm_children (ss_manager integrated) !! "kid") as [f|] eqn:Hf; [|vm_compute in Hf; discriminate Hf].
  exists f. assert (cf_state f = CsIntegrated) as Hst by (vm_compute in Hf; injection Hf as <-; reflexivity).
  split_and!; [reflexivity|exact Hst|]. intros Hin.
  destruct (subagent_scopes_match DemoContext.forked DemoLedger.ledger integrated "kid" f
    forked_inv ledger_ok integrated_run Hf) as (_ & _ & _ & Hs).
  destruct (proj1 Hs Hin) as [Hx|Hx]; rewrite Hst in Hx; discriminate Hx.
Defined.

Lemma subagent_consumed_once_witness :
  subagent_cancel id:"kid" integrated = (integrated, Ok false)
  ∧ subagent_integrate_v1 id:"kid" 7 (ReplaceAtKey "b") integrated = (integrated, Err SvInvalidState).
Proof.
  destruct (sm_children (ss_manager integrated) !! "kid") as [f|] eqn:Hf; [|vm_compute in Hf; discriminate Hf].
  assert (cf_state f = CsIntegrated) as Hst by (vm_compute in Hf; injection Hf as <-; reflexivity).
  destruct (subagent_consumed_once integrated integrated id:"kid" f integrated_ok (sub_here _) Hf (or_introl Hst))
    as (_ & Hi & _ & Hc).
  split; [exact Hc|apply Hi].
Defined.

Lemma subagent_checkpoint_roundtrip_witness :
  subagent_restore (subagent_checkpoint (ss_manager spawned)) = Ok (ss_manager spawned).
Proof.
  apply (subagent_checkpoint_roundtrip (ss_manager spawned)). intros k f Hk.
  split; [by apply (sb_frame _ (sub_run_inv _ _ start_ok spawned_run))|].
  assert (bool_decide (map_Forall (λ _ f, cf_child_root_revision f ≤ cf_child_head_revision f)
    (sm_children (ss_manager spawned))) = true) as Hb by (vm_compute; reflexivity).
  apply bool_decide_eq_true in Hb. exact (Hb k f Hk).
Defined.

(** [complete] records any head revision it is given: after a completion that
    reports a revision before the child's root, the manager refuses its own
    checkpoint. *)
Theorem own_subagent_checkpoint_refused : ∃ s,
  sub_run start s ∧ subagent_restore (subagent_checkpoint (ss_manager s)) = Err SvInvalidState.
Proof.
  exists (sub_do (SbComplete id:"kid" 0 (JBool true)) spawned).1. split; [|vm_compute; reflexivity].
  eapply sub_call_step; [apply spawned_run|apply surjective_pairing].
Qed.
End subagent_witnesses.
