(* ===== verification/Legacy.v ===== *)
(** * The compatibility execution path

    The early plan, scheduler and suspension types kept beside the V1 ones:
    [ExecutionPlan] of [plan.rs], [Scheduler] of [scheduler.rs],
    [SuspensionController] and [Rehydrator] of [suspension.rs].  Definitions
    first, then their theorems. *)
From stdpp Require Import relations.
From S2P Require Export Calls.

(** ** [ExecutionPlan] *)

Record PlanNode : Type := MkPlanNode {
  pn_id : StableId;
  pn_node_type : string;
  pn_version : N;
  pn_config : json
}.
Record Transition : Type := MkPlanTransition {
  tr_id : StableId;
  tr_from : StableId;
  tr_from_port : string;
  tr_to : StableId;
  tr_to_port : string;
  tr_priority : N;
  tr_loop_bound : option N
}.
Record FrozenRunSnapshot : Type := MkFrozenSnapshot {
  fs_snapshot_id : StableId;
  fs_snapshot_hash : string;
  fs_generation : ProcessGeneration;
  fs_nodes : list PlanNode;
  fs_transitions : list Transition
}.
Record ExecutionPlan : Type := MkExecutionPlan {
  ep_snapshot : FrozenRunSnapshot;
  ep_nodes : gmap string PlanNode;
  ep_outgoing : gmap string (list Transition);
  ep_fingerprint : string
}.

Definition legacy_node (p : ExecutionPlan) (i : StableId) : option PlanNode := ep_nodes p !! as_str i.
Definition legacy_outgoing (p : ExecutionPlan) (i : StableId) : list Transition :=
  default [] (ep_outgoing p !! as_str i).

(** The depth-first search of [validate_legacy_cycles].  [None] is exhausted
    fuel, which is no result of the code; [validate_legacy_cycles] is the
    result the search is shown to have. *)
Definition bounded_edge (e : Transition) : bool := negb (default 0 (tr_loop_bound e) =? 0).

Fixpoint legacy_visit_edges (visit : string → dfs_state → option (result PlanError dfs_state))
    (edges : list Transition) (st : dfs_state) : option (result PlanError dfs_state) :=
  match edges with
  | [] => Some (Ok st)
  | edge :: edges =>
      if bs_contains st.1 (as_str (tr_to edge)) then
        if negb (bounded_edge edge) then Some (Err (UnboundedCycle (as_str (tr_id edge))))
        else legacy_visit_edges visit edges st
      else match visit (as_str (tr_to edge)) st with
           | None => None
           | Some (Err e) => Some (Err e)
           | Some (Ok st) => legacy_visit_edges visit edges st
           end
  end.
Fixpoint legacy_visit (fuel : nat) (outgoing : gmap string (list Transition)) (node : string)
    (st : dfs_state) : option (result PlanError dfs_state) :=
  match fuel with
  | O => None
  | S fuel =>
      let '(visiting, visited) := st in
      if bs_contains visited node then Some (Ok (visiting, visited)) else
      let visiting := {[node]} ∪ visiting in
      match legacy_visit_edges (legacy_visit fuel outgoing) (default [] (outgoing !! node))
              (visiting, visited) with
      | None => None
      | Some (Err e) => Some (Err e)
      | Some (Ok (visiting, visited)) => Some (Ok (visiting ∖ {[node]}, {[node]} ∪ visited))
      end
  end.
Fixpoint legacy_visit_all (fuel : nat) (outgoing : gmap string (list Transition))
    (nodes : list string) (st : dfs_state) : option (result PlanError dfs_state) :=
  match nodes with
  | [] => Some (Ok st)
  | node :: nodes =>
      match legacy_visit fuel outgoing node st with
      | None => None
      | Some (Err e) => Some (Err e)
      | Some (Ok st) => legacy_visit_all fuel outgoing nodes st
      end
  end.
Definition legacy_cycle_search (nodes : gmap string PlanNode)
    (outgoing : gmap string (list Transition)) : option (result PlanError ()) :=
  match legacy_visit_all (S (S (size outgoing))) outgoing (bt_keys nodes) (∅, ∅) with
  | None => None
  | Some (Err e) => Some (Err e)
  | Some (Ok _) => Some (Ok ())
  end.

(** The search ends: the fuel is enough. *)
Section legacy_search_total.
Context (outgoing : gmap string (list Transition)).

Lemma legacy_visit_edges_total vis es st :
  (∀ n s, n ∉ s.1 → s.1 = st.1 → ∃ r, vis n s = Some r ∧ ∀ s', r = Ok s' → s'.1 = s.1) →
  ∃ r, legacy_visit_edges vis es st = Some r ∧ ∀ s', r = Ok s' → s'.1 = st.1.
Proof.
  intros Hvis. remember st.1 as vg eqn:Hvg. revert st Hvg.
  induction es as [|e es IH]; intros st Hvg; simpl; [naive_solver|].
  destruct (bs_contains _ _) eqn:Hc; [destruct (bounded_edge e); simpl; [by apply IH|by eexists]|].
  apply bool_decide_eq_false in Hc.
  destruct (Hvis (as_str (tr_to e)) st Hc (eq_sym Hvg)) as ([s|err] & -> & Hs); [|by eexists].
  apply IH. by rewrite (Hs s eq_refl).
Qed.

Lemma legacy_visit_total fuel n st :
  n ∉ st.1 → (size (dom outgoing ∖ st.1) + 1 < fuel)%nat →
  ∃ r, legacy_visit fuel outgoing n st = Some r ∧ ∀ s', r = Ok s' → s'.1 = st.1.
Proof.
  revert n st. induction fuel as [|fuel IH]; intros n [visiting visited] Hn Hm; simpl in *; [lia|].
  destruct (bs_contains visited n); [naive_solver|].
  destruct (outgoing !! n) as [es|] eqn:Hes; simpl.
  - destruct (legacy_visit_edges_total (legacy_visit fuel outgoing) es ({[n]} ∪ visiting, visited))
      as ([[vg vd]|err] & -> & Hr).
    + simpl. intros m s Hms Hs. apply IH; [done|]. rewrite Hs.
      assert (n ∈ dom outgoing ∖ visiting) as Hin
        by (apply elem_of_difference; split; [by eapply elem_of_dom_2|done]).
      assert (size ((dom outgoing ∖ ({[n]} ∪ visiting)) : gset string)
              < size (dom outgoing ∖ visiting))%nat; [|lia].
      apply subset_size. set_solver.
    + specialize (Hr _ eq_refl). simpl in Hr. subst vg. eexists. split; [done|].
      intros s' [= <-]. simpl. set_solver.
    + by eexists.
  - eexists. split; [done|]. intros s' [= <-]. simpl. set_solver.
Qed.

Lemma legacy_visit_all_total ns visited :
  ∃ r, legacy_visit_all (S (S (size outgoing))) outgoing ns (∅, visited) = Some r.
Proof.
  revert visited. induction ns as [|n ns IH]; intros visited; cbn [legacy_visit_all]; [by eexists|].
  destruct (legacy_visit_total (S (S (size outgoing))) n (∅, visited)) as ([[vg vd]|e] & -> & Hok).
  - set_solver.
  - simpl. rewrite difference_empty_L, size_dom. lia.
  - specialize (Hok _ eq_refl). simpl in Hok. subst vg. apply IH.
  - by eexists.
Qed.
End legacy_search_total.

Lemma legacy_cycle_search_total nodes outgoing : is_Some (legacy_cycle_search nodes outgoing).
Proof.
  unfold legacy_cycle_search.
  by destruct (legacy_visit_all_total outgoing (bt_keys nodes) ∅) as ([?|?] & ->).
Qed.

Definition validate_legacy_cycles (nodes : gmap string PlanNode)
    (outgoing : gmap string (list Transition)) : result PlanError () :=
  is_Some_proj (legacy_cycle_search_total nodes outgoing).

Lemma validate_legacy_cycles_search nodes outgoing :
  legacy_cycle_search nodes outgoing = Some (validate_legacy_cycles nodes outgoing).
Proof. apply is_Some_proj_Some. Qed.

Definition add_legacy_node (nodes : gmap string PlanNode) (node : PlanNode) :
    result PlanError (gmap string PlanNode) :=
  _ ← fail_if (bt_contains nodes (as_str (pn_id node))) (DuplicateNode (as_str (pn_id node)));
  Ok (<[as_str (pn_id node) := node]> nodes).

Definition add_legacy_transition (nodes : gmap string PlanNode)
    (state : gmap string (list Transition) * gset string) (t : Transition) :
    result PlanError (gmap string (list Transition) * gset string) :=
  let '(outgoing, ids) := state in
  _ ← fail_if (bs_contains ids (as_str (tr_id t))) (DuplicateTransition (as_str (tr_id t)));
  _ ← for_each (λ node, fail_if (negb (bt_contains nodes (as_str node)))
                          (UnknownPlanNode (as_str (tr_id t)) (as_str node))) [tr_from t; tr_to t];
  Ok (<[as_str (tr_from t) := default [] (outgoing !! as_str (tr_from t)) ++ [t]]> outgoing,
      {[as_str (tr_id t)]} ∪ ids).

(** [(priority, id)] in lexicographic order. *)
Definition legacy_edge_cmp (a b : Transition) : comparison :=
  then_with (N.compare (tr_priority a) (tr_priority b))
    (String.compare (as_str (tr_id a)) (as_str (tr_id b))).

Section legacy_compile.
Context `{Sha256, !Serialize (string * string * ProcessGeneration * list PlanNode * list Transition)}.

Definition legacy_fingerprint (s : FrozenRunSnapshot) : result PlanError string :=
  let nodes := sort_by (on_key (λ n, as_str (pn_id n)) String.compare) (fs_nodes s) in
  let transitions := sort_by (on_key (λ t, as_str (tr_id t)) String.compare) (fs_transitions s) in
  bytes ← ok_or (to_vec (as_str (fs_snapshot_id s), fs_snapshot_hash s, fs_generation s, nodes, transitions))
            PlanEncoding;
  Ok (sha256_hex bytes).

Definition legacy_compile (s : FrozenRunSnapshot) (generation : ProcessGeneration) :
    result PlanError ExecutionPlan :=
  _ ← fail_if (negb (fs_generation s =? generation)) GenerationMismatch;
  _ ← fail_if (is_nil (fs_nodes s)) EmptyGraph;
  nodes ← fold_res add_legacy_node ∅ (fs_nodes s);
  '(outgoing, _) ← fold_res (add_legacy_transition nodes) (∅, ∅) (fs_transitions s);
  let outgoing := sort_by legacy_edge_cmp <$> outgoing in
  _ ← validate_legacy_cycles nodes outgoing;
  fingerprint ← legacy_fingerprint s;
  Ok (MkExecutionPlan s nodes outgoing fingerprint).
End legacy_compile.

(** ** [Scheduler] *)

Record Token : Type := MkToken { tk_id : N; tk_node_id : StableId; tk_context_revision : N }.
Record RouteDecision : Type := MkRouteDecision { rd_transition : Transition }.
Inductive SchedulerError : Type :=
| LsUnknownNode (node : string)
| LsNoTransition (node : string).
Record Scheduler : Type := MkScheduler {
  ls_plan : ExecutionPlan;
  ls_queue : list Token;
  ls_next_token : N;
  ls_loop_counts : gmap string N
}.
Definition Scheduler_new (plan : ExecutionPlan) : Scheduler := MkScheduler plan [] 1 ∅.

(** [x += 1] without overflow checks. *)
Definition wrapping_succ (max n : N) : N := (n + 1) mod (max + 1).

Definition legacy_enqueue (node_id : StableId) (context_revision : N) : stm Scheduler SchedulerError Token :=
  s ← read;
  _ ← reject_if (negb (is_some (legacy_node (ls_plan s) node_id))) (LsUnknownNode (as_str node_id));
  let token := MkToken (ls_next_token s) node_id context_revision in
  _ ← modify (λ s, MkScheduler (ls_plan s) (ls_queue s) (wrapping_succ u64_max (ls_next_token s)) (ls_loop_counts s));
  _ ← modify (λ s, MkScheduler (ls_plan s) (ls_queue s ++ [token]) (ls_next_token s) (ls_loop_counts s));
  mret token.

Definition legacy_next (s : Scheduler) : Scheduler * option Token :=
  match ls_queue s with
  | [] => (s, None)
  | t :: q => (MkScheduler (ls_plan s) q (ls_next_token s) (ls_loop_counts s), Some t)
  end.

Definition is_legal (s : Scheduler) (context : json) (edge : Transition) : bool :=
  if match tr_loop_bound edge with
     | Some bound => bound <=? default 0 (ls_loop_counts s !! as_str (tr_id edge))
     | None => false
     end then false
  else bool_decide (tr_from_port edge = "default")
       || match value_get (tr_from_port edge) context with
          | Some value => negb (is_null value)
          | None => false
          end.

Definition legacy_route (token : Token) (context : json) : stm Scheduler SchedulerError RouteDecision :=
  s ← read;
  edge ← lift (ok_or (List.find (is_legal s context) (legacy_outgoing (ls_plan s) (tk_node_id token)))
                 (LsNoTransition (as_str (tk_node_id token))));
  _ ← modify (λ s,
        match tr_loop_bound edge with
        | Some _ => MkScheduler (ls_plan s) (ls_queue s) (ls_next_token s)
                      (<[as_str (tr_id edge) := wrapping_succ u32_max
                           (default 0 (ls_loop_counts s !! as_str (tr_id edge)))]> (ls_loop_counts s))
        | None => s
        end);
  mret (MkRouteDecision edge).

Definition admit_transition (route : RouteDecision) (context_revision : N) : stm Scheduler SchedulerError Token :=
  legacy_enqueue (tr_to (rd_transition route)) context_revision.

(** ** [SuspensionController] and [Rehydrator] *)

Inductive Suspension : Type := SuInput | SuApproval | SuPaused | SuCancelling | SuQuiescent.
Record SuspensionController : Type := MkSuspensionController {
  sn_state : option Suspension;
  sn_token : option Token
}.
Definition SuspensionController_new : SuspensionController := MkSuspensionController None None.
Definition legacy_suspend (state : Suspension) (token : Token) (_ : SuspensionController) :
    SuspensionController :=
  MkSuspensionController (Some state) (Some token).
(** [self.state.take()?; self.token.take()] *)
Definition legacy_resume (c : SuspensionController) : SuspensionController * option Token :=
  match sn_state c with
  | None => (c, None)
  | Some _ => (MkSuspensionController None None, sn_token c)
  end.

Record LegacyCheckpoint : Type := MkLegacyCheckpoint {
  lq_snapshot_hash : string;
  lq_plan_fingerprint : string;
  lq_generation : ProcessGeneration;
  lq_committed_cursor : N;
  lq_tokens : list Token
}.
Record CheckpointProposal : Type := MkCheckpointProposal {
  cp_checkpoint_id : StableId;
  cp_checkpoint : LegacyCheckpoint
}.
Inductive RecoveryError : Type :=
| LrSnapshotMismatch
| LrPlanMismatch
| LrGenerationMismatch.
Definition legacy_rehydrate (plan : ExecutionPlan) (k : LegacyCheckpoint) (generation : ProcessGeneration) :
    result RecoveryError (list Token) :=
  _ ← fail_if (negb (bool_decide (lq_snapshot_hash k = fs_snapshot_hash (ep_snapshot plan)))) LrSnapshotMismatch;
  _ ← fail_if (negb (bool_decide (lq_plan_fingerprint k = ep_fingerprint plan))) LrPlanMismatch;
  _ ← fail_if (negb (lq_generation k =? generation)) LrGenerationMismatch;
  Ok (lq_tokens k).
Definition legacy_checkpoint (plan : ExecutionPlan) (generation : ProcessGeneration) (cursor : N)
    (tokens : list Token) : LegacyCheckpoint :=
  MkLegacyCheckpoint (fs_snapshot_hash (ep_snapshot plan)) (ep_fingerprint plan) generation cursor tokens.

(** ** Accepted plans have no unbounded cycle *)

Section legacy_cycles.
Context (outgoing : gmap string (list Transition)).

(** A transition without a positive loop bound. *)
Definition unbounded_step (a b : string) : Prop :=
  ∃ es e, outgoing !! a = Some es ∧ e ∈ es ∧ bounded_edge e = false ∧ b = as_str (tr_to e).
Definition legacy_ends (n : string) : Prop := Acc (λ b a, unbounded_step a b) n.
Definition visited_end (st : dfs_state) : Prop := ∀ v, v ∈ st.2 → legacy_ends v.

Lemma ends_no_cycle n : legacy_ends n → ¬ tc unbounded_step n n.
Proof.
  induction 1 as [n _ IH]. intros Hnn.
  assert (∃ m, unbounded_step n m ∧ rtc unbounded_step m n) as (m & Hnm & Hmn).
  { inversion Hnn as [? ? Hs|? y ? Hs Ht]; subst; eauto using rtc_refl, tc_rtc. }
  apply (IH m Hnm). eapply tc_rtc_l; [exact Hmn|]. by constructor.
Qed.

Lemma legacy_visit_edges_sound vis es st st' :
  (∀ n s s', vis n s = Some (Ok s') → visited_end s → visited_end s' ∧ s.2 ⊆ s'.2 ∧ n ∈ s'.2) →
  legacy_visit_edges vis es st = Some (Ok st') → visited_end st →
  visited_end st' ∧ st.2 ⊆ st'.2 ∧ ∀ e, e ∈ es → bounded_edge e = false → as_str (tr_to e) ∈ st'.2.
Proof.
  intros Hvis. revert st. induction es as [|e es IH]; intros st; simpl.
  { intros [= <-] Hst. set_solver. }
  destruct (bs_contains _ _).
  - destruct (bounded_edge e) eqn:Hb; simpl; [|done]. intros Hes Hst.
    destruct (IH _ Hes Hst) as (H1 & H2 & H3). split_and!; [done..|].
    intros e' [->|He']%elem_of_cons Hb'; [congruence|auto].
  - destruct (vis _ st) as [[s|]|] eqn:E; [|done..]. intros Hes Hst.
    destruct (Hvis _ _ _ E Hst) as (H1 & H2 & H3). destruct (IH _ Hes H1) as (H4 & H5 & H6). set_solver.
Qed.

Lemma legacy_visit_sound fuel n st st' :
  legacy_visit fuel outgoing n st = Some (Ok st') → visited_end st →
  visited_end st' ∧ st.2 ⊆ st'.2 ∧ n ∈ st'.2.
Proof.
  revert n st st'. induction fuel as [|fuel IH]; intros n [visiting visited] st'; [done|].
  cbn [legacy_visit]. destruct (bs_contains visited n) eqn:Hv.
  { intros [= <-] Hst. apply bool_decide_eq_true in Hv. set_solver. }
  intros Hr Hst. destruct (legacy_visit_edges _ _ _) as [[[vg vd]|]|] eqn:E; simplify_eq.
  apply (legacy_visit_edges_sound _ _ _ _ IH) in E as (H1 & H2 & H3); [|exact Hst].
  split_and!; [|set_solver|set_solver].
  intros v. simpl. rewrite elem_of_union, elem_of_singleton. intros [->|Hin]; [|by apply H1].
  constructor. intros m (es & e & Hes & He & Hb & ->). apply H1, H3; [|done]. by rewrite Hes.
Qed.

Lemma legacy_visit_all_sound fuel ns st st' :
  legacy_visit_all fuel outgoing ns st = Some (Ok st') → visited_end st →
  visited_end st' ∧ st.2 ⊆ st'.2 ∧ ∀ n, n ∈ ns → n ∈ st'.2.
Proof.
  revert st. induction ns as [|n ns IH]; intros st; simpl.
  { intros [= <-] Hst. set_solver. }
  destruct (legacy_visit fuel outgoing n st) as [[s|]|] eqn:E; [|done..]. intros Hns Hst.
  apply legacy_visit_sound in E as (H1 & H2 & H3); [|done].
  destruct (IH _ Hns H1) as (H4 & H5 & H6). set_solver.
Qed.
End legacy_cycles.

(** ** Compiled plans *)

#[export] Instance legacy_edge_cmp_ord : Cmp legacy_edge_cmp.
Proof. apply (cmp_then_with (on_key tr_priority N.compare) (on_key (λ t, as_str (tr_id t)) String.compare)). Qed.

(** What indexing the transitions [ts] gives. *)
Record outgoing_of (nodes : gmap string PlanNode) (ts : list Transition)
    (st : gmap string (list Transition) * gset string) : Prop := {
  og_ids : ∀ x, x ∈ st.2 ↔ x ∈ (λ t, as_str (tr_id t)) <$> ts;
  og_unique : NoDup ((λ t, as_str (tr_id t)) <$> ts);
  og_from : ∀ t, t ∈ ts → is_Some (nodes !! as_str (tr_from t));
  og_to : ∀ t, t ∈ ts → is_Some (nodes !! as_str (tr_to t));
  og_only : ∀ n es t, st.1 !! n = Some es → t ∈ es → t ∈ ts ∧ n = as_str (tr_from t)
}.

Lemma add_legacy_transition_ok nodes ts t st st' :
  outgoing_of nodes ts st → add_legacy_transition nodes st t = Ok st' → outgoing_of nodes (ts ++ [t]) st'.
Proof.
  destruct st as [out ids]. intros [Hids Hnd Hfrom Hto Honly] Hstep. unfold add_legacy_transition in Hstep.
  res_inv Hstep.
  assert (∀ node, node ∈ [tr_from t; tr_to t] → is_Some (nodes !! as_str node)) as Hknown.
  { intros node Hn. pose proof (proj1 (for_each_ok _ _ _) Hstep1 node Hn) as Hk.
    apply fail_if_ok, negb_false_iff, bt_contains_true in Hk. done. }
  boolify. simplify_eq. simpl in *.
  split; simpl.
  - intros y. rewrite fmap_app, elem_of_app, <-Hids. set_solver.
  - rewrite fmap_app. apply NoDup_app. split_and!; [done| |apply NoDup_singleton].
    intros y Hy%Hids ->%list_elem_of_singleton. done.
  - intros u [Hu| ->%list_elem_of_singleton]%elem_of_app; [auto|]. apply Hknown. by left.
  - intros u [Hu| ->%list_elem_of_singleton]%elem_of_app; [auto|]. apply Hknown. right. by left.
  - intros n es u [[<- <-]|[_ Hl]]%lookup_insert_Some Hu.
    + apply elem_of_app in Hu as [Hu| ->%list_elem_of_singleton]; [|set_solver].
      destruct (out !! as_str (tr_from t)) as [es|] eqn:E; simpl in Hu; [|by apply elem_of_nil in Hu].
      destruct (Honly _ _ _ E Hu). set_solver.
    + destruct (Honly _ _ _ Hl Hu). set_solver.
Qed.

Lemma legacy_outgoing_of nodes ts st :
  fold_res (add_legacy_transition nodes) (∅, ∅) ts = Ok st → outgoing_of nodes ts st.
Proof.
  apply (fold_res_inv _ (outgoing_of nodes)); [|by intros; eapply add_legacy_transition_ok].
  split; simpl; [set_solver|constructor|set_solver|set_solver|]. intros n es t Hn. by rewrite lookup_empty in Hn.
Qed.

Section legacy_plan_facts.
Context `{Sha256, !Serialize (string * string * ProcessGeneration * list PlanNode * list Transition)}.

Lemma legacy_compile_ok s g p :
  legacy_compile s g = Ok p →
  fs_generation s = g ∧ ep_snapshot p = s ∧ NoDup ((λ t, as_str (tr_id t)) <$> fs_transitions s)
  ∧ (∀ n es t, ep_outgoing p !! n = Some es → t ∈ es →
       t ∈ fs_transitions s ∧ n = as_str (tr_from t) ∧ is_Some (ep_nodes p !! n))
  ∧ (∀ n es, ep_outgoing p !! n = Some es → sorted_by legacy_edge_cmp es)
  ∧ validate_legacy_cycles (ep_nodes p) (ep_outgoing p) = Ok ().
Proof.
  unfold legacy_compile. intros Hc. res_inv Hc. boolify. destruct x2 as [outgoing ids]. res_inv Hc.
  simplify_eq. simpl.
  destruct (legacy_outgoing_of _ _ _ Hc3) as [_ Hnd Hfrom _ Honly]. simpl in *. units. split_and!; try done.
  - intros n es t (es0 & <- & Hn)%lookup_fmap_Some Ht. rewrite elem_of_sort_by in Ht.
    destruct (Honly n es0 t Hn Ht) as [Hin ->]. eauto.
  - intros n es (es0 & <- & Hn)%lookup_fmap_Some. apply sort_by_sorted. apply _.
Qed.

(** Every cycle of an accepted plan passes through a transition with a
    positive loop bound: the search terminates, and no cycle is left once
    those transitions are removed. *)
Theorem legacy_cycles_bounded s g p n :
  legacy_compile s g = Ok p → ¬ tc (unbounded_step (ep_outgoing p)) n n.
Proof.
  intros (_ & _ & _ & Honly & _ & Hcyc)%legacy_compile_ok Hn.
  pose proof (validate_legacy_cycles_search (ep_nodes p) (ep_outgoing p)) as Hs.
  rewrite Hcyc in Hs. unfold legacy_cycle_search in Hs. destruct (legacy_visit_all _ _ _ _) as [[st|e]|] eqn:Hv; [|done..].
  apply legacy_visit_all_sound in Hv as (Hend & _ & Hall); [|intros v; set_solver].
  apply (ends_no_cycle (ep_outgoing p) n); [|done]. apply Hend, Hall, elem_of_bt_keys.
  assert (∃ m, unbounded_step (ep_outgoing p) n m) as (m & es & e & Hes & He & _)
    by (inversion Hn; subst; eauto).
  by destruct (Honly n es e Hes He) as (_ & _ & ?).
Qed.
End legacy_plan_facts.

(** ** Runs of the scheduler *)

Inductive legacy_call : Type :=
| LcEnqueue (node : StableId) (revision : N)
| LcNext
| LcRoute (token : Token) (context : json)
| LcAdmit (route : RouteDecision) (revision : N).

(** The state after a call and the decision it took, if any. *)
Definition legacy_step (s : Scheduler) (c : legacy_call) : Scheduler * option RouteDecision :=
  match c with
  | LcEnqueue n r => ((legacy_enqueue n r s).1, None)
  | LcNext => ((legacy_next s).1, None)
  | LcRoute t v =>
      let '(s', r) := legacy_route t v s in (s', match r with Ok d => Some d | Err _ => None end)
  | LcAdmit d r => ((admit_transition d r s).1, None)
  end.
Fixpoint legacy_decisions (s : Scheduler) (cs : list legacy_call) : list RouteDecision :=
  match cs with
  | [] => []
  | c :: cs =>
      let '(s', d) := legacy_step s c in
      match d with Some d => d :: legacy_decisions s' cs | None => legacy_decisions s' cs end
  end.
(** How often a transition was chosen. *)
Definition taken (t : Transition) (ds : list RouteDecision) : N :=
  len (filter (λ d, as_str (tr_id (rd_transition d)) = as_str (tr_id t)) ds).

Definition loop_count (s : Scheduler) (t : Transition) : N :=
  default 0 (ls_loop_counts s !! as_str (tr_id t)).

Lemma legacy_step_counts p s c s' d :
  (∀ n es t, ep_outgoing p !! n = Some es → t ∈ es → t ∈ fs_transitions (ep_snapshot p)) →
  NoDup ((λ t, as_str (tr_id t)) <$> fs_transitions (ep_snapshot p)) →
  ls_plan s = p → legacy_step s c = (s', d) →
  ls_plan s' = p ∧
  ∀ t b, t ∈ fs_transitions (ep_snapshot p) → tr_loop_bound t = Some b → b ≤ u32_max →
    loop_count s t ≤ b →
    loop_count s' t = loop_count s t + taken t (option_list d) ∧ loop_count s' t ≤ b.
Proof.
  intros Honly Hnd Hp Hs.
  assert ((ls_plan s' = ls_plan s ∧ ls_loop_counts s' = ls_loop_counts s ∧ d = None) ∨
    ∃ tok v e, c = LcRoute tok v ∧ legacy_route tok v s = (s', Ok (MkRouteDecision e))
      ∧ d = Some (MkRouteDecision e)) as [(-> & Hl & ->)|(tok & v & e & -> & Hr & ->)].
  { destruct c; simpl in Hs.
    - left. destruct (legacy_enqueue node revision s) as [s1 [x|e]] eqn:E; simplify_eq/=;
        unfold legacy_enqueue in E; [run_inv E|err_inv E]; by simplify_eq/=.
    - left. unfold legacy_next in Hs. destruct (ls_queue s); by simplify_eq/=.
    - destruct (legacy_route token context s) as [s1 [[e]|e]] eqn:E; simplify_eq/=; [right; eauto 8|].
      left. unfold legacy_route in E. by err_inv E; simplify_eq/=.
    - left. unfold admit_transition in Hs. destruct (legacy_enqueue _ revision s) as [s1 [x|e]] eqn:E; simplify_eq/=;
        unfold legacy_enqueue in E; [run_inv E|err_inv E]; by simplify_eq/=. }
  - split; [done|]. intros t b _ _ _ Hle. unfold loop_count in *. rewrite Hl. by rewrite N.add_0_r.
  - unfold legacy_route in Hr. run_inv Hr.
    clear Hs. split; [by destruct (tr_loop_bound x0)|].
    intros t b Ht Hb Hmax Hle. apply find_some in Hr0 as [Hin Hlegal]. apply list_elem_of_In in Hin.
    assert (x0 ∈ fs_transitions (ep_snapshot (ls_plan s))) as Hx0.
    { unfold legacy_outgoing in Hin. destruct (ep_outgoing (ls_plan s) !! _) as [es|] eqn:E; simpl in Hin;
        [eauto|by apply elem_of_nil in Hin]. }
    destruct (decide (as_str (tr_id x0) = as_str (tr_id t))) as [Heq|Hne].
    + assert (x0 = t) as -> by (by eapply (NoDup_key_inj (λ t, as_str (tr_id t)))).
      unfold taken. simpl. rewrite filter_cons_True, filter_nil by done. rewrite Hb. unfold loop_count in *. simpl.
      rewrite lookup_insert_eq. simpl. unfold is_legal in Hlegal. rewrite Hb in Hlegal.
      destruct (b <=? _) eqn:Hlt; [done|]. boolify. unfold wrapping_succ, len. simpl. rewrite N.mod_small by lia. lia.
    + unfold taken. simpl. rewrite filter_cons_False, filter_nil by done. unfold len. simpl. rewrite N.add_0_r.
      unfold loop_count in *. destruct (tr_loop_bound x0); simpl; [|done]. by rewrite lookup_insert_ne.
Qed.

Lemma legacy_run_counts p s cs t b :
  (∀ n es t, ep_outgoing p !! n = Some es → t ∈ es → t ∈ fs_transitions (ep_snapshot p)) →
  NoDup ((λ t, as_str (tr_id t)) <$> fs_transitions (ep_snapshot p)) →
  t ∈ fs_transitions (ep_snapshot p) → tr_loop_bound t = Some b → b ≤ u32_max →
  ls_plan s = p → loop_count s t ≤ b → loop_count s t + taken t (legacy_decisions s cs) ≤ b.
Proof.
  intros Honly Hnd Ht Hb Hmax. revert s. induction cs as [|c cs IH]; intros s Hp Hle.
  { simpl. unfold taken, len. rewrite filter_nil. simpl. lia. }
  simpl. destruct (legacy_step s c) as [s' d] eqn:Hs.
  destruct (legacy_step_counts p s c s' d Honly Hnd Hp Hs) as [Hp' Hc].
  destruct (Hc t b Ht Hb Hmax Hle) as [Heq Hle']. specialize (IH s' Hp' Hle').
  destruct d as [d|]; [|rewrite Heq in IH; unfold taken, len in *; simpl in IH; rewrite ?filter_nil in IH; simpl in *; lia].
  assert (taken t (d :: legacy_decisions s' cs) = taken t (option_list (Some d)) + taken t (legacy_decisions s' cs)) as ->.
  { unfold taken, len. rewrite <-Nat2N.inj_add, <-length_app, <-filter_app. done. }
  lia.
Qed.

Section legacy_bounds.
Context `{Sha256, !Serialize (string * string * ProcessGeneration * list PlanNode * list Transition)}.

(** A transition with a loop bound is taken at most that often, whatever is
    enqueued, routed and admitted in which order. *)
Theorem legacy_loop_bounded s g p cs t b :
  legacy_compile s g = Ok p → t ∈ fs_transitions s → tr_loop_bound t = Some b → b ≤ u32_max →
  taken t (legacy_decisions (Scheduler_new p) cs) ≤ b.
Proof.
  intros (_ & Hsnap & Hnd & Honly & _ & _)%legacy_compile_ok Ht Hb Hmax. rewrite <-Hsnap in *.
  assert (loop_count (Scheduler_new p) t = 0) as H0 by (unfold loop_count; simpl; by rewrite lookup_empty).
  pose proof (legacy_run_counts p (Scheduler_new p) cs t b) as Hrun. rewrite H0, N.add_0_l in Hrun.
  apply Hrun; try done; [|lia]. intros n es u Hn Hu. by destruct (Honly n es u Hn Hu) as [? _].
Qed.

(** A legacy checkpoint gives its tokens back to the plan and generation it
    was taken for, and to nothing else. *)
Theorem legacy_checkpoint_fenced p g cursor tokens p' g' ts :
  legacy_rehydrate p' (legacy_checkpoint p g cursor tokens) g' = Ok ts ↔
  fs_snapshot_hash (ep_snapshot p') = fs_snapshot_hash (ep_snapshot p)
  ∧ ep_fingerprint p' = ep_fingerprint p ∧ g' = g ∧ ts = tokens.
Proof.
  unfold legacy_rehydrate, legacy_checkpoint. simpl. split.
  - intros Hr. res_inv Hr. boolify. by simplify_eq.
  - intros (-> & -> & -> & ->). by rewrite !bool_decide_true, N.eqb_refl by done.
Qed.
End legacy_bounds.

(** A suspended token is handed back exactly once. *)
Lemma legacy_resume_once c st t :
  legacy_resume (legacy_suspend st t c) = (SuspensionController_new, Some t)
  ∧ legacy_resume SuspensionController_new = (SuspensionController_new, None).
Proof. done. Qed.

(** ** A loop *)

Module DemoLegacy.
Import (hints) Demo.
#[export] Instance snapshot_ser :
    Serialize (string * string * ProcessGeneration * list PlanNode * list Transition) := {|
  to_vec x := Some (as_bytes x.1.1.1.1); jcs_to_vec x := Some (as_bytes x.1.1.1.1)
|}.
Definition node (i : StableId) : PlanNode := MkPlanNode i "noop" 1 JNull.
Definition forward : Transition := MkPlanTransition id:"t1" id:"a" "default" id:"b" "input" 1 None.
Definition back : Transition := MkPlanTransition id:"t2" id:"b" "default" id:"a" "input" 0 (Some 2).
Definition snapshot : FrozenRunSnapshot :=
  MkFrozenSnapshot id:"s" "h" 1 [node id:"a"; node id:"b"] [forward; back].
Definition turn (i : StableId) : legacy_call := LcRoute (MkToken 1 i 1) JNull.
End DemoLegacy.

Section legacy_witnesses.
Import (hints) Demo DemoLegacy.
Import DemoLegacy.

Lemma legacy_cycles_bounded_witness : ∃ p,
  legacy_compile snapshot 1 = Ok p ∧ ¬ tc (unbounded_step (ep_outgoing p)) "a" "a".
Proof.
  destruct (legacy_compile snapshot 1) as [p|e] eqn:Hc; [|vm_compute in Hc; discriminate Hc].
  exists p. split; [reflexivity|]. exact (legacy_cycles_bounded snapshot 1 p "a" Hc).
Defined.

Lemma legacy_loop_bounded_witness : ∃ p,
  legacy_compile snapshot 1 = Ok p
  ∧ taken back (legacy_decisions (Scheduler_new p) [turn id:"b"; turn id:"b"; turn id:"b"]) ≤ 2.
Proof.
  destruct (legacy_compile snapshot 1) as [p|e] eqn:Hc; [|vm_compute in Hc; discriminate Hc].
  exists p. split; [reflexivity|].
  apply (legacy_loop_bounded snapshot 1 p [turn id:"b"; turn id:"b"; turn id:"b"] back 2 Hc).
  - right. left.
  - reflexivity.
  - vm_compute. discriminate.
Defined.
End legacy_witnesses.
