(* ===== verification/Node.v ===== *)
(** * Node execution ([crates/aworkit-workflow-worker/src/node.rs])

    The pinned executor registries: the compatibility [ExecutorRegistry] and
    [ExecutorRegistryV1], whose entries are bound to a contribution hash and
    an executor kind and whose inputs and outputs are checked against the
    node's frozen ports. *)
From S2P Require Export Agent Legacy.

Inductive NodeError : Type :=
| NeMissingExecutor (node_type : string) (version : N)
| NeRegistrySealed
| NeDuplicateExecutor
| NeContributionMismatch
| NeSchemaViolation (what : string)
| NeTaskIdentityMismatch
| NeMissingCapability
| NeCancelled
| NeInvalidIdentity.

(** ** [ExecutorRegistry] *)

Record NodeTask : Type := MkNodeTask { nt_node_id : StableId; nt_attempt : N; nt_input_revision : N }.
Inductive NodeOutcome : Type :=
| NoCompleted (value : json)
| NoProposed (proposal : Proposal)
| NoFailed (message : string).
Definition Executor : Type := PlanNode → NodeTask → json → NodeOutcome.
Record ExecutorRegistry : Type := MkRegistry { er_executors : gmap (string * N) Executor }.

Definition legacy_register (name : string) (version : N) (executor : Executor) (r : ExecutorRegistry) :
    ExecutorRegistry :=
  MkRegistry (<[(name, version) := executor]> (er_executors r)).

Definition noop_executor : Executor := λ _ _ input, NoCompleted input.
Definition set_value_executor : Executor := λ node _ _, NoCompleted (pn_config node).
Definition broker_executor : Executor := λ node _ input,
  NoProposed (MkCompatProposal
    (default "capability" (value_get "kind" (pn_config node) ≫= as_str_value))
    (pn_id node)
    (JObject [("input", input); ("config", pn_config node)])).
Definition with_builtins : ExecutorRegistry :=
  legacy_register "broker" 1 broker_executor
    (legacy_register "set_value" 1 set_value_executor
      (legacy_register "noop" 1 noop_executor (MkRegistry ∅))).

Definition legacy_execute (r : ExecutorRegistry) (node : PlanNode) (task : NodeTask) (input : json) :
    result NodeError NodeOutcome :=
  _ ← fail_if (negb (bool_decide (pn_id node = nt_node_id task))) NeTaskIdentityMismatch;
  ok_or ((λ executor : Executor, executor node task input) <$> er_executors r !! (pn_node_type node, pn_version node))
    (NeMissingExecutor (pn_node_type node) (pn_version node)).

(** ** Port contracts *)

Definition schema_holds (schema : string) (value : json) : bool :=
  if bool_decide (schema = "json:any") then true
  else if bool_decide (schema = "json:null") then is_null value
  else if bool_decide (schema = "json:boolean") then is_boolean value
  else if bool_decide (schema = "json:number") then is_number value
  else if bool_decide (schema = "json:string") then is_string value
  else if bool_decide (schema = "json:array") then is_array value
  else if bool_decide (schema = "json:object") then is_object value
  else starts_with "schema:" schema.
Definition validate_schema_ref (schema : option string) (value : json) : result NodeError () :=
  fail_if (negb (schema_holds (default "json:any" schema) value))
    (NeSchemaViolation (default "json:any" schema)).

(** The shared shape of [validate_input] and [validate_output]: one port with
    the conventional name takes the whole value; otherwise the value is an
    object keyed by port names.  [side] is ["input"] or ["output"]. *)
Definition validate_port (side : string) (object : obj) (port : WorkerPortV1) : result NodeError () :=
  match obj_get (port_name port) object with
  | Some value => validate_schema_ref (port_schema_ref port) value
  | None =>
      fail_if (port_required port)
        (NeSchemaViolation ("missing required " +:+ side +:+ " " +:+ port_name port))
  end.
Definition whole_port (side : string) (ports : list WorkerPortV1) : option WorkerPortV1 :=
  match ports with
  | [port] => if bool_decide (port_name port = side) then Some port else None
  | _ => None
  end.
Definition validate_ports (side : string) (ports : list WorkerPortV1) (value : json) : result NodeError () :=
  match whole_port side ports with
  | Some port => validate_schema_ref (port_schema_ref port) value
  | None =>
      object ← ok_or (as_object value) (NeSchemaViolation ("multi-port " +:+ side +:+ " must be an object"));
      for_each (validate_port side object) ports
  end.
Definition validate_input (node : WorkerNodeV1) (value : json) : result NodeError () :=
  validate_ports "input" (wn_inputs node) value.
Definition validate_output (node : WorkerNodeV1) (value : json) : result NodeError () :=
  validate_ports "output" (wn_outputs node) value.

(** ** [ExecutorRegistryV1] *)

Record NodeTaskV1 : Type := MkNodeTaskV1 {
  nv_token_id : StableId;
  nv_node_id : StableId;
  nv_attempt_id : StableId;
  nv_input_revision : N;
  nv_cancelled : bool
}.
Inductive NodeOutcomeV1 : Type :=
| NvCompleted (value : json)
| NvNeedCapability (proposal : WorkerInvocationProposalV1)
| NvSuspended (reason : string) (state : json)
| NvFailed (code : string) (retry_eligible : bool).
Definition V1Executor : Type := WorkerNodeV1 → NodeTaskV1 → json → result NodeError NodeOutcomeV1.
Record ExecutorBindingV1 : Type := MkExecutorBinding {
  xb_contribution_hash : string;
  xb_kind : WorkerExecutorKindV1;
  xb_executor : V1Executor
}.
Record ExecutorRegistryV1 : Type := MkRegistryV1 {
  xr_executors : gmap (string * N) ExecutorBindingV1;
  xr_sealed : bool
}.
Definition ExecutorRegistryV1_default : ExecutorRegistryV1 := MkRegistryV1 ∅ false.

Definition register_executor (node_type : string) (node_version : N) (contribution_hash : string)
    (kind : WorkerExecutorKindV1) (executor : V1Executor) : stm ExecutorRegistryV1 NodeError () :=
  r ← read;
  _ ← reject_if (xr_sealed r) NeRegistrySealed;
  _ ← reject_if (is_some (xr_executors r !! (node_type, node_version))) NeDuplicateExecutor;
  modify (λ r, MkRegistryV1
    (<[(node_type, node_version) := MkExecutorBinding contribution_hash kind executor]> (xr_executors r))
    (xr_sealed r)).
Definition seal (r : ExecutorRegistryV1) : ExecutorRegistryV1 := MkRegistryV1 (xr_executors r) true.

Definition audited_noop : V1Executor := λ _ _ input, Ok (NvCompleted input).
Definition audited_set_value : V1Executor := λ node _ _, Ok (NvCompleted (wn_config node)).
(** The two registrations cannot fail on a fresh registry. *)
Definition with_audited_builtins (noop_hash set_value_hash : string) : ExecutorRegistryV1 :=
  ((_ ← register_executor "aworkit.noop" 1 noop_hash ExPure audited_noop;
    register_executor "aworkit.set_value" 1 set_value_hash ExPure audited_set_value)
   ExecutorRegistryV1_default).1.

Definition execute_v1 (r : ExecutorRegistryV1) (node : WorkerNodeV1) (task : NodeTaskV1) (input : json)
    (authority_manifest_ref budget_ref : StableId) : result NodeError NodeOutcomeV1 :=
  _ ← fail_if (negb (bool_decide (wn_node_id node = nv_node_id task))) NeTaskIdentityMismatch;
  _ ← fail_if (nv_cancelled task) NeCancelled;
  _ ← validate_input node input;
  binding ← ok_or (xr_executors r !! (wn_node_type node, wn_node_version node))
    (NeMissingExecutor (wn_node_type node)
       (if wn_node_version node <=? u16_max then wn_node_version node else u16_max));
  _ ← fail_if (negb (bool_decide (xb_contribution_hash binding = wn_contribution_hash node))
               || negb (bool_decide (xb_kind binding = wn_executor node))) NeContributionMismatch;
  outcome ← xb_executor binding node task input;
  _ ← match outcome with
      | NvCompleted value => validate_output node value
      | NvNeedCapability proposal =>
          fail_if (negb (bool_decide (wn_capability_ref node = Some (ip_capability_ref proposal))))
            NeMissingCapability
      | NvSuspended _ _ | NvFailed _ _ => Ok ()
      end;
  _ ← fail_if (str_is_empty (as_str authority_manifest_ref) || str_is_empty (as_str budget_ref))
        NeInvalidIdentity;
  Ok outcome.

Section broker.
Context `{Sha256, !Serialize (string * string * string * string * json)}.
Definition broker_proposal (node : WorkerNodeV1) (task : NodeTaskV1) (input : json)
    (authority_manifest_ref budget_ref : StableId) : result NodeError NodeOutcomeV1 :=
  capability_ref ← ok_or (wn_capability_ref node) NeMissingCapability;
  _ ← validate_input node input;
  bytes ← ok_or (to_vec (as_str (nv_token_id task), as_str (nv_node_id task), as_str (nv_attempt_id task),
                         as_str capability_ref, input)) (NeSchemaViolation "encoding");
  let digest := sha256_hex bytes in
  invocation_id ← map_err (λ _, NeInvalidIdentity) (StableId_parse ("inv." +:+ str_take 40 digest));
  Ok (NvNeedCapability (MkInvocation invocation_id (wn_node_id node) (nv_attempt_id task) capability_ref
        authority_manifest_ref budget_ref (JObject [("input", input); ("config", wn_config node)]))).
End broker.

(** ** What the port checks decide *)

(** The value satisfies a schema reference; references to named schemas are
    accepted here and evaluated by the core. *)
Definition satisfies (schema : option string) (value : json) : Prop :=
  match schema with
  | None => True
  | Some s =>
      s = "json:any" ∨ (s = "json:null" ∧ value = JNull) ∨ (s = "json:boolean" ∧ ∃ b, value = JBool b)
      ∨ (s = "json:number" ∧ ∃ n, value = JNumber n) ∨ (s = "json:string" ∧ ∃ t, value = JString t)
      ∨ (s = "json:array" ∧ ∃ l, value = JArray l) ∨ (s = "json:object" ∧ ∃ o, value = JObject o)
      ∨ ∃ r, s = "schema:" +:+ r
  end.
(** The value fits the ports of one side of a node. *)
Definition fits (side : string) (ports : list WorkerPortV1) (value : json) : Prop :=
  match whole_port side ports with
  | Some port => satisfies (port_schema_ref port) value
  | None => ∃ o, value = JObject o ∧ ∀ port, port ∈ ports →
      match obj_get (port_name port) o with
      | Some v => satisfies (port_schema_ref port) v
      | None => port_required port = false
      end
  end.

Lemma validate_schema_ref_iff schema value :
  validate_schema_ref schema value = Ok () ↔ satisfies schema value.
Proof.
  unfold validate_schema_ref, satisfies. rewrite fail_if_ok, negb_false_iff.
  destruct schema as [s|]; simpl; [|done]. unfold schema_holds.
  assert (starts_with "schema:" s = true ↔ ∃ r, s = "schema:" +:+ r) as Hnamed.
  { unfold starts_with. destruct (strip_prefix "schema:" s) as [r|] eqn:E.
    - apply strip_prefix_Some in E. naive_solver.
    - split; [done|]. intros [r Hr]. apply strip_prefix_Some in Hr. congruence. }
  repeat case_bool_decide; subst; try (split; [by auto 9|done]);
    rewrite ?Hnamed; destruct value; simpl; naive_solver.
Qed.

Lemma validate_ports_iff side ports value : validate_ports side ports value = Ok () ↔ fits side ports value.
Proof.
  unfold validate_ports, fits. destruct (whole_port side ports) as [port|]; [apply validate_schema_ref_iff|].
  assert (∀ o port, validate_port side o port = Ok () ↔
    match obj_get (port_name port) o with
    | Some v => satisfies (port_schema_ref port) v
    | None => port_required port = false
    end) as Hport.
  { intros o port. unfold validate_port. destruct (obj_get _ o); [apply validate_schema_ref_iff|apply fail_if_ok]. }
  destruct (as_object value) as [o|] eqn:Ho; simpl.
  - assert (value = JObject o) as -> by (destruct value; naive_solver). rewrite for_each_ok. setoid_rewrite Hport.
    naive_solver.
  - split; [done|]. intros (o & -> & _). done.
Qed.

(** ** Dispatch *)

(** What an executor's answer must satisfy to be passed on. *)
Definition outcome_fits (node : WorkerNodeV1) (outcome : NodeOutcomeV1) : Prop :=
  match outcome with
  | NvCompleted value => fits "output" (wn_outputs node) value
  | NvNeedCapability proposal => wn_capability_ref node = Some (ip_capability_ref proposal)
  | NvSuspended _ _ | NvFailed _ _ => True
  end.

Lemma stable_id_nonempty i : str_is_empty (as_str i) = false.
Proof.
  pose proof (as_str_valid i) as Hv%Is_true_true. unfold valid_stable_id in Hv.
  apply andb_true_iff in Hv as [[Hne _]%andb_true_iff _]. by apply negb_true_iff.
Qed.

(** Dispatch is exact: a task is run if and only if it names the node, is not
    cancelled, its input fits the node's frozen input ports, and the registry
    binds the node's type and version to the very contribution hash and kind
    the plan froze; and what comes back is the bound executor's answer, whose
    value fits the output ports or whose proposal asks for the node's frozen
    capability and no other.  The final check of the authority and budget
    references never fails. *)
Theorem execute_v1_exact r node task input a b outcome :
  execute_v1 r node task input a b = Ok outcome ↔
  wn_node_id node = nv_node_id task ∧ nv_cancelled task = false
  ∧ fits "input" (wn_inputs node) input
  ∧ ∃ binding, xr_executors r !! (wn_node_type node, wn_node_version node) = Some binding
      ∧ xb_contribution_hash binding = wn_contribution_hash node ∧ xb_kind binding = wn_executor node
      ∧ xb_executor binding node task input = Ok outcome ∧ outcome_fits node outcome.
Proof.
  unfold execute_v1. rewrite !stable_id_nonempty. split.
  - intros He. res_inv He. boolify. units.
    split_and!; [done|done|by apply validate_ports_iff|]. eexists. split_and!; try done.
    unfold outcome_fits. destruct outcome; try done; [by apply validate_ports_iff|].
    match goal with Hc : fail_if _ NeMissingCapability = _ |- _ => res_inv Hc end. by boolify.
  - intros (Hid & Hc & Hin & binding & Hb & Hh & Hk & He & Hout). apply validate_ports_iff in Hin.
    unfold validate_input. rewrite Hc, Hin, Hb, (bool_decide_true (wn_node_id _ = _)) by done. simpl.
    rewrite Hh, Hk, !bool_decide_true by done. simpl. rewrite He. simpl. unfold outcome_fits in Hout. destruct outcome; simpl; try done.
    + unfold validate_output. by rewrite (proj2 (validate_ports_iff _ _ _) Hout).
    + by rewrite bool_decide_true.
Qed.

(** ** The registry over time *)

Inductive registry_call : Type :=
| RcRegister (node_type : string) (version : N) (hash : string) (kind : WorkerExecutorKindV1) (executor : V1Executor)
| RcSeal.
Definition registry_step (r : ExecutorRegistryV1) (c : registry_call) : ExecutorRegistryV1 :=
  match c with
  | RcRegister t v h k x => (register_executor t v h k x r).1
  | RcSeal => seal r
  end.
Definition registry_run (cs : list registry_call) (r : ExecutorRegistryV1) : ExecutorRegistryV1 :=
  foldl registry_step r cs.

Lemma registry_step_grows r c :
  xr_executors r ⊆ xr_executors (registry_step r c)
  ∧ (xr_sealed r = true → xr_executors (registry_step r c) = xr_executors r ∧ xr_sealed (registry_step r c) = true).
Proof.
  destruct c as [t v h k x|]; simpl; [|done].
  unfold register_executor, mbind, stm_bind, read, reject_if, fail_if. simpl.
  destruct (xr_sealed r) eqn:Hs; simpl; [done|].
  destruct (xr_executors r !! (t, v)) eqn:Hk; simpl; [done|]. split; [by apply insert_subseteq|done].
Qed.

Lemma registry_run_grows cs r :
  xr_executors r ⊆ xr_executors (registry_run cs r)
  ∧ (xr_sealed r = true → xr_executors (registry_run cs r) = xr_executors r).
Proof.
  revert r. induction cs as [|c cs IH]; intros r; [done|]. simpl.
  destruct (registry_step_grows r c) as [H1 H2]. destruct (IH (registry_step r c)) as [H3 H4].
  split; [by etrans|]. intros Hs. destruct (H2 Hs) as [H5 H6]. by rewrite H4.
Qed.

(** Execution is pinned.  Whatever is registered later, a node whose type and
    version are bound keeps its executor, so dispatching it gives the same
    answer, failures included; and once the registry is sealed, dispatching
    any node does. *)
Theorem execution_pinned r cs node task input a b :
  (is_Some (xr_executors r !! (wn_node_type node, wn_node_version node)) ∨ xr_sealed r = true) →
  execute_v1 (registry_run cs r) node task input a b = execute_v1 r node task input a b.
Proof.
  intros Hor. destruct (registry_run_grows cs r) as [Hsub Hseal]. unfold execute_v1.
  assert (xr_executors (registry_run cs r) !! (wn_node_type node, wn_node_version node)
          = xr_executors r !! (wn_node_type node, wn_node_version node)) as ->; [|done].
  destruct Hor as [[x Hx]|Hs]; [|by rewrite Hseal]. rewrite Hx. by eapply lookup_weaken.
Qed.

Section broker_facts.
Context `{Sha256Laws, !Serialize (string * string * string * string * json)}.

(** A broker proposal is built whenever the node has a capability, the input
    fits and can be encoded: the digest always gives a valid identifier.  It
    carries the frozen capability and is a function of the token, node,
    attempt, capability and input alone, so a retried dispatch of the same
    attempt repeats its invocation id. *)
Theorem broker_proposal_total node task input a b capability bytes :
  wn_capability_ref node = Some capability → fits "input" (wn_inputs node) input →
  to_vec (as_str (nv_token_id task), as_str (nv_node_id task), as_str (nv_attempt_id task),
          as_str capability, input) = Some bytes →
  ∃ p, broker_proposal node task input a b = Ok (NvNeedCapability p)
    ∧ outcome_fits node (NvNeedCapability p)
    ∧ as_str (ip_invocation_id p) = "inv." +:+ str_take 40 (sha256_hex bytes)
    ∧ ip_attempt_id p = nv_attempt_id task ∧ ip_node_id p = wn_node_id node.
Proof.
  intros Hcap Hin Hbytes. destruct (digest_id_total "inv." 40 bytes) as [i Hi]; [done..|].
  unfold broker_proposal, validate_input. rewrite Hcap. cbn [ok_or mbind result_bind].
  rewrite (proj2 (validate_ports_iff _ _ _) Hin), Hbytes. cbn [ok_or mbind result_bind].
  rewrite Hi. cbn [map_err mbind result_bind]. eexists. split_and!; try done. by apply StableId_parse_ok in Hi.
Qed.
End broker_facts.

(** ** The audited executors *)

Module DemoNode.
Import (hints) Demo.
#[export] Instance dispatch_ser : Serialize (string * string * string * string * json) := {|
  to_vec x := Some (as_bytes x.1.1.1.1); jcs_to_vec x := Some (as_bytes x.1.1.1.1)
|}.
Definition registry : ExecutorRegistryV1 := with_audited_builtins "h1" "h2".
Definition node (out : string) : WorkerNodeV1 :=
  MkNode id:"n" "aworkit.set_value" 1 "h2" [MkPort "input" None true] [MkPort "output" (Some out) true]
    ExPure (JString "v") (Some id:"cap") None.
Definition task : NodeTaskV1 := MkNodeTaskV1 id:"t" id:"n" id:"a" 1 false.
End DemoNode.

Section node_witnesses.
Import (hints) Demo DemoNode.
Import DemoNode.

Lemma execute_v1_exact_demo :
  execute_v1 registry (node "json:string") task JNull id:"auth" id:"budget" = Ok (NvCompleted (JString "v"))
  ∧ execute_v1 registry (node "json:null") task JNull id:"auth" id:"budget" = Err (NeSchemaViolation "json:null").
Proof. split; vm_compute; reflexivity. Qed.

Lemma execution_pinned_witness :
  execute_v1 (registry_run [RcRegister "aworkit.set_value" 1 "evil" ExPure audited_noop; RcSeal] registry)
    (node "json:string") task JNull id:"auth" id:"budget"
  = execute_v1 registry (node "json:string") task JNull id:"auth" id:"budget".
Proof.
  apply (execution_pinned registry
    [RcRegister "aworkit.set_value" 1 "evil" ExPure audited_noop; RcSeal] (node "json:string") task JNull
    id:"auth" id:"budget").
  left. vm_compute. eexists. reflexivity.
Defined.

Lemma broker_proposal_total_witness : ∃ p,
  broker_proposal (node "json:any") task JNull id:"auth" id:"budget" = Ok (NvNeedCapability p).
Proof.
  destruct (broker_proposal_total (node "json:any") task JNull id:"auth" id:"budget" id:"cap" (as_bytes "t"))
    as (p & Hp & _); [reflexivity|exact I|reflexivity|]. exists p. exact Hp.
Defined.
End node_witnesses.
