(* ===== verification/Runtime.v ===== *)
(** * The worker service ([crates/aworkit-workflow-worker/src/runtime.rs])

    [WorkerServiceV1] composes the plan compiler, the rehydrator and the core
    gateway into one control handler; [serve_stdio] runs it over framed
    standard input and output.  Definitions; the theorems are in
    [RuntimeProofs] and [StdioProofs]. *)
From S2P Require Export Calls.

Inductive ErrorKind : Type := EkInterrupted | EkUnexpectedEof | EkOther.
#[export] Instance ErrorKind_eq_dec : EqDecision ErrorKind.
Proof. solve_decision. Defined.

Inductive WorkerRuntimeError : Type :=
| WeGateway (e : GatewayError)
| WePlan (e : PlanError)
| WeRecovery (e : RecoveryErrorV1)
| WeProtocol (e : ProtocolError)
| WeIo (e : ErrorKind)
| WeNotStarted
| WeTruncatedFrame.

Record ServiceResultV1 : Type := MkServiceResult {
  sv_handshake : option WorkerHandshakeV1;
  sv_proposals : list WorkerProposalEnvelopeV1;
  sv_heartbeat : option WorkerHeartbeatV1;
  sv_shutdown_ack : option StableId;
  sv_shutdown : bool
}.
Definition ServiceResultV1_default : ServiceResultV1 := MkServiceResult None [] None None false.

Record WorkerServiceV1 : Type := MkService {
  wk_gateway : CoreGatewayV1;
  wk_plan : option ExecutionPlanV1;
  wk_heartbeat_sequence : N
}.
Definition WorkerServiceV1_new : WorkerServiceV1 := MkService CoreGatewayV1_new None 0.

Definition wk_gateway_lens : lens WorkerServiceV1 CoreGatewayV1 :=
  MkLens wk_gateway (λ g s, MkService g (wk_plan s) (wk_heartbeat_sequence s)).
Definition wk_set_plan p s := MkService (wk_gateway s) p (wk_heartbeat_sequence s).
Definition wk_set_heartbeat n s := MkService (wk_gateway s) (wk_plan s) n.

(** [serde] names of the enumerations that [json!] embeds. *)
Definition approval_text (o : ApprovalOutcomeV1) : string :=
  match o with
  | AoApproved => "approved" | AoDenied => "denied" | AoExpired => "expired" | AoCancelled => "cancelled"
  end.
Definition outcome_class_text (c : CapabilityOutcomeClassV1) : string :=
  match c with
  | CoSuccess => "success" | CoDefiniteNotStarted => "definite_not_started"
  | CoFailedKnownStarted => "failed_known_started" | CoCancelledEvidence => "cancelled_evidence"
  | CoUncertain => "uncertain" | CoDenied => "denied"
  end.
Definition jid (i : StableId) : json := JString (as_str i).

(** ** The control handler *)

Section service.
Context `{Sha256, !Serialize WorkerFrozenRunSnapshotV1, !Serialize json,
          !Serialize (string * WorkerFrozenRunSnapshotV1 * string), !Serialize WorkerCheckpointV1,
          !ToValue CapabilityOutcomeV1,
          !Serialize WorkerControlEnvelopeV1, !Serialize WorkerProposalEnvelopeV1}.
(** [env!("CARGO_PKG_VERSION")] and [std::env::current_exe()]. *)
Context (pkg_version : string) (current_exe : option string).

Abbreviation wk := (stm WorkerServiceV1 WorkerRuntimeError).

Definition handshake (envelope : WorkerControlEnvelopeV1) (fingerprint : string) : WorkerHandshakeV1 :=
  MkHandshake 1 pkg_version (ce_chat_id envelope) (ce_run_id envelope) (ce_generation envelope)
    (ce_snapshot_hash envelope) fingerprint (default "aworkit-workflow-worker" current_exe).

Definition require_plan : wk () :=
  s ← read; reject_if (negb (is_some (wk_plan s))) WeNotStarted.

(** The plan, and for a restore the checkpoint hash, prepared before the
    gateway is touched. *)
Definition prepare (envelope : WorkerControlEnvelopeV1) :
    result WorkerRuntimeError (option (ExecutionPlanV1 * option string)) :=
  match ce_control envelope with
  | CkStart snapshot =>
      plan ← map_err WePlan (compile snapshot (ce_snapshot_hash envelope));
      Ok (Some (plan, None))
  | CkRestore rehydration =>
      restored ← map_err WeRecovery (rehydrate rehydration);
      plan ← map_err WePlan (compile (re_snapshot rehydration) (ce_snapshot_hash envelope));
      Ok (Some (plan, Some (wc_checkpoint_hash (rh_checkpoint restored))))
  | _ => Ok None
  end.

Definition emit_one (p : WorkerProposalKindV1) : wk WorkerProposalEnvelopeV1 :=
  call wk_gateway_lens WeGateway (emit p).
Definition emit_one_reserved (p : WorkerProposalKindV1) : wk WorkerProposalEnvelopeV1 :=
  call wk_gateway_lens WeGateway (emit_reserved p).

Definition with_proposal (p : WorkerProposalEnvelopeV1) : ServiceResultV1 :=
  MkServiceResult None [p] None None false.

(** The arms of the [match] on an admitted control. *)
Definition dispatch (envelope : WorkerControlEnvelopeV1)
    (prepared : option (ExecutionPlanV1 * option string)) : wk ServiceResultV1 :=
  match ce_control envelope with
  | CkStart _ =>
      match prepared with
      | None => mret ServiceResultV1_default
      | Some (plan, _) =>
          _ ← modify (wk_set_plan (Some plan));
          p ← emit_one (PkReady (plan_fingerprint plan));
          mret (MkServiceResult (Some (handshake envelope (plan_fingerprint plan))) [p] None None false)
      end
  | CkRestore _ =>
      match prepared with
      | None => mret ServiceResultV1_default
      | Some (plan, checkpoint_hash) =>
          _ ← modify (wk_set_plan (Some plan));
          p ← emit_one (PkRehydrationReady (default "" checkpoint_hash));
          mret (MkServiceResult (Some (handshake envelope (plan_fingerprint plan))) [p] None None false)
      end
  | CkInput input_id _ =>
      _ ← require_plan;
      p ← emit_one (PkHealth (JObject [("acceptedInputId", jid input_id)]));
      mret (with_proposal p)
  | CkApproval approval_id outcome =>
      _ ← require_plan;
      p ← emit_one (PkHealth (JObject [("acceptedApprovalId", jid approval_id);
                                       ("outcome", JString (approval_text outcome))]));
      mret (with_proposal p)
  | CkPause control_id scope =>
      _ ← require_plan;
      p ← emit_one_reserved (PkSuspension control_id
             (JObject [("state", JString "paused"); ("scope", JString scope)]));
      mret (with_proposal p)
  | CkResume control_id scope =>
      _ ← require_plan;
      p ← emit_one_reserved (PkHealth (JObject [("resumedControlId", jid control_id); ("scope", JString scope)]));
      mret (with_proposal p)
  | CkCancel control_id scope =>
      _ ← require_plan;
      p ← emit_one_reserved (PkTerminal "cancelled"
             (JObject [("controlId", jid control_id); ("scope", JString scope)]));
      mret (with_proposal p)
  | CkCapabilityOutcome outcome =>
      _ ← require_plan;
      p ← emit_one (PkHealth (JObject
             [("acceptedOutcomeId", jid (co_outcome_id outcome));
              ("invocationId", jid (co_invocation_id outcome));
              ("class", JString (outcome_class_text (co_class outcome)))]));
      mret (with_proposal p)
  | CkCommittedAck _ _ => mret ServiceResultV1_default
  | CkShutdown control_id => mret (MkServiceResult None [] None (Some control_id) true)
  end.

(** The heartbeat every newly admitted control is answered with. *)
Definition beat (result : ServiceResultV1) : wk ServiceResultV1 :=
  _ ← modify (λ s, wk_set_heartbeat (saturating_add u64_max (wk_heartbeat_sequence s) 1) s);
  s ← read;
  mret (MkServiceResult (sv_handshake result) (sv_proposals result)
          (Some (MkHeartbeat (wk_heartbeat_sequence s) (wk_heartbeat_sequence s)
                   (negb (sv_shutdown result)) (is_nil (sv_proposals result))))
          (sv_shutdown_ack result) (sv_shutdown result)).

Definition handle (envelope : WorkerControlEnvelopeV1) : wk ServiceResultV1 :=
  prepared ← lift (prepare envelope);
  admission ← call wk_gateway_lens WeGateway (admit_control envelope);
  match admission with
  | AdDuplicate => mret ServiceResultV1_default
  | AdNew => result ← dispatch envelope prepared; beat result
  end.

Definition pending_proposals (s : WorkerServiceV1) : list WorkerProposalEnvelopeV1 :=
  retransmit_pending (wk_gateway s).
End service.

(** ** Framed standard input and output

    A reader is what successive [read] calls will meet: data (at most one
    chunk per call, and no more than was asked for) or an error; when nothing
    is left, [read] returns no bytes.  A writer is what was written so far and
    the failures to come: a failing call writes a prefix of its bytes. *)
Inductive read_event : Type :=
| RData (b : bytes)
| RFail (e : ErrorKind).
Abbreviation reader := (list read_event).

Definition read_some (n : nat) (r : reader) : reader * result ErrorKind bytes :=
  match r with
  | [] => ([], Ok [])
  | RFail e :: r => (r, Err e)
  | RData b :: r =>
      if (length b <=? n)%nat then (r, Ok b) else (RData (drop n b) :: r, Ok (take n b))
  end.

(** [Read::read_exact]: interrupted reads are retried, the end of the input is
    [UnexpectedEof].  Every turn uses up an event or finishes, so one turn more
    than there are events suffices; [None] is exhausted fuel. *)
Fixpoint read_exact (fuel : nat) (n : nat) (acc : bytes) (r : reader) :
    option (reader * result ErrorKind bytes) :=
  if (n =? 0)%nat then Some (r, Ok acc) else
  match fuel with
  | O => None
  | S fuel =>
      match read_some n r with
      | (r, Err EkInterrupted) => read_exact fuel n acc r
      | (r, Err e) => Some (r, Err e)
      | (r, Ok []) => Some (r, Err EkUnexpectedEof)
      | (r, Ok b) => read_exact fuel (n - length b) (acc ++ b) r
      end
  end.

(** The loop over the four prefix bytes: each turn reads at least one. *)
Fixpoint read_prefix (fuel : nat) (acc : bytes) (r : reader) :
    option (reader * result WorkerRuntimeError (option bytes)) :=
  if (FRAME_PREFIX_BYTES <=? length acc)%nat then Some (r, Ok (Some acc)) else
  match fuel with
  | O => None
  | S fuel =>
      match read_some (FRAME_PREFIX_BYTES - length acc) r with
      | (r, Err e) => Some (r, Err (WeIo e))
      | (r, Ok []) => Some (r, if is_nil acc then Ok None else Err WeTruncatedFrame)
      | (r, Ok b) => read_prefix fuel (acc ++ b) r
      end
  end.

Definition read_one_frame (r : reader) : option (reader * result WorkerRuntimeError (option bytes)) :=
  match read_prefix FRAME_PREFIX_BYTES [] r with
  | None => None
  | Some (r, Err e) => Some (r, Err e)
  | Some (r, Ok None) => Some (r, Ok None)
  | Some (r, Ok (Some prefix)) =>
      let body_len := from_be_bytes prefix in
      if MAX_FRAME_BYTES <? body_len then Some (r, Err (WeProtocol FrameTooLarge)) else
      match read_exact (S (length r)) (N.to_nat body_len) [] r with
      | None => None
      | Some (r, Ok body) => Some (r, Ok (Some (prefix ++ body)))
      | Some (r, Err EkUnexpectedEof) => Some (r, Err WeTruncatedFrame)
      | Some (r, Err e) => Some (r, Err (WeIo e))
      end
  end.

Inductive write_event : Type :=
| WOk
| WFail (e : ErrorKind) (written : nat).
Record writer : Type := MkWriter { ww_written : bytes; ww_script : list write_event }.

(** [Write::write_all] and [Write::flush]. *)
Definition write_all (b : bytes) : stm writer WorkerRuntimeError () := λ w,
  match ww_script w with
  | [] => (MkWriter (ww_written w ++ b) [], Ok ())
  | WOk :: script => (MkWriter (ww_written w ++ b) script, Ok ())
  | WFail e n :: script => (MkWriter (ww_written w ++ take n b) script, Err (WeIo e))
  end.
Definition flush : stm writer WorkerRuntimeError () := write_all [].

(** [s.chars().take(n).collect()] on UTF-8 text. *)
Fixpoint chars_take (n : nat) (s : string) : string :=
  match s with
  | EmptyString => EmptyString
  | String c s =>
      if in_range 128 191 (byte_of c) then String c (chars_take n s)
      else match n with
           | O => EmptyString
           | S n => String c (chars_take n s)
           end
  end.

(** [Display] of the errors [handle] returns; protocol and I/O errors end
    [serve_stdio] and are printed by the process entry point instead. *)
Definition runtime_error_text (e : WorkerRuntimeError) : string :=
  match e with
  | WeGateway e => "core gateway rejected message: " +:+ gateway_error_text e
  | WePlan e => "frozen execution plan is invalid: " +:+ plan_error_text e
  | WeRecovery e => "rehydration envelope is invalid: " +:+ recovery_error_text e
  | WeProtocol _ => "framed protocol error: "
  | WeIo _ => "stdio transport error: "
  | WeNotStarted => "worker received a control before start or restore"
  | WeTruncatedFrame => "truncated frame on worker stdin"
  end.

Section stdio.
Context `{Sha256, !Serialize WorkerFrozenRunSnapshotV1, !Serialize json,
          !Serialize (string * WorkerFrozenRunSnapshotV1 * string), !Serialize WorkerCheckpointV1,
          !ToValue CapabilityOutcomeV1,
          !Serialize WorkerControlEnvelopeV1, !Serialize WorkerProposalEnvelopeV1,
          !Serialize WorkerOutputEnvelopeV1, !Deserialize WorkerControlEnvelopeV1}.
Context (pkg_version : string) (current_exe : option string).

Definition output_id (material : string) : result WorkerRuntimeError StableId :=
  let digest := sha256_hex (as_bytes material) in
  map_err (λ _, WeGateway GeInvalidIdentifier) (StableId_parse ("worker.output." +:+ str_take 48 digest)).

Definition write_output (envelope : WorkerOutputEnvelopeV1) : stm writer WorkerRuntimeError () :=
  frame ← lift (map_err WeProtocol (encode_frame envelope));
  write_all frame.

(** [if let Some(x) = o { .. }] *)
Definition if_some {A} (o : option A) (f : A → stm writer WorkerRuntimeError ()) :
    stm writer WorkerRuntimeError () :=
  match o with Some x => f x | None => mret () end.
Fixpoint write_proposals (generation : ProcessGeneration) (ps : list WorkerProposalEnvelopeV1) :
    stm writer WorkerRuntimeError () :=
  match ps with
  | [] => mret ()
  | p :: ps =>
      _ ← write_output (MkOutput (pe_proposal_id p) generation (OkProposal p));
      write_proposals generation ps
  end.

Definition write_error (request_id : StableId) (generation : ProcessGeneration)
    (error : WorkerRuntimeError) : stm writer WorkerRuntimeError () :=
  i ← lift (output_id ("error:" +:+ as_str request_id));
  frame ← lift (map_err WeProtocol (encode_frame (MkOutput i generation
             (OkError "worker_control_rejected" (chars_take 4096 (runtime_error_text error))))));
  _ ← write_all frame;
  flush.

Definition write_response (request_id : StableId) (generation : ProcessGeneration)
    (response : ServiceResultV1) : stm writer WorkerRuntimeError () :=
  _ ← if_some (sv_handshake response) (λ h,
        i ← lift (output_id ("handshake:" +:+ as_str request_id));
        write_output (MkOutput i generation (OkHandshake h)));
  _ ← write_proposals generation (sv_proposals response);
  _ ← if_some (sv_heartbeat response) (λ h,
        i ← lift (output_id ("heartbeat:ProcessGeneration(" +:+ pretty generation +:+ "):"
                             +:+ pretty (hb_sequence h)));
        write_output (MkOutput i generation (OkHeartbeat h)));
  _ ← if_some (sv_shutdown_ack response) (λ control_id,
        i ← lift (output_id ("shutdown:" +:+ as_str control_id));
        write_output (MkOutput i generation (OkShutdownAck control_id)));
  flush.

(** One turn of the loop on a frame: whether to stop. *)
Definition serve_frame (frame : bytes) (service : WorkerServiceV1) (w : writer) :
    WorkerServiceV1 * writer * result WorkerRuntimeError bool :=
  match map_err WeProtocol (decode_frame (T:=WorkerControlEnvelopeV1) frame) with
  | Err e => (service, w, Err e)
  | Ok control =>
      let '(service, answer) := handle pkg_version current_exe control service in
      match answer with
      | Err error =>
          let '(w, r) := write_error (ce_message_id control) (ce_generation control) error w in
          (service, w, (λ _, false) <$> r)
      | Ok response =>
          let '(w, r) := write_response (ce_message_id control) (ce_generation control) response w in
          (service, w, (λ _, sv_shutdown response) <$> r)
      end
  end.

(** Every turn reads at least a frame prefix; [None] is exhausted fuel. *)
Fixpoint serve_loop (fuel : nat) (service : WorkerServiceV1) (input : reader) (w : writer) :
    option (WorkerServiceV1 * writer * result WorkerRuntimeError ()) :=
  match fuel with
  | O => None
  | S fuel =>
      match read_one_frame input with
      | None => None
      | Some (input, Err e) => Some (service, w, Err e)
      | Some (input, Ok None) => Some (service, w, Ok ())
      | Some (input, Ok (Some frame)) =>
          match serve_frame frame service w with
          | (service, w, Err e) => Some (service, w, Err e)
          | (service, w, Ok true) => Some (service, w, Ok ())
          | (service, w, Ok false) => serve_loop fuel service input w
          end
      end
  end.

(** Bytes left to read. *)
Definition unread (r : reader) : nat :=
  foldr (λ e acc, match e with RData b => length b | RFail _ => O end + acc)%nat O r.
Definition serve_stdio (input : reader) (w : writer) :
    option (WorkerServiceV1 * writer * result WorkerRuntimeError ()) :=
  serve_loop (S (unread input)) WorkerServiceV1_new input w.
End stdio.
