(* ===== verification/RuntimeProofs.v ===== *)
(** * The control handler: plan and identity agree, rejections are harmless,
    each control takes effect once *)
From S2P Require Export Runtime.

Section service_facts.
Context `{Sha256, !Serialize WorkerFrozenRunSnapshotV1, !Serialize json,
          !Serialize (string * WorkerFrozenRunSnapshotV1 * string), !Serialize WorkerCheckpointV1,
          !ToValue CapabilityOutcomeV1,
          !Serialize WorkerControlEnvelopeV1, !Serialize WorkerProposalEnvelopeV1}.
Context (version : string) (exe : option string).
Implicit Types (s : WorkerServiceV1) (e : WorkerControlEnvelopeV1).

(** The snapshot a control brings, if it is a start or a restore. *)
Definition initial_snapshot (e : WorkerControlEnvelopeV1) : option WorkerFrozenRunSnapshotV1 :=
  match ce_control e with
  | CkStart snapshot => Some snapshot
  | CkRestore rehydration => Some (re_snapshot rehydration)
  | _ => None
  end.

(** The plan executes the run the gateway is fenced to. *)
Definition plan_matches (i : ActiveIdentity) (p : ExecutionPlanV1) : Prop :=
  PlanWf p ∧ ws_chat_id (plan_snapshot p) = ai_chat_id i ∧ ws_run_id (plan_snapshot p) = ai_run_id i
  ∧ ws_snapshot_hash (plan_snapshot p) = ai_snapshot_hash i.

Record service_inv (s : WorkerServiceV1) : Prop := {
  vi_gateway : gateway_inv (wk_gateway s);
  vi_plan : match gw_identity (wk_gateway s), wk_plan s with
            | None, None => True
            | Some i, Some p => plan_matches i p
            | _, _ => False
            end
}.

Lemma service_new_inv : service_inv WorkerServiceV1_new.
Proof. split; [apply with_bounds_inv|done]. Qed.

Lemma compile_snapshot w h p : compile w h = Ok p → PlanWf p ∧ plan_snapshot p = canonicalize_snapshot w.
Proof. intros Hc%compile_build. by apply build_plan_wf. Qed.

(** ** Admission *)

Lemma admit_initial g g1 e snapshot :
  initial_snapshot e = Some snapshot → admit_control e g = (g1, Ok AdNew) →
  gw_identity g = None ∧ gw_identity g1 = Some (envelope_identity e) ∧ snapshot_differs snapshot e = false.
Proof.
  intros Hs Ha. pose proof (admit_new_facts _ _ _ Ha) as [Hi _]. unfold admit_control in Ha.
  apply bind_ok in Ha as (? & h & Hh & Ha). run_inv_step Hh.
  apply bind_ok in Ha as (? & ? & [= <- <-] & Ha).
  destruct (gw_seen_messages g !! _) as [h'|] eqn:Hseen; [by run_inv Ha|].
  apply bind_ok in Ha as (g' & [] & Hid & _). unfold initial_snapshot in Hs. unfold admit_identity in Hid.
  apply bind_ok in Hid as (? & ? & [= <- <-] & Hid).
  destruct (ce_control e); simplify_eq; run_inv Hid; boolify; split_and!; try done; by destruct (gw_identity g).
Qed.

Lemma admit_later g g1 e :
  initial_snapshot e = None → admit_control e g = (g1, Ok AdNew) → gw_identity g = Some (envelope_identity e).
Proof.
  intros Hs Ha. unfold admit_control in Ha.
  apply bind_ok in Ha as (? & h & Hh & Ha). run_inv_step Hh.
  apply bind_ok in Ha as (? & ? & [= <- <-] & Ha).
  destruct (gw_seen_messages g !! _) as [h'|] eqn:Hseen; [by run_inv Ha|].
  apply bind_ok in Ha as (g' & [] & Hid & _). unfold initial_snapshot in Hs. unfold admit_identity in Hid.
  apply bind_ok in Hid as (? & ? & [= <- <-] & Hid).
  destruct (ce_control e); simplify_eq; run_inv Hid; by apply validate_identity_ok.
Qed.

Lemma admit_duplicate g g1 e : admit_control e g = (g1, Ok AdDuplicate) → g1 = g.
Proof.
  unfold admit_control. intros Ha. apply bind_ok in Ha as (? & h & Hh & Ha). run_inv_step Hh.
  apply bind_ok in Ha as (? & ? & [= <- <-] & Ha).
  destruct (gw_seen_messages g !! _) as [h'|] eqn:Hseen; [by run_inv Ha|].
  apply bind_ok in Ha as (g' & [] & _ & Ha). apply bind_ok in Ha as (? & ? & [= <- <-] & Ha).
  apply bind_ok in Ha as (g2 & [] & _ & Ha). by run_inv Ha.
Qed.

Lemma snapshot_same snapshot e :
  snapshot_differs snapshot e = false →
  ws_chat_id snapshot = ce_chat_id e ∧ ws_run_id snapshot = ce_run_id e
  ∧ ws_snapshot_hash snapshot = ce_snapshot_hash e.
Proof. unfold snapshot_differs. intros Hd. by boolify. Qed.

(** ** Preparation *)

Lemma prepare_initial e r :
  prepare e = Ok r →
  match initial_snapshot e with
  | Some snapshot => ∃ p k, r = Some (p, k) ∧ compile snapshot (ce_snapshot_hash e) = Ok p
  | None => r = None
  end.
Proof.
  unfold prepare, initial_snapshot. destruct (ce_control e); intros Hp; res_inv Hp; simplify_eq; eauto.
Qed.

Lemma prepare_err e err : prepare e = Err err → (∃ x, err = WePlan x) ∨ ∃ x, err = WeRecovery x.
Proof.
  unfold prepare. destruct (ce_control e); try done.
  - destruct (compile _ _); simpl; intros [= <-]; eauto.
  - destruct (rehydrate _); simpl; [|intros [= <-]; eauto]. destruct (compile _ _); simpl; intros [= <-]; eauto.
Qed.

(** ** Dispatch *)

(** One emission through the service. *)
Lemma emit_one_cases k (reserved : bool) s s' r :
  (if reserved then emit_one_reserved k else emit_one k) s = (s', r) →
  wk_plan s' = wk_plan s ∧ wk_heartbeat_sequence s' = wk_heartbeat_sequence s ∧
  match r with
  | Ok p => emit_inner k reserved (wk_gateway s) = (wk_gateway s', Ok p)
  | Err err => s' = s ∧ ∃ ge, err = WeGateway ge
      ∧ emit_inner k reserved (wk_gateway s) = (wk_gateway s, Err ge)
  end.
Proof.
  destruct reserved; unfold emit_one_reserved, emit_one, emit_reserved, emit; destruct r as [p|err]; intros Hr;
    call_inv; try done.
  all: pose proof (emit_inner_err _ _ _ _ _ Hr); subst; destruct s; simpl in *; eauto 8.
Qed.

(** The proposal a control is answered with, and whether it may use the
    reserved lane. *)
Definition answer_of (e : WorkerControlEnvelopeV1) (prepared : option (ExecutionPlanV1 * option string)) :
    option (WorkerProposalKindV1 * bool) :=
  match ce_control e, prepared with
  | CkStart _, Some (p, _) => Some (PkReady (plan_fingerprint p), false)
  | CkRestore _, Some (_, k) => Some (PkRehydrationReady (default "" k), false)
  | CkInput i _, _ => Some (PkHealth (JObject [("acceptedInputId", jid i)]), false)
  | CkApproval i o, _ => Some (PkHealth (JObject [("acceptedApprovalId", jid i);
                                                  ("outcome", JString (approval_text o))]), false)
  | CkPause i scope, _ => Some (PkSuspension i (JObject [("state", JString "paused"); ("scope", JString scope)]), true)
  | CkResume i scope, _ => Some (PkHealth (JObject [("resumedControlId", jid i); ("scope", JString scope)]), true)
  | CkCancel i scope, _ => Some (PkTerminal "cancelled" (JObject [("controlId", jid i); ("scope", JString scope)]), true)
  | CkCapabilityOutcome o, _ =>
      Some (PkHealth (JObject [("acceptedOutcomeId", jid (co_outcome_id o));
                               ("invocationId", jid (co_invocation_id o));
                               ("class", JString (outcome_class_text (co_class o)))]), false)
  | _, _ => None
  end.
Definition shutdown_of (e : WorkerControlEnvelopeV1) : option StableId :=
  match ce_control e with CkShutdown i => Some i | _ => None end.

(** The handler's answer to an admitted control, before its heartbeat. *)
Definition plain_answer (e : WorkerControlEnvelopeV1) (prepared : option (ExecutionPlanV1 * option string))
    (ps : list WorkerProposalEnvelopeV1) : ServiceResultV1 :=
  MkServiceResult ((λ p, handshake version exe e (plan_fingerprint p.1)) <$> prepared) ps None
    (shutdown_of e) (is_some (shutdown_of e)).

(** The service once the control's plan, if it brings one, is installed. *)
Definition installed (prepared : option (ExecutionPlanV1 * option string)) s : WorkerServiceV1 :=
  match prepared with Some (p, _) => wk_set_plan (Some p) s | None => s end.

Lemma dispatch_run e prepared s s' r :
  is_some prepared = is_some (initial_snapshot e) → is_some (wk_plan (installed prepared s)) = true →
  dispatch version exe e prepared s = (s', r) →
  match answer_of e prepared with
  | Some (k, reserved) =>
      ∃ r0, (if reserved then emit_one_reserved k else emit_one k) (installed prepared s) = (s', r0)
        ∧ r = (λ p, plain_answer e prepared [p]) <$> r0
  | None => s' = s ∧ r = Ok (plain_answer e prepared [])
  end.
Proof.
  intros Hp Hplan. unfold dispatch, answer_of, plain_answer, shutdown_of, initial_snapshot, with_proposal, require_plan in *.
  destruct (ce_control e), prepared as [[p k]|]; simpl in *; try discriminate Hp;
    unfold mbind, stm_bind, read, modify, reject_if, fail_if; simpl; rewrite ?Hplan; simpl;
    try (intros [= <- <-]; done).
  all: match goal with |- context [match ?m with (_, _) => _ end] => destruct m as [s1 [q|err]] end;
    intros [= <- <-]; eauto.
Qed.

(** ** One control *)

Definition next_beat s : N := saturating_add u64_max (wk_heartbeat_sequence s) 1.
(** An answer with the heartbeat numbered [n]. *)
Definition with_beat (n : N) (res : ServiceResultV1) : ServiceResultV1 :=
  MkServiceResult (sv_handshake res) (sv_proposals res)
    (Some (MkHeartbeat n n (negb (sv_shutdown res)) (is_nil (sv_proposals res))))
    (sv_shutdown_ack res) (sv_shutdown res).

(** The service right after admission, its plan installed. *)
Definition admitted (prepared : option (ExecutionPlanV1 * option string)) (g : CoreGatewayV1) s : WorkerServiceV1 :=
  installed prepared (set_part wk_gateway_lens g s).

(** What happens to a newly admitted control. *)
Inductive handled (e : WorkerControlEnvelopeV1) (prepared : option (ExecutionPlanV1 * option string)) s1 :
    WorkerServiceV1 → result WorkerRuntimeError ServiceResultV1 → Prop :=
| handled_silently :
    answer_of e prepared = None →
    handled e prepared s1 (wk_set_heartbeat (next_beat s1) s1) (Ok (with_beat (next_beat s1) (plain_answer e prepared [])))
| handled_answered k reserved g2 p :
    answer_of e prepared = Some (k, reserved) →
    emit_inner k reserved (wk_gateway s1) = (g2, Ok p) →
    handled e prepared s1 (MkService g2 (wk_plan s1) (next_beat s1))
      (Ok (with_beat (next_beat s1) (plain_answer e prepared [p])))
| handled_unanswered k reserved ge :
    answer_of e prepared = Some (k, reserved) →
    emit_inner k reserved (wk_gateway s1) = (wk_gateway s1, Err ge) →
    handled e prepared s1 s1 (Err (WeGateway ge)).

Lemma beat_run res s : beat res s = (wk_set_heartbeat (next_beat s) s, Ok (with_beat (next_beat s) res)).
Proof. done. Qed.

Lemma admitted_inv e prepared g1 s :
  service_inv s → prepare e = Ok prepared → admit_control e (wk_gateway s) = (g1, Ok AdNew) →
  service_inv (admitted prepared g1 s) ∧ is_some prepared = is_some (initial_snapshot e)
  ∧ wk_gateway (admitted prepared g1 s) = g1 ∧ gw_identity g1 = Some (envelope_identity e)
  ∧ is_some (wk_plan (admitted prepared g1 s)) = true.
Proof.
  intros [Hg Hplan] Hp Ha. destruct (admit_inv _ _ _ _ Hg Ha) as [Hg1 Hgrow].
  pose proof (admit_new_facts _ _ _ Ha) as [Hi1 _]. apply prepare_initial in Hp.
  destruct (initial_snapshot e) as [snapshot|] eqn:Hs.
  - destruct Hp as (p & k & -> & Hc). destruct (admit_initial _ _ _ _ Hs Ha) as (_ & _ & Hd).
    apply compile_snapshot in Hc as [Hwf Hps]. apply snapshot_same in Hd as (? & ? & ?).
    split_and!; try done. split; simpl; [done|]. rewrite Hi1. unfold plan_matches. by rewrite Hps.
  - subst prepared. pose proof (admit_later _ _ _ Hs Ha) as Hi. rewrite Hi in Hplan.
    split_and!; try done; [split; simpl; [done|by rewrite Hi1]|]. simpl. by destruct (wk_plan s).
Qed.

Lemma handle_cases e s s' r :
  service_inv s → handle version exe e s = (s', r) →
  (s' = s ∧ ∃ err, r = Err err ∧ err ≠ WeNotStarted
     ∧ (prepare e = Err err ∨ ∃ ge, admit_control e (wk_gateway s) = (wk_gateway s, Err ge)))
  ∨ (s' = s ∧ r = Ok ServiceResultV1_default ∧ admit_control e (wk_gateway s) = (wk_gateway s, Ok AdDuplicate))
  ∨ ∃ prepared g1, prepare e = Ok prepared ∧ admit_control e (wk_gateway s) = (g1, Ok AdNew)
      ∧ handled e prepared (admitted prepared g1 s) s' r.
Proof.
  intros Hinv. unfold handle, mbind at 1, stm_bind at 1, lift.
  destruct (prepare e) as [prepared|err] eqn:Hp.
  2: { intros [= <- <-]. left. split; [done|]. exists err. split_and!; [done| |by left].
       apply prepare_err in Hp as [[x ->]|[x ->]]; done. }
  unfold mbind at 1, stm_bind at 1, call. destruct (admit_control e (part wk_gateway_lens s)) as [g1 [[]|ge]] eqn:Ha.
  - destruct (admitted_inv e prepared g1 s Hinv Hp Ha) as (Hinv1 & Hpi & Hg1 & Hi1 & Hplan).
    intros Hd. right. right. exists prepared, g1. split_and!; [done..|].
    destruct (dispatch version exe e prepared (set_part wk_gateway_lens g1 s)) as [s2 r2] eqn:Hdisp.
    unfold mbind, stm_bind in Hd. rewrite Hdisp in Hd.
    apply dispatch_run in Hdisp; [|done|exact Hplan].
    destruct (answer_of e prepared) as [[k reserved]|] eqn:Hans.
    + destruct Hdisp as (r0 & Hem & ->). fold (admitted prepared g1 s) in Hem.
      apply emit_one_cases in Hem as (Hpl & Hhb & Hr0). destruct r0 as [p|err]; simpl in Hd.
      * rewrite beat_run in Hd. simplify_eq. destruct s2 as [g2 p2 h2]. simpl in *. subst.
        exact (handled_answered e prepared (admitted prepared g1 s) k reserved g2 p Hans Hr0).
      * destruct Hr0 as (-> & ge & -> & Hge). simplify_eq. by eapply handled_unanswered.
    + destruct Hdisp as [-> ->]. rewrite beat_run in Hd. simplify_eq.
      assert (admitted prepared g1 s = set_part wk_gateway_lens g1 s) as ->.
      { unfold admitted, installed. destruct prepared as [[p k]|]; [|done]. exfalso.
        unfold answer_of in Hans. unfold initial_snapshot in Hpi. by destruct (ce_control e). }
      by apply handled_silently.
  - intros [= <- <-]. right. left. pose proof (admit_duplicate _ _ _ Ha) as ->. by destruct s.
  - intros [= <- <-]. left. pose proof (admit_err _ _ _ _ (vi_gateway _ Hinv) Ha) as ->. destruct s. simpl. eauto 9.
Qed.

Definition service_run (es : list WorkerControlEnvelopeV1) (s : WorkerServiceV1) : WorkerServiceV1 :=
  foldl (λ s e, (handle version exe e s).1) s es.

Lemma handled_inv e prepared s1 s' r :
  service_inv s1 → handled e prepared s1 s' r →
  service_inv s' ∧ gateway_grows (wk_gateway s1) (wk_gateway s').
Proof.
  intros [Hg Hp] [Hans|k reserved g2 p Hans Hem|k reserved ge Hans Hem].
  - split; [by split|done].
  - destruct (emit_inv _ _ _ _ _ Hg Hem) as (Hg2 & Hgrow & _). split; [|done]. split; simpl; [done|].
    apply emit_inner_ok in Hem as (i & b & Hi & _ & _ & _ & _ & _ & ->). simpl. done.
  - split; [by split|done].
Qed.

Lemma handle_inv e s : service_inv s →
  service_inv (handle version exe e s).1
  ∧ gateway_grows (wk_gateway s) (wk_gateway (handle version exe e s).1).
Proof.
  intros Hinv. destruct (handle version exe e s) as [s' r] eqn:Hh. simpl.
  destruct (handle_cases _ _ _ _ Hinv Hh) as [[-> _]|[[-> _]|(prepared & g1 & Hp & Ha & Hd)]]; [done..|].
  destruct (admitted_inv _ _ _ _ Hinv Hp Ha) as (Hinv1 & _ & Hg1 & _).
  destruct (handled_inv _ _ _ _ _ Hinv1 Hd) as [Hinv' Hgrow]. split; [done|].
  rewrite Hg1 in Hgrow. destruct (admit_inv _ _ _ _ (vi_gateway _ Hinv) Ha) as [_ Hgrow1]. by trans g1.
Qed.

Lemma service_run_inv es s : service_inv s →
  service_inv (service_run es s) ∧ gateway_grows (wk_gateway s) (wk_gateway (service_run es s)).
Proof.
  revert s. induction es as [|e es IH]; intros s Hinv; [done|]. simpl.
  destruct (handle_inv e s Hinv) as [H1 H2]. destruct (IH _ H1) as [H3 H4]. split; [done|]. by etrans.
Qed.

(** ** Theorems *)

(** The worker's plan and its identity fence always agree.  After any
    sequence of controls, accepted or not, a worker either has neither a plan
    nor an identity, or it has a well-formed plan for exactly the chat, run
    and snapshot hash it is fenced to; and no control is ever answered "not
    started", because the gateway refuses it first. *)
Theorem service_plan_matches_identity es :
  let s := service_run es WorkerServiceV1_new in
  match gw_identity (wk_gateway s), wk_plan s with
  | None, None => True
  | Some i, Some p => plan_matches i p
  | _, _ => False
  end
  ∧ ∀ e, (handle version exe e s).2 ≠ Err WeNotStarted.
Proof.
  intros s. destruct (service_run_inv es _ service_new_inv) as [Hinv _]. fold s in Hinv.
  split; [apply Hinv|]. intros e He.
  destruct (handle version exe e s) as [s' r] eqn:Hh. simpl in He. subst r.
  destruct (handle_cases _ _ _ _ Hinv Hh) as [[_ (err & Herr & Hne & _)]|[[_ [Heq _]]|(p & g1 & _ & _ & Hd)]].
  - congruence.
  - discriminate Heq.
  - inversion Hd.
Qed.

(** C35: A control that is refused has no effect at all, with one exception: when
    it was admitted and only its reply could not be emitted (it did not fit
    into the proposal buffer, could not be encoded, or no sequence number was
    left), the admission and the plan stay.  In
    particular a start or restore whose plan, checkpoint or identity is
    refused leaves the worker as it was. *)
Theorem refused_control_harmless e s s' err :
  service_inv s → handle version exe e s = (s', Err err) →
  s' = s ∨ ∃ prepared g1 k reserved ge, err = WeGateway ge ∧ prepare e = Ok prepared
    ∧ admit_control e (wk_gateway s) = (g1, Ok AdNew) ∧ answer_of e prepared = Some (k, reserved)
    ∧ emit_inner k reserved g1 = (g1, Err ge) ∧ s' = admitted prepared g1 s.
Proof.
  intros Hinv Hh.
  destruct (handle_cases _ _ _ _ Hinv Hh) as [[-> _]|[[-> _]|(prepared & g1 & Hp & Ha & Hd)]]; [by left..|].
  right. destruct (admitted_inv _ _ _ _ Hinv Hp Ha) as (_ & _ & Hg1 & _).
  inversion Hd as [| |k reserved ge Hans Hem]; subst. rewrite Hg1 in Hem. eauto 12.
Qed.

Lemma handle_again e s g1 es :
  service_inv s → admit_control e (wk_gateway s) = (g1, Ok AdNew) → is_ok (prepare e) = true →
  let s2 := service_run es (handle version exe e s).1 in
  handle version exe e s2 = (s2, Ok ServiceResultV1_default).
Proof.
  intros Hinv Ha Hok s2. destruct (prepare e) as [prepared|] eqn:Hp; [clear Hok|done].
  destruct (handle version exe e s) as [s1 r] eqn:Hh.
  destruct (admitted_inv _ _ _ _ Hinv Hp Ha) as (Hinv1 & _ & Hg1 & _).
  assert (handled e prepared (admitted prepared g1 s) s1 r) as Hd.
  { destruct (handle_cases _ _ _ _ Hinv Hh) as [[_ (err & _ & _ & [?|[ge ?]])]|[(_ & _ & ?)|(prep & g & ? & ? & ?)]];
      congruence. }
  destruct (handled_inv _ _ _ _ _ Hinv1 Hd) as [Hinv' Hgrow1]. rewrite Hg1 in Hgrow1.
  destruct (service_run_inv es s1 Hinv') as [Hinv2 Hgrow2]. simpl in s2. fold s2 in Hinv2, Hgrow2.
  assert (gateway_grows g1 (wk_gateway s2)) as Hgrow by (by trans (wk_gateway s1)).
  destruct (admit_new_facts _ _ _ Ha) as (Hid & h & Hh' & Hs).
  pose proof (lookup_weaken _ _ _ _ Hs (gg_seen _ _ Hgrow)) as Hs2.
  assert (gateway_validate_identity (wk_gateway s2) e = Ok ()) as Hv.
  { apply validate_identity_ok. rewrite (gg_identity _ _ Hgrow); [done|]. rewrite Hid. eauto. }
  unfold handle, mbind, stm_bind, lift, call. rewrite Hp. simpl.
  rewrite (admit_seen (wk_gateway s2) e h h Hh' Hs2), bool_decide_true, Hv by done. by destruct s2.
Qed.

(** Each control takes effect once: once it has been admitted, whatever
    follows, delivering it again is answered with the empty result and
    changes nothing. *)
Theorem handle_exactly_once e s g1 es :
  service_inv s → admit_control e (wk_gateway s) = (g1, Ok AdNew) → is_ok (prepare e) = true →
  let s2 := service_run es (handle version exe e s).1 in
  handle version exe e s2 = (s2, Ok ServiceResultV1_default).
Proof. apply handle_again. Qed.

(** What a control is answered with.  An accepted control is either a
    duplicate, answered with the empty result, or it is answered with one
    heartbeat carrying the next number, a handshake exactly for a start or
    restore, the acknowledgement exactly for a shutdown, and at most one
    proposal, which the gateway keeps for retransmission and which carries
    the control's own chat, run, generation and snapshot. *)
Theorem handle_answer e s s' res :
  service_inv s → handle version exe e s = (s', Ok res) →
  (res = ServiceResultV1_default ∧ s' = s) ∨
  (sv_heartbeat res = Some (MkHeartbeat (next_beat s) (next_beat s) (negb (sv_shutdown res)) (is_nil (sv_proposals res)))
   ∧ wk_heartbeat_sequence s' = next_beat s
   ∧ is_some (sv_handshake res) = is_some (initial_snapshot e)
   ∧ sv_shutdown_ack res = shutdown_of e ∧ sv_shutdown res = is_some (shutdown_of e)
   ∧ (length (sv_proposals res) <= 1)%nat
   ∧ ∀ p, p ∈ sv_proposals res → p ∈ pending_proposals s'
       ∧ pe_chat_id p = ce_chat_id e ∧ pe_run_id p = ce_run_id e
       ∧ pe_generation p = ce_generation e ∧ pe_snapshot_hash p = ce_snapshot_hash e).
Proof.
  intros Hinv Hh.
  destruct (handle_cases _ _ _ _ Hinv Hh) as [[_ (err & Herr & _)]|[(-> & Hr & _)|(prepared & g1 & Hp & Ha & Hd)]];
    [discriminate Herr|left; by simplify_eq|right].
  destruct (admitted_inv _ _ _ _ Hinv Hp Ha) as (_ & Hpi & Hg1 & Hid & _).
  assert (next_beat (admitted prepared g1 s) = next_beat s) as Hb
    by (unfold admitted, installed; by destruct prepared as [[]|]).
  inversion Hd as [Hans|k reserved g2 p Hans Hem|]; subst; simpl; rewrite Hb; split_and!; try done;
    try (rewrite <-Hpi; by destruct prepared); try lia.
  - intros p []%elem_of_nil.
  - intros q ->%list_elem_of_singleton. rewrite Hg1 in Hem.
    apply emit_inner_ok in Hem as (i & b & Hi & _ & Hpe & _ & _ & _ & ->). rewrite Hid in Hi. injection Hi as <-.
    split; [|rewrite Hpe; done]. unfold pending_proposals. apply retransmit_elem. simpl.
    exists (as_str (pe_proposal_id p)). apply lookup_insert_eq.
Qed.
End service_facts.

(** ** A control refused for lack of buffer space is not retried *)

Section lost_control.
Context `{Sha256, !Serialize WorkerFrozenRunSnapshotV1, !Serialize json,
          !Serialize (string * WorkerFrozenRunSnapshotV1 * string), !Serialize WorkerCheckpointV1,
          !ToValue CapabilityOutcomeV1,
          !Serialize WorkerControlEnvelopeV1, !Serialize WorkerProposalEnvelopeV1}.
Context (version : string) (exe : option string).

(** An input control that arrives while the proposal buffer is full is
    answered with an error, yet it counts as admitted: delivered again after
    room was made, it is taken for a duplicate and never acknowledged with a
    proposal. *)
Theorem backpressured_input_lost e i v s g1 es :
  service_inv s → ce_control e = CkInput i v → admit_control e (wk_gateway s) = (g1, Ok AdNew) →
  gw_max_pending_proposals g1 <= bt_len (gw_pending g1) →
  (handle version exe e s).2 = Err (WeGateway GeBackpressure)
  ∧ let s2 := service_run version exe es (handle version exe e s).1 in
    handle version exe e s2 = (s2, Ok ServiceResultV1_default).
Proof.
  intros Hinv Hc Ha Hfull. assert (prepare e = Ok None) as Hp by (unfold prepare; by rewrite Hc).
  split; [|by apply (handle_again version exe e s g1); [| |rewrite Hp]].
  destruct (handle version exe e s) as [s' r] eqn:Hh. simpl.
  destruct (admitted_inv _ _ _ _ Hinv Hp Ha) as (_ & _ & Hg1 & Hid & _).
  destruct (handle_cases _ _ _ _ _ _ Hinv Hh) as [[_ (err & _ & _ & [?|[ge ?]])]|[(_ & _ & ?)|(prep & g & Hp' & Ha' & Hd)]];
    try congruence.
  rewrite Ha in Ha'. rewrite Hp in Hp'. simplify_eq.
  inversion Hd as [Hans|k reserved g2 p Hans Hem|k reserved ge Hans Hem]; subst;
    unfold answer_of in Hans; rewrite Hc in Hans; simplify_eq; simpl in Hem.
  - apply emit_inner_ok in Hem as (? & ? & _ & _ & _ & _ & Hlt & _). lia.
  - unfold emit_inner, mbind, stm_bind, read, lift, reject_if, fail_if in Hem. rewrite Hid in Hem. simpl in Hem.
    rewrite (proj2 (N.leb_le _ _) Hfull) in Hem. simpl in Hem. by simplify_eq.
Qed.
End lost_control.

(** ** A started worker *)

Module DemoService.
Import (hints) Demo DemoRecovery DemoGateway.
Definition control (m : StableId) (k : WorkerControlKindV1) : WorkerControlEnvelopeV1 :=
  MkControl m id:"chat" id:"run" 7 (ws_snapshot_hash Demo.snapshot) 3 k.
Definition start : WorkerControlEnvelopeV1 := control id:"m1" (CkStart Demo.snapshot).
Definition bad_start : WorkerControlEnvelopeV1 :=
  MkControl id:"m0" id:"chat" id:"run" 7 "sha256:0" 3 (CkStart Demo.snapshot).
Definition input : WorkerControlEnvelopeV1 := control id:"m2" (CkInput id:"in" JNull).
Definition pause : WorkerControlEnvelopeV1 := control id:"m3" (CkPause id:"c" "run").
Definition shut : WorkerControlEnvelopeV1 := control id:"m4" (CkShutdown id:"c2").
Definition started : WorkerServiceV1 := service_run "0.1.0" None [start] WorkerServiceV1_new.
Lemma service_started_inv : service_inv started.
Proof. apply service_run_inv, service_new_inv. Qed.
End DemoService.

Section runtime_witnesses.
Import (hints) Demo DemoRecovery DemoGateway DemoService.
Import DemoService.

Lemma refused_control_harmless_witness :
  (handle "0.1.0" None bad_start WorkerServiceV1_new).2 = Err (WePlan InvalidHash)
  ∧ (handle "0.1.0" None bad_start WorkerServiceV1_new).1 = WorkerServiceV1_new.
Proof.
  assert ((handle "0.1.0" None bad_start WorkerServiceV1_new).2 = Err (WePlan InvalidHash)) as He
    by (vm_compute; reflexivity).
  split; [exact He|].
  destruct (refused_control_harmless "0.1.0" None bad_start WorkerServiceV1_new
    (handle "0.1.0" None bad_start WorkerServiceV1_new).1 (WePlan InvalidHash) service_new_inv) as [Hs|Hx].
  - rewrite <-He. apply surjective_pairing.
  - exact Hs.
  - destruct Hx as (? & ? & ? & ? & ge & Hge & _). discriminate Hge.
Defined.

Lemma handle_exactly_once_witness :
  let s2 := service_run "0.1.0" None [pause] (handle "0.1.0" None input started).1 in
  handle "0.1.0" None input s2 = (s2, Ok ServiceResultV1_default)
  ∧ option_map (λ h, hb_sequence h) (match (handle "0.1.0" None input started).2 with
      | Ok res => sv_heartbeat res | Err _ => None end) = Some 2.
Proof.
  intros s2. split; [|vm_compute; reflexivity].
  destruct (admit_control input (wk_gateway started)) as [g1 r] eqn:Ha.
  assert (r = Ok AdNew) as Hr.
  { assert ((admit_control input (wk_gateway started)).2 = Ok AdNew) as Hx by (vm_compute; reflexivity).
    rewrite Ha in Hx. exact Hx. }
  subst r. exact (handle_exactly_once "0.1.0" None input started g1 [pause] service_started_inv Ha eq_refl).
Defined.

Lemma handle_answer_witness : ∃ res,
  (handle "0.1.0" None shut started).2 = Ok res ∧ sv_shutdown_ack res = Some id:"c2"
  ∧ sv_shutdown res = true.
Proof.
  destruct (handle "0.1.0" None shut started) as [s' r] eqn:Hh.
  assert (is_ok r = true ∧ (match r with Ok res => is_some (sv_heartbeat res) | Err _ => false end) = true) as [Hok Hb].
  { assert (is_ok (handle "0.1.0" None shut started).2 = true
      ∧ (match (handle "0.1.0" None shut started).2 with Ok res => is_some (sv_heartbeat res) | Err _ => false end) = true)
      as Hx by (vm_compute; split; reflexivity).
    rewrite Hh in Hx. exact Hx. }
  destruct r as [res|err]; [|discriminate Hok]. exists res. split; [reflexivity|].
  destruct (handle_answer "0.1.0" None shut started s' res service_started_inv Hh) as [[-> _]|(_ & _ & _ & Hack & Hs & _)];
    [discriminate Hb|]. split; [exact Hack|exact Hs].
Defined.
End runtime_witnesses.
