(* ===== verification/StdioProofs.v ===== *)
(** * The framed stdio loop

    Reading frames does not depend on how the bytes arrive, the loop
    terminates on every input, and over well-formed input it answers exactly
    what the control handler answers, message by message. *)
From S2P Require Export RuntimeProofs.

(** ** Readers *)

(** The bytes still to come from a reader that never fails and never returns
    an empty chunk before the end. *)
Definition data_event (ev : read_event) : bool :=
  match ev with RData b => negb (is_nil b) | RFail _ => false end.
Definition data_reader (r : reader) : Prop := Forall (λ ev, data_event ev = true) r.
Definition event_bytes (ev : read_event) : bytes := match ev with RData b => b | RFail _ => [] end.
Definition stream (r : reader) : bytes := mjoin (event_bytes <$> r).

Lemma data_reader_nil r : data_reader r → stream r = [] → r = [].
Proof.
  intros Hd. destruct Hd as [|ev r Hev Hr]; [done|]. unfold stream. csimpl. intros Hs.
  destruct ev as [[|b bs]|e]; done.
Qed.

(** One read of a data reader: a nonempty prefix of the stream, or its end. *)
Lemma read_some_data n r :
  data_reader r → (0 < n)%nat →
  ∃ r' b, read_some n r = (r', Ok b) ∧ data_reader r' ∧ stream r = b ++ stream r' ∧ (length b <= n)%nat
    ∧ (b = [] → r = [] ∧ r' = []) ∧ (length r' <= length r)%nat ∧ (length b < n → b ≠ [] → length r' < length r)%nat.
Proof.
  intros Hd Hn. destruct Hd as [|ev r Hev Hr].
  { exists [], []. simpl. split_and!; try done; [by apply Forall_nil|lia]. }
  destruct ev as [b|e]; [|done]. simpl in *. unfold stream. csimpl.
  destruct (Nat.leb_spec (length b) n) as [Hle|Hgt].
  - exists r, b. split_and!; try done; try lia. intros ->. done.
  - exists (RData (drop n b) :: r), (take n b). split_and!; try done.
    + constructor; [|done]. simpl. destruct (drop n b) eqn:E; [|done].
      apply (f_equal length) in E. rewrite length_drop in E. simpl in E. lia.
    + unfold stream. csimpl. by rewrite app_assoc, take_drop.
    + rewrite length_take. lia.
    + intros E. apply (f_equal length) in E. rewrite length_take in E. simpl in E. lia.
    + rewrite length_take. lia.
Qed.

Lemma read_exact_data fuel n acc r :
  data_reader r → (length r < fuel)%nat →
  ∃ r', data_reader r' ∧
    if (n <=? length (stream r))%nat
    then read_exact fuel n acc r = Some (r', Ok (acc ++ take n (stream r))) ∧ stream r' = drop n (stream r)
    else read_exact fuel n acc r = Some (r', Err EkUnexpectedEof).
Proof.
  revert n acc r. induction fuel as [|fuel IH]; intros n acc r Hd Hf; [lia|].
  destruct (Nat.eq_dec n O) as [->|Hn].
  { exists r. simpl. rewrite app_nil_r. by split_and!. }
  cbn [read_exact]. rewrite (proj2 (Nat.eqb_neq n O) Hn).
  destruct (read_some_data n r Hd ltac:(lia)) as (r1 & b & -> & Hd1 & Hs & Hlen & Hnil & Hle & Hlt).
  destruct b as [|c b].
  - destruct (Hnil eq_refl) as [-> ->]. exists []. split; [done|].
    destruct (Nat.leb_spec n (length (stream []))) as [Hx|]; [simpl in Hx; lia|done].
  - rewrite Hs. set (bb := c :: b) in *. destruct (Nat.eq_dec (length bb) n) as [Heq|Hne].
    + exists r1. split; [done|]. rewrite length_app.
      destruct (Nat.leb_spec n (length bb + length (stream r1))); [|lia].
      rewrite take_app_length', drop_app_length' by done.
      replace (n - length bb)%nat with O by lia. split; [|done]. by destruct fuel.
    + destruct (IH (n - length bb)%nat (acc ++ bb) r1 Hd1) as (r2 & Hd2 & H2).
      { assert (length r1 < length r)%nat; [|lia]. apply Hlt; [lia|done]. }
      exists r2. split; [done|]. rewrite length_app.
      destruct (Nat.leb_spec (n - length bb) (length (stream r1))), (Nat.leb_spec n (length bb + length (stream r1)));
        try lia; [|done].
      destruct H2 as [-> ->]. rewrite <-app_assoc, (take_app_ge _ _ n), (drop_app_ge _ _ n) by lia. done.
Qed.

Lemma read_prefix_data fuel acc r :
  data_reader r → (length acc <= FRAME_PREFIX_BYTES)%nat → (FRAME_PREFIX_BYTES <= length acc + fuel)%nat →
  ∃ r', data_reader r' ∧
    if (FRAME_PREFIX_BYTES <=? length (acc ++ stream r))%nat
    then read_prefix fuel acc r = Some (r', Ok (Some (take FRAME_PREFIX_BYTES (acc ++ stream r))))
         ∧ stream r' = drop FRAME_PREFIX_BYTES (acc ++ stream r)
    else read_prefix fuel acc r
         = Some (r', if is_nil (acc ++ stream r) then Ok None else Err WeTruncatedFrame).
Proof.
  revert acc r. induction fuel as [|fuel IH]; intros acc r Hd Hacc Hf; cbn [read_prefix].
  { rewrite (proj2 (Nat.leb_le FRAME_PREFIX_BYTES (length acc))) by lia. exists r. split; [done|].
    rewrite length_app, (proj2 (Nat.leb_le _ _)) by lia.
    by rewrite take_app_length', drop_app_length' by lia. }
  destruct (Nat.leb_spec FRAME_PREFIX_BYTES (length acc)) as [Hge|Hlt].
  { exists r. split; [done|]. rewrite length_app, (proj2 (Nat.leb_le _ _)) by lia.
    by rewrite take_app_length', drop_app_length' by lia. }
  destruct (read_some_data (FRAME_PREFIX_BYTES - length acc) r Hd ltac:(lia))
    as (r1 & b & -> & Hd1 & Hs & Hlen & Hnil & _ & _).
  destruct b as [|c b].
  - destruct (Hnil eq_refl) as [-> ->]. exists []. split; [done|]. change (stream []) with (@nil Byte.byte).
    rewrite app_nil_r, (proj2 (Nat.leb_gt _ _)) by done. done.
  - rewrite Hs, app_assoc. apply IH; [done|rewrite length_app; simpl in *; lia..].
Qed.

(** ** Frames of a byte stream *)

(** The first frame of a stream, and what follows it. *)
Definition next_frame (bs : bytes) : result WorkerRuntimeError (option (bytes * bytes)) :=
  if is_nil bs then Ok None
  else if (length bs <? FRAME_PREFIX_BYTES)%nat then Err WeTruncatedFrame
  else
    let body_len := from_be_bytes (take FRAME_PREFIX_BYTES bs) in
    if MAX_FRAME_BYTES <? body_len then Err (WeProtocol FrameTooLarge)
    else if (length bs <? FRAME_PREFIX_BYTES + N.to_nat body_len)%nat then Err WeTruncatedFrame
    else Ok (Some (take (FRAME_PREFIX_BYTES + N.to_nat body_len) bs,
                   drop (FRAME_PREFIX_BYTES + N.to_nat body_len) bs)).

Lemma read_one_frame_data r :
  data_reader r →
  ∃ r', data_reader r' ∧
    match next_frame (stream r) with
    | Ok None => read_one_frame r = Some (r', Ok None)
    | Ok (Some (frame, rest)) => read_one_frame r = Some (r', Ok (Some frame)) ∧ stream r' = rest
    | Err e => read_one_frame r = Some (r', Err e)
    end.
Proof.
  intros Hd. unfold read_one_frame.
  destruct (read_prefix_data FRAME_PREFIX_BYTES [] r Hd) as (r1 & Hd1 & H1); [simpl; lia..|].
  simpl app in H1. unfold next_frame.
  destruct (Nat.leb_spec FRAME_PREFIX_BYTES (length (stream r))) as [Hge|Hlt].
  2: { exists r1. split; [done|]. rewrite H1, (proj2 (Nat.ltb_lt _ _)) by done. by destruct (is_nil (stream r)). }
  destruct H1 as [-> Hs1]. rewrite (proj2 (Nat.ltb_ge _ _)) by done.
  destruct (stream r) as [|c bs] eqn:Hst; [simpl in Hge; unfold FRAME_PREFIX_BYTES in Hge; lia|]. cbn [is_nil].
  rewrite <-Hst in *. clear Hst c bs.
  destruct (N.ltb_spec MAX_FRAME_BYTES (from_be_bytes (take FRAME_PREFIX_BYTES (stream r)))); [by exists r1|].
  set (n := N.to_nat _). destruct (read_exact_data (S (length r1)) n [] r1 Hd1) as (r2 & Hd2 & H2); [lia|].
  assert (length (stream r1) = length (stream r) - FRAME_PREFIX_BYTES)%nat as Hl by (rewrite Hs1; apply length_drop).
  exists r2. split; [done|].
  destruct (Nat.leb_spec n (length (stream r1))), (Nat.ltb_spec (length (stream r)) (FRAME_PREFIX_BYTES + n)); try lia.
  - destruct H2 as [-> ->]. simpl app. rewrite Hs1, drop_drop. split; [|done]. do 3 f_equal. by rewrite <-take_take_drop.
  - by rewrite H2.
Qed.

(** Reading frames does not depend on how the bytes arrive: two readers that
    will deliver the same bytes, cut into chunks in any way, give the same
    frame or the same error, and the frame is the first length-prefixed frame
    of the stream; what they have left again agrees.  The end of the input is
    clean only between frames. *)
Theorem read_one_frame_chunking r1 r2 :
  data_reader r1 → data_reader r2 → stream r1 = stream r2 →
  ∃ r1' r2' res, read_one_frame r1 = Some (r1', res) ∧ read_one_frame r2 = Some (r2', res)
    ∧ res = match next_frame (stream r1) with
            | Ok (Some (frame, _)) => Ok (Some frame)
            | Ok None => Ok None
            | Err e => Err e
            end
    ∧ (is_ok res = true → stream r1 ≠ [] → stream r1' = stream r2').
Proof.
  intros H1 H2 Hs. destruct (read_one_frame_data r1 H1) as (r1' & _ & E1).
  destruct (read_one_frame_data r2 H2) as (r2' & _ & E2). rewrite Hs in E1 |- *. exists r1', r2'.
  destruct (next_frame (stream r2)) as [[[frame rest]|]|e] eqn:Hn; simpl in *.
  - destruct E1 as [-> ->], E2 as [-> ->]. eexists. split_and!; done.
  - exists (Ok None). split_and!; try done. intros _ Hne. unfold next_frame in Hn.
    destruct (stream r2); [done|]. simpl in Hn. by repeat case_match.
  - eexists. split_and!; done.
Qed.

(** ** Termination *)

Lemma read_some_unread n r r' res :
  read_some n r = (r', res) →
  (unread r' + match res with Ok b => length b | Err _ => O end = unread r)%nat
  ∧ (length r' <= length r)%nat
  ∧ (match res with Ok b => (length b < n)%nat ∧ b ≠ [] | Err _ => True end → (length r' < length r)%nat).
Proof.
  destruct r as [|[b|e] r]; simpl; [intros [= <- <-]; naive_solver| |intros [= <- <-]; simpl; lia].
  destruct (Nat.leb_spec (length b) n); intros [= <- <-]; simpl; [lia|].
  rewrite length_take, length_drop. lia.
Qed.

Lemma read_exact_total fuel n acc r :
  (length r < fuel)%nat → ∃ r' res, read_exact fuel n acc r = Some (r', res) ∧ (unread r' <= unread r)%nat.
Proof.
  revert n acc r. induction fuel as [|fuel IH]; intros n acc r Hf; [lia|]. cbn [read_exact].
  destruct (Nat.eqb_spec n O) as [->|Hn]; [by do 2 eexists|].
  destruct (read_some n r) as [r1 res] eqn:Hr. apply read_some_unread in Hr as (Hu & Hle & Hlt).
  destruct res as [[|c b]|e]; [do 2 eexists; split; [done|]; simpl in *; lia| |].
  - destruct (Nat.eq_dec (length (c :: b)) n) as [<-|Hne].
    { rewrite Nat.sub_diag. destruct fuel; simpl; do 2 eexists; (split; [done|]); simpl in *; lia. }
    destruct (decide (length (c :: b) < n)%nat) as [Hlt'|Hge].
    + destruct (IH (n - length (c :: b))%nat (acc ++ c :: b) r1) as (r2 & res & -> & ?).
      { assert (length r1 < length r)%nat; [|lia]. by apply Hlt. }
      do 2 eexists. split; [done|]. simpl in *. lia.
    + replace (n - length (c :: b))%nat with O by lia. destruct fuel; simpl; do 2 eexists; (split; [done|]); simpl in *; lia.
  - assert (length r1 < fuel)%nat by (specialize (Hlt I); lia).
    destruct e; try (do 2 eexists; split; [done|]; simpl in *; lia).
    destruct (IH n acc r1) as (r2 & res & -> & ?); [done|]. do 2 eexists. split; [done|]. lia.
Qed.

Lemma read_prefix_total fuel acc r :
  (FRAME_PREFIX_BYTES <= length acc + fuel)%nat →
  ∃ r' res, read_prefix fuel acc r = Some (r', res)
    ∧ (unread r' + match res with Ok (Some p) => length p - length acc | _ => O end <= unread r)%nat
    ∧ (∀ p, res = Ok (Some p) → FRAME_PREFIX_BYTES <= length p)%nat.
Proof.
  revert acc r. induction fuel as [|fuel IH]; intros acc r Hf; cbn [read_prefix].
  { rewrite (proj2 (Nat.leb_le _ _)) by lia. do 2 eexists. split_and!; [done|simpl; lia|]. intros p [= <-]. lia. }
  destruct (Nat.leb_spec FRAME_PREFIX_BYTES (length acc)) as [Hge|Hlt].
  { do 2 eexists. split_and!; [done|simpl; lia|]. intros p [= <-]. lia. }
  destruct (read_some _ r) as [r1 res] eqn:Hr. apply read_some_unread in Hr as (Hu & _ & _).
  destruct res as [[|c b]|e].
  - do 2 eexists. split_and!; [done| |by destruct (is_nil acc)]. destruct (is_nil acc); simpl in *; lia.
  - destruct (IH (acc ++ c :: b) r1) as (r2 & res & -> & H1 & H2); [rewrite length_app; simpl; lia|].
    do 2 eexists. split_and!; [done| |done]. destruct res as [[p|]|]; simpl in *; [|lia..].
    rewrite length_app in H1. simpl in H1. lia.
  - do 2 eexists. split_and!; [done|simpl in *; lia|done].
Qed.

(** A frame that was read used up at least its prefix. *)
Lemma read_one_frame_total r :
  ∃ r' res, read_one_frame r = Some (r', res)
    ∧ (∀ f, res = Ok (Some f) → unread r' < unread r)%nat.
Proof.
  unfold read_one_frame. destruct (read_prefix_total FRAME_PREFIX_BYTES [] r) as (r1 & res & -> & Hu & Hp); [simpl; lia|].
  destruct res as [[p|]|e]; [|by do 2 eexists..]. specialize (Hp p eq_refl). simpl in Hu.
  destruct (MAX_FRAME_BYTES <? _); [by do 2 eexists|].
  destruct (read_exact_total (S (length r1)) (N.to_nat (from_be_bytes p)) [] r1) as (r2 & res & -> & Hu2); [lia|].
  destruct res as [body|[]]; do 2 eexists; (split; [done|]); try done.
  intros f _. unfold FRAME_PREFIX_BYTES in *. lia.
Qed.

Section serve.
Context `{Sha256, !Serialize WorkerFrozenRunSnapshotV1, !Serialize json,
          !Serialize (string * WorkerFrozenRunSnapshotV1 * string), !Serialize WorkerCheckpointV1,
          !ToValue CapabilityOutcomeV1,
          !Serialize WorkerControlEnvelopeV1, !Serialize WorkerProposalEnvelopeV1,
          !Serialize WorkerOutputEnvelopeV1, !Deserialize WorkerControlEnvelopeV1}.
Context (version : string) (exe : option string).

Lemma serve_loop_total fuel s r w : (unread r < fuel)%nat → is_Some (serve_loop version exe fuel s r w).
Proof.
  revert s r w. induction fuel as [|fuel IH]; intros s r w Hf; [lia|]. cbn [serve_loop].
  destruct (read_one_frame_total r) as (r1 & res & -> & Hu). destruct res as [[f|]|e]; [|by eexists..].
  specialize (Hu f eq_refl). destruct (serve_frame version exe f s w) as [[s' w'] [[]|e]]; [by eexists| |by eexists].
  apply IH. lia.
Qed.

(** C40: [serve_stdio] returns on every input and for every behaviour of the
    output, read and write failures included. *)
Theorem serve_stdio_terminates r w : ∃ s w' res, serve_stdio version exe r w = Some (s, w', res).
Proof.
  destruct (serve_loop_total (S (unread r)) WorkerServiceV1_new r w) as [[[s w'] res] Hs]; [lia|]. eauto.
Qed.

(** ** The loop answers message by message *)

Definition opt_output {A} (o : option A) (material : A → string) (k : A → WorkerOutputKindV1)
    (generation : ProcessGeneration) : result WorkerRuntimeError (list WorkerOutputEnvelopeV1) :=
  match o with
  | Some x => i ← output_id (material x); Ok [MkOutput i generation (k x)]
  | None => Ok []
  end.
(** The envelopes one control is answered with. *)
Definition outputs_of (e : WorkerControlEnvelopeV1) (r : result WorkerRuntimeError ServiceResultV1) :
    result WorkerRuntimeError (list WorkerOutputEnvelopeV1) :=
  match r with
  | Err error =>
      opt_output (Some error) (λ _, "error:" +:+ as_str (ce_message_id e))
        (λ error, OkError "worker_control_rejected" (chars_take 4096 (runtime_error_text error))) (ce_generation e)
  | Ok res =>
      h ← opt_output (sv_handshake res) (λ _, "handshake:" +:+ as_str (ce_message_id e)) OkHandshake (ce_generation e);
      b ← opt_output (sv_heartbeat res) (λ h, "heartbeat:ProcessGeneration(" +:+ pretty (ce_generation e) +:+ "):"
                                             +:+ pretty (hb_sequence h)) OkHeartbeat (ce_generation e);
      a ← opt_output (sv_shutdown_ack res) (λ i, "shutdown:" +:+ as_str i) OkShutdownAck (ce_generation e);
      Ok (h ++ ((λ p, MkOutput (pe_proposal_id p) (ce_generation e) (OkProposal p)) <$> sv_proposals res) ++ b ++ a)
  end.
Definition stops (r : result WorkerRuntimeError ServiceResultV1) : bool :=
  match r with Ok res => sv_shutdown res | Err _ => false end.

(** Handling a list of controls up to a shutdown: the final service and the
    envelopes sent. *)
Fixpoint serve_messages (ms : list WorkerControlEnvelopeV1) (s : WorkerServiceV1) :
    result WorkerRuntimeError (WorkerServiceV1 * list WorkerOutputEnvelopeV1) :=
  match ms with
  | [] => Ok (s, [])
  | e :: ms =>
      let '(s, r) := handle version exe e s in
      outs ← outputs_of e r;
      if stops r then Ok (s, outs)
      else '(s, rest) ← serve_messages ms s; Ok (s, outs ++ rest)
  end.

(** [frames outs bs]: [bs] is the concatenation of the encoded envelopes. *)
Inductive frames : list WorkerOutputEnvelopeV1 → bytes → Prop :=
| frames_nil : frames [] []
| frames_cons o os f bs : encode_frame o = Ok f → frames os bs → frames (o :: os) (f ++ bs).

Lemma frames_app xs ys bs : frames (xs ++ ys) bs → ∃ b1 b2, bs = b1 ++ b2 ∧ frames xs b1 ∧ frames ys b2.
Proof.
  revert bs. induction xs as [|x xs IH]; simpl; intros bs Hf; [by exists [], bs; repeat constructor|].
  inversion Hf as [|? ? f bs' Hx Hr]; subst. destruct (IH _ Hr) as (b1 & b2 & -> & H1 & H2).
  exists (f ++ b1), b2. split_and!; [by rewrite app_assoc|by constructor|done].
Qed.

Lemma frames_app_join xs ys b1 b2 : frames xs b1 → frames ys b2 → frames (xs ++ ys) (b1 ++ b2).
Proof.
  intros Hx Hy. induction Hx as [|o os f bs Ho Hx IH]; simpl; [done|]. rewrite <-app_assoc. by constructor.
Qed.
Lemma frames_fun outs b1 b2 : frames outs b1 → frames outs b2 → b1 = b2.
Proof.
  intros H1. revert b2. induction H1 as [|o os f bs Ho _ IH]; intros b2 H2; inversion H2; subst; [done|].
  f_equal; [congruence|auto].
Qed.
Lemma frames_encodes outs bs o : frames outs bs → o ∈ outs → is_ok (encode_frame o) = true.
Proof.
  induction 1 as [|x os f bs Hx _ IH]; [set_solver|]. intros [->|?]%elem_of_cons; [by rewrite Hx|auto].
Qed.

(** Why sending [rest] stopped before its first envelope, with [extra] bytes of
    it written: the envelope cannot be encoded (it may exceed the frame size),
    or a write failed, possibly after some bytes. *)
Definition stopped (e : WorkerRuntimeError) (rest : list WorkerOutputEnvelopeV1)
    (script : list write_event) (extra : bytes) : Prop :=
  (∃ pe o rest', rest = o :: rest' ∧ encode_frame o = Err pe ∧ e = WeProtocol pe ∧ extra = [])
  ∨ (∃ k n, WFail k n ∈ script ∧ e = WeIo k
     ∧ (extra = [] ∨ ∃ o rest' f, rest = o :: rest' ∧ encode_frame o = Ok f ∧ extra = take n f)).

Lemma stopped_app e rest more script script' extra :
  stopped e rest script extra → script `suffix_of` script' → stopped e (rest ++ more) script' extra.
Proof.
  intros [(pe & o & rest' & -> & ?)|(k & n & Hk & -> & Hx)] [pre ->].
  - left. by exists pe, o, (rest' ++ more).
  - right. exists k, n. split_and!; [set_solver|done|].
    destruct Hx as [?|(o & rest' & f & -> & ?)]; [by left|]. right. by exists o, (rest' ++ more), f.
Qed.

(** A step that sends [outs] in order, on any output. *)
Definition sent (m : writer → writer * result WorkerRuntimeError ()) (outs : list WorkerOutputEnvelopeV1)
    (w : writer) : Prop :=
  ww_script (m w).1 `suffix_of` ww_script w ∧
  match (m w).2 with
  | Ok _ => ∃ bs, frames outs bs ∧ ww_written (m w).1 = ww_written w ++ bs
  | Err e => ∃ done rest bs extra, outs = done ++ rest ∧ frames done bs
      ∧ ww_written (m w).1 = ww_written w ++ bs ++ extra ∧ stopped e rest (ww_script w) extra
  end.
Definition sends (m : stm writer WorkerRuntimeError ()) (outs : list WorkerOutputEnvelopeV1) : Prop :=
  ∀ w, sent m outs w.

Lemma sends_frame o f : encode_frame o = Ok f → sends (write_all f) [o].
Proof.
  intros Ho [pre [|[|e n] script]]; unfold sent, write_all; simpl.
  - split; [done|]. exists f. split; [|done]. rewrite <-(app_nil_r f). by repeat constructor.
  - split; [by exists [WOk]|]. exists f. split; [|done]. rewrite <-(app_nil_r f). by repeat constructor.
  - split; [by exists [WFail e n]|]. exists [], [o], [], (take n f). split_and!; [done|constructor|done|].
    right. exists e, n. split_and!; [set_solver|done|]. right. by exists o, [], f.
Qed.
Lemma sends_output o : sends (write_output o) [o].
Proof.
  intros w. unfold sent, write_output, mbind, stm_bind, lift.
  destruct (encode_frame o) as [f|pe] eqn:Ho; simpl; [by apply sends_frame|].
  split; [done|]. exists [], [o], [], []. split_and!; [done|constructor|by rewrite !app_nil_r|].
  left. by exists pe, o, [].
Qed.
Lemma sends_flush : sends flush [].
Proof.
  intros [pre [|[|e n] script]]; unfold sent, flush, write_all; simpl.
  - split; [done|]. exists []. split; [constructor|done].
  - split; [by exists [WOk]|]. exists []. split; [constructor|done].
  - split; [by exists [WFail e n]|]. exists [], [], [], []. split_and!; [done|constructor|by rewrite take_nil|].
    right. exists e, n. split_and!; [set_solver|done|by left].
Qed.
Lemma sends_nothing : sends (mret ()) [].
Proof. intros w. split; [done|]. simpl. exists []. split; [constructor|by rewrite app_nil_r]. Qed.
Lemma sends_seq m1 m2 o1 o2 : sends m1 o1 → sends m2 o2 → sends (_ ← m1; m2) (o1 ++ o2).
Proof.
  intros H1 H2 w. specialize (H1 w) as [S1 H1]. unfold sent, mbind, stm_bind.
  destruct (m1 w) as [w1 [[]|e]]; simpl in *.
  - destruct H1 as (b1 & F1 & W1). specialize (H2 w1) as [S2 H2]. split; [by etrans|].
    destruct (m2 w1) as [w2 [[]|e]]; simpl in *.
    + destruct H2 as (b2 & F2 & W2). exists (b1 ++ b2). split; [by apply frames_app_join|].
      by rewrite W2, W1, app_assoc.
    + destruct H2 as (done & rest & b2 & extra & -> & F2 & W2 & Hst).
      exists (o1 ++ done), rest, (b1 ++ b2), extra. split_and!; [by rewrite app_assoc|by apply frames_app_join| |].
      * by rewrite W2, W1, <-!app_assoc.
      * rewrite <-(app_nil_r rest). by eapply stopped_app.
  - destruct H1 as (done & rest & b1 & extra & -> & F1 & W1 & Hst). split; [done|].
    exists done, (rest ++ o2), b1, extra. split_and!; [by rewrite app_assoc|done|done|by eapply stopped_app].
Qed.
Lemma sends_optional {A} (o : option A) material k generation outs :
  opt_output o material k generation = Ok outs →
  sends (if_some o (λ x, i ← lift (output_id (material x)); write_output (MkOutput i generation (k x)))) outs.
Proof.
  destruct o as [x|]; simpl; [|intros [= <-]; apply sends_nothing].
  destruct (output_id (material x)) as [i|e] eqn:Hi; simpl; [|done]. intros [= <-] w.
  unfold sent, mbind, stm_bind, lift. apply sends_output.
Qed.
Lemma sends_proposals generation ps :
  sends (write_proposals generation ps) ((λ p, MkOutput (pe_proposal_id p) generation (OkProposal p)) <$> ps).
Proof.
  induction ps as [|p ps IH]; [apply sends_nothing|]. csimpl. cbn [write_proposals].
  exact (sends_seq _ _ [_] _ (sends_output _) IH).
Qed.

Lemma sends_answer e r outs :
  outputs_of e r = Ok outs →
  sends (match r with
         | Ok res => write_response (ce_message_id e) (ce_generation e) res
         | Err error => write_error (ce_message_id e) (ce_generation e) error
         end) outs.
Proof.
  destruct r as [res|error]; unfold outputs_of; intros Ho.
  - res_inv Ho. unfold write_response.
    match goal with |- sends _ (?a ++ ?b ++ ?c ++ ?d) => replace (a ++ b ++ c ++ d) with (a ++ b ++ c ++ d ++ [])
      by (by rewrite app_nil_r) end.
    repeat (apply sends_seq; [first [by eapply sends_optional|apply sends_proposals]|]). apply sends_flush.
  - unfold write_error, opt_output in *. apply rbind_ok in Ho as (i & Hi & Ho). injection Ho as <-.
    intros w. pose proof (sends_seq _ _ _ _ (sends_output (MkOutput i (ce_generation e)
      (OkError "worker_control_rejected" (chars_take 4096 (runtime_error_text error))))) sends_flush w) as Hw.
    unfold sent, write_output, mbind, stm_bind, lift in *. rewrite Hi. simpl in *.
    destruct (encode_frame _); exact Hw.
Qed.

Lemma serve_frame_answer e f s outs w :
  decode_frame f = Ok e → outputs_of e (handle version exe e s).2 = Ok outs →
  let x := serve_frame version exe f s w in
  x.1.1 = (handle version exe e s).1
  ∧ sent (λ _, (x.1.2, (λ _, ()) <$> x.2)) outs w
  ∧ ∀ b, x.2 = Ok b → b = stops (handle version exe e s).2.
Proof.
  intros Hd Ho. unfold serve_frame. rewrite Hd. simpl.
  destruct (handle version exe e s) as [s' r]. simpl in *.
  pose proof (sends_answer e r outs Ho w) as Hw. unfold sent in Hw |- *. destruct r as [res|error].
  - destruct (write_response (ce_message_id e) (ce_generation e) res w) as [w' [[]|er]];
      (split_and!; [done|apply Hw..|simpl; congruence]).
  - destruct (write_error (ce_message_id e) (ce_generation e) error w) as [w' [[]|er]];
      (split_and!; [done|apply Hw..|simpl; congruence]).
Qed.

Lemma next_frame_encoded {T} `{!Serialize T} (e : T) f rest :
  encode_frame e = Ok f → next_frame (f ++ rest) = Ok (Some (f, rest)).
Proof.
  intros (body & _ & Hle & ->)%encode_frame_ok. unfold next_frame.
  assert (length (to_be_bytes (len body) ++ body) = FRAME_PREFIX_BYTES + N.to_nat (len body))%nat as Hl
    by (rewrite length_app; unfold len; simpl; lia).
  rewrite length_app, Hl, take_app_le by (rewrite Hl; lia). rewrite frame_header by done. simpl is_nil. cbv iota.
  rewrite !(proj2 (Nat.ltb_ge _ _)), (proj2 (N.ltb_ge _ _)) by (done || lia).
  by rewrite take_app_length', drop_app_length'.
Qed.

Lemma unread_stream r : data_reader r → unread r = length (stream r).
Proof.
  induction 1 as [|ev r Hev _ IH]; [done|]. unfold stream in *. csimpl. rewrite length_app, <-IH. by destruct ev.
Qed.

Context `{!SerdeRoundTrip WorkerControlEnvelopeV1}.

(** How the loop ends on a sequence of encoded controls whose answers are
    [outs]: all of them are sent, or the loop stopped on the answer to the
    last of some first controls. *)
Definition served (ms : list WorkerControlEnvelopeV1) (s0 : WorkerServiceV1) (w : writer)
    (s : WorkerServiceV1) (outs : list WorkerOutputEnvelopeV1)
    (x : WorkerServiceV1 * writer * result WorkerRuntimeError ()) : Prop :=
  match x.2 with
  | Ok _ => x.1.1 = s ∧ ∃ bs, frames outs bs ∧ ww_written x.1.2 = ww_written w ++ bs
  | Err e => ∃ k answers done rest bs extra,
      serve_messages (take (S k) ms) s0 = Ok (x.1.1, answers) ∧ answers `prefix_of` outs
      ∧ answers = done ++ rest ∧ frames done bs
      ∧ ww_written x.1.2 = ww_written w ++ bs ++ extra ∧ stopped e rest (ww_script w) extra
  end.

Lemma serve_loop_messages ms fs fuel s r w s' outs :
  Forall2 (λ m f, encode_frame m = Ok f) ms fs → data_reader r → stream r = mjoin fs → (unread r < fuel)%nat →
  serve_messages ms s = Ok (s', outs) →
  ∃ x, serve_loop version exe fuel s r w = Some x ∧ served ms s w s' outs x.
Proof.
  intros Hms. revert fuel s r w outs. induction Hms as [|e f ms fs He Hms IH]; intros fuel s r w outs Hd Hs Hf Hm.
  - destruct fuel as [|fuel]; [lia|]. cbn [serve_loop]. destruct (read_one_frame_data r Hd) as (r' & _ & Hr).
    rewrite Hs in Hr. simpl in Hr. rewrite Hr. simpl in Hm. simplify_eq. eexists. split; [done|].
    split; [done|]. exists []. split; [constructor|by rewrite app_nil_r].
  - destruct fuel as [|fuel]; [lia|]. cbn [serve_loop]. destruct (read_one_frame_data r Hd) as (r' & Hd' & Hr).
    rewrite Hs in Hr. csimpl in Hr. rewrite (next_frame_encoded e f _ He) in Hr. destruct Hr as [Hr Hs'].
    destruct (read_one_frame_total r) as (r2 & res & Hr2 & Hu). rewrite Hr in Hr2. simplify_eq.
    specialize (Hu f eq_refl). rewrite Hr.
    assert (decode_frame f = Ok e) as Hdec.
    { apply encode_frame_ok in He as (body & Hbody & Hle & ->). by apply decode_encoded. }
    cbn [serve_messages] in Hm. destruct (handle version exe e s) as [s1 a] eqn:Hh.
    apply rbind_ok in Hm as (o1 & Ho1 & Hm). pose proof Ho1 as Ho1'.
    replace a with (handle version exe e s).2 in Ho1' by (by rewrite Hh).
    pose proof (serve_frame_answer e f s o1 w Hdec Ho1') as (Hs1 & Hw & Hb). rewrite Hh in Hs1, Hb.
    destruct (serve_frame version exe f s w) as [[s2 w2] [b|er]]; simpl in Hs1, Hb, Hw; subst s2; unfold sent in Hw;
      simpl in Hw; destruct Hw as [Hsuf Hw].
    + destruct Hw as (b1 & F1 & W1). rewrite (Hb b eq_refl). destruct (stops a) eqn:Hstop.
      { simplify_eq. eexists. split; [done|]. split; [done|]. eauto. }
      destruct (serve_messages ms s1) as [[s2 rest]|] eqn:Hrest; simplify_eq/=.
      destruct (IH fuel s1 r2 w2 rest) as (x & -> & Hx); [done|done|lia|done|].
      exists x. split; [done|]. unfold served in Hx |- *. destruct (x.2) as [u|er].
      * destruct Hx as (-> & b2 & F2 & W2). split; [done|]. exists (b1 ++ b2).
        split; [by apply frames_app_join|]. by rewrite W2, W1, app_assoc.
      * destruct Hx as (k & answers & done & rs & b2 & extra & Hk & Hpre & -> & F2 & W2 & Hst).
        exists (S k), (o1 ++ done ++ rs), (o1 ++ done), rs, (b1 ++ b2), extra. split_and!.
        -- change (take (S (S k)) (e :: ms)) with (e :: take (S k) ms). cbn [serve_messages].
           by rewrite Hh, Ho1; simpl; rewrite Hstop, Hk.
        -- by apply prefix_app.
        -- by rewrite app_assoc.
        -- by apply frames_app_join.
        -- by rewrite W2, W1, <-!app_assoc.
        -- rewrite <-(app_nil_r rs). by eapply stopped_app.
    + destruct Hw as (done & rs & b1 & extra & -> & F1 & W1 & Hst). eexists. split; [done|].
      exists 0%nat, (done ++ rs), done, rs, b1, extra. split_and!; try done.
      * cbn [take serve_messages]. rewrite Hh, Ho1. simpl. destruct (stops a); [done|]. by rewrite app_nil_r.
      * destruct (stops a); [by simplify_eq|].
        destruct (serve_messages ms s1) as [[s2 rest]|] eqn:Hrest; simplify_eq/=. by exists rest.
Qed.

(** When every answer can be encoded and no write fails, the loop ends
    cleanly. *)
Lemma served_clean ms s w s' outs x :
  served ms s w s' outs x → (∀ o, o ∈ outs → is_ok (encode_frame o) = true) →
  (∀ k n, WFail k n ∉ ww_script w) → x.2 = Ok ().
Proof.
  unfold served. destruct (x.2) as [[]|e]; [done|].
  intros (k & answers & done & rest & bs & extra & _ & [more ->] & -> & _ & _ & Hst) Henc Hw. exfalso.
  destruct Hst as [(pe & o & rest' & -> & Ho & _)|(kd & n & Hin & _)]; [|by destruct (Hw kd n)].
  specialize (Henc o ltac:(set_solver)). by rewrite Ho in Henc.
Qed.

(** The loop on an output that never fails and answers that all fit. *)
Lemma serve_loop_clean ms fs fuel s r s' outs bs :
  Forall2 (λ m f, encode_frame m = Ok f) ms fs → data_reader r → stream r = mjoin fs → (unread r < fuel)%nat →
  serve_messages ms s = Ok (s', outs) → frames outs bs →
  ∃ w, serve_loop version exe fuel s r (MkWriter [] []) = Some (s', w, Ok ()) ∧ ww_written w = bs.
Proof.
  intros Hms Hd Hs Hf Hm Hb.
  destruct (serve_loop_messages ms fs fuel s r (MkWriter [] []) s' outs Hms Hd Hs Hf Hm) as (x & Hx & Hserved).
  pose proof (served_clean _ _ _ _ _ _ Hserved (λ o, frames_encodes outs bs o Hb)
    (λ k n, not_elem_of_nil _)) as Hclean.
  unfold served in Hserved. destruct x as [[s2 w] res]. simpl in *. subst res.
  destruct Hserved as (-> & bs' & Hb' & Hw). exists w. split; [done|]. simpl in Hw. rewrite Hw.
  by apply (frames_fun outs).
Qed.

Context `{!Sha256Laws}.

Lemma opt_output_total {A} (o : option A) material k generation :
  ∃ outs, opt_output o material k generation = Ok outs.
Proof.
  destruct o as [x|]; simpl; [|eauto].
  destruct (digest_id_total "worker.output." 48 (as_bytes (material x))) as [i Hi]; [done..|].
  unfold output_id. rewrite Hi. simpl. eauto.
Qed.

Lemma serve_messages_total ms s : ∃ s' outs, serve_messages ms s = Ok (s', outs).
Proof.
  revert s. induction ms as [|e ms IH]; intros s; [simpl; eauto|]. cbn [serve_messages].
  destruct (handle version exe e s) as [s1 r].
  assert (∃ outs, outputs_of e r = Ok outs) as [outs ->].
  { destruct r as [res|err]; [|apply opt_output_total]. unfold outputs_of.
    repeat match goal with |- context [opt_output ?o ?m ?k ?g] =>
      destruct (opt_output_total o m k g) as [? ->] end. simpl. eauto. }
  simpl. destruct (stops r); [eauto|]. destruct (IH s1) as (s2 & rest & ->). simpl. eauto.
Qed.

End serve.

(** ** A session *)

Module DemoStdio.
Import (hints) Demo DemoRecovery DemoGateway.
(** A wire format for the shutdown controls of one run: the message id. *)
Definition shutdown (m : StableId) : WorkerControlEnvelopeV1 :=
  MkControl m id:"chat" id:"run" 7 "h" 3 (CkShutdown id:"c").
Definition is_shutdown (e : WorkerControlEnvelopeV1) : bool :=
  match ce_control e with
  | CkShutdown c =>
      bool_decide (c = id:"c") && bool_decide (ce_chat_id e = id:"chat") && bool_decide (ce_run_id e = id:"run")
      && bool_decide (ce_generation e = 7) && bool_decide (ce_snapshot_hash e = "h")
      && bool_decide (ce_committed_cursor e = 3)
  | _ => false
  end.
#[export] Instance control_ser : Serialize WorkerControlEnvelopeV1 := {|
  to_vec e := if is_shutdown e then Some (as_bytes (as_str (ce_message_id e))) else None;
  jcs_to_vec e := Some (as_bytes (as_str (ce_message_id e)))
|}.
#[export] Instance control_de : Deserialize WorkerControlEnvelopeV1 := λ b,
  shutdown <$> parse_opt (String.string_of_list_byte b).
#[export] Instance control_serde : SerdeRoundTrip WorkerControlEnvelopeV1.
Proof.
  intros [m chat run g h cur k] bs. simpl. destruct (is_shutdown _) eqn:Hs; [|done]. intros [= <-].
  unfold is_shutdown in Hs. simpl in Hs. destruct k; try discriminate Hs. boolify. subst.
  unfold from_slice, control_de, as_bytes. by rewrite String.string_of_list_byte_of_string, parse_opt_as_str.
Qed.
#[export] Instance output_ser : Serialize WorkerOutputEnvelopeV1 := {|
  to_vec o := Some (as_bytes (as_str (oe_message_id o)));
  jcs_to_vec o := Some (as_bytes (as_str (oe_message_id o)))
|}.
Definition frame : bytes := to_be_bytes 2 ++ as_bytes "m1".
(** The frame arrives in two pieces. *)
Definition split_input : reader := [RData (take 3 frame); RData (drop 3 frame)].
End DemoStdio.

Section stdio_witnesses.
Import (hints) Demo DemoRecovery DemoGateway.
Import (hints) DemoStdio.
Import DemoStdio.

Lemma split_data : data_reader split_input.
Proof. repeat (apply Forall_cons; split; [reflexivity|]). by apply Forall_nil. Qed.
Lemma whole_data : data_reader [RData frame].
Proof. repeat (apply Forall_cons; split; [reflexivity|]). by apply Forall_nil. Qed.

Lemma read_one_frame_chunking_witness : ∃ r1 r2,
  read_one_frame split_input = Some (r1, Ok (Some frame))
  ∧ read_one_frame [RData frame] = Some (r2, Ok (Some frame)).
Proof.
  destruct (read_one_frame_chunking split_input [RData frame] split_data whole_data eq_refl)
    as (r1 & r2 & res & H1 & H2 & Hres & _).
  exists r1, r2. vm_compute in Hres. subst res. split; [exact H1|exact H2].
Defined.

End stdio_witnesses.
