(* ===== verification/Authority.v ===== *)
(** * Frozen authority ([crates/aworkit-trusted-core/src/authority.rs])

    The core's side of a run's start: the freezers that check a request and
    build the immutable snapshot with its authority manifest, and the engine
    that consumes approval grants.  The file system is asked through one
    function, [resolve]; the checks on its answer ([revalidate_workspace_v1]
    of [project.rs]) are modelled. *)
From S2P Require Export PlanProofs.

(** ** Workspaces ([project.rs]) *)

Record WorkspaceIdentity : Type := MkWorkspaceIdentity {
  wi_canonical_path : string;
  wi_created_at_nanos : option N
}.
Record WorkspaceBinding : Type := MkWorkspace { wsb_root : string; wsb_identity : WorkspaceIdentity }.
Record WorkspaceIdentityV1 : Type := MkWorkspaceIdentityV1 {
  wv_canonical_path : string;
  wv_platform : string;
  wv_filesystem_object_id : string
}.
Record WorkspaceBindingV1 : Type := MkWorkspaceV1 { wvb_root : string; wvb_identity : WorkspaceIdentityV1 }.

Inductive ProjectError : Type :=
| WorkspaceUnavailable
| WorkspaceDrift
| StateUnavailable
| DocumentPortUnavailable
| DocumentMissing
| UnsupportedDocumentSchema (version : N)
| InvalidDocument
| InvalidPortResponse
| InvalidProject
| DuplicateProject
| ProjectPoisoned
| ProjectPort (code message : string) (retryable : bool).

Section workspace.
(** [dunce::simplified(left) == dunce::simplified(right)]: the path forms the
    platform identifies. *)
Variable simplified : string → string.
Variable resolve_workspace : string → result ProjectError WorkspaceBinding.
Variable resolve_workspace_v1 : string → result ProjectError WorkspaceBindingV1.

Definition same_canonical_path (left right : string) : bool :=
  bool_decide (simplified left = simplified right).

Definition revalidate_workspace (binding : WorkspaceBinding) : result ProjectError () :=
  observed ← resolve_workspace (wsb_root binding);
  fail_if (negb (bool_decide (wi_created_at_nanos (wsb_identity observed)
                              = wi_created_at_nanos (wsb_identity binding)))
           || negb (same_canonical_path (wi_canonical_path (wsb_identity observed))
                      (wi_canonical_path (wsb_identity binding))))
    WorkspaceDrift.

Definition revalidate_workspace_v1 (binding : WorkspaceBindingV1) : result ProjectError () :=
  observed ← resolve_workspace_v1 (wvb_root binding);
  fail_if (negb (bool_decide (wv_platform (wvb_identity observed) = wv_platform (wvb_identity binding)))
           || negb (bool_decide (wv_filesystem_object_id (wvb_identity observed)
                                 = wv_filesystem_object_id (wvb_identity binding)))
           || negb (same_canonical_path (wv_canonical_path (wvb_identity observed))
                      (wv_canonical_path (wvb_identity binding))))
    WorkspaceDrift.
End workspace.

(** ** Manifests *)

Inductive ApprovalRequirement : Type := ArNever | ArPerInvocation.
#[export] Instance ApprovalRequirement_eq_dec : EqDecision ApprovalRequirement.
Proof. solve_decision. Defined.

Record CapabilityBinding : Type := MkCapability {
  cb_capability_id : StableId;
  cb_adapter_version : string;
  cb_enabled : bool;
  cb_compatible : bool;
  cb_approval : ApprovalRequirement
}.
Record AuthorityManifest : Type := MkManifest {
  am_manifest_id : StableId;
  am_capability_bindings : list CapabilityBinding;
  am_summary : string
}.

Record CapabilityBindingV1 : Type := MkCapabilityV1 {
  cv_capability_id : StableId;
  cv_adapter_id : StableId;
  cv_adapter_version : string;
  cv_descriptor_hash : string;
  cv_extension : option ExtensionRuntimeBindingV1;
  cv_required_isolation_profile : option string;
  cv_enabled : bool;
  cv_compatible : bool;
  cv_approval : ApprovalRequirement;
  cv_allowed_node_types : list string
}.
Record AuthorityManifestV1 : Type := MkManifestV1 {
  mv_manifest_id : StableId;
  mv_manifest_hash : string;
  mv_capability_bindings : list CapabilityBindingV1;
  mv_summary : string
}.

Definition frozen_execution_binding (b : CapabilityBindingV1) : FrozenCapabilityBindingV1 :=
  MkBinding (cv_capability_id b) (cv_adapter_id b) (cv_adapter_version b) (cv_descriptor_hash b)
    (cv_extension b) (cv_required_isolation_profile b).

(** [slice.windows(2).any(|pair| pair[0] == pair[1])] *)
Fixpoint adjacent_equal {A} `{EqDecision A} (l : list A) : bool :=
  match l with
  | x :: ((y :: _) as l) => bool_decide (x = y) || adjacent_equal l
  | _ => false
  end.
(** [Vec::dedup] *)
Fixpoint dedup {A} `{EqDecision A} (l : list A) : list A :=
  match l with
  | x :: ((y :: _) as l) => if bool_decide (x = y) then dedup l else x :: dedup l
  | _ => l
  end.

Definition approvals_required {A} (approval : A → ApprovalRequirement) (bindings : list A) : N :=
  len (filter (λ b, approval b = ArPerInvocation) bindings).

(** ** The first freezer *)

Record SnapshotRequest : Type := MkRequest {
  rq_chat_id : StableId;
  rq_workflow_id : StableId;
  rq_workflow_version : N;
  rq_workflow_hash : string;
  rq_workspace : WorkspaceBinding;
  rq_capability_bindings : list CapabilityBinding
}.
Record CoreRunSnapshot : Type := MkCoreSnapshot {
  cs_chat_id : StableId;
  cs_workflow_id : StableId;
  cs_workflow_version : N;
  cs_workflow_hash : string;
  cs_workspace : WorkspaceBinding;
  cs_authority : AuthorityManifest;
  cs_snapshot_hash : string
}.
Inductive SnapshotError : Type :=
| SnWorkspace (e : ProjectError)
| SnNoCapabilities
| SnUnresolvedBinding
| SnDuplicateCapability
| SnEncoding.

Section freeze.
Context `{Sha256} `{Serialize (string * string * N * string * WorkspaceIdentity * list CapabilityBinding)}.
Variable simplified : string → string.
Variable resolve_workspace : string → result ProjectError WorkspaceBinding.

Definition freeze (request : SnapshotRequest) : result SnapshotError CoreRunSnapshot :=
  _ ← map_err SnWorkspace (revalidate_workspace simplified resolve_workspace (rq_workspace request));
  _ ← fail_if (is_nil (rq_capability_bindings request)) SnNoCapabilities;
  _ ← fail_if (existsb (λ b, negb (cb_enabled b) || negb (cb_compatible b))
                 (rq_capability_bindings request)) SnUnresolvedBinding;
  let bindings := sort_by (id_cmp cb_capability_id) (rq_capability_bindings request) in
  _ ← fail_if (adjacent_equal (cb_capability_id <$> bindings)) SnDuplicateCapability;
  canonical ← ok_or (jcs_to_vec (as_str (rq_chat_id request), as_str (rq_workflow_id request),
                       rq_workflow_version request, rq_workflow_hash request,
                       wsb_identity (rq_workspace request), bindings)) SnEncoding;
  let digest := sha256_hex canonical in
  manifest_id ← map_err (λ _, SnEncoding) (StableId_parse ("manifest." +:+ str_take 24 digest));
  let summary := pretty (len bindings) +:+ " frozen capability binding(s); "
                 +:+ pretty (approvals_required cb_approval bindings)
                 +:+ " require per-invocation approval" in
  Ok (MkCoreSnapshot (rq_chat_id request) (rq_workflow_id request) (rq_workflow_version request)
        (rq_workflow_hash request) (rq_workspace request)
        (MkManifest manifest_id bindings summary) digest).
End freeze.

(** ** The freezer of worker snapshots *)

Record SnapshotRequestV1 : Type := MkRequestV1 {
  rv_snapshot_id : StableId;
  rv_chat_id : StableId;
  rv_run_id : StableId;
  rv_workflow_hash : string;
  rv_nodes : list WorkerNodeV1;
  rv_transitions : list WorkerTransitionV1;
  rv_entry_nodes : list StableId;
  rv_loop_descriptors : list WorkerLoopDescriptorV1;
  rv_join_descriptors : list WorkerJoinDescriptorV1;
  rv_route_rules : list WorkerRouteRuleV1;
  rv_workspace : WorkspaceBindingV1;
  rv_capability_bindings : list CapabilityBindingV1;
  rv_budget : WorkerBudgetV1;
  rv_history_mode : HistoryBackendV1
}.

Inductive SnapshotErrorV1 : Type :=
| SfWorkspace (e : ProjectError)
| SfWorkflowHashMismatch
| SfDuplicateCapability
| SfInvalidCapability (i : StableId)
| SfNodeCapabilityMissing (i : StableId)
| SfUnresolvedCapability (i : StableId)
| SfNodeTypeDenied (i : StableId)
| SfInvalidBudget
| SfEncoding.

Definition validate_budget (b : WorkerBudgetV1) : result SnapshotErrorV1 () :=
  fail_if ((wb_turns b =? 0) || (wb_attempts b =? 0) || (wb_actions b =? 0) || (64 <? wb_depth b)
           || (1024 <? wb_fanout b) || (wb_parallel b =? 0)
           || (N.max (wb_fanout b) 1 <? wb_parallel b) || (wb_deadline_ms b =? 0))
    SfInvalidBudget.

Definition validate_binding (b : CapabilityBindingV1) : result SnapshotErrorV1 () :=
  let invalid_extension :=
    match cv_extension b with
    | None => false
    | Some e => (eb_host_generation e =? 0)
                || negb (bool_decide (eb_contribution_id e = cv_adapter_id b))
                || trim_is_empty (ei_version (eb_identity e))
                || (128 <? str_len (ei_version (eb_identity e)))
                || negb (is_canonical_sha256 (ei_content_hash (eb_identity e)))
                || negb (is_canonical_sha256 (eb_handshake_hash e))
    end in
  let invalid_isolation :=
    match cv_required_isolation_profile b with
    | None => false
    | Some p => str_is_empty p || (256 <? str_len p) || trim_changes p || any_control p
    end in
  fail_if (negb (cv_enabled b) || negb (cv_compatible b) || trim_is_empty (cv_adapter_version b)
           || (128 <? str_len (cv_adapter_version b))
           || negb (is_canonical_sha256 (cv_descriptor_hash b))
           || invalid_extension || invalid_isolation
           || existsb (λ t, str_is_empty t || (128 <? str_len t) || any_control t)
                (cv_allowed_node_types b))
    (SfInvalidCapability (cv_capability_id b)).

(** [binding.allowed_node_types.sort(); binding.allowed_node_types.dedup()] *)
Definition normalize_binding (b : CapabilityBindingV1) : CapabilityBindingV1 :=
  MkCapabilityV1 (cv_capability_id b) (cv_adapter_id b) (cv_adapter_version b)
    (cv_descriptor_hash b) (cv_extension b) (cv_required_isolation_profile b) (cv_enabled b)
    (cv_compatible b) (cv_approval b) (dedup (sort_by String.compare (cv_allowed_node_types b))).

(** One turn of the loop over the sorted bindings. *)
Definition freeze_binding (st : gset string * list CapabilityBindingV1) (b : CapabilityBindingV1) :
    result SnapshotErrorV1 (gset string * list CapabilityBindingV1) :=
  let b := normalize_binding b in
  if bs_contains st.1 (as_str (cv_capability_id b)) then Err SfDuplicateCapability else
  _ ← validate_binding b;
  Ok ({[as_str (cv_capability_id b)]} ∪ st.1, st.2 ++ [b]).

Definition binding_map (bindings : list CapabilityBindingV1) : gmap string CapabilityBindingV1 :=
  foldl (λ m b, <[as_str (cv_capability_id b) := b]> m) ∅ bindings.

(** One turn of the loop over the nodes. *)
Definition check_node_capability (bindings : gmap string CapabilityBindingV1) (node : WorkerNodeV1) :
    result SnapshotErrorV1 () :=
  match wn_executor node, wn_capability_ref node with
  | (ExBrokered | ExModel | ExAgent), Some capability =>
      binding ← ok_or (bindings !! as_str capability) (SfUnresolvedCapability capability);
      fail_if (negb (is_nil (cv_allowed_node_types binding))
               && negb (bool_decide (wn_node_type node ∈ cv_allowed_node_types binding)))
        (SfNodeTypeDenied (wn_node_id node))
  | (ExBrokered | ExModel | ExAgent), None => Err (SfNodeCapabilityMissing (wn_node_id node))
  | _, Some capability =>
      fail_if (negb (bt_contains bindings (as_str capability))) (SfUnresolvedCapability capability)
  | _, None => Ok ()
  end.

(** [serde_json::to_value] of the derived struct. *)
Definition workspace_identity_value (i : WorkspaceIdentityV1) : json :=
  JObject [("canonicalPath", JString (wv_canonical_path i)); ("platform", JString (wv_platform i));
           ("filesystemObjectId", JString (wv_filesystem_object_id i))].

(** The core orders routes by node, then priority, then id. *)
Definition graph_route_cmp (left right : WorkerRouteRuleV1) : comparison :=
  then_with (id_cmp wr_node_id left right)
    (then_with (Z.compare (wr_priority left) (wr_priority right)) (id_cmp wr_route_id left right)).

Definition sort_ports (n : WorkerNodeV1) : WorkerNodeV1 :=
  MkNode (wn_node_id n) (wn_node_type n) (wn_node_version n) (wn_contribution_hash n)
    (sort_by (on_key port_name String.compare) (wn_inputs n))
    (sort_by (on_key port_name String.compare) (wn_outputs n))
    (wn_executor n) (wn_config n) (wn_capability_ref n) (wn_result_schema_ref n).

Abbreviation graph := (list WorkerNodeV1 * list WorkerTransitionV1 * list StableId
  * list WorkerLoopDescriptorV1 * list WorkerJoinDescriptorV1 * list WorkerRouteRuleV1)%type.

Section freeze_v1.
Context `{Sha256} `{Serialize graph} `{Serialize (list CapabilityBindingV1)}
        `{Serialize WorkerFrozenRunSnapshotV1}.
Variable simplified : string → string.
Variable resolve_workspace_v1 : string → result ProjectError WorkspaceBindingV1.

Definition workflow_graph_hash_v1 (nodes : list WorkerNodeV1) (transitions : list WorkerTransitionV1)
    (entry_nodes : list StableId) (loops : list WorkerLoopDescriptorV1)
    (joins : list WorkerJoinDescriptorV1) (routes : list WorkerRouteRuleV1) :
    result SnapshotErrorV1 string :=
  bytes ← ok_or (jcs_to_vec (sort_ports <$> sort_by (id_cmp wn_node_id) nodes,
                   sort_by (id_cmp wt_transition_id) transitions, sort_by (id_cmp id) entry_nodes,
                   sort_by (id_cmp wl_loop_id) loops, sort_by (id_cmp wj_join_id) joins,
                   sort_by graph_route_cmp routes)) SfEncoding;
  Ok (sha256_hex bytes).

Definition snapshot_hash_v1 (s : WorkerFrozenRunSnapshotV1) : result SnapshotErrorV1 string :=
  bytes ← ok_or (jcs_to_vec (MkSnapshot (ws_snapshot_id s) "" (ws_chat_id s) (ws_run_id s)
      (ws_schema_version s) (ws_compiler_version s) (ws_workflow_hash s)
      (sort_ports <$> sort_by (id_cmp wn_node_id) (ws_nodes s))
      (sort_by (id_cmp wt_transition_id) (ws_transitions s))
      (sort_by (id_cmp id) (ws_entry_nodes s))
      (sort_by (id_cmp wl_loop_id) (ws_loop_descriptors s))
      (sort_by (id_cmp wj_join_id) (ws_join_descriptors s))
      (sort_by (id_cmp wr_route_id) (ws_route_rules s))
      (ws_authority_manifest_ref s) (ws_authority_manifest_hash s)
      (sort_by (id_cmp fb_capability_id) (ws_capability_bindings s))
      (sort_by (id_cmp id) (ws_capability_refs s))
      (ws_workspace_identity s) (ws_budget s) (ws_history_mode s))) SfEncoding;
  Ok (sha256_hex bytes).

Definition freeze_v1 (request : SnapshotRequestV1) :
    result SnapshotErrorV1 (WorkerFrozenRunSnapshotV1 * AuthorityManifestV1) :=
  _ ← map_err SfWorkspace
        (revalidate_workspace_v1 simplified resolve_workspace_v1 (rv_workspace request));
  _ ← validate_budget (rv_budget request);
  calculated_workflow_hash ←
    workflow_graph_hash_v1 (rv_nodes request) (rv_transitions request) (rv_entry_nodes request)
      (rv_loop_descriptors request) (rv_join_descriptors request) (rv_route_rules request);
  _ ← fail_if (negb (bool_decide (rv_workflow_hash request = calculated_workflow_hash)))
        SfWorkflowHashMismatch;
  st ← fold_res freeze_binding (∅ : gset string, [])
         (sort_by (id_cmp cv_capability_id) (rv_capability_bindings request));
  let bindings := st.2 in
  _ ← for_each (check_node_capability (binding_map bindings)) (rv_nodes request);
  manifest_bytes ← ok_or (jcs_to_vec bindings) SfEncoding;
  let manifest_hash := sha256_hex manifest_bytes in
  manifest_id ← map_err (λ _, SfEncoding) (StableId_parse ("manifest." +:+ str_take 32 manifest_hash));
  let manifest := MkManifestV1 manifest_id manifest_hash bindings
    (pretty (len bindings) +:+ " exact capability binding(s); "
     +:+ pretty (approvals_required cv_approval bindings) +:+ " require per-invocation approval") in
  let snapshot := MkSnapshot (rv_snapshot_id request) "" (rv_chat_id request) (rv_run_id request)
    1 "aworkit-worker-v1" (rv_workflow_hash request) (rv_nodes request) (rv_transitions request)
    (rv_entry_nodes request) (rv_loop_descriptors request) (rv_join_descriptors request)
    (rv_route_rules request) manifest_id manifest_hash (frozen_execution_binding <$> bindings)
    (cv_capability_id <$> mv_capability_bindings manifest)
    (workspace_identity_value (wvb_identity (rv_workspace request)))
    (rv_budget request) (rv_history_mode request) in
  snapshot_hash ← snapshot_hash_v1 snapshot;
  Ok (with_snapshot_hash snapshot_hash snapshot, manifest).
End freeze_v1.

(** ** Approval grants *)

Record ApprovalGrantV1 : Type := MkGrant {
  ag_approval_id : StableId;
  ag_invocation_id : StableId;
  ag_authority_manifest_ref : StableId;
  ag_expires_at_tick : N;
  ag_constraints : json
}.
Inductive ApprovalDecisionV1 : Type :=
| AdvNotRequired
| AdvApproved (approval_id : StableId)
| AdvRequired
| AdvDenied
| AdvExpired
| AdvAlreadyConsumed.
Record ApprovalEngineV1 : Type := MkApprovalEngine {
  ae_consumed : gset string;
  ae_denied_invocations : gset string
}.
Definition ApprovalEngineV1_default : ApprovalEngineV1 := MkApprovalEngine ∅ ∅.

Definition deny (invocation_id : StableId) (e : ApprovalEngineV1) : ApprovalEngineV1 :=
  MkApprovalEngine (ae_consumed e) ({[as_str invocation_id]} ∪ ae_denied_invocations e).

Definition engine_authorize (binding : CapabilityBindingV1) (manifest : AuthorityManifestV1)
    (invocation_id : StableId) (current_tick : N) (grant : option ApprovalGrantV1)
    (e : ApprovalEngineV1) : ApprovalEngineV1 * ApprovalDecisionV1 :=
  if bs_contains (ae_denied_invocations e) (as_str invocation_id) then (e, AdvDenied) else
  if bool_decide (cv_approval binding = ArNever) then (e, AdvNotRequired) else
  match grant with
  | None => (e, AdvRequired)
  | Some grant =>
      if negb (bool_decide (ag_invocation_id grant = invocation_id))
         || negb (bool_decide (ag_authority_manifest_ref grant = mv_manifest_id manifest))
      then (e, AdvDenied)
      else if ag_expires_at_tick grant <=? current_tick then (e, AdvExpired)
      else if bs_contains (ae_consumed e) (as_str (ag_approval_id grant)) then (e, AdvAlreadyConsumed)
      else (MkApprovalEngine ({[as_str (ag_approval_id grant)]} ∪ ae_consumed e)
              (ae_denied_invocations e), AdvApproved (ag_approval_id grant))
  end.
