(* ===== verification/AuthorityProofs.v ===== *)
(** * What the core freezes, the worker accepts

    The core and the worker compute the snapshot hash and check capability
    bindings in two crates; the first theorem relates the two.  The second
    half is about approval grants. *)
From S2P Require Export Authority.

Abbreviation cap_key := (λ b, as_str (cv_capability_id b)).

(** The nodes whose effects go through the broker. *)
Definition brokered (n : WorkerNodeV1) : Prop :=
  wn_executor n = ExBrokered ∨ wn_executor n = ExModel ∨ wn_executor n = ExAgent.

Section freezing.
Context `{Sha256Laws} `{Serialize graph} `{Serialize (list CapabilityBindingV1)}
        `{Serialize WorkerFrozenRunSnapshotV1} `{Serialize json}
        `{Serialize (string * WorkerFrozenRunSnapshotV1 * string)}.
Variable simplified : string → string.
Variable resolve_workspace_v1 : string → result ProjectError WorkspaceBindingV1.
Abbreviation freeze_v1 := (freeze_v1 simplified resolve_workspace_v1).

Lemma digest_valid m : valid_sha256 (sha256_hex m) = true.
Proof.
  unfold valid_sha256, str_len. rewrite sha256_hex_len, N.eqb_refl. simpl.
  eapply all_bytes_impl; [|apply sha256_hex_digits]. intros b.
  unfold is_lower_hexdigit, is_ascii_hexdigit. rewrite !orb_true_iff. tauto.
Qed.

(** The loop over the bindings normalizes them and proves them distinct and
    valid. *)
Lemma freeze_bindings_ok l st :
  fold_res freeze_binding (∅, []) l = Ok st →
  st.2 = normalize_binding <$> l ∧ NoDup (cap_key <$> st.2)
  ∧ (∀ b, b ∈ st.2 → validate_binding b = Ok ()).
Proof.
  intros Hf. pose (P l (st : gset string * list CapabilityBindingV1) :=
    st.2 = normalize_binding <$> l ∧ NoDup (cap_key <$> st.2) ∧ st.1 = list_to_set (cap_key <$> st.2)
    ∧ ∀ b, b ∈ st.2 → validate_binding b = Ok ()).
  enough (P l st) as (? & ? & _ & ?) by done. revert Hf. apply fold_res_inv; unfold P.
  - simpl. split_and!; [done|constructor|done|set_solver].
  - intros pre b [ids out] [ids' out'] (Ho & Hnd & Hids & Hv) Hb. unfold freeze_binding in Hb. simpl in *.
    case_match eqn:Hin; [done|]. res_inv Hb. unfold bs_contains in Hin. boolify. subst.
    rewrite !fmap_app. destruct x. split_and!; [done| |rewrite list_to_set_app_L; csimpl; by rewrite union_empty_r_L, union_comm_L|].
    + apply NoDup_app. split_and!; [done| |apply NoDup_singleton].
      intros x Hx Hk%list_elem_of_singleton. subst. by apply Hin, elem_of_list_to_set.
    + intros b' [?|Hb]%elem_of_app; [auto|]. apply list_elem_of_singleton in Hb as ->. done.
Qed.

Lemma binding_map_lookup l k b : binding_map l !! k = Some b → b ∈ l ∧ k = cap_key b.
Proof.
  unfold binding_map. enough (∀ m : gmap string CapabilityBindingV1, foldl (λ m b, <[cap_key b := b]> m) m l !! k = Some b →
    m !! k = Some b ∨ (b ∈ l ∧ k = cap_key b)) as Hgen.
  { intros [Hm|?]%Hgen; [|done]. by rewrite lookup_empty in Hm. }
  induction l as [|x l IH]; intros m Hm; simpl in *; [by left|].
  apply IH in Hm as [Hm|[? ?]]; [|right; split; [by right|done]].
  apply lookup_insert_Some in Hm as [[<- <-]|[_ ?]]; [right; split; [by left|done]|by left].
Qed.

Lemma validate_binding_on b : validate_binding b = Ok () → cv_enabled b = true ∧ cv_compatible b = true.
Proof.
  unfold validate_binding. intros Hv%fail_if_ok. boolify. done.
Qed.

(** The core's checks of a binding imply the worker's. *)
Lemma frozen_binding_valid b :
  validate_binding b = Ok () → binding_invalid (frozen_execution_binding b) = false.
Proof.
  unfold validate_binding, binding_invalid. intros Hv%fail_if_ok. simpl.
  repeat (apply orb_false_iff in Hv as [Hv ?]).
  repeat (apply orb_false_iff; split); try done; destruct (cv_extension b); try done.
  boolify. repeat (apply orb_false_iff; split); [by apply N.eqb_neq|by rewrite bool_decide_true|..];
    by apply negb_false_iff.
Qed.

Lemma frozen_bindings_checked s bindings :
  ws_capability_bindings s ≡ₚ frozen_execution_binding <$> bindings →
  ws_capability_refs s ≡ₚ cv_capability_id <$> bindings →
  NoDup (cap_key <$> bindings) → (∀ b, b ∈ bindings → validate_binding b = Ok ()) →
  check_bindings s = Ok (list_to_set (cap_key <$> bindings)).
Proof.
  intros Hb Hr Hnd Hv. unfold check_bindings.
  assert (as_str <$> ws_capability_refs s ≡ₚ cap_key <$> bindings) as Hrk by (by rewrite Hr, <-list_fmap_compose).
  assert ((λ b, as_str (fb_capability_id b)) <$> ws_capability_bindings s ≡ₚ cap_key <$> bindings) as Hbk
    by (by rewrite Hb, <-list_fmap_compose).
  assert (∀ A (l : list A) (f : A → string), f <$> l ≡ₚ cap_key <$> bindings →
    list_to_set (C:=gset string) (f <$> l) = list_to_set (cap_key <$> bindings)
    ∧ bs_len (list_to_set (f <$> l)) = len l) as Hset.
  { intros A l f Hp. split; [by rewrite Hp|]. unfold bs_len, len.
    rewrite (proj2 (size_list_to_set_NoDup _)), length_fmap; [done|by rewrite Hp]. }
  destruct (Hset _ _ _ Hrk) as [Hr1 ->], (Hset _ _ _ Hbk) as [Hb1 ->].
  rewrite !N.eqb_refl, Hr1, Hb1, bool_decide_true by done. simpl.
  rewrite (proj2 (for_each_ok _ _ ())); [done|]. intros b Hin. rewrite Hb in Hin.
  apply list_elem_of_fmap in Hin as (c & -> & Hc). by rewrite frozen_binding_valid by auto.
Qed.

Lemma with_hash_content h s : snapshot_content_hash (with_snapshot_hash h s) = snapshot_content_hash s.
Proof. done. Qed.

(** The two crates hash the same canonical form. *)
Lemma snapshot_hashes_agree s h : snapshot_hash_v1 s = Ok h → snapshot_content_hash s = Ok h.
Proof.
  unfold snapshot_hash_v1, snapshot_content_hash. intros Hh. res_inv Hh.
  change (canonicalize_snapshot (with_snapshot_hash "" s)) with (MkSnapshot (ws_snapshot_id s) "" (ws_chat_id s) (ws_run_id s)
      (ws_schema_version s) (ws_compiler_version s) (ws_workflow_hash s)
      (sort_ports <$> sort_by (id_cmp wn_node_id) (ws_nodes s))
      (sort_by (id_cmp wt_transition_id) (ws_transitions s))
      (sort_by (id_cmp id) (ws_entry_nodes s))
      (sort_by (id_cmp wl_loop_id) (ws_loop_descriptors s))
      (sort_by (id_cmp wj_join_id) (ws_join_descriptors s))
      (sort_by (id_cmp wr_route_id) (ws_route_rules s))
      (ws_authority_manifest_ref s) (ws_authority_manifest_hash s)
      (sort_by (id_cmp fb_capability_id) (ws_capability_bindings s))
      (sort_by (id_cmp id) (ws_capability_refs s))
      (ws_workspace_identity s) (ws_budget s) (ws_history_mode s)).
  match goal with Hj : jcs_to_vec _ = _ |- _ => rewrite Hj end. done.
Qed.

(** A frozen snapshot carries its own content hash, current versions, the
    request's graph, and one binding per manifest entry. *)
Lemma freeze_v1_ok request s m :
  freeze_v1 request = Ok (s, m) →
  ∃ ds dw, snapshot_content_hash s = Ok (ws_snapshot_hash s) ∧ ws_snapshot_hash s = sha256_hex ds
    ∧ ws_workflow_hash s = sha256_hex dw
    ∧ (ws_schema_version s, ws_compiler_version s) = (SUPPORTED_WORKER_SCHEMA_VERSION, WORKER_COMPILER_VERSION)
    ∧ (∃ dm, ws_authority_manifest_hash s = sha256_hex dm)
    ∧ ws_nodes s = rv_nodes request
    ∧ ws_capability_bindings s = frozen_execution_binding <$> mv_capability_bindings m
    ∧ ws_capability_refs s = cv_capability_id <$> mv_capability_bindings m
    ∧ mv_capability_bindings m = normalize_binding <$> sort_by (id_cmp cv_capability_id) (rv_capability_bindings request)
    ∧ NoDup (cap_key <$> mv_capability_bindings m)
    ∧ (∀ b, b ∈ mv_capability_bindings m → validate_binding b = Ok ())
    ∧ (∀ n, n ∈ ws_nodes s → check_node_capability (binding_map (mv_capability_bindings m)) n = Ok ()).
Proof.
  unfold freeze_v1. intros Hf. res_inv Hf.
  match goal with Hb : fold_res _ _ _ = _ |- _ => apply freeze_bindings_ok in Hb as (Hb1 & Hb2 & Hb3) end.
  match goal with Hn : for_each _ _ = _ |- _ => rewrite for_each_ok in Hn end.
  match goal with Hw : workflow_graph_hash_v1 _ _ _ _ _ _ = _ |- _ => unfold workflow_graph_hash_v1 in Hw; res_inv Hw end.
  match goal with Hs : snapshot_hash_v1 _ = Ok ?h |- _ => pose proof (snapshot_hashes_agree _ _ Hs) as Ha;
    unfold snapshot_hash_v1 in Hs; res_inv Hs end.
  boolify. simplify_eq/=. do 2 eexists. split_and!; eauto.
Qed.

(** C33: A snapshot the core has frozen is never refused by the worker for its
    versions, its hashes or its capability bindings: once it is within the
    worker's size bounds, only the graph itself remains to be checked.  The
    worker's capability set is exactly the manifest's; every node that needs
    the broker names a capability of the manifest whose binding is enabled,
    compatible and open to the node's type. *)
Theorem frozen_snapshot_accepted request s m :
  freeze_v1 request = Ok (s, m) →
  compile s (ws_snapshot_hash s)
    = (_ ← validate_snapshot_bounds s; build_plan (canonicalize_snapshot s))
  ∧ check_bindings (canonicalize_snapshot s) = Ok (list_to_set (cap_key <$> mv_capability_bindings m))
  ∧ ∀ n, n ∈ ws_nodes s →
      (brokered n → is_Some (wn_capability_ref n))
      ∧ ∀ c, wn_capability_ref n = Some c → ∃ b, b ∈ mv_capability_bindings m ∧ cv_capability_id b = c
          ∧ cv_enabled b = true ∧ cv_compatible b = true
          ∧ (brokered n → cv_allowed_node_types b = [] ∨ wn_node_type n ∈ cv_allowed_node_types b).
Proof.
  intros (ds & dw & Hh & Hd & Hw & Hv & [dm Hm] & Hn & Hb & Hr & _ & Hnd & Hval & Hnode)%freeze_v1_ok.
  split_and!.
  - unfold compile. injection Hv as Hv1 Hv2. destruct (validate_snapshot_bounds s) as [[]|e]; [|done].
    rewrite Hv1, Hv2, Hm, Hw, Hh, Hd, !digest_valid, N.eqb_refl, !(bool_decide_true _ eq_refl). simpl.
    by rewrite bool_decide_true.
  - apply frozen_bindings_checked; [..|done|done]; simpl; rewrite sort_by_perm; [by rewrite Hb|by rewrite Hr].
  - intros n Hin%Hnode. unfold check_node_capability in Hin. split.
    + intros Hex. destruct (wn_capability_ref n); [eauto|]. by destruct Hex as [Hex|[Hex|Hex]]; rewrite Hex in Hin.
    + intros c Hc. rewrite Hc in Hin.
      destruct (binding_map (mv_capability_bindings m) !! as_str c) as [b|] eqn:Hmap;
        [|unfold bt_contains in Hin; rewrite Hmap in Hin; by destruct (wn_executor n)].
      pose proof (binding_map_lookup _ _ _ Hmap) as [Hb' Hk]. exists b.
      pose proof (validate_binding_on _ (Hval b Hb')) as [? ?]. split_and!; [done|by apply as_str_inj|done|done|].
      intros Hex. assert (fail_if (negb (is_nil (cv_allowed_node_types b))
        && negb (bool_decide (wn_node_type n ∈ cv_allowed_node_types b))) (SfNodeTypeDenied (wn_node_id n)) = Ok ())
        as Hf%fail_if_ok by (by destruct Hex as [Hex|[Hex|Hex]]; rewrite Hex in Hin).
      apply andb_false_iff in Hf as [Hf|Hf]; boolify; [left; by destruct (cv_allowed_node_types b)|by right].
Qed.
End freezing.

(** ** Approval grants *)

Inductive engine_call : Type :=
| EcDeny (invocation_id : StableId)
| EcAuthorize (binding : CapabilityBindingV1) (manifest : AuthorityManifestV1) (invocation_id : StableId)
    (current_tick : N) (grant : option ApprovalGrantV1).

Definition engine_step (e : ApprovalEngineV1) (c : engine_call) : ApprovalEngineV1 * option ApprovalDecisionV1 :=
  match c with
  | EcDeny i => (deny i e, None)
  | EcAuthorize b m i t g => let '(e, d) := engine_authorize b m i t g e in (e, Some d)
  end.

(** The calls with their answers. *)
Fixpoint engine_log (e : ApprovalEngineV1) (cs : list engine_call) :
    list (engine_call * option ApprovalDecisionV1) :=
  match cs with
  | [] => []
  | c :: cs => (c, (engine_step e c).2) :: engine_log (engine_step e c).1 cs
  end.

Definition approved_id (x : engine_call * option ApprovalDecisionV1) : option string :=
  match x.2 with Some (AdvApproved a) => Some (as_str a) | _ => None end.

(** Why a call is approved. *)
Definition granted (c : engine_call) (a : StableId) : Prop :=
  match c with
  | EcDeny _ => False
  | EcAuthorize b m i t g => ∃ g', g = Some g' ∧ ag_approval_id g' = a ∧ ag_invocation_id g' = i
      ∧ ag_authority_manifest_ref g' = mv_manifest_id m ∧ t < ag_expires_at_tick g'
      ∧ cv_approval b = ArPerInvocation
  end.

Lemma engine_step_grows e c :
  ae_consumed e ⊆ ae_consumed (engine_step e c).1
  ∧ ae_denied_invocations e ⊆ ae_denied_invocations (engine_step e c).1.
Proof.
  destruct c as [i|b m i t g]; simpl; [set_solver|]. unfold engine_authorize. repeat case_match; simpl; set_solver.
Qed.

Lemma engine_step_approved e c a :
  (engine_step e c).2 = Some (AdvApproved a) →
  granted c a ∧ as_str a ∉ ae_consumed e ∧ as_str a ∈ ae_consumed (engine_step e c).1.
Proof.
  destruct c as [i|b m i t g]; [done|]. simpl. destruct (engine_authorize b m i t g e) as [e' d] eqn:Ha.
  intros [= ->]. revert Ha. unfold engine_authorize. repeat (case_match; try done). intros [= <- <-].
  boolify. simpl. split_and!; [|done|set_solver]. eexists. split_and!; try done. by destruct (cv_approval b).
Qed.

Lemma engine_log_approved e cs :
  NoDup (omap approved_id (engine_log e cs))
  ∧ (∀ a, a ∈ omap approved_id (engine_log e cs) → a ∉ ae_consumed e)
  ∧ ∀ c a, (c, Some (AdvApproved a)) ∈ engine_log e cs → granted c a.
Proof.
  revert e. induction cs as [|c cs IH]; intros e; simpl; [split_and!; [constructor|set_solver..]|].
  destruct (IH (engine_step e c).1) as (Hnd & Hfresh & Hg), (engine_step_grows e c) as [Hsub _].
  pose proof (engine_step_approved e c) as Ha. unfold approved_id at 1 3. simpl.
  assert (∀ a, a ∈ omap approved_id (engine_log (engine_step e c).1 cs) → a ∉ ae_consumed e) as Hold
    by (intros a Hin%Hfresh; set_solver).
  assert (∀ c' a, (c', Some (AdvApproved a)) ∈ (c, (engine_step e c).2) :: engine_log (engine_step e c).1 cs →
    granted c' a) as Hall.
  { intros c' a [[= -> Hs]|?]%elem_of_cons; [by destruct (Ha a (eq_sym Hs))|eauto]. }
  destruct (engine_step e c).2 as [[]|]; try done.
  destruct (Ha _ eq_refl) as (_ & Hn & Hin). split_and!; [|intros a [->|?]%elem_of_cons; auto|done].
  apply NoDup_cons. split; [|done]. intros Hbad%Hfresh. set_solver.
Qed.

(** An approval is used at most once, whatever is asked in which order, and
    only for the invocation and the manifest it was given for, before it
    expires, where the binding asks for approval. *)
Theorem approval_single_use cs :
  NoDup (omap approved_id (engine_log ApprovalEngineV1_default cs))
  ∧ ∀ c a, (c, Some (AdvApproved a)) ∈ engine_log ApprovalEngineV1_default cs → granted c a.
Proof. destruct (engine_log_approved ApprovalEngineV1_default cs) as (? & _ & ?). done. Qed.

(** A denied invocation stays denied, with or without a grant. *)
Lemma denied_stays e i cs x :
  as_str i ∈ ae_denied_invocations e → x ∈ engine_log e cs →
  match x with (EcAuthorize _ _ j _ _, d) => j = i → d = Some AdvDenied | _ => True end.
Proof.
  revert e. induction cs as [|c cs IH]; intros e Hi; simpl; [by intros ?%not_elem_of_nil|].
  intros [->|Hx]%elem_of_cons; [|eapply IH; [|done]; apply (engine_step_grows e c), Hi].
  destruct c as [|b m j t g]; [done|]. intros ->. simpl. unfold engine_authorize.
  unfold bs_contains. by rewrite bool_decide_true.
Qed.

(** ** A frozen request *)

Module DemoAuthority.
Import (hints) Demo.
#[export] Instance graph_ser : Serialize graph := {|
  to_vec _ := Some (as_bytes "graph"); jcs_to_vec _ := Some (as_bytes "graph") |}.
#[export] Instance bindings_ser : Serialize (list CapabilityBindingV1) := {|
  to_vec l := Some (mjoin (as_bytes <$> (cap_key <$> l)));
  jcs_to_vec l := Some (mjoin (as_bytes <$> (cap_key <$> l))) |}.

Definition sha256_text : string := "sha256:" +:+ Demo.hash64.
Definition binding (i : StableId) : CapabilityBindingV1 :=
  MkCapabilityV1 i id:"adapter" "1.0" sha256_text None None true true ArPerInvocation ["demo"].
Definition workspace : WorkspaceBindingV1 := MkWorkspaceV1 "/w" (MkWorkspaceIdentityV1 "/w" "linux" "object:1").
Definition brokered_node : WorkerNodeV1 :=
  MkNode id:"start" "demo" 1 Demo.hash64 [MkPort "in" None true] [MkPort "out" None true] ExBrokered JNull
    (Some id:"cap.a") None.
Definition request : SnapshotRequestV1 :=
  MkRequestV1 id:"snapshot" id:"chat" id:"run" (sha256_hex (as_bytes "graph"))
    [brokered_node; Demo.node id:"done" ExTerminal] [Demo.edge id:"t" id:"start" id:"done" 0 None]
    [id:"start"] [] [] [] workspace [binding id:"cap.b"; binding id:"cap.a"] Demo.budget LocalSqlite.
Definition frozen : result SnapshotErrorV1 (WorkerFrozenRunSnapshotV1 * AuthorityManifestV1) :=
  freeze_v1 id (λ _, Ok workspace) request.
End DemoAuthority.

Section authority_witnesses.
Import (hints) Demo DemoAuthority.
Import DemoAuthority.

Lemma frozen_snapshot_accepted_witness : ∃ s m,
  frozen = Ok (s, m)
  ∧ compile s (ws_snapshot_hash s) = (_ ← validate_snapshot_bounds s; build_plan (canonicalize_snapshot s))
  ∧ is_ok (compile s (ws_snapshot_hash s)) = true.
Proof.
  assert (is_ok frozen = true) as Hok by (vm_compute; reflexivity).
  destruct frozen as [[s m]|e] eqn:E; [|discriminate Hok]. exists s, m.
  destruct (frozen_snapshot_accepted id (λ _, Ok workspace) request s m E) as [Hc _].
  split; [reflexivity|]. split; [exact Hc|].
  assert (match frozen with Ok (s, _) => is_ok (compile s (ws_snapshot_hash s)) | Err _ => false end = true) as Hk
    by (vm_compute; reflexivity).
  rewrite E in Hk. exact Hk.
Defined.
End authority_witnesses.
