(* ===== verification/Broker.v ===== *)
(** * The invocation broker ([crates/aworkit-trusted-core/src/broker.rs])

    The core's durable ordering of proposal, approval, dispatch and
    settlement.  The ledger is a port with two implementations; it is a class
    here, and [MemoryInvocationLedger] of the same file is an instance.  The
    lease issuer and the host are ports implemented elsewhere.  A host may
    call the broker back while it handles a dispatch (the subagent tool runs
    its child loop inside the parent's dispatch), so it acts on the whole
    [world]. *)
From S2P Require Export Authority Calls.

(** ** Data *)

Record WorkerProposal : Type := MkWorkerProposal {
  wp_proposal_id : StableId;
  wp_capability_id : StableId;
  wp_payload_hash : string
}.
Inductive InvocationDecision : Type :=
| IdDenied
| IdAwaitingApproval
| IdApproved (invocation_id : StableId).

(** [WorkerInvocationProposalV1] of the broker. *)
Record BrokerProposalV1 : Type := MkBrokerProposal {
  bp_proposal_id : StableId;
  bp_run_id : StableId;
  bp_node_id : StableId;
  bp_attempt : N;
  bp_capability_id : StableId;
  bp_payload_hash : string
}.
#[export] Instance BrokerProposalV1_eq_dec : EqDecision BrokerProposalV1.
Proof. solve_decision. Defined.

Record ApprovalChallengeV1 : Type := MkChallenge {
  ch_invocation_id : StableId;
  ch_nonce : StableId;
  ch_expires_epoch_millis : N;
  ch_capability_id : StableId
}.
Record ApprovalResponseV1 : Type := MkResponse {
  ar_invocation_id : StableId;
  ar_nonce : StableId;
  ar_approved : bool;
  ar_now_epoch_millis : N
}.
Record ApprovedDispatchV1 : Type := MkDispatch {
  ad_invocation_id : StableId;
  ad_proposal_id : StableId;
  ad_capability_id : StableId;
  ad_payload_hash : string;
  ad_manifest_id : StableId;
  ad_lease_ids : list StableId
}.
#[export] Instance ApprovedDispatchV1_eq_dec : EqDecision ApprovedDispatchV1.
Proof. solve_decision. Defined.

Inductive BrokerDecisionV1 : Type :=
| BdDenied
| BdAwaitingApproval (c : ApprovalChallengeV1)
| BdDispatchReady (d : ApprovedDispatchV1)
| BdAlreadySettled (outcome_hash : string).

Inductive InvocationLedgerEventV1 : Type :=
| LeProposed (invocation_id : StableId) (proposal : BrokerProposalV1) (manifest_id : StableId)
| LeApprovalRequested (c : ApprovalChallengeV1)
| LeApprovalRejected (invocation_id : StableId) (reason : string)
| LeAuthorized (d : ApprovedDispatchV1)
| LeDispatchAttempted (invocation_id : StableId)
| LeDispatchAccepted (invocation_id : StableId)
| LeProgressCommitted (invocation_id : StableId) (sequence : N) (payload_hash : string)
| LeSettled (invocation_id : StableId) (outcome_hash : string) (uncertain : bool).

Record DispatchOutboxV1 : Type := MkDispatchOutbox {
  do_outbox_id : StableId;
  do_dispatch : ApprovedDispatchV1
}.
#[export] Instance DispatchOutboxV1_eq_dec : EqDecision DispatchOutboxV1.
Proof. solve_decision. Defined.
Record WorkerResultOutboxV1 : Type := MkResultOutbox {
  ro_outbox_id : StableId;
  ro_invocation_id : StableId;
  ro_outcome_hash : string;
  ro_uncertain : bool
}.
#[export] Instance WorkerResultOutboxV1_eq_dec : EqDecision WorkerResultOutboxV1.
Proof. solve_decision. Defined.

Inductive DeliveryAcceptanceV1 : Type :=
| DaAccepted | DaAlreadyAccepted | DaRejectedDefinitelyNotStarted | DaAmbiguous.

Inductive BrokerError : Type :=
| BeUnavailable | BeCommitFailed | BeIdentityConflict | BeUnknownInvocation | BeInvalidApproval
| BeStaleManifest | BeNotAuthorized | BeAlreadySettled | BeNotAccepted | BeNotAttempted
| BeProgressSequence | BeIncompleteState | BeDispatchRejected | BeAmbiguousDispatch
| BeWorkerDeliveryRejected | BeAmbiguousWorkerDelivery | BeDuplicateLease | BeLeaseRollbackFailed.

(** ** Identifiers *)

Section ids.
Context `{Sha256}.

(** [StableId::parse(..).expect(..)]: the digest of a fixed prefix always
    parses ([stable_digest_id_str]), so the default is never used. *)
Definition stable_digest_id (prefix input : string) : StableId :=
  default id:"unreachable"
    (parse_opt (prefix +:+ "." +:+ str_take 32 (sha256_hex (as_bytes input)))).

Definition invocation_id_of (proposal_id : StableId) : StableId :=
  stable_digest_id "invoke" (as_str proposal_id).

Definition approval_nonce (proposal_id manifest_id : StableId) : StableId :=
  stable_digest_id "approval" (as_str proposal_id +:+ ":" +:+ as_str manifest_id).

Definition outcome_hash_of (reason : string) : string := "sha256:" +:+ sha256_hex (as_bytes reason).

Definition HOST_DISPATCH_DEFINITELY_NOT_STARTED_REASON : string := "host_dispatch_definitely_not_started".
Definition is_definitely_not_started_settlement_v1 (settlement_hash : string) (uncertain : bool) : bool :=
  negb uncertain
  && bool_decide (settlement_hash = outcome_hash_of HOST_DISPATCH_DEFINITELY_NOT_STARTED_REASON).
End ids.

(** ** Reading a history *)

(** [iter.find_map(f)] *)
Definition find_map {A B} (f : A → option B) (l : list A) : option B := head (omap f l).

Definition event_invocation_id (e : InvocationLedgerEventV1) : StableId :=
  match e with
  | LeProposed i _ _ | LeApprovalRejected i _ | LeDispatchAttempted i | LeDispatchAccepted i
  | LeProgressCommitted i _ _ | LeSettled i _ _ => i
  | LeApprovalRequested c => ch_invocation_id c
  | LeAuthorized d => ad_invocation_id d
  end.

(** The patterns the broker matches events against. *)
Definition as_proposed e := match e with LeProposed _ p m => Some (p, m) | _ => None end.
Definition as_requested e := match e with LeApprovalRequested c => Some c | _ => None end.
Definition as_authorized e := match e with LeAuthorized d => Some d | _ => None end.
Definition as_progress e := match e with LeProgressCommitted _ n h => Some (n, h) | _ => None end.
Definition as_settled e := match e with LeSettled _ h u => Some (h, u) | _ => None end.
Definition is_rejected e := match e with LeApprovalRejected _ _ => true | _ => false end.
Definition is_attempted e := match e with LeDispatchAttempted _ => true | _ => false end.
Definition is_accepted e := match e with LeDispatchAccepted _ => true | _ => false end.
Definition is_settled e := is_some (as_settled e).

Abbreviation history := (list InvocationLedgerEventV1).

Definition proposed_identity (events : history) : result BrokerError (BrokerProposalV1 * StableId) :=
  ok_or (find_map as_proposed events) BeUnknownInvocation.

Definition verify_proposal_identity (events : history) (proposal : BrokerProposalV1)
    (manifest_id : StableId) : result BrokerError () :=
  stored ← proposed_identity events;
  fail_if (negb (bool_decide (stored.1 = proposal) && bool_decide (stored.2 = manifest_id)))
    BeIdentityConflict.

Definition replay_decision (events : history) : result BrokerError BrokerDecisionV1 :=
  match find_map as_settled events with
  | Some (outcome_hash, _) => Ok (BdAlreadySettled outcome_hash)
  | None =>
      match find_map as_authorized events with
      | Some dispatch => Ok (BdDispatchReady dispatch)
      | None =>
          if existsb is_rejected events then Ok BdDenied else
          match find_map as_requested events with
          | Some challenge => Ok (BdAwaitingApproval challenge)
          | None => Err BeIncompleteState
          end
      end
  end.

Definition require_authorized (events : history) : result BrokerError () :=
  fail_if (negb (existsb (λ e, is_some (as_authorized e)) events)) BeNotAuthorized.

(** ** Ports *)

(** [InvocationLedgerPortV1] *)
Class InvocationLedger (L : Type) : Type := {
  il_append_atomic : history → option DispatchOutboxV1 → stm L BrokerError ();
  il_events : StableId → stm L BrokerError history;
  il_pending_dispatches : stm L BrokerError (list DispatchOutboxV1);
  il_mark_dispatch_delivered : StableId → stm L BrokerError ();
  il_append_settlement_atomic : InvocationLedgerEventV1 → WorkerResultOutboxV1 → stm L BrokerError ();
  il_pending_worker_results : stm L BrokerError (list WorkerResultOutboxV1);
  il_mark_worker_result_delivered : StableId → stm L BrokerError ()
}.

(** [InvocationLeasePortV1] *)
Record LeasePort (P : Type) : Type := MkLeasePort {
  lp_issue_for_dispatch : BrokerProposalV1 → AuthorityManifest → StableId → stm P BrokerError (list StableId);
  lp_revoke_uncommitted : list StableId → stm P BrokerError ()
}.
Arguments MkLeasePort {P}.
Arguments lp_issue_for_dispatch {P}.
Arguments lp_revoke_uncommitted {P}.

(** *** [MemoryInvocationLedger] *)

(** The state behind the mutex, with whether the mutex is poisoned. *)
Record MemoryLedger : Type := MkMemoryLedger {
  ml_events : history;
  ml_outbox : gmap string (DispatchOutboxV1 * bool);
  ml_worker_results : gmap string (WorkerResultOutboxV1 * bool);
  ml_fail_next : bool;
  ml_poisoned : bool
}.
Definition MemoryLedger_default : MemoryLedger := MkMemoryLedger [] ∅ ∅ false false.
Definition ml_set_events es l :=
  MkMemoryLedger es (ml_outbox l) (ml_worker_results l) (ml_fail_next l) (ml_poisoned l).
Definition ml_set_outbox m l :=
  MkMemoryLedger (ml_events l) m (ml_worker_results l) (ml_fail_next l) (ml_poisoned l).
Definition ml_set_results m l :=
  MkMemoryLedger (ml_events l) (ml_outbox l) m (ml_fail_next l) (ml_poisoned l).
Definition ml_set_fail b l :=
  MkMemoryLedger (ml_events l) (ml_outbox l) (ml_worker_results l) b (ml_poisoned l).

Abbreviation mem := (stm MemoryLedger BrokerError).

Definition fail_next_write (l : MemoryLedger) : MemoryLedger :=
  if ml_poisoned l then l else ml_set_fail true l.

(** [self.state.lock().map_err(|_| Unavailable)?] *)
Definition lock : mem MemoryLedger :=
  l ← read; _ ← reject_if (ml_poisoned l) BeUnavailable; mret l.

(** [if state.fail_next { state.fail_next = false; return Err(CommitFailed) }] *)
Definition check_fail : mem () :=
  l ← read;
  if ml_fail_next l then _ ← modify (ml_set_fail false); throw BeCommitFailed else mret ().

Definition memory_append_atomic (events : history) (outbox : option DispatchOutboxV1) : mem () :=
  _ ← lock;
  _ ← check_fail;
  l ← read;
  _ ← match outbox with
      | Some o =>
          match ml_outbox l !! as_str (do_outbox_id o) with
          | Some (existing, _) => reject_if (negb (bool_decide (existing = o))) BeIdentityConflict
          | None => mret ()
          end
      | None => mret ()
      end;
  _ ← modify (ml_set_events (ml_events l ++ events));
  match outbox with
  | Some o =>
      modify (λ l, if bt_contains (ml_outbox l) (as_str (do_outbox_id o)) then l
                   else ml_set_outbox (<[as_str (do_outbox_id o) := (o, false)]> (ml_outbox l)) l)
  | None => mret ()
  end.

Definition memory_events (invocation_id : StableId) : mem history :=
  l ← lock; mret (filter (λ e, event_invocation_id e = invocation_id) (ml_events l)).

(** [values().filter(|(_, delivered)| !delivered).map(|(entry, _)| entry)] *)
Definition undelivered {A} (m : gmap string (A * bool)) : list A :=
  fst <$> filter (λ x, x.2 = false) (bt_values m).

Definition memory_pending_dispatches : mem (list DispatchOutboxV1) :=
  l ← lock; mret (undelivered (ml_outbox l)).

(** [*map.get_mut(id).ok_or(UnknownInvocation)? = (entry, true)] *)
Definition mark_entry {A} (m : gmap string (A * bool)) (id : StableId) :
    result BrokerError (gmap string (A * bool)) :=
  entry ← ok_or (m !! as_str id) BeUnknownInvocation;
  Ok (<[as_str id := (entry.1, true)]> m).

Definition memory_mark_dispatch_delivered (outbox_id : StableId) : mem () :=
  l ← lock; m ← lift (mark_entry (ml_outbox l) outbox_id); modify (ml_set_outbox m).

Definition memory_append_settlement_atomic (event : InvocationLedgerEventV1)
    (outbox : WorkerResultOutboxV1) : mem () :=
  _ ← lock;
  _ ← check_fail;
  l ← read;
  match ml_worker_results l !! as_str (ro_outbox_id outbox) with
  | Some (existing, _) => reject_if (negb (bool_decide (existing = outbox))) BeIdentityConflict
  | None =>
      _ ← modify (ml_set_events (ml_events l ++ [event]));
      modify (ml_set_results (<[as_str (ro_outbox_id outbox) := (outbox, false)]> (ml_worker_results l)))
  end.

Definition memory_pending_worker_results : mem (list WorkerResultOutboxV1) :=
  l ← lock; mret (undelivered (ml_worker_results l)).

Definition memory_mark_worker_result_delivered (outbox_id : StableId) : mem () :=
  l ← lock; m ← lift (mark_entry (ml_worker_results l) outbox_id); modify (ml_set_results m).

#[export] Instance memory_ledger : InvocationLedger MemoryLedger := {|
  il_append_atomic := memory_append_atomic;
  il_events := memory_events;
  il_pending_dispatches := memory_pending_dispatches;
  il_mark_dispatch_delivered := memory_mark_dispatch_delivered;
  il_append_settlement_atomic := memory_append_settlement_atomic;
  il_pending_worker_results := memory_pending_worker_results;
  il_mark_worker_result_delivered := memory_mark_worker_result_delivered
|}.

(** ** The brokers *)

(** The first enabled and compatible binding of a capability. *)
Definition usable_binding (manifest : AuthorityManifest) (capability_id : StableId) : option CapabilityBinding :=
  snd <$> list_find (λ b, cb_capability_id b = capability_id ∧ cb_enabled b = true ∧ cb_compatible b = true)
            (am_capability_bindings manifest).

(** [InvocationBroker::decide], the stateless compatibility helper. *)
Definition compat_decide `{Sha256} (manifest : AuthorityManifest) (proposal : WorkerProposal)
    (approved : bool) : InvocationDecision :=
  match usable_binding manifest (wp_capability_id proposal) with
  | None => IdDenied
  | Some binding =>
      if bool_decide (cb_approval binding = ArPerInvocation) && negb approved then IdAwaitingApproval
      else IdApproved (invocation_id_of (wp_proposal_id proposal))
  end.

Record DurableInvocationBroker (P : Type) : Type := MkBroker {
  br_lease_port : option (LeasePort P);
  br_approval_ttl_millis : N
}.
Arguments MkBroker {P}.
Arguments br_lease_port {P}.
Arguments br_approval_ttl_millis {P}.
Definition broker_new {P} (approval_ttl_millis : N) : DurableInvocationBroker P :=
  MkBroker None (N.max approval_ttl_millis 1).
Definition with_lease_port {P} (port : LeasePort P) (b : DurableInvocationBroker P) : DurableInvocationBroker P :=
  MkBroker (Some port) (br_approval_ttl_millis b).

(** What the broker shares with its ports: the ledger, the lease issuer's
    state and the host's. *)
Record world (L P H : Type) : Type := MkWorld { bw_ledger : L; bw_leases : P; bw_host : H }.
Arguments MkWorld {L P H}.
Arguments bw_ledger {L P H}.
Arguments bw_leases {L P H}.
Arguments bw_host {L P H}.
Definition ledger_of {L P H} : lens (world L P H) L :=
  MkLens bw_ledger (λ l w, MkWorld l (bw_leases w) (bw_host w)).
Definition leases_of {L P H} : lens (world L P H) P :=
  MkLens bw_leases (λ p w, MkWorld (bw_ledger w) p (bw_host w)).
Definition host_of {L P H} : lens (world L P H) H :=
  MkLens bw_host (λ h w, MkWorld (bw_ledger w) (bw_leases w) h).

Section broker.
Context {L P H : Type} `{InvocationLedger L} `{Sha256} (self : DurableInvocationBroker P).
Abbreviation bk := (stm (world L P H) BrokerError).

(** [self.ledger.method(..)?] *)
Definition on_ledger {A} (m : stm L BrokerError A) : bk A := call ledger_of id m.
Definition ledger_append (events : history) (outbox : option DispatchOutboxV1) : bk () :=
  on_ledger (il_append_atomic events outbox).
Definition ledger_events (invocation_id : StableId) : bk history := on_ledger (il_events invocation_id).

Definition authorize (manifest : AuthorityManifest) (proposal : BrokerProposalV1) : bk BrokerDecisionV1 :=
  binding ← lift (ok_or (snd <$> list_find (λ b, cb_capability_id b = bp_capability_id proposal)
                                   (am_capability_bindings manifest)) BeNotAuthorized);
  _ ← reject_if (negb (cb_enabled binding) || negb (cb_compatible binding)) BeNotAuthorized;
  let invocation_id := invocation_id_of (bp_proposal_id proposal) in
  issued ← match br_lease_port self with
           | Some port => call leases_of id (lp_issue_for_dispatch port proposal manifest invocation_id)
           | None => mret []
           end;
  let lease_ids := sort_by (id_cmp id) issued in
  if adjacent_equal lease_ids then
    _ ← match br_lease_port self with
        | Some port => _ ← attempt leases_of (lp_revoke_uncommitted port lease_ids); mret ()
        | None => mret ()
        end;
    throw BeDuplicateLease
  else
  let dispatch := MkDispatch invocation_id (bp_proposal_id proposal) (bp_capability_id proposal)
                    (bp_payload_hash proposal) (am_manifest_id manifest) lease_ids in
  let outbox := MkDispatchOutbox (stable_digest_id "dispatch" (as_str (ad_invocation_id dispatch))) dispatch in
  committed ← attempt ledger_of (il_append_atomic [LeAuthorized dispatch] (Some outbox));
  match committed with
  | Err error =>
      _ ← match br_lease_port self with
          | Some port => call leases_of (λ _, BeLeaseRollbackFailed) (lp_revoke_uncommitted port lease_ids)
          | None => mret ()
          end;
      throw error
  | Ok _ => mret (BdDispatchReady dispatch)
  end.

Definition decide_after_proposed (manifest : AuthorityManifest) (proposal : BrokerProposalV1)
    (now_epoch_millis : N) : bk BrokerDecisionV1 :=
  let invocation_id := invocation_id_of (bp_proposal_id proposal) in
  match usable_binding manifest (bp_capability_id proposal) with
  | None =>
      _ ← ledger_append [LeApprovalRejected invocation_id "authority_denied"] None;
      mret BdDenied
  | Some binding =>
      if bool_decide (cb_approval binding = ArPerInvocation) then
        expires ← lift (ok_or (checked_add u64_max now_epoch_millis (br_approval_ttl_millis self)) BeInvalidApproval);
        let challenge := MkChallenge invocation_id
          (approval_nonce (bp_proposal_id proposal) (am_manifest_id manifest)) expires
          (bp_capability_id proposal) in
        _ ← ledger_append [LeApprovalRequested challenge] None;
        mret (BdAwaitingApproval challenge)
      else authorize manifest proposal
  end.

Definition propose (manifest : AuthorityManifest) (proposal : BrokerProposalV1) (now_epoch_millis : N) :
    bk BrokerDecisionV1 :=
  let invocation_id := invocation_id_of (bp_proposal_id proposal) in
  existing ← ledger_events invocation_id;
  if is_nil existing then
    _ ← ledger_append [LeProposed invocation_id proposal (am_manifest_id manifest)] None;
    decide_after_proposed manifest proposal now_epoch_millis
  else
    _ ← lift (verify_proposal_identity existing proposal (am_manifest_id manifest));
    match replay_decision existing with
    | Ok decision => mret decision
    | Err BeIncompleteState => decide_after_proposed manifest proposal now_epoch_millis
    | Err error => throw error
    end.

(** The answer to an approval that was already decided. *)
Definition replayed_approval (existing : result BrokerError BrokerDecisionV1) (approved : bool) :
    result BrokerError (option BrokerDecisionV1) :=
  match existing with
  | Err _ => Ok None
  | Ok decision =>
      match decision, approved with
      | BdDispatchReady _, true | BdAlreadySettled _, true | BdDenied, false => Ok (Some decision)
      | BdAwaitingApproval _, _ => Ok None
      | _, _ => Err BeIdentityConflict
      end
  end.

Definition broker_resolve_approval (manifest : AuthorityManifest) (response : ApprovalResponseV1) :
    bk BrokerDecisionV1 :=
  events ← ledger_events (ar_invocation_id response);
  stored ← lift (proposed_identity events);
  _ ← reject_if (negb (bool_decide (stored.2 = am_manifest_id manifest))) BeStaleManifest;
  challenge ← lift (ok_or (find_map as_requested events) BeInvalidApproval);
  replayed ← lift (replayed_approval (replay_decision events) (ar_approved response));
  match replayed with
  | Some decision => mret decision
  | None =>
      _ ← reject_if (negb (bool_decide (ch_nonce challenge = ar_nonce response))) BeInvalidApproval;
      if ch_expires_epoch_millis challenge <=? ar_now_epoch_millis response then
        _ ← ledger_append [LeApprovalRejected (ar_invocation_id response) "approval_expired"] None;
        mret BdDenied
      else if negb (ar_approved response) then
        _ ← ledger_append [LeApprovalRejected (ar_invocation_id response) "user_rejected"] None;
        mret BdDenied
      else authorize manifest stored.1
  end.

Definition accept_dispatch (invocation_id : StableId) : bk () :=
  events ← ledger_events invocation_id;
  _ ← lift (require_authorized events);
  _ ← reject_if (negb (existsb is_attempted events)) BeNotAttempted;
  if existsb is_accepted events then mret ()
  else ledger_append [LeDispatchAccepted invocation_id] None.

(** [filter_map(sequence).max().unwrap_or(0)] *)
Definition last_sequence (events : history) : N := foldr N.max 0 (fst <$> omap as_progress events).

Definition commit_progress (invocation_id : StableId) (sequence : N) (payload_hash : string) : bk () :=
  events ← ledger_events invocation_id;
  _ ← lift (require_authorized events);
  _ ← reject_if (negb (existsb is_accepted events)) BeNotAccepted;
  _ ← reject_if (existsb is_settled events) BeAlreadySettled;
  match find_map (λ e, '(n, h) ← as_progress e; if n =? sequence then Some h else None) events with
  | Some existing_hash => reject_if (negb (bool_decide (existing_hash = payload_hash))) BeIdentityConflict
  | None =>
      next_sequence ← lift (ok_or (checked_add u64_max (last_sequence events) 1) BeProgressSequence);
      _ ← reject_if (negb (sequence =? next_sequence)) BeProgressSequence;
      ledger_append [LeProgressCommitted invocation_id sequence payload_hash] None
  end.

(** Writes a settlement together with the result for the worker. *)
Definition append_settlement (invocation_id : StableId) (outcome_hash : string) (uncertain : bool) : bk () :=
  on_ledger (il_append_settlement_atomic (LeSettled invocation_id outcome_hash uncertain)
    (MkResultOutbox (stable_digest_id "result" (as_str invocation_id)) invocation_id outcome_hash uncertain)).

Definition broker_settle (invocation_id : StableId) (outcome_hash : string) (uncertain : bool) : bk () :=
  events ← ledger_events invocation_id;
  _ ← lift (require_authorized events);
  _ ← reject_if (negb (existsb is_accepted events)) BeNotAccepted;
  match find_map as_settled events with
  | Some existing => reject_if (negb (bool_decide (existing = (outcome_hash, uncertain)))) BeIdentityConflict
  | None => append_settlement invocation_id outcome_hash uncertain
  end.

Definition settle_unaccepted_dispatch (invocation_id : StableId) (reason : string) (uncertain : bool) : bk () :=
  events ← ledger_events invocation_id;
  _ ← lift (require_authorized events);
  match find_map as_settled events with
  | Some existing =>
      reject_if (negb (bool_decide (existing = (outcome_hash_of reason, uncertain)))) BeIdentityConflict
  | None => append_settlement invocation_id (outcome_hash_of reason) uncertain
  end.

Definition broker_pending_dispatches : bk (list DispatchOutboxV1) := on_ledger il_pending_dispatches.
Definition broker_mark_dispatch_delivered (outbox_id : StableId) : bk () :=
  on_ledger (il_mark_dispatch_delivered outbox_id).

(** [ApprovedHostDispatchPortV1] and [CommittedWorkerResultPortV1]. *)
Abbreviation host_port := (ApprovedDispatchV1 → bk DeliveryAcceptanceV1).
Abbreviation worker_port := (WorkerResultOutboxV1 → bk DeliveryAcceptanceV1).

(** [host.dispatch(..)] as a value: the broker handles its error. *)
Definition try_dispatch (host : host_port) (dispatch : ApprovedDispatchV1) :
    bk (result BrokerError DeliveryAcceptanceV1) := λ w,
  let '(w, r) := host dispatch w in (w, Ok r).

(** The settlement of a dispatch that was attempted and not accepted. *)
Definition abandon_dispatch {A} (outbox : DispatchOutboxV1) (reason : string) (uncertain : bool)
    (error : BrokerError) : bk A :=
  _ ← settle_unaccepted_dispatch (ad_invocation_id (do_dispatch outbox)) reason uncertain;
  _ ← broker_mark_dispatch_delivered (do_outbox_id outbox);
  throw error.

Definition deliver_outbox (outbox : DispatchOutboxV1) (host : host_port) : bk bool :=
  let invocation_id := ad_invocation_id (do_dispatch outbox) in
  events ← ledger_events invocation_id;
  if existsb (λ e, is_settled e || is_accepted e) events then
    _ ← broker_mark_dispatch_delivered (do_outbox_id outbox); mret true
  else if existsb is_attempted events then
    abandon_dispatch outbox "host_dispatch_recovery_uncertain" true BeAmbiguousDispatch
  else
  _ ← ledger_append [LeDispatchAttempted invocation_id] None;
  acceptance ← try_dispatch host (do_dispatch outbox);
  match acceptance with
  | Err error => abandon_dispatch outbox "host_dispatch_transport_uncertain" true error
  | Ok (DaAccepted | DaAlreadyAccepted) =>
      _ ← accept_dispatch invocation_id;
      _ ← broker_mark_dispatch_delivered (do_outbox_id outbox);
      mret true
  | Ok DaRejectedDefinitelyNotStarted =>
      abandon_dispatch outbox HOST_DISPATCH_DEFINITELY_NOT_STARTED_REASON false BeDispatchRejected
  | Ok DaAmbiguous =>
      abandon_dispatch outbox "host_dispatch_acceptance_uncertain" true BeAmbiguousDispatch
  end.

Fixpoint deliver_each (host : host_port) (outboxes : list DispatchOutboxV1) (delivered : N) : bk N :=
  match outboxes with
  | [] => mret delivered
  | outbox :: outboxes =>
      d ← deliver_outbox outbox host;
      deliver_each host outboxes (if d : bool then delivered + 1 else delivered)
  end.
Definition deliver_dispatches (host : host_port) : bk N :=
  pending ← broker_pending_dispatches; deliver_each host pending 0.

Definition deliver_pending_dispatch_for (invocation_id : StableId) (host : host_port) : bk bool :=
  pending ← broker_pending_dispatches;
  match list_find (λ o, ad_invocation_id (do_dispatch o) = invocation_id) pending with
  | None => mret false
  | Some (_, outbox) => deliver_outbox outbox host
  end.

Fixpoint deliver_each_result (worker : worker_port) (outboxes : list WorkerResultOutboxV1) (delivered : N) :
    bk N :=
  match outboxes with
  | [] => mret delivered
  | outbox :: outboxes =>
      acceptance ← worker outbox;
      match acceptance with
      | DaAccepted | DaAlreadyAccepted =>
          _ ← on_ledger (il_mark_worker_result_delivered (ro_outbox_id outbox));
          deliver_each_result worker outboxes (delivered + 1)
      | DaRejectedDefinitelyNotStarted => throw BeWorkerDeliveryRejected
      | DaAmbiguous => throw BeAmbiguousWorkerDelivery
      end
  end.
Definition deliver_worker_results (worker : worker_port) : bk N :=
  pending ← on_ledger il_pending_worker_results; deliver_each_result worker pending 0.
End broker.
