(* ===== verification/BrokerSpec.v ===== *)
(** * What the broker's ledger promises, and the life of an invocation

    [LedgerLaws] states the port's contract on three views of a ledger: its
    events and its two outboxes; [MemoryInvocationLedger] meets it.  [legal]
    is the specification of an invocation's history: which event may follow
    which. *)
From S2P Require Export Broker.

(** ** The contract of the ledger port *)

(** A ledger as its clients see it. *)
Record view : Type := MkView {
  v_events : history;
  v_dispatches : gmap string (DispatchOutboxV1 * bool);
  v_results : gmap string (WorkerResultOutboxV1 * bool)
}.

Class LedgerLaws (L : Type) `{InvocationLedger L} : Type := {
  il_view : L → view;
  (** A write that fails leaves nothing behind; reads leave everything. *)
  il_append_err es o l l' e : il_append_atomic es o l = (l', Err e) → il_view l' = il_view l;
  il_append_ok es l l' : il_append_atomic es None l = (l', Ok ()) →
    il_view l' = MkView (v_events (il_view l) ++ es) (v_dispatches (il_view l)) (v_results (il_view l));
  (** Events and outbox entry are written together; an entry already there
      is the same one. *)
  il_append_outbox es o l l' : il_append_atomic es (Some o) l = (l', Ok ()) →
    (v_dispatches (il_view l) !! as_str (do_outbox_id o) = None
     ∧ il_view l' = MkView (v_events (il_view l) ++ es)
         (<[as_str (do_outbox_id o) := (o, false)]> (v_dispatches (il_view l))) (v_results (il_view l)))
    ∨ (∃ b, v_dispatches (il_view l) !! as_str (do_outbox_id o) = Some (o, b)
     ∧ il_view l' = MkView (v_events (il_view l) ++ es) (v_dispatches (il_view l)) (v_results (il_view l)));
  il_events_ok i l l' r : il_events i l = (l', r) → il_view l' = il_view l
    ∧ ∀ es, r = Ok es → es = filter (λ e, event_invocation_id e = i) (v_events (il_view l));
  il_pending_ok l l' r : il_pending_dispatches l = (l', r) → il_view l' = il_view l
    ∧ ∀ os, r = Ok os → ∀ o, o ∈ os ↔ ∃ k, v_dispatches (il_view l) !! k = Some (o, false);
  il_mark_err i l l' e : il_mark_dispatch_delivered i l = (l', Err e) → il_view l' = il_view l;
  il_mark_ok i l l' : il_mark_dispatch_delivered i l = (l', Ok ()) →
    ∃ o b, v_dispatches (il_view l) !! as_str i = Some (o, b)
    ∧ il_view l' = MkView (v_events (il_view l)) (<[as_str i := (o, true)]> (v_dispatches (il_view l)))
                     (v_results (il_view l));
  il_settle_err e o l l' err : il_append_settlement_atomic e o l = (l', Err err) → il_view l' = il_view l;
  il_settle_ok e o l l' : il_append_settlement_atomic e o l = (l', Ok ()) →
    (v_results (il_view l) !! as_str (ro_outbox_id o) = None
     ∧ il_view l' = MkView (v_events (il_view l) ++ [e]) (v_dispatches (il_view l))
         (<[as_str (ro_outbox_id o) := (o, false)]> (v_results (il_view l))))
    ∨ (∃ b, v_results (il_view l) !! as_str (ro_outbox_id o) = Some (o, b) ∧ il_view l' = il_view l);
  il_results_ok l l' r : il_pending_worker_results l = (l', r) → il_view l' = il_view l
    ∧ ∀ os, r = Ok os → ∀ o, o ∈ os ↔ ∃ k, v_results (il_view l) !! k = Some (o, false);
  il_mark_result_err i l l' e : il_mark_worker_result_delivered i l = (l', Err e) → il_view l' = il_view l;
  il_mark_result_ok i l l' : il_mark_worker_result_delivered i l = (l', Ok ()) →
    ∃ o b, v_results (il_view l) !! as_str i = Some (o, b)
    ∧ il_view l' = MkView (v_events (il_view l)) (v_dispatches (il_view l))
                     (<[as_str i := (o, true)]> (v_results (il_view l)))
}.

(** *** The memory ledger meets the contract *)

Lemma elem_of_undelivered {A} (m : gmap string (A * bool)) o :
  o ∈ undelivered m ↔ ∃ k, m !! k = Some (o, false).
Proof.
  unfold undelivered. rewrite list_elem_of_fmap. split.
  - intros ([o' b] & -> & [Hb [k Hk]%elem_of_bt_values]%list_elem_of_filter). simpl in *. subst. eauto.
  - intros [k Hk]. exists (o, false). split; [done|]. apply list_elem_of_filter.
    split; [done|]. apply elem_of_bt_values. eauto.
Qed.

Definition memory_view (l : MemoryLedger) : view := MkView (ml_events l) (ml_outbox l) (ml_worker_results l).

(** Every operation of the memory ledger starts by taking the lock, and the
    writes by checking for an injected failure. *)
Lemma lock_cases {A} (k : MemoryLedger → mem A) l l' r :
  (m ← lock; k m) l = (l', r) → (l' = l ∧ r = Err BeUnavailable) ∨ k l l = (l', r).
Proof.
  unfold lock, mbind, stm_bind, read, reject_if, mret, stm_ret. destruct (ml_poisoned l); [|by right].
  intros [= <- <-]. by left.
Qed.
Lemma check_fail_cases {A} (k : mem A) l l' r :
  (_ ← check_fail; k) l = (l', r) → (memory_view l' = memory_view l ∧ r = Err BeCommitFailed) ∨ k l = (l', r).
Proof.
  unfold check_fail, mbind, stm_bind, read, modify, throw. destruct (ml_fail_next l); [|by right].
  intros [= <- <-]. by left.
Qed.

Lemma memory_append_cases es o l l' r :
  memory_append_atomic es o l = (l', r) →
  (memory_view l' = memory_view l ∧ is_err r = true) ∨
  (r = Ok () ∧ match o with
   | None => memory_view l' = MkView (ml_events l ++ es) (ml_outbox l) (ml_worker_results l)
   | Some o =>
       (ml_outbox l !! as_str (do_outbox_id o) = None
        ∧ memory_view l' = MkView (ml_events l ++ es) (<[as_str (do_outbox_id o) := (o, false)]> (ml_outbox l))
            (ml_worker_results l))
       ∨ ∃ b, ml_outbox l !! as_str (do_outbox_id o) = Some (o, b)
         ∧ memory_view l' = MkView (ml_events l ++ es) (ml_outbox l) (ml_worker_results l)
   end).
Proof.
  unfold memory_append_atomic. intros [[-> ->]|Hs]%lock_cases; [by left|].
  apply check_fail_cases in Hs as [[? ->]|Hs]; [by left|]. revert Hs.
  unfold mbind, stm_bind, read, modify, mret, stm_ret, reject_if. destruct o as [o|]; [|intros [= <- <-]; by right].
  destruct (ml_outbox l !! _) as [[x b]|] eqn:Hk.
  - case_bool_decide; simpl; [|intros [= <- <-]; by left]. unfold bt_contains. simpl. rewrite Hk.
    intros [= <- <-]. subst. right. split; [done|]. right. eauto.
  - unfold bt_contains. simpl. rewrite Hk. intros [= <- <-]. right. split; [done|]. by left.
Qed.

Lemma memory_settle_cases e o l l' r :
  memory_append_settlement_atomic e o l = (l', r) →
  (memory_view l' = memory_view l ∧ is_err r = true) ∨
  (r = Ok () ∧
   ((ml_worker_results l !! as_str (ro_outbox_id o) = None
     ∧ memory_view l' = MkView (ml_events l ++ [e]) (ml_outbox l)
         (<[as_str (ro_outbox_id o) := (o, false)]> (ml_worker_results l)))
    ∨ ∃ b, ml_worker_results l !! as_str (ro_outbox_id o) = Some (o, b) ∧ memory_view l' = memory_view l)).
Proof.
  unfold memory_append_settlement_atomic. intros [[-> ->]|Hs]%lock_cases; [by left|].
  apply check_fail_cases in Hs as [[? ->]|Hs]; [by left|]. revert Hs.
  unfold mbind, stm_bind, read, modify, mret, stm_ret, reject_if.
  destruct (ml_worker_results l !! _) as [[x b]|] eqn:Hk.
  - case_bool_decide; simpl; intros [= <- <-]; [|by left]. subst. right. eauto.
  - intros [= <- <-]. right. eauto.
Qed.

Lemma mark_entry_cases {A} (m m' : gmap string (A * bool)) i :
  mark_entry m i = Ok m' → ∃ o b, m !! as_str i = Some (o, b) ∧ m' = <[as_str i := (o, true)]> m.
Proof. unfold mark_entry. intros Hm. res_inv Hm. destruct x as [o b]. eauto. Qed.

#[export, refine] Instance memory_ledger_laws : LedgerLaws MemoryLedger := {| il_view := memory_view |}.
Proof.
  all: cbn [il_append_atomic il_events il_pending_dispatches il_mark_dispatch_delivered il_append_settlement_atomic
            il_pending_worker_results il_mark_worker_result_delivered memory_ledger].
  - intros es o l l' e [[? _]|[? _]]%memory_append_cases; done.
  - intros es l l' [[_ ?]|[_ ?]]%memory_append_cases; done.
  - intros es o l l' [[_ ?]|[_ ?]]%memory_append_cases; done.
  - unfold memory_events. intros i l l' r [[-> ->]|[= <- <-]]%lock_cases; [done|]. split; [done|]. by intros es [= <-].
  - unfold memory_pending_dispatches. intros l l' r [[-> ->]|[= <- <-]]%lock_cases; [done|].
    split; [done|]. intros os [= <-] o. apply elem_of_undelivered.
  - unfold memory_mark_dispatch_delivered. intros i l l' e [[-> _]|Hs]%lock_cases; [done|].
    unfold mbind, stm_bind, lift, modify in Hs. destruct (mark_entry _ _); by simplify_eq.
  - unfold memory_mark_dispatch_delivered. intros i l l' [[_ ?]|Hs]%lock_cases; [done|].
    unfold mbind, stm_bind, lift, modify in Hs. destruct (mark_entry _ _) as [m|] eqn:Hm; [|done].
    apply mark_entry_cases in Hm as (o & b & ? & ->). simplify_eq. eauto.
  - intros e o l l' err [[? _]|[? _]]%memory_settle_cases; done.
  - intros e o l l' [[_ ?]|[_ ?]]%memory_settle_cases; done.
  - unfold memory_pending_worker_results. intros l l' r [[-> ->]|[= <- <-]]%lock_cases; [done|].
    split; [done|]. intros os [= <-] o. apply elem_of_undelivered.
  - unfold memory_mark_worker_result_delivered. intros i l l' e [[-> _]|Hs]%lock_cases; [done|].
    unfold mbind, stm_bind, lift, modify in Hs. destruct (mark_entry _ _); by simplify_eq.
  - unfold memory_mark_worker_result_delivered. intros i l l' [[_ ?]|Hs]%lock_cases; [done|].
    unfold mbind, stm_bind, lift, modify in Hs. destruct (mark_entry _ _) as [m|] eqn:Hm; [|done].
    apply mark_entry_cases in Hm as (o & b & ? & ->). simplify_eq. eauto.
Defined.

(** ** The life of an invocation *)

Definition events_of (i : StableId) (es : history) : history :=
  filter (λ e, event_invocation_id e = i) es.

(** What the broker reads off a history. *)
Record status : Type := MkStatus {
  st_proposed : option (BrokerProposalV1 * StableId);
  st_requested : option ApprovalChallengeV1;
  st_rejected : bool;
  st_authorized : option ApprovedDispatchV1;
  st_attempted : bool;
  st_accepted : bool;
  st_progress : N;
  st_settled : option (string * bool)
}.
Definition status_of (es : history) : status :=
  MkStatus (find_map as_proposed es) (find_map as_requested es) (existsb is_rejected es)
    (find_map as_authorized es) (existsb is_attempted es) (existsb is_accepted es)
    (last_sequence es) (find_map as_settled es).

(** The dispatch made of a proposal. *)
Definition dispatch_matches (i : StableId) (p : BrokerProposalV1) (m : StableId) (d : ApprovedDispatchV1) : Prop :=
  ad_invocation_id d = i ∧ ad_proposal_id d = bp_proposal_id p ∧ ad_capability_id d = bp_capability_id p
  ∧ ad_payload_hash d = bp_payload_hash p ∧ ad_manifest_id d = m.

(** Which event may follow in the history of invocation [i]: a proposal comes
    first and once; it is challenged at most once; it is rejected or
    authorized, never both; a dispatch is attempted once, accepted once after
    the attempt; progress is numbered from one without gaps between
    acceptance and settlement; and it is settled once, after the attempt. *)
Definition may_follow `{Sha256} (i : StableId) (s : status) (e : InvocationLedgerEventV1) : Prop :=
  event_invocation_id e = i ∧
  match e with
  | LeProposed _ p m => s = status_of [] ∧ i = invocation_id_of (bp_proposal_id p)
  | LeApprovalRequested c =>
      is_Some (st_proposed s) ∧ st_requested s = None ∧ st_rejected s = false ∧ st_authorized s = None
  | LeApprovalRejected _ _ => is_Some (st_proposed s) ∧ st_rejected s = false ∧ st_authorized s = None
  | LeAuthorized d => st_rejected s = false ∧ st_authorized s = None
      ∧ ∃ p m, st_proposed s = Some (p, m) ∧ dispatch_matches i p m d
  | LeDispatchAttempted _ => is_Some (st_authorized s) ∧ st_attempted s = false
  | LeDispatchAccepted _ => st_attempted s = true ∧ st_accepted s = false
  | LeProgressCommitted _ n _ => st_accepted s = true ∧ st_settled s = None ∧ n = st_progress s + 1
  | LeSettled _ _ _ => st_attempted s = true ∧ st_settled s = None
  end.

Inductive legal `{Sha256} (i : StableId) : history → Prop :=
| legal_nil : legal i []
| legal_snoc es e : legal i es → may_follow i (status_of es) e → legal i (es ++ [e]).

(** *** Reading longer histories *)

Lemma find_map_snoc {A B} (f : A → option B) l x :
  find_map f (l ++ [x]) = match find_map f l with Some y => Some y | None => f x end.
Proof. unfold find_map. rewrite omap_app. destruct (omap f l); [|done]. simpl. by destruct (f x). Qed.
Lemma find_map_Some {A B} (f : A → option B) l y : find_map f l = Some y → ∃ x, x ∈ l ∧ f x = Some y.
Proof. unfold find_map. intros Hh. apply list_elem_of_omap, head_Some_elem_of, Hh. Qed.
Lemma find_map_None {A B} (f : A → option B) l : find_map f l = None ↔ ∀ x, x ∈ l → f x = None.
Proof.
  unfold find_map. rewrite head_None. split.
  - intros Hn x Hx. destruct (f x) as [y|] eqn:Hf; [|done].
    assert (y ∈ omap f l) as Hy by (apply list_elem_of_omap; eauto). rewrite Hn in Hy. by apply not_elem_of_nil in Hy.
  - intros Hall. induction l as [|x l IH]; [done|]. simpl. rewrite Hall by (by left). apply IH.
    intros y Hy. apply Hall. by right.
Qed.
Lemma or_none {A} (o : option A) : match o with Some y => Some y | None => None end = o.
Proof. by destruct o. Qed.
Lemma existsb_snoc {A} (f : A → bool) l x : existsb f (l ++ [x]) = existsb f l || f x.
Proof. rewrite existsb_app. simpl. by rewrite orb_false_r. Qed.

Lemma events_of_snoc i es e :
  events_of i (es ++ [e]) = if decide (event_invocation_id e = i) then events_of i es ++ [e] else events_of i es.
Proof.
  unfold events_of. rewrite filter_app. case_decide; [by rewrite filter_cons_True|].
  rewrite filter_cons_False by done. by rewrite app_nil_r.
Qed.
Lemma elem_of_events_of i es e : e ∈ events_of i es ↔ e ∈ es ∧ event_invocation_id e = i.
Proof. unfold events_of. rewrite list_elem_of_filter. naive_solver. Qed.

Lemma last_sequence_snoc es e :
  last_sequence (es ++ [e]) = N.max (last_sequence es) (match as_progress e with Some (n, _) => n | None => 0 end).
Proof.
  unfold last_sequence. rewrite omap_app, fmap_app.
  assert (∀ l x, foldr N.max 0 (l ++ [x]) = N.max (foldr N.max 0 l) x) as Hsnoc.
  { intros l x. induction l as [|y l IH]; simpl; lia. }
  simpl. destruct (as_progress e) as [[n h]|]; simpl; [apply Hsnoc|]. rewrite app_nil_r. lia.
Qed.

(** *** Facts of a legal history *)

Section legal_facts.
Context `{Sha256}.
Implicit Types (i : StableId) (es : history).

Record legal_status (i : StableId) (es : history) (s : status) : Prop := {
  ls_nil : st_proposed s = None → es = [];
  ls_id : ∀ p m, st_proposed s = Some (p, m) → i = invocation_id_of (bp_proposal_id p);
  ls_requested : ∀ c, st_requested s = Some c → ch_invocation_id c = i;
  ls_rejected : st_rejected s = true → st_authorized s = None;
  ls_authorized : ∀ d, st_authorized s = Some d →
    ∃ p m, st_proposed s = Some (p, m) ∧ dispatch_matches i p m d;
  ls_attempted : st_attempted s = true → is_Some (st_authorized s);
  ls_accepted : st_accepted s = true → st_attempted s = true;
  ls_settled : is_Some (st_settled s) → st_attempted s = true;
  ls_auth_once : ∀ d, LeAuthorized d ∈ es → st_authorized s = Some d;
  ls_settled_once : ∀ j h u, LeSettled j h u ∈ es → st_settled s = Some (h, u)
}.

Lemma legal_ids i es : legal i es → ∀ e, e ∈ es → event_invocation_id e = i.
Proof.
  induction 1 as [|es e Hl IH [Hid _]]; [set_solver|]. intros e' [?|He]%elem_of_app; [auto|].
  by apply list_elem_of_singleton in He as ->.
Qed.

Lemma status_snoc es e :
  status_of (es ++ [e]) =
  let s := status_of es in
  MkStatus (match st_proposed s with Some y => Some y | None => as_proposed e end)
    (match st_requested s with Some y => Some y | None => as_requested e end)
    (st_rejected s || is_rejected e)
    (match st_authorized s with Some y => Some y | None => as_authorized e end)
    (st_attempted s || is_attempted e) (st_accepted s || is_accepted e)
    (N.max (st_progress s) (match as_progress e with Some (n, _) => n | None => 0 end))
    (match st_settled s with Some y => Some y | None => as_settled e end).
Proof. unfold status_of. by rewrite !find_map_snoc, !existsb_snoc, last_sequence_snoc. Qed.

Ltac ls_solve :=
  try assumption; try done;
  try (intros; simplify_eq/=; eauto; fail);
  try (match goal with Hin : ∀ x, x ∈ _ ++ _ ↔ _ |- ∀ _, _ => intros * [?|?]%Hin; simplify_eq/=; eauto;
    match goal with Hx : _ ∈ _, HH : _ |- _ => apply HH in Hx; congruence end end).

Lemma legal_status_of i es : legal i es → legal_status i es (status_of es).
Proof.
  induction 1 as [|es e Hl IH [Hid Hf]].
  { split; simpl; try done; [by intros [? ?]|by intros ? ?%not_elem_of_nil|by intros ??? ?%not_elem_of_nil]. }
  rewrite status_snoc. assert (∀ x, x ∈ es ++ [e] ↔ x ∈ es ∨ x = e) as Hin
    by (intros x; by rewrite elem_of_app, list_elem_of_singleton).
  destruct IH as [Hnil Hi Hreq Hrej Hauth Hatt Hacc Hset Ha1 Hs1]. clear Hl.
  set (s := status_of es) in *. clearbody s. destruct s as [pr rq rj au at_ ac pg se]. simpl in *.
  assert (is_Some au → pr ≠ None) as Hpr by (intros [d (? & ? & -> & _)%Hauth]; done).
  destruct e as [j p m|c|j rs|d|j|j|j n h|j h u]; simpl in *; rewrite ?orb_false_r, ?or_none.
  - destruct Hf as [[= -> -> -> -> -> -> -> ->] ->]. assert (es = []) as -> by auto. split; simpl; ls_solve.
  - destruct Hf as ([[p m] ->] & -> & -> & ->). split; simpl; ls_solve.
  - destruct Hf as ([[p m] ->] & -> & ->). split; simpl; ls_solve.
  - destruct Hf as (-> & -> & p & m & -> & Hd). split; simpl; ls_solve.
  - destruct Hf as ([d ->] & ->). split; simpl; ls_solve. by intros []%Hpr.
  - destruct Hf as (-> & ->). split; simpl; ls_solve. by intros []%Hpr; auto.
  - destruct Hf as (-> & -> & ->). split; simpl; ls_solve. by intros []%Hpr; auto.
  - destruct Hf as (-> & ->). split; simpl; ls_solve. by intros []%Hpr; auto.
Qed.
End legal_facts.

(** The [expect] of [stable_digest_id] does not fail. *)
Lemma stable_digest_id_str `{Sha256Laws} p x :
  p ∈ ["invoke"; "approval"; "dispatch"; "result"] →
  as_str (stable_digest_id p x) = p +:+ "." +:+ str_take 32 (sha256_hex (as_bytes x)).
Proof.
  intros Hp. assert (∃ i, StableId_parse ((p +:+ ".") +:+ str_take 32 (sha256_hex (as_bytes x))) = Ok i) as [i Hi].
  { repeat (apply elem_of_cons in Hp as [->|Hp]; [by apply digest_id_total|]). by apply not_elem_of_nil in Hp. }
  apply StableId_parse_ok, parse_opt_Some in Hi. unfold stable_digest_id.
  assert (p +:+ "." +:+ str_take 32 (sha256_hex (as_bytes x)) = (p +:+ ".") +:+ str_take 32 (sha256_hex (as_bytes x)))
    as -> by (clear; induction p as [|c p IH]; [done|]; exact (f_equal (String c) IH)).
  rewrite Hi. simpl. by apply parse_opt_Some in Hi.
Qed.

(** ** The books: the invariant of ledger and host *)

Section books.
Context `{Sha256}.
(** The manifests the core presents and the answers its user gives. *)
Variables (may : AuthorityManifest → Prop) (consents : ApprovalResponseV1 → Prop).

(** A binding that permits [capability_id], as [authorize] finds it. *)
Definition permits (m : AuthorityManifest) (capability_id : StableId) (b : CapabilityBinding) : Prop :=
  snd <$> list_find (λ b, cb_capability_id b = capability_id) (am_capability_bindings m) = Some b
  ∧ cb_enabled b = true ∧ cb_compatible b = true.

(** Why a dispatch was authorized: its proposal was recorded under a manifest
    that permits the capability, and the binding asks for no approval or the
    user approved the recorded challenge in time. *)
Definition justified (es : history) (d : ApprovedDispatchV1) : Prop :=
  ∃ p m b, LeProposed (ad_invocation_id d) p (am_manifest_id m) ∈ es ∧ may m
    ∧ dispatch_matches (ad_invocation_id d) p (am_manifest_id m) d ∧ permits m (bp_capability_id p) b
    ∧ (cb_approval b = ArNever ∨ ∃ r c, consents r ∧ ar_approved r = true ∧ ar_invocation_id r = ad_invocation_id d
         ∧ LeApprovalRequested c ∈ es ∧ ch_invocation_id c = ad_invocation_id d ∧ ch_nonce c = ar_nonce r
         ∧ ar_now_epoch_millis r < ch_expires_epoch_millis c).

Definition dispatch_entry (d : ApprovedDispatchV1) : DispatchOutboxV1 :=
  MkDispatchOutbox (stable_digest_id "dispatch" (as_str (ad_invocation_id d))) d.
Definition result_entry (i : StableId) (h : string) (u : bool) : WorkerResultOutboxV1 :=
  MkResultOutbox (stable_digest_id "result" (as_str i)) i h u.

Record books_ok (v : view) (log : list ApprovedDispatchV1) : Prop := {
  bo_legal : ∀ i, legal i (events_of i (v_events v));
  bo_justified : ∀ d, LeAuthorized d ∈ v_events v → justified (v_events v) d;
  (** The dispatch outbox holds exactly the authorized dispatches ... *)
  bo_dispatches : ∀ k o b, v_dispatches v !! k = Some (o, b) →
    k = as_str (do_outbox_id o) ∧ o = dispatch_entry (do_dispatch o) ∧ LeAuthorized (do_dispatch o) ∈ v_events v;
  bo_authorized : ∀ d, LeAuthorized d ∈ v_events v →
    ∃ b, v_dispatches v !! as_str (do_outbox_id (dispatch_entry d)) = Some (dispatch_entry d, b);
  (** ... the result outbox exactly the settlements ... *)
  bo_results : ∀ k o b, v_results v !! k = Some (o, b) →
    k = as_str (ro_outbox_id o) ∧ o = result_entry (ro_invocation_id o) (ro_outcome_hash o) (ro_uncertain o)
    ∧ LeSettled (ro_invocation_id o) (ro_outcome_hash o) (ro_uncertain o) ∈ v_events v;
  bo_settled : ∀ i h u, LeSettled i h u ∈ v_events v →
    ∃ b, v_results v !! as_str (ro_outbox_id (result_entry i h u)) = Some (result_entry i h u, b);
  (** ... and what the host was sent was authorized and marked attempted, once. *)
  bo_once : NoDup (ad_invocation_id <$> log);
  bo_sent : ∀ d, d ∈ log → LeAuthorized d ∈ v_events v ∧ LeDispatchAttempted (ad_invocation_id d) ∈ v_events v
}.

(** A ledger only grows, and a delivered entry stays delivered. *)
Definition grows {A} (m m' : gmap string (A * bool)) : Prop :=
  ∀ k o b, m !! k = Some (o, b) → ∃ b', m' !! k = Some (o, b') ∧ (b = true → b' = true).
Record extends (v v' : view) : Prop := {
  ex_events : v_events v `prefix_of` v_events v';
  ex_dispatches : grows (v_dispatches v) (v_dispatches v');
  ex_results : grows (v_results v) (v_results v')
}.

#[export] Instance grows_refl {A} : Reflexive (@grows A).
Proof. intros m k o b Hk. eauto. Qed.
#[export] Instance grows_trans {A} : Transitive (@grows A).
Proof. intros m1 m2 m3 H1 H2 k o b (b1 & Hk1 & Hb1)%H1. destruct (H2 k o b1 Hk1) as (b2 & Hk2 & Hb2). eauto. Qed.
#[export] Instance extends_refl : Reflexive extends.
Proof. by split. Qed.
#[export] Instance extends_trans : Transitive extends.
Proof. intros v1 v2 v3 [] []. split; by etrans. Qed.

Lemma grows_insert_new {A} (m : gmap string (A * bool)) k o b : m !! k = None → grows m (<[k := (o, b)]> m).
Proof. intros Hk k' o' b' Hk'. exists b'. split; [|done]. rewrite lookup_insert_ne by congruence. done. Qed.
Lemma grows_mark {A} (m : gmap string (A * bool)) k o b : m !! k = Some (o, b) → grows m (<[k := (o, true)]> m).
Proof.
  intros Hk k' o' b' Hk'. destruct (decide (k = k')) as [<-|Hne].
  - simplify_eq. exists true. by rewrite lookup_insert_eq.
  - exists b'. by rewrite lookup_insert_ne.
Qed.
Lemma extends_elem v v' e : extends v v' → e ∈ v_events v → e ∈ v_events v'.
Proof. intros [[k ->] _ _] He. apply elem_of_app. by left. Qed.
End books.
