(* ===== verification/BrokerInv.v ===== *)
(** * The broker keeps the books

    Every write of the broker preserves [books_ok]; a small program logic
    over [stm] carries that through the methods, nested calls included. *)
From S2P Require Export BrokerSpec.

Section books_steps.
Context `{Sha256} (may : AuthorityManifest → Prop) (consents : ApprovalResponseV1 → Prop).
Abbreviation books_ok := (books_ok may consents).
Abbreviation justified := (justified may consents).
Implicit Types (v : view) (log : list ApprovedDispatchV1).

Lemma justified_mono es es' d : (∀ e, e ∈ es → e ∈ es') → justified es d → justified es' d.
Proof.
  intros Hsub (p & m & b & Hp & Hm & Hd & Hb & Hor). exists p, m, b. split_and!; [by apply Hsub|done..|].
  destruct Hor as [?|(r & c & Hr & Ha & Hi & Hc & ? & ? & ?)]; [by left|]. right. exists r, c.
  split_and!; try done. by apply Hsub.
Qed.

Lemma legal_append es e :
  (∀ i, legal i (events_of i es)) →
  may_follow (event_invocation_id e) (status_of (events_of (event_invocation_id e) es)) e →
  ∀ i, legal i (events_of i (es ++ [e])).
Proof. intros Hl Hf i. rewrite events_of_snoc. case_decide as Hi; [|done]. subst. by constructor. Qed.

Lemma elem_of_snoc {A} (x y : A) l : x ∈ l ++ [y] ↔ x ∈ l ∨ x = y.
Proof. by rewrite elem_of_app, list_elem_of_singleton. Qed.

(** An event that is neither an authorization nor a settlement. *)
Lemma books_append v log e :
  books_ok v log → as_authorized e = None → as_settled e = None →
  may_follow (event_invocation_id e) (status_of (events_of (event_invocation_id e) (v_events v))) e →
  books_ok (MkView (v_events v ++ [e]) (v_dispatches v) (v_results v)) log.
Proof.
  intros [Hl Hj Hd Ha Hr Hs Ho Hlog] He1 He2 Hf.
  assert (∀ x, x ∈ v_events v → x ∈ v_events v ++ [e]) as Hsub by (intros; apply elem_of_snoc; by left).
  split; simpl.
  - by apply legal_append.
  - intros d [Hin|<-]%elem_of_snoc; [|done]. eapply justified_mono; [exact Hsub|auto].
  - intros k o b (? & ? & ?)%Hd. split_and!; auto.
  - intros d [Hin|<-]%elem_of_snoc; [by apply Ha|done].
  - intros k o b (? & ? & ?)%Hr. split_and!; auto.
  - intros i h u [Hin|<-]%elem_of_snoc; [by apply Hs|done].
  - done.
  - intros d (? & ?)%Hlog. split; auto.
Qed.

(** An authorization, with its outbox entry. *)
Lemma books_authorize v v' log d :
  books_ok v log → justified (v_events v) d →
  may_follow (ad_invocation_id d) (status_of (events_of (ad_invocation_id d) (v_events v))) (LeAuthorized d) →
  v_events v' = v_events v ++ [LeAuthorized d] → v_results v' = v_results v →
  v_dispatches v' = <[as_str (do_outbox_id (dispatch_entry d)) := (dispatch_entry d, false)]> (v_dispatches v) →
  v_dispatches v !! as_str (do_outbox_id (dispatch_entry d)) = None →
  books_ok v' log ∧ extends v v'.
Proof.
  intros [Hl Hj Hd Ha Hr Hs Ho Hlog] Hjd Hf Hev Hres Hdis Hnone.
  assert (∀ x, x ∈ v_events v → x ∈ v_events v') as Hsub by (intros; rewrite Hev; apply elem_of_snoc; by left).
  split; [|split; rewrite ?Hev, ?Hres, ?Hdis; [by apply prefix_app_r|by apply grows_insert_new|done]].
  split.
  - rewrite Hev. by apply legal_append.
  - intros x Hx. eapply justified_mono; [exact Hsub|]. rewrite Hev in Hx. apply elem_of_snoc in Hx as [?|[= ->]]; auto.
  - intros k o b. rewrite Hdis. intros [[<- [= <- <-]]|[_ (? & ? & ?)%Hd]]%lookup_insert_Some; [|split_and!; auto].
    split_and!; [done..|]. rewrite Hev. apply elem_of_snoc. by right.
  - intros x Hx. rewrite Hev in Hx. rewrite Hdis. apply elem_of_snoc in Hx as [Hx|[= ->]].
    + destruct (Ha x Hx) as [b Hb]. exists b. rewrite lookup_insert_ne by congruence. done.
    + exists false. by rewrite lookup_insert_eq.
  - intros k o b. rewrite Hres. intros (? & ? & ?)%Hr. split_and!; auto.
  - intros i h u Hx. rewrite Hev in Hx. rewrite Hres. apply elem_of_snoc in Hx as [?|?]; [auto|done].
  - done.
  - intros x (? & ?)%Hlog. split; auto.
Qed.

(** A settlement, with its result for the worker. *)
Lemma books_settle v v' log i h u :
  books_ok v log → may_follow i (status_of (events_of i (v_events v))) (LeSettled i h u) →
  v_events v' = v_events v ++ [LeSettled i h u] → v_dispatches v' = v_dispatches v →
  v_results v' = <[as_str (ro_outbox_id (result_entry i h u)) := (result_entry i h u, false)]> (v_results v) →
  v_results v !! as_str (ro_outbox_id (result_entry i h u)) = None →
  books_ok v' log ∧ extends v v'.
Proof.
  intros [Hl Hj Hd Ha Hr Hs Ho Hlog] Hf Hev Hdis Hres Hnone.
  assert (∀ x, x ∈ v_events v → x ∈ v_events v') as Hsub by (intros; rewrite Hev; apply elem_of_snoc; by left).
  split; [|split; rewrite ?Hev, ?Hres, ?Hdis; [by apply prefix_app_r|done|by apply grows_insert_new]].
  split.
  - rewrite Hev. by apply legal_append.
  - intros x Hx. eapply justified_mono; [exact Hsub|]. rewrite Hev in Hx. apply elem_of_snoc in Hx as [?|?]; [auto|done].
  - intros k o b. rewrite Hdis. intros (? & ? & ?)%Hd. split_and!; auto.
  - intros x Hx. rewrite Hev in Hx. rewrite Hdis. apply elem_of_snoc in Hx as [?|?]; [auto|done].
  - intros k o b. rewrite Hres. intros [[<- [= <- <-]]|[_ (? & ? & ?)%Hr]]%lookup_insert_Some; [|split_and!; auto].
    split_and!; [done..|]. rewrite Hev. apply elem_of_snoc. by right.
  - intros j h' u' Hx. rewrite Hev in Hx. rewrite Hres. apply elem_of_snoc in Hx as [Hx|[= -> -> ->]].
    + destruct (Hs _ _ _ Hx) as [b Hb]. exists b. rewrite lookup_insert_ne by congruence. done.
    + exists false. by rewrite lookup_insert_eq.
  - done.
  - intros x (? & ?)%Hlog. split; auto.
Qed.

Lemma books_mark v log k o b :
  books_ok v log → v_dispatches v !! k = Some (o, b) →
  books_ok (MkView (v_events v) (<[k := (o, true)]> (v_dispatches v)) (v_results v)) log.
Proof.
  intros [Hl Hj Hd Ha Hr Hs Ho Hlog] Hk. split; simpl; try done.
  - intros k' o' b' [[<- [= <- <-]]|[_ ?]]%lookup_insert_Some; [by eapply Hd|by eapply Hd].
  - intros d Hin. destruct (Ha d Hin) as [b' Hb'].
    destruct (decide (k = as_str (do_outbox_id (dispatch_entry d)))) as [->|Hne].
    + simplify_eq. exists true. by rewrite lookup_insert_eq.
    + exists b'. by rewrite lookup_insert_ne.
Qed.

Lemma books_mark_result v log k o b :
  books_ok v log → v_results v !! k = Some (o, b) →
  books_ok (MkView (v_events v) (v_dispatches v) (<[k := (o, true)]> (v_results v))) log.
Proof.
  intros [Hl Hj Hd Ha Hr Hs Ho Hlog] Hk. split; simpl; try done.
  - intros k' o' b' [[<- [= <- <-]]|[_ ?]]%lookup_insert_Some; [by eapply Hr|by eapply Hr].
  - intros i h u Hin. destruct (Hs i h u Hin) as [b' Hb'].
    destruct (decide (k = as_str (ro_outbox_id (result_entry i h u)))) as [->|Hne].
    + simplify_eq. exists true. by rewrite lookup_insert_eq.
    + exists b'. by rewrite lookup_insert_ne.
Qed.

(** The host is handed a dispatch it has not seen. *)
Lemma books_log v log d :
  books_ok v log → LeAuthorized d ∈ v_events v → LeDispatchAttempted (ad_invocation_id d) ∈ v_events v →
  ad_invocation_id d ∉ ad_invocation_id <$> log → books_ok v (log ++ [d]).
Proof.
  intros [Hl Hj Hd Ha Hr Hs Ho Hlog] Hau Hat Hnew. split; try done.
  - rewrite fmap_app. apply NoDup_app. split_and!; [done| |apply NoDup_singleton].
    intros x Hx Hy. apply list_elem_of_singleton in Hy as ->. done.
  - intros x [?| ->]%elem_of_snoc; auto.
Qed.
End books_steps.

(** ** A program logic for the broker *)

Section logic.
Context {L P : Type} `{LedgerLaws L} `{Sha256} (self : DurableInvocationBroker P).
Context (may : AuthorityManifest → Prop) (consents : ApprovalResponseV1 → Prop).
Abbreviation W := (world L P (list ApprovedDispatchV1)).
Abbreviation bk := (stm W BrokerError).
Abbreviation books_ok := (books_ok may consents).
Abbreviation assertion := (view → list ApprovedDispatchV1 → Prop).
Implicit Types (w : W) (v : view) (g : list ApprovedDispatchV1).

Definition view_of w : view := il_view (bw_ledger w).

(** From books that are in order and satisfy [pre], [m] keeps the books in
    order, only extends the ledger, and ends in [post] when it succeeds. *)
Definition triple {A} (pre : assertion) (m : bk A) (post : A → assertion) : Prop := ∀ w w' r,
  books_ok (view_of w) (bw_host w) → pre (view_of w) (bw_host w) → m w = (w', r) →
  books_ok (view_of w') (bw_host w') ∧ extends (view_of w) (view_of w')
  ∧ ∀ a, r = Ok a → post a (view_of w') (bw_host w').

Definition anything : assertion := λ _ _, True.

Lemma triple_ret {A} (pre : assertion) (a : A) post :
  (∀ v g, pre v g → post a v g) → triple pre (mret a) post.
Proof. intros Hp w w' r Hok Hpre [= <- <-]. split_and!; [done..|]. intros ? [= <-]. auto. Qed.

Lemma triple_throw {A} (pre : assertion) e (post : A → assertion) : triple pre (throw e) post.
Proof. intros w w' r Hok Hpre [= <- <-]. split_and!; done. Qed.

Lemma triple_bind {A B} (pre : assertion) (m : bk A) mid (k : A → bk B) post :
  triple pre m mid → (∀ a, triple (mid a) (k a) post) → triple pre (m ≫= k) post.
Proof.
  intros Hm Hk w w' r Hok Hpre Hr. unfold mbind, stm_bind in Hr. destruct (m w) as [w1 [a|e]] eqn:Hmw.
  - destruct (Hm _ _ _ Hok Hpre Hmw) as (Hok1 & Hx1 & Hp1).
    destruct (Hk a _ _ _ Hok1 (Hp1 a eq_refl) Hr) as (? & ? & ?). split_and!; [done|by etrans|done].
  - simplify_eq. destruct (Hm _ _ _ Hok Hpre Hmw) as (? & ? & ?). split_and!; done.
Qed.

Lemma triple_conseq {A} (pre pre' : assertion) (m : bk A) (post post' : A → assertion) :
  triple pre m post → (∀ v g, books_ok v g → pre' v g → pre v g) →
  (∀ a v g, books_ok v g → post a v g → post' a v g) → triple pre' m post'.
Proof.
  intros Hm Hpre Hpost w w' r Hok Hp Hr. destruct (Hm _ _ _ Hok (Hpre _ _ Hok Hp) Hr) as (? & ? & ?).
  split_and!; [done..|]. intros a Ha. auto.
Qed.

Lemma triple_pre {A} (pre pre' : assertion) (m : bk A) post :
  triple pre m post → (∀ v g, books_ok v g → pre' v g → pre v g) → triple pre' m post.
Proof. intros Hm Hp. by eapply triple_conseq. Qed.

(** What holds of a ledger holds of its extensions, for the facts in [S]. *)
Definition stable (S : view → Prop) : Prop := ∀ v v', extends v v' → S v → S v'.
Lemma triple_stable {A} (S : view → Prop) (pre : assertion) (m : bk A) post :
  stable S → triple pre m post → triple (λ v g, pre v g ∧ S v) m (λ a v g, post a v g ∧ S v).
Proof.
  intros HS Hm w w' r Hok [Hpre Hs] Hr. destruct (Hm _ _ _ Hok Hpre Hr) as (? & Hx & ?).
  split_and!; [done..|]. intros a Ha. eauto.
Qed.
Lemma stable_elem e : stable (λ v, e ∈ v_events v).
Proof. intros v v' Hx He. by eapply extends_elem. Qed.

Lemma triple_reject (pre : assertion) b e : triple pre (reject_if b e) (λ _ v g, pre v g ∧ b = false).
Proof.
  intros w w' r Hok Hpre. unfold reject_if. destruct b; intros [= <- <-]; split_and!; done.
Qed.
Lemma triple_lift {A} (pre : assertion) (x : result BrokerError A) :
  triple pre (lift x) (λ a v g, pre v g ∧ x = Ok a).
Proof. intros w w' r Hok Hpre [= <- <-]. split_and!; [done..|]. intros a ->. done. Qed.

(** A call that leaves the view and the host alone. *)
Lemma triple_quiet {A} (pre : assertion) (m : bk A) (Q : A → Prop) :
  (∀ w w' r, books_ok (view_of w) (bw_host w) → pre (view_of w) (bw_host w) → m w = (w', r) →
     view_of w' = view_of w ∧ bw_host w' = bw_host w ∧ ∀ a, r = Ok a → Q a) →
  triple pre m (λ a v g, pre v g ∧ Q a).
Proof.
  intros Hm w w' r Hok Hpre Hr. destruct (Hm _ _ _ Hok Hpre Hr) as (-> & -> & Hq).
  split_and!; [done..|]. intros a Ha. auto.
Qed.

Lemma triple_events (pre : assertion) i :
  triple pre (ledger_events i) (λ es v g, pre v g ∧ es = events_of i (v_events v)).
Proof.
  intros w w' r Hok Hpre Hr. unfold ledger_events, on_ledger, call in Hr.
  destruct (il_events i (part ledger_of w)) as [l [es|e]] eqn:He; apply il_events_ok in He as [Hv Hes];
    simplify_eq; unfold view_of in *; simpl in *; rewrite Hv; split_and!; try done.
  intros a [= <-]. split; [done|]. by apply Hes.
Qed.

Lemma triple_leases {A} (pre : assertion) f (m : stm P BrokerError A) : triple pre (call leases_of f m) (λ _, pre).
Proof.
  intros w w' r Hok Hpre Hr. unfold call in Hr. destruct (m _) as [l [a|e]]; simplify_eq; split_and!; done.
Qed.
Lemma triple_try_leases {A} (pre : assertion) (m : stm P BrokerError A) : triple pre (attempt leases_of m) (λ _, pre).
Proof.
  intros w w' r Hok Hpre Hr. unfold attempt in Hr. destruct (m _) as [l x]; simplify_eq; split_and!; done.
Qed.

(** Appending an event the history allows; [F] is whatever is known of the
    host. *)
Lemma triple_append (F : list ApprovedDispatchV1 → Prop) i es e :
  event_invocation_id e = i → as_authorized e = None → as_settled e = None → may_follow i (status_of es) e →
  triple (λ v g, events_of i (v_events v) = es ∧ F g) (ledger_append [e] None)
         (λ _ v g, events_of i (v_events v) = es ++ [e] ∧ F g).
Proof.
  intros Hi He1 He2 Hf w w' r Hok [Hes HF] Hr. unfold ledger_append, on_ledger, call in Hr.
  destruct (il_append_atomic _ _ _) as [l [[]|err]] eqn:Ha; simplify_eq; unfold view_of in *; simpl in *.
  - apply il_append_ok in Ha. rewrite Ha. split_and!.
    + apply books_append; [done..|]. done.
    + split; simpl; [by apply prefix_app_r|done..].
    + intros [] _. simpl. by rewrite events_of_snoc, decide_True.
  - apply il_append_err in Ha. rewrite Ha. split_and!; done.
Qed.

(** The commit of an authorization. *)
Lemma triple_authorize es d :
  may_follow (ad_invocation_id d) (status_of es) (LeAuthorized d) →
  triple (λ v g, events_of (ad_invocation_id d) (v_events v) = es ∧ justified may consents (v_events v) d)
    (attempt ledger_of (il_append_atomic [LeAuthorized d] (Some (dispatch_entry d))))
    (λ x v _, x = Ok () → events_of (ad_invocation_id d) (v_events v) = es ++ [LeAuthorized d]).
Proof.
  intros Hf w w' r Hok [Hes Hj] Hr. unfold attempt in Hr.
  destruct (il_append_atomic _ _ _) as [l [[]|err]] eqn:Ha; simplify_eq; unfold view_of in *; simpl in *.
  - apply il_append_outbox in Ha as [[Hn Hv]|(b & Hb & Hv)].
    + destruct (books_authorize may consents _ (il_view l) _ d Hok Hj Hf) as [? ?]; [by rewrite Hv..|done|].
      split_and!; [done..|]. intros _ _ _. rewrite Hv. simpl. by rewrite events_of_snoc, decide_True.
    + exfalso. destruct (bo_dispatches _ _ _ _ Hok _ _ _ Hb) as (_ & _ & Hin). simpl in Hin.
      pose proof (legal_status_of _ _ (bo_legal _ _ _ _ Hok (ad_invocation_id d))) as Hls.
      assert (LeAuthorized d ∈ events_of (ad_invocation_id d) (v_events (il_view (bw_ledger w)))) as He
        by (by apply elem_of_events_of).
      apply (ls_auth_once _ _ _ Hls) in He. destruct Hf as (_ & _ & Hnone & _). congruence.
  - apply il_append_err in Ha. rewrite Ha. split_and!; [done..|]. by intros ? [= <-].
Qed.

Lemma triple_settlement es i h u :
  may_follow i (status_of es) (LeSettled i h u) →
  triple (λ v g, events_of i (v_events v) = es) (append_settlement i h u) (λ _, anything).
Proof.
  intros Hf w w' r Hok Hes Hr. unfold append_settlement, on_ledger, call in Hr.
  destruct (il_append_settlement_atomic _ _ _) as [l [[]|err]] eqn:Ha; simplify_eq; unfold view_of in *; simpl in *.
  - apply il_settle_ok in Ha as [[Hn Hv]|(b & _ & ->)]; [|split_and!; done].
    destruct (books_settle may consents _ (il_view l) _ i h u Hok Hf) as [? ?]; [by rewrite Hv..|done|].
    split_and!; done.
  - apply il_settle_err in Ha. rewrite Ha. split_and!; done.
Qed.

Lemma triple_mark i : triple anything (broker_mark_dispatch_delivered i)
  (λ _ v _, ∃ o, v_dispatches v !! as_str i = Some (o, true)).
Proof.
  intros w w' r Hok _ Hr. unfold broker_mark_dispatch_delivered, on_ledger, call in Hr.
  destruct (il_mark_dispatch_delivered _ _) as [l [[]|err]] eqn:Ha; simplify_eq; unfold view_of in *; simpl in *.
  - apply il_mark_ok in Ha as (o & b & Hb & ->). split_and!; [by eapply books_mark|split; simpl; try done; by eapply grows_mark|].
    intros _ _. exists o. simpl. by rewrite lookup_insert_eq.
  - apply il_mark_err in Ha. rewrite Ha. split_and!; done.
Qed.

Lemma triple_mark_result i : triple anything (on_ledger (il_mark_worker_result_delivered i)) (λ _, anything).
Proof.
  intros w w' r Hok _ Hr. unfold on_ledger, call in Hr.
  destruct (il_mark_worker_result_delivered _ _) as [l [[]|err]] eqn:Ha; simplify_eq; unfold view_of in *; simpl in *.
  - apply il_mark_result_ok in Ha as (o & b & Hb & ->).
    split_and!; [by eapply books_mark_result|split; simpl; try done; by eapply grows_mark|done].
  - apply il_mark_result_err in Ha. rewrite Ha. split_and!; done.
Qed.

Lemma triple_pending : triple anything broker_pending_dispatches
  (λ os v _, ∀ o, o ∈ os ↔ ∃ k, v_dispatches v !! k = Some (o, false)).
Proof.
  intros w w' r Hok _ Hr. unfold broker_pending_dispatches, on_ledger, call in Hr.
  destruct (il_pending_dispatches _) as [l [os|err]] eqn:Ha; apply il_pending_ok in Ha as [Hv Hos];
    simplify_eq; unfold view_of in *; simpl in *; rewrite Hv; split_and!; done.
Qed.

Lemma triple_pending_results : triple anything (on_ledger il_pending_worker_results) (λ _, anything).
Proof.
  intros w w' r Hok _ Hr. unfold on_ledger, call in Hr.
  destruct (il_pending_worker_results _) as [l [os|err]] eqn:Ha; apply il_results_ok in Ha as [Hv _];
    simplify_eq; unfold view_of in *; simpl in *; rewrite Hv; split_and!; done.
Qed.
End logic.
