(* ===== verification/BrokerProofs.v ===== *)
(** * The broker: authority, at-most-once dispatch, final settlements

    Every method of the broker keeps the books, whatever the ledger's writes,
    the lease issuer and the host do; hosts may call the broker back to any
    depth.  The theorems on whole histories follow. *)
From S2P Require Export BrokerInv.

(** * Methods *)

Section methods.
Context {L P : Type} `{LedgerLaws L} `{Sha256} (self : DurableInvocationBroker P).
Context (may : AuthorityManifest → Prop) (consents : ApprovalResponseV1 → Prop).
Abbreviation W := (world L P (list ApprovedDispatchV1)).
Abbreviation bk := (stm W BrokerError).
Abbreviation books_ok := (books_ok may consents).
Abbreviation triple := (triple (L:=L) (P:=P) may consents).
Implicit Types (i : StableId) (es : history) (v : view) (g : list ApprovedDispatchV1).

Abbreviation hist i es := (λ v (_ : list ApprovedDispatchV1), events_of i (v_events v) = es).

Lemma triple_pure {A} (Q : Prop) pre (m : bk A) post :
  (Q → triple pre m post) → triple (λ v g, pre v g ∧ Q) m post.
Proof. intros Hm w w' r Hok [Hpre HQ]. by apply Hm. Qed.
Lemma triple_weaken {A} pre (m : bk A) post : triple pre m post → triple pre m (λ _, anything).
Proof. intros Hm. eapply triple_conseq; [done|done|done]. Qed.
Lemma triple_any {A} pre (m : bk A) post : triple anything m post → triple pre m post.
Proof. intros Hm. by eapply triple_pre. Qed.

(** *** What reading a legal history gives *)

Lemma proposed_elem i es p m : legal i es → find_map as_proposed es = Some (p, m) → LeProposed i p m ∈ es.
Proof.
  intros Hl (x & Hx & Hp)%find_map_Some. pose proof (legal_ids i es Hl x Hx) as Hid.
  destruct x; simplify_eq/=. done.
Qed.
Lemma requested_elem es c : find_map as_requested es = Some c → LeApprovalRequested c ∈ es.
Proof. intros (x & Hx & Hp)%find_map_Some. destruct x; by simplify_eq/=. Qed.
Lemma authorized_elem es d : find_map as_authorized es = Some d → LeAuthorized d ∈ es.
Proof. intros (x & Hx & Hp)%find_map_Some. destruct x; by simplify_eq/=. Qed.
Lemma settled_elem i es h u : legal i es → find_map as_settled es = Some (h, u) → LeSettled i h u ∈ es.
Proof.
  intros Hl (x & Hx & Hp)%find_map_Some. pose proof (legal_ids i es Hl x Hx) as Hid. destruct x; by simplify_eq/=.
Qed.
Lemma attempted_elem i es : legal i es → existsb is_attempted es = true ↔ LeDispatchAttempted i ∈ es.
Proof.
  intros Hl. rewrite existsb_true. split; [|eauto].
  intros (x & Hx & Ha). pose proof (legal_ids i es Hl x Hx) as Hid. destruct x; by simplify_eq/=.
Qed.
Lemma accepted_elem i es : legal i es → existsb is_accepted es = true ↔ LeDispatchAccepted i ∈ es.
Proof.
  intros Hl. rewrite existsb_true. split; [|eauto].
  intros (x & Hx & Ha). pose proof (legal_ids i es Hl x Hx) as Hid. destruct x; by simplify_eq/=.
Qed.

Lemma require_authorized_ok es : require_authorized es = Ok () ↔ is_Some (find_map as_authorized es).
Proof.
  unfold require_authorized. rewrite fail_if_ok, negb_false_iff, existsb_true. split.
  - intros (x & Hx & Ha). destruct (find_map as_authorized es) eqn:Hn; [eauto|].
    rewrite find_map_None in Hn. by rewrite Hn in Ha.
  - intros [d Hd]. apply find_map_Some in Hd as (x & Hx & Ha). exists x. by rewrite Ha.
Qed.

Lemma replay_incomplete es e :
  replay_decision es = Err e →
  e = BeIncompleteState ∧ find_map as_settled es = None ∧ find_map as_authorized es = None
  ∧ existsb is_rejected es = false ∧ find_map as_requested es = None.
Proof. unfold replay_decision. intros Hr. repeat case_match; by simplify_eq. Qed.

(** *** Proposals and approvals *)

(** The approval a binding asks for has been given. *)
Definition approval_given i es (m : AuthorityManifest) (p : BrokerProposalV1) : Prop :=
  ∀ b, permits m (bp_capability_id p) b → cb_approval b = ArNever ∨
    ∃ r c, consents r ∧ ar_approved r = true ∧ ar_invocation_id r = i ∧ LeApprovalRequested c ∈ es
      ∧ ch_nonce c = ar_nonce r ∧ ar_now_epoch_millis r < ch_expires_epoch_millis c.

(** The decision that a redelivered proposal is answered with. *)
Definition decided i p m (dec : BrokerDecisionV1) : view → list ApprovedDispatchV1 → Prop := λ v _,
  replay_decision (events_of i (v_events v)) = Ok dec
  ∧ find_map as_proposed (events_of i (v_events v)) = Some (p, m).

(** Deciding the next event of an undecided history. *)
Lemma replay_snoc es e :
  find_map as_settled es = None → find_map as_authorized es = None → existsb is_rejected es = false →
  replay_decision (es ++ [e]) =
  match e with
  | LeAuthorized d => Ok (BdDispatchReady d)
  | LeApprovalRejected _ _ => Ok BdDenied
  | LeSettled _ h _ => Ok (BdAlreadySettled h)
  | LeApprovalRequested c => match find_map as_requested es with
                             | Some c' => Ok (BdAwaitingApproval c') | None => Ok (BdAwaitingApproval c) end
  | _ => replay_decision es
  end.
Proof.
  intros Hs Ha Hr. unfold replay_decision. rewrite !find_map_snoc, existsb_snoc, Hs, Ha, Hr.
  by destruct e, (find_map as_requested es).
Qed.
Lemma decided_snoc i p m dec es e v g :
  events_of i (v_events v) = es ++ [e] → find_map as_proposed es = Some (p, m) →
  replay_decision (es ++ [e]) = Ok dec → decided i p m dec v g.
Proof. intros Hes Hp Hr. unfold decided. by rewrite Hes, Hr, find_map_snoc, Hp. Qed.

Lemma authorize_keeps m p es (i := invocation_id_of (bp_proposal_id p)) :
  may m → find_map as_proposed es = Some (p, am_manifest_id m) → existsb is_rejected es = false →
  find_map as_authorized es = None → find_map as_settled es = None → approval_given i es m p →
  triple (hist i es) (authorize self m p) (decided i p (am_manifest_id m)).
Proof.
  intros Hm Hp Hrej Hauth Hset Happ. unfold authorize.
  eapply triple_bind; [apply triple_lift|]. intros b. apply triple_pure. intros Hb%ok_or_ok.
  eapply triple_bind; [apply triple_reject|]. intros []. apply triple_pure. intros Hen. boolify.
  eapply (triple_bind _ _ _ _ (λ _, hist i es)).
  { destruct (br_lease_port self); [apply triple_leases|by apply triple_ret]. }
  intros issued. simpl. case_match.
  - eapply triple_bind; [|intros; apply triple_throw].
    instantiate (1 := λ _, anything).
    destruct (br_lease_port self); [|by apply triple_ret]. eapply triple_bind; [apply triple_try_leases|].
    intros. by apply triple_ret.
  - set (d := MkDispatch _ _ _ _ _ _).
    assert (dispatch_matches i p (am_manifest_id m) d) as Hd by done.
    eapply triple_bind.
    + eapply triple_pre; [apply (triple_authorize may consents es d)|].
      * split; [done|]. simpl. split_and!; [done..|]. eauto.
      * intros v g Hok Hes. split; [done|].
        pose proof (bo_legal _ _ _ _ Hok i) as Hl. rewrite Hes in Hl.
        assert (∀ x, x ∈ es → x ∈ v_events v) as Hsub by (intros x; rewrite <-Hes, elem_of_events_of; tauto).
        exists p, m, b. split_and!; [by apply Hsub, proposed_elem|done..|].
        destruct (Happ b ltac:(done)) as [?|(r & c & Hr & Ha & Hri & Hc & ? & ?)]; [by left|].
        right. exists r, c. split_and!; try done; [by apply Hsub|]. by apply (legal_ids i es Hl) in Hc.
    + intros [[]|e].
      { apply triple_ret. intros v g Hes. eapply decided_snoc; [by apply Hes|done|]. by rewrite replay_snoc. }
      eapply triple_bind; [|intros; apply triple_throw].
      instantiate (1 := λ _, anything). apply triple_any. destruct (br_lease_port self); [apply triple_leases|by apply triple_ret].
Qed.

(** [authorize] and [decide_after_proposed] find the same binding. *)
Lemma permits_usable m c b : permits m c b → usable_binding m c = Some b.
Proof.
  intros (Hf & He & Hc). unfold usable_binding.
  destruct (list_find _ (am_capability_bindings m)) as [[k x]|] eqn:Hx in Hf; [|done]. simplify_eq/=.
  apply list_find_Some in Hx as (Hk & Hid & Hmin).
  rewrite (proj2 (list_find_Some _ _ k b)); [done|]. split_and!; [done..|].
  intros j y Hy Hlt (? & _ & _). by eapply Hmin.
Qed.

Lemma decide_keeps m p now es (i := invocation_id_of (bp_proposal_id p)) :
  may m → find_map as_proposed es = Some (p, am_manifest_id m) → existsb is_rejected es = false →
  find_map as_authorized es = None → find_map as_settled es = None → find_map as_requested es = None →
  triple (hist i es) (decide_after_proposed self m p now) (decided i p (am_manifest_id m)).
Proof.
  intros Hm Hp Hrej Hauth Hset Hreq. unfold decide_after_proposed. fold i.
  destruct (usable_binding m (bp_capability_id p)) as [b|] eqn:Hb.
  - case_bool_decide as Happ.
    + eapply triple_bind; [apply triple_lift|]. intros expires. apply triple_pure. intros _.
      eapply triple_bind.
      * eapply triple_pre; [apply (triple_append may consents (λ _, True) i es); [done..|]|done].
        split; [done|]. simpl. by rewrite Hp, Hrej, Hauth, Hreq.
      * intros []. apply triple_ret. intros v g [Hes _]. eapply decided_snoc; [done..|]. by rewrite replay_snoc, Hreq.
    + apply authorize_keeps; try done. intros b' Hb'%permits_usable. left. destruct (cb_approval b') eqn:E; [done|]. congruence.
  - eapply triple_bind.
    + eapply triple_pre; [apply (triple_append may consents (λ _, True) i es); [done..|]|done].
      split; [done|]. simpl. by rewrite Hp, Hrej, Hauth.
    + intros []. apply triple_ret. intros v g [Hes _]. eapply decided_snoc; [done..|]. by rewrite replay_snoc.
Qed.

Lemma propose_decides m p now :
  may m → triple anything (propose self m p now) (decided (invocation_id_of (bp_proposal_id p)) p (am_manifest_id m)).
Proof.
  intros Hm. unfold propose. set (i := invocation_id_of (bp_proposal_id p)).
  eapply triple_bind; [apply triple_events|]. intros es.
  eapply (triple_pre _ _ (λ v g, hist i es v g ∧ legal i es)).
  2: { intros v g Hok [_ ->]. split; [done|]. apply Hok. }
  apply triple_pure. intros Hl. destruct es as [|e0 es']; simpl.
  - eapply triple_bind.
    + eapply triple_pre; [apply (triple_append may consents (λ _, True) i [] (LeProposed i p (am_manifest_id m))); try done|].
      done.
    + intros []. simpl. eapply triple_pre; [by apply (decide_keeps m p now [LeProposed i p (am_manifest_id m)])|]. naive_solver.
  - set (es := e0 :: es') in *. eapply triple_bind; [apply triple_lift|]. intros []. apply triple_pure. intros Hver.
    unfold verify_proposal_identity, proposed_identity in Hver. res_inv Hver. boolify. destruct x as [p' m']. simplify_eq/=.
    destruct (replay_decision es) as [d|e] eqn:Hr.
    { apply triple_ret. intros v g Hes. unfold decided. by rewrite Hes. }
    apply replay_incomplete in Hr as (-> & Hs & Ha & Hrej & Hreq). by apply decide_keeps.
Qed.

Lemma resolve_keeps m r : may m → consents r → triple anything (broker_resolve_approval self m r) (λ _, anything).
Proof.
  intros Hm Hr. unfold broker_resolve_approval. set (i := ar_invocation_id r).
  eapply triple_bind; [apply triple_events|]. intros es.
  eapply (triple_pre _ _ (λ v g, hist i es v g ∧ legal i es)).
  2: { intros v g Hok [_ ->]. split; [done|]. apply Hok. }
  apply triple_pure. intros Hl. pose proof (legal_status_of i es Hl) as Hls.
  eapply triple_bind; [apply triple_lift|]. intros [p mid]. apply triple_pure. intros Hp%ok_or_ok.
  eapply triple_bind; [apply triple_reject|]. intros []. apply triple_pure. intros Hmid. boolify. simpl in *. subst mid.
  eapply triple_bind; [apply triple_lift|]. intros c. apply triple_pure. intros Hc%ok_or_ok.
  eapply triple_bind; [apply triple_lift|]. intros [d|]; apply triple_pure; intros Hrep; [by apply triple_ret|].
  assert (find_map as_authorized es = None ∧ existsb is_rejected es = false ∧ find_map as_settled es = None)
    as (Hauth & Hrej & Hset).
  { unfold replayed_approval, replay_decision in Hrep. by repeat (case_match; simplify_eq). }
  eapply triple_bind; [apply triple_reject|]. intros []. apply triple_pure. intros Hnonce. boolify.
  assert (∀ reason, triple (hist i es) (ledger_append [LeApprovalRejected i reason] None) (λ _, anything)) as Hreject.
  { intros reason. eapply triple_weaken, triple_pre; [apply (triple_append may consents (λ _, True) i es); [done..|]|done].
    split; [done|]. simpl. by rewrite Hp, Hrej, Hauth. }
  case_match; boolify; [eapply triple_bind; [apply Hreject|intros; by apply triple_ret]|].
  case_match; boolify; [eapply triple_bind; [apply Hreject|intros; by apply triple_ret]|].
  assert (i = invocation_id_of (bp_proposal_id p)) as Hi by (by eapply (ls_id _ _ _ Hls)).
  rewrite Hi. eapply triple_weaken, authorize_keeps; try done. intros b _. right. exists r, c. split_and!; try done.
  by apply requested_elem.
Qed.

(** *** Dispatch, progress and settlement *)

(** The pattern the remaining methods share: read a history, which is legal. *)
Lemma read_history {A} pre i (k : history → bk A) post :
  (∀ es, legal i es → triple (λ v g, pre v g ∧ events_of i (v_events v) = es) (k es) post) →
  triple pre (es ← ledger_events i; k es) post.
Proof.
  intros Hk. eapply triple_bind; [apply triple_events|]. intros es.
  eapply (triple_pre _ _ (λ v g, (pre v g ∧ events_of i (v_events v) = es) ∧ legal i es)).
  2: { intros v g Hok [? ->]. split; [done|]. apply Hok. }
  apply triple_pure. auto.
Qed.

Lemma accept_keeps i : triple anything (accept_dispatch i) (λ _, anything).
Proof.
  apply read_history. intros es Hl.
  eapply triple_bind; [apply triple_lift|]. intros []. apply triple_pure. intros _.
  eapply triple_bind; [apply triple_reject|]. intros []. apply triple_pure. intros Hatt. boolify.
  case_match eqn:Hacc; [by apply triple_ret|].
  eapply triple_weaken, triple_pre; [apply (triple_append may consents (λ _, True) i es); [done..|]|by intros v g _ [_ ?]].
  split; [done|]. simpl. by rewrite Hatt, Hacc.
Qed.

Lemma progress_keeps i n h : triple anything (commit_progress i n h) (λ _, anything).
Proof.
  apply read_history. intros es Hl.
  eapply triple_bind; [apply triple_lift|]. intros []. apply triple_pure. intros _.
  eapply triple_bind; [apply triple_reject|]. intros []. apply triple_pure. intros Hacc. boolify.
  eapply triple_bind; [apply triple_reject|]. intros []. apply triple_pure. intros Hset.
  case_match; [eapply triple_weaken, triple_reject|].
  eapply triple_bind; [apply triple_lift|]. intros next. apply triple_pure. intros Hn%ok_or_ok%checked_add_Some.
  eapply triple_bind; [apply triple_reject|]. intros []. apply triple_pure. intros Hnext. boolify.
  eapply triple_weaken, triple_pre; [apply (triple_append may consents (λ _, True) i es); [done..|]|by intros v g _ [_ ?]].
  split; [done|]. simpl. split_and!; [done| |lia]. apply find_map_None. intros x Hx.
  destruct (as_settled x) eqn:Hs; [|done]. rewrite existsb_false in Hset. apply Hset in Hx. unfold is_settled in Hx.
  by rewrite Hs in Hx.
Qed.

Lemma settlement_keeps i es h u :
  find_map as_settled es = None → existsb is_attempted es = true →
  triple (hist i es) (append_settlement i h u) (λ _, anything).
Proof. intros Hs Ha. apply triple_settlement. split; [done|]. by simpl. Qed.

Lemma settle_keeps i h u : triple anything (broker_settle i h u) (λ _, anything).
Proof.
  apply read_history. intros es Hl.
  eapply triple_bind; [apply triple_lift|]. intros []. apply triple_pure. intros _.
  eapply triple_bind; [apply triple_reject|]. intros []. apply triple_pure. intros Hacc. boolify.
  case_match eqn:Hs; [eapply triple_weaken, triple_reject|].
  eapply triple_pre; [apply (settlement_keeps i es)|by intros v g _ [_ ?]]; [done|].
  by apply (ls_accepted _ _ _ (legal_status_of i es Hl)).
Qed.

Lemma unaccepted_keeps i reason u :
  triple (λ v g, LeDispatchAttempted i ∈ v_events v) (settle_unaccepted_dispatch i reason u) (λ _, anything).
Proof.
  apply read_history. intros es Hl.
  eapply triple_bind; [apply triple_lift|]. intros []. apply triple_pure. intros _.
  case_match eqn:Hs; [eapply triple_weaken, triple_reject|].
  eapply (triple_pre _ _ (λ v g, hist i es v g ∧ existsb is_attempted es = true)).
  - apply triple_pure. intros Hatt. by apply settlement_keeps.
  - intros v g Hok [Hatt <-]. split; [done|]. apply (attempted_elem i); [apply Hok|]. by apply elem_of_events_of.
Qed.

Lemma abandon_keeps {A} o reason u e (post : A → view → list ApprovedDispatchV1 → Prop) :
  triple (λ v g, LeDispatchAttempted (ad_invocation_id (do_dispatch o)) ∈ v_events v)
    (abandon_dispatch o reason u e) post.
Proof.
  eapply triple_bind; [apply unaccepted_keeps|]. intros [].
  eapply triple_bind; [eapply triple_any, triple_mark|]. intros. apply triple_throw.
Qed.

(** What a host may assume and must do: it is handed a dispatch that is
    durably authorized and marked attempted, and that it has not seen; it may
    use the ledger through the broker. *)
Definition host_ok (host : ApprovedDispatchV1 → bk DeliveryAcceptanceV1) : Prop := ∀ d,
  triple (λ v g, LeAuthorized d ∈ v_events v ∧ LeDispatchAttempted (ad_invocation_id d) ∈ v_events v
            ∧ ad_invocation_id d ∉ ad_invocation_id <$> g) (host d) (λ _, anything).

Lemma try_dispatch_keeps host pre d : triple pre (host d) (λ _, anything) → triple pre (try_dispatch host d) (λ _, anything).
Proof.
  intros Hh w w' r Hok Hpre Hr. unfold try_dispatch in Hr. destruct (host d w) as [w1 x] eqn:E. simplify_eq.
  destruct (Hh _ _ _ Hok Hpre E) as (? & ? & _). split_and!; done.
Qed.

Definition delivered v (o : DispatchOutboxV1) : Prop :=
  ∃ o', v_dispatches v !! as_str (do_outbox_id o) = Some (o', true).

(** The entry is delivered when the call succeeds. *)
Lemma deliver_outbox_keeps host o :
  host_ok host → triple (λ v g, LeAuthorized (do_dispatch o) ∈ v_events v) (deliver_outbox o host)
    (λ d v _, d = true ∧ delivered v o).
Proof.
  intros Hhost. unfold deliver_outbox. set (d := do_dispatch o). set (i := ad_invocation_id d).
  assert (∀ pre, triple pre (_ ← broker_mark_dispatch_delivered (do_outbox_id o); mret true)
    (λ d v _, d = true ∧ delivered v o)) as Hmark.
  { intros pre. eapply triple_bind; [eapply triple_any, triple_mark|]. intros []. by apply triple_ret. }
  apply read_history. intros es Hl. case_match eqn:Hdone; [apply Hmark|].
  case_match eqn:Hatt.
  { eapply triple_pre; [apply abandon_keeps|]. intros v g Hok [_ Hes]. apply (attempted_elem i es Hl) in Hatt.
    rewrite <-Hes in Hatt. by apply elem_of_events_of in Hatt as []. }
  eapply (triple_pre _ _ (λ v g, (hist i es v g ∧ i ∉ ad_invocation_id <$> g) ∧ LeAuthorized d ∈ es)).
  2: { intros v g Hok [Hin Hes]. split_and!; [done| |rewrite <-Hes; by apply elem_of_events_of].
    intros (x & Hx & Hx')%list_elem_of_fmap. destruct (bo_sent _ _ _ _ Hok x Hx') as [_ Hsent].
    rewrite <-Hx in Hsent. assert (LeDispatchAttempted i ∈ es) as Hc by (rewrite <-Hes; by apply elem_of_events_of).
    apply (attempted_elem i es Hl) in Hc. congruence. }
  apply triple_pure. intros Hin. pose proof (ls_auth_once _ _ _ (legal_status_of i es Hl) d Hin) as Hau.
  eapply triple_bind.
  { apply (triple_append may consents (λ g, i ∉ ad_invocation_id <$> g) i es (LeDispatchAttempted i)); [done..|].
    split; [done|]. simpl in *. rewrite Hau, Hatt. eauto. }
  intros []. 
  eapply (triple_pre _ _ (λ v g, (LeAuthorized d ∈ v_events v ∧ LeDispatchAttempted i ∈ v_events v
      ∧ i ∉ ad_invocation_id <$> g) ∧ LeDispatchAttempted i ∈ v_events v)).
  2: { intros v g Hok [Hes Hnew]. assert (∀ x, x ∈ es ++ [LeDispatchAttempted i] → x ∈ v_events v) as Hsub
      by (intros x; rewrite <-Hes, elem_of_events_of; tauto).
    split_and!; try done; apply Hsub, elem_of_snoc; auto. }
  eapply triple_bind.
  { eapply (triple_stable may consents (λ v, LeDispatchAttempted i ∈ v_events v)); [apply stable_elem|].
    apply try_dispatch_keeps, Hhost. }
  intros acceptance. eapply (triple_pre _ _ (λ v g, LeDispatchAttempted i ∈ v_events v)); [|by intros v g _ [_ ?]].
  destruct acceptance as [[]|e]; try apply abandon_keeps.
  all: eapply triple_bind; [eapply triple_any, accept_keeps|]; intros []; apply Hmark.
Qed.

Lemma stable_delivered o : stable (λ v, delivered v o).
Proof. intros v v' Hx [o' Ho]. destruct (ex_dispatches _ _ Hx _ _ _ Ho) as (b & Hb & Hb'). exists o'. by rewrite Hb, Hb'. Qed.

Lemma deliver_each_keeps host os n :
  host_ok host → triple (λ v g, ∀ o, o ∈ os → LeAuthorized (do_dispatch o) ∈ v_events v) (deliver_each host os n)
    (λ k v _, k = n + len os ∧ ∀ o, o ∈ os → delivered v o).
Proof.
  intros Hh. revert n. induction os as [|o os IH]; intros n; simpl.
  { apply triple_ret. intros v g _. split; [unfold len; simpl; lia|]. by intros o ?%not_elem_of_nil. }
  pose (S v := ∀ x, x ∈ os → LeAuthorized (do_dispatch x) ∈ v_events v).
  assert (stable S) as HS by (intros v v' Hx HS x Hin; eapply extends_elem; eauto).
  eapply triple_bind.
  - eapply triple_pre; [eapply (triple_stable may consents S), (deliver_outbox_keeps host o); done|].
    intros v g _ Hall. split; [apply Hall; by left|]. intros x Hx. apply Hall. by right.
  - intros d. eapply (triple_pre _ _ (λ v g, (S v ∧ delivered v o) ∧ d = true)); [|naive_solver].
    apply triple_pure. intros ->.
    eapply (triple_conseq may consents (λ v g, S v ∧ delivered v o) _ _
      (λ k v g, (k = n + 1 + len os ∧ ∀ x, x ∈ os → delivered v x) ∧ delivered v o)).
    + eapply (triple_stable may consents (λ v, delivered v o) (λ v g, S v)); [apply stable_delivered|apply IH].
    + done.
    + intros k v g _ [[-> Hall] Ho]. split; [unfold len; simpl; lia|]. intros x [->|?]%elem_of_cons; auto.
Qed.

Lemma pending_authorized :
  triple anything broker_pending_dispatches (λ os v _, ∀ o, o ∈ os → LeAuthorized (do_dispatch o) ∈ v_events v).
Proof.
  eapply triple_conseq; [apply triple_pending|done|]. simpl. intros os v g Hok Hos o [k Hk]%Hos.
  by eapply (bo_dispatches _ _ _ _ Hok).
Qed.

Lemma deliver_dispatches_keeps host : host_ok host → triple anything (deliver_dispatches host) (λ _, anything).
Proof.
  intros Hh. eapply triple_bind; [apply pending_authorized|]. intros os. by eapply triple_weaken, deliver_each_keeps.
Qed.

Lemma deliver_for_keeps host i : host_ok host → triple anything (deliver_pending_dispatch_for i host) (λ _, anything).
Proof.
  intros Hh. eapply triple_bind; [apply pending_authorized|]. intros os.
  destruct (list_find _ os) as [[k o]|] eqn:Hf; [|by apply triple_ret].
  apply list_find_Some in Hf as (Hk & _). apply list_elem_of_lookup_2 in Hk.
  eapply triple_weaken, triple_pre; [by apply deliver_outbox_keeps|].
  intros v g _ Ha. by apply Ha.
Qed.

(** A worker's answers; it does not touch the ledger. *)
Definition answering (answers : WorkerResultOutboxV1 → W → result BrokerError DeliveryAcceptanceV1)
    (o : WorkerResultOutboxV1) : bk DeliveryAcceptanceV1 := λ w, (w, answers o w).

Lemma deliver_results_keeps answers : triple anything (deliver_worker_results (answering answers)) (λ _, anything).
Proof.
  eapply triple_bind; [apply triple_pending_results|]. intros os. generalize 0.
  induction os as [|o os IH]; intros n; simpl; [by apply triple_ret|].
  eapply (triple_bind _ _ _ _ (λ _, anything)).
  - intros w w' r Hok _ [= <- <-]. split_and!; done.
  - intros []; try apply triple_throw; (eapply triple_bind; [apply triple_mark_result|]; intros []; apply IH).
Qed.

(** ** Runs *)

Inductive broker_call : Type :=
| BcPropose (m : AuthorityManifest) (p : BrokerProposalV1) (now : N)
| BcResolve (m : AuthorityManifest) (r : ApprovalResponseV1)
| BcAccept (i : StableId)
| BcProgress (i : StableId) (n : N) (h : string)
| BcSettle (i : StableId) (h : string) (u : bool)
| BcMarkDispatch (outbox_id : StableId)
| BcDeliver
| BcDeliverFor (i : StableId)
| BcDeliverResults (answers : WorkerResultOutboxV1 → W → result BrokerError DeliveryAcceptanceV1).

Definition broker_do (host : ApprovedDispatchV1 → bk DeliveryAcceptanceV1) (c : broker_call) : bk () :=
  match c with
  | BcPropose m p now => _ ← propose self m p now; mret ()
  | BcResolve m r => _ ← broker_resolve_approval self m r; mret ()
  | BcAccept i => accept_dispatch i
  | BcProgress i n h => commit_progress i n h
  | BcSettle i h u => broker_settle i h u
  | BcMarkDispatch o => broker_mark_dispatch_delivered o
  | BcDeliver => _ ← deliver_dispatches host; mret ()
  | BcDeliverFor i => _ ← deliver_pending_dispatch_for i host; mret ()
  | BcDeliverResults answers => _ ← deliver_worker_results (answering answers); mret ()
  end.

(** Calls in sequence, successful or not. *)
Fixpoint broker_run (host : ApprovedDispatchV1 → bk DeliveryAcceptanceV1) (cs : list broker_call) (w : W) : W :=
  match cs with [] => w | c :: cs => broker_run host cs (broker_do host c w).1 end.

(** A host that notes what it is sent, and may run broker calls of its own
    before it answers, nested to depth [n]. *)
Abbreviation behaviour := (ApprovedDispatchV1 → W → list broker_call * result BrokerError DeliveryAcceptanceV1).
Fixpoint nested_host (behave : behaviour) (n : nat) (d : ApprovedDispatchV1) : bk DeliveryAcceptanceV1 := λ w,
  let w := MkWorld (bw_ledger w) (bw_leases w) (bw_host w ++ [d]) in
  match n with
  | O => (w, (behave d w).2)
  | S n => (broker_run (nested_host behave n) (behave d w).1 w, (behave d w).2)
  end.

Definition allowed (c : broker_call) : Prop :=
  match c with
  | BcPropose m _ _ => may m
  | BcResolve m r => may m ∧ consents r
  | _ => True
  end.

Lemma broker_do_keeps host c : host_ok host → allowed c → triple anything (broker_do host c) (λ _, anything).
Proof.
  intros Hh Hc. destruct c; simpl in *;
    try (eapply triple_bind; [|intros; by apply triple_ret]; instantiate (1 := λ _, anything)).
  - by eapply triple_weaken, propose_decides.
  - apply resolve_keeps; tauto.
  - apply accept_keeps.
  - apply progress_keeps.
  - apply settle_keeps.
  - eapply triple_weaken, triple_mark.
  - by apply deliver_dispatches_keeps.
  - by apply deliver_for_keeps.
  - apply deliver_results_keeps.
Qed.

Lemma broker_run_keeps host cs w :
  host_ok host → Forall allowed cs → books_ok (view_of w) (bw_host w) →
  books_ok (view_of (broker_run host cs w)) (bw_host (broker_run host cs w))
  ∧ extends (view_of w) (view_of (broker_run host cs w)).
Proof.
  intros Hh Hcs. revert w. induction Hcs as [|c cs Hc Hcs IH]; intros w Hok; simpl; [done|].
  destruct (broker_do host c w) as [w1 r] eqn:E.
  destruct (broker_do_keeps host c Hh Hc w w1 r Hok I E) as (Hok1 & Hx & _). simpl.
  destruct (IH w1 Hok1) as [? ?]. split; [done|]. by etrans.
Qed.

Lemma nested_host_ok behave n : (∀ d w, Forall allowed (behave d w).1) → host_ok (nested_host behave n).
Proof.
  intros Hb. induction n as [|n IH]; intros d w w' r Hok (Hau & Hat & Hnew) Hr.
  all: set (w1 := MkWorld (bw_ledger w) (bw_leases w) (bw_host w ++ [d])).
  all: assert (books_ok (view_of w1) (bw_host w1)) as Hok1 by (by apply books_log).
  - simpl in Hr. fold w1 in Hr. simplify_eq. split_and!; done.
  - simpl in Hr. fold w1 in Hr. simplify_eq.
    destruct (broker_run_keeps _ (behave d w1).1 w1 IH (Hb d w1) Hok1) as [? ?]. split_and!; done.
Qed.
End methods.

(** * Histories *)

Section theorems.
Context {L P : Type} `{LedgerLaws L} `{Sha256} (self : DurableInvocationBroker P).
Context (may : AuthorityManifest → Prop) (consents : ApprovalResponseV1 → Prop).
Abbreviation W := (world L P (list ApprovedDispatchV1)).
Abbreviation bcall := (broker_call (L:=L) (P:=P)).
Abbreviation events w := (v_events (view_of w)).
Abbreviation allowed := (allowed (L:=L) (P:=P) may consents).
Implicit Types (w : W).

(** A broker over an empty ledger, with a host that has seen nothing. *)
Definition fresh w : Prop := view_of w = MkView [] ∅ ∅ ∧ bw_host w = [].

Lemma fresh_books w : fresh w → books_ok may consents (view_of w) (bw_host w).
Proof.
  intros [-> ->]. split; simpl; try (intros *; rewrite ?lookup_empty; by inversion 1); [|constructor].
  intros i. constructor.
Qed.

Lemma read_events i w w' r :
  ledger_events i w = (w', r) →
  view_of w' = view_of w ∧ ∀ es, r = Ok es → es = events_of i (events w).
Proof.
  intros Hr. unfold ledger_events, on_ledger, call in Hr. destruct (il_events i _) as [l x] eqn:E.
  apply il_events_ok in E as [Hv Hes]. by destruct x; simplify_eq.
Qed.

(** A proposal whose history is decided is answered from it. *)
Lemma propose_replays m p now w w' dec r (i := invocation_id_of (bp_proposal_id p)) :
  replay_decision (events_of i (events w)) = Ok dec → propose self m p now w = (w', r) →
  view_of w' = view_of w ∧ ∀ dec', r = Ok dec' → dec' = dec.
Proof.
  intros Hrep. unfold propose. fold i. unfold mbind, stm_bind.
  destruct (ledger_events i w) as [w1 x] eqn:Hr. apply read_events in Hr as [Hv Hes].
  destruct x as [es|e]; [|by intros [= <- <-]]. specialize (Hes es eq_refl). subst es.
  destruct (events_of i (events w)) as [|e0 es] eqn:Hev; [done|]. simpl.
  unfold lift. destruct (verify_proposal_identity _ _ _) as [[]|e]; [|by intros [= <- <-]].
  rewrite Hrep. intros [= <- <-]. split; [done|]. by intros dec' [= <-].
Qed.

Section run.
Context (behave : ApprovedDispatchV1 → W → list bcall * result BrokerError DeliveryAcceptanceV1).
Hypothesis behave_allowed : ∀ d w, Forall allowed (behave d w).1.

(** A run of calls, with the given host nested to depth [n]. *)
Definition run (n : nat) (cs : list bcall) (w : W) : W := broker_run self (nested_host self behave n) cs w.

Lemma run_books n cs w :
  books_ok may consents (view_of w) (bw_host w) → Forall allowed cs →
  books_ok may consents (view_of (run n cs w)) (bw_host (run n cs w)) ∧ extends (view_of w) (view_of (run n cs w)).
Proof. intros Hok Hcs. apply broker_run_keeps; try done. by apply nested_host_ok. Qed.

(** C4: Every history the broker writes is legal, whatever is called in which
    order, whichever writes fail, and however deep hosts call back: proposed
    once, rejected or authorized but not both, attempted once before it is
    accepted or settled, progress without gaps, settled once.  The dispatch
    outbox holds exactly the authorized dispatches and the result outbox
    exactly the settlements. *)
Theorem broker_histories_legal n cs w (w' := run n cs w) :
  fresh w → Forall allowed cs →
  (∀ i, legal i (events_of i (events w')))
  ∧ (∀ d, LeAuthorized d ∈ events w' ↔
      ∃ b, v_dispatches (view_of w') !! as_str (do_outbox_id (dispatch_entry d)) = Some (dispatch_entry d, b))
  ∧ (∀ i h u, LeSettled i h u ∈ events w' ↔
      ∃ b, v_results (view_of w') !! as_str (ro_outbox_id (result_entry i h u)) = Some (result_entry i h u, b)).
Proof.
  intros Hf Hcs. destruct (run_books n cs w (fresh_books w Hf) Hcs) as [[Hl _ Hd Ha Hr Hs _ _] _].
  split_and!; [done| |].
  - intros d. split; [apply Ha|]. by intros [b (_ & _ & ?)%Hd].
  - intros i h u. split; [apply Hs|]. by intros [b (_ & _ & ?)%Hr].
Qed.

(** C3: The host is sent every invocation at most once, over any run with any
    number of deliveries, failing writes, recoveries and nested calls.  What
    it is sent was durably authorized and marked attempted before, and
    authorized only because a manifest the core presented permits the
    capability of the recorded proposal and, where its binding asks for
    approval, the user approved the recorded challenge before it expired. *)
Theorem dispatched_at_most_once n cs w (w' := run n cs w) :
  fresh w → Forall allowed cs →
  NoDup (ad_invocation_id <$> bw_host w')
  ∧ ∀ d, d ∈ bw_host w' → LeAuthorized d ∈ events w' ∧ LeDispatchAttempted (ad_invocation_id d) ∈ events w'
      ∧ justified may consents (events w') d.
Proof.
  intros Hf Hcs. destruct (run_books n cs w (fresh_books w Hf) Hcs) as [[_ Hj _ _ _ _ Ho Hlog] _].
  split; [done|]. intros d [? ?]%Hlog. auto.
Qed.

Lemma settled_status n cs w i h u :
  books_ok may consents (view_of w) (bw_host w) → Forall allowed cs → LeSettled i h u ∈ events w →
  let w' := run n cs w in
  books_ok may consents (view_of w') (bw_host w') ∧ legal i (events_of i (events w'))
  ∧ find_map as_settled (events_of i (events w')) = Some (h, u).
Proof.
  intros Hok Hcs Hin w'. destruct (run_books n cs w Hok Hcs) as [Hok' Hx].
  pose proof (bo_legal _ _ _ _ Hok' i) as Hl. split_and!; [done..|].
  apply (ls_settled_once _ _ _ (legal_status_of i _ Hl) i). apply elem_of_events_of. split; [|done].
  by eapply extends_elem.
Qed.

(** A settlement is final.  Once an invocation is settled, no run adds
    another settlement; settling it again succeeds only with the same outcome
    and changes nothing; a redelivered proposal is answered with that outcome
    and changes nothing. *)
Theorem settlement_final n cs1 cs2 w i h u (w1 := run n cs1 w) (w2 := run n cs2 w1) :
  fresh w → Forall allowed cs1 → Forall allowed cs2 → LeSettled i h u ∈ events w1 →
  (∀ h' u', LeSettled i h' u' ∈ events w2 → (h', u') = (h, u))
  ∧ (∀ h' u' w3, broker_settle i h' u' w2 = (w3, Ok ()) → (h', u') = (h, u) ∧ view_of w3 = view_of w2)
  ∧ (∀ m p now w3 dec, i = invocation_id_of (bp_proposal_id p) → propose self m p now w2 = (w3, Ok dec) →
       dec = BdAlreadySettled h ∧ view_of w3 = view_of w2).
Proof.
  intros Hf Hcs1 Hcs2 Hin. destruct (run_books n cs1 w (fresh_books w Hf) Hcs1) as [Hok1 _].
  assert (legal i (events_of i (events w2)) ∧ find_map as_settled (events_of i (events w2)) = Some (h, u)) as [Hl Hset]
    by (by apply settled_status). clearbody w2. clear dependent w1.
  split_and!.
  - intros h' u' Hin'. pose proof (ls_settled_once _ _ _ (legal_status_of i _ Hl) i h' u') as Hs. simpl in Hs.
    rewrite Hset in Hs. assert (Some (h, u) = Some (h', u')) by (apply Hs; by apply elem_of_events_of). by simplify_eq.
  - intros h' u' w3 Hs. unfold broker_settle in Hs. run_inv Hs.
    match goal with Hr : ledger_events _ _ = _ |- _ => apply read_events in Hr as [Hv Hes] end.
    rewrite (Hes _ eq_refl), Hset in Hs. run_inv Hs. boolify. by simplify_eq.
  - intros m p now w3 dec -> Hp. eapply (propose_replays _ _ _ _ _ (BdAlreadySettled h)) in Hp as [Hv Hd];
      [split; [by apply Hd|done]|]. unfold replay_decision. by rewrite Hset.
Qed.

(** Proposing again is answered with the same decision and changes nothing,
    at whatever time, also after a crash that lost the answer. *)
Theorem propose_idempotent n cs w m p now now' w1 dec w2 r (w0 := run n cs w) :
  fresh w → Forall allowed cs → may m →
  propose self m p now w0 = (w1, Ok dec) → propose self m p now' w1 = (w2, r) →
  view_of w2 = view_of w1 ∧ ∀ dec', r = Ok dec' → dec' = dec.
Proof.
  intros Hf Hcs Hm H1' H2'. destruct (run_books n cs w (fresh_books w Hf) Hcs) as [Hok _].
  destruct (propose_decides self may consents m p now Hm w0 w1 (Ok dec) Hok I H1') as (_ & _ & Hd).
  destruct (Hd dec eq_refl) as [Hrep _]. by eapply propose_replays.
Qed.

(** Delivery drains the outbox: when it reports success, it counts every
    dispatch that was pending when it began, and each of them is delivered. *)
Theorem deliver_drains n cs w k w1 (w0 := run n cs w) :
  fresh w → Forall allowed cs → deliver_dispatches (nested_host self behave n) w0 = (w1, Ok k) →
  (∃ os, k = len os ∧ ∀ o, o ∈ os ↔ ∃ key, v_dispatches (view_of w0) !! key = Some (o, false))
  ∧ ∀ key o, v_dispatches (view_of w0) !! key = Some (o, false) → v_dispatches (view_of w1) !! key = Some (o, true).
Proof.
  intros Hf Hcs Hd.
  assert (books_ok may consents (view_of w0) (bw_host w0)) as Hok by (by apply run_books; [apply fresh_books|]).
  pose proof (nested_host_ok self may consents behave n behave_allowed) as Hhost. clearbody w0.
  unfold deliver_dispatches, mbind, stm_bind in Hd.
  destruct (broker_pending_dispatches w0) as [w' [os|e]] eqn:Hp; [|done].
  destruct (pending_authorized may consents w0 w' (Ok os) Hok I Hp) as (Hok' & _ & Hau).
  assert (view_of w' = view_of w0 ∧ ∀ o, o ∈ os ↔ ∃ key, v_dispatches (view_of w0) !! key = Some (o, false)) as [Hv Hos].
  { unfold broker_pending_dispatches, on_ledger in Hp. call_inv. apply il_pending_ok in Hp as [? Hos]. naive_solver. }
  destruct (deliver_each_keeps may consents _ os 0 Hhost w' w1 (Ok k) Hok' (Hau os eq_refl) Hd) as (Hok1 & Hx & Hk).
  destruct (Hk k eq_refl) as [-> Hall]. split; [by exists os|]. intros key o Hkey.
  destruct (Hall o) as [o' Ho']; [by apply Hos; eauto|].
  destruct (bo_dispatches _ _ _ _ Hok key o false Hkey) as (-> & _). rewrite <-Hv in Hkey.
  destruct (ex_dispatches _ _ Hx _ _ _ Hkey) as (b & Hb & _). by simplify_eq.
Qed.
End run.
End theorems.

(** ** A run over the memory ledger

    The first write fails; one proposal needs no approval, the other is
    approved; the host delivers again from within its first dispatch. *)

Module DemoBroker.
Import (hints) Demo.
Definition manifest : AuthorityManifest :=
  MkManifest id:"manifest.demo"
    [MkCapability id:"cap.a" "1" true true ArNever; MkCapability id:"cap.b" "1" true true ArPerInvocation] "demo".
Definition proposal (i cap : StableId) : BrokerProposalV1 := MkBrokerProposal i id:"run" id:"node" 1 cap "sha256:00".
Definition p1 : BrokerProposalV1 := proposal id:"p1" id:"cap.a".
Definition p2 : BrokerProposalV1 := proposal id:"p2" id:"cap.b".
Definition i1 : StableId := invocation_id_of id:"p1".
Definition i2 : StableId := invocation_id_of id:"p2".
Definition response : ApprovalResponseV1 :=
  MkResponse i2 (approval_nonce id:"p2" id:"manifest.demo") true 5.

Abbreviation W := (world MemoryLedger () (list ApprovedDispatchV1)).
Abbreviation bcall := (broker_call (L:=MemoryLedger) (P:=())).
Definition broker : DurableInvocationBroker () := broker_new 10.
Definition start : W := MkWorld (MkMemoryLedger [] ∅ ∅ true false) () [].
Definition behave : ApprovedDispatchV1 → W → list bcall * result BrokerError DeliveryAcceptanceV1 := λ d _,
  (if bool_decide (ad_invocation_id d = i1) then [BcDeliverFor i2] else [], Ok DaAccepted).
Definition proposing : list bcall :=
  [BcPropose manifest p1 0; BcPropose manifest p1 0; BcPropose manifest p2 0; BcResolve manifest response].
Definition settling : list bcall := [BcDeliverFor i1; BcProgress i1 1 "h"; BcSettle i1 "out" false].
Definition may (m : AuthorityManifest) : Prop := m = manifest.
Definition consents (r : ApprovalResponseV1) : Prop := r = response.

Lemma start_fresh : fresh start.
Proof. done. Qed.
Lemma behave_ok d (w : W) : Forall (allowed may consents) (behave d w).1.
Proof. unfold behave. simpl. case_bool_decide; by repeat constructor. Qed.
Lemma proposing_ok : Forall (allowed may consents) proposing.
Proof. by repeat constructor. Qed.
Lemma settling_ok : Forall (allowed may consents) (proposing ++ settling).
Proof. by repeat constructor. Qed.
End DemoBroker.

Section broker_witnesses.
Import (hints) Demo.
Import DemoBroker.

Lemma broker_histories_legal_witness :
  legal i1 (events_of i1 (v_events (view_of (run broker behave 1 (proposing ++ settling) start))))
  ∧ length (events_of i1 (v_events (view_of (run broker behave 1 (proposing ++ settling) start)))) = 6%nat.
Proof.
  split; [|vm_compute; reflexivity].
  apply (broker_histories_legal broker may consents behave behave_ok 1 (proposing ++ settling) start
           start_fresh settling_ok).
Defined.

Lemma dispatched_at_most_once_witness :
  NoDup (ad_invocation_id <$> bw_host (run broker behave 1 (proposing ++ [BcDeliver; BcDeliver]) start))
  ∧ length (bw_host (run broker behave 1 (proposing ++ [BcDeliver; BcDeliver]) start)) = 2%nat.
Proof.
  split; [|vm_compute; reflexivity].
  apply (dispatched_at_most_once broker may consents behave behave_ok 1 (proposing ++ [BcDeliver; BcDeliver]) start
           start_fresh). by repeat constructor.
Defined.

Lemma settlement_final_witness : ∃ w2 : W,
  (∀ h u w3, broker_settle i1 h u w2 = (w3, Ok ()) → (h, u) = ("out", false))
  ∧ is_ok (broker_settle i1 "out" false w2).2 = true.
Proof.
  set (w1 := run broker behave 1 (proposing ++ settling) start).
  assert (find_map as_settled (events_of i1 (v_events (view_of w1))) = Some ("out", false)) as Hs
    by (vm_compute; reflexivity).
  apply find_map_Some in Hs as (x & Hx%elem_of_events_of & Hset). destruct Hx as [Hx Hi].
  destruct x; try discriminate Hset. injection Hset as -> ->. simpl in Hi. subst invocation_id.
  destruct (settlement_final broker may consents behave behave_ok 1 (proposing ++ settling) [BcDeliver] start i1
    "out" false start_fresh settling_ok ltac:(by repeat constructor) Hx) as (_ & Hf & _).
  exists (run broker behave 1 [BcDeliver] w1). split; [|vm_compute; reflexivity].
  intros h u w3 Hw. by destruct (Hf h u w3 Hw).
Defined.

Lemma propose_idempotent_witness : ∃ (w1 w2 : W) dec,
  propose broker manifest p2 3 (run broker behave 0 proposing start) = (w1, Ok dec)
  ∧ propose broker manifest p2 99 w1 = (w2, Ok dec) ∧ view_of w2 = view_of w1.
Proof.
  destruct (propose broker manifest p2 3 (run broker behave 0 proposing start)) as [w1 r1] eqn:E1.
  destruct (propose broker manifest p2 99 w1) as [w2 r2] eqn:E2.
  assert (is_ok r1 = true ∧ is_ok r2 = true) as [H1 H2].
  { change r1 with (w1, r1).2. change r2 with (w2, r2).2. rewrite <-E1, <-E2. change w1 with (w1, r1).1.
    rewrite <-E1. vm_compute. split; reflexivity. }
  destruct r1 as [dec|]; [|discriminate H1]. destruct r2 as [dec'|]; [|discriminate H2].
  destruct (propose_idempotent broker may consents behave behave_ok 0 proposing start manifest p2 3 99 w1 dec w2 (Ok dec')
    start_fresh proposing_ok eq_refl E1 E2) as [Hv Hd].
  exists w1, w2, dec. split; [reflexivity|]. split; [rewrite <-(Hd dec' eq_refl); exact E2|exact Hv].
Defined.

Lemma deliver_drains_witness : ∃ (w1 : W) k,
  deliver_dispatches (nested_host broker behave 0) (run broker behave 0 proposing start) = (w1, Ok k)
  ∧ (∀ key o, v_dispatches (view_of (run broker behave 0 proposing start)) !! key = Some (o, false) →
       v_dispatches (view_of w1) !! key = Some (o, true))
  ∧ k = 2.
Proof.
  destruct (deliver_dispatches (nested_host broker behave 0) (run broker behave 0 proposing start)) as [w1 r] eqn:E.
  assert (r = Ok 2) as Hr by (change r with (w1, r).2; rewrite <-E; vm_compute; reflexivity). subst r.
  exists w1, 2. split; [reflexivity|]. split; [|reflexivity].
  exact (proj2 (deliver_drains broker may consents behave behave_ok 0 proposing start 2 w1 start_fresh proposing_ok E)).
Defined.
End broker_witnesses.
