(* ===== verification/Lifecycle.v ===== *)
(** * The run lifecycle ([crates/aworkit-trusted-core/src/lifecycle.rs])

    [ChatAggregate], the compatibility state machine of a chat, and
    [RunAggregateV1], the event-sourced truth about one run: a command is
    decided against the aggregate ([decide]), the event it produces is
    applied ([apply_event], guarded by [can_apply]) and appended to the
    history; [fold] rebuilds an aggregate from a history.  Definitions only;
    the theorems are in [LifecycleProofs]. *)
From S2P Require Export AuthorityProofs.

(** ** Chats *)

Inductive ChatState : Type :=
| CsDraft | CsActive | CsWaitingInput | CsWaitingApproval | CsPaused | CsCancelling
| CsCancelled | CsCompleted | CsFailed.
#[export] Instance ChatState_eq_dec : EqDecision ChatState.
Proof. solve_decision. Defined.

Definition chat_is_terminal (s : ChatState) : bool :=
  match s with CsCancelled | CsCompleted | CsFailed => true | _ => false end.

Inductive WaitReason : Type := WrInput | WrApproval.
#[export] Instance WaitReason_eq_dec : EqDecision WaitReason.
Proof. solve_decision. Defined.

Inductive ChatCommand : Type :=
| CcStart (snapshot_hash : string)
| CcQueueInput (input_id : StableId)
| CcBeginAttempt (attempt_id : StableId)
| CcWait (reason : WaitReason)
| CcApprove
| CcResume
| CcPause
| CcCancel
| CcCancelled
| CcComplete
| CcFail (retryable : bool)
| CcRetry
| CcFork (child_chat_id : StableId)
| CcContinueFrom (parent_chat_id : StableId).

Inductive ChatEvent : Type :=
| CeStarted (snapshot_hash : string)
| CeInputQueued (input_id : StableId)
| CeAttemptBegan (attempt_id : StableId)
| CeWaited (reason : WaitReason)
| CeApproved
| CeResumed
| CePaused
| CeCancellationRequested
| CeCancelled
| CeCompleted
| CeFailed (retryable : bool)
| CeRetried
| CeForked (child_chat_id : StableId)
| CeContinued (parent_chat_id : StableId).

Record ChatAggregate : Type := MkChat {
  ch_chat_id : StableId;
  ch_state : ChatState;
  ch_snapshot_hash : option string;
  ch_queued_inputs : list StableId;
  ch_events : list ChatEvent;
  ch_retryable_failure : bool
}.
Definition ChatAggregate_new (chat_id : StableId) : ChatAggregate :=
  MkChat chat_id CsDraft None [] [] false.

Definition ch_set_state (s : ChatState) (c : ChatAggregate) : ChatAggregate :=
  MkChat (ch_chat_id c) s (ch_snapshot_hash c) (ch_queued_inputs c) (ch_events c) (ch_retryable_failure c).
Definition ch_set_snapshot (h : string) (c : ChatAggregate) : ChatAggregate :=
  MkChat (ch_chat_id c) (ch_state c) (Some h) (ch_queued_inputs c) (ch_events c) (ch_retryable_failure c).
Definition ch_push_input (i : StableId) (c : ChatAggregate) : ChatAggregate :=
  MkChat (ch_chat_id c) (ch_state c) (ch_snapshot_hash c) (ch_queued_inputs c ++ [i]) (ch_events c)
    (ch_retryable_failure c).
Definition ch_set_retryable (b : bool) (c : ChatAggregate) : ChatAggregate :=
  MkChat (ch_chat_id c) (ch_state c) (ch_snapshot_hash c) (ch_queued_inputs c) (ch_events c) b.
Definition ch_push_event (e : ChatEvent) (c : ChatAggregate) : ChatAggregate :=
  MkChat (ch_chat_id c) (ch_state c) (ch_snapshot_hash c) (ch_queued_inputs c) (ch_events c ++ [e])
    (ch_retryable_failure c).

Inductive LifecycleError : Type := LcIllegalTransition (state : ChatState).

(** The arms of [ChatAggregate::apply]: the new state and the event of a
    command whose guard holds. *)
Definition chat_arm (command : ChatCommand) (c : ChatAggregate) : option (ChatAggregate * ChatEvent) :=
  let state := ch_state c in
  match command with
  | CcStart h =>
      if bool_decide (state = CsDraft) && negb (str_is_empty h)
      then Some (ch_set_snapshot h (ch_set_state CsActive c), CeStarted h) else None
  | CcQueueInput i =>
      if negb (chat_is_terminal state) then Some (ch_push_input i c, CeInputQueued i) else None
  | CcBeginAttempt a => if bool_decide (state = CsActive) then Some (c, CeAttemptBegan a) else None
  | CcWait WrInput =>
      if bool_decide (state = CsActive)
      then Some (ch_set_state CsWaitingInput c, CeWaited WrInput) else None
  | CcWait WrApproval =>
      if bool_decide (state = CsActive)
      then Some (ch_set_state CsWaitingApproval c, CeWaited WrApproval) else None
  | CcApprove =>
      if bool_decide (state = CsWaitingApproval) then Some (ch_set_state CsActive c, CeApproved) else None
  | CcResume =>
      match state with
      | CsPaused | CsWaitingInput => Some (ch_set_state CsActive c, CeResumed)
      | _ => None
      end
  | CcPause =>
      match state with
      | CsActive | CsWaitingInput | CsWaitingApproval => Some (ch_set_state CsPaused c, CePaused)
      | _ => None
      end
  | CcCancel =>
      if negb (chat_is_terminal state)
      then Some (ch_set_state CsCancelling c, CeCancellationRequested) else None
  | CcCancelled =>
      if bool_decide (state = CsCancelling) then Some (ch_set_state CsCancelled c, CeCancelled) else None
  | CcComplete =>
      if bool_decide (state = CsActive) then Some (ch_set_state CsCompleted c, CeCompleted) else None
  | CcFail retryable =>
      match state with
      | CsActive | CsCancelling =>
          Some (ch_set_retryable retryable (ch_set_state CsFailed c), CeFailed retryable)
      | _ => None
      end
  | CcRetry =>
      if bool_decide (state = CsFailed) && ch_retryable_failure c
      then Some (ch_set_state CsActive c, CeRetried) else None
  | CcFork child => if chat_is_terminal state then Some (c, CeForked child) else None
  | CcContinueFrom parent =>
      if bool_decide (state = CsDraft) then Some (c, CeContinued parent) else None
  end.
Definition chat_apply (command : ChatCommand) : stm ChatAggregate LifecycleError ChatEvent :=
  c ← read;
  '(c', event) ← lift (ok_or (chat_arm command c) (LcIllegalTransition (ch_state c)));
  _ ← modify (λ _, c');
  _ ← modify (ch_push_event event);
  mret event.

(** ** Runs *)

Inductive RunStateV1 : Type :=
| RnDraft | RnBlockedDraft | RnResolving | RnStarting | RnActive | RnWaitingInput
| RnWaitingApproval | RnPausing | RnPaused | RnCancelling | RnRehydrating | RnBlocked
| RnCancelled | RnCompleted | RnFailed.
#[export] Instance RunStateV1_eq_dec : EqDecision RunStateV1.
Proof. solve_decision. Defined.

Definition run_is_terminal (s : RunStateV1) : bool :=
  match s with RnCancelled | RnCompleted | RnFailed => true | _ => false end.

Inductive RunCommandKindV1 : Type :=
| RcStartResolved (input_id snapshot_id : StableId) (snapshot_hash : string)
| RcRejectStart (code : string)
| RcAcceptFirstInput (input_id : StableId)
| RcFreezeSnapshot (snapshot_id : StableId) (snapshot_hash : string)
| RcWorkerReady (generation : ProcessGeneration)
| RcQueueInput (input_id : StableId)
| RcDeliverInput (input_id : StableId)
| RcBeginAttempt (attempt_id operation_id : StableId)
| RcFinishAttempt (attempt_id : StableId) (outcome : string)
| RcWait (reason : WaitReason)
| RcResolveApproval (approval_id : StableId) (approved : bool)
| RcRequestPause
| RcWorkerQuiesced (checkpoint_hash : string)
| RcResume
| RcRequestCancel
| RcWorkerStopped
| RcWorkerCrashed (generation : ProcessGeneration) (checkpoint_hash : option string)
    (uncertain_invocations : list StableId)
| RcRehydrationReady (generation : ProcessGeneration)
| RcResolveBlockedInvocation (invocation_id : StableId)
| RcComplete
| RcFail (code : string) (retryable : bool)
| RcRetry
| RcFork (child_chat_id : StableId)
| RcContinueFrom (parent_chat_id : StableId).

Record RunCommandV1 : Type := MkRunCommand {
  rc_command_id : StableId;
  rc_expected_version : N;
  rc_command : RunCommandKindV1
}.

Inductive RunEventKindV1 : Type :=
| ReChatStarted (input_id snapshot_id : StableId) (snapshot_hash : string)
| ReStartRejected (code : string)
| ReFirstInputAccepted (input_id : StableId)
| ReSnapshotFrozen (snapshot_id : StableId) (snapshot_hash : string)
| ReWorkerGenerationReady (generation : ProcessGeneration)
| ReInputQueued (input_id : StableId)
| ReInputDelivered (input_id : StableId)
| ReAttemptBegan (attempt_id operation_id : StableId)
| ReAttemptFinished (attempt_id : StableId) (outcome : string)
| ReWaited (reason : WaitReason)
| ReApprovalResolved (approval_id : StableId) (approved : bool)
| RePauseRequested
| RePaused (checkpoint_hash : string)
| ReResumed
| ReCancellationRequested
| ReCancelled
| ReWorkerGenerationCrashed (generation : ProcessGeneration) (checkpoint_hash : option string)
    (uncertain_invocations : list StableId)
| ReRehydrationReady (generation : ProcessGeneration)
| ReBlockedInvocationResolved (invocation_id : StableId)
| ReCompleted
| ReFailed (code : string) (retryable : bool)
| ReRetried
| ReForked (child_chat_id : StableId)
| ReContinued (parent_chat_id : StableId).

Record CommittedRunEventV1 : Type := MkRunEvent {
  cr_sequence : N;
  cr_command_id : StableId;
  cr_event : RunEventKindV1
}.
Inductive RunCommandOutcomeV1 : Type :=
| RoApplied (event : CommittedRunEventV1)
| RoDuplicate (event : CommittedRunEventV1).
Record AttemptStateV1 : Type := MkAttemptState {
  at_operation_id : StableId;
  at_outcome : option string
}.

Record RunAggregateV1 : Type := MkRun {
  ra_chat_id : StableId;
  ra_run_id : StableId;
  ra_version : N;
  ra_state : RunStateV1;
  ra_snapshot_id : option StableId;
  ra_snapshot_hash : option string;
  ra_generation : option ProcessGeneration;
  ra_queued_inputs : list StableId;
  ra_active_attempts : gmap string AttemptStateV1;
  ra_last_checkpoint_hash : option string;
  ra_uncertain_invocations : gset string;
  ra_retryable_failure : bool;
  ra_parent_chat_id : option StableId;
  ra_child_chat_ids : list StableId;
  ra_start_rejection : option string;
  ra_rehydration_target : option RunStateV1;
  ra_events : list CommittedRunEventV1;
  ra_command_digests : gmap string string
}.
Definition RunAggregateV1_new (chat_id run_id : StableId) : RunAggregateV1 :=
  MkRun chat_id run_id 0 RnDraft None None None [] ∅ None ∅ false None [] None None [] ∅.

(** *** Field updates *)

Definition ra_set_state (s : RunStateV1) (a : RunAggregateV1) : RunAggregateV1 :=
  let 'MkRun c r v _ si sh g q at_ ck u rf p ch sr t es ds := a in
  MkRun c r v s si sh g q at_ ck u rf p ch sr t es ds.
Definition ra_set_version (v : N) (a : RunAggregateV1) : RunAggregateV1 :=
  let 'MkRun c r _ s si sh g q at_ ck u rf p ch sr t es ds := a in
  MkRun c r v s si sh g q at_ ck u rf p ch sr t es ds.
Definition ra_set_snapshot (i : StableId) (h : string) (a : RunAggregateV1) : RunAggregateV1 :=
  let 'MkRun c r v s _ _ g q at_ ck u rf p ch sr t es ds := a in
  MkRun c r v s (Some i) (Some h) g q at_ ck u rf p ch sr t es ds.
Definition ra_set_generation (g : ProcessGeneration) (a : RunAggregateV1) : RunAggregateV1 :=
  let 'MkRun c r v s si sh _ q at_ ck u rf p ch sr t es ds := a in
  MkRun c r v s si sh (Some g) q at_ ck u rf p ch sr t es ds.
Definition ra_set_inputs (q : list StableId) (a : RunAggregateV1) : RunAggregateV1 :=
  let 'MkRun c r v s si sh g _ at_ ck u rf p ch sr t es ds := a in
  MkRun c r v s si sh g q at_ ck u rf p ch sr t es ds.
Definition ra_set_attempts (m : gmap string AttemptStateV1) (a : RunAggregateV1) : RunAggregateV1 :=
  let 'MkRun c r v s si sh g q _ ck u rf p ch sr t es ds := a in
  MkRun c r v s si sh g q m ck u rf p ch sr t es ds.
Definition ra_set_checkpoint (ck : option string) (a : RunAggregateV1) : RunAggregateV1 :=
  let 'MkRun c r v s si sh g q at_ _ u rf p ch sr t es ds := a in
  MkRun c r v s si sh g q at_ ck u rf p ch sr t es ds.
Definition ra_set_uncertain (u : gset string) (a : RunAggregateV1) : RunAggregateV1 :=
  let 'MkRun c r v s si sh g q at_ ck _ rf p ch sr t es ds := a in
  MkRun c r v s si sh g q at_ ck u rf p ch sr t es ds.
Definition ra_set_retryable (b : bool) (a : RunAggregateV1) : RunAggregateV1 :=
  let 'MkRun c r v s si sh g q at_ ck u _ p ch sr t es ds := a in
  MkRun c r v s si sh g q at_ ck u b p ch sr t es ds.
Definition ra_set_parent (p : StableId) (a : RunAggregateV1) : RunAggregateV1 :=
  let 'MkRun c r v s si sh g q at_ ck u rf _ ch sr t es ds := a in
  MkRun c r v s si sh g q at_ ck u rf (Some p) ch sr t es ds.
Definition ra_push_child (i : StableId) (a : RunAggregateV1) : RunAggregateV1 :=
  let 'MkRun c r v s si sh g q at_ ck u rf p ch sr t es ds := a in
  MkRun c r v s si sh g q at_ ck u rf p (ch ++ [i]) sr t es ds.
Definition ra_set_rejection (sr : option string) (a : RunAggregateV1) : RunAggregateV1 :=
  let 'MkRun c r v s si sh g q at_ ck u rf p ch _ t es ds := a in
  MkRun c r v s si sh g q at_ ck u rf p ch sr t es ds.
Definition ra_set_target (t : option RunStateV1) (a : RunAggregateV1) : RunAggregateV1 :=
  let 'MkRun c r v s si sh g q at_ ck u rf p ch sr _ es ds := a in
  MkRun c r v s si sh g q at_ ck u rf p ch sr t es ds.
Definition ra_set_digests (ds : gmap string string) (a : RunAggregateV1) : RunAggregateV1 :=
  let 'MkRun c r v s si sh g q at_ ck u rf p ch sr t es _ := a in
  MkRun c r v s si sh g q at_ ck u rf p ch sr t es ds.
Definition ra_push_event (e : CommittedRunEventV1) (a : RunAggregateV1) : RunAggregateV1 :=
  let 'MkRun c r v s si sh g q at_ ck u rf p ch sr t es ds := a in
  MkRun c r v s si sh g q at_ ck u rf p ch sr t (es ++ [e]) ds.

(** *** Guards *)

Definition is_sha256 (value : string) : bool :=
  (str_len value =? 64) && all_bytes is_ascii_hexdigit value.
Definition valid_label (value : string) : bool :=
  negb (trim_is_empty value) && (str_len value <=? 256) && negb (any_control value).
Definition accepts_queued_input (s : RunStateV1) : bool :=
  match s with
  | RnStarting | RnActive | RnWaitingInput | RnWaitingApproval | RnPausing | RnPaused
  | RnRehydrating => true
  | _ => false
  end.

Definition in_draft (s : RunStateV1) : bool :=
  match s with RnDraft | RnBlockedDraft => true | _ => false end.
Definition rejectable (s : RunStateV1) : bool :=
  match s with RnDraft | RnBlockedDraft | RnResolving => true | _ => false end.
Definition pausable (s : RunStateV1) : bool :=
  match s with RnActive | RnWaitingInput | RnWaitingApproval => true | _ => false end.
Definition deliverable (s : RunStateV1) : bool :=
  match s with RnActive | RnWaitingInput => true | _ => false end.
Definition crashable (s : RunStateV1) : bool :=
  match s with
  | RnActive | RnWaitingInput | RnWaitingApproval | RnPausing | RnPaused | RnCancelling => true
  | _ => false
  end.
(** [ids.iter().map(as_str).collect::<BTreeSet<_>>().len() == ids.len()] *)
Definition distinct_ids (ids : list StableId) : bool :=
  bs_len (list_to_set (as_str <$> ids)) =? len ids.
Definition unfinished_attempt (a : RunAggregateV1) (attempt_id : StableId) : bool :=
  match ra_active_attempts a !! as_str attempt_id with
  | Some attempt => negb (is_some (at_outcome attempt))
  | None => false
  end.
Definition crash_admitted (a : RunAggregateV1) (generation : ProcessGeneration)
    (checkpoint : option string) (uncertain : list StableId) : bool :=
  crashable (ra_state a) && bool_decide (ra_generation a = Some generation)
  && match checkpoint with Some hash => is_sha256 hash | None => true end
  && distinct_ids uncertain.
Definition generation_advances (a : RunAggregateV1) (generation : ProcessGeneration) : bool :=
  match ra_generation a with Some current => current <? generation | None => true end.

Inductive LifecycleErrorV1 : Type :=
| LvIllegalTransition (state : RunStateV1)
| LvVersionConflict (expected actual : N)
| LvCommandIdentityConflict
| LvCorruptHistory
| LvVersionExhausted
| LvEncoding.

Implicit Type a : RunAggregateV1.

(** *** Deciding a command *)

Definition decide_run (command : RunCommandKindV1) a : result LifecycleErrorV1 RunEventKindV1 :=
  let state := ra_state a in
  let guarded (b : bool) (event : RunEventKindV1) :=
    if b then Ok event else Err (LvIllegalTransition state) in
  match command with
  | RcStartResolved i si sh =>
      guarded (in_draft state && negb (is_some (ra_snapshot_hash a)) && is_sha256 sh)
        (ReChatStarted i si sh)
  | RcRejectStart code =>
      guarded (rejectable state && negb (is_some (ra_snapshot_hash a)) && valid_label code)
        (ReStartRejected code)
  | RcAcceptFirstInput i => guarded (in_draft state) (ReFirstInputAccepted i)
  | RcFreezeSnapshot si sh =>
      guarded (bool_decide (state = RnResolving) && is_sha256 sh && negb (is_some (ra_snapshot_hash a)))
        (ReSnapshotFrozen si sh)
  | RcWorkerReady g =>
      guarded (bool_decide (state = RnStarting) && (0 <? g)) (ReWorkerGenerationReady g)
  | RcQueueInput i =>
      guarded (accepts_queued_input state && negb (bool_decide (i ∈ ra_queued_inputs a)))
        (ReInputQueued i)
  | RcDeliverInput i =>
      guarded (deliverable state && bool_decide (head (ra_queued_inputs a) = Some i))
        (ReInputDelivered i)
  | RcBeginAttempt at_ op =>
      guarded (bool_decide (state = RnActive) && negb (bt_contains (ra_active_attempts a) (as_str at_)))
        (ReAttemptBegan at_ op)
  | RcFinishAttempt at_ outcome =>
      guarded (bool_decide (state = RnActive) && unfinished_attempt a at_ && valid_label outcome)
        (ReAttemptFinished at_ outcome)
  | RcWait reason => guarded (bool_decide (state = RnActive)) (ReWaited reason)
  | RcResolveApproval i approved =>
      guarded (bool_decide (state = RnWaitingApproval)) (ReApprovalResolved i approved)
  | RcRequestPause => guarded (pausable state) RePauseRequested
  | RcWorkerQuiesced ck =>
      guarded (bool_decide (state = RnPausing) && is_sha256 ck) (RePaused ck)
  | RcResume => guarded (bool_decide (state = RnPaused)) ReResumed
  | RcRequestCancel => guarded (negb (run_is_terminal state)) ReCancellationRequested
  | RcWorkerStopped => guarded (bool_decide (state = RnCancelling)) ReCancelled
  | RcWorkerCrashed g ck uncertain =>
      guarded (crash_admitted a g ck uncertain) (ReWorkerGenerationCrashed g ck uncertain)
  | RcRehydrationReady g =>
      guarded (bool_decide (state = RnRehydrating) && generation_advances a g) (ReRehydrationReady g)
  | RcResolveBlockedInvocation i =>
      guarded (bool_decide (state = RnBlocked) && bs_contains (ra_uncertain_invocations a) (as_str i))
        (ReBlockedInvocationResolved i)
  | RcComplete => guarded (bool_decide (state = RnActive)) ReCompleted
  | RcFail code retryable =>
      guarded (negb (run_is_terminal state) && valid_label code) (ReFailed code retryable)
  | RcRetry => guarded (bool_decide (state = RnFailed) && ra_retryable_failure a) ReRetried
  | RcFork child => guarded (run_is_terminal state) (ReForked child)
  | RcContinueFrom parent =>
      guarded (bool_decide (state = RnDraft) && negb (is_some (ra_parent_chat_id a)))
        (ReContinued parent)
  end.

(** *** Applying an event *)

Definition can_apply (event : RunEventKindV1) a : bool :=
  let state := ra_state a in
  match event with
  | ReChatStarted _ _ sh => in_draft state && negb (is_some (ra_snapshot_hash a)) && is_sha256 sh
  | ReStartRejected code =>
      rejectable state && negb (is_some (ra_snapshot_hash a)) && valid_label code
  | ReFirstInputAccepted i => in_draft state && negb (bool_decide (i ∈ ra_queued_inputs a))
  | ReSnapshotFrozen _ sh =>
      bool_decide (state = RnResolving) && negb (is_some (ra_snapshot_hash a)) && is_sha256 sh
  | ReWorkerGenerationReady g => bool_decide (state = RnStarting) && (0 <? g)
  | ReInputQueued i => accepts_queued_input state && negb (bool_decide (i ∈ ra_queued_inputs a))
  | ReInputDelivered i => deliverable state && bool_decide (head (ra_queued_inputs a) = Some i)
  | ReAttemptBegan at_ _ =>
      bool_decide (state = RnActive) && negb (bt_contains (ra_active_attempts a) (as_str at_))
  | ReAttemptFinished at_ outcome =>
      bool_decide (state = RnActive) && valid_label outcome && unfinished_attempt a at_
  | ReWaited _ => bool_decide (state = RnActive)
  | ReApprovalResolved _ _ => bool_decide (state = RnWaitingApproval)
  | RePauseRequested => pausable state
  | RePaused ck => bool_decide (state = RnPausing) && is_sha256 ck
  | ReResumed => bool_decide (state = RnPaused)
  | ReCancellationRequested => negb (run_is_terminal state)
  | ReCancelled => bool_decide (state = RnCancelling)
  | ReWorkerGenerationCrashed g ck uncertain => crash_admitted a g ck uncertain
  | ReRehydrationReady g => bool_decide (state = RnRehydrating) && generation_advances a g
  | ReBlockedInvocationResolved i =>
      bool_decide (state = RnBlocked) && bs_contains (ra_uncertain_invocations a) (as_str i)
  | ReCompleted => bool_decide (state = RnActive)
  | ReFailed code _ => negb (run_is_terminal state) && valid_label code
  | ReRetried => bool_decide (state = RnFailed) && ra_retryable_failure a
  | ReForked child => run_is_terminal state && negb (bool_decide (child ∈ ra_child_chat_ids a))
  | ReContinued _ => bool_decide (state = RnDraft) && negb (is_some (ra_parent_chat_id a))
  end.

(** The state a crashed run returns to. *)
Definition crash_target (s : RunStateV1) : RunStateV1 :=
  match s with
  | RnWaitingInput => RnWaitingInput
  | RnWaitingApproval => RnWaitingApproval
  | RnPaused | RnPausing => RnPaused
  | RnCancelling => RnCancelling
  | _ => RnActive
  end.
Definition set_is_empty (s : gset string) : bool := bool_decide (s = ∅).

(** The arms of [apply_event]'s match. *)
Definition reduce (event : RunEventKindV1) : stm RunAggregateV1 LifecycleErrorV1 () :=
  a ← read;
  match event with
  | ReChatStarted i si sh =>
      modify (λ a, ra_set_state RnStarting (ra_set_rejection None
        (ra_set_snapshot si sh (ra_set_inputs (ra_queued_inputs a ++ [i]) a))))
  | ReStartRejected code =>
      modify (λ a, ra_set_state RnBlockedDraft (ra_set_inputs [] (ra_set_rejection (Some code) a)))
  | ReFirstInputAccepted i =>
      modify (λ a, ra_set_inputs (ra_queued_inputs a ++ [i])
        (ra_set_rejection None (ra_set_state RnResolving a)))
  | ReSnapshotFrozen si sh => modify (λ a, ra_set_state RnStarting (ra_set_snapshot si sh a))
  | ReWorkerGenerationReady g | ReRehydrationReady g =>
      modify (λ a, ra_set_state (default RnActive (ra_rehydration_target a))
        (ra_set_target None (ra_set_generation g a)))
  | ReInputQueued i => modify (λ a, ra_set_inputs (ra_queued_inputs a ++ [i]) a)
  | ReInputDelivered i =>
      _ ← reject_if (negb (bool_decide (head (ra_queued_inputs a) = Some i))) LvCorruptHistory;
      modify (λ a, ra_set_state RnActive (ra_set_inputs (tail (ra_queued_inputs a)) a))
  | ReAttemptBegan at_ op =>
      modify (λ a, ra_set_attempts
        (<[as_str at_ := MkAttemptState op None]> (ra_active_attempts a)) a)
  | ReAttemptFinished at_ outcome =>
      attempt ← lift (ok_or (ra_active_attempts a !! as_str at_) LvCorruptHistory);
      modify (λ a, ra_set_attempts
        (<[as_str at_ := MkAttemptState (at_operation_id attempt) (Some outcome)]>
           (ra_active_attempts a)) a)
  | ReWaited WrInput => modify (ra_set_state RnWaitingInput)
  | ReWaited WrApproval => modify (ra_set_state RnWaitingApproval)
  | ReApprovalResolved _ _ => modify (ra_set_state RnActive)
  | RePauseRequested => modify (ra_set_state RnPausing)
  | RePaused ck => modify (λ a, ra_set_state RnPaused (ra_set_checkpoint (Some ck) a))
  | ReResumed => modify (ra_set_state RnActive)
  | ReCancellationRequested => modify (ra_set_state RnCancelling)
  | ReCancelled => modify (ra_set_state RnCancelled)
  | ReWorkerGenerationCrashed _ ck uncertain =>
      let uncertain : gset string := list_to_set (as_str <$> uncertain) in
      modify (λ a, ra_set_state (if set_is_empty uncertain && is_some ck then RnRehydrating else RnBlocked)
        (ra_set_uncertain uncertain (ra_set_checkpoint ck
          (ra_set_target (Some (crash_target (ra_state a))) a))))
  | ReBlockedInvocationResolved i =>
      let uncertain := ra_uncertain_invocations a ∖ {[as_str i]} in
      _ ← modify (ra_set_uncertain uncertain);
      if set_is_empty uncertain && is_some (ra_last_checkpoint_hash a)
      then modify (ra_set_state RnRehydrating) else mret ()
  | ReCompleted => modify (ra_set_state RnCompleted)
  | ReFailed _ retryable => modify (λ a, ra_set_state RnFailed (ra_set_retryable retryable a))
  | ReRetried =>
      modify (λ a, ra_set_state RnRehydrating (ra_set_target (Some RnActive) (ra_set_retryable false a)))
  | ReForked child => modify (ra_push_child child)
  | ReContinued parent => modify (ra_set_parent parent)
  end.

Definition apply_event (committed : CommittedRunEventV1) : stm RunAggregateV1 LifecycleErrorV1 () :=
  a ← read;
  _ ← reject_if (negb (cr_sequence committed =? saturating_add u64_max (ra_version a) 1)) LvCorruptHistory;
  _ ← reject_if (negb (can_apply (cr_event committed) a)) LvCorruptHistory;
  _ ← reduce (cr_event committed);
  modify (ra_set_version (cr_sequence committed)).

(** *** Commands and histories *)

Section run_handle.
Context `{Sha256, !Serialize RunCommandV1}.

Definition command_digest (command : RunCommandV1) : result LifecycleErrorV1 string :=
  bytes ← ok_or (jcs_to_vec command) LvEncoding;
  Ok (sha256_hex bytes).

Definition run_handle (command : RunCommandV1) : stm RunAggregateV1 LifecycleErrorV1 RunCommandOutcomeV1 :=
  digest ← lift (command_digest command);
  a ← read;
  let key := as_str (rc_command_id command) in
  match ra_command_digests a !! key with
  | Some previous =>
      _ ← reject_if (negb (bool_decide (previous = digest))) LvCommandIdentityConflict;
      event ← lift (ok_or (List.find (λ e, bool_decide (cr_command_id e = rc_command_id command)) (ra_events a))
                      LvCorruptHistory);
      mret (RoDuplicate event)
  | None =>
      _ ← reject_if (negb (rc_expected_version command =? ra_version a))
            (LvVersionConflict (rc_expected_version command) (ra_version a));
      event_kind ← lift (decide_run (rc_command command) a);
      sequence ← lift (ok_or (checked_add u64_max (ra_version a) 1) LvVersionExhausted);
      let event := MkRunEvent sequence (rc_command_id command) event_kind in
      _ ← apply_event event;
      _ ← modify (λ a, ra_set_digests (<[key := digest]> (ra_command_digests a)) a);
      _ ← modify (ra_push_event event);
      mret (RoApplied event)
  end.
End run_handle.

Definition fold_event (event : CommittedRunEventV1) : stm RunAggregateV1 LifecycleErrorV1 () :=
  a ← read;
  let key := as_str (cr_command_id event) in
  _ ← reject_if (negb (cr_sequence event =? saturating_add u64_max (ra_version a) 1)
                 || bt_contains (ra_command_digests a) key) LvCorruptHistory;
  _ ← apply_event event;
  _ ← modify (λ a, ra_set_digests
        (<[key := "folded:" +:+ pretty (cr_sequence event)]> (ra_command_digests a)) a);
  modify (ra_push_event event).
Definition fold_events (events : list CommittedRunEventV1) : stm RunAggregateV1 LifecycleErrorV1 () :=
  _ ← map_stm fold_event events; mret ().
Definition run_fold (chat_id run_id : StableId) (events : list CommittedRunEventV1) :
    result LifecycleErrorV1 RunAggregateV1 :=
  match fold_events events (RunAggregateV1_new chat_id run_id) with
  | (a, Ok _) => Ok a
  | (_, Err e) => Err e
  end.
