(* ===== verification/LifecycleProofs.v ===== *)
(** * The run lifecycle: invariant, permanence of committed facts, replay

    Every command handled from a new aggregate keeps [run_inv], adds to the
    committed facts without changing one ([run_evolves]), and the history it
    leaves rebuilds the aggregate. *)
From S2P Require Export Lifecycle.

Implicit Type a : RunAggregateV1.

(** ** Applying an event *)

Create HintDb lifecycle.

Definition reduced (event : RunEventKindV1) a : RunAggregateV1 := (reduce event a).1.

(** Unfolds one arm of the reducer; splits the cases of its event. *)
Ltac open_reduce :=
  unfold reduced, reduce, mbind, stm_bind, read, lift, ok_or, reject_if, fail_if, modify, mret, stm_ret; simpl.
Ltac event_cases event := destruct event as [| | | | | | ?i| |?at_ ?o|[]| | | | | | | | |?i| | | | |].

Lemma reduce_ok event a :
  can_apply event a = true → reduce event a = (reduced event a, Ok ()).
Proof.
  unfold reduced. event_cases event; try done; simpl.
  - rewrite andb_true_iff. intros [_ Hh]. unfold reduce, mbind, stm_bind, read, reject_if. by rewrite Hh.
  - rewrite !andb_true_iff. intros [_ Hu]. unfold unfinished_attempt in Hu.
    unfold reduce, mbind, stm_bind, read, lift. by destruct (ra_active_attempts a !! as_str at_).
  - intros _. unfold reduce, mbind, stm_bind, read, modify. by destruct (set_is_empty _ && is_some _).
Qed.

Lemma apply_event_ok e a a' u :
  apply_event e a = (a', Ok u) ↔
  cr_sequence e = saturating_add u64_max (ra_version a) 1 ∧ can_apply (cr_event e) a = true
  ∧ a' = ra_set_version (cr_sequence e) (reduced (cr_event e) a).
Proof.
  unfold apply_event, mbind, stm_bind, reject_if, fail_if, read. simpl.
  destruct (N.eqb_spec (cr_sequence e) (saturating_add u64_max (ra_version a) 1)); simpl; [|naive_solver].
  destruct (can_apply (cr_event e) a) eqn:Hc; simpl; [|naive_solver].
  rewrite reduce_ok by done. unfold modify. destruct u. naive_solver.
Qed.
Lemma apply_event_err e a a' er : apply_event e a = (a', Err er) → a' = a ∧ er = LvCorruptHistory.
Proof.
  unfold apply_event, mbind, stm_bind, reject_if, fail_if, read. simpl.
  destruct (negb (cr_sequence e =? _)); simpl; [naive_solver|].
  destruct (can_apply (cr_event e) a) eqn:Hc; simpl; [|naive_solver].
  rewrite reduce_ok by done. unfold modify. naive_solver.
Qed.

(** The bookkeeping fields are not read or written by the reducer. *)
Lemma can_apply_digests event d a : can_apply event (ra_set_digests d a) = can_apply event a.
Proof. by destruct a, event. Qed.
Lemma reduced_digests event d a : reduced event (ra_set_digests d a) = ra_set_digests d (reduced event a).
Proof.
  destruct a; event_cases event; try done; open_reduce; by repeat case_match.
Qed.
Lemma reduced_frame event a :
  ra_chat_id (reduced event a) = ra_chat_id a ∧ ra_run_id (reduced event a) = ra_run_id a
  ∧ ra_version (reduced event a) = ra_version a ∧ ra_events (reduced event a) = ra_events a
  ∧ ra_command_digests (reduced event a) = ra_command_digests a.
Proof.
  destruct a; event_cases event; try done; open_reduce; by repeat case_match.
Qed.

(** [commit d e a]: the event [e] applied and recorded under the digest [d]. *)
Definition commit (d : string) (e : CommittedRunEventV1) a : RunAggregateV1 :=
  let a' := ra_set_version (cr_sequence e) (reduced (cr_event e) a) in
  ra_push_event e (ra_set_digests (<[as_str (cr_command_id e) := d]> (ra_command_digests a')) a').

Lemma commit_frame d e a :
  ra_chat_id (commit d e a) = ra_chat_id a ∧ ra_run_id (commit d e a) = ra_run_id a
  ∧ ra_version (commit d e a) = cr_sequence e ∧ ra_events (commit d e a) = ra_events a ++ [e]
  ∧ ra_command_digests (commit d e a) = <[as_str (cr_command_id e) := d]> (ra_command_digests a).
Proof.
  unfold commit. pose proof (reduced_frame (cr_event e) a) as Hf. destruct (reduced (cr_event e) a).
  simpl in *. destruct_and!. by subst.
Qed.

(** ** What a command does *)

Section handle_facts.
Context `{Sha256, !Serialize RunCommandV1}.

Inductive handled (c : RunCommandV1) a : RunAggregateV1 → result LifecycleErrorV1 RunCommandOutcomeV1 → Prop :=
| handled_err er : handled c a a (Err er)
| handled_again d e :
    command_digest c = Ok d → ra_command_digests a !! as_str (rc_command_id c) = Some d →
    List.find (λ e, bool_decide (cr_command_id e = rc_command_id c)) (ra_events a) = Some e →
    handled c a a (Ok (RoDuplicate e))
| handled_new d e :
    command_digest c = Ok d → ra_command_digests a !! as_str (rc_command_id c) = None →
    rc_expected_version c = ra_version a → decide_run (rc_command c) a = Ok (cr_event e) →
    cr_sequence e = ra_version a + 1 → cr_sequence e ≤ u64_max →
    cr_command_id e = rc_command_id c → can_apply (cr_event e) a = true →
    handled c a (commit d e a) (Ok (RoApplied e)).

Lemma checked_add_some max x y z : checked_add max x y = Some z ↔ z = x + y ∧ x + y ≤ max.
Proof. unfold checked_add. case_match; boolify; naive_solver lia. Qed.

Lemma run_handle_handled c a : handled c a (run_handle c a).1 (run_handle c a).2.
Proof.
  destruct (run_handle c a) as [a' [o|er]] eqn:Hh; simpl; unfold run_handle in Hh.
  - run_inv Hh. destruct (ra_command_digests _ !! _) as [d|] eqn:Hd; run_inv Hh.
    + boolify. subst. by eapply handled_again.
    + boolify. match goal with Ha : apply_event _ _ = _ |- _ => apply apply_event_ok in Ha as (Hseq & Hcan & ->) end.
      match goal with Hk : checked_add _ _ _ = _ |- _ => apply checked_add_some in Hk as [-> Hb] end.
      match goal with |- handled _ _ _ (Ok (RoApplied ?e)) => refine (handled_new c a _ e _ _ _ _ _ _ _ _) end;
        simpl; try done.
  - assert (a' = a) as ->; [|by constructor].
    err_inv Hh; [done|]. destruct (ra_command_digests _ !! _); err_inv Hh; try done.
    by apply apply_event_err in Hh as [-> _].
Qed.
End handle_facts.

(** ** The invariant *)

(** The inputs a history accepted since the last rejected start, those it
    delivered, and the worker generations it announced. *)
Definition accept_input (acc : list StableId) (e : CommittedRunEventV1) : list StableId :=
  match cr_event e with
  | ReChatStarted i _ _ | ReFirstInputAccepted i | ReInputQueued i => acc ++ [i]
  | ReStartRejected _ => []
  | _ => acc
  end.
Definition accepted_inputs (events : list CommittedRunEventV1) : list StableId :=
  foldl accept_input [] events.
Definition delivered_inputs (events : list CommittedRunEventV1) : list StableId :=
  omap (λ e, match cr_event e with ReInputDelivered i => Some i | _ => None end) events.
Definition ready_generations (events : list CommittedRunEventV1) : list N :=
  omap (λ e, match cr_event e with
             | ReWorkerGenerationReady g | ReRehydrationReady g => Some g
             | _ => None
             end) events.

(** The states before the first worker is ready. *)
Definition before_worker (s : RunStateV1) : bool :=
  match s with RnDraft | RnBlockedDraft | RnResolving | RnStarting => true | _ => false end.
(** The states a rehydrated run can return to. *)
Definition resumable_state (s : RunStateV1) : bool :=
  match s with
  | RnActive | RnWaitingInput | RnWaitingApproval | RnPaused | RnCancelling => true
  | _ => false
  end.
Definition awaiting_replacement (s : RunStateV1) : bool :=
  match s with RnRehydrating | RnBlocked => true | _ => false end.

(** What the state says of the other fields, in the history [es]. *)
Record state_inv a (es : list CommittedRunEventV1) : Prop := {
  si_fresh : before_worker (ra_state a) = true → ra_generation a = None ∧ ra_rehydration_target a = None;
  si_unfrozen : rejectable (ra_state a) = true → ra_snapshot_hash a = None ∧ delivered_inputs es = [];
  si_draft : in_draft (ra_state a) = true → ra_queued_inputs a = [];
  si_starting : ra_state a = RnStarting → is_Some (ra_snapshot_hash a);
  si_snapshot : ∀ h, ra_snapshot_hash a = Some h → is_sha256 h = true;
  si_snapshot_id : is_Some (ra_snapshot_id a) ↔ is_Some (ra_snapshot_hash a);
  si_inputs : NoDup (ra_queued_inputs a);
  si_fifo : accepted_inputs es = delivered_inputs es ++ ra_queued_inputs a;
  si_generations : StronglySorted N.lt (ready_generations es);
  si_generation : ra_generation a = last (ready_generations es);
  si_target : awaiting_replacement (ra_state a) = true →
    ∃ t, ra_rehydration_target a = Some t ∧ resumable_state t = true;
  si_blocked : ra_state a = RnBlocked →
    ra_uncertain_invocations a ≠ ∅ ∨ ra_last_checkpoint_hash a = None;
  si_children : NoDup (ra_child_chat_ids a)
}.
Record run_inv a : Prop := {
  ri_version : ra_version a = len (ra_events a);
  ri_bound : ra_version a ≤ u64_max;
  ri_sequence : ∀ n e, ra_events a !! n = Some e → cr_sequence e = N.of_nat n + 1;
  ri_commands : NoDup (cr_command_id <$> ra_events a);
  ri_digests : ∀ k, is_Some (ra_command_digests a !! k) ↔ k ∈ as_str <$> (cr_command_id <$> ra_events a);
  ri_state : state_inv a (ra_events a)
}.

Lemma run_inv_new chat run : run_inv (RunAggregateV1_new chat run).
Proof.
  split; simpl; try done; try (by constructor); try (by intros []).
  - intros k. rewrite lookup_empty. split; [intros []; discriminate|set_solver].
  - split; simpl; try done; by constructor.
Qed.

Lemma accepted_snoc es e : accepted_inputs (es ++ [e]) = accept_input (accepted_inputs es) e.
Proof. unfold accepted_inputs. by rewrite foldl_app. Qed.
Lemma delivered_snoc es e :
  delivered_inputs (es ++ [e]) =
  delivered_inputs es ++ match cr_event e with ReInputDelivered i => [i] | _ => [] end.
Proof. unfold delivered_inputs. rewrite omap_app. simpl. by destruct (cr_event e). Qed.
Lemma ready_snoc es e :
  ready_generations (es ++ [e]) =
  ready_generations es ++ match cr_event e with
                          | ReWorkerGenerationReady g | ReRehydrationReady g => [g]
                          | _ => []
                          end.
Proof. unfold ready_generations. rewrite omap_app. simpl. by destruct (cr_event e). Qed.

(** The part of the invariant that concerns the history. *)
Lemma commit_history d e a :
  run_inv a → cr_sequence e = ra_version a + 1 → cr_sequence e ≤ u64_max →
  ra_command_digests a !! as_str (cr_command_id e) = None →
  ra_version (commit d e a) = len (ra_events (commit d e a))
  ∧ ra_version (commit d e a) ≤ u64_max
  ∧ (∀ n e', ra_events (commit d e a) !! n = Some e' → cr_sequence e' = N.of_nat n + 1)
  ∧ NoDup (cr_command_id <$> ra_events (commit d e a))
  ∧ (∀ k, is_Some (ra_command_digests (commit d e a) !! k)
        ↔ k ∈ as_str <$> (cr_command_id <$> ra_events (commit d e a))).
Proof.
  intros I Hs Hb Hd. destruct (commit_frame d e a) as (_ & _ & -> & -> & ->).
  rewrite !fmap_app. cbn [fmap list_fmap]. split_and!; [|done|..].
  - rewrite Hs, (ri_version a I). unfold len. rewrite length_app. simpl. lia.
  - intros n e' [Hl|[Hge Hl]]%lookup_app_Some; [by apply (ri_sequence a I)|].
    apply list_lookup_singleton_Some in Hl as [Hn <-].
    rewrite Hs, (ri_version a I). unfold len. lia.
  - apply NoDup_app. split_and!; [apply (ri_commands a I)| |apply NoDup_singleton].
    intros i Hi ->%list_elem_of_singleton. apply (list_elem_of_fmap_2 as_str) in Hi.
    apply (ri_digests a I) in Hi as [x Hx]. congruence.
  - intros k. rewrite elem_of_app, list_elem_of_singleton, <-(ri_digests a I).
    destruct (decide (k = as_str (cr_command_id e))) as [->|Hne].
    + rewrite lookup_insert_eq. naive_solver.
    + rewrite lookup_insert_ne by done. naive_solver.
Qed.

Lemma StronglySorted_snoc (l : list N) g :
  StronglySorted N.lt l → (∀ g', last l = Some g' → g' < g) → StronglySorted N.lt (l ++ [g]).
Proof.
  intros Hl Hg. induction Hl as [|x l Hl IH Hx]; simpl; [by repeat constructor|].
  destruct l as [|y l]; simpl in *; [repeat constructor; by apply Hg|].
  constructor; [by apply IH|]. change (Forall (N.lt x) ((y :: l) ++ [g])). apply Forall_app. split; [done|].
  apply Forall_singleton. destruct (last (y :: l)) as [g'|] eqn:El.
  - rewrite Forall_forall in Hx. apply last_Some_elem_of in El as Hin. etrans; [by apply Hx|by apply Hg].
  - by apply last_None in El.
Qed.


(** ** The reducer keeps the invariant *)

Lemma reduced_delivered i q a :
  ra_queued_inputs a = i :: q →
  reduced (ReInputDelivered i) a = ra_set_state RnActive (ra_set_inputs q a).
Proof. intros Hq. open_reduce. rewrite Hq. simpl. by rewrite bool_decide_true. Qed.
Lemma reduced_finished i o t a :
  ra_active_attempts a !! as_str i = Some t →
  reduced (ReAttemptFinished i o) a =
  ra_set_attempts (<[as_str i := MkAttemptState (at_operation_id t) (Some o)]> (ra_active_attempts a)) a.
Proof. intros Ht. open_reduce. by rewrite Ht. Qed.
Lemma reduced_resolved i a :
  reduced (ReBlockedInvocationResolved i) a =
  let u := ra_uncertain_invocations a ∖ {[as_str i]} in
  if set_is_empty u && is_some (ra_last_checkpoint_hash a)
  then ra_set_state RnRehydrating (ra_set_uncertain u a) else ra_set_uncertain u a.
Proof. open_reduce. by case_match. Qed.

Lemma NoDup_snoc {A} (l : list A) x : NoDup l → x ∉ l → NoDup (l ++ [x]).
Proof. intros Hl Hx. apply NoDup_app. split_and!; [done| |apply NoDup_singleton]. set_solver. Qed.

(** Decides the implications of the invariant whose premise is about a known
    state. *)
Ltac settle :=
  repeat match goal with
  | H : true = true → _ |- _ => specialize (H eq_refl)
  | H : false = true → _ |- _ => clear H
  | H : ?x = ?x → _ |- _ => specialize (H eq_refl)
  | H : ?x = ?y → _ |- _ => assert (x ≠ y) as _ by discriminate; clear H
  end.

Definition input_event (ev : RunEventKindV1) : bool :=
  match ev with
  | ReChatStarted _ _ _ | ReFirstInputAccepted _ | ReInputQueued _ | ReStartRejected _ | ReInputDelivered _ => true
  | _ => false
  end.
Lemma accepted_other es e : input_event (cr_event e) = false → accepted_inputs (es ++ [e]) = accepted_inputs es.
Proof. rewrite accepted_snoc. unfold accept_input. by destruct (cr_event e). Qed.

Ltac open_state a :=
  destruct a as [c r v s si sh g q attempts ck u rf p ch sr t es' ds]; destruct s; try discriminate;
  simpl in *; settle; unfold reduced; simpl;
  split; simpl; rewrite ?accepted_snoc, ?delivered_snoc, ?ready_snoc, ?app_nil_r; cbn [cr_event];
  rewrite ?app_nil_r; unfold accept_input; cbn [cr_event]; try done; try discriminate.

#[local] Hint Resolve NoDup_snoc NoDup_singleton NoDup_nil_2 : lifecycle.

Lemma state_inputs e a es :
  state_inv a es → can_apply (cr_event e) a = true → input_event (cr_event e) = true →
  state_inv (reduced (cr_event e) a) (es ++ [e]).
Proof.
  intros [I6 I7 I8 I9 I10 I11 I12 I13 I14 I15 I16 I17 I18] Hc Hi. destruct e as [seq cid ev].
  destruct ev; try discriminate Hi; simpl in Hc; boolify; destruct_and?; cbn [cr_event].
  - open_state a; boolify; simplify_eq/=; auto with lifecycle; try by intros ? [= <-].
    all: by rewrite I13, app_nil_r.
  - open_state a; boolify; destruct_and?; simplify_eq/=; auto with lifecycle.
  - open_state a; boolify; destruct_and?; simplify_eq/=; auto with lifecycle; by rewrite I13, app_nil_r.
  - open_state a; boolify; auto with lifecycle; by rewrite I13, app_assoc.
  - destruct (ra_queued_inputs a) as [|i q'] eqn:Hq; [done|]. simplify_eq/=.
    rewrite (reduced_delivered _ _ _ Hq). apply NoDup_cons in I12 as [_ ?].
    open_state a; by rewrite I13, <-app_assoc.
Qed.

Lemma blocked_reason (s : gset string) (ck : option string) :
  set_is_empty s && is_some ck = false → s ≠ ∅ ∨ ck = None.
Proof. unfold set_is_empty. destruct ck; simpl; boolify; naive_solver. Qed.

Lemma commit_state e a es :
  state_inv a es → can_apply (cr_event e) a = true → state_inv (reduced (cr_event e) a) (es ++ [e]).
Proof.
  intros I Hc. destruct (input_event (cr_event e)) eqn:Hi; [by apply state_inputs|].
  destruct I as [I6 I7 I8 I9 I10 I11 I12 I13 I14 I15 I16 I17 I18].
  destruct e as [seq cid ev]; destruct ev; try discriminate Hi; simpl in Hc; cbn [cr_event]; boolify; destruct_and?.
  all: try by open_state a.
  - open_state a; by intros ? [= <-].
  - open_state a; destruct_and?; subst; simpl in *; try done; [|by rewrite last_snoc].
    apply StronglySorted_snoc; [done|]. by rewrite <-I15.
  - match goal with Hu : unfinished_attempt _ _ = true |- _ => unfold unfinished_attempt in Hu end.
    destruct (ra_active_attempts a !! as_str attempt_id) as [x|] eqn:Hx; [|done].
    rewrite (reduced_finished _ _ _ _ Hx). by open_state a.
  - destruct reason; by open_state a.
  - match goal with Hx : crash_admitted _ _ _ _ = true |- _ => unfold crash_admitted in Hx end.
    boolify; destruct_and?.
    destruct (set_is_empty (list_to_set (as_str <$> uncertain_invocations)) && is_some checkpoint_hash) eqn:Hb;
      open_state a; rewrite ?Hb in *; try done; eauto; intros _.
    all: by apply blocked_reason.
  - destruct (ra_rehydration_target a) as [x|] eqn:Hx.
    + open_state a; destruct I16 as (? & [= <-] & Ht); subst t; destruct x; try done; try (by rewrite last_snoc).
      all: apply StronglySorted_snoc; [done|]; intros g' Hg; unfold generation_advances in *; simpl in *;
        rewrite I15, Hg in *; by boolify.
    + open_state a; destruct I16 as (? & ? & _); congruence.
  - rewrite reduced_resolved. cbv zeta.
    destruct (set_is_empty (ra_uncertain_invocations a ∖ {[as_str invocation_id]})
      && is_some (ra_last_checkpoint_hash a)) eqn:Hb; open_state a. intros _. by apply blocked_reason.
  - open_state a; eauto.
  - open_state a; auto with lifecycle.
Qed.

Lemma commit_fields d e a :
  state_inv (reduced (cr_event e) a) (ra_events a ++ [e]) →
  state_inv (commit d e a) (ra_events (commit d e a)).
Proof.
  destruct (commit_frame d e a) as (_ & _ & _ & -> & _). unfold commit.
  by destruct (reduced (cr_event e) a); intros []; split.
Qed.

Lemma commit_inv d e a :
  run_inv a → cr_sequence e = ra_version a + 1 → cr_sequence e ≤ u64_max →
  ra_command_digests a !! as_str (cr_command_id e) = None → can_apply (cr_event e) a = true →
  run_inv (commit d e a).
Proof.
  intros I Hs Hb Hd Hc. destruct (commit_history d e a I Hs Hb Hd) as (? & ? & ? & ? & ?).
  split; try done. apply commit_fields, commit_state; [apply (ri_state a I)|done].
Qed.
