(* ===== verification/LifecycleTheorems.v ===== *)
(** * The run lifecycle: the theorems

    Runs of commands from a new aggregate: the invariant holds, committed
    facts are permanent, a command takes effect once, a refused command
    changes nothing, and the history rebuilds the aggregate. *)
From S2P Require Export LifecycleProofs.

Implicit Type a b : RunAggregateV1.

(** ** Permanent facts *)

(** An attempt keeps its operation, and its outcome once it has one. *)
Definition attempt_extends (t t' : AttemptStateV1) : Prop :=
  at_operation_id t' = at_operation_id t ∧ (is_Some (at_outcome t) → t' = t).
#[export] Instance attempt_extends_preorder : PreOrder attempt_extends.
Proof.
  split; [by intros t; split|]. intros t1 t2 t3 [E1 F1] [E2 F2]. split; [congruence|].
  intros Hs. specialize (F1 Hs). subst. auto.
Qed.

Record facts_kept a b : Prop := {
  fk_snapshot : is_Some (ra_snapshot_hash a) →
    ra_snapshot_hash b = ra_snapshot_hash a ∧ ra_snapshot_id b = ra_snapshot_id a;
  fk_generation : ∀ g, ra_generation a = Some g → ∃ g', ra_generation b = Some g' ∧ g ≤ g';
  fk_attempts : ∀ k t, ra_active_attempts a !! k = Some t →
    ∃ t', ra_active_attempts b !! k = Some t' ∧ attempt_extends t t';
  fk_children : ra_child_chat_ids a `prefix_of` ra_child_chat_ids b;
  fk_parent : is_Some (ra_parent_chat_id a) → ra_parent_chat_id b = ra_parent_chat_id a;
  fk_final : ra_state a = RnCancelled ∨ ra_state a = RnCompleted → ra_state b = ra_state a
}.
#[export] Instance facts_kept_preorder : PreOrder facts_kept.
Proof.
  split.
  - intros a. split; try done.
    + intros g Hg. exists g. split; [done|lia].
    + intros k t Ht. by exists t.
  - intros a b c [A5 A6 A7 A8 A9 A10] [B5 B6 B7 B8 B9 B10]. split.
    + intros Hs. destruct (A5 Hs) as [E1 E2]. rewrite <-E1 in Hs. destruct (B5 Hs). by split; etrans.
    + intros g Hg. destruct (A6 g Hg) as (g1 & Hg1 & ?). destruct (B6 g1 Hg1) as (g2 & ? & ?).
      exists g2. split; [done|lia].
    + intros k t Ht. destruct (A7 k t Ht) as (t1 & Ht1 & E1).
      destruct (B7 k t1 Ht1) as (t2 & Ht2 & E2). exists t2. split; [done|by etrans].
    + by etrans.
    + intros Hp. specialize (A9 Hp). rewrite <-A9 in Hp. specialize (B9 Hp). congruence.
    + intros Hf. specialize (A10 Hf). rewrite <-A10 in Hf. specialize (B10 Hf). congruence.
Qed.

Record run_evolves a b : Prop := {
  ev_chat : ra_chat_id b = ra_chat_id a;
  ev_run : ra_run_id b = ra_run_id a;
  ev_events : ra_events a `prefix_of` ra_events b;
  ev_digests : ra_command_digests a ⊆ ra_command_digests b;
  ev_facts : facts_kept a b
}.
#[export] Instance run_evolves_preorder : PreOrder run_evolves.
Proof.
  split; [by intros a; split|]. intros a b c [A1 A2 A3 A4 A5] [B1 B2 B3 B4 B5].
  split; try congruence; by etrans.
Qed.

Lemma attempts_kept (m : gmap string AttemptStateV1) k t :
  m !! k = Some t → ∃ t', m !! k = Some t' ∧ attempt_extends t t'.
Proof. intros Ht. by exists t. Qed.
(** Splits the facts of an event applied in a known state. *)
Ltac keep_facts a :=
  destruct a as [c r v s si sh g q attempts ck u rf p ch sr t es' ds]; destruct s; try discriminate;
  simpl in *; settle; unfold reduced; split; simpl; try done; try (by intros []); eauto using attempts_kept, prefix_app_r, N.le_refl.

Lemma attempt_inserted (m : gmap string AttemptStateV1) i x :
  (∀ t, m !! i = Some t → attempt_extends t x) →
  ∀ k t, m !! k = Some t → ∃ t', <[i := x]> m !! k = Some t' ∧ attempt_extends t t'.
Proof.
  intros Hx k t Ht. destruct (decide (k = i)) as [->|Hne].
  - rewrite lookup_insert_eq. eauto.
  - rewrite lookup_insert_ne by done. by apply attempts_kept.
Qed.

Lemma reduced_facts event a es :
  state_inv a es → can_apply event a = true → facts_kept a (reduced event a).
Proof.
  intros I Hc. pose proof (si_fresh a es I) as Hf. clear I.
  destruct event; simpl in Hc; boolify; destruct_and?.
  all: try by keep_facts a.
  - keep_facts a; destruct sh; try discriminate; by intros [].
  - keep_facts a; destruct sh; try discriminate; by intros [].
  - keep_facts a. intros g' ->. by destruct Hf.
  - destruct (ra_queued_inputs a) as [|i q'] eqn:Hq; [done|]. simplify_eq/=.
    rewrite (reduced_delivered _ _ _ Hq). keep_facts a.
  - keep_facts a. apply attempt_inserted. congruence.
  - match goal with Hu : unfinished_attempt _ _ = true |- _ => unfold unfinished_attempt in Hu end.
    destruct (ra_active_attempts a !! as_str attempt_id) as [x|] eqn:Hx; [|done].
    rewrite (reduced_finished _ _ _ _ Hx). keep_facts a. apply attempt_inserted. intros t0 Ht.
    rewrite Hx in Ht. injection Ht as <-. split; [done|]. simpl. destruct (at_outcome x); [discriminate|by intros []].
  - destruct reason; by keep_facts a.
  - keep_facts a. intros g' ->. eexists. split; [done|].
    match goal with Hb : generation_advances _ _ = true |- _ => unfold generation_advances in Hb; simpl in Hb end.
    boolify. lia.
  - rewrite reduced_resolved. cbv zeta. case_match; keep_facts a.
  - keep_facts a. destruct p; [discriminate|by intros []].
Qed.

Lemma commit_evolves d e a :
  run_inv a → ra_command_digests a !! as_str (cr_command_id e) = None → can_apply (cr_event e) a = true →
  run_evolves a (commit d e a).
Proof.
  intros I Hd Hc. destruct (commit_frame d e a) as (E1 & E2 & _ & E4 & E5). split; [done..| | |].
  - rewrite E4. by apply prefix_app_r.
  - rewrite E5. by apply insert_subseteq.
  - trans (reduced (cr_event e) a); [by apply reduced_facts with (ra_events a), Hc; apply (ri_state a I)|].
    unfold commit. destruct (reduced (cr_event e) a). split; simpl; eauto using attempts_kept, N.le_refl.
Qed.

(** A command decided on a valid aggregate produces an event the reducer
    accepts, save for a fork that was already recorded. *)
Lemma decide_can_apply command a event :
  run_inv a → decide_run command a = Ok event →
  can_apply event a = true ∨ ∃ child, command = RcFork child ∧ child ∈ ra_child_chat_ids a.
Proof.
  intros I Hd. pose proof (si_draft a _ (ri_state a I)) as Hq. clear I.
  destruct command; simpl in Hd; case_match; simplify_eq/=; try (by left); boolify; destruct_and?.
  - left. by rewrite H, Hq, bool_decide_false by set_solver.
  - left. by rewrite H, H0, H1.
  - left. by rewrite H, H0, H1.
  - destruct (decide (child_chat_id ∈ ra_child_chat_ids a)); [by right; eauto|].
    left. by rewrite H, bool_decide_false.
Qed.

(** ** Runs of commands *)

Section runs.
Context `{Sha256, !Serialize RunCommandV1}.
Implicit Type c : RunCommandV1.

Definition run_commands (cs : list RunCommandV1) a : RunAggregateV1 :=
  foldl (λ a c, (run_handle c a).1) a cs.
Definition run_reachable a : Prop :=
  ∃ chat run cs, a = run_commands cs (RunAggregateV1_new chat run).

Lemma handle_step c a : run_inv a → run_inv (run_handle c a).1 ∧ run_evolves a (run_handle c a).1.
Proof.
  intros I. destruct (run_handle_handled c a) as [er|d e _ _ _|d e _ Hd _ _ Hs Hb Hi Hc]; [done..|].
  rewrite <-Hi in Hd. split; [by apply commit_inv|by apply commit_evolves].
Qed.
Lemma run_step cs a : run_inv a → run_inv (run_commands cs a) ∧ run_evolves a (run_commands cs a).
Proof.
  revert a. induction cs as [|c cs IH]; intros a I; simpl; [done|].
  destruct (handle_step c a I) as [I' E]. destruct (IH _ I') as [I'' E']. split; [done|by etrans].
Qed.
Lemma reachable_inv a : run_reachable a → run_inv a.
Proof. intros (chat & run & cs & ->). apply run_step, run_inv_new. Qed.

Lemma find_command e es :
  NoDup (cr_command_id <$> es) → e ∈ es →
  List.find (λ e', bool_decide (cr_command_id e' = cr_command_id e)) es = Some e.
Proof.
  induction es as [|x es IH]; simpl; [set_solver|].
  intros [Hx Hnd]%NoDup_cons [->|Hin]%elem_of_cons; [by rewrite bool_decide_true|].
  rewrite bool_decide_false; [by apply IH|]. intros Heq. apply Hx. rewrite Heq. by apply list_elem_of_fmap_2.
Qed.

(** A command whose event is in the history is answered with that event. *)
Lemma handle_duplicate c d e a :
  run_inv a → command_digest c = Ok d → ra_command_digests a !! as_str (rc_command_id c) = Some d →
  cr_command_id e = rc_command_id c → e ∈ ra_events a →
  run_handle c a = (a, Ok (RoDuplicate e)).
Proof.
  intros I Hc Hd Hi He. unfold run_handle, mbind, stm_bind, lift, read, reject_if. rewrite Hc, Hd.
  rewrite bool_decide_true by done. simpl. rewrite <-Hi, find_command; [done|apply (ri_commands a I)|done].
Qed.

(** ** Replaying a history *)

Lemma fold_event_ok e a a' u :
  fold_event e a = (a', Ok u) ↔
  cr_sequence e = saturating_add u64_max (ra_version a) 1
  ∧ ra_command_digests a !! as_str (cr_command_id e) = None ∧ can_apply (cr_event e) a = true
  ∧ a' = commit ("folded:" +:+ pretty (cr_sequence e)) e a.
Proof.
  split.
  - intros Hf. unfold fold_event in Hf. run_inv Hf. boolify; destruct_and?.
    match goal with Ha : apply_event _ _ = _ |- _ => apply apply_event_ok in Ha as (? & ? & ->) end. done.
  - intros (Hs & Hd & Hc & ->). unfold fold_event, mbind, stm_bind, read, reject_if.
    rewrite <-Hs, N.eqb_refl. unfold bt_contains. rewrite Hd. simpl.
    rewrite (proj2 (apply_event_ok e a _ ()) (conj Hs (conj Hc eq_refl))). by destruct u.
Qed.

Lemma fold_events_cons e es a : fold_events (e :: es) a = (fold_event e ≫= λ _, fold_events es) a.
Proof.
  unfold fold_events, mbind, stm_bind, mret, stm_ret. simpl. unfold mbind, stm_bind, mret, stm_ret.
  destruct (fold_event e a) as [a1 [u|er]]; [|done]. by destruct (map_stm fold_event es a1) as [a2 [us|er]].
Qed.
Lemma fold_events_snoc es e a a' u :
  fold_events (es ++ [e]) a = (a', Ok u) ↔
  ∃ a1, fold_events es a = (a1, Ok ()) ∧ fold_event e a1 = (a', Ok ()).
Proof.
  destruct u. revert a. induction es as [|x es IH]; intros a; simpl.
  - rewrite fold_events_cons, bind_ok. unfold fold_events at 1. simpl. split.
    + intros (a1 & [] & Hf & [= <-]). by exists a.
    + intros (a1 & [= <-] & Hf). by exists a', ().
  - rewrite fold_events_cons, bind_ok. split.
    + intros (a1 & [] & Hx & (a2 & H1 & H2)%IH). exists a2. rewrite fold_events_cons.
      split; [apply bind_ok; by exists a1, ()|done].
    + intros (a2 & H1 & H2). rewrite fold_events_cons in H1. apply bind_ok in H1 as (a1 & [] & Hx & H1).
      exists a1, (). split; [done|]. apply IH. eauto.
Qed.
Lemma run_fold_ok chat run es a :
  run_fold chat run es = Ok a ↔ fold_events es (RunAggregateV1_new chat run) = (a, Ok ()).
Proof. unfold run_fold. destruct (fold_events es _) as [a1 [[]|er]]; naive_solver. Qed.

Lemma commit_digests d d' ds e a :
  commit d e (ra_set_digests ds a) =
  ra_set_digests (<[as_str (cr_command_id e) := d]> ds) (commit d' e a).
Proof. unfold commit. rewrite reduced_digests. by destruct (reduced (cr_event e) a). Qed.

Lemma set_digests_read ds a : ra_command_digests (ra_set_digests ds a) = ds.
Proof. by destruct a. Qed.

(** The history of [a] rebuilds [a] up to the command digests, and knows the
    same commands. *)
Definition replays a : Prop :=
  ∃ ds, run_fold (ra_chat_id a) (ra_run_id a) (ra_events a) = Ok (ra_set_digests ds a)
        ∧ ∀ k, is_Some (ds !! k) ↔ is_Some (ra_command_digests a !! k).

Lemma commit_replays d e a :
  replays a → cr_sequence e = ra_version a + 1 → cr_sequence e ≤ u64_max →
  ra_command_digests a !! as_str (cr_command_id e) = None → can_apply (cr_event e) a = true →
  replays (commit d e a).
Proof.
  intros (ds & Hr & Hk) Hs Hb Hd Hc. apply run_fold_ok in Hr.
  destruct (commit_frame d e a) as (E1 & E2 & E3 & E4 & E5).
  eexists. rewrite E1, E2, E4, E5. split.
  - apply run_fold_ok, fold_events_snoc. eexists. split; [done|]. apply fold_event_ok.
    split_and!; [|by rewrite set_digests_read, eq_None_not_Some, Hk, Hd; intros []|by rewrite can_apply_digests|].
    + rewrite Hs. unfold saturating_add. destruct a; simpl in *. lia.
    + symmetry. apply commit_digests.
  - intros k. destruct (decide (k = as_str (cr_command_id e))) as [->|Hne].
    + rewrite !lookup_insert_eq. naive_solver.
    + by rewrite !lookup_insert_ne.
Qed.

Lemma run_replays cs a : replays a → replays (run_commands cs a).
Proof.
  revert a. induction cs as [|c cs IH]; intros a Hr; simpl; [done|]. apply IH.
  destruct (run_handle_handled c a) as [er|d e _ _ _|d e _ Hd _ _ Hs Hb Hi Hc]; [done..|].
  rewrite <-Hi in Hd. by apply commit_replays.
Qed.

(** A history that folds is a valid history. *)
Lemma fold_events_inv es chat run a :
  len es ≤ u64_max → run_fold chat run es = Ok a →
  run_inv a ∧ ra_events a = es ∧ ra_chat_id a = chat ∧ ra_run_id a = run
  ∧ ∀ k d, ra_command_digests a !! k = Some d → ∃ n : N, d = "folded:" +:+ pretty n.
Proof.
  rewrite run_fold_ok. revert a. induction es as [|e es IH] using rev_ind; intros a Hl Hf.
  - injection Hf as <-. split_and!; [apply run_inv_new|done..].
  - apply fold_events_snoc in Hf as (a1 & Hf & He). unfold len in *. rewrite length_app in Hl. simpl in Hl.
    destruct (IH a1) as (I & <- & <- & <- & Hds); [lia|done|].
    apply fold_event_ok in He as (Hs & Hd & Hc & ->).
    pose proof (ri_version a1 I) as Hv. unfold len in Hv. unfold saturating_add in Hs.
    destruct (commit_frame ("folded:" +:+ pretty (cr_sequence e)) e a1) as (E1 & E2 & E3 & E4 & E5).
    rewrite E5. split_and!; [apply commit_inv; auto; lia|done..|].
    intros k x. destruct (decide (k = as_str (cr_command_id e))) as [->|Hne].
    + rewrite lookup_insert_eq. intros [= <-]. eauto.
    + rewrite lookup_insert_ne by done. apply Hds.
Qed.

(** A valid aggregate reports a corrupt history only for a repeated fork. *)
Lemma handle_corrupt c a a' er :
  run_inv a → run_handle c a = (a', Err er) → er = LvCorruptHistory →
  ∃ child, rc_command c = RcFork child ∧ child ∈ ra_child_chat_ids a.
Proof.
  intros I Hh Her. unfold run_handle in Hh. err_inv Hh.
  - subst. unfold command_digest in *. destruct (jcs_to_vec c); done.
  - destruct (ra_command_digests a !! as_str (rc_command_id c)) as [d|] eqn:Hd; err_inv Hh; subst; try discriminate.
    + exfalso. assert (as_str (rc_command_id c) ∈ as_str <$> (cr_command_id <$> ra_events a)) as Hin
        by (apply (ri_digests a I); eauto).
      apply list_elem_of_fmap in Hin as (i & Hi & Hin). apply as_str_inj in Hi. subst i.
      apply list_elem_of_fmap in Hin as (e & He & Hin).
      match goal with Hf : ok_or _ _ = Err _ |- _ =>
        rewrite He, find_command in Hf; [discriminate|apply (ri_commands a I)|done] end.
    + destruct (rc_command c); simpl in *; case_match; discriminate.
    + destruct (checked_add _ _ _); discriminate.
    + boolify. match goal with Hk : checked_add _ _ _ = Some _ |- _ => apply checked_add_some in Hk as [-> Hb] end.
      match goal with Hk : decide_run _ _ = Ok _ |- _ => destruct (decide_can_apply _ _ _ I Hk) as [Hc|?]; [|done] end.
      exfalso. revert Hh. unfold apply_event, mbind, stm_bind, read, reject_if, fail_if, saturating_add.
      cbn [cr_sequence cr_event]. rewrite N.min_l by done. rewrite N.eqb_refl, Hc. simpl.
      rewrite reduce_ok by done. discriminate.
Qed.

(** ** The theorems *)

(** C5: The lifecycle invariant.  On every aggregate that commands can reach, the
    version counts the events and sequences run from 1; each command has at
    most one event; the inputs accepted since the last rejected start are the
    delivered ones, in that order, followed by the queue; the generations of
    the workers announced ready strictly increase and the last is the current
    one; a draft has no snapshot, a starting run has one, and a blocked run
    has an uncertain invocation or no checkpoint to resume from. *)
Theorem run_reachable_invariant a : run_reachable a → run_inv a.
Proof. apply reachable_inv. Qed.

(** Committed facts are permanent: whatever commands follow, the history is
    only extended, the frozen snapshot and the parent chat stay, worker
    generations never go back, attempts keep their operation and their first
    outcome, forks stay recorded, and a completed or cancelled run stays
    completed or cancelled. *)
Theorem run_facts_permanent a cs : run_reachable a → run_evolves a (run_commands cs a).
Proof. intros Hr. apply run_step, reachable_inv, Hr. Qed.

(** C6: Event sourcing is faithful: folding the history of any reachable
    aggregate succeeds and gives the aggregate back, field for field, except
    that the digests of its commands are replaced by placeholders for the
    same commands. *)
Theorem run_history_replays a : run_reachable a → replays a.
Proof.
  intros (chat & run & cs & ->). apply run_replays. exists ∅. split; [done|].
  intros k. simpl. by rewrite !lookup_empty.
Qed.

(** A command takes effect once: after it was applied, and after any further
    commands, sending it again changes nothing and returns the event it
    produced, which is the only event of the history under its id. *)
Theorem run_command_once a c e cs :
  run_reachable a → (run_handle c a).2 = Ok (RoApplied e) →
  let b := run_commands cs (run_handle c a).1 in
  run_handle c b = (b, Ok (RoDuplicate e))
  ∧ e ∈ ra_events b
  ∧ ∀ e', e' ∈ ra_events b → cr_command_id e' = rc_command_id c → e' = e.
Proof.
  intros I%reachable_inv Hh b. pose proof (run_handle_handled c a) as Hd. rewrite Hh in Hd.
  inversion Hd as [| |d e0 Hdig Hnone Hver Hdec Hs Hb Hi Hc Hcommit]; subst e0.
  destruct (commit_frame d e a) as (_ & _ & _ & Hev & Hds).
  destruct (handle_step c a I) as [I1 _]. destruct (run_step cs _ I1) as [I2 E]. fold b in I2, E.
  assert (e ∈ ra_events b) as Hin.
  { eapply elem_of_prefix; [|apply (ev_events _ _ E)]. rewrite <-Hcommit, Hev. set_solver. }
  split_and!; [|done|].
  - eapply handle_duplicate; try done. eapply lookup_weaken; [|apply (ev_digests _ _ E)].
    by rewrite <-Hcommit, Hds, Hi, lookup_insert_eq.
  - intros e' Hin' Hi'. pose proof (find_command e _ (ri_commands b I2) Hin) as F1.
    pose proof (find_command e' _ (ri_commands b I2) Hin') as F2. rewrite Hi', <-Hi in F2. congruence.
Qed.

(** A refused command leaves the aggregate entirely unchanged, and on an
    aggregate that commands built the history is reported corrupt in one case
    only: a fork to a child chat already forked to. *)
Theorem run_refusal_harmless a c a' er :
  run_reachable a → run_handle c a = (a', Err er) →
  a' = a
  ∧ (er = LvCorruptHistory → ∃ child, rc_command c = RcFork child ∧ child ∈ ra_child_chat_ids a).
Proof.
  intros I%reachable_inv Hh. split; [|by apply handle_corrupt with a'].
  pose proof (run_handle_handled c a) as Hd. rewrite Hh in Hd. by inversion Hd.
Qed.

(** Recovery forgets the digests: on an aggregate rebuilt from its history a
    repeated command is not recognised as a duplicate, but refused as if its
    id had been reused with other content. *)
Theorem redelivery_after_fold_refused `{!Sha256Laws} chat run es a c d e :
  len es ≤ u64_max → run_fold chat run es = Ok a → e ∈ es → cr_command_id e = rc_command_id c →
  command_digest c = Ok d → run_handle c a = (a, Err LvCommandIdentityConflict).
Proof.
  intros Hl Hf Hin Hi Hd. destruct (fold_events_inv es chat run a Hl Hf) as (I & <- & _ & _ & Hds).
  destruct (proj2 (ri_digests a I (as_str (rc_command_id c)))) as [p Hp].
  { rewrite <-Hi. by apply list_elem_of_fmap_2, list_elem_of_fmap_2. }
  unfold run_handle, mbind, stm_bind, lift, read, reject_if. rewrite Hd, Hp.
  rewrite bool_decide_false; [done|]. destruct (Hds _ _ Hp) as [n ->]. intros <-.
  unfold command_digest in Hd. destruct (jcs_to_vec c) as [m|]; [|discriminate]. injection Hd as Hd.
  pose proof (sha256_hex_digits m) as Hx. rewrite Hd in Hx. discriminate Hx.
Qed.
End runs.

(** ** Chats *)

Definition chat_run (cs : list ChatCommand) (c : ChatAggregate) : ChatAggregate :=
  foldl (λ c command, (chat_apply command c).1) c cs.

Lemma chat_apply_cases command c :
  chat_apply command c = (c, Err (LcIllegalTransition (ch_state c)))
  ∨ ∃ c' event, chat_arm command c = Some (c', event)
      ∧ chat_apply command c = (ch_push_event event c', Ok event).
Proof.
  unfold chat_apply, mbind, stm_bind, read, lift. simpl.
  destruct (chat_arm command c) as [[c' event]|]; [right; eauto|by left].
Qed.

Definition chat_inv (c : ChatAggregate) : Prop := ch_state c = CsDraft → ch_snapshot_hash c = None.
Lemma chat_step command c :
  chat_inv c → chat_inv (chat_apply command c).1
  ∧ (is_Some (ch_snapshot_hash c) → ch_snapshot_hash (chat_apply command c).1 = ch_snapshot_hash c)
  ∧ ch_events c `prefix_of` ch_events (chat_apply command c).1.
Proof.
  intros I. destruct (chat_apply_cases command c) as [->|(c' & event & Ha & ->)]; [done|].
  destruct c as [i s h q es r]. unfold chat_inv in *.
  destruct command as [| | |[]| | | | | | | | | |], s; simpl in *; repeat case_match; simplify_eq/=;
    split_and!; try done; try (by apply prefix_app_r).
  rewrite I by done. by intros [].
Qed.

(** The snapshot of a chat never changes after it started, and its events
    are only extended. *)
Lemma chat_snapshot_frozen i cs cs' :
  let c := chat_run cs (ChatAggregate_new i) in
  (is_Some (ch_snapshot_hash c) → ch_snapshot_hash (chat_run cs' c) = ch_snapshot_hash c)
  ∧ ch_events c `prefix_of` ch_events (chat_run cs' c).
Proof.
  assert (∀ cs c, chat_inv c → chat_inv (chat_run cs c)
    ∧ (is_Some (ch_snapshot_hash c) → ch_snapshot_hash (chat_run cs c) = ch_snapshot_hash c)
    ∧ ch_events c `prefix_of` ch_events (chat_run cs c)) as Hrun.
  { clear. induction cs as [|x cs IH]; intros c I; simpl; [done|].
    destruct (chat_step x c I) as (I1 & H1 & P1). destruct (IH _ I1) as (I2 & H2 & P2). split_and!; [done| |by etrans].
    intros Hs. specialize (H1 Hs). rewrite <-H1 in Hs. rewrite H2 by done. done. }
  intros c. apply (Hrun cs' c), (Hrun cs). done.
Qed.

(** ** Witnesses *)

Module DemoLifecycle.
Import (hints) Demo.
#[export] Instance command_ser : Serialize RunCommandV1 := {|
  to_vec c := Some (as_bytes (as_str (rc_command_id c)));
  jcs_to_vec c := Some (as_bytes (as_str (rc_command_id c)))
|}.
Definition cmd (i : StableId) (version : N) (k : RunCommandKindV1) : RunCommandV1 := MkRunCommand i version k.
Definition new : RunAggregateV1 := RunAggregateV1_new id:"chat" id:"run".
Definition starting : list RunCommandV1 :=
  [cmd id:"c1" 0 (RcStartResolved id:"in1" id:"snapshot" Demo.hash64);
   cmd id:"c2" 1 (RcWorkerReady 1); cmd id:"c3" 2 (RcQueueInput id:"in2");
   cmd id:"c4" 3 (RcDeliverInput id:"in1"); cmd id:"c5" 4 (RcBeginAttempt id:"a1" id:"op1")].
Definition active : RunAggregateV1 := run_commands starting new.
Definition crash : RunCommandV1 := cmd id:"c6" 5 (RcWorkerCrashed 1 (Some Demo.hash64) [id:"i1"]).
Definition ending : list RunCommandV1 :=
  [cmd id:"c7" 6 (RcResolveBlockedInvocation id:"i1"); cmd id:"c8" 7 (RcRehydrationReady 2);
   cmd id:"c9" 8 (RcFinishAttempt id:"a1" "done"); cmd id:"c10" 9 RcComplete;
   cmd id:"c11" 10 (RcFork id:"chat2")].
Lemma active_reachable : run_reachable active.
Proof. by exists id:"chat", id:"run", starting. Qed.
Definition completed : RunAggregateV1 := run_commands (crash :: ending) active.
Lemma completed_reachable : run_reachable completed.
Proof. exists id:"chat", id:"run", (starting ++ crash :: ending). unfold run_commands. by rewrite foldl_app. Qed.
End DemoLifecycle.

Section lifecycle_witnesses.
Import (hints) Demo DemoLifecycle.
Import DemoLifecycle.

Lemma run_reachable_invariant_witness :
  ra_state completed = RnCompleted ∧ ra_generation completed = Some 2 ∧ run_inv completed.
Proof. split_and!; [vm_compute; reflexivity..|apply run_reachable_invariant, completed_reachable]. Defined.

Lemma run_facts_permanent_witness :
  ra_state active = RnActive ∧ run_evolves active (run_commands (crash :: ending) active).
Proof. split; [vm_compute; reflexivity|apply run_facts_permanent, active_reachable]. Defined.

Lemma run_history_replays_witness :
  len (ra_events completed) = 11 ∧ replays completed.
Proof. split; [vm_compute; reflexivity|apply run_history_replays, completed_reachable]. Defined.

Lemma run_command_once_witness :
  let e := MkRunEvent 6 id:"c6" (ReWorkerGenerationCrashed 1 (Some Demo.hash64) [id:"i1"]) in
  (run_handle crash active).2 = Ok (RoApplied e)
  ∧ run_handle crash completed = (completed, Ok (RoDuplicate e)).
Proof.
  intros e. assert ((run_handle crash active).2 = Ok (RoApplied e)) as Hr by (vm_compute; reflexivity).
  split; [exact Hr|]. exact (proj1 (run_command_once active crash e ending active_reachable Hr)).
Defined.

Lemma run_refusal_harmless_witness :
  let c := cmd id:"c12" 11 (RcFork id:"chat2") in
  run_handle c completed = (completed, Err LvCorruptHistory)
  ∧ ∃ child, rc_command c = RcFork child ∧ child ∈ ra_child_chat_ids completed.
Proof.
  intros c. assert (run_handle c completed = (completed, Err LvCorruptHistory)) as Hr by (vm_compute; reflexivity).
  split; [exact Hr|]. exact (proj2 (run_refusal_harmless completed c _ _ completed_reachable Hr) eq_refl).
Defined.

(** A retry resumes what was never started or never resolved: a draft that
    failed before its snapshot was frozen becomes active without one, and a
    blocked run becomes active with its uncertain invocation unresolved. *)
Lemma retry_skips_guards :
  let draft := run_commands [cmd id:"r1" 0 (RcFail "boot" true); cmd id:"r2" 1 RcRetry;
                             cmd id:"r3" 2 (RcRehydrationReady 1)] new in
  let blocked := run_commands [crash; cmd id:"r1" 6 (RcFail "boot" true); cmd id:"r2" 7 RcRetry;
                               cmd id:"r3" 8 (RcRehydrationReady 2)] active in
  ra_state draft = RnActive ∧ ra_snapshot_hash draft = None
  ∧ ra_state blocked = RnActive ∧ ra_uncertain_invocations blocked = {["i1"]}.
Proof. vm_compute. auto. Qed.

Lemma redelivery_after_fold_example :
  match run_fold id:"chat" id:"run" (ra_events active) with
  | Ok a => (run_handle (cmd id:"c5" 4 (RcBeginAttempt id:"a1" id:"op1")) a).2 = Err LvCommandIdentityConflict
  | Err _ => False
  end.
Proof. vm_compute. reflexivity. Qed.
End lifecycle_witnesses.
