(* ===== verification/Recovery.v ===== *)
(** * Recovery ([crates/aworkit-trusted-core/src/recovery.rs])

    [LocalRecovery]: from the facts a history port returns, the core rebuilds
    the run aggregate and decides whether the run is over, blocked on
    uncertain invocations, or to be given a replacement worker, for which it
    builds the rehydration envelope.  The port is an interface; the theorems
    relate the decision to the lifecycle and the envelope to the worker's own
    check ([rehydrate]). *)
From S2P Require Export Runtime LifecycleTheorems.

Record RecoveryReport : Type := MkReport {
  rr_head_sequence : N;
  rr_terminal : bool;
  rr_last_checkpoint_hash : option string;
  rr_pending_delivery_count : N;
  rr_effect_replay_required : bool
}.
Record RecoveryEventV1 : Type := MkRecoveryEvent {
  ry_sequence : N;
  ry_kind : string;
  ry_payload : json
}.
Record RecoveryFactsV1 : Type := MkFacts {
  rf_snapshot : WorkerFrozenRunSnapshotV1;
  rf_checkpoint : option WorkerCheckpointV1;
  rf_lifecycle_events : list CommittedRunEventV1;
  rf_events : list RecoveryEventV1;
  rf_committed_deltas : list json;
  rf_reconciled_outcomes : list CapabilityOutcomeV1;
  rf_uncertain_invocation_ids : list StableId;
  rf_pending_delivery_count : N;
  rf_prior_generation : ProcessGeneration
}.
Record RecoveryPortErrorV1 : Type := MkPortError {
  rp_code : string;
  rp_message : string;
  rp_retryable : bool;
  rp_inspectable_read_only : bool
}.
(** The trait [RecoveryHistoryPort]. *)
Class RecoveryHistoryPort : Type :=
  load_recovery_facts : StableId → StableId → result RecoveryPortErrorV1 RecoveryFactsV1.

Inductive RecoveryError : Type :=
| RxPort (code message : string) (retryable inspectable_read_only : bool)
| RxInvalidId
| RxIdentityMismatch
| RxCorruptAggregate
| RxHistoryGap
| RxHistoryTooLong
| RxMissingCheckpoint
| RxCheckpointMismatch
| RxConflictingOutcome
| RxGenerationExhausted
| RxEncoding.
Definition from_port_error (e : RecoveryPortErrorV1) : RecoveryError :=
  RxPort (rp_code e) (rp_message e) (rp_retryable e) (rp_inspectable_read_only e).

Inductive RecoveryDecisionV1 : Type :=
| RdTerminal (aggregate : RunAggregateV1) (report : RecoveryReport)
| RdBlocked (aggregate : RunAggregateV1) (uncertain_invocation_ids : list StableId)
    (pending_delivery_count : N)
| RdSpawnReplacement (aggregate : RunAggregateV1) (envelope : RehydrationEnvelopeV1)
    (pending_delivery_count : N).

(** ** Validation *)

Fixpoint validate_events_from (index : N) (events : list RecoveryEventV1) : result RecoveryError () :=
  match events with
  | [] => Ok ()
  | event :: events =>
      let expected := saturating_add u64_max index 1 in
      _ ← fail_if (negb (ry_sequence event =? expected) || trim_is_empty (ry_kind event)
                   || (256 <? str_len (ry_kind event))) RxHistoryGap;
      validate_events_from (index + 1) events
  end.
Definition validate_event_history (events : list RecoveryEventV1) : result RecoveryError () :=
  if 10000000 <? len events then Err RxHistoryTooLong else validate_events_from 0 events.

Fixpoint core_deltas_from (expected : N) (deltas : list json) : result RecoveryError () :=
  match deltas with
  | [] => Ok ()
  | delta :: deltas =>
      _ ← fail_if (negb (bool_decide (value_get "cursor" delta ≫= as_u64 = Some expected))) RxHistoryGap;
      core_deltas_from (saturating_add u64_max expected 1) deltas
  end.
Definition validate_deltas (start : N) (deltas : list json) : result RecoveryError () :=
  if 100000 <? len deltas then Err RxHistoryTooLong
  else core_deltas_from (saturating_add u64_max start 1) deltas.

(** One iteration of the loop over the reconciled outcomes. *)
Definition distinct_outcome (seen : gset string * gset string) (outcome : CapabilityOutcomeV1) :
    result RecoveryError (gset string * gset string) :=
  _ ← fail_if (bs_contains seen.1 (as_str (co_invocation_id outcome))
               || bs_contains seen.2 (as_str (co_outcome_id outcome))) RxConflictingOutcome;
  Ok ({[as_str (co_invocation_id outcome)]} ∪ seen.1, {[as_str (co_outcome_id outcome)]} ∪ seen.2).

Section recovery.
Context `{Sha256, !Serialize WorkerFrozenRunSnapshotV1, !Serialize WorkerCheckpointV1}.

Definition validate_checkpoint (snapshot : WorkerFrozenRunSnapshotV1) (checkpoint : WorkerCheckpointV1)
    (prior_generation : ProcessGeneration) : result RecoveryError () :=
  calculated_snapshot ← map_err (λ _, RxEncoding) (snapshot_hash_v1 snapshot);
  _ ← fail_if (negb (bool_decide (ws_snapshot_hash snapshot = calculated_snapshot))
               || negb (bool_decide (wc_snapshot_hash checkpoint = ws_snapshot_hash snapshot))
               || negb (wc_prior_generation checkpoint =? prior_generation)
               || negb (is_sha256 (wc_plan_hash checkpoint))
               || negb (is_sha256 (wc_checkpoint_hash checkpoint))) RxCheckpointMismatch;
  bytes ← ok_or (jcs_to_vec (clear_checkpoint_hash checkpoint)) RxEncoding;
  let calculated := sha256_hex bytes in
  _ ← fail_if (negb (bool_decide (calculated = wc_checkpoint_hash checkpoint))) RxCheckpointMismatch;
  Ok ().

Context {Port : RecoveryHistoryPort}.

Definition head_sequence (events : list RecoveryEventV1) : N :=
  match last events with Some event => ry_sequence event | None => 0 end.
Definition recovery_report (facts : RecoveryFactsV1) (terminal : bool) : RecoveryReport :=
  MkReport (head_sequence (rf_events facts)) terminal (wc_checkpoint_hash <$> rf_checkpoint facts)
    (rf_pending_delivery_count facts) false.

Definition recover (chat_id branch_id : string) : result RecoveryError RecoveryReport :=
  chat_id ← map_err (λ _, RxInvalidId) (StableId_parse chat_id);
  branch_id ← map_err (λ _, RxInvalidId) (StableId_parse branch_id);
  facts ← map_err from_port_error (load_recovery_facts chat_id branch_id);
  _ ← validate_event_history (rf_events facts);
  aggregate ← map_err (λ _, RxCorruptAggregate)
    (run_fold (ws_chat_id (rf_snapshot facts)) (ws_run_id (rf_snapshot facts)) (rf_lifecycle_events facts));
  _ ← fail_if (negb (bool_decide (ws_chat_id (rf_snapshot facts) = chat_id))
               || negb (bool_decide (ra_snapshot_hash aggregate = Some (ws_snapshot_hash (rf_snapshot facts)))))
        RxIdentityMismatch;
  Ok (recovery_report facts (run_is_terminal (ra_state aggregate))).

Definition recover_v1 (chat_id branch_id : StableId) : result RecoveryError RecoveryDecisionV1 :=
  facts ← map_err from_port_error (load_recovery_facts chat_id branch_id);
  _ ← fail_if (negb (bool_decide (ws_chat_id (rf_snapshot facts) = chat_id))) RxIdentityMismatch;
  _ ← validate_event_history (rf_events facts);
  aggregate ← map_err (λ _, RxCorruptAggregate)
    (run_fold (ws_chat_id (rf_snapshot facts)) (ws_run_id (rf_snapshot facts)) (rf_lifecycle_events facts));
  _ ← fail_if (negb (bool_decide (ra_snapshot_hash aggregate = Some (ws_snapshot_hash (rf_snapshot facts)))))
        RxIdentityMismatch;
  if run_is_terminal (ra_state aggregate)
  then Ok (RdTerminal aggregate (recovery_report facts true))
  else
  let uncertain : gset string := list_to_set (as_str <$> rf_uncertain_invocation_ids facts) in
  _ ← fail_if (negb (bs_len uncertain =? len (rf_uncertain_invocation_ids facts))) RxConflictingOutcome;
  _ ← fail_if (negb (bool_decide (uncertain = ra_uncertain_invocations aggregate))) RxConflictingOutcome;
  if negb (is_nil (rf_uncertain_invocation_ids facts))
  then Ok (RdBlocked aggregate (rf_uncertain_invocation_ids facts) (rf_pending_delivery_count facts))
  else
  checkpoint ← ok_or (rf_checkpoint facts) RxMissingCheckpoint;
  _ ← validate_checkpoint (rf_snapshot facts) checkpoint (rf_prior_generation facts);
  _ ← validate_deltas (wc_committed_cursor checkpoint) (rf_committed_deltas facts);
  _ ← fold_res distinct_outcome (∅, ∅) (rf_reconciled_outcomes facts);
  replacement_generation ← ok_or (checked_add u64_max (rf_prior_generation facts) 1) RxGenerationExhausted;
  Ok (RdSpawnReplacement aggregate
        (MkRehydration (rf_snapshot facts) checkpoint replacement_generation
           (rf_committed_deltas facts) (rf_reconciled_outcomes facts))
        (rf_pending_delivery_count facts)).
End recovery.

(** ** What the core validates is what the worker checks *)

Lemma core_deltas_agree expected deltas :
  core_deltas_from expected deltas = Ok () ↔ validate_deltas_from expected deltas = Ok ().
Proof.
  revert expected. induction deltas as [|d deltas IH]; intros expected; simpl; [done|].
  destruct (value_get "cursor" d ≫= as_u64) as [n|] eqn:Hd; simpl.
  - destruct (N.eqb_spec n expected) as [->|Hne]; simpl.
    + rewrite bool_decide_true by done. apply IH.
    + rewrite bool_decide_false by congruence. done.
  - done.
Qed.

Lemma distinct_ids_nil (ids : list StableId) : (list_to_set (as_str <$> ids) : gset string) = ∅ → ids = [].
Proof. destruct ids; [done|]. simpl. set_solver. Qed.

Section recovery_facts.
Context `{Sha256, !Serialize WorkerFrozenRunSnapshotV1, !Serialize json,
  !Serialize (string * WorkerFrozenRunSnapshotV1 * string), !Serialize WorkerCheckpointV1,
  !ToValue CapabilityOutcomeV1} {Port : RecoveryHistoryPort}.

Lemma distinct_reconciles outcomes s s' (m : gmap string (string * json)) :
  dom m ⊆ s.1 → (∀ o, o ∈ outcomes → is_Some (to_value o)) →
  fold_res distinct_outcome s outcomes = Ok s' → is_ok (fold_res reconcile_outcome m outcomes) = true.
Proof.
  revert s m. induction outcomes as [|o outcomes IH]; intros s m Hm Hv Hf; [done|]. simpl in Hf |- *.
  destruct (distinct_outcome s o) as [s1|] eqn:Hd; [|discriminate]. unfold distinct_outcome in Hd. res_inv Hd.
  boolify; destruct_and?. destruct (Hv o) as [v Hv1]; [set_solver|].
  unfold reconcile_outcome at 1. rewrite Hv1. simpl.
  rewrite (not_elem_of_dom_1 m (as_str (co_invocation_id o))) by set_solver. simpl.
  eapply IH; [|set_solver|exact Hf]. simpl. rewrite dom_insert. set_solver.
Qed.

Lemma validate_checkpoint_ok s k g u :
  validate_checkpoint s k g = Ok u →
  snapshot_content_hash s = Ok (ws_snapshot_hash s) ∧ wc_snapshot_hash k = ws_snapshot_hash s
  ∧ wc_prior_generation k = g ∧ checkpoint_hash k = Ok (wc_checkpoint_hash k).
Proof.
  intros Hv. unfold validate_checkpoint in Hv. res_inv Hv. boolify; destruct_and?; boolify; subst.
  split_and!; [by apply snapshot_hashes_agree|done|done|].
  unfold checkpoint_hash. match goal with Hj : jcs_to_vec _ = Some _ |- _ => rewrite Hj end. simpl. congruence.
Qed.

(** What each decision says of the facts it was taken on. *)
Definition decision_sound (facts : RecoveryFactsV1) (d : RecoveryDecisionV1) : Prop :=
  match d with
  | RdTerminal a report =>
      run_is_terminal (ra_state a) = true ∧ report = recovery_report facts true
  | RdBlocked a ids n =>
      run_is_terminal (ra_state a) = false ∧ ids ≠ [] ∧ ids = rf_uncertain_invocation_ids facts
      ∧ list_to_set (as_str <$> ids) = ra_uncertain_invocations a
  | RdSpawnReplacement a e n =>
      run_is_terminal (ra_state a) = false ∧ ra_uncertain_invocations a = ∅
      ∧ re_snapshot e = rf_snapshot facts ∧ rf_checkpoint facts = Some (re_checkpoint e)
      ∧ validate_checkpoint (re_snapshot e) (re_checkpoint e) (rf_prior_generation facts) = Ok ()
      ∧ validate_deltas (wc_committed_cursor (re_checkpoint e)) (re_committed_deltas e) = Ok ()
      ∧ is_ok (fold_res distinct_outcome (∅, ∅) (re_reconciled_outcomes e)) = true
      ∧ re_replacement_generation e = rf_prior_generation facts + 1
  end.
Definition decided_aggregate (d : RecoveryDecisionV1) : RunAggregateV1 :=
  match d with RdTerminal a _ | RdBlocked a _ _ | RdSpawnReplacement a _ _ => a end.

Lemma recover_v1_ok chat branch d :
  recover_v1 chat branch = Ok d →
  ∃ facts, load_recovery_facts chat branch = Ok facts ∧ ws_chat_id (rf_snapshot facts) = chat
    ∧ run_fold chat (ws_run_id (rf_snapshot facts)) (rf_lifecycle_events facts) = Ok (decided_aggregate d)
    ∧ ra_snapshot_hash (decided_aggregate d) = Some (ws_snapshot_hash (rf_snapshot facts))
    ∧ decision_sound facts d.
Proof.
  intros Hr. unfold recover_v1 in Hr. res_inv Hr. boolify. subst chat. exists x.
  match goal with Hc : context [run_is_terminal (ra_state ?a)] |- _ =>
    destruct (run_is_terminal (ra_state a)) eqn:Ht; rename Hc into Hd end.
  { injection Hd as <-. by split_and!. }
  res_inv Hd. destruct (is_nil (rf_uncertain_invocation_ids x)) eqn:Hu; simpl in Hd.
  - destruct (rf_uncertain_invocation_ids x) eqn:Hids; [|discriminate]. res_inv Hd. boolify.
    match goal with Hk : checked_add _ _ _ = Some _ |- _ => apply checked_add_some in Hk as [-> _] end.
    repeat match goal with u : () |- _ => destruct u end.
    split_and!; simpl; try done. by match goal with Hf : fold_res _ _ _ = Ok _ |- _ => rewrite Hf end.
  - injection Hd as <-. boolify. split_and!; try done. simpl. split_and!; try done.
    by intros Hn; rewrite Hn in Hu.
Qed.

(** The compatibility report agrees with the decision. *)
Lemma recover_agrees chat branch d :
  recover_v1 chat branch = Ok d →
  ∃ facts, load_recovery_facts chat branch = Ok facts
    ∧ recover (as_str chat) (as_str branch)
      = Ok (recovery_report facts (run_is_terminal (ra_state (decided_aggregate d)))).
Proof.
  intros Hr. destruct (recover_v1_ok _ _ _ Hr) as (facts & Hl & Hc & Hf & Hs & _). exists facts. split; [done|].
  unfold recover_v1 in Hr. rewrite Hl in Hr. res_inv Hr. simplify_eq/=.
  unfold recover. rewrite !(proj2 (StableId_parse_ok _ _) eq_refl). simpl. rewrite Hl. simpl.
  match goal with Hv : validate_event_history _ = Ok _ |- _ => rewrite Hv end. simpl. rewrite Hf. simpl.
  by rewrite !bool_decide_true.
Qed.

(** The deltas only pass through their own validation. *)
Definition with_deltas (ds : list json) (f : RecoveryFactsV1) : RecoveryFactsV1 :=
  MkFacts (rf_snapshot f) (rf_checkpoint f) (rf_lifecycle_events f) (rf_events f) ds
    (rf_reconciled_outcomes f) (rf_uncertain_invocation_ids f) (rf_pending_delivery_count f)
    (rf_prior_generation f).
Lemma rehydrate_too_large e :
  10000 < len (re_committed_deltas e) → rehydrate e = Err RePayloadTooLarge.
Proof. intros Hl. unfold rehydrate. by rewrite (proj2 (N.ltb_lt _ _) Hl). Qed.

(** Runs the steps that the hypothesis and the goal share. *)
Ltac same_prefix Hr :=
  repeat match goal with |- context [mbind _ ?m] =>
    lazymatch m with
    | validate_deltas _ _ => fail
    | mbind _ _ => fail
    | _ => destruct m; simpl in Hr |- *; [|discriminate Hr]
    end
  end.
Lemma spawn_other_deltas f ds chat branch a e n :
  recover_v1 (Port:=λ _ _, Ok f) chat branch = Ok (RdSpawnReplacement a e n) →
  validate_deltas (wc_committed_cursor (re_checkpoint e)) ds = Ok () →
  recover_v1 (Port:=λ _ _, Ok (with_deltas ds f)) chat branch
  = Ok (RdSpawnReplacement a (MkRehydration (re_snapshot e) (re_checkpoint e) (re_replacement_generation e) ds
                                (re_reconciled_outcomes e)) n).
Proof.
  intros Hr Hv. unfold recover_v1, load_recovery_facts in *. simpl in *. same_prefix Hr.
  destruct (run_is_terminal _); [discriminate|]. same_prefix Hr.
  destruct (negb (is_nil _)); [discriminate|]. same_prefix Hr. res_inv Hr.
  simpl in Hv. rewrite Hv. simpl.
  repeat match goal with Hx : ?m = Ok _ |- context [?m] => rewrite Hx; simpl end.
  match goal with Hx : checked_add _ _ _ = Some _ |- _ => by rewrite Hx end.
Qed.

(** ** The theorems *)

(** C8: A recovery decision follows the committed facts: the aggregate is the
    fold of the lifecycle history of the requested chat, valid and frozen on
    the snapshot of the facts; a run is reported over exactly when that
    aggregate is terminal, and no decision asks for an effect to be replayed;
    it is blocked on exactly the invocations the lifecycle left uncertain; a
    replacement is spawned only for a live run with none left, on a validated
    checkpoint, one generation after the previous. *)
Theorem recovery_decision_sound chat branch d :
  recover_v1 chat branch = Ok d →
  ∃ facts, load_recovery_facts chat branch = Ok facts ∧ ws_chat_id (rf_snapshot facts) = chat
    ∧ run_fold chat (ws_run_id (rf_snapshot facts)) (rf_lifecycle_events facts) = Ok (decided_aggregate d)
    ∧ (len (rf_lifecycle_events facts) ≤ u64_max → run_inv (decided_aggregate d))
    ∧ ra_snapshot_hash (decided_aggregate d) = Some (ws_snapshot_hash (rf_snapshot facts))
    ∧ decision_sound facts d.
Proof.
  intros Hr. destruct (recover_v1_ok chat branch d Hr) as (facts & ? & ? & Hf & ? & ?).
  exists facts. split_and!; try done. intros Hl. by apply (fold_events_inv _ _ _ _ Hl Hf).
Qed.

(** C7: The worker accepts what the core prepares.  For the envelope of a
    replacement, and outcomes that can be serialized, the worker's
    rehydration succeeds exactly when the snapshot compiles to the plan the
    checkpoint was taken under and neither the deltas nor the outcomes exceed
    its limit of 10,000: every other check of the worker was already made by
    the core. *)
Theorem replacement_accepted_iff chat branch a e n :
  recover_v1 chat branch = Ok (RdSpawnReplacement a e n) →
  (∀ o, o ∈ re_reconciled_outcomes e → is_Some (to_value o)) →
  is_ok (rehydrate e) = true ↔
  len (re_committed_deltas e) ≤ 10000 ∧ len (re_reconciled_outcomes e) ≤ 10000
  ∧ ∃ p, compile (re_snapshot e) (ws_snapshot_hash (re_snapshot e)) = Ok p
         ∧ plan_fingerprint p = wc_plan_hash (re_checkpoint e).
Proof.
  intros Hr Hv. destruct (recover_v1_ok _ _ _ Hr) as (facts & _ & _ & _ & _ & Hd).
  destruct Hd as (_ & _ & _ & _ & (Hs & Hsk & Hg & Hck)%validate_checkpoint_ok & Hdel & Hout & Hgen).
  unfold validate_deltas in Hdel. case_match; [discriminate|]. apply core_deltas_agree in Hdel.
  destruct (fold_res distinct_outcome (∅, ∅) (re_reconciled_outcomes e)) as [s'|] eqn:Hf; [|discriminate].
  apply (distinct_reconciles _ _ _ ∅) in Hf; [|set_solver|done]. split.
  - intros Hok. destruct (rehydrate e) as [st|] eqn:Hre; [|discriminate]. unfold rehydrate in Hre.
    rewrite Hs in Hre. res_inv Hre. boolify; destruct_and?; simplify_eq/=. split_and!; try lia. eauto.
  - intros (Hl1 & Hl2 & p & Hp & Hfp). unfold rehydrate. rewrite Hs, Hck, Hsk. simpl.
    rewrite (proj2 (N.ltb_ge 10000 (len (re_committed_deltas e))) Hl1),
      (proj2 (N.ltb_ge 10000 (len (re_reconciled_outcomes e))) Hl2). simpl.
    rewrite !bool_decide_true by done. simpl. rewrite Hp. simpl. rewrite bool_decide_true by done. simpl.
    rewrite Hgen, Hg. rewrite (proj2 (N.leb_gt (rf_prior_generation facts + 1) _)) by lia. simpl.
    rewrite ?bool_decide_true by done. simpl. unfold validate_delta_cursors. rewrite Hdel. simpl.
    by destruct (fold_res reconcile_outcome ∅ _).
Qed.

(** A replacement after a second crash without a new checkpoint gets a
    generation the lifecycle refuses: the envelope's generation follows the
    checkpoint's, and the run is already past it. *)
Theorem stale_checkpoint_refused `{!Serialize RunCommandV1} chat branch a e n g c :
  recover_v1 chat branch = Ok (RdSpawnReplacement a e n) →
  ra_generation a = Some g → wc_prior_generation (re_checkpoint e) < g →
  rc_command c = RcRehydrationReady (re_replacement_generation e) →
  ¬ ∃ ev, (run_handle c a).2 = Ok (RoApplied ev).
Proof.
  intros Hr Hg Hlt Hc [ev Hev]. destruct (recover_v1_ok _ _ _ Hr) as (facts & _ & _ & _ & _ & Hd).
  destruct Hd as (_ & _ & _ & _ & (_ & _ & Hp & _)%validate_checkpoint_ok & _ & _ & Hgen).
  pose proof (run_handle_handled c a) as Hh. rewrite Hev in Hh. inversion Hh as [| |d e0 _ _ _ Hdec]; subst.
  rewrite Hc in Hdec. simpl in Hdec. unfold generation_advances in Hdec. rewrite Hg in Hdec.
  rewrite (proj2 (N.ltb_ge g (re_replacement_generation e))) in Hdec by lia.
  by rewrite andb_false_r in Hdec.
Qed.
End recovery_facts.

(** ** Witnesses *)

Module DemoFacts.
Import (hints) Demo DemoLifecycle DemoRecovery.
Import DemoLifecycle.
(** A run whose third worker crashed with a checkpoint and nothing uncertain. *)
Definition crashed : RunAggregateV1 :=
  run_commands
    [cmd id:"c1" 0 (RcStartResolved id:"in1" id:"snapshot" (ws_snapshot_hash Demo.snapshot));
     cmd id:"c2" 1 (RcWorkerReady 3);
     cmd id:"c3" 2 (RcWorkerCrashed 3 (Some (wc_checkpoint_hash DemoRecovery.sealed)) [])] new.
Definition facts (deltas : list json) (prior : N) (events : list CommittedRunEventV1) : RecoveryFactsV1 :=
  MkFacts Demo.snapshot (Some DemoRecovery.sealed) events [MkRecoveryEvent 1 "run.started" JNull] deltas
    [MkOutcome id:"o1" id:"i1" CoSuccess false JNull None] [] 0 prior.
Definition port (f : RecoveryFactsV1) : RecoveryHistoryPort := λ _ _, Ok f.
Definition facts_ok : RecoveryFactsV1 := facts [DemoRecovery.delta 11; DemoRecovery.delta 12] 3 (ra_events crashed).
Definition envelope : RehydrationEnvelopeV1 :=
  DemoRecovery.envelope 4 [DemoRecovery.delta 11; DemoRecovery.delta 12].
Definition decision : RecoveryDecisionV1 :=
  match recover_v1 (Port:=port facts_ok) id:"chat" id:"main" with Ok d => d | Err _ => RdBlocked new [] 0 end.
End DemoFacts.

Section recovery_witnesses.
Import (hints) Demo DemoLifecycle DemoRecovery.
Import DemoFacts.

Lemma demo_recovers :
  recover_v1 (Port:=port facts_ok) id:"chat" id:"main"
  = Ok (RdSpawnReplacement (decided_aggregate decision) envelope 0).
Proof. vm_compute. reflexivity. Qed.

Lemma recovery_decision_sound_witness :
  ∃ f, port facts_ok id:"chat" id:"main" = Ok f
    ∧ decision_sound f (RdSpawnReplacement (decided_aggregate decision) envelope 0).
Proof.
  destruct (recovery_decision_sound (Port:=port facts_ok) _ _ _ demo_recovers) as (f & Hl & _ & _ & _ & _ & Hd).
  exists f. split; [exact Hl|exact Hd].
Defined.

Lemma replacement_accepted_iff_witness : is_ok (rehydrate envelope) = true.
Proof.
  refine (proj2 (replacement_accepted_iff (Port:=port facts_ok) _ _ _ _ _ demo_recovers _) _).
  - intros o _. eexists. reflexivity.
  - split; [vm_compute; discriminate|]. split; [vm_compute; discriminate|].
    assert (match compile (re_snapshot envelope) (ws_snapshot_hash (re_snapshot envelope)) with
            | Ok p => plan_fingerprint p = wc_plan_hash (re_checkpoint envelope)
            | Err _ => False
            end) as Hp by (vm_compute; reflexivity).
    destruct (compile (re_snapshot envelope) (ws_snapshot_hash (re_snapshot envelope))) as [p|];
      [exact (ex_intro _ p (conj eq_refl Hp))|destruct Hp].
Defined.

(** The limits of the two sides differ: an envelope with more than 10,000 and
    at most 100,000 committed deltas is prepared by the core and refused by
    every worker. *)
Lemma oversized_envelope_refused deltas :
  10000 < len deltas → len deltas ≤ 100000 →
  (∀ n d, deltas !! n = Some d → value_get "cursor" d ≫= as_u64 = Some (11 + N.of_nat n)) →
  ∃ a e, recover_v1 (Port:=port (facts deltas 3 (ra_events crashed))) id:"chat" id:"main"
           = Ok (RdSpawnReplacement a e 0)
         ∧ re_committed_deltas e = deltas ∧ rehydrate e = Err RePayloadTooLarge.
Proof.
  intros Hlo Hhi Hcur. exists (decided_aggregate decision), (DemoRecovery.envelope 4 deltas).
  assert (validate_deltas 10 deltas = Ok ()) as Hv.
  { unfold validate_deltas. rewrite (proj2 (N.ltb_ge _ _) Hhi). apply core_deltas_agree.
    apply deltas_from_ok; [|done]. change (saturating_add u64_max 10 1) with 11. unfold u64_max. lia. }
  pose proof demo_recovers as Hd. split; [|split; [reflexivity|]].
  - exact (spawn_other_deltas facts_ok deltas _ _ _ _ _ Hd Hv).
  - exact (rehydrate_too_large (DemoRecovery.envelope 4 deltas) Hlo).
Qed.

(** A run rehydrated once from the checkpoint of its third worker, whose
    fourth worker crashed before a new checkpoint: recovery proposes
    generation 4 again, and the lifecycle refuses it. *)
Lemma stale_checkpoint_example :
  let a := run_commands [DemoLifecycle.cmd id:"c4" 3 (RcRehydrationReady 4);
                         DemoLifecycle.cmd id:"c5" 4 (RcWorkerCrashed 4 (Some (wc_checkpoint_hash DemoRecovery.sealed)) [])]
             crashed in
  match recover_v1 (Port:=port (facts [] 3 (ra_events a))) id:"chat" id:"main" with
  | Ok (RdSpawnReplacement b e _) =>
      re_replacement_generation e = 4
      ∧ (run_handle (DemoLifecycle.cmd id:"c6" 5 (RcRehydrationReady 4)) b).2 = Err (LvIllegalTransition RnRehydrating)
  | _ => False
  end.
Proof. vm_compute. auto. Qed.
End recovery_witnesses.
