(* ===== verification/Supervisor.v ===== *)
(** * Worker supervision ([crates/aworkit-trusted-core/src/supervisor.rs])

    [WorkerSupervisor], the compatibility table of worker generations, and
    [ProcessWorkerSupervisorV1], which owns the worker processes.  The
    operating system is part of the state as what the supervisor did to it:
    the children it has spawned and not yet waited for, and the control
    frames it has written to each child.  What the operating system answers
    (spawn, write, receive, [try_wait] of a health check) is an argument of
    each call; the answers to the waits that end a child, whose failures the
    code ignores, are a script in the state.  The child's
    pipes and the pump thread belong to its handle.  Definitions only; the
    theorems are in [SupervisorProofs]. *)
From S2P Require Export StdioProofs Recovery.

(** ** The compatibility table *)

Inductive WorkerControl : Type :=
| WcResume
| WcPause
| WcCancel
| WcInput (input_id : StableId)
| WcApprovalGranted (approval_id : StableId).
Record WorkerHandshake : Type := MkCompatHandshake {
  wx_chat_id : StableId;
  wx_generation : ProcessGeneration;
  wx_snapshot_hash : string
}.
Record WorkerRecord : Type := MkWorkerRecord {
  wd_generation : ProcessGeneration;
  wd_snapshot_hash : string;
  wd_healthy : bool;
  wd_restarts : N
}.
Record WorkerSupervisor : Type := MkSupervisor {
  ss_workers : gmap string WorkerRecord;
  ss_max_restarts : N
}.
Inductive WorkerSupervisorError : Type :=
| SvUnknownWorker
| SvStaleHandshake
| SvGenerationExhausted
| SvRestartBudgetExhausted
| SvSpawn (text : string)
| SvTransport (text : string)
| SvHandshakeTimeout
| SvOutputTimeout
| SvHeartbeatTimeout
| SvUnexpectedHandshakeOutput
| SvExecutableIdentityMismatch
| SvAlreadyRunning
| SvShutdownTimeout
| SvProcessExited
| SvInvalidStartControl.

Definition with_restart_budget (max_restarts : N) : WorkerSupervisor := MkSupervisor ∅ max_restarts.
Definition ss_put (key : string) (record : WorkerRecord) (s : WorkerSupervisor) : WorkerSupervisor :=
  MkSupervisor (<[key := record]> (ss_workers s)) (ss_max_restarts s).
Abbreviation cs := (stm WorkerSupervisor WorkerSupervisorError).

Definition supervisor_start (snapshot : CoreRunSnapshot) : cs WorkerHandshake :=
  s ← read;
  let key := as_str (cs_chat_id snapshot) in
  let record := ss_workers s !! key in
  generation ← lift (match record with
                     | Some record => ok_or (checked_add u64_max (wd_generation record) 1) SvGenerationExhausted
                     | None => Ok 1
                     end);
  let restarts := match record with Some record => wd_restarts record | None => 0 end in
  _ ← reject_if (ss_max_restarts s <? restarts) SvRestartBudgetExhausted;
  _ ← modify (ss_put key (MkWorkerRecord generation (cs_snapshot_hash snapshot) false restarts));
  mret (MkCompatHandshake (cs_chat_id snapshot) generation (cs_snapshot_hash snapshot)).

Definition acknowledge_handshake (h : WorkerHandshake) : cs () :=
  s ← read;
  let key := as_str (wx_chat_id h) in
  record ← lift (ok_or (ss_workers s !! key) SvUnknownWorker);
  _ ← reject_if (negb (wd_generation record =? wx_generation h)
                 || negb (bool_decide (wd_snapshot_hash record = wx_snapshot_hash h))) SvStaleHandshake;
  modify (ss_put key (MkWorkerRecord (wd_generation record) (wd_snapshot_hash record) true (wd_restarts record))).

Definition supervisor_deliver (chat_id : StableId) (generation : ProcessGeneration) (_ : WorkerControl)
    (s : WorkerSupervisor) : result WorkerSupervisorError () :=
  record ← ok_or (ss_workers s !! as_str chat_id) SvUnknownWorker;
  fail_if (negb (wd_generation record =? generation) || negb (wd_healthy record)) SvStaleHandshake.

Definition supervisor_crashed (chat_id : StableId) (generation : ProcessGeneration) : cs () :=
  s ← read;
  let key := as_str chat_id in
  record ← lift (ok_or (ss_workers s !! key) SvUnknownWorker);
  _ ← reject_if (negb (wd_generation record =? generation)) SvStaleHandshake;
  let record := MkWorkerRecord (wd_generation record) (wd_snapshot_hash record) false (wd_restarts record) in
  _ ← modify (ss_put key record);
  restarts ← lift (ok_or (checked_add u32_max (wd_restarts record) 1) SvRestartBudgetExhausted);
  _ ← modify (ss_put key (MkWorkerRecord (wd_generation record) (wd_snapshot_hash record) false restarts));
  reject_if (ss_max_restarts s <? restarts) SvRestartBudgetExhausted.

(** ** Processes *)

(** The handle of a child process. *)
Abbreviation child := N.

Record LiveWorkerV1 : Type := MkLive {
  lw_child : child;
  lw_chat_id : StableId;
  lw_run_id : StableId;
  lw_generation : ProcessGeneration;
  lw_snapshot_hash : string;
  lw_last_heartbeat : option N;
  lw_last_heartbeat_at : option N
}.
Record RestartStateV1 : Type := MkRestartState { rs_last_generation : N; rs_crashes : N }.
Definition RestartStateV1_default : RestartStateV1 := MkRestartState 0 0.
Record ProcessWorkerSupervisorV1 : Type := MkProcessSupervisor {
  ps_executable : string;
  ps_workers : gmap string LiveWorkerV1;
  ps_restart_state : gmap string RestartStateV1;
  ps_maximum_restarts : N
}.

(** The supervisor and the operating system: the next child handle, the
    children not yet waited for, the controls written to each child, the
    answers that waits for a child will get, and the children given up after
    a wait that failed. *)
Record os : Type := MkOs {
  os_supervisor : ProcessWorkerSupervisorV1;
  os_next : child;
  os_children : gset child;
  os_sent : list (child * WorkerControlEnvelopeV1);
  os_waits : list bool;
  os_lost : gset child
}.
Definition ProcessWorkerSupervisorV1_new (canonical_path : string) (maximum_restarts : N)
    (waits : list bool) : os :=
  MkOs (MkProcessSupervisor canonical_path ∅ ∅ maximum_restarts) 0 ∅ [] waits ∅.

Abbreviation sv := (stm os WorkerSupervisorError).

Definition os_set_workers (m : gmap string LiveWorkerV1) (o : os) : os :=
  let s := os_supervisor o in
  MkOs (MkProcessSupervisor (ps_executable s) m (ps_restart_state s) (ps_maximum_restarts s))
    (os_next o) (os_children o) (os_sent o) (os_waits o) (os_lost o).
Definition os_set_restarts (m : gmap string RestartStateV1) (o : os) : os :=
  let s := os_supervisor o in
  MkOs (MkProcessSupervisor (ps_executable s) (ps_workers s) m (ps_maximum_restarts s))
    (os_next o) (os_children o) (os_sent o) (os_waits o) (os_lost o).
Definition os_spawn (o : os) : os :=
  MkOs (os_supervisor o) (os_next o + 1) ({[os_next o]} ∪ os_children o) (os_sent o)
    (os_waits o) (os_lost o).
Definition os_send (c : child) (e : WorkerControlEnvelopeV1) (o : os) : os :=
  MkOs (os_supervisor o) (os_next o) (os_children o) (os_sent o ++ [(c, e)]) (os_waits o) (os_lost o).
(** The child has been waited for. *)
Definition os_reap (c : child) (o : os) : os :=
  MkOs (os_supervisor o) (os_next o) (os_children o ∖ {[c]}) (os_sent o) (os_waits o) (os_lost o).
(** The child has been given up without having been waited for. *)
Definition os_lose (c : child) (o : os) : os :=
  MkOs (os_supervisor o) (os_next o) (os_children o) (os_sent o) (os_waits o) ({[c]} ∪ os_lost o).
(** The answer to the next wait: whether it reports the exit of the child.
    Past the answers that were given, waits succeed. *)
Definition os_answer (o : os) : os * bool :=
  (MkOs (os_supervisor o) (os_next o) (os_children o) (os_sent o) (tail (os_waits o)) (os_lost o),
   default true (head (os_waits o))).
(** [child.kill()] and [child.wait()], both with their failures ignored: the
    child has been waited for exactly when the wait succeeds. *)
Definition os_kill (c : child) (o : os) : os :=
  let '(o, waited) := os_answer o in
  if waited then os_reap c o else os_lose c o.

Definition workers_of (o : os) : gmap string LiveWorkerV1 := ps_workers (os_supervisor o).
Definition restarts_of (o : os) : gmap string RestartStateV1 := ps_restart_state (os_supervisor o).
Definition put_worker (key : string) (w : LiveWorkerV1) (o : os) : os :=
  os_set_workers (<[key := w]> (workers_of o)) o.
Definition remove_worker (key : string) (o : os) : os := os_set_workers (delete key (workers_of o)) o.

(** [Result] of a call kept for inspection. *)
Definition attempt_call {A} (m : sv A) : sv (result WorkerSupervisorError A) :=
  λ o, let '(o, r) := m o in (o, Ok r).

(** What [recv_timeout] answers. *)
Inductive received : Type :=
| RvOutput (output : WorkerOutputEnvelopeV1)
| RvBroken (text : string)
| RvTimeout
| RvDisconnected.
Definition receive_output (r : received) : result WorkerSupervisorError WorkerOutputEnvelopeV1 :=
  match r with
  | RvOutput output => Ok output
  | RvBroken error => Err (SvTransport error)
  | RvTimeout => Err SvOutputTimeout
  | RvDisconnected => Err SvProcessExited
  end.

(** Kills the child and waits for it; the pump thread ends with it. *)
Definition terminate_worker (w : LiveWorkerV1) : sv () := modify (os_kill (lw_child w)).
(** Polls the child with [try_wait] until the deadline and terminates it then:
    the first answer says whether a poll saw it exit. *)
Definition wait_or_kill (w : LiveWorkerV1) : sv () :=
  λ o, let '(o, exited) := os_answer o in
       if exited then (os_reap (lw_child w) o, Ok ()) else terminate_worker w o.

Definition validate_control_identity (w : LiveWorkerV1) (c : WorkerControlEnvelopeV1) :
    result WorkerSupervisorError () :=
  fail_if (negb (bool_decide (lw_chat_id w = ce_chat_id c)) || negb (bool_decide (lw_run_id w = ce_run_id c))
           || negb (lw_generation w =? ce_generation c)
           || negb (bool_decide (lw_snapshot_hash w = ce_snapshot_hash c))) SvStaleHandshake.
Definition validate_output_identity (w : LiveWorkerV1) (o : WorkerOutputEnvelopeV1) :
    result WorkerSupervisorError () :=
  _ ← fail_if (negb (oe_generation o =? lw_generation w)) SvStaleHandshake;
  match oe_output o with
  | OkProposal p =>
      fail_if (negb (bool_decide (pe_chat_id p = lw_chat_id w)) || negb (bool_decide (pe_run_id p = lw_run_id w))
               || negb (pe_generation p =? lw_generation w)
               || negb (bool_decide (pe_snapshot_hash p = lw_snapshot_hash w))) SvStaleHandshake
  | _ => Ok ()
  end.

Definition supervisor_id `{Sha256} (material : string) : result WorkerSupervisorError StableId :=
  let digest := sha256_hex (as_bytes material) in
  map_err (λ _, SvInvalidStartControl) (StableId_parse ("supervisor." +:+ str_take 48 digest)).

(** ** The pump: frames of the child's output *)

Section pump.
Context `{!Deserialize WorkerOutputEnvelopeV1}.
(** The [Display] text of the errors of the standard library and of serde. *)
Variable io_text : ErrorKind → string.
Variable protocol_text : ProtocolError → string.

(** The loop over the prefix is that of the worker's reader; the errors are
    texts. *)
Definition read_output_frame (r : reader) :
    option (reader * result string (option WorkerOutputEnvelopeV1)) :=
  match read_prefix FRAME_PREFIX_BYTES [] r with
  | None => None
  | Some (r, Err (WeIo e)) => Some (r, Err (io_text e))
  | Some (r, Err _) => Some (r, Err "truncated worker frame prefix")
  | Some (r, Ok None) => Some (r, Ok None)
  | Some (r, Ok (Some prefix)) =>
      let body_len := from_be_bytes prefix in
      if MAX_FRAME_BYTES <? body_len then Some (r, Err "worker frame exceeded one MiB") else
      match read_exact (S (length r)) (N.to_nat body_len) [] r with
      | None => None
      | Some (r, Err e) => Some (r, Err (io_text e))
      | Some (r, Ok body) =>
          Some (r, Some <$> map_err protocol_text (decode_frame (prefix ++ body)))
      end
  end.

(** Every frame takes at least its prefix from the stream, so the number of
    unread bytes and events is enough fuel. *)
Fixpoint pump_loop (fuel : nat) (r : reader) : list (result string WorkerOutputEnvelopeV1) :=
  match fuel with
  | O => []
  | S fuel =>
      match read_output_frame r with
      | None => []
      | Some (r, Ok (Some output)) => Ok output :: pump_loop fuel r
      | Some (_, Ok None) => []
      | Some (_, Err error) => [Err error]
      end
  end.
Definition pump_outputs (r : reader) : list (result string WorkerOutputEnvelopeV1) :=
  pump_loop (S (unread r)) r.
End pump.

(** ** [ProcessWorkerSupervisorV1] *)

Section supervisor.
Context `{Sha256, !Serialize WorkerControlEnvelopeV1}.
Variable protocol_text : ProtocolError → string.
(** [dunce::canonicalize]. *)
Variable canonicalize : string → option string.

(** [written] is what [write_all] and [flush] answer. *)
Definition write_control (c : child) (control : WorkerControlEnvelopeV1) (written : result string ()) : sv () :=
  _ ← lift (map_err (λ e, SvTransport (protocol_text e)) (encode_frame control));
  _ ← modify (os_send c control);
  lift (map_err SvTransport written).

Definition next_generation (chat_id : StableId) (o : os) : result WorkerSupervisorError ProcessGeneration :=
  let state := default RestartStateV1_default (restarts_of o !! as_str chat_id) in
  _ ← fail_if (ps_maximum_restarts (os_supervisor o) <? rs_crashes state) SvRestartBudgetExhausted;
  ok_or (checked_add u64_max (rs_last_generation state) 1) SvGenerationExhausted.
Definition allocate_generation (chat_id : StableId) : sv ProcessGeneration :=
  o ← read;
  generation ← lift (next_generation chat_id o);
  let state := default RestartStateV1_default (restarts_of o !! as_str chat_id) in
  _ ← modify (os_set_restarts (<[as_str chat_id := MkRestartState generation (rs_crashes state)]> (restarts_of o)));
  mret generation.

(** What the operating system answers while a worker is launched. *)
Record launch : Type := MkLaunch {
  la_spawn : result string ();
  la_identity : bool;
  la_stdin : bool;
  la_stdout : bool;
  la_pump : result string ();
  la_write : result string ();
  la_first : received
}.

(** The checks on the first output of a launched worker. *)
Definition check_handshake (control : WorkerControlEnvelopeV1) (executable : string)
    (output : WorkerOutputEnvelopeV1) : result WorkerSupervisorError WorkerHandshakeV1 :=
  match oe_output output with
  | OkHandshake handshake =>
      executable_identity ← ok_or (canonicalize (wh_executable_identity handshake)) SvExecutableIdentityMismatch;
      _ ← fail_if (negb (oe_generation output =? ce_generation control)
                   || negb (wh_protocol_version handshake =? 1)
                   || negb (bool_decide (wh_chat_id handshake = ce_chat_id control))
                   || negb (bool_decide (wh_run_id handshake = ce_run_id control))
                   || negb (wh_generation handshake =? ce_generation control)
                   || negb (bool_decide (wh_snapshot_hash handshake = ce_snapshot_hash control))
                   || negb (bool_decide (executable_identity = executable))) SvStaleHandshake;
      Ok handshake
  | _ => Err SvUnexpectedHandshakeOutput
  end.

Definition spawn_control (control : WorkerControlEnvelopeV1) (io : launch) : sv WorkerHandshakeV1 :=
  o ← read;
  let executable := ps_executable (os_supervisor o) in
  _ ← lift (map_err SvSpawn (la_spawn io));
  let c := os_next o in
  _ ← modify os_spawn;
  let worker := MkLive c (ce_chat_id control) (ce_run_id control) (ce_generation control)
    (ce_snapshot_hash control) None None in
  if negb (la_identity io)
  then _ ← terminate_worker worker; throw SvExecutableIdentityMismatch
  else
  _ ← reject_if (negb (la_stdin io)) (SvSpawn "worker stdin was not piped");
  _ ← reject_if (negb (la_stdout io)) (SvSpawn "worker stdout was not piped");
  _ ← lift (map_err SvSpawn (la_pump io));
  sent ← attempt_call (write_control c control (la_write io));
  match sent with
  | Err error => _ ← terminate_worker worker; throw error
  | Ok _ =>
      match receive_output (la_first io) with
      | Err error =>
          _ ← terminate_worker worker;
          throw (match error with SvOutputTimeout => SvHandshakeTimeout | other => other end)
      | Ok output =>
          match check_handshake control executable output with
          | Err error => _ ← terminate_worker worker; throw error
          | Ok handshake =>
              _ ← modify (put_worker (as_str (ce_chat_id control)) worker);
              mret handshake
          end
      end
  end.

Definition spawn_start (snapshot : WorkerFrozenRunSnapshotV1) (committed_cursor : N) (io : launch) :
    sv WorkerHandshakeV1 :=
  o ← read;
  _ ← reject_if (bt_contains (workers_of o) (as_str (ws_chat_id snapshot))) SvAlreadyRunning;
  generation ← allocate_generation (ws_chat_id snapshot);
  message_id ← lift (supervisor_id ("start:" +:+ as_str (ws_chat_id snapshot) +:+ ":"
    +:+ as_str (ws_run_id snapshot) +:+ ":" +:+ pretty generation));
  spawn_control (MkControl message_id (ws_chat_id snapshot) (ws_run_id snapshot) generation
    (ws_snapshot_hash snapshot) committed_cursor (CkStart snapshot)) io.

Definition is_restore (k : WorkerControlKindV1) : bool :=
  match k with CkRestore _ => true | _ => false end.
Definition spawn_restore (control : WorkerControlEnvelopeV1) (io : launch) : sv WorkerHandshakeV1 :=
  o ← read;
  _ ← reject_if (negb (is_restore (ce_control control))
                 || bt_contains (workers_of o) (as_str (ce_chat_id control))) SvInvalidStartControl;
  expected ← lift (next_generation (ce_chat_id control) o);
  _ ← reject_if (negb (expected =? ce_generation control)) SvStaleHandshake;
  _ ← allocate_generation (ce_chat_id control);
  spawn_control control io.

Definition send_control (control : WorkerControlEnvelopeV1) (written : result string ()) : sv () :=
  o ← read;
  worker ← lift (ok_or (workers_of o !! as_str (ce_chat_id control)) SvUnknownWorker);
  _ ← lift (validate_control_identity worker control);
  write_control (lw_child worker) control written.

(** [now] is the reading of the clock. *)
Definition supervisor_receive (chat_id : StableId) (answer : received) (now : N) : sv WorkerOutputEnvelopeV1 :=
  o ← read;
  worker ← lift (ok_or (workers_of o !! as_str chat_id) SvUnknownWorker);
  output ← lift (receive_output answer);
  _ ← lift (validate_output_identity worker output);
  match oe_output output with
  | OkHeartbeat heartbeat =>
      _ ← reject_if (match lw_last_heartbeat worker with
                     | Some sequence => hb_sequence heartbeat <=? sequence
                     | None => false
                     end) SvStaleHandshake;
      _ ← modify (put_worker (as_str chat_id)
            (MkLive (lw_child worker) (lw_chat_id worker) (lw_run_id worker) (lw_generation worker)
               (lw_snapshot_hash worker) (Some (hb_sequence heartbeat)) (Some now)));
      mret output
  | _ => mret output
  end.

(** [waited]: what [try_wait] answers; an exited child has been waited for. *)
Definition check_health (chat_id : StableId) (waited : result string bool) : sv ProcessGeneration :=
  o ← read;
  worker ← lift (ok_or (workers_of o !! as_str chat_id) SvUnknownWorker);
  exited ← lift (map_err SvTransport waited);
  if (exited : bool)
  then _ ← modify (os_reap (lw_child worker)); throw SvProcessExited
  else mret (lw_generation worker).
(** [elapsed]: the time since the given instant. *)
Definition check_health_within (chat_id : StableId) (maximum_silence : N) (waited : result string bool)
    (elapsed : N → N) : sv ProcessGeneration :=
  generation ← check_health chat_id waited;
  o ← read;
  worker ← lift (ok_or (workers_of o !! as_str chat_id) SvUnknownWorker);
  _ ← reject_if (match lw_last_heartbeat_at worker with
                 | Some observed => maximum_silence <? elapsed observed
                 | None => true
                 end) SvHeartbeatTimeout;
  mret generation.

Definition acknowledges (control_id : StableId) (output : WorkerOutputEnvelopeV1) : bool :=
  match oe_output output with
  | OkShutdownAck received => bool_decide (received = control_id)
  | _ => false
  end.
(** The loop until the deadline; [answers] are the answers to the receives
    that start before it. *)
Fixpoint await_shutdown (worker : LiveWorkerV1) (control_id : StableId) (answers : list received) : sv bool :=
  match answers with
  | [] => mret false
  | answer :: answers =>
      match receive_output answer with
      | Ok output =>
          _ ← lift (validate_output_identity worker output);
          if acknowledges control_id output then mret true else await_shutdown worker control_id answers
      | Err SvOutputTimeout => mret false
      | Err error => _ ← terminate_worker worker; throw error
      end
  end.

Definition shutdown_worker (chat_id : StableId) (committed_cursor : N) (written : result string ())
    (answers : list received) : sv () :=
  o ← read;
  worker ← lift (ok_or (workers_of o !! as_str chat_id) SvUnknownWorker);
  _ ← modify (remove_worker (as_str chat_id));
  control_id ← lift (supervisor_id ("shutdown:" +:+ as_str (lw_chat_id worker) +:+ ":"
    +:+ pretty (lw_generation worker)));
  message_id ← lift (supervisor_id ("shutdown.message:" +:+ as_str control_id));
  let control := MkControl message_id (lw_chat_id worker) (lw_run_id worker) (lw_generation worker)
    (lw_snapshot_hash worker) committed_cursor (CkShutdown control_id) in
  _ ← write_control (lw_child worker) control written;
  acknowledged ← await_shutdown worker control_id answers;
  if (acknowledged : bool) then wait_or_kill worker
  else _ ← terminate_worker worker; throw SvShutdownTimeout.

Definition mark_crashed (chat_id : StableId) (generation : ProcessGeneration) : sv () :=
  o ← read;
  let key := as_str chat_id in
  worker ← lift (ok_or (workers_of o !! key) SvUnknownWorker);
  _ ← modify (remove_worker key);
  if negb (lw_generation worker =? generation)
  then _ ← modify (put_worker key worker); throw SvStaleHandshake
  else
  _ ← terminate_worker worker;
  state ← lift (ok_or (restarts_of o !! key) SvUnknownWorker);
  crashes ← lift (ok_or (checked_add u32_max (rs_crashes state) 1) SvRestartBudgetExhausted);
  _ ← modify (λ o, os_set_restarts (<[key := MkRestartState (rs_last_generation state) crashes]> (restarts_of o)) o);
  reject_if (ps_maximum_restarts (os_supervisor o) <? crashes) SvRestartBudgetExhausted.

(** [Drop]: every worker is terminated. *)
Definition supervisor_drop (o : os) : os :=
  os_set_workers ∅ (foldl (λ o w, os_kill (lw_child w) o) o (bt_values (workers_of o))).
End supervisor.
