(* ===== verification/SupervisorProofs.v ===== *)
(** * Worker supervision: fencing, accounting and the restart budget

    Whatever the operating system answers, a chat and a generation identify
    one process, a process only ever receives controls of its own identity,
    crashes are bounded, and no child is left unsupervised except on the
    failures listed in [may_leak]. *)
From S2P Require Export Supervisor.

Implicit Types (o : os) (w : LiveWorkerV1).

(** The identity a control carries and a worker was launched with. *)
Definition ce_identity (c : WorkerControlEnvelopeV1) : StableId * StableId * N * string :=
  (ce_chat_id c, ce_run_id c, ce_generation c, ce_snapshot_hash c).
Definition lw_identity w : StableId * StableId * N * string :=
  (lw_chat_id w, lw_run_id w, lw_generation w, lw_snapshot_hash w).

Section calls.
Context `{Sha256, !Serialize WorkerControlEnvelopeV1}
  (protocol_text : ProtocolError → string) (canonicalize : string → option string).

(** ** Calls *)

Inductive sv_call : Type :=
| SvStart (snapshot : WorkerFrozenRunSnapshotV1) (cursor : N) (io : launch)
| SvRestore (control : WorkerControlEnvelopeV1) (io : launch)
| SvSend (control : WorkerControlEnvelopeV1) (written : result string ())
| SvReceive (chat : StableId) (answer : received) (now : N)
| SvHealth (chat : StableId) (waited : result string bool)
| SvHealthWithin (chat : StableId) (silence : N) (waited : result string bool) (elapsed : N → N)
| SvShutdown (chat : StableId) (cursor : N) (written : result string ()) (answers : list received)
| SvCrashed (chat : StableId) (generation : N).

Definition unit_result {A} (x : os * result WorkerSupervisorError A) : os * result WorkerSupervisorError () :=
  (x.1, (λ _, ()) <$> x.2).
Definition sv_step (c : sv_call) o : os * result WorkerSupervisorError () :=
  match c with
  | SvStart s n io => unit_result (spawn_start protocol_text canonicalize s n io o)
  | SvRestore c io => unit_result (spawn_restore protocol_text canonicalize c io o)
  | SvSend c x => send_control protocol_text c x o
  | SvReceive c x n => unit_result (supervisor_receive c x n o)
  | SvHealth c x => unit_result (check_health c x o)
  | SvHealthWithin c n x e => unit_result (check_health_within c n x e o)
  | SvShutdown c n x l => shutdown_worker protocol_text c n x l o
  | SvCrashed c g => mark_crashed c g o
  end.

(** ** Invariants *)

Record os_inv o : Prop := {
  oi_key : ∀ k w, workers_of o !! k = Some w → k = as_str (lw_chat_id w);
  oi_worker : ∀ k w, workers_of o !! k = Some w → lw_child w < os_next o
    ∧ ∃ st, restarts_of o !! k = Some st ∧ rs_last_generation st = lw_generation w
            ∧ rs_crashes st ≤ ps_maximum_restarts (os_supervisor o);
  oi_child : ∀ k1 k2 w1 w2, workers_of o !! k1 = Some w1 → workers_of o !! k2 = Some w2 →
    lw_child w1 = lw_child w2 → k1 = k2;
  oi_launched : ∀ k w, workers_of o !! k = Some w → ∃ c, (lw_child w, c) ∈ os_sent o;
  oi_own : ∀ k w c, workers_of o !! k = Some w → (lw_child w, c) ∈ os_sent o → ce_identity c = lw_identity w;
  oi_sent : ∀ p c, (p, c) ∈ os_sent o → p < os_next o
    ∧ ∃ st, restarts_of o !! as_str (ce_chat_id c) = Some st ∧ ce_generation c ≤ rs_last_generation st;
  oi_same : ∀ p c1 c2, (p, c1) ∈ os_sent o → (p, c2) ∈ os_sent o → ce_identity c1 = ce_identity c2;
  oi_order : ∀ p1 p2 c1 c2, (p1, c1) ∈ os_sent o → (p2, c2) ∈ os_sent o → p1 < p2 →
    ce_chat_id c1 = ce_chat_id c2 → ce_generation c1 < ce_generation c2;
  oi_crashes : ∀ k st, restarts_of o !! k = Some st →
    rs_crashes st ≤ ps_maximum_restarts (os_supervisor o) + 1;
  oi_children : ∀ p, p ∈ os_children o → p < os_next o
}.

(** Every child that was spawned and not waited for is in the table, or was
    given up by a wait that failed. *)
Definition accounted o : Prop :=
  ∀ p, p ∈ os_children o → p ∈ os_lost o ∨ ∃ k w, workers_of o !! k = Some w ∧ lw_child w = p.

(** The calls that can lose track of a child: a launch whose pipes or pump
    thread fail, and a shutdown whose request cannot be written or is answered
    under another identity. *)
Definition may_leak (c : sv_call) (r : result WorkerSupervisorError ()) : bool :=
  match c, r with
  | (SvStart _ _ _ | SvRestore _ _), Err (SvSpawn _) => true
  | SvShutdown _ _ _ _, Err (SvTransport _ | SvStaleHandshake | SvInvalidStartControl) => true
  | _, _ => false
  end.

(** ** Effects on the operating system *)

(** A child that has been ended: waited for, or given up. *)
Definition os_ended (ws : list bool) (lost : bool) (p : child) o : os :=
  MkOs (os_supervisor o) (os_next o) (if lost then os_children o else os_children o ∖ {[p]}) (os_sent o) ws
    (if lost then {[p]} ∪ os_lost o else os_lost o).
Lemma os_reap_ended p o : os_reap p o = os_ended (os_waits o) false p o.
Proof. done. Qed.
Lemma os_kill_ended p o : ∃ ws b, os_kill p o = os_ended ws b p o.
Proof. unfold os_kill, os_answer. simpl. destruct (default true (head (os_waits o))); [by exists (tail (os_waits o)), false|by exists (tail (os_waits o)), true]. Qed.
Lemma terminate_worker_ended w o : ∃ ws b, terminate_worker w o = (os_ended ws b (lw_child w) o, Ok ()).
Proof. unfold terminate_worker, modify. destruct (os_kill_ended (lw_child w) o) as (ws & b & ->). eauto. Qed.
Lemma wait_or_kill_ended w o : ∃ ws b, wait_or_kill w o = (os_ended ws b (lw_child w) o, Ok ()).
Proof.
  unfold wait_or_kill, os_answer. simpl. destruct (default true (head (os_waits o))); [by exists (tail (os_waits o)), false|].
  match goal with |- context [terminate_worker w ?o'] => destruct (terminate_worker_ended w o') as (ws & b & ->) end.
  by exists ws, b.
Qed.

Lemma inv_ended ws b p o : os_inv o → os_inv (os_ended ws b p o).
Proof. intros I. split; try apply I. intros x Hx. apply (oi_children o I). destruct b; simpl in Hx; set_solver. Qed.
Lemma inv_reap p o : os_inv o → os_inv (os_reap p o).
Proof. rewrite os_reap_ended. apply inv_ended. Qed.
Lemma accounted_ended ws b p o : accounted o → accounted (os_ended ws b p o).
Proof. intros Ha x Hx. destruct (Ha x) as [?|?]; destruct b; simpl in *; set_solver. Qed.
Lemma accounted_reap p o : accounted o → accounted (os_reap p o).
Proof. rewrite os_reap_ended. apply accounted_ended. Qed.

Lemma inv_spawn o : os_inv o → os_inv (os_spawn o).
Proof.
  intros I. split; try apply I; simpl.
  - intros k w Hw. destruct (oi_worker o I k w Hw) as [? ?]. split; [lia|done].
  - intros p c Hc. destruct (oi_sent o I p c Hc) as [? ?]. split; [lia|done].
  - intros p [->%elem_of_singleton|Hp]%elem_of_union; [lia|]. specialize (oi_children o I p Hp). lia.
Qed.

Lemma elem_of_sent o p c q e : (p, c) ∈ os_sent (os_send q e o) ↔ (p, c) ∈ os_sent o ∨ p = q ∧ c = e.
Proof. simpl. rewrite elem_of_app, list_elem_of_singleton. naive_solver. Qed.

(** A control written to a registered worker under its identity. *)
Lemma inv_send_own k w c o :
  os_inv o → workers_of o !! k = Some w → ce_identity c = lw_identity w →
  os_inv (os_send (lw_child w) c o).
Proof.
  intros I Hw Hc. pose proof Hc as Hc'. unfold ce_identity, lw_identity in Hc'. injection Hc' as Hch _ Hg _.
  destruct (oi_worker o I k w Hw) as (Hn & st & Hst & Hlast & _). pose proof (oi_key o I k w Hw) as ->.
  destruct (oi_launched o I _ w Hw) as [c0 Hc0]. pose proof (oi_own o I _ w c0 Hw Hc0) as Hid0.
  assert (ce_chat_id c0 = ce_chat_id c ∧ ce_generation c0 = ce_generation c) as [Hch0 Hg0]
    by (unfold ce_identity, lw_identity in *; split; congruence).
  split; try apply I.
  - intros k' w' Hw'. destruct (oi_launched o I k' w' Hw') as [c' Hc'']. exists c'. apply elem_of_sent. by left.
  - intros k' w' c' Hw' [Hin|[Hp ->]]%elem_of_sent; [by apply (oi_own o I k')|].
    pose proof (oi_child o I _ _ _ _ Hw Hw' (eq_sym Hp)) as <-.
    change (workers_of o !! as_str (lw_chat_id w) = Some w') in Hw'. congruence.
  - intros p c' [Hin|[-> ->]]%elem_of_sent; [by apply (oi_sent o I)|]. split; [done|].
    exists st. rewrite Hch. split; [done|]. lia.
  - intros p c1 c2 [H1|[-> ->]]%elem_of_sent [H2|[Hp ->]]%elem_of_sent; subst;
      [by apply (oi_same o I p)|rewrite Hc; by apply (oi_own o I _ w _ Hw)
      |rewrite Hc; symmetry; by apply (oi_own o I _ w _ Hw)|done].
  - intros p1 p2 c1 c2 [H1|[-> ->]]%elem_of_sent [H2|[-> ->]]%elem_of_sent Hlt Heq; [by eapply (oi_order o I)| | |lia].
    + rewrite <-Hg0. eapply (oi_order o I); [exact H1|exact Hc0|done|congruence].
    + rewrite <-Hg0. eapply (oi_order o I); [exact Hc0|exact H2|done|congruence].
Qed.

(** A generation that was allocated and not used yet. *)
Record fresh_launch (chat : StableId) (generation : N) o : Prop := {
  fl_absent : workers_of o !! as_str chat = None;
  fl_state : ∃ st, restarts_of o !! as_str chat = Some st ∧ rs_last_generation st = generation
               ∧ rs_crashes st ≤ ps_maximum_restarts (os_supervisor o);
  fl_unused : ∀ p c, (p, c) ∈ os_sent o → ce_chat_id c = chat → ce_generation c < generation
}.

(** The launch control written to a new child. *)
Lemma inv_send_new c o :
  os_inv o → fresh_launch (ce_chat_id c) (ce_generation c) o →
  os_inv (os_send (os_next o) c (os_spawn o)).
Proof.
  intros I [Habs (st & Hst & Hlast & Hcr) Hun].
  assert (∀ p c', (p, c') ∈ os_sent o → p < os_next o) as Hlt by (intros p c' Hin; by apply (oi_sent o I) in Hin as [? _]).
  split; try apply I; simpl.
  - intros k w Hw. destruct (oi_worker o I k w Hw) as [? ?]. split; [lia|done].
  - intros k w Hw. destruct (oi_launched o I k w Hw) as [c' Hc']. exists c'. set_solver.
  - intros k w c' Hw [Hin|[Hp ->]]%elem_of_sent; [by apply (oi_own o I k)|].
    destruct (oi_worker o I k w Hw). simpl in Hp. lia.
  - intros p c' [Hin|[-> ->]]%elem_of_sent.
    + destruct (oi_sent o I p c' Hin) as [? ?]. split; [lia|done].
    + split; [simpl; lia|]. exists st. split; [done|lia].
  - intros p c1 c2 [H1|[-> ->]]%elem_of_sent [H2|[Hp ->]]%elem_of_sent; simpl in *; subst;
      [by apply (oi_same o I p)|apply Hlt in H1; lia|apply Hlt in H2; lia|done].
  - intros p1 p2 c1 c2 [H1|[-> ->]]%elem_of_sent [H2|[-> ->]]%elem_of_sent Hp Heq; simpl in *;
      [by eapply (oi_order o I)|by eapply Hun|apply Hlt in H2; lia|lia].
  - intros p [->%elem_of_singleton|Hp]%elem_of_union; [lia|]. specialize (oi_children o I p Hp). lia.
Qed.

(** ** The table *)

Lemma workers_put k w o : workers_of (put_worker k w o) = <[k := w]> (workers_of o).
Proof. done. Qed.
Lemma workers_remove k o : workers_of (remove_worker k o) = delete k (workers_of o).
Proof. done. Qed.
Lemma restarts_set m o : restarts_of (os_set_restarts m o) = m.
Proof. done. Qed.

Lemma inv_remove k o : os_inv o → os_inv (remove_worker k o).
Proof.
  intros I. assert (∀ k' w, delete k (workers_of o) !! k' = Some w → workers_of o !! k' = Some w) as Hd
    by (intros k' w; rewrite lookup_delete_Some; naive_solver).
  split; try apply I; simpl.
  - intros k' w Hw. apply (oi_key o I). auto.
  - intros k' w Hw. apply (oi_worker o I). auto.
  - intros k1 k2 w1 w2 H1 H2. apply (oi_child o I); auto.
  - intros k' w Hw. apply (oi_launched o I k'). auto.
  - intros k' w c Hw. apply (oi_own o I k'). auto.
Qed.

Lemma inv_refresh k w w' o :
  os_inv o → workers_of o !! k = Some w → lw_child w' = lw_child w → lw_identity w' = lw_identity w →
  os_inv (put_worker k w' o).
Proof.
  intros I Hw Hc Hi. pose proof Hi as Hi'. unfold lw_identity in Hi'. injection Hi' as Hch _ Hg _.
  assert (∀ k' x, <[k := w']> (workers_of o) !! k' = Some x →
    ∃ x0, workers_of o !! k' = Some x0 ∧ lw_child x = lw_child x0 ∧ lw_identity x = lw_identity x0
      ∧ lw_chat_id x = lw_chat_id x0 ∧ lw_generation x = lw_generation x0) as Hd.
  { intros k' x. destruct (decide (k' = k)) as [->|Hne].
    - rewrite lookup_insert_eq. intros [= <-]. by exists w.
    - rewrite lookup_insert_ne by done. intros Hx. by exists x. }
  split; try apply I; simpl.
  - intros k' x (x0 & Hx & _ & _ & -> & _)%Hd. by apply (oi_key o I).
  - intros k' x (x0 & Hx & -> & _ & _ & ->)%Hd. by apply (oi_worker o I).
  - intros k1 k2 w1 w2 (x1 & H1 & -> & _)%Hd (x2 & H2 & -> & _)%Hd. by apply (oi_child o I).
  - intros k' x (x0 & Hx & -> & _)%Hd. by apply (oi_launched o I k').
  - intros k' x c (x0 & Hx & -> & -> & _)%Hd. by apply (oi_own o I k').
Qed.

Lemma inv_register c w o :
  os_inv o → fresh_launch (ce_chat_id c) (ce_generation c) o →
  lw_child w = os_next o → lw_identity w = ce_identity c →
  os_inv (put_worker (as_str (ce_chat_id c)) w (os_send (os_next o) c (os_spawn o))).
Proof.
  intros I F Hc Hi. pose proof (inv_send_new c o I F) as I'. set (o' := os_send (os_next o) c (os_spawn o)) in *.
  pose proof Hi as Hi'. unfold lw_identity, ce_identity in Hi'. injection Hi' as Hch _ Hg _.
  assert (∀ k' x, workers_of o' !! k' = Some x → lw_child x ≠ os_next o) as Hold.
  { intros k' x Hx. destruct (oi_worker o I k' x Hx). lia. }
  assert (∀ k x, workers_of (put_worker (as_str (ce_chat_id c)) w o') !! k = Some x →
    (k = as_str (ce_chat_id c) ∧ x = w) ∨ workers_of o' !! k = Some x) as Hd
    by (intros k x; rewrite workers_put; intros [(<- & <-)|[_ Hx]]%lookup_insert_Some; auto).
  split; try apply I'.
  - intros k x [[-> ->]|Hx]%Hd; [congruence|by apply (oi_key o' I')].
  - intros k x [[-> ->]|Hx]%Hd; [|by apply (oi_worker o' I')]. split; [simpl; lia|].
    destruct F as [_ (st & Hst & Hl & Hcr) _]. exists st. split_and!; [done|congruence|done].
  - intros k1 k2 w1 w2 [[-> ->]|H1]%Hd [[-> ->]|H2]%Hd Heq; [done| | |by apply (oi_child o' I' k1 k2 w1 w2)].
    + exfalso. apply (Hold k2 w2 H2). congruence.
    + exfalso. apply (Hold k1 w1 H1). congruence.
  - intros k x [[-> ->]|Hx]%Hd; [|by apply (oi_launched o' I' k)]. exists c. rewrite Hc. apply elem_of_sent. auto.
  - intros k x c' [[-> ->]|Hx]%Hd Hin; [|by apply (oi_own o' I' k)]. rewrite Hi.
    apply (oi_same o' I' (lw_child w)); [done|]. rewrite Hc. apply elem_of_sent. auto.
Qed.

(** ** Restart states *)

Lemma inv_restart k st o :
  os_inv o → workers_of o !! k = None →
  (∀ st0, restarts_of o !! k = Some st0 → rs_last_generation st0 ≤ rs_last_generation st) →
  rs_crashes st ≤ ps_maximum_restarts (os_supervisor o) + 1 →
  os_inv (os_set_restarts (<[k := st]> (restarts_of o)) o).
Proof.
  intros I Habs Hle Hcr. split; try apply I; rewrite ?restarts_set.
  - intros k' w Hw. change (workers_of o !! k' = Some w) in Hw.
    destruct (oi_worker o I k' w Hw) as (? & st' & ? & ? & ?). split; [done|].
    exists st'. rewrite lookup_insert_ne; [done|]. congruence.
  - intros p c Hin. destruct (oi_sent o I p c Hin) as (? & st' & Hst & Hg). split; [done|].
    destruct (decide (k = as_str (ce_chat_id c))) as [->|Hne].
    + exists st. rewrite lookup_insert_eq. split; [done|]. specialize (Hle st' Hst). lia.
    + exists st'. by rewrite lookup_insert_ne.
  - intros k' st' [(_ & <-)|[_ Hx]]%lookup_insert_Some; [done|]. by apply (oi_crashes o I k').
Qed.

Lemma next_generation_ok chat o g :
  next_generation chat o = Ok g →
  let st := default RestartStateV1_default (restarts_of o !! as_str chat) in
  g = rs_last_generation st + 1 ∧ rs_crashes st ≤ ps_maximum_restarts (os_supervisor o) ∧ g ≤ u64_max.
Proof.
  unfold next_generation. intros Hn. res_inv Hn. apply checked_add_some in Hn as [-> Hb]. boolify. done.
Qed.

(** Allocating a generation for a chat without a worker. *)
Lemma allocate_fresh chat g o o' :
  os_inv o → workers_of o !! as_str chat = None → allocate_generation chat o = (o', Ok g) →
  os_inv o' ∧ fresh_launch chat g o' ∧ os_children o' = os_children o ∧ os_lost o' = os_lost o
  ∧ workers_of o' = workers_of o.
Proof.
  intros I Habs Ha. unfold allocate_generation in Ha. run_inv Ha. apply next_generation_ok in Ha0 as (-> & Hcr & _).
  set (st := default RestartStateV1_default (restarts_of o !! as_str chat)) in *.
  assert (∀ st0, restarts_of o !! as_str chat = Some st0 → st0 = st) as Hst by (intros st0 Hst0; unfold st; by rewrite Hst0).
  split_and!; try done.
  - apply inv_restart; simpl; try done; [|lia]. intros st0 ->%Hst. lia.
  - split; [done| |].
    + eexists. split; [apply lookup_insert_eq|done].
    + intros p c Hin <-. destruct (oi_sent o I p c Hin) as (_ & st0 & Hst0 & Hg). rewrite <-(Hst st0 Hst0). lia.
Qed.
Lemma allocate_error chat o o' er : allocate_generation chat o = (o', Err er) → o' = o.
Proof. intros Ha. unfold allocate_generation in Ha. by err_inv Ha. Qed.

(** ** Launching *)

Definition sent_launch (b : bool) (c : WorkerControlEnvelopeV1) o : os :=
  if b then os_send (os_next o) c (os_spawn o) else os_spawn o.
Definition launched_worker (c : WorkerControlEnvelopeV1) o : LiveWorkerV1 :=
  MkLive (os_next o) (ce_chat_id c) (ce_run_id c) (ce_generation c) (ce_snapshot_hash c) None None.

(** How a launch ends: nothing was spawned, the child was lost before its
    pipes were attached, it was killed, or it is registered. *)
Inductive launch_end (c : WorkerControlEnvelopeV1) (io : launch) o :
    os → result WorkerSupervisorError WorkerHandshakeV1 → Prop :=
| le_refused text : launch_end c io o o (Err (SvSpawn text))
| le_lost text : launch_end c io o (os_spawn o) (Err (SvSpawn text))
| le_killed b ws l er : launch_end c io o (os_ended ws l (os_next o) (sent_launch b c o)) (Err er)
| le_live output h :
    la_first io = RvOutput output →
    check_handshake canonicalize c (ps_executable (os_supervisor o)) output = Ok h →
    launch_end c io o (put_worker (as_str (ce_chat_id c)) (launched_worker c o) (sent_launch true c o)) (Ok h).

Lemma write_control_cases p c x o :
  (∃ text, write_control protocol_text p c x o = (o, Err (SvTransport text)))
  ∨ (∃ text, write_control protocol_text p c x o = (os_send p c o, Err (SvTransport text)))
  ∨ write_control protocol_text p c x o = (os_send p c o, Ok ()).
Proof.
  unfold write_control, mbind, stm_bind, lift, modify.
  destruct (encode_frame c); simpl; [|by left; eauto]. right. destruct x as [[]|text]; simpl; [by right|left; eauto].
Qed.

Lemma spawn_control_end c io o :
  launch_end c io o (spawn_control protocol_text canonicalize c io o).1
    (spawn_control protocol_text canonicalize c io o).2.
Proof.
  unfold spawn_control, mbind, stm_bind, read, lift, modify, reject_if, throw, mret, stm_ret.
  assert (∀ b er, launch_end c io o
    (let '(o', _) := terminate_worker (launched_worker c o) (sent_launch b c o) in (o', Err (A:=WorkerHandshakeV1) er)).1
    (let '(o', _) := terminate_worker (launched_worker c o) (sent_launch b c o) in (o', Err (A:=WorkerHandshakeV1) er)).2) as Hk.
  { intros b er. destruct (terminate_worker_ended (launched_worker c o) (sent_launch b c o)) as (ws & l & ->).
    by apply le_killed. }
  destruct (la_spawn io) as [[]|text]; simpl; [|apply le_refused].
  destruct (la_identity io); simpl; [|by eapply (Hk false)].
  destruct (la_stdin io); simpl; [|apply le_lost]. destruct (la_stdout io); simpl; [|apply le_lost].
  destruct (la_pump io) as [[]|text]; simpl; [|apply le_lost].
  unfold attempt_call.
  destruct (write_control_cases (os_next o) c (la_write io) (os_spawn o)) as [[er ->]|[[text ->]| ->]]; simpl.
  - by eapply (Hk false).
  - by eapply (Hk true).
  - destruct (la_first io) as [output| | |] eqn:Hf; simpl; try by eapply (Hk true).
    destruct (check_handshake canonicalize c (ps_executable (os_supervisor o)) output) as [h|er] eqn:Hh; simpl.
    + by apply le_live with output.
    + by eapply (Hk true).
Qed.

Lemma spawn_control_inv c io o :
  os_inv o → fresh_launch (ce_chat_id c) (ce_generation c) o →
  os_inv (spawn_control protocol_text canonicalize c io o).1.
Proof.
  intros I F. assert (∀ b, os_inv (sent_launch b c o)) as Hs
    by (intros []; simpl; [by apply inv_send_new|by apply inv_spawn]).
  destruct (spawn_control_end c io o) as [|text|b ws l er|output h _ Hh]; [done|by apply inv_spawn|by apply inv_ended|].
  by apply inv_register.
Qed.

Lemma spawn_control_accounted c io o :
  os_inv o → workers_of o !! as_str (ce_chat_id c) = None → accounted o →
  (∀ text, (spawn_control protocol_text canonicalize c io o).2 ≠ Err (SvSpawn text)) →
  accounted (spawn_control protocol_text canonicalize c io o).1.
Proof.
  intros I Habs Ha. destruct (spawn_control_end c io o) as [text|text|b ws l er|output h _ Hh]; intros Hne;
    [by destruct (Hne text)|by destruct (Hne text)| |].
  - intros p Hp. assert (p ∈ os_children o ∧ p ∉ os_lost o ∨ p ∈ os_lost o ∨ l = true ∧ p = os_next o) as [[Hp' Hn]|Hp'].
    { destruct (decide (p ∈ os_lost o)); [by auto|]. destruct b, l; simpl in Hp; set_solver. }
    + right. destruct (Ha p Hp') as [?|(k & w & Hw & Hc)]; [done|]. exists k, w. by destruct b.
    + left. destruct b, l; simpl; set_solver.
  - intros p Hp. simpl in Hp. apply elem_of_union in Hp as [->%elem_of_singleton|Hp].
    + right. exists (as_str (ce_chat_id c)), (launched_worker c o). rewrite workers_put, lookup_insert_eq. done.
    + destruct (Ha p Hp) as [?|(k & w & Hw & Hc)]; [by left|]. right. exists k, w. rewrite workers_put, lookup_insert_ne; [done|].
      intros <-. congruence.
Qed.

(** A launching call: it is refused without effect, it allocated a generation
    and stopped, or it launches a worker on a fresh generation. *)
Inductive launching o : os * result WorkerSupervisorError WorkerHandshakeV1 → Prop :=
| la_refused er : launching o (o, Err er)
| la_allocated o1 er : os_inv o1 → os_children o1 = os_children o → os_lost o1 = os_lost o → workers_of o1 = workers_of o →
    launching o (o1, Err er)
| la_launched o1 c io : os_inv o1 → os_children o1 = os_children o → os_lost o1 = os_lost o → workers_of o1 = workers_of o →
    fresh_launch (ce_chat_id c) (ce_generation c) o1 →
    launching o (spawn_control protocol_text canonicalize c io o1).

Lemma spawn_start_launching snapshot cursor io o :
  os_inv o → launching o (spawn_start protocol_text canonicalize snapshot cursor io o).
Proof.
  intros I. unfold spawn_start. unfold mbind at 1, stm_bind at 1, read at 1. unfold reject_if, mbind at 1, stm_bind at 1.
  destruct (bt_contains (workers_of o) (as_str (ws_chat_id snapshot))) eqn:Hb; simpl; [apply la_refused|].
  boolify. unfold mbind at 1, stm_bind at 1.
  destruct (allocate_generation (ws_chat_id snapshot) o) as [o1 [g|er]] eqn:Ha.
  - destruct (allocate_fresh _ _ _ _ I Hb Ha) as (I1 & F & Hc & Hl & Hw).
    unfold mbind, stm_bind, lift. destruct (supervisor_id _); [by apply la_launched|by apply la_allocated].
  - rewrite (allocate_error _ _ _ _ Ha). apply la_refused.
Qed.
Lemma spawn_restore_launching c io o :
  os_inv o → launching o (spawn_restore protocol_text canonicalize c io o).
Proof.
  intros I. unfold spawn_restore, mbind, stm_bind, read, reject_if, lift.
  destruct (is_restore (ce_control c)); simpl; [|apply la_refused].
  destruct (bt_contains (workers_of o) (as_str (ce_chat_id c))) eqn:Hb; simpl; [apply la_refused|]. boolify.
  destruct (next_generation (ce_chat_id c) o) as [g|er] eqn:Hn; simpl; [|apply la_refused].
  destruct (N.eqb_spec g (ce_generation c)) as [->|Hne]; simpl; [|apply la_refused].
  destruct (allocate_generation (ce_chat_id c) o) as [o1 [g|er]] eqn:Ha.
  - destruct (allocate_fresh _ _ _ _ I Hb Ha) as (I1 & F & Hc & Hl & Hw). apply la_launched; try done.
    unfold allocate_generation in Ha. run_inv Ha. rewrite Hn in Ha0. by injection Ha0 as <-.
  - rewrite (allocate_error _ _ _ _ Ha). apply la_refused.
Qed.

Lemma launching_inv o x : os_inv o → launching o x → os_inv x.1.
Proof. intros I []; simpl; [done|done|by apply spawn_control_inv]. Qed.
Lemma launching_accounted o x :
  os_inv o → launching o x → accounted o → (∀ text, x.2 ≠ Err (SvSpawn text)) → accounted x.1.
Proof.
  assert (∀ o1, os_children o1 = os_children o → os_lost o1 = os_lost o → workers_of o1 = workers_of o →
    accounted o → accounted o1) as Hsame.
  { intros o1 Hc Hl Hw Ha p. rewrite Hc, Hl, Hw. apply Ha. }
  intros I [er|o1 er I1 Hc Hl Hw|o1 c io I1 Hc Hl Hw F] Ha Hne; simpl; [done|by apply Hsame|].
  apply spawn_control_accounted; [done|apply F|by apply Hsame|exact Hne].
Qed.

(** ** The other calls *)

Lemma send_control_step c x o :
  (send_control protocol_text c x o).1 = o
  ∨ ∃ w, workers_of o !! as_str (ce_chat_id c) = Some w ∧ ce_identity c = lw_identity w
      ∧ (send_control protocol_text c x o).1 = os_send (lw_child w) c o.
Proof.
  unfold send_control, mbind, stm_bind, read, lift.
  destruct (workers_of o !! as_str (ce_chat_id c)) as [w|] eqn:Hw; simpl; [|by left].
  destruct (validate_control_identity w c) as [u|er] eqn:Hv; [|by left].
  unfold validate_control_identity in Hv. apply fail_if_ok in Hv. boolify; destruct_and?.
  destruct (write_control_cases (lw_child w) c x o) as [[er ->]|[[text ->]| ->]]; simpl; [by left|right..];
    exists w; (split; [done|]); split; [|done| |done]; unfold ce_identity, lw_identity; congruence.
Qed.

Lemma receive_step chat answer now o :
  (supervisor_receive chat answer now o).1 = o
  ∨ ∃ w w', workers_of o !! as_str chat = Some w ∧ lw_child w' = lw_child w ∧ lw_identity w' = lw_identity w
      ∧ (supervisor_receive chat answer now o).1 = put_worker (as_str chat) w' o.
Proof.
  unfold supervisor_receive, mbind, stm_bind, read, lift, reject_if, modify, mret, stm_ret.
  destruct (workers_of o !! as_str chat) as [w|] eqn:Hw; simpl; [|by left].
  destruct (receive_output answer) as [output|er]; [|by left].
  destruct (validate_output_identity w output); [|by left].
  destruct (oe_output output); simpl; try by left.
  match goal with |- context [fail_if ?b _] => destruct b end; simpl; [by left|].
  right. exists w. eexists. split; [done|]. split; [|split; [|reflexivity]]; done.
Qed.

Lemma check_health_step chat waited o :
  (check_health chat waited o).1 = o
  ∨ ∃ w, workers_of o !! as_str chat = Some w ∧ (check_health chat waited o).1 = os_reap (lw_child w) o.
Proof.
  unfold check_health, mbind, stm_bind, read, lift, modify, mret, stm_ret, throw.
  destruct (workers_of o !! as_str chat) as [w|] eqn:Hw; simpl; [|by left].
  destruct waited as [[]|text]; simpl; [right; eauto|by left|by left].
Qed.
Lemma check_health_within_state chat silence waited elapsed o :
  (check_health_within chat silence waited elapsed o).1 = (check_health chat waited o).1.
Proof.
  unfold check_health_within. unfold mbind at 1, stm_bind at 1.
  destruct (check_health chat waited o) as [o1 [g|er]]; [|done]. unfold mbind, stm_bind, read, lift, reject_if.
  destruct (workers_of o1 !! as_str chat); [|done]. simpl. by destruct (match lw_last_heartbeat_at _ with Some _ => _ | None => _ end).
Qed.

Lemma await_shutdown_end w i answers o :
  (∃ b, await_shutdown w i answers o = (o, Ok b))
  ∨ await_shutdown w i answers o = (o, Err SvStaleHandshake)
  ∨ (∃ ws l er, await_shutdown w i answers o = (os_ended ws l (lw_child w) o, Err er)).
Proof.
  assert (∀ er, ∃ ws l er', (_ ← terminate_worker w; throw er : sv bool) o = (os_ended ws l (lw_child w) o, Err er')) as Hk.
  { intros er. unfold mbind, stm_bind. destruct (terminate_worker_ended w o) as (ws & l & ->). by exists ws, l, er. }
  induction answers as [|x answers IH]; simpl; [left; by exists false|].
  destruct x as [output|text| |]; simpl; [|right; right; apply Hk|left; by exists false|right; right; apply Hk].
  unfold mbind, stm_bind, lift. destruct (validate_output_identity w output) as [u|er] eqn:Hv.
  - destruct (acknowledges i output); [left; by exists true|done].
  - right. left. unfold validate_output_identity in Hv.
    destruct (negb (oe_generation output =? lw_generation w)); simpl in Hv; [congruence|].
    destruct (oe_output output); try discriminate Hv.
    match type of Hv with fail_if ?b _ = _ => destruct b; simpl in Hv end; congruence.
Qed.

(** How a shutdown ends; only the last case gives the child up without having
    tried to end it. *)
Inductive shutdown_end (k : string) o : os * result WorkerSupervisorError () → Prop :=
| se_unknown : shutdown_end k o (o, Err SvUnknownWorker)
| se_ended w c ws l r : workers_of o !! k = Some w → ce_identity c = lw_identity w →
    shutdown_end k o (os_ended ws l (lw_child w) (remove_worker k (os_send (lw_child w) c o)), r)
| se_lost w o1 er : workers_of o !! k = Some w →
    (o1 = o ∨ ∃ c, ce_identity c = lw_identity w ∧ o1 = os_send (lw_child w) c o) →
    er = SvInvalidStartControl ∨ er = SvStaleHandshake ∨ (∃ text, er = SvTransport text) →
    shutdown_end k o (remove_worker k o1, Err er).

Lemma supervisor_id_error m er : supervisor_id m = Err er → er = SvInvalidStartControl.
Proof. unfold supervisor_id. destruct (StableId_parse _); simpl; congruence. Qed.

Lemma shutdown_ends chat cursor written answers o :
  shutdown_end (as_str chat) o (shutdown_worker protocol_text chat cursor written answers o).
Proof.
  unfold shutdown_worker, mbind, stm_bind, read, lift, modify.
  destruct (workers_of o !! as_str chat) as [w|] eqn:Hw; simpl; [|apply se_unknown].
  destruct (supervisor_id _) as [i|er] eqn:Hi1;
    [|apply se_lost with w; [done|by left|left; by eapply supervisor_id_error]].
  destruct (supervisor_id ("shutdown.message:" +:+ as_str i)) as [m|er] eqn:Hi2;
    [|apply se_lost with w; [done|by left|left; by eapply supervisor_id_error]].
  match goal with |- context [write_control _ _ ?c _ _] => set (ctl := c) end.
  assert (ce_identity ctl = lw_identity w) as Hid by done.
  destruct (write_control_cases (lw_child w) ctl written (remove_worker (as_str chat) o)) as [[text ->]|[[text ->]| ->]].
  - apply se_lost with w; [done|by left|right; right; eauto].
  - apply (se_lost _ _ w (os_send (lw_child w) ctl o)); [done|right; eauto|right; right; eauto].
  - change (os_send (lw_child w) ctl (remove_worker (as_str chat) o))
      with (remove_worker (as_str chat) (os_send (lw_child w) ctl o)).
    destruct (await_shutdown_end w i answers (remove_worker (as_str chat) (os_send (lw_child w) ctl o)))
      as [[b ->]|[->|(ws & l & er & ->)]].
    + destruct b.
      * cbv iota. match goal with |- context [wait_or_kill w ?o'] => destruct (wait_or_kill_ended w o') as (ws & l & ->) end.
        by apply (se_ended _ _ w ctl).
      * destruct (os_kill_ended (lw_child w) (remove_worker (as_str chat) (os_send (lw_child w) ctl o)))
          as (ws & l & Hk). simpl. rewrite Hk. by apply (se_ended _ _ w ctl).
    + apply (se_lost _ _ w (os_send (lw_child w) ctl o)); [done|right; eauto|right; by left].
    + by apply (se_ended _ _ w ctl).
Qed.

Lemma accounted_gone k w ws l o :
  os_inv o → workers_of o !! k = Some w → accounted o →
  accounted (os_ended ws l (lw_child w) (remove_worker k o)).
Proof.
  intros I Hw Ha p Hp. assert (p ∈ os_children o) as Hin by (destruct l; simpl in Hp; set_solver).
  destruct (Ha p Hin) as [?|(k' & w' & Hw' & Hc)]; [left; destruct l; simpl; set_solver|].
  destruct (decide (k = k')) as [<-|Hne].
  - left. assert (w' = w) as -> by congruence. destruct l; simpl in *; set_solver.
  - right. exists k', w'. split; [|done]. change (delete k (workers_of o) !! k' = Some w'). by rewrite lookup_delete_ne.
Qed.

(** How a crash report ends. *)
Inductive crash_end (k : string) o : os * result WorkerSupervisorError () → Prop :=
| ce_same r : crash_end k o (o, r)
| ce_gone w ws l r : workers_of o !! k = Some w →
    crash_end k o (os_ended ws l (lw_child w) (remove_worker k o), r)
| ce_counted w st ws l r : workers_of o !! k = Some w → restarts_of o !! k = Some st →
    crash_end k o (os_set_restarts (<[k := MkRestartState (rs_last_generation st) (rs_crashes st + 1)]> (restarts_of o))
                     (os_ended ws l (lw_child w) (remove_worker k o)), r).

Lemma put_removed k w o : workers_of o !! k = Some w → put_worker k w (remove_worker k o) = o.
Proof.
  intros Hw. destruct o as [[e m r x] n c t q l]. unfold put_worker, remove_worker, os_set_workers, workers_of in *.
  simpl in *. by rewrite insert_delete_eq, insert_id.
Qed.

Lemma mark_crashed_ends chat g o : crash_end (as_str chat) o (mark_crashed chat g o).
Proof.
  unfold mark_crashed, mbind, stm_bind, read, lift, modify, reject_if, throw.
  destruct (workers_of o !! as_str chat) as [w|] eqn:Hw; simpl; [|apply ce_same].
  destruct (lw_generation w =? g); simpl; [|rewrite put_removed by done; apply ce_same].
  destruct (os_kill_ended (lw_child w) (remove_worker (as_str chat) o)) as (ws & l & ->).
  destruct (restarts_of o !! as_str chat) as [st|] eqn:Hst; simpl; [|by apply ce_gone].
  destruct (checked_add u32_max (rs_crashes st) 1) as [n|] eqn:Hn; simpl; [|by apply ce_gone].
  apply checked_add_some in Hn as [-> _]. exact (ce_counted _ _ w st ws l _ Hw Hst).
Qed.

(** ** Waits that do not fail *)

(** Every wait to come succeeds, and none has failed. *)
Definition waits_succeed o : Prop := Forall (λ b, b = true) (os_waits o) ∧ os_lost o = ∅.
Definition keeps_waits {A} (m : sv A) : Prop := ∀ o, waits_succeed o → waits_succeed (m o).1.

Lemma keeps_waits_bind {A B} (m : sv A) (f : A → sv B) :
  keeps_waits m → (∀ x, keeps_waits (f x)) → keeps_waits (x ← m; f x).
Proof.
  intros Hm Hf o Ho. unfold mbind, stm_bind. specialize (Hm o Ho). destruct (m o) as [o' [x|er]]; [by apply Hf|done].
Qed.
Lemma keeps_modify f : (∀ o, waits_succeed o → waits_succeed (f o)) → keeps_waits (modify f).
Proof. intros Hf o Ho. by apply Hf. Qed.
Lemma keeps_state {A} (m : sv A) : (∀ o, (m o).1 = o) → keeps_waits m.
Proof. intros Hm o Ho. by rewrite Hm. Qed.
Lemma os_kill_waits p o : waits_succeed o → waits_succeed (os_kill p o).
Proof.
  intros [Hw Hl]. unfold os_kill, os_answer. destruct o as [s n c t [|[] ws] l]; simpl in *; [done|..];
    apply Forall_cons in Hw as [? ?]; [done|discriminate].
Qed.
Lemma keeps_terminate w : keeps_waits (terminate_worker w).
Proof. apply keeps_modify, os_kill_waits. Qed.
Lemma keeps_wait_or_kill w : keeps_waits (wait_or_kill w).
Proof.
  intros [s n c t [|[] ws] l] [Hw Hl]; simpl in *; [done|..]; apply Forall_cons in Hw as [? ?]; [done|discriminate].
Qed.

Ltac keeps_step :=
  first [ apply keeps_terminate | apply keeps_wait_or_kill
        | apply keeps_waits_bind; [|intros ?]
        | apply keeps_modify; done
        | apply keeps_state; done
        | match goal with
          | |- keeps_waits (if ?b then _ else _) => destruct b
          | |- keeps_waits (match ?x with _ => _ end) => destruct x
          end ].

Lemma keeps_write p c x : keeps_waits (write_control protocol_text p c x).
Proof. unfold write_control. repeat keeps_step. Qed.
Lemma keeps_allocate chat : keeps_waits (allocate_generation chat).
Proof. unfold allocate_generation. repeat keeps_step. Qed.
Lemma keeps_attempt {A} (m : sv A) : keeps_waits m → keeps_waits (attempt_call m).
Proof. intros Hm o Ho. unfold attempt_call. specialize (Hm o Ho). by destruct (m o). Qed.
Lemma keeps_spawn c io : keeps_waits (spawn_control protocol_text canonicalize c io).
Proof.
  unfold spawn_control. repeat (first [apply keeps_attempt, keeps_write | keeps_step]).
Qed.
Lemma keeps_await w i answers : keeps_waits (await_shutdown w i answers).
Proof. induction answers as [|x answers IH]; simpl; [by apply keeps_state|]. repeat (first [done | keeps_step]). Qed.

Lemma step_waits c o : waits_succeed o → waits_succeed (sv_step c o).1.
Proof.
  destruct c as [s n io|c io|c x|chat x n|chat x|chat n x e|chat n x l|chat g]; simpl;
    match goal with
    | |- waits_succeed o → waits_succeed (?m o).1 => revert o; change (keeps_waits m)
    end;
    [unfold spawn_start|unfold spawn_restore|unfold send_control|unfold supervisor_receive|unfold check_health
    |unfold check_health_within, check_health|unfold shutdown_worker|unfold mark_crashed];
    repeat (first [apply keeps_write | apply keeps_allocate | apply keeps_spawn | apply keeps_await | keeps_step]).
Qed.

(** ** Steps *)

Lemma step_inv c o : os_inv o → os_inv (sv_step c o).1.
Proof.
  intros I. destruct c as [s n io|c io|c x|chat x n|chat x|chat n x e|chat n x l|chat g]; simpl.
  - by eapply launching_inv, spawn_start_launching.
  - by eapply launching_inv, spawn_restore_launching.
  - destruct (send_control_step c x o) as [->|(w & Hw & Hid & ->)]; [done|by eapply inv_send_own].
  - destruct (receive_step chat x n o) as [->|(w & w' & Hw & Hc & Hi & ->)]; [done|by eapply inv_refresh].
  - destruct (check_health_step chat x o) as [->|(w & _ & ->)]; [done|by apply inv_reap].
  - rewrite check_health_within_state.
    destruct (check_health_step chat x o) as [->|(w & _ & ->)]; [done|by apply inv_reap].
  - destruct (shutdown_ends chat n x l o) as [|w c ws lo r Hw Hid|w o1 er Hw [->|(c & Hid & ->)] _]; simpl;
      [done|apply inv_ended, inv_remove; by eapply inv_send_own|by apply inv_remove|apply inv_remove; by eapply inv_send_own].
  - destruct (mark_crashed_ends chat g o) as [r|w ws lo r Hw|w st ws lo r Hw Hst]; simpl;
      [done|by apply inv_ended, inv_remove|].
    destruct (oi_worker o I _ w Hw) as (_ & st' & Hst' & _ & Hcr). rewrite Hst in Hst'. injection Hst' as <-.
    apply (inv_restart (as_str chat) (MkRestartState (rs_last_generation st) (rs_crashes st + 1))
      (os_ended ws lo (lw_child w) (remove_worker (as_str chat) o))); [by apply inv_ended, inv_remove|apply lookup_delete_eq| |simpl; lia].
    intros st0 Hst0. change (restarts_of o !! as_str chat = Some st0) in Hst0. assert (st0 = st) as -> by congruence. done.
Qed.

Lemma step_accounted c o :
  os_inv o → accounted o → may_leak c (sv_step c o).2 = false → accounted (sv_step c o).1.
Proof.
  intros I Ha. destruct c as [s n io|c io|c x|chat x n|chat x|chat n x e|chat n x l|chat g]; simpl.
  - intros Hl. apply (launching_accounted o); [done|by apply spawn_start_launching|done|].
    intros text Heq. by rewrite Heq in Hl.
  - intros Hl. apply (launching_accounted o); [done|by apply spawn_restore_launching|done|].
    intros text Heq. by rewrite Heq in Hl.
  - intros _. by destruct (send_control_step c x o) as [->|(w & Hw & Hid & ->)].
  - intros _. destruct (receive_step chat x n o) as [->|(w & w' & Hw & Hc & Hi & ->)]; [done|].
    intros p Hp. destruct (Ha p Hp) as [?|(k & w0 & Hw0 & <-)]; [by left|right]. destruct (decide (k = as_str chat)) as [->|Hne].
    + exists (as_str chat), w'. rewrite workers_put, lookup_insert_eq. split; [done|congruence].
    + exists k, w0. by rewrite workers_put, lookup_insert_ne.
  - intros _. destruct (check_health_step chat x o) as [->|(w & _ & ->)]; [done|by apply accounted_reap].
  - intros _. rewrite check_health_within_state.
    destruct (check_health_step chat x o) as [->|(w & _ & ->)]; [done|by apply accounted_reap].
  - destruct (shutdown_ends chat n x l o) as [|w c ws lo r Hw Hid|w o1 er Hw _ [->|[->|[text ->]]]]; simpl; try done.
    intros _. apply (accounted_gone _ w ws lo (os_send (lw_child w) c o)); [by eapply inv_send_own|done|exact Ha].
  - intros _. destruct (mark_crashed_ends chat g o) as [r|w ws lo r Hw|w st ws lo r Hw Hst]; simpl; [done|..];
      exact (accounted_gone _ w ws lo o I Hw Ha).
Qed.

(** Runs of calls, with the result of each. *)
Fixpoint sv_run (cs : list sv_call) o : os * list (result WorkerSupervisorError ()) :=
  match cs with
  | [] => (o, [])
  | c :: cs =>
      let '(o1, r) := sv_step c o in
      let '(o2, rs) := sv_run cs o1 in (o2, r :: rs)
  end.
Definition sv_reachable o : Prop :=
  ∃ path restarts waits cs, o = (sv_run cs (ProcessWorkerSupervisorV1_new path restarts waits)).1.

Lemma run_inv_all cs o : os_inv o → os_inv (sv_run cs o).1.
Proof.
  revert o. induction cs as [|c cs IH]; intros o I; simpl; [done|].
  pose proof (step_inv c o I) as I1. destruct (sv_step c o) as [o1 r]. specialize (IH o1 I1).
  by destruct (sv_run cs o1).
Qed.
Lemma run_waits cs o : waits_succeed o → waits_succeed (sv_run cs o).1.
Proof.
  revert o. induction cs as [|c cs IH]; intros o Ho; simpl; [done|].
  pose proof (step_waits c o Ho) as H1. destruct (sv_step c o) as [o1 r]. specialize (IH o1 H1).
  by destruct (sv_run cs o1).
Qed.
Lemma drop_waits o : waits_succeed o → os_lost (supervisor_drop o) = ∅.
Proof.
  intros Ho. unfold supervisor_drop. generalize (bt_values (workers_of o)) as l. intros l. simpl.
  revert o Ho. induction l as [|w l IH]; intros o Ho; simpl; [apply Ho|]. by apply IH, os_kill_waits.
Qed.
Lemma os_inv_new path restarts waits : os_inv (ProcessWorkerSupervisorV1_new path restarts waits).
Proof. split; try done; intros *; unfold workers_of, restarts_of; simpl; rewrite ?lookup_empty; set_solver. Qed.
Lemma sv_reachable_inv o : sv_reachable o → os_inv o.
Proof. intros (path & n & ws & cs & ->). apply run_inv_all, os_inv_new. Qed.

Lemma supervisor_drop_gone o p :
  p ∈ os_children (supervisor_drop o) →
  p ∈ os_lost (supervisor_drop o) ∨ p ∈ os_children o ∧ p ∉ lw_child <$> bt_values (workers_of o).
Proof.
  unfold supervisor_drop. generalize (bt_values (workers_of o)) as l. intros l. simpl.
  revert o. induction l as [|w l IH] using rev_ind; intros o; simpl; [set_solver|].
  rewrite foldl_app. simpl. set (o' := foldl _ _ _). destruct (os_kill_ended (lw_child w) o') as (ws & b & ->).
  rewrite fmap_app. intros Hp. specialize (IH o). fold o' in IH.
  assert (p ∈ os_children o' ∧ (b = false → p ≠ lw_child w)) as [Hin Hne] by (destruct b; simpl in Hp; set_solver).
  destruct (IH Hin) as [Hl|[Hc Hn]]; [left; destruct b; simpl; set_solver|].
  destruct (decide (p = lw_child w)) as [->|]; [left; destruct b; simpl; [set_solver|by destruct (Hne eq_refl)]|].
  right. split; [done|]. simpl. rewrite elem_of_app, list_elem_of_singleton. tauto.
Qed.
Lemma supervisor_drop_lost o : os_lost o ⊆ os_lost (supervisor_drop o).
Proof.
  unfold supervisor_drop. generalize (bt_values (workers_of o)) as l. intros l. simpl.
  revert o. induction l as [|w l IH]; intros o; simpl; [done|]. etransitivity; [|apply IH].
  destruct (os_kill_ended (lw_child w) o) as (ws & b & ->). destruct b; simpl; set_solver.
Qed.
End calls.
