(* ===== verification/SupervisorTheorems.v ===== *)
(** * Worker supervision: the theorems

    The fence on processes, the accounting of children, the restart budget,
    and the composition with the worker: what the worker's stdio loop writes
    is what the pump delivers, and the handshake of a worker that accepts its
    control is accepted by the supervisor. *)
From S2P Require Export SupervisorProofs.

(** ** The pump *)

Section pump_facts.
Context `{!Serialize WorkerOutputEnvelopeV1, !Deserialize WorkerOutputEnvelopeV1}
  (io_text : ErrorKind → string) (protocol_text : ProtocolError → string).

#[local] Arguments read_exact : simpl never.
(** On readers that only deliver data, the core's frame reader takes the same
    frames from the stream as the worker's. *)
Lemma read_output_frame_data r :
  data_reader r →
  ∃ r', data_reader r' ∧
    match next_frame (stream r) with
    | Ok None => read_output_frame io_text protocol_text r = Some (r', Ok None)
    | Ok (Some (frame, rest)) =>
        read_output_frame io_text protocol_text r
        = Some (r', Some <$> map_err protocol_text (decode_frame frame)) ∧ stream r' = rest
    | Err _ => ∃ text, read_output_frame io_text protocol_text r = Some (r', Err text)
    end.
Proof.
  intros Hd. destruct (read_one_frame_data r Hd) as (r' & Hd' & Hr). exists r'. split; [done|].
  unfold read_one_frame in Hr. unfold read_output_frame.
  destruct (next_frame (stream r)) as [[[frame rest]|]|er]; [destruct Hr as [Hr <-]|..];
    (destruct (read_prefix FRAME_PREFIX_BYTES [] r) as [[r1 [[p|]|e]]|]; [| | |discriminate Hr]); simplify_eq/=; eauto;
    try (destruct er; eauto; fail).
  all: match goal with |- context [MAX_FRAME_BYTES <? from_be_bytes ?p] =>
      destruct (MAX_FRAME_BYTES <? from_be_bytes p); simplify_eq/=; eauto;
      destruct (read_exact (S (length r1)) (N.to_nat (from_be_bytes p)) [] r1) as [[r2 [body|[]]]|]; simplify_eq/=; eauto
    end.
Qed.

Context `{!SerdeRoundTrip WorkerOutputEnvelopeV1}.

Lemma pump_loop_frames outs bs fuel r :
  frames outs bs → data_reader r → stream r = bs → (length outs < fuel)%nat →
  pump_loop io_text protocol_text fuel r = Ok <$> outs.
Proof.
  intros Hf. revert fuel r. induction Hf as [|o os f bs He Hf IH]; intros fuel r Hd Hs Hl;
    (destruct fuel as [|fuel]; [simpl in Hl; lia|]); cbn [pump_loop].
  - destruct (read_output_frame_data r Hd) as (r' & _ & Hr). rewrite Hs in Hr. simpl in Hr. by rewrite Hr.
  - destruct (read_output_frame_data r Hd) as (r' & Hd' & Hr). rewrite Hs in Hr.
    rewrite (next_frame_encoded o f bs He) in Hr. destruct Hr as [-> Hs'].
    assert (decode_frame f = Ok o) as ->.
    { apply encode_frame_ok in He as (body & Hbody & Hle & ->). by apply decode_encoded. }
    simpl. f_equal. apply IH; [done..|simpl in Hl; lia].
Qed.

Lemma frames_length outs bs : frames outs bs → (length outs <= length bs)%nat.
Proof.
  induction 1 as [|o os f bs He Hf IH]; simpl; [done|].
  apply encode_frame_ok in He as (body & _ & _ & ->). rewrite !length_app. simpl. lia.
Qed.

Lemma pump_frames outs bs r :
  frames outs bs → data_reader r → stream r = bs → pump_outputs io_text protocol_text r = Ok <$> outs.
Proof.
  intros Hf Hd Hs. apply (pump_loop_frames outs bs); try done.
  rewrite unread_stream, Hs by done. apply frames_length in Hf. lia.
Qed.
End pump_facts.

(** ** A worker and its supervisor *)

Section sessions.
Context `{Sha256Laws, !Serialize WorkerFrozenRunSnapshotV1, !Serialize json,
          !Serialize (string * WorkerFrozenRunSnapshotV1 * string), !Serialize WorkerCheckpointV1,
          !ToValue CapabilityOutcomeV1,
          !Serialize WorkerControlEnvelopeV1, !Serialize WorkerProposalEnvelopeV1,
          !Serialize WorkerOutputEnvelopeV1, !Deserialize WorkerControlEnvelopeV1,
          !Deserialize WorkerOutputEnvelopeV1,
          !SerdeRoundTrip WorkerControlEnvelopeV1, !SerdeRoundTrip WorkerOutputEnvelopeV1}.
Context (version : string) (exe : option string).
Context (io_text : ErrorKind → string) (protocol_text : ProtocolError → string)
  (canonicalize : string → option string).
Implicit Type o : os.

(** The pipes between core and worker lose nothing.  When the core's controls
    reach the worker's standard input as their frames and the worker's output
    reaches the pump, each cut into chunks in any way, the pump delivers
    exactly the envelopes the control handler answers with, in order. *)
Theorem worker_session_delivers ms fs stdin :
  Forall2 (λ m f, encode_frame m = Ok f) ms fs → data_reader stdin → stream stdin = mjoin fs →
  ∃ s outs, serve_messages version exe ms WorkerServiceV1_new = Ok (s, outs)
    ∧ ∀ bs stdout, frames outs bs → data_reader stdout → stream stdout = bs →
        (∃ w, serve_stdio version exe stdin (MkWriter [] []) = Some (s, w, Ok ()) ∧ ww_written w = bs)
        ∧ pump_outputs io_text protocol_text stdout = Ok <$> outs.
Proof.
  intros Hms Hd Hs. destruct (serve_messages_total version exe ms WorkerServiceV1_new) as (s & outs & Hm).
  exists s, outs. split; [done|]. intros bs stdout Hb Hd' Hs'. split; [|by eapply pump_frames]. unfold serve_stdio.
  exact (serve_loop_clean version exe ms fs (S (unread stdin)) WorkerServiceV1_new stdin s outs bs
    Hms Hd Hs ltac:(lia) Hm Hb).
Qed.

Lemma handle_handshake c s s' res h :
  handle version exe c s = (s', Ok res) → sv_handshake res = Some h →
  ∃ fingerprint, h = handshake version exe c fingerprint.
Proof.
  intros Hh Hs. unfold handle in Hh. run_inv Hh.
  match type of Hh with match ?ad with _ => _ end _ = _ => destruct ad end; run_inv Hh.
  match goal with Hd : dispatch _ _ _ ?p _ = (_, Ok ?r) |- _ =>
    unfold dispatch in Hd; destruct (ce_control c); try destruct p as [[plan k]|]; run_inv Hd end;
    try rewrite beat_run in Hh; simplify_eq/=; eauto.
Qed.

(** The handshake a worker answers its launch control with is accepted: when
    the operating system starts the worker and carries the messages, and the
    worker handles the control as a new service, the launch succeeds with the
    worker's handshake and registers the process under the control's
    identity. *)
Theorem launched_worker_accepted c s res h outs output io o :
  handle version exe c WorkerServiceV1_new = (s, Ok res) → sv_handshake res = Some h →
  outputs_of c (Ok res) = Ok outs → head outs = Some output →
  is_ok (encode_frame c) = true →
  io = MkLaunch (Ok ()) true true true (Ok ()) (Ok ()) (RvOutput output) →
  canonicalize (wh_executable_identity h) = Some (ps_executable (os_supervisor o)) →
  ∃ o', spawn_control protocol_text canonicalize c io o = (o', Ok h)
    ∧ ∃ w, workers_of o' !! as_str (ce_chat_id c) = Some w ∧ lw_identity w = ce_identity c ∧ lw_child w = os_next o.
Proof.
  intros Hh Hs Ho Hout He -> Hc. destruct (handle_handshake _ _ _ _ _ Hh Hs) as [fp Hfp].
  unfold outputs_of in Ho. rewrite Hs in Ho. simpl in Ho. res_inv Ho. simpl in Hout. injection Hout as <-.
  simplify_eq/=.
  destruct (encode_frame c) as [f|] eqn:Hf; [|discriminate].
  eexists. split.
  - unfold spawn_control, attempt_call, write_control, mbind, stm_bind, read, lift, modify, reject_if, mret, stm_ret.
    simpl. rewrite Hf. simpl. unfold check_handshake. simpl. rewrite Hc. simpl.
    rewrite !N.eqb_refl, !bool_decide_true by done. reflexivity.
  - eexists. rewrite workers_put, lookup_insert_eq. split; [reflexivity|]. done.
Qed.

End sessions.

(** ** Fencing and accounting *)

Section fencing.
Context `{Sha256, !Serialize WorkerControlEnvelopeV1}
  (protocol_text : ProtocolError → string) (canonicalize : string → option string).
Implicit Type o : os.

(** C27: One process per chat and generation.  Whatever the operating system
    answers, all controls ever written to a process carry the chat, run,
    generation and snapshot it was launched with; of two processes launched
    for a chat the later has the greater generation, so a chat and a
    generation identify the process. *)
Theorem supervisor_fences_processes o :
  sv_reachable protocol_text canonicalize o →
  (∀ p c1 c2, (p, c1) ∈ os_sent o → (p, c2) ∈ os_sent o → ce_identity c1 = ce_identity c2)
  ∧ (∀ p1 p2 c1 c2, (p1, c1) ∈ os_sent o → (p2, c2) ∈ os_sent o → ce_chat_id c1 = ce_chat_id c2 →
       (p1 < p2 → ce_generation c1 < ce_generation c2) ∧ (ce_generation c1 = ce_generation c2 → p1 = p2)).
Proof.
  intros I%sv_reachable_inv. split; [apply (oi_same o I)|]. intros p1 p2 c1 c2 H1 H2 Hch.
  split; [intros Hlt; by apply (oi_order o I p1 p2)|]. intros Hg. destruct (N.lt_trichotomy p1 p2) as [Hlt|[?|Hlt]]; [|done|].
  - pose proof (oi_order o I _ _ _ _ H1 H2 Hlt Hch). lia.
  - pose proof (oi_order o I _ _ _ _ H2 H1 Hlt (eq_sym Hch)). lia.
Qed.

(** C26: No child is left behind.  In a run none of whose calls fails in the ways
    listed in [may_leak], every child that has not been waited for is the
    process of a registered worker, and dropping the supervisor leaves none;
    the only children excepted are those for which a wait of the supervisor
    itself failed, a failure the code ignores, and there are none when its
    waits succeed. *)
Theorem supervisor_accounts_children path restarts waits cs :
  let '(o, rs) := sv_run protocol_text canonicalize cs (ProcessWorkerSupervisorV1_new path restarts waits) in
  (∀ i c r, cs !! i = Some c → rs !! i = Some r → may_leak c r = false) →
  (∀ p, p ∈ os_children o → p ∈ os_lost o ∨ ∃ k w, workers_of o !! k = Some w ∧ lw_child w = p)
  ∧ os_children (supervisor_drop o) ⊆ os_lost (supervisor_drop o)
  ∧ (Forall (λ b, b = true) waits → os_lost (supervisor_drop o) = ∅ ∧ os_children (supervisor_drop o) = ∅
     ∧ ∀ p, p ∈ os_children o → ∃ k w, workers_of o !! k = Some w ∧ lw_child w = p).
Proof.
  assert (∀ cs o, os_inv o → accounted o →
    (∀ i c r, cs !! i = Some c → (sv_run protocol_text canonicalize cs o).2 !! i = Some r → may_leak c r = false) →
    accounted (sv_run protocol_text canonicalize cs o).1) as Hrun.
  { clear. intros cs. induction cs as [|c cs IH]; intros o I Ha Hl; simpl; [done|].
    pose proof (step_inv protocol_text canonicalize c o I) as I1.
    pose proof (step_accounted protocol_text canonicalize c o I Ha) as A1. simpl in Hl.
    destruct (sv_step protocol_text canonicalize c o) as [o1 r]. specialize (IH o1 I1).
    destruct (sv_run protocol_text canonicalize cs o1) as [o2 rs]. apply IH.
    - apply A1. apply (Hl O); done.
    - intros i c' r' Hc Hr. by apply (Hl (S i)). }
  pose proof (run_waits protocol_text canonicalize cs (ProcessWorkerSupervisorV1_new path restarts waits)) as Hq.
  destruct (sv_run protocol_text canonicalize cs (ProcessWorkerSupervisorV1_new path restarts waits)) as [o rs] eqn:Hr.
  intros Hl. assert (accounted o) as Ha.
  { specialize (Hrun cs (ProcessWorkerSupervisorV1_new path restarts waits)). rewrite Hr in Hrun.
    apply Hrun; [apply os_inv_new|intros p Hp; simpl in Hp; set_solver|done]. }
  assert (os_children (supervisor_drop o) ⊆ os_lost (supervisor_drop o)) as Hd.
  { intros p [?|[Hp Hn]]%supervisor_drop_gone; [done|].
    destruct (Ha p Hp) as [?|(k & w & Hw & <-)]; [by apply supervisor_drop_lost|].
    destruct Hn. apply list_elem_of_fmap_2, elem_of_bt_values. eauto. }
  split_and!; [exact Ha|exact Hd|]. intros Hw.
  assert (waits_succeed o) as Ho by (apply Hq; by split).
  pose proof (drop_waits o Ho) as He. split_and!; [done|set_solver|].
  intros p Hp. destruct (Ha p Hp) as [Hp'|?]; [|done]. rewrite (proj2 Ho) in Hp'. set_solver.
Qed.

(** C28: The restart budget bounds crashes: no chat is ever charged more than one
    crash above the budget, a chat that is has no worker, and every launch for
    it is refused without effect: a start because the budget is exhausted, and
    so is a restart from a checkpoint (a control that is no restore is
    refused as such). *)
Theorem restart_budget_bounds_crashes o k st :
  sv_reachable protocol_text canonicalize o → restarts_of o !! k = Some st →
  rs_crashes st ≤ ps_maximum_restarts (os_supervisor o) + 1
  ∧ (ps_maximum_restarts (os_supervisor o) < rs_crashes st →
     workers_of o !! k = None
     ∧ (∀ s n io, as_str (ws_chat_id s) = k →
         spawn_start protocol_text canonicalize s n io o = (o, Err SvRestartBudgetExhausted))
     ∧ (∀ c io, as_str (ce_chat_id c) = k →
         spawn_restore protocol_text canonicalize c io o
         = (o, Err (if is_restore (ce_control c) then SvRestartBudgetExhausted else SvInvalidStartControl)))).
Proof.
  intros I%sv_reachable_inv Hst. split; [by apply (oi_crashes o I k)|]. intros Hc.
  assert (workers_of o !! k = None) as Hn.
  { destruct (workers_of o !! k) as [w|] eqn:Hw; [|done].
    destruct (oi_worker o I k w Hw) as (_ & st' & Hst' & _ & Hle). rewrite Hst in Hst'. injection Hst' as <-. lia. }
  assert (∀ chat, as_str chat = k → next_generation chat o = Err SvRestartBudgetExhausted) as Hg.
  { intros chat Hk. unfold next_generation. rewrite Hk, Hst. simpl. by rewrite (proj2 (N.ltb_lt _ _) Hc). }
  split_and!; [done|..].
  - intros s n io Hk. unfold spawn_start, allocate_generation, mbind, stm_bind, read, reject_if, lift, bt_contains.
    rewrite Hk, Hn. simpl. by rewrite (Hg _ Hk).
  - intros c io Hk. unfold spawn_restore, mbind, stm_bind, read, reject_if, lift, bt_contains.
    rewrite Hk, Hn. destruct (is_restore (ce_control c)); simpl; [|done]. by rewrite (Hg _ Hk).
Qed.

(** A supervisor keeps its generations in memory only: one that has not seen
    the chat yet refuses every replacement that recovery prepares, since that
    follows a generation that was already used. *)
Theorem fresh_supervisor_refuses_replacement c io o :
  sv_reachable protocol_text canonicalize o → restarts_of o !! as_str (ce_chat_id c) = None →
  is_restore (ce_control c) = true → 1 < ce_generation c →
  spawn_restore protocol_text canonicalize c io o = (o, Err SvStaleHandshake).
Proof.
  intros I%sv_reachable_inv Hst Hr Hg. assert (workers_of o !! as_str (ce_chat_id c) = None) as Hn.
  { destruct (workers_of o !! as_str (ce_chat_id c)) as [w|] eqn:Hw; [|done].
    destruct (oi_worker o I _ w Hw) as (_ & st & Hst' & _). congruence. }
  unfold spawn_restore, mbind, stm_bind, read, reject_if, lift, bt_contains. rewrite Hr, Hn. simpl.
  unfold next_generation. rewrite Hst. simpl. rewrite (proj2 (N.ltb_ge _ 0)) by lia. simpl.
  destruct (ce_generation c) as [|q]; [lia|]. by destruct (Pos.eqb_spec 1 q); [lia|].
Qed.
End fencing.

(** ** Witnesses *)

Module DemoSupervisor.
Import (hints) Demo DemoRecovery DemoGateway.
Definition ptext : ProtocolError → string := λ _, "protocol".
Definition canon (s : string) : option string :=
  if bool_decide (s = "aworkit-workflow-worker") then Some "/bin/worker" else None.
Definition new (restarts : N) : os := ProcessWorkerSupervisorV1_new "/bin/worker" restarts [].
Definition io (g : N) : launch :=
  MkLaunch (Ok ()) true true true (Ok ()) (Ok ())
    (RvOutput (MkOutput id:"x" g (OkHandshake (MkHandshake 1 "0.1.0" id:"chat" id:"run" g
       (ws_snapshot_hash Demo.snapshot) "fp" "aworkit-workflow-worker")))).
Definition pause (g : N) : WorkerControlEnvelopeV1 :=
  MkControl id:"m" id:"chat" id:"run" g (ws_snapshot_hash Demo.snapshot) 0 (CkPause id:"c" "run").
Definition restore (g : N) : WorkerControlEnvelopeV1 :=
  MkControl id:"m" id:"chat" id:"run" g (ws_snapshot_hash Demo.snapshot) 0 (CkRestore (DemoRecovery.envelope g [])).
Definition calls : list sv_call :=
  [SvStart Demo.snapshot 0 (io 1); SvCrashed id:"chat" 1; SvStart Demo.snapshot 0 (io 2);
   SvSend (pause 1) (Ok ()); SvSend (pause 2) (Ok ())].
Definition restarted : os := (sv_run ptext canon calls (new 1)).1.
Definition exhausted : os := (sv_run ptext canon (calls ++ [SvCrashed id:"chat" 2]) (new 1)).1.
Lemma restarted_reachable : sv_reachable ptext canon restarted.
Proof. by exists "/bin/worker", 1, [], calls. Qed.
Lemma exhausted_reachable : sv_reachable ptext canon exhausted.
Proof. by exists "/bin/worker", 1, [], (calls ++ [SvCrashed id:"chat" 2]). Qed.
End DemoSupervisor.

Section supervisor_witnesses.
Import (hints) Demo DemoRecovery DemoGateway.
Import DemoSupervisor.

Lemma supervisor_fences_processes_witness :
  ((λ x, (x.1, ce_generation x.2)) <$> os_sent restarted) = [(0, 1); (1, 2); (1, 2)]
  ∧ ∀ p c1 c2, (p, c1) ∈ os_sent restarted → (p, c2) ∈ os_sent restarted → ce_identity c1 = ce_identity c2.
Proof.
  split; [vm_compute; reflexivity|]. exact (proj1 (supervisor_fences_processes ptext canon restarted restarted_reachable)).
Defined.

(** The wait for the first process fails: it is the one child excepted. *)
Lemma supervisor_accounts_children_witness :
  let o := (sv_run ptext canon calls (ProcessWorkerSupervisorV1_new "/bin/worker" 1 [false])).1 in
  os_children o = {[0; 1]} ∧ os_lost o = {[0]}
  ∧ (∀ p, p ∈ os_children o → p ∈ os_lost o ∨ ∃ k w, workers_of o !! k = Some w ∧ lw_child w = p)
  ∧ os_children (supervisor_drop o) ⊆ os_lost (supervisor_drop o).
Proof.
  intros o. split; [vm_compute; reflexivity|]. split; [vm_compute; reflexivity|]. subst o.
  pose proof (supervisor_accounts_children ptext canon "/bin/worker" 1 [false] calls) as Hx.
  assert (match sv_run ptext canon calls (ProcessWorkerSupervisorV1_new "/bin/worker" 1 [false]) with
          (_, rs) => ∀ i c r, calls !! i = Some c → rs !! i = Some r → may_leak c r = false end) as Hl.
  { assert ((sv_run ptext canon calls (ProcessWorkerSupervisorV1_new "/bin/worker" 1 [false])).2
      = [Ok (); Ok (); Ok (); Err SvStaleHandshake; Ok ()]) as Hr by (vm_compute; reflexivity).
    destruct (sv_run ptext canon calls (ProcessWorkerSupervisorV1_new "/bin/worker" 1 [false])) as [o rs].
    simpl in Hr. subst rs. intros i c r Hc Hr.
    do 5 (destruct i as [|i]; [simpl in Hc, Hr; injection Hc as <-; injection Hr as <-; reflexivity|]). discriminate Hc. }
  destruct (sv_run ptext canon calls (ProcessWorkerSupervisorV1_new "/bin/worker" 1 [false])) as [o rs].
  split; [exact (proj1 (Hx Hl))|exact (proj1 (proj2 (Hx Hl)))].
Defined.

Lemma restart_budget_bounds_crashes_witness :
  rs_crashes (default RestartStateV1_default (restarts_of exhausted !! "chat")) = 2
  ∧ workers_of exhausted !! "chat" = None
  ∧ spawn_restore ptext canon (restore 3) (io 3) exhausted
    = (exhausted, Err SvRestartBudgetExhausted).
Proof.
  split; [vm_compute; reflexivity|].
  assert (restarts_of exhausted !! "chat" = Some (MkRestartState 2 2)) as Hst by (vm_compute; reflexivity).
  assert (ps_maximum_restarts (os_supervisor exhausted) < 2) as Hlt by (vm_compute; reflexivity).
  destruct (proj2 (restart_budget_bounds_crashes ptext canon exhausted "chat" _ exhausted_reachable Hst) Hlt)
    as (Hn & _ & Hr).
  split; [exact Hn|]. exact (Hr (restore 3) (io 3) eq_refl).
Defined.

(** A shutdown whose request cannot be written forgets a child that was never
    waited for. *)
Lemma failed_shutdown_loses_child :
  let '(o, rs) := sv_run ptext canon
    [SvStart Demo.snapshot 0 (io 1); SvShutdown id:"chat" 0 (Err "broken pipe") []] (new 1) in
  rs = [Ok (); Err (SvTransport "broken pipe")] ∧ os_children o = {[0]} ∧ workers_of o = ∅.
Proof. vm_compute. auto. Qed.

Lemma launched_worker_accepted_witness : ∃ h o',
  (handle "0.1.0" None DemoService.start WorkerServiceV1_new).2 = Ok h
  ∧ (sv_handshake h ≫= λ x, workers_of o' !! as_str (wh_chat_id x)) ≠ None.
Proof.
  destruct (handle "0.1.0" None DemoService.start WorkerServiceV1_new) as [s r] eqn:Hh.
  assert (match r with Ok res => match sv_handshake res, outputs_of DemoService.start (Ok res) with
            | Some h, Ok (_ :: _) => bool_decide (wh_chat_id h = id:"chat")
                && bool_decide (wh_executable_identity h = "aworkit-workflow-worker")
            | _, _ => false end | Err _ => false end = true) as Hr.
  { assert (match (handle "0.1.0" None DemoService.start WorkerServiceV1_new).2 with
            Ok res => match sv_handshake res, outputs_of DemoService.start (Ok res) with
            | Some h, Ok (_ :: _) => bool_decide (wh_chat_id h = id:"chat")
                && bool_decide (wh_executable_identity h = "aworkit-workflow-worker")
            | _, _ => false end | Err _ => false end = true) as Hx by (vm_compute; reflexivity).
    rewrite Hh in Hx. exact Hx. }
  destruct r as [res|]; [|discriminate Hr].
  destruct (sv_handshake res) as [h|] eqn:Hs; [|discriminate Hr].
  destruct (outputs_of DemoService.start (Ok res)) as [[|output outs]|] eqn:Ho; try discriminate Hr.
  apply andb_true_iff in Hr as [Hchat%bool_decide_eq_true_1 Hexe%bool_decide_eq_true_1].
  destruct (launched_worker_accepted "0.1.0" None ptext canon DemoService.start s res h (output :: outs) output
    _ (new 1) Hh Hs Ho eq_refl eq_refl eq_refl) as (o' & _ & w & Hw & _).
  - rewrite Hexe. reflexivity.
  - exists res, o'. split; [reflexivity|]. rewrite Hs. simpl. rewrite Hchat.
    change (as_str (ce_chat_id DemoService.start)) with (as_str id:"chat") in Hw. rewrite Hw. discriminate.
Defined.
End supervisor_witnesses.

Module DemoPipe.
Import (hints) Demo DemoRecovery DemoGateway DemoStdio.
(** A wire format for the error envelopes that answer the shutdown of a
    worker that was never started: the message id. *)
Definition refusal (m : StableId) : WorkerOutputEnvelopeV1 :=
  MkOutput m 7 (OkError "worker_control_rejected"
    "core gateway rejected message: worker gateway has not accepted a start or restore envelope").
Definition is_refusal (o : WorkerOutputEnvelopeV1) : bool :=
  (oe_generation o =? 7)
  && match oe_output o with
     | OkError code message =>
         bool_decide (code = "worker_control_rejected")
         && bool_decide (message = "core gateway rejected message: worker gateway has not accepted a start or restore envelope")
     | _ => false
     end.
#[export] Instance refusal_ser : Serialize WorkerOutputEnvelopeV1 := {|
  to_vec o := if is_refusal o then Some (as_bytes (as_str (oe_message_id o))) else None;
  jcs_to_vec o := None
|}.
#[export] Instance refusal_de : Deserialize WorkerOutputEnvelopeV1 := λ b,
  refusal <$> parse_opt (String.string_of_list_byte b).
#[export] Instance refusal_serde : SerdeRoundTrip WorkerOutputEnvelopeV1.
Proof.
  intros [m g k] bs. simpl. destruct (is_refusal _) eqn:Hs; [|done]. intros [= <-].
  unfold is_refusal in Hs. simpl in Hs. destruct k; boolify; destruct_and?; try discriminate. subst.
  unfold from_slice, refusal_de, as_bytes. by rewrite String.string_of_list_byte_of_string, parse_opt_as_str.
Qed.
End DemoPipe.

Section pipe_witnesses.
Import (hints) Demo DemoRecovery DemoGateway.
Import (hints) DemoStdio.
Import (hints) DemoPipe.
Import DemoStdio.

(** The answer to the demonstration session, framed in one chunk. *)
Definition demo_answer : list WorkerOutputEnvelopeV1 :=
  match serve_messages "0.1.0" None [shutdown id:"m1"] WorkerServiceV1_new with Ok (_, outs) => outs | Err _ => [] end.
Definition demo_bytes : bytes :=
  mjoin ((λ o, match encode_frame o with Ok f => f | Err _ => [] end) <$> demo_answer).

Lemma worker_session_delivers_witness :
  length demo_answer = 1%nat
  ∧ pump_outputs (λ _, "io") (λ _, "protocol") [RData demo_bytes] = Ok <$> demo_answer.
Proof.
  split; [vm_compute; reflexivity|].
  destruct (worker_session_delivers "0.1.0" None (λ _, "io") (λ _, "protocol") [shutdown id:"m1"] [frame] split_input)
    as (s & outs & Hm & Hs).
  - constructor; [vm_compute; reflexivity|constructor].
  - exact split_data.
  - reflexivity.
  - assert (demo_answer = outs) as Ha by (unfold demo_answer; rewrite Hm; reflexivity).
    rewrite Ha. refine (proj2 (Hs demo_bytes [RData demo_bytes] _ _ _)).
    + rewrite <-Ha. assert (∃ o f, demo_answer = [o] ∧ encode_frame o = Ok f ∧ demo_bytes = f ++ []) as (o & f & -> & Hf & ->).
      { vm_compute. do 2 eexists. split; [reflexivity|]. split; reflexivity. }
      constructor; [exact Hf|constructor].
    + apply Forall_cons. split; [vm_compute; reflexivity|by apply Forall_nil].
    + unfold stream. simpl. apply app_nil_r.
Defined.
End pipe_witnesses.
