(* ===== verification/History.v ===== *)
(** * History contracts ([crates/aworkit-protocol/src/history.rs])

    The records the core and the history stores exchange, and the three ports
    through which the core reaches a store: the local ledger, the portable
    repository and its machine-local journal.  A port is an object (an
    [Arc<dyn Trait>]): a record of operations on the world [W] in which the
    stores live.  [RepositoryLaws] and [JournalLaws] state what the core may
    rely on of a portable repository and of a journal. *)
From S2P Require Export Authority Suspension.

(** [serde_json::from_value] at one type, the inverse of [to_value]. *)
Class FromValue (T : Type) : Type := from_value : json → option T.
Class ValueRoundTrip (T : Type) `{ToValue T, FromValue T} : Prop :=
  from_value_to_value : ∀ (x : T) v, to_value x = Some v → from_value v = Some x.

(** ** Batches *)

Record EventV1 : Type := MkEventV1 {
  ev_event_id : StableId;
  ev_schema_version : N;
  ev_kind : string;
  ev_payload : json
}.
Record AttemptV1 : Type := MkAttemptV1 {
  at_attempt_id : StableId;
  at_operation_id : StableId;
  at_ordinal : N;
  at_outcome_class : string
}.
Record CheckpointV1 : Type := MkCheckpointV1 {
  cp_reducer_version : string;
  cp_state_hash : string;
  cp_frozen_snapshot_ref : option StableId
}.
Record DedupV1 : Type := MkDedup {
  dd_key_type : string;
  dd_key : StableId
}.
Record OutboxV1 : Type := MkOutbox {
  ob_outbox_id : StableId;
  ob_destination : string;
  ob_schema_version : N;
  ob_payload : json
}.
Record PreparedArtifactRefV1 : Type := MkArtifactRef {
  ar_token_id : StableId;
  ar_artifact_id : StableId;
  ar_content_hash : string;
  ar_byte_size : N;
  ar_staging_generation : N;
  ar_origin_event_id : StableId
}.
Record CommitBatchV1 : Type := MkBatch {
  cb_backend : HistoryBackendV1;
  cb_chat_id : StableId;
  cb_run_id : StableId;
  cb_branch_id : StableId;
  cb_expected_head : N;
  cb_expected_aggregate_version : N;
  cb_events : list EventV1;
  cb_attempts : list AttemptV1;
  cb_checkpoint : option CheckpointV1;
  cb_deduplication : option DedupV1;
  cb_outbox : list OutboxV1;
  cb_prepared_artifacts : list PreparedArtifactRefV1
}.
Record CommitReceiptV1 : Type := MkReceipt {
  cr_head_sequence : N;
  cr_aggregate_version : N;
  cr_event_ids : list StableId;
  cr_checkpoint_hash : option string;
  cr_outbox_ids : list StableId;
  cr_request_hash : string
}.
Inductive CommitOutcomeV1 : Type :=
| Committed (receipt : CommitReceiptV1)
| Existing (receipt : CommitReceiptV1).
Record PendingOutboxV1 : Type := MkPendingOutbox {
  po_outbox_id : StableId;
  po_chat_id : StableId;
  po_branch_id : StableId;
  po_commit_sequence : N;
  po_delivery_cursor : N;
  po_destination : string;
  po_schema_version : N;
  po_payload : json;
  po_payload_hash : string
}.
Record HistoryPortErrorV1 : Type := MkHistoryPortError {
  he_code : string;
  he_message : string;
  he_retryable : bool;
  he_inspectable_read_only : bool
}.

(** ** Portable publication *)

Record PortablePrepareV1 : Type := MkPrepare {
  pr_operation_id : StableId;
  pr_chat_id : StableId;
  pr_branch_id : StableId;
  pr_expected_generation : N;
  pr_expected_next_ordinal : N;
  pr_expected_head_hash : option string;
  pr_record : json;
  pr_record_hash : string;
  pr_checkpoint : option json;
  pr_checkpoint_hash : string
}.
Record PortablePreparedV1 : Type := MkPrepared {
  pd_operation_id : StableId;
  pd_commit_id : StableId;
  pd_object_hash : string;
  pd_expected_generation : N
}.
Record PortableCommitReceiptV1 : Type := MkPortableReceipt {
  rc_operation_id : StableId;
  rc_commit_id : StableId;
  rc_branch_id : StableId;
  rc_previous_head_hash : option string;
  rc_published_head_hash : string;
  rc_generation : N;
  rc_checkpoint_hash : string
}.
Record PortableRuntimeBeginV1 : Type := MkBegin {
  bg_operation_id : StableId;
  bg_machine_instance_id : StableId;
  bg_binding_generation : N;
  bg_expected_generation : N;
  bg_chat_id : StableId;
  bg_branch_id : StableId;
  bg_commit_id : StableId;
  bg_expected_head_hash : option string;
  bg_candidate_head_hash : string;
  bg_checkpoint_hash : string
}.
Record PortableRuntimeFinalizeV1 : Type := MkFinalize {
  fz_operation_id : StableId;
  fz_verified_receipt : PortableCommitReceiptV1
}.
Inductive PortableRuntimeFactsV1 : Type :=
| PfPending (begin : PortableRuntimeBeginV1)
| PfHeadLinked (begin : PortableRuntimeBeginV1) (receipt : PortableCommitReceiptV1)
| PfQuarantined (begin : PortableRuntimeBeginV1) (reason : string).
Record PortablePortErrorV1 : Type := MkPortablePortError {
  pe_code : string;
  pe_message : string;
  pe_retryable : bool;
  pe_uncertain_publication : bool
}.

#[export] Instance HistoryBackendV1_eq_dec : EqDecision HistoryBackendV1.
Proof. solve_decision. Defined.
#[export] Instance PortableCommitReceiptV1_eq_dec : EqDecision PortableCommitReceiptV1.
Proof. solve_decision. Defined.
#[export] Instance PortableRuntimeBeginV1_eq_dec : EqDecision PortableRuntimeBeginV1.
Proof. solve_decision. Defined.
#[export] Instance PortableRuntimeFactsV1_eq_dec : EqDecision PortableRuntimeFactsV1.
Proof. solve_decision. Defined.

(** ** Ports *)

Record LocalHistoryCommitPort (W : Type) : Type := MkLocalPort {
  lp_commit : CommitBatchV1 → stm W HistoryPortErrorV1 CommitOutcomeV1;
  lp_pending_outbox : N → N → stm W HistoryPortErrorV1 (list PendingOutboxV1);
  lp_mark_outbox_delivered : StableId → N → stm W HistoryPortErrorV1 ()
}.
Record PortableCanonicalCommitPort (W : Type) : Type := MkPortablePort {
  pp_prepare : PortablePrepareV1 → stm W PortablePortErrorV1 PortablePreparedV1;
  pp_publish : PortablePreparedV1 → stm W PortablePortErrorV1 PortableCommitReceiptV1;
  pp_verify : PortableCommitReceiptV1 → stm W PortablePortErrorV1 PortableCommitReceiptV1;
  pp_read_head : StableId → stm W PortablePortErrorV1 (option PortableCommitReceiptV1)
}.
Record PortableRuntimeJournalPort (W : Type) : Type := MkJournalPort {
  pj_begin : PortableRuntimeBeginV1 → stm W HistoryPortErrorV1 ();
  pj_finalize : PortableRuntimeFinalizeV1 → stm W HistoryPortErrorV1 ();
  pj_facts : StableId → stm W HistoryPortErrorV1 (option PortableRuntimeFactsV1);
  pj_quarantine : StableId → string → stm W HistoryPortErrorV1 ()
}.
Arguments MkLocalPort {W}.
Arguments MkPortablePort {W}.
Arguments MkJournalPort {W}.
Arguments lp_commit {W}.
Arguments lp_pending_outbox {W}.
Arguments lp_mark_outbox_delivered {W}.
Arguments pp_prepare {W}.
Arguments pp_publish {W}.
Arguments pp_verify {W}.
Arguments pp_read_head {W}.
Arguments pj_begin {W}.
Arguments pj_finalize {W}.
Arguments pj_facts {W}.
Arguments pj_quarantine {W}.

(** A call with [map_err(f)?], and one whose [Result] is inspected. *)
Definition port {W E F A} (f : E → F) (m : stm W E A) : stm W F A := λ w,
  let '(w, r) := m w in (w, map_err f r).
Definition port_result {W E F A} (m : stm W E A) : stm W F (result E A) := λ w,
  let '(w, r) := m w in (w, Ok r).
Section port_facts.
Context {W E F A : Type} (f : E → F) (m : stm W E A).

Lemma port_ok w w' a : port f m w = (w', Ok a) ↔ m w = (w', Ok a).
Proof. unfold port. destruct (m w) as [w1 [x|e]]; naive_solver. Qed.
Lemma port_run w w' r : port f m w = (w', r) → ∃ r0, m w = (w', r0) ∧ r = map_err f r0.
Proof. unfold port. destruct (m w) as [w1 r0]. naive_solver. Qed.
Lemma port_result_run w w' r :
  port_result (F:=F) m w = (w', r) → ∃ r0, m w = (w', r0) ∧ r = Ok r0.
Proof. unfold port_result. destruct (m w) as [w1 r0]. naive_solver. Qed.
End port_facts.

(** ** What a portable repository promises

    A branch has a head, the receipt of its last publication.  Preparing,
    verifying and reading leave every head alone; publishing advances heads by
    one generation, and only to receipts of its own operation. *)

Definition head_generation (head : option PortableCommitReceiptV1) : N :=
  from_option rc_generation 0 head.

(** [head] is followed by a publication of operation [op]. *)
Definition head_advances (op : StableId) (head head' : option PortableCommitReceiptV1) : Prop :=
  ∃ r, head' = Some r ∧ rc_operation_id r = op ∧ rc_generation r = head_generation head + 1.

Class RepositoryLaws {W} (p : PortableCanonicalCommitPort W) : Type := {
  (** the repository was only written by its own operations *)
  repo_wf : W → Prop;
  repo_head : W → StableId → option PortableCommitReceiptV1;
  repo_prepare : ∀ request w w' r, repo_wf w → pp_prepare p request w = (w', r) →
    repo_wf w' ∧ ∀ b, repo_head w' b = repo_head w b;
  repo_publish : ∀ prepared w w' r, repo_wf w → pp_publish p prepared w = (w', r) →
    repo_wf w' ∧
    ∀ b, repo_head w' b = repo_head w b
         ∨ head_advances (pd_operation_id prepared) (repo_head w b) (repo_head w' b);
  repo_verify : ∀ receipt w w' r, repo_wf w → pp_verify p receipt w = (w', r) →
    repo_wf w' ∧ (∀ b, repo_head w' b = repo_head w b)
    ∧ ∀ v, r = Ok v → repo_head w (rc_branch_id v) = Some v;
  repo_read_head : ∀ b w w' r, repo_wf w → pp_read_head p b w = (w', r) →
    repo_wf w' ∧ (∀ b', repo_head w' b' = repo_head w b')
    ∧ ∀ h, r = Ok h → h = repo_head w b
}.

(** ** What a journal promises

    An operation has no record, or one whose [begin] facts never change and
    which moves from pending to linked and from either to quarantined. *)

Definition facts_begin (f : PortableRuntimeFactsV1) : PortableRuntimeBeginV1 :=
  match f with PfPending b | PfHeadLinked b _ | PfQuarantined b _ => b end.

(** The receipt is the publication the journal was told to expect. *)
Definition receipt_fulfils (r : PortableCommitReceiptV1) (b : PortableRuntimeBeginV1) : Prop :=
  rc_operation_id r = bg_operation_id b ∧ rc_commit_id r = bg_commit_id b
  ∧ rc_branch_id r = bg_branch_id b ∧ rc_previous_head_hash r = bg_expected_head_hash b
  ∧ rc_published_head_hash r = bg_candidate_head_hash b
  ∧ rc_checkpoint_hash r = bg_checkpoint_hash b
  ∧ rc_generation r = saturating_add u64_max (bg_expected_generation b) 1.

Class JournalLaws {W} (j : PortableRuntimeJournalPort W) : Type := {
  journal_facts : W → StableId → option PortableRuntimeFactsV1;
  journal_keyed : ∀ w op f, journal_facts w op = Some f → bg_operation_id (facts_begin f) = op;
  journal_begin : ∀ b w w' r, pj_begin j b w = (w', r) →
    let op := bg_operation_id b in
    (∀ o, o ≠ op → journal_facts w' o = journal_facts w o)
    ∧ (journal_facts w' op = journal_facts w op
       ∨ journal_facts w op = None ∧ journal_facts w' op = Some (PfPending b))
    ∧ (r = Ok () → ∀ f, journal_facts w' op = Some f → facts_begin f = b);
  journal_finalize : ∀ z w w' r, pj_finalize j z w = (w', r) →
    let op := fz_operation_id z in
    let v := fz_verified_receipt z in
    (∀ o, o ≠ op → journal_facts w' o = journal_facts w o)
    ∧ (journal_facts w' op = journal_facts w op
       ∨ ∃ b, journal_facts w op = Some (PfPending b)
              ∧ journal_facts w' op = Some (PfHeadLinked b v) ∧ receipt_fulfils v b)
    ∧ (r = Ok () → ∀ b, journal_facts w op = Some (PfPending b) →
                        journal_facts w' op = Some (PfHeadLinked b v));
  journal_read : ∀ op w w' r, pj_facts j op w = (w', r) →
    (∀ o, journal_facts w' o = journal_facts w o)
    ∧ ∀ f, r = Ok f → f = journal_facts w op;
  journal_quarantine : ∀ op reason w w' r, pj_quarantine j op reason w = (w', r) →
    (∀ o, o ≠ op → journal_facts w' o = journal_facts w o)
    ∧ (journal_facts w' op = journal_facts w op
       ∨ ∃ b, journal_facts w' op = Some (PfQuarantined b reason)
              ∧ ∀ f, journal_facts w op = Some f → facts_begin f = b)
    ∧ (r = Ok () → ∀ f, journal_facts w op = Some f →
                        journal_facts w' op = Some (PfQuarantined (facts_begin f) reason))
}.

(** The repository and the journal are separate stores. *)
Class SeparateStores {W} (p : PortableCanonicalCommitPort W) (j : PortableRuntimeJournalPort W)
    `{!RepositoryLaws p, !JournalLaws j} : Prop := {
  prepare_journal : ∀ request w w' r op, pp_prepare p request w = (w', r) →
    journal_facts w' op = journal_facts w op;
  publish_journal : ∀ prepared w w' r op, pp_publish p prepared w = (w', r) →
    journal_facts w' op = journal_facts w op;
  verify_journal : ∀ receipt w w' r op, pp_verify p receipt w = (w', r) →
    journal_facts w' op = journal_facts w op;
  read_head_journal : ∀ b w w' r op, pp_read_head p b w = (w', r) →
    journal_facts w' op = journal_facts w op;
  begin_heads : ∀ x w w' r, pj_begin j x w = (w', r) →
    (repo_wf w → repo_wf w') ∧ ∀ b, repo_head w' b = repo_head w b;
  finalize_heads : ∀ x w w' r, pj_finalize j x w = (w', r) →
    (repo_wf w → repo_wf w') ∧ ∀ b, repo_head w' b = repo_head w b;
  facts_heads : ∀ op w w' r, pj_facts j op w = (w', r) →
    (repo_wf w → repo_wf w') ∧ ∀ b, repo_head w' b = repo_head w b;
  quarantine_heads : ∀ op x w w' r, pj_quarantine j op x w = (w', r) →
    (repo_wf w → repo_wf w') ∧ ∀ b, repo_head w' b = repo_head w b
}.

(** ** Concrete codecs

    Encodings of the types of this file as JSON values, for evaluating the
    model: products are arrays.  They only satisfy the interface of the
    derived serializers ([ValueRoundTrip]). *)

Record codec (A : Type) : Type := MkCodec {
  enc : A → json;
  dec : json → option A;
  dec_enc : ∀ a, dec (enc a) = Some a
}.
Arguments MkCodec {A}.
Arguments enc {A}.
Arguments dec {A}.
Arguments dec_enc {A}.

Definition string_codec : codec string := MkCodec JString as_str_value (λ _, eq_refl).
Definition u64_codec : codec N := MkCodec (λ n, JNumber (PosInt n)) as_u64 (λ _, eq_refl).
Definition value_codec : codec json := MkCodec id Some (λ _, eq_refl).

Definition id_codec : codec StableId.
Proof.
  refine (MkCodec (λ i, JString (as_str i)) (λ v, as_str_value v ≫= parse_opt) _).
  intros i. simpl. by apply parse_opt_Some.
Defined.
Definition option_codec {A} (c : codec A) : codec (option A).
Proof.
  refine (MkCodec (λ o, match o with Some a => JArray [enc c a] | None => JNull end)
    (λ v, match v with JArray [x] => Some <$> dec c x | JNull => Some None | _ => None end) _).
  intros [a|]; simpl; [by rewrite dec_enc|done].
Defined.
Definition list_codec {A} (c : codec A) : codec (list A).
Proof.
  refine (MkCodec (λ l, JArray (enc c <$> l))
    (λ v, match v with JArray l => mapM (dec c) l | _ => None end) _).
  intros l. apply mapM_Some. induction l; constructor; [apply dec_enc|done].
Defined.
Definition pair_codec {A B} (c : codec A) (d : codec B) : codec (A * B).
Proof.
  refine (MkCodec (λ p, JArray [enc c p.1; enc d p.2])
    (λ v, match v with
          | JArray [x; y] => a ← dec c x; b ← dec d y; Some (a, b)
          | _ => None end) _).
  intros [a b]. simpl. by rewrite !dec_enc.
Defined.
Definition iso_codec {A B} (f : A → B) (g : B → A) (H : ∀ a, g (f a) = a) (c : codec B) : codec A.
Proof.
  refine (MkCodec (λ a, enc c (f a)) (λ v, g <$> dec c v) _).
  intros a. rewrite dec_enc. simpl. by rewrite H.
Defined.
#[local] Infix "⊗" := pair_codec (at level 40, left associativity).

Definition backend_codec : codec HistoryBackendV1.
Proof.
  refine (iso_codec (λ b, match b with LocalSqlite => None | PortableProject r => Some r end)
    (λ o, match o with Some r => PortableProject r | None => LocalSqlite end) _ (option_codec id_codec)).
  by intros [].
Defined.
Definition event_codec : codec EventV1.
Proof.
  refine (iso_codec (λ e, (ev_event_id e, ev_schema_version e, ev_kind e, ev_payload e))
    (λ '(i, s, k, p), MkEventV1 i s k p) _ (id_codec ⊗ u64_codec ⊗ string_codec ⊗ value_codec)).
  by intros [].
Defined.
Definition attempt_codec : codec AttemptV1.
Proof.
  refine (iso_codec (λ a, (at_attempt_id a, at_operation_id a, at_ordinal a, at_outcome_class a))
    (λ '(i, o, n, c), MkAttemptV1 i o n c) _ (id_codec ⊗ id_codec ⊗ u64_codec ⊗ string_codec)).
  by intros [].
Defined.
Definition checkpoint_codec : codec CheckpointV1.
Proof.
  refine (iso_codec (λ c, (cp_reducer_version c, cp_state_hash c, cp_frozen_snapshot_ref c))
    (λ '(r, s, f), MkCheckpointV1 r s f) _ (string_codec ⊗ string_codec ⊗ option_codec id_codec)).
  by intros [].
Defined.
Definition dedup_codec : codec DedupV1.
Proof.
  refine (iso_codec (λ d, (dd_key_type d, dd_key d)) (λ '(t, k), MkDedup t k) _ (string_codec ⊗ id_codec)).
  by intros [].
Defined.
Definition outbox_codec : codec OutboxV1.
Proof.
  refine (iso_codec (λ o, (ob_outbox_id o, ob_destination o, ob_schema_version o, ob_payload o))
    (λ '(i, d, s, p), MkOutbox i d s p) _ (id_codec ⊗ string_codec ⊗ u64_codec ⊗ value_codec)).
  by intros [].
Defined.
Definition artifact_codec : codec PreparedArtifactRefV1.
Proof.
  refine (iso_codec (λ a, (ar_token_id a, ar_artifact_id a, ar_content_hash a, ar_byte_size a,
                           ar_staging_generation a, ar_origin_event_id a))
    (λ '(t, i, h, s, g, o), MkArtifactRef t i h s g o) _
    (id_codec ⊗ id_codec ⊗ string_codec ⊗ u64_codec ⊗ u64_codec ⊗ id_codec)).
  by intros [].
Defined.
Definition batch_codec : codec CommitBatchV1.
Proof.
  refine (iso_codec (λ b, (cb_backend b, cb_chat_id b, cb_run_id b, cb_branch_id b, cb_expected_head b,
                           cb_expected_aggregate_version b, cb_events b, cb_attempts b, cb_checkpoint b,
                           cb_deduplication b, cb_outbox b, cb_prepared_artifacts b))
    (λ '(b, c, r, br, h, v, es, ats, ck, d, o, p), MkBatch b c r br h v es ats ck d o p) _
    (backend_codec ⊗ id_codec ⊗ id_codec ⊗ id_codec ⊗ u64_codec ⊗ u64_codec ⊗ list_codec event_codec
     ⊗ list_codec attempt_codec ⊗ option_codec checkpoint_codec ⊗ option_codec dedup_codec
     ⊗ list_codec outbox_codec ⊗ list_codec artifact_codec)).
  by intros [].
Defined.
Definition receipt_codec : codec PortableCommitReceiptV1.
Proof.
  refine (iso_codec (λ r, (rc_operation_id r, rc_commit_id r, rc_branch_id r, rc_previous_head_hash r,
                           rc_published_head_hash r, rc_generation r, rc_checkpoint_hash r))
    (λ '(o, c, b, p, h, g, k), MkPortableReceipt o c b p h g k) _
    (id_codec ⊗ id_codec ⊗ id_codec ⊗ option_codec string_codec ⊗ string_codec ⊗ u64_codec ⊗ string_codec)).
  by intros [].
Defined.

(** The serializers of a type from its codec. *)
Definition codec_to_value {A} (c : codec A) : ToValue A := λ a, Some (enc c a).
Definition codec_from_value {A} (c : codec A) : FromValue A := dec c.
Lemma codec_round_trip {A} (c : codec A) : @ValueRoundTrip A (codec_to_value c) (codec_from_value c).
Proof. intros x v [= <-]. apply dec_enc. Qed.
