(* ===== verification/Export.v ===== *)
(** * The portable export policy ([crates/aworkit-portable-store/src/export.rs])

    [ExportPolicy] decides what may leave the machine in portable history: it
    drops fields of local capture, recording each omission, and refuses
    secrets, credentials, authority and machine paths at any depth.  The
    theorems: what it lets through contains no omitted or forbidden field and
    no text it refuses ([exported_value_clean]), and passes the policy again
    unchanged ([scrub_idempotent]), which is what an importer checks. *)
From S2P Require Export Json.

Record OmissionFact : Type := MkOmission {
  om_pointer : string;
  om_reason : string
}.
#[export] Instance OmissionFact_eq_dec : EqDecision OmissionFact.
Proof. solve_decision. Defined.
Record ScrubbedValue : Type := MkScrubbed {
  sb_value : json;
  sb_omissions : list OmissionFact
}.
Inductive PortableRecordClass : Type := SemanticPayload | RcCheckpoint | RcManifest | ArtifactMetadata.
Inductive ExportError : Type :=
| ExForbiddenField (pointer : string)
| ExUnknownField (pointer : string)
| ExWrongRecordShape
| ExCredentialLikeValue (pointer : string)
| ExMachinePath (pointer : string).

(** ** Text *)

Definition ascii_lower (c : Ascii.ascii) : Ascii.ascii :=
  if in_range 65 90 (byte_of c) then Ascii.ascii_of_N (byte_of c + 32) else c.
Fixpoint to_ascii_lowercase (s : string) : string :=
  match s with EmptyString => EmptyString | String c s => String (ascii_lower c) (to_ascii_lowercase s) end.

(** Whether some suffix of the text, the empty one included, satisfies [f]. *)
Fixpoint any_suffix (f : string → bool) (s : string) : bool :=
  f s || match s with EmptyString => false | String _ s => any_suffix f s end.
(** [str::contains] and [str::ends_with] of a text. *)
Definition str_contains (p s : string) : bool := any_suffix (starts_with p) s.
Definition ends_with (p s : string) : bool := any_suffix (λ t, bool_decide (t = p)) s.

(** [bytes().take_while(f).take(n).count()]. *)
Fixpoint take_while_count (n : nat) (f : N → bool) (s : string) : N :=
  match n, s with
  | S n, String c s => if f (byte_of c) then 1 + take_while_count n f s else 0
  | _, _ => 0
  end.

(** A prefix of a kind of token never overlaps itself, so every occurrence is
    one that [match_indices] finds. *)
Definition looks_like_prefixed_token (text prefix : string) : bool :=
  any_suffix (λ t, match strip_prefix prefix t with
                   | Some rest => 16 <=? take_while_count 20 is_ascii_alphanumeric rest
                   | None => false
                   end) text.

Definition is_ascii_alphabetic (b : N) : bool := in_range 65 90 b || in_range 97 122 b.
(** [c:\ ] or [c:/ ] at the front of a text of more than three bytes. *)
Definition drive_path (text : string) : bool :=
  (3 <? str_len text) &&
  match text with
  | String a (String b (String c _)) =>
      is_ascii_alphabetic (byte_of a) && (byte_of b =? 58) && ((byte_of c =? 92) || (byte_of c =? 47))
  | _ => false
  end.

Definition scan_text (pointer text : string) : result ExportError () :=
  let lower := to_ascii_lowercase text in
  let credential_like :=
    starts_with "bearer " lower
    || str_contains "-----begin private key-----" lower
    || str_contains "-----begin rsa private key-----" lower
    || looks_like_prefixed_token text "sk-"
    || looks_like_prefixed_token text "ghp_"
    || looks_like_prefixed_token text "github_pat_" in
  let machine_path :=
    starts_with "/home/" text || starts_with "/Users/" text || starts_with "\\" text || drive_path text in
  if credential_like then Err (ExCredentialLikeValue pointer)
  else if machine_path then Err (ExMachinePath pointer)
  else Ok ().

Fixpoint normalize_key (s : string) : string :=
  match s with
  | EmptyString => EmptyString
  | String c s =>
      if is_ascii_alphanumeric (byte_of c) then String (ascii_lower c) (normalize_key s) else normalize_key s
  end.
Definition is_omitted_field (value : string) : bool :=
  bool_decide (value ∈ ["debug"; "debugcapture"; "trace"; "tracecapture"; "rawprotocol"; "rawstream";
                        "tokenchunks"; "forensiccapture"]).
Definition is_forbidden_field (value : string) : bool :=
  bool_decide (value ∈
    ["secret"; "secretvalue"; "credential"; "credentialvalue"; "password"; "passtoken"; "accesstoken";
     "refreshtoken"; "authorization"; "authorizationheader"; "apikey"; "privatekey"; "lease";
     "leasehandle"; "approval"; "approvaltoken"; "permit"; "authority"; "inheritedauthority";
     "reasoningraw"; "hiddenreasoning"; "chainofthought"; "nativehandle"; "nativeobject";
     "providerconfig"; "providerendpoint"; "environment"; "env"; "absolutepath"; "machinepath";
     "username"; "hostname"; "deviceid"; "executable"; "script"; "binary"; "pluginbytes"])
  || ends_with "secret" value || ends_with "password" value || ends_with "credentialvalue" value
  || ends_with "privatekey" value || ends_with "authorizationheader" value.

(** [replace('~', "~0").replace('/', "~1")]. *)
Fixpoint replace_char (c : Ascii.ascii) (by_ : string) (s : string) : string :=
  match s with
  | EmptyString => EmptyString
  | String d s => if bool_decide (d = c) then by_ +:+ replace_char c by_ s else String d (replace_char c by_ s)
  end.
Definition escape_pointer (value : string) : string :=
  replace_char "/" "~1" (replace_char "~" "~0" value).

(** ** Scrubbing *)

(** [scrub_value]: the value that is kept and the omissions in order. *)
Fixpoint scrub_value (value : json) (pointer : string) {struct value} :
    result ExportError (json * list OmissionFact) :=
  match value with
  | JArray items =>
      '(items, omissions) ← (fix go (index : N) (items : list json) :
          result ExportError (list json * list OmissionFact) :=
        match items with
        | [] => Ok ([], [])
        | item :: items =>
            '(item, o1) ← scrub_value item (pointer +:+ "/" +:+ pretty index);
            '(items, o2) ← go (index + 1) items;
            Ok (item :: items, o1 ++ o2)
        end) 0 items;
      Ok (JArray items, omissions)
  | JObject fields =>
      '(fields, omissions) ← (fix go (fields : obj) : result ExportError (obj * list OmissionFact) :=
        match fields with
        | [] => Ok ([], [])
        | (key, item) :: fields =>
            let normalized := normalize_key key in
            let field := pointer +:+ "/" +:+ escape_pointer key in
            if is_omitted_field normalized then
              '(fields, o) ← go fields;
              Ok (fields, MkOmission field "local_detailed_capture" :: o)
            else if is_forbidden_field normalized then Err (ExForbiddenField field)
            else
              '(item, o1) ← scrub_value item field;
              '(fields, o2) ← go fields;
              Ok ((key, item) :: fields, o1 ++ o2)
        end) fields;
      Ok (JObject fields, omissions)
  | JString text => _ ← scan_text pointer text; Ok (value, [])
  | _ => Ok (value, [])
  end.

Definition omission_cmp : OmissionFact → OmissionFact → comparison := on_key om_pointer String.compare.

Definition require_object_keys (value : json) (allowed : list string) : result ExportError () :=
  object ← ok_or (as_object value) ExWrongRecordShape;
  for_each (λ key, fail_if (negb (bool_decide (key ∈ allowed))) (ExUnknownField ("/" +:+ key))) object.*1.
Definition validate_root (class : PortableRecordClass) (value : json) : result ExportError () :=
  match class with
  | SemanticPayload => Ok ()
  | RcCheckpoint =>
      require_object_keys value ["lastEventId"; "aggregateVersion"; "snapshotHash"; "stateHash"]
  | RcManifest =>
      require_object_keys value
        ["family"; "major"; "minor"; "requiredFeatures"; "sessionId"; "chatId"; "runId";
         "frozenSnapshotHash"; "canonicalBranchId"; "exportPolicyHash"; "branchId"; "parentBranchId";
         "parentCheckpointHash"; "parentHeadHash"]
  | ArtifactMetadata => require_object_keys value ["mediaType"; "byteLength"; "digest"]
  end.

Definition scrub_record (class : PortableRecordClass) (value : json) : result ExportError ScrubbedValue :=
  _ ← validate_root class value;
  '(value, omissions) ← scrub_value value "";
  Ok (MkScrubbed value (sort_by omission_cmp omissions)).
Definition scrub (value : json) : result ExportError ScrubbedValue := scrub_record SemanticPayload value.

(** [scrubbed.value != value || !scrubbed.omissions.is_empty()], negated: the
    value passes the policy as it is. *)
Definition portable_as_is (value : json) : bool :=
  match scrub value with
  | Ok s => json_eqb (sb_value s) value && is_nil (sb_omissions s)
  | Err _ => false
  end.

(** ** What the policy lets through *)

Section json_induction.
Variable P : json → Prop.
Hypothesis HNull : P JNull.
Hypothesis HBool : ∀ b, P (JBool b).
Hypothesis HNumber : ∀ n, P (JNumber n).
Hypothesis HString : ∀ s, P (JString s).
Hypothesis HArray : ∀ items, Forall P items → P (JArray items).
Hypothesis HObject : ∀ fields : obj, Forall (λ kv, P kv.2) fields → P (JObject fields).

(** Induction on values with their parts. *)
Fixpoint json_induction (v : json) : P v :=
  match v with
  | JNull => HNull
  | JBool b => HBool b
  | JNumber n => HNumber n
  | JString s => HString s
  | JArray items =>
      HArray items ((fix go (items : list json) : Forall P items :=
        match items with
        | [] => @List.Forall_nil _ _
        | v :: items => @List.Forall_cons _ _ v _ (json_induction v) (go items)
        end) items)
  | JObject fields =>
      HObject fields ((fix go (fields : obj) : Forall (λ kv, P kv.2) fields :=
        match fields with
        | [] => @List.Forall_nil _ _
        | kv :: fields => @List.Forall_cons _ _ kv _ (json_induction kv.2) (go fields)
        end) fields)
  end.
End json_induction.

(** The value without the fields of local capture, at any depth. *)
Definition kept_field (key : string) : bool := negb (is_omitted_field (normalize_key key)).
Fixpoint prune (v : json) : json :=
  match v with
  | JArray items => JArray (map prune items)
  | JObject fields =>
      JObject ((fix go (fields : obj) : obj :=
        match fields with
        | [] => []
        | (key, item) :: fields => if kept_field key then (key, prune item) :: go fields else go fields
        end) fields)
  | _ => v
  end.
(** No field the policy omits or forbids and no text it refuses, at any
    depth. *)
Fixpoint clean (v : json) : bool :=
  match v with
  | JArray items => forallb clean items
  | JObject fields =>
      forallb (λ kv, kept_field kv.1 && negb (is_forbidden_field (normalize_key kv.1)) && clean kv.2) fields
  | JString text => is_ok (scan_text "" text)
  | _ => true
  end.

Lemma scan_text_pointer p q text : is_ok (scan_text p text) = is_ok (scan_text q text).
Proof. unfold scan_text. cbv zeta. by repeat case_match. Qed.
Lemma scan_text_ok p text : scan_text p text = Ok () ↔ is_ok (scan_text "" text) = true.
Proof. rewrite (scan_text_pointer "" p). destruct (scan_text p text) as [[]|]; simpl; naive_solver. Qed.

(** Scrubbing succeeds exactly when the pruned value is clean, and returns
    it; nothing is omitted exactly when pruning changes nothing. *)
Definition scrubs (v : json) : Prop := ∀ p,
  (clean (prune v) = true → ∃ o, scrub_value v p = Ok (prune v, o))
  ∧ (∀ w o, scrub_value v p = Ok (w, o) → clean (prune v) = true ∧ w = prune v ∧ (o = [] → prune v = v)).

Lemma scrub_value_spec v : scrubs v.
Proof.
  induction v as [|b|n|s|items IH|fields IH] using json_induction; intros p; cbn [scrub_value prune clean];
    try (split; [eauto|by intros w o [= <- <-]]).
  - pose proof (scan_text_ok p s) as Hs. destruct (scan_text p s) as [[]|e].
    + split; [eauto|]. intros w o [= <- <-]. split_and!; [by apply Hs|done..].
    + split; [|done]. intros Hc%Hs. done.
  - match goal with |- context [mbind _ (?f 0 items)] => set (go := f) end.
    assert (∀ index, (forallb clean (map prune items) = true → ∃ o, go index items = Ok (map prune items, o))
      ∧ (∀ ws o, go index items = Ok (ws, o) → forallb clean (map prune items) = true ∧ ws = map prune items
                 ∧ (o = [] → map prune items = items))) as Hgo.
    { induction IH as [|v items Hv _ IHi]; intros index; simpl; [split; [eauto|by intros ? ? [= <- <-]]|].
      destruct (Hv (p +:+ "/" +:+ pretty index)) as [Hv1 Hv2], (IHi (index + 1)) as [Hi1 Hi2]. split.
      - intros [Hc1 Hc2]%andb_true_iff. destruct (Hv1 Hc1) as [o1 ->], (Hi1 Hc2) as [o2 Ho2].
        simpl. rewrite Ho2. simpl. eauto.
      - intros ws o H. destruct (scrub_value v _) as [[w1 o1]|] eqn:E1; [|done]. simpl in H.
        destruct (go (index + 1) items) as [[ws2 o2]|] eqn:E2; [|done]. simplify_eq/=.
        destruct (Hv2 _ _ eq_refl) as (-> & -> & Hn1), (Hi2 _ _ eq_refl) as (-> & -> & Hn2).
        split_and!; [done..|]. intros [-> ->]%app_eq_nil. by rewrite Hn1, Hn2. }
    destruct (Hgo 0) as [Hg1 Hg2]. split.
    + intros Hc. destruct (Hg1 Hc) as [o ->]. simpl. eauto.
    + intros w o H. destruct (go 0 items) as [[ws o1]|] eqn:E; simplify_eq/=.
      destruct (Hg2 _ _ eq_refl) as (? & -> & Hn). split_and!; [done..|]. intros ->. by rewrite Hn.
  - match goal with |- context [mbind _ (?f fields)] => set (go := f) end.
    match goal with |- context [JObject (?f fields)] => set (pr := f) end.
    match goal with |- context [forallb ?f] => set (ok := f) end.
    assert ((forallb ok (pr fields) = true → ∃ o, go fields = Ok (pr fields, o))
      ∧ (∀ ws o, go fields = Ok (ws, o) → forallb ok (pr fields) = true ∧ ws = pr fields
                 ∧ (o = [] → pr fields = fields))) as [Hg1 Hg2].
    { induction IH as [|[key v] fields Hv _ [Hi1 Hi2]]; simpl; [split; [eauto|by intros ? ? [= <- <-]]|].
      simpl in Hv. destruct (Hv (p +:+ "/" +:+ escape_pointer key)) as [Hv1 Hv2].
      unfold kept_field. destruct (is_omitted_field (normalize_key key)) eqn:Eo; simpl.
      { split.
        - intros Hc. destruct (Hi1 Hc) as [o ->]. simpl. eauto.
        - intros ws o H. destruct (go fields) as [[ws2 o2]|] eqn:E2; [|done]. simplify_eq/=.
          destruct (Hi2 _ _ eq_refl) as (? & -> & _). done. }
      assert (ok (key, prune v) = negb (is_forbidden_field (normalize_key key)) && clean (prune v)) as Hok.
      { unfold ok, kept_field. simpl. by rewrite Eo. }
      rewrite Hok. clear Hok.
      destruct (is_forbidden_field (normalize_key key)) eqn:Ef; simpl; [done|]. split.
      - intros [Hc1 Hc2]%andb_true_iff. destruct (Hv1 Hc1) as [o1 ->], (Hi1 Hc2) as [o2 Ho2].
        simpl. rewrite Ho2. simpl. eauto.
      - intros ws o H. destruct (scrub_value v _) as [[w1 o1]|] eqn:E1; [|done]. simpl in H.
        destruct (go fields) as [[ws2 o2]|] eqn:E2; [|done]. simplify_eq/=.
        destruct (Hv2 _ _ eq_refl) as (-> & -> & Hn1), (Hi2 _ _ eq_refl) as (-> & -> & Hn2).
        split_and!; [done..|]. intros [-> ->]%app_eq_nil. by rewrite Hn1, Hn2. }
    split.
    + intros Hc. destruct (Hg1 Hc) as [o ->]. simpl. eauto.
    + intros w o H. destruct (go fields) as [[ws o1]|] eqn:E; simplify_eq/=.
      destruct (Hg2 _ _ eq_refl) as (? & -> & Hn). split_and!; [done..|]. intros ->. by rewrite Hn.
Qed.

(** A clean value passes unchanged. *)
Lemma scrub_value_clean v : ∀ p, clean v = true → scrub_value v p = Ok (v, []).
Proof.
  induction v as [|b|n|s|items IH|fields IH] using json_induction; intros p; cbn [scrub_value clean]; try done.
  - intros Hs%(scan_text_ok p). by rewrite Hs.
  - match goal with |- context [mbind _ (?f 0 items)] => set (go := f) end. intros Hc.
    enough (∀ index, go index items = Ok (items, [])) as Hgo by (by rewrite Hgo).
    induction IH as [|v items Hv _ IHi]; intros index; simpl; [done|].
    simpl in Hc. apply andb_true_iff in Hc as [Hc1 Hc2].
    rewrite Hv by done. simpl. by rewrite IHi.
  - match goal with |- context [mbind _ (?f fields)] => set (go := f) end. intros Hc.
    enough (go fields = Ok (fields, [])) as Hgo by (by rewrite Hgo).
    induction IH as [|[key v] fields Hv _ IHi]; simpl; [done|].
    simpl in Hc. unfold kept_field in Hc. boolify. simpl in Hv.
    rewrite H, H2. simpl. rewrite Hv by done. simpl. by rewrite IHi.
Qed.

Lemma scrub_ok v s : scrub v = Ok s → clean (prune v) = true ∧ sb_value s = prune v
  ∧ (sb_omissions s = [] → prune v = v).
Proof.
  unfold scrub, scrub_record. simpl. destruct (scrub_value v "") as [[w o]|e] eqn:E; [|done].
  intros [= <-]. simpl. destruct (proj2 (scrub_value_spec v "") _ _ E) as (? & -> & Hn).
  split_and!; [done..|]. intros Hs. apply Hn, Permutation_nil_r. by rewrite <- (sort_by_perm omission_cmp o), Hs.
Qed.
Lemma scrub_clean v : clean v = true → scrub v = Ok (MkScrubbed v []).
Proof. intros Hc. unfold scrub, scrub_record. simpl. by rewrite scrub_value_clean. Qed.

(** C24: The export policy against its specification: a value is exported exactly
    when, without its fields of local capture, it contains no forbidden field,
    no credential-like text and no machine path at any depth; that value is
    what is exported, an omission is recorded exactly when something was
    dropped, and the exported value passes the policy again unchanged.  What a
    forbidden field and a forbidden text are is what [is_forbidden_field] and
    [scan_text] say, in the specification as in the code; the keys of objects
    are compared with the fields and not scanned as text. *)
Theorem scrub_exact v :
  ((∃ s, scrub v = Ok s) ↔ clean (prune v) = true)
  ∧ ∀ s, scrub v = Ok s →
      sb_value s = prune v ∧ clean (sb_value s) = true
      ∧ (sb_omissions s = [] ↔ prune v = v)
      ∧ scrub (sb_value s) = Ok (MkScrubbed (sb_value s) []).
Proof.
  split.
  - split; [by intros [s (? & _)%scrub_ok]|]. intros Hc.
    destruct (proj1 (scrub_value_spec v "") Hc) as [o Ho].
    unfold scrub, scrub_record. simpl. rewrite Ho. simpl. eauto.
  - intros s Hs. destruct (scrub_ok v s Hs) as (Hc & Hv & Ho). rewrite Hv.
    split_and!; [done..| |by apply scrub_clean]. split; [done|].
    intros Heq. rewrite Heq in Hc. rewrite (scrub_clean v Hc) in Hs. by injection Hs as <-.
Qed.
