(* ===== verification/PortableCodec.v ===== *)
(** * Portable records ([crates/aworkit-portable-store/src/codec.rs])

    The records of portable history and their bytes: canonical JSON lines, and
    segments of a header, one line per event and a trailer that authenticates
    the lines before it.  The theorem [segment_roundtrip]: a segment that was
    encoded decodes to the same segment up to the spelling of the JSON values
    in it, and to itself when these survive their canonical text.

    Rebinding and retention ([rebind.rs]) are plans only: how the requirements
    of an imported branch are met by the local machine, and which objects may
    be collected after two scans. *)
From S2P Require Export History Export.

(** * Records and segments *)

Definition MAX_RECORD_BYTES : N := 1048576.
Definition MAX_SEGMENT_BYTES : N := 8388608.
Definition MAX_SEGMENT_EVENTS : N := 64.
Definition MAX_PORTABLE_ARTIFACT_BYTES : N := 4194304.

(** ** Records *)

Record PortableEvent : Type := MkPortableEvent {
  vt_event_id : string;
  vt_chat_id : string;
  vt_branch_id : string;
  vt_ordinal : N;
  vt_kind : string;
  vt_payload : json
}.
Record PortableCapabilityRequirementV1 : Type := MkRequirement {
  cq_logical_id : string;
  cq_version : string;
  cq_configuration_hash : string
}.
Record PortableGitFactsV1 : Type := MkGitFacts {
  gf_head_commit : option string;
  gf_dirty_state_digest : option string;
  gf_worktree_identity : option string;
  gf_unavailable_reason : option string
}.
Record PortableFrozenSnapshotV1 : Type := MkPortableFrozenSnapshot {
  ps_schema_version : N;
  ps_snapshot_hash : string;
  ps_workflow_hash : string;
  ps_portable_snapshot : json;
  ps_requirements : list PortableCapabilityRequirementV1
}.
(** [artifact.rs] *)
Record ArtifactDescriptor : Type := MkArtifact {
  ad_media_type : string;
  ad_byte_length : N;
  ad_digest : string
}.
Record PortableProvenanceV1 : Type := MkPortableProvenance {
  pn_git : PortableGitFactsV1;
  pn_workflow_revision_hash : string;
  pn_configuration_revision_hashes : list string;
  pn_redaction_profile_hash : string;
  pn_artifact_refs : list string;
  pn_artifact_metadata : list ArtifactDescriptor;
  pn_omissions : list OmissionFact
}.
Record PortableCommitContextV1 : Type := MkCommitContext {
  cc_frozen_snapshot : option PortableFrozenSnapshotV1;
  cc_provenance : PortableProvenanceV1
}.
Record PortableSegment : Type := MkSegment {
  sg_parent_segment_hash : option string;
  sg_base_checkpoint_hash : option string;
  sg_first_ordinal : N;
  sg_context : option PortableCommitContextV1;
  sg_events : list PortableEvent
}.
Record PortableTransitionRecordV1 : Type := MkTransitionRecord {
  tn_batch : CommitBatchV1;
  tn_context : PortableCommitContextV1
}.
Record PortableCheckpoint : Type := MkPortableCheckpoint {
  pc_last_event_id : option string;
  pc_aggregate_version : N;
  pc_reducer_version : string;
  pc_snapshot_hash : option string;
  pc_state_hash : string
}.

Inductive SegmentRecordType : Type := SegmentHeader | SegmentEvent | SegmentTrailer.
#[export] Instance SegmentRecordType_eq_dec : EqDecision SegmentRecordType.
Proof. solve_decision. Defined.
Record SegmentHeaderV1 : Type := MkSegmentHeader {
  sh_record_type : SegmentRecordType;
  sh_schema_version : N;
  sh_parent_segment_hash : option string;
  sh_base_checkpoint_hash : option string;
  sh_first_ordinal : N;
  sh_event_count : N;
  sh_context : option PortableCommitContextV1
}.
Record SegmentEventV1 : Type := MkSegmentEvent {
  se_record_type : SegmentRecordType;
  se_event : PortableEvent
}.
Record SegmentTrailerV1 : Type := MkSegmentTrailer {
  st_record_type : SegmentRecordType;
  st_event_count : N;
  st_last_ordinal : N;
  st_body_hash : string
}.

Inductive CodecError : Type :=
| CxInvalidFraming
| CxNonCanonical
| CxRecordTooLarge
| CxSegmentTooLarge
| CxEmptySegment
| CxTooManyEvents
| CxOrdinalGap
| CxMixedLineage
| CxInvalidIdentity
| CxInvalidEventKind
| CxInvalidSegmentGrammar
| CxUnsupportedSchema
| CxTrailerMismatch
| CxInvalidProvenance
| CxInvalidCheckpoint
| CxJson.

(** ** Names and hashes *)

Definition codec_valid_hash (value : string) : bool :=
  match strip_prefix "sha256:" value with
  | Some hex => (str_len hex =? 64) && all_bytes is_lower_hexdigit hex
  | None => false
  end.
Definition valid_name (value : string) : bool :=
  negb (str_is_empty value) && (str_len value <=? 128)
  && all_bytes (λ b, is_ascii_alphanumeric b || (b =? 46) || (b =? 45) || (b =? 95)) value.
Definition valid_git_object_id (value : string) : bool :=
  ((str_len value =? 40) || (str_len value =? 64)) && all_bytes is_lower_hexdigit value.
Definition codec_validate_id (value : string) : result CodecError () :=
  if valid_name value then Ok () else Err CxInvalidIdentity.

Fixpoint keep_alphanumeric (s : string) : string :=
  match s with
  | EmptyString => EmptyString
  | String c s => if is_ascii_alphanumeric (byte_of c) then String c (keep_alphanumeric s) else keep_alphanumeric s
  end.
Definition validate_kind (value : string) : result CodecError () :=
  let normalized := keep_alphanumeric value in
  let forbidden :=
    starts_with "authority" normalized || starts_with "approval" normalized
    || starts_with "secretlease" normalized
    || bool_decide (normalized ∈ ["reasoningraw"; "rawreasoning"; "hiddenreasoning"; "chainofthought";
         "debugcapture"; "rawprotocol"; "rawstream"; "executable"; "scriptbytes"; "pluginbytes"]) in
  if negb forbidden && negb (str_is_empty value) && (str_len value <=? 128)
     && all_bytes (λ b, in_range 97 122 b || (b =? 46) || (b =? 45) || (b =? 95)) value
  then Ok () else Err CxInvalidEventKind.
Definition validate_hash_option (value : option string) : result CodecError () :=
  if match value with Some v => codec_valid_hash v | None => true end then Ok () else Err CxInvalidIdentity.

(** [Option::is_some_and] and [Option::is_none_or]. *)
Definition is_some_and {A} (o : option A) (f : A → bool) : bool :=
  match o with Some a => f a | None => false end.
Definition is_none_or {A} (o : option A) (f : A → bool) : bool :=
  match o with Some a => f a | None => true end.
(** [slice::windows(2).any(f)] and [a >= b] on strings. *)
Fixpoint any_pair {A} (f : A → A → bool) (l : list A) : bool :=
  match l with
  | x :: (y :: _) as l' => f x y || any_pair f l'
  | _ => false
  end.
Definition str_ge (a b : string) : bool :=
  match String.compare a b with Lt => false | _ => true end.

Definition validate_checkpoint_record (checkpoint : PortableCheckpoint) : result CodecError () :=
  if (pc_aggregate_version checkpoint =? 0)
     || negb (valid_name (pc_reducer_version checkpoint))
     || negb (codec_valid_hash (pc_state_hash checkpoint))
     || is_some_and (pc_snapshot_hash checkpoint) (λ v, negb (codec_valid_hash v))
     || is_none_or (pc_last_event_id checkpoint) (λ v, negb (valid_name v))
  then Err CxInvalidCheckpoint else Ok ().

(** The checks of [validate_context] on requirements and provenance. *)
Definition bad_requirement (r : PortableCapabilityRequirementV1) : bool :=
  negb (valid_name (cq_logical_id r)) || negb (valid_name (cq_version r))
  || negb (codec_valid_hash (cq_configuration_hash r)).
Definition bad_requirements (l : list PortableCapabilityRequirementV1) : bool :=
  any_pair (λ a b, str_ge (cq_logical_id a) (cq_logical_id b) || bad_requirement a) l
  || is_some_and (last l) bad_requirement.
Definition bad_artifact (d : ArtifactDescriptor) : bool :=
  negb (bool_decide (ad_media_type d ∈ ["text/plain"; "text/markdown"; "text/csv"; "application/json"]))
  || (ad_byte_length d =? 0) || (MAX_PORTABLE_ARTIFACT_BYTES <? ad_byte_length d)
  || negb (codec_valid_hash (ad_digest d)).
Definition bad_provenance (p : PortableProvenanceV1) : bool :=
  negb (codec_valid_hash (pn_workflow_revision_hash p))
  || negb (codec_valid_hash (pn_redaction_profile_hash p))
  || existsb (λ v, negb (codec_valid_hash v)) (pn_configuration_revision_hashes p ++ pn_artifact_refs p)
  || any_pair str_ge (pn_configuration_revision_hashes p)
  || any_pair str_ge (pn_artifact_refs p)
  || any_pair (λ a b, str_ge (ad_digest a) (ad_digest b)) (pn_artifact_metadata p)
  || existsb bad_artifact (pn_artifact_metadata p)
  || negb (bool_decide (pn_artifact_refs p = map ad_digest (pn_artifact_metadata p)))
  || existsb (λ f, negb (starts_with "/" (om_pointer f))
                   || negb (bool_decide (om_reason f = "local_detailed_capture"))) (pn_omissions p)
  || any_pair (λ a b, str_ge (om_pointer a) (om_pointer b)) (pn_omissions p)
  || is_some_and (gf_head_commit (pn_git p)) (λ v, negb (valid_git_object_id v))
  || is_some_and (gf_dirty_state_digest (pn_git p)) (λ v, negb (codec_valid_hash v))
  || is_some_and (gf_worktree_identity (pn_git p)) (λ v, negb (codec_valid_hash v))
  || (negb (is_some (gf_head_commit (pn_git p))) && is_none_or (gf_unavailable_reason (pn_git p)) str_is_empty).

(** ** Bytes *)

#[export] Instance byte_decision : EqDecision Byte.byte := Byte.byte_eq_dec.
Definition LF : Byte.byte := x0a.
Definition CR : Byte.byte := x0d.
Definition byte_eqb (a b : Byte.byte) : bool := bool_decide (a = b).
Definition bytes_contain (b : Byte.byte) (bs : bytes) : bool := existsb (byte_eqb b) bs.
Definition ends_with_lf (bs : bytes) : bool := is_some_and (last bs) (byte_eqb LF).
(** [bytes[..bytes.len() - 1]]. *)
Definition but_last (bs : bytes) : bytes := take (length bs - 1)%nat bs.
(** [split_inclusive(|byte| *byte == b'\n')]. *)
Fixpoint split_inclusive (bs : bytes) : list bytes :=
  match bs with
  | [] => []
  | b :: bs =>
      if byte_eqb b LF then [b] :: split_inclusive bs
      else match split_inclusive bs with
           | [] => [[b]]
           | line :: lines => (b :: line) :: lines
           end
  end.

Section codec.
Context `{Sha256, !Serialize json, !Deserialize json}.

Definition canonical_json (value : json) : result CodecError bytes := ok_or (jcs_to_vec value) CxJson.
Definition digest (domain : string) (bs : bytes) : string :=
  "sha256:" +:+ sha256_hex (as_bytes domain ++ [x00] ++ bs).
Definition portable_snapshot_hash (value : json) : result CodecError string :=
  bytes ← canonical_json value; Ok (digest "portable-frozen-snapshot-v1" bytes).

Definition validate_context (context : PortableCommitContextV1) : result CodecError () :=
  _ ← match cc_frozen_snapshot context with
      | None => Ok ()
      | Some snapshot =>
          scrubbed ← map_err (λ _, CxInvalidProvenance) (scrub (ps_portable_snapshot snapshot));
          if negb (ps_schema_version snapshot =? 1)
             || negb (json_eqb (sb_value scrubbed) (ps_portable_snapshot snapshot))
             || negb (is_nil (sb_omissions scrubbed))
          then Err CxInvalidProvenance
          else
            hash ← portable_snapshot_hash (ps_portable_snapshot snapshot);
            fail_if (negb (bool_decide (ps_snapshot_hash snapshot = hash))
                     || negb (codec_valid_hash (ps_workflow_hash snapshot))
                     || bad_requirements (ps_requirements snapshot)) CxInvalidProvenance
      end;
  _ ← match gf_unavailable_reason (pn_git (cc_provenance context)) with
      | None => Ok ()
      | Some reason =>
          scrubbed ← map_err (λ _, CxInvalidProvenance) (scrub (JString reason));
          fail_if (negb (json_eqb (sb_value scrubbed) (JString reason))
                   || negb (is_nil (sb_omissions scrubbed))) CxInvalidProvenance
      end;
  fail_if (bad_provenance (cc_provenance context)) CxInvalidProvenance.

(** *** One record *)

Definition encode_record {T} `{!ToValue T} (value : T) : result CodecError bytes :=
  value ← ok_or (to_value value) CxJson;
  line ← canonical_json value;
  if MAX_RECORD_BYTES <? len line then Err CxRecordTooLarge else Ok (line ++ [LF]).
(** [encode_record] of a [Value]. *)
#[export] Instance json_to_value : ToValue json := Some.

Definition decode_record {T} `{!FromValue T} (bs : bytes) : result CodecError T :=
  _ ← fail_if (is_nil bs || (MAX_RECORD_BYTES + 1 <? len bs) || negb (ends_with_lf bs)
               || bytes_contain LF (but_last bs) || bytes_contain CR bs) CxInvalidFraming;
  value ← ok_or (from_slice (but_last bs)) CxJson;
  again ← encode_record value;
  _ ← fail_if (negb (bool_decide (again = bs))) CxNonCanonical;
  ok_or (from_value value) CxJson.

(** *** Segments *)

Fixpoint validate_events (first : PortableEvent) (first_ordinal index : N) (events : list PortableEvent) :
    result CodecError () :=
  match events with
  | [] => Ok ()
  | event :: events =>
      _ ← codec_validate_id (vt_event_id event);
      _ ← codec_validate_id (vt_chat_id event);
      _ ← codec_validate_id (vt_branch_id event);
      _ ← validate_kind (vt_kind event);
      _ ← fail_if (negb (bool_decide (vt_chat_id event = vt_chat_id first))
                   || negb (bool_decide (vt_branch_id event = vt_branch_id first))) CxMixedLineage;
      expected ← ok_or (checked_add u64_max first_ordinal index) CxOrdinalGap;
      _ ← fail_if (negb (vt_ordinal event =? expected)) CxOrdinalGap;
      payload ← canonical_json (vt_payload event);
      _ ← fail_if (MAX_RECORD_BYTES / 2 <? len payload) CxRecordTooLarge;
      validate_events first first_ordinal (index + 1) events
  end.
Definition validate_segment (segment : PortableSegment) : result CodecError () :=
  match sg_events segment with
  | [] => Err CxEmptySegment
  | first :: _ =>
      _ ← fail_if (MAX_SEGMENT_EVENTS <? len (sg_events segment)) CxTooManyEvents;
      _ ← validate_hash_option (sg_parent_segment_hash segment);
      _ ← validate_hash_option (sg_base_checkpoint_hash segment);
      _ ← match sg_context segment with Some context => validate_context context | None => Ok () end;
      _ ← codec_validate_id (vt_chat_id first);
      _ ← codec_validate_id (vt_branch_id first);
      validate_events first (sg_first_ordinal segment) 0 (sg_events segment)
  end.

Context `{!ToValue SegmentHeaderV1, !FromValue SegmentHeaderV1}.
Context `{!ToValue SegmentEventV1, !FromValue SegmentEventV1}.
Context `{!ToValue SegmentTrailerV1, !FromValue SegmentTrailerV1}.

Definition encode_event (event : PortableEvent) : result CodecError bytes :=
  encode_record (MkSegmentEvent SegmentEvent event).

Definition encode_segment (segment : PortableSegment) : result CodecError bytes :=
  _ ← validate_segment segment;
  let count := len (sg_events segment) in
  event_count ← (if count <=? u16_max then Ok count else Err CxTooManyEvents);
  header ← encode_record (MkSegmentHeader SegmentHeader 1 (sg_parent_segment_hash segment)
             (sg_base_checkpoint_hash segment) (sg_first_ordinal segment) event_count (sg_context segment));
  lines ← map_res encode_event (sg_events segment);
  let body := header ++ concat lines in
  last_ordinal ← ok_or (checked_add u64_max (sg_first_ordinal segment) (count - 1)) CxOrdinalGap;
  trailer ← encode_record (MkSegmentTrailer SegmentTrailer event_count last_ordinal (digest "segment-body" body));
  let body := body ++ trailer in
  if MAX_SEGMENT_BYTES <? len body then Err CxSegmentTooLarge else Ok body.

Definition decode_event (line : bytes) : result CodecError PortableEvent :=
  record ← decode_record line;
  _ ← fail_if (negb (bool_decide (se_record_type record = SegmentEvent))) CxInvalidSegmentGrammar;
  Ok (se_event record).

Definition starts_with_bom (bs : bytes) : bool := bool_decide (take 3 bs = [xef; xbb; xbf]).

(** [lines[0]], [lines[1..=count]] and [lines[count + 1]]. *)
Definition decode_segment (bs : bytes) : result CodecError PortableSegment :=
  _ ← fail_if (is_nil bs || (MAX_SEGMENT_BYTES <? len bs) || negb (ends_with_lf bs)
               || bytes_contain CR bs || starts_with_bom bs) CxInvalidFraming;
  let lines := split_inclusive bs in
  _ ← fail_if ((len lines <? 3) || (MAX_SEGMENT_EVENTS + 2 <? len lines)) CxInvalidSegmentGrammar;
  header ← decode_record (T:=SegmentHeaderV1) (nth 0 lines []);
  _ ← fail_if (negb (bool_decide (sh_record_type header = SegmentHeader))
               || negb (sh_schema_version header =? 1)) CxUnsupportedSchema;
  let expected_count := sh_event_count header in
  _ ← fail_if ((expected_count =? 0) || (MAX_SEGMENT_EVENTS <? expected_count)
               || negb (len lines =? expected_count + 2)) CxInvalidSegmentGrammar;
  let count := N.to_nat expected_count in
  events ← map_res decode_event (take count (drop 1 lines));
  trailer ← decode_record (T:=SegmentTrailerV1) (nth (count + 1) lines []);
  let expected_body_hash := digest "segment-body" (concat (take (count + 1) lines)) in
  _ ← fail_if (negb (bool_decide (st_record_type trailer = SegmentTrailer))
               || negb (st_event_count trailer =? expected_count)
               || negb (bool_decide (st_body_hash trailer = expected_body_hash))) CxTrailerMismatch;
  let segment := MkSegment (sh_parent_segment_hash header) (sh_base_checkpoint_hash header)
                   (sh_first_ordinal header) (sh_context header) events in
  _ ← validate_segment segment;
  last_ordinal ← ok_or (checked_add u64_max (sg_first_ordinal segment) (len events - 1)) CxOrdinalGap;
  _ ← fail_if (negb (st_last_ordinal trailer =? last_ordinal)) CxTrailerMismatch;
  Ok segment.
End codec.

(** ** Round trip *)

(** What the derived serializers and RFC 8785 promise of a record of strings,
    integers, tags, options and lists of these: it prints as one line that
    opens with a brace, and parsing the line gives back a value that prints
    the same and is the record. *)
Class PlainRecord `{!Serialize json, !Deserialize json} (T : Type) `{!ToValue T, !FromValue T} : Prop :=
  plain_record : ∀ (x : T) v bs, to_value x = Some v → jcs_to_vec v = Some bs →
    LF ∉ bs ∧ CR ∉ bs ∧ head bs = Some x7b
    ∧ ∃ v', from_slice bs = Some v' ∧ jcs_to_vec v' = Some bs ∧ from_value v' = Some x.

(** A record that carries JSON values promises less.  RFC 8785 prints numbers
    as ECMAScript does, [1.0] as [1], and a value nested too deeply prints but
    does not parse: the line may not parse, and what it parses to may be
    another record.  It is one that is the [same] up to the spelling of its
    JSON values, and that prints the same line. *)
Class JsonRecord `{!Serialize json, !Deserialize json} (T : Type) `{!ToValue T, !FromValue T}
    (same : T → T → Prop) : Prop := {
  json_record_line : ∀ (x : T) v bs, to_value x = Some v → jcs_to_vec v = Some bs →
    LF ∉ bs ∧ CR ∉ bs ∧ head bs = Some x7b;
  json_record_same : ∀ (x : T) v bs v' x', to_value x = Some v → jcs_to_vec v = Some bs →
    from_slice bs = Some v' → jcs_to_vec v' = Some bs → from_value v' = Some x' →
    same x x' ∧ ∃ v'', to_value x' = Some v'' ∧ jcs_to_vec v'' = Some bs
}.

(** *** The same up to the spelling of JSON values *)

Section same.
Context `{!Serialize json, !Deserialize json}.

Definition json_same (a b : json) : Prop := jcs_to_vec a = jcs_to_vec b.
Definition event_same (e e' : PortableEvent) : Prop :=
  json_same (vt_payload e) (vt_payload e')
  ∧ e' = MkPortableEvent (vt_event_id e) (vt_chat_id e) (vt_branch_id e) (vt_ordinal e) (vt_kind e) (vt_payload e').
Definition snapshot_same (p p' : PortableFrozenSnapshotV1) : Prop :=
  json_same (ps_portable_snapshot p) (ps_portable_snapshot p')
  ∧ p' = MkPortableFrozenSnapshot (ps_schema_version p) (ps_snapshot_hash p) (ps_workflow_hash p)
           (ps_portable_snapshot p') (ps_requirements p).
Definition context_same (c c' : PortableCommitContextV1) : Prop :=
  option_Forall2 snapshot_same (cc_frozen_snapshot c) (cc_frozen_snapshot c') ∧ cc_provenance c' = cc_provenance c.
Definition header_same (h h' : SegmentHeaderV1) : Prop :=
  option_Forall2 context_same (sh_context h) (sh_context h')
  ∧ h' = MkSegmentHeader (sh_record_type h) (sh_schema_version h) (sh_parent_segment_hash h)
           (sh_base_checkpoint_hash h) (sh_first_ordinal h) (sh_event_count h) (sh_context h').
Definition segment_event_same (e e' : SegmentEventV1) : Prop :=
  event_same (se_event e) (se_event e') ∧ se_record_type e' = se_record_type e.
Definition segment_same (s s' : PortableSegment) : Prop :=
  option_Forall2 context_same (sg_context s) (sg_context s') ∧ Forall2 event_same (sg_events s) (sg_events s')
  ∧ s' = MkSegment (sg_parent_segment_hash s) (sg_base_checkpoint_hash s) (sg_first_ordinal s)
           (sg_context s') (sg_events s').

(** A value that its own canonical text parses to, and a record that is
    serialized to one: no number is spelled otherwise, no nesting is too
    deep. *)
Definition survives (v : json) : Prop := ∀ bs, jcs_to_vec v = Some bs → from_slice bs = Some v.
Definition record_survives {T} `{!ToValue T} (x : T) : Prop := ∀ v, to_value x = Some v → survives v.
End same.

Lemma bytes_contain_spec b bs : bytes_contain b bs = true ↔ b ∈ bs.
Proof.
  unfold bytes_contain, byte_eqb. rewrite existsb_true. split.
  - intros (x & Hx & Heq). by apply bool_decide_eq_true in Heq as <-.
  - intros Hb. exists b. split; [done|]. by apply bool_decide_eq_true.
Qed.
Lemma bytes_contain_false b bs : bytes_contain b bs = false ↔ b ∉ bs.
Proof. rewrite <- not_true_iff_false, bytes_contain_spec. done. Qed.

(** A line of text: no line feed but the last, no carriage return. *)
Definition line (bs : bytes) : Prop :=
  ∃ text, bs = text ++ [LF] ∧ LF ∉ text ∧ CR ∉ text ∧ head text = Some x7b.

Lemma line_ends bs : line bs → ends_with_lf bs = true.
Proof.
  intros (text & -> & _). unfold ends_with_lf. rewrite last_snoc. by apply bool_decide_eq_true.
Qed.
Lemma line_no_cr bs : line bs → CR ∉ bs.
Proof. intros (text & -> & _ & Hc & _). rewrite not_elem_of_app, list_elem_of_singleton. done. Qed.

Lemma split_inclusive_line bs rest : line bs → split_inclusive (bs ++ rest) = bs :: split_inclusive rest.
Proof.
  intros (text & -> & Hlf & _ & _). induction text as [|b text IH]; cbn.
  - unfold byte_eqb. by rewrite bool_decide_true.
  - apply not_elem_of_cons in Hlf as [Hne Hlf]. unfold byte_eqb at 1.
    rewrite bool_decide_false by congruence. simpl in IH. by rewrite IH.
Qed.
Lemma split_inclusive_lines lines : Forall line lines → split_inclusive (concat lines) = lines.
Proof.
  induction 1 as [|bs lines Hl _ IH]; [done|]. simpl. by rewrite split_inclusive_line, IH.
Qed.
Lemma lines_no_cr lines : Forall line lines → CR ∉ concat lines.
Proof.
  induction 1 as [|bs lines Hl _ IH]; simpl; [apply not_elem_of_nil|].
  rewrite not_elem_of_app. split; [by apply line_no_cr|done].
Qed.
Lemma lines_end lines bs : Forall line lines → line bs → ends_with_lf (concat lines ++ bs) = true.
Proof.
  intros _ (text & -> & _). unfold ends_with_lf. rewrite app_assoc, last_snoc. by apply bool_decide_eq_true.
Qed.

Lemma but_last_snoc (l : bytes) b : but_last (l ++ [b]) = l.
Proof. unfold but_last. rewrite length_app. simpl. rewrite Nat.add_sub. by rewrite take_app_length. Qed.

Section roundtrip.
#[local] Arguments len : simpl never.
Context `{Sha256, !Serialize json, !Deserialize json}.

(** A bounded line decodes to the records its text parses to, and no other. *)
Lemma decode_line {T} `{!FromValue T} text (x : T) :
  LF ∉ text → CR ∉ text → head text = Some x7b → len text <= MAX_RECORD_BYTES →
  decode_record (text ++ [LF]) = Ok x ↔
    ∃ v, from_slice text = Some v ∧ jcs_to_vec v = Some text ∧ from_value v = Some x.
Proof.
  intros Hlf Hcr Hhead Hlen. unfold decode_record. rewrite but_last_snoc.
  rewrite (proj2 (bytes_contain_false LF text)) by done.
  rewrite (proj2 (bytes_contain_false CR (text ++ [LF]))) by (rewrite not_elem_of_app, list_elem_of_singleton; done).
  assert (ends_with_lf (text ++ [LF]) = true) as -> by (apply line_ends; by exists text).
  assert (is_nil (text ++ [LF]) = false) as -> by (by destruct text).
  assert ((MAX_RECORD_BYTES + 1 <? len (text ++ [LF])) = false) as ->.
  { apply N.ltb_ge. unfold len in *. rewrite length_app. simpl. lia. }
  simpl. unfold encode_record, json_to_value, canonical_json. split.
  - intros Hd. destruct (from_slice text) as [v|]; [|done]. simpl in Hd. exists v. split; [done|].
    destruct (jcs_to_vec v) as [again|]; [|done]. simpl in Hd. destruct (_ <? _); [done|]. simpl in Hd.
    case_bool_decide as Heq; [|done]. simpl in Hd. apply app_inv_tail in Heq as ->. split; [done|].
    destruct (from_value v); simpl in Hd; by simplify_eq.
  - intros (v & -> & Hprint & Hval). simpl. rewrite Hprint. simpl.
    rewrite (proj2 (N.ltb_ge _ _)) by lia. simpl. rewrite bool_decide_true by done. simpl. by rewrite Hval.
Qed.
Lemma encode_record_ok {T} `{!ToValue T} (x : T) bs :
  encode_record x = Ok bs ↔
    ∃ v text, to_value x = Some v ∧ jcs_to_vec v = Some text ∧ len text <= MAX_RECORD_BYTES ∧ bs = text ++ [LF].
Proof.
  unfold encode_record, canonical_json. split.
  - intros Henc. res_inv Henc. rename x0 into v, x1 into text. boolify. by exists v, text.
  - intros (v & text & -> & Htext & Hlen & ->). simpl. rewrite Htext. simpl. by rewrite (proj2 (N.ltb_ge _ _)) by lia.
Qed.

Lemma decode_encode {T} `{!ToValue T, !FromValue T, !PlainRecord T} (x : T) bs :
  encode_record x = Ok bs → decode_record bs = Ok x ∧ line bs.
Proof.
  intros (v & text & Hv & Htext & Hlen & ->)%encode_record_ok.
  destruct (plain_record x v text Hv Htext) as (Hlf & Hcr & Hhead & Hparse).
  split; [by apply decode_line|by exists text].
Qed.
Lemma encode_line {T same} `{!ToValue T, !FromValue T, !JsonRecord T same} (x : T) bs :
  encode_record x = Ok bs → line bs.
Proof.
  intros (v & text & Hv & Htext & _ & ->)%encode_record_ok. exists text.
  by destruct (json_record_line x v text Hv Htext) as (? & ? & ?).
Qed.
Lemma decode_same {T same} `{!ToValue T, !FromValue T, !JsonRecord T same} (x x' : T) bs :
  encode_record x = Ok bs → decode_record bs = Ok x' → same x x' ∧ encode_record x' = Ok bs.
Proof.
  intros (v & text & Hv & Htext & Hlen & ->)%encode_record_ok.
  destruct (json_record_line x v text Hv Htext) as (Hlf & Hcr & Hhead).
  intros (v' & Hparse & Hprint & Hval)%decode_line; [|done..].
  destruct (json_record_same x v text v' x' Hv Htext Hparse Hprint Hval) as (Hsame & v'' & Hv'' & Hj).
  split; [done|]. apply encode_record_ok. by exists v'', text.
Qed.
Lemma decode_survives {T same} `{!ToValue T, !FromValue T, !JsonRecord T same, !ValueRoundTrip T} (x : T) bs :
  record_survives x → encode_record x = Ok bs → decode_record bs = Ok x.
Proof.
  intros Hs (v & text & Hv & Htext & Hlen & ->)%encode_record_ok.
  destruct (json_record_line x v text Hv Htext) as (Hlf & Hcr & Hhead).
  apply decode_line; [done..|]. exists v. split_and!; [by apply (Hs v Hv)|done|by apply from_value_to_value].
Qed.

Context `{!ToValue SegmentHeaderV1, !FromValue SegmentHeaderV1, !JsonRecord SegmentHeaderV1 header_same}.
Context `{!ToValue SegmentEventV1, !FromValue SegmentEventV1, !JsonRecord SegmentEventV1 segment_event_same}.
Context `{!ToValue SegmentTrailerV1, !FromValue SegmentTrailerV1, !PlainRecord SegmentTrailerV1}.
Context `{!ValueRoundTrip SegmentHeaderV1, !ValueRoundTrip SegmentEventV1}.

Lemma encode_events_lines events lines : map_res encode_event events = Ok lines → Forall line lines.
Proof. rewrite map_res_ok. induction 1 as [|e l events lines He _ IH]; constructor; [by eapply encode_line|done]. Qed.
Lemma decode_events_same events lines events' :
  map_res encode_event events = Ok lines → map_res decode_event lines = Ok events' →
  Forall2 event_same events events' ∧ map_res encode_event events' = Ok lines.
Proof.
  rewrite !map_res_ok. intros He. revert events'. induction He as [|e l events lines He _ IH]; intros events' Hd.
  - apply Forall2_nil_inv_l in Hd as ->. by split.
  - apply Forall2_cons_inv_l in Hd as (e' & tail & Hd & Ht & ->). destruct (IH _ Ht) as [IH1 IH2].
    unfold decode_event in Hd. res_inv Hd. rename x into record. boolify.
    destruct (decode_same _ _ _ He Hd0) as [[Hs Ht'] Hr]. simpl in *.
    split; (constructor; [|done]); [done|]. unfold encode_event. destruct record; simpl in *. by subst.
Qed.
Lemma decode_events_survive events lines :
  Forall (λ e, record_survives (MkSegmentEvent SegmentEvent e)) events →
  map_res encode_event events = Ok lines → map_res decode_event lines = Ok events.
Proof.
  rewrite !map_res_ok. intros Hs He. induction He as [|e l events lines He _ IH]; [constructor|].
  apply Forall_cons in Hs as [Hs1 Hs]. constructor; [|auto]. unfold decode_event.
  by rewrite (decode_survives _ _ Hs1 He).
Qed.

Lemma validate_segment_bounds segment u :
  validate_segment segment = Ok u → sg_events segment ≠ [] ∧ len (sg_events segment) <= MAX_SEGMENT_EVENTS.
Proof.
  unfold validate_segment. destruct (sg_events segment) as [|e l]; [done|].
  intros Hv. res_inv Hv. boolify. done.
Qed.

(** The framing of three kinds of lines. *)
Lemma segment_lines header lines trailer :
  line header → Forall line lines → line trailer →
  let bs := (header ++ concat lines) ++ trailer in
  split_inclusive bs = header :: lines ++ [trailer]
  ∧ ends_with_lf bs = true ∧ bytes_contain CR bs = false ∧ starts_with_bom bs = false ∧ is_nil bs = false.
Proof.
  intros Hh Hl Ht bs. assert (Forall line (header :: lines ++ [trailer])) as Hall.
  { constructor; [done|]. apply Forall_app_2; [done|]. by constructor. }
  assert (bs = concat (header :: lines ++ [trailer])) as Hbs.
  { unfold bs. simpl. rewrite concat_app. simpl. by rewrite app_nil_r, <- app_assoc. }
  split_and!.
  - rewrite Hbs. by apply split_inclusive_lines.
  - unfold bs. destruct Ht as (text & -> & _). unfold ends_with_lf. rewrite app_assoc, last_snoc.
    by apply bool_decide_eq_true.
  - rewrite Hbs. apply bytes_contain_false. by apply lines_no_cr.
  - unfold bs. destruct Hh as (text & -> & _ & _ & Hhead). destruct text as [|b text]; [done|].
    simpl in Hhead. injection Hhead as ->. unfold starts_with_bom. by apply bool_decide_eq_false.
  - unfold bs. destruct Hh as (text & -> & _). by destruct text.
Qed.

(** The records [encode_segment] writes besides the events. *)
Definition segment_header (segment : PortableSegment) : SegmentHeaderV1 :=
  MkSegmentHeader SegmentHeader 1 (sg_parent_segment_hash segment) (sg_base_checkpoint_hash segment)
    (sg_first_ordinal segment) (len (sg_events segment)) (sg_context segment).
Definition segment_trailer (segment : PortableSegment) (last_ordinal : N) (body : bytes) : SegmentTrailerV1 :=
  MkSegmentTrailer SegmentTrailer (len (sg_events segment)) last_ordinal (digest "segment-body" body).
Definition segment_survives (segment : PortableSegment) : Prop :=
  record_survives (segment_header segment)
  ∧ Forall (λ e, record_survives (MkSegmentEvent SegmentEvent e)) (sg_events segment).

(** What an encoded segment is made of. *)
Definition framed (segment : PortableSegment) (header : bytes) (lines : list bytes) (trailer bs : bytes) : Prop :=
  ∃ last_ordinal,
    validate_segment segment = Ok () ∧ encode_record (segment_header segment) = Ok header
    ∧ map_res encode_event (sg_events segment) = Ok lines
    ∧ checked_add u64_max (sg_first_ordinal segment) (len (sg_events segment) - 1) = Some last_ordinal
    ∧ encode_record (segment_trailer segment last_ordinal (header ++ concat lines)) = Ok trailer
    ∧ bs = (header ++ concat lines) ++ trailer ∧ len bs <= MAX_SEGMENT_BYTES.
Lemma encode_segment_framed segment bs :
  encode_segment segment = Ok bs ↔ ∃ header lines trailer, framed segment header lines trailer bs.
Proof.
  unfold encode_segment, framed. split.
  - intros Henc. res_inv Henc. rename x1 into header, x2 into lines, x3 into last_ordinal, x4 into trailer. destruct x.
    destruct (len (sg_events segment) <=? u16_max) eqn:Eu; [|done]. injection Henc1 as <-. boolify.
    exists header, lines, trailer, last_ordinal. by split_and!.
  - intros (header & lines & trailer & last_ordinal & Hv & Hh & Hl & Ho & Ht & -> & Hmax).
    rewrite Hv. simpl. apply validate_segment_bounds in Hv as [_ Hb].
    rewrite (proj2 (N.leb_le _ _)) by (unfold MAX_SEGMENT_EVENTS, u16_max in *; lia). simpl.
    unfold segment_header in Hh. rewrite Hh. simpl. rewrite Hl. simpl. rewrite Ho. simpl.
    unfold segment_trailer in Ht. rewrite Ht. simpl. by rewrite (proj2 (N.ltb_ge _ _)).
Qed.

(** Decoding the lines of an encoded segment, once its header is read. *)
Lemma decode_framed segment header lines trailer bs :
  framed segment header lines trailer bs →
  decode_segment bs =
    h ← decode_record (T:=SegmentHeaderV1) header;
    _ ← fail_if (negb (bool_decide (sh_record_type h = SegmentHeader))
                 || negb (sh_schema_version h =? 1)) CxUnsupportedSchema;
    let expected_count := sh_event_count h in
    _ ← fail_if ((expected_count =? 0) || (MAX_SEGMENT_EVENTS <? expected_count)
                 || negb (len lines + 2 =? expected_count + 2)) CxInvalidSegmentGrammar;
    events ← map_res decode_event lines;
    _ ← fail_if (negb (len lines =? expected_count)) CxTrailerMismatch;
    let segment' := MkSegment (sh_parent_segment_hash h) (sh_base_checkpoint_hash h)
                      (sh_first_ordinal h) (sh_context h) events in
    _ ← validate_segment segment';
    last_ordinal ← ok_or (checked_add u64_max (sg_first_ordinal segment') (len events - 1)) CxOrdinalGap;
    _ ← fail_if (negb (sg_first_ordinal segment + (len lines - 1) =? last_ordinal)) CxTrailerMismatch;
    Ok segment'.
Proof.
  intros (last_ordinal & Hv & Hh & Hl & Ho & Ht & -> & Hmax).
  destruct (validate_segment_bounds _ _ Hv) as [Hne Hb], (decode_encode _ _ Ht) as [Hdt Hlt].
  destruct (segment_lines header lines trailer (encode_line _ _ Hh) (encode_events_lines _ _ Hl) Hlt)
    as (Hsplit & Hend & Hcr & Hbom & Hnil).
  assert (len lines = len (sg_events segment)) as Hlen.
  { unfold len. f_equal. symmetry. by apply Forall2_length with (1 := proj1 (map_res_ok _ _ _) Hl). }
  assert (0 < len lines) as Hpos by (rewrite Hlen; unfold len; destruct (sg_events segment); simpl; [done|lia]).
  assert (len (header :: lines ++ [trailer]) = len lines + 2) as Hcount.
  { unfold len. simpl. rewrite length_app. simpl. lia. }
  unfold checked_add in Ho. case_match; [|done]. injection Ho as <-.
  unfold decode_segment. rewrite Hend, Hcr, Hbom, Hnil, (proj2 (N.ltb_ge _ _) Hmax), Hsplit, Hcount.
  rewrite (proj2 (N.ltb_ge _ 3)) by lia. rewrite (proj2 (N.ltb_ge _ (_ + 2))) by lia.
  cbn [fail_if orb negb mbind result_bind nth]. destruct (decode_record header) as [h|]; [|done].
  cbn [mbind result_bind]. destruct (fail_if _ CxUnsupportedSchema); [|done]. cbn [mbind result_bind].
  destruct (fail_if _ CxInvalidSegmentGrammar) eqn:Eg; [|done]. cbn [mbind result_bind].
  assert (sh_event_count h = len lines) as -> by (unfold fail_if in Eg; case_match; [done|]; boolify; lia).
  assert (N.to_nat (len lines) = length lines) as -> by (unfold len; lia).
  rewrite Nat.add_1_r. cbn [nth take drop]. rewrite skipn_O, take_app_length, nth_middle, Hdt.
  destruct (map_res decode_event lines) as [events|]; [|done]. cbn [mbind result_bind].
  cbn [segment_trailer st_record_type st_event_count st_body_hash st_last_ordinal concat].
  rewrite <- Hlen, !N.eqb_refl, !bool_decide_true by done. done.
Qed.

(** C25: The segment codec loses nothing but the spelling of JSON values: an
    encoded segment decodes to nothing but a segment with the same parent,
    base checkpoint, ordinals, events and context, whose payloads and frozen
    snapshot have the same canonical text, and which encodes to the same
    bytes; and it decodes to itself when the JSON value of each of its records
    survives being printed and parsed, as one with a number written [1.0] does
    not. *)
Theorem segment_roundtrip segment bs :
  encode_segment segment = Ok bs →
  (∀ segment', decode_segment bs = Ok segment' →
     segment_same segment segment' ∧ encode_segment segment' = Ok bs)
  ∧ (segment_survives segment → decode_segment bs = Ok segment).
Proof.
  intros (header & lines & trailer & Hf)%encode_segment_framed. rewrite (decode_framed _ _ _ _ _ Hf).
  destruct Hf as (last_ordinal & Hv & Hh & Hl & Ho & Ht & Hbs & Hmax).
  destruct (validate_segment_bounds _ _ Hv) as [Hne Hb].
  assert (len lines = len (sg_events segment)) as Hlen.
  { unfold len. f_equal. symmetry. by apply Forall2_length with (1 := proj1 (map_res_ok _ _ _) Hl). }
  split.
  - intros segment' Hd. cbv zeta in Hd. res_inv Hd. rename x into h, x2 into events.
    destruct (decode_same _ _ _ Hh Hd0) as [[Hcx Heq] Hre].
    destruct (decode_events_same _ _ _ Hl Hd3) as [Hev Hre'].
    assert (len events = len (sg_events segment)) as Hn by (unfold len; f_equal; symmetry; by eapply Forall2_length).
    rewrite Heq in *. simpl in *. split; [by split_and!|].
    apply encode_segment_framed. exists header, lines, trailer, last_ordinal.
    unfold segment_header, segment_trailer; simpl. rewrite Hn. destruct x4. by split_and!.
  - intros [Hs Hse]. rewrite (decode_survives _ _ Hs Hh), (decode_events_survive _ _ Hse Hl).
    unfold segment_header. cbn [mbind result_bind sh_event_count sh_schema_version sh_record_type
      sh_parent_segment_hash sh_base_checkpoint_hash sh_first_ordinal sh_context sg_first_ordinal].
    rewrite bool_decide_true, Hlen, !N.eqb_refl, (proj2 (N.ltb_ge _ _) Hb) by done.
    rewrite (proj2 (N.eqb_neq _ 0)) by (unfold len; destruct (sg_events segment); simpl; [done|lia]). simpl.
    destruct segment; simpl in *. rewrite Hv. simpl. unfold checked_add in *. case_match; [|done]. simpl.
    by rewrite N.eqb_refl.
Qed.
End roundtrip.

(** * Rebinding and retention *)

(** ** Rebinding *)

Record CapabilityRequirement : Type := MkCapabilityRequirement {
  rq_logical : string;
  rq_version : string
}.
#[export] Instance CapabilityRequirement_eq_dec : EqDecision CapabilityRequirement.
Proof. solve_decision. Defined.
Record RebindPlan : Type := MkRebindPlan {
  rp_missing : list CapabilityRequirement;
  rp_child_branch_required : bool;
  rp_fresh_authority_required : bool
}.
Definition plan_rebind (required : list CapabilityRequirement) (available : gset (string * string)) : RebindPlan :=
  MkRebindPlan (filter (λ r, (rq_logical r, rq_version r) ∉ available) required) true true.

Record LocalCapabilityV1 : Type := MkLocalCapability {
  lc_logical_id : string;
  lc_portable_version : string;
  lc_local_binding_id : string;
  lc_version_hash : string;
  lc_compatible : bool
}.
Inductive RebindResolutionV1 : Type :=
| RbResolved (requirement : CapabilityRequirement) (local_binding_id version_hash : string)
| RbMissing (requirement : CapabilityRequirement)
| RbAmbiguous (requirement : CapabilityRequirement) (candidates : list string)
| RbIncompatible (requirement : CapabilityRequirement).
Record ContinuationRebindPlanV1 : Type := MkContinuationPlan {
  cn_parent_branch_id : string;
  cn_proposed_child_branch_id : string;
  cn_resolutions : list RebindResolutionV1;
  cn_can_continue_after_fresh_approval : bool;
  cn_imported_approvals_accepted : bool;
  cn_imported_secret_handles_accepted : bool
}.
Record ChildContinuationPlanV1 : Type := MkChildPlan {
  ch_parent_chat_id : string;
  ch_parent_branch_id : string;
  ch_child_chat_id : string;
  ch_child_branch_id : string;
  ch_resolutions : list RebindResolutionV1;
  ch_fresh_snapshot_required : bool;
  ch_fresh_authority_required : bool;
  ch_fresh_approvals_required : bool;
  ch_imported_runtime_resumable : bool;
  ch_can_create_after_user_confirmation : bool
}.

Definition meets (r : CapabilityRequirement) (c : LocalCapabilityV1) : bool :=
  bool_decide (lc_logical_id c = rq_logical r) && bool_decide (lc_portable_version c = rq_version r).
Definition resolve_requirement (local : list LocalCapabilityV1) (requirement : CapabilityRequirement) :
    RebindResolutionV1 :=
  let candidates := sort_by (on_key lc_local_binding_id String.compare) (filter (λ c, meets requirement c = true) local) in
  let compatible := filter (λ c, lc_compatible c = true) candidates in
  match compatible with
  | [candidate] => RbResolved requirement (lc_local_binding_id candidate) (lc_version_hash candidate)
  | [] => if is_nil candidates then RbMissing requirement else RbIncompatible requirement
  | values => RbAmbiguous requirement (map lc_local_binding_id values)
  end.
Definition is_resolved (r : RebindResolutionV1) : bool :=
  match r with RbResolved _ _ _ => true | _ => false end.
Definition plan_continuation_rebind (parent_branch_id proposed_child_branch_id : string)
    (required : list CapabilityRequirement) (local : list LocalCapabilityV1) : ContinuationRebindPlanV1 :=
  let resolutions := map (resolve_requirement local) required in
  MkContinuationPlan parent_branch_id proposed_child_branch_id resolutions (forallb is_resolved resolutions)
    false false.
Definition plan_child_continuation (parent_chat_id parent_branch_id child_chat_id child_branch_id : string)
    (required : list CapabilityRequirement) (local : list LocalCapabilityV1) : ChildContinuationPlanV1 :=
  let base := plan_continuation_rebind parent_branch_id child_branch_id required local in
  MkChildPlan parent_chat_id (cn_parent_branch_id base) child_chat_id (cn_proposed_child_branch_id base)
    (cn_resolutions base) true true true false
    (cn_can_continue_after_fresh_approval base
     && negb (bool_decide (parent_chat_id = child_chat_id))
     && negb (bool_decide (parent_branch_id = child_branch_id))
     && valid_name parent_chat_id && valid_name parent_branch_id
     && valid_name child_chat_id && valid_name child_branch_id).

(** ** Retention *)

Record RetentionPlan : Type := MkRetentionPlan {
  rt_collectable : list string;
  rt_retained : list string
}.
(** [all.iter().filter(f).cloned().collect()], and the others. *)
Definition split_plan (all : gset string) (f : string → bool) : RetentionPlan :=
  let collectable := filter (λ i, f i = true) (bt_elems all) in
  MkRetentionPlan collectable (filter (λ i, i ∉ collectable) (bt_elems all)).
Definition retention_plan (all reachable grace_expired : gset string) : RetentionPlan :=
  split_plan all (λ i, negb (bs_contains reachable i) && bs_contains grace_expired i).

Record ReachabilityScanV1 : Type := MkScan {
  sc_generation : N;
  sc_observed_epoch_millis : N;
  sc_branch_heads : gmap string string;
  sc_reachable : gset string
}.
Inductive RetentionError : Type := RtStaleFinalScan.
Definition grace_elapsed (started : gmap string N) (grace observed : N) (identity : string) : bool :=
  is_some_and (started !! identity ≫= λ t, checked_add u64_max t grace) (λ deadline, deadline <=? observed).
Definition retention_plan_two_phase (all : gset string) (first final_scan : ReachabilityScanV1)
    (first_unreachable_epoch_millis : gmap string N) (grace_millis : N) : result RetentionError RetentionPlan :=
  if (sc_generation final_scan <=? sc_generation first)
     || (sc_observed_epoch_millis final_scan <? sc_observed_epoch_millis first)
  then Err RtStaleFinalScan
  else
    Ok (split_plan all (λ i, negb (bs_contains (sc_reachable first) i)
                             && negb (bs_contains (sc_reachable final_scan) i)
                             && grace_elapsed first_unreachable_epoch_millis grace_millis
                                  (sc_observed_epoch_millis final_scan) i)).

(** ** Facts *)

Lemma split_plan_collectable all f i : i ∈ rt_collectable (split_plan all f) ↔ i ∈ all ∧ f i = true.
Proof.
  unfold split_plan. simpl. rewrite list_elem_of_filter. unfold bt_elems.
  rewrite (sort_by_perm String.compare), elem_of_elements. tauto.
Qed.
(** The plan keeps exactly what it does not collect. *)
Lemma split_plan_retained all f i : i ∈ rt_retained (split_plan all f) ↔ i ∈ all ∧ f i = false.
Proof.
  change (rt_retained (split_plan all f)) with (filter (λ i, i ∉ rt_collectable (split_plan all f)) (bt_elems all)).
  rewrite list_elem_of_filter, split_plan_collectable. unfold bt_elems.
  rewrite (sort_by_perm String.compare), elem_of_elements. destruct (f i); naive_solver.
Qed.
Lemma two_phase_collectable all first final_scan started grace plan i :
  retention_plan_two_phase all first final_scan started grace = Ok plan → i ∈ rt_collectable plan →
  i ∈ all ∧ i ∉ sc_reachable first ∧ i ∉ sc_reachable final_scan.
Proof.
  unfold retention_plan_two_phase. case_match; [done|]. intros [= <-] [Hall Hf]%split_plan_collectable.
  boolify. done.
Qed.

(** The one compatible capability of a requirement. *)
Definition one_provider (local : list LocalCapabilityV1) (r : CapabilityRequirement) : Prop :=
  ∃ c, filter (λ c, meets r c = true ∧ lc_compatible c = true) local = [c].
Lemma resolve_iff local r : is_resolved (resolve_requirement local r) = true ↔ one_provider local r.
Proof.
  unfold resolve_requirement, one_provider.
  set (cs := filter (λ c, meets r c = true) local).
  assert (filter (λ c, lc_compatible c = true) (sort_by (on_key lc_local_binding_id String.compare) cs)
    ≡ₚ filter (λ c, meets r c = true ∧ lc_compatible c = true) local) as Hperm.
  { rewrite (sort_by_perm (on_key lc_local_binding_id String.compare) cs). unfold cs.
    rewrite list_filter_filter. apply reflexive_eq, list_filter_iff. intros x. tauto. }
  destruct (filter (λ c, lc_compatible c = true) _) as [|c [|c' l]].
  - apply Permutation_nil_l in Hperm. rewrite <- Hperm. split; [|by intros [? [=]]]. by destruct (is_nil _).
  - apply Permutation_singleton_l in Hperm. split; [|done]. intros _. exists c. done.
  - split; [done|]. intros [x Hx]. rewrite Hx in Hperm. apply Permutation_length in Hperm. done.
Qed.
