(* ===== verification/ObjectStore.v ===== *)
(** * Content-addressed files
      ([crates/aworkit-portable-store/src/workspace.rs], [repository.rs], [artifact.rs])

    The files of a portable project root and the operations on them.  A file
    operation is a sequence of calls to the operating system; each of them may
    fail, before or after it took effect, and which ones fail is part of the
    state.  Files are written beside their place and then linked or renamed
    into it, so a reader sees the whole file or none of it. *)
From S2P Require Export PortableCodec.

(** ** The operating system *)

Inductive io_error : Type :=
| IoNotFound
| IoAlreadyExists
| IoOther (text : string).

Inductive WorkspaceError : Type :=
| WsUnsafeReference
| WsEscape
| WsSymlinkDenied
| WsRootChanged
| WsNotDirectory
| WsCaseAliasDenied
| WsInvalidGitFacts
| WsFileTooLarge
| WsNative (text : string)
| WsDurableWriteUnavailable
| WsIo (error : io_error).

(** What the environment can make of a call: a failure of the device, a root
    that was replaced, a component that is a link or an alias. *)
Inductive os_failure : Type :=
| OsIo (text : string)
| OsNative (text : string)
| OsRootChanged
| OsSymlink
| OsCaseAlias.
Definition failure_error (f : os_failure) : WorkspaceError :=
  match f with
  | OsIo text => WsIo (IoOther text)
  | OsNative text => WsNative text
  | OsRootChanged => WsRootChanged
  | OsSymlink => WsSymlinkDenied
  | OsCaseAlias => WsCaseAliasDenied
  end.

(** [FilesystemCapabilityReportV1], the facts [workspace.rs] looks at. *)
Record FilesystemCapabilityReportV1 : Type := MkCapabilities {
  fc_anchored_identity : bool;
  fc_no_follow_components : bool;
  fc_local_volume_proven : bool;
  fc_atomic_file_replace : bool;
  fc_file_sync : bool;
  fc_directory_sync : bool
}.

Inductive CommitFaultPoint : Type := AfterPrepare | BeforeHeadPublication | AfterHeadPublication.
#[export] Instance CommitFaultPoint_eq_dec : EqDecision CommitFaultPoint.
Proof. solve_decision. Defined.

(** The root's files by reference, what the calls to come will answer (a
    failed call did the given part of its work), and the process: its number,
    its counters of temporary names and the injected fault of [commit.rs]. *)
Record PortableStore : Type := MkStore {
  fs_files : gmap string bytes;
  fs_calls : list (option (nat * os_failure));
  fs_capabilities : FilesystemCapabilityReportV1;
  fs_process_id : N;
  fs_temp_sequence : N;
  fs_ref_temp_sequence : N;
  fs_fault_once : option CommitFaultPoint
}.
Definition set_files (files : gmap string bytes) (s : PortableStore) : PortableStore :=
  MkStore files (fs_calls s) (fs_capabilities s) (fs_process_id s) (fs_temp_sequence s)
    (fs_ref_temp_sequence s) (fs_fault_once s).
Definition set_calls (calls : list (option (nat * os_failure))) (s : PortableStore) : PortableStore :=
  MkStore (fs_files s) calls (fs_capabilities s) (fs_process_id s) (fs_temp_sequence s)
    (fs_ref_temp_sequence s) (fs_fault_once s).
Definition set_fault (fault : option CommitFaultPoint) (s : PortableStore) : PortableStore :=
  MkStore (fs_files s) (fs_calls s) (fs_capabilities s) (fs_process_id s) (fs_temp_sequence s)
    (fs_ref_temp_sequence s) fault.

Abbreviation ws := (stm PortableStore WorkspaceError).

(** The fate of the next call. *)
Definition next_call (s : PortableStore) : option (nat * os_failure) * PortableStore :=
  match fs_calls s with
  | fate :: calls => (fate, set_calls calls s)
  | [] => (None, s)
  end.
(** One call: what it answers, given the files, and what it does to them,
    all of it or a part. *)
Definition os_call {A} (answer : gmap string bytes → result io_error A)
    (effect : option nat → gmap string bytes → gmap string bytes) : ws A := λ s,
  let '(fate, s) := next_call s in
  match answer (fs_files s), fate with
  | Ok a, None => (set_files (effect None (fs_files s)) s, Ok a)
  | Ok _, Some (part, f) => (set_files (effect (Some part) (fs_files s)) s, Err (failure_error f))
  | Err e, None => (s, Err (WsIo e))
  | Err _, Some (_, f) => (s, Err (failure_error f))
  end.
(** A call that looks at the root only, and one that happens or does not. *)
Definition os_check : ws () := os_call (λ _, Ok ()) (λ _, id).
Definition at_once (f : gmap string bytes → gmap string bytes) (part : option nat) :
    gmap string bytes → gmap string bytes :=
  match part with Some O => id | _ => f end.

Definition os_read (path : string) : ws bytes :=
  os_call (λ files, ok_or (files !! path) IoNotFound) (λ _, id).
(** [options.write(true).create_new(true)] *)
Definition os_create_new (path : string) : ws () :=
  os_call (λ files, if files !! path then Err IoAlreadyExists else Ok ()) (at_once <[path := []]>).
(** [file.write_all(bytes)] on the file just created; a failed write leaves a
    prefix. *)
Definition os_write (path : string) (bs : bytes) : ws () :=
  os_call (λ _, Ok ()) (λ part, <[path := match part with Some n => take n bs | None => bs end]>).
(** [options.read(true).write(true).create(true)] *)
Definition os_open_or_create (path : string) : ws () :=
  os_call (λ _, Ok ()) (at_once (λ files, if files !! path then files else <[path := []]> files)).
Definition os_hard_link (from to : string) : ws () :=
  os_call (λ files, match files !! from with
                    | None => Err IoNotFound
                    | Some _ => if files !! to then Err IoAlreadyExists else Ok ()
                    end)
    (at_once (λ files, match files !! from with Some bs => <[to := bs]> files | None => files end)).
Definition os_rename (from to : string) : ws () :=
  os_call (λ files, if files !! from then Ok () else Err IoNotFound)
    (at_once (λ files, match files !! from with
                       | Some bs => <[to := bs]> (delete from files) | None => files end)).
Definition os_remove_file (path : string) : ws () :=
  os_call (λ files, if files !! path then Ok () else Err IoNotFound) (at_once (delete path)).

(** ** References *)

Definition MAX_REFERENCE_BYTES : N := 4096.
Definition MAX_REFERENCE_COMPONENTS : N := 128.
Definition MAX_PORTABLE_OBJECT_BYTES : N := 16777216.

(** [Path::components] of a relative path: empty and inner [.] components
    are skipped, a leading [.] is kept. *)
Definition path_components (value : string) : list string :=
  match split_on "/" value with
  | [] => []
  | first :: rest =>
      filter (λ c, c ≠ "") [first] ++ filter (λ c, c ≠ "" ∧ c ≠ ".") rest
  end.
Definition normal_component (c : string) : bool := negb (bool_decide (c ∈ ["."; ".."])).
Fixpoint any_byte (f : N → bool) (s : string) : bool :=
  match s with EmptyString => false | String c s => f (byte_of c) || any_byte f s end.
(** [ProjectReference::parse]; the reference is kept as its text. *)
Definition ProjectReference_parse (value : string) : result WorkspaceError string :=
  if negb (str_is_empty value) && (str_len value <=? MAX_REFERENCE_BYTES)
     && negb (any_byte (λ b, (b =? 92) || (b =? 58) || (b =? 0)) value)
     && negb (starts_with "/" value)
     && (len (path_components value) <=? MAX_REFERENCE_COMPONENTS)
     && forallb normal_component (path_components value)
  then Ok value else Err WsUnsafeReference.

(** [Path::parent] of a reference without aliases. *)
Fixpoint before_last_slash (value : string) : option string :=
  match value with
  | EmptyString => None
  | String c rest =>
      match before_last_slash rest with
      | Some p => Some (String c p)
      | None => if bool_decide (c = "/"%char) then Some EmptyString else None
      end
  end.
Definition path_parent (value : string) : option string :=
  if str_is_empty value then None
  else Some (match before_last_slash value with Some p => p | None => EmptyString end).

(** ** The workspace root *)

(** [revalidate]: the anchored directory, then the identity of the root. *)
Definition revalidate : ws () := _ ← os_check; os_check.
(** [validate_relative_path] holds of every reference.  No file of the model
    is a link; the environment may report one. *)
Definition reject_symlinks (path : string) (require_final : bool) : ws () := os_check.
Definition require_durable_write_capabilities : ws () := λ s,
  let c := fs_capabilities s in
  (s, fail_if (negb (fc_anchored_identity c && fc_no_follow_components c && fc_local_volume_proven c
                     && fc_atomic_file_replace c && fc_file_sync c && fc_directory_sync c))
        WsDurableWriteUnavailable).
Definition sync_directory (path : string) : ws () := os_check.

Definition read_bounded (reference : string) (maximum : N) : ws bytes :=
  _ ← revalidate;
  _ ← reject_symlinks reference true;
  content ← os_read reference;
  _ ← os_check;
  _ ← reject_if (maximum <? len content) WsFileTooLarge;
  _ ← os_check;
  let bs := take (N.to_nat (N.min (maximum + 1) (len content))) content in
  _ ← reject_if (maximum <? len bs) WsFileTooLarge;
  mret bs.

Definition ws_create_dir_all (path : string) : ws () :=
  _ ← revalidate;
  _ ← reject_symlinks path false;
  _ ← os_check;
  reject_symlinks path true.

(** [if write_result.is_err() { let _ = remove_file(temporary); }] *)
Definition or_remove (temporary : string) (m : ws ()) : ws () := λ s,
  match m s with
  | (s, Ok ()) => (s, Ok ())
  | (s, Err e) => ((os_remove_file temporary s).1, Err e)
  end.

(** The common part of [publish_create_new] and [replace_atomically]: a new
    temporary file, whose content [place] puts in its place. *)
Definition write_beside (temporary target : string) (bs : bytes) (place : string → ws ()) : ws () :=
  _ ← require_durable_write_capabilities;
  _ ← revalidate;
  _ ← reject_symlinks temporary false;
  _ ← reject_symlinks target false;
  parent ← lift (ok_or (path_parent temporary) WsUnsafeReference);
  _ ← ws_create_dir_all parent;
  _ ← os_create_new temporary;
  or_remove temporary (
    _ ← os_write temporary bs;
    _ ← os_check;
    place parent).
Definition publish_create_new (temporary target : string) (bs : bytes) : ws () :=
  write_beside temporary target bs (λ parent,
    _ ← os_hard_link temporary target;
    _ ← os_remove_file temporary;
    sync_directory parent).
Definition replace_atomically (temporary target : string) (bs : bytes) : ws () :=
  write_beside temporary target bs (λ parent,
    _ ← os_rename temporary target;
    sync_directory parent).

Definition remove_file (reference : string) : ws () :=
  _ ← revalidate;
  _ ← reject_symlinks reference true;
  os_remove_file reference.

(** ** Objects *)

Inductive PortableError : Type :=
| PoInvalidNamespace
| PoInvalidHash
| PoHashCollision
| PoCorruptObject
| PoObjectSize
| PoWorkspace (error : WorkspaceError)
| PoIo (error : io_error).
Abbreviation po := (stm PortableStore PortableError).

Definition NAMESPACES : list string := ["segments"; "checkpoints"; "artifacts"; "manifests"; "claims"].
Definition validate_namespace (value : string) : result PortableError () :=
  fail_if (negb (bool_decide (value ∈ NAMESPACES))) PoInvalidNamespace.
Definition object_path (namespace hex : string) : string :=
  ".aworkit/portable/" +:+ namespace +:+ "/sha256/" +:+ hex.
Definition object_reference (namespace identity : string) : result PortableError string :=
  _ ← validate_namespace namespace;
  hex ← ok_or (strip_prefix "sha256:" identity) PoInvalidHash;
  _ ← fail_if (negb (str_len hex =? 64) || negb (all_bytes is_lower_hexdigit hex)) PoInvalidHash;
  map_err PoWorkspace (ProjectReference_parse (object_path namespace hex)).

(** [fetch_add(1, Ordering::Relaxed)] on a counter of the process. *)
Definition next_temp_sequence : po N := λ s,
  (MkStore (fs_files s) (fs_calls s) (fs_capabilities s) (fs_process_id s)
     ((fs_temp_sequence s + 1) mod (u64_max + 1)) (fs_ref_temp_sequence s) (fs_fault_once s),
   Ok (fs_temp_sequence s)).
Definition process_id {E} : stm PortableStore E N := λ s, (s, Ok (fs_process_id s)).

(** [{parent}/.{name}.{pid}.{sequence}.tmp] *)
Definition temp_name (parent name : string) (pid sequence : N) : string :=
  parent +:+ "/." +:+ name +:+ "." +:+ pretty pid +:+ "." +:+ pretty sequence +:+ ".tmp".

(** What [publish] and [publish_relative_immutable] do once the size is
    checked: nothing if the file is there with these bytes, an error if it has
    others, and otherwise a create-new insertion, which a concurrent writer
    may win. *)
Definition insert_immutable (name target : string) (bs : bytes) : po () :=
  existing ← port_result (read_bounded target MAX_PORTABLE_OBJECT_BYTES);
  match existing with
  | Ok existing => reject_if (negb (bool_decide (existing = bs))) PoHashCollision
  | Err (WsIo IoNotFound) =>
      parent ← lift (ok_or (path_parent target) PoInvalidNamespace);
      _ ← port PoWorkspace (ws_create_dir_all parent);
      pid ← process_id;
      sequence ← next_temp_sequence;
      temporary ← lift (map_err PoWorkspace (ProjectReference_parse (temp_name parent name pid sequence)));
      published ← port_result (publish_create_new temporary target bs);
      match published with
      | Ok _ => mret ()
      | Err (WsIo IoAlreadyExists) =>
          existing ← port PoWorkspace (read_bounded target MAX_PORTABLE_OBJECT_BYTES);
          reject_if (negb (bool_decide (existing = bs))) PoHashCollision
      | Err error => throw (PoWorkspace error)
      end
  | Err error => throw (PoWorkspace error)
  end.
Definition publish_relative_immutable (target : string) (bs : bytes) : po () :=
  _ ← reject_if (is_nil bs || (MAX_PORTABLE_OBJECT_BYTES <? len bs)) PoObjectSize;
  insert_immutable "named" target bs.
Definition read_relative (reference : string) (maximum : N) : po bytes :=
  port PoWorkspace (read_bounded reference maximum).
Definition replace_relative (temporary target : string) (bs : bytes) : po () :=
  port PoWorkspace (replace_atomically temporary target bs).
Definition create_dir_all (path : string) : po () := port PoWorkspace (ws_create_dir_all path).
Definition lock_path : string := ".aworkit/portable/.heads.lock".
Definition open_lock : po () :=
  _ ← create_dir_all ".aworkit/portable";
  reference ← lift (map_err PoWorkspace (ProjectReference_parse lock_path));
  port PoWorkspace (_ ← revalidate; _ ← reject_symlinks reference false; os_open_or_create reference).

Section objects.
Context `{Sha256}.

Definition store_publish (namespace : string) (bs : bytes) : po string :=
  _ ← lift (validate_namespace namespace);
  _ ← reject_if (is_nil bs || (MAX_PORTABLE_OBJECT_BYTES <? len bs)) PoObjectSize;
  let identity := digest namespace bs in
  target ← lift (object_reference namespace identity);
  hex ← lift (ok_or (strip_prefix "sha256:" identity) PoInvalidHash);
  _ ← insert_immutable hex target bs;
  mret identity.
Definition store_read (namespace identity : string) : po bytes :=
  _ ← lift (validate_namespace namespace);
  reference ← lift (object_reference namespace identity);
  bs ← port PoWorkspace (read_bounded reference MAX_PORTABLE_OBJECT_BYTES);
  _ ← reject_if (negb (bool_decide (digest namespace bs = identity))) PoCorruptObject;
  mret bs.
Definition contains (namespace identity : string) : po bool :=
  found ← port_result (store_read namespace identity);
  match found with
  | Ok _ => mret true
  | Err (PoWorkspace (WsIo IoNotFound)) => mret false
  | Err error => throw error
  end.
Definition remove_verified (namespace identity : string) : po () :=
  _ ← store_read namespace identity;
  reference ← lift (object_reference namespace identity);
  port PoWorkspace (remove_file reference).
End objects.

(** ** Artifacts *)

(** [std::str::from_utf8]. *)
Definition is_continuation (b : Byte.byte) : bool := in_range 128 191 (Byte.to_N b).
Fixpoint utf8_valid (bs : bytes) : bool :=
  match bs with
  | [] => true
  | a :: r1 =>
      let lead := Byte.to_N a in
      if lead <? 128 then utf8_valid r1
      else match r1 with
      | [] => false
      | b :: r2 =>
          let second := Byte.to_N b in
          if in_range 194 223 lead then is_continuation b && utf8_valid r2
          else match r2 with
          | [] => false
          | c :: r3 =>
              if in_range 224 239 lead then
                (if lead =? 224 then in_range 160 191 second
                 else if lead =? 237 then in_range 128 159 second
                 else is_continuation b)
                && is_continuation c && utf8_valid r3
              else match r3 with
              | [] => false
              | d :: r4 =>
                  in_range 240 244 lead
                  && (if lead =? 240 then in_range 144 191 second
                      else if lead =? 244 then in_range 128 143 second
                      else is_continuation b)
                  && is_continuation c && is_continuation d && utf8_valid r4
              end
          end
      end
  end.
Definition from_utf8 (bs : bytes) : option string :=
  if utf8_valid bs then Some (String.string_of_list_byte bs) else None.

Definition ALLOWED_MEDIA_TYPES : list string :=
  ["text/plain"; "text/markdown"; "text/csv"; "application/json"].
Inductive ArtifactError : Type :=
| AtActiveOrUnknownMediaType
| AtSizeOrEncoding
| AtInvalidDescriptor
| AtPortableRewriteRequired
| AtRange
| AtExport (error : ExportError)
| AtPortable (error : PortableError)
| AtJson.

Section artifacts.
Context `{Sha256, !Deserialize json}.

Definition admit_text (media_type : string) (bs : bytes) :
    stm PortableStore ArtifactError ArtifactDescriptor :=
  _ ← reject_if (negb (bool_decide (media_type ∈ ALLOWED_MEDIA_TYPES))) AtActiveOrUnknownMediaType;
  _ ← reject_if (is_nil bs || (MAX_PORTABLE_ARTIFACT_BYTES <? len bs) || bytes_contain x00 bs) AtSizeOrEncoding;
  text ← lift (ok_or (from_utf8 bs) AtSizeOrEncoding);
  _ ← (if bool_decide (media_type = "application/json") then
         value ← lift (ok_or (from_slice bs) AtJson);
         scrubbed ← lift (map_err AtExport (scrub value));
         reject_if (negb (json_eqb (sb_value scrubbed) value) || negb (is_nil (sb_omissions scrubbed)))
           AtPortableRewriteRequired
       else
         _ ← lift (map_err AtExport (scrub (JString text))); mret ());
  digest ← port AtPortable (store_publish "artifacts" bs);
  mret (MkArtifact media_type (len bs) digest).
Definition artifact_read (digest : string) : stm PortableStore ArtifactError bytes :=
  bs ← port AtPortable (store_read "artifacts" digest);
  _ ← reject_if (MAX_PORTABLE_ARTIFACT_BYTES <? len bs) AtSizeOrEncoding;
  mret bs.
Definition read_verified (descriptor : ArtifactDescriptor) : stm PortableStore ArtifactError bytes :=
  _ ← reject_if (negb (bool_decide (ad_media_type descriptor ∈ ALLOWED_MEDIA_TYPES))
                 || (MAX_PORTABLE_ARTIFACT_BYTES <? ad_byte_length descriptor)) AtInvalidDescriptor;
  bs ← artifact_read (ad_digest descriptor);
  _ ← reject_if (negb (len bs =? ad_byte_length descriptor)) AtInvalidDescriptor;
  mret bs.
Definition read_range (descriptor : ArtifactDescriptor) (offset length : N) :
    stm PortableStore ArtifactError bytes :=
  _ ← reject_if (262144 <? length) AtRange;
  bs ← read_verified descriptor;
  end_ ← lift (ok_or (checked_add usize_max offset length) AtRange);
  let end_ := N.min end_ (len bs) in
  if offset <=? end_ then mret (take (N.to_nat (end_ - offset)) (drop (N.to_nat offset) bs))
  else throw AtRange.
End artifacts.
