(* ===== verification/ObjectStoreProofs.v ===== *)
(** * Content-addressed files: what the operations do

    A logic of programs over the file store ([hoare]): preconditions and
    postconditions speak of the files, whatever calls of the operating system
    fail.  From it, the contracts of reading, of create-new insertion and of
    replacement, and that content-addressed objects read back as they were
    published and never change. *)
From S2P Require Export ObjectStore.

Abbreviation files := (gmap string bytes).

(** From files in [P], [m] ends in [Q] or fails in [R]. *)
Definition hoare {E A} (P : files → Prop) (m : stm PortableStore E A)
    (Q : A → files → Prop) (R : E → files → Prop) : Prop :=
  ∀ s s' r, P (fs_files s) → m s = (s', r) →
    match r with Ok a => Q a (fs_files s') | Err e => R e (fs_files s') end.

Section rules.
Context {E A B : Type}.
Implicit Types (P : files → Prop) (R : E → files → Prop).

Lemma hoare_bind P (m : stm PortableStore E A) (k : A → stm PortableStore E B) Q Q' R :
  hoare P m Q R → (∀ a, hoare (Q a) (k a) Q' R) → hoare P (m ≫= k) Q' R.
Proof.
  intros Hm Hk s s' r HP. unfold mbind, stm_bind. destruct (m s) as [s1 [a|e]] eqn:Em.
  - apply Hk. exact (Hm _ _ _ HP Em).
  - intros [= <- <-]. exact (Hm _ _ _ HP Em).
Qed.
Lemma hoare_conseq P P' (m : stm PortableStore E A) Q Q' R R' :
  hoare P' m Q' R' → (∀ f, P f → P' f) → (∀ a f, Q' a f → Q a f) → (∀ e f, R' e f → R e f) →
  hoare P m Q R.
Proof.
  intros Hm HP HQ HR s s' r H Hr. specialize (Hm _ _ _ (HP _ H) Hr). destruct r; auto.
Qed.
Lemma hoare_ret P (a : A) Q R : (∀ f, P f → Q a f) → hoare P (mret a) Q R.
Proof. intros HQ s s' r HP [= <- <-]. auto. Qed.
Lemma hoare_throw P (e : E) (Q : A → files → Prop) R : (∀ f, P f → R e f) → hoare P (throw e) Q R.
Proof. intros HR s s' r HP [= <- <-]. auto. Qed.
Lemma hoare_lift P (x : result E A) (Q : A → files → Prop) R :
  (∀ f a, P f → x = Ok a → Q a f) → (∀ f e, P f → x = Err e → R e f) → hoare P (lift x) Q R.
Proof. intros HQ HR s s' r HP [= <- <-]. destruct x; auto. Qed.
Lemma hoare_reject P c (e : E) (Q : () → files → Prop) R :
  (∀ f, P f → c = false → Q () f) → (∀ f, P f → c = true → R e f) → hoare P (reject_if c e) Q R.
Proof. intros HQ HR s s' r HP [= <- <-]. unfold fail_if. destruct c; auto. Qed.
Lemma hoare_pure (φ : Prop) P (m : stm PortableStore E A) Q R :
  (φ → hoare P m Q R) → hoare (λ f, P f ∧ φ) m Q R.
Proof. intros Hm s s' r [HP Hφ]. exact (Hm Hφ s s' r HP). Qed.
End rules.

Lemma hoare_port {E F A} P (g : E → F) (m : stm PortableStore E A) Q R :
  hoare P m Q (λ e, R (g e)) → hoare P (port g m) Q R.
Proof. intros Hm s s' r HP (r0 & Hr & ->)%port_run. specialize (Hm _ _ _ HP Hr). by destruct r0. Qed.
Lemma hoare_port_result {E F A} P (m : stm PortableStore E A) Q (R : F → files → Prop) :
  hoare P m (λ a, Q (Ok a)) (λ e, Q (Err e)) → hoare P (port_result m) Q R.
Proof.
  intros Hm s s' r HP (r0 & Hr & ->)%port_result_run. specialize (Hm _ _ _ HP Hr). by destruct r0.
Qed.

(** Programs that leave the files alone: from files in [P], what an answer and
    an error say about them. *)
Definition reads {E A} (P : files → Prop) (m : stm PortableStore E A)
    (Φ : A → files → Prop) (Ψ : E → files → Prop) : Prop :=
  ∀ s s' r, P (fs_files s) → m s = (s', r) →
    fs_files s' = fs_files s ∧ match r with Ok a => Φ a (fs_files s) | Err e => Ψ e (fs_files s) end.
Definition silent {E A} (m : stm PortableStore E A) : Prop :=
  ∀ s s' r, m s = (s', r) → fs_files s' = fs_files s.

Section reads_rules.
Context {E A B : Type}.
Implicit Types (P : files → Prop) (Ψ : E → files → Prop).

Lemma reads_hoare P (m : stm PortableStore E A) Φ Ψ :
  reads P m Φ Ψ → hoare P m (λ a f, P f ∧ Φ a f) (λ e f, P f ∧ Ψ e f).
Proof. intros Hm s s' r HP Hr. destruct (Hm _ _ _ HP Hr) as [-> H]. by destruct r. Qed.
Lemma reads_silent (m : stm PortableStore E A) Φ Ψ : reads (λ _, True) m Φ Ψ → silent m.
Proof. intros Hm s s' r Hr. by destruct (Hm _ _ _ I Hr). Qed.
Lemma silent_reads P (m : stm PortableStore E A) : silent m → reads P m (λ _ _, True) (λ _ _, True).
Proof. intros Hm s s' r _ Hr. split; [by eapply Hm|]. by destruct r. Qed.
Lemma reads_weaken P P' (m : stm PortableStore E A) Φ Φ' Ψ Ψ' :
  reads P' m Φ' Ψ' → (∀ f, P f → P' f) →
  (∀ a f, P f → Φ' a f → Φ a f) → (∀ e f, P f → Ψ' e f → Ψ e f) → reads P m Φ Ψ.
Proof.
  intros Hm HP HΦ HΨ s s' r H Hr. destruct (Hm _ _ _ (HP _ H) Hr) as [-> Hpost].
  split; [done|]. destruct r; auto.
Qed.
Lemma reads_bind P (m : stm PortableStore E A) (k : A → stm PortableStore E B) Φ0 Φ Ψ :
  reads P m Φ0 Ψ → (∀ a, reads (λ f, P f ∧ Φ0 a f) (k a) Φ Ψ) → reads P (m ≫= k) Φ Ψ.
Proof.
  intros Hm Hk s s' r HP. unfold mbind, stm_bind. destruct (m s) as [s1 [a|e]] eqn:Em.
  - destruct (Hm _ _ _ HP Em) as [Hf Ha]. intros Hr.
    destruct (Hk a s1 s' r) as [Hf' Hb]; [by rewrite Hf|done|]. by rewrite Hf', Hf in *.
  - intros [= <- <-]. exact (Hm _ _ _ HP Em).
Qed.
Lemma reads_ret P (a : A) (Φ : A → files → Prop) Ψ : (∀ f, P f → Φ a f) → reads P (mret a) Φ Ψ.
Proof. intros HΦ s s' r HP [= <- <-]. auto. Qed.
Lemma reads_throw P (e : E) (Φ : A → files → Prop) Ψ : (∀ f, P f → Ψ e f) → reads P (throw e) Φ Ψ.
Proof. intros HΨ s s' r HP [= <- <-]. auto. Qed.
Lemma reads_lift P (x : result E A) (Φ : A → files → Prop) Ψ :
  (∀ a f, P f → x = Ok a → Φ a f) → (∀ e f, P f → x = Err e → Ψ e f) → reads P (lift x) Φ Ψ.
Proof. intros HΦ HΨ s s' r HP [= <- <-]. split; [done|]. destruct x; auto. Qed.
Lemma reads_reject P c (e : E) (Φ : () → files → Prop) Ψ :
  (∀ f, P f → c = false → Φ () f) → (∀ f, P f → c = true → Ψ e f) → reads P (reject_if c e) Φ Ψ.
Proof. intros HΦ HΨ s s' r HP [= <- <-]. split; [done|]. unfold fail_if. destruct c; auto. Qed.
Lemma silent_bind (m : stm PortableStore E A) (k : A → stm PortableStore E B) :
  silent m → (∀ a, silent (k a)) → silent (m ≫= k).
Proof.
  intros Hm Hk s s' r. unfold mbind, stm_bind. destruct (m s) as [s1 [a|e]] eqn:Em.
  - intros Hr. rewrite (Hk _ _ _ _ Hr). by eapply Hm.
  - intros [= <- <-]. by eapply Hm.
Qed.
Lemma silent_ret (a : A) : silent (E:=E) (mret a).
Proof. by intros s s' r [= <- <-]. Qed.
Lemma silent_throw (e : E) : silent (A:=A) (throw e).
Proof. by intros s s' r [= <- <-]. Qed.
Lemma silent_lift (x : result E A) : silent (lift x).
Proof. by intros s s' r [= <- <-]. Qed.
Lemma silent_reject c (e : E) : silent (reject_if c e).
Proof. by intros s s' r [= <- <-]. Qed.
End reads_rules.

Lemma reads_port {E F A} P (g : E → F) (m : stm PortableStore E A) Φ Ψ :
  reads P m Φ (λ e, Ψ (g e)) → reads P (port g m) Φ Ψ.
Proof. intros Hm s s' r HP (r0 & Hr & ->)%port_run. specialize (Hm _ _ _ HP Hr). by destruct r0. Qed.
Lemma reads_port_result {E F A} P (m : stm PortableStore E A) Φ (Ψ : F → files → Prop) :
  reads P m (λ a, Φ (Ok a)) (λ e, Φ (Err e)) → reads P (port_result m) Φ Ψ.
Proof.
  intros Hm s s' r HP (r0 & Hr & ->)%port_result_run. specialize (Hm _ _ _ HP Hr). by destruct r0.
Qed.
Lemma silent_port {E F A} (g : E → F) (m : stm PortableStore E A) : silent m → silent (port g m).
Proof. intros Hm s s' r (r0 & Hr & _)%port_run. by eapply Hm. Qed.
Lemma silent_port_result {E F A} (m : stm PortableStore E A) : silent m → silent (port_result (F:=F) m).
Proof. intros Hm s s' r (r0 & Hr & _)%port_result_run. by eapply Hm. Qed.

Create HintDb silent.
#[export] Hint Resolve silent_ret silent_throw silent_lift silent_reject silent_port silent_port_result : silent.
(** Programs made of silent parts. *)
Ltac silence :=
  repeat first [apply silent_bind; [|intros ?] | solve [eauto with silent] | case_match
               | apply silent_port | apply silent_port_result].

(** ** Calls *)

Lemma os_call_run {A} answer effect s s' (r : result WorkspaceError A) :
  os_call answer effect s = (s', r) →
  match r with
  | Ok a => answer (fs_files s) = Ok a ∧ fs_files s' = effect None (fs_files s)
  | Err e =>
      (∀ k, e = WsIo k → (∃ t, k = IoOther t) ∨ answer (fs_files s) = Err k)
      ∧ (fs_files s' = fs_files s
         ∨ ∃ n a, answer (fs_files s) = Ok a ∧ fs_files s' = effect (Some n) (fs_files s))
  end.
Proof.
  unfold os_call. assert (fs_files (next_call s).2 = fs_files s) as Hn
    by (unfold next_call; by destruct (fs_calls s)).
  destruct (next_call s) as [fate s1]. simpl in Hn. rewrite Hn.
  destruct (answer (fs_files s)) as [a|e] eqn:Ea, fate as [[n f]|]; intros [= <- <-]; simpl; rewrite ?Hn.
  - split; [|eauto]. intros k. destruct f; simpl; intros [= <-]; eauto.
  - done.
  - split; [|by left]. intros k. destruct f; simpl; intros [= <-]; eauto.
  - split; [|by left]. intros k [= ->]. auto.
Qed.

Lemma os_check_reads P : reads P os_check (λ _ _, True) (λ e _, ∀ k, e = WsIo k → ∃ t, k = IoOther t).
Proof.
  intros s s' r _ Hr%os_call_run. destruct r as [a|e].
  - by destruct Hr as [_ ->].
  - destruct Hr as [Hk Hf]. split; [by destruct Hf as [->|(n & a & _ & ->)]|].
    intros k Hek. destruct (Hk k Hek) as [?|?]; done.
Qed.
Lemma os_check_silent : silent os_check.
Proof. exact (reads_silent _ _ _ (os_check_reads _)). Qed.
#[export] Hint Resolve os_check_silent : silent.
(** A check does not report a missing file. *)
Lemma os_check_found P (Q : files → Prop) : reads P os_check (λ _ _, True) (λ e f, e = WsIo IoNotFound → Q f).
Proof. eapply reads_weaken; [apply os_check_reads|done..|]. intros e f _ He ->. by destruct (He _ eq_refl). Qed.
Lemma os_read_reads P path :
  reads P (os_read path) (λ bs f, f !! path = Some bs) (λ e f, e = WsIo IoNotFound → f !! path = None).
Proof.
  intros s s' r _ Hr%os_call_run. destruct r as [a|e].
  - destruct Hr as [Ha ->]. split; [done|]. by apply ok_or_ok in Ha.
  - destruct Hr as [Hk Hf]. split; [by destruct Hf as [->|(n & a & _ & ->)]|].
    intros Hek. destruct (Hk _ Hek) as [[? [=]]|He]. by destruct (fs_files s !! path).
Qed.

(** A reading: the file's bytes, within the bound; a missing file is the only
    reason for [NotFound]. *)
Lemma read_bounded_reads P path maximum :
  reads P (read_bounded path maximum) (λ bs f, f !! path = Some bs ∧ len bs <= maximum)
    (λ e f, e = WsIo IoNotFound → f !! path = None).
Proof.
  unfold read_bounded, revalidate, reject_symlinks.
  eapply reads_bind; [eapply reads_bind; [apply os_check_found|intros ?; apply os_check_found]|]. intros ?.
  eapply reads_bind; [apply os_check_found|]. intros ?.
  eapply reads_bind; [apply os_read_reads|]. intros content.
  eapply reads_bind; [apply os_check_found|]. intros ?.
  eapply reads_bind; [by apply (reads_reject _ _ _ (λ _ _, (maximum <? len content) = false))|]. intros ?.
  eapply reads_bind; [apply os_check_found|]. intros ?.
  eapply reads_bind; [by apply (reads_reject _ _ _ (λ _ _, True))|]. intros ?.
  apply reads_ret. intros f H. destruct_and!. boolify. rewrite take_ge; [auto|]. unfold len in *. lia.
Qed.
Lemma read_bounded_silent path maximum : silent (read_bounded path maximum).
Proof. exact (reads_silent _ _ _ (read_bounded_reads _ path maximum)). Qed.
Lemma revalidate_silent : silent revalidate.
Proof. unfold revalidate. silence. Qed.
Lemma create_dir_silent path : silent (ws_create_dir_all path).
Proof. unfold ws_create_dir_all, reject_symlinks, revalidate. silence. Qed.
#[export] Hint Resolve read_bounded_silent revalidate_silent create_dir_silent : silent.

(** ** Writing beside *)

(** Everything but file [t] is as in [f0]; and [k] was given its content. *)
Definition beside (t : string) (f0 f : files) : Prop := ∀ x, x ≠ t → f !! x = f0 !! x.
Definition placed (t k : string) (bs : bytes) (f0 f : files) : Prop :=
  f !! k = Some bs ∧ ∀ x, x ≠ t → x ≠ k → f !! x = f0 !! x.

Lemma beside_refl t f : beside t f f.
Proof. done. Qed.
Lemma beside_insert t bs f0 f : beside t f0 f → beside t f0 (<[t := bs]> f).
Proof. intros Hf x Hx. rewrite lookup_insert_ne by done. auto. Qed.
Lemma beside_delete t f0 f : beside t f0 f → beside t f0 (delete t f).
Proof. intros Hf x Hx. rewrite lookup_delete_ne by done. auto. Qed.
Lemma beside_trans t f0 f1 f2 : beside t f0 f1 → beside t f1 f2 → beside t f0 f2.
Proof. intros H1 H2 x Hx. rewrite H2 by done. auto. Qed.
Lemma placed_beside t k bs f0 f f' : t ≠ k → placed t k bs f0 f → beside t f f' → placed t k bs f0 f'.
Proof. intros Hne [Hk Hx] Hb. split; [by rewrite Hb|]. intros x ??. rewrite Hb by done. auto. Qed.
#[export] Hint Resolve beside_refl beside_insert beside_delete : core.

Lemma os_remove_hoare t (P : files → Prop) :
  (∀ f f', P f → beside t f f' → P f') → hoare P (os_remove_file t) (λ _, P) (λ _, P).
Proof.
  intros Hs s s' r HP Hr%os_call_run. destruct r as [a|e].
  - destruct Hr as [_ ->]. eapply Hs; [done|]. simpl. auto.
  - destruct Hr as [_ [->|(n & a & _ & ->)]]; [done|]. eapply Hs; [done|]. destruct n; simpl; auto.
Qed.
Lemma or_remove_hoare t P m (Q K : files → Prop) :
  (∀ f f', K f → beside t f f' → K f') →
  hoare P m (λ _, Q) (λ _, K) → hoare P (or_remove t m) (λ _, Q) (λ _, K).
Proof.
  intros Hs Hm s s' r HP Hr. unfold or_remove in Hr. destruct (m s) as [s1 [[]|e]] eqn:Em.
  - injection Hr as <- <-. exact (Hm _ _ _ HP Em).
  - injection Hr as <- <-. destruct (os_remove_file t s1) as [s2 r2] eqn:E2. simpl.
    pose proof (os_remove_hoare t K Hs _ _ _ (Hm _ _ _ HP Em) E2). by destruct r2.
Qed.
Lemma silent_hoare {E A} (P : files → Prop) (m : stm PortableStore E A) (R : E → files → Prop) :
  silent m → (∀ e f, P f → R e f) → hoare P m (λ _, P) R.
Proof. intros Hm HR s s' r HP Hr. rewrite (Hm _ _ _ Hr). destruct r; auto. Qed.

Section write_beside.
Context (t k : string) (bs : bytes) (f0 : files) (place : string → ws ()) (Q K : files → Prop).
Hypothesis place_ok : ∀ parent,
  hoare (λ f, beside t f0 f ∧ f !! t = Some bs) (place parent) (λ _, Q) (λ _, K).
Hypothesis beside_K : ∀ f, beside t f0 f → K f.
Hypothesis K_beside : ∀ f f', K f → beside t f f' → K f'.

Lemma write_beside_hoare : hoare (λ f, f = f0) (write_beside t k bs place) (λ _, Q) (λ _, K).
Proof.
  assert (∀ E A (m : stm PortableStore E A), silent m → hoare (λ f, f = f0) m (λ _ f, f = f0) (λ _, K)) as Hs.
  { intros E A m Hm. apply silent_hoare; [done|]. intros _ f ->. auto. }
  unfold write_beside, reject_symlinks.
  eapply hoare_bind; [apply Hs; by intros s s' r [= <- <-]|]. intros ?.
  do 3 (eapply hoare_bind; [apply Hs; auto with silent|]; intros ?).
  eapply hoare_bind; [apply Hs; auto with silent|]. intros parent.
  eapply hoare_bind; [apply Hs; auto with silent|]. intros ?.
  eapply (hoare_bind _ _ _ (λ _ f, beside t f0 f)).
  { intros s s' r Hf0 Hr%os_call_run. simpl in Hf0. rewrite Hf0 in Hr. destruct r as [[]|e].
    - destruct Hr as [_ ->]. simpl. auto.
    - destruct Hr as [_ [->|(n & ? & _ & ->)]]; [auto|]. apply beside_K. destruct n; simpl; auto. }
  intros _. apply or_remove_hoare; [done|].
  eapply (hoare_bind _ _ _ (λ _ f, beside t f0 f ∧ f !! t = Some bs)).
  { intros s s' r Hb Hr%os_call_run. destruct r as [[]|e].
    - destruct Hr as [_ ->]. split; [auto|]. apply lookup_insert_eq.
    - destruct Hr as [_ [->|(n & ? & _ & ->)]]; apply beside_K; auto. }
  intros ?. eapply hoare_bind; [|intros ?; apply place_ok].
  apply silent_hoare; [auto with silent|]. intros _ f [? _]. auto.
Qed.
End write_beside.

(** An insertion either happens or leaves the target as it was. *)
Lemma publish_create_new_hoare t k bs f0 :
  t ≠ k →
  hoare (λ f, f = f0) (publish_create_new t k bs)
    (λ _ f, placed t k bs f0 f ∧ f0 !! k = None)
    (λ _ f, beside t f0 f ∨ placed t k bs f0 f ∧ f0 !! k = None).
Proof.
  intros Hne.
  assert (∀ f f', placed t k bs f0 f ∧ f0 !! k = None → beside t f f' → placed t k bs f0 f' ∧ f0 !! k = None)
    as Hkeep by (intros f f' [? ?] ?; split; [by eapply placed_beside|done]).
  unfold publish_create_new.
  apply (write_beside_hoare t k bs f0 _ (λ f, placed t k bs f0 f ∧ f0 !! k = None)
    (λ f, beside t f0 f ∨ placed t k bs f0 f ∧ f0 !! k = None));
    [|by left|intros f f' [?|?] ?; [left; by eapply beside_trans|right; by eapply Hkeep]].
  intros parent. eapply (hoare_bind _ _ _ (λ _ f, placed t k bs f0 f ∧ f0 !! k = None)).
  - intros s s' r [Hb Ht] Hr%os_call_run.
    assert (∀ n a, match fs_files s !! t with None => Err IoNotFound
              | Some _ => if fs_files s !! k then Err IoAlreadyExists else Ok () end = Ok a →
            beside t f0 (at_once (λ f, match f !! t with Some bs => <[k := bs]> f | None => f end) n (fs_files s))
            ∨ placed t k bs f0 (at_once (λ f, match f !! t with Some bs => <[k := bs]> f | None => f end) n (fs_files s))
              ∧ f0 !! k = None) as Heff.
    { intros n a Ha. rewrite Ht in Ha. destruct n as [[|n]|]; simpl; [auto|right|right]; rewrite Ht;
        (destruct (fs_files s !! k) eqn:Ek; [done|]); rewrite Hb in Ek by done; (split; [|done]);
        (split; [apply lookup_insert_eq|]; intros x ??; rewrite lookup_insert_ne by done; auto). }
    destruct r as [[]|e].
    + destruct Hr as [Ha ->]. pose proof (Heff None _ Ha) as [Hn|?]; [|done].
      simpl in *. rewrite Ht in *. specialize (Hn k). rewrite lookup_insert_eq in Hn.
      destruct (fs_files s !! k) eqn:Ek; [done|]. rewrite Hb in Ek by done. rewrite Ek in Hn. by specialize (Hn (not_eq_sym Hne)).
    + destruct Hr as [_ [->|(n & a & Ha & ->)]]; [auto|]. by apply Heff with a.
  - intros ?. eapply hoare_bind.
    + eapply hoare_conseq; [apply (os_remove_hoare t (λ f, placed t k bs f0 f ∧ f0 !! k = None)); done|done|done|].
      auto.
    + intros ?. apply silent_hoare; [apply os_check_silent|auto].
Qed.

(** A replacement happens as a whole or not at all. *)
Lemma replace_atomically_hoare t k bs f0 :
  t ≠ k →
  hoare (λ f, f = f0) (replace_atomically t k bs) (λ _, placed t k bs f0) (λ _ f, beside t f0 f ∨ placed t k bs f0 f).
Proof.
  intros Hne. unfold replace_atomically.
  apply (write_beside_hoare t k bs f0 _ (placed t k bs f0) (λ f, beside t f0 f ∨ placed t k bs f0 f));
    [|by left|intros f f' [?|?] ?; [left; by eapply beside_trans|right; by eapply placed_beside]].
  intros parent. eapply (hoare_bind _ _ _ (λ _ f, placed t k bs f0 f)).
  - intros s s' r [Hb Ht] Hr%os_call_run.
    assert (placed t k bs f0 (<[k := bs]> (delete t (fs_files s)))) as Hp.
    { split; [apply lookup_insert_eq|]. intros x ??. rewrite lookup_insert_ne, lookup_delete_ne by done. auto. }
    destruct r as [[]|e].
    + destruct Hr as [_ ->]. simpl. by rewrite Ht.
    + destruct Hr as [_ [->|(n & a & _ & ->)]]; [auto|]. destruct n; simpl; [auto|]. rewrite Ht. auto.
  - intros ?. apply silent_hoare; [apply os_check_silent|auto].
Qed.

(** ** Names *)

Fixpoint str_last (s : string) : option Ascii.ascii :=
  match s with
  | EmptyString => None
  | String c EmptyString => Some c
  | String _ s => str_last s
  end.
Lemma str_last_app a b c : str_last b = Some c → str_last (a +:+ b) = Some c.
Proof.
  intros Hb. induction a as [|x a IH]; [done|].
  change (String x a +:+ b) with (String x (a +:+ b)).
  destruct (a +:+ b); [discriminate IH|exact IH].
Qed.
(** A name of a temporary file; no other name of the store ends like one. *)
Definition is_temp (path : string) : Prop := str_last path = Some "p"%char.
#[export] Instance is_temp_dec path : Decision (is_temp path).
Proof. unfold is_temp. apply _. Defined.
Lemma temp_name_is_temp parent name pid sequence : is_temp (temp_name parent name pid sequence).
Proof. unfold is_temp, temp_name. do 7 apply str_last_app. done. Qed.

(** ** Immutable files *)

(** File [k] may have appeared with content [bs]; nothing else changed but
    temporary files. *)
Definition inserted (k : string) (bs : bytes) (f0 f : files) : Prop :=
  ∀ x, ¬ is_temp x → f !! x = f0 !! x ∨ x = k ∧ f0 !! k = None ∧ f !! k = Some bs.

Lemma inserted_refl k bs f : inserted k bs f f.
Proof. by left. Qed.
Lemma publish_create_new_inserts t k bs f0 :
  is_temp t → ¬ is_temp k →
  hoare (λ f, f = f0) (publish_create_new t k bs)
    (λ _ f, inserted k bs f0 f ∧ f !! k = Some bs) (λ _, inserted k bs f0).
Proof.
  intros Ht Hk. assert (t ≠ k) as Hne by (by intros ->).
  assert (∀ f, placed t k bs f0 f ∧ f0 !! k = None → inserted k bs f0 f ∧ f !! k = Some bs) as Hp.
  { intros f [[Hfk Hx] Hn]. split; [|done]. intros x Hnt. destruct (decide (x = k)) as [->|]; [auto|].
    left. apply Hx; [by intros ->|done]. }
  eapply hoare_conseq; [by apply (publish_create_new_hoare t k bs f0)|done|intros ? f; apply Hp|].
  intros ? f [Hb|Hpl]; [|by apply Hp]. intros x Hnt. left. apply Hb. by intros ->.
Qed.

Lemma next_temp_silent : silent next_temp_sequence.
Proof. by intros s s' r [= <- <-]. Qed.
Lemma process_id_silent {E} : silent (E:=E) process_id.
Proof. by intros s s' r [= <- <-]. Qed.
#[export] Hint Resolve next_temp_silent process_id_silent : silent.

Lemma read_bounded_hoare path maximum (P : files → Prop) :
  hoare P (read_bounded path maximum) (λ bs f, P f ∧ f !! path = Some bs) (λ _, P).
Proof.
  eapply hoare_conseq; [apply reads_hoare, (read_bounded_reads P)|done|..]; cbn; [|by intros e f [? _]].
  intros bs f (? & ? & _). auto.
Qed.

(** Comparing what a file holds with what it should hold. *)
Lemma compare_hoare k bs existing f0 :
  hoare (λ f, inserted k bs f0 f ∧ f !! k = Some existing)
    (reject_if (negb (bool_decide (existing = bs))) PoHashCollision)
    (λ _ f, inserted k bs f0 f ∧ f !! k = Some bs) (λ _, inserted k bs f0).
Proof. apply hoare_reject; intros f [? ?] E; boolify; [by subst|done]. Qed.

Lemma insert_immutable_hoare name k bs f0 :
  ¬ is_temp k →
  hoare (λ f, f = f0) (insert_immutable name k bs)
    (λ _ f, inserted k bs f0 f ∧ f !! k = Some bs) (λ _, inserted k bs f0).
Proof.
  intros Hk. pose proof (inserted_refl k bs f0) as Hrefl.
  assert (∀ A (m : po A), silent m → hoare (λ f, f = f0) m (λ _ f, f = f0) (λ _, inserted k bs f0)) as Hs.
  { intros A m Hm. apply silent_hoare; [done|]. by intros _ f ->. }
  unfold insert_immutable. eapply (hoare_bind _ _ _ (λ r f, f = f0 ∧ ∀ x, r = Ok x → f !! k = Some x)).
  { apply hoare_port_result. eapply hoare_conseq; [apply (read_bounded_hoare _ _ (λ f, f = f0))|done|..].
    - intros x f [-> ?]. split; [done|]. by intros ? [= <-].
    - by intros e f ->. }
  intros [existing|error].
  { eapply hoare_conseq; [apply (compare_hoare k bs existing f0)|..]; [|done..]. intros f [-> Hx]. split; [done|]. by apply Hx. }
  eapply (hoare_conseq _ (λ f, f = f0)); [|by intros f [? _]|intros a f H; exact H|intros e f H; exact H].
  destruct error as [| | | | | | | | | |[| |text]]; try (apply hoare_throw; by intros f ->).
  eapply hoare_bind; [apply Hs; auto with silent|]. intros parent.
  do 3 (eapply hoare_bind; [apply Hs; auto with silent|]; intros ?).
  eapply (hoare_bind _ _ _ (λ t f, f = f0 ∧ is_temp t)).
  { apply hoare_lift; [|by intros f ? ->]. intros f t -> Ht. split; [done|].
    unfold ProjectReference_parse in Ht. case_match; [|done]. injection Ht as <-. apply temp_name_is_temp. }
  intros t. apply hoare_pure. intros Ht.
  eapply (hoare_bind _ _ _ (λ r f, inserted k bs f0 f ∧ (is_ok r = true → f !! k = Some bs))).
  { apply hoare_port_result. eapply hoare_conseq; [by apply (publish_create_new_inserts t k bs f0)|done|naive_solver..]. }
  intros [[]|[| | | | | | | | | |[| |text]]];
    try (apply hoare_throw; by intros f [? _]).
  - apply hoare_ret. naive_solver.
  - eapply (hoare_bind _ _ _ (λ x f, inserted k bs f0 f ∧ f !! k = Some x)); [|intros x; apply compare_hoare].
    apply hoare_port. eapply hoare_conseq; [apply (read_bounded_hoare _ _ (inserted k bs f0))|naive_solver..].
Qed.

(** ** Objects *)

(** The files that are only ever created: the objects and the lock. *)
Definition is_object_path (path : string) : Prop :=
  (∃ ns hex, ns ∈ NAMESPACES ∧ path = object_path ns hex) ∨ path = lock_path.

(** New objects may have appeared; nothing else changed but temporary files. *)
Definition objects_grow (f0 f : files) : Prop :=
  ∀ x, ¬ is_temp x → f !! x = f0 !! x ∨ f0 !! x = None ∧ is_object_path x.
#[export] Instance objects_grow_refl : Reflexive objects_grow.
Proof. by left. Qed.
#[export] Instance objects_grow_trans : Transitive objects_grow.
Proof.
  intros f1 f2 f3 H1 H2 x Hx. destruct (H1 x Hx) as [E1|[E1 ?]], (H2 x Hx) as [E2|[E2 ?]]; auto.
  - left. congruence.
  - right. split; [congruence|done].
Qed.
Lemma objects_grow_keep f0 f x bs : objects_grow f0 f → ¬ is_temp x → f0 !! x = Some bs → f !! x = Some bs.
Proof. intros Hg Hx Hb. destruct (Hg x Hx) as [->|[? _]]; congruence. Qed.

(** Programs that only add objects. *)
Definition only_grows {E A} (m : stm PortableStore E A) : Prop :=
  ∀ s s' r, m s = (s', r) → objects_grow (fs_files s) (fs_files s').
Lemma only_grows_bind {E A B} (m : stm PortableStore E A) (k : A → stm PortableStore E B) :
  only_grows m → (∀ a, only_grows (k a)) → only_grows (m ≫= k).
Proof.
  intros Hm Hk s s' r. unfold mbind, stm_bind. destruct (m s) as [s1 [a|e]] eqn:Em.
  - intros Hr. transitivity (fs_files s1); [by eapply Hm|by eapply Hk].
  - intros [= <- <-]. by eapply Hm.
Qed.
Lemma silent_grows {E A} (m : stm PortableStore E A) : silent m → only_grows m.
Proof. intros Hm s s' r Hr. by rewrite (Hm _ _ _ Hr). Qed.
Lemma only_grows_port {E F A} (g : E → F) (m : stm PortableStore E A) : only_grows m → only_grows (port g m).
Proof. intros Hm s s' r (r0 & Hr & _)%port_run. by eapply Hm. Qed.

Lemma ProjectReference_parse_ok v p : ProjectReference_parse v = Ok p → p = v.
Proof. unfold ProjectReference_parse. case_match; [|done]. by intros [= <-]. Qed.
Lemma object_reference_ok ns identity p :
  object_reference ns identity = Ok p →
  ns ∈ NAMESPACES ∧ codec_valid_hash identity = true
  ∧ ∃ hex, strip_prefix "sha256:" identity = Some hex ∧ all_bytes is_lower_hexdigit hex = true
           ∧ hex ≠ EmptyString ∧ p = object_path ns hex.
Proof.
  unfold object_reference, validate_namespace, codec_valid_hash. intros H. res_inv H.
  destruct (ProjectReference_parse _) as [q|] eqn:Ep; [|done]. apply ProjectReference_parse_ok in Ep as ->.
  simplify_eq/=. boolify. rewrite H1. split_and!; [done|by rewrite !andb_true_iff, N.eqb_eq|].
  eexists. split_and!; [done..| |done]. by intros ->.
Qed.

Lemma hex_last hex :
  all_bytes is_lower_hexdigit hex = true → hex ≠ EmptyString → ∃ c, str_last hex = Some c ∧ c ≠ "p"%char.
Proof.
  intros Hh Hne. induction hex as [|c hex IH]; [done|]. simpl in Hh. apply andb_true_iff in Hh as [Hc Hh].
  destruct hex as [|c' hex]; [|by apply IH]. exists c. split; [done|]. by intros ->.
Qed.
Lemma object_reference_not_temp ns identity p : object_reference ns identity = Ok p → ¬ is_temp p ∧ is_object_path p.
Proof.
  intros (Hns & _ & hex & _ & Hh & Hne & ->)%object_reference_ok. split; [|left; by exists ns, hex].
  destruct (hex_last hex Hh Hne) as (c & Hc & Hp). unfold is_temp, object_path.
  rewrite (str_last_app _ _ c); [by intros [= ->]|]. by do 2 apply str_last_app.
Qed.

Section objects.
Context `{Sha256}.
Implicit Types (ns : string) (bs : bytes).

(** Publishing an object: it is there under its digest. *)
Lemma store_publish_run ns bs s s' r :
  store_publish ns bs s = (s', r) →
  objects_grow (fs_files s) (fs_files s')
  ∧ ∀ identity, r = Ok identity →
      identity = digest ns bs ∧ len bs <= MAX_PORTABLE_OBJECT_BYTES
      ∧ ∃ p, object_reference ns identity = Ok p ∧ fs_files s' !! p = Some bs.
Proof.
  unfold store_publish, mbind, stm_bind, lift, reject_if. intros Hr.
  destruct (validate_namespace ns); [|injection Hr as <- <-; by split].
  destruct (fail_if _ PoObjectSize) as [[]|] eqn:Esize; [|injection Hr as <- <-; by split].
  apply fail_if_ok in Esize. boolify.
  destruct (object_reference ns (digest ns bs)) as [p|] eqn:Ep; [|injection Hr as <- <-; by split].
  destruct (ok_or _ PoInvalidHash) as [hex|]; [|injection Hr as <- <-; by split].
  destruct (object_reference_not_temp _ _ _ Ep) as [Hnt Hobj].
  destruct (insert_immutable hex p bs s) as [s1 r1] eqn:Ei.
  pose proof (insert_immutable_hoare hex p bs (fs_files s) Hnt s s1 r1 eq_refl Ei) as Hi.
  assert (inserted p bs (fs_files s) (fs_files s1)) as Hins by (destruct r1; naive_solver).
  assert (objects_grow (fs_files s) (fs_files s1)) as Hg.
  { intros x Hx. destruct (Hins x Hx) as [|(-> & ? & _)]; auto. }
  destruct r1 as [u|e]; injection Hr as <- <-; (split; [done|]); [|done].
  intros identity [= <-]. split_and!; [done|done|]. exists p. naive_solver.
Qed.
Lemma store_publish_grows ns bs : only_grows (store_publish ns bs).
Proof. intros s s' r Hr. by apply store_publish_run in Hr as [? _]. Qed.

Lemma open_lock_grows : only_grows open_lock.
Proof.
  unfold open_lock, create_dir_all, reject_symlinks. apply only_grows_bind; [apply silent_grows; silence|]. intros ?.
  intros s s' r Hr. unfold mbind at 1, stm_bind at 1, lift in Hr.
  destruct (map_err _ _) as [p|] eqn:Ep; [|by injection Hr as <- <-].
  destruct (ProjectReference_parse _) as [q|] eqn:Eq; [|done].
  apply ProjectReference_parse_ok in Eq as ->. injection Ep as <-.
  eapply (only_grows_port PoWorkspace (_ ← revalidate; _ ← os_check; os_open_or_create lock_path)); [|exact Hr].
  do 2 (apply only_grows_bind; [apply silent_grows; silence|]; intros ?).
  clear. intros s s' r Hr%os_call_run.
  assert (∀ part, objects_grow (fs_files s)
    (at_once (λ f, if f !! lock_path then f else <[lock_path := []]> f) part (fs_files s))) as Hg.
  { intros part x Hx.
    assert ((if fs_files s !! lock_path then fs_files s else <[lock_path := []]> (fs_files s)) !! x
              = fs_files s !! x ∨ fs_files s !! x = None ∧ is_object_path x) as Hcase.
    { destruct (fs_files s !! lock_path) eqn:El; [by left|]. destruct (decide (x = lock_path)) as [->|Hne].
      - right. split; [done|by right].
      - left. by rewrite lookup_insert_ne. }
    destruct part as [[|n]|]; simpl; [by left|exact Hcase|exact Hcase]. }
  destruct r as [a|e].
  - destruct Hr as [_ ->]. apply (Hg None).
  - destruct Hr as [_ [->|(n & a & _ & ->)]]; [done|apply (Hg (Some n))].
Qed.

Lemma store_read_silent ns identity : silent (store_read ns identity).
Proof. unfold store_read. silence. Qed.
Lemma store_read_run ns identity s s' bs :
  store_read ns identity s = (s', Ok bs) →
  digest ns bs = identity ∧ codec_valid_hash identity = true
  ∧ ∃ p, object_reference ns identity = Ok p ∧ fs_files s !! p = Some bs.
Proof.
  unfold store_read. intros Hr. run_inv Hr. apply port_ok in Hr2. boolify.
  destruct (read_bounded_reads (λ _, True) _ _ _ _ _ I Hr2) as [_ [Hf _]].
  split_and!; [done|by apply object_reference_ok in Hr1 as (_ & ? & _)|]. eauto.
Qed.

(** A file of the right size can be read unless a call fails. *)
Lemma os_check_fails : reads (λ _, True) os_check (λ _ _, True) (λ e _, ∃ g, e = failure_error g).
Proof.
  intros s s' r _. unfold os_check, os_call, next_call.
  destruct (fs_calls s) as [|[[n g]|] calls]; intros [= <- <-]; simpl; eauto.
Qed.
Lemma os_read_fails path bs :
  reads (λ f, f !! path = Some bs) (os_read path) (λ x _, x = bs) (λ e _, ∃ g, e = failure_error g).
Proof.
  intros s s' r Hf. unfold os_read, os_call, next_call.
  destruct (fs_calls s) as [|[[n g]|] calls]; simpl; rewrite Hf; intros [= <- <-]; simpl; eauto.
Qed.
Lemma read_bounded_total path bs maximum :
  len bs <= maximum →
  reads (λ f, f !! path = Some bs) (read_bounded path maximum) (λ x _, x = bs) (λ e _, ∃ g, e = failure_error g).
Proof.
  intros Hlen. pose proof os_check_fails as Hc.
  assert (∀ P, reads P os_check (λ _ _, True) (λ e _, ∃ g, e = failure_error g)) as Hck
    by (intros P; eapply reads_weaken; [apply Hc|done..]).
  unfold read_bounded, revalidate, reject_symlinks.
  eapply reads_bind; [eapply reads_bind; [apply Hck|intros ?; apply Hck]|]. intros ?.
  eapply reads_bind; [apply Hck|]. intros ?.
  eapply (reads_bind _ _ _ (λ content _, content = bs));
    [eapply reads_weaken; [apply (os_read_fails path bs)|naive_solver..]|]. intros content.
  eapply reads_bind; [apply Hck|]. intros ?.
  eapply (reads_bind _ _ _ (λ _ _, True)).
  { apply reads_reject; [done|]. intros f Hf E. boolify. destruct_and!. subst. lia. }
  intros ?. eapply reads_bind; [apply Hck|]. intros ?.
  eapply (reads_bind _ _ _ (λ _ _, True)).
  { apply reads_reject; [done|]. intros f Hf E. boolify. destruct_and!. subst. unfold len in *.
    rewrite length_take in E. lia. }
  intros ?. apply reads_ret. intros f Hf. destruct_and!. subst. apply take_ge. unfold len in *. lia.
Qed.

(** Objects are never changed. *)
Definition keeps_objects (f f' : files) : Prop :=
  ∀ x bs, ¬ is_temp x → is_object_path x → f !! x = Some bs → f' !! x = Some bs.
#[export] Instance keeps_objects_refl : Reflexive keeps_objects.
Proof. by intros f x bs. Qed.
#[export] Instance keeps_objects_trans : Transitive keeps_objects.
Proof. intros f1 f2 f3 H1 H2 x bs Hx Ho Hf. by apply H2, H1. Qed.
Lemma grow_keeps_objects f f' : objects_grow f f' → keeps_objects f f'.
Proof. intros Hg x bs Hx _. by apply objects_grow_keep. Qed.

(** An object in its place reads back unless a call of the operating system
    fails. *)
Lemma present_reads ns bs identity p s s' r :
  object_reference ns identity = Ok p → fs_files s !! p = Some bs → identity = digest ns bs →
  len bs <= MAX_PORTABLE_OBJECT_BYTES → store_read ns identity s = (s', r) →
  r = Ok bs ∨ ∃ g, r = Err (PoWorkspace (failure_error g)).
Proof.
  intros Hp Hf -> Hlen Hread. unfold store_read, mbind, stm_bind, lift, reject_if in Hread.
  assert (validate_namespace ns = Ok ()) as Hns.
  { apply fail_if_ok, negb_false_iff, bool_decide_eq_true. by apply object_reference_ok in Hp as [? _]. }
  rewrite Hns, Hp in Hread. destruct (port _ _ s) as [s4 r4] eqn:Er.
  apply port_run in Er as (r0 & Hr0 & ->).
  destruct (read_bounded_total p bs _ Hlen _ _ _ Hf Hr0) as [_ Hpost].
  destruct r0 as [x|e]; simpl in Hread.
  - subst x. rewrite bool_decide_true in Hread by done. injection Hread as <- <-. by left.
  - injection Hread as <- <-. destruct Hpost as [g ->]. right. by exists g.
Qed.
(** A published object reads back as it was published, as long as objects are
    kept; only a failing call of the operating system can prevent it. *)
Lemma published_reads ns bs s s1 identity s2 s3 r :
  store_publish ns bs s = (s1, Ok identity) → keeps_objects (fs_files s1) (fs_files s2) →
  store_read ns identity s2 = (s3, r) →
  r = Ok bs ∨ ∃ g, r = Err (PoWorkspace (failure_error g)).
Proof.
  intros Hpub Hkeep. apply store_publish_run in Hpub as [_ Hpub].
  destruct (Hpub _ eq_refl) as (Hid & Hlen & p & Hp & Hf).
  destruct (object_reference_not_temp _ _ _ Hp) as [Hnt Ho].
  by apply (present_reads _ _ _ _ _ _ _ Hp (Hkeep _ _ Hnt Ho Hf) Hid Hlen).
Qed.
End objects.
#[export] Hint Resolve store_read_silent : silent.
