(* ===== verification/Repository.v ===== *)
(** * The portable repository ([crates/aworkit-portable-store/src/commit.rs],
      [port.rs])

    Portable commits: immutable segment, checkpoint and claim objects are
    prepared first, then one mutable file per branch, its reference, is moved
    from an expected generation to the next.  [prepare], [publish] and [verify]
    are whole methods over the file store.

    The repository as a history port: the four operations the core calls
    ([PortableCanonicalCommitPort]); a request is prepared and recorded as a
    claim, a file named after its operation, from which publication,
    verification and reading the head are answered. *)
From S2P Require Export ObjectStore Calls.

(** * Commits *)

(** ** Records *)

(** [manifest.rs]: the mutable pointer of a branch. *)
Record BranchRef : Type := MkBranchRef {
  rf_branch_id : string;
  rf_head_segment_hash : option string;
  rf_checkpoint_hash : option string;
  rf_next_ordinal : N;
  rf_generation : N;
  rf_commit_id : option string;
  rf_commit_request_hash : option string
}.
Record PortableCommit : Type := MkPortableCommit {
  pm_branch_id : string;
  pm_expected_generation : N;
  pm_commit_id : string;
  pm_context : option PortableCommitContextV1;
  pm_events : list PortableEvent;
  pm_checkpoint : option PortableCheckpoint
}.
Record PreparedCommit : Type := MkPreparedCommit {
  pq_branch_id : string;
  pq_commit_id : string;
  pq_expected_generation : N;
  pq_previous_head_hash : option string;
  pq_segment_hash : string;
  pq_checkpoint_hash : option string;
  pq_next_ordinal : N;
  pq_request_hash : string;
  pq_claim_hash : string
}.
#[export] Instance PreparedCommit_eq_dec : EqDecision PreparedCommit.
Proof. solve_decision. Defined.
Record CommitReceipt : Type := MkCommitReceipt {
  ct_branch_id : string;
  ct_commit_id : string;
  ct_previous_head_hash : option string;
  ct_head_segment_hash : string;
  ct_checkpoint_hash : option string;
  ct_generation : N;
  ct_request_hash : string
}.

Inductive CommitError : Type :=
| CmInvalidBranch
| CmEmptyCommit
| CmHeadConflict (expected actual : N)
| CmCommitIdentityConflict
| CmEventLineage
| CmCheckpointMismatch
| CmOrdinalOverflow
| CmGenerationOverflow
| CmExportRejected
| CmInvalidPreparedClaim
| CmVerificationFailed
| CmPublicationUncertain
| CmInjectedFault (point : CommitFaultPoint)
| CmPoisoned
| CmPortable (error : PortableError)
| CmWorkspace (error : WorkspaceError)
| CmCodec (error : CodecError)
| CmJson
| CmIo (error : io_error).
Abbreviation rp := (stm PortableStore CommitError).

(** ** Checks *)

Definition commit_validate_id (value : string) : result CommitError () :=
  if valid_name value then Ok () else Err CmInvalidBranch.
Definition ref_path (branch_id : string) : string := ".aworkit/portable/refs/" +:+ branch_id +:+ ".json".
Definition ref_reference (branch_id : string) : result CommitError string :=
  _ ← commit_validate_id branch_id;
  map_err CmWorkspace (ProjectReference_parse (ref_path branch_id)).

Definition validate_branch_ref (branch : BranchRef) (expected_id : string) : result CommitError () :=
  fail_if (negb (bool_decide (rf_branch_id branch = expected_id))
    || ((rf_generation branch =? 0)
        && (is_some (rf_head_segment_hash branch) || is_some (rf_checkpoint_hash branch)
            || negb (rf_next_ordinal branch =? 0) || is_some (rf_commit_id branch)
            || is_some (rf_commit_request_hash branch)))
    || ((0 <? rf_generation branch)
        && (negb (is_some (rf_head_segment_hash branch)) || (rf_next_ordinal branch =? 0)
            || negb (is_some (rf_commit_id branch)) || negb (is_some (rf_commit_request_hash branch))))
    || is_some_and (rf_head_segment_hash branch) (λ v, negb (codec_valid_hash v))
    || is_some_and (rf_checkpoint_hash branch) (λ v, negb (codec_valid_hash v))
    || is_some_and (rf_commit_request_hash branch) (λ v, negb (codec_valid_hash v))) CmVerificationFailed.

Definition validate_commit_checkpoint (checkpoint : PortableCheckpoint) (last_event : option PortableEvent) :
    result CommitError () :=
  fail_if (is_err (validate_checkpoint_record checkpoint)
           || negb (bool_decide (pc_last_event_id checkpoint = (vt_event_id <$> last_event)))) CmCheckpointMismatch.

Fixpoint validate_ordinals (branch_id : string) (first_ordinal index : N) (events : list PortableEvent) :
    result CommitError () :=
  match events with
  | [] => Ok ()
  | event :: events =>
      expected ← ok_or (checked_add u64_max first_ordinal index) CmOrdinalOverflow;
      _ ← fail_if (negb (bool_decide (vt_branch_id event = branch_id)) || negb (vt_ordinal event =? expected))
            CmEventLineage;
      _ ← commit_validate_id (vt_event_id event);
      _ ← commit_validate_id (vt_chat_id event);
      validate_ordinals branch_id first_ordinal (index + 1) events
  end.
Definition validate_event_lineage (commit : PortableCommit) (first_ordinal : N) : result CommitError () :=
  _ ← validate_ordinals (pm_branch_id commit) first_ordinal 0 (pm_events commit);
  fail_if (any_pair (λ a b, negb (bool_decide (vt_chat_id a = vt_chat_id b))) (pm_events commit)) CmEventLineage.

(** [sanitize_events]: the events with scrubbed payloads and the omissions. *)
Definition with_payload (event : PortableEvent) (payload : json) : PortableEvent :=
  MkPortableEvent (vt_event_id event) (vt_chat_id event) (vt_branch_id event) (vt_ordinal event)
    (vt_kind event) payload.
Definition event_omission (index : N) (fact : OmissionFact) : OmissionFact :=
  MkOmission ("/events/" +:+ pretty index +:+ "/payload" +:+ om_pointer fact) (om_reason fact).
Fixpoint sanitize_from (index : N) (events : list PortableEvent) :
    result CommitError (list PortableEvent * list OmissionFact) :=
  match events with
  | [] => Ok ([], [])
  | event :: events =>
      scrubbed ← map_err (λ _, CmExportRejected) (scrub (vt_payload event));
      '(sanitized, omissions) ← sanitize_from (index + 1) events;
      Ok (with_payload event (sb_value scrubbed) :: sanitized,
          map (event_omission index) (sb_omissions scrubbed) ++ omissions)
  end.
Definition sanitize_events (commit : PortableCommit) : result CommitError (list PortableEvent * list OmissionFact) :=
  sanitize_from 0 (pm_events commit).

(** [dedup_by] with equality of both fields: runs of equal facts shrink to
    their first. *)
Fixpoint dedup_facts (facts : list OmissionFact) : list OmissionFact :=
  match facts with
  | a :: (b :: _) as rest => if bool_decide (a = b) then dedup_facts rest else a :: dedup_facts rest
  | _ => facts
  end.
Definition with_omissions (context : PortableCommitContextV1) (omissions : list OmissionFact) :
    PortableCommitContextV1 :=
  let p := cc_provenance context in
  MkCommitContext (cc_frozen_snapshot context)
    (MkPortableProvenance (pn_git p) (pn_workflow_revision_hash p) (pn_configuration_revision_hashes p)
       (pn_redaction_profile_hash p) (pn_artifact_refs p) (pn_artifact_metadata p)
       (dedup_facts (sort_by omission_cmp (pn_omissions p ++ omissions)))).
(** The context of the segment: the commit's, with the omissions recorded. *)
Definition commit_context (commit : PortableCommit) (omissions : list OmissionFact) :
    result CommitError (option PortableCommitContextV1) :=
  if is_nil omissions then Ok (pm_context commit)
  else
    context ← ok_or (pm_context commit) CmExportRejected;
    Ok (Some (with_omissions context omissions)).

Definition empty_branch (branch_id : string) : BranchRef := MkBranchRef branch_id None None 0 0 None None.
Definition next_ref_sequence : rp N := λ s,
  (MkStore (fs_files s) (fs_calls s) (fs_capabilities s) (fs_process_id s) (fs_temp_sequence s)
     ((fs_ref_temp_sequence s + 1) mod (u64_max + 1)) (fs_fault_once s),
   Ok (fs_ref_temp_sequence s)).
(** [fail_if]: the injected fault fires once. *)
Definition fault_if (point : CommitFaultPoint) : rp () := λ s,
  if bool_decide (fs_fault_once s = Some point) then
    (set_fault None s,
     Err (match point with AfterHeadPublication => CmPublicationUncertain | _ => CmInjectedFault point end))
  else (s, Ok ()).
Definition inject_fault_once (point : CommitFaultPoint) : rp () := modify (set_fault (Some point)).

Definition receipt_from_ref (branch : BranchRef) (previous_head_hash : option string) :
    result CommitError CommitReceipt :=
  commit_id ← ok_or (rf_commit_id branch) CmVerificationFailed;
  head ← ok_or (rf_head_segment_hash branch) CmVerificationFailed;
  request_hash ← ok_or (rf_commit_request_hash branch) CmVerificationFailed;
  Ok (MkCommitReceipt (rf_branch_id branch) commit_id previous_head_hash head (rf_checkpoint_hash branch)
        (rf_generation branch) request_hash).

Definition with_claim_hash (prepared : PreparedCommit) (claim_hash : string) : PreparedCommit :=
  MkPreparedCommit (pq_branch_id prepared) (pq_commit_id prepared) (pq_expected_generation prepared)
    (pq_previous_head_hash prepared) (pq_segment_hash prepared) (pq_checkpoint_hash prepared)
    (pq_next_ordinal prepared) (pq_request_hash prepared) claim_hash.

Definition LINEAGE_LIMIT : N := 16384.

Section repository.
Context `{Sha256, !Serialize json, !Deserialize json}.
Context `{!ToValue PortableCommitContextV1, !ToValue PortableEvent}.
Context `{!ToValue PortableCheckpoint, !FromValue PortableCheckpoint}.
Context `{!ToValue SegmentHeaderV1, !FromValue SegmentHeaderV1}.
Context `{!ToValue SegmentEventV1, !FromValue SegmentEventV1}.
Context `{!ToValue SegmentTrailerV1, !FromValue SegmentTrailerV1}.
Context `{!ToValue PreparedCommit, !FromValue PreparedCommit}.
Context `{!ToValue BranchRef, !FromValue BranchRef}.

(** *** Reading *)

Definition branch_of_bytes (branch_id : string) (bs : bytes) : result CommitError BranchRef :=
  value ← ok_or (from_slice bs) CmJson;
  canonical ← map_err CmCodec (canonical_json value);
  _ ← fail_if (negb (bool_decide (canonical = bs))) CmVerificationFailed;
  branch ← ok_or (from_value value) CmJson;
  _ ← validate_branch_ref branch branch_id;
  Ok branch.
Definition read_branch (branch_id : string) : rp BranchRef :=
  _ ← lift (commit_validate_id branch_id);
  reference ← lift (ref_reference branch_id);
  answer ← port_result (read_relative reference 65536);
  match answer with
  | Ok bs => lift (branch_of_bytes branch_id bs)
  | Err (PoWorkspace (WsIo IoNotFound)) => mret (empty_branch branch_id)
  | Err error => throw (CmPortable error)
  end.

Definition read_object (namespace identity : string) : rp bytes := port CmPortable (store_read namespace identity).
Definition read_segment (identity : string) : rp PortableSegment :=
  bs ← read_object "segments" identity; lift (map_err CmCodec (decode_segment bs)).
Definition read_checkpoint_validated (identity : string) : rp () :=
  bs ← read_object "checkpoints" identity;
  checkpoint ← lift (map_err CmCodec (decode_record (T:=PortableCheckpoint) bs));
  lift (map_err CmCodec (validate_checkpoint_record checkpoint)).
Definition check_checkpoint (identity : option string) : rp () :=
  match identity with Some hash => read_checkpoint_validated hash | None => mret () end.
(** [for descriptor in metadata { artifacts.read_verified(descriptor)... }] *)
Fixpoint check_artifacts (metadata : list ArtifactDescriptor) : rp () :=
  match metadata with
  | [] => mret ()
  | descriptor :: metadata =>
      _ ← port (λ _, CmVerificationFailed) (read_verified descriptor);
      check_artifacts metadata
  end.

(** The loop of [validate_current_lineage]: the segments it has seen when it
    ends, after reaching the first segment or [fuel] turns. *)
Fixpoint walk_lineage (fuel : nat) (cursor : string) (expected_end : N) (seen : gset string) : rp (gset string) :=
  match fuel with
  | O => mret seen
  | S fuel =>
      _ ← reject_if (bool_decide (cursor ∈ seen)) CmVerificationFailed;
      let seen := {[cursor]} ∪ seen in
      segment ← read_segment cursor;
      end_ ← lift (ok_or (checked_add u64_max (sg_first_ordinal segment) (len (sg_events segment))) CmOrdinalOverflow);
      _ ← reject_if (negb (end_ =? expected_end)) CmVerificationFailed;
      _ ← check_checkpoint (sg_base_checkpoint_hash segment);
      _ ← match sg_context segment with
          | Some context => check_artifacts (pn_artifact_metadata (cc_provenance context))
          | None => mret ()
          end;
      match sg_parent_segment_hash segment with
      | Some parent => walk_lineage fuel parent (sg_first_ordinal segment) seen
      | None => if sg_first_ordinal segment =? 0 then mret seen else throw CmVerificationFailed
      end
  end.
Definition validate_current_lineage (branch : BranchRef) : rp () :=
  match rf_head_segment_hash branch with
  | None =>
      reject_if (negb ((rf_generation branch =? 0) && (rf_next_ordinal branch =? 0)
                       && negb (is_some (rf_checkpoint_hash branch)))) CmVerificationFailed
  | Some head =>
      seen ← walk_lineage (N.to_nat LINEAGE_LIMIT) head (rf_next_ordinal branch) ∅;
      _ ← reject_if (LINEAGE_LIMIT <=? bs_len seen) CmVerificationFailed;
      check_checkpoint (rf_checkpoint_hash branch)
  end.

Definition validate_prepared (prepared : PreparedCommit) : rp () :=
  _ ← lift (commit_validate_id (pq_branch_id prepared));
  _ ← lift (commit_validate_id (pq_commit_id prepared));
  _ ← reject_if (str_is_empty (pq_claim_hash prepared)) CmInvalidPreparedClaim;
  bs ← read_object "claims" (pq_claim_hash prepared);
  stored ← lift (map_err CmCodec (decode_record (T:=PreparedCommit) bs));
  _ ← reject_if (negb (bool_decide (stored = with_claim_hash prepared ""))) CmInvalidPreparedClaim;
  _ ← read_segment (pq_segment_hash prepared);
  check_checkpoint (pq_checkpoint_hash prepared).

(** *** Preparing *)

Definition json_option {T} `{!ToValue T} (o : option T) : option json :=
  match o with Some x => to_value x | None => Some JNull end.
(** The request's records always convert ([json!] would panic otherwise). *)
Definition hash_request (commit : PortableCommit) (sanitized : list PortableEvent)
    (context : option PortableCommitContextV1) : result CommitError string :=
  context ← ok_or (json_option context) CmJson;
  events ← ok_or (mapM to_value sanitized) CmJson;
  checkpoint ← ok_or (json_option (pm_checkpoint commit)) CmJson;
  bs ← map_err CmCodec (canonical_json (JObject
    [("branchId", JString (pm_branch_id commit));
     ("expectedGeneration", JNumber (PosInt (pm_expected_generation commit)));
     ("commitId", JString (pm_commit_id commit));
     ("context", context);
     ("events", JArray events);
     ("checkpoint", checkpoint)]));
  Ok ("sha256:" +:+ sha256_hex bs).

(** [self.codec.encode(record)?] then [self.paths.publish(namespace, ..)?]. *)
Definition publish_record {T} `{!ToValue T} (namespace : string) (record : T) : rp string :=
  bs ← lift (map_err CmCodec (encode_record record));
  port CmPortable (store_publish namespace bs).
Definition publish_claim (prepared : PreparedCommit) : rp PreparedCommit :=
  claim_hash ← publish_record "claims" (with_claim_hash prepared "");
  mret (with_claim_hash prepared claim_hash).

Definition check_context (context : option PortableCommitContextV1) : result CommitError () :=
  match context with
  | None => Ok ()
  | Some context =>
      _ ← map_err CmCodec (validate_context context);
      match cc_frozen_snapshot context with
      | None => Ok ()
      | Some snapshot =>
          scrubbed ← map_err (λ _, CmExportRejected) (scrub (ps_portable_snapshot snapshot));
          fail_if (negb (json_eqb (sb_value scrubbed) (ps_portable_snapshot snapshot))
                   || negb (is_nil (sb_omissions scrubbed))) CmExportRejected
      end
  end.

Definition repo_prepare_commit (commit : PortableCommit) : rp PreparedCommit :=
  _ ← lift (commit_validate_id (pm_branch_id commit));
  _ ← lift (commit_validate_id (pm_commit_id commit));
  _ ← reject_if (is_nil (pm_events commit)) CmEmptyCommit;
  '(sanitized, omissions) ← lift (sanitize_events commit);
  context ← lift (commit_context commit omissions);
  _ ← lift (check_context context);
  request_hash ← lift (hash_request commit sanitized context);
  current ← read_branch (pm_branch_id commit);
  _ ← validate_current_lineage current;
  if bool_decide (rf_commit_id current = Some (pm_commit_id commit)) then
    _ ← reject_if (negb (bool_decide (rf_commit_request_hash current = Some request_hash))) CmCommitIdentityConflict;
    segment_hash ← lift (ok_or (rf_head_segment_hash current) CmVerificationFailed);
    segment ← read_segment segment_hash;
    prepared ← publish_claim (MkPreparedCommit (pm_branch_id commit) (pm_commit_id commit)
      (pm_expected_generation commit) (sg_parent_segment_hash segment) segment_hash
      (rf_checkpoint_hash current) (rf_next_ordinal current) request_hash "");
    _ ← fault_if AfterPrepare;
    mret prepared
  else
    _ ← reject_if (negb (rf_generation current =? pm_expected_generation commit))
          (CmHeadConflict (pm_expected_generation commit) (rf_generation current));
    _ ← lift (validate_event_lineage commit (rf_next_ordinal current));
    let segment := MkSegment (rf_head_segment_hash current) (rf_checkpoint_hash current)
                     (rf_next_ordinal current) context sanitized in
    segment_bytes ← lift (map_err CmCodec (encode_segment segment));
    segment_hash ← port CmPortable (store_publish "segments" segment_bytes);
    checkpoint_hash ← match pm_checkpoint commit with
                      | Some checkpoint =>
                          _ ← lift (validate_commit_checkpoint checkpoint (last (sg_events segment)));
                          hash ← publish_record "checkpoints" checkpoint;
                          mret (Some hash)
                      | None => mret (rf_checkpoint_hash current)
                      end;
    next_ordinal ← lift (ok_or (checked_add u64_max (rf_next_ordinal current) (len (sg_events segment)))
                           CmOrdinalOverflow);
    prepared ← publish_claim (MkPreparedCommit (pm_branch_id commit) (pm_commit_id commit)
      (pm_expected_generation commit) (rf_head_segment_hash current) segment_hash checkpoint_hash
      next_ordinal request_hash "");
    _ ← fault_if AfterPrepare;
    mret prepared.

(** *** Publishing *)

Definition write_ref (branch : BranchRef) : rp () :=
  target ← lift (ref_reference (rf_branch_id branch));
  parent ← lift (ok_or (path_parent target) CmInvalidBranch);
  _ ← port CmPortable (create_dir_all parent);
  pid ← process_id;
  sequence ← next_ref_sequence;
  temporary ← lift (map_err CmWorkspace (ProjectReference_parse (temp_name parent (rf_branch_id branch) pid sequence)));
  value ← lift (ok_or (to_value branch) CmJson);
  bs ← lift (map_err CmCodec (canonical_json value));
  port CmPortable (replace_relative temporary target bs).

Definition publish_locked (prepared : PreparedCommit) : rp CommitReceipt :=
  current ← read_branch (pq_branch_id prepared);
  if bool_decide (rf_commit_id current = Some (pq_commit_id prepared)) then
    _ ← reject_if (negb (bool_decide (rf_commit_request_hash current = Some (pq_request_hash prepared)))
                   || negb (bool_decide (rf_head_segment_hash current = Some (pq_segment_hash prepared)))
                   || negb (bool_decide (rf_checkpoint_hash current = pq_checkpoint_hash prepared)))
          CmCommitIdentityConflict;
    lift (receipt_from_ref current (pq_previous_head_hash prepared))
  else
    _ ← reject_if (negb (rf_generation current =? pq_expected_generation prepared)
                   || negb (bool_decide (rf_head_segment_hash current = pq_previous_head_hash prepared)))
          (CmHeadConflict (pq_expected_generation prepared) (rf_generation current));
    _ ← fault_if BeforeHeadPublication;
    generation ← lift (ok_or (checked_add u64_max (rf_generation current) 1) CmGenerationOverflow);
    let next := MkBranchRef (pq_branch_id prepared) (Some (pq_segment_hash prepared))
                  (pq_checkpoint_hash prepared) (pq_next_ordinal prepared) generation
                  (Some (pq_commit_id prepared)) (Some (pq_request_hash prepared)) in
    _ ← write_ref next;
    lift (receipt_from_ref next (pq_previous_head_hash prepared)).

(** Taking and releasing the lock of the heads. *)
Definition lock_exclusive : rp () :=
  port (λ e, match e with WsIo k => CmIo k | e => CmWorkspace e end) os_check.
Definition repo_publish_commit (prepared : PreparedCommit) : rp CommitReceipt :=
  _ ← validate_prepared prepared;
  _ ← port CmPortable open_lock;
  _ ← lock_exclusive;
  answer ← port_result (publish_locked prepared);
  _ ← port_result os_check;
  receipt ← lift answer;
  _ ← fault_if AfterHeadPublication;
  mret receipt.

Definition repo_verify_commit (prepared : PreparedCommit) : rp CommitReceipt :=
  _ ← validate_prepared prepared;
  current ← read_branch (pq_branch_id prepared);
  _ ← reject_if (negb (rf_generation current =? saturating_add u64_max (pq_expected_generation prepared) 1)
                 || negb (bool_decide (rf_commit_id current = Some (pq_commit_id prepared)))
                 || negb (bool_decide (rf_commit_request_hash current = Some (pq_request_hash prepared)))
                 || negb (bool_decide (rf_head_segment_hash current = Some (pq_segment_hash prepared)))
                 || negb (bool_decide (rf_checkpoint_hash current = pq_checkpoint_hash prepared))
                 || negb (rf_next_ordinal current =? pq_next_ordinal prepared)) CmVerificationFailed;
  segment ← read_segment (pq_segment_hash prepared);
  _ ← reject_if (negb (bool_decide (sg_parent_segment_hash segment = pq_previous_head_hash prepared)))
        CmVerificationFailed;
  _ ← check_checkpoint (pq_checkpoint_hash prepared);
  lift (receipt_from_ref current (pq_previous_head_hash prepared)).

Definition prepare_publish_verify (commit : PortableCommit) : rp CommitReceipt :=
  prepared ← repo_prepare_commit commit;
  _ ← repo_publish_commit prepared;
  repo_verify_commit prepared.
End repository.

(** * The history port *)

Record ProtocolPreparedClaimV1 : Type := MkClaim {
  cl_request : PortablePrepareV1;
  cl_prepared : PreparedCommit
}.

Definition claim_path (operation_id : StableId) : string :=
  ".aworkit/portable/prepared/" +:+ as_str operation_id +:+ ".json".
Definition claim_reference (operation_id : StableId) : result CommitError string :=
  map_err CmWorkspace (ProjectReference_parse (claim_path operation_id)).

Definition portable_checkpoint (checkpoint : CheckpointV1) (batch : CommitBatchV1)
    (context : option PortableCommitContextV1) : PortableCheckpoint :=
  MkPortableCheckpoint ((λ e, as_str (ev_event_id e)) <$> last (cb_events batch))
    (saturating_add u64_max (cb_expected_aggregate_version batch) (len (cb_events batch)))
    (cp_reducer_version checkpoint)
    (ps_snapshot_hash <$> (context ≫= cc_frozen_snapshot))
    (cp_state_hash checkpoint).

(** [request.expected_next_ordinal + index]: the sum wraps in a release
    build. *)
Definition portable_events (request : PortablePrepareV1) (batch : CommitBatchV1) : list PortableEvent :=
  imap (λ index event,
    MkPortableEvent (as_str (ev_event_id event)) (as_str (cb_chat_id batch)) (as_str (cb_branch_id batch))
      ((pr_expected_next_ordinal request + N.of_nat index) mod (u64_max + 1)) (ev_kind event)
      (ev_payload event)) (cb_events batch).
Definition portable_commit (request : PortablePrepareV1) (batch : CommitBatchV1)
    (context : option PortableCommitContextV1) : PortableCommit :=
  MkPortableCommit (as_str (pr_branch_id request)) (pr_expected_generation request)
    (as_str (pr_operation_id request)) context (portable_events request batch)
    ((λ c, portable_checkpoint c batch context) <$> cb_checkpoint batch).

(** ** Errors *)

Definition workspace_error_text (io_text : io_error → string) (e : WorkspaceError) : string :=
  match e with
  | WsUnsafeReference => "project reference is not a safe relative path"
  | WsEscape => "project reference escapes its configured root"
  | WsSymlinkDenied => "symbolic links and reparse-like aliases are denied"
  | WsRootChanged => "configured project root changed identity"
  | WsNotDirectory => "configured project root is not a directory"
  | WsCaseAliasDenied => "project reference casing does not match the opened directory entry"
  | WsInvalidGitFacts => "descriptive Git metadata is malformed"
  | WsFileTooLarge => "project file exceeds its bounded size"
  | WsNative text => "native filesystem guarantee failed: " +:+ text
  | WsDurableWriteUnavailable => "portable workspace is read-only because native durability is unavailable"
  | WsIo k => io_text k
  end.
Definition portable_error_text (io_text : io_error → string) (e : PortableError) : string :=
  match e with
  | PoInvalidNamespace => "portable namespace is invalid"
  | PoInvalidHash => "portable identity is invalid"
  | PoHashCollision => "portable content hash collision"
  | PoCorruptObject => "portable object corruption detected"
  | PoObjectSize => "portable object violates its size bound"
  | PoWorkspace e => workspace_error_text io_text e
  | PoIo k => io_text k
  end.
Definition codec_error_text (json_text : string) (e : CodecError) : string :=
  match e with
  | CxInvalidFraming => "portable records must be exactly LF-terminated canonical JSON"
  | CxNonCanonical => "portable record is not RFC 8785 canonical JSON"
  | CxRecordTooLarge => "portable record exceeds its bounded size"
  | CxSegmentTooLarge => "portable segment exceeds its bounded size"
  | CxEmptySegment => "portable segment must contain one to 64 events"
  | CxTooManyEvents => "portable segment exceeds 64 events"
  | CxOrdinalGap => "portable event ordinals must be contiguous"
  | CxMixedLineage => "portable segment mixes chat or branch lineage"
  | CxInvalidIdentity => "portable identifier or hash is malformed"
  | CxInvalidEventKind => "portable event kind is malformed"
  | CxInvalidSegmentGrammar => "portable segment JSONL grammar is invalid"
  | CxUnsupportedSchema => "portable segment schema is unsupported"
  | CxTrailerMismatch => "portable segment trailer does not authenticate its body"
  | CxInvalidProvenance => "portable frozen snapshot or provenance is malformed"
  | CxInvalidCheckpoint => "portable reducer checkpoint is malformed"
  | CxJson => json_text
  end.
Definition fault_point_text (point : CommitFaultPoint) : string :=
  match point with
  | AfterPrepare => "AfterPrepare"
  | BeforeHeadPublication => "BeforeHeadPublication"
  | AfterHeadPublication => "AfterHeadPublication"
  end.
Definition commit_error_text (io_text : io_error → string) (json_text : string) (e : CommitError) : string :=
  match e with
  | CmInvalidBranch => "branch or commit identifier is invalid"
  | CmEmptyCommit => "portable commits require at least one semantic event"
  | CmHeadConflict expected actual =>
      "expected branch generation " +:+ pretty expected +:+ ", found " +:+ pretty actual
  | CmCommitIdentityConflict => "portable commit ID was reused with different content"
  | CmEventLineage => "portable events do not match branch or contiguous ordinal lineage"
  | CmCheckpointMismatch => "portable checkpoint does not match the prepared transition"
  | CmOrdinalOverflow => "portable ordinal overflow"
  | CmGenerationOverflow => "portable generation overflow"
  | CmExportRejected => "portable export policy rejected the commit"
  | CmInvalidPreparedClaim => "portable prepared claim is missing or was altered"
  | CmVerificationFailed => "portable head reread did not verify"
  | CmPublicationUncertain => "portable publication may have succeeded; verify before retrying"
  | CmInjectedFault point => "portable commit fault injected at " +:+ fault_point_text point
  | CmPoisoned => "portable commit state is unavailable"
  | CmPortable e => portable_error_text io_text e
  | CmWorkspace e => workspace_error_text io_text e
  | CmCodec e => codec_error_text json_text e
  | CmJson => json_text
  | CmIo k => io_text k
  end.
Definition repository_error (io_text : io_error → string) (json_text : string) (error : CommitError) : PortablePortErrorV1 :=
  let uncertain := match error with CmPublicationUncertain => true | _ => false end in
  let retryable := match error with CmPublicationUncertain | CmInjectedFault _ | CmIo _ => true | _ => false end in
  let code := match error with
    | CmHeadConflict _ _ => "portable_head_conflict"
    | CmCommitIdentityConflict => "portable_identity_conflict"
    | CmPublicationUncertain => "portable_publication_uncertain"
    | CmVerificationFailed | CmInvalidPreparedClaim => "portable_verification_failed"
    | CmExportRejected => "portable_export_rejected"
    | _ => "portable_commit_failed"
    end in
  MkPortablePortError code (commit_error_text io_text json_text error) retryable uncertain.

(** ** Operations *)

Section port.
Context `{Sha256, !Serialize json, !Deserialize json}.
Context `{!ToValue PortableCommitContextV1, !ToValue PortableEvent}.
Context `{!ToValue PortableCheckpoint, !FromValue PortableCheckpoint}.
Context `{!ToValue SegmentHeaderV1, !FromValue SegmentHeaderV1}.
Context `{!ToValue SegmentEventV1, !FromValue SegmentEventV1}.
Context `{!ToValue SegmentTrailerV1, !FromValue SegmentTrailerV1}.
Context `{!ToValue PreparedCommit, !FromValue PreparedCommit}.
Context `{!ToValue BranchRef, !FromValue BranchRef}.
Context `{!ToValue ProtocolPreparedClaimV1, !FromValue ProtocolPreparedClaimV1}.
Context `{!FromValue PortableTransitionRecordV1, !FromValue CommitBatchV1, !ToValue CheckpointV1}.

Definition store_value_hash (domain : string) (value : json) : result CodecError string :=
  bs ← canonical_json value; Ok (digest domain bs).

(** The batch of a request, and the context of a rich record. *)
Definition request_batch (request : PortablePrepareV1) :
    result CommitError (CommitBatchV1 * option PortableCommitContextV1) :=
  match from_value (pr_record request) with
  | Some transition =>
      _ ← map_err CmCodec (validate_context (tn_context transition));
      Ok (tn_batch transition, Some (tn_context transition))
  | None => batch ← ok_or (from_value (pr_record request)) CmJson; Ok (batch, None)
  end.
Definition is_portable_backend (b : HistoryBackendV1) : bool :=
  match b with PortableProject _ => true | LocalSqlite => false end.
(** The checks of [prepare_port] on the request alone. *)
Definition check_request (request : PortablePrepareV1) :
    result CommitError (CommitBatchV1 * option PortableCommitContextV1) :=
  record_hash ← map_err CmCodec (store_value_hash "portable-record-v1" (pr_record request));
  _ ← fail_if (negb (bool_decide (record_hash = pr_record_hash request))) CmInvalidPreparedClaim;
  checkpoint_hash ← map_err CmCodec (store_value_hash "portable-checkpoint-v1"
                      (match pr_checkpoint request with Some v => v | None => JNull end));
  _ ← fail_if (negb (bool_decide (checkpoint_hash = pr_checkpoint_hash request))) CmInvalidPreparedClaim;
  '(batch, context) ← request_batch request;
  _ ← fail_if (negb (bool_decide (cb_chat_id batch = pr_chat_id request))
               || negb (bool_decide (cb_branch_id batch = pr_branch_id request))
               || negb (cb_expected_head batch =? pr_expected_next_ordinal request)
               || negb (is_portable_backend (cb_backend batch))
               || is_nil (cb_events batch)) CmEventLineage;
  batch_checkpoint ← match cb_checkpoint batch with
                     | Some c => v ← ok_or (to_value c) CmJson; Ok (Some v)
                     | None => Ok None
                     end;
  _ ← fail_if (negb (opt_json_eqb batch_checkpoint (pr_checkpoint request))) CmCheckpointMismatch;
  Ok (batch, context).

Definition prepare_port (request : PortablePrepareV1) : rp PortablePreparedV1 :=
  '(batch, context) ← lift (check_request request);
  current ← read_branch (as_str (pr_branch_id request));
  _ ← reject_if (negb (rf_generation current =? pr_expected_generation request)
                 || negb (rf_next_ordinal current =? pr_expected_next_ordinal request)
                 || negb (bool_decide (rf_head_segment_hash current = pr_expected_head_hash request)))
        (CmHeadConflict (pr_expected_generation request) (rf_generation current));
  prepared ← repo_prepare_commit (portable_commit request batch context);
  _ ← reject_if (negb (bool_decide (pq_previous_head_hash prepared = pr_expected_head_hash request)))
        CmVerificationFailed;
  reference ← lift (claim_reference (pr_operation_id request));
  bs ← lift (map_err CmCodec (encode_record (MkClaim request prepared)));
  _ ← port CmPortable (publish_relative_immutable reference bs);
  mret (MkPrepared (pr_operation_id request) (pr_operation_id request) (pq_segment_hash prepared)
          (pq_expected_generation prepared)).

Definition load_claim (operation_id : StableId) : rp ProtocolPreparedClaimV1 :=
  reference ← lift (claim_reference operation_id);
  bs ← port CmPortable (read_relative reference 2097152);
  claim ← lift (map_err CmCodec (decode_record bs));
  _ ← reject_if (negb (bool_decide (pr_operation_id (cl_request claim) = operation_id))
                 || negb (bool_decide (pq_commit_id (cl_prepared claim) = as_str operation_id)))
        CmInvalidPreparedClaim;
  mret claim.
Definition receipt_from_claim (claim : ProtocolPreparedClaimV1) : rp PortableCommitReceiptV1 :=
  receipt ← repo_verify_commit (cl_prepared claim);
  let request := cl_request claim in
  mret (MkPortableReceipt (pr_operation_id request) (pr_operation_id request) (pr_branch_id request)
          (ct_previous_head_hash receipt) (ct_head_segment_hash receipt) (ct_generation receipt)
          (pr_checkpoint_hash request)).

Definition publish_port (prepared : PortablePreparedV1) : rp PortableCommitReceiptV1 :=
  _ ← reject_if (negb (bool_decide (pd_commit_id prepared = pd_operation_id prepared))) CmInvalidPreparedClaim;
  claim ← load_claim (pd_operation_id prepared);
  _ ← reject_if (negb (bool_decide (pq_segment_hash (cl_prepared claim) = pd_object_hash prepared))
                 || negb (pq_expected_generation (cl_prepared claim) =? pd_expected_generation prepared)
                 || negb (bool_decide (pr_operation_id (cl_request claim) = pd_operation_id prepared)))
        CmInvalidPreparedClaim;
  _ ← repo_publish_commit (cl_prepared claim);
  receipt_from_claim claim.
Definition verify_port (receipt : PortableCommitReceiptV1) : rp PortableCommitReceiptV1 :=
  _ ← reject_if (negb (bool_decide (rc_commit_id receipt = rc_operation_id receipt))) CmVerificationFailed;
  claim ← load_claim (rc_operation_id receipt);
  verified ← receipt_from_claim claim;
  if bool_decide (verified = receipt) then mret verified else throw CmVerificationFailed.
Definition read_head_port (branch_id : StableId) : rp (option PortableCommitReceiptV1) :=
  branch ← read_branch (as_str branch_id);
  match rf_commit_id branch with
  | None => mret None
  | Some commit_id =>
      operation_id ← lift (map_err (λ _, CmVerificationFailed) (StableId_parse commit_id));
      claim ← load_claim operation_id;
      receipt ← receipt_from_claim claim;
      mret (Some receipt)
  end.

(** [impl PortableCanonicalCommitPort for PortableRepository], the repository
    being a part of the world. *)
Definition repository_port {W} (io_text : io_error → string) (json_text : string) (l : lens W PortableStore) :
    PortableCanonicalCommitPort W :=
  MkPortablePort
    (λ request, call l (repository_error io_text json_text) (prepare_port request))
    (λ prepared, call l (repository_error io_text json_text) (publish_port prepared))
    (λ receipt, call l (repository_error io_text json_text) (verify_port receipt))
    (λ branch_id, call l (repository_error io_text json_text) (read_head_port branch_id)).
End port.
