(* ===== verification/RepositoryProofs.v ===== *)
(** * The portable repository refines the history port

    What the files say ([ref_view], [claim_view], [head_view]) and what every
    operation of the repository does to it, wherever a call of the operating
    system fails: [RepositoryLaws] for the modelled repository. *)
From S2P Require Export Repository ObjectStoreProofs.

(** ** Paths *)

Lemma json_not_temp a b : ¬ is_temp (a +:+ b +:+ ".json").
Proof. unfold is_temp. rewrite (str_last_app _ _ "n"%char); [done|]. by apply str_last_app. Qed.
Lemma ref_not_temp b : ¬ is_temp (ref_path b).
Proof. apply json_not_temp. Qed.
Lemma claim_not_temp op : ¬ is_temp (claim_path op).
Proof. apply json_not_temp. Qed.
Lemma ref_not_object b : ¬ is_object_path (ref_path b).
Proof.
  intros [(ns & hex & Hns & Heq)|Heq]; [|discriminate Heq]. unfold NAMESPACES in Hns.
  repeat (apply elem_of_cons in Hns as [->|Hns]; [discriminate Heq|]). by apply not_elem_of_nil in Hns.
Qed.
Lemma claim_not_object op : ¬ is_object_path (claim_path op).
Proof.
  intros [(ns & hex & Hns & Heq)|Heq]; [|discriminate Heq]. unfold NAMESPACES in Hns.
  repeat (apply elem_of_cons in Hns as [->|Hns]; [discriminate Heq|]). by apply not_elem_of_nil in Hns.
Qed.
Lemma ref_claim b op : ref_path b ≠ claim_path op.
Proof. discriminate. Qed.
Lemma str_app_inj_l (p a b : string) : p +:+ a = p +:+ b → a = b.
Proof. induction p as [|c p IH]; [done|]. intros [= ?]. auto. Qed.
Lemma str_app_inj_r (a b q : string) : a +:+ q = b +:+ q → a = b.
Proof.
  revert b. induction a as [|c a IH]; intros [|d b] Heq; [done| | |].
  1,2: apply (f_equal String.length) in Heq; rewrite !str_length_app in Heq; simpl in Heq; lia.
  injection Heq as -> Heq. by rewrite (IH _ Heq).
Qed.
Lemma ref_path_inj a b : ref_path a = ref_path b → a = b.
Proof. intros H%str_app_inj_l. by apply str_app_inj_r in H. Qed.
Lemma claim_path_inj a b : claim_path a = claim_path b → a = b.
Proof. intros H%str_app_inj_l. apply str_app_inj_r in H. by apply as_str_inj. Qed.

(** A branch reference of short fields fits the bound it is read with. *)
Definition short_ref (b : BranchRef) : Prop :=
  Forall (λ s, str_len s <= 128)
    (rf_branch_id b :: option_list (rf_head_segment_hash b) ++ option_list (rf_checkpoint_hash b)
     ++ option_list (rf_commit_id b) ++ option_list (rf_commit_request_hash b)).
Class BoundedRefs `{!Serialize json, !ToValue BranchRef} : Prop :=
  ref_bytes : ∀ b v bs, short_ref b → to_value b = Some v → jcs_to_vec v = Some bs → len bs <= 65536.

(** Claims that are the same up to the spelling of the JSON values of the
    request; a checkpoint [null] is read as none. *)
Definition claim_same `{!Serialize json} (c c' : ProtocolPreparedClaimV1) : Prop :=
  let q := cl_request c in
  let q' := cl_request c' in
  cl_prepared c' = cl_prepared c
  ∧ json_same (pr_record q) (pr_record q')
  ∧ json_same (default JNull (pr_checkpoint q)) (default JNull (pr_checkpoint q'))
  ∧ q' = MkPrepare (pr_operation_id q) (pr_chat_id q) (pr_branch_id q) (pr_expected_generation q)
           (pr_expected_next_ordinal q) (pr_expected_head_hash q) (pr_record q') (pr_record_hash q)
           (pr_checkpoint q') (pr_checkpoint_hash q).

Section refinement.
Context `{Sha256, !Sha256Laws, !Serialize json, !Deserialize json}.
Context `{!ToValue PortableCommitContextV1, !ToValue PortableEvent}.
Context `{!ToValue PortableCheckpoint, !FromValue PortableCheckpoint}.
Context `{!ToValue SegmentHeaderV1, !FromValue SegmentHeaderV1}.
Context `{!ToValue SegmentEventV1, !FromValue SegmentEventV1}.
Context `{!ToValue SegmentTrailerV1, !FromValue SegmentTrailerV1}.
Context `{!ToValue PreparedCommit, !FromValue PreparedCommit}.
Context `{!ToValue BranchRef, !FromValue BranchRef, !PlainRecord BranchRef, !BoundedRefs}.
Context `{!ToValue ProtocolPreparedClaimV1, !FromValue ProtocolPreparedClaimV1}.
Context `{!JsonRecord ProtocolPreparedClaimV1 claim_same}.
Context `{!FromValue PortableTransitionRecordV1, !FromValue CommitBatchV1, !ToValue CheckpointV1}.
Implicit Types (f : files) (b op : StableId) (claim : ProtocolPreparedClaimV1).

(** ** What the files say *)

Definition ok_option {E A} (r : result E A) : option A := match r with Ok a => Some a | Err _ => None end.

Definition ref_view f (branch_id : string) : option BranchRef :=
  match f !! ref_path branch_id with
  | Some bs => if len bs <=? 65536 then ok_option (branch_of_bytes branch_id bs) else None
  | None => Some (empty_branch branch_id)
  end.
Definition claim_answers claim op : bool :=
  bool_decide (pr_operation_id (cl_request claim) = op)
  && bool_decide (pq_commit_id (cl_prepared claim) = as_str op).
Definition claim_view f op : option ProtocolPreparedClaimV1 :=
  match f !! claim_path op with
  | Some bs =>
      match decode_record bs with
      | Ok claim => if (len bs <=? 2097152) && claim_answers claim op then Some claim else None
      | Err _ => None
      end
  | None => None
  end.
(** The receipt of the publication a branch reference points to. *)
Definition head_receipt claim (branch : BranchRef) : option PortableCommitReceiptV1 :=
  let request := cl_request claim in
  head ← rf_head_segment_hash branch;
  Some (MkPortableReceipt (pr_operation_id request) (pr_operation_id request) (pr_branch_id request)
          (pq_previous_head_hash (cl_prepared claim)) head (rf_generation branch) (pr_checkpoint_hash request)).
Definition head_view f b : option PortableCommitReceiptV1 :=
  branch ← ref_view f (as_str b);
  commit_id ← rf_commit_id branch;
  op ← parse_opt commit_id;
  claim ← claim_view f op;
  head_receipt claim branch.

(** What [prepare] records. *)
Definition claim_ok claim : Prop :=
  as_str (pr_branch_id (cl_request claim)) = pq_branch_id (cl_prepared claim)
  ∧ codec_valid_hash (pq_request_hash (cl_prepared claim)) = true
  ∧ pq_next_ordinal (cl_prepared claim) ≠ 0.
(** The claims were recorded by [prepare], and a branch reference names the
    claim it was published from. *)
Record files_ok f : Prop := {
  fo_claims : ∀ op claim, claim_view f op = Some claim → claim_ok claim;
  fo_refs : ∀ b branch commit_id,
    ref_view f (as_str b) = Some branch → rf_commit_id branch = Some commit_id →
    ∃ op claim, parse_opt commit_id = Some op ∧ claim_view f op = Some claim
                ∧ pq_branch_id (cl_prepared claim) = as_str b
}.

Lemma ref_view_valid f s branch :
  ref_view f s = Some branch → validate_branch_ref branch s = Ok () ∨ branch = empty_branch s.
Proof.
  unfold ref_view. destruct (f !! ref_path s) as [bs|]; [|intros [= <-]; by right].
  destruct (len bs <=? 65536); [|done]. destruct (branch_of_bytes s bs) as [x|] eqn:E; [|done].
  intros [= ->]. left. unfold branch_of_bytes in E. res_inv E.
  match goal with Hv : validate_branch_ref _ _ = Ok ?u |- _ => by destruct u end.
Qed.
(** A reference at generation 0 is empty; a later one names a commit, a head
    and an ordinal. *)
Lemma ref_view_shape f s branch :
  ref_view f s = Some branch →
  rf_branch_id branch = s
  ∧ (rf_generation branch = 0 ∧ rf_commit_id branch = None
     ∨ rf_next_ordinal branch ≠ 0 ∧ (∃ c, rf_commit_id branch = Some c) ∧ ∃ h, rf_head_segment_hash branch = Some h).
Proof.
  intros [Hv| ->]%ref_view_valid; [|by auto]. unfold validate_branch_ref in Hv.
  apply fail_if_ok in Hv. destruct branch as [id hd ck no gen c rq]; simpl in *. boolify.
  split; [done|]. destruct (N.eqb_spec gen 0) as [->|Hne].
  - simpl in *. left. split; [done|]. boolify. by destruct c.
  - right. assert (0 <? gen = true) as Hlt by (apply N.ltb_lt; lia). rewrite Hlt in *. simpl in *. boolify.
    destruct c, hd; simpl in *; try done. eauto.
Qed.

(** *** Reading *)

Lemma read_branch_silent s : silent (read_branch s).
Proof. unfold read_branch, read_relative. silence. Qed.
Lemma read_branch_reads P s :
  reads P (read_branch s) (λ branch f, ref_view f s = Some branch ∧ valid_name s = true) (λ _ _, True).
Proof.
  unfold read_branch. eapply (reads_bind _ _ _ (λ _ _, valid_name s = true)).
  { apply reads_lift; [|done]. intros u f _. unfold commit_validate_id. by destruct (valid_name s). }
  intros ?. eapply (reads_bind _ _ _ (λ reference _, reference = ref_path s)).
  { apply reads_lift; [|done]. unfold ref_reference. intros p f _ Hp. res_inv Hp.
    destruct (ProjectReference_parse _) as [q|] eqn:Eq; [|done]. apply ProjectReference_parse_ok in Eq. naive_solver. }
  intros reference. eapply (reads_bind _ _ _ (λ r f,
    match r with
    | Ok bs => f !! reference = Some bs ∧ len bs <= 65536
    | Err e => e = PoWorkspace (WsIo IoNotFound) → f !! reference = None
    end)).
  { apply reads_port_result, reads_port. eapply reads_weaken; [apply (read_bounded_reads (λ _, True))|done|intros bs f _ Hb; exact Hb|].
    intros e f _ He [= ->]. by apply He. }
  intros [bs|e].
  - apply reads_lift; [|done]. intros branch f Hf Hb. destruct Hf as [[[_ Hn] ->] [Hbs Hlen]].
    split; [|done]. unfold ref_view. rewrite Hbs, (proj2 (N.leb_le _ _) Hlen), Hb. done.
  - destruct e as [| | | | |[| | | | | | | | | |[| |text]]|]; try (by apply reads_throw).
    apply reads_ret. intros f [[[_ Hn] ->] Hnone]. split; [|done]. unfold ref_view. by rewrite Hnone.
Qed.
Lemma load_claim_reads P op : reads P (load_claim op) (λ claim f, claim_view f op = Some claim) (λ _ _, True).
Proof.
  unfold load_claim. eapply (reads_bind _ _ _ (λ reference _, reference = claim_path op)).
  { apply reads_lift; [|done]. unfold claim_reference. intros p f _ Hp.
    destruct (ProjectReference_parse _) as [q|] eqn:Eq; [|done]. apply ProjectReference_parse_ok in Eq. naive_solver. }
  intros reference. eapply (reads_bind _ _ _ (λ bs f, f !! reference = Some bs ∧ len bs <= 2097152)).
  { do 2 apply reads_port. eapply reads_weaken; [apply (read_bounded_reads (λ _, True))|done|intros bs f _ Hb; exact Hb|done]. }
  intros bs. eapply (reads_bind _ _ _ (λ claim _, decode_record bs = Ok claim)).
  { apply reads_lift; [|done]. intros claim f _ Hd. by destruct (decode_record bs); simplify_eq/=. }
  intros claim. eapply (reads_bind _ _ _ (λ _ _, claim_answers claim op = true)).
  { apply reads_reject; [|done]. intros f _ E. unfold claim_answers. boolify.
    by rewrite !bool_decide_true. }
  intros ?. apply reads_ret. intros f [[[[_ ->] [Hbs Hlen]] Hd] Ha].
  unfold claim_view. by rewrite Hbs, Hd, (proj2 (N.leb_le _ _) Hlen), Ha.
Qed.

Lemma load_claim_silent op : silent (load_claim op).
Proof. exact (reads_silent _ _ _ (load_claim_reads _ op)). Qed.
Lemma read_segment_silent h : silent (read_segment h).
Proof. unfold read_segment, read_object. silence. Qed.
Lemma check_checkpoint_silent o : silent (check_checkpoint o).
Proof. unfold check_checkpoint, read_checkpoint_validated, read_object. silence. Qed.
Lemma check_artifacts_silent l : silent (check_artifacts l).
Proof. induction l as [|d l IH]; simpl; [auto with silent|]. unfold read_verified, artifact_read. silence. Qed.
#[local] Hint Resolve read_branch_silent load_claim_silent read_segment_silent check_checkpoint_silent
  check_artifacts_silent : silent.
Lemma walk_lineage_silent fuel : ∀ cursor end_ seen, silent (walk_lineage fuel cursor end_ seen).
Proof. induction fuel as [|fuel IH]; intros *; simpl; [auto with silent|]. silence. Qed.
Lemma validate_current_lineage_silent branch : silent (validate_current_lineage branch).
Proof.
  unfold validate_current_lineage. case_match; [|auto with silent].
  apply silent_bind; [apply walk_lineage_silent|]. intros seen. silence.
Qed.
Lemma validate_prepared_silent p : silent (validate_prepared p).
Proof. unfold validate_prepared, read_object. silence. Qed.
#[local] Hint Resolve validate_current_lineage_silent validate_prepared_silent : silent.
Lemma fault_if_silent point : silent (fault_if point).
Proof. unfold fault_if. intros s s' r. case_bool_decide; by intros [= <- <-]. Qed.
#[local] Hint Resolve fault_if_silent : silent.
Lemma verify_commit_silent p : silent (repo_verify_commit p).
Proof. unfold repo_verify_commit. silence. Qed.
#[local] Hint Resolve verify_commit_silent : silent.
Lemma receipt_from_claim_silent claim : silent (receipt_from_claim claim).
Proof. unfold receipt_from_claim. silence. Qed.

(** *** Preparing *)

Lemma publish_record_grows {T} `{!ToValue T} ns (x : T) : only_grows (publish_record ns x).
Proof.
  unfold publish_record. apply only_grows_bind; [apply silent_grows; auto with silent|]. intros bs.
  apply only_grows_port, store_publish_grows.
Qed.
Lemma publish_claim_grows p : only_grows (publish_claim p).
Proof.
  unfold publish_claim. apply only_grows_bind; [apply publish_record_grows|]. intros h.
  apply silent_grows. auto with silent.
Qed.
Lemma prepare_commit_grows commit : only_grows (repo_prepare_commit commit).
Proof.
  unfold repo_prepare_commit.
  repeat first [apply silent_grows; solve [auto with silent] | apply publish_claim_grows
    | apply publish_record_grows | apply only_grows_port, store_publish_grows
    | apply only_grows_bind; [|intros ?] | case_match].
Qed.

Lemma sanitize_from_length i events sanitized omissions :
  sanitize_from i events = Ok (sanitized, omissions) → length sanitized = length events.
Proof.
  revert i sanitized omissions. induction events as [|e events IH]; intros i sanitized omissions Hs.
  - by injection Hs as <- <-.
  - simpl in Hs. destruct (map_err _ _) as [x|]; [|done]. simpl in Hs.
    destruct (sanitize_from (i + 1) events) as [[l o]|] eqn:E; [|done]. injection Hs as <- <-.
    simpl. by rewrite (IH _ _ _ E).
Qed.
Lemma hash_request_valid commit sanitized context h :
  hash_request commit sanitized context = Ok h → codec_valid_hash h = true.
Proof.
  unfold hash_request. intros Hh. res_inv Hh. unfold codec_valid_hash.
  rewrite (proj2 (strip_prefix_Some "sha256:" _ _) eq_refl), sha256_hex_digits, andb_true_r. unfold str_len. by rewrite sha256_hex_len.
Qed.
Lemma publish_claim_ok p s s' q : publish_claim p s = (s', Ok q) → ∃ h, q = with_claim_hash p h.
Proof. unfold publish_claim. intros Hr. run_inv Hr. eauto. Qed.
(** What [prepare] answers. *)
Lemma prepare_commit_ok commit s s' prepared :
  repo_prepare_commit commit s = (s', Ok prepared) →
  pq_branch_id prepared = pm_branch_id commit ∧ pq_commit_id prepared = pm_commit_id commit
  ∧ codec_valid_hash (pq_request_hash prepared) = true ∧ pq_next_ordinal prepared ≠ 0.
Proof.
  unfold repo_prepare_commit. intros Hr. run_inv Hr. destruct x3 as [sanitized omissions].
  assert (length sanitized ≠ O) as Hlen.
  { unfold sanitize_events in Hr3. rewrite (sanitize_from_length _ _ _ _ Hr3). by destruct (pm_events commit). }
  run_inv Hr. rename x6 into current.
  match goal with Hh : hash_request _ _ _ = _ |- _ => apply hash_request_valid in Hh as Hvalid end.
  match goal with Hb : read_branch _ _ = _ |- _ =>
    destruct (read_branch_reads (λ _, True) _ _ _ _ I Hb) as [_ [Hview _]] end.
  apply ref_view_shape in Hview as [_ Hshape].
  case_bool_decide; run_inv Hr;
    match goal with Hc : publish_claim _ _ = _ |- _ => apply publish_claim_ok in Hc as [h ->] end; simpl;
    (split_and!; [done..|]).
  - destruct Hshape as [[_ Hnone]|[Hne _]]; [congruence|done].
  - match goal with Hn : checked_add _ _ _ = Some _ |- _ => unfold checked_add in Hn; simpl in Hn end.
    case_match; [|done]. simplify_eq/=. unfold len. lia.
Qed.

(** ** Files that grow *)

Lemma grow_ref f f' s : objects_grow f f' → ref_view f' s = ref_view f s.
Proof.
  intros Hg. unfold ref_view. destruct (Hg (ref_path s) (ref_not_temp s)) as [->|[_ Ho]]; [done|].
  by apply ref_not_object in Ho.
Qed.
Lemma grow_claim f f' op : objects_grow f f' → claim_view f' op = claim_view f op.
Proof.
  intros Hg. unfold claim_view. destruct (Hg (claim_path op) (claim_not_temp op)) as [->|[_ Ho]]; [done|].
  by apply claim_not_object in Ho.
Qed.
Lemma head_view_ext f f' b :
  ref_view f' (as_str b) = ref_view f (as_str b) → (∀ op, claim_view f' op = claim_view f op) →
  head_view f' b = head_view f b.
Proof.
  intros Hr Hc. unfold head_view. rewrite Hr. destruct (ref_view f _) as [branch|]; [|done]. simpl.
  destruct (rf_commit_id branch) as [c|]; [|done]. simpl. destruct (parse_opt c) as [op|]; [|done]. simpl.
  by rewrite Hc.
Qed.
Lemma grow_ok f f' :
  objects_grow f f' → files_ok f → files_ok f' ∧ ∀ b, head_view f' b = head_view f b.
Proof.
  intros Hg [Hc Hr]. split.
  - split.
    + intros op claim. rewrite (grow_claim f f') by done. apply Hc.
    + intros b branch c. rewrite (grow_ref f f') by done. intros Hb Hcm.
      destruct (Hr b branch c Hb Hcm) as (op & claim & ? & ? & ?). exists op, claim.
      by rewrite (grow_claim f f').
  - intros b. apply head_view_ext; [by apply grow_ref|]. intros op. by apply grow_claim.
Qed.

(** A new claim, recorded by [prepare]: it may not decode. *)
Lemma claim_insert_ok f f' op bs :
  inserted (claim_path op) bs f f' → (∀ claim, decode_record bs = Ok claim → claim_ok claim) →
  files_ok f → files_ok f' ∧ ∀ b, head_view f' b = head_view f b.
Proof.
  intros Hins Hgood [Hc Hr].
  assert (∀ s, ref_view f' s = ref_view f s) as Href.
  { intros s. unfold ref_view. destruct (Hins (ref_path s) (ref_not_temp s)) as [->|[Heq _]]; [done|].
    by apply ref_claim in Heq. }
  assert (∀ op' c, claim_view f op' = Some c → claim_view f' op' = Some c) as Hkeep.
  { intros op' c. unfold claim_view. destruct (Hins (claim_path op') (claim_not_temp op')) as [->|(Heq & Hn & _)]; [done|].
    apply claim_path_inj in Heq as ->. by rewrite Hn. }
  assert (∀ op' c, claim_view f' op' = Some c → claim_ok c) as Hclaims.
  { intros op' c. unfold claim_view at 1.
    destruct (Hins (claim_path op') (claim_not_temp op')) as [->|(Heq & _ & Hnew)]; [apply Hc|].
    rewrite Heq, Hnew. destruct (decode_record bs) as [claim|] eqn:Hd; [|done]. case_match; [|done].
    intros [= <-]. by apply Hgood. }
  assert (∀ b branch c, ref_view f (as_str b) = Some branch → rf_commit_id branch = Some c →
    ∃ op' cl, parse_opt c = Some op' ∧ claim_view f op' = Some cl ∧ claim_view f' op' = Some cl
              ∧ pq_branch_id (cl_prepared cl) = as_str b) as Hrefs.
  { intros b branch c Hb Hcm. destruct (Hr b branch c Hb Hcm) as (op' & cl & ? & ? & ?). eauto 10. }
  split.
  - split; [done|]. intros b branch c. rewrite Href. intros Hb Hcm.
    destruct (Hrefs b branch c Hb Hcm) as (op' & cl & ? & ? & ? & ?). eauto.
  - intros b. unfold head_view. rewrite Href. destruct (ref_view f (as_str b)) as [branch|] eqn:Eb; [|done]. simpl.
    destruct (rf_commit_id branch) as [c|] eqn:Ec; [|done]. simpl.
    destruct (Hrefs b branch c Eb Ec) as (op' & cl & -> & H1' & H2' & _). simpl. by rewrite H1', H2'.
Qed.

Lemma publish_relative_run k bs s s' r :
  ¬ is_temp k → publish_relative_immutable k bs s = (s', r) → inserted k bs (fs_files s) (fs_files s').
Proof.
  intros Hk. unfold publish_relative_immutable, mbind, stm_bind, reject_if.
  destruct (fail_if _ _) as [[]|]; [|intros [= <- <-]; apply inserted_refl]. intros Hr.
  pose proof (insert_immutable_hoare "named" k bs (fs_files s) Hk _ _ _ eq_refl Hr) as Hi.
  destruct r; naive_solver.
Qed.

(** What an operation of the port does to the heads. *)
Definition same_view s s' : Prop :=
  files_ok (fs_files s') ∧ ∀ b, head_view (fs_files s') b = head_view (fs_files s) b.
Lemma claim_ok_same c c' : claim_same c c' → claim_ok c → claim_ok c'.
Proof. unfold claim_ok. intros (-> & _ & _ & ->). done. Qed.
(** What [prepare] does to the files: objects appear, then possibly its
    claim. *)
Lemma prepare_port_files q s s' r :
  prepare_port q s = (s', r) →
  ∃ f1, objects_grow (fs_files s) f1
    ∧ (fs_files s' = f1
       ∨ ∃ bs, (∀ claim, decode_record bs = Ok claim → claim_ok claim)
               ∧ inserted (claim_path (pr_operation_id q)) bs f1 (fs_files s')).
Proof.
  unfold prepare_port. unfold mbind at 1, stm_bind at 1, lift at 1.
  destruct (check_request q) as [[batch context]|]; [|intros [= <- <-]; eauto using objects_grow_refl].
  unfold mbind at 1, stm_bind at 1.
  destruct (read_branch _ s) as [s1 [current|e]] eqn:E1;
    apply read_branch_silent in E1; rewrite <- E1; [|intros [= <- <-]; eauto using objects_grow_refl].
  unfold mbind at 1, stm_bind at 1, reject_if at 1.
  destruct (fail_if _ _) as [[]|]; [|intros [= <- <-]; eauto using objects_grow_refl].
  unfold mbind at 1, stm_bind at 1.
  destruct (repo_prepare_commit _ s1) as [s2 r2] eqn:E2.
  pose proof (prepare_commit_grows _ _ _ _ E2) as Hg. intros Hr. exists (fs_files s2). split; [done|]. revert Hr.
  destruct r2 as [prepared|e]; [|intros [= <- <-]; by left].
  apply prepare_commit_ok in E2 as (Hb & _ & Hv & Hn).
  unfold mbind at 1, stm_bind at 1, reject_if at 1. destruct (fail_if _ _) as [[]|]; [|intros [= <- <-]; by left].
  unfold mbind at 1, stm_bind at 1, lift at 1.
  destruct (claim_reference _) as [reference|] eqn:Eref; [|intros [= <- <-]; by left].
  assert (reference = claim_path (pr_operation_id q)) as ->.
  { unfold claim_reference in Eref. destruct (ProjectReference_parse _) as [x|] eqn:Ex; [|done].
    apply ProjectReference_parse_ok in Ex. naive_solver. }
  unfold mbind at 1, stm_bind at 1, lift at 1.
  destruct (encode_record _) as [bs|] eqn:Eenc; [|intros [= <- <-]; by left].
  simpl. unfold mbind, stm_bind. destruct (port _ _ s2) as [s3 r3] eqn:E3.
  apply port_run in E3 as (r0 & E3 & ->). apply publish_relative_run in E3; [|apply claim_not_temp]. intros Hr.
  assert (s' = s3) as -> by (destruct r0; simpl in Hr; unfold mret, stm_ret in Hr; congruence).
  right. exists bs. split; [|done]. intros claim Hd. destruct (decode_same _ _ _ Eenc Hd) as [Hsame _].
  apply (claim_ok_same _ _ Hsame). split_and!; simpl; [by rewrite Hb|done..].
Qed.
Lemma prepare_port_run q s s' r :
  files_ok (fs_files s) → prepare_port q s = (s', r) → same_view s s'.
Proof.
  intros Hok (f1 & Hg & Hf)%prepare_port_files. unfold same_view. destruct (grow_ok _ _ Hg Hok) as [Hok1 Hh1].
  destruct Hf as [->|(bs & Hc & Hins)]; [done|].
  destruct (claim_insert_ok _ _ _ _ Hins Hc Hok1) as [Hok2 Hh2]. split; [done|]. intros b. by rewrite Hh2, Hh1.
Qed.

(** *** Publishing *)

(** Everything but temporary files is as it was. *)
Definition agree f f' : Prop := ∀ x, ¬ is_temp x → f' !! x = f !! x.
Lemma agree_grow f f' : agree f f' → objects_grow f f'.
Proof. intros Ha x Hx. left. by apply Ha. Qed.
(** Reference [s] was given content [bs]. *)
Definition ref_written s bs f f' : Prop :=
  f' !! ref_path s = Some bs ∧ ∀ x, ¬ is_temp x → x ≠ ref_path s → f' !! x = f !! x.

Lemma next_ref_silent : silent next_ref_sequence.
Proof. by intros s s' r [= <- <-]. Qed.
Lemma write_ref_run branch s s' r :
  write_ref branch s = (s', r) →
  agree (fs_files s) (fs_files s') ∧ is_ok r = false
  ∨ ∃ v bs, to_value branch = Some v ∧ jcs_to_vec v = Some bs
            ∧ ref_written (rf_branch_id branch) bs (fs_files s) (fs_files s').
Proof.
  intros Hr. unfold write_ref in Hr.
  enough (hoare (λ f, f = fs_files s) (write_ref branch)
    (λ _ f, ∃ v bs, to_value branch = Some v ∧ jcs_to_vec v = Some bs
                    ∧ ref_written (rf_branch_id branch) bs (fs_files s) f)
    (λ _ f, agree (fs_files s) f
            ∨ ∃ v bs, to_value branch = Some v ∧ jcs_to_vec v = Some bs
                      ∧ ref_written (rf_branch_id branch) bs (fs_files s) f)) as Hh.
  { specialize (Hh _ _ _ eq_refl Hr). destruct r as [u|e]; [by right|]. destruct Hh as [?|?]; [by left|by right]. }
  generalize (fs_files s). clear. intros f0.
  assert (∀ A (m : rp A) (R : files → Prop), silent m →
    hoare (λ f, f = f0) m (λ _ f, f = f0) (λ _ f, agree f0 f ∨ R f)) as Hs.
  { intros A m R Hm. apply silent_hoare; [done|]. intros _ f ->. by left. }
  unfold write_ref.
  eapply (hoare_bind _ _ _ (λ target f, f = f0 ∧ target = ref_path (rf_branch_id branch))).
  { apply hoare_lift; [|intros f e ->; by left]. intros f target -> Ht. split; [done|].
    unfold ref_reference in Ht. res_inv Ht. destruct (ProjectReference_parse _) as [x0|] eqn:Ex; [|done].
    apply ProjectReference_parse_ok in Ex. naive_solver. }
  intros target. apply hoare_pure. intros ->.
  do 4 (eapply hoare_bind; [apply Hs; first [apply next_ref_silent | unfold create_dir_all; silence]|]; intros ?).
  eapply (hoare_bind _ _ _ (λ t f, f = f0 ∧ is_temp t)).
  { apply hoare_lift; [|intros f e ->; by left]. intros f t -> Ht. split; [done|].
    destruct (ProjectReference_parse _) as [x0|] eqn:Ex; [|done].
    apply ProjectReference_parse_ok in Ex. simplify_eq/=. apply temp_name_is_temp. }
  intros t. apply hoare_pure. intros Ht.
  eapply (hoare_bind _ _ _ (λ v f, f = f0 ∧ to_value branch = Some v)).
  { apply hoare_lift; [|intros f e ->; by left]. intros f v -> Hv. by apply ok_or_ok in Hv. }
  intros v. apply hoare_pure. intros Hv.
  eapply (hoare_bind _ _ _ (λ bs f, f = f0 ∧ jcs_to_vec v = Some bs)).
  { apply hoare_lift; [|intros f e ->; by left]. intros f bs -> Hb. unfold canonical_json in Hb.
    destruct (jcs_to_vec v); simpl in Hb; by simplify_eq. }
  intros bs. apply hoare_pure. intros Hb.
  assert (t ≠ ref_path (rf_branch_id branch)) as Hne by (intros ->; by apply ref_not_temp in Ht).
  assert (∀ f, placed t (ref_path (rf_branch_id branch)) bs f0 f → ref_written (rf_branch_id branch) bs f0 f) as Hp.
  { intros f [Hk Hx]. split; [done|]. intros x Hnt Hxr. apply Hx; [by intros ->|done]. }
  apply hoare_port, hoare_port. eapply hoare_conseq;
    [apply (replace_atomically_hoare t (ref_path (rf_branch_id branch)) bs f0 Hne)|done|..].
  - intros ? f Hpl. exists v, bs. auto.
  - intros ? f [Hbe|Hpl]; [left|right; exists v, bs; auto]. intros x Hx. apply Hbe. by intros ->.
Qed.

Definition prepared_ok (p : PreparedCommit) : Prop :=
  valid_name (pq_branch_id p) = true ∧ valid_name (pq_commit_id p) = true
  ∧ codec_valid_hash (pq_segment_hash p) = true
  ∧ is_some_and (pq_checkpoint_hash p) (λ h, negb (codec_valid_hash h)) = false.
Lemma read_object_valid ns h s s' bs : read_object ns h s = (s', Ok bs) → codec_valid_hash h = true.
Proof. unfold read_object. intros Hr%port_ok. by apply store_read_run in Hr as (_ & ? & _). Qed.
Lemma validate_prepared_ok p s s' u : validate_prepared p s = (s', Ok u) → prepared_ok p.
Proof.
  unfold validate_prepared. intros Hr. run_inv Hr. unfold commit_validate_id in *.
  destruct (valid_name (pq_branch_id p)) eqn:E1, (valid_name (pq_commit_id p)) eqn:E2; try done.
  split_and!; [done..| |].
  - match goal with Hs : read_segment _ _ = _ |- _ => unfold read_segment in Hs; run_inv Hs end.
    by eapply read_object_valid.
  - destruct (pq_checkpoint_hash p) as [h|]; [|done]. simpl in *.
    unfold read_checkpoint_validated in Hr. run_inv Hr. apply negb_false_iff. by eapply read_object_valid.
Qed.

(** The reference [publish_locked] writes. *)
Definition next_ref (p : PreparedCommit) (generation : N) : BranchRef :=
  MkBranchRef (pq_branch_id p) (Some (pq_segment_hash p)) (pq_checkpoint_hash p) (pq_next_ordinal p)
    generation (Some (pq_commit_id p)) (Some (pq_request_hash p)).
Lemma publish_locked_run p s s' r :
  publish_locked p s = (s', r) →
  agree (fs_files s) (fs_files s')
  ∨ ∃ current v bs, ref_view (fs_files s) (pq_branch_id p) = Some current
      ∧ to_value (next_ref p (rf_generation current + 1)) = Some v ∧ jcs_to_vec v = Some bs
      ∧ ref_written (pq_branch_id p) bs (fs_files s) (fs_files s').
Proof.
  unfold publish_locked. unfold mbind at 1, stm_bind at 1.
  destruct (read_branch _ s) as [s1 r1] eqn:E1. pose proof (read_branch_silent _ _ _ _ E1) as Hf.
  destruct r1 as [current|e]; [|intros [= <- <-]; left; intros x _; by rewrite Hf].
  destruct (read_branch_reads (λ _, True) _ _ _ _ I E1) as [_ [Hview _]].
  rewrite <- Hf. case_bool_decide.
  { intros Hr. left. intros x _. revert Hr.
    match goal with |- ?m s1 = _ → _ => assert (silent m) as Hs by silence end.
    intros Hr. by rewrite (Hs _ _ _ Hr). }
  unfold mbind at 1, stm_bind at 1, reject_if at 1. destruct (fail_if _ _) as [[]|]; [|intros [= <- <-]; by left].
  unfold mbind at 1, stm_bind at 1. destruct (fault_if _ s1) as [s2 r2] eqn:E2.
  pose proof (fault_if_silent _ _ _ _ E2) as Hf2.
  destruct r2 as [u|e]; [|intros [= <- <-]; left; intros x _; by rewrite Hf2].
  unfold mbind at 1, stm_bind at 1, lift at 1. unfold checked_add.
  destruct (_ <=? u64_max); simpl; [|intros [= <- <-]; left; intros x _; by rewrite Hf2].
  rewrite <- Hf2. change (MkBranchRef _ _ _ _ _ _ _) with (next_ref p (rf_generation current + 1)).
  unfold mbind, stm_bind. destruct (write_ref _ s2) as [s3 r3] eqn:E3. apply write_ref_run in E3. intros Hr.
  assert (s' = s3) as -> by (destruct r3; unfold lift in Hr; simpl in Hr; congruence).
  destruct E3 as [[? _]|(v & bs & ? & ? & ?)]; [by left|]. right. exists current, v, bs.
  rewrite <- Hf, <- Hf2 in Hview. by rewrite Hview.
Qed.

Lemma valid_hash_len h : codec_valid_hash h = true → str_len h <= 128.
Proof.
  unfold codec_valid_hash. destruct (strip_prefix "sha256:" h) as [x|] eqn:E; [|done].
  apply strip_prefix_Some in E as ->. intros [Hl _]%andb_true_iff. apply N.eqb_eq in Hl.
  unfold str_len in *. rewrite str_length_app. simpl. lia.
Qed.
Lemma next_ref_readable p generation v bs :
  prepared_ok p → codec_valid_hash (pq_request_hash p) = true → pq_next_ordinal p ≠ 0 → generation ≠ 0 →
  to_value (next_ref p generation) = Some v → jcs_to_vec v = Some bs →
  len bs <= 65536 ∧ branch_of_bytes (pq_branch_id p) bs = Ok (next_ref p generation).
Proof.
  intros (Hb & Hc & Hs & Hk) Hq Hn Hg Hv Hbs. split.
  - eapply ref_bytes; [|done..]. unfold short_ref, next_ref; simpl.
    assert (∀ x, valid_name x = true → str_len x <= 128) as Hname.
    { intros x. unfold valid_name. intros Hx. boolify. done. }
    repeat apply Forall_cons_2; auto using valid_hash_len, Forall_nil_2.
    destruct (pq_checkpoint_hash p) as [h|]; simpl in *; repeat apply Forall_cons_2;
      auto using valid_hash_len, Forall_nil_2. boolify. by apply valid_hash_len.
  - destruct (plain_record _ _ _ Hv Hbs) as (_ & _ & _ & v' & Hp & Hj & Hval).
    unfold branch_of_bytes, canonical_json. rewrite Hp. simpl. rewrite Hj. simpl.
    rewrite bool_decide_true by done. simpl. rewrite Hval. simpl.
    unfold validate_branch_ref, next_ref; simpl. rewrite Hs, Hk, Hq, bool_decide_true by done. simpl.
    by rewrite (proj2 (N.eqb_neq _ _) Hg), (proj2 (N.eqb_neq _ _) Hn), andb_false_r.
Qed.

Lemma claim_view_answers f op claim :
  claim_view f op = Some claim → pr_operation_id (cl_request claim) = op ∧ pq_commit_id (cl_prepared claim) = as_str op.
Proof.
  unfold claim_view, claim_answers. destruct (f !! claim_path op) as [bs|]; [|done].
  destruct (decode_record bs) as [c|]; [|done]. case_match; [|done]. intros [= <-]. by boolify.
Qed.
(** The head of a branch has the generation of its reference. *)
Lemma head_view_generation f b branch :
  files_ok f → ref_view f (as_str b) = Some branch → head_generation (head_view f b) = rf_generation branch.
Proof.
  intros [_ Hr] Hb. unfold head_view. rewrite Hb. simpl.
  destruct (ref_view_shape _ _ _ Hb) as (_ & [[-> ->]|(_ & [c Hc] & [h Hh])]); [done|]. rewrite Hc. simpl.
  destruct (Hr b branch c Hb Hc) as (op & claim & -> & Hcl & _). simpl. rewrite Hcl. simpl.
  unfold head_receipt. by rewrite Hh.
Qed.

Lemma ref_publish_ok f f' op claim current v bs :
  let p := cl_prepared claim in
  files_ok f → claim_view f op = Some claim → prepared_ok p →
  ref_view f (pq_branch_id p) = Some current →
  to_value (next_ref p (rf_generation current + 1)) = Some v → jcs_to_vec v = Some bs →
  ref_written (pq_branch_id p) bs f f' →
  files_ok f' ∧ ∀ b, head_view f' b = head_view f b ∨ head_advances op (head_view f b) (head_view f' b).
Proof.
  intros p Hok Hcl Hp Hcur Hv Hbs [Hw Hx]. pose proof Hok as [Hc Hr].
  destruct (Hc _ _ Hcl) as (Hbr & Hq & Hn). destruct (claim_view_answers _ _ _ Hcl) as [Hop Hcm].
  set (b0 := pr_branch_id (cl_request claim)) in *. subst p.
  set (next := next_ref (cl_prepared claim) (rf_generation current + 1)) in *.
  destruct (next_ref_readable _ (rf_generation current + 1) v bs Hp Hq Hn) as [Hlen Hread]; [lia|done..|].
  assert (ref_view f' (as_str b0) = Some next) as Hnew.
  { unfold ref_view. rewrite Hbr, Hw, (proj2 (N.leb_le _ _) Hlen), Hread. done. }
  assert (∀ o, claim_view f' o = claim_view f o) as Hclaims.
  { intros o. unfold claim_view. rewrite Hx; [done|apply claim_not_temp|]. apply not_eq_sym, ref_claim. }
  assert (∀ b, b ≠ b0 → ref_view f' (as_str b) = ref_view f (as_str b)) as Hother.
  { intros b Hne. unfold ref_view. rewrite Hx; [done|apply ref_not_temp|].
    rewrite <- Hbr. intros Heq%ref_path_inj%as_str_inj. done. }
  assert (parse_opt (pq_commit_id (cl_prepared claim)) = Some op) as Hparse by (rewrite Hcm; apply parse_opt_as_str).
  split.
  - split; [intros o c; rewrite Hclaims; apply Hc|]. intros b branch c Hb Hcb.
    destruct (decide (b = b0)) as [->|Hne].
    + rewrite Hnew in Hb. injection Hb as <-. injection Hcb as <-. exists op, claim. rewrite Hclaims. auto.
    + rewrite Hother in Hb by done. destruct (Hr b branch c Hb Hcb) as (o & cl & ? & ? & ?).
      exists o, cl. by rewrite Hclaims.
  - intros b. destruct (decide (b = b0)) as [->|Hne].
    + right. rewrite <- Hbr in Hcur. unfold head_advances.
      rewrite (head_view_generation f b0 current Hok Hcur).
      unfold head_view. rewrite Hnew. simpl. rewrite Hparse. simpl. rewrite Hclaims, Hcl. simpl. eauto.
    + left. apply head_view_ext; auto.
Qed.

Definition view_advances op s s' : Prop :=
  files_ok (fs_files s')
  ∧ ∀ b, head_view (fs_files s') b = head_view (fs_files s) b
         ∨ head_advances op (head_view (fs_files s) b) (head_view (fs_files s') b).
Lemma same_advances op s s' : same_view s s' → view_advances op s s'.
Proof. intros [? Hh]. split; [done|]. intros b. left. apply Hh. Qed.

(** What publishing does to the files: the lock file may appear, then possibly
    the branch reference is written. *)
Lemma publish_commit_files p s s' r :
  repo_publish_commit p s = (s', r) →
  objects_grow (fs_files s) (fs_files s')
  ∨ ∃ f1 current v bs, objects_grow (fs_files s) f1 ∧ prepared_ok p
      ∧ ref_view f1 (pq_branch_id p) = Some current
      ∧ to_value (next_ref p (rf_generation current + 1)) = Some v ∧ jcs_to_vec v = Some bs
      ∧ ref_written (pq_branch_id p) bs f1 (fs_files s').
Proof.
  unfold repo_publish_commit. unfold mbind at 1, stm_bind at 1.
  destruct (validate_prepared _ s) as [s1 r1] eqn:E1. pose proof (validate_prepared_silent _ _ _ _ E1) as Hf1.
  rewrite <- Hf1. destruct r1 as [u1|e]; [|intros [= <- <-]; by left].
  apply validate_prepared_ok in E1. unfold mbind at 1, stm_bind at 1.
  destruct (port _ _ s1) as [s2 r2] eqn:E2. apply only_grows_port in E2 as Hg; [|apply open_lock_grows].
  destruct r2 as [u2|e]; [|intros [= <- <-]; by left].
  unfold mbind at 1, stm_bind at 1. destruct (lock_exclusive s2) as [s3 r3] eqn:E3.
  assert (fs_files s3 = fs_files s2) as Hf3.
  { revert E3. unfold lock_exclusive. match goal with |- ?m s2 = _ → _ => assert (silent m) as Hs by silence end. apply Hs. }
  destruct r3 as [u3|e]; [|intros [= <- <-]; rewrite Hf3; by left].
  unfold mbind at 1, stm_bind at 1. destruct (port_result _ s3) as [s4 r4] eqn:E4.
  apply port_result_run in E4 as (r0 & E4 & ->). apply publish_locked_run in E4. rewrite Hf3 in E4.
  match goal with |- ?m s4 = _ → _ => assert (silent m) as Hs by silence end.
  intros Hr. rewrite (Hs _ _ _ Hr).
  destruct E4 as [Ha%agree_grow|(current & v & bs & Hcur & Hv & Hbs & Hw)].
  - left. by transitivity (fs_files s2).
  - right. exists (fs_files s2), current, v, bs. by split_and!.
Qed.
Lemma publish_port_files d s s' r :
  publish_port d s = (s', r) →
  objects_grow (fs_files s) (fs_files s')
  ∨ ∃ claim f1 current v bs, claim_view (fs_files s) (pd_operation_id d) = Some claim
      ∧ objects_grow (fs_files s) f1 ∧ prepared_ok (cl_prepared claim)
      ∧ ref_view f1 (pq_branch_id (cl_prepared claim)) = Some current
      ∧ to_value (next_ref (cl_prepared claim) (rf_generation current + 1)) = Some v ∧ jcs_to_vec v = Some bs
      ∧ ref_written (pq_branch_id (cl_prepared claim)) bs f1 (fs_files s').
Proof.
  unfold publish_port. unfold mbind at 1, stm_bind at 1, reject_if at 1.
  destruct (fail_if _ _) as [[]|]; [|intros [= <- <-]; by left].
  unfold mbind at 1, stm_bind at 1. destruct (load_claim _ s) as [s1 r1] eqn:E1.
  destruct (load_claim_reads (λ _, True) _ _ _ _ I E1) as [Hf1 Hc]. rewrite <- Hf1 in *.
  destruct r1 as [claim|e]; [|intros [= <- <-]; by left].
  unfold mbind at 1, stm_bind at 1, reject_if at 1. destruct (fail_if _ _) as [[]|]; [|intros [= <- <-]; by left].
  unfold mbind at 1, stm_bind at 1. destruct (repo_publish_commit _ s1) as [s2 r2] eqn:E2.
  apply publish_commit_files in E2. intros Hr.
  assert (fs_files s' = fs_files s2) as ->
    by (destruct r2; [by apply receipt_from_claim_silent in Hr|by injection Hr as <- <-]).
  destruct E2 as [?|(f1 & current & v & bs & Hrest)]; [by left|].
  right. exists claim, f1, current, v, bs. exact (conj Hc Hrest).
Qed.
Lemma publish_port_run d s s' r :
  files_ok (fs_files s) → publish_port d s = (s', r) → view_advances (pd_operation_id d) s s'.
Proof.
  intros Hok [Hg|(claim & f1 & current & v & bs & Hcl & Hg & Hp & Hcur & Hv & Hbs & Hw)]%publish_port_files;
    destruct (grow_ok _ _ Hg Hok) as [Hok1 Hh1].
  - by apply same_advances.
  - rewrite <- (grow_claim _ _ _ Hg) in Hcl.
    destruct (ref_publish_ok _ _ _ claim current v bs Hok1 Hcl Hp Hcur Hv Hbs Hw) as [Hok2 Hh2].
    split; [done|]. intros b. by rewrite <- Hh1.
Qed.

(** *** Verifying and reading *)

Lemma verify_commit_run p s s' receipt :
  repo_verify_commit p s = (s', Ok receipt) →
  ∃ current, ref_view (fs_files s) (pq_branch_id p) = Some current
    ∧ rf_commit_id current = Some (pq_commit_id p)
    ∧ rf_head_segment_hash current = Some (ct_head_segment_hash receipt)
    ∧ ct_previous_head_hash receipt = pq_previous_head_hash p ∧ ct_generation receipt = rf_generation current.
Proof.
  unfold repo_verify_commit. intros Hr. run_inv Hr.
  match goal with Hv : validate_prepared _ _ = _ |- _ => apply validate_prepared_silent in Hv as Hf end.
  match goal with Hb : read_branch _ _ = (_, Ok ?current) |- _ =>
    destruct (read_branch_reads (λ _, True) _ _ _ _ I Hb) as [_ [Hview _]]; exists current end.
  rewrite Hf in Hview. split; [done|]. boolify. unfold receipt_from_ref in Hr. res_inv Hr. naive_solver.
Qed.
Lemma receipt_from_claim_run f op claim s s' v :
  fs_files s = f → files_ok f → claim_view f op = Some claim → receipt_from_claim claim s = (s', Ok v) →
  rc_operation_id v = op ∧ rc_branch_id v = pr_branch_id (cl_request claim) ∧ head_view f (rc_branch_id v) = Some v.
Proof.
  intros Hf [Hc _] Hcl. unfold receipt_from_claim. intros Hr. run_inv Hr.
  match goal with Hv : repo_verify_commit _ _ = _ |- _ =>
    apply verify_commit_run in Hv as (current & Hcur & Hcm & Hh & Hp & Hg) end.
  destruct (Hc _ _ Hcl) as (Hb & _). destruct (claim_view_answers _ _ _ Hcl) as [Hop Hci]. simpl.
  split_and!; [done..|]. unfold head_view. rewrite Hb, Hcur. simpl. rewrite Hcm. simpl.
  rewrite Hci, parse_opt_as_str. simpl. rewrite Hcl. simpl. unfold head_receipt. rewrite Hh. simpl.
  by rewrite <- Hp, <- Hg.
Qed.
Lemma verify_port_silent v : silent (verify_port v).
Proof. unfold verify_port. pose proof receipt_from_claim_silent. silence. Qed.
Lemma read_head_port_silent b : silent (read_head_port b).
Proof. unfold read_head_port. pose proof receipt_from_claim_silent. silence. Qed.
Lemma verify_port_run v s s' r :
  files_ok (fs_files s) → verify_port v s = (s', r) →
  fs_files s' = fs_files s ∧ ∀ x, r = Ok x → head_view (fs_files s) (rc_branch_id x) = Some x.
Proof.
  intros Hok Hr. split.
  - revert Hr. apply verify_port_silent.
  - intros x ->. unfold verify_port in Hr. run_inv Hr.
    match goal with Hl : load_claim _ _ = _ |- _ =>
      destruct (load_claim_reads (λ _, True) _ _ _ _ I Hl) as [Hf Hcl] end.
    match goal with Hv : receipt_from_claim _ _ = _ |- _ =>
      destruct (receipt_from_claim_run _ _ _ _ _ _ Hf Hok Hcl Hv) as (_ & _ & Hhead) end.
    case_bool_decide; [|done]. by injection Hr as <- <-.
Qed.
Lemma read_head_port_run b s s' r :
  files_ok (fs_files s) → read_head_port b s = (s', r) →
  fs_files s' = fs_files s ∧ ∀ h, r = Ok h → h = head_view (fs_files s) b.
Proof.
  intros Hok Hr. split.
  - revert Hr. apply read_head_port_silent.
  - intros h ->. unfold read_head_port in Hr. run_inv Hr.
    match goal with Hb : read_branch _ _ = (_, Ok ?br) |- _ =>
      destruct (read_branch_reads (λ _, True) _ _ _ _ I Hb) as [Hf [Hview _]]; rename br into branch end.
    destruct (rf_commit_id branch) as [c|] eqn:Ec.
    + run_inv Hr. pose proof Hok as [Hc Hrefs].
      destruct (Hrefs b branch c Hview Ec) as (op & claim & Hparse & Hcl & Hpb).
      match goal with Hp : StableId_parse c = Ok ?o |- _ => assert (o = op) as -> end.
      { unfold StableId_parse in *. rewrite Hparse in *. by simplify_eq/=. }
      match goal with Hl : load_claim _ _ = _ |- _ =>
        destruct (load_claim_reads (λ _, True) _ _ _ _ I Hl) as [Hf1 Hcl1] end.
      rewrite Hf in Hcl1, Hf1. rewrite Hcl in Hcl1. injection Hcl1 as <-.
      match goal with Hv : receipt_from_claim _ _ = _ |- _ =>
        destruct (receipt_from_claim_run _ _ _ _ _ _ Hf1 Hok Hcl Hv) as (_ & Hbv & Hhead) end.
      rewrite <- Hhead, Hbv. f_equal. destruct (Hc _ _ Hcl) as (Hb' & _).
      apply as_str_inj. congruence.
    + injection Hr as <- <-. unfold head_view. rewrite Hview. simpl. by rewrite Ec.
Qed.

(** ** The refinement *)

(** C21: The portable repository does what the core expects of a history store,
    whatever calls of the operating system fail: preparing and verifying leave
    every branch's head alone, publishing moves a head only to a receipt of
    its own operation at the next generation, a verified receipt is the head
    of its branch, and reading gives the head; and the files stay in order.
    It is not assumed that the claim of a request reads back: its JSON values
    may come back spelled otherwise, or the claim not at all, and then its
    publication fails before it writes. *)
Theorem repository_refines s s' :
  files_ok (fs_files s) →
  (∀ request r, prepare_port request s = (s', r) → same_view s s')
  ∧ (∀ prepared r, publish_port prepared s = (s', r) → view_advances (pd_operation_id prepared) s s')
  ∧ (∀ receipt r, verify_port receipt s = (s', r) →
       same_view s s' ∧ ∀ v, r = Ok v → head_view (fs_files s) (rc_branch_id v) = Some v)
  ∧ (∀ b r, read_head_port b s = (s', r) →
       same_view s s' ∧ ∀ h, r = Ok h → h = head_view (fs_files s) b).
Proof.
  intros Hok. unfold same_view. split_and!.
  - intros q r. by apply prepare_port_run.
  - intros d r. by apply publish_port_run.
  - intros v r Hr. destruct (verify_port_run _ _ _ _ Hok Hr) as [-> ?]. done.
  - intros b r Hr. destruct (read_head_port_run _ _ _ _ Hok Hr) as [-> ?]. done.
Qed.

(** *** Objects *)

Lemma ref_written_keeps_objects x bs f f' : ref_written x bs f f' → keeps_objects f f'.
Proof. intros [_ Hw] y bs' Hy Ho Hb. rewrite Hw; [done..|]. intros ->. by apply ref_not_object in Ho. Qed.
Lemma prepare_port_keeps_objects q s s' r : prepare_port q s = (s', r) → keeps_objects (fs_files s) (fs_files s').
Proof.
  intros (f1 & Hg%grow_keeps_objects & Hf)%prepare_port_files. transitivity f1; [done|].
  destruct Hf as [->|(bs & _ & Hins)]; [done|]. intros x bs' Hx Ho Hb.
  destruct (Hins x Hx) as [->|(-> & _)]; [done|]. by apply claim_not_object in Ho.
Qed.
Lemma publish_commit_keeps_objects p s s' r :
  repo_publish_commit p s = (s', r) → keeps_objects (fs_files s) (fs_files s').
Proof.
  intros [Hg|(f1 & _ & _ & bs & Hg & _ & _ & _ & _ & Hw)]%publish_commit_files;
    apply grow_keeps_objects in Hg; [done|]. transitivity f1; [done|]. by eapply ref_written_keeps_objects.
Qed.
Lemma publish_port_keeps_objects d s s' r : publish_port d s = (s', r) → keeps_objects (fs_files s) (fs_files s').
Proof.
  intros [Hg|(claim & f1 & _ & _ & bs & _ & Hg & _ & _ & _ & _ & Hw)]%publish_port_files;
    apply grow_keeps_objects in Hg; [done|]. transitivity f1; [done|]. by eapply ref_written_keeps_objects.
Qed.

Context {W : Type} (io_text : io_error → string) (json_text : string) (l : lens W PortableStore) `{!LensLaws l}.

Lemma repository_call {A} (m : rp A) w w' r :
  call l (repository_error io_text json_text) m w = (w', r) →
  ∃ r0, m (part l w) = (part l w', r0) ∧ ∀ a, r = Ok a → r0 = Ok a.
Proof.
  unfold call. destruct (m (part l w)) as [t [a|e]]; intros [= <- <-]; rewrite part_set; eexists; naive_solver.
Qed.

(** The repository as the core's portable port. *)
#[export, refine] Instance repository_laws : RepositoryLaws (repository_port io_text json_text l) :=
  {| repo_wf w := files_ok (fs_files (part l w)); repo_head w b := head_view (fs_files (part l w)) b |}.
Proof.
  - intros q w w' r Hok (r0 & Hr & _)%repository_call. by apply prepare_port_run in Hr.
  - intros d w w' r Hok (r0 & Hr & _)%repository_call. by apply publish_port_run in Hr.
  - intros v w w' r Hok (r0 & Hr & Ha)%repository_call.
    destruct (verify_port_run _ _ _ _ Hok Hr) as [-> Hv]. split_and!; [done..|]. intros x Hx. auto.
  - intros b w w' r Hok (r0 & Hr & Ha)%repository_call.
    destruct (read_head_port_run _ _ _ _ Hok Hr) as [-> Hv]. split_and!; [done..|]. intros x Hx. auto.
Defined.
End refinement.
