(* ===== verification/Projection.v ===== *)
(** * Inert import and projection pages ([crates/aworkit-portable-store/src/projection.rs])

    Segments are loaded with their policy checked again, lineages are followed
    to their first segment, and the events of a segment are read in pages.
    The theorem [pages_cover]: following [next_ordinal] reads every event once
    and in order. *)
From S2P Require Export RepositoryProofs.

Definition MAX_IMPORT_SEGMENTS : N := 16384.

Record ImportReport : Type := MkImportReport {
  im_accepted : bool;
  im_diagnostics : list string
}.
Inductive PortableProjectionEvidenceV1 : Type :=
| EvOmission (fact : OmissionFact)
| EvArtifactMetadata (descriptor : ArtifactDescriptor).
Record PortablePage : Type := MkPage {
  pg_events : list PortableEvent;
  pg_evidence : list PortableProjectionEvidenceV1;
  pg_next_ordinal : option N;
  pg_source_segment_hash : string;
  pg_projection_token : string
}.

(** The events of a page and the ordinal the next page starts with. *)
Definition eligible (start : N) (events : list PortableEvent) : list PortableEvent :=
  filter (λ e, (start <=? vt_ordinal e) = true) events.
Definition page_events (start limit : N) (events : list PortableEvent) : list PortableEvent * option N :=
  let eligible := eligible start events in
  let has_more := limit <? len eligible in
  let events := take (N.to_nat limit) eligible in
  (events,
   if (limit =? 0) && has_more then Some start
   else if has_more then last events ≫= λ e, checked_add u64_max (vt_ordinal e) 1
   else None).
Definition segment_evidence (segment : PortableSegment) : list PortableProjectionEvidenceV1 :=
  match sg_context segment with
  | Some context =>
      map EvOmission (pn_omissions (cc_provenance context))
      ++ map EvArtifactMetadata (pn_artifact_metadata (cc_provenance context))
  | None => []
  end.
Definition NUL : string := String (Ascii.ascii_of_N 0) "".

Section projection.
Context `{Sha256, !Serialize json, !Deserialize json}.
Context `{!ToValue SegmentHeaderV1, !FromValue SegmentHeaderV1}.
Context `{!ToValue SegmentEventV1, !FromValue SegmentEventV1}.
Context `{!ToValue SegmentTrailerV1, !FromValue SegmentTrailerV1}.

Fixpoint load_artifacts (metadata : list ArtifactDescriptor) : po () :=
  match metadata with
  | [] => mret ()
  | descriptor :: metadata =>
      _ ← port (λ _, PoCorruptObject) (read_verified descriptor);
      load_artifacts metadata
  end.
Definition load_segment (segment_hash : string) : po PortableSegment :=
  bs ← store_read "segments" segment_hash;
  segment ← lift (map_err (λ _, PoCorruptObject) (decode_segment bs));
  _ ← lift (for_each (λ event, fail_if (negb (portable_as_is (vt_payload event))) PoCorruptObject)
              (sg_events segment));
  _ ← match sg_context segment with
      | Some context => load_artifacts (pn_artifact_metadata (cc_provenance context))
      | None => mret ()
      end;
  mret segment.

(** The loop of [validate_lineage]; [seen] grows in every turn, so more than
    [MAX_IMPORT_SEGMENTS] turns never happen. *)
Fixpoint follow_lineage (fuel : nat) (cursor : option string) (child_first : option N) (seen : gset string) : po () :=
  match cursor with
  | None => mret ()
  | Some hash =>
      match fuel with
      | O => throw PoCorruptObject
      | S fuel =>
          _ ← reject_if ((MAX_IMPORT_SEGMENTS <=? bs_len seen) || bool_decide (hash ∈ seen)) PoCorruptObject;
          segment ← load_segment hash;
          segment_end ← lift (ok_or (checked_add u64_max (sg_first_ordinal segment) (len (sg_events segment)))
                                PoCorruptObject);
          _ ← reject_if (is_some_and child_first (λ first, negb (first =? segment_end))) PoCorruptObject;
          follow_lineage fuel (sg_parent_segment_hash segment) (Some (sg_first_ordinal segment)) ({[hash]} ∪ seen)
      end
  end.
Definition lineage_fuel : nat := S (N.to_nat MAX_IMPORT_SEGMENTS).

(** [error.to_string()] of the outcome of a check. *)
Definition import_report {A E} (io_text : io_error → string) (m : po A) : stm PortableStore E ImportReport :=
  outcome ← port_result m;
  mret (match outcome with
        | Ok _ => MkImportReport true []
        | Err error => MkImportReport false [portable_error_text io_text error]
        end).
Definition validate_import {E} (io_text : io_error → string) (segment_hash : string) :
    stm PortableStore E ImportReport :=
  import_report io_text (load_segment segment_hash).
Definition validate_lineage {E} (io_text : io_error → string) (tip_hash : string) :
    stm PortableStore E ImportReport :=
  import_report io_text (follow_lineage lineage_fuel (Some tip_hash) None ∅).

Definition projection_token (segment_hash : string) (start limit : N) : string :=
  digest "portable-projection-page-v1"
    (as_bytes (segment_hash +:+ NUL +:+ pretty start +:+ NUL +:+ pretty limit)).
Definition read_page (io_text : io_error → string) (segment_hash : string) (start limit : N) : po PortablePage :=
  report ← validate_lineage io_text segment_hash;
  _ ← reject_if (negb (im_accepted report)) PoCorruptObject;
  segment ← load_segment segment_hash;
  let limit := N.min limit 256 in
  let '(events, next_ordinal) := page_events start limit (sg_events segment) in
  mret (MkPage events (segment_evidence segment) next_ordinal segment_hash
          (projection_token segment_hash start limit)).
End projection.

(** ** Objects and segments in the files *)

Section views.
Context `{Sha256, !Serialize json, !Deserialize json}.
Context `{!ToValue SegmentHeaderV1, !FromValue SegmentHeaderV1}.
Context `{!ToValue SegmentEventV1, !FromValue SegmentEventV1}.
Context `{!ToValue SegmentTrailerV1, !FromValue SegmentTrailerV1}.
Implicit Types (f : files) (ns h : string).

(** The object with an identity: a file in its place with its digest. *)
Definition object_view f ns (identity : string) : option bytes :=
  match object_reference ns identity with
  | Ok p => bs ← f !! p; if bool_decide (digest ns bs = identity) then Some bs else None
  | Err _ => None
  end.
Definition segment_view f h : option PortableSegment :=
  bs ← object_view f "segments" h; ok_option (decode_segment bs).

Lemma object_view_keep f f' ns identity bs :
  keeps_objects f f' → object_view f ns identity = Some bs → object_view f' ns identity = Some bs.
Proof.
  intros Hk. unfold object_view. destruct (object_reference ns identity) as [p|] eqn:Ep; [|done].
  destruct (object_reference_not_temp _ _ _ Ep) as [Hn Ho].
  destruct (f !! p) as [x|] eqn:Ex; [|done]. by rewrite (Hk _ _ Hn Ho Ex).
Qed.
Lemma segment_view_keep f f' h segment :
  keeps_objects f f' → segment_view f h = Some segment → segment_view f' h = Some segment.
Proof.
  intros Hk. unfold segment_view. destruct (object_view f _ h) as [bs|] eqn:E; [|done].
  by rewrite (object_view_keep _ _ _ _ _ Hk E).
Qed.
Lemma store_read_reads P ns identity :
  reads P (store_read ns identity) (λ bs f, object_view f ns identity = Some bs) (λ _ _, True).
Proof.
  intros s s' r _ Hr. split; [by eapply store_read_silent|]. destruct r as [bs|e]; [|done].
  apply store_read_run in Hr as (Hd & _ & p & Hp & Hf). unfold object_view. rewrite Hp, Hf. simpl.
  by rewrite bool_decide_true.
Qed.
Lemma decode_reads P h bs F :
  (∀ f, P f → object_view f "segments" h = Some bs) →
  reads P (lift (map_err F (decode_segment bs))) (λ segment f, segment_view f h = Some segment)
    (λ (_ : PortableError) _, True).
Proof.
  intros HP. apply reads_lift; [|done]. intros segment f Hf Hd. unfold segment_view. rewrite HP by done. simpl.
  by destruct (decode_segment bs); simplify_eq/=.
Qed.

Lemma read_verified_silent d : silent (read_verified d).
Proof. unfold read_verified, artifact_read. silence. Qed.
Lemma load_artifacts_silent l : silent (load_artifacts l).
Proof. pose proof read_verified_silent. induction l as [|d l IH]; simpl; silence. Qed.
Lemma load_segment_reads P h : reads P (load_segment h) (λ segment f, segment_view f h = Some segment) (λ _ _, True).
Proof.
  unfold load_segment. eapply reads_bind; [apply (store_read_reads P)|]. intros bs.
  eapply reads_bind; [apply (decode_reads _ h bs); by intros f [_ ?]|]. intros segment.
  eapply reads_bind; [by apply (reads_lift _ _ (λ _ _, True))|]. intros ?.
  eapply (reads_bind _ _ _ (λ _ _, True)); [apply silent_reads|].
  { case_match; [apply load_artifacts_silent|auto with silent]. }
  intros ?. apply reads_ret. intros f Hf. naive_solver.
Qed.
Lemma load_segment_silent h : silent (load_segment h).
Proof. exact (reads_silent _ _ _ (load_segment_reads _ h)). Qed.
#[local] Hint Resolve load_segment_silent load_artifacts_silent : silent.
Lemma follow_lineage_silent fuel : ∀ cursor first seen, silent (follow_lineage fuel cursor first seen).
Proof. induction fuel as [|fuel IH]; intros [h|] *; simpl; silence. Qed.
Lemma validate_lineage_silent {E} io h : silent (E:=E) (validate_lineage io h).
Proof. unfold validate_lineage, import_report. pose proof follow_lineage_silent. silence. Qed.

(** Enough fuel: [seen] bounds the turns. *)
Lemma follow_lineage_enough fuel fuel' cursor first seen s :
  (N.to_nat MAX_IMPORT_SEGMENTS < fuel + size seen)%nat → (fuel <= fuel')%nat →
  follow_lineage fuel' cursor first seen s = follow_lineage fuel cursor first seen s.
Proof.
  revert fuel' cursor first seen s. induction fuel as [|fuel IH]; intros fuel' [h|] first seen s Hf Hle; [..|by destruct fuel'].
  - destruct fuel' as [|fuel']; [done|]. simpl. unfold mbind, stm_bind, reject_if.
    rewrite (proj2 (N.leb_le _ _)); [done|]. unfold bs_len. lia.
  - by destruct fuel'.
  - destruct fuel' as [|fuel']; [lia|]. simpl. unfold mbind, stm_bind, reject_if, lift.
    destruct (fail_if _ _) as [[]|] eqn:Eseen; [|done]. apply fail_if_ok in Eseen. boolify.
    destruct (load_segment h s) as [s1 [segment|]]; [|done]. destruct (ok_or _ _); [|done].
    destruct (fail_if _ _) as [[]|]; [|done]. apply IH; [|lia].
    rewrite size_union, size_singleton by set_solver. lia.
Qed.

(** *** Pages *)

Lemma validate_events_ordinal first first_ordinal index events u :
  validate_events first first_ordinal index events = Ok u →
  ∀ i e, events !! i = Some e → vt_ordinal e = first_ordinal + index + N.of_nat i ∧ vt_ordinal e <= u64_max.
Proof.
  revert index. induction events as [|event events IH]; intros index Hv i e Hi; [done|].
  simpl in Hv. res_inv Hv. boolify. unfold checked_add in *. case_match; [|done]. simplify_eq. boolify.
  destruct i as [|i]; simpl in Hi; [injection Hi as <-; lia|].
  destruct (IH _ Hv _ _ Hi) as [-> ?]. lia.
Qed.
(** The events of a segment have consecutive ordinals. *)
Definition consecutive (a : N) (events : list PortableEvent) : Prop :=
  ∀ i e, events !! i = Some e → vt_ordinal e = a + N.of_nat i ∧ vt_ordinal e <= u64_max.
Lemma validate_segment_consecutive segment u :
  validate_segment segment = Ok u → consecutive (sg_first_ordinal segment) (sg_events segment).
Proof.
  unfold validate_segment. intros Hv. destruct (sg_events segment) as [|first events]; [done|]. res_inv Hv.
  intros i e Hi. destruct (validate_events_ordinal _ _ _ _ _ Hv _ _ Hi). lia.
Qed.
Lemma decode_segment_consecutive bs segment :
  decode_segment bs = Ok segment → consecutive (sg_first_ordinal segment) (sg_events segment).
Proof.
  unfold decode_segment. intros Hd. res_inv Hd.
  match goal with Hv : validate_segment _ = Ok _ |- _ => exact (validate_segment_consecutive _ _ Hv) end.
Qed.
Lemma segment_view_consecutive f h segment :
  segment_view f h = Some segment → consecutive (sg_first_ordinal segment) (sg_events segment).
Proof.
  unfold segment_view. destruct (object_view f _ h) as [bs|]; [|done]. simpl.
  destruct (decode_segment bs) as [x|] eqn:E; [|done]. intros [= ->]. by eapply decode_segment_consecutive.
Qed.
End views.

Lemma consecutive_tail a e events : consecutive a (e :: events) → consecutive (a + 1) events.
Proof. intros Hc i x Hi. destruct (Hc (S i) x Hi). lia. Qed.
Lemma eligible_all a start events : consecutive a events → start <= a → eligible start events = events.
Proof.
  unfold eligible. revert a. induction events as [|e events IH]; intros a Hc Hle; [done|].
  destruct (Hc 0%nat e eq_refl) as [He _]. rewrite filter_cons_True by (apply N.leb_le; lia).
  f_equal. eapply IH; [by eapply consecutive_tail|lia].
Qed.
(** The eligible events are the rest of the list. *)
Lemma eligible_drop a start events :
  consecutive a events → eligible start events = drop (N.to_nat (start - a)) events.
Proof.
  unfold eligible. revert a. induction events as [|e events IH]; intros a Hc; [by rewrite drop_nil|].
  destruct (Hc 0%nat e eq_refl) as [He _]. destruct (decide (start <= a)) as [Hle|Hgt].
  - rewrite (proj2 (N.sub_0_le start a) Hle). exact (eligible_all a start _ Hc Hle).
  - rewrite filter_cons_False by (rewrite N.leb_le; lia).
    replace (N.to_nat (start - a)) with (S (N.to_nat (start - (a + 1)))) by lia. simpl.
    eapply IH. by eapply consecutive_tail.
Qed.
(** A page is the first events from its start, and the next page starts with
    the event after its last. *)
Lemma page_events_next a start limit events :
  consecutive a events →
  let '(page, next) := page_events start limit events in
  match next with
  | Some n => page ++ eligible n events = eligible start events ∧ len page = limit
  | None => page = eligible start events
  end.
Proof.
  intros Hc. unfold page_events. rewrite (eligible_drop a) by done.
  set (k := N.to_nat (start - a)). destruct (limit <? len (drop k events)) eqn:Em.
  2: { rewrite andb_false_r. apply take_ge. apply N.ltb_ge in Em. unfold len in Em. lia. }
  apply N.ltb_lt in Em. rewrite andb_true_r. destruct (N.eqb_spec limit 0) as [->|Hne].
  { split; [|done]. simpl. by rewrite (eligible_drop a). }
  unfold len in Em. assert (length (take (N.to_nat limit) (drop k events)) = N.to_nat limit) as Hlen
    by (rewrite length_take; lia).
  assert (is_Some (last (take (N.to_nat limit) (drop k events)))) as [e He].
  { apply last_is_Some. intros Hnil. rewrite Hnil in Hlen. simpl in Hlen. lia. }
  rewrite He. simpl. rewrite last_lookup, Hlen, lookup_take_lt, lookup_drop in He by lia.
  destruct (Hc _ _ He) as [Hord _].
  assert (is_Some (events !! (k + N.to_nat limit)%nat)) as [e' He'].
  { apply lookup_lt_is_Some. rewrite length_drop in Em. lia. }
  destruct (Hc _ _ He') as [Hord' Hmax]. unfold checked_add.
  assert (vt_ordinal e + 1 = a + N.of_nat (k + N.to_nat limit)) as -> by lia.
  rewrite (proj2 (N.leb_le _ _)) by lia. split; [|unfold len; lia].
  rewrite (eligible_drop a) by done.
  replace (N.to_nat (a + N.of_nat (k + N.to_nat limit) - a)) with (k + N.to_nat limit)%nat by lia.
  rewrite <- drop_drop. apply take_drop.
Qed.

Section pages.
Context `{Sha256, !Serialize json, !Deserialize json}.
Context `{!ToValue SegmentHeaderV1, !FromValue SegmentHeaderV1}.
Context `{!ToValue SegmentEventV1, !FromValue SegmentEventV1}.
Context `{!ToValue SegmentTrailerV1, !FromValue SegmentTrailerV1}.
Context (io_text : io_error → string) (h : string) (limit : N).

Lemma read_page_run start s s' page :
  read_page io_text h start limit s = (s', Ok page) →
  fs_files s' = fs_files s
  ∧ ∃ segment, segment_view (fs_files s) h = Some segment
      ∧ (pg_events page, pg_next_ordinal page) = page_events start (N.min limit 256) (sg_events segment).
Proof.
  unfold read_page. intros Hr. run_inv Hr.
  match goal with Hv : validate_lineage _ _ _ = _ |- _ => apply validate_lineage_silent in Hv as Hf end.
  match goal with Hl : load_segment _ _ = _ |- _ =>
    destruct (load_segment_reads (λ _, True) _ _ _ _ I Hl) as [Hf' Hview] end.
  injection Hr as <- <-. rewrite Hf', Hf. split; [done|]. rewrite Hf in Hview. eexists. by split; [exact Hview|].
Qed.

(** Reading a segment page by page; between two pages the repository may do
    anything that keeps its objects. *)
Inductive pages_read : PortableStore → N → list PortablePage → Prop :=
| pages_last s s' start page :
    read_page io_text h start limit s = (s', Ok page) → pg_next_ordinal page = None → pages_read s start [page]
| pages_more s s' s1 start page next pages :
    read_page io_text h start limit s = (s', Ok page) → pg_next_ordinal page = Some next →
    keeps_objects (fs_files s') (fs_files s1) → pages_read s1 next pages → pages_read s start (page :: pages).

(** Reading page by page: following [next_ordinal] until there is none gives
    the events of the segment from the start on, each once and in order,
    whatever the repository did in between; every page but the last is full,
    which bounds their number. *)
Theorem pages_cover s start pages :
  pages_read s start pages →
  ∃ segment, segment_view (fs_files s) h = Some segment
    ∧ concat (map pg_events pages) = eligible start (sg_events segment)
    ∧ (len pages - 1) * N.min limit 256 <= len (eligible start (sg_events segment)).
Proof.
  induction 1 as [s s' start page Hr Hn|s s' s1 start page next pages Hr Hn Hk _ (segment & Hv & Hev & Hlen)].
  - apply read_page_run in Hr as (_ & segment & Hv & Hp). exists segment. split; [done|].
    pose proof (page_events_next _ start (N.min limit 256) _ (segment_view_consecutive _ _ _ Hv)) as Hnext.
    rewrite <- Hp, Hn in Hnext. change (len [page] - 1) with 0. simpl. rewrite app_nil_r.
    split; [done|]. apply N.le_0_l.
  - apply read_page_run in Hr as (Hf & segment' & Hv' & Hp). rewrite Hf in Hk.
    pose proof (segment_view_keep _ _ _ _ Hk Hv') as Hv2. rewrite Hv2 in Hv. injection Hv as <-.
    exists segment'. split; [done|].
    pose proof (page_events_next _ start (N.min limit 256) _ (segment_view_consecutive _ _ _ Hv')) as Hnext.
    rewrite <- Hp, Hn in Hnext. destruct Hnext as [Happ Hfull]. simpl. rewrite Hev, Happ. split; [done|].
    rewrite <- Happ. unfold len in *. simpl. rewrite length_app, Nat2N.inj_add. destruct (length pages); nia.
Qed.
End pages.
