(* ===== verification/Integrity.v ===== *)
(** * Integrity of a portable repository ([crates/aworkit-portable-store/src/integrity.rs])

    Inspecting the branches of a repository, proposing repairs and collecting
    orphaned objects; with the directory listings of [workspace.rs] and
    [repository.rs]. *)
From S2P Require Export Projection PortableCodec.

(** ** Directories *)

(** A directory exists when a file is below it; its entries are the names
    that follow it in the references. *)
Definition child_name (dir path : string) : option string :=
  rest ← strip_prefix (dir +:+ "/") path; head (split_on "/" rest).
Definition dir_names (files : gmap string bytes) (dir : string) : gset string :=
  list_to_set (omap (child_name dir) (map_to_list files).*1).
Definition os_read_dir (dir : string) : ws (list string) :=
  os_call (λ files, let names := bt_elems (dir_names files dir) in
                    if is_nil names then Err IoNotFound else Ok names) (λ _, id).
(** The entries one by one: the entry, its type, and no two names that differ
    in case alone. *)
Fixpoint scan_entries (entries : list string) (folded : gset string) : ws () :=
  match entries with
  | [] => mret ()
  | name :: entries =>
      _ ← os_check;
      _ ← os_check;
      _ ← reject_if (bs_contains folded (to_ascii_lowercase name)) WsCaseAliasDenied;
      scan_entries entries ({[to_ascii_lowercase name]} ∪ folded)
  end.
Definition read_dir_names (path : string) : ws (list string) :=
  _ ← revalidate;
  _ ← reject_symlinks path true;
  entries ← os_read_dir path;
  _ ← scan_entries entries ∅;
  mret entries.

Definition list_dir (path : string) : po (list string) :=
  answer ← port_result (read_dir_names path);
  match answer with
  | Ok names => mret names
  | Err (WsIo IoNotFound) => mret []
  | Err error => throw (PoWorkspace error)
  end.
Definition refs_dir : string := ".aworkit/portable/refs".
Definition list_ref_files : po (list string) := list_dir refs_dir.
Definition object_identity (namespace name : string) : result PortableError string :=
  _ ← object_reference namespace ("sha256:" +:+ name);
  Ok ("sha256:" +:+ name).
Definition objects_dir (namespace : string) : string := ".aworkit/portable/" +:+ namespace +:+ "/sha256".
Definition list_object_ids (namespace : string) : po (list string) :=
  _ ← lift (validate_namespace namespace);
  names ← list_dir (objects_dir namespace);
  lift (map_res (object_identity namespace) names).

(** [str::strip_suffix] *)
Fixpoint strip_suffix (suffix s : string) : option string :=
  if bool_decide (s = suffix) then Some EmptyString
  else match s with EmptyString => None | String c s => String c <$> strip_suffix suffix s end.

(** ** Reports *)

Inductive IntegrityIssueV1 : Type :=
| InvalidBranchRef (file diagnostic : string)
| MissingOrCorruptSegment (branch_id identity : string)
| ParentOrdinalMismatch (branch_id identity : string)
| MissingCheckpoint (identity : string)
| MissingArtifact (identity : string)
| ParentCycleOrDepth (branch_id : string).
Record IntegrityReportV1 : Type := MkIntegrityReport {
  ir_branch_heads : gmap string string;
  ir_reachable_segments : gset string;
  ir_reachable_checkpoints : gset string;
  ir_reachable_artifacts : gset string;
  ir_issues : list IntegrityIssueV1;
  ir_continuation_blocked : bool
}.
Definition empty_report : IntegrityReportV1 := MkIntegrityReport ∅ ∅ ∅ ∅ [] false.
Definition push_issue (issue : IntegrityIssueV1) (r : IntegrityReportV1) : IntegrityReportV1 :=
  MkIntegrityReport (ir_branch_heads r) (ir_reachable_segments r) (ir_reachable_checkpoints r) (ir_reachable_artifacts r)
    (ir_issues r ++ [issue]) (ir_continuation_blocked r).
Definition push_if (c : bool) (issue : IntegrityIssueV1) (r : IntegrityReportV1) : IntegrityReportV1 :=
  if c then push_issue issue r else r.
Definition add_head (branch_id head : string) (r : IntegrityReportV1) : IntegrityReportV1 :=
  MkIntegrityReport (<[branch_id := head]> (ir_branch_heads r)) (ir_reachable_segments r) (ir_reachable_checkpoints r)
    (ir_reachable_artifacts r) (ir_issues r) (ir_continuation_blocked r).
Definition add_segment (identity : string) (r : IntegrityReportV1) : IntegrityReportV1 :=
  MkIntegrityReport (ir_branch_heads r) ({[identity]} ∪ ir_reachable_segments r) (ir_reachable_checkpoints r)
    (ir_reachable_artifacts r) (ir_issues r) (ir_continuation_blocked r).
Definition add_checkpoint (identity : string) (r : IntegrityReportV1) : IntegrityReportV1 :=
  MkIntegrityReport (ir_branch_heads r) (ir_reachable_segments r) ({[identity]} ∪ ir_reachable_checkpoints r)
    (ir_reachable_artifacts r) (ir_issues r) (ir_continuation_blocked r).
Definition add_artifact (identity : string) (r : IntegrityReportV1) : IntegrityReportV1 :=
  MkIntegrityReport (ir_branch_heads r) (ir_reachable_segments r) (ir_reachable_checkpoints r)
    ({[identity]} ∪ ir_reachable_artifacts r) (ir_issues r) (ir_continuation_blocked r).
Definition finish_report (r : IntegrityReportV1) : IntegrityReportV1 :=
  MkIntegrityReport (ir_branch_heads r) (ir_reachable_segments r) (ir_reachable_checkpoints r) (ir_reachable_artifacts r)
    (ir_issues r) (negb (is_nil (ir_issues r))).

Inductive NonDestructiveRepairProposalV1 : Type :=
| CreatePointerOnlyRepair (branch_id : string) (expected_generation : N) (expected_current_head : option string)
    (candidate_verified_head : string)
| CreateRepairBranch (source_branch_id new_branch_id parent_verified_head : string)
| QuarantineForInspection (branch_id diagnostic : string).
Inductive IntegrityError : Type :=
| IgUnsafeNamespace
| IgHeadChanged
| IgFreshBranchRequired
| IgRepairBranchExists
| IgRetention (error : RetentionError)
| IgPortable (error : PortableError)
| IgCommit (error : CommitError)
| IgIo (error : io_error).
Abbreviation ig := (stm PortableStore IntegrityError).

Definition MAX_BRANCH_DEPTH : N := 16384.
Definition depth_fuel : nat := S (N.to_nat MAX_BRANCH_DEPTH).
Definition COLLECTED_NAMESPACES : list string := ["segments"; "checkpoints"; "artifacts"].
Definition report_reachable (namespace : string) (r : IntegrityReportV1) : gset string :=
  if bool_decide (namespace = "segments") then ir_reachable_segments r
  else if bool_decide (namespace = "checkpoints") then ir_reachable_checkpoints r
  else ir_reachable_artifacts r.

Section integrity.
Context `{Sha256, !Serialize json, !Deserialize json}.
Context `{!FromValue PortableCheckpoint, !FromValue BranchRef}.
Context `{!ToValue SegmentHeaderV1, !FromValue SegmentHeaderV1}.
Context `{!ToValue SegmentEventV1, !FromValue SegmentEventV1}.
Context `{!ToValue SegmentTrailerV1, !FromValue SegmentTrailerV1}.
Context (io_text : io_error → string) (json_text : string).

(** ** Inspection *)

Definition read_checkpoint (identity : string) : po PortableCheckpoint :=
  bs ← store_read "checkpoints" identity;
  checkpoint ← lift (map_err (λ _, PoCorruptObject) (decode_record (T:=PortableCheckpoint) bs));
  _ ← lift (map_err (λ _, PoCorruptObject) (validate_checkpoint_record checkpoint));
  mret checkpoint.

(** [if let Some(checkpoint) = ...]: recorded as reachable, readable or not. *)
Definition inspect_checkpoint (checkpoint : option string) (r : IntegrityReportV1) : po IntegrityReportV1 :=
  match checkpoint with
  | None => mret r
  | Some identity =>
      answer ← port_result (read_checkpoint identity);
      mret (add_checkpoint identity (push_if (is_err answer) (MissingCheckpoint identity) r))
  end.
Fixpoint inspect_artifacts (metadata : list ArtifactDescriptor) (r : IntegrityReportV1) : po IntegrityReportV1 :=
  match metadata with
  | [] => mret r
  | descriptor :: metadata =>
      answer ← port_result (read_verified descriptor);
      inspect_artifacts metadata
        (add_artifact (ad_digest descriptor) (push_if (is_err answer) (MissingArtifact (ad_digest descriptor)) r))
  end.
Definition context_artifacts (segment : PortableSegment) : list ArtifactDescriptor :=
  match sg_context segment with Some context => pn_artifact_metadata (cc_provenance context) | None => [] end.
Definition inspect_segment_objects (segment : PortableSegment) (r : IntegrityReportV1) : po IntegrityReportV1 :=
  r ← inspect_checkpoint (sg_base_checkpoint_hash segment) r;
  inspect_artifacts (context_artifacts segment) r.

(** The segment of an identity, if it can be read and decoded. *)
Definition inspect_read (identity : string) : po (option PortableSegment) :=
  answer ← port_result (store_read "segments" identity);
  mret (match answer with Ok bs => ok_option (decode_segment bs) | Err _ => None end).

(** The loop of [inspect_lineage]; [seen] grows in every turn. *)
Fixpoint inspect_lineage (fuel : nat) (branch_id : string) (cursor : option string) (child_first : option N)
    (seen : gset string) (r : IntegrityReportV1) : po IntegrityReportV1 :=
  match cursor with
  | None => mret r
  | Some identity =>
      match fuel with
      | O => mret (push_issue (ParentCycleOrDepth branch_id) r)
      | S fuel =>
          if (MAX_BRANCH_DEPTH <=? bs_len seen) || bool_decide (identity ∈ seen)
          then mret (push_issue (ParentCycleOrDepth branch_id) r)
          else
            answer ← inspect_read identity;
            match answer with
            | None => mret (push_issue (MissingOrCorruptSegment branch_id identity) r)
            | Some segment =>
                match checked_add u64_max (sg_first_ordinal segment) (len (sg_events segment)) with
                | None => mret (push_issue (ParentOrdinalMismatch branch_id identity) r)
                | Some end_ =>
                    let r := push_if (is_some_and child_first (λ first, negb (first =? end_)))
                               (ParentOrdinalMismatch branch_id identity) r in
                    r ← inspect_segment_objects segment (add_segment identity r);
                    inspect_lineage fuel branch_id (sg_parent_segment_hash segment)
                      (Some (sg_first_ordinal segment)) ({[identity]} ∪ seen) r
                end
            end
      end
  end.

(** One file of the [refs] directory. *)
Definition inspect_ref (file : string) (r : IntegrityReportV1) : po IntegrityReportV1 :=
  match strip_suffix ".json" file with
  | None => mret (push_issue (InvalidBranchRef file "unexpected file in refs directory") r)
  | Some branch_id =>
      answer ← port_result (read_branch branch_id);
      match answer with
      | Err error => mret (push_issue (InvalidBranchRef file (commit_error_text io_text json_text error)) r)
      | Ok branch =>
          match rf_head_segment_hash branch with
          | None => mret r
          | Some head =>
              r ← inspect_checkpoint (rf_checkpoint_hash branch) r;
              inspect_lineage depth_fuel branch_id (Some head) None ∅ (add_head branch_id head r)
          end
      end
  end.
Fixpoint inspect_refs (files : list string) (r : IntegrityReportV1) : po IntegrityReportV1 :=
  match files with
  | [] => mret r
  | file :: files => r ← inspect_ref file r; inspect_refs files r
  end.
Definition inspect : po IntegrityReportV1 :=
  files ← list_ref_files;
  r ← inspect_refs files empty_report;
  mret (finish_report r).

(** ** Repair *)

Definition propose_non_destructive_repair (branch_id candidate_verified_head : string)
    (fresh_repair_branch_id : option string) : ig NonDestructiveRepairProposalV1 :=
  lineage ← validate_lineage io_text candidate_verified_head;
  if negb (im_accepted lineage) then
    mret (QuarantineForInspection branch_id
            (match im_diagnostics lineage with d :: _ => d | [] => "candidate lineage did not verify" end))
  else
    current ← port IgCommit (read_branch branch_id);
    if (rf_generation current =? 0) && negb (is_some (rf_head_segment_hash current)) then
      mret (CreatePointerOnlyRepair branch_id 0 None candidate_verified_head)
    else
      new_branch_id ← lift (ok_or fresh_repair_branch_id IgFreshBranchRequired);
      _ ← reject_if (bool_decide (new_branch_id = branch_id)) IgFreshBranchRequired;
      repair ← port IgCommit (read_branch new_branch_id);
      _ ← reject_if (negb (rf_generation repair =? 0) || is_some (rf_head_segment_hash repair)) IgRepairBranchExists;
      mret (CreateRepairBranch branch_id new_branch_id candidate_verified_head).

(** ** Collection *)

Fixpoint remove_all (namespace : string) (identities : list string) : ig () :=
  match identities with
  | [] => mret ()
  | identity :: identities =>
      _ ← port IgPortable (remove_verified namespace identity);
      remove_all namespace identities
  end.
Definition collect_locked (namespace : string) (first final_scan : ReachabilityScanV1)
    (first_unreachable_epoch_millis : gmap string N) (grace_millis : N) : ig (list string) :=
  current ← port IgPortable inspect;
  _ ← reject_if (negb (bool_decide (ir_branch_heads current = sc_branch_heads final_scan))) IgHeadChanged;
  _ ← reject_if (negb (bool_decide (report_reachable namespace current = sc_reachable final_scan))) IgHeadChanged;
  all ← port IgPortable (list_object_ids namespace);
  plan ← lift (map_err IgRetention (retention_plan_two_phase (list_to_set all) first final_scan
                                      first_unreachable_epoch_millis grace_millis));
  _ ← remove_all namespace (rt_collectable plan);
  mret (rt_collectable plan).
(** Opening and taking the lock of the heads. *)
Definition take_heads_lock : ig () :=
  _ ← port IgPortable open_lock;
  port (λ e, match e with WsIo k => IgIo k | e => IgPortable (PoWorkspace e) end) os_check.
Definition collect_verified_orphans (namespace : string) (first final_scan : ReachabilityScanV1)
    (first_unreachable_epoch_millis : gmap string N) (grace_millis : N) : ig (list string) :=
  _ ← reject_if (negb (bool_decide (namespace ∈ COLLECTED_NAMESPACES))) IgUnsafeNamespace;
  _ ← take_heads_lock;
  answer ← port_result (collect_locked namespace first final_scan first_unreachable_epoch_millis grace_millis);
  _ ← port_result os_check;
  lift answer.
End integrity.
