(* ===== verification/IntegrityProofs.v ===== *)
(** * Inspection finds everything reachable, and collection removes nothing else

    What is reachable from the branch heads is a relation on the files
    ([live]).  An inspection without issues reports all of it, and collection
    removes only objects of its namespace that no report had as reachable. *)
From S2P Require Export Integrity.

(** ** Names *)

Lemma strip_suffix_app b suffix : strip_suffix suffix (b +:+ suffix) = Some b.
Proof.
  assert (∀ c s, String c s +:+ suffix ≠ suffix) as Hne.
  { intros c s Heq. apply (f_equal String.length) in Heq. rewrite str_length_app in Heq. simpl in Heq. lia. }
  induction b as [|c b IH].
  - change (EmptyString +:+ suffix) with suffix. destruct suffix; cbn [strip_suffix]; by rewrite bool_decide_true.
  - change (strip_suffix suffix (String c (b +:+ suffix)) = Some (String c b)). cbn [strip_suffix].
    rewrite bool_decide_false by apply (Hne c b). by rewrite IH.
Qed.
Lemma split_on_plain sep s : any_byte (λ b, b =? byte_of sep) s = false → split_on sep s = [s].
Proof.
  induction s as [|c s IH]; [done|]. simpl. intros [Hc Hs]%orb_false_iff. rewrite bool_decide_false.
  - by rewrite IH.
  - intros ->. by rewrite N.eqb_refl in Hc.
Qed.
Lemma any_byte_app f a b : any_byte f (a +:+ b) = any_byte f a || any_byte f b.
Proof. induction a as [|c a IH]; [done|]. simpl. by rewrite IH, orb_assoc. Qed.
Lemma all_any f g s : (∀ b, f b = true → g b = false) → all_bytes f s = true → any_byte g s = false.
Proof.
  intros Hfg. induction s as [|c s IH]; [done|]. simpl. intros [Hc Hs]%andb_true_iff. by rewrite Hfg, IH.
Qed.
Lemma strip_prefix_app p s : strip_prefix p (p +:+ s) = Some s.
Proof. by apply strip_prefix_Some. Qed.

Lemma elem_of_dir_names (f : files) dir name :
  name ∈ dir_names f dir ↔ ∃ path bs, f !! path = Some bs ∧ child_name dir path = Some name.
Proof.
  unfold dir_names. rewrite elem_of_list_to_set, list_elem_of_omap. split.
  - intros (path & Hp & Hc). apply list_elem_of_fmap in Hp as ([k bs] & -> & Hp).
    apply elem_of_map_to_list in Hp. eauto.
  - intros (path & bs & Hp & Hc). exists path. split; [|done]. apply list_elem_of_fmap.
    exists (path, bs). split; [done|]. by apply elem_of_map_to_list.
Qed.
(** The file of a branch reference is an entry of its directory. *)
Lemma ref_file_listed f b bs : valid_name b = true → f !! ref_path b = Some bs → b +:+ ".json" ∈ dir_names f refs_dir.
Proof.
  intros Hb Hf. apply elem_of_dir_names. exists (ref_path b), bs. split; [done|]. unfold child_name, ref_path, refs_dir.
  change (".aworkit/portable/refs/" +:+ b +:+ ".json") with ((".aworkit/portable/refs" +:+ "/") +:+ (b +:+ ".json")).
  rewrite strip_prefix_app. simpl. rewrite split_on_plain; [done|]. rewrite any_byte_app, orb_false_r.
  unfold valid_name in Hb. boolify. eapply all_any; [|done].
  intros x Hx. apply N.eqb_neq. intros ->. by vm_compute in Hx.
Qed.

Lemma object_path_inj ns ns' a b :
  ns ∈ NAMESPACES → ns' ∈ NAMESPACES → object_path ns a = object_path ns' b → ns = ns' ∧ a = b.
Proof.
  unfold NAMESPACES. intros Hns Hns' Heq. apply str_app_inj_l in Heq.
  repeat (apply elem_of_cons in Hns as [->|Hns]); [..|by apply not_elem_of_nil in Hns];
    (repeat (apply elem_of_cons in Hns' as [->|Hns']); [..|by apply not_elem_of_nil in Hns']);
    first [discriminate Heq | split; [done|]; by do 2 apply str_app_inj_l in Heq].
Qed.
Lemma object_reference_inj ns ns' i j p :
  object_reference ns i = Ok p → object_reference ns' j = Ok p → ns = ns' ∧ i = j.
Proof.
  intros (Hns & _ & a & Ha & _ & _ & ->)%object_reference_ok (Hns' & _ & b & Hb & _ & _ & Heq)%object_reference_ok.
  apply object_path_inj in Heq as [-> ->]; [|done..].
  apply strip_prefix_Some in Ha as ->. by apply strip_prefix_Some in Hb as ->.
Qed.

(** ** Listings *)

Lemma scan_entries_silent entries : ∀ folded, silent (scan_entries entries folded).
Proof. induction entries as [|e entries IH]; intros folded; simpl; silence. Qed.
Lemma os_read_dir_reads P dir :
  reads P (os_read_dir dir) (λ l f, l = bt_elems (dir_names f dir))
    (λ e f, e = WsIo IoNotFound → bt_elems (dir_names f dir) = []).
Proof.
  intros s s' r _ Hr%os_call_run. destruct r as [a|e].
  - destruct Hr as [Ha ->]. split; [done|]. cbv zeta in Ha. case_match; [done|]. by injection Ha as <-.
  - destruct Hr as [Hk Hf]. split; [by destruct Hf as [->|(n & a & _ & ->)]|].
    intros Hek. destruct (Hk _ Hek) as [[? [=]]|He]. destruct (bt_elems _); [done|]. discriminate He.
Qed.
Lemma scan_entries_found entries : ∀ folded P (Q : files → Prop),
  reads P (scan_entries entries folded) (λ _ _, True) (λ e f, e = WsIo IoNotFound → Q f).
Proof.
  induction entries as [|e entries IH]; intros folded P Q; simpl; [by apply reads_ret|].
  eapply reads_bind; [apply os_check_found|]. intros ?.
  eapply reads_bind; [apply os_check_found|]. intros ?.
  eapply reads_bind; [by apply (reads_reject _ _ _ (λ _ _, True))|]. intros ?. apply IH.
Qed.
Lemma list_dir_reads P dir : reads P (list_dir dir) (λ l f, l = bt_elems (dir_names f dir)) (λ _ _, True).
Proof.
  unfold list_dir. eapply (reads_bind _ _ _ (λ r f,
    match r with
    | Ok l => l = bt_elems (dir_names f dir)
    | Err e => e = WsIo IoNotFound → bt_elems (dir_names f dir) = []
    end)).
  { apply reads_port_result. unfold read_dir_names, revalidate, reject_symlinks.
    eapply reads_bind; [eapply reads_bind; [apply os_check_found|intros ?; apply os_check_found]|]. intros ?.
    eapply reads_bind; [apply os_check_found|]. intros ?.
    eapply reads_bind; [apply os_read_dir_reads|]. intros entries.
    eapply reads_bind; [apply scan_entries_found|]. intros ?.
    apply reads_ret. intros f Hf. naive_solver. }
  intros [l|e]; [apply reads_ret; naive_solver|].
  destruct e as [| | | | | | | | | |[| |text]]; try (by apply reads_throw).
  apply reads_ret. intros f [_ Hn]. by rewrite Hn.
Qed.
Lemma list_dir_silent dir : silent (list_dir dir).
Proof. exact (reads_silent _ _ _ (list_dir_reads _ dir)). Qed.
Lemma os_read_dir_silent dir : silent (os_read_dir dir).
Proof. exact (reads_silent _ _ _ (os_read_dir_reads _ dir)). Qed.
#[export] Hint Resolve list_dir_silent os_read_dir_silent scan_entries_silent : silent.

(** ** Reports *)

(** A later report: more is reachable, and issues stay. *)
Record report_le (r r' : IntegrityReportV1) : Prop := {
  le_segments : ir_reachable_segments r ⊆ ir_reachable_segments r';
  le_checkpoints : ir_reachable_checkpoints r ⊆ ir_reachable_checkpoints r';
  le_artifacts : ir_reachable_artifacts r ⊆ ir_reachable_artifacts r';
  le_issues : ir_issues r' = [] → ir_issues r = []
}.
#[export] Instance report_le_refl : Reflexive report_le.
Proof. by intros r. Qed.
#[export] Instance report_le_trans : Transitive report_le.
Proof. intros r1 r2 r3 [] []. split; [set_solver..|auto]. Qed.
Lemma push_issue_le i r : report_le r (push_issue i r).
Proof. split; simpl; [done..|]. by intros [? _]%app_eq_nil. Qed.
Lemma push_if_le c i r : report_le r (push_if c i r).
Proof. destruct c; [apply push_issue_le|done]. Qed.
Lemma add_head_le b h r : report_le r (add_head b h r).
Proof. by split. Qed.
Lemma add_segment_le i r : report_le r (add_segment i r).
Proof. split; simpl; [set_solver|done..]. Qed.
Lemma add_checkpoint_le i r : report_le r (add_checkpoint i r).
Proof. split; simpl; [done|set_solver|done..]. Qed.
Lemma add_artifact_le i r : report_le r (add_artifact i r).
Proof. split; simpl; [done..|set_solver|done]. Qed.
Lemma push_issue_dirty i r : ir_issues (push_issue i r) ≠ [].
Proof. simpl. by intros [_ ?]%app_eq_nil. Qed.
Create HintDb report.
#[export] Hint Resolve push_issue_le push_if_le add_head_le add_segment_le add_checkpoint_le add_artifact_le
  report_le_refl : report.

Section integrity_proofs.
Context `{Sha256, !Serialize json, !Deserialize json}.
Context `{!FromValue PortableCheckpoint, !FromValue BranchRef}.
Context `{!ToValue SegmentHeaderV1, !FromValue SegmentHeaderV1}.
Context `{!ToValue SegmentEventV1, !FromValue SegmentEventV1}.
Context `{!ToValue SegmentTrailerV1, !FromValue SegmentTrailerV1}.
Context (io_text : io_error → string) (json_text : string).
Implicit Types (f : files) (h : string) (r : IntegrityReportV1).

(** ** What is reachable *)

Definition segment_parent f h p : Prop := ∃ segment, segment_view f h = Some segment ∧ sg_parent_segment_hash segment = Some p.
(** A branch reference that can be read and points to a head. *)
Definition points_to f (branch : BranchRef) h : Prop :=
  valid_name (rf_branch_id branch) = true ∧ ref_view f (rf_branch_id branch) = Some branch
  ∧ rf_head_segment_hash branch = Some h.
Inductive live f : string → string → Prop :=
| live_segment branch h0 h : points_to f branch h0 → rtc (segment_parent f) h0 h → live f "segments" h
| live_checkpoint branch h c : points_to f branch h → rf_checkpoint_hash branch = Some c → live f "checkpoints" c
| live_base h segment c :
    live f "segments" h → segment_view f h = Some segment → sg_base_checkpoint_hash segment = Some c →
    live f "checkpoints" c
| live_artifact h segment d :
    live f "segments" h → segment_view f h = Some segment → d ∈ context_artifacts segment →
    live f "artifacts" (ad_digest d).

(** A report has a segment and what it names. *)
Definition has_segment f r h : Prop :=
  h ∈ ir_reachable_segments r
  ∧ ∀ segment, segment_view f h = Some segment →
      (∀ c, sg_base_checkpoint_hash segment = Some c → c ∈ ir_reachable_checkpoints r)
      ∧ (∀ d, d ∈ context_artifacts segment → ad_digest d ∈ ir_reachable_artifacts r).
Definition has_lineage f r h0 : Prop := ∀ h, rtc (segment_parent f) h0 h → has_segment f r h.
Lemma has_segment_le f r r' h : report_le r r' → has_segment f r h → has_segment f r' h.
Proof. intros [] [Hs Ho]. split; [set_solver|]. intros segment Hv. destruct (Ho _ Hv). set_solver. Qed.
Lemma has_lineage_le f r r' h : report_le r r' → has_lineage f r h → has_lineage f r' h.
Proof. intros Hle Hh x Hx. eapply has_segment_le; [done|]. by apply Hh. Qed.

(** ** Inspection *)

Lemma read_checkpoint_silent c : silent (read_checkpoint c).
Proof. unfold read_checkpoint. silence. Qed.
#[local] Hint Resolve read_checkpoint_silent read_verified_silent : silent.
Lemma inspect_checkpoint_reads P o r :
  reads P (inspect_checkpoint o r)
    (λ r' _, report_le r r' ∧ ∀ c, o = Some c → c ∈ ir_reachable_checkpoints r') (λ _ _, True).
Proof.
  unfold inspect_checkpoint. destruct o as [c|]; [|by apply reads_ret].
  eapply reads_bind; [apply silent_reads; auto with silent|]. intros answer. apply reads_ret. intros f _. split.
  - etrans; [apply push_if_le|apply add_checkpoint_le].
  - intros ? [= <-]. simpl. set_solver.
Qed.
Lemma inspect_artifacts_reads P l : ∀ r,
  reads P (inspect_artifacts l r)
    (λ r' _, report_le r r' ∧ ∀ d, d ∈ l → ad_digest d ∈ ir_reachable_artifacts r') (λ _ _, True).
Proof.
  revert P. induction l as [|d l IH]; intros P r; simpl.
  { apply reads_ret. intros f _. split; [done|]. by intros d ?%not_elem_of_nil. }
  eapply reads_bind; [apply silent_reads; auto with silent|]. intros answer.
  eapply reads_weaken; [apply (IH (λ _, True))|done| |done]. intros r' f _ [Hle Hin].
  assert (report_le (add_artifact (ad_digest d) (push_if (is_err answer) (MissingArtifact (ad_digest d)) r)) r') as Hle'
    by done.
  split.
  - etrans; [|exact Hle']. etrans; [apply push_if_le|apply add_artifact_le].
  - intros x [->|Hx]%elem_of_cons; [|auto]. apply (le_artifacts _ _ Hle'). simpl. set_solver.
Qed.
Lemma inspect_read_reads P h :
  reads P (inspect_read h) (λ o f, ∀ segment, o = Some segment → segment_view f h = Some segment) (λ _ _, True).
Proof.
  unfold inspect_read. eapply (reads_bind _ _ _ (λ a f, ∀ bs, a = Ok bs → object_view f "segments" h = Some bs)).
  { apply reads_port_result. eapply reads_weaken; [apply (store_read_reads P)|done|naive_solver..]. }
  intros [bs|e]; apply reads_ret; intros f [_ Hv] segment Hs; [|done]. unfold segment_view.
  by rewrite (Hv _ eq_refl).
Qed.

Lemma inspect_lineage_reads fuel branch : ∀ P cursor child_first seen r,
  reads P (inspect_lineage fuel branch cursor child_first seen r)
    (λ r' f, report_le r r' ∧ (ir_issues r' = [] → ∀ h, cursor = Some h → has_lineage f r' h)) (λ _ _, True).
Proof.
  assert (∀ P i r h, reads P (mret (push_issue i r) : po _)
    (λ r' f, report_le r r' ∧ (ir_issues r' = [] → ∀ h', Some h = Some h' → has_lineage f r' h'))
    (λ _ _, True)) as Hstop.
  { intros P i r h. apply reads_ret. intros f _. split; [apply push_issue_le|]. by intros ?%push_issue_dirty. }
  induction fuel as [|fuel IH]; intros P [h|] child_first seen r; cbn [inspect_lineage];
    try (by apply reads_ret); [apply Hstop|].
  case_match; [apply Hstop|].
  eapply reads_bind; [apply inspect_read_reads|]. intros [segment|]; [|apply Hstop].
  case_match; [|apply Hstop]. cbv zeta.
  set (r0 := add_segment h (push_if _ _ r)).
  assert (report_le r r0) as Hr0 by (etrans; [apply push_if_le|apply add_segment_le]).
  eapply (reads_bind _ _ _ (λ r1 f, report_le r0 r1 ∧ has_segment f r1 h)).
  { unfold inspect_segment_objects. eapply reads_bind; [apply inspect_checkpoint_reads|]. intros r1. cbv beta.
    eapply reads_weaken; [apply (inspect_artifacts_reads (λ _, True))|done| |done]. intros r2 f [[_ Hv] [Hle1 Hc]] [Hle2 Ha].
    split; [by transitivity r1|]. split.
    - apply (le_segments _ _ Hle2), (le_segments _ _ Hle1). simpl. set_solver.
    - intros segment'. rewrite (Hv _ eq_refl). intros [= <-]. split; [|done].
      intros c Hcs. by apply (le_checkpoints _ _ Hle2), Hc. }
  intros r1. eapply reads_weaken; [apply (IH (λ _, True))|done| |done].
  intros r2 f [[_ Hv] [Hle1 Hseg]] [Hle2 Hrest].
  split; [transitivity r0; [done|]; by transitivity r1|].
  intros Hclean ? [= <-] x Hx. apply rtc_inv in Hx as [->|(p & (segment' & Hs & Hp) & Hx)].
  - by eapply has_segment_le.
  - rewrite (Hv _ eq_refl) in Hs. injection Hs as <-. exact (Hrest Hclean p Hp x Hx).
Qed.

(** What an inspection of one file of the directory promises. *)
Definition file_covered f r file : Prop :=
  ∀ branch h, points_to f branch h → file = rf_branch_id branch +:+ ".json" →
    has_lineage f r h ∧ ∀ c, rf_checkpoint_hash branch = Some c → c ∈ ir_reachable_checkpoints r.
Lemma file_covered_le f r r' file : report_le r r' → file_covered f r file → file_covered f r' file.
Proof.
  intros Hle Hc branch h Hp Hf. destruct (Hc branch h Hp Hf) as [Hl Hk].
  split; [by eapply has_lineage_le|]. intros c Hcc. by apply (le_checkpoints _ _ Hle), Hk.
Qed.
Lemma inspect_ref_reads P file r :
  reads P (inspect_ref io_text json_text file r)
    (λ r' f, report_le r r' ∧ (ir_issues r' = [] → file_covered f r' file)) (λ _ _, True).
Proof.
  assert (∀ P i r, reads P (mret (push_issue i r) : po _)
    (λ r' f, report_le r r' ∧ (ir_issues r' = [] → file_covered f r' file)) (λ _ _, True)) as Hstop.
  { intros P' i r'. apply reads_ret. intros f _. split; [apply push_issue_le|]. by intros ?%push_issue_dirty. }
  unfold inspect_ref. destruct (strip_suffix ".json" file) as [b|] eqn:Es; [|apply Hstop].
  assert (∀ branch, file = rf_branch_id branch +:+ ".json" → rf_branch_id branch = b) as Hb.
  { intros branch ->. rewrite strip_suffix_app in Es. by injection Es. }
  eapply (reads_bind _ _ _ (λ a f, ∀ branch, a = Ok branch → ref_view f b = Some branch)).
  { apply reads_port_result. eapply reads_weaken; [apply (read_branch_reads P)|done|naive_solver..]. }
  intros [branch|e]; [|apply Hstop].
  assert (∀ f branch' h, ref_view f b = Some branch → points_to f branch' h →
    file = rf_branch_id branch' +:+ ".json" → branch' = branch ∧ rf_head_segment_hash branch = Some h) as Hsame.
  { intros f branch' h Hv (_ & Hv' & Hh) Heq. rewrite (Hb _ Heq), Hv in Hv'. by simplify_eq. }
  destruct (rf_head_segment_hash branch) as [hd|] eqn:Eh.
  2: { apply reads_ret. intros f [_ Hv]. split; [done|]. intros _ branch' h Hp Heq.
       by destruct (Hsame f branch' h (Hv _ eq_refl) Hp Heq). }
  eapply reads_bind; [apply inspect_checkpoint_reads|]. intros r1. cbv beta.
  eapply reads_weaken; [apply (inspect_lineage_reads _ _ (λ _, True))|done| |done].
  intros r2 f [[_ Hv] [Hle1 Hc]] [Hle2 Hl].
  assert (report_le r1 r2) as Hle by (etrans; [apply add_head_le|done]). split; [by transitivity r1|].
  intros Hclean branch' h Hp Heq. destruct (Hsame f branch' h (Hv _ eq_refl) Hp Heq) as [-> [= <-]].
  split; [by apply Hl|]. intros c Hcc. by apply (le_checkpoints _ _ Hle), Hc.
Qed.
Lemma inspect_refs_reads l : ∀ P r,
  reads P (inspect_refs io_text json_text l r)
    (λ r' f, report_le r r' ∧ (ir_issues r' = [] → ∀ file, file ∈ l → file_covered f r' file)) (λ _ _, True).
Proof.
  induction l as [|file l IH]; intros P r; simpl.
  { apply reads_ret. intros f _. split; [done|]. by intros _ file ?%not_elem_of_nil. }
  eapply reads_bind; [apply inspect_ref_reads|]. intros r1.
  eapply reads_weaken; [apply (IH (λ _, True))|done| |done]. intros r2 f [_ [Hle1 H1]] [Hle2 H2].
  split; [by transitivity r1|]. intros Hclean x [->|Hx]%elem_of_cons; [|auto].
  eapply file_covered_le; [done|]. apply H1. by apply (le_issues _ _ Hle2).
Qed.

(** An inspection without issues reports everything that is reachable. *)
Lemma inspect_reads P :
  reads P (inspect io_text json_text)
    (λ r f, ir_issues r = [] → ∀ ns identity, live f ns identity → identity ∈ report_reachable ns r) (λ _ _, True).
Proof.
  unfold inspect, list_ref_files. eapply reads_bind; [apply list_dir_reads|]. intros l.
  eapply reads_bind; [apply inspect_refs_reads|]. intros r. apply reads_ret.
  intros f [[_ Hl] [_ Hcov]] Hclean ns identity Hlive. simpl in Hclean.
  assert (∀ branch h, points_to f branch h →
    has_lineage f r h ∧ ∀ c, rf_checkpoint_hash branch = Some c → c ∈ ir_reachable_checkpoints r) as Hpoint.
  { intros branch h Hp. refine (Hcov Hclean (rf_branch_id branch +:+ ".json") _ branch h Hp eq_refl).
    rewrite Hl, elem_of_bt_elems. destruct Hp as (Hn & Hv & Hh).
    unfold ref_view in Hv. destruct (f !! ref_path _) as [bs|] eqn:Ef; [by eapply ref_file_listed|].
    injection Hv as Hv. rewrite <- Hv in Hh. done. }
  assert (∀ h, live f "segments" h → has_segment f r h) as Hsegs.
  { intros h Hh. inversion Hh as [branch h0 x Hp Hx| | |]; subst. by apply (Hpoint _ _ Hp). }
  destruct Hlive as [branch h0 h Hp Hx|branch h c Hp Hc|h segment c Hh Hv Hc|h segment d Hh Hv Hd];
    unfold report_reachable; simpl.
  - by apply (Hpoint _ _ Hp).
  - by apply (Hpoint _ _ Hp).
  - destruct (Hsegs _ Hh) as [_ Ho]. by apply (Ho _ Hv).
  - destruct (Hsegs _ Hh) as [_ Ho]. by apply (Ho _ Hv).
Qed.
Lemma inspect_silent : silent (inspect io_text json_text).
Proof. exact (reads_silent _ _ _ (inspect_reads _)). Qed.

(** ** Collection *)

(** Objects of a namespace with the given identities may be gone; nothing
    else changed. *)
Definition removed ns (ids : list string) f f' : Prop :=
  ∀ x, f' !! x = f !! x ∨ f' !! x = None ∧ ∃ identity, identity ∈ ids ∧ object_reference ns identity = Ok x.
Lemma removed_refl ns ids f : removed ns ids f f.
Proof. by left. Qed.
Lemma removed_trans ns ids ids' f f1 f2 :
  removed ns ids f f1 → removed ns ids' f1 f2 → removed ns (ids ++ ids') f f2.
Proof.
  intros H1 H2 x. destruct (H2 x) as [->|(? & i & Hi & Hx)].
  - destruct (H1 x) as [->|(? & i & Hi & Hx)]; [by left|]. right. split; [done|]. exists i. split; [set_solver|done].
  - right. split; [done|]. exists i. split; [set_solver|done].
Qed.
Lemma remove_verified_hoare ns identity f0 :
  hoare (λ f, f = f0) (remove_verified ns identity)
    (λ _ f, removed ns [identity] f0 f ∧ object_view f ns identity = None) (λ _ f, removed ns [identity] f0 f).
Proof.
  assert (∀ E A (m : stm PortableStore E A), silent m →
    hoare (λ f, f = f0) m (λ _ f, f = f0) (λ _ f, removed ns [identity] f0 f)) as Hs.
  { intros E A m Hm. apply silent_hoare; [done|]. intros _ f ->. apply removed_refl. }
  unfold remove_verified. eapply hoare_bind; [apply Hs; auto with silent|]. intros ?.
  eapply (hoare_bind _ _ _ (λ p f, f = f0 ∧ object_reference ns identity = Ok p)).
  { apply hoare_lift; [done|]. intros f e -> _. apply removed_refl. }
  intros p. apply hoare_pure. intros Hp. apply hoare_port. unfold remove_file, reject_symlinks.
  do 2 (eapply hoare_bind; [apply Hs; auto with silent|]; intros ?).
  assert (removed ns [identity] f0 (delete p f0)) as Hdel.
  { intros x. destruct (decide (x = p)) as [->|Hne].
    - right. split; [apply lookup_delete_eq|]. exists identity. split; [set_solver|done].
    - left. by apply lookup_delete_ne. }
  intros s s' r Hf Hr%os_call_run. simpl in Hf. rewrite Hf in Hr. destruct r as [u|e].
  - destruct Hr as [_ ->]. simpl. split; [done|]. unfold object_view. rewrite Hp, lookup_delete_eq. done.
  - destruct Hr as [_ [->|(n & u & _ & ->)]]; [apply removed_refl|]. destruct n; [apply removed_refl|done].
Qed.
Lemma removed_object_view ns ids f f' identity :
  removed ns ids f f' → object_view f ns identity = None → object_view f' ns identity = None.
Proof.
  intros Hr. unfold object_view. destruct (object_reference ns identity) as [p|]; [|done].
  destruct (Hr p) as [->|[-> _]]; done.
Qed.
Lemma remove_all_hoare ns ids : ∀ f0,
  hoare (λ f, f = f0) (remove_all ns ids)
    (λ _ f, removed ns ids f0 f ∧ ∀ i, i ∈ ids → object_view f ns i = None) (λ _ f, removed ns ids f0 f).
Proof.
  induction ids as [|i ids IH]; intros f0; simpl.
  { apply hoare_ret. intros f ->. split; [apply removed_refl|]. by intros i ?%not_elem_of_nil. }
  intros s s' r Hf. unfold mbind, stm_bind. destruct (port _ _ s) as [s1 r1] eqn:E1.
  pose proof (hoare_port _ IgPortable _ _ (λ _ f, removed ns [i] f0 f) (remove_verified_hoare ns i f0) _ _ _ Hf E1) as H1.
  destruct r1 as [u|e].
  - intros E2. specialize (IH _ _ _ _ eq_refl E2). destruct H1 as [H1 Hi]. destruct r as [v|e].
    + destruct IH as [H2 Hall]. split; [exact (removed_trans _ [i] _ _ _ _ H1 H2)|].
      intros x [->|Hx]%elem_of_cons; [by eapply removed_object_view|auto].
    + exact (removed_trans _ [i] _ _ _ _ H1 IH).
  - intros [= <- <-]. intros x. destruct (H1 x) as [?|(? & j & Hj & Hx)]; [by left|].
    right. split; [done|]. exists j. split; [set_solver|done].
Qed.

(** More objects, the same references: what was reachable still is. *)
Lemma grow_live f f' ns identity : objects_grow f f' → live f ns identity → live f' ns identity.
Proof.
  intros Hg. pose proof (grow_keeps_objects _ _ Hg) as Hk.
  assert (∀ branch h, points_to f branch h → points_to f' branch h) as Hp.
  { intros branch h (Hn & Hv & Hh). split_and!; [done| |done]. unfold ref_view in *.
    destruct (Hg (ref_path (rf_branch_id branch)) (ref_not_temp _)) as [->|[_ Ho]]; [done|].
    by apply ref_not_object in Ho. }
  assert (∀ h p, segment_parent f h p → segment_parent f' h p) as Hpar.
  { intros h p (segment & Hv & Hs). exists segment. split; [by eapply segment_view_keep|done]. }
  induction 1 as [branch h0 h Hb Hx|branch h c Hb Hc|h segment c Hh IH Hv Hc|h segment d Hh IH Hv Hd].
  - eapply live_segment; [by apply Hp|]. by eapply rtc_subrel.
  - eapply live_checkpoint; [by apply Hp|done].
  - eapply live_base; [done|by eapply segment_view_keep|done].
  - eapply live_artifact; [done|by eapply segment_view_keep|done].
Qed.
Lemma take_heads_lock_grows : only_grows take_heads_lock.
Proof.
  unfold take_heads_lock. apply only_grows_bind; [apply only_grows_port, open_lock_grows|]. intros ?.
  apply silent_grows. silence.
Qed.

Lemma collect_locked_run ns first final_scan started grace s s2 report s' (r : result IntegrityError (list string)) :
  inspect io_text json_text s = (s2, Ok report) →
  collect_locked io_text json_text ns first final_scan started grace s = (s', r) →
  ∃ ids, removed ns ids (fs_files s) (fs_files s')
    ∧ (∀ i, i ∈ ids → i ∉ sc_reachable first ∧ i ∉ sc_reachable final_scan ∧ i ∉ report_reachable ns report)
    ∧ ∀ l, r = Ok l → l = ids ∧ ∀ i, i ∈ ids → object_view (fs_files s') ns i = None.
Proof.
  intros Hi. pose proof (inspect_silent _ _ _ Hi) as Hf.
  assert (∀ s0 e, fs_files s0 = fs_files s → (s0, Err e) = (s', r) → ∃ ids, removed ns ids (fs_files s) (fs_files s')
    ∧ (∀ i, i ∈ ids → i ∉ sc_reachable first ∧ i ∉ sc_reachable final_scan ∧ i ∉ report_reachable ns report)
    ∧ ∀ l, r = Ok l → l = ids ∧ ∀ i, i ∈ ids → object_view (fs_files s') ns i = None) as Hstop.
  { intros s0 e Hs [= <- <-]. exists []. rewrite Hs. split_and!; [apply removed_refl|set_solver|done]. }
  unfold collect_locked. unfold mbind at 1, stm_bind at 1, port at 1. rewrite Hi. simpl.
  unfold mbind at 1, stm_bind at 1, reject_if at 1. destruct (fail_if _ _) as [[]|]; [|by apply Hstop].
  unfold mbind at 1, stm_bind at 1, reject_if at 1. destruct (fail_if _ _) as [[]|] eqn:Er; [|by apply Hstop].
  apply fail_if_ok in Er. boolify.
  unfold mbind at 1, stm_bind at 1. destruct (port IgPortable (list_object_ids ns) s2) as [s3 r3] eqn:E3.
  assert (fs_files s3 = fs_files s) as Hf3.
  { rewrite <- Hf. revert E3. match goal with |- ?m s2 = _ → _ => assert (silent m) as Hs end; [|apply Hs].
    unfold list_object_ids. silence. }
  destruct r3 as [all|e]; [|by apply Hstop].
  unfold mbind at 1, stm_bind at 1, lift at 1.
  destruct (retention_plan_two_phase _ _ _ _ _) as [plan|] eqn:Eplan; simpl; [|by apply Hstop].
  unfold mbind, stm_bind. destruct (remove_all ns _ s3) as [s4 r4] eqn:E4.
  pose proof (remove_all_hoare ns _ (fs_files s3) _ _ _ eq_refl E4) as Hrem. rewrite Hf3 in Hrem.
  intros Hr. exists (rt_collectable plan).
  assert (removed ns (rt_collectable plan) (fs_files s) (fs_files s')) as Hrm.
  { destruct r4; unfold mret, stm_ret in Hr; injection Hr as <- <-; naive_solver. }
  split_and!; [done| |].
  - intros i Hin. destruct (two_phase_collectable _ _ _ _ _ _ _ Eplan Hin) as (_ & ? & ?).
    split_and!; [done..|]. by rewrite Er.
  - intros l ->. destruct r4; [|done]. unfold mret, stm_ret in Hr. injection Hr as <- <-. by destruct Hrem.
Qed.

(** What collection does to the files: at most the lock file appears, or it
    also removes objects that neither the scans nor the inspection under the
    lock had as reachable. *)
Lemma collect_run ns first final_scan started grace s s' (r : result IntegrityError (list string)) :
  collect_verified_orphans io_text json_text ns first final_scan started grace s = (s', r) →
  objects_grow (fs_files s) (fs_files s')
  ∨ ∃ s1 s2 report ids, take_heads_lock s = (s1, Ok ()) ∧ inspect io_text json_text s1 = (s2, Ok report)
      ∧ objects_grow (fs_files s) (fs_files s1) ∧ removed ns ids (fs_files s1) (fs_files s')
      ∧ ∀ i, i ∈ ids → i ∉ sc_reachable first ∧ i ∉ sc_reachable final_scan ∧ i ∉ report_reachable ns report.
Proof.
  unfold collect_verified_orphans. unfold mbind at 1, stm_bind at 1, reject_if at 1.
  destruct (fail_if _ _) as [[]|]; [|intros [= <- <-]; by left].
  unfold mbind at 1, stm_bind at 1. destruct (take_heads_lock s) as [s1 r1] eqn:E1.
  pose proof (take_heads_lock_grows _ _ _ E1) as Hg. destruct r1 as [[]|e]; [|intros [= <- <-]; by left].
  unfold mbind at 1, stm_bind at 1, port_result at 1.
  destruct (collect_locked _ _ _ _ _ _ _ s1) as [s3 r3] eqn:E3.
  unfold mbind, stm_bind, lift. destruct (port_result os_check s3) as [s4 r4] eqn:E4.
  assert (fs_files s4 = fs_files s3) as Hf4 by (revert E4; apply silent_port_result; auto with silent).
  intros Hr. assert (s' = s4) as -> by (by destruct r4; injection Hr as <- <-). rewrite Hf4.
  destruct (inspect io_text json_text s1) as [s2 [report|e]] eqn:E2.
  - right. destruct (collect_locked_run _ _ _ _ _ _ _ _ _ _ E2 E3) as (ids & Hrem & Hids & _).
    exists s1, s2, report, ids. done.
  - left. unfold collect_locked, mbind, stm_bind, port in E3. rewrite E2 in E3. injection E3 as <- <-.
    by rewrite (inspect_silent _ _ _ E2).
Qed.

(** C23: Collecting orphans is safe when the inspection it makes under the lock
    finds no issue: an object that can be read and is reachable from the head
    of a branch, directly, as a checkpoint or as an artifact, can be read
    afterwards; whatever the inspection finds, only objects of the namespace
    that neither scan nor the inspection had as reachable are removed, and on
    success the identities answered are gone. *)
Theorem collection_safe ns first final_scan started grace s s1 u s2 report s'
    (r : result IntegrityError (list string)) :
  take_heads_lock s = (s1, Ok u) → inspect io_text json_text s1 = (s2, Ok report) →
  collect_verified_orphans io_text json_text ns first final_scan started grace s = (s', r) →
  (ir_issues report = [] → ∀ identity bs, live (fs_files s) ns identity →
     object_view (fs_files s) ns identity = Some bs → object_view (fs_files s') ns identity = Some bs)
  ∧ (∀ x bs, ¬ is_temp x → fs_files s !! x = Some bs →
       fs_files s' !! x = Some bs
       ∨ ∃ i, object_reference ns i = Ok x ∧ i ∉ sc_reachable first ∧ i ∉ sc_reachable final_scan
              ∧ i ∉ report_reachable ns report)
  ∧ (∀ l i, r = Ok l → i ∈ l → object_view (fs_files s') ns i = None).
Proof.
  intros Hlock Hi. unfold collect_verified_orphans. unfold mbind at 1, stm_bind at 1, reject_if at 1.
  destruct (fail_if _ _) as [[]|]; [|intros [= <- <-]; split_and!; by auto].
  unfold mbind at 1, stm_bind at 1. rewrite Hlock. pose proof (take_heads_lock_grows _ _ _ Hlock) as Hg.
  unfold mbind at 1, stm_bind at 1, port_result at 1.
  destruct (collect_locked _ _ _ _ _ _ _ s1) as [s3 r3] eqn:E3.
  destruct (collect_locked_run _ _ _ _ _ _ _ _ _ _ Hi E3) as (ids & Hrem & Hids & Hgone).
  unfold mbind, stm_bind, lift. destruct (port_result os_check s3) as [s4 r4] eqn:E4.
  assert (fs_files s4 = fs_files s3) as Hf4 by (revert E4; apply silent_port_result; auto with silent).
  intros Hr. assert (s' = s4 ∧ ∀ l, r = Ok l → r3 = Ok l) as [-> Hok].
  { destruct r4; injection Hr as <- <-; by split. }
  rewrite Hf4. split_and!.
  - intros Hclean identity bs Hlive Hv.
    destruct (inspect_reads (λ _, True) _ _ _ I Hi) as [_ Hall].
    specialize (Hall Hclean _ _ (grow_live _ _ _ _ Hg Hlive)).
    apply (object_view_keep _ _ _ _ _ (grow_keeps_objects _ _ Hg)) in Hv. revert Hv.
    unfold object_view. destruct (object_reference ns identity) as [p|] eqn:Ep; [|done].
    destruct (Hrem p) as [->|(_ & i & Hin & Hp)]; [done|].
    rewrite (proj2 (object_reference_inj _ _ _ _ _ Ep Hp)) in Hall. by destruct (Hids i Hin) as (_ & _ & ?).
  - intros x bs Hx Hb. apply (objects_grow_keep _ _ _ _ Hg Hx) in Hb.
    destruct (Hrem x) as [->|(_ & i & Hin & Hp)]; [by left|]. right. exists i. split; [done|]. by apply Hids.
  - intros l i Hl Hin. destruct (Hgone l (Hok l Hl)) as [-> Hno]. by apply Hno.
Qed.
End integrity_proofs.
