(* ===== verification/Manifest.v ===== *)
(** * Manifests ([crates/aworkit-portable-store/src/manifest.rs])

    Repository, session and branch metadata: their checks, the version
    negotiation, the content-addressed catalog and the creation of a child
    continuation.  With them the interface of the repository is complete:
    [store_op] is every operation of the crate on a repository, and
    [objects_immutable] says what becomes of a published object under all of
    them. *)
From S2P Require Export Projection PortableCodec IntegrityProofs.

(** [export.rs]: the identity of the policy. *)
Definition policy_hash : string := "sha256:7c356af29b04bfd71c164dbc5d230068371ec03a46599f755f17e14c2d636c50".
Definition PORTABLE_FAMILY : string := "aworkit-portable-session".
Definition PORTABLE_MAJOR : N := 1.
Definition PORTABLE_MINOR : N := 0.

Record RepositoryManifest : Type := MkRepositoryManifest {
  rm_family : string;
  rm_major : N;
  rm_minor : N;
  rm_required_features : list string
}.
Record SessionManifest : Type := MkSessionManifest {
  sm_session_id : string;
  sm_chat_id : string;
  sm_run_id : string;
  sm_frozen_snapshot_hash : string;
  sm_canonical_branch_id : string;
  sm_export_policy_hash : string
}.
Record BranchManifest : Type := MkBranchManifest {
  bm_branch_id : string;
  bm_session_id : string;
  bm_parent_branch_id : option string;
  bm_parent_checkpoint_hash : option string;
  bm_parent_head_hash : option string
}.
Record ChildContinuationManifestRequestV1 : Type := MkChildRequest {
  cr_plan : ChildContinuationPlanV1;
  cr_child_session_id : string;
  cr_child_run_id : string;
  cr_fresh_frozen_snapshot_hash : string;
  cr_verified_parent_checkpoint_hash : option string;
  cr_verified_parent_head_hash : string;
  cr_user_confirmed : bool
}.
Record ChildContinuationManifestReceiptV1 : Type := MkChildReceipt {
  cx_session_manifest_hash : string;
  cx_branch_manifest_hash : string;
  cx_session : SessionManifest;
  cx_branch : BranchManifest
}.
Inductive ManifestEnvelopeV1 : Type :=
| EnvRepository (manifest : RepositoryManifest)
| EnvSession (manifest : SessionManifest)
| EnvBranch (manifest : BranchManifest).
Inductive RepositoryCompatibility : Type :=
| ReadWrite
| ReadOnlyNewerMinor
| UnsupportedFamily
| UnsupportedMajor
| MissingFeatures (features : list string).
Inductive ManifestError : Type :=
| MnMalformed
| MnSelfParent
| MnContinuationNotConfirmed
| MnPortable (error : PortableError)
| MnCodec (error : CodecError).

Definition writable (c : RepositoryCompatibility) : bool := match c with ReadWrite => true | _ => false end.
Definition compatibility (supported_features : gset string) (m : RepositoryManifest) : RepositoryCompatibility :=
  if negb (bool_decide (rm_family m = PORTABLE_FAMILY)) then UnsupportedFamily
  else if negb (rm_major m =? PORTABLE_MAJOR) then UnsupportedMajor
  else
    let missing := filter (λ f, f ∉ supported_features) (rm_required_features m) in
    if negb (is_nil missing) then MissingFeatures missing
    else if PORTABLE_MINOR <? rm_minor m then ReadOnlyNewerMinor else ReadWrite.

Definition validate_repository (m : RepositoryManifest) : result ManifestError () :=
  fail_if (any_pair str_ge (rm_required_features m)
           || existsb (λ f, negb (valid_name f)) (rm_required_features m)) MnMalformed.
Definition validate_session (m : SessionManifest) : result ManifestError () :=
  _ ← for_each (λ value, fail_if (negb (valid_name value)) MnMalformed)
        [sm_session_id m; sm_chat_id m; sm_run_id m; sm_canonical_branch_id m];
  fail_if (negb (codec_valid_hash (sm_frozen_snapshot_hash m))
           || negb (bool_decide (sm_export_policy_hash m = policy_hash))) MnMalformed.
Definition validate_branch (m : BranchManifest) : result ManifestError () :=
  _ ← fail_if (negb (valid_name (bm_branch_id m)) || negb (valid_name (bm_session_id m))
               || is_some_and (bm_parent_branch_id m) (λ v, negb (valid_name v))
               || is_some_and (bm_parent_checkpoint_hash m) (λ v, negb (codec_valid_hash v))
               || is_some_and (bm_parent_head_hash m) (λ v, negb (codec_valid_hash v))) MnMalformed;
  fail_if (bool_decide (bm_parent_branch_id m = Some (bm_branch_id m))) MnSelfParent.
Definition validate_manifest (m : ManifestEnvelopeV1) : result ManifestError () :=
  match m with
  | EnvRepository value => validate_repository value
  | EnvSession value => validate_session value
  | EnvBranch value => validate_branch value
  end.

Definition child_session (request : ChildContinuationManifestRequestV1) : SessionManifest :=
  MkSessionManifest (cr_child_session_id request) (ch_child_chat_id (cr_plan request)) (cr_child_run_id request)
    (cr_fresh_frozen_snapshot_hash request) (ch_child_branch_id (cr_plan request)) policy_hash.
Definition child_branch (request : ChildContinuationManifestRequestV1) : BranchManifest :=
  MkBranchManifest (ch_child_branch_id (cr_plan request)) (cr_child_session_id request)
    (Some (ch_parent_branch_id (cr_plan request))) (cr_verified_parent_checkpoint_hash request)
    (Some (cr_verified_parent_head_hash request)).
Definition continuation_refused (request : ChildContinuationManifestRequestV1) : bool :=
  negb (cr_user_confirmed request)
  || negb (ch_can_create_after_user_confirmation (cr_plan request))
  || negb (ch_fresh_snapshot_required (cr_plan request))
  || negb (ch_fresh_authority_required (cr_plan request))
  || negb (ch_fresh_approvals_required (cr_plan request))
  || ch_imported_runtime_resumable (cr_plan request)
  || negb (valid_name (cr_child_session_id request))
  || negb (valid_name (cr_child_run_id request))
  || negb (codec_valid_hash (cr_fresh_frozen_snapshot_hash request))
  || negb (codec_valid_hash (cr_verified_parent_head_hash request))
  || is_some_and (cr_verified_parent_checkpoint_hash request) (λ v, negb (codec_valid_hash v)).

Section catalog.
Context `{Sha256, !Serialize json, !Deserialize json}.
Context `{!ToValue ManifestEnvelopeV1, !FromValue ManifestEnvelopeV1}.
Abbreviation mn := (stm PortableStore ManifestError).

Definition catalog_publish (manifest : ManifestEnvelopeV1) : mn string :=
  _ ← lift (validate_manifest manifest);
  bs ← lift (map_err MnCodec (encode_record manifest));
  port MnPortable (store_publish "manifests" bs).
Definition catalog_read (identity : string) : mn ManifestEnvelopeV1 :=
  bs ← port MnPortable (store_read "manifests" identity);
  manifest ← lift (map_err MnCodec (decode_record (T:=ManifestEnvelopeV1) bs));
  _ ← lift (validate_manifest manifest);
  mret manifest.
Definition publish_child_continuation (request : ChildContinuationManifestRequestV1) :
    mn ChildContinuationManifestReceiptV1 :=
  _ ← reject_if (continuation_refused request) MnContinuationNotConfirmed;
  let session := child_session request in
  let branch := child_branch request in
  _ ← lift (validate_session session);
  _ ← lift (validate_branch branch);
  session_manifest_hash ← catalog_publish (EnvSession session);
  branch_manifest_hash ← catalog_publish (EnvBranch branch);
  mret (MkChildReceipt session_manifest_hash branch_manifest_hash session branch).
End catalog.

(** ** Child continuations *)

Section continuation.
Context `{Sha256, !Serialize json, !Deserialize json}.
Context `{!ToValue ManifestEnvelopeV1, !FromValue ManifestEnvelopeV1, !PlainRecord ManifestEnvelopeV1}.
Implicit Types (m : ManifestEnvelopeV1).

Lemma catalog_publish_keeps m s s' r : catalog_publish m s = (s', r) → keeps_objects (fs_files s) (fs_files s').
Proof.
  intros Hr. apply grow_keeps_objects. revert Hr. unfold catalog_publish.
  match goal with |- ?c s = _ → _ => assert (only_grows c) as Hg end; [|apply Hg].
  do 2 (apply only_grows_bind; [apply silent_grows; auto with silent|]; intros ?).
  apply only_grows_port, store_publish_grows.
Qed.
(** A manifest in the catalog reads back as it was published, unless a call
    of the operating system fails. *)
Definition reads_back m (r : result ManifestError ManifestEnvelopeV1) : Prop :=
  r = Ok m ∨ ∃ g, r = Err (MnPortable (PoWorkspace (failure_error g))).
Lemma catalog_roundtrip m s s1 identity s2 s3 r :
  catalog_publish m s = (s1, Ok identity) → keeps_objects (fs_files s1) (fs_files s2) →
  catalog_read identity s2 = (s3, r) → reads_back m r.
Proof.
  intros Hpub Hkeep. unfold catalog_publish in Hpub. run_inv Hpub.
  match goal with Hv : validate_manifest m = Ok ?u |- _ => rename Hv into Hval; destruct u end.
  match goal with He : encode_record m = Ok ?b |- _ => rename He into Henc; rename b into bs end.
  destruct (decode_encode _ _ Henc) as [Hdec _]. apply port_ok in Hpub.
  unfold catalog_read, mbind, stm_bind, lift. destruct (port _ _ s2) as [s4 r4] eqn:E4.
  apply port_run in E4 as (r0 & E4 & ->).
  destruct (published_reads _ _ _ _ _ _ _ _ Hpub Hkeep E4) as [->|[g ->]]; simpl.
  - rewrite Hdec. simpl. rewrite Hval. intros [= <- <-]. by left.
  - intros [= <- <-]. right. by exists g.
Qed.

(** A child continuation: what is published was confirmed by the user, every
    requirement of the imported branch has exactly one compatible provider on
    this machine, the child is a chat and a branch of its own, and, whatever
    the repository does later, reading the two manifests gives the child of
    the verified parent head. *)
Theorem child_continuation parent_chat parent_branch child_chat child_branch_id required local request
    s s' receipt s1 s2 r1 s3 r2 :
  cr_plan request = plan_child_continuation parent_chat parent_branch child_chat child_branch_id required local →
  publish_child_continuation request s = (s', Ok receipt) →
  keeps_objects (fs_files s') (fs_files s1) →
  catalog_read (cx_session_manifest_hash receipt) s1 = (s2, r1) →
  catalog_read (cx_branch_manifest_hash receipt) s1 = (s3, r2) →
  cr_user_confirmed request = true
  ∧ Forall (one_provider local) required
  ∧ parent_chat ≠ child_chat ∧ parent_branch ≠ child_branch_id
  ∧ reads_back (EnvSession (MkSessionManifest (cr_child_session_id request) child_chat (cr_child_run_id request)
                 (cr_fresh_frozen_snapshot_hash request) child_branch_id policy_hash)) r1
  ∧ reads_back (EnvBranch (MkBranchManifest child_branch_id (cr_child_session_id request) (Some parent_branch)
                 (cr_verified_parent_checkpoint_hash request) (Some (cr_verified_parent_head_hash request)))) r2.
Proof.
  intros Hplan Hpub Hkeep H1 H2. unfold publish_child_continuation in Hpub. run_inv Hpub.
  match goal with Hc : continuation_refused _ = false |- _ => unfold continuation_refused in Hc; rename Hc into Href end.
  unfold child_session, child_branch in *. rewrite Hplan in *. simpl in *. boolify.
  match goal with Ha : catalog_publish (EnvSession _) _ = _, Hb : catalog_publish (EnvBranch _) _ = _ |- _ =>
    rename Ha into Hsession; rename Hb into Hbranch end.
  split_and!; [done| |done|done| |].
  - apply Forall_forall. intros q Hq. apply resolve_iff.
    match goal with Hall : forallb is_resolved _ = true |- _ => rewrite forallb_forall in Hall; apply Hall end.
    apply in_map_iff. exists q. split; [done|]. by apply list_elem_of_In.
  - eapply catalog_roundtrip; [exact Hsession| |exact H1].
    etrans; [by eapply catalog_publish_keeps|done].
  - by eapply catalog_roundtrip; [exact Hbranch| |exact H2].
Qed.
End continuation.

(** * Objects under every operation *)

(** The public operations of the crate on a repository, by file. *)
Inductive store_op : Type :=
(* [repository.rs] *)
| OpPublish (ns : string) (bs : bytes)
| OpRead (ns identity : string)
| OpContains (ns identity : string)
| OpRemoveVerified (ns identity : string)
(* [commit.rs] *)
| OpInjectFault (point : CommitFaultPoint)
| OpPrepareCommit (commit : PortableCommit)
| OpPublishCommit (prepared : PreparedCommit)
| OpVerifyCommit (prepared : PreparedCommit)
| OpPreparePublishVerify (commit : PortableCommit)
| OpReadBranch (branch_id : string)
(* [port.rs] *)
| OpPrepare (request : PortablePrepareV1)
| OpPublishPrepared (prepared : PortablePreparedV1)
| OpVerify (receipt : PortableCommitReceiptV1)
| OpReadHead (branch_id : StableId)
(* [artifact.rs] *)
| OpAdmitText (media_type : string) (bs : bytes)
| OpReadArtifact (digest : string)
| OpReadVerified (descriptor : ArtifactDescriptor)
| OpReadRange (descriptor : ArtifactDescriptor) (offset length : N)
(* [projection.rs] *)
| OpValidateImport (segment_hash : string)
| OpValidateLineage (tip_hash : string)
| OpReadPage (segment_hash : string) (start limit : N)
(* [manifest.rs] *)
| OpPublishManifest (manifest : ManifestEnvelopeV1)
| OpReadManifest (identity : string)
| OpPublishChild (request : ChildContinuationManifestRequestV1)
(* [integrity.rs] *)
| OpInspect
| OpProposeRepair (branch_id candidate : string) (fresh_repair_branch_id : option string)
| OpCollect (ns : string) (first final_scan : ReachabilityScanV1) (started : gmap string N) (grace : N).

Section operations.
Context `{Sha256, !Sha256Laws, !Serialize json, !Deserialize json}.
Context `{!ToValue PortableCommitContextV1, !ToValue PortableEvent}.
Context `{!ToValue PortableCheckpoint, !FromValue PortableCheckpoint}.
Context `{!ToValue SegmentHeaderV1, !FromValue SegmentHeaderV1}.
Context `{!ToValue SegmentEventV1, !FromValue SegmentEventV1}.
Context `{!ToValue SegmentTrailerV1, !FromValue SegmentTrailerV1}.
Context `{!ToValue PreparedCommit, !FromValue PreparedCommit}.
Context `{!ToValue BranchRef, !FromValue BranchRef, !PlainRecord BranchRef, !BoundedRefs}.
Context `{!ToValue ProtocolPreparedClaimV1, !FromValue ProtocolPreparedClaimV1}.
Context `{!JsonRecord ProtocolPreparedClaimV1 claim_same}.
Context `{!FromValue PortableTransitionRecordV1, !FromValue CommitBatchV1, !ToValue CheckpointV1}.
Context `{!ToValue ManifestEnvelopeV1, !FromValue ManifestEnvelopeV1}.
Context (io_text : io_error → string) (json_text : string).
Implicit Types (s : PortableStore).

(** The repository after an operation, whether it succeeds or fails. *)
Definition run_store_op (op : store_op) (s : PortableStore) : PortableStore :=
  match op with
  | OpPublish ns bs => (store_publish ns bs s).1
  | OpRead ns identity => (store_read ns identity s).1
  | OpContains ns identity => (contains ns identity s).1
  | OpRemoveVerified ns identity => (remove_verified ns identity s).1
  | OpInjectFault point => (inject_fault_once point s).1
  | OpPrepareCommit commit => (repo_prepare_commit commit s).1
  | OpPublishCommit prepared => (repo_publish_commit prepared s).1
  | OpVerifyCommit prepared => (repo_verify_commit prepared s).1
  | OpPreparePublishVerify commit => (prepare_publish_verify commit s).1
  | OpReadBranch branch_id => (read_branch branch_id s).1
  | OpPrepare request => (prepare_port request s).1
  | OpPublishPrepared prepared => (publish_port prepared s).1
  | OpVerify receipt => (verify_port receipt s).1
  | OpReadHead branch_id => (read_head_port branch_id s).1
  | OpAdmitText media_type bs => (admit_text media_type bs s).1
  | OpReadArtifact digest => (artifact_read digest s).1
  | OpReadVerified descriptor => (read_verified descriptor s).1
  | OpReadRange descriptor offset length => (read_range descriptor offset length s).1
  | OpValidateImport segment_hash => (validate_import (E:=PortableError) io_text segment_hash s).1
  | OpValidateLineage tip_hash => (validate_lineage (E:=PortableError) io_text tip_hash s).1
  | OpReadPage segment_hash start limit => (read_page io_text segment_hash start limit s).1
  | OpPublishManifest manifest => (catalog_publish manifest s).1
  | OpReadManifest identity => (catalog_read identity s).1
  | OpPublishChild request => (publish_child_continuation request s).1
  | OpInspect => (inspect io_text json_text s).1
  | OpProposeRepair branch_id candidate fresh =>
      (propose_non_destructive_repair io_text branch_id candidate fresh s).1
  | OpCollect ns first final_scan started grace =>
      (collect_verified_orphans io_text json_text ns first final_scan started grace s).1
  end.
Definition store_step s s' : Prop := ∃ op, s' = run_store_op op s.

(** An operation that is asked to delete an object: by name, or as an orphan
    that both scans and the inspection under the lock had as unreachable. *)
Definition deletes ns identity s s' : Prop :=
  s' = run_store_op (OpRemoveVerified ns identity) s
  ∨ ∃ first final_scan started grace s1 s2 report,
      s' = run_store_op (OpCollect ns first final_scan started grace) s
      ∧ take_heads_lock s = (s1, Ok ()) ∧ inspect io_text json_text s1 = (s2, Ok report)
      ∧ identity ∉ sc_reachable first ∧ identity ∉ sc_reachable final_scan
      ∧ identity ∉ report_reachable ns report.

(** ** The operations that delete nothing *)

Definition keeping {E A} (m : stm PortableStore E A) : Prop := ∀ s, keeps_objects (fs_files s) (fs_files (m s).1).
Lemma grows_keeping {E A} (m : stm PortableStore E A) : only_grows m → keeping m.
Proof. intros Hm s. apply grow_keeps_objects. by apply (Hm s _ (m s).2), surjective_pairing. Qed.
Lemma silent_keeping {E A} (m : stm PortableStore E A) : silent m → keeping m.
Proof. intros Hm. by apply grows_keeping, silent_grows. Qed.
Lemma run_keeping {E A} (m : stm PortableStore E A) :
  (∀ s s' r, m s = (s', r) → keeps_objects (fs_files s) (fs_files s')) → keeping m.
Proof. intros Hm s. by apply (Hm s _ (m s).2), surjective_pairing. Qed.
Lemma keeping_bind {E A B} (m : stm PortableStore E A) (k : A → stm PortableStore E B) :
  keeping m → (∀ a, keeping (k a)) → keeping (m ≫= k).
Proof.
  intros Hm Hk s. unfold mbind, stm_bind. specialize (Hm s). destruct (m s) as [s1 [a|e]]; simpl in *; [|done].
  etrans; [exact Hm|apply Hk].
Qed.
Lemma admit_text_grows media_type bs : only_grows (admit_text media_type bs).
Proof.
  unfold admit_text. do 4 (apply only_grows_bind; [apply silent_grows; silence|]; intros ?).
  apply only_grows_bind; [apply only_grows_port, store_publish_grows|]. intros ?. apply silent_grows. silence.
Qed.
Lemma child_keeping request : keeping (publish_child_continuation request).
Proof.
  unfold publish_child_continuation. do 3 (apply keeping_bind; [apply silent_keeping; silence|]; intros ?).
  do 2 (apply keeping_bind; [apply run_keeping; intros; by eapply catalog_publish_keeps|]; intros ?).
  apply silent_keeping. silence.
Qed.
Lemma propose_repair_silent b c fresh : silent (propose_non_destructive_repair io_text b c fresh).
Proof.
  unfold propose_non_destructive_repair. pose proof read_branch_silent.
  apply silent_bind; [apply validate_lineage_silent|]. intros lineage. case_match; silence.
Qed.

Lemma other_ops_keep op s :
  match op with OpRemoveVerified _ _ | OpCollect _ _ _ _ _ => False | _ => True end →
  keeps_objects (fs_files s) (fs_files (run_store_op op s)).
Proof.
  destruct op; intros Hop; try done; cbn [run_store_op].
  - by apply grows_keeping, store_publish_grows.
  - by apply silent_keeping, store_read_silent.
  - apply silent_keeping. unfold contains. silence.
  - by apply grows_keeping, prepare_commit_grows.
  - by apply run_keeping, publish_commit_keeps_objects.
  - by apply silent_keeping, verify_commit_silent.
  - apply keeping_bind; [by apply grows_keeping, prepare_commit_grows|]. intros p.
    apply keeping_bind; [apply run_keeping, publish_commit_keeps_objects|]. intros ?.
    by apply silent_keeping, verify_commit_silent.
  - by apply silent_keeping, read_branch_silent.
  - by apply run_keeping, prepare_port_keeps_objects.
  - by apply run_keeping, publish_port_keeps_objects.
  - by apply silent_keeping, verify_port_silent.
  - by apply silent_keeping, read_head_port_silent.
  - by apply grows_keeping, admit_text_grows.
  - apply silent_keeping. unfold artifact_read. silence.
  - by apply silent_keeping, read_verified_silent.
  - apply silent_keeping. unfold read_range. pose proof read_verified_silent. silence.
  - apply silent_keeping. unfold validate_import, import_report. pose proof load_segment_silent. silence.
  - by apply silent_keeping, validate_lineage_silent.
  - apply silent_keeping. unfold read_page. pose proof load_segment_silent.
    apply silent_bind; [apply validate_lineage_silent|]. intros report.
    apply silent_bind; [apply silent_reject|]. intros ?. apply silent_bind; [done|]. intros segment. cbv zeta.
    destruct (page_events _ _ _). apply silent_ret.
  - apply run_keeping. intros. by eapply catalog_publish_keeps.
  - apply silent_keeping. unfold catalog_read. silence.
  - apply child_keeping.
  - by apply silent_keeping, inspect_silent.
  - by apply silent_keeping, propose_repair_silent.
Qed.

(** ** What becomes of an object *)

Lemma removed_object ns ids ns' identity p f f' :
  removed ns ids f f' → object_reference ns' identity = Ok p →
  f' !! p = f !! p ∨ f' !! p = None ∧ ns = ns' ∧ identity ∈ ids.
Proof.
  intros Hr Hp. destruct (Hr p) as [?|(? & i & Hi & Hip)]; [by left|]. right.
  by destruct (object_reference_inj _ _ _ _ _ Hp Hip) as [<- <-].
Qed.
(** An operation keeps an object or deletes it. *)
Lemma store_step_object ns identity bs p s s' :
  store_step s s' → object_reference ns identity = Ok p → fs_files s !! p = Some bs →
  fs_files s' !! p = Some bs ∨ fs_files s' !! p = None ∧ deletes ns identity s s'.
Proof.
  intros [op ->] Hp Hb. destruct (object_reference_not_temp _ _ _ Hp) as [Hnt Ho].
  assert (∀ f', keeps_objects (fs_files s) f' → f' !! p = Some bs) as Hkeep by (intros f' Hk; by apply Hk).
  destruct op as [| | |ns' i| | | | | | | | | | | | | | | | | | | | | | |ns' first final_scan started grace];
    try (left; apply Hkeep; by apply other_ops_keep).
  - cbn [run_store_op]. destruct (remove_verified ns' i s) as [s1 r1] eqn:E. simpl.
    assert (removed ns' [i] (fs_files s) (fs_files s1)) as Hrem.
    { pose proof (remove_verified_hoare ns' i (fs_files s) _ _ _ eq_refl E) as Hh. by destruct r1 as [u|e]; [destruct Hh|]. }
    destruct (removed_object _ _ _ _ _ _ _ Hrem Hp) as [->|(Hn & -> & ->%list_elem_of_singleton)]; [by left|].
    right. split; [done|]. left. cbn [run_store_op]. by rewrite E.
  - cbn [run_store_op]. destruct (collect_verified_orphans _ _ _ _ _ _ _ s) as [s3 r3] eqn:E. simpl.
    destruct (collect_run _ _ _ _ _ _ _ _ _ _ E) as [Hg|(s1 & s2 & report & ids & Hl & Hi & Hg & Hrem & Hids)].
    { left. by apply Hkeep, grow_keeps_objects. }
    apply grow_keeps_objects, Hkeep in Hg.
    destruct (removed_object _ _ _ _ _ _ _ Hrem Hp) as [->|(Hn & -> & Hin)]; [by left|].
    right. split; [done|]. right. destruct (Hids _ Hin) as (H1' & H2' & H3').
    exists first, final_scan, started, grace, s1, s2, report. cbn [run_store_op]. by rewrite E.
Qed.
(** After any operations the object is there, or one of them deleted it. *)
Lemma store_steps_object ns identity bs p s s' :
  rtc store_step s s' → object_reference ns identity = Ok p → fs_files s !! p = Some bs →
  fs_files s' !! p = Some bs
  ∨ ∃ a b, rtc store_step s a ∧ fs_files a !! p = Some bs ∧ deletes ns identity a b
           ∧ fs_files b !! p = None ∧ rtc store_step b s'.
Proof.
  intros Hsteps Hp. induction Hsteps as [s|x y z Hxy Hyz IH]; intros Hb; [by left|].
  destruct (store_step_object _ _ _ _ _ _ Hxy Hp Hb) as [Hy|[Hy Hd]].
  - destruct (IH Hy) as [?|(a & b & Ha & Hrest)]; [by left|]. right. exists a, b. split; [|done].
    by eapply rtc_l.
  - right. exists x, y. done.
Qed.

(** C22: Portable objects are immutable: whatever operations of the crate are
    called on the repository after an object was published, reading its
    identity gives the published bytes, unless the operating system fails the
    read, or one of the operations deleted the object: the removal of that
    identity by name, or a collection in its namespace whose two scans and
    whose inspection under the lock did not have it as reachable.  Even then a
    read never gives other bytes than ones with that digest. *)
Theorem objects_immutable ns bs s s1 identity s2 s3 r :
  store_publish ns bs s = (s1, Ok identity) → rtc store_step s1 s2 → store_read ns identity s2 = (s3, r) →
  (r = Ok bs ∨ ∃ g, r = Err (PoWorkspace (failure_error g)))
  ∨ (∃ a b, rtc store_step s1 a ∧ object_view (fs_files a) ns identity = Some bs
            ∧ deletes ns identity a b ∧ object_view (fs_files b) ns identity = None ∧ rtc store_step b s2)
    ∧ ∀ x, r = Ok x → digest ns x = identity.
Proof.
  intros Hpub Hsteps Hread. pose proof (store_publish_run _ _ _ _ _ Hpub) as [_ Hrun].
  destruct (Hrun _ eq_refl) as (Hid & Hlen & p & Hp & Hf).
  destruct (store_steps_object _ _ _ _ _ _ Hsteps Hp Hf) as [Hf2|(a & b & Ha & Hfa & Hd & Hfb & Hb)].
  - left. by eapply present_reads.
  - right. split.
    + exists a, b. unfold object_view. rewrite Hp, Hfa, Hfb. simpl. by rewrite bool_decide_true.
    + intros x ->. by apply store_read_run in Hread as [? _].
Qed.
End operations.
