(* ===== verification/Journal.v ===== *)
(** * The portable run journal ([crates/aworkit-local-store/src/portable_journal.rs])

    The machine-local table that records publications in progress: one row per
    operation, keyed by [operation_id], with a unique [commit_id].  A statement
    may fail with a driver error, in which case its transaction has no effect;
    which accesses fail is part of the state.  [journal_laws] discharges the
    interface [JournalLaws] the core relies on. *)
From S2P Require Export History Calls.

Inductive PortableJournalPhase : Type := PendingPortableCommit | HeadLinked | Quarantined.
#[export] Instance PortableJournalPhase_eq_dec : EqDecision PortableJournalPhase.
Proof. solve_decision. Defined.

Inductive PortableJournalError : Type :=
| PjInvalidPhase
| PjMissingOrFinalized
| PjCorrupt
| PjIdentityConflict
| PjFenceMismatch
| PjPoisoned
| PjSql (text : string)
| PjJson (text : string).

Definition phase_parse (value : string) : result PortableJournalError PortableJournalPhase :=
  if bool_decide (value = "pending") then Ok PendingPortableCommit
  else if bool_decide (value = "linked") then Ok HeadLinked
  else if bool_decide (value = "quarantined") then Ok Quarantined
  else Err PjCorrupt.

Record PortableJournalRecord : Type := MkJournalRecord {
  jl_chat_id : string;
  jl_branch_id : string;
  jl_commit_id : string;
  jl_machine_instance_id : string;
  jl_binding_generation : N;
  jl_expected_head_generation : N;
  jl_head_segment_hash : option string;
  jl_phase : PortableJournalPhase
}.

(** A row of [portable_runtime_journal_v2], without its key.  The JSON text of
    [verified_receipt_json] is kept as the value it denotes. *)
Record journal_row : Type := MkRow {
  jr_commit_id : string;
  jr_chat_id : string;
  jr_branch_id : string;
  jr_machine_instance_id : string;
  jr_binding_generation : N;
  jr_expected_head_generation : N;
  jr_expected_head_hash : option string;
  jr_candidate_head_hash : string;
  jr_checkpoint_hash : string;
  jr_phase : string;
  jr_verified_receipt_json : option json;
  jr_quarantine_reason : option string
}.
(** The database: the rows, and for each access to come the text of the
    driver's error if it fails. *)
Record PortableRuntimeJournal : Type := MkJournal {
  jn_rows : gmap string journal_row;
  jn_faults : list (option string)
}.
Definition journal_open : PortableRuntimeJournal := MkJournal ∅ [].

Abbreviation jn := (stm PortableRuntimeJournal PortableJournalError).

Definition set_rows (rows : gmap string journal_row) (db : PortableRuntimeJournal) :
    PortableRuntimeJournal := MkJournal rows (jn_faults db).
(** Locking the connection and running statements on it. *)
Definition db_access : jn () := λ db,
  match jn_faults db with
  | Some text :: faults => (MkJournal (jn_rows db) faults, Err (PjSql text))
  | None :: faults => (MkJournal (jn_rows db) faults, Ok ())
  | [] => (db, Ok ())
  end.

Definition i64_max : N := 9223372036854775807.
Definition checked_i64 (value : N) : result PortableJournalError N :=
  if value <=? i64_max then Ok value else Err PjCorrupt.
(** [rusqlite::Error::InvalidQuery]. *)
Definition invalid_query : PortableJournalError := PjSql "Query is not read-only".
Definition parse_id (value : string) : result PortableJournalError StableId :=
  map_err (λ _, invalid_query) (StableId_parse value).

Definition valid_hash (value : string) : bool :=
  match strip_prefix "sha256:" value with
  | Some hex => (str_len hex =? 64) && all_bytes is_lower_hexdigit hex
  | None => false
  end.

(** [#[derive(Serialize)]] on [PortableRuntimeBeginV1]. *)
Definition opt_string_value (o : option string) : json :=
  match o with Some s => JString s | None => JNull end.
#[export] Instance begin_value : ToValue PortableRuntimeBeginV1 := λ b, Some (JObject
  [("operationId", JString (as_str (bg_operation_id b)));
   ("machineInstanceId", JString (as_str (bg_machine_instance_id b)));
   ("bindingGeneration", JNumber (PosInt (bg_binding_generation b)));
   ("expectedGeneration", JNumber (PosInt (bg_expected_generation b)));
   ("chatId", JString (as_str (bg_chat_id b)));
   ("branchId", JString (as_str (bg_branch_id b)));
   ("commitId", JString (as_str (bg_commit_id b)));
   ("expectedHeadHash", opt_string_value (bg_expected_head_hash b));
   ("candidateHeadHash", JString (bg_candidate_head_hash b));
   ("checkpointHash", JString (bg_checkpoint_hash b))]).
(** The [json_object(..)] that [begin_internal] selects. *)
Definition row_value (operation_id : string) (row : journal_row) : json := JObject
  [("operationId", JString operation_id);
   ("machineInstanceId", JString (jr_machine_instance_id row));
   ("bindingGeneration", JNumber (PosInt (jr_binding_generation row)));
   ("expectedGeneration", JNumber (PosInt (jr_expected_head_generation row)));
   ("chatId", JString (jr_chat_id row));
   ("branchId", JString (jr_branch_id row));
   ("commitId", JString (jr_commit_id row));
   ("expectedHeadHash", opt_string_value (jr_expected_head_hash row));
   ("candidateHeadHash", JString (jr_candidate_head_hash row));
   ("checkpointHash", JString (jr_checkpoint_hash row))].

Definition read_begin (operation_id : StableId) (rows : gmap string journal_row) :
    result PortableJournalError (option PortableRuntimeBeginV1) :=
  match rows !! as_str operation_id with
  | None => Ok None
  | Some row =>
      operation ← parse_id (as_str operation_id);
      machine ← parse_id (jr_machine_instance_id row);
      chat ← parse_id (jr_chat_id row);
      branch ← parse_id (jr_branch_id row);
      commit ← parse_id (jr_commit_id row);
      Ok (Some (MkBegin operation machine (jr_binding_generation row)
                  (jr_expected_head_generation row) chat branch commit
                  (jr_expected_head_hash row) (jr_candidate_head_hash row)
                  (jr_checkpoint_hash row)))
  end.

(** A row with [commit_id = ?]: the column is unique. *)
Definition row_with_commit (commit_id : string) (rows : gmap string journal_row) :
    option (string * journal_row) :=
  find (λ kv, bool_decide (jr_commit_id kv.2 = commit_id)) (bt_iter rows).

Definition link_row (candidate : string) (receipt : json) (row : journal_row) : journal_row :=
  MkRow (jr_commit_id row) (jr_chat_id row) (jr_branch_id row) (jr_machine_instance_id row)
    (jr_binding_generation row) (jr_expected_head_generation row) (jr_expected_head_hash row)
    candidate (jr_checkpoint_hash row) "linked" (Some receipt) (jr_quarantine_reason row).
Definition quarantine_row (reason : string) (row : journal_row) : journal_row :=
  MkRow (jr_commit_id row) (jr_chat_id row) (jr_branch_id row) (jr_machine_instance_id row)
    (jr_binding_generation row) (jr_expected_head_generation row) (jr_expected_head_hash row)
    (jr_candidate_head_hash row) (jr_checkpoint_hash row) "quarantined" None (Some reason).

Definition begin_internal (request : PortableRuntimeBeginV1) (expected_head_generation : N) : jn () :=
  encoded ← lift (ok_or (to_value request) (PjJson ""));
  _ ← db_access;
  db ← read;
  let key := as_str (bg_operation_id request) in
  match jn_rows db !! key with
  | Some row =>
      if json_eqb (row_value key row) encoded then mret () else throw PjIdentityConflict
  | None =>
      binding ← lift (checked_i64 (bg_binding_generation request));
      expected ← lift (checked_i64 expected_head_generation);
      _ ← reject_if (is_some (row_with_commit (as_str (bg_commit_id request)) (jn_rows db)))
            (PjSql "UNIQUE constraint failed: portable_runtime_journal_v2.commit_id");
      modify (set_rows (<[key := MkRow (as_str (bg_commit_id request)) (as_str (bg_chat_id request))
                 (as_str (bg_branch_id request)) (as_str (bg_machine_instance_id request))
                 binding expected (bg_expected_head_hash request) (bg_candidate_head_hash request)
                 (bg_checkpoint_hash request) "pending" None None]> (jn_rows db)))
  end.

Definition record_pending (record : PortableJournalRecord) : jn () :=
  _ ← reject_if (negb (bool_decide (jl_phase record = PendingPortableCommit))) PjInvalidPhase;
  let parse v := lift (map_err (λ _, PjCorrupt) (StableId_parse v)) in
  operation_id ← parse (jl_commit_id record);
  machine_instance_id ← parse (jl_machine_instance_id record);
  chat_id ← parse (jl_chat_id record);
  branch_id ← parse (jl_branch_id record);
  commit_id ← parse (jl_commit_id record);
  begin_internal (MkBegin operation_id machine_instance_id (jl_binding_generation record)
                    (jl_expected_head_generation record) chat_id branch_id commit_id None
                    "legacy.pending" "legacy.none") (jl_expected_head_generation record).

Definition link_head (commit_id head_segment_hash : string) : jn () :=
  _ ← db_access;
  db ← read;
  match row_with_commit commit_id (jn_rows db) with
  | Some (key, row) =>
      if bool_decide (jr_phase row = "pending") then
        modify (set_rows (<[key := link_row head_segment_hash
                  (JObject [("legacyHeadHash", JString head_segment_hash)]) row]> (jn_rows db)))
      else throw PjMissingOrFinalized
  | None => throw PjMissingOrFinalized
  end.

Definition journal_get (commit_id : string) : jn (option PortableJournalRecord) :=
  _ ← db_access;
  db ← read;
  match row_with_commit commit_id (jn_rows db) with
  | None => mret None
  | Some (_, row) =>
      phase ← lift (map_err (λ _, invalid_query) (phase_parse (jr_phase row)));
      mret (Some (MkJournalRecord (jr_chat_id row) (jr_branch_id row) (jr_commit_id row)
              (jr_machine_instance_id row) (jr_binding_generation row)
              (jr_expected_head_generation row)
              (if bool_decide (jr_phase row = "linked") then Some (jr_candidate_head_hash row) else None)
              phase))
  end.

Section journal.
Context `{!ToValue PortableCommitReceiptV1, !FromValue PortableCommitReceiptV1}.
(** The texts for a receipt that does not serialize and for one that does
    not parse. *)
Context (encode_text : string) (json_text : json → string).

Definition finalize_internal (request : PortableRuntimeFinalizeV1) : jn () :=
  _ ← db_access;
  db ← read;
  let key := as_str (fz_operation_id request) in
  begin ← lift (read_begin (fz_operation_id request) (jn_rows db));
  begin ← lift (ok_or begin PjMissingOrFinalized);
  let receipt := fz_verified_receipt request in
  _ ← reject_if (negb (bool_decide (rc_operation_id receipt = fz_operation_id request))
                 || negb (bool_decide (rc_commit_id receipt = bg_commit_id begin))
                 || negb (bool_decide (rc_branch_id receipt = bg_branch_id begin))
                 || negb (bool_decide (rc_previous_head_hash receipt = bg_expected_head_hash begin))
                 || negb (bool_decide (rc_published_head_hash receipt = bg_candidate_head_hash begin))
                 || negb (bool_decide (rc_checkpoint_hash receipt = bg_checkpoint_hash begin))
                 || negb (rc_generation receipt =? saturating_add u64_max (bg_expected_generation begin) 1))
        PjFenceMismatch;
  receipt_json ← lift (ok_or (to_value receipt) (PjJson encode_text));
  row ← lift (ok_or (jn_rows db !! key) PjMissingOrFinalized);
  match bool_decide (jr_phase row = "linked"), jr_verified_receipt_json row with
  | true, Some existing =>
      if json_eqb existing receipt_json then mret () else throw PjIdentityConflict
  | _, _ =>
      if bool_decide (jr_phase row = "pending") then
        modify (set_rows (<[key := link_row (jr_candidate_head_hash row) receipt_json row]>
                 (jn_rows db)))
      else throw PjMissingOrFinalized
  end.

Definition row_facts (begin : PortableRuntimeBeginV1) (row : journal_row) :
    result PortableJournalError PortableRuntimeFactsV1 :=
  if bool_decide (jr_phase row = "pending") then Ok (PfPending begin)
  else if bool_decide (jr_phase row = "linked") then
    value ← ok_or (jr_verified_receipt_json row) PjCorrupt;
    receipt ← ok_or (from_value value) (PjJson (json_text value));
    Ok (PfHeadLinked begin receipt)
  else if bool_decide (jr_phase row = "quarantined") then
    reason ← ok_or (jr_quarantine_reason row) PjCorrupt;
    Ok (PfQuarantined begin reason)
  else Err PjCorrupt.

Definition facts_of (operation_id : StableId) (rows : gmap string journal_row) :
    result PortableJournalError (option PortableRuntimeFactsV1) :=
  begin ← read_begin operation_id rows;
  match begin, rows !! as_str operation_id with
  | Some begin, Some row => Some <$> row_facts begin row
  | _, _ => Ok None
  end.
Definition facts_internal (operation_id : StableId) : jn (option PortableRuntimeFactsV1) :=
  _ ← db_access;
  db ← read;
  lift (facts_of operation_id (jn_rows db)).

(** [Display] of an error ([#[error]] attributes). *)
Definition journal_error_text (error : PortableJournalError) : string :=
  match error with
  | PjInvalidPhase => "portable journal record must begin pending"
  | PjMissingOrFinalized => "portable journal record is missing or already finalized"
  | PjCorrupt => "portable journal contains corrupt data"
  | PjIdentityConflict => "portable journal operation identity conflicts with durable facts"
  | PjFenceMismatch => "portable journal receipt does not match every publication fence"
  | PjPoisoned => "portable journal lock is poisoned"
  | PjSql text | PjJson text => text
  end.
Definition port_error (error : PortableJournalError) : HistoryPortErrorV1 :=
  MkHistoryPortError
    match error with
    | PjIdentityConflict => "portable_journal_identity_conflict"
    | PjFenceMismatch => "portable_journal_fence_mismatch"
    | PjMissingOrFinalized => "portable_journal_missing_or_finalized"
    | PjPoisoned => "portable_journal_unavailable"
    | PjInvalidPhase | PjCorrupt => "portable_journal_corrupt"
    | PjSql _ | PjJson _ => "portable_journal_io"
    end
    (journal_error_text error)
    match error with PjPoisoned | PjSql _ => true | _ => false end
    true.

Definition journal_begin_checked (request : PortableRuntimeBeginV1) : jn () :=
  _ ← reject_if (negb (bool_decide (bg_operation_id request = bg_commit_id request))
                 || match bg_expected_head_hash request with
                    | Some value => negb (valid_hash value)
                    | None => false
                    end
                 || negb (valid_hash (bg_candidate_head_hash request))
                 || negb (valid_hash (bg_checkpoint_hash request))) PjFenceMismatch;
  begin_internal request (bg_expected_generation request).

(** [phase IN ('pending', 'linked')]. *)
Definition open_row (row : journal_row) : option journal_row :=
  if bool_decide (jr_phase row = "pending") || bool_decide (jr_phase row = "linked")
  then Some row else None.
Definition journal_quarantine_checked (operation_id : StableId) (reason : string) : jn () :=
  _ ← reject_if (str_is_empty reason || (1024 <? str_len reason)) PjCorrupt;
  _ ← db_access;
  db ← read;
  let key := as_str operation_id in
  match jn_rows db !! key ≫= open_row with
  | Some row => modify (set_rows (<[key := quarantine_row reason row]> (jn_rows db)))
  | None =>
      existing ← facts_internal operation_id;
      match existing with
      | Some (PfQuarantined _ existing) =>
          reject_if (negb (bool_decide (existing = reason))) PjMissingOrFinalized
      | _ => throw PjMissingOrFinalized
      end
  end.

(** [impl PortableRuntimeJournalPort for PortableRuntimeJournal], on the
    journal that lives at [l]. *)
Definition journal_port {W} (l : lens W PortableRuntimeJournal) : PortableRuntimeJournalPort W :=
  MkJournalPort (λ request, call l port_error (journal_begin_checked request))
    (λ request, call l port_error (finalize_internal request))
    (λ operation_id, call l port_error (facts_internal operation_id))
    (λ operation_id reason, call l port_error (journal_quarantine_checked operation_id reason)).
(** ** The journal keeps its promises *)

(** The record of an operation, when its row can be read. *)
Definition journal_view (db : PortableRuntimeJournal) (op : StableId) : option PortableRuntimeFactsV1 :=
  match facts_of op (jn_rows db) with Ok f => f | Err _ => None end.

Lemma parse_id_ok v i : parse_id v = Ok i ↔ as_str i = v.
Proof. unfold parse_id. by rewrite map_err_ok, StableId_parse_ok. Qed.

Lemma read_begin_Some op rows b :
  read_begin op rows = Ok (Some b) ↔ ∃ row, rows !! as_str op = Some row ∧
    row = MkRow (as_str (bg_commit_id b)) (as_str (bg_chat_id b)) (as_str (bg_branch_id b))
            (as_str (bg_machine_instance_id b)) (bg_binding_generation b) (bg_expected_generation b)
            (bg_expected_head_hash b) (bg_candidate_head_hash b) (bg_checkpoint_hash b)
            (jr_phase row) (jr_verified_receipt_json row) (jr_quarantine_reason row)
    ∧ bg_operation_id b = op.
Proof.
  unfold read_begin. destruct (rows !! as_str op) as [row|]; [|naive_solver]. split.
  - intros H. res_inv H. exists row. split; [done|]. rewrite parse_id_ok in *.
    destruct row; simplify_eq/=. split; [congruence|]. by apply as_str_inj.
  - intros (? & [= <-] & -> & <-). simpl. destruct b; simpl in *.
    by rewrite !(proj2 (parse_id_ok _ _) eq_refl).
Qed.
Lemma view_Some db op f :
  journal_view db op = Some f ↔ ∃ row b, jn_rows db !! as_str op = Some row ∧
    read_begin op (jn_rows db) = Ok (Some b) ∧ row_facts b row = Ok f.
Proof.
  unfold journal_view, facts_of. split.
  - destruct (read_begin op (jn_rows db)) as [[b|]|e] eqn:Eb; [|done..]. simpl.
    destruct (jn_rows db !! as_str op) as [row|]; [|done].
    destruct (row_facts b row) as [f'|e] eqn:Ef; [|done]. intros [= <-]. eauto.
  - intros (row & b & Hrow & -> & Hf). simpl. by rewrite Hrow, Hf.
Qed.
Lemma row_facts_begin b row f : row_facts b row = Ok f → facts_begin f = b.
Proof.
  unfold row_facts. intros H. repeat case_bool_decide; res_inv H; by simplify_eq/=.
Qed.
Lemma view_keyed db op f : journal_view db op = Some f → bg_operation_id (facts_begin f) = op.
Proof.
  intros (row & b & _ & (? & _ & _ & Hop)%read_begin_Some & Hf)%view_Some.
  by rewrite (row_facts_begin _ _ _ Hf).
Qed.
Lemma view_rows db db' op :
  jn_rows db' !! as_str op = jn_rows db !! as_str op → journal_view db' op = journal_view db op.
Proof. intros Heq. unfold journal_view, facts_of, read_begin. by rewrite Heq. Qed.
Lemma view_insert_ne db op row o :
  o ≠ op → journal_view (set_rows (<[as_str op := row]> (jn_rows db)) db) o = journal_view db o.
Proof.
  intros Hne. apply view_rows. simpl. apply lookup_insert_ne. by intros ?%as_str_inj.
Qed.

Lemma db_access_run db db' r : db_access db = (db', r) → jn_rows db' = jn_rows db.
Proof. unfold db_access. destruct (jn_faults db) as [|[t|] fs]; intros [= <- <-]; done. Qed.

(** An access followed by [k] on the rows: either the access failed and the
    rows are as before, or [k] ran. *)
Lemma access_then {A} (k : () → jn A) db db' r :
  (db_access ≫= k) db = (db', r) →
  (jn_rows db' = jn_rows db ∧ is_err r) ∨
  ∃ db1, jn_rows db1 = jn_rows db ∧ k () db1 = (db', r).
Proof.
  unfold mbind, stm_bind. destruct (db_access db) as [db1 [[]|e]] eqn:Ea; intros H.
  - right. exists db1. split; [by eapply db_access_run|done].
  - left. simplify_eq. split; [by eapply db_access_run|done].
Qed.

Lemma opt_string_value_eqb a b :
  json_eqb (opt_string_value a) (opt_string_value b) = true → a = b.
Proof. destruct a, b; cbn; intros ?; boolify; naive_solver. Qed.
(** Equal objects agree on every field. *)
Lemma json_eqb_field x y k u v :
  json_eqb (JObject x) (JObject y) = true → obj_get k x = Some u → obj_get k y = Some v →
  json_eqb u v = true.
Proof.
  cbn. intros [_ H]%andb_true_iff Hu%obj_get_Some_elem Hv. revert H Hu.
  induction x as [|[k' u'] x IH]; [set_solver|].
  intros [H1 H2]%andb_true_iff [[= -> ->]|Hin]%elem_of_cons; [by rewrite Hv in H1|auto].
Qed.
Lemma json_eqb_row key row b v :
  to_value b = Some v → json_eqb (row_value key row) v = true →
  key = as_str (bg_operation_id b) ∧ row =
  MkRow (as_str (bg_commit_id b)) (as_str (bg_chat_id b)) (as_str (bg_branch_id b))
    (as_str (bg_machine_instance_id b)) (bg_binding_generation b) (bg_expected_generation b)
    (bg_expected_head_hash b) (bg_candidate_head_hash b) (bg_checkpoint_hash b)
    (jr_phase row) (jr_verified_receipt_json row) (jr_quarantine_reason row).
Proof.
  intros [= <-] H. pose proof (λ k u v, json_eqb_field _ _ k u v H) as Hf. clear H.
  pose proof (Hf "operationId" _ _ eq_refl eq_refl).
  pose proof (Hf "machineInstanceId" _ _ eq_refl eq_refl).
  pose proof (Hf "bindingGeneration" _ _ eq_refl eq_refl).
  pose proof (Hf "expectedGeneration" _ _ eq_refl eq_refl).
  pose proof (Hf "chatId" _ _ eq_refl eq_refl).
  pose proof (Hf "branchId" _ _ eq_refl eq_refl).
  pose proof (Hf "commitId" _ _ eq_refl eq_refl).
  pose proof (opt_string_value_eqb _ _ (Hf "expectedHeadHash" _ _ eq_refl eq_refl)).
  pose proof (Hf "candidateHeadHash" _ _ eq_refl eq_refl).
  pose proof (Hf "checkpointHash" _ _ eq_refl eq_refl). clear Hf.
  destruct row. cbn in *. boolify. by simplify_eq/=.
Qed.

(** ** The laws, one port call at a time *)

Lemma reject_then {A} c e (k : () → jn A) db db' r :
  (reject_if c e ≫= k) db = (db', r) → (c = true ∧ db' = db ∧ is_err r) ∨ (c = false ∧ k () db = (db', r)).
Proof. unfold mbind, stm_bind, reject_if, fail_if. destruct c; intros H; simplify_eq; auto. Qed.
Lemma lift_then {A B} (x : result PortableJournalError A) (k : A → jn B) db db' r :
  (lift x ≫= k) db = (db', r) → (db' = db ∧ is_err r) ∨ ∃ a, x = Ok a ∧ k a db = (db', r).
Proof. unfold mbind, stm_bind, lift. destruct x; intros H; simplify_eq; eauto. Qed.

(** What a call that fails, or only reads, leaves behind. *)
Definition view_same (db db' : PortableRuntimeJournal) : Prop := ∀ o, journal_view db' o = journal_view db o.
Lemma view_same_rows db db' : jn_rows db' = jn_rows db → view_same db db'.
Proof. intros Heq o. apply view_rows. by rewrite Heq. Qed.

Lemma view_new_row db db1 b commit binding expected :
  jn_rows db1 = jn_rows db → jn_rows db !! as_str (bg_operation_id b) = None →
  commit = as_str (bg_commit_id b) → binding = bg_binding_generation b →
  expected = bg_expected_generation b →
  journal_view (set_rows (<[as_str (bg_operation_id b) :=
      MkRow commit (as_str (bg_chat_id b)) (as_str (bg_branch_id b)) (as_str (bg_machine_instance_id b))
        binding expected (bg_expected_head_hash b) (bg_candidate_head_hash b)
        (bg_checkpoint_hash b) "pending" None None]> (jn_rows db1)) db1) (bg_operation_id b)
  = Some (PfPending b).
Proof.
  intros Hdb Hn -> -> ->. apply view_Some. eexists _, b. split_and!.
  - simpl. by rewrite lookup_insert_eq.
  - apply read_begin_Some. eexists. simpl. by rewrite lookup_insert_eq.
  - done.
Qed.

Lemma checked_i64_ok v n : checked_i64 v = Ok n → n = v.
Proof. unfold checked_i64. destruct (v <=? i64_max); naive_solver. Qed.

(** A call that failed left every record as it was. *)
Ltac idle Hs :=
  match goal with He : Is_true (is_err ?r) |- _ =>
    destruct r; [done|]; split_and!; [intros; apply Hs|left; apply Hs|done] end.

(** [begin] opens a record, or finds the same one. *)
Lemma journal_begin_law b db db' r :
  journal_begin_checked b db = (db', r) →
  let op := bg_operation_id b in
  (∀ o, o ≠ op → journal_view db' o = journal_view db o)
  ∧ (journal_view db' op = journal_view db op
     ∨ journal_view db op = None ∧ journal_view db' op = Some (PfPending b))
  ∧ (r = Ok () → ∀ f, journal_view db' op = Some f → facts_begin f = b).
Proof.
  intros Hrun op. apply reject_then in Hrun as [(_ & -> & He)|(_ & Hrun)]; [by idle (@eq_refl)|].
  unfold begin_internal in Hrun.
  apply lift_then in Hrun as [[-> He]|(v & Hv%ok_or_ok & Hrun)]; [by idle (@eq_refl)|].
  apply access_then in Hrun as [[Hrows He]|(db1 & Hrows & Hrun)];
    pose proof (view_same_rows _ _ Hrows) as Hs; [by idle Hs|].
  unfold mbind at 1, stm_bind at 1, read in Hrun. rewrite Hrows in Hrun.
  destruct (jn_rows db !! as_str (bg_operation_id b)) as [row|] eqn:Erow.
  - destruct (json_eqb _ _) eqn:Ej; injection Hrun as <- <-;
      (split_and!; [intros; apply Hs|left; apply Hs|]); [|done].
    intros _ f. rewrite Hs. intros (row' & b' & Hrow' & Hb' & Hf)%view_Some.
    rewrite (row_facts_begin _ _ _ Hf). subst op.
    apply read_begin_Some in Hb' as (row2 & Hrow2 & Hr2 & Hop). simplify_eq.
    destruct (json_eqb_row _ _ _ _ Hv Ej) as [_ Hr1]. clear Hf Erow.
    destruct row. simpl in Hr1, Hr2. injection Hr1 as ?????????. injection Hr2 as ?????????.
    destruct b, b'. simpl in *. subst. by simplify_eq.
  - apply lift_then in Hrun as [[-> He]|(n & Hn%checked_i64_ok & Hrun)]; [by idle Hs|].
    apply lift_then in Hrun as [[-> He]|(m & Hm%checked_i64_ok & Hrun)]; [by idle Hs|].
    apply reject_then in Hrun as [(_ & -> & He)|(_ & Hrun)]; [by idle Hs|].
    subst n m. injection Hrun as <- <-.
    rewrite <- Hrows. pose proof (view_new_row db db1 b _ _ _ Hrows Erow eq_refl eq_refl eq_refl) as Hnew.
    split_and!.
    + intros o Hne. rewrite view_insert_ne by done. apply Hs.
    + right. split; [|exact Hnew]. unfold journal_view, facts_of, read_begin, op. by rewrite Erow.
    + intros _ f. unfold op. rewrite Hnew. by intros [= <-].
Qed.

(** The facts read from a row that is being replaced. *)
Lemma view_row db op row f :
  jn_rows db !! as_str op = Some row → journal_view db op = Some f →
  ∃ b, read_begin op (jn_rows db) = Ok (Some b) ∧ row_facts b row = Ok f ∧ facts_begin f = b.
Proof.
  intros Hrow (row' & b & Hrow' & Hb & Hf)%view_Some. simplify_eq.
  exists b. eauto using row_facts_begin.
Qed.
Lemma view_replaced db db1 op row row' b f :
  jn_rows db1 = jn_rows db → jn_rows db !! as_str op = Some row →
  read_begin op (jn_rows db) = Ok (Some b) →
  row' = MkRow (jr_commit_id row) (jr_chat_id row) (jr_branch_id row) (jr_machine_instance_id row)
           (jr_binding_generation row) (jr_expected_head_generation row) (jr_expected_head_hash row)
           (jr_candidate_head_hash row) (jr_checkpoint_hash row)
           (jr_phase row') (jr_verified_receipt_json row') (jr_quarantine_reason row') →
  row_facts b row' = Ok f →
  journal_view (set_rows (<[as_str op := row']> (jn_rows db1)) db1) op = Some f.
Proof.
  intros Hdb Hrow (row0 & Hrow0 & Hr0 & <-)%read_begin_Some Hr' Hf. simplify_eq.
  apply view_Some. exists row', b. simpl. rewrite lookup_insert_eq. split_and!; [done| |done].
  apply read_begin_Some. exists row'. rewrite lookup_insert_eq. split_and!; [done| |done].
  rewrite Hr'. by rewrite Hr0.
Qed.

Context `{!ValueRoundTrip PortableCommitReceiptV1}.

(** [finalize] links a pending record to a receipt that fulfils it. *)
Lemma journal_finalize_law z db db' r :
  finalize_internal z db = (db', r) →
  let op := fz_operation_id z in
  let v := fz_verified_receipt z in
  (∀ o, o ≠ op → journal_view db' o = journal_view db o)
  ∧ (journal_view db' op = journal_view db op
     ∨ ∃ b, journal_view db op = Some (PfPending b)
            ∧ journal_view db' op = Some (PfHeadLinked b v) ∧ receipt_fulfils v b)
  ∧ (r = Ok () → ∀ b, journal_view db op = Some (PfPending b) →
                      journal_view db' op = Some (PfHeadLinked b v)).
Proof.
  intros Hrun op v.
  apply access_then in Hrun as [[Hrows He]|(db1 & Hrows & Hrun)];
    pose proof (view_same_rows _ _ Hrows) as Hs; [by idle Hs|].
  unfold mbind at 1, stm_bind at 1, read in Hrun. rewrite Hrows in Hrun.
  apply lift_then in Hrun as [[-> He]|(ob & Hb & Hrun)]; [by idle Hs|].
  apply lift_then in Hrun as [[-> He]|(b & ->%ok_or_ok & Hrun)]; [by idle Hs|].
  apply reject_then in Hrun as [(_ & -> & He)|(Hfence & Hrun)]; [by idle Hs|].
  apply lift_then in Hrun as [[-> He]|(rv & Hrv%ok_or_ok & Hrun)]; [by idle Hs|].
  apply lift_then in Hrun as [[-> He]|(row & Hrow%ok_or_ok & Hrun)]; [by idle Hs|].
  destruct (decide (jr_phase row = "pending")) as [Hph|Hph].
  - rewrite (bool_decide_false (jr_phase row = "linked")) in Hrun by congruence.
    rewrite bool_decide_true in Hrun by done. injection Hrun as <- <-. rewrite <- Hrows.
    assert (journal_view db op = Some (PfPending b)) as Hpend.
    { apply view_Some. exists row, b. split_and!; [done..|]. unfold row_facts. by rewrite bool_decide_true. }
    assert (journal_view (set_rows (<[as_str op := link_row (jr_candidate_head_hash row) rv row]>
              (jn_rows db1)) db1) op = Some (PfHeadLinked b v)) as Hl.
    { eapply view_replaced; [done..| |]; [done|]. unfold row_facts. simpl.
      by rewrite (from_value_to_value _ _ Hrv). }
    assert (receipt_fulfils v b) as Hful.
    { apply read_begin_Some in Hb as (_ & _ & _ & Hop). unfold receipt_fulfils. boolify. subst v op.
      split_and!; congruence. }
    split_and!; [intros o Hne; rewrite view_insert_ne by done; apply Hs|right; eauto|].
    intros _ b'. rewrite Hpend. intros [= <-]. exact Hl.
  - assert (db' = db1 ∧ ∀ b', journal_view db op ≠ Some (PfPending b')) as [-> Hnp].
    { split.
      - rewrite (bool_decide_false (jr_phase row = "pending")) in Hrun by done.
        destruct (bool_decide _), (jr_verified_receipt_json row);
          repeat case_match; by injection Hrun.
      - intros b' Hv. destruct (view_row _ _ _ _ Hrow Hv) as (? & _ & Hf & _).
        unfold row_facts in Hf. rewrite bool_decide_false in Hf by done.
        repeat case_bool_decide; res_inv Hf; done. }
    split_and!; [intros; apply Hs|left; apply Hs|]. intros _ b' Hv. by destruct (Hnp b').
Qed.

Lemma facts_law op db db' r :
  facts_internal op db = (db', r) →
  view_same db db' ∧ ∀ f, r = Ok f → f = journal_view db op.
Proof.
  intros Hrun.
  apply access_then in Hrun as [[Hrows He]|(db1 & Hrows & Hrun)];
    pose proof (view_same_rows _ _ Hrows) as Hs; [split; [done|by intros ? ->]|].
  unfold mbind, stm_bind, read, lift in Hrun. rewrite Hrows in Hrun. injection Hrun as <- <-.
  split; [done|]. intros f Hf. unfold journal_view. by rewrite Hf.
Qed.

(** [quarantine] closes an open record, and accepts a repetition. *)
Lemma journal_quarantine_law op reason db db' r :
  journal_quarantine_checked op reason db = (db', r) →
  (∀ o, o ≠ op → journal_view db' o = journal_view db o)
  ∧ (journal_view db' op = journal_view db op
     ∨ ∃ b, journal_view db' op = Some (PfQuarantined b reason)
            ∧ ∀ f, journal_view db op = Some f → facts_begin f = b)
  ∧ (r = Ok () → ∀ f, journal_view db op = Some f →
                      journal_view db' op = Some (PfQuarantined (facts_begin f) reason)).
Proof.
  intros Hrun. apply reject_then in Hrun as [(_ & -> & He)|(_ & Hrun)]; [by idle (@eq_refl)|].
  apply access_then in Hrun as [[Hrows He]|(db1 & Hrows & Hrun)];
    pose proof (view_same_rows _ _ Hrows) as Hs; [by idle Hs|].
  unfold mbind at 1, stm_bind at 1, read in Hrun. rewrite Hrows in Hrun.
  destruct (jn_rows db !! as_str op ≫= open_row) as [row|] eqn:Eopen.
  - apply bind_Some in Eopen as (row' & Hrow & Hopen).
    unfold open_row in Hopen. destruct (_ || _); simplify_eq. rewrite <- Hrows in Hrun. injection Hrun as <- <-.
    destruct (read_begin op (jn_rows db)) as [[b|]|e] eqn:Eb.
    + assert (journal_view (set_rows (<[as_str op := quarantine_row reason row]> (jn_rows db1)) db1) op
              = Some (PfQuarantined b reason)) as Hq by (by eapply view_replaced).
      assert (∀ f, journal_view db op = Some f → facts_begin f = b) as Hfb.
      { intros f Hf. destruct (view_row _ _ _ _ Hrow Hf) as (b' & ? & _ & ?). congruence. }
      split_and!; [intros o Hne; rewrite view_insert_ne by done; apply Hs|right; eauto|].
      intros _ f Hf. by rewrite Hq, (Hfb f Hf).
    + unfold read_begin in Eb. rewrite Hrow in Eb. by res_inv Eb.
    + assert (∀ db2, jn_rows db2 !! as_str op = Some (quarantine_row reason row) →
                     journal_view db2 op = journal_view db op) as Hnone.
      { intros db2 Hdb2. unfold journal_view, facts_of. rewrite Eb. simpl.
        revert Eb. unfold read_begin. rewrite Hrow, Hdb2. simpl. intros Eb.
        by destruct (parse_id (as_str op)), (parse_id (jr_machine_instance_id row)),
          (parse_id (jr_chat_id row)), (parse_id (jr_branch_id row)), (parse_id (jr_commit_id row)). }
      rewrite Hnone by (simpl; by rewrite lookup_insert_eq).
      split_and!; [intros o Hne; rewrite view_insert_ne by done; apply Hs|by left|].
      intros _ f (row' & b' & _ & Hb' & _)%view_Some. congruence.
  - unfold mbind, stm_bind in Hrun. destruct (facts_internal op db1) as [db2 rf] eqn:Ef.
    destruct (facts_law _ _ _ _ Ef) as [Hs2 Hf].
    assert (view_same db db2) as Hs3 by (intros o; by rewrite Hs2).
    assert (is_err r → db' = db2 →
      (∀ o, o ≠ op → journal_view db' o = journal_view db o)
      ∧ (journal_view db' op = journal_view db op
         ∨ ∃ b, journal_view db' op = Some (PfQuarantined b reason)
                ∧ ∀ f, journal_view db op = Some f → facts_begin f = b)
      ∧ (r = Ok () → ∀ f, journal_view db op = Some f →
                          journal_view db' op = Some (PfQuarantined (facts_begin f) reason))) as Hidle.
    { intros He ->. by idle Hs3. }
    destruct rf as [[[b|b v|b reason']|]|e]; try (injection Hrun as <- <-; by apply Hidle).
    unfold reject_if, fail_if in Hrun. destruct (bool_decide (reason' = reason)) eqn:Er;
      injection Hrun as <- <-; [|by apply Hidle].
    boolify. subst reason'. split_and!; [intros; apply Hs3|left; apply Hs3|].
    intros _ f Hfv. rewrite Hs3, Hfv. specialize (Hf _ eq_refl). rewrite Hs, Hfv in Hf. by simplify_eq/=.
Qed.

(** A port call is the journal's call at its place. *)
Lemma call_run {W A} (l : lens W PortableRuntimeJournal) (m : jn A) w w' r :
  call l port_error m w = (w', r) →
  ∃ db r0, m (part l w) = (db, r0) ∧ w' = set_part l db w ∧ r = map_err port_error r0.
Proof. unfold call. destruct (m (part l w)) as [db [a|e]]; naive_solver. Qed.

#[export, refine] Instance journal_laws {W} (l : lens W PortableRuntimeJournal) `{!LensLaws l} :
  JournalLaws (journal_port l) := {| journal_facts w op := journal_view (part l w) op |}.
Proof.
  - intros w op f. apply view_keyed.
  - intros b w w' r (db & r0 & Hrun & -> & ->)%call_run. rewrite part_set.
    destruct (journal_begin_law _ _ _ _ Hrun) as (H1 & H2 & H3). split_and!; [done..|].
    intros Hok%map_err_ok. auto.
  - intros z w w' r (db & r0 & Hrun & -> & ->)%call_run. rewrite part_set.
    destruct (journal_finalize_law _ _ _ _ Hrun) as (H1 & H2 & H3). split_and!; [done..|].
    intros Hok%map_err_ok. auto.
  - intros op w w' r (db & r0 & Hrun & -> & ->)%call_run. rewrite part_set.
    destruct (facts_law _ _ _ _ Hrun) as (H1 & H2). split; [done|].
    intros f Hok%map_err_ok. auto.
  - intros op reason w w' r (db & r0 & Hrun & -> & ->)%call_run. rewrite part_set.
    destruct (journal_quarantine_law _ _ _ _ _ Hrun) as (H1 & H2 & H3). split_and!; [done..|].
    intros Hok%map_err_ok. auto.
Defined.
End journal.
