(* ===== verification/Portable.v ===== *)
(** * The portable commit gate ([crates/aworkit-trusted-core/src/portable.rs])

    [PortableCommitGate] acknowledges a portable commit only after the new
    head was published, reread and linked in the machine's journal, and after
    a crash decides from the journal and the head whether a commit took
    effect.  Each port call is one step, so a run that stops with a port's
    error is also a run that crashed there. *)
From S2P Require Export History.

Record PortableCommitGate (W : Type) : Type := MkGate {
  pg_repository : PortableCanonicalCommitPort W;
  pg_journal : PortableRuntimeJournalPort W;
  pg_machine_instance_id : StableId;
  pg_binding_generation : N
}.
Arguments MkGate {W}.
Arguments pg_repository {W}.
Arguments pg_journal {W}.
Arguments pg_machine_instance_id {W}.
Arguments pg_binding_generation {W}.

Record PortableRecoveryFacts : Type := MkRecoveryFacts {
  pf_resumable : bool;
  pf_quarantined : bool;
  pf_branch_id : string
}.
Inductive PortableGateError : Type :=
| GtQuarantined
| GtFenceMismatch
| GtJournalNotLinked
| GtCanonical (code message : string) (uncertain_publication : bool)
| GtJournal (code message : string).

Definition canonical_error (error : PortablePortErrorV1) : PortableGateError :=
  GtCanonical (pe_code error) (pe_message error) (pe_uncertain_publication error).
Definition journal_error (error : HistoryPortErrorV1) : PortableGateError :=
  GtJournal (he_code error) (he_message error).

Definition receipt_matches_begin (receipt : PortableCommitReceiptV1) (begin : PortableRuntimeBeginV1)
    (request : PortablePrepareV1) : bool :=
  bool_decide (rc_operation_id receipt = bg_operation_id begin)
  && bool_decide (rc_commit_id receipt = bg_commit_id begin)
  && bool_decide (rc_branch_id receipt = bg_branch_id begin)
  && bool_decide (rc_previous_head_hash receipt = bg_expected_head_hash begin)
  && bool_decide (rc_published_head_hash receipt = bg_candidate_head_hash begin)
  && bool_decide (rc_checkpoint_hash receipt = bg_checkpoint_hash begin)
  && (rc_generation receipt =? saturating_add u64_max (pr_expected_generation request) 1).

Definition validate_receipt (receipt : PortableCommitReceiptV1) (begin : PortableRuntimeBeginV1)
    (request : PortablePrepareV1) : result PortableGateError () :=
  if receipt_matches_begin receipt begin request then Ok () else Err GtFenceMismatch.

(** The condition a pending record's head must meet in [recover]. *)
Definition head_proves (begin : PortableRuntimeBeginV1) (receipt : PortableCommitReceiptV1) : bool :=
  bool_decide (rc_operation_id receipt = bg_operation_id begin)
  && bool_decide (rc_commit_id receipt = bg_commit_id begin)
  && bool_decide (rc_previous_head_hash receipt = bg_expected_head_hash begin)
  && bool_decide (rc_published_head_hash receipt = bg_candidate_head_hash begin)
  && bool_decide (rc_checkpoint_hash receipt = bg_checkpoint_hash begin)
  && (rc_generation receipt =? saturating_add u64_max (bg_expected_generation begin) 1).

(** [Option::filter]. *)
Definition opt_filter {A} (f : A → bool) (o : option A) : option A :=
  match o with Some a => if f a then Some a else None | None => None end.

Section gate.
Context {W : Type} (gate : PortableCommitGate W).
Let repository := pg_repository gate.
Let journal := pg_journal gate.

Definition runtime_matches (begin : PortableRuntimeBeginV1) (receipt : PortableCommitReceiptV1) : bool :=
  bool_decide (bg_machine_instance_id begin = pg_machine_instance_id gate)
  && (bg_binding_generation begin =? pg_binding_generation gate)
  && (rc_generation receipt =? saturating_add u64_max (bg_expected_generation begin) 1)
  && bool_decide (rc_operation_id receipt = bg_operation_id begin)
  && bool_decide (rc_commit_id receipt = bg_commit_id begin)
  && bool_decide (rc_branch_id receipt = bg_branch_id begin)
  && bool_decide (rc_previous_head_hash receipt = bg_expected_head_hash begin)
  && bool_decide (rc_published_head_hash receipt = bg_candidate_head_hash begin)
  && bool_decide (rc_checkpoint_hash receipt = bg_checkpoint_hash begin).

Definition begin_of (request : PortablePrepareV1) (prepared : PortablePreparedV1) :
    PortableRuntimeBeginV1 :=
  MkBegin (pr_operation_id request) (pg_machine_instance_id gate) (pg_binding_generation gate)
    (pr_expected_generation request) (pr_chat_id request) (pr_branch_id request)
    (pd_commit_id prepared) (pr_expected_head_hash request) (pd_object_hash prepared)
    (pr_checkpoint_hash request).

(** The publication, settled by a reread when its outcome is uncertain. *)
Definition publish_settled (request : PortablePrepareV1) (prepared : PortablePreparedV1) :
    stm W PortableGateError PortableCommitReceiptV1 :=
  answer ← port_result (pp_publish repository prepared);
  match answer with
  | Ok receipt => mret receipt
  | Err error =>
      if pe_uncertain_publication error then
        head ← port canonical_error (pp_read_head repository (pr_branch_id request));
        lift (ok_or (opt_filter (λ receipt,
                receipt_matches_begin receipt (begin_of request prepared) request) head)
              (canonical_error error))
      else throw (canonical_error error)
  end.

Definition gate_commit (request : PortablePrepareV1) :
    stm W PortableGateError PortableCommitReceiptV1 :=
  prepared ← port canonical_error (pp_prepare repository request);
  _ ← reject_if (negb (bool_decide (pd_operation_id prepared = pr_operation_id request))
                 || negb (bool_decide (pd_commit_id prepared = pr_operation_id request))
                 || negb (pd_expected_generation prepared =? pr_expected_generation request))
        GtFenceMismatch;
  let begin := begin_of request prepared in
  _ ← port journal_error (pj_begin journal begin);
  published ← publish_settled request prepared;
  _ ← lift (validate_receipt published begin request);
  verified ← port canonical_error (pp_verify repository published);
  _ ← reject_if (negb (bool_decide (verified = published))) GtFenceMismatch;
  _ ← port journal_error (pj_finalize journal (MkFinalize (pr_operation_id request) verified));
  facts ← port journal_error (pj_facts journal (pr_operation_id request));
  match facts with
  | Some (PfHeadLinked durable_begin receipt) =>
      if bool_decide (durable_begin = begin) && bool_decide (receipt = verified)
      then mret verified else throw GtJournalNotLinked
  | _ => throw GtJournalNotLinked
  end.

Definition quarantined_facts (begin : PortableRuntimeBeginV1) : PortableRecoveryFacts :=
  MkRecoveryFacts false true (as_str (bg_branch_id begin)).

Definition gate_recover (operation_id : StableId) : stm W PortableGateError PortableRecoveryFacts :=
  facts ← port journal_error (pj_facts journal operation_id);
  facts ← lift (ok_or facts GtQuarantined);
  match facts with
  | PfHeadLinked begin receipt =>
      head ← port canonical_error (pp_read_head repository (bg_branch_id begin));
      let resumable := runtime_matches begin receipt && bool_decide (head = Some receipt) in
      _ ← (if resumable then mret ()
           else port journal_error (pj_quarantine journal operation_id
                  "linked publication no longer matches the runtime binding and head"));
      mret (MkRecoveryFacts resumable (negb resumable) (as_str (bg_branch_id begin)))
  | PfPending begin =>
      if negb (bool_decide (bg_machine_instance_id begin = pg_machine_instance_id gate))
         || negb (bg_binding_generation begin =? pg_binding_generation gate)
      then
        _ ← port journal_error (pj_quarantine journal operation_id
              "pending publication belongs to a stale runtime binding");
        mret (quarantined_facts begin)
      else
        head ← port canonical_error (pp_read_head repository (bg_branch_id begin));
        match opt_filter (head_proves begin) head with
        | Some receipt =>
            verified ← port canonical_error (pp_verify repository receipt);
            _ ← port journal_error (pj_finalize journal (MkFinalize operation_id verified));
            mret (MkRecoveryFacts true false (as_str (bg_branch_id begin)))
        | None =>
            _ ← port journal_error (pj_quarantine journal operation_id
                  "pending publication has no exact verified head");
            mret (quarantined_facts begin)
        end
  | PfQuarantined begin _ => mret (quarantined_facts begin)
  end.

Definition recovery_facts (operation_id expected_head_hash : string) :
    stm W PortableGateError PortableRecoveryFacts :=
  operation_id ← lift (map_err (λ _, GtFenceMismatch) (StableId_parse operation_id));
  facts ← gate_recover operation_id;
  durable ← port journal_error (pj_facts journal operation_id);
  let head_matches :=
    match durable with
    | Some (PfHeadLinked _ receipt) => bool_decide (rc_published_head_hash receipt = expected_head_hash)
    | _ => false
    end in
  mret (MkRecoveryFacts (pf_resumable facts && head_matches)
          (pf_quarantined facts || negb head_matches) (pf_branch_id facts)).

Definition gate_read_head (branch_id : StableId) :
    stm W PortableGateError (option PortableCommitReceiptV1) :=
  port canonical_error (pp_read_head repository branch_id).
End gate.
