(* ===== verification/PortableProofs.v ===== *)
(** * Portable commits: safety

    Every call of the gate is a sequence of moves of an abstract system of
    branch heads and journal records ([move]); the invariants of the portable
    history follow by induction on such sequences, whatever the ports answer
    and wherever a run stops. *)
From S2P Require Export Portable.

Lemma receipt_matches_begin_spec r b q :
  receipt_matches_begin r b q = true → bg_expected_generation b = pr_expected_generation q →
  receipt_fulfils r b.
Proof.
  unfold receipt_matches_begin, receipt_fulfils. intros H Hg. boolify. rewrite Hg. naive_solver.
Qed.

Section moves.
Context {W : Type} {p : PortableCanonicalCommitPort W} {j : PortableRuntimeJournalPort W}.
Context `{!RepositoryLaws p, !JournalLaws j, !SeparateStores p j}.
Implicit Types (w : W) (op : StableId) (b : PortableRuntimeBeginV1) (v : PortableCommitReceiptV1).

Definition same_heads w w' : Prop := ∀ branch, repo_head w' branch = repo_head w branch.
Definition same_facts w w' : Prop := ∀ o, journal_facts w' o = journal_facts w o.
Definition other_facts op w w' : Prop := ∀ o, o ≠ op → journal_facts w' o = journal_facts w o.

(** What operation [op] may do: publish, open its record, link it to a
    receipt that fulfils it and is the head, and quarantine it. *)
Inductive move op w w' : Prop :=
| mv_publish :
    (∀ branch, repo_head w' branch = repo_head w branch
               ∨ head_advances op (repo_head w branch) (repo_head w' branch)) →
    same_facts w w' → move op w w'
| mv_begin b :
    bg_operation_id b = op → journal_facts w op = None →
    journal_facts w' op = Some (PfPending b) →
    other_facts op w w' → same_heads w w' → move op w w'
| mv_link b v :
    journal_facts w op = Some (PfPending b) → journal_facts w' op = Some (PfHeadLinked b v) →
    receipt_fulfils v b → repo_head w (rc_branch_id v) = Some v →
    other_facts op w w' → same_heads w w' → move op w w'
| mv_quarantine b reason :
    journal_facts w' op = Some (PfQuarantined b reason) →
    (∀ f, journal_facts w op = Some f → facts_begin f = b) →
    other_facts op w w' → same_heads w w' → move op w w'.

Lemma mv_idle op w w' : same_heads w w' → same_facts w w' → move op w w'.
Proof. intros H1 H2. apply mv_publish; [|done]. intros br. left. apply H1. Qed.

(** ** Programs over moves *)

(** From a state in [P], [m] performs moves of [op] and, when it returns [a],
    ends in [Q a]. *)
Definition performs {E A} op (P : W → Prop) (m : stm W E A) (Q : A → W → Prop) : Prop :=
  ∀ w w' r, repo_wf w → P w → m w = (w', r) →
    repo_wf w' ∧ rtc (move op) w w' ∧ ∀ a, r = Ok a → Q a w'.

Lemma performs_bind {E A B} op P (m : stm W E A) (k : A → stm W E B) Q R :
  performs op P m Q → (∀ a, performs op (Q a) (k a) R) → performs op P (m ≫= k) R.
Proof.
  intros Hm Hk w w' r Hwf HP. unfold mbind, stm_bind.
  destruct (m w) as [w1 [a|e]] eqn:E1; intros Hrun.
  - destruct (Hm _ _ _ Hwf HP E1) as (Hwf1 & Hs & Hq).
    destruct (Hk a _ _ _ Hwf1 (Hq a eq_refl) Hrun) as (Hwf2 & Hs' & Hr).
    split_and!; [done|by etrans|done].
  - destruct (Hm _ _ _ Hwf HP E1) as (Hwf1 & Hs & _). by simplify_eq.
Qed.
Lemma performs_ret {E A} op P (a : A) (Q : A → W → Prop) :
  (∀ w, P w → Q a w) → performs op P (mret (M:=stm W E) a) Q.
Proof. intros HQ w w' r Hwf HP [= <- <-]. split_and!; [done..|]. intros ? [= <-]. auto. Qed.
Lemma performs_throw {E A} op P (e : E) (Q : A → W → Prop) : performs op P (throw e) Q.
Proof. intros w w' r Hwf HP [= <- <-]. by split. Qed.
Lemma performs_lift {E A} op P (x : result E A) (Q : A → W → Prop) :
  (∀ a w, x = Ok a → P w → Q a w) → performs op P (lift x) Q.
Proof. intros HQ w w' r Hwf HP [= <- <-]. split_and!; [done..|]. auto. Qed.
Lemma performs_lift_keep {E A} op P (x : result E A) : performs op P (lift x) (λ _, P).
Proof. by apply performs_lift. Qed.
Lemma performs_reject {E} op (P : W → Prop) c (e : E) :
  performs op P (reject_if c e) (λ _ w, c = false ∧ P w).
Proof. intros w w' r Hwf HP [= <- <-]. split_and!; [done..|]. unfold fail_if. by destruct c. Qed.
Lemma performs_conseq {E A} op (P P' : W → Prop) (m : stm W E A) Q Q' :
  performs op P' m Q' → (∀ w, P w → P' w) → (∀ a w, Q' a w → Q a w) → performs op P m Q.
Proof. intros Hm HP HQ w w' r Hwf Hw Hrun. destruct (Hm w w' r Hwf (HP _ Hw) Hrun) as (?&?&?). eauto. Qed.
Lemma performs_if {E A} op P (c : bool) (m1 m2 : stm W E A) Q :
  (c = true → performs op P m1 Q) → (c = false → performs op P m2 Q) →
  performs op P (if c then m1 else m2) Q.
Proof. destruct c; auto. Qed.

Lemma performs_pure {E A} op (φ : Prop) P (m : stm W E A) Q :
  (φ → performs op P m Q) → performs op (λ w, φ ∧ P w) m Q.
Proof. intros Hm w w' r Hwf [Hφ HP]. exact (Hm Hφ w w' r Hwf HP). Qed.
Lemma performs_any {E A} op (P : W → Prop) (m : stm W E A) Q :
  performs op (λ _, True) m Q → performs op P m Q.
Proof. intros Hm. by eapply performs_conseq. Qed.

(** A port call that is one move. *)
Lemma performs_port {E F A} op P (f : E → F) (m : stm W E A) (Q : A → W → Prop) :
  (∀ w w' r, repo_wf w → P w → m w = (w', r) → repo_wf w' ∧ move op w w' ∧ ∀ a, r = Ok a → Q a w') →
  performs op P (port f m) Q.
Proof.
  intros Hm w w' r Hwf HP (r0 & Hr0 & ->)%port_run. destruct (Hm w w' r0 Hwf HP Hr0) as (Hwf' & Hmv & HQ).
  split_and!; [done|by apply rtc_once|]. intros a Ha. destruct r0 as [x|e]; simplify_eq/=. auto.
Qed.
Lemma performs_port_result {E F A} op P (m : stm W E A) (Q : result E A → W → Prop) :
  (∀ w w' r, repo_wf w → P w → m w = (w', r) → repo_wf w' ∧ move op w w' ∧ Q r w') →
  performs (E:=F) op P (port_result m) Q.
Proof.
  intros Hm w w' r Hwf HP (r0 & Hr0 & ->)%port_result_run.
  destruct (Hm w w' r0 Hwf HP Hr0) as (Hwf' & Hmv & HQ). split_and!; [done|by apply rtc_once|]. by intros a [= <-].
Qed.

(** ** The ports *)

Lemma prepare_move op request : performs op (λ _, True) (port canonical_error (pp_prepare p request)) (λ _ _, True).
Proof.
  apply performs_port. intros w w' r Hwf _ Hrun. destruct (repo_prepare _ _ _ _ Hwf Hrun) as [Hwf' Hh].
  split_and!; [done| |done]. apply mv_idle; [done|]. intros o. by eapply prepare_journal.
Qed.
Lemma read_head_move op branch :
  performs op (λ _, True) (port canonical_error (pp_read_head p branch)) (λ h w, h = repo_head w branch).
Proof.
  apply performs_port. intros w w' r Hwf _ Hrun.
  destruct (repo_read_head _ _ _ _ Hwf Hrun) as (Hwf' & Hh & Hr). split_and!; [done| |].
  - apply mv_idle; [exact Hh|]. intros o. by eapply read_head_journal.
  - intros h ->. rewrite Hh. auto.
Qed.
Lemma verify_move op v :
  performs op (λ _, True) (port canonical_error (pp_verify p v))
    (λ v' w, repo_head w (rc_branch_id v') = Some v').
Proof.
  apply performs_port. intros w w' r Hwf _ Hrun.
  destruct (repo_verify _ _ _ _ Hwf Hrun) as (Hwf' & Hh & Hr). split_and!; [done| |].
  - apply mv_idle; [exact Hh|]. intros o. by eapply verify_journal.
  - intros v' ->. rewrite Hh. auto.
Qed.
Lemma publish_move {F} op prepared :
  pd_operation_id prepared = op →
  performs (E:=F) op (λ _, True) (port_result (pp_publish p prepared)) (λ _ _, True).
Proof.
  intros <-. apply performs_port_result. intros w w' r Hwf _ Hrun.
  destruct (repo_publish _ _ _ _ Hwf Hrun) as [Hwf' Hh]. split_and!; [done| |done].
  apply mv_publish; [done|]. intros o. by eapply publish_journal.
Qed.
Lemma begin_move b :
  performs (bg_operation_id b) (λ _, True) (port journal_error (pj_begin j b)) (λ _ _, True).
Proof.
  apply performs_port. intros w w' r Hwf _ Hrun. destruct (begin_heads _ _ _ _ Hrun) as [Hwf' Hh].
  split_and!; [auto| |done]. destruct (journal_begin _ _ _ _ Hrun) as (Ho & [Hsame|[Hn Hs]] & _).
  - apply mv_idle; [done|]. intros o. destruct (decide (o = bg_operation_id b)) as [->|]; auto.
  - by eapply mv_begin.
Qed.
Lemma facts_move op o : performs op (λ _, True) (port journal_error (pj_facts j o)) (λ _ _, True).
Proof.
  apply performs_port. intros w w' r Hwf _ Hrun. destruct (facts_heads _ _ _ _ Hrun) as [Hwf' Hh].
  split_and!; [auto| |done]. destruct (journal_read _ _ _ _ Hrun). by apply mv_idle.
Qed.
Lemma finalize_move op v :
  performs op (λ w, repo_head w (rc_branch_id v) = Some v)
    (port journal_error (pj_finalize j (MkFinalize op v))) (λ _ _, True).
Proof.
  apply performs_port. intros w w' r Hwf Hv Hrun. destruct (finalize_heads _ _ _ _ Hrun) as [Hwf' Hh].
  split_and!; [auto| |done].
  destruct (journal_finalize _ _ _ _ Hrun) as (Ho & [Hsame|(b & Hn & Hs & Hf)] & _); simpl in *.
  - apply mv_idle; [done|]. intros o. destruct (decide (o = op)) as [->|]; auto.
  - by eapply mv_link.
Qed.
Lemma quarantine_move op reason :
  performs op (λ _, True) (port journal_error (pj_quarantine j op reason)) (λ _ _, True).
Proof.
  apply performs_port. intros w w' r Hwf _ Hrun. destruct (quarantine_heads _ _ _ _ _ Hrun) as [Hwf' Hh].
  split_and!; [auto| |done].
  destruct (journal_quarantine _ _ _ _ _ Hrun) as (Ho & [Hsame|(b & Hn & Hs)] & _); simpl in *.
  - apply mv_idle; [done|]. intros o. destruct (decide (o = op)) as [->|]; auto.
  - by eapply mv_quarantine.
Qed.

(** ** The gate *)

Section gate_moves.
Context (machine : StableId) (generation : N).
Let gate := MkGate p j machine generation.

Lemma publish_settled_move op request prepared :
  pd_operation_id prepared = op →
  performs op (λ _, True) (publish_settled gate request prepared) (λ _ _, True).
Proof.
  intros Hop. eapply performs_bind; [by apply publish_move|]. intros [v|e]; cbv beta iota.
  - by apply performs_ret.
  - apply performs_if; intros Hu; [|apply performs_throw].
    eapply performs_bind; [apply read_head_move|]. intros h. by apply performs_lift.
Qed.

Lemma gate_commit_moves request :
  performs (pr_operation_id request) (λ _, True) (gate_commit gate request) (λ _ _, True).
Proof.
  eapply performs_bind; [apply prepare_move|]. intros prepared.
  eapply performs_bind; [apply performs_reject|]. intros ?. apply performs_pure. intros Hid. boolify.
  eapply performs_bind; [apply (begin_move (begin_of gate request prepared))|]. intros ?.
  eapply performs_bind; [by apply publish_settled_move|]. intros v.
  eapply performs_bind; [apply performs_lift_keep|]. intros ?.
  eapply performs_bind; [apply performs_any, verify_move|]. intros v'.
  eapply performs_bind; [apply performs_reject|]. intros ?. apply performs_pure. intros _.
  eapply performs_bind; [apply finalize_move|]. intros ?.
  eapply performs_bind; [apply facts_move|]. intros [[b|b v''|b reason]|]; try apply performs_throw.
  apply performs_if; intros _; [by apply performs_ret|apply performs_throw].
Qed.

Lemma gate_recover_moves op : performs op (λ _, True) (gate_recover gate op) (λ _ _, True).
Proof.
  eapply performs_bind; [apply facts_move|]. intros f.
  eapply performs_bind; [apply performs_lift_keep|]. intros [b|b v|b reason].
  - apply performs_if; intros _.
    + eapply performs_bind; [apply quarantine_move|]. intros ?. by apply performs_ret.
    + eapply performs_bind; [apply read_head_move|]. intros h. apply performs_any.
      destruct (opt_filter _ _) as [v|].
      * eapply performs_bind; [apply verify_move|]. intros v'.
        eapply performs_bind; [apply finalize_move|]. intros ?. by apply performs_ret.
      * eapply performs_bind; [apply quarantine_move|]. intros ?. by apply performs_ret.
  - eapply performs_bind; [apply read_head_move|]. intros h. apply performs_any.
    apply (performs_bind _ _ _ _ (λ _ _, True)); [|intros ?; by apply performs_ret].
    apply performs_if; intros _; [by apply performs_ret|apply quarantine_move].
  - by apply performs_ret.
Qed.

Lemma recovery_facts_moves s expected w w' r :
  repo_wf w → recovery_facts gate s expected w = (w', r) → repo_wf w' ∧ ∃ op, rtc (move op) w w'.
Proof.
  intros Hwf Hrun. destruct (StableId_parse s) as [op|e] eqn:Es.
  - enough (performs op (λ _, True) (recovery_facts gate s expected) (λ _ _, True)) as Ht
      by (destruct (Ht _ _ _ Hwf I Hrun) as (? & ? & _); eauto).
    clear Hrun.
    unfold recovery_facts. rewrite Es.
    eapply performs_bind; [apply (performs_lift _ _ _ (λ a _, a = op)); naive_solver|]. intros a.
    apply (performs_conseq _ _ (λ w, a = op ∧ True) _ (λ _ _, True) (λ _ _, True)); [|done|done].
    apply performs_pure. intros ->.
    eapply performs_bind; [apply gate_recover_moves|]. intros f.
    eapply performs_bind; [apply facts_move|]. intros d. by apply performs_ret.
  - unfold recovery_facts in Hrun. rewrite Es in Hrun. simpl in Hrun.
    unfold mbind, stm_bind, lift in Hrun. simplify_eq/=. split; [done|]. by exists machine.
Qed.
End gate_moves.

(** ** Runs *)

(** Several cores (machines and binding generations) may share the stores;
    other processes may publish to the repository. *)
Inductive system_step w w' : Prop :=
| ss_commit machine generation request r :
    gate_commit (MkGate p j machine generation) request w = (w', r) → system_step w w'
| ss_recover machine generation op r :
    gate_recover (MkGate p j machine generation) op w = (w', r) → system_step w w'
| ss_recovery_facts machine generation s expected r :
    recovery_facts (MkGate p j machine generation) s expected w = (w', r) → system_step w w'
| ss_publish prepared r :
    pp_publish p prepared w = (w', r) → system_step w w'.

Lemma system_step_moves w w' : repo_wf w → system_step w w' → repo_wf w' ∧ ∃ op, rtc (move op) w w'.
Proof.
  intros Hwf. destruct 1 as [m g q r Hrun|m g op r Hrun|m g s e r Hrun|prepared r Hrun].
  - destruct (gate_commit_moves m g q _ _ _ Hwf I Hrun) as (? & ? & _). eauto.
  - destruct (gate_recover_moves m g op _ _ _ Hwf I Hrun) as (? & ? & _). eauto.
  - by eapply recovery_facts_moves.
  - destruct (repo_publish _ _ _ _ Hwf Hrun) as [Hwf' Hh]. split; [done|].
    exists (pd_operation_id prepared). apply rtc_once, mv_publish; [done|].
    intros o. by eapply publish_journal.
Qed.

(** ** Records *)

Definition is_quarantined (f : PortableRuntimeFactsV1) : bool :=
  match f with PfQuarantined _ _ => true | _ => false end.
(** A record is never dropped or reopened: it keeps what it was opened for, a
    linked one stays as it is or is quarantined, and quarantine is final. *)
Definition records_kept w w' : Prop :=
  ∀ o f, journal_facts w o = Some f →
    ∃ f', journal_facts w' o = Some f' ∧ facts_begin f' = facts_begin f
      ∧ (is_quarantined f = true → is_quarantined f' = true)
      ∧ (∀ b v, f = PfHeadLinked b v → f' = f ∨ is_quarantined f' = true).

Lemma records_kept_trans w1 w2 w3 : records_kept w1 w2 → records_kept w2 w3 → records_kept w1 w3.
Proof.
  intros H1 H2 o f Hf. destruct (H1 o f Hf) as (f1 & Hf1 & Hb1 & Hq1 & Hl1).
  destruct (H2 o f1 Hf1) as (f2 & Hf2 & Hb2 & Hq2 & Hl2). exists f2. split_and!; [done|congruence|auto|].
  intros b v ->. destruct (Hl1 b v eq_refl) as [->|Hq]; [by eapply Hl2|auto].
Qed.
Lemma records_kept_refl w : records_kept w w.
Proof. intros o f Hf. exists f. split_and!; auto. Qed.

Lemma move_records op w w' : move op w w' → records_kept w w'.
Proof.
  intros Hm o f Hf. assert (o ≠ op → journal_facts w' o = Some f) as Hother
    by (intros Hne; destruct Hm as [_ Hs|? ? ? ? Ho|? ? ? ? ? ? Ho|? ? ? ? Ho]; [by rewrite Hs|by rewrite Ho..]).
  destruct (decide (o = op)) as [->|Hne]; [|exists f; split_and!; auto].
  destruct Hm as [_ Hs|b _ Hn _ _ _|b v Hp Hl _ _ _ _|b reason Hq Hb _ _].
  - exists f. rewrite Hs. split_and!; auto.
  - congruence.
  - exists (PfHeadLinked b v). assert (f = PfPending b) as -> by congruence. by split_and!.
  - exists (PfQuarantined b reason). split_and!; [done| |done|by right]. symmetry. auto.
Qed.
Lemma moves_records op w w' : rtc (move op) w w' → records_kept w w'.
Proof.
  induction 1 as [w|x y z Hm _ IH]; [apply records_kept_refl|].
  eapply records_kept_trans; [by eapply move_records|done].
Qed.
Lemma system_records w w' : repo_wf w → rtc system_step w w' → repo_wf w' ∧ records_kept w w'.
Proof.
  intros Hwf Hr. induction Hr as [w|x y z Hs _ IH]; [split; [done|apply records_kept_refl]|].
  destruct (system_step_moves _ _ Hwf Hs) as [Hwf' [op Hm]]. destruct (IH Hwf') as [Hz Hk].
  split; [done|]. eapply records_kept_trans; [by eapply moves_records|done].
Qed.

(** ** The invariant *)

Definition linked w op b v : Prop := journal_facts w op = Some (PfHeadLinked b v).

(** A linked receipt is its branch's head or was overtaken by it. *)
Definition passed w v : Prop :=
  ∃ h, repo_head w (rc_branch_id v) = Some h ∧ (v = h ∨ rc_generation v < rc_generation h).

Record history_ok w : Prop := {
  ho_fulfils : ∀ op b v, linked w op b v → receipt_fulfils v b;
  ho_passed : ∀ op b v, linked w op b v → passed w v;
  ho_linear : ∀ op b v op' b' v', linked w op b v → linked w op' b' v' →
    rc_branch_id v = rc_branch_id v' → rc_generation v = rc_generation v' → v = v'
}.

Lemma passed_heads w w' v : same_heads w w' → passed w v → passed w' v.
Proof. intros Hh (h & Hb & Hor). exists h. by rewrite Hh. Qed.
Lemma passed_advances op w w' v :
  (∀ branch, repo_head w' branch = repo_head w branch
             ∨ head_advances op (repo_head w branch) (repo_head w' branch)) →
  passed w v → passed w' v.
Proof.
  intros Hh (h & Hb & Hor). destruct (Hh (rc_branch_id v)) as [Heq|(r & Hr & _ & Hg)];
    [exists h; by rewrite Heq|].
  exists r. split; [done|]. right. rewrite Hb in Hg. simpl in Hg. destruct Hor as [->|]; lia.
Qed.

(** Records are linked one at a time; the others stay as they were. *)
Lemma linked_other op w w' o b v :
  other_facts op w w' → o ≠ op → linked w' o b v → linked w o b v.
Proof. unfold linked. intros Ho Hne. by rewrite Ho. Qed.

Lemma history_link op b v w w' :
  journal_facts w' op = Some (PfHeadLinked b v) → receipt_fulfils v b →
  repo_head w (rc_branch_id v) = Some v → other_facts op w w' → same_heads w w' →
  history_ok w → history_ok w'.
Proof.
  intros Hl Hf Hhead Ho Hh [Hok1 Hok2 Hok3].
  assert (∀ o b' v', linked w' o b' v' → o = op ∧ b' = b ∧ v' = v ∨ linked w o b' v') as Hcases.
  { intros o b' v' Hlk. destruct (decide (o = op)) as [->|Hne]; [left|right; by eapply linked_other].
    unfold linked in Hlk. simplify_eq. done. }
  assert (∀ o b' v', linked w o b' v' → rc_branch_id v = rc_branch_id v' →
            rc_generation v = rc_generation v' → v = v') as Hnew.
  { intros o b' v' Hlk Hb Hg. destruct (Hok2 _ _ _ Hlk) as (h & Hh' & Hor).
    rewrite <- Hb, Hhead in Hh'. simplify_eq. destruct Hor as [->|]; [done|lia]. }
  split.
  - intros o b' v' [(-> & -> & ->)|Hlk]%Hcases; eauto.
  - intros o b' v' [(-> & -> & ->)|Hlk]%Hcases.
    + exists v. rewrite Hh. auto.
    + eapply passed_heads; eauto.
  - intros o b1 v1 o' b2 v2 [(-> & -> & ->)|Hlk]%Hcases [(-> & -> & ->)|Hlk']%Hcases Hb Hg;
      [done|eauto|symmetry; eauto|eauto].
Qed.

Lemma history_keep op w w' :
  (∀ o b v, linked w' o b v → linked w o b v) →
  (∀ branch, repo_head w' branch = repo_head w branch
             ∨ head_advances op (repo_head w branch) (repo_head w' branch)) →
  history_ok w → history_ok w'.
Proof.
  intros Hl Hh [Hok1 Hok2 Hok3]. split; eauto using passed_advances.
Qed.

Lemma move_history op w w' : move op w w' → history_ok w → history_ok w'.
Proof.
  destruct 1 as [Hh Hf|b Hop Hn Hp Ho Hh|b v Hp Hl Hf Hhead Ho Hh|b reason Hq Hb Ho Hh]; intros Hok.
  - eapply history_keep; [|done..]. intros o b v. unfold linked. by rewrite Hf.
  - apply (history_keep op w); [|auto|done]. intros o b' v Hlk.
    destruct (decide (o = op)) as [->|]; [unfold linked in Hlk; congruence|by eapply linked_other].
  - by eapply history_link.
  - apply (history_keep op w); [|auto|done]. intros o b' v Hlk.
    destruct (decide (o = op)) as [->|]; [unfold linked in Hlk; congruence|by eapply linked_other].
Qed.

Lemma history_reachable w0 w :
  repo_wf w0 → (∀ op, journal_facts w0 op = None) → rtc system_step w0 w → history_ok w.
Proof.
  intros Hwf H0 Hr. assert (history_ok w0) as Hok.
  { unfold linked in *. split; unfold linked; intros *; rewrite H0; done. }
  clear H0. induction Hr as [|w1 w2 w3 Hs Hr IH]; [done|].
  destruct (system_step_moves _ _ Hwf Hs) as [Hwf2 [op Hm]]. apply IH; [done|]. clear -Hm Hok.
  induction Hm as [|x y z Hxy Hyz IH]; [done|]. apply IH. by eapply move_history.
Qed.

(** What the moves of one operation leave alone. *)
Lemma moves_frame op w w' :
  rtc (move op) w w' →
  other_facts op w w'
  ∧ ∀ branch, repo_head w' branch = repo_head w branch
              ∨ ∃ v, repo_head w' branch = Some v ∧ rc_operation_id v = op.
Proof.
  induction 1 as [w|w1 w2 w3 Hm Hr (IH1 & IH2)]; [split; [done|auto]|].
  split.
  - intros o Hne. rewrite IH1 by done. destruct Hm; auto.
  - intros br. destruct (IH2 br) as [->|]; [|by right].
    destruct Hm as [Hh| | |]; [destruct (Hh br) as [|(v & ? & ? & _)]|..]; eauto.
Qed.
End moves.
