(* ===== verification/PortableTheorems.v ===== *)
(** * Portable commits: theorems

    What an acknowledged commit means, that the portable history of a branch
    is linear, and that recovery after a crash at any point decides correctly
    whether a commit took effect. *)
From S2P Require Export PortableProofs.

Lemma opt_filter_Some {A} (g : A → bool) o a : opt_filter g o = Some a ↔ o = Some a ∧ g a = true.
Proof.
  destruct o as [x|]; simpl; [|by split; [|intros []]]. destruct (g x) eqn:E; split;
    try (intros [= <-]; done); try done; [by intros [[= <-] _]|intros [[= <-] ?]; congruence].
Qed.

Section theorems.
Context {W : Type} {p : PortableCanonicalCommitPort W} {j : PortableRuntimeJournalPort W}.
Context `{!RepositoryLaws p, !JournalLaws j, !SeparateStores p j}.
Implicit Types (w : W) (op : StableId) (b : PortableRuntimeBeginV1) (v : PortableCommitReceiptV1).

(** The record was opened by this machine under this binding. *)
Definition gate_owns (gate : PortableCommitGate W) b : Prop :=
  bg_machine_instance_id b = pg_machine_instance_id gate
  ∧ bg_binding_generation b = pg_binding_generation gate.

(** The receipt is the one [request] asks for. *)
Definition receipt_answers v (request : PortablePrepareV1) : Prop :=
  rc_operation_id v = pr_operation_id request ∧ rc_commit_id v = pr_operation_id request
  ∧ rc_branch_id v = pr_branch_id request
  ∧ rc_previous_head_hash v = pr_expected_head_hash request
  ∧ rc_checkpoint_hash v = pr_checkpoint_hash request
  ∧ rc_generation v = saturating_add u64_max (pr_expected_generation request) 1.

Lemma publish_settled_run gate request prepared w w' r :
  pg_repository gate = p → repo_wf w → publish_settled gate request prepared w = (w', r) →
  repo_wf w' ∧ ∀ branch, repo_head w' branch = repo_head w branch
            ∨ head_advances (pd_operation_id prepared) (repo_head w branch) (repo_head w' branch).
Proof.
  intros Hp Hwf Hrun. unfold publish_settled in Hrun. rewrite Hp in Hrun.
  unfold mbind at 1, stm_bind at 1 in Hrun.
  destruct (port_result _ _) as [w1 r1] eqn:E1. apply port_result_run in E1 as (r0 & Hpub & ->).
  destruct (repo_publish _ _ _ _ Hwf Hpub) as [Hwf1 Hb].
  enough (repo_wf w' ∧ ∀ branch, repo_head w' branch = repo_head w1 branch) as [Hwf' Heq]
    by (split; [done|]; intros branch; rewrite Heq; apply Hb).
  destruct r0 as [v|e]; [by injection Hrun as <- _|].
  destruct (pe_uncertain_publication e); [|by injection Hrun as <- _].
  unfold mbind, stm_bind in Hrun. destruct (port canonical_error _ _) as [w2 r2] eqn:E2.
  apply port_run in E2 as (r0 & Hread & ->). destruct (repo_read_head _ _ _ _ Hwf1 Hread) as (Hwf2 & Hh & _).
  destruct r0; injection Hrun as <- _; by split.
Qed.

Lemma commit_acknowledged machine generation request w w' v :
  repo_wf w → gate_commit (MkGate p j machine generation) request w = (w', Ok v) →
  receipt_answers v request
  ∧ repo_head w' (pr_branch_id request) = Some v
  ∧ (repo_head w (pr_branch_id request) = Some v
     ∨ rc_generation v = head_generation (repo_head w (pr_branch_id request)) + 1)
  ∧ ∃ b, journal_facts w' (pr_operation_id request) = Some (PfHeadLinked b v)
         ∧ gate_owns (MkGate p j machine generation) b ∧ receipt_fulfils v b.
Proof.
  set (gate := MkGate p j machine generation). intros Hwf Hrun. unfold gate_commit in Hrun. simpl in Hrun.
  run_inv Hrun. rename x0 into prepared, x5 into v1, x8 into v2, x13 into facts.
  apply port_ok in Hrun0, Hrun2, Hrun5, Hrun7, Hrun8. boolify. subst v1.
  unfold validate_receipt in Hrun4. destruct (receipt_matches_begin _ _ _) eqn:Em; [|done].
  assert (receipt_fulfils v2 (begin_of gate request prepared)) as Hful
    by (by eapply receipt_matches_begin_spec).
  destruct (repo_prepare _ _ _ _ Hwf Hrun0) as [Hwf0 Hh0].
  destruct (begin_heads _ _ _ _ Hrun2) as [Hwf2 Hh2]. specialize (Hwf2 Hwf0).
  destruct (publish_settled_run gate _ _ _ _ _ eq_refl Hwf2 Hrun3) as [Hwf3 Hpub].
  specialize (Hpub (pr_branch_id request)).
  destruct (repo_verify _ _ _ _ Hwf3 Hrun5) as (Hwf5 & Hh5 & Hv5). specialize (Hv5 _ eq_refl).
  destruct (facts_heads _ _ _ _ Hrun8) as [_ Hh8], (finalize_heads _ _ _ _ Hrun7) as [_ Hh7].
  destruct (journal_read _ _ _ _ Hrun8) as [Hf8 Hr8]. specialize (Hr8 _ eq_refl).
  destruct facts as [[b|b v3|b reason]|]; try discriminate Hrun.
  destruct (_ && _) eqn:Eb; [|discriminate Hrun]. boolify. run_inv Hrun.
  assert (rc_branch_id v2 = pr_branch_id request) as Hbr by apply Hful.
  assert (∀ branch, repo_head x12 branch = repo_head x4 branch) as Hlast.
  { intros branch. by rewrite Hh8, Hh7, Hh5. }
  assert (repo_head x1 (pr_branch_id request) = repo_head w (pr_branch_id request)) as Hfirst.
  { by rewrite Hh2, Hh0. }
  rewrite Hbr in Hv5.
  rewrite Hfirst, Hv5 in Hpub. split_and!.
  - unfold receipt_fulfils in Hful. simpl in Hful. destruct Hful as (?&?&?&?&?&?&?).
    unfold receipt_answers. split_and!; congruence.
  - by rewrite Hlast.
  - destruct Hpub as [Hsame|(r & [= <-] & _ & Hg)]; auto.
  - exists (begin_of gate request prepared). by rewrite Hf8, <- Hr8.
Qed.

(** ** Recovery *)

(** The commit of record [f] took effect, as far as this machine and binding
    can tell: its publication is the branch's head. *)
Definition took_effect (gate : PortableCommitGate W) w (f : PortableRuntimeFactsV1) : Prop :=
  let b := facts_begin f in
  gate_owns gate b
  ∧ ∃ v, repo_head w (bg_branch_id b) = Some v ∧ receipt_fulfils v b
         ∧ match f with PfPending _ => True | PfHeadLinked _ v' => v' = v | PfQuarantined _ _ => False end.

Lemma receipt_fulfils_proves v b : receipt_fulfils v b → head_proves b v = true.
Proof.
  unfold receipt_fulfils, head_proves.
  rewrite !andb_true_iff, !bool_decide_eq_true, N.eqb_eq. naive_solver.
Qed.
(** A record determines the receipt that fulfils it. *)
Lemma receipt_fulfils_unique v v' b : receipt_fulfils v b → receipt_fulfils v' b → v = v'.
Proof.
  intros (?&?&?&?&?&?&?) (?&?&?&?&?&?&?). destruct v, v'; simpl in *. congruence.
Qed.
Lemma runtime_matches_spec (gate : PortableCommitGate W) b v :
  runtime_matches gate b v = true ↔ gate_owns gate b ∧ receipt_fulfils v b.
Proof.
  unfold runtime_matches, gate_owns, receipt_fulfils.
  rewrite !andb_true_iff, !bool_decide_eq_true, !N.eqb_eq. naive_solver.
Qed.

(** How [recover] ends for record [f]. *)
Definition recovered (gate : PortableCommitGate W) op w w' (f : PortableRuntimeFactsV1)
    (answer : PortableRecoveryFacts) : Prop :=
  let b := facts_begin f in
  pf_branch_id answer = as_str (bg_branch_id b)
  ∧ (pf_resumable answer = true ∧ pf_quarantined answer = false ∧ took_effect gate w f
     ∧ (∃ v, repo_head w (bg_branch_id b) = Some v ∧ journal_facts w' op = Some (PfHeadLinked b v))
     ∨ pf_resumable answer = false ∧ pf_quarantined answer = true ∧ ¬ took_effect gate w f
       ∧ ∃ reason, journal_facts w' op = Some (PfQuarantined b reason)).

Section one_gate.
Context (machine : StableId) (generation : N).
Abbreviation gate := (MkGate p j machine generation).

(** A quarantine after reads that changed nothing. *)
Lemma quarantined_recovery op reason f w w1 w' u :
  journal_facts w op = Some f → same_facts w w1 → same_heads w w1 →
  port journal_error (pj_quarantine j op reason) w1 = (w', Ok u) → ¬ took_effect gate w f →
  recovered gate op w w' f (quarantined_facts (facts_begin f)) ∧ same_heads w w' ∧ other_facts op w w'.
Proof.
  intros Hf Hs Hh Hq%port_ok Hno. destruct u.
  destruct (journal_quarantine _ _ _ _ _ Hq) as (Ho & _ & Hok).
  rewrite <- Hs in Hf. specialize (Hok eq_refl _ Hf). split_and!.
  - split; [done|]. right. simpl. eauto.
  - intros branch. rewrite (proj2 (quarantine_heads _ _ _ _ _ Hq)). apply Hh.
  - intros o Hne. rewrite Ho by done. apply Hs.
Qed.

Lemma pending_recovery op b w w' answer w0 :
  journal_facts w op = Some (PfPending b) → same_facts w w0 → same_heads w w0 → repo_wf w0 →
  (if negb (bool_decide (bg_machine_instance_id b = machine)) || negb (bg_binding_generation b =? generation)
   then
     _ ← port journal_error (pj_quarantine j op "pending publication belongs to a stale runtime binding");
     mret (quarantined_facts b)
   else
     head ← port canonical_error (pp_read_head p (bg_branch_id b));
     match opt_filter (head_proves b) head with
     | Some receipt =>
         verified ← port canonical_error (pp_verify p receipt);
         _ ← port journal_error (pj_finalize j (MkFinalize op verified));
         mret (MkRecoveryFacts true false (as_str (bg_branch_id b)))
     | None =>
         _ ← port journal_error (pj_quarantine j op "pending publication has no exact verified head");
         mret (quarantined_facts b)
     end) w0 = (w', Ok answer) →
  recovered gate op w w' (PfPending b) answer ∧ same_heads w w' ∧ other_facts op w w'.
Proof.
  intros Hf Hs Hh Hwf Hrun. destruct (negb _ || negb _) eqn:Eown.
  - apply bind_ok in Hrun as (w2 & u & Hq & Hrun). injection Hrun as <- <-.
    eapply (quarantined_recovery _ _ (PfPending b)); [done..|].
    intros [[Hm Hg] _]. simpl in *. apply orb_true_iff in Eown as [E|E]; boolify; congruence.
  - apply bind_ok in Hrun as (w1 & head & Hread%port_ok & Hrun).
    destruct (repo_read_head _ _ _ _ Hwf Hread) as (Hwf1 & Hh1 & Hhead). specialize (Hhead _ eq_refl).
    rewrite Hh in Hhead.
    assert (same_heads w w1) as Hh01 by (intros br; by rewrite Hh1).
    assert (same_facts w w1) as Hs01 by (intros o; by rewrite (read_head_journal _ _ _ _ o Hread)).
    destruct (opt_filter (head_proves b) head) as [v|] eqn:Efilter.
    + apply opt_filter_Some in Efilter as [-> Hproves].
      apply bind_ok in Hrun as (w2 & v' & Hver%port_ok & Hrun).
      apply bind_ok in Hrun as (w3 & [] & Hfin%port_ok & Hrun). run_inv Hrun.
      destruct (repo_verify _ _ _ _ Hwf1 Hver) as (_ & Hh2 & Hv). specialize (Hv _ eq_refl).
      assert (same_facts w w2) as Hs02 by (intros o; by rewrite (verify_journal _ _ _ _ o Hver)).
      destruct (journal_finalize _ _ _ _ Hfin) as (Ho & Hlink & Hok). simpl in *.
      rewrite Hs02 in Hok, Hlink. specialize (Hok eq_refl _ Hf). rewrite Hf in Hlink.
      destruct Hlink as [Hl|(b' & [= <-] & _ & Hful)]; [congruence|].
      assert (rc_branch_id v' = bg_branch_id b) as Hbr by apply Hful.
      rewrite Hh01, Hbr in Hv. split_and!.
      * split; [done|]. left. split_and!; [done..| |by exists v'].
        boolify. split; [by split|]. exists v'. split_and!; done.
      * intros br. rewrite (proj2 (finalize_heads _ _ _ _ Hfin)), Hh2. apply Hh01.
      * intros o Hne. rewrite Ho by done. apply Hs02.
    + apply bind_ok in Hrun as (w2 & u & Hq & Hrun). injection Hrun as <- <-.
      eapply (quarantined_recovery _ _ (PfPending b)); [done..|].
      intros (_ & v & Hv & Hful & _). simpl in Hv, Hful. rewrite Hv in Hhead. subst head. simpl in Efilter.
      by rewrite (receipt_fulfils_proves _ _ Hful) in Efilter.
Qed.

Lemma linked_recovery op b v w w' answer w0 :
  journal_facts w op = Some (PfHeadLinked b v) → same_facts w w0 → same_heads w w0 → repo_wf w0 →
  (head ← port canonical_error (pp_read_head p (bg_branch_id b));
   let resumable := runtime_matches gate b v && bool_decide (head = Some v) in
   _ ← (if resumable then mret ()
        else port journal_error (pj_quarantine j op
               "linked publication no longer matches the runtime binding and head"));
   mret (MkRecoveryFacts resumable (negb resumable) (as_str (bg_branch_id b)))) w0 = (w', Ok answer) →
  recovered gate op w w' (PfHeadLinked b v) answer ∧ same_heads w w' ∧ other_facts op w w'.
Proof.
  intros Hf Hs Hh Hwf Hrun. apply bind_ok in Hrun as (w1 & head & Hread%port_ok & Hrun).
  destruct (repo_read_head _ _ _ _ Hwf Hread) as (Hwf1 & Hh1 & Hhead). specialize (Hhead _ eq_refl).
  rewrite Hh in Hhead.
  assert (same_heads w w1) as Hh01 by (intros br; by rewrite Hh1).
  assert (same_facts w w1) as Hs01 by (intros o; by rewrite (read_head_journal _ _ _ _ o Hread)).
  cbv zeta in Hrun. destruct (runtime_matches gate b v && _) eqn:Eres.
  - apply bind_ok in Hrun as (w2 & u & Hq & Hrun). injection Hrun as <- <-. injection Hq as <- _.
    apply andb_true_iff in Eres as [[Hown Hful]%runtime_matches_spec Hv].
    apply bool_decide_eq_true in Hv. rewrite Hv in Hhead. split_and!; [|done|intros o _; apply Hs01].
    split; [done|]. left. split_and!; [done..| |by exists v; rewrite Hs01].
    split; [done|]. by exists v.
  - apply bind_ok in Hrun as (w2 & u & Hq & Hrun). injection Hrun as <- <-.
    eapply (quarantined_recovery _ _ (PfHeadLinked b v)); [done..|].
    intros (Hown & v' & Hv & Hful & <-). simpl in *.
    rewrite (proj2 (runtime_matches_spec gate b v) (conj Hown Hful)) in Eres.
    rewrite bool_decide_true in Eres by congruence. done.
Qed.

Lemma gate_recover_run op w w' answer :
  repo_wf w → gate_recover gate op w = (w', Ok answer) →
  ∃ f, journal_facts w op = Some f ∧ recovered gate op w w' f answer
       ∧ same_heads w w' ∧ other_facts op w w'.
Proof.
  intros Hwf Hrun. unfold gate_recover in Hrun. simpl in Hrun.
  apply bind_ok in Hrun as (w0 & f & Hfacts%port_ok & Hrun).
  apply bind_ok in Hrun as (w1 & f' & [Hf' ->]%lift_ok & Hrun). apply ok_or_ok in Hf' as ->.
  destruct (journal_read _ _ _ _ Hfacts) as [Hs Hf]. specialize (Hf _ eq_refl). symmetry in Hf.
  assert (same_heads w w0) as Hh by (intros br; by rewrite (proj2 (facts_heads _ _ _ _ Hfacts))).
  pose proof (proj1 (facts_heads _ _ _ _ Hfacts) Hwf) as Hwf0.
  exists f'. split; [done|]. destruct f' as [b|b v|b reason].
  - by eapply pending_recovery.
  - by eapply linked_recovery.
  - run_inv Hrun. split_and!; [|done|intros o _; apply Hs]. split; [done|]. right. simpl.
    split_and!; [done..| |exists reason; by rewrite Hs]. by intros (_ & v & _ & _ & []).
Qed.

Lemma recovered_answer op w w' f answer :
  recovered gate op w w' f answer →
  pf_quarantined answer = negb (pf_resumable answer)
  ∧ (pf_resumable answer = true ↔ took_effect gate w f).
Proof. intros (_ & [(-> & -> & ? & _)|(-> & -> & ? & _)]); split; done. Qed.

Lemma recovered_again op w w' w'' f answer answer' :
  recovered gate op w w' f answer → same_heads w w' → repo_wf w' →
  gate_recover gate op w' = (w'', Ok answer') → answer' = answer.
Proof.
  intros (Hb & Hrec) Hh Hwf Hrun. destruct (gate_recover_run _ _ _ _ Hwf Hrun) as (f' & Hf' & Hr' & _ & _).
  pose proof (recovered_answer _ _ _ _ _ Hr') as [Hq' Hiff'].
  assert (facts_begin f' = facts_begin f ∧ (pf_resumable answer = true ↔ took_effect gate w' f'))
    as [Hbegin Hiff].
  { destruct Hrec as [(-> & _ & (Hown & v0 & Hv0 & Hful & _) & v & Hv & Hl)|(-> & _ & Hno & reason & Hl)];
      rewrite Hl in Hf'; injection Hf' as <-; (split; [done|]).
    - split; [|done]. intros _. split; [done|]. exists v. simpl. rewrite Hh. by simplify_eq.
    - split; [done|]. by intros (_ & ? & _ & _ & []). }
  destruct Hr' as [Hb' _]. rewrite Hbegin, <- Hb in Hb'.
  destruct answer as [r q br], answer' as [r' q' br']; simpl in *.
  assert (q = negb r) as -> by (destruct Hrec as [(-> & -> & _)|(-> & -> & _)]; done).
  assert (r = r') as -> by (destruct r, r'; naive_solver). by subst.
Qed.

(** ** Commits that stop anywhere *)

(** The record of [op], if there is one, was opened by this request. *)
Definition opened_by (request : PortablePrepareV1) w : Prop :=
  ∀ f, journal_facts w (pr_operation_id request) = Some f →
    (∃ prepared, facts_begin f = begin_of gate request prepared)
    ∧ match f with
      | PfPending _ => True
      | PfHeadLinked b v => receipt_fulfils v b
      | PfQuarantined _ _ => False
      end.
Definition keeps {E A} (P : W → Prop) (m : stm W E A) : Prop :=
  ∀ w w' r, P w → m w = (w', r) → P w'.

Lemma keeps_bind {E A B} P (m : stm W E A) (k : A → stm W E B) :
  keeps P m → (∀ a, keeps P (k a)) → keeps P (m ≫= k).
Proof.
  intros Hm Hk w w' r HP. unfold mbind, stm_bind. destruct (m w) as [w1 [a|e]] eqn:E1; intros Hrun.
  - eapply Hk; [|done]. by eapply Hm.
  - simplify_eq. by eapply Hm.
Qed.
Lemma keeps_pure {E A} P (m : stm W E A) : (∀ w w' r, m w = (w', r) → w' = w) → keeps P m.
Proof. intros Hm w w' r HP Hrun. by rewrite (Hm _ _ _ Hrun). Qed.
Lemma keeps_port {E F A} P (f : E → F) (m : stm W E A) : keeps P m → keeps P (port f m).
Proof. intros Hm w w' r HP (r0 & Hr & _)%port_run. by eapply Hm. Qed.
Lemma keeps_port_result {E F A} P (m : stm W E A) : keeps P m → keeps P (port_result (F:=F) m).
Proof. intros Hm w w' r HP (r0 & Hr & _)%port_result_run. by eapply Hm. Qed.

Lemma opened_facts {E A} request (m : stm W E A) :
  (∀ w w' r, m w = (w', r) → same_facts w w') → keeps (opened_by request) m.
Proof. intros Hm w w' r HP Hrun f. rewrite (Hm _ _ _ Hrun). apply HP. Qed.

Lemma commit_opens request : keeps (opened_by request) (gate_commit gate request).
Proof.
  assert (∀ x, keeps (opened_by request) (pp_prepare p x)) as Hprep.
  { intros x. apply opened_facts. intros w w' r Hrun o. by eapply prepare_journal. }
  assert (∀ x, keeps (opened_by request) (pp_publish p x)) as Hpub.
  { intros x. apply opened_facts. intros w w' r Hrun o. by eapply publish_journal. }
  assert (∀ x, keeps (opened_by request) (pp_verify p x)) as Hver.
  { intros x. apply opened_facts. intros w w' r Hrun o. by eapply verify_journal. }
  assert (∀ x, keeps (opened_by request) (pp_read_head p x)) as Hread.
  { intros x. apply opened_facts. intros w w' r Hrun o. by eapply read_head_journal. }
  assert (∀ x, keeps (opened_by request) (pj_facts j x)) as Hfacts.
  { intros x. apply opened_facts. intros w w' r Hrun. by destruct (journal_read _ _ _ _ Hrun). }
  assert (∀ x, keeps (opened_by request) (pj_begin j (begin_of gate request x))) as Hbegin.
  { intros x w w' r HP Hrun f Hf.
    destruct (journal_begin _ _ _ _ Hrun) as (_ & [Hs|[_ Hs]] & _); simpl in Hs; rewrite Hs in Hf.
    - by apply HP.
    - injection Hf as <-. split; [by exists x|done]. }
  assert (∀ v, keeps (opened_by request) (pj_finalize j (MkFinalize (pr_operation_id request) v))) as Hfin.
  { intros v w w' r HP Hrun f Hf.
    destruct (journal_finalize _ _ _ _ Hrun) as (_ & [Hs|(b & Hs & Hs' & Hful)] & _); simpl in *.
    - rewrite Hs in Hf. by apply HP.
    - rewrite Hs' in Hf. injection Hf as <-. destruct (HP _ Hs) as [? _]. by split. }
  assert (∀ A (x : result PortableGateError A), keeps (opened_by request) (lift x)) as Hlift.
  { intros A x. apply keeps_pure. by intros ??? [= <- _]. }
  unfold gate_commit, publish_settled, reject_if. simpl.
  repeat first [apply keeps_bind; [|intros] | apply keeps_port; auto; fail | apply keeps_port_result; auto; fail
    | apply Hlift | apply keeps_pure; by intros ??? [= <- _] | case_match].
Qed.
End one_gate.

(** An acknowledged portable commit is published and durably linked: the
    receipt answers the request, it is the branch's head, the head it
    replaced was the previous generation (or it was published already), and
    the journal links it to a record opened by this machine and binding. *)
Theorem portable_commit_acknowledged machine generation request w w' v :
  repo_wf w → gate_commit (MkGate p j machine generation) request w = (w', Ok v) →
  receipt_answers v request
  ∧ repo_head w' (pr_branch_id request) = Some v
  ∧ (repo_head w (pr_branch_id request) = Some v
     ∨ rc_generation v = head_generation (repo_head w (pr_branch_id request)) + 1)
  ∧ ∃ b, journal_facts w' (pr_operation_id request) = Some (PfHeadLinked b v)
         ∧ gate_owns (MkGate p j machine generation) b ∧ receipt_fulfils v b.
Proof. apply commit_acknowledged. Qed.

(** Recovery decides from durable facts alone and is idempotent: it
    answers that the run can be resumed exactly when the recorded publication
    is the branch's head and belongs to this machine and binding, links the
    record in that case and quarantines it otherwise, moves no head, touches
    no other record, and answers the same when repeated. *)
Theorem portable_recovery_decides machine generation op w w' answer :
  repo_wf w → gate_recover (MkGate p j machine generation) op w = (w', Ok answer) →
  ∃ f, journal_facts w op = Some f
    ∧ recovered (MkGate p j machine generation) op w w' f answer
    ∧ same_heads w w' ∧ other_facts op w w'
    ∧ ∀ w'' answer', gate_recover (MkGate p j machine generation) op w' = (w'', Ok answer') →
        answer' = answer.
Proof.
  intros Hwf Hrun. destruct (gate_recover_run _ _ _ _ _ _ Hwf Hrun) as (f & Hf & Hr & Hh & Ho).
  destruct (gate_recover_moves _ _ _ _ _ _ Hwf I Hrun) as (Hwf' & _).
  exists f. split_and!; [done..|]. intros w'' answer'. by eapply recovered_again.
Qed.


(** C18: The portable history of a branch is linear: whatever cores and other
    processes do, every linked receipt fulfils its record and is at or behind
    the branch's head, and two linked receipts of one branch and generation
    are the same receipt of the same operation. *)
Theorem portable_history_linear w0 w :
  repo_wf w0 → (∀ op, journal_facts w0 op = None) → rtc (system_step (p:=p) (j:=j)) w0 w →
  ∀ op b v, journal_facts w op = Some (PfHeadLinked b v) →
    receipt_fulfils v b
    ∧ (∃ h, repo_head w (rc_branch_id v) = Some h ∧ (v = h ∨ rc_generation v < rc_generation h))
    ∧ ∀ op' b' v', journal_facts w op' = Some (PfHeadLinked b' v') →
        rc_branch_id v = rc_branch_id v' → rc_generation v = rc_generation v' → op = op' ∧ v = v'.
Proof.
  intros Hwf H0 Hr op b v Hl. destruct (history_reachable w0 w Hwf H0 Hr) as [H1 H2 H3].
  split_and!; [by eapply H1|by eapply H2|]. intros op' b' v' Hl' Hb Hg.
  pose proof (H3 _ _ _ _ _ _ Hl Hl' Hb Hg) as <-. split; [|done].
  destruct (H1 _ _ _ Hl) as [Hop _], (H1 _ _ _ Hl') as [Hop' _].
  pose proof (journal_keyed _ _ _ Hl). pose proof (journal_keyed _ _ _ Hl'). simpl in *. congruence.
Qed.
End theorems.
