(* ===== verification/Committer.v ===== *)
(** * The commit router ([crates/aworkit-trusted-core/src/committer.rs])

    [CanonicalCommitter] sends every batch of a chat to the one history
    backend the chat is bound to: the local ledger, or the gate of a portable
    repository.  The theorems: a binding never changes and no chat is ever
    committed through two backends ([canonical_backend_unique]); a request the
    router builds passes the router's own checks
    ([portable_request_accepted]). *)
From S2P Require Export Portable Calls PortableTheorems.

(** * The router *)

Inductive HistoryBinding : Type :=
| HbLocalSqlite
| HbPortableProject (repository_id : string).
#[export] Instance HistoryBinding_eq_dec : EqDecision HistoryBinding.
Proof. solve_decision. Defined.

Record CommitRequest : Type := MkCommitRequest {
  cq_binding : HistoryBinding;
  cq_batch : CommitBatchV1
}.
Inductive CanonicalCommitRequestV1 : Type :=
| CqLocal (batch : CommitBatchV1)
| CqPortable (repository_id : StableId) (prepare : PortablePrepareV1).
Inductive CanonicalCommitOutcomeV1 : Type :=
| CoLocal (outcome : CommitOutcomeV1)
| CoPortable (receipt : PortableCommitReceiptV1).

Inductive CoreCommitError : Type :=
| CcHistoryBindingConflict
| CcBackendMismatch
| CcPortableFencesRequired
| CcUnknownPortableRepository
| CcRepositoryAlreadyRegistered
| CcInvalidRequest
| CcUnknownOutbox
| CcPoisoned
| CcLocalPort (code message : string) (retryable : bool)
| CcPortable (error : PortableGateError).

Definition history_error (error : HistoryPortErrorV1) : CoreCommitError :=
  CcLocalPort (he_code error) (he_message error) (he_retryable error).

(** ** Building portable requests *)

Section requests.
Context `{Sha256, !Serialize json, !ToValue CommitBatchV1, !FromValue CommitBatchV1, !ToValue CheckpointV1}.

Definition portable_value_hash (domain : string) (value : json) : result CoreCommitError string :=
  bytes ← ok_or (jcs_to_vec value) CcInvalidRequest;
  Ok ("sha256:" +:+ sha256_hex (as_bytes domain ++ [x00] ++ bytes)).

Definition portable_batch (record : json) : result CoreCommitError CommitBatchV1 :=
  match from_value record with
  | Some batch => Ok batch
  | None => ok_or (value_get "batch" record ≫= from_value) CcInvalidRequest
  end.

Definition is_portable (backend : HistoryBackendV1) : bool :=
  match backend with PortableProject _ => true | LocalSqlite => false end.

Definition portable_request_from_record (batch : CommitBatchV1) (operation_id : StableId)
    (expected_generation : N) (expected_head_hash : option string) (record : json) :
    result CoreCommitError PortablePrepareV1 :=
  _ ← fail_if (negb (is_portable (cb_backend batch)) || is_nil (cb_events batch)) CcInvalidRequest;
  checkpoint ← match cb_checkpoint batch with
               | Some c => Some <$> ok_or (to_value c) CcInvalidRequest
               | None => Ok None
               end;
  record_hash ← portable_value_hash "portable-record-v1" record;
  checkpoint_hash ← portable_value_hash "portable-checkpoint-v1" (default JNull checkpoint);
  Ok (MkPrepare operation_id (cb_chat_id batch) (cb_branch_id batch) expected_generation
        (cb_expected_head batch) expected_head_hash record record_hash checkpoint checkpoint_hash).

Definition portable_request (batch : CommitBatchV1) (operation_id : StableId)
    (expected_generation : N) (expected_head_hash : option string) :
    result CoreCommitError PortablePrepareV1 :=
  _ ← fail_if (negb (is_portable (cb_backend batch)) || is_nil (cb_events batch)) CcInvalidRequest;
  record ← ok_or (to_value batch) CcInvalidRequest;
  portable_request_from_record batch operation_id expected_generation expected_head_hash record.

(** [json!] panics if the batch does not serialize: [None]. *)
Definition portable_request_with_context (batch : CommitBatchV1) (portable_context : json)
    (operation_id : StableId) (expected_generation : N) (expected_head_hash : option string) :
    option (result CoreCommitError PortablePrepareV1) :=
  if negb (is_object portable_context) then Some (Err CcInvalidRequest)
  else
    value ← to_value batch;
    Some (portable_request_from_record batch operation_id expected_generation expected_head_hash
            (JObject [("batch", value); ("context", portable_context)])).
End requests.

(** ** The router *)

Record CanonicalCommitter (W : Type) : Type := MkCommitter {
  cm_local : LocalHistoryCommitPort W;
  cm_portable : gmap string (PortableCommitGate W);
  cm_bindings : gmap string HistoryBinding
}.
Arguments MkCommitter {W}.
Arguments cm_local {W}.
Arguments cm_portable {W}.
Arguments cm_bindings {W}.

Section router.
Context {W : Type}.
Context `{Sha256, !Serialize json, !ToValue CommitBatchV1, !FromValue CommitBatchV1, !ToValue CheckpointV1}.

(** A method of the router: it owns its tables and calls the ports. *)
Abbreviation cm := (stm (CanonicalCommitter W * W) CoreCommitError).
Definition world {E A} (f : E → CoreCommitError) (m : stm W E A) : cm A := call second f m.

Definition from_local_port (local : LocalHistoryCommitPort W) : CanonicalCommitter W :=
  MkCommitter local ∅ ∅.

Definition register_portable_repository (repository_id : StableId) (gate : PortableCommitGate W) :
    cm () :=
  '(c, _) ← read;
  _ ← reject_if (bt_contains (cm_portable c) (as_str repository_id)) CcRepositoryAlreadyRegistered;
  modify (λ '(c, w), (MkCommitter (cm_local c) (<[as_str repository_id := gate]> (cm_portable c))
                        (cm_bindings c), w)).

Definition bind_chat (chat_id : string) (binding : HistoryBinding) : cm () :=
  chat_id ← lift (map_err (λ _, CcInvalidRequest) (StableId_parse chat_id));
  '(c, _) ← read;
  match cm_bindings c !! as_str chat_id with
  | Some existing => reject_if (negb (bool_decide (existing = binding))) CcHistoryBindingConflict
  | None => modify (λ '(c, w), (MkCommitter (cm_local c) (cm_portable c)
                                  (<[as_str chat_id := binding]> (cm_bindings c)), w))
  end.

Definition commit_local (batch : CommitBatchV1) : cm CommitOutcomeV1 :=
  _ ← bind_chat (as_str (cb_chat_id batch)) HbLocalSqlite;
  '(c, _) ← read;
  world history_error (lp_commit (cm_local c) batch).

Definition committer_commit (request : CommitRequest) : cm CommitOutcomeV1 :=
  _ ← reject_if (negb (bool_decide (cq_binding request = HbLocalSqlite))
                 || negb (bool_decide (cb_backend (cq_batch request) = LocalSqlite)))
        CcPortableFencesRequired;
  commit_local (cq_batch request).

Definition commit_v1 (request : CanonicalCommitRequestV1) : cm CanonicalCommitOutcomeV1 :=
  match request with
  | CqLocal batch =>
      _ ← reject_if (negb (bool_decide (cb_backend batch = LocalSqlite))) CcBackendMismatch;
      outcome ← commit_local batch;
      mret (CoLocal outcome)
  | CqPortable repository_id prepare =>
      record ← lift (portable_batch (pr_record prepare));
      _ ← reject_if (negb (bool_decide (cb_chat_id record = pr_chat_id prepare))
                     || negb (bool_decide (cb_branch_id record = pr_branch_id prepare))
                     || negb (bool_decide (cb_backend record = PortableProject repository_id)))
            CcBackendMismatch;
      _ ← bind_chat (as_str (pr_chat_id prepare)) (HbPortableProject (as_str repository_id));
      '(c, _) ← read;
      gate ← lift (ok_or (cm_portable c !! as_str repository_id) CcUnknownPortableRepository);
      receipt ← world CcPortable (gate_commit gate prepare);
      mret (CoPortable receipt)
  end.

Definition pending_delivery_after (after_cursor limit : N) : cm (list PendingOutboxV1) :=
  '(c, _) ← read;
  world history_error (lp_pending_outbox (cm_local c) after_cursor limit).
Definition pending_delivery (limit : N) : cm (list PendingOutboxV1) := pending_delivery_after 0 limit.

Definition mark_delivered_v1 (outbox_id : StableId) (expected_cursor : N) : cm () :=
  '(c, _) ← read;
  world history_error (lp_mark_outbox_delivered (cm_local c) outbox_id expected_cursor).

Definition mark_delivered (outbox_id : string) : cm () :=
  outbox_id ← lift (map_err (λ _, CcInvalidRequest) (StableId_parse outbox_id));
  pending ← pending_delivery_after 0 u32_max;
  cursor ← lift (ok_or (po_delivery_cursor <$>
             find (λ entry, bool_decide (po_outbox_id entry = outbox_id)) pending) CcUnknownOutbox);
  mark_delivered_v1 outbox_id cursor.

(** ** Calls of the router *)

Inductive committer_call : Type :=
| CkRegister (repository_id : StableId) (gate : PortableCommitGate W)
| CkBind (chat_id : string) (binding : HistoryBinding)
| CkCommit (request : CommitRequest)
| CkCommitV1 (request : CanonicalCommitRequestV1)
| CkPending (after_cursor limit : N)
| CkDelivered (outbox_id : StableId) (cursor : N)
| CkDeliveredById (outbox_id : string).
Definition run_committer (k : committer_call) : cm () :=
  match k with
  | CkRegister repository_id gate => register_portable_repository repository_id gate
  | CkBind chat_id binding => bind_chat chat_id binding
  | CkCommit request => _ ← committer_commit request; mret ()
  | CkCommitV1 request => _ ← commit_v1 request; mret ()
  | CkPending after limit => _ ← pending_delivery_after after limit; mret ()
  | CkDelivered outbox_id cursor => mark_delivered_v1 outbox_id cursor
  | CkDeliveredById outbox_id => mark_delivered outbox_id
  end.
End router.

(** * Its theorems *)

(** ** Instrumented ports *)

Section logged.
Context {W : Type}.
Abbreviation entry := (StableId * HistoryBinding)%type.
Abbreviation LW := (W * list entry)%type.

(** The operation of a port, on the first part of the world. *)
Definition quiet {E A} (m : stm W E A) : stm LW E A := call first id m.
Definition noted {E A} (e : entry) (m : stm W E A) : stm LW E A := λ '(w, log),
  quiet m (w, log ++ [e]).

Definition logged_local (p : LocalHistoryCommitPort W) : LocalHistoryCommitPort LW :=
  MkLocalPort (λ batch, noted (cb_chat_id batch, HbLocalSqlite) (lp_commit p batch))
    (λ after limit, quiet (lp_pending_outbox p after limit))
    (λ outbox cursor, quiet (lp_mark_outbox_delivered p outbox cursor)).
Definition logged_repository (id : StableId) (p : PortableCanonicalCommitPort W) :
    PortableCanonicalCommitPort LW :=
  MkPortablePort (λ q, noted (pr_chat_id q, HbPortableProject (as_str id)) (pp_prepare p q))
    (λ x, quiet (pp_publish p x)) (λ x, quiet (pp_verify p x)) (λ x, quiet (pp_read_head p x)).
Definition quiet_journal (j : PortableRuntimeJournalPort W) : PortableRuntimeJournalPort LW :=
  MkJournalPort (λ x, quiet (pj_begin j x)) (λ x, quiet (pj_finalize j x))
    (λ x, quiet (pj_facts j x)) (λ x y, quiet (pj_quarantine j x y)).
Definition logged_gate (id : StableId) (g : PortableCommitGate W) : PortableCommitGate LW :=
  MkGate (logged_repository id (pg_repository g)) (quiet_journal (pg_journal g))
    (pg_machine_instance_id g) (pg_binding_generation g).

Lemma quiet_log {E A} (m : stm W E A) s s' r : quiet m s = (s', r) → s'.2 = s.2.
Proof. unfold quiet, call. destruct s as [w l]. simpl. by destruct (m w) as [w1 [a|e]]; intros [= <- _]. Qed.
Lemma noted_log {E A} e (m : stm W E A) s s' r : noted e m s = (s', r) → s'.2 = s.2 ++ [e].
Proof. destruct s as [w l]. unfold noted. intros H. by rewrite (quiet_log _ _ _ _ H). Qed.

(** Only the preparation is noted, and it comes first. *)
Lemma quiet_keeps {E A} log (m : stm W E A) : keeps (λ s : LW, s.2 = log) (quiet m).
Proof. intros s s' r <-. apply quiet_log. Qed.

Lemma logged_commit_log id g q s s' r :
  gate_commit (logged_gate id g) q s = (s', r) →
  s'.2 = s.2 ++ [(pr_chat_id q, HbPortableProject (as_str id))].
Proof.
  set (e := (pr_chat_id q, HbPortableProject (as_str id))).
  unfold gate_commit. simpl. unfold mbind at 1, stm_bind at 1.
  destruct (port canonical_error _ s) as [s1 [prepared|x]] eqn:E1;
    apply port_run in E1 as (r0 & Hr0 & Heq); pose proof (noted_log _ _ _ _ _ Hr0) as Hlog;
    [|by intros [= <- _]]. clear Hr0 Heq. revert s1 s' r Hlog.
  assert (∀ A (x : result PortableGateError A), keeps (λ t : LW, t.2 = s.2 ++ [e]) (lift x)) as Hlift.
  { intros A x. apply keeps_pure. by intros ??? [= <- _]. }
  match goal with |- ∀ s1 s' r, _ → ?m s1 = _ → _ =>
    enough (keeps (λ t : LW, t.2 = s.2 ++ [e]) m) as Hk by (intros s1 s' r Hl Hrun; exact (Hk s1 s' r Hl Hrun)) end.
  unfold publish_settled, reject_if. simpl.
  repeat first [apply keeps_bind; [|intros] | apply keeps_port, quiet_keeps
    | apply keeps_port_result, quiet_keeps | apply Hlift
    | apply keeps_pure; by intros ??? [= <- _] | case_match].
Qed.
End logged.

(** ** Runs of the router *)

Section runs.
Context {W : Type} (local : LocalHistoryCommitPort W).
Context `{Sha256, !Serialize json, !ToValue CommitBatchV1, !FromValue CommitBatchV1, !ToValue CheckpointV1}.
Abbreviation LW := (W * list (StableId * HistoryBinding))%type.
Abbreviation state := (CanonicalCommitter LW * LW)%type.
Implicit Types (s : state) (chat : StableId) (b : HistoryBinding).

Definition commit_log s : list (StableId * HistoryBinding) := s.2.2.
Definition bindings_of s : gmap string HistoryBinding := cm_bindings s.1.

(** Every repository registered is instrumented under its own identifier. *)
Definition instrumented (k : committer_call (W:=LW)) : Prop :=
  match k with CkRegister id g => ∃ g0, g = logged_gate id g0 | _ => True end.
Inductive router_reachable : state → Prop :=
| rr_init w : router_reachable (from_local_port (logged_local local), (w, []))
| rr_step k s s' r : router_reachable s → instrumented k → run_committer k s = (s', r) →
    router_reachable s'.

Record router_inv s : Prop := {
  ri_local : cm_local s.1 = logged_local local;
  ri_gates : ∀ key g, cm_portable s.1 !! key = Some g → ∃ id g0, key = as_str id ∧ g = logged_gate id g0;
  ri_log : ∀ chat b, (chat, b) ∈ commit_log s → bindings_of s !! as_str chat = Some b
}.

(** What a call may do: bind more chats, and note commits of chats that are
    bound to the noted backend. *)
Definition router_grows s s' : Prop :=
  router_inv s → router_inv s' ∧ bindings_of s ⊆ bindings_of s'.

#[local] Instance router_grows_preorder : PreOrder router_grows.
Proof.
  split; [by intros s ?|]. intros s1 s2 s3 H12 H23 Hi. destruct (H12 Hi) as [Hi2 Hb].
  destruct (H23 Hi2) as [Hi3 Hb']. split; [done|by etrans].
Qed.

Definition grows_call {A} (m : stm state CoreCommitError A) : Prop :=
  ∀ s s' r, m s = (s', r) → router_grows s s'.
Lemma grows_bind {A B} (m : stm state CoreCommitError A) (k : A → stm state CoreCommitError B) :
  grows_call m → (∀ a, grows_call (k a)) → grows_call (m ≫= k).
Proof.
  intros Hm Hk s s' r. unfold mbind, stm_bind. destruct (m s) as [s1 [a|e]] eqn:E1; intros Hrun.
  - etrans; [by eapply Hm|by eapply Hk].
  - simplify_eq. by eapply Hm.
Qed.
Lemma grows_pure {A} (m : stm state CoreCommitError A) : (∀ s s' r, m s = (s', r) → s' = s) → grows_call m.
Proof. intros Hm s s' r Hrun. by rewrite (Hm _ _ _ Hrun). Qed.
Lemma grows_lift {A} (x : result CoreCommitError A) : grows_call (lift x).
Proof. apply grows_pure. by intros ??? [= <- _]. Qed.
Lemma grows_ret {A} (x : A) : grows_call (mret x).
Proof. apply grows_pure. by intros ??? [= <- _]. Qed.
Lemma grows_reject c e : grows_call (reject_if c e).
Proof. apply grows_pure. by intros ??? [= <- _]. Qed.
Lemma grows_read : grows_call read.
Proof. apply grows_pure. by intros ??? [= <- _]. Qed.

(** A port call that notes nothing. *)
Lemma world_run {E A} (f : E → CoreCommitError) (m : stm LW E A) s s' r :
  world f m s = (s', r) → ∃ r0, m s.2 = (s'.2, r0) ∧ s'.1 = s.1.
Proof.
  unfold world, call. destruct s as [c w]. simpl. destruct (m w) as [w1 [a|e]] eqn:E1;
    intros [= <- _]; eauto.
Qed.
Lemma same_log_grows s s' : s'.1 = s.1 → commit_log s' = commit_log s → router_grows s s'.
Proof.
  intros H1 H2 [Ha Hb Hc]. unfold bindings_of in *. split; [split|]; unfold bindings_of; rewrite ?H1, ?H2; auto.
Qed.
Lemma grows_quiet {E A} (f : E → CoreCommitError) (m : stm W E A) : grows_call (world f (quiet m)).
Proof.
  intros s s' r (r0 & Hrun & H1)%world_run. apply same_log_grows; [done|]. by eapply quiet_log.
Qed.
(** A noted commit of a chat bound to the noted backend. *)
Lemma noted_grows s s' chat b :
  s'.1 = s.1 → commit_log s' = commit_log s ++ [(chat, b)] → bindings_of s !! as_str chat = Some b →
  router_grows s s'.
Proof.
  intros H1 H2 H3 [Ha Hb Hc]. unfold bindings_of in *. split; [split|]; unfold bindings_of; rewrite ?H1; auto.
  rewrite H2. intros chat' b' [Hin|[= -> ->]%list_elem_of_singleton]%elem_of_app; auto.
Qed.

Lemma bind_chat_run chat b s s' r :
  bind_chat (as_str chat) b s = (s', r) →
  router_grows s s' ∧ s'.2 = s.2 ∧ cm_portable s'.1 = cm_portable s.1
  ∧ (r = Ok () → bindings_of s' !! as_str chat = Some b).
Proof.
  unfold bind_chat. rewrite (proj2 (StableId_parse_ok _ chat) eq_refl). destruct s as [c w].
  unfold mbind, stm_bind, lift, read. simpl.
  destruct (cm_bindings c !! as_str chat) as [b'|] eqn:Eb.
  - intros [= <- <-]. split_and!; [reflexivity|done..|]. unfold fail_if.
    destruct (bool_decide (b' = b)) eqn:E; [|done]. boolify. by subst.
  - intros [= <- <-]. split_and!; [|done|done|intros _; apply lookup_insert_eq].
    intros [Ha Hb Hc]. unfold bindings_of in *. simpl in *. split; [split|]; simpl.
    + done.
    + done.
    + intros chat' b' Hin. specialize (Hc _ _ Hin). unfold bindings_of. simpl.
      rewrite lookup_insert_ne; [done|]. intros Heq. rewrite Heq in Eb. congruence.
    + by apply insert_subseteq.
Qed.
Lemma bind_chat_grows text b : grows_call (bind_chat text b).
Proof.
  intros s s' r Hrun. unfold bind_chat in Hrun. destruct (StableId_parse text) as [chat|e] eqn:Et.
  - apply StableId_parse_ok in Et as <-. apply (bind_chat_run chat b s s' r).
    unfold bind_chat. by rewrite (proj2 (StableId_parse_ok _ chat) eq_refl).
  - unfold mbind, stm_bind, lift in Hrun. simpl in Hrun. by simplify_eq.
Qed.

Lemma commit_local_grows batch : grows_call (commit_local batch).
Proof.
  intros s s' r Hrun. unfold commit_local, mbind at 1, stm_bind at 1 in Hrun.
  destruct (bind_chat _ _ s) as [s1 [[]|e]] eqn:Eb;
    destruct (bind_chat_run _ _ _ _ _ Eb) as (Hg & Hw & _ & Hok); [|by injection Hrun as <- _].
  intros Hi. destruct (Hg Hi) as [Hi1 Hsub]. specialize (Hok eq_refl).
  unfold mbind, stm_bind, read in Hrun. destruct s1 as [c1 w1].
  apply world_run in Hrun as (r0 & Hrun & H1). simpl in *.
  pose proof (ri_local _ Hi1) as Hloc. simpl in Hloc. rewrite Hloc in Hrun.
  assert (router_grows (c1, w1) s') as Hg'.
  { eapply noted_grows; [done| |done]. exact (noted_log _ _ _ _ _ Hrun). }
  destruct (Hg' Hi1) as [Hi2 Hsub2]. split; [done|by etrans].
Qed.

Lemma commit_portable_grows id q : grows_call (commit_v1 (CqPortable id q)).
Proof.
  apply grows_bind; [apply grows_lift|]. intros record. apply grows_bind; [apply grows_reject|]. intros _.
  intros s s' r Hrun. unfold mbind at 1, stm_bind at 1 in Hrun.
  destruct (bind_chat _ _ s) as [s1 [[]|e]] eqn:Eb;
    destruct (bind_chat_run _ _ _ _ _ Eb) as (Hg & Hw & _ & Hok); [|by injection Hrun as <- _].
  intros Hi. destruct (Hg Hi) as [Hi1 Hsub]. specialize (Hok eq_refl).
  enough (router_grows s1 s') as Hg' by (destruct (Hg' Hi1); split; [done|by etrans]).
  unfold mbind at 1, stm_bind at 1, read in Hrun. destruct s1 as [c1 w1].
  unfold mbind at 1, stm_bind at 1, lift in Hrun.
  destruct (cm_portable c1 !! as_str id) as [g|] eqn:Eg; simpl in Hrun; [|by injection Hrun as <- _].
  destruct (ri_gates _ Hi1 _ _ Eg) as (id' & g0 & ->%as_str_inj & ->).
  unfold mbind, stm_bind in Hrun. destruct (world CcPortable _ _) as [s2 r2] eqn:Ew.
  apply world_run in Ew as (r0 & Ew & H1).
  assert (s' = s2) as -> by (by destruct r2; injection Hrun as <- _).
  eapply noted_grows; [done| |done]. exact (logged_commit_log _ _ _ _ _ _ Ew).
Qed.

Lemma local_quiet_grows {E A} (f : E → CoreCommitError) (op : LocalHistoryCommitPort LW → stm LW E A)
    (m : stm W E A) :
  op (logged_local local) = quiet m →
  grows_call ('(c, _) ← read; world f (op (cm_local c))).
Proof.
  intros Hop s s' r Hrun Hi. unfold mbind, stm_bind, read in Hrun. destruct s as [c w].
  pose proof (ri_local _ Hi) as Hl. simpl in Hl. rewrite Hl, Hop in Hrun.
  exact (grows_quiet f m _ _ _ Hrun Hi).
Qed.
Lemma pending_grows after limit : grows_call (pending_delivery_after after limit).
Proof. by apply (local_quiet_grows _ (λ p, lp_pending_outbox p after limit) (lp_pending_outbox local after limit)). Qed.
Lemma delivered_grows id cursor : grows_call (mark_delivered_v1 id cursor).
Proof.
  by apply (local_quiet_grows _ (λ p, lp_mark_outbox_delivered p id cursor)
              (lp_mark_outbox_delivered local id cursor)).
Qed.
Lemma register_grows id g0 : grows_call (register_portable_repository id (logged_gate id g0)).
Proof.
  intros [c w] s' r. unfold register_portable_repository, mbind, stm_bind, read, reject_if, modify. simpl.
  destruct (bt_contains _ _); simpl; intros [= <- _]; [reflexivity|].
  intros [Ha Hb Hc]. split; [split|done]; simpl; [done| |done].
  intros key g [[<- <-]|[_ Hg]]%lookup_insert_Some; [by eexists _, _|by eapply Hb].
Qed.

Lemma router_call_grows k : instrumented k → grows_call (run_committer k).
Proof.
  destruct k as [id g|text b|q|[batch|id q]|after limit|id cursor|text]; intros Hk; cbn [run_committer].
  - destruct Hk as [g0 ->]. apply register_grows.
  - apply bind_chat_grows.
  - apply grows_bind; [apply grows_bind; [apply grows_reject|]|]; intros; [apply commit_local_grows|apply grows_ret].
  - apply grows_bind; [|intros; apply grows_ret].
    apply grows_bind; [apply grows_reject|]. intros _.
    apply grows_bind; [apply commit_local_grows|intros; apply grows_ret].
  - apply grows_bind; [apply commit_portable_grows|intros; apply grows_ret].
  - apply grows_bind; [apply pending_grows|intros; apply grows_ret].
  - apply delivered_grows.
  - apply grows_bind; [apply grows_lift|]. intros i. apply grows_bind; [apply pending_grows|]. intros l.
    apply grows_bind; [apply grows_lift|]. intros c. apply delivered_grows.
Qed.

Lemma router_reachable_inv s : router_reachable s → router_inv s.
Proof.
  induction 1 as [w|k s s' r Hr IH Hk Hrun].
  - split; simpl; [done|by intros key g Hg; rewrite lookup_empty in Hg|]. unfold commit_log. set_solver.
  - by eapply router_call_grows.
Qed.

(** C20: A chat has one canonical history: in every run of the router,
    whatever its ports answer, all commits of a chat were sent to the same
    backend, the one the chat is bound to, and no later call changes a
    binding. *)
Theorem canonical_backend_unique s :
  router_reachable s →
  (∀ chat b, (chat, b) ∈ commit_log s → bindings_of s !! as_str chat = Some b)
  ∧ (∀ chat b b', (chat, b) ∈ commit_log s → (chat, b') ∈ commit_log s → b = b')
  ∧ ∀ k s' r, instrumented k → run_committer k s = (s', r) → bindings_of s ⊆ bindings_of s'.
Proof.
  intros Hr. pose proof (router_reachable_inv s Hr) as Hi. split_and!.
  - apply (ri_log _ Hi).
  - intros chat b b' H1%(ri_log _ Hi) H2%(ri_log _ Hi). congruence.
  - intros k s' r Hk Hrun. by apply (router_call_grows k Hk s s' r Hrun Hi).
Qed.
End runs.

(** ** Requests *)

Section requests.
Context {W : Type}.
Context `{Sha256, !Serialize json, !ToValue CommitBatchV1, !FromValue CommitBatchV1, !ToValue CheckpointV1}.
Context `{!ValueRoundTrip CommitBatchV1}.

(** The router after a first commit of [chat] through repository [id]. *)
Definition bound (c : CanonicalCommitter W) (chat : StableId) (b : HistoryBinding) : CanonicalCommitter W :=
  MkCommitter (cm_local c) (cm_portable c) (<[as_str chat := b]> (cm_bindings c)).

Lemma bind_chat_bound c w chat b :
  (∀ b', cm_bindings c !! as_str chat = Some b' → b' = b) →
  bind_chat (as_str chat) b (c, w) = ((bound c chat b, w), Ok ()).
Proof.
  intros Hb. unfold bind_chat. rewrite (proj2 (StableId_parse_ok _ chat) eq_refl).
  unfold mbind, stm_bind, lift, read. simpl.
  destruct (cm_bindings c !! as_str chat) as [b'|] eqn:Eb; [|done].
  rewrite (Hb b' eq_refl) in *. unfold reject_if, fail_if. rewrite bool_decide_true by done. simpl.
  unfold bound. rewrite insert_id by done. by destruct c.
Qed.

Lemma request_record batch op generation head q :
  portable_request batch op generation head = Ok q →
  is_portable (cb_backend batch) = true ∧ cb_events batch ≠ []
  ∧ to_value batch = Some (pr_record q)
  ∧ pr_chat_id q = cb_chat_id batch ∧ pr_branch_id q = cb_branch_id batch
  ∧ pr_operation_id q = op ∧ pr_expected_generation q = generation
  ∧ pr_expected_head_hash q = head ∧ pr_expected_next_ordinal q = cb_expected_head batch
  ∧ portable_value_hash "portable-record-v1" (pr_record q) = Ok (pr_record_hash q)
  ∧ portable_value_hash "portable-checkpoint-v1" (default JNull (pr_checkpoint q)) = Ok (pr_checkpoint_hash q).
Proof.
  unfold portable_request, portable_request_from_record. intros Hq. res_inv Hq. simpl.
  boolify. split_and!; try done. by intros Hnil; rewrite Hnil in *.
Qed.

(** A request the router builds passes the router: committed through its
    own repository, while the chat is unbound or bound to it, it reaches the
    gate as built and the answer is the gate's. *)
Theorem portable_request_accepted batch op generation head q id gate (c : CanonicalCommitter W) w :
  portable_request batch op generation head = Ok q →
  cb_backend batch = PortableProject id →
  cm_portable c !! as_str id = Some gate →
  (∀ b, cm_bindings c !! as_str (cb_chat_id batch) = Some b → b = HbPortableProject (as_str id)) →
  commit_v1 (CqPortable id q) (c, w) =
  let '(w', answer) := gate_commit gate q w in
  ((bound c (cb_chat_id batch) (HbPortableProject (as_str id)), w'),
   match answer with Ok receipt => Ok (CoPortable receipt) | Err e => Err (CcPortable e) end).
Proof.
  intros Hq Hid Hgate Hb.
  destruct (request_record _ _ _ _ _ Hq) as (_ & _ & Hrec & Hchat & Hbranch & _).
  cbn [commit_v1]. unfold portable_batch. rewrite (from_value_to_value _ _ Hrec).
  unfold mbind at 1, stm_bind at 1, lift at 1. unfold mbind at 1, stm_bind at 1, reject_if at 1.
  rewrite Hchat, Hbranch, Hid, !bool_decide_true by done. cbn [negb orb fail_if].
  unfold mbind at 1, stm_bind at 1. rewrite bind_chat_bound by done.
  unfold mbind, stm_bind, read, lift, world, call. simpl. rewrite Hgate. simpl.
  by destruct (gate_commit gate q w) as [w' [v|e]].
Qed.

(** A chat bound to one backend is never committed through another: the
    call is refused before any port is reached, and changes nothing. *)
Theorem foreign_backend_refused request chat b (c : CanonicalCommitter W) w s' r :
  match request with
  | CqLocal batch => cb_chat_id batch = chat ∧ b ≠ HbLocalSqlite
  | CqPortable id q => pr_chat_id q = chat ∧ b ≠ HbPortableProject (as_str id)
  end →
  cm_bindings c !! as_str chat = Some b →
  commit_v1 request (c, w) = (s', r) →
  s' = (c, w) ∧ is_err r.
Proof.
  assert (∀ b', b ≠ b' → cm_bindings c !! as_str chat = Some b →
    bind_chat (as_str chat) b' (c, w) = ((c, w), Err CcHistoryBindingConflict)) as Hbind.
  { intros b' Hne Hb. unfold bind_chat. rewrite (proj2 (StableId_parse_ok _ chat) eq_refl).
    unfold mbind, stm_bind, lift, read. simpl. rewrite Hb.
    unfold reject_if, fail_if. by rewrite bool_decide_false. }
  destruct request as [batch|id q]; intros [<- Hne] Hb; cbn [commit_v1].
  - unfold mbind at 1, stm_bind at 1, reject_if. destruct (fail_if _ _) as [[]|e]; [|by intros [= <- <-]].
    unfold mbind, stm_bind, commit_local, mbind, stm_bind. rewrite Hbind by done. by intros [= <- <-].
  - unfold mbind at 1, stm_bind at 1, lift. destruct (portable_batch _) as [record|e]; [|by intros [= <- <-]].
    unfold mbind at 1, stm_bind at 1, reject_if. destruct (fail_if _ _) as [[]|e]; [|by intros [= <- <-]].
    unfold mbind at 1, stm_bind at 1. rewrite Hbind by done. by intros [= <- <-].
Qed.
End requests.
