(* ===== verification/RepositoryWitness.v ===== *)
(** * The portable repository evaluated

    A printer and a parser of JSON values with which the codec can be
    evaluated: a brace followed by the binary digits of the value, in which an
    integral float is spelled as an integer, as RFC 8785 spells [1.0] as [1]
    (it is not RFC 8785; it only satisfies the interfaces of the codec,
    [PlainRecord] and [JsonRecord]); concrete serializers for the repository's records; and
    the theorems on the export policy, the codec, the repository, projection
    pages, child continuations and collection at concrete runs: a commit
    through the core's gate into real files, with calls of the operating
    system that fail, and two repositories on which collection or inspection
    does not do what it is meant to. *)
From S2P Require Export RepositoryProofs Journal Committer IntegrityProofs Manifest.
From Stdlib Require Import Floats.SpecFloat.

(** * A concrete canonical printer *)

(** ** Values as trees *)

Abbreviation float_parts := (bool + bool + () + bool * positive * Z)%type.
Definition float_split (f : spec_float) : float_parts :=
  match f with
  | S754_zero s => inl (inl (inl s))
  | S754_infinity s => inl (inl (inr s))
  | S754_nan => inl (inr ())
  | S754_finite s m e => inr (s, m, e)
  end.
Definition float_join (p : float_parts) : spec_float :=
  match p with
  | inl (inl (inl s)) => S754_zero s
  | inl (inl (inr s)) => S754_infinity s
  | inl (inr _) => S754_nan
  | inr (s, m, e) => S754_finite s m e
  end.
Abbreviation atom := (() + bool + (N + Z + float_parts) + string)%type.

Fixpoint tree_of (v : json) : gen_tree atom :=
  match v with
  | JNull => GenLeaf (inl (inl (inl ())))
  | JBool b => GenLeaf (inl (inl (inr b)))
  | JNumber (PosInt n) => GenLeaf (inl (inr (inl (inl n))))
  | JNumber (NegInt z) => GenLeaf (inl (inr (inl (inr z))))
  | JNumber (Float f) => GenLeaf (inl (inr (inr (float_split f))))
  | JString s => GenLeaf (inr s)
  | JArray items => GenNode 0%nat (map tree_of items)
  | JObject fields => GenNode 1%nat (map (λ kv, GenNode 2%nat [GenLeaf (inr kv.1); tree_of kv.2]) fields)
  end.
Definition leaf_value (a : atom) : json :=
  match a with
  | inl (inl (inl _)) => JNull
  | inl (inl (inr b)) => JBool b
  | inl (inr (inl (inl n))) => JNumber (PosInt n)
  | inl (inr (inl (inr z))) => JNumber (NegInt z)
  | inl (inr (inr p)) => JNumber (Float (float_join p))
  | inr s => JString s
  end.
Fixpoint of_tree (t : gen_tree atom) : json :=
  match t with
  | GenLeaf a => leaf_value a
  | GenNode O items => JArray (map of_tree items)
  | GenNode _ fields =>
      JObject (map (λ f, match f with GenNode _ [GenLeaf (inr k); t] => (k, of_tree t) | _ => ("", JNull) end) fields)
  end.
Lemma of_tree_of v : of_tree (tree_of v) = v.
Proof.
  induction v as [|b|[n|z|f]|s|items IH|fields IH] using json_induction; cbn; try done.
  - by destruct f.
  - f_equal. induction IH as [|v items Hv _ IH]; [done|]. cbn. by rewrite Hv, IH.
  - f_equal. induction IH as [|[k v] fields Hv _ IH]; [done|]. cbn in *. by rewrite Hv, IH.
Qed.

(** ** Trees as digits *)

Fixpoint digits (p : positive) : bytes :=
  match p with xH => [] | xO p => x30 :: digits p | xI p => x31 :: digits p end.
Fixpoint undigits (bs : bytes) : positive :=
  match bs with [] => xH | b :: bs => (if byte_eqb b x31 then xI else xO) (undigits bs) end.
Lemma undigits_digits p : undigits (digits p) = p.
Proof. induction p as [p IH|p IH|]; cbn; by rewrite ?IH. Qed.
Lemma digits_plain p b : b ∈ digits p → b = x30 ∨ b = x31.
Proof. induction p as [p IH|p IH|]; cbn; rewrite ?elem_of_cons; [naive_solver..|by intros ?%not_elem_of_nil]. Qed.

Definition json_print (v : json) : bytes := x7b :: digits (countable.encode (tree_of v)).
Definition json_parse (bs : bytes) : option json :=
  match bs with
  | b :: bs => if byte_eqb b x7b then of_tree <$> countable.decode (undigits bs) else None
  | [] => None
  end.
Lemma json_parse_print v : json_parse (json_print v) = Some v.
Proof.
  cbn. unfold byte_eqb. rewrite bool_decide_true by done.
  by rewrite undigits_digits, countable.decode_encode, fmap_Some_2 with (x := tree_of v), of_tree_of.
Qed.
Lemma json_print_line v b : b ∈ json_print v → b ≠ LF ∧ b ≠ CR.
Proof. intros [->|[-> | ->]%digits_plain]%elem_of_cons; done. Qed.

(** ** Numbers as ECMAScript spells them *)

(** The integer a float is, if it is one. *)
Definition float_integer (f : spec_float) : option Z :=
  match f with
  | S754_zero _ => Some 0%Z
  | S754_finite s m e =>
      let z := if s then Zneg m else Zpos m in
      if (0 <=? e)%Z then Some (z * 2 ^ e)%Z
      else if (z mod 2 ^ (- e) =? 0)%Z then Some (z / 2 ^ (- e))%Z else None
  | _ => None
  end.
Definition spell_number (n : number) : number :=
  match n with
  | Float f =>
      match float_integer f with
      | Some z => if (0 <=? z)%Z then PosInt (Z.to_N z) else NegInt z
      | None => n
      end
  | n => n
  end.
Fixpoint spell (v : json) : json :=
  match v with
  | JNumber n => JNumber (spell_number n)
  | JArray items => JArray (map spell items)
  | JObject fields => JObject (map (λ kv, (kv.1, spell kv.2)) fields)
  | v => v
  end.
Lemma spell_idem v : spell (spell v) = spell v.
Proof.
  induction v as [|b|n|s|items IH|fields IH] using json_induction; cbn; try done.
  - f_equal. destruct n as [n|z|f]; try done. cbn. destruct (float_integer f) as [z|] eqn:E; [by destruct (0 <=? z)%Z|].
    cbn. by rewrite E.
  - f_equal. induction IH as [|v items Hv _ IH]; [done|]. cbn. by rewrite Hv, IH.
  - f_equal. induction IH as [|[k v] fields Hv _ IH]; [done|]. cbn in *. by rewrite Hv, IH.
Qed.

Definition json_text (v : json) : bytes := json_print (spell v).
Definition demo_json_ser : Serialize json := {| to_vec v := Some (json_print v); jcs_to_vec v := Some (json_text v) |}.
Definition demo_json_de : Deserialize json := json_parse.

(** ** Codecs and spelling *)

(** The values of a codec contain no float; or their spelling is the value
    [nf] of the codec. *)
Definition plain {A} (c : codec A) : Prop := ∀ a, spell (enc c a) = enc c a.
Record spelled {A} (c : codec A) (nf : A → A) : Prop := {
  spelled_dec : ∀ a, dec c (spell (enc c a)) = Some (nf a);
  spelled_enc : ∀ a, spell (enc c (nf a)) = spell (enc c a)
}.
Create HintDb spelled.
Lemma plain_string : plain string_codec.
Proof. done. Qed.
Lemma plain_u64 : plain u64_codec.
Proof. done. Qed.
Lemma plain_id : plain id_codec.
Proof. done. Qed.
Lemma plain_option {A} (c : codec A) : plain c → plain (option_codec c).
Proof. intros Hc [a|]; [|done]. simpl. by rewrite Hc. Qed.
Lemma plain_list {A} (c : codec A) : plain c → plain (list_codec c).
Proof. intros Hc l. cbn. f_equal. induction l as [|a l IH]; [done|]. cbn. rewrite Hc. f_equal. exact IH. Qed.
Lemma plain_pair {A B} (c : codec A) (d : codec B) : plain c → plain d → plain (pair_codec c d).
Proof. intros Hc Hd [a b]. simpl. by rewrite Hc, Hd. Qed.
Lemma plain_iso {A B} f g H (c : codec B) : plain c → plain (@iso_codec A B f g H c).
Proof. intros Hc a. apply Hc. Qed.
Lemma spelled_plain {A} (c : codec A) : plain c → spelled c id.
Proof. intros Hc. split; intros a; [by rewrite Hc, dec_enc|done]. Qed.
Lemma spelled_value : spelled value_codec spell.
Proof. split; intros v; simpl; [done|apply spell_idem]. Qed.
Lemma spelled_option {A} (c : codec A) nf : spelled c nf → spelled (option_codec c) (option_map nf).
Proof. intros [Hd He]. split; intros [a|]; simpl; rewrite ?Hd, ?He; done. Qed.
Lemma spelled_pair {A B} (c : codec A) (d : codec B) nf nf' :
  spelled c nf → spelled d nf' → spelled (pair_codec c d) (λ p, (nf p.1, nf' p.2)).
Proof. intros [Hd He] [Hd' He']. split; intros [a b]; simpl; rewrite ?Hd, ?Hd', ?He, ?He'; done. Qed.
Lemma spelled_iso {A B} f g H (c : codec B) nf nf' :
  spelled c nf' → (∀ a, f (nf a) = nf' (f a)) → spelled (@iso_codec A B f g H c) nf.
Proof.
  intros [Hd He] Hf. split; intros a; simpl.
  - rewrite Hd. simpl. by rewrite <- Hf, H.
  - by rewrite Hf, He.
Qed.
#[export] Hint Resolve plain_string plain_u64 plain_id plain_option plain_list plain_pair plain_iso : spelled.
(** Products of plain components and values. *)
Ltac spell_codec :=
  eapply spelled_iso;
    [repeat first
       [apply spelled_value | apply spelled_plain; solve [eauto 20 with spelled] | eassumption
       | eapply spelled_pair | eapply spelled_option]
    |by intros []].

Lemma json_text_line v : LF ∉ json_text v ∧ CR ∉ json_text v ∧ head (json_text v) = Some x7b.
Proof. split_and!; [intros H%json_print_line; by destruct H..|done]. Qed.
Lemma json_parse_text v : json_parse (json_text v) = Some (spell v).
Proof. apply json_parse_print. Qed.
Lemma codec_plain {A} (c : codec A) :
  plain c → @PlainRecord demo_json_ser demo_json_de A (codec_to_value c) (codec_from_value c).
Proof.
  intros Hc x v bs [= <-] [= <-]. cbv [from_slice demo_json_de from_value codec_from_value jcs_to_vec demo_json_ser].
  destruct (json_text_line (enc c x)) as (? & ? & ?). split_and!; [done..|]. exists (enc c x).
  split_and!; [rewrite json_parse_text; by rewrite Hc|done|apply dec_enc].
Qed.
Lemma codec_json {A} (c : codec A) nf (same : A → A → Prop) :
  spelled c nf → (∀ x, same x (nf x)) →
  @JsonRecord demo_json_ser demo_json_de A (codec_to_value c) (codec_from_value c) same.
Proof.
  intros [Hd He] Hsame. split.
  - intros x v bs [= <-] [= <-]. apply json_text_line.
  - intros x v bs v' x' [= <-] [= <-].
    cbv [from_slice demo_json_de from_value codec_from_value to_value codec_to_value jcs_to_vec demo_json_ser].
    rewrite json_parse_text. intros [= <-] _. rewrite Hd. intros [= <-]. split; [done|].
    exists (enc c (nf x)). split; [done|]. unfold json_text. by rewrite He.
Qed.

(** * The repository *)

(** ** Codecs *)

#[local] Infix "⊗" := pair_codec (at level 40, left associativity).
Definition omission_codec : codec OmissionFact.
Proof.
  refine (iso_codec (λ o, (om_pointer o, om_reason o)) (λ '(p, r), MkOmission p r) _ (string_codec ⊗ string_codec)).
  by intros [].
Defined.
Definition descriptor_codec : codec ArtifactDescriptor.
Proof.
  refine (iso_codec (λ d, (ad_media_type d, ad_byte_length d, ad_digest d)) (λ '(m, l, d), MkArtifact m l d) _
    (string_codec ⊗ u64_codec ⊗ string_codec)). by intros [].
Defined.
Definition requirement_codec : codec PortableCapabilityRequirementV1.
Proof.
  refine (iso_codec (λ r, (cq_logical_id r, cq_version r, cq_configuration_hash r)) (λ '(l, v, c), MkRequirement l v c) _
    (string_codec ⊗ string_codec ⊗ string_codec)). by intros [].
Defined.
Definition git_codec : codec PortableGitFactsV1.
Proof.
  refine (iso_codec (λ g, (gf_head_commit g, gf_dirty_state_digest g, gf_worktree_identity g, gf_unavailable_reason g))
    (λ '(h, d, w, u), MkGitFacts h d w u) _
    (option_codec string_codec ⊗ option_codec string_codec ⊗ option_codec string_codec ⊗ option_codec string_codec)).
  by intros [].
Defined.
Definition snapshot_codec : codec PortableFrozenSnapshotV1.
Proof.
  refine (iso_codec (λ s, (ps_schema_version s, ps_snapshot_hash s, ps_workflow_hash s, ps_portable_snapshot s, ps_requirements s))
    (λ '(v, h, w, p, r), MkPortableFrozenSnapshot v h w p r) _
    (u64_codec ⊗ string_codec ⊗ string_codec ⊗ value_codec ⊗ list_codec requirement_codec)). by intros [].
Defined.
Definition provenance_codec : codec PortableProvenanceV1.
Proof.
  refine (iso_codec (λ p, (pn_git p, pn_workflow_revision_hash p, pn_configuration_revision_hashes p,
                           pn_redaction_profile_hash p, pn_artifact_refs p, pn_artifact_metadata p, pn_omissions p))
    (λ '(g, w, c, r, a, m, o), MkPortableProvenance g w c r a m o) _
    (git_codec ⊗ string_codec ⊗ list_codec string_codec ⊗ string_codec ⊗ list_codec string_codec
     ⊗ list_codec descriptor_codec ⊗ list_codec omission_codec)). by intros [].
Defined.
Definition context_codec : codec PortableCommitContextV1.
Proof.
  refine (iso_codec (λ c, (cc_frozen_snapshot c, cc_provenance c)) (λ '(s, p), MkCommitContext s p) _
    (option_codec snapshot_codec ⊗ provenance_codec)). by intros [].
Defined.
Definition pevent_codec : codec PortableEvent.
Proof.
  refine (iso_codec (λ e, (vt_event_id e, vt_chat_id e, vt_branch_id e, vt_ordinal e, vt_kind e, vt_payload e))
    (λ '(i, c, b, o, k, p), MkPortableEvent i c b o k p) _
    (string_codec ⊗ string_codec ⊗ string_codec ⊗ u64_codec ⊗ string_codec ⊗ value_codec)). by intros [].
Defined.
Definition pcheckpoint_codec : codec PortableCheckpoint.
Proof.
  refine (iso_codec (λ c, (pc_last_event_id c, pc_aggregate_version c, pc_reducer_version c, pc_snapshot_hash c, pc_state_hash c))
    (λ '(l, a, r, s, h), MkPortableCheckpoint l a r s h) _
    (option_codec string_codec ⊗ u64_codec ⊗ string_codec ⊗ option_codec string_codec ⊗ string_codec)). by intros [].
Defined.
Definition record_type_codec : codec SegmentRecordType.
Proof.
  refine (iso_codec (λ t, match t with SegmentHeader => "segment_header" | SegmentEvent => "event" | SegmentTrailer => "segment_trailer" end)
    (λ s, if bool_decide (s = "segment_header") then SegmentHeader
          else if bool_decide (s = "event") then SegmentEvent else SegmentTrailer) _ string_codec).
  by intros [].
Defined.
Definition header_codec : codec SegmentHeaderV1.
Proof.
  refine (iso_codec (λ h, (sh_record_type h, sh_schema_version h, sh_parent_segment_hash h, sh_base_checkpoint_hash h,
                           sh_first_ordinal h, sh_event_count h, sh_context h))
    (λ '(t, v, p, b, o, c, x), MkSegmentHeader t v p b o c x) _
    (record_type_codec ⊗ u64_codec ⊗ option_codec string_codec ⊗ option_codec string_codec ⊗ u64_codec ⊗ u64_codec
     ⊗ option_codec context_codec)). by intros [].
Defined.
Definition segment_event_codec : codec SegmentEventV1.
Proof.
  refine (iso_codec (λ e, (se_record_type e, se_event e)) (λ '(t, e), MkSegmentEvent t e) _ (record_type_codec ⊗ pevent_codec)).
  by intros [].
Defined.
Definition trailer_codec : codec SegmentTrailerV1.
Proof.
  refine (iso_codec (λ t, (st_record_type t, st_event_count t, st_last_ordinal t, st_body_hash t))
    (λ '(t, c, o, h), MkSegmentTrailer t c o h) _ (record_type_codec ⊗ u64_codec ⊗ u64_codec ⊗ string_codec)). by intros [].
Defined.
Definition prepared_codec : codec PreparedCommit.
Proof.
  refine (iso_codec (λ p, (pq_branch_id p, pq_commit_id p, pq_expected_generation p, pq_previous_head_hash p,
                           pq_segment_hash p, pq_checkpoint_hash p, pq_next_ordinal p, pq_request_hash p, pq_claim_hash p))
    (λ '(b, c, g, h, s, k, n, r, l), MkPreparedCommit b c g h s k n r l) _
    (string_codec ⊗ string_codec ⊗ u64_codec ⊗ option_codec string_codec ⊗ string_codec ⊗ option_codec string_codec
     ⊗ u64_codec ⊗ string_codec ⊗ string_codec)). by intros [].
Defined.
Definition ref_codec : codec BranchRef.
Proof.
  refine (iso_codec (λ r, (rf_branch_id r, rf_head_segment_hash r, rf_checkpoint_hash r, rf_next_ordinal r, rf_generation r,
                           rf_commit_id r, rf_commit_request_hash r))
    (λ '(b, h, k, n, g, c, r), MkBranchRef b h k n g c r) _
    (string_codec ⊗ option_codec string_codec ⊗ option_codec string_codec ⊗ u64_codec ⊗ u64_codec
     ⊗ option_codec string_codec ⊗ option_codec string_codec)). by intros [].
Defined.
Definition prepare_codec : codec PortablePrepareV1.
Proof.
  refine (iso_codec (λ q, (pr_operation_id q, pr_chat_id q, pr_branch_id q, pr_expected_generation q,
                           pr_expected_next_ordinal q, pr_expected_head_hash q, pr_record q, pr_record_hash q,
                           pr_checkpoint q, pr_checkpoint_hash q))
    (λ '(o, c, b, g, n, h, r, rh, k, kh), MkPrepare o c b g n h r rh k kh) _
    (id_codec ⊗ id_codec ⊗ id_codec ⊗ u64_codec ⊗ u64_codec ⊗ option_codec string_codec ⊗ value_codec ⊗ string_codec
     ⊗ option_codec value_codec ⊗ string_codec)). by intros [].
Defined.
Definition claim_codec : codec ProtocolPreparedClaimV1.
Proof.
  refine (iso_codec (λ c, (cl_request c, cl_prepared c)) (λ '(q, p), MkClaim q p) _ (prepare_codec ⊗ prepared_codec)).
  by intros [].
Defined.
Definition transition_codec : codec PortableTransitionRecordV1.
Proof.
  refine (iso_codec (λ t, (tn_batch t, tn_context t)) (λ '(b, c), MkTransitionRecord b c) _ (batch_codec ⊗ context_codec)).
  by intros [].
Defined.

(** ** Spelling *)

Lemma plain_omission : plain omission_codec.
Proof. unfold omission_codec. eauto 20 with spelled. Qed.
Lemma plain_descriptor : plain descriptor_codec.
Proof. unfold descriptor_codec. eauto 20 with spelled. Qed.
Lemma plain_requirement : plain requirement_codec.
Proof. unfold requirement_codec. eauto 20 with spelled. Qed.
Lemma plain_git : plain git_codec.
Proof. unfold git_codec. eauto 20 with spelled. Qed.
Lemma plain_record_type : plain record_type_codec.
Proof. unfold record_type_codec. eauto 20 with spelled. Qed.
#[export] Hint Resolve plain_omission plain_descriptor plain_requirement plain_git plain_record_type : spelled.
Lemma plain_provenance : plain provenance_codec.
Proof. unfold provenance_codec. eauto 20 with spelled. Qed.
Lemma plain_trailer : plain trailer_codec.
Proof. unfold trailer_codec. eauto 20 with spelled. Qed.
Lemma plain_prepared : plain prepared_codec.
Proof. unfold prepared_codec. eauto 20 with spelled. Qed.
Lemma plain_ref : plain ref_codec.
Proof. unfold ref_codec. eauto 20 with spelled. Qed.
#[export] Hint Resolve plain_provenance plain_prepared : spelled.

Definition spell_snapshot (p : PortableFrozenSnapshotV1) : PortableFrozenSnapshotV1 :=
  MkPortableFrozenSnapshot (ps_schema_version p) (ps_snapshot_hash p) (ps_workflow_hash p)
    (spell (ps_portable_snapshot p)) (ps_requirements p).
Definition spell_context (c : PortableCommitContextV1) : PortableCommitContextV1 :=
  MkCommitContext (option_map spell_snapshot (cc_frozen_snapshot c)) (cc_provenance c).
Definition spell_header (h : SegmentHeaderV1) : SegmentHeaderV1 :=
  MkSegmentHeader (sh_record_type h) (sh_schema_version h) (sh_parent_segment_hash h) (sh_base_checkpoint_hash h)
    (sh_first_ordinal h) (sh_event_count h) (option_map spell_context (sh_context h)).
Definition spell_event (e : PortableEvent) : PortableEvent :=
  MkPortableEvent (vt_event_id e) (vt_chat_id e) (vt_branch_id e) (vt_ordinal e) (vt_kind e) (spell (vt_payload e)).
Definition spell_segment_event (e : SegmentEventV1) : SegmentEventV1 :=
  MkSegmentEvent (se_record_type e) (spell_event (se_event e)).
Definition spell_prepare (q : PortablePrepareV1) : PortablePrepareV1 :=
  MkPrepare (pr_operation_id q) (pr_chat_id q) (pr_branch_id q) (pr_expected_generation q)
    (pr_expected_next_ordinal q) (pr_expected_head_hash q) (spell (pr_record q)) (pr_record_hash q)
    (option_map spell (pr_checkpoint q)) (pr_checkpoint_hash q).
Definition spell_claim (c : ProtocolPreparedClaimV1) : ProtocolPreparedClaimV1 :=
  MkClaim (spell_prepare (cl_request c)) (cl_prepared c).

Lemma spelled_snapshot : spelled snapshot_codec spell_snapshot.
Proof. spell_codec. Qed.
Lemma spelled_context : spelled context_codec spell_context.
Proof. pose proof spelled_snapshot. spell_codec. Qed.
Lemma spelled_header : spelled header_codec spell_header.
Proof. pose proof spelled_context. spell_codec. Qed.
Lemma spelled_event : spelled pevent_codec spell_event.
Proof. spell_codec. Qed.
Lemma spelled_segment_event : spelled segment_event_codec spell_segment_event.
Proof. pose proof spelled_event. spell_codec. Qed.
Lemma spelled_prepare : spelled prepare_codec spell_prepare.
Proof. spell_codec. Qed.
Lemma spelled_claim : spelled claim_codec spell_claim.
Proof. pose proof spelled_prepare. spell_codec. Qed.

(** ** Instances *)

Module DemoStore.
(** A digest that is quick to evaluate. *)
#[export] Instance sha : Sha256 := λ m,
  hex_digits 64 (foldl (λ acc b, acc + Byte.to_N b) 1 m).
#[export] Instance sha_laws : Sha256Laws.
Proof. split; intros m; [apply hex_digits_len|apply hex_digits_lower]. Qed.
#[export] Instance json_ser : Serialize json := demo_json_ser.
#[export] Instance json_de : Deserialize json := demo_json_de.
#[export] Instance context_to : ToValue PortableCommitContextV1 := codec_to_value context_codec.
#[export] Instance pevent_to : ToValue PortableEvent := codec_to_value pevent_codec.
#[export] Instance pcheckpoint_to : ToValue PortableCheckpoint := codec_to_value pcheckpoint_codec.
#[export] Instance pcheckpoint_from : FromValue PortableCheckpoint := codec_from_value pcheckpoint_codec.
#[export] Instance header_to : ToValue SegmentHeaderV1 := codec_to_value header_codec.
#[export] Instance header_from : FromValue SegmentHeaderV1 := codec_from_value header_codec.
Lemma spell_same v : json_same v (spell v).
Proof. unfold json_same, jcs_to_vec, json_ser, demo_json_ser, json_text. by rewrite spell_idem. Qed.
Lemma spell_context_same c : context_same c (spell_context c).
Proof.
  split; [|done]. destruct (cc_frozen_snapshot c) as [p|] eqn:E; simpl; rewrite E; simpl; constructor.
  split; [apply spell_same|done].
Qed.
#[export] Instance header_json : JsonRecord SegmentHeaderV1 header_same.
Proof.
  apply (codec_json _ _ _ spelled_header). intros h. split; [|done].
  destruct (sh_context h) as [c|] eqn:E; simpl; rewrite E; simpl; constructor. apply spell_context_same.
Qed.
#[export] Instance header_round_trip : ValueRoundTrip SegmentHeaderV1 := codec_round_trip header_codec.
#[export] Instance segment_event_to : ToValue SegmentEventV1 := codec_to_value segment_event_codec.
#[export] Instance segment_event_from : FromValue SegmentEventV1 := codec_from_value segment_event_codec.
#[export] Instance segment_event_json : JsonRecord SegmentEventV1 segment_event_same.
Proof. apply (codec_json _ _ _ spelled_segment_event). intros e. split; [|done]. split; [apply spell_same|done]. Qed.
#[export] Instance segment_event_round_trip : ValueRoundTrip SegmentEventV1 := codec_round_trip segment_event_codec.
#[export] Instance trailer_to : ToValue SegmentTrailerV1 := codec_to_value trailer_codec.
#[export] Instance trailer_from : FromValue SegmentTrailerV1 := codec_from_value trailer_codec.
#[export] Instance trailer_plain : PlainRecord SegmentTrailerV1 := codec_plain trailer_codec plain_trailer.
#[export] Instance prepared_to : ToValue PreparedCommit := codec_to_value prepared_codec.
#[export] Instance prepared_from : FromValue PreparedCommit := codec_from_value prepared_codec.
#[export] Instance claim_to : ToValue ProtocolPreparedClaimV1 := codec_to_value claim_codec.
#[export] Instance claim_from : FromValue ProtocolPreparedClaimV1 := codec_from_value claim_codec.
#[export] Instance claim_json : JsonRecord ProtocolPreparedClaimV1 claim_same.
Proof.
  apply (codec_json _ _ _ spelled_claim). intros c. unfold claim_same; simpl. split_and!; [done|apply spell_same| |done].
  destruct (pr_checkpoint (cl_request c)); simpl; [apply spell_same|done].
Qed.
#[export] Instance transition_from : FromValue PortableTransitionRecordV1 := codec_from_value transition_codec.
#[export] Instance batch_to : ToValue CommitBatchV1 := codec_to_value batch_codec.
#[export] Instance batch_from : FromValue CommitBatchV1 := codec_from_value batch_codec.
#[export] Instance checkpoint_to : ToValue CheckpointV1 := codec_to_value checkpoint_codec.
(** A reference too large to be read back is not serialized. *)
#[export] Instance ref_to : ToValue BranchRef := λ b,
  if len (json_text (enc ref_codec b)) <=? 65536 then Some (enc ref_codec b) else None.
#[export] Instance ref_from : FromValue BranchRef := codec_from_value ref_codec.
#[export] Instance ref_plain : PlainRecord BranchRef.
Proof.
  intros x v bs Hv. unfold to_value, ref_to in Hv. destruct (_ <=? 65536); [|done]. injection Hv as <-.
  by apply (codec_plain ref_codec plain_ref).
Qed.
#[export] Instance ref_bounded : BoundedRefs.
Proof.
  intros b v bs _ Hv Hbs. unfold to_value, ref_to in Hv. destruct (_ <=? 65536) eqn:E; [|done].
  injection Hv as <-. injection Hbs as <-. by apply N.leb_le.
Qed.
End DemoStore.

(** A run from its answer. *)
Lemma run_pair {A B} (r : A * B) b : r.2 = b → r = (r.1, b).
Proof. by destruct r as [x y]; simpl; intros ->. Qed.

(** ** The export policy and the codec *)

Section witnesses.
Import DemoStore.

Definition captured : json :=
  JObject [("text", JString "hello"); ("rawProtocol", JString "sk-0123456789abcdef"); ("items", JArray [JNull])].
Lemma scrub_exact_witness :
  scrub captured = Ok (MkScrubbed (JObject [("text", JString "hello"); ("items", JArray [JNull])])
                         [MkOmission "/rawProtocol" "local_detailed_capture"])
  ∧ clean (prune captured) = true.
Proof.
  assert (scrub captured = Ok (MkScrubbed (JObject [("text", JString "hello"); ("items", JArray [JNull])])
                         [MkOmission "/rawProtocol" "local_detailed_capture"])) as Hs by (vm_compute; reflexivity).
  split; [exact Hs|]. destruct (scrub_exact captured) as [_ H].
  destruct (H _ Hs) as (Hv & Hc & _). rewrite <- Hv. exact Hc.
Defined.

Definition demo_event (id : string) (ordinal : N) : PortableEvent :=
  MkPortableEvent id "chat-1" "main" ordinal "note" (JString "hello").
Definition demo_segment : PortableSegment := MkSegment None None 4 None [demo_event "e-1" 4; demo_event "e-2" 5].
Definition segment_bytes : bytes := match encode_segment demo_segment with Ok bs => bs | Err _ => [] end.
(** An event whose payload is [1.0], and the event it is read back as. *)
Definition float_event : PortableEvent :=
  MkPortableEvent "e-3" "chat-1" "main" 6 "note" (JNumber (Float (S754_finite false 1 0))).
Definition float_segment : PortableSegment := MkSegment None None 6 None [float_event].
Definition float_bytes : bytes := match encode_segment float_segment with Ok bs => bs | Err _ => [] end.
Definition integer_segment : PortableSegment := MkSegment None None 6 None [spell_event float_event].
Lemma demo_segment_survives : segment_survives demo_segment.
Proof. repeat split; repeat constructor; intros v [= <-] bs [= <-]; apply json_parse_print. Qed.
(** The first segment decodes to itself; the second to one with payload [1],
    which encodes to the same bytes. *)
Lemma segment_roundtrip_witness :
  decode_segment segment_bytes = Ok demo_segment
  ∧ decode_segment float_bytes = Ok integer_segment
  ∧ segment_same float_segment integer_segment ∧ encode_segment integer_segment = Ok float_bytes.
Proof.
  assert (encode_segment demo_segment = Ok segment_bytes) as He by (vm_compute; reflexivity).
  assert (encode_segment float_segment = Ok float_bytes) as Hf by (vm_compute; reflexivity).
  assert (decode_segment float_bytes = Ok integer_segment) as Hd by (vm_compute; reflexivity).
  split; [exact (proj2 (segment_roundtrip demo_segment segment_bytes He) demo_segment_survives)|].
  split; [exact Hd|]. exact (proj1 (segment_roundtrip float_segment float_bytes Hf) integer_segment Hd).
Defined.

(** ** The repository *)

Definition capable : FilesystemCapabilityReportV1 := MkCapabilities true true true true true true.
(** An empty project root, the fates of its calls and an injected fault. *)
Definition new_store (calls : list (option (nat * os_failure))) (fault : option CommitFaultPoint) : PortableStore :=
  MkStore ∅ calls capable 7 0 0 fault.
Lemma new_store_ok calls fault : files_ok (fs_files (new_store calls fault)).
Proof.
  split; unfold claim_view, ref_view; simpl.
  - intros op claim. by rewrite lookup_empty.
  - intros b branch c. rewrite lookup_empty. by intros [= <-].
Qed.

Definition demo_batch_at (head : N) (event : StableId) : CommitBatchV1 :=
  MkBatch (PortableProject (sid "project-1" I)) (sid "chat-1" I) (sid "run-1" I) (sid "main" I) head head
    [MkEventV1 event 1 "note" (JString "hello")] [] None None [] [].
Definition placeholder : PortablePrepareV1 :=
  MkPrepare (sid "op-0" I) (sid "chat-1" I) (sid "main" I) 0 0 None JNull "" None "".
Definition demo_request : PortablePrepareV1 :=
  match portable_request (demo_batch_at 0 (sid "event-1" I)) (sid "op-1" I) 0 None with
  | Ok q => q | Err _ => placeholder end.
Definition demo_prepared (s : PortableStore) : PortablePreparedV1 :=
  match prepare_port demo_request s with
  | (_, Ok d) => d
  | _ => MkPrepared (sid "op-0" I) (sid "op-0" I) "" 0
  end.

Definition prepared_store : PortableStore := (prepare_port demo_request (new_store [] None)).1.
(** The reference is renamed into place, then flushing its directory fails. *)
Definition failing_store : PortableStore :=
  set_calls (repeat None 50 ++ [Some (0%nat, OsIo "input/output error")]) prepared_store.
Definition published : PortableStore * result CommitError PortableCommitReceiptV1 :=
  publish_port (demo_prepared (new_store [] None)) failing_store.
Definition main : StableId := sid "main" I.

Lemma set_calls_files calls s : fs_files (set_calls calls s) = fs_files s.
Proof. done. Qed.
Lemma failing_store_ok : files_ok (fs_files failing_store).
Proof.
  unfold failing_store. rewrite set_calls_files.
  pose proof (prepare_port_run _ _ _ _ (new_store_ok [] None)
    (surjective_pairing (prepare_port demo_request (new_store [] None)))) as [Hok _]. exact Hok.
Qed.

(** The operation fails, and the head has moved to its receipt. *)
Lemma repository_refines_witness :
  is_ok published.2 = false ∧ head_view (fs_files failing_store) main = None
  ∧ head_advances (sid "op-1" I) None (head_view (fs_files published.1) main).
Proof.
  assert (head_view (fs_files failing_store) main = None) as H0 by (vm_compute; reflexivity).
  split; [vm_compute; reflexivity|]. split; [exact H0|].
  destruct (repository_refines failing_store published.1 failing_store_ok) as (_ & Hpub & _).
  destruct (Hpub _ _ (surjective_pairing (publish_port (demo_prepared (new_store [] None)) failing_store))) as [_ Hh]. destruct (Hh main) as [Hsame|Hadv].
  - rewrite H0 in Hsame. exfalso. assert (is_some (head_view (fs_files published.1) main) = true) as Hs
      by (vm_compute; reflexivity). rewrite Hsame in Hs. discriminate Hs.
  - rewrite H0 in Hadv. exact Hadv.
Defined.

(** *** A publication that may have happened is reported as one that did not

    [PublicationUncertain], the only error whose [uncertain_publication] flag
    is set, is raised by the injected fault alone.  When the branch reference
    has been renamed into place and flushing the directory fails, the caller
    is told that the publication failed for certain and cannot be retried. *)
Definition io_text (k : io_error) : string :=
  match k with
  | IoNotFound => "No such file or directory (os error 2)"
  | IoAlreadyExists => "File exists (os error 17)"
  | IoOther text => text
  end.
Lemma moved_head_reported_certain :
  match published with
  | (s, Err e) =>
      repository_error io_text "" e = MkPortablePortError "portable_commit_failed" "input/output error" false false
      ∧ is_some (head_view (fs_files s) main) = true
  | _ => False
  end.
Proof. vm_compute. split; reflexivity. Qed.
End witnesses.

(** * Pages, manifests, inspection and collection *)

Definition repository_manifest_codec : codec RepositoryManifest.
Proof.
  refine (iso_codec (λ m, (rm_family m, rm_major m, rm_minor m, rm_required_features m))
    (λ '(f, a, i, r), MkRepositoryManifest f a i r) _ (string_codec ⊗ u64_codec ⊗ u64_codec ⊗ list_codec string_codec)).
  by intros [].
Defined.
Definition session_manifest_codec : codec SessionManifest.
Proof.
  refine (iso_codec (λ m, (sm_session_id m, sm_chat_id m, sm_run_id m, sm_frozen_snapshot_hash m,
                           sm_canonical_branch_id m, sm_export_policy_hash m))
    (λ '(s, c, r, f, b, e), MkSessionManifest s c r f b e) _
    (string_codec ⊗ string_codec ⊗ string_codec ⊗ string_codec ⊗ string_codec ⊗ string_codec)). by intros [].
Defined.
Definition branch_manifest_codec : codec BranchManifest.
Proof.
  refine (iso_codec (λ m, (bm_branch_id m, bm_session_id m, bm_parent_branch_id m, bm_parent_checkpoint_hash m,
                           bm_parent_head_hash m))
    (λ '(b, s, p, c, h), MkBranchManifest b s p c h) _
    (string_codec ⊗ string_codec ⊗ option_codec string_codec ⊗ option_codec string_codec ⊗ option_codec string_codec)).
  by intros [].
Defined.
Definition envelope_codec : codec ManifestEnvelopeV1.
Proof.
  refine (iso_codec
    (λ m, match m with
          | EnvRepository r => (Some r, None, None)
          | EnvSession s => (None, Some s, None)
          | EnvBranch b => (None, None, Some b)
          end)
    (λ '(r, s, b), match r, s, b with
                   | Some r, _, _ => EnvRepository r
                   | _, Some s, _ => EnvSession s
                   | _, _, Some b => EnvBranch b
                   | _, _, _ => EnvRepository (MkRepositoryManifest "" 0 0 [])
                   end) _
    (option_codec repository_manifest_codec ⊗ option_codec session_manifest_codec ⊗ option_codec branch_manifest_codec)).
  by intros [].
Defined.

Section witnesses.
Import DemoStore.
#[local] Instance envelope_to : ToValue ManifestEnvelopeV1 := codec_to_value envelope_codec.
#[local] Instance envelope_from : FromValue ManifestEnvelopeV1 := codec_from_value envelope_codec.
#[local] Instance envelope_plain : PlainRecord ManifestEnvelopeV1.
Proof.
  apply codec_plain. unfold envelope_codec, repository_manifest_codec, session_manifest_codec, branch_manifest_codec.
  apply plain_iso. repeat apply plain_pair; apply plain_option, plain_iso; eauto 20 with spelled.
Qed.

(** ** Pages *)

Definition segment_store : PortableStore := (store_publish "segments" segment_bytes (new_store [] None)).1.
Definition segment_id : string := digest "segments" segment_bytes.
Definition page_at (start : N) : PortableStore * result PortableError PortablePage :=
  read_page io_text segment_id start 1 segment_store.
Definition page_of (r : result PortableError PortablePage) : PortablePage :=
  match r with Ok p => p | Err _ => MkPage [] [] None "" "" end.
(** The segment of two events read from its second ordinal on, and from its
    first in two pages. *)
Lemma pages_cover_witness :
  concat (map pg_events [page_of (page_at 4).2; page_of (page_at 5).2]) = [demo_event "e-1" 4; demo_event "e-2" 5].
Proof.
  assert (page_at 4 = ((page_at 4).1, Ok (page_of (page_at 4).2))) as Hfirst
    by (apply run_pair; vm_compute; reflexivity).
  destruct (pages_cover io_text segment_id 1 segment_store 4 [page_of (page_at 4).2; page_of (page_at 5).2])
    as (segment & Hv & Hall & _).
  - eapply (pages_more _ _ _ _ (page_at 4).1 segment_store _ _ 5).
    + exact Hfirst.
    + vm_compute. reflexivity.
    + rewrite (proj1 (read_page_run _ _ _ _ _ _ _ Hfirst)). reflexivity.
    + eapply (pages_last _ _ _ _ (page_at 5).1).
      * apply (run_pair (page_at 5)). vm_compute. reflexivity.
      * vm_compute. reflexivity.
  - assert (segment_view (fs_files segment_store) segment_id = Some demo_segment) as Hd by (vm_compute; reflexivity).
    rewrite Hall. rewrite Hv in Hd. injection Hd as ->. vm_compute. reflexivity.
Defined.

(** ** A child continuation *)

Definition some_hash : string := digest "demo" [].
Definition tool : CapabilityRequirement := MkCapabilityRequirement "tool" "1".
Definition local_tools : list LocalCapabilityV1 :=
  [MkLocalCapability "tool" "1" "binding-a" some_hash true; MkLocalCapability "tool" "1" "binding-b" some_hash false].
Definition child_request : ChildContinuationManifestRequestV1 :=
  MkChildRequest (plan_child_continuation "chat-1" "main" "chat-2" "child" [tool] local_tools)
    "session-2" "run-2" some_hash None segment_id true.
Definition child_receipt : ChildContinuationManifestReceiptV1 :=
  match (publish_child_continuation child_request segment_store).2 with
  | Ok r => r
  | Err _ => MkChildReceipt "" "" (child_session child_request) (child_branch child_request)
  end.
Definition child_store : PortableStore := (publish_child_continuation child_request segment_store).1.
Lemma child_continuation_witness :
  one_provider local_tools tool
  ∧ reads_back (EnvBranch (MkBranchManifest "child" "session-2" (Some "main") None (Some segment_id)))
      (catalog_read (cx_branch_manifest_hash child_receipt) child_store).2.
Proof.
  destruct (child_continuation "chat-1" "main" "chat-2" "child" [tool] local_tools child_request segment_store
    child_store child_receipt child_store
    (catalog_read (cx_session_manifest_hash child_receipt) child_store).1
    (catalog_read (cx_session_manifest_hash child_receipt) child_store).2
    (catalog_read (cx_branch_manifest_hash child_receipt) child_store).1
    (catalog_read (cx_branch_manifest_hash child_receipt) child_store).2) as (_ & Hp & _ & _ & _ & Hb).
  - reflexivity.
  - apply (run_pair (publish_child_continuation child_request segment_store) (Ok child_receipt)).
    vm_compute. reflexivity.
  - reflexivity.
  - apply surjective_pairing.
  - apply surjective_pairing.
  - split; [|exact Hb]. by apply Forall_inv in Hp.
Defined.

(** ** Collection *)

(** A branch with one commit, beside it a segment no branch points to. *)
Definition committed_main : PortableStore := (publish_port (demo_prepared (new_store [] None)) prepared_store).1.
Definition with_orphan : PortableStore := (store_publish "segments" segment_bytes committed_main).1.
Definition main_branch : BranchRef :=
  match ref_view (fs_files with_orphan) "main" with Some b => b | None => empty_branch "main" end.
Definition main_head : string := default "" (rf_head_segment_hash main_branch).
Definition report_of (s : PortableStore) : IntegrityReportV1 :=
  match (inspect io_text "" s).2 with Ok r => r | Err _ => empty_report end.
(** Two scans made from the report of an inspection. *)
Definition scan_of (generation millis : N) (r : IntegrityReportV1) : ReachabilityScanV1 :=
  MkScan generation millis (ir_branch_heads r) (report_reachable "segments" r).
Definition collected (s : PortableStore) : PortableStore * result IntegrityError (list string) :=
  collect_verified_orphans io_text "" "segments" (scan_of 1 10 (report_of s)) (scan_of 2 20 (report_of s))
    {[segment_id := 0; main_head := 0]} 5 s.

Lemma collection_safe_witness :
  (collected with_orphan).2 = Ok [segment_id]
  ∧ is_some (object_view (fs_files (collected with_orphan).1) "segments" main_head) = true
  ∧ object_view (fs_files (collected with_orphan).1) "segments" segment_id = None.
Proof.
  assert ((collected with_orphan).2 = Ok [segment_id]) as Hc by (vm_compute; reflexivity).
  set (locked := (take_heads_lock with_orphan).1).
  destruct (collection_safe io_text "" "segments" (scan_of 1 10 (report_of with_orphan))
    (scan_of 2 20 (report_of with_orphan)) {[segment_id := 0; main_head := 0]} 5 with_orphan locked ()
    (inspect io_text "" locked).1 (report_of locked) (collected with_orphan).1 (collected with_orphan).2)
    as (Hlive & _ & Hgone).
  - apply (run_pair (take_heads_lock with_orphan)). vm_compute. reflexivity.
  - apply (run_pair (inspect io_text "" locked)). vm_compute. reflexivity.
  - apply surjective_pairing.
  - split; [exact Hc|]. split; [|exact (Hgone _ segment_id Hc (list_elem_of_here _ _))].
    assert (is_some (object_view (fs_files with_orphan) "segments" main_head) = true) as Hs by (vm_compute; reflexivity).
    destruct (object_view (fs_files with_orphan) "segments" main_head) as [bs|] eqn:Ev; [|discriminate Hs].
    rewrite (Hlive ltac:(vm_compute; reflexivity) main_head bs); [reflexivity| |exact Ev].
    apply (live_segment _ main_branch main_head); [|apply rtc_refl].
    split; [vm_compute; reflexivity|]. split; vm_compute; reflexivity.
Defined.

(** *** An object kept and an object collected

    An artifact published before a commit is read after it; no branch refers
    to it, and once it is collected it is gone. *)
Definition note : bytes := as_bytes "a note".
Definition with_note : PortableStore := (store_publish "artifacts" note (new_store [] None)).1.
Definition note_digest : string := digest "artifacts" note.
Definition note_scan (generation millis : N) (s : PortableStore) : ReachabilityScanV1 :=
  MkScan generation millis (ir_branch_heads (report_of s)) (report_reachable "artifacts" (report_of s)).
Definition prepare_op : store_op := OpPrepare demo_request.
Definition committed_store : PortableStore := run_store_op io_text "" prepare_op with_note.
Definition collect_op : store_op :=
  OpCollect "artifacts" (note_scan 1 10 committed_store) (note_scan 2 20 committed_store) {[note_digest := 0]} 5.
Definition cleaned_store : PortableStore := run_store_op io_text "" collect_op committed_store.
Lemma objects_immutable_witness :
  (store_read "artifacts" note_digest committed_store).2 = Ok note
  ∧ (store_read "artifacts" note_digest cleaned_store).2 = Err (PoWorkspace (WsIo IoNotFound))
  ∧ ∃ a b, rtc (store_step io_text "") with_note a ∧ object_view (fs_files a) "artifacts" note_digest = Some note
           ∧ deletes io_text "" "artifacts" note_digest a b
           ∧ object_view (fs_files b) "artifacts" note_digest = None.
Proof.
  assert ((store_read "artifacts" note_digest cleaned_store).2 = Err (PoWorkspace (WsIo IoNotFound))) as Hgone
    by (vm_compute; reflexivity).
  split; [vm_compute; reflexivity|]. split; [exact Hgone|].
  destruct (objects_immutable io_text "" "artifacts" note (new_store [] None) with_note note_digest cleaned_store
    (store_read "artifacts" note_digest cleaned_store).1 (Err (PoWorkspace (WsIo IoNotFound))))
    as [[Hok|[g Hg]]|[(a & b & Ha & Hv & Hd & Hn & _) _]].
  - vm_compute. reflexivity.
  - apply rtc_l with committed_store; [by exists prepare_op|]. apply rtc_once. by exists collect_op.
  - exact (run_pair (store_read "artifacts" note_digest cleaned_store) _ Hgone).
  - discriminate Hok.
  - exfalso. destruct g; discriminate Hg.
  - exact (ex_intro _ a (ex_intro _ b (conj Ha (conj Hv (conj Hd Hn))))).
Defined.

(** *** A damaged reference makes its history collectable

    Collection compares heads and reachable sets but does not look at the
    issues of the inspection.  When the reference of a branch is damaged, both
    scans and the inspection under the lock agree that nothing of its history
    is reachable, and the intact segments, which a repair would need, are
    deleted. *)
Definition damaged : PortableStore := set_files (<[ref_path "main" := []]> (fs_files with_orphan)) with_orphan.
Lemma damaged_history_collected :
  is_some (object_view (fs_files damaged) "segments" main_head) = true
  ∧ ir_continuation_blocked (report_of damaged) = true
  ∧ is_ok (collected damaged).2 = true
  ∧ object_view (fs_files (collected damaged).1) "segments" main_head = None.
Proof. vm_compute. repeat split. Qed.

(** *** A temporary file blocks collection

    A write that fails and whose temporary file cannot be removed leaves a
    file whose name is no digest; from then on the objects of the namespace
    cannot be listed and nothing in it is ever collected. *)
Definition leftover : PortableStore :=
  (store_publish "segments" (LF :: segment_bytes)
     (set_calls (repeat None 19 ++ [Some (0%nat, OsIo "no space left"); Some (0%nat, OsIo "no space left")]) with_orphan)).1.
Lemma leftover_blocks_collection : (collected leftover).2 = Err (IgPortable PoInvalidHash).
Proof. vm_compute. reflexivity. Qed.

(** *** A clean report for a branch that cannot be continued

    Inspection and lineage validation compare the ordinals of a segment with
    those of its child only.  A branch whose first segment does not start at
    ordinal 0 has no issue and is not blocked, and every commit to it is
    refused. *)
Definition late_start : PortableStore :=
  (write_ref (MkBranchRef "main" (Some segment_id) None 6 1 (Some "op-1") (Some some_hash)) segment_store).1.
Definition next_commit : PortableCommit :=
  MkPortableCommit "main" 1 "op-2" None [demo_event "e-3" 6] None.
Lemma clean_branch_refuses_commits :
  ir_issues (report_of late_start) = [] ∧ ir_continuation_blocked (report_of late_start) = false
  ∧ (validate_lineage (E:=PortableError) io_text segment_id late_start).2 = Ok (MkImportReport true [])
  ∧ (repo_prepare_commit next_commit late_start).2 = Err CmVerificationFailed.
Proof. vm_compute. repeat split. Qed.
End witnesses.
