(* ===== verification/PortableWitness.v ===== *)
(** * Portable commits evaluated

    The modelled repository and journal side by side, the stores of a core,
    and the theorems of [PortableTheorems] and [CommitterProofs] at concrete
    runs of them. *)
From S2P Require Export RepositoryWitness.

Module DemoPortable.
Export DemoStore.
Abbreviation stores := (PortableStore * PortableRuntimeJournal)%type.
#[export] Instance receipt_to_value : ToValue PortableCommitReceiptV1 := codec_to_value receipt_codec.
#[export] Instance receipt_from_value : FromValue PortableCommitReceiptV1 := codec_from_value receipt_codec.
#[export] Instance receipt_round_trip : ValueRoundTrip PortableCommitReceiptV1 := codec_round_trip receipt_codec.
Definition repository : PortableCanonicalCommitPort stores := repository_port io_text "invalid JSON" first.
Definition journal : PortableRuntimeJournalPort stores := journal_port "encoding failed" (λ _, "invalid receipt") second.
#[export] Instance demo_repository_laws : RepositoryLaws repository := repository_laws io_text "invalid JSON" first.
#[export] Instance demo_journal_laws : JournalLaws journal :=
  journal_laws "encoding failed" (λ _, "invalid receipt") second.

Lemma first_call {E F A} (f : E → F) (m : stm PortableStore E A) (s s' : stores) r :
  call first f m s = (s', r) → s'.2 = s.2.
Proof. destruct s. unfold call. simpl. by destruct (m _) as [? [?|?]]; intros [= <- _]. Qed.
Lemma second_call {E F A} (f : E → F) (m : stm PortableRuntimeJournal E A) (s s' : stores) r :
  call second f m s = (s', r) → s'.1 = s.1.
Proof. destruct s. unfold call. simpl. by destruct (m _) as [? [?|?]]; intros [= <- _]. Qed.
#[export] Instance demo_separate : SeparateStores repository journal.
Proof.
  split; intros *; cbn; intros H; by rewrite ?(first_call _ _ _ _ _ H), ?(second_call _ _ _ _ _ H).
Qed.

Definition machine : StableId := sid "machine-1" I.
Definition gate (generation : N) : PortableCommitGate stores := MkGate repository journal machine generation.
(** An empty project root, with a fault of its next commit, and an empty
    journal, with the fates of its accesses. *)
Definition empty_stores (fault : option CommitFaultPoint) (faults : list (option string)) : stores :=
  (new_store [] fault, MkJournal ∅ faults).
Lemma empty_stores_wf fault faults : repo_wf (p:=repository) (empty_stores fault faults).
Proof. apply new_store_ok. Qed.
Lemma empty_stores_journal fault faults op : journal_facts (j:=journal) (empty_stores fault faults) op = None.
Proof.
  unfold journal_facts. simpl. unfold journal_view, facts_of, read_begin. simpl. by rewrite lookup_empty.
Qed.

(** The outcome of the publication is reported as uncertain; moreover the
    second access to the journal (linking the head) fails. *)
Definition uncertain_stores : stores := empty_stores (Some AfterHeadPublication) [].
Definition broken_stores : stores := empty_stores (Some AfterHeadPublication) [None; Some "disk I/O error"].

Definition run_of {A} (r : stores * A) : stores := r.1.
Definition committed : stores := run_of (gate_commit (gate 1) demo_request uncertain_stores).
Definition crashed : stores := run_of (gate_commit (gate 1) demo_request broken_stores).
Definition recovered_stores : stores := run_of (gate_recover (gate 1) (pr_operation_id demo_request) crashed).
End DemoPortable.

Section witnesses.
Import DemoPortable.

(** An uncertain publication, settled by a reread, is acknowledged. *)
Lemma portable_commit_acknowledged_witness :
  ∃ v, (gate_commit (gate 1) demo_request uncertain_stores).2 = Ok v
  ∧ receipt_answers v demo_request ∧ repo_head (p:=repository) committed (pr_branch_id demo_request) = Some v.
Proof.
  destruct (gate_commit (gate 1) demo_request uncertain_stores).2 as [v|e] eqn:Ev.
  - exists v. split; [reflexivity|].
    destruct (portable_commit_acknowledged machine 1 demo_request uncertain_stores committed v) as (H1 & H2 & _);
      [apply empty_stores_wf|exact (run_pair _ _ Ev)|]. exact (conj H1 H2).
  - exfalso. assert (is_ok (gate_commit (gate 1) demo_request uncertain_stores).2 = true) as Hok
      by (vm_compute; reflexivity). rewrite Ev in Hok. discriminate Hok.
Defined.

(** A publication whose link was lost is recovered as resumable. *)
Lemma crashed_wf : repo_wf (p:=repository) crashed.
Proof.
  destruct (gate_commit_moves machine 1 demo_request broken_stores _ _ (empty_stores_wf _ _) I
    (surjective_pairing (gate_commit (gate 1) demo_request broken_stores))) as [Hwf _]. exact Hwf.
Qed.
Lemma recovered_run :
  (gate_recover (gate 1) (pr_operation_id demo_request) crashed).2 = Ok (MkRecoveryFacts true false "main").
Proof. vm_compute. reflexivity. Qed.
Lemma portable_recovery_decides_witness :
  ∃ f, journal_facts (j:=journal) crashed (pr_operation_id demo_request) = Some f
    ∧ recovered (gate 1) (pr_operation_id demo_request) crashed recovered_stores f
        (MkRecoveryFacts true false "main").
Proof.
  destruct (portable_recovery_decides machine 1 (pr_operation_id demo_request) crashed recovered_stores
    (MkRecoveryFacts true false "main") crashed_wf (run_pair _ _ recovered_run)) as (f & H1 & H2 & _).
  exists f. exact (conj H1 H2).
Defined.

(** Two commits in a row, with a recovery between them. *)
Definition published_head (s : stores) : option string :=
  rc_published_head_hash <$> repo_head (p:=repository) s main.
Definition next_request : PortablePrepareV1 :=
  match portable_request (demo_batch_at 1 (sid "event-2" I)) (sid "op-2" I) 1 (published_head recovered_stores) with
  | Ok q => q | Err _ => placeholder end.
Definition second_commit : stores := run_of (gate_commit (gate 1) next_request recovered_stores).
Definition is_linked (f : option PortableRuntimeFactsV1) : bool :=
  match f with Some (PfHeadLinked _ _) => true | _ => false end.
Lemma is_linked_facts f : is_linked f = true → ∃ b v, f = Some (PfHeadLinked b v).
Proof. destruct f as [[| b v|]|]; try done. eauto. Qed.

(** The first commit stops before it is linked, is recovered, and overtaken by
    the second; a further recovery of it then quarantines it. *)
Definition overtaken : stores := run_of (gate_recover (gate 1) (pr_operation_id demo_request) second_commit).
Lemma overtaken_run :
  (gate_recover (gate 1) (pr_operation_id demo_request) second_commit).2 = Ok (MkRecoveryFacts false true "main").
Proof. vm_compute. reflexivity. Qed.

Lemma portable_history_linear_witness :
  ∃ b v b' v', journal_facts (j:=journal) second_commit (sid "op-1" I) = Some (PfHeadLinked b v)
    ∧ journal_facts (j:=journal) second_commit (sid "op-2" I) = Some (PfHeadLinked b' v')
    ∧ ∃ h, repo_head (p:=repository) second_commit (rc_branch_id v) = Some h
           ∧ (v = h ∨ rc_generation v < rc_generation h).
Proof.
  assert (is_linked (journal_facts (j:=journal) second_commit (sid "op-1" I)) = true) as H1
    by (vm_compute; reflexivity).
  assert (is_linked (journal_facts (j:=journal) second_commit (sid "op-2" I)) = true) as H2
    by (vm_compute; reflexivity).
  apply is_linked_facts in H1 as (b & v & Hb), H2 as (b' & v' & Hb').
  exists b, v, b', v'. split; [exact Hb|]. split; [exact Hb'|].
  assert (rtc (system_step (p:=repository) (j:=journal)) broken_stores second_commit) as Hsteps;
    [|destruct (portable_history_linear broken_stores second_commit (empty_stores_wf _ _)
        (empty_stores_journal _ _) Hsteps _ _ _ Hb) as (_ & Hh & _); exact Hh].
  eapply rtc_l; [exact (ss_commit _ _ machine 1 demo_request _ (surjective_pairing _))|].
  eapply rtc_l; [exact (ss_recover _ _ machine 1 (sid "op-1" I) _ (surjective_pairing _))|].
  eapply rtc_l; [exact (ss_commit _ _ machine 1 next_request _ (surjective_pairing _))|].
  apply rtc_refl.
Defined.

(** *** A quarantined operation can still be published

    Recovery quarantined the operation before it was published; [begin]
    accepts the record again because its facts are the same, so a retried
    commit moves the head and then fails to link it: the branch's head is a
    commit that no core acknowledged, and the record stays quarantined. *)
Definition unpublished : stores :=
  run_of (gate_commit (gate 1) demo_request (empty_stores (Some BeforeHeadPublication) [])).
Definition quarantined : stores := run_of (gate_recover (gate 1) (sid "op-1" I) unpublished).
Definition retried := gate_commit (gate 1) demo_request quarantined.
Definition is_quarantined_record (f : option PortableRuntimeFactsV1) : bool :=
  match f with Some (PfQuarantined _ _) => true | _ => false end.
Lemma quarantined_operation_publishes :
  is_quarantined_record (journal_facts (j:=journal) quarantined (sid "op-1" I)) = true
  ∧ repo_head (p:=repository) quarantined main = None
  ∧ retried.2 = Err (GtJournal "portable_journal_missing_or_finalized"
                       "portable journal record is missing or already finalized")
  ∧ rc_operation_id <$> repo_head (p:=repository) retried.1 main = Some (sid "op-1" I)
  ∧ is_quarantined_record (journal_facts (j:=journal) retried.1 (sid "op-1" I)) = true.
Proof. vm_compute. repeat split; reflexivity. Qed.

(** ** The router *)

#[local] Instance batch_round_trip : ValueRoundTrip CommitBatchV1 := codec_round_trip batch_codec.

Definition demo_project : StableId := sid "demo_project-1" I.
Definition demo_batch (backend : HistoryBackendV1) : CommitBatchV1 :=
  MkBatch backend (sid "chat-1" I) (sid "run-1" I) (sid "main" I) 0 0
    [MkEventV1 (sid "event-1" I) 1 "note" (JString "hello")] [] None None [] [].
Definition demo_prepare : PortablePrepareV1 :=
  match portable_request (demo_batch (PortableProject demo_project)) (sid "op-1" I) 0 None with
  | Ok q => q | Err _ => placeholder end.
Definition refusing_local {W} : LocalHistoryCommitPort W :=
  MkLocalPort (λ b, mret (Committed (MkReceipt 1 1 [] None [] ""))) (λ _ _, mret []) (λ _ _, mret ()).

Definition demo_committer : CanonicalCommitter stores :=
  MkCommitter refusing_local {["demo_project-1" := gate 1]} ∅.

Lemma demo_prepare_built :
  portable_request (demo_batch (PortableProject demo_project)) (sid "op-1" I) 0 None = Ok demo_prepare.
Proof. vm_compute. reflexivity. Qed.
Definition built_batch : CommitBatchV1 := demo_batch (PortableProject demo_project).
Definition router_answer (a : stores * result PortableGateError PortableCommitReceiptV1) :
    CanonicalCommitter stores * stores * result CoreCommitError CanonicalCommitOutcomeV1 :=
  let '(w', answer) := a in
  ((bound demo_committer (cb_chat_id built_batch) (HbPortableProject (as_str demo_project)), w'),
   match answer with Ok receipt => Ok (CoPortable receipt) | Err e => Err (CcPortable e) end).
Lemma portable_request_accepted_witness :
  commit_v1 (CqPortable demo_project demo_prepare) (demo_committer, empty_stores None []) =
  router_answer (gate_commit (gate 1) demo_prepare (empty_stores None [])).
Proof.
  pose proof (portable_request_accepted built_batch (sid "op-1" I) 0 None
    demo_prepare demo_project (gate 1) demo_committer (empty_stores None []) demo_prepare_built) as H.
  pose proof (H eq_refl) as H1.
  assert (cm_portable demo_committer !! as_str demo_project = Some (gate 1)) as Hg by apply lookup_singleton_eq.
  pose proof (H1 Hg) as H2.
  apply H2. intros b Hb. change (cm_bindings demo_committer) with (∅ : gmap string HistoryBinding) in Hb.
  by rewrite lookup_empty in Hb.
Defined.

Lemma foreign_backend_refused_witness :
  ∃ e, commit_v1 (CqLocal (demo_batch LocalSqlite))
         (bound demo_committer (sid "chat-1" I) (HbPortableProject "demo_project-1"), empty_stores None [])
       = ((bound demo_committer (sid "chat-1" I) (HbPortableProject "demo_project-1"), empty_stores None []), Err e).
Proof.
  destruct (commit_v1 (CqLocal (demo_batch LocalSqlite)) _) as [s r] eqn:E.
  assert (cm_bindings (bound demo_committer (sid "chat-1" I) (HbPortableProject "demo_project-1"))
            !! as_str (sid "chat-1" I) = Some (HbPortableProject "demo_project-1")) as Hb
    by apply lookup_insert_eq.
  assert (HbPortableProject "demo_project-1" ≠ HbLocalSqlite) as Hne by discriminate.
  destruct (foreign_backend_refused (CqLocal (demo_batch LocalSqlite)) (sid "chat-1" I)
    (HbPortableProject "demo_project-1") _ _ s r (conj eq_refl Hne) Hb E) as [-> He].
  destruct r as [x|e]; [destruct He|]. exists e. reflexivity.
Defined.

(** A chat committed locally, then refused by a portable repository. *)
Definition router0 : CanonicalCommitter (stores * list (StableId * HistoryBinding)) :=
  from_local_port (logged_local refusing_local).
Definition router1 := (run_committer (CkCommitV1 (CqLocal (demo_batch LocalSqlite)))
  (router0, (empty_stores None [], []))).1.
Definition router2 := (run_committer (CkRegister demo_project (logged_gate demo_project (gate 1))) router1).1.
Definition router3 := (run_committer (CkCommitV1 (CqPortable demo_project demo_prepare)) router2).1.
Lemma canonical_backend_unique_witness :
  commit_log router3 = [(sid "chat-1" I, HbLocalSqlite)]
  ∧ bindings_of router3 !! "chat-1" = Some HbLocalSqlite.
Proof.
  assert (commit_log router3 = [(sid "chat-1" I, HbLocalSqlite)]) as Hlog by (vm_compute; reflexivity).
  split; [exact Hlog|].
  assert (router_reachable refusing_local router3) as Hreach.
  - apply (rr_step _ (CkCommitV1 (CqPortable demo_project demo_prepare)) router2 _
      (run_committer (CkCommitV1 (CqPortable demo_project demo_prepare)) router2).2);
      [|exact I|apply surjective_pairing].
    apply (rr_step _ (CkRegister demo_project (logged_gate demo_project (gate 1))) router1 _
      (run_committer (CkRegister demo_project (logged_gate demo_project (gate 1))) router1).2);
      [|by exists (gate 1)|apply surjective_pairing].
    apply (rr_step _ (CkCommitV1 (CqLocal (demo_batch LocalSqlite))) (router0, (empty_stores None [], [])) _
      (run_committer (CkCommitV1 (CqLocal (demo_batch LocalSqlite))) (router0, (empty_stores None [], []))).2);
      [|exact I|apply surjective_pairing].
    apply rr_init.
  - pose proof (canonical_backend_unique refusing_local router3 Hreach) as [Hu _].
    apply (Hu (sid "chat-1" I) HbLocalSqlite). rewrite Hlog. by left.
Defined.
End witnesses.
