(* ===== verification/RepairModel.v ===== *)
(** * Repair records ([crates/aworkit-protocol/src/bootstrap.rs],
    [crates/aworkit-trusted-core/src/repair/model/])

    The data of the recurring-error repair subsystem: artifacts and bundles,
    verification plans and their evidence, the candidate with its disclosure,
    the helper's capability reports, batons, admissions and receipts, and the
    events of the repair ledger.  A field keeps its name behind a prefix for
    its record; every record compares by its derived equality. *)
From S2P Require Export Authority.

Declare Scope repair_scope.
Delimit Scope repair_scope with repair.
(** [a == b] and [a != b] at a type with derived equality. *)
Notation "x ≟ y" := (bool_decide (x = y)) (at level 70, no associativity) : repair_scope.
Notation "x ≠? y" := (negb (bool_decide (x = y))) (at level 70, no associativity) : repair_scope.

Definition REPAIR_SCHEMA_VERSION_V1 : N := 1.

(** ** Contracts shared with the bootstrap helper *)

Record RepairArtifactRefV1 : Type := MkRepairArtifact {
  rar_artifact_id : StableId;
  rar_content_hash : string;
  rar_byte_size : N;
  rar_media_type : string;
  rar_logical_name : string
}.
#[export] Instance RepairArtifactRefV1_eq_dec : EqDecision RepairArtifactRefV1.
Proof. solve_decision. Defined.

Record BuildBundleRefV1 : Type := MkBundle {
  bbr_artifact : RepairArtifactRefV1;
  bbr_manifest_relative_entry : string
}.
#[export] Instance BuildBundleRefV1_eq_dec : EqDecision BuildBundleRefV1.
Proof. solve_decision. Defined.

Record FocusedVerificationCheckV1 : Type := MkFocusedCheck {
  fvc_check_id : StableId;
  fvc_label : string;
  fvc_capability_id : StableId;
  fvc_timeout_ms : N
}.
#[export] Instance FocusedVerificationCheckV1_eq_dec : EqDecision FocusedVerificationCheckV1.
Proof. solve_decision. Defined.

Record FocusedVerificationPlanV1 : Type := MkFocusedPlan {
  fvp_plan_id : StableId;
  fvp_checks : list FocusedVerificationCheckV1;
  fvp_plan_hash : string
}.
#[export] Instance FocusedVerificationPlanV1_eq_dec : EqDecision FocusedVerificationPlanV1.
Proof. solve_decision. Defined.

Record FocusedVerificationCheckResultV1 : Type := MkFocusedResult {
  fvr_check_id : StableId;
  fvr_passed : bool;
  fvr_summary : string;
  fvr_evidence : list RepairArtifactRefV1
}.
#[export] Instance FocusedVerificationCheckResultV1_eq_dec :
  EqDecision FocusedVerificationCheckResultV1.
Proof. solve_decision. Defined.

Record FocusedVerificationEvidenceV1 : Type := MkFocusedEvidence {
  fve_plan_id : StableId;
  fve_plan_hash : string;
  fve_results : list FocusedVerificationCheckResultV1;
  fve_evidence_hash : string
}.
#[export] Instance FocusedVerificationEvidenceV1_eq_dec : EqDecision FocusedVerificationEvidenceV1.
Proof. solve_decision. Defined.

Record BuildProvenanceV1 : Type := MkBuildProvenance {
  bpv_source_revision : string;
  bpv_source_tree_hash : string;
  bpv_workspace_identity_hash : string;
  bpv_toolchain_hash : string;
  bpv_build_manifest_hash : string;
  bpv_provenance_hash : string
}.
#[export] Instance BuildProvenanceV1_eq_dec : EqDecision BuildProvenanceV1.
Proof. solve_decision. Defined.

Inductive BuildOriginV1 : Type :=
| BoManagedLocal (enrollment_digest active_slot_hash : string)
| BoSourceCheckout (projected_provenance_hash : string)
| BoPackagedDistribution (owner : string)
| BoUnknown
| BoConflicting (detail : string)
| BoMismatched (detail : string).
#[export] Instance BuildOriginV1_eq_dec : EqDecision BuildOriginV1.
Proof. solve_decision. Defined.

Inductive ActivationEligibilityV1 : Type :=
| AeSupportedManagedLocal
| AeEnrollmentRequired
| AePackagedDistribution
| AeUnknownOrigin
| AeConflictingOrigin
| AeMismatchedEnrollment
| AeUnsupported.
#[export] Instance ActivationEligibilityV1_eq_dec : EqDecision ActivationEligibilityV1.
Proof. solve_decision. Defined.

Record PlatformReasonV1 : Type := MkPlatformReason {
  plr_code : string;
  plr_message : string;
  plr_next_steps : list string
}.
#[export] Instance PlatformReasonV1_eq_dec : EqDecision PlatformReasonV1.
Proof. solve_decision. Defined.

Record PlatformCapabilityReportV1 : Type := MkCapabilityReport {
  pcr_schema_version : N;
  pcr_report_id : StableId;
  pcr_candidate_id : StableId;
  pcr_candidate_version : N;
  pcr_candidate_hash : string;
  pcr_capability_generation : N;
  pcr_build_origin : BuildOriginV1;
  pcr_eligibility : ActivationEligibilityV1;
  pcr_reason : PlatformReasonV1;
  pcr_current_build : BuildBundleRefV1;
  pcr_previous_working_build : option BuildBundleRefV1;
  pcr_valid_from_epoch_ms : N;
  pcr_expires_at_epoch_ms : N;
  pcr_capability_digest : string
}.
#[export] Instance PlatformCapabilityReportV1_eq_dec : EqDecision PlatformCapabilityReportV1.
Proof. solve_decision. Defined.

Record ManagedLocalEnrollmentRequestV1 : Type := MkEnrollmentRequest {
  mer_request_id : StableId;
  mer_explicit_user_decision_id : StableId;
  mer_group_id : StableId;
  mer_candidate_id : StableId;
  mer_candidate_version : N;
  mer_candidate_hash : string;
  mer_projected_provenance_hash : string;
  mer_whole_bundle : BuildBundleRefV1;
  mer_capability_report_id : StableId;
  mer_capability_digest : string
}.
#[export] Instance ManagedLocalEnrollmentRequestV1_eq_dec :
  EqDecision ManagedLocalEnrollmentRequestV1.
Proof. solve_decision. Defined.

Record EnrollmentPreparedV1 : Type := MkEnrollmentPrepared {
  enp_preparation_id : StableId;
  enp_request_id : StableId;
  enp_enrollment_digest : string;
  enp_stable_launcher : string;
  enp_restart_instructions : list string
}.
#[export] Instance EnrollmentPreparedV1_eq_dec : EqDecision EnrollmentPreparedV1.
Proof. solve_decision. Defined.

Record ManagementCheckpointRefV1 : Type := MkManagementCheckpoint {
  mck_checkpoint_id : StableId;
  mck_chat_id : StableId;
  mck_run_id : StableId;
  mck_committed_sequence : N;
  mck_snapshot_hash : string;
  mck_checkpoint_hash : string
}.
#[export] Instance ManagementCheckpointRefV1_eq_dec : EqDecision ManagementCheckpointRefV1.
Proof. solve_decision. Defined.

Inductive RepairCandidateDispositionV1 : Type := RdRejected | RdDeferred.
#[export] Instance RepairCandidateDispositionV1_eq_dec : EqDecision RepairCandidateDispositionV1.
Proof. solve_decision. Defined.

Record RepairCandidateDecisionV1 : Type := MkCandidateDecision {
  rcd_decision_id : StableId;
  rcd_candidate_id : StableId;
  rcd_candidate_version : N;
  rcd_disposition : RepairCandidateDispositionV1;
  rcd_reason : string
}.
#[export] Instance RepairCandidateDecisionV1_eq_dec : EqDecision RepairCandidateDecisionV1.
Proof. solve_decision. Defined.

Record BootstrapDeadlinesV1 : Type := MkDeadlines {
  bdl_admission_ms : N;
  bdl_cleanup_ms : N;
  bdl_startup_ms : N;
  bdl_focused_verification_ms : N;
  bdl_rollback_ms : N;
  bdl_result_read_ms : N
}.
#[export] Instance BootstrapDeadlinesV1_eq_dec : EqDecision BootstrapDeadlinesV1.
Proof. solve_decision. Defined.

Record RepairActivationDecisionV1 : Type := MkActivationDecision {
  rad_activation_id : StableId;
  rad_explicit_user_decision_id : StableId;
  rad_candidate_id : StableId;
  rad_expected_candidate_version : N;
  rad_expected_candidate_hash : string;
  rad_expected_capability_report_id : StableId;
  rad_expected_capability_digest : string;
  rad_decided_at_epoch_ms : N
}.
#[export] Instance RepairActivationDecisionV1_eq_dec : EqDecision RepairActivationDecisionV1.
Proof. solve_decision. Defined.

Record RepairActivationBatonV1 : Type := MkBaton {
  bat_schema_version : N;
  bat_baton_id : StableId;
  bat_activation_id : StableId;
  bat_group_id : StableId;
  bat_candidate_id : StableId;
  bat_candidate_version : N;
  bat_candidate_hash : string;
  bat_candidate_bundle : BuildBundleRefV1;
  bat_disclosure_hash : string;
  bat_provenance_hash : string;
  bat_enrollment_digest : string;
  bat_capability_report_id : StableId;
  bat_capability_generation : N;
  bat_capability_digest : string;
  bat_previous_working_build : BuildBundleRefV1;
  bat_management_checkpoint : ManagementCheckpointRefV1;
  bat_verification_plan : FocusedVerificationPlanV1;
  bat_current_process_generation : ProcessGeneration;
  bat_candidate_process_generation : ProcessGeneration;
  bat_rollback_process_generation : ProcessGeneration;
  bat_deadlines : BootstrapDeadlinesV1;
  bat_expires_at_epoch_ms : N;
  bat_baton_hash : string
}.
#[export] Instance RepairActivationBatonV1_eq_dec : EqDecision RepairActivationBatonV1.
Proof. solve_decision. Defined.

Record BootstrapAcceptedAdmissionV1 : Type := MkAdmission {
  adm_admission_id : StableId;
  adm_activation_id : StableId;
  adm_baton_hash : string;
  adm_candidate_process_generation : ProcessGeneration;
  adm_rollback_process_generation : ProcessGeneration;
  adm_admission_hash : string
}.
#[export] Instance BootstrapAcceptedAdmissionV1_eq_dec : EqDecision BootstrapAcceptedAdmissionV1.
Proof. solve_decision. Defined.

Record CoreQuiescenceFactsV1 : Type := MkQuiescence {
  cqf_quiescence_id : StableId;
  cqf_activation_id : StableId;
  cqf_process_generation : ProcessGeneration;
  cqf_worker_trees_stopped : N;
  cqf_host_trees_stopped : N;
  cqf_sidecar_trees_stopped : N;
  cqf_timed_out : bool;
  cqf_orphan_risk : bool;
  cqf_facts_hash : string
}.
#[export] Instance CoreQuiescenceFactsV1_eq_dec : EqDecision CoreQuiescenceFactsV1.
Proof. solve_decision. Defined.

Inductive BootstrapResultKindV1 : Type :=
| BrUnsupported (reason : PlatformReasonV1)
| BrActivatedVerified (focused_verification : FocusedVerificationEvidenceV1)
| BrRolledBack (reason : string) (rollback_evidence : list RepairArtifactRefV1)
| BrManualRecoveryRequired (diagnostic_id : StableId) (observed_slot_state : string)
    (instructions : list string).
#[export] Instance BootstrapResultKindV1_eq_dec : EqDecision BootstrapResultKindV1.
Proof. solve_decision. Defined.

Record BootstrapResultV1 : Type := MkBootstrapResult {
  bsr_schema_version : N;
  bsr_receipt_id : StableId;
  bsr_activation_id : StableId;
  bsr_baton_hash : string;
  bsr_management_checkpoint_id : StableId;
  bsr_recipient_process_generation : ProcessGeneration;
  bsr_sealed_at_epoch_ms : N;
  bsr_result : BootstrapResultKindV1;
  bsr_receipt_hash : string
}.
#[export] Instance BootstrapResultV1_eq_dec : EqDecision BootstrapResultV1.
Proof. solve_decision. Defined.

Record BootstrapPeerProofV1 : Type := MkPeerProof {
  bpp_same_user_authenticated : bool;
  bpp_recipient_process_generation : ProcessGeneration;
  bpp_ownership_hash : string;
  bpp_channel_binding_hash : string
}.
#[export] Instance BootstrapPeerProofV1_eq_dec : EqDecision BootstrapPeerProofV1.
Proof. solve_decision. Defined.

Record AuthenticatedBootstrapResultV1 : Type := MkAuthenticatedResult {
  abr_receipt : BootstrapResultV1;
  abr_peer : BootstrapPeerProofV1
}.
#[export] Instance AuthenticatedBootstrapResultV1_eq_dec : EqDecision AuthenticatedBootstrapResultV1.
Proof. solve_decision. Defined.

Inductive BootstrapAdmissionV1 : Type :=
| BaAccepted (admission : BootstrapAcceptedAdmissionV1)
| BaUnsupported (result : AuthenticatedBootstrapResultV1).

(** ** Candidates, disclosure and investigations *)

Inductive RepairEvidenceDisclosureV1 : Type :=
| EdEvidence (summary : string) (artifacts : list RepairArtifactRefV1)
| EdNoneDeclared (explanation : string)
| EdNotPerformed (explanation : string).
#[export] Instance RepairEvidenceDisclosureV1_eq_dec : EqDecision RepairEvidenceDisclosureV1.
Proof. solve_decision. Defined.

Record DisclosureItemV1 : Type := MkDisclosureItem {
  dsi_item_id : StableId;
  dsi_label : string;
  dsi_detail : string
}.
#[export] Instance DisclosureItemV1_eq_dec : EqDecision DisclosureItemV1.
Proof. solve_decision. Defined.

Record DisclosureItemsV1 : Type := MkDisclosureItems {
  dis_items : list DisclosureItemV1;
  dis_none_declared : bool
}.
#[export] Instance DisclosureItemsV1_eq_dec : EqDecision DisclosureItemsV1.
Proof. solve_decision. Defined.

Inductive DataCompatibilityV1 : Type :=
| DcRollbackCompatible
| DcDeferredUntilVerified (explanation : string)
| DcForwardOnlyMigrationRequired (explanation : string).
#[export] Instance DataCompatibilityV1_eq_dec : EqDecision DataCompatibilityV1.
Proof. solve_decision. Defined.

Record RepairDisclosureV1 : Type := MkDisclosure {
  rds_source_diff : RepairEvidenceDisclosureV1;
  rds_configuration_diff : RepairEvidenceDisclosureV1;
  rds_tests : RepairEvidenceDisclosureV1;
  rds_benchmarks : RepairEvidenceDisclosureV1;
  rds_consequences : DisclosureItemsV1;
  rds_removed_behaviors : DisclosureItemsV1;
  rds_disabled_behaviors : DisclosureItemsV1;
  rds_broadened_behaviors : DisclosureItemsV1;
  rds_replaced_behaviors : DisclosureItemsV1;
  rds_uncertainties : DisclosureItemsV1;
  rds_data_compatibility : DataCompatibilityV1;
  rds_rollback_point : BuildBundleRefV1;
  rds_verification_plan : FocusedVerificationPlanV1;
  rds_disclosure_hash : string
}.
#[export] Instance RepairDisclosureV1_eq_dec : EqDecision RepairDisclosureV1.
Proof. solve_decision. Defined.

Record RepairCandidateV1 : Type := MkCandidate {
  rcv_candidate_id : StableId;
  rcv_group_id : StableId;
  rcv_candidate_version : N;
  rcv_summary : string;
  rcv_build_bundle : BuildBundleRefV1;
  rcv_provenance : BuildProvenanceV1;
  rcv_built_under_authority_manifest_hash : string;
  rcv_disclosure : RepairDisclosureV1;
  rcv_candidate_hash : string
}.
#[export] Instance RepairCandidateV1_eq_dec : EqDecision RepairCandidateV1.
Proof. solve_decision. Defined.

Record ErrorOccurrenceV1 : Type := MkOccurrence {
  eoc_occurrence_id : StableId;
  eoc_fingerprint : string;
  eoc_summary : string;
  eoc_semantic_event_id : StableId;
  eoc_attempt_id : option StableId;
  eoc_diagnostic_record_id : option StableId;
  eoc_evidence : list RepairArtifactRefV1;
  eoc_observed_at_epoch_ms : N
}.
#[export] Instance ErrorOccurrenceV1_eq_dec : EqDecision ErrorOccurrenceV1.
Proof. solve_decision. Defined.

Record RepairInvestigationBudgetV1 : Type := MkInvestigationBudget {
  rib_max_attempts : N;
  rib_max_tool_calls : N;
  rib_max_tokens : N;
  rib_deadline_ms : N
}.
#[export] Instance RepairInvestigationBudgetV1_eq_dec : EqDecision RepairInvestigationBudgetV1.
Proof. solve_decision. Defined.

Record FrozenRepairAuthorityV1 : Type := MkRepairAuthority {
  fra_authority_manifest_id : StableId;
  fra_authority_manifest_hash : string;
  fra_capability_ids : list StableId
}.
#[export] Instance FrozenRepairAuthorityV1_eq_dec : EqDecision FrozenRepairAuthorityV1.
Proof. solve_decision. Defined.

Record RepairInvestigationV1 : Type := MkInvestigation {
  riv_investigation_id : StableId;
  riv_explicit_user_decision_id : StableId;
  riv_group_id : StableId;
  riv_management_chat_id : StableId;
  riv_management_run_id : StableId;
  riv_authority : FrozenRepairAuthorityV1;
  riv_budget : RepairInvestigationBudgetV1
}.
#[export] Instance RepairInvestigationV1_eq_dec : EqDecision RepairInvestigationV1.
Proof. solve_decision. Defined.

Record RepairInvestigationUsageV1 : Type := MkInvestigationUsage {
  riu_attempts : N;
  riu_tool_calls : N;
  riu_tokens : N;
  riu_elapsed_ms : N
}.
#[export] Instance RepairInvestigationUsageV1_eq_dec : EqDecision RepairInvestigationUsageV1.
Proof. solve_decision. Defined.

Record InvestigationExecutionReceiptV1 : Type := MkExecutionReceipt {
  ier_schema_version : N;
  ier_receipt_id : StableId;
  ier_investigation_id : StableId;
  ier_group_id : StableId;
  ier_management_chat_id : StableId;
  ier_management_run_id : StableId;
  ier_candidate_id : StableId;
  ier_candidate_version : N;
  ier_candidate_hash : string;
  ier_authority_manifest_id : StableId;
  ier_authority_manifest_hash : string;
  ier_frozen_capability_ids : list StableId;
  ier_executed_capability_ids : list StableId;
  ier_frozen_budget : RepairInvestigationBudgetV1;
  ier_observed_usage : RepairInvestigationUsageV1;
  ier_completed_at_epoch_ms : N;
  ier_receipt_hash : string
}.
#[export] Instance InvestigationExecutionReceiptV1_eq_dec :
  EqDecision InvestigationExecutionReceiptV1.
Proof. solve_decision. Defined.

Record InvestigationExecutionPeerProofV1 : Type := MkExecutionPeer {
  iep_same_user_authenticated : bool;
  iep_ownership_hash : string;
  iep_channel_binding_hash : string
}.
#[export] Instance InvestigationExecutionPeerProofV1_eq_dec :
  EqDecision InvestigationExecutionPeerProofV1.
Proof. solve_decision. Defined.

Record AuthenticatedInvestigationExecutionReceiptV1 : Type := MkAuthenticatedReceipt {
  aer_receipt : InvestigationExecutionReceiptV1;
  aer_peer : InvestigationExecutionPeerProofV1
}.
#[export] Instance AuthenticatedInvestigationExecutionReceiptV1_eq_dec :
  EqDecision AuthenticatedInvestigationExecutionReceiptV1.
Proof. solve_decision. Defined.

(** ** Events *)

Record RepairRegressionV1 : Type := MkRegression {
  rrg_regression_id : StableId;
  rrg_occurrence_id : StableId;
  rrg_repaired_candidate_id : StableId;
  rrg_repaired_receipt_id : StableId
}.
#[export] Instance RepairRegressionV1_eq_dec : EqDecision RepairRegressionV1.
Proof. solve_decision. Defined.

Inductive RepairPhaseV1 : Type :=
| RpObserved | RpInvestigating | RpCandidateReady | RpEnrollmentPending | RpEnrollmentPrepared
| RpCandidateRejected | RpActivationPrepared | RpAwaitingBootstrapResult
| RpVerificationSubmitted | RpVerified | RpRolledBack | RpManualRecoveryRequired | RpRegression.
#[export] Instance RepairPhaseV1_eq_dec : EqDecision RepairPhaseV1.
Proof. solve_decision. Defined.

Inductive RepairEventV1 : Type :=
| FailureRecorded (occurrence : ErrorOccurrenceV1)
| InvestigationStarted (investigation : RepairInvestigationV1)
| CandidateRegistered (candidate : RepairCandidateV1)
    (execution_receipt : AuthenticatedInvestigationExecutionReceiptV1)
| CapabilityReported (queried_at_epoch_ms : N) (report : PlatformCapabilityReportV1)
| EnrollmentRequested (requested_at_epoch_ms : N) (request : ManagedLocalEnrollmentRequestV1)
| EnrollmentPrepared (prepared : EnrollmentPreparedV1)
| CandidateDecided (decision : RepairCandidateDecisionV1)
| ActivationPrepared (decision : RepairActivationDecisionV1)
    (checkpoint : ManagementCheckpointRefV1) (baton : RepairActivationBatonV1)
| BootstrapAdmissionAccepted (admission : BootstrapAcceptedAdmissionV1)
| CoreQuiesced (facts : CoreQuiescenceFactsV1)
| FocusedVerificationSubmitted (activation_id : StableId) (process_generation : ProcessGeneration)
    (evidence : FocusedVerificationEvidenceV1)
| BootstrapResultReconciled (reconciled_at_epoch_ms : N) (result : AuthenticatedBootstrapResultV1)
| RegressionRecorded (regression : RepairRegressionV1).
#[export] Instance RepairEventV1_eq_dec : EqDecision RepairEventV1.
Proof. solve_decision. Defined.

Record CommittedRepairEventV1 : Type := MkCommittedRepair {
  cre_group_id : StableId;
  cre_ledger_sequence : N;
  cre_operation_id : StableId;
  cre_event : RepairEventV1
}.
