(* ===== verification/RepairValidation.v ===== *)
(** * Validation of repair records
    ([crates/aworkit-trusted-core/src/repair/validation/])

    The canonical hashes of the self-describing records ([hashing.rs]), the
    checks on candidates and investigations ([candidate.rs]) and the checks on
    capability reports, batons, admissions, quiescence facts, evidence and
    receipts ([bootstrap.rs]).  A check returns the message the code returns.
    SHA-256 and the canonical serializer at each hashed type are parameters,
    gathered in [RepairSerialize]. *)
From S2P Require Export RepairModel.

Local Open Scope repair_scope.

(** ** Hashing *)

Inductive RepairValidationError : Type := RveEncoding | RveInvalidFingerprint.

Abbreviation provenance_key := (string * string * string * string * string)%type.
Abbreviation disclosure_key :=
  (RepairEvidenceDisclosureV1 * RepairEvidenceDisclosureV1 * RepairEvidenceDisclosureV1
   * RepairEvidenceDisclosureV1 * DisclosureItemsV1 * DisclosureItemsV1 * DisclosureItemsV1
   * DisclosureItemsV1 * DisclosureItemsV1 * DisclosureItemsV1 * DataCompatibilityV1
   * BuildBundleRefV1 * FocusedVerificationPlanV1)%type.
Abbreviation candidate_key :=
  (StableId * StableId * N * string * BuildBundleRefV1 * BuildProvenanceV1 * string
   * RepairDisclosureV1)%type.
Abbreviation receipt_key :=
  (N * StableId * StableId * StableId * StableId * StableId * StableId * N * string * StableId
   * string * list StableId * list StableId * RepairInvestigationBudgetV1
   * RepairInvestigationUsageV1 * N)%type.
Abbreviation report_key :=
  (N * StableId * StableId * N * string * N * BuildOriginV1 * ActivationEligibilityV1
   * PlatformReasonV1 * BuildBundleRefV1 * option BuildBundleRefV1 * N * N)%type.
Abbreviation admission_key :=
  (StableId * StableId * string * ProcessGeneration * ProcessGeneration)%type.
Abbreviation quiescence_key :=
  (StableId * StableId * ProcessGeneration * N * N * N * bool * bool)%type.
Abbreviation plan_key := (StableId * list FocusedVerificationCheckV1)%type.
Abbreviation evidence_key := (StableId * string * list FocusedVerificationCheckResultV1)%type.
Abbreviation result_key :=
  (N * StableId * StableId * string * StableId * ProcessGeneration * N * BootstrapResultKindV1)%type.

(** The types [serde_jcs::to_vec] is used at. *)
Class RepairSerialize : Type := {
  rs_bindings :: Serialize (list CapabilityBindingV1);
  rs_provenance :: Serialize provenance_key;
  rs_disclosure :: Serialize disclosure_key;
  rs_candidate :: Serialize candidate_key;
  rs_receipt :: Serialize receipt_key;
  rs_report :: Serialize report_key;
  rs_baton :: Serialize RepairActivationBatonV1;
  rs_admission :: Serialize admission_key;
  rs_quiescence :: Serialize quiescence_key;
  rs_plan :: Serialize plan_key;
  rs_evidence :: Serialize evidence_key;
  rs_result :: Serialize result_key
}.

(** [fingerprint[7..]] follows the ["sha256:"] the check has seen. *)
Definition repair_group_id_for_fingerprint_v1 (fingerprint : string) :
    result RepairValidationError StableId :=
  if negb (is_canonical_sha256 fingerprint) then Err RveInvalidFingerprint else
  map_err (λ _, RveInvalidFingerprint)
    (StableId_parse ("repair.group." +:+ default "" (strip_prefix "sha256:" fingerprint))).

Definition with_baton_hash (hash : string) (b : RepairActivationBatonV1) :
    RepairActivationBatonV1 :=
  MkBaton (bat_schema_version b) (bat_baton_id b) (bat_activation_id b) (bat_group_id b)
    (bat_candidate_id b) (bat_candidate_version b) (bat_candidate_hash b) (bat_candidate_bundle b)
    (bat_disclosure_hash b) (bat_provenance_hash b) (bat_enrollment_digest b)
    (bat_capability_report_id b) (bat_capability_generation b) (bat_capability_digest b)
    (bat_previous_working_build b) (bat_management_checkpoint b) (bat_verification_plan b)
    (bat_current_process_generation b) (bat_candidate_process_generation b)
    (bat_rollback_process_generation b) (bat_deadlines b) (bat_expires_at_epoch_ms b) hash.

Section hashing.
Context `{Sha256, RepairSerialize}.

Definition repair_canonical_hash {T} `{Serialize T} (value : T) :
    result RepairValidationError string :=
  bytes ← ok_or (jcs_to_vec value) RveEncoding;
  Ok ("sha256:" +:+ sha256_hex bytes).

Definition authority_manifest_hash_v1 {T} `{Serialize T} (value : T) :
    result RepairValidationError string :=
  bytes ← ok_or (jcs_to_vec value) RveEncoding;
  Ok (sha256_hex bytes).

Definition build_provenance_hash_v1 (p : BuildProvenanceV1) : result RepairValidationError string :=
  repair_canonical_hash (bpv_source_revision p, bpv_source_tree_hash p,
    bpv_workspace_identity_hash p, bpv_toolchain_hash p, bpv_build_manifest_hash p).

Definition focused_verification_plan_hash_v1 (plan : FocusedVerificationPlanV1) :
    result RepairValidationError string :=
  repair_canonical_hash (fvp_plan_id plan, fvp_checks plan).

Definition focused_verification_evidence_hash_v1 (e : FocusedVerificationEvidenceV1) :
    result RepairValidationError string :=
  repair_canonical_hash (fve_plan_id e, fve_plan_hash e, fve_results e).

Definition repair_disclosure_hash_v1 (d : RepairDisclosureV1) :
    result RepairValidationError string :=
  repair_canonical_hash (rds_source_diff d, rds_configuration_diff d, rds_tests d,
    rds_benchmarks d, rds_consequences d, rds_removed_behaviors d, rds_disabled_behaviors d,
    rds_broadened_behaviors d, rds_replaced_behaviors d, rds_uncertainties d,
    rds_data_compatibility d, rds_rollback_point d, rds_verification_plan d).

Definition repair_candidate_hash_v1 (c : RepairCandidateV1) : result RepairValidationError string :=
  repair_canonical_hash (rcv_candidate_id c, rcv_group_id c, rcv_candidate_version c,
    rcv_summary c, rcv_build_bundle c, rcv_provenance c,
    rcv_built_under_authority_manifest_hash c, rcv_disclosure c).

Definition investigation_execution_receipt_hash_v1 (r : InvestigationExecutionReceiptV1) :
    result RepairValidationError string :=
  repair_canonical_hash (ier_schema_version r, ier_receipt_id r, ier_investigation_id r,
    ier_group_id r, ier_management_chat_id r, ier_management_run_id r, ier_candidate_id r,
    ier_candidate_version r, ier_candidate_hash r, ier_authority_manifest_id r,
    ier_authority_manifest_hash r, ier_frozen_capability_ids r, ier_executed_capability_ids r,
    ier_frozen_budget r, ier_observed_usage r, ier_completed_at_epoch_ms r).

Definition capability_report_digest_v1 (r : PlatformCapabilityReportV1) :
    result RepairValidationError string :=
  repair_canonical_hash (pcr_schema_version r, pcr_report_id r, pcr_candidate_id r,
    pcr_candidate_version r, pcr_candidate_hash r, pcr_capability_generation r,
    pcr_build_origin r, pcr_eligibility r, pcr_reason r, pcr_current_build r,
    pcr_previous_working_build r, pcr_valid_from_epoch_ms r, pcr_expires_at_epoch_ms r).

Definition repair_activation_baton_hash_v1 (baton : RepairActivationBatonV1) :
    result RepairValidationError string :=
  repair_canonical_hash (with_baton_hash "" baton).

Definition bootstrap_admission_hash_v1 (a : BootstrapAcceptedAdmissionV1) :
    result RepairValidationError string :=
  repair_canonical_hash (adm_admission_id a, adm_activation_id a, adm_baton_hash a,
    adm_candidate_process_generation a, adm_rollback_process_generation a).

Definition core_quiescence_facts_hash_v1 (f : CoreQuiescenceFactsV1) :
    result RepairValidationError string :=
  repair_canonical_hash (cqf_quiescence_id f, cqf_activation_id f, cqf_process_generation f,
    cqf_worker_trees_stopped f, cqf_host_trees_stopped f, cqf_sidecar_trees_stopped f,
    cqf_timed_out f, cqf_orphan_risk f).

Definition bootstrap_result_hash_v1 (r : BootstrapResultV1) : result RepairValidationError string :=
  repair_canonical_hash (bsr_schema_version r, bsr_receipt_id r, bsr_activation_id r,
    bsr_baton_hash r, bsr_management_checkpoint_id r, bsr_recipient_process_generation r,
    bsr_sealed_at_epoch_ms r, bsr_result r).
End hashing.

(** ** Text and identifiers *)

Definition MAX_SUMMARY_BYTES : N := 8 * 1024.
Definition MAX_SHORT_TEXT_BYTES : N := 512.
Definition MAX_DISCLOSURE_ITEMS : N := 128.
Definition MAX_EVIDENCE_ARTIFACTS : N := 256.
Definition MAX_VERIFICATION_CHECKS : N := 64.
Definition MAX_PHASE_DEADLINE_MS : N := 60 * 60 * 1000.
Definition MAX_REPAIR_INVESTIGATION_TOKENS_V1 : N := 1000000.
Definition MAX_CAPABILITY_REPORT_VALIDITY_MS : N := 15 * 60 * 1000.
Definition MAX_TOTAL_ACTIVATION_MS : N := 4 * 60 * 60 * 1000.

(** A control character other than a newline or a tab ([NUL] is one). *)
Fixpoint any_forbidden_control (s : string) : bool :=
  match s with
  | EmptyString => false
  | String a s1 =>
      ((byte_of a <? 32) && negb (byte_of a =? 10) && negb (byte_of a =? 9))
      || (byte_of a =? 127)
      || match s1 with
         | EmptyString => false
         | String b _ => (byte_of a =? 194) && in_range 128 159 (byte_of b)
         end
      || any_forbidden_control s1
  end.

Definition valid_text (value : string) (max_bytes : N) : bool :=
  negb (str_is_empty value) && (str_len value <=? max_bytes) && negb (trim_changes value)
  && negb (any_forbidden_control value).

(** [value.split(['/', '\\'])] *)
Definition is_path_separator (c : Ascii.ascii) : bool := (byte_of c =? 47) || (byte_of c =? 92).
Fixpoint split_path (s : string) : list string :=
  match s with
  | EmptyString => [EmptyString]
  | String c s =>
      if is_path_separator c then EmptyString :: split_path s
      else match split_path s with
           | [] => [String c EmptyString]
           | w :: ws => String c w :: ws
           end
  end.
Fixpoint str_contains_byte (b : N) (s : string) : bool :=
  match s with
  | EmptyString => false
  | String c s => (byte_of c =? b) || str_contains_byte b s
  end.
Definition starts_with_separator (s : string) : bool :=
  match s with EmptyString => false | String c _ => is_path_separator c end.

Definition valid_relative_entry (value : string) : bool :=
  valid_text value 1024 && negb (starts_with_separator value) && negb (str_contains_byte 58 value)
  && forallb (λ component, negb (str_is_empty component) && (component ≠? ".")
                           && (component ≠? "..")) (split_path value).

Fixpoint contains_duplicate_from (seen : gset string) (values : list StableId) : bool :=
  match values with
  | [] => false
  | value :: values =>
      bs_contains seen (as_str value)
      || contains_duplicate_from ({[as_str value]} ∪ seen) values
  end.
Definition contains_duplicate_ids (values : list StableId) : bool :=
  contains_duplicate_from ∅ values.

Definition is_legacy_authority_hash (value : string) : bool :=
  (str_len value =? 64) && all_bytes is_lower_hexdigit value.

(** [values.windows(2).all(|pair| pair[0] < pair[1])] *)
Fixpoint strictly_increasing (values : list StableId) : bool :=
  match values with
  | a :: ((b :: _) as rest) =>
      match String.compare (as_str a) (as_str b) with Lt => true | _ => false end
      && strictly_increasing rest
  | _ => true
  end.

Definition ids_contain (ids : list StableId) (x : StableId) : bool := bool_decide (x ∈ ids).

(** ** Candidates and investigations *)

Section validation.
Context `{Sha256, RepairSerialize}.

(** [hash(value).map_err(|_| unsealed)? != field]: the error of the encoding,
    or whether the field differs. *)
Definition hash_differs (hash : result RepairValidationError string) (unsealed field : string) :
    result string bool :=
  h ← map_err (λ _, unsealed) hash; Ok (h ≠? field).

Definition validate_artifact (value : RepairArtifactRefV1) : result string () :=
  fail_if (negb (is_canonical_sha256 (rar_content_hash value)) || (rar_byte_size value =? 0)
           || negb (valid_text (rar_media_type value) 128)
           || negb (valid_text (rar_logical_name value) MAX_SHORT_TEXT_BYTES))
    "invalid repair evidence artifact".

Definition validate_build_bundle (value : BuildBundleRefV1) : result string () :=
  fail_if (is_err (validate_artifact (bbr_artifact value))
           || negb (valid_relative_entry (bbr_manifest_relative_entry value)))
    "invalid whole-build bundle reference".

Definition validate_occurrence (value : ErrorOccurrenceV1) : result string () :=
  fail_if (negb (is_canonical_sha256 (eoc_fingerprint value))
           || negb (valid_text (eoc_summary value) MAX_SUMMARY_BYTES)
           || (eoc_observed_at_epoch_ms value =? 0)
           || (MAX_EVIDENCE_ARTIFACTS <? len (eoc_evidence value))
           || existsb (λ a, is_err (validate_artifact a)) (eoc_evidence value))
    "invalid recurring-error occurrence".

Definition validate_investigation (value : RepairInvestigationV1) : result string () :=
  let budget := riv_budget value in
  fail_if ((rib_max_attempts budget =? 0) || (10000 <? rib_max_attempts budget)
           || (rib_max_tool_calls budget =? 0) || (100000 <? rib_max_tool_calls budget)
           || (rib_max_tokens budget =? 0)
           || (MAX_REPAIR_INVESTIGATION_TOKENS_V1 <? rib_max_tokens budget)
           || (rib_deadline_ms budget =? 0) || (MAX_PHASE_DEADLINE_MS <? rib_deadline_ms budget)
           || is_nil (fra_capability_ids (riv_authority value))
           || (256 <? len (fra_capability_ids (riv_authority value)))
           || negb (is_legacy_authority_hash (fra_authority_manifest_hash (riv_authority value)))
           || contains_duplicate_ids (fra_capability_ids (riv_authority value)))
    "invalid bounded investigation".

Definition uncovered_check (capabilities : list StableId) (candidate : RepairCandidateV1) : bool :=
  existsb (λ check, negb (ids_contain capabilities (fvc_capability_id check)))
    (fvp_checks (rds_verification_plan (rcv_disclosure candidate))).

Definition validate_authenticated_investigation_execution
    (value : AuthenticatedInvestigationExecutionReceiptV1) (investigation : RepairInvestigationV1)
    (candidate : RepairCandidateV1) : result string () :=
  let receipt := aer_receipt value in
  let usage := ier_observed_usage receipt in
  let invalid := "invalid authenticated investigation execution receipt" in
  _ ← fail_if ((ier_schema_version receipt ≠? REPAIR_SCHEMA_VERSION_V1)
        || (ier_candidate_version receipt =? 0) || (ier_completed_at_epoch_ms receipt =? 0)
        || negb (is_canonical_sha256 (ier_candidate_hash receipt))
        || negb (is_legacy_authority_hash (ier_authority_manifest_hash receipt))
        || is_nil (ier_frozen_capability_ids receipt)
        || is_nil (ier_executed_capability_ids receipt)
        || (riu_attempts usage =? 0)
        || (rib_max_attempts (ier_frozen_budget receipt) <? riu_attempts usage)
        || (riu_tool_calls usage <? len (ier_executed_capability_ids receipt) mod 2 ^ 32)
        || (rib_max_tool_calls (ier_frozen_budget receipt) <? riu_tool_calls usage)
        || (rib_max_tokens (ier_frozen_budget receipt) <? riu_tokens usage)
        || (riu_elapsed_ms usage =? 0)
        || (rib_deadline_ms (ier_frozen_budget receipt) <? riu_elapsed_ms usage)
        || contains_duplicate_ids (ier_frozen_capability_ids receipt)
        || contains_duplicate_ids (ier_executed_capability_ids receipt)
        || negb (strictly_increasing (ier_frozen_capability_ids receipt))
        || negb (strictly_increasing (ier_executed_capability_ids receipt))) invalid;
  differs ← hash_differs (investigation_execution_receipt_hash_v1 receipt)
    "invalid investigation execution receipt hash" (ier_receipt_hash receipt);
  _ ← fail_if (differs || negb (iep_same_user_authenticated (aer_peer value))
        || negb (is_canonical_sha256 (iep_ownership_hash (aer_peer value)))
        || negb (is_canonical_sha256 (iep_channel_binding_hash (aer_peer value)))) invalid;
  fail_if ((ier_investigation_id receipt ≠? riv_investigation_id investigation)
    || (ier_group_id receipt ≠? riv_group_id investigation)
    || (ier_management_chat_id receipt ≠? riv_management_chat_id investigation)
    || (ier_management_run_id receipt ≠? riv_management_run_id investigation)
    || (ier_candidate_id receipt ≠? rcv_candidate_id candidate)
    || (ier_candidate_version receipt ≠? rcv_candidate_version candidate)
    || (ier_candidate_hash receipt ≠? rcv_candidate_hash candidate)
    || (ier_authority_manifest_id receipt ≠? fra_authority_manifest_id (riv_authority investigation))
    || (ier_authority_manifest_hash receipt
          ≠? fra_authority_manifest_hash (riv_authority investigation))
    || (ier_frozen_capability_ids receipt ≠? fra_capability_ids (riv_authority investigation))
    || (ier_executed_capability_ids receipt ≠? fra_capability_ids (riv_authority investigation))
    || (ier_frozen_budget receipt ≠? riv_budget investigation)
    || uncovered_check (ier_executed_capability_ids receipt) candidate)
    "investigation execution receipt does not exactly bind candidate authority".

Definition freeze_investigation_authority (manifest : AuthorityManifestV1)
    (requested : list StableId) : result string FrozenRepairAuthorityV1 :=
  _ ← fail_if (is_nil requested || (256 <? len requested) || contains_duplicate_ids requested)
        "invalid requested investigation authority";
  computed ← map_err (λ _, "invalid frozen authority manifest")
    (authority_manifest_hash_v1 (mv_capability_bindings manifest));
  let expected_id := "manifest." +:+ str_take 32 computed in
  _ ← fail_if ((computed ≠? mv_manifest_hash manifest)
        || (as_str (mv_manifest_id manifest) ≠? expected_id)
        || existsb (λ requested_id, negb (existsb (λ binding,
               (cv_capability_id binding ≟ requested_id) && cv_enabled binding
               && cv_compatible binding) (mv_capability_bindings manifest))) requested)
        "investigation authority exceeds or corrupts the frozen manifest";
  Ok (MkRepairAuthority (mv_manifest_id manifest) (mv_manifest_hash manifest)
        (sort_by (id_cmp id) requested)).

Definition validate_provenance (value : BuildProvenanceV1) : result string () :=
  let invalid := "invalid build provenance" in
  _ ← fail_if (negb (valid_text (bpv_source_revision value) MAX_SHORT_TEXT_BYTES)
        || negb (is_canonical_sha256 (bpv_source_tree_hash value))
        || negb (is_canonical_sha256 (bpv_workspace_identity_hash value))
        || negb (is_canonical_sha256 (bpv_toolchain_hash value))
        || negb (is_canonical_sha256 (bpv_build_manifest_hash value))) invalid;
  differs ← hash_differs (build_provenance_hash_v1 value) "invalid provenance hash"
              (bpv_provenance_hash value);
  fail_if differs invalid.

Definition validate_evidence_disclosure (value : RepairEvidenceDisclosureV1)
    (evidence_required : bool) : result string () :=
  fail_if (negb match value with
    | EdEvidence summary artifacts =>
        valid_text summary MAX_SUMMARY_BYTES && negb (is_nil artifacts)
        && (len artifacts <=? MAX_EVIDENCE_ARTIFACTS)
        && forallb (λ a, is_ok (validate_artifact a)) artifacts
    | EdNoneDeclared explanation | EdNotPerformed explanation =>
        negb evidence_required && valid_text explanation MAX_SUMMARY_BYTES
    end) "required evidence disclosure is incomplete".

Definition validate_disclosure_items (value : DisclosureItemsV1) : result string () :=
  fail_if ((MAX_DISCLOSURE_ITEMS <? len (dis_items value))
    || Bool.eqb (dis_none_declared value) (negb (is_nil (dis_items value)))
    || contains_duplicate_ids (dsi_item_id <$> dis_items value)
    || existsb (λ item, negb (valid_text (dsi_label item) MAX_SHORT_TEXT_BYTES)
                        || negb (valid_text (dsi_detail item) MAX_SUMMARY_BYTES)) (dis_items value))
    "disclosure list must contain unique detailed items or explicitly declare none".

Definition validate_focused_verification_plan (value : FocusedVerificationPlanV1) :
    result string () :=
  let invalid := "invalid focused-verification plan" in
  _ ← fail_if (is_nil (fvp_checks value) || (MAX_VERIFICATION_CHECKS <? len (fvp_checks value))
        || contains_duplicate_ids (fvc_check_id <$> fvp_checks value)
        || existsb (λ check, negb (valid_text (fvc_label check) MAX_SHORT_TEXT_BYTES)
                             || (fvc_timeout_ms check =? 0)
                             || (MAX_PHASE_DEADLINE_MS <? fvc_timeout_ms check)) (fvp_checks value))
        invalid;
  differs ← hash_differs (focused_verification_plan_hash_v1 value) "invalid verification plan hash"
              (fvp_plan_hash value);
  fail_if differs invalid.

Definition validate_disclosure (value : RepairDisclosureV1) : result string () :=
  let invalid := "incomplete candidate disclosure" in
  _ ← fail_if (is_err (validate_evidence_disclosure (rds_source_diff value) true)
        || is_err (validate_evidence_disclosure (rds_configuration_diff value) false)
        || is_err (validate_evidence_disclosure (rds_tests value) true)
        || is_err (validate_evidence_disclosure (rds_benchmarks value) false)
        || is_err (validate_disclosure_items (rds_consequences value))
        || is_err (validate_disclosure_items (rds_removed_behaviors value))
        || is_err (validate_disclosure_items (rds_disabled_behaviors value))
        || is_err (validate_disclosure_items (rds_broadened_behaviors value))
        || is_err (validate_disclosure_items (rds_replaced_behaviors value))
        || is_err (validate_disclosure_items (rds_uncertainties value))
        || match rds_data_compatibility value with
           | DcDeferredUntilVerified explanation | DcForwardOnlyMigrationRequired explanation =>
               negb (valid_text explanation MAX_SUMMARY_BYTES)
           | DcRollbackCompatible => false
           end
        || is_err (validate_build_bundle (rds_rollback_point value))
        || is_err (validate_focused_verification_plan (rds_verification_plan value))) invalid;
  differs ← hash_differs (repair_disclosure_hash_v1 value) "invalid disclosure hash"
              (rds_disclosure_hash value);
  fail_if differs invalid.

Definition validate_candidate (value : RepairCandidateV1) : result string () :=
  let invalid := "invalid or incomplete repair candidate" in
  _ ← fail_if ((rcv_candidate_version value =? 0)
        || negb (valid_text (rcv_summary value) MAX_SUMMARY_BYTES)
        || is_err (validate_build_bundle (rcv_build_bundle value))
        || is_err (validate_provenance (rcv_provenance value))
        || negb (is_legacy_authority_hash (rcv_built_under_authority_manifest_hash value))
        || is_err (validate_disclosure (rcv_disclosure value))) invalid;
  differs ← hash_differs (repair_candidate_hash_v1 value) "invalid candidate hash"
              (rcv_candidate_hash value);
  fail_if differs invalid.

(** ** The bootstrap handoff *)

Definition valid_platform_reason (value : PlatformReasonV1) : bool :=
  valid_text (plr_code value) 128 && valid_text (plr_message value) MAX_SUMMARY_BYTES
  && negb (is_nil (plr_next_steps value)) && (len (plr_next_steps value) <=? 32)
  && forallb (λ step, valid_text step MAX_SUMMARY_BYTES) (plr_next_steps value).

Definition valid_build_origin (value : BuildOriginV1) : bool :=
  match value with
  | BoManagedLocal enrollment_digest active_slot_hash =>
      is_canonical_sha256 enrollment_digest && is_canonical_sha256 active_slot_hash
  | BoSourceCheckout projected_provenance_hash => is_canonical_sha256 projected_provenance_hash
  | BoPackagedDistribution owner => valid_text owner MAX_SUMMARY_BYTES
  | BoUnknown => true
  | BoConflicting detail | BoMismatched detail => valid_text detail MAX_SUMMARY_BYTES
  end.

Definition origin_matches (origin : BuildOriginV1) (eligibility : ActivationEligibilityV1) : bool :=
  match origin, eligibility with
  | BoManagedLocal _ _, AeSupportedManagedLocal
  | BoSourceCheckout _, AeEnrollmentRequired
  | BoPackagedDistribution _, AePackagedDistribution
  | BoUnknown, AeUnknownOrigin
  | BoConflicting _, AeConflictingOrigin
  | BoMismatched _, AeMismatchedEnrollment => true
  | _, _ => eligibility ≟ AeUnsupported
  end.

Definition validate_capability_report_shape (value : PlatformCapabilityReportV1) :
    result string () :=
  let invalid := "invalid activation capability report" in
  let valid_window := (0 <? pcr_valid_from_epoch_ms value)
    && (pcr_valid_from_epoch_ms value <? pcr_expires_at_epoch_ms value)
    && (pcr_expires_at_epoch_ms value - pcr_valid_from_epoch_ms value
          <=? MAX_CAPABILITY_REPORT_VALIDITY_MS) in
  let previous_valid := match pcr_previous_working_build value with
    | Some build => is_ok (validate_build_bundle build)
    | None => true
    end in
  _ ← fail_if ((pcr_schema_version value ≠? REPAIR_SCHEMA_VERSION_V1)
        || (pcr_candidate_version value =? 0) || (pcr_capability_generation value =? 0)
        || negb (is_canonical_sha256 (pcr_candidate_hash value))
        || negb (valid_platform_reason (pcr_reason value))
        || negb (valid_build_origin (pcr_build_origin value))
        || is_err (validate_build_bundle (pcr_current_build value))
        || negb previous_valid
        || ((pcr_eligibility value ≟ AeSupportedManagedLocal)
            && negb (is_some (pcr_previous_working_build value)))
        || negb valid_window
        || negb (origin_matches (pcr_build_origin value) (pcr_eligibility value))) invalid;
  differs ← hash_differs (capability_report_digest_v1 value) "invalid capability report digest"
              (pcr_capability_digest value);
  fail_if differs invalid.

Definition validate_capability_report_fresh (value : PlatformCapabilityReportV1)
    (now_epoch_ms : N) : result string () :=
  _ ← validate_capability_report_shape value;
  fail_if ((now_epoch_ms <? pcr_valid_from_epoch_ms value)
           || (pcr_expires_at_epoch_ms value <? now_epoch_ms))
    "activation capability report is stale".

Definition validate_enrollment_request (value : ManagedLocalEnrollmentRequestV1) :
    result string () :=
  fail_if ((mer_candidate_version value =? 0)
           || negb (is_canonical_sha256 (mer_candidate_hash value))
           || negb (is_canonical_sha256 (mer_projected_provenance_hash value))
           || negb (is_canonical_sha256 (mer_capability_digest value))
           || is_err (validate_build_bundle (mer_whole_bundle value)))
    "invalid managed-local enrollment request".

Definition validate_enrollment_prepared (value : EnrollmentPreparedV1) : result string () :=
  fail_if (negb (is_canonical_sha256 (enp_enrollment_digest value))
           || negb (valid_text (enp_stable_launcher value) MAX_SUMMARY_BYTES)
           || is_nil (enp_restart_instructions value)
           || (32 <? len (enp_restart_instructions value))
           || existsb (λ step, negb (valid_text step MAX_SUMMARY_BYTES))
                (enp_restart_instructions value))
    "invalid enrollment preparation response".

Definition validate_management_checkpoint (value : ManagementCheckpointRefV1) : result string () :=
  fail_if ((mck_committed_sequence value =? 0)
           || negb (is_canonical_sha256 (mck_snapshot_hash value))
           || negb (is_canonical_sha256 (mck_checkpoint_hash value)))
    "invalid Management checkpoint".

Definition validate_candidate_decision (value : RepairCandidateDecisionV1) : result string () :=
  fail_if ((rcd_candidate_version value =? 0)
           || negb (valid_text (rcd_reason value) MAX_SUMMARY_BYTES))
    "invalid candidate decision".

Definition deadline_values (value : BootstrapDeadlinesV1) : list N :=
  [bdl_admission_ms value; bdl_cleanup_ms value; bdl_startup_ms value;
   bdl_focused_verification_ms value; bdl_rollback_ms value; bdl_result_read_ms value].

(** [values.try_fold(0_u64, u64::checked_add)] *)
Fixpoint try_sum (total : N) (values : list N) : option N :=
  match values with
  | [] => Some total
  | value :: values =>
      match checked_add u64_max total value with
      | Some total => try_sum total values
      | None => None
      end
  end.

Definition total_deadline_ms (value : BootstrapDeadlinesV1) : option N :=
  try_sum 0 (deadline_values value).

Definition validate_bootstrap_deadlines (value : BootstrapDeadlinesV1) : result string () :=
  fail_if (existsb (λ v, (v =? 0) || (MAX_PHASE_DEADLINE_MS <? v)) (deadline_values value)
           || match try_sum 0 (deadline_values value) with
              | None => true
              | Some total => MAX_TOTAL_ACTIVATION_MS <? total
              end)
    "invalid bootstrap deadlines".

Definition validate_repair_activation_baton (value : RepairActivationBatonV1) : result string () :=
  let invalid := "invalid repair activation baton" in
  let next_generation := checked_add u64_max (bat_current_process_generation value) 1 in
  let rollback_generation := checked_add u64_max (bat_current_process_generation value) 2 in
  _ ← fail_if ((bat_schema_version value ≠? REPAIR_SCHEMA_VERSION_V1)
        || (bat_candidate_version value =? 0)
        || negb (is_canonical_sha256 (bat_candidate_hash value))
        || is_err (validate_build_bundle (bat_candidate_bundle value))
        || negb (is_canonical_sha256 (bat_disclosure_hash value))
        || negb (is_canonical_sha256 (bat_provenance_hash value))
        || negb (is_canonical_sha256 (bat_enrollment_digest value))
        || (bat_capability_generation value =? 0)
        || negb (is_canonical_sha256 (bat_capability_digest value))
        || is_err (validate_build_bundle (bat_previous_working_build value))
        || is_err (validate_management_checkpoint (bat_management_checkpoint value))
        || is_err (validate_focused_verification_plan (bat_verification_plan value))
        || (bat_current_process_generation value =? 0)
        || (next_generation ≠? Some (bat_candidate_process_generation value))
        || (rollback_generation ≠? Some (bat_rollback_process_generation value))
        || is_err (validate_bootstrap_deadlines (bat_deadlines value))
        || (bat_expires_at_epoch_ms value =? 0)) invalid;
  differs ← hash_differs (repair_activation_baton_hash_v1 value) "invalid baton hash"
              (bat_baton_hash value);
  fail_if differs invalid.

Definition validate_admission (value : BootstrapAcceptedAdmissionV1) : result string () :=
  let invalid := "invalid bootstrap admission" in
  _ ← fail_if (negb (is_canonical_sha256 (adm_baton_hash value))
        || (adm_candidate_process_generation value =? 0)
        || (adm_rollback_process_generation value =? 0)
        || (adm_candidate_process_generation value ≟ adm_rollback_process_generation value)) invalid;
  differs ← hash_differs (bootstrap_admission_hash_v1 value) "invalid admission hash"
              (adm_admission_hash value);
  fail_if differs invalid.

Definition validate_quiescence_facts (value : CoreQuiescenceFactsV1) : result string () :=
  let invalid := "invalid current-generation quiescence facts" in
  _ ← fail_if (cqf_process_generation value =? 0) invalid;
  differs ← hash_differs (core_quiescence_facts_hash_v1 value) "invalid quiescence facts hash"
              (cqf_facts_hash value);
  fail_if differs invalid.

Definition validate_focused_verification_evidence (value : FocusedVerificationEvidenceV1) :
    result string () :=
  let invalid := "invalid focused-verification evidence" in
  _ ← fail_if (negb (is_canonical_sha256 (fve_plan_hash value)) || is_nil (fve_results value)
        || (MAX_VERIFICATION_CHECKS <? len (fve_results value))
        || contains_duplicate_ids (fvr_check_id <$> fve_results value)
        || existsb (λ r, negb (valid_text (fvr_summary r) MAX_SUMMARY_BYTES)
                         || is_nil (fvr_evidence r)
                         || (MAX_EVIDENCE_ARTIFACTS <? len (fvr_evidence r))
                         || existsb (λ a, is_err (validate_artifact a)) (fvr_evidence r))
             (fve_results value)) invalid;
  differs ← hash_differs (focused_verification_evidence_hash_v1 value)
              "invalid verification evidence hash" (fve_evidence_hash value);
  fail_if differs invalid.

Definition validate_focused_evidence_against_plan (evidence : FocusedVerificationEvidenceV1)
    (plan : FocusedVerificationPlanV1) : result string () :=
  _ ← validate_focused_verification_evidence evidence;
  fail_if ((fve_plan_id evidence ≠? fvp_plan_id plan) || (fve_plan_hash evidence ≠? fvp_plan_hash plan)
    || negb (len (fve_results evidence) =? len (fvp_checks plan))
    || existsb (λ check, negb (existsb (λ r, fvr_check_id r ≟ fvc_check_id check)
                                 (fve_results evidence))) (fvp_checks plan))
    "verification evidence does not exactly cover the sealed plan".

Definition validate_bootstrap_result (value : BootstrapResultV1) : result string () :=
  let invalid := "invalid bootstrap result receipt" in
  let kind_valid := match bsr_result value with
    | BrUnsupported reason => valid_platform_reason reason
    | BrActivatedVerified evidence => is_ok (validate_focused_verification_evidence evidence)
    | BrRolledBack reason rollback_evidence =>
        valid_text reason MAX_SUMMARY_BYTES && negb (is_nil rollback_evidence)
        && (len rollback_evidence <=? MAX_EVIDENCE_ARTIFACTS)
        && forallb (λ a, is_ok (validate_artifact a)) rollback_evidence
    | BrManualRecoveryRequired _ observed_slot_state instructions =>
        valid_text observed_slot_state MAX_SUMMARY_BYTES && negb (is_nil instructions)
        && (len instructions <=? 32)
        && forallb (λ step, valid_text step MAX_SUMMARY_BYTES) instructions
    end in
  _ ← fail_if ((bsr_schema_version value ≠? REPAIR_SCHEMA_VERSION_V1)
        || negb (is_canonical_sha256 (bsr_baton_hash value))
        || (bsr_recipient_process_generation value =? 0) || (bsr_sealed_at_epoch_ms value =? 0)
        || negb kind_valid) invalid;
  differs ← hash_differs (bootstrap_result_hash_v1 value) "invalid receipt hash"
              (bsr_receipt_hash value);
  fail_if differs invalid.

Definition validate_authenticated_result (value : AuthenticatedBootstrapResultV1)
    (baton : RepairActivationBatonV1) (admission : option BootstrapAcceptedAdmissionV1) :
    result string () :=
  let receipt := abr_receipt value in
  let peer := abr_peer value in
  let unexpected := Err "bootstrap result status or recipient generation is unexpected" in
  _ ← validate_bootstrap_result receipt;
  _ ← fail_if (negb (bpp_same_user_authenticated peer)
        || (bpp_recipient_process_generation peer ≠? bsr_recipient_process_generation receipt)
        || negb (is_canonical_sha256 (bpp_ownership_hash peer))
        || negb (is_canonical_sha256 (bpp_channel_binding_hash peer))
        || (bsr_activation_id receipt ≠? bat_activation_id baton)
        || (bsr_baton_hash receipt ≠? bat_baton_hash baton)
        || (bsr_management_checkpoint_id receipt
              ≠? mck_checkpoint_id (bat_management_checkpoint baton))
        || (bat_expires_at_epoch_ms baton <? bsr_sealed_at_epoch_ms receipt))
        "bootstrap result authentication or baton binding failed";
  match bsr_result receipt, admission with
  | BrUnsupported _, None =>
      if bsr_recipient_process_generation receipt ≟ bat_current_process_generation baton
      then Ok () else unexpected
  | BrActivatedVerified evidence, Some admission =>
      if bsr_recipient_process_generation receipt ≟ adm_candidate_process_generation admission then
        _ ← validate_focused_evidence_against_plan evidence (bat_verification_plan baton);
        fail_if (negb (forallb fvr_passed (fve_results evidence)))
          "ActivatedVerified receipt contains a failed focused check"
      else unexpected
  | (BrRolledBack _ _ | BrManualRecoveryRequired _ _ _), Some admission =>
      if bsr_recipient_process_generation receipt ≟ adm_rollback_process_generation admission
      then Ok () else unexpected
  | _, _ => unexpected
  end.

Definition validate_result_fresh (value : AuthenticatedBootstrapResultV1)
    (baton : RepairActivationBatonV1) (now_epoch_ms : N) : result string () :=
  fail_if ((now_epoch_ms <? bsr_sealed_at_epoch_ms (abr_receipt value))
           || (bat_expires_at_epoch_ms baton <? now_epoch_ms))
    "bootstrap result is stale or from the future".

Definition validate_data_compatibility_for_activation (value : DataCompatibilityV1) :
    result string () :=
  match value with
  | DcRollbackCompatible => Ok ()
  | DcDeferredUntilVerified explanation =>
      if valid_text explanation MAX_SUMMARY_BYTES then Ok ()
      else Err "deferred data compatibility requires disclosure"
  | DcForwardOnlyMigrationRequired _ => Err "forward-only data changes cannot be activated"
  end.
End validation.
