(* ===== verification/RepairAggregate.v ===== *)
(** * The repair aggregate ([crates/aworkit-trusted-core/src/repair/aggregate.rs])

    The fold of one recurring-error group's event stream.  A handler takes the
    aggregate and returns the next one or the error; the code drops or clones
    the aggregate it was folding when a handler fails, so what the handler had
    assigned by then is not kept.  A [u64] is an [N] with its saturation
    written out. *)
From S2P Require Export RepairValidation.

Local Open Scope repair_scope.

Inductive RepairAggregateError : Type :=
| NonContiguousSequence
| GroupMismatch
| InvalidEvent (reason : string)
| IllegalTransition (reason : string).

Record RepairAggregateV1 : Type := MkAggregate {
  rag_group_id : StableId;
  rag_fingerprint : option string;
  rag_ledger_version : N;
  rag_phase : option RepairPhaseV1;
  rag_occurrences : list ErrorOccurrenceV1;
  rag_investigation : option RepairInvestigationV1;
  rag_candidates : list RepairCandidateV1;
  rag_candidate_execution_receipts : list AuthenticatedInvestigationExecutionReceiptV1;
  rag_latest_capability_report : option PlatformCapabilityReportV1;
  rag_enrollment_request : option ManagedLocalEnrollmentRequestV1;
  rag_enrollment_prepared : option EnrollmentPreparedV1;
  rag_candidate_decision : option RepairCandidateDecisionV1;
  rag_activation_decision : option RepairActivationDecisionV1;
  rag_management_checkpoint : option ManagementCheckpointRefV1;
  rag_activation_baton : option RepairActivationBatonV1;
  rag_bootstrap_admission : option BootstrapAcceptedAdmissionV1;
  rag_quiescence : option CoreQuiescenceFactsV1;
  rag_focused_verification : option FocusedVerificationEvidenceV1;
  rag_bootstrap_result : option AuthenticatedBootstrapResultV1;
  rag_regressions : list RepairRegressionV1
}.
#[export] Instance RepairAggregateV1_eq_dec : EqDecision RepairAggregateV1.
Proof. solve_decision. Defined.

(** Assignment to one field of the aggregate. *)
Definition set_fingerprint (v : option string) (a : RepairAggregateV1) : RepairAggregateV1 :=
  MkAggregate (rag_group_id a) v (rag_ledger_version a) (rag_phase a) (rag_occurrences a)
    (rag_investigation a) (rag_candidates a) (rag_candidate_execution_receipts a)
    (rag_latest_capability_report a) (rag_enrollment_request a) (rag_enrollment_prepared a)
    (rag_candidate_decision a) (rag_activation_decision a) (rag_management_checkpoint a)
    (rag_activation_baton a) (rag_bootstrap_admission a) (rag_quiescence a)
    (rag_focused_verification a) (rag_bootstrap_result a) (rag_regressions a).
Definition set_ledger_version (v : N) (a : RepairAggregateV1) : RepairAggregateV1 :=
  MkAggregate (rag_group_id a) (rag_fingerprint a) v (rag_phase a) (rag_occurrences a)
    (rag_investigation a) (rag_candidates a) (rag_candidate_execution_receipts a)
    (rag_latest_capability_report a) (rag_enrollment_request a) (rag_enrollment_prepared a)
    (rag_candidate_decision a) (rag_activation_decision a) (rag_management_checkpoint a)
    (rag_activation_baton a) (rag_bootstrap_admission a) (rag_quiescence a)
    (rag_focused_verification a) (rag_bootstrap_result a) (rag_regressions a).
Definition set_phase (v : option RepairPhaseV1) (a : RepairAggregateV1) : RepairAggregateV1 :=
  MkAggregate (rag_group_id a) (rag_fingerprint a) (rag_ledger_version a) v (rag_occurrences a)
    (rag_investigation a) (rag_candidates a) (rag_candidate_execution_receipts a)
    (rag_latest_capability_report a) (rag_enrollment_request a) (rag_enrollment_prepared a)
    (rag_candidate_decision a) (rag_activation_decision a) (rag_management_checkpoint a)
    (rag_activation_baton a) (rag_bootstrap_admission a) (rag_quiescence a)
    (rag_focused_verification a) (rag_bootstrap_result a) (rag_regressions a).
Definition set_occurrences (v : list ErrorOccurrenceV1) (a : RepairAggregateV1) : RepairAggregateV1 :=
  MkAggregate (rag_group_id a) (rag_fingerprint a) (rag_ledger_version a) (rag_phase a) v
    (rag_investigation a) (rag_candidates a) (rag_candidate_execution_receipts a)
    (rag_latest_capability_report a) (rag_enrollment_request a) (rag_enrollment_prepared a)
    (rag_candidate_decision a) (rag_activation_decision a) (rag_management_checkpoint a)
    (rag_activation_baton a) (rag_bootstrap_admission a) (rag_quiescence a)
    (rag_focused_verification a) (rag_bootstrap_result a) (rag_regressions a).
Definition set_investigation (v : option RepairInvestigationV1) (a : RepairAggregateV1) : RepairAggregateV1 :=
  MkAggregate (rag_group_id a) (rag_fingerprint a) (rag_ledger_version a) (rag_phase a)
    (rag_occurrences a) v (rag_candidates a) (rag_candidate_execution_receipts a)
    (rag_latest_capability_report a) (rag_enrollment_request a) (rag_enrollment_prepared a)
    (rag_candidate_decision a) (rag_activation_decision a) (rag_management_checkpoint a)
    (rag_activation_baton a) (rag_bootstrap_admission a) (rag_quiescence a)
    (rag_focused_verification a) (rag_bootstrap_result a) (rag_regressions a).
Definition set_candidates (v : list RepairCandidateV1) (a : RepairAggregateV1) : RepairAggregateV1 :=
  MkAggregate (rag_group_id a) (rag_fingerprint a) (rag_ledger_version a) (rag_phase a)
    (rag_occurrences a) (rag_investigation a) v (rag_candidate_execution_receipts a)
    (rag_latest_capability_report a) (rag_enrollment_request a) (rag_enrollment_prepared a)
    (rag_candidate_decision a) (rag_activation_decision a) (rag_management_checkpoint a)
    (rag_activation_baton a) (rag_bootstrap_admission a) (rag_quiescence a)
    (rag_focused_verification a) (rag_bootstrap_result a) (rag_regressions a).
Definition set_candidate_execution_receipts (v : list AuthenticatedInvestigationExecutionReceiptV1) (a : RepairAggregateV1) : RepairAggregateV1 :=
  MkAggregate (rag_group_id a) (rag_fingerprint a) (rag_ledger_version a) (rag_phase a)
    (rag_occurrences a) (rag_investigation a) (rag_candidates a) v (rag_latest_capability_report
    a) (rag_enrollment_request a) (rag_enrollment_prepared a) (rag_candidate_decision a)
    (rag_activation_decision a) (rag_management_checkpoint a) (rag_activation_baton a)
    (rag_bootstrap_admission a) (rag_quiescence a) (rag_focused_verification a)
    (rag_bootstrap_result a) (rag_regressions a).
Definition set_latest_capability_report (v : option PlatformCapabilityReportV1) (a : RepairAggregateV1) : RepairAggregateV1 :=
  MkAggregate (rag_group_id a) (rag_fingerprint a) (rag_ledger_version a) (rag_phase a)
    (rag_occurrences a) (rag_investigation a) (rag_candidates a)
    (rag_candidate_execution_receipts a) v (rag_enrollment_request a) (rag_enrollment_prepared
    a) (rag_candidate_decision a) (rag_activation_decision a) (rag_management_checkpoint a)
    (rag_activation_baton a) (rag_bootstrap_admission a) (rag_quiescence a)
    (rag_focused_verification a) (rag_bootstrap_result a) (rag_regressions a).
Definition set_enrollment_request (v : option ManagedLocalEnrollmentRequestV1) (a : RepairAggregateV1) : RepairAggregateV1 :=
  MkAggregate (rag_group_id a) (rag_fingerprint a) (rag_ledger_version a) (rag_phase a)
    (rag_occurrences a) (rag_investigation a) (rag_candidates a)
    (rag_candidate_execution_receipts a) (rag_latest_capability_report a) v
    (rag_enrollment_prepared a) (rag_candidate_decision a) (rag_activation_decision a)
    (rag_management_checkpoint a) (rag_activation_baton a) (rag_bootstrap_admission a)
    (rag_quiescence a) (rag_focused_verification a) (rag_bootstrap_result a) (rag_regressions
    a).
Definition set_enrollment_prepared (v : option EnrollmentPreparedV1) (a : RepairAggregateV1) : RepairAggregateV1 :=
  MkAggregate (rag_group_id a) (rag_fingerprint a) (rag_ledger_version a) (rag_phase a)
    (rag_occurrences a) (rag_investigation a) (rag_candidates a)
    (rag_candidate_execution_receipts a) (rag_latest_capability_report a)
    (rag_enrollment_request a) v (rag_candidate_decision a) (rag_activation_decision a)
    (rag_management_checkpoint a) (rag_activation_baton a) (rag_bootstrap_admission a)
    (rag_quiescence a) (rag_focused_verification a) (rag_bootstrap_result a) (rag_regressions
    a).
Definition set_candidate_decision (v : option RepairCandidateDecisionV1) (a : RepairAggregateV1) : RepairAggregateV1 :=
  MkAggregate (rag_group_id a) (rag_fingerprint a) (rag_ledger_version a) (rag_phase a)
    (rag_occurrences a) (rag_investigation a) (rag_candidates a)
    (rag_candidate_execution_receipts a) (rag_latest_capability_report a)
    (rag_enrollment_request a) (rag_enrollment_prepared a) v (rag_activation_decision a)
    (rag_management_checkpoint a) (rag_activation_baton a) (rag_bootstrap_admission a)
    (rag_quiescence a) (rag_focused_verification a) (rag_bootstrap_result a) (rag_regressions
    a).
Definition set_activation_decision (v : option RepairActivationDecisionV1) (a : RepairAggregateV1) : RepairAggregateV1 :=
  MkAggregate (rag_group_id a) (rag_fingerprint a) (rag_ledger_version a) (rag_phase a)
    (rag_occurrences a) (rag_investigation a) (rag_candidates a)
    (rag_candidate_execution_receipts a) (rag_latest_capability_report a)
    (rag_enrollment_request a) (rag_enrollment_prepared a) (rag_candidate_decision a) v
    (rag_management_checkpoint a) (rag_activation_baton a) (rag_bootstrap_admission a)
    (rag_quiescence a) (rag_focused_verification a) (rag_bootstrap_result a) (rag_regressions
    a).
Definition set_management_checkpoint (v : option ManagementCheckpointRefV1) (a : RepairAggregateV1) : RepairAggregateV1 :=
  MkAggregate (rag_group_id a) (rag_fingerprint a) (rag_ledger_version a) (rag_phase a)
    (rag_occurrences a) (rag_investigation a) (rag_candidates a)
    (rag_candidate_execution_receipts a) (rag_latest_capability_report a)
    (rag_enrollment_request a) (rag_enrollment_prepared a) (rag_candidate_decision a)
    (rag_activation_decision a) v (rag_activation_baton a) (rag_bootstrap_admission a)
    (rag_quiescence a) (rag_focused_verification a) (rag_bootstrap_result a) (rag_regressions
    a).
Definition set_activation_baton (v : option RepairActivationBatonV1) (a : RepairAggregateV1) : RepairAggregateV1 :=
  MkAggregate (rag_group_id a) (rag_fingerprint a) (rag_ledger_version a) (rag_phase a)
    (rag_occurrences a) (rag_investigation a) (rag_candidates a)
    (rag_candidate_execution_receipts a) (rag_latest_capability_report a)
    (rag_enrollment_request a) (rag_enrollment_prepared a) (rag_candidate_decision a)
    (rag_activation_decision a) (rag_management_checkpoint a) v (rag_bootstrap_admission a)
    (rag_quiescence a) (rag_focused_verification a) (rag_bootstrap_result a) (rag_regressions
    a).
Definition set_bootstrap_admission (v : option BootstrapAcceptedAdmissionV1) (a : RepairAggregateV1) : RepairAggregateV1 :=
  MkAggregate (rag_group_id a) (rag_fingerprint a) (rag_ledger_version a) (rag_phase a)
    (rag_occurrences a) (rag_investigation a) (rag_candidates a)
    (rag_candidate_execution_receipts a) (rag_latest_capability_report a)
    (rag_enrollment_request a) (rag_enrollment_prepared a) (rag_candidate_decision a)
    (rag_activation_decision a) (rag_management_checkpoint a) (rag_activation_baton a) v
    (rag_quiescence a) (rag_focused_verification a) (rag_bootstrap_result a) (rag_regressions
    a).
Definition set_quiescence (v : option CoreQuiescenceFactsV1) (a : RepairAggregateV1) : RepairAggregateV1 :=
  MkAggregate (rag_group_id a) (rag_fingerprint a) (rag_ledger_version a) (rag_phase a)
    (rag_occurrences a) (rag_investigation a) (rag_candidates a)
    (rag_candidate_execution_receipts a) (rag_latest_capability_report a)
    (rag_enrollment_request a) (rag_enrollment_prepared a) (rag_candidate_decision a)
    (rag_activation_decision a) (rag_management_checkpoint a) (rag_activation_baton a)
    (rag_bootstrap_admission a) v (rag_focused_verification a) (rag_bootstrap_result a)
    (rag_regressions a).
Definition set_focused_verification (v : option FocusedVerificationEvidenceV1) (a : RepairAggregateV1) : RepairAggregateV1 :=
  MkAggregate (rag_group_id a) (rag_fingerprint a) (rag_ledger_version a) (rag_phase a)
    (rag_occurrences a) (rag_investigation a) (rag_candidates a)
    (rag_candidate_execution_receipts a) (rag_latest_capability_report a)
    (rag_enrollment_request a) (rag_enrollment_prepared a) (rag_candidate_decision a)
    (rag_activation_decision a) (rag_management_checkpoint a) (rag_activation_baton a)
    (rag_bootstrap_admission a) (rag_quiescence a) v (rag_bootstrap_result a) (rag_regressions
    a).
Definition set_bootstrap_result (v : option AuthenticatedBootstrapResultV1) (a : RepairAggregateV1) : RepairAggregateV1 :=
  MkAggregate (rag_group_id a) (rag_fingerprint a) (rag_ledger_version a) (rag_phase a)
    (rag_occurrences a) (rag_investigation a) (rag_candidates a)
    (rag_candidate_execution_receipts a) (rag_latest_capability_report a)
    (rag_enrollment_request a) (rag_enrollment_prepared a) (rag_candidate_decision a)
    (rag_activation_decision a) (rag_management_checkpoint a) (rag_activation_baton a)
    (rag_bootstrap_admission a) (rag_quiescence a) (rag_focused_verification a) v
    (rag_regressions a).
Definition set_regressions (v : list RepairRegressionV1) (a : RepairAggregateV1) : RepairAggregateV1 :=
  MkAggregate (rag_group_id a) (rag_fingerprint a) (rag_ledger_version a) (rag_phase a)
    (rag_occurrences a) (rag_investigation a) (rag_candidates a)
    (rag_candidate_execution_receipts a) (rag_latest_capability_report a)
    (rag_enrollment_request a) (rag_enrollment_prepared a) (rag_candidate_decision a)
    (rag_activation_decision a) (rag_management_checkpoint a) (rag_activation_baton a)
    (rag_bootstrap_admission a) (rag_quiescence a) (rag_focused_verification a)
    (rag_bootstrap_result a) v.


(** [self.a = x; self.b = y; ...] *)
Notation "a |> f" := (f a) (at level 64, left associativity, only parsing) : repair_scope.

Definition empty_aggregate (group_id : StableId) : RepairAggregateV1 :=
  MkAggregate group_id None 0 None [] None [] [] None None None None None None None None None None
    None [].

Definition active_candidate (self : RepairAggregateV1) : option RepairCandidateV1 :=
  last (rag_candidates self).

Definition candidate_exact (self : RepairAggregateV1) (candidate_id : StableId) (version : N) :
    option RepairCandidateV1 :=
  find (λ c, (rcv_candidate_id c ≟ candidate_id) && (rcv_candidate_version c =? version))
    (rag_candidates self).

Definition is_unsupported (result : AuthenticatedBootstrapResultV1) : bool :=
  match bsr_result (abr_receipt result) with BrUnsupported _ => true | _ => false end.
Definition is_activated (result : AuthenticatedBootstrapResultV1) : bool :=
  match bsr_result (abr_receipt result) with BrActivatedVerified _ => true | _ => false end.

(** [self.bootstrap_result.as_ref().is_some_and(... Unsupported ...)] *)
Definition prior_activation_was_unsupported (self : RepairAggregateV1) : bool :=
  match rag_bootstrap_result self with Some result => is_unsupported result | None => false end.

Definition verified_build (self : RepairAggregateV1) :
    option (RepairCandidateV1 * AuthenticatedBootstrapResultV1) :=
  result ← rag_bootstrap_result self;
  if negb (is_activated result) then None else
  candidate ← active_candidate self;
  Some (candidate, result).

Definition previous_working_build (self : RepairAggregateV1) : option BuildBundleRefV1 :=
  report ← rag_latest_capability_report self; pcr_previous_working_build report.

Definition enrollment_pending (self : RepairAggregateV1) : bool :=
  is_some (rag_enrollment_request self) && negb (is_some (rag_enrollment_prepared self)).

(** The version [max_by_key] finds among the stored versions of a candidate. *)
Definition latest_version (self : RepairAggregateV1) (candidate_id : StableId) : option N :=
  foldl (λ best c, match best with
                   | Some v => Some (if v <=? rcv_candidate_version c then rcv_candidate_version c
                                     else v)
                   | None => Some (rcv_candidate_version c)
                   end) None
    (filter (λ c, rcv_candidate_id c = candidate_id) (rag_candidates self)).

(** [option.ok_or(IllegalTransition(reason))?] and a guard that refuses. *)
Abbreviation present o reason := (ok_or o (IllegalTransition reason)).
Abbreviation refuse_if b reason := (fail_if b (IllegalTransition reason)).
Abbreviation valid_event r := (map_err InvalidEvent r).

Definition preserve_phase (phase : option RepairPhaseV1) : bool :=
  match phase with
  | Some (RpInvestigating | RpEnrollmentPending | RpActivationPrepared
         | RpAwaitingBootstrapResult | RpVerificationSubmitted) => true
  | _ => false
  end.

Section aggregate.
Context `{Sha256, RepairSerialize}.

Definition record_failure (self : RepairAggregateV1) (occurrence : ErrorOccurrenceV1) :
    result RepairAggregateError RepairAggregateV1 :=
  let preserve_active_phase := preserve_phase (rag_phase self) in
  _ ← valid_event (validate_occurrence occurrence);
  resolved_group ← map_err (λ _, InvalidEvent "invalid recurring-error fingerprint")
    (repair_group_id_for_fingerprint_v1 (eoc_fingerprint occurrence));
  _ ← refuse_if (resolved_group ≠? rag_group_id self)
        "recurring-error group is not the stable fingerprint resolution";
  _ ← refuse_if (existsb (λ seen, eoc_occurrence_id seen ≟ eoc_occurrence_id occurrence)
                   (rag_occurrences self)) "duplicate occurrence id";
  _ ← refuse_if (match rag_fingerprint self with
                 | Some fingerprint => fingerprint ≠? eoc_fingerprint occurrence
                 | None => false
                 end) "fingerprint changed within group";
  let self := match rag_fingerprint self with
    | Some _ => self
    | None => set_fingerprint (Some (eoc_fingerprint occurrence)) self
    end in
  let self := set_occurrences (rag_occurrences self ++ [occurrence]) self in
  Ok (if preserve_active_phase then self else set_phase (Some RpObserved) self).

Definition start_investigation (self : RepairAggregateV1) (investigation : RepairInvestigationV1) :
    result RepairAggregateError RepairAggregateV1 :=
  _ ← valid_event (validate_investigation investigation);
  _ ← refuse_if (negb (is_some (rag_fingerprint self))
                 || (riv_group_id investigation ≠? rag_group_id self))
        "investigation has no matching recurring-error group";
  _ ← refuse_if (match rag_phase self with
                 | Some (RpInvestigating | RpActivationPrepared | RpAwaitingBootstrapResult
                        | RpVerificationSubmitted) => true
                 | _ => false
                 end
                 || (is_some (rag_activation_baton self) && negb (is_some (rag_bootstrap_result self)))
                 || enrollment_pending self)
        "another investigation or activation is active";
  Ok (set_latest_capability_report None self |> set_enrollment_request None
      |> set_enrollment_prepared None |> set_candidate_decision None
      |> set_activation_decision None |> set_management_checkpoint None
      |> set_activation_baton None |> set_bootstrap_admission None |> set_quiescence None
      |> set_focused_verification None |> set_bootstrap_result None
      |> set_investigation (Some investigation) |> set_phase (Some RpInvestigating)).

Definition register_candidate (self : RepairAggregateV1) (candidate : RepairCandidateV1)
    (execution_receipt : AuthenticatedInvestigationExecutionReceiptV1) :
    result RepairAggregateError RepairAggregateV1 :=
  _ ← valid_event (validate_candidate candidate);
  _ ← refuse_if (is_some (rag_enrollment_request self) || is_some (rag_activation_baton self))
        "candidate cannot replace an active or completed handoff";
  investigation ← present (rag_investigation self) "candidate has no explicit investigation";
  _ ← valid_event (validate_authenticated_investigation_execution execution_receipt investigation
                     candidate);
  _ ← refuse_if ((rcv_group_id candidate ≠? rag_group_id self)
                 || (rcv_built_under_authority_manifest_hash candidate
                       ≠? fra_authority_manifest_hash (riv_authority investigation))
                 || uncovered_check (fra_capability_ids (riv_authority investigation)) candidate)
        "candidate is not bound to this investigation authority";
  _ ← match latest_version self (rcv_candidate_id candidate) with
      | Some previous =>
          refuse_if (rcv_candidate_version candidate ≠? saturating_add u64_max previous 1)
            "candidate version is not contiguous"
      | None => refuse_if (rcv_candidate_version candidate ≠? 1)
                  "first candidate version must be one"
      end;
  Ok (set_candidates (rag_candidates self ++ [candidate]) self
      |> set_candidate_execution_receipts
           (rag_candidate_execution_receipts self ++ [execution_receipt])
      |> set_latest_capability_report None |> set_enrollment_request None
      |> set_enrollment_prepared None |> set_candidate_decision None
      |> set_phase (Some RpCandidateReady)).

Definition record_capability (self : RepairAggregateV1) (queried_at_epoch_ms : N)
    (report : PlatformCapabilityReportV1) : result RepairAggregateError RepairAggregateV1 :=
  _ ← valid_event (validate_capability_report_shape report);
  _ ← valid_event (validate_capability_report_fresh report queried_at_epoch_ms);
  _ ← refuse_if (is_some (rag_activation_baton self)
                 && negb (prior_activation_was_unsupported self))
        "capability report cannot replace an active or completed handoff report";
  _ ← refuse_if (match rag_latest_capability_report self with
                 | Some previous =>
                     (pcr_capability_generation report <? pcr_capability_generation previous)
                     || ((pcr_capability_generation report =? pcr_capability_generation previous)
                         && (report ≠? previous))
                 | None => false
                 end) "capability generation regressed or changed without advancing";
  candidate ← present (active_candidate self) "capability report has no candidate";
  _ ← refuse_if ((pcr_candidate_id report ≠? rcv_candidate_id candidate)
                 || (pcr_candidate_version report ≠? rcv_candidate_version candidate)
                 || (pcr_candidate_hash report ≠? rcv_candidate_hash candidate))
        "capability report is bound to another candidate";
  Ok (set_latest_capability_report (Some report) self).

Definition request_enrollment (self : RepairAggregateV1) (requested_at_epoch_ms : N)
    (request : ManagedLocalEnrollmentRequestV1) : result RepairAggregateError RepairAggregateV1 :=
  _ ← valid_event (validate_enrollment_request request);
  report ← present (rag_latest_capability_report self) "enrollment has no capability report";
  _ ← valid_event (validate_capability_report_fresh report requested_at_epoch_ms);
  candidate ← present (active_candidate self) "enrollment has no candidate";
  let projected_origin_matches := match pcr_build_origin report with
    | BoSourceCheckout projected => projected ≟ mer_projected_provenance_hash request
    | _ => false
    end in
  _ ← refuse_if ((pcr_eligibility report ≠? AeEnrollmentRequired)
                 || (mer_group_id request ≠? rag_group_id self)
                 || (mer_candidate_id request ≠? pcr_candidate_id report)
                 || (mer_candidate_version request ≠? pcr_candidate_version report)
                 || (mer_candidate_hash request ≠? pcr_candidate_hash report)
                 || (mer_capability_report_id request ≠? pcr_report_id report)
                 || (mer_capability_digest request ≠? pcr_capability_digest report)
                 || (mer_projected_provenance_hash request
                       ≠? bpv_provenance_hash (rcv_provenance candidate))
                 || (mer_whole_bundle request ≠? rcv_build_bundle candidate)
                 || negb projected_origin_matches)
        "enrollment request does not match an EnrollmentRequired report";
  _ ← refuse_if (is_some (rag_activation_baton self) || is_some (rag_enrollment_request self))
        "enrollment or activation is already active";
  Ok (set_enrollment_request (Some request) self |> set_phase (Some RpEnrollmentPending)).

Definition prepare_enrollment (self : RepairAggregateV1) (prepared : EnrollmentPreparedV1) :
    result RepairAggregateError RepairAggregateV1 :=
  _ ← valid_event (validate_enrollment_prepared prepared);
  request ← present (rag_enrollment_request self) "enrollment was not requested";
  _ ← refuse_if (enp_request_id prepared ≠? mer_request_id request)
        "enrollment response request id mismatch";
  _ ← refuse_if (is_some (rag_enrollment_prepared self)) "enrollment preparation is immutable";
  Ok (set_enrollment_prepared (Some prepared) self |> set_phase (Some RpEnrollmentPrepared)).

Definition decide_candidate (self : RepairAggregateV1) (decision : RepairCandidateDecisionV1) :
    result RepairAggregateError RepairAggregateV1 :=
  _ ← valid_event (validate_candidate_decision decision);
  _ ← refuse_if (negb (is_some (candidate_exact self (rcd_candidate_id decision)
                                  (rcd_candidate_version decision))))
        "candidate decision references an unknown version";
  _ ← refuse_if (is_some (rag_activation_baton self))
        "candidate cannot be rejected after activation preparation";
  Ok (set_candidate_decision (Some decision) self |> set_phase (Some RpCandidateRejected)).

Definition prepare_activation (self : RepairAggregateV1) (decision : RepairActivationDecisionV1)
    (checkpoint : ManagementCheckpointRefV1) (baton : RepairActivationBatonV1) :
    result RepairAggregateError RepairAggregateV1 :=
  _ ← valid_event (validate_management_checkpoint checkpoint);
  _ ← valid_event (validate_repair_activation_baton baton);
  _ ← refuse_if ((is_some (rag_activation_baton self)
                  && negb (prior_activation_was_unsupported self))
                 || enrollment_pending self) "enrollment or activation is already active";
  candidate ← present (candidate_exact self (rad_candidate_id decision)
                         (rad_expected_candidate_version decision))
    "activation candidate version is missing";
  report ← present (rag_latest_capability_report self) "activation capability is missing";
  investigation ← present (rag_investigation self) "activation investigation is missing";
  let expected_expiry :=
    deadline ← total_deadline_ms (bat_deadlines baton);
    checked_add u64_max (rad_decided_at_epoch_ms decision) deadline in
  let managed_enrollment_digest := match pcr_build_origin report with
    | BoManagedLocal enrollment_digest _ => Some enrollment_digest
    | _ => None
    end in
  let previous_working_build := pcr_previous_working_build report in
  _ ← refuse_if ((rad_expected_candidate_hash decision ≠? rcv_candidate_hash candidate)
        || (rad_expected_capability_report_id decision ≠? pcr_report_id report)
        || (rad_expected_capability_digest decision ≠? pcr_capability_digest report)
        || (pcr_eligibility report ≠? AeSupportedManagedLocal)
        || (rad_decided_at_epoch_ms decision <? pcr_valid_from_epoch_ms report)
        || (pcr_expires_at_epoch_ms report <? rad_decided_at_epoch_ms decision)
        || (mck_chat_id checkpoint ≠? riv_management_chat_id investigation)
        || (mck_run_id checkpoint ≠? riv_management_run_id investigation)
        || (bat_activation_id baton ≠? rad_activation_id decision)
        || (bat_group_id baton ≠? rag_group_id self)
        || (bat_candidate_id baton ≠? rcv_candidate_id candidate)
        || (bat_candidate_version baton ≠? rcv_candidate_version candidate)
        || (bat_candidate_hash baton ≠? rcv_candidate_hash candidate)
        || (bat_candidate_bundle baton ≠? rcv_build_bundle candidate)
        || (bat_disclosure_hash baton ≠? rds_disclosure_hash (rcv_disclosure candidate))
        || (bat_provenance_hash baton ≠? bpv_provenance_hash (rcv_provenance candidate))
        || (managed_enrollment_digest ≠? Some (bat_enrollment_digest baton))
        || (bat_capability_report_id baton ≠? pcr_report_id report)
        || (bat_capability_generation baton ≠? pcr_capability_generation report)
        || (bat_capability_digest baton ≠? pcr_capability_digest report)
        || (previous_working_build ≠? Some (bat_previous_working_build baton))
        || (bat_previous_working_build baton ≠? rds_rollback_point (rcv_disclosure candidate))
        || (bat_management_checkpoint baton ≠? checkpoint)
        || (bat_verification_plan baton ≠? rds_verification_plan (rcv_disclosure candidate))
        || (expected_expiry ≠? Some (bat_expires_at_epoch_ms baton)))
        "activation decision, checkpoint, candidate, report, or baton mismatch";
  Ok (set_activation_decision (Some decision) self
      |> set_management_checkpoint (Some checkpoint) |> set_activation_baton (Some baton)
      |> set_bootstrap_admission None |> set_quiescence None |> set_focused_verification None
      |> set_bootstrap_result None |> set_phase (Some RpActivationPrepared)).

Definition accept_bootstrap_admission (self : RepairAggregateV1)
    (admission : BootstrapAcceptedAdmissionV1) : result RepairAggregateError RepairAggregateV1 :=
  _ ← valid_event (validate_admission admission);
  baton ← present (rag_activation_baton self) "bootstrap admission has no baton";
  _ ← refuse_if ((adm_activation_id admission ≠? bat_activation_id baton)
        || (adm_baton_hash admission ≠? bat_baton_hash baton)
        || (adm_candidate_process_generation admission ≠? bat_candidate_process_generation baton)
        || (adm_rollback_process_generation admission ≠? bat_rollback_process_generation baton)
        || is_some (rag_bootstrap_admission self))
        "bootstrap admission does not match the baton";
  Ok (set_bootstrap_admission (Some admission) self
      |> set_phase (Some RpAwaitingBootstrapResult)).

Definition record_quiescence (self : RepairAggregateV1) (facts : CoreQuiescenceFactsV1) :
    result RepairAggregateError RepairAggregateV1 :=
  _ ← valid_event (validate_quiescence_facts facts);
  _ ← fail_if (cqf_timed_out facts || cqf_orphan_risk facts)
        (InvalidEvent "unsafe quiescence facts cannot be committed");
  baton ← present (rag_activation_baton self) "quiescence has no activation baton";
  _ ← refuse_if (negb (is_some (rag_bootstrap_admission self)) || is_some (rag_quiescence self)
        || (cqf_activation_id facts ≠? bat_activation_id baton)
        || (cqf_process_generation facts ≠? bat_current_process_generation baton))
        "quiescence happened before matching helper admission";
  Ok (set_quiescence (Some facts) self).

Definition record_focused_verification (self : RepairAggregateV1) (activation_id : StableId)
    (process_generation : ProcessGeneration) (evidence : FocusedVerificationEvidenceV1) :
    result RepairAggregateError RepairAggregateV1 :=
  baton ← present (rag_activation_baton self) "verification has no activation baton";
  _ ← valid_event (validate_focused_evidence_against_plan evidence (bat_verification_plan baton));
  _ ← refuse_if (is_some (rag_bootstrap_result self))
        "verification cannot be submitted after a terminal bootstrap result";
  _ ← refuse_if ((activation_id ≠? bat_activation_id baton)
        || (process_generation ≠? bat_candidate_process_generation baton)
        || (fve_plan_id evidence ≠? fvp_plan_id (bat_verification_plan baton))
        || (fve_plan_hash evidence ≠? fvp_plan_hash (bat_verification_plan baton))
        || negb (is_some (rag_bootstrap_admission self)) || negb (is_some (rag_quiescence self)))
        "verification does not match the baton plan";
  _ ← refuse_if (is_some (rag_focused_verification self))
        "focused-verification evidence is immutable";
  Ok (set_focused_verification (Some evidence) self |> set_phase (Some RpVerificationSubmitted)).

Definition result_phase (result : AuthenticatedBootstrapResultV1) : RepairPhaseV1 :=
  match bsr_result (abr_receipt result) with
  | BrUnsupported _ => RpCandidateReady
  | BrActivatedVerified _ => RpVerified
  | BrRolledBack _ _ => RpRolledBack
  | BrManualRecoveryRequired _ _ _ => RpManualRecoveryRequired
  end.

Definition fold_bootstrap_result (self : RepairAggregateV1) (reconciled_at_epoch_ms : N)
    (result : AuthenticatedBootstrapResultV1) :
    Prelude.result RepairAggregateError RepairAggregateV1 :=
  baton ← present (rag_activation_baton self) "bootstrap result has no activation baton";
  _ ← valid_event (validate_authenticated_result result baton (rag_bootstrap_admission self));
  _ ← valid_event (validate_result_fresh result baton reconciled_at_epoch_ms);
  _ ← refuse_if (is_some (rag_bootstrap_result self)) "a bootstrap result was already reconciled";
  _ ← refuse_if (negb (is_unsupported result) && negb (is_some (rag_quiescence self)))
        "bootstrap result has no committed safe quiescence handoff";
  _ ← refuse_if (match bsr_result (abr_receipt result) with
                 | BrActivatedVerified evidence => rag_focused_verification self ≠? Some evidence
                 | _ => false
                 end) "activated receipt lacks the previously submitted focused verification";
  Ok (set_phase (Some (result_phase result)) self |> set_bootstrap_result (Some result)).

Definition record_regression (self : RepairAggregateV1) (regression : RepairRegressionV1) :
    result RepairAggregateError RepairAggregateV1 :=
  verified ← present (verified_build self) "regression has no verified repair";
  _ ← refuse_if ((rrg_repaired_candidate_id regression ≠? rcv_candidate_id verified.1)
        || (rrg_repaired_receipt_id regression ≠? bsr_receipt_id (abr_receipt verified.2))
        || negb (existsb (λ o, eoc_occurrence_id o ≟ rrg_occurrence_id regression)
                   (rag_occurrences self))
        || existsb (λ seen, rrg_regression_id seen ≟ rrg_regression_id regression)
             (rag_regressions self))
        "regression references do not match verified evidence";
  Ok (set_regressions (rag_regressions self ++ [regression]) self
      |> set_phase (Some RpRegression)).

Definition apply_repair_event (self : RepairAggregateV1) (event : RepairEventV1) :
    result RepairAggregateError RepairAggregateV1 :=
  match event with
  | FailureRecorded occurrence => record_failure self occurrence
  | InvestigationStarted investigation => start_investigation self investigation
  | CandidateRegistered candidate receipt => register_candidate self candidate receipt
  | CapabilityReported queried_at report => record_capability self queried_at report
  | EnrollmentRequested requested_at request => request_enrollment self requested_at request
  | EnrollmentPrepared prepared => prepare_enrollment self prepared
  | CandidateDecided decision => decide_candidate self decision
  | ActivationPrepared decision checkpoint baton =>
      prepare_activation self decision checkpoint baton
  | BootstrapAdmissionAccepted admission => accept_bootstrap_admission self admission
  | CoreQuiesced facts => record_quiescence self facts
  | FocusedVerificationSubmitted activation_id process_generation evidence =>
      record_focused_verification self activation_id process_generation evidence
  | BootstrapResultReconciled reconciled_at result =>
      fold_bootstrap_result self reconciled_at result
  | RegressionRecorded regression => record_regression self regression
  end.

(** One turn of the loop of [preview]. *)
Definition preview_event (self : RepairAggregateV1) (event : RepairEventV1) :
    result RepairAggregateError RepairAggregateV1 :=
  self ← apply_repair_event self event;
  Ok (set_ledger_version (saturating_add u64_max (rag_ledger_version self) 1) self).
Definition preview (self : RepairAggregateV1) (events : list RepairEventV1) :
    result RepairAggregateError RepairAggregateV1 :=
  fold_res preview_event self events.

(** One turn of the loop of [rehydrate]. *)
Definition fold_committed (self : RepairAggregateV1) (committed : CommittedRepairEventV1) :
    result RepairAggregateError RepairAggregateV1 :=
  let expected := saturating_add u64_max (rag_ledger_version self) 1 in
  _ ← fail_if (cre_ledger_sequence committed ≠? expected) NonContiguousSequence;
  _ ← fail_if (cre_group_id committed ≠? rag_group_id self) GroupMismatch;
  self ← apply_repair_event self (cre_event committed);
  Ok (set_ledger_version (cre_ledger_sequence committed) self).
Definition rehydrate_repair (group_id : StableId) (events : list CommittedRepairEventV1) :
    result RepairAggregateError RepairAggregateV1 :=
  fold_res fold_committed (empty_aggregate group_id) events.
End aggregate.
