(* ===== verification/RepairProofs.v ===== *)
(** * What the repair ledger guarantees

    Facts about the fold of [RepairAggregate]: what each event required of the
    aggregate, the invariant of every aggregate a stream folds to, and the
    theorems on the activation handoff that follow from it. *)
From S2P Require Export RepairAggregate.

Local Open Scope repair_scope.

Lemma is_some_true {A} (o : option A) : is_some o = true ↔ ∃ x, o = Some x.
Proof. destruct o; naive_solver. Qed.
Lemma is_some_false {A} (o : option A) : is_some o = false ↔ o = None.
Proof. destruct o; naive_solver. Qed.
Lemma guard_open {A} (o : option A) b : is_some o && negb b = false ↔ o = None ∨ b = true.
Proof. destruct o, b; naive_solver. Qed.
Lemma existsb_false_Forall {A} (f : A → bool) l : existsb f l = false ↔ Forall (λ x, f x = false) l.
Proof.
  induction l as [|x l IH]; simpl; [split; [constructor|done]|].
  rewrite orb_false_iff, Forall_cons, IH. done.
Qed.
Lemma existsb_true_Exists {A} (f : A → bool) l : existsb f l = true ↔ Exists (λ x, f x = true) l.
Proof.
  induction l as [|x l IH]; simpl; [split; [done|by intros ?%Exists_nil]|].
  rewrite orb_true_iff, Exists_cons, IH. done.
Qed.

(** Inversion of a handler that succeeded: its guards as propositions. *)
Ltac handler_inv H :=
  res_inv H; repeat match goal with x : () |- _ => destruct x end;
  repeat match goal with E : fail_if _ _ = Ok _ |- _ => apply fail_if_ok in E end; boolify;
  repeat match goal with
  | E : existsb _ _ = false |- _ => apply existsb_false_Forall in E
  | E : existsb _ _ = true |- _ => apply existsb_true_Exists in E
  | E : is_some _ = true |- _ => apply is_some_true in E as [? E]
  | E : is_some _ = false |- _ => apply is_some_false in E
  | E : is_some _ && negb _ = false |- _ => apply guard_open in E
  end; simplify_eq/=.

Lemma hash_differs_ok h unsealed field : hash_differs h unsealed field = Ok false ↔ h = Ok field.
Proof.
  unfold hash_differs. destruct h as [h|e]; simpl; [|done].
  split; [intros [= E]|intros [= ->]]; [boolify; congruence|].
  by rewrite bool_decide_eq_true_2.
Qed.

Section proofs.
Context `{Sha256, RepairSerialize}.
Implicit Types a : RepairAggregateV1.

(** ** What each event required *)

Definition admission_binds (adm : BootstrapAcceptedAdmissionV1) (b : RepairActivationBatonV1) :
    Prop :=
  adm_activation_id adm = bat_activation_id b ∧ adm_baton_hash adm = bat_baton_hash b
  ∧ adm_candidate_process_generation adm = bat_candidate_process_generation b
  ∧ adm_rollback_process_generation adm = bat_rollback_process_generation b.

Definition quiescence_safe (f : CoreQuiescenceFactsV1) (b : RepairActivationBatonV1) : Prop :=
  cqf_timed_out f = false ∧ cqf_orphan_risk f = false
  ∧ cqf_activation_id f = bat_activation_id b
  ∧ cqf_process_generation f = bat_current_process_generation b.

(** The candidate, report and baton an activation decision ties together. *)
Record baton_binds (group : StableId) (d : RepairActivationDecisionV1)
    (ck : ManagementCheckpointRefV1) (b : RepairActivationBatonV1) (c : RepairCandidateV1)
    (rep : PlatformCapabilityReportV1) (i : RepairInvestigationV1) : Prop := {
  bb_valid : validate_repair_activation_baton b = Ok ();
  bb_checkpoint : validate_management_checkpoint ck = Ok () ∧ bat_management_checkpoint b = ck;
  bb_chat : mck_chat_id ck = riv_management_chat_id i ∧ mck_run_id ck = riv_management_run_id i;
  bb_activation : bat_activation_id b = rad_activation_id d;
  bb_group : bat_group_id b = group;
  bb_decided : rad_candidate_id d = rcv_candidate_id c
    ∧ rad_expected_candidate_version d = rcv_candidate_version c
    ∧ rad_expected_candidate_hash d = rcv_candidate_hash c;
  bb_candidate : bat_candidate_id b = rcv_candidate_id c
    ∧ bat_candidate_version b = rcv_candidate_version c
    ∧ bat_candidate_hash b = rcv_candidate_hash c
    ∧ bat_candidate_bundle b = rcv_build_bundle c;
  bb_sealed : bat_disclosure_hash b = rds_disclosure_hash (rcv_disclosure c)
    ∧ bat_provenance_hash b = bpv_provenance_hash (rcv_provenance c)
    ∧ bat_verification_plan b = rds_verification_plan (rcv_disclosure c);
  bb_rollback : bat_previous_working_build b = rds_rollback_point (rcv_disclosure c)
    ∧ pcr_previous_working_build rep = Some (bat_previous_working_build b);
  bb_report : pcr_eligibility rep = AeSupportedManagedLocal
    ∧ bat_capability_report_id b = pcr_report_id rep
    ∧ bat_capability_digest b = pcr_capability_digest rep
    ∧ bat_capability_generation b = pcr_capability_generation rep
    ∧ rad_expected_capability_report_id d = pcr_report_id rep
    ∧ rad_expected_capability_digest d = pcr_capability_digest rep;
  bb_enrollment : ∃ slot, pcr_build_origin rep = BoManagedLocal (bat_enrollment_digest b) slot;
  bb_fresh : pcr_valid_from_epoch_ms rep ≤ rad_decided_at_epoch_ms d
    ∧ rad_decided_at_epoch_ms d ≤ pcr_expires_at_epoch_ms rep;
  bb_expiry : ∃ total, total_deadline_ms (bat_deadlines b) = Some total
    ∧ bat_expires_at_epoch_ms b = rad_decided_at_epoch_ms d + total
}.

Lemma candidate_exact_Some a id v c :
  candidate_exact a id v = Some c →
  c ∈ rag_candidates a ∧ rcv_candidate_id c = id ∧ rcv_candidate_version c = v.
Proof.
  unfold candidate_exact. intros [Hin Hb]%find_some. boolify.
  split; [by apply list_elem_of_In|done].
Qed.

Lemma checked_add_eq max x y z : checked_add max x y = Some z ↔ z = x + y ∧ x + y ≤ max.
Proof.
  unfold checked_add. destruct (x + y <=? max) eqn:E; boolify; split; intros Hz; simplify_eq/=; try done.
  - destruct Hz as [-> _]. done.
  - destruct Hz as [_ ?]. lia.
Qed.

(** The transitions of the aggregate, with what each one required.  [repair_step]
    is the rule-by-rule reading of [apply_repair_event]. *)
Inductive repair_step (a : RepairAggregateV1) : RepairEventV1 → RepairAggregateV1 → Prop :=
| StepFailure o phase :
    validate_occurrence o = Ok () →
    repair_group_id_for_fingerprint_v1 (eoc_fingerprint o) = Ok (rag_group_id a) →
    Forall (λ seen, eoc_occurrence_id seen ≠ eoc_occurrence_id o) (rag_occurrences a) →
    (∀ f, rag_fingerprint a = Some f → f = eoc_fingerprint o) →
    phase = rag_phase a ∨ phase = Some RpObserved →
    repair_step a (FailureRecorded o)
      (set_fingerprint (Some (eoc_fingerprint o)) a
       |> set_occurrences (rag_occurrences a ++ [o]) |> set_phase phase)
| StepInvestigation i :
    validate_investigation i = Ok () → riv_group_id i = rag_group_id a →
    is_some (rag_fingerprint a) = true →
    (rag_activation_baton a = None ∨ is_some (rag_bootstrap_result a) = true) →
    enrollment_pending a = false →
    repair_step a (InvestigationStarted i)
      (set_latest_capability_report None a |> set_enrollment_request None
       |> set_enrollment_prepared None |> set_candidate_decision None
       |> set_activation_decision None |> set_management_checkpoint None
       |> set_activation_baton None |> set_bootstrap_admission None |> set_quiescence None
       |> set_focused_verification None |> set_bootstrap_result None
       |> set_investigation (Some i) |> set_phase (Some RpInvestigating))
| StepCandidate c r i :
    validate_candidate c = Ok () → rag_investigation a = Some i →
    validate_authenticated_investigation_execution r i c = Ok () →
    rcv_group_id c = rag_group_id a →
    rag_enrollment_request a = None → rag_activation_baton a = None →
    match latest_version a (rcv_candidate_id c) with
    | Some v => rcv_candidate_version c = saturating_add u64_max v 1
    | None => rcv_candidate_version c = 1
    end →
    repair_step a (CandidateRegistered c r)
      (set_candidates (rag_candidates a ++ [c]) a
       |> set_candidate_execution_receipts (rag_candidate_execution_receipts a ++ [r])
       |> set_latest_capability_report None |> set_enrollment_request None
       |> set_enrollment_prepared None |> set_candidate_decision None
       |> set_phase (Some RpCandidateReady))
| StepCapability t rep c :
    validate_capability_report_fresh rep t = Ok () →
    (rag_activation_baton a = None ∨ prior_activation_was_unsupported a = true) →
    active_candidate a = Some c →
    pcr_candidate_id rep = rcv_candidate_id c →
    pcr_candidate_version rep = rcv_candidate_version c →
    pcr_candidate_hash rep = rcv_candidate_hash c →
    repair_step a (CapabilityReported t rep) (set_latest_capability_report (Some rep) a)
| StepEnrollment t q rep c :
    validate_enrollment_request q = Ok () → rag_latest_capability_report a = Some rep →
    validate_capability_report_fresh rep t = Ok () → active_candidate a = Some c →
    pcr_eligibility rep = AeEnrollmentRequired → mer_group_id q = rag_group_id a →
    mer_candidate_id q = pcr_candidate_id rep → mer_whole_bundle q = rcv_build_bundle c →
    rag_activation_baton a = None → rag_enrollment_request a = None →
    repair_step a (EnrollmentRequested t q)
      (set_enrollment_request (Some q) a |> set_phase (Some RpEnrollmentPending))
| StepPrepared p q :
    validate_enrollment_prepared p = Ok () → rag_enrollment_request a = Some q →
    enp_request_id p = mer_request_id q → rag_enrollment_prepared a = None →
    repair_step a (EnrollmentPrepared p)
      (set_enrollment_prepared (Some p) a |> set_phase (Some RpEnrollmentPrepared))
| StepDecided d c :
    validate_candidate_decision d = Ok () →
    candidate_exact a (rcd_candidate_id d) (rcd_candidate_version d) = Some c →
    rag_activation_baton a = None →
    repair_step a (CandidateDecided d)
      (set_candidate_decision (Some d) a |> set_phase (Some RpCandidateRejected))
| StepActivation d ck b c rep i :
    baton_binds (rag_group_id a) d ck b c rep i → c ∈ rag_candidates a →
    rag_latest_capability_report a = Some rep → rag_investigation a = Some i →
    (rag_activation_baton a = None ∨ prior_activation_was_unsupported a = true) →
    enrollment_pending a = false →
    repair_step a (ActivationPrepared d ck b)
      (set_activation_decision (Some d) a
       |> set_management_checkpoint (Some ck) |> set_activation_baton (Some b)
       |> set_bootstrap_admission None |> set_quiescence None |> set_focused_verification None
       |> set_bootstrap_result None |> set_phase (Some RpActivationPrepared))
| StepAdmission adm b :
    validate_admission adm = Ok () → rag_activation_baton a = Some b →
    admission_binds adm b → rag_bootstrap_admission a = None →
    repair_step a (BootstrapAdmissionAccepted adm)
      (set_bootstrap_admission (Some adm) a |> set_phase (Some RpAwaitingBootstrapResult))
| StepQuiesced f b :
    validate_quiescence_facts f = Ok () → quiescence_safe f b →
    rag_activation_baton a = Some b → is_some (rag_bootstrap_admission a) = true →
    rag_quiescence a = None →
    repair_step a (CoreQuiesced f) (set_quiescence (Some f) a)
| StepVerification e b :
    rag_activation_baton a = Some b →
    validate_focused_evidence_against_plan e (bat_verification_plan b) = Ok () →
    rag_bootstrap_result a = None → is_some (rag_bootstrap_admission a) = true →
    is_some (rag_quiescence a) = true → rag_focused_verification a = None →
    repair_step a (FocusedVerificationSubmitted (bat_activation_id b)
                     (bat_candidate_process_generation b) e)
      (set_focused_verification (Some e) a |> set_phase (Some RpVerificationSubmitted))
| StepResult t r b :
    rag_activation_baton a = Some b →
    validate_authenticated_result r b (rag_bootstrap_admission a) = Ok () →
    bsr_sealed_at_epoch_ms (abr_receipt r) ≤ t → t ≤ bat_expires_at_epoch_ms b →
    rag_bootstrap_result a = None →
    (is_unsupported r = true ∨ is_some (rag_quiescence a) = true) →
    (∀ e, bsr_result (abr_receipt r) = BrActivatedVerified e → rag_focused_verification a = Some e) →
    repair_step a (BootstrapResultReconciled t r)
      (set_phase (Some (result_phase r)) a |> set_bootstrap_result (Some r))
| StepRegression g c r :
    verified_build a = Some (c, r) → rrg_repaired_candidate_id g = rcv_candidate_id c →
    rrg_repaired_receipt_id g = bsr_receipt_id (abr_receipt r) →
    Exists (λ o, eoc_occurrence_id o = rrg_occurrence_id g) (rag_occurrences a) →
    Forall (λ seen, rrg_regression_id seen ≠ rrg_regression_id g) (rag_regressions a) →
    repair_step a (RegressionRecorded g)
      (set_regressions (rag_regressions a ++ [g]) a |> set_phase (Some RpRegression)).

(** *** From the handlers to the rules *)

Lemma Forall_neq_bool {A B} `{EqDecision B} (f : A → B) (y : B) l :
  Forall (λ x, bool_decide (f x = y) = false) l → Forall (λ x, f x ≠ y) l.
Proof. intros Hl. eapply Forall_impl; [exact Hl|]. intros x. apply bool_decide_eq_false. Qed.
Lemma Exists_eq_bool {A B} `{EqDecision B} (f : A → B) (y : B) l :
  Exists (λ x, bool_decide (f x = y) = true) l → Exists (λ x, f x = y) l.
Proof. intros Hl. eapply Exists_impl; [exact Hl|]. intros x. apply bool_decide_eq_true. Qed.

Lemma set_fingerprint_id a f : rag_fingerprint a = Some f → a = set_fingerprint (Some f) a.
Proof. destruct a; simpl. by intros ->. Qed.
Lemma set_phase_id a : a = set_phase (rag_phase a) a.
Proof. by destruct a. Qed.

Lemma record_failure_step a o a' :
  record_failure a o = Ok a' → repair_step a (FailureRecorded o) a'.
Proof.
  unfold record_failure. intros Hp. handler_inv Hp.
  set (p := preserve_phase (rag_phase a)).
  eapply eq_ind; [apply (StepFailure a o (if p then rag_phase a else Some RpObserved)); eauto using Forall_neq_bool|].
  - intros f Hf. rewrite Hf in *. by boolify.
  - destruct p; auto.
  - destruct (rag_fingerprint a) as [f|] eqn:Hf; boolify; subst.
    + destruct a, p; simpl in *; by subst.
    + destruct a, p; simpl in *; by subst.
Qed.

Lemma start_investigation_step a i a' :
  start_investigation a i = Ok a' → repair_step a (InvestigationStarted i) a'.
Proof.
  unfold start_investigation. intros Hp. handler_inv Hp.
  apply StepInvestigation; eauto. by apply is_some_true; eauto.
Qed.

Lemma register_candidate_step a c r a' :
  register_candidate a c r = Ok a' → repair_step a (CandidateRegistered c r) a'.
Proof.
  unfold register_candidate. intros Hp. handler_inv Hp.
  eapply StepCandidate; eauto.
  destruct (latest_version a _);
    match goal with E : fail_if _ _ = Ok _ |- _ => apply fail_if_ok in E end; by boolify.
Qed.

Lemma record_capability_step a t rep a' :
  record_capability a t rep = Ok a' → repair_step a (CapabilityReported t rep) a'.
Proof. unfold record_capability. intros Hp. handler_inv Hp. eapply StepCapability; eauto. Qed.

Lemma request_enrollment_step a t q a' :
  request_enrollment a t q = Ok a' → repair_step a (EnrollmentRequested t q) a'.
Proof. unfold request_enrollment. intros Hp. handler_inv Hp. eapply StepEnrollment; eauto. Qed.

Lemma prepare_enrollment_step a p a' :
  prepare_enrollment a p = Ok a' → repair_step a (EnrollmentPrepared p) a'.
Proof. unfold prepare_enrollment. intros Hp. handler_inv Hp. eapply StepPrepared; eauto. Qed.

Lemma decide_candidate_step a d a' :
  decide_candidate a d = Ok a' → repair_step a (CandidateDecided d) a'.
Proof. unfold decide_candidate. intros Hp. handler_inv Hp. eapply StepDecided; eauto. Qed.

Lemma prepare_activation_step a d ck b a' :
  prepare_activation a d ck b = Ok a' → repair_step a (ActivationPrepared d ck b) a'.
Proof.
  unfold prepare_activation. intros Hp. handler_inv Hp.
  match goal with E : candidate_exact _ _ _ = Some _ |- _ =>
    apply candidate_exact_Some in E as (? & ? & ?) end.
  eapply StepActivation; eauto. split; auto 10.
  - match goal with E : match pcr_build_origin ?r with _ => _ end = _ |- _ =>
      destruct (pcr_build_origin r); simplify_eq; eauto end.
  - match goal with E : _ ≫= _ = Some _ |- _ => apply bind_Some in E as (total & Ht & Hx) end.
    apply checked_add_eq in Hx as [-> _]. eauto.
Qed.

Lemma accept_bootstrap_admission_step a adm a' :
  accept_bootstrap_admission a adm = Ok a' → repair_step a (BootstrapAdmissionAccepted adm) a'.
Proof.
  unfold accept_bootstrap_admission. intros Hp. handler_inv Hp.
  eapply StepAdmission; eauto. done.
Qed.

Lemma record_quiescence_step a f a' :
  record_quiescence a f = Ok a' → repair_step a (CoreQuiesced f) a'.
Proof.
  unfold record_quiescence. intros Hp. handler_inv Hp.
  eapply StepQuiesced; eauto; [done|by apply is_some_true; eauto].
Qed.

Lemma record_focused_verification_step a id g e a' :
  record_focused_verification a id g e = Ok a' →
  repair_step a (FocusedVerificationSubmitted id g e) a'.
Proof.
  unfold record_focused_verification. intros Hp. handler_inv Hp.
  eapply StepVerification; eauto; apply is_some_true; eauto.
Qed.

Lemma fold_bootstrap_result_step a t r a' :
  fold_bootstrap_result a t r = Ok a' → repair_step a (BootstrapResultReconciled t r) a'.
Proof.
  unfold fold_bootstrap_result, validate_result_fresh. intros Hp. handler_inv Hp.
  eapply StepResult; eauto.
  - match goal with E : negb ?u && negb _ = false |- _ => destruct u; [by left|right] end.
    simpl in *. by boolify.
  - intros e He. rewrite He in *. by boolify.
Qed.

Lemma record_regression_step a g a' :
  record_regression a g = Ok a' → repair_step a (RegressionRecorded g) a'.
Proof.
  unfold record_regression. intros Hp. handler_inv Hp.
  match goal with x : _ * _ |- _ => destruct x end.
  eapply StepRegression; eauto using Forall_neq_bool, Exists_eq_bool.
Qed.

Lemma apply_repair_event_step a e a' : apply_repair_event a e = Ok a' → repair_step a e a'.
Proof.
  destruct e; simpl;
    eauto using record_failure_step, start_investigation_step, register_candidate_step,
      record_capability_step, request_enrollment_step, prepare_enrollment_step,
      decide_candidate_step, prepare_activation_step, accept_bootstrap_admission_step,
      record_quiescence_step, record_focused_verification_step, fold_bootstrap_result_step,
      record_regression_step.
Qed.

(** ** The invariant *)

(** The events of the current handoff, in the order the stream must have them,
    read off the aggregate. *)
Definition handoff_chain (a : RepairAggregateV1) : list RepairEventV1 :=
  match rag_activation_decision a, rag_management_checkpoint a, rag_activation_baton a with
  | Some d, Some ck, Some b =>
      ActivationPrepared d ck b ::
      (BootstrapAdmissionAccepted <$> option_list (rag_bootstrap_admission a))
      ++ (CoreQuiesced <$> option_list (rag_quiescence a))
      ++ (FocusedVerificationSubmitted (bat_activation_id b) (bat_candidate_process_generation b)
            <$> option_list (rag_focused_verification a))
  | _, _, _ => []
  end.

(** A candidate entered under an investigation of the stream, with the receipt
    of its execution. *)
Definition registered_under (tr : list RepairEventV1) (group : StableId) (c : RepairCandidateV1)
    (r : AuthenticatedInvestigationExecutionReceiptV1) : Prop :=
  validate_candidate c = Ok () ∧ rcv_group_id c = group
  ∧ ∃ i, [InvestigationStarted i; CandidateRegistered c r] `sublist_of` tr
       ∧ validate_authenticated_investigation_execution r i c = Ok ().

(** The versions stored for a candidate, in order. *)
Definition versions_of (id : StableId) (l : list RepairCandidateV1) : list N :=
  rcv_candidate_version <$> filter (λ c, rcv_candidate_id c = id) l.

Definition report_binds (rep : PlatformCapabilityReportV1) (c : RepairCandidateV1) : Prop :=
  pcr_candidate_id rep = rcv_candidate_id c ∧ pcr_candidate_version rep = rcv_candidate_version c
  ∧ pcr_candidate_hash rep = rcv_candidate_hash c.

(** The receipt is for the baton; an unsupported one goes back to the
    generation that asked. *)
Definition receipt_binds (r : AuthenticatedBootstrapResultV1) (b : RepairActivationBatonV1) :
    Prop :=
  bsr_activation_id (abr_receipt r) = bat_activation_id b
  ∧ bsr_baton_hash (abr_receipt r) = bat_baton_hash b
  ∧ bsr_management_checkpoint_id (abr_receipt r) = mck_checkpoint_id (bat_management_checkpoint b)
  ∧ (is_unsupported r = true →
     bsr_recipient_process_generation (abr_receipt r) = bat_current_process_generation b).

Lemma result_binds r b adm : validate_authenticated_result r b adm = Ok () → receipt_binds r b.
Proof.
  unfold validate_authenticated_result. intros Hv. handler_inv Hv. split_and!; [done..|].
  unfold is_unsupported. destruct (bsr_result (abr_receipt r)); try done.
  destruct adm; [done|]. by case_bool_decide.
Qed.

Record repair_inv (tr : list RepairEventV1) (a : RepairAggregateV1) : Prop := {
  rinv_occurrences : Forall (λ o, FailureRecorded o ∈ tr ∧ rag_fingerprint a = Some (eoc_fingerprint o))
                     (rag_occurrences a)
    ∧ NoDup (eoc_occurrence_id <$> rag_occurrences a);
  rinv_fingerprint : ∀ f, rag_fingerprint a = Some f →
    repair_group_id_for_fingerprint_v1 f = Ok (rag_group_id a);
  rinv_investigation : ∀ i, rag_investigation a = Some i →
    InvestigationStarted i ∈ tr ∧ validate_investigation i = Ok ()
    ∧ riv_group_id i = rag_group_id a;
  rinv_candidates : Forall2 (registered_under tr (rag_group_id a)) (rag_candidates a)
                    (rag_candidate_execution_receipts a);
  rinv_report : ∀ rep, rag_latest_capability_report a = Some rep →
    validate_capability_report_shape rep = Ok ()
    ∧ ∃ c, active_candidate a = Some c ∧ report_binds rep c;
  rinv_prepared : ∀ p, rag_enrollment_prepared a = Some p →
    ∃ q, rag_enrollment_request a = Some q ∧ enp_request_id p = mer_request_id q;
  rinv_baton : ∀ b, rag_activation_baton a = Some b →
    ∃ d ck c rep i, rag_activation_decision a = Some d ∧ rag_management_checkpoint a = Some ck
      ∧ rag_investigation a = Some i ∧ c ∈ rag_candidates a
      ∧ validate_capability_report_shape rep = Ok ()
      ∧ (prior_activation_was_unsupported a = false → rag_latest_capability_report a = Some rep)
      ∧ baton_binds (rag_group_id a) d ck b c rep i;
  rinv_admission : ∀ adm, rag_bootstrap_admission a = Some adm →
    validate_admission adm = Ok () ∧ ∃ b, rag_activation_baton a = Some b ∧ admission_binds adm b;
  rinv_quiescence : ∀ f, rag_quiescence a = Some f →
    is_some (rag_bootstrap_admission a) = true
    ∧ ∃ b, rag_activation_baton a = Some b ∧ quiescence_safe f b;
  rinv_verification : ∀ e, rag_focused_verification a = Some e →
    is_some (rag_quiescence a) = true
    ∧ ∃ b, rag_activation_baton a = Some b
        ∧ validate_focused_evidence_against_plan e (bat_verification_plan b) = Ok ();
  rinv_chain : handoff_chain a `sublist_of` tr;
  rinv_result : ∀ r, rag_bootstrap_result a = Some r →
    ∃ b, rag_activation_baton a = Some b
      ∧ receipt_binds r b
      ∧ (is_activated r = true → ∃ t, t ≤ bat_expires_at_epoch_ms b
           ∧ bsr_sealed_at_epoch_ms (abr_receipt r) ≤ t
           ∧ handoff_chain a ++ [BootstrapResultReconciled t r] `sublist_of` tr
           ∧ validate_authenticated_result r b (rag_bootstrap_admission a) = Ok ()
           ∧ ∃ e, bsr_result (abr_receipt r) = BrActivatedVerified e
                ∧ rag_focused_verification a = Some e)
}.

Lemma registered_under_mono tr e group c r :
  registered_under tr group c r → registered_under (tr ++ [e]) group c r.
Proof.
  intros (Hc & Hg & i & Hs & Hr). split_and!; [done..|]. exists i. split; [|done].
  by apply sublist_inserts_r.
Qed.

Lemma repair_inv_mono tr e a : repair_inv tr a → repair_inv (tr ++ [e]) a.
Proof.
  intros [Hocc Hfp Hinv Hcand Hrep Hprep Hbat Hadm Hq Hv Hch Hres]. split; auto.
  - destruct Hocc as [Hocc Hnd]. split; [|done]. eapply Forall_impl; [exact Hocc|].
    intros o [??]. split; [|done]. set_solver.
  - intros i Hi. destruct (Hinv i Hi) as (? & ? & ?). split_and!; [|done..]. set_solver.
  - eapply Forall2_impl; [exact Hcand|]. intros c r. apply registered_under_mono.
  - by apply sublist_inserts_r.
  - intros r Hr. destruct (Hres r Hr) as (b & Hb & Ha & Hact). exists b. split_and!; [done..|].
    intros Hx. destruct (Hact Hx) as (t & ? & ? & ? & ? & ?). exists t. split_and!; [done..| |done|done].
    by apply sublist_inserts_r.
Qed.

Lemma sublist_snoc {A} (l k : list A) x : l `sublist_of` k → l ++ [x] `sublist_of` k ++ [x].
Proof. intros. by apply sublist_app. Qed.

(** The parts of the invariant that do not mention the stream carry over to any
    aggregate that agrees on the fields they read. *)
Lemma failure_inv tr a o phase :
  repair_inv (tr ++ [FailureRecorded o]) a →
  repair_group_id_for_fingerprint_v1 (eoc_fingerprint o) = Ok (rag_group_id a) →
  Forall (λ seen, eoc_occurrence_id seen ≠ eoc_occurrence_id o) (rag_occurrences a) →
  (∀ f, rag_fingerprint a = Some f → f = eoc_fingerprint o) →
  repair_inv (tr ++ [FailureRecorded o])
    (set_fingerprint (Some (eoc_fingerprint o)) a
     |> set_occurrences (rag_occurrences a ++ [o]) |> set_phase phase).
Proof.
  intros [Hocc Hfp Hinv Hcand Hrep Hprep Hbat Hadm Hq Hv Hch Hres] Hg Hnew Hf.
  split; simpl; try assumption; [|by intros f [= <-]].
  destruct Hocc as [Hocc Hnd]. split.
  - apply Forall_app; split; [|constructor; [split; [set_solver|done]|constructor]].
    eapply Forall_impl; [exact Hocc|]. intros x [? Hx]. split; [done|]. f_equal. symmetry. auto.
  - rewrite fmap_app. apply NoDup_app. split_and!; [done| |apply NoDup_singleton].
    intros x (y & -> & Hy)%list_elem_of_fmap Heq%list_elem_of_singleton.
    rewrite Forall_forall in Hnew. by destruct (Hnew y Hy).
Qed.

Lemma candidate_inv tr a c r i :
  repair_inv tr a →
  validate_candidate c = Ok () → rag_investigation a = Some i →
  validate_authenticated_investigation_execution r i c = Ok () →
  rcv_group_id c = rag_group_id a → rag_activation_baton a = None →
  repair_inv (tr ++ [CandidateRegistered c r])
    (set_candidates (rag_candidates a ++ [c]) a
     |> set_candidate_execution_receipts (rag_candidate_execution_receipts a ++ [r])
     |> set_latest_capability_report None |> set_enrollment_request None
     |> set_enrollment_prepared None |> set_candidate_decision None
     |> set_phase (Some RpCandidateReady)).
Proof.
  intros Hi Hc Hiv Hr Hg Hb. destruct (rinv_investigation _ _ Hi _ Hiv) as (Hin & _).
  apply (repair_inv_mono _ (CandidateRegistered c r)) in Hi.
  destruct Hi as [Hocc Hfp Hinv Hcand Hrep Hprep Hbat Hadm Hq Hv Hch Hres].
  split; simpl; try assumption; try (by intros; congruence).
  apply Forall2_app; [done|]. constructor; [|constructor]. split_and!; [done..|].
  exists i. split; [|done]. apply list_elem_of_split in Hin as (l1 & l2 & ->).
  change ([InvestigationStarted i; CandidateRegistered c r])
    with ([InvestigationStarted i] ++ [CandidateRegistered c r]).
  apply sublist_app; [|done]. apply sublist_inserts_l. by apply (sublist_skip _ [] l2), sublist_nil_l.
Qed.

Lemma activation_inv tr a d ck b c rep i :
  repair_inv tr a →
  baton_binds (rag_group_id a) d ck b c rep i → c ∈ rag_candidates a →
  rag_latest_capability_report a = Some rep → rag_investigation a = Some i →
  repair_inv (tr ++ [ActivationPrepared d ck b])
    (set_activation_decision (Some d) a
     |> set_management_checkpoint (Some ck) |> set_activation_baton (Some b)
     |> set_bootstrap_admission None |> set_quiescence None |> set_focused_verification None
     |> set_bootstrap_result None |> set_phase (Some RpActivationPrepared)).
Proof.
  intros Hi Hbb Hc Hr Hiv. destruct (rinv_report _ _ Hi _ Hr) as [Hshape _].
  apply (repair_inv_mono _ (ActivationPrepared d ck b)) in Hi.
  destruct Hi as [Hocc Hfp Hinv Hcand Hrep Hprep Hbat Hadm Hq Hv Hch Hres].
  split; simpl; try assumption; try (by intros; congruence).
  - intros b' [= <-]. eauto 15.
  - unfold handoff_chain. simpl. by apply sublist_inserts_l.
Qed.

(** The three steps that extend the chain of the handoff. *)
Lemma chain_admission a adm phase b :
  rag_activation_baton a = Some b → rag_bootstrap_admission a = None → rag_quiescence a = None →
  rag_focused_verification a = None →
  handoff_chain (set_bootstrap_admission (Some adm) a |> set_phase phase)
    `sublist_of` handoff_chain a ++ [BootstrapAdmissionAccepted adm].
Proof.
  intros Hb Ha Hq Hv. unfold handoff_chain. simpl. rewrite Hb, Ha, Hq, Hv. simpl.
  destruct (rag_activation_decision a), (rag_management_checkpoint a); simpl; try done; apply sublist_nil_l.
Qed.

Lemma chain_quiesced a f b :
  rag_activation_baton a = Some b → rag_quiescence a = None → rag_focused_verification a = None →
  handoff_chain (set_quiescence (Some f) a) `sublist_of` handoff_chain a ++ [CoreQuiesced f].
Proof.
  intros Hb Hq Hv. unfold handoff_chain. simpl. rewrite Hb, Hq, Hv. simpl.
  destruct (rag_activation_decision a), (rag_management_checkpoint a); simpl;
    rewrite ?app_nil_r; try done; apply sublist_nil_l.
Qed.

Lemma chain_verification a e phase b :
  rag_activation_baton a = Some b → rag_focused_verification a = None →
  handoff_chain (set_focused_verification (Some e) a |> set_phase phase)
    `sublist_of` handoff_chain a ++ [FocusedVerificationSubmitted (bat_activation_id b)
                                       (bat_candidate_process_generation b) e].
Proof.
  intros Hb Hv. unfold handoff_chain. simpl. rewrite Hb, Hv. simpl.
  destruct (rag_activation_decision a), (rag_management_checkpoint a); simpl;
    rewrite ?app_nil_r; try apply sublist_nil_l. by rewrite <-app_assoc.
Qed.

(** Fields the current handoff has not filled yet. *)
Lemma no_quiescence tr a :
  repair_inv tr a → rag_bootstrap_admission a = None → rag_quiescence a = None.
Proof.
  intros Hi Ha. destruct (rag_quiescence a) as [f|] eqn:Hf; [|done].
  destruct (rinv_quiescence _ _ Hi _ Hf) as [Hs _]. by rewrite Ha in Hs.
Qed.
Lemma no_verification tr a :
  repair_inv tr a → rag_quiescence a = None → rag_focused_verification a = None.
Proof.
  intros Hi Ha. destruct (rag_focused_verification a) as [f|] eqn:Hf; [|done].
  destruct (rinv_verification _ _ Hi _ Hf) as [Hs _]. by rewrite Ha in Hs.
Qed.

(** An activated result needs the evidence on record, and so all that precedes it. *)
Lemma activated_filled tr a r :
  repair_inv tr a → rag_bootstrap_result a = Some r → is_activated r = true →
  is_some (rag_focused_verification a) = true ∧ is_some (rag_quiescence a) = true
  ∧ is_some (rag_bootstrap_admission a) = true.
Proof.
  intros Hi Hr Hact. destruct (rinv_result _ _ Hi _ Hr) as (b & _ & _ & Hx).
  destruct (Hx Hact) as (_ & _ & _ & _ & _ & e & _ & He).
  destruct (rinv_verification _ _ Hi _ He) as [[f Hf]%is_some_true _].
  destruct (rinv_quiescence _ _ Hi _ Hf) as [Ha _]. by rewrite He, Hf.
Qed.

Lemma admission_inv tr a adm b :
  repair_inv tr a → validate_admission adm = Ok () → rag_activation_baton a = Some b →
  admission_binds adm b → rag_bootstrap_admission a = None →
  repair_inv (tr ++ [BootstrapAdmissionAccepted adm])
    (set_bootstrap_admission (Some adm) a |> set_phase (Some RpAwaitingBootstrapResult)).
Proof.
  intros Hi Hadmv Hb Hbind Hnone.
  pose proof (no_quiescence _ _ Hi Hnone) as Hnq. pose proof (no_verification _ _ Hi Hnq) as Hnv.
  pose proof (λ r, activated_filled tr a r Hi) as Hfill.
  pose proof (rinv_chain _ _ Hi) as Hch0.
  apply (repair_inv_mono _ (BootstrapAdmissionAccepted adm)) in Hi.
  destruct Hi as [Hocc Hfp Hinv Hcand Hrep Hprep Hbat Hadm Hq Hv Hch Hres].
  split; simpl; try assumption; try (by intros; congruence).
  - intros adm' [= <-]. eauto.
  - etrans; [by eapply chain_admission|]. by apply sublist_snoc.
  - intros r Hr. destruct (Hres r Hr) as (b' & Hb' & ? & ?). exists b'. split_and!; [done..|].
    intros Hact. destruct (Hfill r Hr Hact) as (_ & _ & Hx). by rewrite Hnone in Hx.
Qed.

Lemma quiesced_inv tr a f b :
  repair_inv tr a → quiescence_safe f b → rag_activation_baton a = Some b →
  is_some (rag_bootstrap_admission a) = true → rag_quiescence a = None →
  repair_inv (tr ++ [CoreQuiesced f]) (set_quiescence (Some f) a).
Proof.
  intros Hi Hsafe Hb Hsome Hnq. pose proof (no_verification _ _ Hi Hnq) as Hnv.
  pose proof (λ r, activated_filled tr a r Hi) as Hfill. pose proof (rinv_chain _ _ Hi) as Hch0.
  apply (repair_inv_mono _ (CoreQuiesced f)) in Hi.
  destruct Hi as [Hocc Hfp Hinv Hcand Hrep Hprep Hbat Hadm Hq Hv Hch Hres].
  split; simpl; try assumption; try (by intros; congruence).
  - intros f' [= <-]. eauto.
  - etrans; [by eapply chain_quiesced|]. by apply sublist_snoc.
  - intros r Hr. destruct (Hres r Hr) as (b' & Hb' & ? & ?). exists b'. split_and!; [done..|].
    intros Hact. destruct (Hfill r Hr Hact) as (_ & Hx & _). by rewrite Hnq in Hx.
Qed.

Lemma verification_inv tr a e b :
  repair_inv tr a → rag_activation_baton a = Some b →
  validate_focused_evidence_against_plan e (bat_verification_plan b) = Ok () →
  rag_bootstrap_result a = None → is_some (rag_quiescence a) = true →
  rag_focused_verification a = None →
  repair_inv (tr ++ [FocusedVerificationSubmitted (bat_activation_id b)
                       (bat_candidate_process_generation b) e])
    (set_focused_verification (Some e) a |> set_phase (Some RpVerificationSubmitted)).
Proof.
  intros Hi Hb He Hnr Hsq Hnv. pose proof (rinv_chain _ _ Hi) as Hch0.
  eapply repair_inv_mono in Hi.
  destruct Hi as [Hocc Hfp Hinv Hcand Hrep Hprep Hbat Hadm Hq Hv Hch Hres].
  split; simpl; try eassumption; try (by intros; congruence).
  - intros e' [= <-]. eauto.
  - etrans; [by eapply chain_verification|]. by apply sublist_snoc.
Qed.

Lemma result_inv tr a t r b :
  repair_inv tr a → rag_activation_baton a = Some b →
  validate_authenticated_result r b (rag_bootstrap_admission a) = Ok () →
  bsr_sealed_at_epoch_ms (abr_receipt r) ≤ t → t ≤ bat_expires_at_epoch_ms b →
  rag_bootstrap_result a = None →
  (∀ e, bsr_result (abr_receipt r) = BrActivatedVerified e → rag_focused_verification a = Some e) →
  repair_inv (tr ++ [BootstrapResultReconciled t r])
    (set_phase (Some (result_phase r)) a |> set_bootstrap_result (Some r)).
Proof.
  intros Hi Hb Hval Hsealed Hfresh Hnr Hev. pose proof (rinv_chain _ _ Hi) as Hch0.
  eapply repair_inv_mono in Hi.
  destruct Hi as [Hocc Hfp Hinv Hcand Hrep Hprep Hbat Hadm Hq Hv Hch Hres].
  split; simpl; try eassumption; try (by intros; congruence).
  - intros b' Hb'. destruct (Hbat b' Hb') as (d & ck & c & rep & i & ? & ? & ? & ? & ? & Hrp & ?).
    exists d, ck, c, rep, i. split_and!; try done. intros _. apply Hrp.
    unfold prior_activation_was_unsupported. by rewrite Hnr.
  - intros r' [= <-]. exists b. split_and!; [done|by eapply result_binds|].
    intros Hact. exists t. split_and!; [done..|by apply sublist_snoc|done|].
    unfold is_activated in Hact. destruct (bsr_result (abr_receipt r)) eqn:Hk; try done. eauto.
Qed.

(** Every transition keeps the invariant. *)
Lemma repair_step_inv tr a e a' : repair_inv tr a → repair_step a e a' → repair_inv (tr ++ [e]) a'.
Proof.
  intros Hi Hstep. destruct Hstep; eauto using failure_inv, repair_inv_mono, candidate_inv,
    activation_inv, admission_inv, quiesced_inv, verification_inv, result_inv.
  - (* investigation *)
    eapply (repair_inv_mono _ (InvestigationStarted i)) in Hi.
    destruct Hi as [Hocc Hfp Hinv Hcand Hrep Hprep Hbat Hadm Hq Hv Hch Hres].
    split; simpl; try eassumption; try (by intros; congruence); [|apply sublist_nil_l].
    intros i' [= <-]. split_and!; [set_solver|done..].
  - (* capability *)
    eapply (repair_inv_mono _ (CapabilityReported t rep)) in Hi.
    destruct Hi as [Hocc Hfp Hinv Hcand Hrep Hprep Hbat Hadm Hq Hv Hch Hres].
    split; simpl; try eassumption; try (by intros; congruence).
    + intros rep' [= <-]. split; [|exists c; done].
      unfold validate_capability_report_fresh in *. by handler_inv H1.
    + intros b Hb. destruct (Hbat b Hb) as (d & ck & c' & rep' & i & ? & ? & ? & ? & ? & Hrp & ?).
      exists d, ck, c', rep', i. split_and!; try done. intros Hu.
      unfold prior_activation_was_unsupported in *. simpl in *. destruct_or!; congruence.
  - (* enrollment requested *)
    eapply (repair_inv_mono _ (EnrollmentRequested t q)) in Hi.
    destruct Hi as [Hocc Hfp Hinv Hcand Hrep Hprep Hbat Hadm Hq Hv Hch Hres].
    split; simpl; try eassumption; try (by intros; congruence).
    intros p Hp. destruct (Hprep p Hp) as (q' & ? & ?). congruence.
  - (* enrollment prepared *)
    eapply (repair_inv_mono _ (EnrollmentPrepared p)) in Hi.
    destruct Hi as [Hocc Hfp Hinv Hcand Hrep Hprep Hbat Hadm Hq Hv Hch Hres].
    split; simpl; try eassumption; try (by intros; congruence). intros p' [= <-]. eauto.
  - (* decided *)
    eapply (repair_inv_mono _ (CandidateDecided d)) in Hi.
    destruct Hi as [Hocc Hfp Hinv Hcand Hrep Hprep Hbat Hadm Hq Hv Hch Hres].
    split; simpl; try eassumption; try (by intros; congruence).
  - (* regression *)
    eapply (repair_inv_mono _ (RegressionRecorded g)) in Hi.
    destruct Hi as [Hocc Hfp Hinv Hcand Hrep Hprep Hbat Hadm Hq Hv Hch Hres].
    split; simpl; try eassumption; try (by intros; congruence).
Qed.

(** ** Streams *)

Lemma set_ledger_version_inv tr a v : repair_inv tr a → repair_inv tr (set_ledger_version v a).
Proof. intros []. by split. Qed.

Lemma repair_step_group a e a' : repair_step a e a' → rag_group_id a' = rag_group_id a.
Proof. by destruct 1. Qed.

Lemma empty_aggregate_inv group : repair_inv [] (empty_aggregate group).
Proof.
  split; simpl; try (by intros; congruence); try apply sublist_nil_l.
  - split; [constructor|apply NoDup_nil; done].
  - constructor.
Qed.

(** What a stream folds to: its group, its version and the invariant. *)
Lemma rehydrate_inv group stream a :
  rehydrate_repair group stream = Ok a →
  rag_group_id a = group ∧ repair_inv (cre_event <$> stream) a.
Proof.
  intros Hr. revert Hr.
  apply (fold_res_inv fold_committed
    (λ l s, rag_group_id s = group ∧ repair_inv (cre_event <$> l) s)).
  - split; [done|apply empty_aggregate_inv].
  - intros l x s1 s2 [Hg Hi] Hf. unfold fold_committed in Hf. handler_inv Hf.
    apply apply_repair_event_step in Hf2. split; [by apply repair_step_group in Hf2|].
    rewrite fmap_app. apply set_ledger_version_inv. by eapply repair_step_inv.
Qed.

Lemma preview_inv tr a events a' :
  preview a events = Ok a' → repair_inv tr a → repair_inv (tr ++ events) a'.
Proof.
  intros Hp Hi. revert Hp.
  apply (fold_res_inv preview_event (λ l s, repair_inv (tr ++ l) s)); [by rewrite app_nil_r|].
  intros l x s1 s2 Hl Hf. unfold preview_event in Hf. handler_inv Hf.
  apply apply_repair_event_step in Hf0. rewrite app_assoc. apply set_ledger_version_inv. by eapply repair_step_inv.
Qed.

(** ** The candidate of an activation *)

(** The candidates of a group differ in identity or version: a new version is
    one above the latest of its identity. *)
Record candidates_distinct (a : RepairAggregateV1) : Prop := {
  cd_bound : ∀ c, c ∈ rag_candidates a → rcv_candidate_version c ≤ len (rag_candidates a);
  cd_unique : ∀ c c', c ∈ rag_candidates a → c' ∈ rag_candidates a →
    rcv_candidate_id c = rcv_candidate_id c' → rcv_candidate_version c = rcv_candidate_version c' → c = c'
}.

Lemma latest_version_above a id :
  match latest_version a id with
  | Some v => (∀ c, c ∈ rag_candidates a → rcv_candidate_id c = id → rcv_candidate_version c ≤ v)
              ∧ ∃ c, c ∈ rag_candidates a ∧ rcv_candidate_version c = v
  | None => ∀ c, c ∈ rag_candidates a → rcv_candidate_id c ≠ id
  end.
Proof.
  unfold latest_version. induction (rag_candidates a) as [|c l IH] using rev_ind; [by set_solver|].
  rewrite filter_app. destruct (decide (rcv_candidate_id c = id)) as [Hid|Hid].
  - rewrite filter_cons_True, filter_nil, foldl_app by done. simpl.
    destruct (foldl _ _ _) as [v|]; [destruct IH as [Hle (c0 & Hin & Hv)]; destruct (N.leb_spec v (rcv_candidate_version c))|];
      (split; [intros x [Hx| ->%list_elem_of_singleton]%elem_of_app Hx'|]).
    + specialize (Hle x Hx Hx'). lia.
    + done.
    + exists c. set_solver.
    + by apply Hle.
    + lia.
    + exists c0. set_solver.
    + by destruct (IH x Hx).
    + done.
    + exists c. set_solver.
  - rewrite filter_cons_False, filter_nil, app_nil_r by done.
    destruct (foldl _ _ _) as [v|].
    + destruct IH as [Hle (c0 & Hin & Hv)]. split; [|exists c0; set_solver].
      intros x [Hx| ->%list_elem_of_singleton]%elem_of_app Hx'; [by apply Hle|done].
    + intros x [Hx| ->%list_elem_of_singleton]%elem_of_app; [by apply IH|done].
Qed.

Lemma candidate_distinct a c cs :
  candidates_distinct a → len (rag_candidates a) < u64_max → cs = rag_candidates a ++ [c] →
  match latest_version a (rcv_candidate_id c) with
  | Some v => rcv_candidate_version c = saturating_add u64_max v 1
  | None => rcv_candidate_version c = 1
  end →
  (∀ x, x ∈ cs → rcv_candidate_version x ≤ len cs)
  ∧ ∀ x y, x ∈ cs → y ∈ cs → rcv_candidate_id x = rcv_candidate_id y →
      rcv_candidate_version x = rcv_candidate_version y → x = y.
Proof.
  intros [Hb Hu] Hlen -> Hv. pose proof (latest_version_above a (rcv_candidate_id c)) as Hl.
  assert (rcv_candidate_version c ≤ len (rag_candidates a) + 1
    ∧ ∀ x, x ∈ rag_candidates a → rcv_candidate_id x = rcv_candidate_id c →
        rcv_candidate_version x < rcv_candidate_version c) as [Hc Hlt].
  { destruct (latest_version a (rcv_candidate_id c)) as [v|].
    - destruct Hl as [Hle (c0 & Hin & Hv0)]. specialize (Hb c0 Hin). unfold saturating_add in Hv. split; [lia|].
      intros x Hx Hid. specialize (Hle x Hx Hid). lia.
    - split; [lia|]. intros x Hx Hid. by destruct (Hl x Hx). }
  assert (len (rag_candidates a ++ [c]) = len (rag_candidates a) + 1) as Hn by (unfold len; rewrite length_app; simpl; lia).
  split.
  - intros x [Hx| ->%list_elem_of_singleton]%elem_of_app; rewrite Hn; [specialize (Hb x Hx); lia|lia].
  - intros x y [Hx| ->%list_elem_of_singleton]%elem_of_app [Hy| ->%list_elem_of_singleton]%elem_of_app Hid Hver;
      [by apply Hu|specialize (Hlt x Hx Hid); lia|specialize (Hlt y Hy (eq_sym Hid)); lia|done].
Qed.

(** The activation, if the event is one, names the active candidate. *)
Definition names_active (a : RepairAggregateV1) (e : RepairEventV1) : bool :=
  match e with
  | ActivationPrepared d _ _ =>
      match active_candidate a with
      | Some c => (rad_candidate_id d ≟ rcv_candidate_id c)
                  && (rad_expected_candidate_version d =? rcv_candidate_version c)
      | None => false
      end
  | _ => true
  end.
(** Every activation names the candidate that is active when it is folded. *)
Fixpoint activates_active {E} (step : RepairAggregateV1 → E → result RepairAggregateError RepairAggregateV1)
    (event : E → RepairEventV1) (a : RepairAggregateV1) (l : list E) : bool :=
  match l with
  | [] => true
  | e :: l => names_active a (event e)
              && match step a e with Ok a' => activates_active step event a' l | Err _ => true end
  end.
Definition stream_activates_active (group : StableId) (stream : list CommittedRepairEventV1) : bool :=
  activates_active fold_committed cre_event (empty_aggregate group) stream.
Definition batch_activates_active (a : RepairAggregateV1) (events : list RepairEventV1) : bool :=
  activates_active preview_event id a events.

(** What holds besides [repair_inv] when activations name the active candidate. *)
Record activation_inv_active (n : N) (a : RepairAggregateV1) : Prop := {
  aia_count : len (rag_candidates a) ≤ n;
  aia_distinct : candidates_distinct a;
  aia_baton : ∀ b, rag_activation_baton a = Some b →
    ∃ c, active_candidate a = Some c ∧ bat_candidate_id b = rcv_candidate_id c
      ∧ bat_candidate_version b = rcv_candidate_version c
}.

Lemma active_step n a e a' :
  repair_step a e a' → names_active a e = true → n < u64_max →
  activation_inv_active n a → activation_inv_active (n + 1) a'.
Proof.
  intros Hstep Hn Hmax [Hlen Hd Hb]. pose proof Hd as [Hd1 Hd2].
  destruct Hstep; (split; [|split|]); simpl in *; try done; try lia; try (by intros; congruence).
  all: try (match goal with |- len (_ ++ [_]) ≤ _ => unfold len in *; rewrite length_app; simpl; lia end).
  - by eapply (candidate_distinct a c); [|lia|..].
  - by eapply (candidate_distinct a c); [|lia|..].
  - intros b' [= <-].
    match goal with Hbb : baton_binds _ _ _ _ _ _ _ |- _ =>
      destruct Hbb as [_ _ _ _ _ (Hd1' & Hd2' & _) (Hb1 & Hb2 & _) _ _ _ _ _ _] end.
    unfold active_candidate in *. simpl. destruct (last (rag_candidates a)) as [c'|]; [|done]. boolify. exists c'.
    split_and!; congruence.
Qed.

Lemma set_ledger_version_active n v a : activation_inv_active n a → activation_inv_active n (set_ledger_version v a).
Proof. intros [Hl [Hd1 Hd2] Hb]. by split. Qed.

Lemma stream_active n stream a a' :
  fold_res fold_committed a stream = Ok a' → activates_active fold_committed cre_event a stream = true →
  n + len stream ≤ u64_max → activation_inv_active n a → activation_inv_active (n + len stream) a'.
Proof.
  revert n a. unfold len. induction stream as [|e stream IH]; intros n a; simpl.
  - intros [= <-] _ _. by rewrite N.add_0_r.
  - destruct (fold_committed a e) as [a1|] eqn:Hf; [|done]. intros Hr [Hn Hs]%andb_true_iff Hle Hi.
    replace (n + N.of_nat (S (length stream))) with (n + 1 + N.of_nat (length stream)) by lia.
    apply (IH _ a1); [done|done|lia|]. unfold fold_committed in Hf. handler_inv Hf.
    apply set_ledger_version_active. eapply active_step; [by apply apply_repair_event_step|done|lia|done].
Qed.

Lemma rehydrate_active group stream a :
  rehydrate_repair group stream = Ok a → stream_activates_active group stream = true → len stream ≤ u64_max →
  candidates_distinct a
  ∧ ∀ b, rag_activation_baton a = Some b →
      ∃ c, active_candidate a = Some c ∧ bat_candidate_id b = rcv_candidate_id c
        ∧ bat_candidate_version b = rcv_candidate_version c.
Proof.
  intros Hr Hs Hl. destruct (stream_active 0 stream (empty_aggregate group) a Hr Hs) as [_ Hd Hb]; [lia| |done].
  split; [done|split; set_solver|done].
Qed.

(** ** Evidence that covers a plan *)

Lemma contains_duplicate_from_false seen ids :
  contains_duplicate_from seen ids = false →
  NoDup ids ∧ Forall (λ i, as_str i ∉ seen) ids.
Proof.
  revert seen. induction ids as [|i ids IH]; intros seen; simpl; [intros _; split; constructor|].
  intros [Hi Hids]%orb_false_iff. unfold bs_contains in Hi. boolify.
  apply IH in Hids as [Hnd Hseen]. split.
  - apply NoDup_cons. split; [|done]. intros Hin. rewrite Forall_forall in Hseen.
    apply (Hseen _ Hin). set_solver.
  - constructor; [done|]. eapply Forall_impl; [exact Hseen|]. set_solver.
Qed.
Lemma contains_duplicate_ids_false ids : contains_duplicate_ids ids = false → NoDup ids.
Proof. by intros [? _]%contains_duplicate_from_false. Qed.

Lemma evidence_against_plan_ok e plan :
  validate_focused_evidence_against_plan e plan = Ok () →
  length (fve_results e) = length (fvp_checks plan)
  ∧ (fvc_check_id <$> fvp_checks plan) ⊆ (fvr_check_id <$> fve_results e).
Proof.
  unfold validate_focused_evidence_against_plan. intros He. handler_inv He. split.
  - unfold len in *. lia.
  - intros x (check & -> & Hin)%list_elem_of_fmap.
    match goal with E : Forall _ (fvp_checks plan) |- _ =>
      rewrite Forall_forall in E; specialize (E check Hin); simpl in E end.
    boolify. match goal with E : existsb _ _ = true |- _ =>
      apply existsb_true_Exists, Exists_exists in E as (r & Hr & ?) end.
    boolify. apply list_elem_of_fmap. eauto.
Qed.

Lemma plan_ids_NoDup plan :
  validate_focused_verification_plan plan = Ok () → NoDup (fvc_check_id <$> fvp_checks plan).
Proof.
  unfold validate_focused_verification_plan. intros Hp. handler_inv Hp.
  by apply contains_duplicate_ids_false.
Qed.

(** Evidence accepted against a valid plan has one result for each check. *)
Lemma evidence_covers e plan :
  validate_focused_evidence_against_plan e plan = Ok () →
  validate_focused_verification_plan plan = Ok () →
  fvr_check_id <$> fve_results e ≡ₚ fvc_check_id <$> fvp_checks plan.
Proof.
  intros [Hlen Hsub]%evidence_against_plan_ok Hnd%plan_ids_NoDup. symmetry.
  apply NoDup_Permutation_bis.
  - by apply NoDup_ListNoDup.
  - rewrite !length_fmap. lia.
  - intros x Hx%list_elem_of_In. apply list_elem_of_In. by apply Hsub.
Qed.

(** ** Custody of a verified repair *)

(** The baton's checks: its plan is valid, the candidate runs in the next
    generation and a rollback in the one after. *)
Lemma baton_valid b :
  validate_repair_activation_baton b = Ok () →
  validate_focused_verification_plan (bat_verification_plan b) = Ok ()
  ∧ bat_candidate_process_generation b = bat_current_process_generation b + 1
  ∧ bat_rollback_process_generation b = bat_current_process_generation b + 2
  ∧ validate_bootstrap_deadlines (bat_deadlines b) = Ok ().
Proof.
  unfold validate_repair_activation_baton. intros Hb. handler_inv Hb.
  repeat match goal with E : is_err _ = false |- _ => apply is_err_false in E end.
  repeat match goal with E : checked_add _ _ _ = Some _ |- _ => apply checked_add_eq in E as [? _] end.
  done.
Qed.

Lemma activated_passed r b adm e :
  validate_authenticated_result r b adm = Ok () →
  bsr_result (abr_receipt r) = BrActivatedVerified e →
  validate_focused_evidence_against_plan e (bat_verification_plan b) = Ok ()
  ∧ Forall (λ x, fvr_passed x = true) (fve_results e)
  ∧ ∃ adm', adm = Some adm'
      ∧ bsr_recipient_process_generation (abr_receipt r) = adm_candidate_process_generation adm'.
Proof.
  unfold validate_authenticated_result. intros Hv Hk. rewrite Hk in Hv. handler_inv Hv.
  destruct adm as [adm|]; [|done]. case_bool_decide as Hg; [|done]. handler_inv Hv.
  split_and!; [done| |eauto].
  match goal with E : forallb _ _ = true |- _ => rewrite forallb_forall in E end.
  apply Forall_forall. intros x Hx%list_elem_of_In. auto.
Qed.

(** C9: In a stream whose activations name the candidate that was active when they
    were appended, as the orchestrator requires of every activation it commits,
    the candidate [c] that the ledger reports as verified is the one that was
    repaired: an authenticated execution of a recorded investigation produced
    it; the user decided on it by its identity, version and hash, on a fresh
    report of managed-local support for that candidate; the baton carries its
    bundle, plan and rollback point; the helper admitted the baton, the old
    generation quiesced safely, the plan's evidence was submitted and the
    receipt [r] arrived, in that order and before the baton expired; and every
    check of the plan of [c] has exactly one result, which passed. *)
Theorem verified_repair_custody group stream a c r :
  rehydrate_repair group stream = Ok a →
  stream_activates_active group stream = true → len stream ≤ u64_max →
  verified_build a = Some (c, r) →
  ∃ d ck b i rep rc adm f e t,
    [ActivationPrepared d ck b; BootstrapAdmissionAccepted adm; CoreQuiesced f;
     FocusedVerificationSubmitted (bat_activation_id b) (bat_candidate_process_generation b) e;
     BootstrapResultReconciled t r] `sublist_of` (cre_event <$> stream)
    ∧ registered_under (cre_event <$> stream) group c rc
    ∧ InvestigationStarted i ∈ (cre_event <$> stream)
    ∧ baton_binds group d ck b c rep i
    ∧ validate_capability_report_shape rep = Ok () ∧ report_binds rep c
    ∧ admission_binds adm b ∧ quiescence_safe f b
    ∧ bsr_sealed_at_epoch_ms (abr_receipt r) ≤ t ∧ t ≤ bat_expires_at_epoch_ms b
    ∧ bsr_recipient_process_generation (abr_receipt r) = bat_current_process_generation b + 1
    ∧ bsr_result (abr_receipt r) = BrActivatedVerified e
    ∧ fvr_check_id <$> fve_results e
        ≡ₚ fvc_check_id <$> fvp_checks (rds_verification_plan (rcv_disclosure c))
    ∧ Forall (λ x, fvr_passed x = true) (fve_results e).
Proof.
  intros Hfold Hactive Hlen Hv. pose proof (rehydrate_active _ _ _ Hfold Hactive Hlen) as [Hdist Hnamed].
  apply rehydrate_inv in Hfold as [Hg Hi].
  unfold verified_build in Hv. apply bind_Some in Hv as (r' & Hr & Hv).
  destruct (is_activated r') eqn:Hact; [|done]. simpl in Hv.
  apply bind_Some in Hv as (c' & Hc' & [= -> <-]).
  destruct (rinv_result _ _ Hi _ Hr) as (b & Hb & _ & Hx).
  destruct (Hx Hact) as (t & Hexp & Hseal & Hsub & Hval & e & Hk & He).
  destruct (rinv_verification _ _ Hi _ He) as [[f Hf]%is_some_true _].
  destruct (rinv_quiescence _ _ Hi _ Hf) as [[adm Hadm]%is_some_true (b1 & Hb1 & Hsafe)].
  destruct (rinv_admission _ _ Hi _ Hadm) as (_ & b2 & Hb2 & Hbind).
  destruct (rinv_baton _ _ Hi _ Hb) as (d & ck & c0 & rep & i & Hd & Hck & Hiv & Hc0 & Hrep & Hlast & Hbb).
  simplify_eq. destruct (baton_valid b) as (Hplan & Hgen & _); [by destruct Hbb|].
  assert (c ∈ rag_candidates a) as Hc by (by apply last_Some_elem_of).
  assert (c0 = c) as ->.
  { destruct (Hnamed b Hb) as (c1 & Hc1 & Hid & Hver). assert (c1 = c) as -> by congruence.
    destruct Hbb as [_ _ _ _ _ _ (Hid0 & Hver0 & _) _ _ _ _ _ _].
    apply (cd_unique _ Hdist); [done|done|congruence|congruence]. }
  assert (report_binds rep c) as Hrb.
  { destruct (rinv_report _ _ Hi rep) as (_ & c1 & Hc1 & Hrb).
    - apply Hlast. unfold prior_activation_was_unsupported, is_unsupported. by rewrite Hr, Hk.
    - congruence. }
  destruct (activated_passed _ _ _ _ Hval Hk) as (Hcov & Hpass & adm' & Hadm' & Hrg).
  rewrite Hadm in Hadm'. injection Hadm' as <-.
  apply list_elem_of_lookup in Hc0 as [n Hn].
  destruct (Forall2_lookup_l _ _ _ _ _ (rinv_candidates _ _ Hi) Hn) as (rc & _ & Hreg).
  destruct (rinv_investigation _ _ Hi _ Hiv) as [Hin _].
  exists d, ck, b, i, rep, rc, adm, f, e, t.
  unfold handoff_chain in Hsub. rewrite Hd, Hck, Hb, Hadm, Hf, He in Hsub.
  pose proof Hbb as Hbb'. destruct Hbb' as [_ _ _ _ _ _ _ (_ & _ & Hp) _ _ _ _ _].
  rewrite <-Hp. split_and!; try done.
  - destruct Hbind as (_ & _ & ? & _). congruence.
  - by apply evidence_covers.
Qed.

(** ** A handoff in flight *)

(** What a handoff without a result pins down. *)
Definition same_handoff (a a' : RepairAggregateV1) : Prop :=
  rag_activation_baton a' = rag_activation_baton a
  ∧ rag_bootstrap_result a' = rag_bootstrap_result a
  ∧ rag_candidates a' = rag_candidates a
  ∧ rag_candidate_execution_receipts a' = rag_candidate_execution_receipts a
  ∧ rag_investigation a' = rag_investigation a
  ∧ rag_latest_capability_report a' = rag_latest_capability_report a
  ∧ rag_candidate_decision a' = rag_candidate_decision a
  ∧ rag_activation_decision a' = rag_activation_decision a
  ∧ rag_management_checkpoint a' = rag_management_checkpoint a.

Lemma step_same_handoff a e a' b :
  repair_step a e a' → rag_activation_baton a = Some b → rag_bootstrap_result a = None →
  same_handoff a a'
  ∨ ∃ t r, e = BootstrapResultReconciled t r ∧ t ≤ bat_expires_at_epoch_ms b
      ∧ validate_authenticated_result r b (rag_bootstrap_admission a) = Ok ().
Proof.
  intros Hstep Hb Hr.
  assert (prior_activation_was_unsupported a = false) as Hu.
  { unfold prior_activation_was_unsupported. by rewrite Hr. }
  destruct Hstep; try (left; by repeat split); destruct_or?; simplify_eq/=; try congruence.
  1: by rewrite Hr in *.
  all: right; eauto 10.
Qed.

(** C12: While an activation has no result, nothing that is folded replaces its
    baton, candidate, capability report, investigation, checkpoint or decision;
    the only way out is a receipt bound to that baton and reconciled before the
    baton expires. *)
Theorem handoff_exclusive a events a' b :
  preview a events = Ok a' →
  rag_activation_baton a = Some b → rag_bootstrap_result a = None →
  same_handoff a a'
  ∨ ∃ t r adm, BootstrapResultReconciled t r ∈ events ∧ t ≤ bat_expires_at_epoch_ms b
      ∧ validate_authenticated_result r b adm = Ok ().
Proof.
  intros Hp Hb Hr. revert Hp.
  apply (fold_res_inv preview_event (λ l s, same_handoff a s
    ∨ ∃ t r adm, BootstrapResultReconciled t r ∈ l ∧ t ≤ bat_expires_at_epoch_ms b
        ∧ validate_authenticated_result r b adm = Ok ())); [by left|].
  intros l x s1 s2 [Hs|(t & r & adm & Hin & ?)] Hf; [|right; exists t, r, adm; set_solver].
  unfold preview_event in Hf. handler_inv Hf. apply apply_repair_event_step in Hf0.
  destruct Hs as (Hb1 & Hr1 & Hs).
  destruct (step_same_handoff _ _ _ b Hf0) as [Hs2|(t & r & -> & ? & ?)]; [congruence..| |].
  - left. destruct Hs2 as (? & ? & Hs2). unfold same_handoff. simpl.
    destruct_and!. split_and!; congruence.
  - right. exists t, r. eexists. split_and!; [set_solver|done|done].
Qed.

(** ** A pending enrollment whose candidate was rejected *)

Definition enrollment_wedged (a : RepairAggregateV1) : Prop :=
  enrollment_pending a = true ∧ rag_activation_baton a = None
  ∧ rag_phase a ≠ Some RpEnrollmentPending.

Lemma step_wedged a e a' :
  repair_step a e a' → enrollment_wedged a → (∀ p, e ≠ EnrollmentPrepared p) → enrollment_wedged a'.
Proof.
  intros Hstep (Hp & Hb & Hph) Hne. unfold enrollment_wedged, enrollment_pending in *.
  destruct Hstep; simpl in *; try congruence; try (by split_and!).
  - split_and!; [done..|]. destruct_or!; congruence.
  - unfold enrollment_pending in *. congruence.
  - destruct (rag_enrollment_request a); simplify_eq/=.
  - destruct (rag_enrollment_request a); simplify_eq/=.
  - by destruct (Hne p).
  - unfold enrollment_pending in *. congruence.
Qed.

(** ** Appending to a stream *)

(** The events of a batch as the ledger stores them after version [v]. *)
Fixpoint commit_batch (group operation : StableId) (v : N) (events : list RepairEventV1) :
    list CommittedRepairEventV1 :=
  match events with
  | [] => []
  | e :: events =>
      MkCommittedRepair group (v + 1) operation e :: commit_batch group operation (v + 1) events
  end.

Lemma apply_repair_event_frame a e a' :
  apply_repair_event a e = Ok a' →
  rag_ledger_version a' = rag_ledger_version a ∧ rag_group_id a' = rag_group_id a.
Proof. intros Hs%apply_repair_event_step. by destruct Hs. Qed.

Lemma fold_res_app {E A S} (f : S → A → result E S) s l k :
  fold_res f s (l ++ k) = (s' ← fold_res f s l; fold_res f s' k).
Proof. revert s. induction l as [|x l IH]; intros s; simpl; [done|]. by destruct (f s x); simpl. Qed.

(** Replaying a stream extended by a committed batch is the preview of the
    batch on the replay of the stream. *)
Theorem replay_is_preview group stream a operation events :
  rehydrate_repair group stream = Ok a →
  rag_ledger_version a + len events ≤ u64_max →
  rehydrate_repair group (stream ++ commit_batch group operation (rag_ledger_version a) events)
  = preview a events.
Proof.
  intros Hr. pose proof (rehydrate_inv _ _ _ Hr) as [Hg _].
  unfold rehydrate_repair, preview in *. rewrite fold_res_app, Hr. simpl. clear Hr.
  revert a Hg. induction events as [|e events IH]; intros a Hg Hlen; [done|]. simpl.
  unfold len in Hlen. cbn [length] in Hlen.
  unfold fold_committed, preview_event. simpl. unfold saturating_add.
  rewrite N.min_l by lia. rewrite !bool_decide_eq_true_2 by done. simpl.
  destruct (apply_repair_event a e) as [a1|err] eqn:Ha; simpl; [|done].
  apply apply_repair_event_frame in Ha as [Hv Hg1]. rewrite Hv, N.min_l by lia.
  etrans; [|apply IH]; simpl; [done|congruence|unfold len; lia].
Qed.

(** A batch whose activations name the active candidate keeps the stream so. *)
Lemma append_activates_active group stream a operation events :
  rehydrate_repair group stream = Ok a → stream_activates_active group stream = true →
  rag_ledger_version a + len events ≤ u64_max → batch_activates_active a events = true →
  stream_activates_active group (stream ++ commit_batch group operation (rag_ledger_version a) events) = true.
Proof.
  intros Hr. pose proof (rehydrate_inv _ _ _ Hr) as [Hg _]. unfold rehydrate_repair, stream_activates_active in *.
  revert Hr. generalize (empty_aggregate group) as a0. induction stream as [|x stream IH]; intros a0; cbn [fold_res app].
  - intros [= ->] _. unfold batch_activates_active.
    revert a Hg. induction events as [|e events IH]; intros a Hg Hlen; [done|]. simpl.
    unfold len in Hlen. cbn [length] in Hlen.
    intros [Hn Hs]%andb_true_iff. rewrite Hn. simpl. unfold fold_committed, preview_event in *. simpl.
    unfold saturating_add in *. rewrite N.min_l by lia. rewrite !bool_decide_eq_true_2 by done. simpl.
    destruct (apply_repair_event a e) as [a1|err] eqn:Ha; simpl in *; [|done].
    apply apply_repair_event_frame in Ha as [Hv Hg1]. rewrite Hv, N.min_l in Hs by lia.
    apply (IH (set_ledger_version (rag_ledger_version a + 1) a1)); simpl; [congruence|unfold len; lia|exact Hs].
  - cbn [activates_active]. destruct (fold_committed a0 x) as [a1|]; [|done].
    intros Hr [Hn Hs]%andb_true_iff. rewrite Hn. by apply IH.
Qed.
End proofs.
