(* ===== verification/RepairOrchestrator.v ===== *)
(** * The repair orchestrator
    ([crates/aworkit-trusted-core/src/repair/{ports.rs,orchestrator/,model/commands.rs}])

    The commands of [RepairOrchestratorV1].  Its six ports (ledger, bootstrap
    helper, investigations, management checkpoints, quiescence, artifacts) are
    other programs: a command is an interaction [prog], a tree that asks a port
    and continues with any answer the port may give, errors included.  [run_prog]
    executes a command against an environment and records the conversation. *)
From S2P Require Export RepairAggregate.

Local Open Scope repair_scope.

(** ** Ports ([ports.rs]) *)

Record RepairPortErrorV1 : Type := MkRepairPortError {
  rpe_code : string;
  rpe_message : string;
  rpe_retryable : bool
}.

Record RepairLedgerAppendV1 : Type := MkLedgerAppend {
  rla_operation_id : StableId;
  rla_group_id : StableId;
  rla_expected_ledger_version : N;
  rla_events : list RepairEventV1
}.
Record RepairLedgerAppendOutcomeV1 : Type := MkAppendOutcome {
  rlo_ledger_version : N;
  rlo_duplicate : bool
}.
Record RepairLedgerOperationV1 : Type := MkLedgerOperation {
  rlp_operation_id : StableId;
  rlp_group_id : StableId;
  rlp_events : list RepairEventV1
}.
#[export] Instance RepairLedgerOperationV1_eq_dec : EqDecision RepairLedgerOperationV1.
Proof. solve_decision. Defined.

Record RepairInvestigationDispatchV1 : Type := MkRepairDispatch {
  ridp_operation_id : StableId;
  ridp_investigation : RepairInvestigationV1
}.
Record InvestigationExecutionReceiptQueryV1 : Type := MkReceiptQuery {
  ierq_operation_id : StableId;
  ierq_receipt_id : StableId;
  ierq_investigation_id : StableId;
  ierq_candidate_id : StableId;
  ierq_candidate_version : N;
  ierq_candidate_hash : string
}.

Inductive RepairArtifactVerificationPurposeV1 : Type :=
| VpErrorOccurrence | VpCandidateRegistration | VpEnrollment | VpActivation
| VpFocusedVerification.
Record RepairArtifactVerificationRequestV1 : Type := MkVerificationRequest {
  ravr_operation_id : StableId;
  ravr_purpose : RepairArtifactVerificationPurposeV1;
  ravr_artifact : RepairArtifactRefV1
}.
Inductive RepairArtifactReadinessV1 : Type :=
| ArReady (artifact_id : StableId) (observed_content_hash : string) (observed_byte_size : N)
| ArMissing (artifact_id : StableId)
| ArUnavailable (artifact_id : StableId) (reason : string).

Record ActivationCapabilityQueryV1 : Type := MkCapabilityQuery {
  acq_operation_id : StableId;
  acq_group_id : StableId;
  acq_candidate : RepairCandidateV1;
  acq_now_epoch_ms : N
}.
Record BootstrapResultQueryV1 : Type := MkResultQuery {
  brq_operation_id : StableId;
  brq_activation_id : StableId;
  brq_recipient_process_generation : ProcessGeneration
}.
Record ManagementCheckpointRequestV1 : Type := MkCheckpointRequest {
  mcr_operation_id : StableId;
  mcr_activation_id : StableId;
  mcr_group_id : StableId;
  mcr_candidate_id : StableId;
  mcr_candidate_version : N;
  mcr_management_chat_id : StableId;
  mcr_management_run_id : StableId
}.
Record ManagementResumeRequestV1 : Type := MkResumeRequest {
  mrr_receipt_id : StableId;
  mrr_activation_id : StableId;
  mrr_checkpoint : ManagementCheckpointRefV1;
  mrr_recipient_process_generation : ProcessGeneration
}.
Record CoreQuiescenceRequestV1 : Type := MkQuiescenceRequest {
  cqr_activation_id : StableId;
  cqr_process_generation : ProcessGeneration;
  cqr_deadline_ms : N
}.

(** The methods of the port traits, and the type each one returns on success. *)
Inductive port_call : Type :=
| LoadGroup (group_id : StableId)
| Append (request : RepairLedgerAppendV1)
| LoadOperation (group_id operation_id : StableId)
| Dispatch (request : RepairInvestigationDispatchV1)
| ReadExecutionReceipt (query : InvestigationExecutionReceiptQueryV1)
| VerifyReady (request : RepairArtifactVerificationRequestV1)
| QueryActivationCapability (query : ActivationCapabilityQueryV1)
| PrepareManagedLocalEnrollment (request : ManagedLocalEnrollmentRequestV1)
| AdmitActivation (baton : RepairActivationBatonV1)
| RecordCoreQuiescence (admission_id : StableId) (facts : CoreQuiescenceFactsV1)
| SubmitFocusedVerification (activation_id : StableId) (evidence : FocusedVerificationEvidenceV1)
| ReadResult (query : BootstrapResultQueryV1)
| CreateCheckpoint (request : ManagementCheckpointRequestV1)
| ResumeSameChat (request : ManagementResumeRequestV1)
| QuiesceCurrentGeneration (request : CoreQuiescenceRequestV1).

Definition port_value (c : port_call) : Type :=
  match c with
  | LoadGroup _ => list CommittedRepairEventV1
  | Append _ => RepairLedgerAppendOutcomeV1
  | LoadOperation _ _ => option RepairLedgerOperationV1
  | ReadExecutionReceipt _ => AuthenticatedInvestigationExecutionReceiptV1
  | VerifyReady _ => RepairArtifactReadinessV1
  | QueryActivationCapability _ => PlatformCapabilityReportV1
  | PrepareManagedLocalEnrollment _ => EnrollmentPreparedV1
  | AdmitActivation _ => BootstrapAdmissionV1
  | ReadResult _ => option AuthenticatedBootstrapResultV1
  | CreateCheckpoint _ => ManagementCheckpointRefV1
  | QuiesceCurrentGeneration _ => CoreQuiescenceFactsV1
  | Dispatch _ | RecordCoreQuiescence _ _ | SubmitFocusedVerification _ _ | ResumeSameChat _ => ()
  end.
Definition port_reply (c : port_call) : Type := result RepairPortErrorV1 (port_value c).

(** The default [load_operation]: the events of the group stored under the key. *)
Definition operation_events (operation_id : StableId) (stream : list CommittedRepairEventV1) :
    list RepairEventV1 :=
  cre_event <$> filter (λ e, cre_operation_id e = operation_id) stream.
Definition scan_operation (group_id operation_id : StableId)
    (stream : list CommittedRepairEventV1) : option RepairLedgerOperationV1 :=
  let matching := operation_events operation_id stream in
  if is_nil matching then None else Some (MkLedgerOperation operation_id group_id matching).

(** ** Interactions *)

Inductive prog (A : Type) : Type :=
| Done (a : A)
| Call (c : port_call) (k : port_reply c → prog A).
Arguments Done {A} a.
Arguments Call {A} c k.

Fixpoint prog_bind {A B} (p : prog A) (f : A → prog B) : prog B :=
  match p with
  | Done a => f a
  | Call c k => Call c (λ r, prog_bind (k r) f)
  end.

(** One exchange with a port, and the conversation of a run. *)
Inductive exchange : Type := Exchange (c : port_call) (r : port_reply c).
Abbreviation conversation := (list exchange).

Fixpoint run_prog {S A} (env : ∀ c, S → port_reply c * S) (s : S) (p : prog A) : conversation * A * S :=
  match p with
  | Done a => ([], a, s)
  | Call c k =>
      let '(r, s) := env c s in
      let '(t, a, s) := run_prog env s (k r) in (Exchange c r :: t, a, s)
  end.

(** ** Errors *)

Inductive RepairError : Type :=
| CorruptLedger (e : RepairAggregateError)
| Port (boundary : string) (source : RepairPortErrorV1)
| StaleLedgerVersion (expected actual : N)
| GroupMissing
| CandidateMismatch
| InvestigationMismatch
| InvalidContract (reason : string)
| ActivationUnavailable (eligibility : ActivationEligibilityV1)
| OperationAlreadyActive
| BootstrapResultMissing
| UnsafeQuiescence
| ArtifactNotReady (artifact_id : StableId) (reason : string)
| OperationConflict.

(** A method of the orchestrator: [?] ends it with the error. *)
Definition orc (A : Type) : Type := prog (result RepairError A).
#[export] Instance orc_ret : MRet orc := λ A a, Done (Ok a).
#[export] Instance orc_bind : MBind orc := λ A B f p,
  prog_bind p (λ r, match r with Ok a => f a | Err e => Done (Err e) end).

Definition ask (boundary : string) (c : port_call) : orc (port_value c) :=
  Call c (λ r, Done (map_err (Port boundary) r)).
Definition olift {A} (r : result RepairError A) : orc A := Done r.
Definition ofail {A} (e : RepairError) : orc A := Done (Err e).
Definition ofail_if (b : bool) (e : RepairError) : orc () := Done (fail_if b e).
Definition contract {A} (r : result string A) : orc A := Done (map_err InvalidContract r).
Definition oneed {A} (o : option A) (e : RepairError) : orc A := Done (ok_or o e).

(** ** Commands ([model/commands.rs]) *)

Record RecordRecurringFailureV1 : Type := MkRecordFailure {
  rrf_operation_id : StableId;
  rrf_group_id : StableId;
  rrf_expected_ledger_version : N;
  rrf_occurrence : ErrorOccurrenceV1
}.
Record StartInvestigationV1 : Type := MkStartInvestigation {
  sti_operation_id : StableId;
  sti_expected_ledger_version : N;
  sti_investigation_id : StableId;
  sti_explicit_user_decision_id : StableId;
  sti_group_id : StableId;
  sti_management_chat_id : StableId;
  sti_management_run_id : StableId;
  sti_requested_capability_ids : list StableId;
  sti_budget : RepairInvestigationBudgetV1
}.
Record RegisterRepairCandidateV1 : Type := MkRegisterCandidate {
  rrc_operation_id : StableId;
  rrc_expected_ledger_version : N;
  rrc_investigation_id : StableId;
  rrc_execution_receipt_id : StableId;
  rrc_expected_execution_receipt_hash : string;
  rrc_candidate : RepairCandidateV1
}.
Record QueryActivationCapabilityV1 : Type := MkQueryCapability {
  qac_operation_id : StableId;
  qac_expected_ledger_version : N;
  qac_group_id : StableId;
  qac_candidate_id : StableId;
  qac_expected_candidate_version : N;
  qac_expected_candidate_hash : string;
  qac_now_epoch_ms : N
}.
Record RequestManagedLocalEnrollmentV1 : Type := MkRequestEnrollment {
  rme_operation_id : StableId;
  rme_request_id : StableId;
  rme_explicit_user_decision_id : StableId;
  rme_expected_ledger_version : N;
  rme_group_id : StableId;
  rme_candidate_id : StableId;
  rme_expected_candidate_version : N;
  rme_expected_candidate_hash : string;
  rme_expected_capability_report_id : StableId;
  rme_expected_capability_digest : string;
  rme_now_epoch_ms : N
}.
Record RejectCandidateV1 : Type := MkRejectCandidate {
  rjc_operation_id : StableId;
  rjc_expected_ledger_version : N;
  rjc_group_id : StableId;
  rjc_decision : RepairCandidateDecisionV1
}.
Record ActivateAndRestartV1 : Type := MkActivate {
  aar_operation_id : StableId;
  aar_expected_ledger_version : N;
  aar_group_id : StableId;
  aar_activation_id : StableId;
  aar_baton_id : StableId;
  aar_explicit_user_decision_id : StableId;
  aar_candidate_id : StableId;
  aar_expected_candidate_version : N;
  aar_expected_candidate_hash : string;
  aar_expected_capability_report_id : StableId;
  aar_expected_capability_digest : string;
  aar_current_process_generation : ProcessGeneration;
  aar_deadlines : BootstrapDeadlinesV1;
  aar_now_epoch_ms : N
}.
Record CompleteFocusedVerificationEvidenceV1 : Type := MkCompleteVerification {
  cfv_operation_id : StableId;
  cfv_expected_ledger_version : N;
  cfv_group_id : StableId;
  cfv_activation_id : StableId;
  cfv_current_process_generation : ProcessGeneration;
  cfv_evidence : FocusedVerificationEvidenceV1
}.
Record ReconcileBootstrapResultV1 : Type := MkReconcile {
  rbr_operation_id : StableId;
  rbr_expected_ledger_version : N;
  rbr_group_id : StableId;
  rbr_activation_id : StableId;
  rbr_current_process_generation : ProcessGeneration;
  rbr_now_epoch_ms : N
}.
Inductive ActivationHandoffOutcomeV1 : Type :=
| HoUnsupported (receipt : BootstrapResultV1)
| HoReadyForCoreExit (baton : RepairActivationBatonV1) (admission : BootstrapAcceptedAdmissionV1)
    (quiescence : CoreQuiescenceFactsV1).
Record BootstrapReconciliationOutcomeV1 : Type := MkReconciliationOutcome {
  bro_duplicate : bool;
  bro_receipt : BootstrapResultV1;
  bro_resume_dispatched : bool
}.

(** ** Loading and appending ([orchestrator/service.rs]) *)

Record AppendResult : Type := MkAppendResult {
  apr_aggregate : RepairAggregateV1;
  apr_duplicate : bool
}.

Definition ensure_version (aggregate : RepairAggregateV1) (expected : N) : result RepairError () :=
  fail_if (negb (rag_ledger_version aggregate =? expected))
    (StaleLedgerVersion expected (rag_ledger_version aggregate)).

Definition active_candidate_exact (aggregate : RepairAggregateV1) (candidate_id : StableId)
    (version : N) (hash : string) : result RepairError RepairCandidateV1 :=
  match active_candidate aggregate with
  | Some c =>
      if (rcv_candidate_id c ≟ candidate_id) && (rcv_candidate_version c =? version)
         && (rcv_candidate_hash c ≟ hash)
      then Ok c else Err CandidateMismatch
  | None => Err CandidateMismatch
  end.

Definition validate_append_outcome (before preview : RepairAggregateV1)
    (outcome : RepairLedgerAppendOutcomeV1) : result RepairError () :=
  let valid := if rlo_duplicate outcome
    then rag_ledger_version before <=? rlo_ledger_version outcome
    else rlo_ledger_version outcome =? rag_ledger_version preview in
  fail_if (negb valid)
    (InvalidContract "repair ledger returned an invalid append acknowledgement").

Section orchestrator.
Context `{Sha256, RepairSerialize}.

Definition exact_report (aggregate : RepairAggregateV1) (report_id : StableId) (digest : string)
    (now_epoch_ms : N) : result RepairError PlatformCapabilityReportV1 :=
  report ← ok_or (rag_latest_capability_report aggregate)
    (InvalidContract "activation capability has not been queried");
  _ ← fail_if ((pcr_report_id report ≠? report_id) || (pcr_capability_digest report ≠? digest))
        (InvalidContract "activation capability decision is stale");
  _ ← map_err InvalidContract (validate_capability_report_fresh report now_epoch_ms);
  Ok report.

Definition derived_id (prefix : string) (source : StableId) : result RepairError StableId :=
  let digest := sha256_hex (as_bytes (as_str source)) in
  map_err (λ _, InvalidContract "derived repair id is invalid")
    (StableId_parse ("repair." +:+ prefix +:+ "." +:+ str_take 24 digest)).

Definition load_aggregate (group_id : StableId) : orc RepairAggregateV1 :=
  events ← ask "repair ledger read" (LoadGroup group_id);
  olift (map_err CorruptLedger (rehydrate_repair group_id events)).

Definition load_operation (group_id operation_id : StableId) :
    orc (option RepairLedgerOperationV1) :=
  indexed ← ask "repair operation lookup" (LoadOperation group_id operation_id);
  committed ← ask "repair ledger read" (LoadGroup group_id);
  _ ← olift (map_err CorruptLedger (rehydrate_repair group_id committed));
  let canonical := scan_operation group_id operation_id committed in
  _ ← ofail_if (indexed ≠? canonical)
        (InvalidContract "repair operation index does not match the committed stream");
  mret canonical.

Definition append_and_reload (aggregate : RepairAggregateV1) (operation_id : StableId)
    (events : list RepairEventV1) : orc AppendResult :=
  _ ← ofail_if (is_nil events) (InvalidContract "repair ledger append cannot be empty");
  existing ← load_operation (rag_group_id aggregate) operation_id;
  match existing with
  | Some existing =>
      if rlp_events existing ≠? events then ofail OperationConflict else
      aggregate ← load_aggregate (rag_group_id aggregate);
      mret (MkAppendResult aggregate true)
  | None =>
      previewed ← olift (map_err CorruptLedger (preview aggregate events));
      outcome ← ask "repair ledger append"
        (Append (MkLedgerAppend operation_id (rag_group_id aggregate)
                   (rag_ledger_version aggregate) events));
      _ ← olift (validate_append_outcome aggregate previewed outcome);
      reloaded ← load_aggregate (rag_group_id aggregate);
      _ ← ofail_if (rag_ledger_version reloaded <? rag_ledger_version previewed)
            (InvalidContract "repair ledger acknowledgement is not durably readable");
      mret (MkAppendResult reloaded (rlo_duplicate outcome))
  end.

(** ** Exact artifacts ([orchestrator/artifacts.rs]) *)

Definition check_readiness (expected : RepairArtifactRefV1) (readiness : RepairArtifactReadinessV1) :
    result RepairError () :=
  match readiness with
  | ArReady artifact_id hash size =>
      fail_if (negb ((artifact_id ≟ rar_artifact_id expected)
                     && (hash ≟ rar_content_hash expected) && (size =? rar_byte_size expected)))
        (ArtifactNotReady artifact_id "identity, content hash, or byte size mismatch")
  | ArMissing artifact_id => Err (ArtifactNotReady artifact_id "missing")
  | ArUnavailable artifact_id _ => Err (ArtifactNotReady artifact_id "unavailable")
  end.

Fixpoint verify_artifacts (operation_id : StableId) (purpose : RepairArtifactVerificationPurposeV1)
    (artifacts : list RepairArtifactRefV1) : orc () :=
  match artifacts with
  | [] => mret ()
  | expected :: artifacts =>
      readiness ← ask "repair artifact exact read"
        (VerifyReady (MkVerificationRequest operation_id purpose expected));
      _ ← olift (check_readiness expected readiness);
      verify_artifacts operation_id purpose artifacts
  end.

Definition verify_occurrence_artifacts (operation_id : StableId) (occurrence : ErrorOccurrenceV1) :
    orc () :=
  verify_artifacts operation_id VpErrorOccurrence (eoc_evidence occurrence).

Definition disclosure_artifacts (d : RepairEvidenceDisclosureV1) : list RepairArtifactRefV1 :=
  match d with EdEvidence _ evidence => evidence | _ => [] end.

Definition candidate_artifacts (candidate : RepairCandidateV1) : list RepairArtifactRefV1 :=
  [bbr_artifact (rcv_build_bundle candidate);
   bbr_artifact (rds_rollback_point (rcv_disclosure candidate))]
  ++ disclosure_artifacts (rds_source_diff (rcv_disclosure candidate))
  ++ disclosure_artifacts (rds_configuration_diff (rcv_disclosure candidate))
  ++ disclosure_artifacts (rds_tests (rcv_disclosure candidate))
  ++ disclosure_artifacts (rds_benchmarks (rcv_disclosure candidate)).

Definition verify_candidate_artifacts (operation_id : StableId)
    (purpose : RepairArtifactVerificationPurposeV1) (candidate : RepairCandidateV1) : orc () :=
  verify_artifacts operation_id purpose (candidate_artifacts candidate).

Definition verify_activation_artifacts (operation_id : StableId) (candidate : RepairCandidateV1)
    (report : PlatformCapabilityReportV1) : orc () :=
  _ ← verify_candidate_artifacts operation_id VpActivation candidate;
  verify_artifacts operation_id VpActivation
    (bbr_artifact (pcr_current_build report)
     :: (bbr_artifact <$> option_list (pcr_previous_working_build report))).

Definition verify_enrollment_artifacts (operation_id : StableId)
    (request : ManagedLocalEnrollmentRequestV1) : orc () :=
  verify_artifacts operation_id VpEnrollment [bbr_artifact (mer_whole_bundle request)].

Definition evidence_artifacts (evidence : FocusedVerificationEvidenceV1) :
    list RepairArtifactRefV1 :=
  mjoin (fvr_evidence <$> fve_results evidence).

Definition verify_result_artifacts (operation_id : StableId) (r : BootstrapResultKindV1) : orc () :=
  verify_artifacts operation_id VpFocusedVerification
    match r with
    | BrActivatedVerified evidence => evidence_artifacts evidence
    | BrRolledBack _ rollback_evidence => rollback_evidence
    | BrUnsupported _ | BrManualRecoveryRequired _ _ _ => []
    end.

Definition verify_focused_evidence_artifacts (operation_id : StableId)
    (evidence : FocusedVerificationEvidenceV1) : orc () :=
  verify_artifacts operation_id VpFocusedVerification (evidence_artifacts evidence).

(** ** Failures, investigations, candidates, capability and decisions
    ([orchestrator/commands.rs]) *)

Definition recorded_failure_exact (occurrence : ErrorOccurrenceV1) (events : list RepairEventV1) :
    bool :=
  match events with
  | [FailureRecorded recorded] => recorded ≟ occurrence
  | [FailureRecorded recorded; RegressionRecorded regression] =>
      (recorded ≟ occurrence)
      && (rrg_occurrence_id regression ≟ eoc_occurrence_id occurrence)
  | _ => false
  end.

Definition regression_events (aggregate : RepairAggregateV1) (occurrence : ErrorOccurrenceV1) :
    result RepairError (list RepairEventV1) :=
  match verified_build aggregate with
  | Some (candidate, result) =>
      regression_id ← derived_id "regression" (eoc_occurrence_id occurrence);
      Ok [RegressionRecorded (MkRegression regression_id (eoc_occurrence_id occurrence)
            (rcv_candidate_id candidate) (bsr_receipt_id (abr_receipt result)))]
  | None => Ok []
  end.

Definition record_recurring_failure (command : RecordRecurringFailureV1) : orc RepairAggregateV1 :=
  resolved_group ← olift (map_err (λ _, InvalidContract "invalid recurring-error fingerprint")
    (repair_group_id_for_fingerprint_v1 (eoc_fingerprint (rrf_occurrence command))));
  _ ← ofail_if (resolved_group ≠? rrf_group_id command)
        (InvalidContract "group id is not the stable fingerprint resolution");
  existing ← load_operation (rrf_group_id command) (rrf_operation_id command);
  match existing with
  | Some existing =>
      if negb (recorded_failure_exact (rrf_occurrence command) (rlp_events existing))
      then ofail OperationConflict else load_aggregate (rrf_group_id command)
  | None =>
      _ ← contract (validate_occurrence (rrf_occurrence command));
      _ ← verify_occurrence_artifacts (rrf_operation_id command) (rrf_occurrence command);
      aggregate ← load_aggregate (rrf_group_id command);
      regression ← olift (regression_events aggregate (rrf_occurrence command));
      _ ← olift (ensure_version aggregate (rrf_expected_ledger_version command));
      appended ← append_and_reload aggregate (rrf_operation_id command)
        (FailureRecorded (rrf_occurrence command) :: regression);
      mret (apr_aggregate appended)
  end.

Definition investigation_of (command : StartInvestigationV1) (authority : FrozenRepairAuthorityV1) :
    RepairInvestigationV1 :=
  MkInvestigation (sti_investigation_id command) (sti_explicit_user_decision_id command)
    (sti_group_id command) (sti_management_chat_id command) (sti_management_run_id command)
    authority (sti_budget command).

Definition start_bounded_investigation (command : StartInvestigationV1)
    (frozen_authority : AuthorityManifestV1) : orc RepairInvestigationV1 :=
  authority ← contract (freeze_investigation_authority frozen_authority
                          (sti_requested_capability_ids command));
  let investigation := investigation_of command authority in
  let dispatch := ask "repair investigation dispatch"
    (Dispatch (MkRepairDispatch (sti_operation_id command) investigation)) in
  existing ← load_operation (sti_group_id command) (sti_operation_id command);
  match existing with
  | Some existing =>
      (* The stored investigation has every field of the command and its authority. *)
      if rlp_events existing ≠? [InvestigationStarted investigation] then ofail OperationConflict else
      aggregate ← load_aggregate (sti_group_id command);
      _ ← ofail_if (rag_investigation aggregate ≠? Some investigation) OperationConflict;
      if rag_phase aggregate ≠? Some RpInvestigating then mret investigation else
      _ ← dispatch;
      mret investigation
  | None =>
      _ ← contract (validate_investigation investigation);
      aggregate ← load_aggregate (sti_group_id command);
      _ ← olift (ensure_version aggregate (sti_expected_ledger_version command));
      _ ← ofail_if (negb (is_some (rag_fingerprint aggregate))) GroupMissing;
      appended ← append_and_reload aggregate (sti_operation_id command)
        [InvestigationStarted investigation];
      _ ← ofail_if ((rag_investigation (apr_aggregate appended) ≠? Some investigation)
                    || (rag_phase (apr_aggregate appended) ≠? Some RpInvestigating))
            OperationConflict;
      _ ← dispatch;
      mret investigation
  end.

Definition registered_exact (command : RegisterRepairCandidateV1) (events : list RepairEventV1) :
    bool :=
  match events with
  | [CandidateRegistered candidate receipt] =>
      (candidate ≟ rrc_candidate command)
      && (ier_investigation_id (aer_receipt receipt) ≟ rrc_investigation_id command)
      && (ier_receipt_id (aer_receipt receipt) ≟ rrc_execution_receipt_id command)
      && (ier_receipt_hash (aer_receipt receipt) ≟ rrc_expected_execution_receipt_hash command)
  | _ => false
  end.

Definition register_repair_candidate (command : RegisterRepairCandidateV1) :
    orc RepairAggregateV1 :=
  let candidate := rrc_candidate command in
  existing ← load_operation (rcv_group_id candidate) (rrc_operation_id command);
  match existing with
  | Some existing =>
      if negb (registered_exact command (rlp_events existing)) then ofail OperationConflict
      else load_aggregate (rcv_group_id candidate)
  | None =>
      aggregate ← load_aggregate (rcv_group_id candidate);
      _ ← olift (ensure_version aggregate (rrc_expected_ledger_version command));
      _ ← ofail_if (is_some (rag_enrollment_request aggregate)
                    || is_some (rag_activation_baton aggregate)) OperationAlreadyActive;
      investigation ← oneed (rag_investigation aggregate) InvestigationMismatch;
      _ ← ofail_if (riv_investigation_id investigation ≠? rrc_investigation_id command)
            InvestigationMismatch;
      _ ← contract (validate_candidate candidate);
      receipt ← ask "investigation execution receipt read"
        (ReadExecutionReceipt (MkReceiptQuery (rrc_operation_id command)
           (rrc_execution_receipt_id command) (rrc_investigation_id command)
           (rcv_candidate_id candidate) (rcv_candidate_version candidate)
           (rcv_candidate_hash candidate)));
      _ ← ofail_if ((ier_receipt_id (aer_receipt receipt) ≠? rrc_execution_receipt_id command)
                    || (ier_receipt_hash (aer_receipt receipt)
                          ≠? rrc_expected_execution_receipt_hash command)) InvestigationMismatch;
      _ ← contract (validate_authenticated_investigation_execution receipt investigation candidate);
      _ ← verify_candidate_artifacts (rrc_operation_id command) VpCandidateRegistration candidate;
      appended ← append_and_reload aggregate (rrc_operation_id command)
        [CandidateRegistered candidate receipt];
      mret (apr_aggregate appended)
  end.

Definition reported_exact (command : QueryActivationCapabilityV1) (events : list RepairEventV1) :
    option PlatformCapabilityReportV1 :=
  match events with
  | [CapabilityReported queried_at report] =>
      if (pcr_candidate_id report ≟ qac_candidate_id command)
         && (pcr_candidate_version report ≟ qac_expected_candidate_version command)
         && (pcr_candidate_hash report ≟ qac_expected_candidate_hash command)
         && (queried_at ≟ qac_now_epoch_ms command)
      then Some report else None
  | _ => None
  end.

Definition query_activation_capability (command : QueryActivationCapabilityV1) :
    orc PlatformCapabilityReportV1 :=
  existing ← load_operation (qac_group_id command) (qac_operation_id command);
  match existing with
  | Some existing => oneed (reported_exact command (rlp_events existing)) OperationConflict
  | None =>
      aggregate ← load_aggregate (qac_group_id command);
      _ ← olift (ensure_version aggregate (qac_expected_ledger_version command));
      _ ← ofail_if (is_some (rag_activation_baton aggregate)
                    && negb (prior_activation_was_unsupported aggregate)) OperationAlreadyActive;
      candidate ← olift (active_candidate_exact aggregate (qac_candidate_id command)
        (qac_expected_candidate_version command) (qac_expected_candidate_hash command));
      report ← ask "bootstrap capability query"
        (QueryActivationCapability (MkCapabilityQuery (qac_operation_id command)
           (qac_group_id command) candidate (qac_now_epoch_ms command)));
      _ ← contract (validate_capability_report_fresh report (qac_now_epoch_ms command));
      _ ← ofail_if ((pcr_candidate_id report ≠? qac_candidate_id command)
                    || (pcr_candidate_version report ≠? qac_expected_candidate_version command)
                    || (pcr_candidate_hash report ≠? qac_expected_candidate_hash command))
            CandidateMismatch;
      appended ← append_and_reload aggregate (qac_operation_id command)
        [CapabilityReported (qac_now_epoch_ms command) report];
      _ ← ofail_if (rag_latest_capability_report (apr_aggregate appended) ≠? Some report)
            OperationConflict;
      mret report
  end.

Definition continue_enrollment (aggregate : RepairAggregateV1)
    (request : ManagedLocalEnrollmentRequestV1) (operation_id : StableId) :
    orc EnrollmentPreparedV1 :=
  if rag_enrollment_request aggregate ≠? Some request then ofail OperationConflict else
  let prepared_for := match rag_enrollment_prepared aggregate with
    | Some p => if enp_request_id p ≟ mer_request_id request then Some p else None
    | None => None
    end in
  match prepared_for with
  | Some prepared => mret prepared
  | None =>
      if rag_phase aggregate ≠? Some RpEnrollmentPending then ofail OperationConflict else
      _ ← verify_enrollment_artifacts operation_id request;
      prepared ← ask "bootstrap enrollment preparation" (PrepareManagedLocalEnrollment request);
      _ ← contract (validate_enrollment_prepared prepared);
      _ ← ofail_if (enp_request_id prepared ≠? mer_request_id request)
            (InvalidContract "enrollment preparation request id mismatch");
      appended ← append_and_reload aggregate (enp_preparation_id prepared)
        [EnrollmentPrepared prepared];
      _ ← ofail_if ((rag_enrollment_request (apr_aggregate appended) ≠? Some request)
                    || (rag_enrollment_prepared (apr_aggregate appended) ≠? Some prepared))
            OperationConflict;
      mret prepared
  end.

Definition requested_exact (command : RequestManagedLocalEnrollmentV1)
    (events : list RepairEventV1) : option ManagedLocalEnrollmentRequestV1 :=
  match events with
  | [EnrollmentRequested requested_at request] =>
      if (mer_request_id request ≟ rme_request_id command)
         && (mer_explicit_user_decision_id request ≟ rme_explicit_user_decision_id command)
         && (mer_group_id request ≟ rme_group_id command)
         && (mer_candidate_id request ≟ rme_candidate_id command)
         && (mer_candidate_version request ≟ rme_expected_candidate_version command)
         && (mer_candidate_hash request ≟ rme_expected_candidate_hash command)
         && (mer_capability_report_id request ≟ rme_expected_capability_report_id command)
         && (mer_capability_digest request ≟ rme_expected_capability_digest command)
         && (requested_at ≟ rme_now_epoch_ms command)
      then Some request else None
  | _ => None
  end.

Definition projected_provenance (report : PlatformCapabilityReportV1)
    (candidate : RepairCandidateV1) : result RepairError string :=
  let mismatch := Err (InvalidContract "enrollment provenance does not match the candidate") in
  match pcr_build_origin report with
  | BoSourceCheckout projected =>
      if projected ≟ bpv_provenance_hash (rcv_provenance candidate) then Ok projected else mismatch
  | _ => mismatch
  end.

Definition request_managed_local_enrollment (command : RequestManagedLocalEnrollmentV1) :
    orc EnrollmentPreparedV1 :=
  existing ← load_operation (rme_group_id command) (rme_operation_id command);
  match existing with
  | Some existing =>
      request ← oneed (requested_exact command (rlp_events existing)) OperationConflict;
      aggregate ← load_aggregate (rme_group_id command);
      continue_enrollment aggregate request (rme_operation_id command)
  | None =>
      aggregate ← load_aggregate (rme_group_id command);
      _ ← olift (ensure_version aggregate (rme_expected_ledger_version command));
      candidate ← olift (active_candidate_exact aggregate (rme_candidate_id command)
        (rme_expected_candidate_version command) (rme_expected_candidate_hash command));
      report ← olift (exact_report aggregate (rme_expected_capability_report_id command)
        (rme_expected_capability_digest command) (rme_now_epoch_ms command));
      _ ← ofail_if (pcr_eligibility report ≠? AeEnrollmentRequired)
            (ActivationUnavailable (pcr_eligibility report));
      provenance ← olift (projected_provenance report candidate);
      let request := MkEnrollmentRequest (rme_request_id command)
        (rme_explicit_user_decision_id command) (rag_group_id aggregate)
        (rcv_candidate_id candidate) (rcv_candidate_version candidate)
        (rcv_candidate_hash candidate) provenance (rcv_build_bundle candidate)
        (pcr_report_id report) (pcr_capability_digest report) in
      _ ← verify_enrollment_artifacts (rme_operation_id command) request;
      appended ← append_and_reload aggregate (rme_operation_id command)
        [EnrollmentRequested (rme_now_epoch_ms command) request];
      continue_enrollment (apr_aggregate appended) request (rme_operation_id command)
  end.

(** The code also refuses a disposition that is neither reject nor defer; the
    type has no third one. *)
Definition reject_or_defer_candidate (command : RejectCandidateV1) : orc RepairAggregateV1 :=
  let decision := rjc_decision command in
  let events := [CandidateDecided decision] in
  existing ← load_operation (rjc_group_id command) (rjc_operation_id command);
  match existing with
  | Some existing =>
      if rlp_events existing ≠? events then ofail OperationConflict
      else load_aggregate (rjc_group_id command)
  | None =>
      aggregate ← load_aggregate (rjc_group_id command);
      _ ← olift (ensure_version aggregate (rjc_expected_ledger_version command));
      stored ← oneed (candidate_exact aggregate (rcd_candidate_id decision)
                        (rcd_candidate_version decision)) CandidateMismatch;
      _ ← olift (active_candidate_exact aggregate (rcd_candidate_id decision)
                   (rcd_candidate_version decision) (rcv_candidate_hash stored));
      appended ← append_and_reload aggregate (rjc_operation_id command) events;
      mret (apr_aggregate appended)
  end.

(** ** The activation handoff ([orchestrator/{activation,continuation}.rs]) *)

Definition resume_unsupported (r : AuthenticatedBootstrapResultV1)
    (baton : RepairActivationBatonV1) : orc () :=
  ask "Management same-Chat resume"
    (ResumeSameChat (MkResumeRequest (bsr_receipt_id (abr_receipt r))
       (bsr_activation_id (abr_receipt r)) (bat_management_checkpoint baton)
       (bat_current_process_generation baton))).

Definition quiesce_and_commit (aggregate : RepairAggregateV1) (baton : RepairActivationBatonV1)
    (admission : BootstrapAcceptedAdmissionV1) : orc CoreQuiescenceFactsV1 :=
  facts ← ask "current-generation quiescence"
    (QuiesceCurrentGeneration (MkQuiescenceRequest (bat_activation_id baton)
       (bat_current_process_generation baton) (bdl_cleanup_ms (bat_deadlines baton))));
  _ ← contract (validate_quiescence_facts facts);
  _ ← ofail_if ((cqf_activation_id facts ≠? bat_activation_id baton)
                || (cqf_process_generation facts ≠? bat_current_process_generation baton))
        (InvalidContract "quiescence facts do not match the admitted activation");
  _ ← ofail_if (cqf_timed_out facts || cqf_orphan_risk facts) UnsafeQuiescence;
  appended ← append_and_reload aggregate (cqf_quiescence_id facts) [CoreQuiesced facts];
  let after := apr_aggregate appended in
  _ ← ofail_if ((rag_activation_baton after ≠? Some baton)
                || (rag_bootstrap_admission after ≠? Some admission)
                || (rag_quiescence after ≠? Some facts)
                || is_some (rag_bootstrap_result after)) OperationConflict;
  mret facts.

Definition continue_after_admission (aggregate : RepairAggregateV1)
    (baton : RepairActivationBatonV1) (admission : BootstrapAcceptedAdmissionV1) :
    orc ActivationHandoffOutcomeV1 :=
  _ ← ofail_if ((rag_activation_baton aggregate ≠? Some baton)
                || (rag_bootstrap_admission aggregate ≠? Some admission)
                || is_some (rag_bootstrap_result aggregate)) OperationConflict;
  quiescence ← match rag_quiescence aggregate with
    | Some existing => mret existing
    | None => quiesce_and_commit aggregate baton admission
    end;
  _ ← ofail_if (cqf_timed_out quiescence || cqf_orphan_risk quiescence) UnsafeQuiescence;
  _ ← ask "bootstrap quiescence handoff"
        (RecordCoreQuiescence (adm_admission_id admission) quiescence);
  mret (HoReadyForCoreExit baton admission quiescence).

Definition commit_unsupported (aggregate : RepairAggregateV1) (baton : RepairActivationBatonV1)
    (now_epoch_ms : N) (result : AuthenticatedBootstrapResultV1) :
    orc ActivationHandoffOutcomeV1 :=
  _ ← contract (validate_authenticated_result result baton None);
  _ ← contract (validate_result_fresh result baton now_epoch_ms);
  _ ← ofail_if (negb (is_unsupported result))
        (InvalidContract "non-Unsupported receipt used as admission rejection");
  appended ← append_and_reload aggregate (bsr_receipt_id (abr_receipt result))
    [BootstrapResultReconciled now_epoch_ms result];
  committed ← oneed (rag_bootstrap_result (apr_aggregate appended))
    (InvalidContract "Unsupported receipt was not durably projected");
  _ ← ofail_if (committed ≠? result) OperationConflict;
  _ ← resume_unsupported committed baton;
  mret (HoUnsupported (abr_receipt result)).

Definition commit_admission (aggregate : RepairAggregateV1) (baton : RepairActivationBatonV1)
    (admission : BootstrapAcceptedAdmissionV1) : orc ActivationHandoffOutcomeV1 :=
  _ ← contract (validate_admission admission);
  _ ← ofail_if ((adm_activation_id admission ≠? bat_activation_id baton)
        || (adm_baton_hash admission ≠? bat_baton_hash baton)
        || (adm_candidate_process_generation admission ≠? bat_candidate_process_generation baton)
        || (adm_rollback_process_generation admission ≠? bat_rollback_process_generation baton))
        (InvalidContract "bootstrap admission does not match the committed baton");
  appended ← append_and_reload aggregate (adm_admission_id admission)
    [BootstrapAdmissionAccepted admission];
  continue_after_admission (apr_aggregate appended) baton admission.

(** The [Unsupported] receipt already on record for this activation. *)
Definition recorded_unsupported (aggregate : RepairAggregateV1) (baton : RepairActivationBatonV1) :
    option AuthenticatedBootstrapResultV1 :=
  match rag_bootstrap_result aggregate with
  | Some r =>
      if (bsr_activation_id (abr_receipt r) ≟ bat_activation_id baton) && is_unsupported r
      then Some r else None
  | None => None
  end.

Definition continue_activation (aggregate : RepairAggregateV1) (baton : RepairActivationBatonV1)
    (now_epoch_ms : N) : orc ActivationHandoffOutcomeV1 :=
  _ ← ofail_if (rag_activation_baton aggregate ≠? Some baton)
        (InvalidContract "committed activation baton is no longer the active handoff");
  match recorded_unsupported aggregate baton with
  | Some result =>
      _ ← resume_unsupported result baton;
      mret (HoUnsupported (abr_receipt result))
  | None =>
      _ ← ofail_if (is_some (rag_bootstrap_result aggregate))
            (InvalidContract "activation already has a terminal bootstrap result");
      match rag_bootstrap_admission aggregate with
      | Some admission => continue_after_admission aggregate baton admission
      | None =>
          candidate ← oneed (candidate_exact aggregate (bat_candidate_id baton)
                               (bat_candidate_version baton)) CandidateMismatch;
          let missing := InvalidContract "activation capability report is missing during redrive" in
          report ← oneed (rag_latest_capability_report aggregate) missing;
          _ ← ofail_if (pcr_report_id report ≠? bat_capability_report_id baton) missing;
          _ ← verify_activation_artifacts (bat_activation_id baton) candidate report;
          answer ← ask "bootstrap activation admission" (AdmitActivation baton);
          match answer with
          | BaUnsupported result => commit_unsupported aggregate baton now_epoch_ms result
          | BaAccepted admission => commit_admission aggregate baton admission
          end
      end
  end.

Definition activation_exact (command : ActivateAndRestartV1) (events : list RepairEventV1) :
    option RepairActivationBatonV1 :=
  match events with
  | [ActivationPrepared decision _ baton] =>
      if (rad_activation_id decision ≟ aar_activation_id command)
         && (rad_explicit_user_decision_id decision ≟ aar_explicit_user_decision_id command)
         && (rad_candidate_id decision ≟ aar_candidate_id command)
         && (rad_expected_candidate_version decision ≟ aar_expected_candidate_version command)
         && (rad_expected_candidate_hash decision ≟ aar_expected_candidate_hash command)
         && (rad_expected_capability_report_id decision ≟ aar_expected_capability_report_id command)
         && (rad_expected_capability_digest decision ≟ aar_expected_capability_digest command)
         && (rad_decided_at_epoch_ms decision ≟ aar_now_epoch_ms command)
         && (bat_baton_id baton ≟ aar_baton_id command)
         && (bat_group_id baton ≟ aar_group_id command)
         && (bat_current_process_generation baton ≟ aar_current_process_generation command)
         && (bat_deadlines baton ≟ aar_deadlines command)
      then Some baton else None
  | _ => None
  end.

Definition managed_enrollment (report : PlatformCapabilityReportV1) : result RepairError string :=
  match pcr_build_origin report with
  | BoManagedLocal enrollment_digest _ => Ok enrollment_digest
  | _ => Err (InvalidContract "Supported report has no managed-local origin")
  end.

(** The checks before the checkpoint: expiry and the two generations. *)
Definition activation_times (command : ActivateAndRestartV1) :
    result RepairError (N * ProcessGeneration * ProcessGeneration) :=
  _ ← fail_if (aar_current_process_generation command =? 0)
        (InvalidContract "current process generation must be nonzero");
  _ ← map_err InvalidContract (validate_bootstrap_deadlines (aar_deadlines command));
  total_deadline ← ok_or (total_deadline_ms (aar_deadlines command))
    (InvalidContract "bootstrap deadline total overflowed");
  expires_at ← ok_or (checked_add u64_max (aar_now_epoch_ms command) total_deadline)
    (InvalidContract "bootstrap deadline timestamp overflowed");
  candidate_generation ← ok_or (checked_add u64_max (aar_current_process_generation command) 1)
    (InvalidContract "candidate process generation overflowed");
  rollback_generation ← ok_or (checked_add u64_max (aar_current_process_generation command) 2)
    (InvalidContract "rollback process generation overflowed");
  Ok (expires_at, candidate_generation, rollback_generation).

Definition seal_baton (baton : RepairActivationBatonV1) :
    result RepairError RepairActivationBatonV1 :=
  hash ← map_err (λ _, InvalidContract "activation baton could not be sealed")
    (repair_activation_baton_hash_v1 baton);
  let baton := with_baton_hash hash baton in
  _ ← map_err InvalidContract (validate_repair_activation_baton baton);
  Ok baton.

Definition activate_and_restart (command : ActivateAndRestartV1) :
    orc ActivationHandoffOutcomeV1 :=
  existing ← load_operation (aar_group_id command) (aar_operation_id command);
  match existing with
  | Some existing =>
      baton ← oneed (activation_exact command (rlp_events existing)) OperationConflict;
      aggregate ← load_aggregate (aar_group_id command);
      continue_activation aggregate baton (aar_now_epoch_ms command)
  | None =>
      aggregate ← load_aggregate (aar_group_id command);
      _ ← olift (ensure_version aggregate (aar_expected_ledger_version command));
      _ ← ofail_if ((is_some (rag_activation_baton aggregate)
                     && negb (prior_activation_was_unsupported aggregate))
                    || enrollment_pending aggregate) OperationAlreadyActive;
      candidate ← olift (active_candidate_exact aggregate (aar_candidate_id command)
        (aar_expected_candidate_version command) (aar_expected_candidate_hash command));
      _ ← contract (validate_data_compatibility_for_activation
                      (rds_data_compatibility (rcv_disclosure candidate)));
      report ← olift (exact_report aggregate (aar_expected_capability_report_id command)
        (aar_expected_capability_digest command) (aar_now_epoch_ms command));
      _ ← ofail_if (pcr_eligibility report ≠? AeSupportedManagedLocal)
            (ActivationUnavailable (pcr_eligibility report));
      enrollment_digest ← olift (managed_enrollment report);
      previous_working_build ← oneed (pcr_previous_working_build report)
        (InvalidContract "Supported report has no previous working build");
      _ ← ofail_if (previous_working_build ≠? rds_rollback_point (rcv_disclosure candidate))
            (InvalidContract "Supported report changed the disclosed rollback point");
      _ ← verify_activation_artifacts (aar_operation_id command) candidate report;
      investigation ← oneed (rag_investigation aggregate) InvestigationMismatch;
      times ← olift (activation_times command);
      checkpoint ← ask "Management checkpoint"
        (CreateCheckpoint (MkCheckpointRequest (aar_operation_id command)
           (aar_activation_id command) (rag_group_id aggregate) (rcv_candidate_id candidate)
           (rcv_candidate_version candidate) (riv_management_chat_id investigation)
           (riv_management_run_id investigation)));
      _ ← contract (validate_management_checkpoint checkpoint);
      _ ← ofail_if ((mck_chat_id checkpoint ≠? riv_management_chat_id investigation)
                    || (mck_run_id checkpoint ≠? riv_management_run_id investigation))
            (InvalidContract "checkpoint did not preserve the Management Chat and Run");
      let decision := MkActivationDecision (aar_activation_id command)
        (aar_explicit_user_decision_id command) (rcv_candidate_id candidate)
        (rcv_candidate_version candidate) (rcv_candidate_hash candidate) (pcr_report_id report)
        (pcr_capability_digest report) (aar_now_epoch_ms command) in
      let '(expires_at, candidate_generation, rollback_generation) := times in
      baton ← olift (seal_baton (MkBaton REPAIR_SCHEMA_VERSION_V1 (aar_baton_id command)
        (aar_activation_id command) (rag_group_id aggregate) (rcv_candidate_id candidate)
        (rcv_candidate_version candidate) (rcv_candidate_hash candidate)
        (rcv_build_bundle candidate) (rds_disclosure_hash (rcv_disclosure candidate))
        (bpv_provenance_hash (rcv_provenance candidate)) enrollment_digest
        (pcr_report_id report) (pcr_capability_generation report) (pcr_capability_digest report)
        previous_working_build checkpoint (rds_verification_plan (rcv_disclosure candidate))
        (aar_current_process_generation command) candidate_generation rollback_generation
        (aar_deadlines command) expires_at ""));
      appended ← append_and_reload aggregate (aar_operation_id command)
        [ActivationPrepared decision checkpoint baton];
      continue_activation (apr_aggregate appended) baton (aar_now_epoch_ms command)
  end.

(** ** Verification and receipts ([orchestrator/reconciliation.rs]) *)

Definition complete_focused_verification_evidence
    (command : CompleteFocusedVerificationEvidenceV1) : orc RepairAggregateV1 :=
  let evidence := cfv_evidence command in
  let events := [FocusedVerificationSubmitted (cfv_activation_id command)
                   (cfv_current_process_generation command) evidence] in
  let submit := ask "bootstrap focused verification"
    (SubmitFocusedVerification (cfv_activation_id command) evidence) in
  existing ← load_operation (cfv_group_id command) (cfv_operation_id command);
  match existing with
  | Some existing =>
      if rlp_events existing ≠? events then ofail OperationConflict else
      aggregate ← load_aggregate (cfv_group_id command);
      _ ← ofail_if (rag_focused_verification aggregate ≠? Some evidence) OperationConflict;
      if is_some (rag_bootstrap_result aggregate) then mret aggregate else
      _ ← verify_focused_evidence_artifacts (cfv_operation_id command) evidence;
      _ ← submit;
      mret aggregate
  | None =>
      aggregate ← load_aggregate (cfv_group_id command);
      _ ← olift (ensure_version aggregate (cfv_expected_ledger_version command));
      baton ← oneed (rag_activation_baton aggregate)
        (InvalidContract "activation baton is missing");
      _ ← ofail_if ((bat_activation_id baton ≠? cfv_activation_id command)
            || (bat_candidate_process_generation baton ≠? cfv_current_process_generation command)
            || negb (is_some (rag_bootstrap_admission aggregate))
            || is_some (rag_bootstrap_result aggregate))
            (InvalidContract
              "focused verification arrived from an unexpected generation or terminal activation");
      _ ← contract (validate_focused_evidence_against_plan evidence (bat_verification_plan baton));
      _ ← verify_focused_evidence_artifacts (cfv_operation_id command) evidence;
      appended ← append_and_reload aggregate (cfv_operation_id command) events;
      _ ← verify_focused_evidence_artifacts (cfv_activation_id command) evidence;
      _ ← ofail_if ((rag_focused_verification (apr_aggregate appended) ≠? Some evidence)
                    || is_some (rag_bootstrap_result (apr_aggregate appended))) OperationConflict;
      _ ← submit;
      mret (apr_aggregate appended)
  end.

Definition resume_committed_result (r : AuthenticatedBootstrapResultV1)
    (aggregate : RepairAggregateV1) : orc bool :=
  baton ← oneed (rag_activation_baton aggregate)
    (InvalidContract "committed bootstrap result has no activation baton");
  checkpoint ← oneed (rag_management_checkpoint aggregate)
    (InvalidContract "committed bootstrap result has no Management checkpoint");
  _ ← ofail_if ((rag_bootstrap_result aggregate ≠? Some r)
        || (bsr_activation_id (abr_receipt r) ≠? bat_activation_id baton)
        || (bsr_baton_hash (abr_receipt r) ≠? bat_baton_hash baton)
        || (bsr_management_checkpoint_id (abr_receipt r) ≠? mck_checkpoint_id checkpoint))
        OperationConflict;
  _ ← ask "Management same-Chat resume"
        (ResumeSameChat (MkResumeRequest (bsr_receipt_id (abr_receipt r))
           (bsr_activation_id (abr_receipt r)) checkpoint
           (bsr_recipient_process_generation (abr_receipt r))));
  mret true.

Definition reconciled_exact (command : ReconcileBootstrapResultV1) (events : list RepairEventV1) :
    option AuthenticatedBootstrapResultV1 :=
  match events with
  | [BootstrapResultReconciled reconciled_at r] =>
      if (bsr_activation_id (abr_receipt r) ≟ rbr_activation_id command)
         && (bsr_recipient_process_generation (abr_receipt r)
               ≟ rbr_current_process_generation command)
         && (reconciled_at ≟ rbr_now_epoch_ms command)
      then Some r else None
  | _ => None
  end.

(** The result on record, when it is the one the command asks about. *)
Definition recorded_result (command : ReconcileBootstrapResultV1) (aggregate : RepairAggregateV1) :
    option AuthenticatedBootstrapResultV1 :=
  match rag_bootstrap_result aggregate with
  | Some r =>
      if (bsr_activation_id (abr_receipt r) ≟ rbr_activation_id command)
         && (bsr_recipient_process_generation (abr_receipt r)
               ≟ rbr_current_process_generation command)
      then Some r else None
  | None => None
  end.

Definition reconcile_bootstrap_result (command : ReconcileBootstrapResultV1) :
    orc BootstrapReconciliationOutcomeV1 :=
  existing ← load_operation (rbr_group_id command) (rbr_operation_id command);
  match existing with
  | Some existing =>
      r ← oneed (reconciled_exact command (rlp_events existing)) OperationConflict;
      aggregate ← load_aggregate (rbr_group_id command);
      _ ← ofail_if (rag_bootstrap_result aggregate ≠? Some r) OperationConflict;
      resumed ← resume_committed_result r aggregate;
      mret (MkReconciliationOutcome true (abr_receipt r) resumed)
  | None =>
      aggregate ← load_aggregate (rbr_group_id command);
      match recorded_result command aggregate with
      | Some r =>
          resumed ← resume_committed_result r aggregate;
          mret (MkReconciliationOutcome true (abr_receipt r) resumed)
      | None =>
          _ ← olift (ensure_version aggregate (rbr_expected_ledger_version command));
          baton ← oneed (rag_activation_baton aggregate)
            (InvalidContract "activation baton is missing");
          _ ← ofail_if ((bat_activation_id baton ≠? rbr_activation_id command)
                || ((rbr_current_process_generation command
                       ≠? bat_candidate_process_generation baton)
                    && (rbr_current_process_generation command
                          ≠? bat_rollback_process_generation baton)))
                (InvalidContract "receipt reconciliation generation is unexpected");
          read ← ask "bootstrap result read"
            (ReadResult (MkResultQuery (rbr_operation_id command) (rbr_activation_id command)
               (rbr_current_process_generation command)));
          r ← oneed read BootstrapResultMissing;
          _ ← contract (validate_authenticated_result r baton (rag_bootstrap_admission aggregate));
          _ ← contract (validate_result_fresh r baton (rbr_now_epoch_ms command));
          _ ← ofail_if (negb (is_unsupported r) && negb (is_some (rag_quiescence aggregate)))
                (InvalidContract "bootstrap result has no committed safe quiescence handoff");
          _ ← ofail_if (bsr_recipient_process_generation (abr_receipt r)
                          ≠? rbr_current_process_generation command)
                (InvalidContract "receipt is targeted to another process generation");
          _ ← verify_result_artifacts (rbr_operation_id command) (bsr_result (abr_receipt r));
          appended ← append_and_reload aggregate (rbr_operation_id command)
            [BootstrapResultReconciled (rbr_now_epoch_ms command) r];
          resumed ← resume_committed_result r (apr_aggregate appended);
          mret (MkReconciliationOutcome (apr_duplicate appended) (abr_receipt r) resumed)
      end
  end.
End orchestrator.
