(* ===== verification/RepairOutbox.v ===== *)
(** * What the repair orchestrator tells its ports, and when

    [call_justified t c] says when the conversation [t] so far entitles the core to
    the call [c]: every effect outside the ledger needs the fact that causes it
    in the last committed stream the core read, with nothing appended since, and
    an append needs a batch that folds.  The commands are shown to make only
    call_justified calls, whatever the ports answer. *)
From S2P Require Export RepairOrchestrator RepairProofs.

Local Open Scope repair_scope.

(** ** Conversations of a program *)

Section holds.
Variable ok : conversation → port_call → Prop.

(** Every call [p] can make after [t] is allowed, and [Q] holds of each end. *)
Fixpoint holds {A} (Q : conversation → A → Prop) (t : conversation) (p : prog A) : Prop :=
  match p with
  | Done a => Q t a
  | Call c k => ok t c ∧ ∀ r, holds Q (t ++ [Exchange c r]) (k r)
  end.

Lemma holds_impl {A} (Q Q' : conversation → A → Prop) t p :
  (∀ t a, Q t a → Q' t a) → holds Q t p → holds Q' t p.
Proof.
  intros HQ. revert t. induction p as [a|c k IH]; intros t; simpl; [auto|].
  intros [? Hk]. split; [done|]. intros r. auto.
Qed.

Lemma holds_bind {A B} (Q : conversation → B → Prop) t (p : prog A) f :
  holds (λ t a, holds Q t (f a)) t p → holds Q t (prog_bind p f).
Proof.
  revert t. induction p as [a|c k IH]; intros t; simpl; [auto|].
  intros [? Hk]. split; [done|]. intros r. auto.
Qed.

(** A run of a program whose calls are allowed makes only allowed calls. *)
Lemma holds_run {S A} (env : ∀ c, S → port_reply c * S) (Q : conversation → A → Prop) p s t0 :
  holds Q t0 p →
  Q (t0 ++ (run_prog env s p).1.1) (run_prog env s p).1.2
  ∧ ∀ t1 c r t2, (run_prog env s p).1.1 = t1 ++ Exchange c r :: t2 → ok (t0 ++ t1) c.
Proof.
  revert s t0. induction p as [a|c k IH]; intros s t0; simpl.
  - rewrite app_nil_r. intros HQ. split; [done|]. by intros [] c r t2.
  - intros [Hok Hk]. destruct (env c s) as [r s1]. specialize (IH r s1 _ (Hk r)).
    destruct (run_prog env s1 (k r)) as [[t a] s2]. simpl in *. rewrite <-app_assoc in IH.
    destruct IH as [HQ Ht]. split; [done|]. intros [|x t1] c' r' t2 Heq; simpl in Heq.
    + apply (f_equal (λ l, match l with Exchange c _ :: _ => Some c | [] => None end)) in Heq.
      injection Heq as ->. by rewrite app_nil_r.
    + injection Heq as <- Heq. specialize (Ht t1 c' r' t2 Heq). by rewrite <-app_assoc in Ht.
Qed.
End holds.

(** ** What a call needs *)

Section outbox.
Context `{Sha256, RepairSerialize}.

Definition is_append (e : exchange) : bool :=
  match e with Exchange (Append _) _ => true | _ => false end.

(** The core has read the stream of [group] and folded it to [a], ... *)
Definition has_read (t : conversation) (group : StableId) (a : RepairAggregateV1) : Prop :=
  ∃ stream, Exchange (LoadGroup group) (Ok stream) ∈ t ∧ rehydrate_repair group stream = Ok a.
(** ... and has appended nothing since. *)
Definition current (t : conversation) (group : StableId) (a : RepairAggregateV1) : Prop :=
  ∃ stream t1 t2, t = t1 ++ Exchange (LoadGroup group) (Ok stream) :: t2
    ∧ Forall (λ e, is_append e = false) t2 ∧ rehydrate_repair group stream = Ok a.

Definition call_justified (t : conversation) (c : port_call) : Prop :=
  match c with
  | Append request =>
      ∃ a a', has_read t (rla_group_id request) a ∧ rla_events request ≠ []
        ∧ rla_expected_ledger_version request = rag_ledger_version a
        ∧ preview a (rla_events request) = Ok a'
        ∧ batch_activates_active a (rla_events request) = true
  | Dispatch request =>
      ∃ g a, current t g a ∧ rag_investigation a = Some (ridp_investigation request)
        ∧ rag_phase a = Some RpInvestigating
  | PrepareManagedLocalEnrollment request =>
      ∃ g a, current t g a ∧ rag_enrollment_request a = Some request
        ∧ rag_phase a = Some RpEnrollmentPending
  | CreateCheckpoint request =>
      ∃ a c i, current t (mcr_group_id request) a ∧ active_candidate a = Some c
        ∧ rcv_candidate_id c = mcr_candidate_id request
        ∧ rcv_candidate_version c = mcr_candidate_version request
        ∧ (rag_activation_baton a = None ∨ prior_activation_was_unsupported a = true)
        ∧ rag_investigation a = Some i
        ∧ riv_management_chat_id i = mcr_management_chat_id request
        ∧ riv_management_run_id i = mcr_management_run_id request
  | AdmitActivation baton =>
      ∃ g a, current t g a ∧ rag_activation_baton a = Some baton
        ∧ rag_bootstrap_admission a = None ∧ rag_bootstrap_result a = None
  | QuiesceCurrentGeneration request =>
      ∃ g a b adm, current t g a ∧ rag_activation_baton a = Some b
        ∧ rag_bootstrap_admission a = Some adm ∧ rag_quiescence a = None
        ∧ rag_bootstrap_result a = None
        ∧ cqr_activation_id request = bat_activation_id b
        ∧ cqr_process_generation request = bat_current_process_generation b
        ∧ cqr_deadline_ms request = bdl_cleanup_ms (bat_deadlines b)
  | RecordCoreQuiescence admission_id facts =>
      ∃ g a b adm, current t g a ∧ rag_activation_baton a = Some b
        ∧ rag_bootstrap_admission a = Some adm ∧ adm_admission_id adm = admission_id
        ∧ rag_quiescence a = Some facts ∧ quiescence_safe facts b
        ∧ rag_bootstrap_result a = None
  | SubmitFocusedVerification _ evidence =>
      ∃ g a b, current t g a ∧ rag_activation_baton a = Some b
        ∧ rag_focused_verification a = Some evidence ∧ rag_bootstrap_result a = None
  | ResumeSameChat request =>
      ∃ g a b r, current t g a ∧ rag_activation_baton a = Some b
        ∧ rag_bootstrap_result a = Some r
        ∧ mrr_receipt_id request = bsr_receipt_id (abr_receipt r)
        ∧ mrr_activation_id request = bat_activation_id b
        ∧ mck_checkpoint_id (mrr_checkpoint request) = mck_checkpoint_id (bat_management_checkpoint b)
        ∧ mrr_recipient_process_generation request
          = bsr_recipient_process_generation (abr_receipt r)
  | LoadGroup _ | LoadOperation _ _ | ReadExecutionReceipt _ | VerifyReady _
  | QueryActivationCapability _ | ReadResult _ => True
  end.

(** ** The methods, one exchange at a time *)

Definition orc_spec {A} (t : conversation) (p : orc A) (Q : conversation → A → Prop) : Prop :=
  holds call_justified (λ t r, match r with Ok a => Q t a | Err _ => True end) t p.

Lemma spec_bind {A B} t (m : orc A) (f : A → orc B) Q :
  orc_spec t m (λ t a, orc_spec t (f a) Q) → orc_spec t (m ≫= f) Q.
Proof.
  intros Hm. apply holds_bind. eapply holds_impl; [|exact Hm]. intros t' [a|e]; simpl; auto.
Qed.

Lemma spec_done {A} t (r : result RepairError A) (Q : conversation → A → Prop) :
  (∀ a, r = Ok a → Q t a) → orc_spec t (Done r) Q.
Proof. unfold orc_spec. simpl. destruct r; auto. Qed.

Lemma spec_ask t boundary c (Q : conversation → port_value c → Prop) :
  call_justified t c → (∀ v, Q (t ++ [Exchange c (Ok v)]) v) → orc_spec t (ask boundary c) Q.
Proof. intros Hj HQ. split; [done|]. intros [v|e]; simpl; auto. Qed.

Lemma spec_impl {A} t (p : orc A) (Q Q' : conversation → A → Prop) :
  (∀ t a, Q t a → Q' t a) → orc_spec t p Q → orc_spec t p Q'.
Proof. intros HQ. apply holds_impl. intros t' [a|e]; auto. Qed.

(** Exchanges after the last read that append nothing. *)
Definition no_append (k : conversation) : Prop := Forall (λ e, is_append e = false) k.

Lemma current_quiet t k g a : no_append k → current t g a → current (t ++ k) g a.
Proof.
  intros Hk (stream & t1 & t2 & -> & Ht2 & Hr). exists stream, t1, (t2 ++ k).
  split_and!; [by rewrite <-app_assoc|by apply Forall_app|done].
Qed.
Lemma has_read_app t k g a : has_read t g a → has_read (t ++ k) g a.
Proof. intros (stream & Hin & Hr). exists stream. split; [set_solver|done]. Qed.
Lemma current_has_read t g a : current t g a → has_read t g a.
Proof. intros (stream & t1 & t2 & -> & _ & Hr). exists stream. split; [set_solver|done]. Qed.
Lemma current_group t g a : current t g a → rag_group_id a = g ∧ ∃ tr, repair_inv tr a.
Proof. intros (stream & _ & _ & _ & _ & Hr). apply rehydrate_inv in Hr as [? ?]. eauto. Qed.

Lemma load_aggregate_spec t g (Q : conversation → RepairAggregateV1 → Prop) :
  (∀ e a, is_append e = false → current (t ++ [e]) g a → Q (t ++ [e]) a) →
  orc_spec t (load_aggregate g) Q.
Proof.
  intros HQ. apply spec_bind, spec_ask; [done|]. intros stream. apply spec_done.
  intros a Ha%map_err_ok. apply HQ; [done|]. exists stream, t, []. split_and!; [done|constructor|done].
Qed.

Lemma load_operation_spec t g op (Q : conversation → option RepairLedgerOperationV1 → Prop) :
  (∀ k o, no_append k → Q (t ++ k) o) → orc_spec t (load_operation g op) Q.
Proof.
  intros HQ. apply spec_bind, spec_ask; [done|]. intros indexed.
  apply spec_bind, spec_ask; [done|]. intros committed.
  apply spec_bind, spec_done. intros _ _. apply spec_bind, spec_done. intros _ _.
  apply spec_done. intros o _. rewrite <-app_assoc. apply HQ. by repeat constructor.
Qed.

(** A batch without an activation. *)
Definition is_activation (e : RepairEventV1) : bool :=
  match e with ActivationPrepared _ _ _ => true | _ => false end.
Lemma no_activation a events :
  Forall (λ e, is_activation e = false) events → batch_activates_active a events = true.
Proof.
  unfold batch_activates_active. intros Hf. revert a.
  induction Hf as [|e events He _ IH]; intros a; [done|]. simpl. apply andb_true_iff. split.
  - unfold names_active. by destruct e.
  - by destruct (preview_event a e).
Qed.
Lemma regression_no_activation a o events :
  regression_events a o = Ok events → Forall (λ e, is_activation e = false) (FailureRecorded o :: events).
Proof.
  unfold regression_events. destruct (verified_build a) as [[c r]|]; intros Hr; res_inv Hr; simplify_eq;
    by repeat constructor.
Qed.

Lemma activation_active a c d ck b :
  active_candidate a = Some c → rad_candidate_id d = rcv_candidate_id c →
  rad_expected_candidate_version d = rcv_candidate_version c →
  batch_activates_active a [ActivationPrepared d ck b] = true.
Proof.
  intros Hc Hi Hv. unfold batch_activates_active. simpl. rewrite Hc, Hi, Hv, N.eqb_refl, bool_decide_eq_true_2 by done.
  simpl. by destruct (preview_event _ _).
Qed.

Lemma append_and_reload_spec t g a op events (Q : conversation → AppendResult → Prop) :
  has_read t g a → rag_group_id a = g → batch_activates_active a events = true →
  (∀ t' res, current t' g (apr_aggregate res) → Q t' res) →
  orc_spec t (append_and_reload a op events) Q.
Proof.
  intros Hr Hg Hact HQ. apply spec_bind, spec_done. intros _ Hne%fail_if_ok.
  apply spec_bind, load_operation_spec. intros k [existing|] Hk.
  - case_bool_decide; simpl; [|by apply spec_done].
    apply spec_bind. rewrite Hg. apply load_aggregate_spec. intros e a' _ Ha. apply spec_done.
    intros res [= <-]. auto.
  - apply spec_bind, spec_done. intros previewed Hp%map_err_ok.
    apply spec_bind, spec_ask.
    { exists a, previewed. simpl. rewrite Hg. split_and!; [by apply has_read_app| |done|done|done].
      by destruct events. }
    intros outcome. apply spec_bind, spec_done. intros _ _. apply spec_bind. rewrite Hg.
    apply load_aggregate_spec. intros e a' _ Ha. apply spec_bind, spec_done. intros _ _.
    apply spec_done. intros res [= <-]. auto.
Qed.

Lemma verify_artifacts_spec t op purpose artifacts (Q : conversation → () → Prop) :
  (∀ k, no_append k → Q (t ++ k) ()) → orc_spec t (verify_artifacts op purpose artifacts) Q.
Proof.
  revert t. induction artifacts as [|x artifacts IH]; intros t HQ; simpl.
  - apply spec_done. intros [] _. rewrite <-(app_nil_r t). apply HQ. constructor.
  - apply spec_bind, spec_ask; [done|]. intros v. apply spec_bind, spec_done. intros _ _.
    apply IH. intros k Hk. rewrite <-app_assoc. apply HQ. by constructor.
Qed.

Lemma verify_activation_artifacts_spec t op c rep (Q : conversation → () → Prop) :
  (∀ k, no_append k → Q (t ++ k) ()) → orc_spec t (verify_activation_artifacts op c rep) Q.
Proof.
  intros HQ. apply spec_bind, verify_artifacts_spec. intros k Hk. apply verify_artifacts_spec.
  intros k' Hk'. rewrite <-app_assoc. apply HQ. by apply Forall_app.
Qed.

(** One statement of a method: what a check that passed says, and the lemma
    for a method it calls.  [Hc] is what was last read. *)
Ltac odone :=
  apply spec_done; let x := fresh "x" in let Hx := fresh "Hx" in intros x Hx;
  try (is_var x; lazymatch type of x with unit => destruct x end);
  first [apply fail_if_ok in Hx | apply map_err_ok in Hx | apply ok_or_ok in Hx | idtac].
Ltac oload Hc :=
  first [apply load_operation_spec; intros ? [?|] ?
        | apply load_aggregate_spec; intros ? ? ? Hc].
Ltac oartifacts Hc :=
  first [apply verify_artifacts_spec | apply verify_activation_artifacts_spec];
  let k := fresh "k" in let Hk := fresh "Hk" in intros k Hk;
  try apply (current_quiet _ k _ _ Hk) in Hc.
(** A call that appends nothing keeps what was read. *)
Ltac oport Hc :=
  apply spec_ask; [try done|
    let v := fresh "v" in intros v;
    try (eapply (current_quiet _ [Exchange _ (Ok v)]) in Hc; [|by repeat constructor])].
Ltac oappend Hc :=
  eapply append_and_reload_spec;
  [by eapply current_has_read|by eapply current_group
  |first [apply no_activation; by repeat constructor|by eapply no_activation, regression_no_activation
         |by eapply activation_active]|];
  clear Hc; intros ? ? Hc.
Ltac oif :=
  lazymatch goal with
  | |- orc_spec _ (if ?b then _ else _) _ => let E := fresh "E" in destruct b eqn:E; [by odone|boolify]
  end.
Ltac onone := repeat match goal with E : is_some _ = false |- _ => apply is_some_false in E end.
Ltac ostep Hc :=
  lazymatch goal with |- orc_spec _ (mbind _ _) _ => apply spec_bind | _ => idtac end;
  first [oartifacts Hc | oload Hc | oappend Hc | odone].

Lemma record_recurring_failure_safe t command :
  orc_spec t (record_recurring_failure command) (λ _ _, True).
Proof.
  unfold record_recurring_failure. do 2 ostep Hc. ostep Hc.
  - oif. by ostep Hc.
  - repeat ostep Hc. done.
Qed.

Lemma register_repair_candidate_safe t command :
  orc_spec t (register_repair_candidate command) (λ _ _, True).
Proof.
  unfold register_repair_candidate. ostep Hc.
  - oif. by ostep Hc.
  - do 6 ostep Hc. apply spec_bind. oport Hc. repeat ostep Hc. done.
Qed.

Lemma query_activation_capability_safe t command :
  orc_spec t (query_activation_capability command) (λ _ _, True).
Proof.
  unfold query_activation_capability. ostep Hc; [by ostep Hc|].
  do 4 ostep Hc. apply spec_bind. oport Hc. repeat ostep Hc. done.
Qed.

Lemma reject_or_defer_candidate_safe t command :
  orc_spec t (reject_or_defer_candidate command) (λ _ _, True).
Proof.
  unfold reject_or_defer_candidate. ostep Hc.
  - oif. by ostep Hc.
  - repeat ostep Hc. done.
Qed.

Lemma start_bounded_investigation_safe t command manifest :
  orc_spec t (start_bounded_investigation command manifest) (λ _ _, True).
Proof.
  unfold start_bounded_investigation. do 2 ostep Hc.
  - oif. do 2 ostep Hc. boolify.
    oif.
    apply spec_bind, spec_ask; [simpl; eauto 10|]. intros v. by odone.
  - do 5 ostep Hc. ostep Hc. boolify.
    apply spec_bind, spec_ask; [simpl; eauto 10|]. intros v. by odone.
Qed.

Lemma continue_enrollment_safe t g a request op :
  current t g a → orc_spec t (continue_enrollment a request op) (λ _ _, True).
Proof.
  intros Hc. unfold continue_enrollment. oif.
  lazymatch goal with |- orc_spec _ (match ?m with Some _ => _ | None => _ end) _ => destruct m end;
    [by odone|]. oif.
  ostep Hc. apply spec_bind. oport Hc; [simpl; eauto 10|]. repeat ostep Hc. done.
Qed.

Lemma request_managed_local_enrollment_safe t command :
  orc_spec t (request_managed_local_enrollment command) (λ _ _, True).
Proof.
  unfold request_managed_local_enrollment. ostep Hc.
  - do 2 ostep Hc. by eapply continue_enrollment_safe.
  - repeat ostep Hc. by eapply continue_enrollment_safe.
Qed.

Lemma resume_unsupported_safe t g a b r Q :
  current t g a → rag_bootstrap_result a = Some r → is_unsupported r = true →
  receipt_binds r b → (∀ v, Q (t ++ [v]) ()) →
  orc_spec t (resume_unsupported r b) Q.
Proof.
  intros Hc Hr Hu (Ha & Hh & Hck & Hg) HQ. apply spec_ask; [|intros []; auto].
  destruct (current_group _ _ _ Hc) as [_ [tr Hi]].
  destruct (rinv_result _ _ Hi _ Hr) as (b' & Hb' & (Ha' & _ & Hck' & Hg') & _).
  exists g, a, b', r. simpl. split_and!; try done; try congruence. by rewrite Hg.
Qed.

Lemma quiesce_and_commit_safe t g a b adm (Q : conversation → CoreQuiescenceFactsV1 → Prop) :
  current t g a → rag_activation_baton a = Some b → rag_bootstrap_admission a = Some adm →
  rag_quiescence a = None → rag_bootstrap_result a = None →
  (∀ t' a' facts, current t' g a' → rag_activation_baton a' = Some b →
     rag_bootstrap_admission a' = Some adm → rag_quiescence a' = Some facts →
     rag_bootstrap_result a' = None → Q t' facts) →
  orc_spec t (quiesce_and_commit a b adm) Q.
Proof.
  intros Hc Hb Hadm Hq Hr HQ. unfold quiesce_and_commit. apply spec_bind.
  oport Hc; [simpl; eauto 15|]. do 4 ostep Hc. cbv zeta. ostep Hc. boolify. odone. simplify_eq.
  eapply HQ; eauto. by apply is_some_false.
Qed.

Lemma continue_after_admission_safe t g a b adm :
  current t g a → orc_spec t (continue_after_admission a b adm) (λ _ _, True).
Proof.
  intros Hc. unfold continue_after_admission. ostep Hc. boolify. onone.
  apply spec_bind.
  assert (∀ t' a' facts, current t' g a' → rag_activation_baton a' = Some b →
     rag_bootstrap_admission a' = Some adm → rag_quiescence a' = Some facts →
     rag_bootstrap_result a' = None →
     orc_spec t' (_ ← ofail_if (cqf_timed_out facts || cqf_orphan_risk facts) UnsafeQuiescence;
              _ ← ask "bootstrap quiescence handoff"
                    (RecordCoreQuiescence (adm_admission_id adm) facts);
              mret (HoReadyForCoreExit b adm facts)) (λ _ _, True)) as Hk.
  { intros t' a' facts Hc' Hb' Hadm' Hq' Hr'. ostep Hc'. apply spec_bind, spec_ask.
    - destruct (current_group _ _ _ Hc') as [_ [tr Hi]].
      destruct (rinv_quiescence _ _ Hi _ Hq') as [_ (b' & ? & ?)]. simplify_eq.
      exists g, a', b, adm. by split_and!.
    - intros v. by odone. }
  destruct (rag_quiescence a) as [facts|] eqn:Hq.
  - odone. simplify_eq. by eapply Hk.
  - eapply quiesce_and_commit_safe; eauto.
Qed.

Lemma commit_unsupported_safe t g a b now r :
  current t g a → orc_spec t (commit_unsupported a b now r) (λ _ _, True).
Proof.
  intros Hc. unfold commit_unsupported. do 3 ostep Hc. boolify. ostep Hc. do 2 ostep Hc. boolify.
  apply spec_bind. eapply resume_unsupported_safe; eauto; [congruence|by subst; eapply result_binds|].
  intros v. by odone.
Qed.

Lemma commit_admission_safe t g a b adm :
  current t g a → orc_spec t (commit_admission a b adm) (λ _ _, True).
Proof.
  intros Hc. unfold commit_admission. do 3 ostep Hc. by eapply continue_after_admission_safe.
Qed.

Lemma recorded_unsupported_Some a b r :
  recorded_unsupported a b = Some r →
  rag_bootstrap_result a = Some r ∧ is_unsupported r = true.
Proof.
  unfold recorded_unsupported. destruct (rag_bootstrap_result a) as [r'|]; [|done].
  destruct (_ && _) eqn:E; [|done]. intros [= ->]. by boolify.
Qed.

Lemma continue_activation_safe t g a b now :
  current t g a → orc_spec t (continue_activation a b now) (λ _ _, True).
Proof.
  intros Hc. unfold continue_activation. ostep Hc. boolify.
  destruct (recorded_unsupported a b) as [r|] eqn:Hu.
  - apply recorded_unsupported_Some in Hu as [Hr Hu]. apply spec_bind.
    destruct (current_group _ _ _ Hc) as [_ [tr Hi]].
    destruct (rinv_result _ _ Hi _ Hr) as (b' & Hb' & Hbind & _). simplify_eq.
    eapply resume_unsupported_safe; eauto. intros v. by odone.
  - ostep Hc. onone.
    destruct (rag_bootstrap_admission a) as [adm|] eqn:Hadm; [by eapply continue_after_admission_safe|].
    do 4 ostep Hc. apply spec_bind. oport Hc; [simpl; eauto 10|].
    destruct v; [by eapply commit_admission_safe|by eapply commit_unsupported_safe].
Qed.

Lemma active_candidate_exact_ok a id v h c :
  active_candidate_exact a id v h = Ok c →
  active_candidate a = Some c ∧ rcv_candidate_id c = id ∧ rcv_candidate_version c = v
  ∧ rcv_candidate_hash c = h.
Proof.
  unfold active_candidate_exact. destruct (active_candidate a) as [c'|]; [|done].
  destruct (_ && _) eqn:E; [|done]. intros [= ->]. by boolify.
Qed.

Lemma activate_and_restart_safe t command :
  orc_spec t (activate_and_restart command) (λ _ _, True).
Proof.
  unfold activate_and_restart. ostep Hc.
  - do 2 ostep Hc. by eapply continue_activation_safe.
  - do 3 ostep Hc. boolify.
    match goal with E : is_some _ && _ = false |- _ => apply guard_open in E end. ostep Hc.
    match goal with E : active_candidate_exact _ _ _ _ = Ok _ |- _ =>
      apply active_candidate_exact_ok in E as (Hact & ? & ? & ?) end.
    do 9 ostep Hc. apply spec_bind. oport Hc.
    { destruct (current_group _ _ _ Hc) as [-> _]. simpl. eauto 15. }
    do 2 ostep Hc.
    match goal with x : N * ProcessGeneration * ProcessGeneration |- _ => destruct x as [[??] ?] end.
    do 2 ostep Hc. by eapply continue_activation_safe.
Qed.

Lemma complete_focused_verification_evidence_safe t command :
  orc_spec t (complete_focused_verification_evidence command) (λ _ _, True).
Proof.
  unfold complete_focused_verification_evidence. ostep Hc.
  - oif. do 2 ostep Hc. boolify. oif. ostep Hc. apply spec_bind, spec_ask; [|intros v; by odone].
    destruct (current_group _ _ _ Hc) as [_ [tr Hi]].
    onone. destruct (rinv_verification _ _ Hi _ Hx) as [_ (b & ? & _)]. simpl. eauto 10.
  - do 6 ostep Hc. ostep Hc. ostep Hc. ostep Hc. boolify. onone.
    apply spec_bind, spec_ask; [|intros v; by odone].
    destruct (current_group _ _ _ Hc) as [_ [tr Hi]].
    match goal with E : rag_focused_verification _ = Some _ |- _ =>
      destruct (rinv_verification _ _ Hi _ E) as [_ (b & ? & _)] end.
    simpl. eauto 10.
Qed.

Lemma resume_committed_result_safe t g a r (Q : conversation → bool → Prop) :
  current t g a → (∀ t' v, Q t' v) → orc_spec t (resume_committed_result r a) Q.
Proof.
  intros Hc HQ. unfold resume_committed_result. do 3 ostep Hc. boolify.
  apply spec_bind, spec_ask; [|intros v; odone; auto].
  destruct (current_group _ _ _ Hc) as [_ [tr Hi]].
  match goal with E : rag_bootstrap_result _ = Some _ |- _ =>
    destruct (rinv_result _ _ Hi _ E) as (b & ? & (? & ? & Hck & _) & _) end.
  match goal with E : rag_activation_baton _ = Some ?b0 |- _ => exists g, a, b0, r end.
  simpl. split_and!; congruence.
Qed.

Lemma reconcile_bootstrap_result_safe t command :
  orc_spec t (reconcile_bootstrap_result command) (λ _ _, True).
Proof.
  unfold reconcile_bootstrap_result. ostep Hc.
  - do 3 ostep Hc. apply spec_bind. eapply resume_committed_result_safe; eauto. intros. by odone.
  - ostep Hc. destruct (recorded_result command _) as [r|].
    + apply spec_bind. eapply resume_committed_result_safe; eauto. intros. by odone.
    + do 3 ostep Hc. apply spec_bind. oport Hc. do 6 ostep Hc. ostep Hc.
      apply spec_bind. eapply resume_committed_result_safe; eauto. intros. by odone.
Qed.

(** ** Every command *)

(** The commands of the orchestrator. *)
Inductive repair_command : Type :=
| RecordRecurringFailure (command : RecordRecurringFailureV1)
| StartBoundedInvestigation (command : StartInvestigationV1) (manifest : AuthorityManifestV1)
| RegisterCandidate (command : RegisterRepairCandidateV1)
| QueryCapability (command : QueryActivationCapabilityV1)
| RequestEnrollment (command : RequestManagedLocalEnrollmentV1)
| RejectOrDefer (command : RejectCandidateV1)
| ActivateAndRestart (command : ActivateAndRestartV1)
| CompleteVerification (command : CompleteFocusedVerificationEvidenceV1)
| ReconcileResult (command : ReconcileBootstrapResultV1).

Definition discard {A} (p : orc A) : orc () := _ ← p; mret ().
Definition execute (command : repair_command) : orc () :=
  match command with
  | RecordRecurringFailure command => discard (record_recurring_failure command)
  | StartBoundedInvestigation command manifest =>
      discard (start_bounded_investigation command manifest)
  | RegisterCandidate command => discard (register_repair_candidate command)
  | QueryCapability command => discard (query_activation_capability command)
  | RequestEnrollment command => discard (request_managed_local_enrollment command)
  | RejectOrDefer command => discard (reject_or_defer_candidate command)
  | ActivateAndRestart command => discard (activate_and_restart command)
  | CompleteVerification command => discard (complete_focused_verification_evidence command)
  | ReconcileResult command => discard (reconcile_bootstrap_result command)
  end.

Lemma discard_safe {A} t (p : orc A) : orc_spec t p (λ _ _, True) → orc_spec t (discard p) (λ _ _, True).
Proof. intros Hp. apply spec_bind. eapply spec_impl; [|exact Hp]. intros t' a _. by apply spec_done. Qed.

Definition all_justified (t : conversation) : Prop :=
  ∀ t1 c r t2, t = t1 ++ Exchange c r :: t2 → call_justified t1 c.

(** C10: Whatever the ports answer, a command asks for an effect only when a
    committed stream it read, with nothing appended since, holds the fact that
    calls for it: the helper is asked to admit only a committed baton
    without a result, the old generation is quiesced only after a committed
    admission, quiescence is handed over only when its safe facts are committed,
    evidence is submitted and the chat resumed only after they are committed,
    and an append is made only for a batch that folds onto a stream read, in
    which an activation names the candidate active at that point. *)
Theorem outbox_discipline {S} (env : ∀ c, S → port_reply c * S) (s : S) (command : repair_command) :
  all_justified (run_prog env s (execute command)).1.1.
Proof.
  assert (orc_spec [] (execute command) (λ _ _, True)) as Hs.
  { destruct command; apply discard_safe;
      auto using record_recurring_failure_safe, start_bounded_investigation_safe,
        register_repair_candidate_safe, query_activation_capability_safe,
        request_managed_local_enrollment_safe, reject_or_defer_candidate_safe,
        activate_and_restart_safe, complete_focused_verification_evidence_safe,
        reconcile_bootstrap_result_safe. }
  intros t1 c r t2 Ht. by eapply (holds_run call_justified env) in Hs as [_ Hs]; eapply Hs.
Qed.
End outbox.
