(* ===== verification/RepairRetry.v ===== *)
(** * Retrying repair commands, and the authority of an investigation

    What the orchestrator leaves in a ledger that keeps the contract of
    [RepairLedgerPortV1] (contiguous streams, atomic batches, compare-and-swap
    on the version): an operation enters the stream at most once, also when an
    acknowledgement is lost and the command is sent again.  And a rejection
    that comes between an enrollment's request and its preparation.

    Last, how an investigation gets its capabilities: the manifest the core
    froze for a run ([Authority]) is what [freeze_investigation_authority]
    accepts, and what it hands out never exceeds that manifest. *)
From S2P Require Export RepairOutbox.
From S2P Require Import AuthorityProofs.

Local Open Scope repair_scope.

Lemma run_bind {S A B} (env : ∀ c, S → port_reply c * S) (p : prog A) (f : A → prog B) s :
  run_prog env s (prog_bind p f) =
  let '(t, a, s1) := run_prog env s p in
  let '(t', b, s2) := run_prog env s1 (f a) in (t ++ t', b, s2).
Proof.
  revert s. induction p as [a|c k IH]; intros s; simpl.
  - by destruct (run_prog env s (f a)) as [[??]?].
  - destruct (env c s) as [r s1]. rewrite IH. destruct (run_prog env s1 (k r)) as [[t a] s2].
    by destruct (run_prog env s2 (f a)) as [[??]?].
Qed.

(** The answer and the final state of a run. *)
Definition run_outcome {S A} (env : ∀ c, S → port_reply c * S) (s : S) (p : prog A) : A * S :=
  ((run_prog env s p).1.2, (run_prog env s p).2).

Section retry.
Context `{Sha256, RepairSerialize}.
Context {S : Type} (env : ∀ c, S → port_reply c * S).
(** The committed stream of a group, as the environment stores it. *)
Variable ledger : S → StableId → list CommittedRepairEventV1.

(** What is assumed of the ledger port: a read that answers gives the stored
    stream; an append either does nothing or, when the version it names is the
    length of the stream, adds its batch as a whole (compare-and-swap, atomic
    batches, contiguous sequence numbers), whatever it answers: it may fail
    after it has stored the batch, and its acknowledgement is not trusted; no
    other call touches the stream.  That batches are stored once is not
    assumed. *)
Class LedgerContract : Prop := {
  contract_load : ∀ s g stream, (env (LoadGroup g) s).1 = Ok stream → stream = ledger s g;
  contract_append : ∀ s op g v events,
    let s' := (env (Append (MkLedgerAppend op g v events)) s).2 in
    ledger s' g = ledger s g
    ∨ (v = len (ledger s g) ∧ ledger s' g = ledger s g ++ commit_batch g op v events);
  contract_other : ∀ s c, (∀ r, c ≠ Append r) → ledger (env c s).2 = ledger s
}.
Context `{LedgerContract}.

Lemma outcome_bind {A B} (m : orc A) (f : A → orc B) s :
  run_outcome env s (m ≫= f) =
  match run_outcome env s m with
  | (Ok a, s1) => run_outcome env s1 (f a)
  | (Err e, s1) => (Err e, s1)
  end.
Proof.
  unfold run_outcome, mbind, orc_bind. rewrite run_bind. destruct (run_prog env s m) as [[t [a|e]] s1]; simpl.
  - by destruct (run_prog env s1 (f a)) as [[??]?].
  - done.
Qed.

Lemma outcome_ask boundary c s :
  run_outcome env s (ask boundary c) = (map_err (Port boundary) (env c s).1, (env c s).2).
Proof. unfold run_outcome, ask. simpl. by destruct (env c s). Qed.

Lemma outcome_done {A} (r : A) s : run_outcome env s (Done r) = (r, s).
Proof. done. Qed.

Lemma outcome_ret {A} (a : A) s : run_outcome env s (mret a : orc A) = (Ok a, s).
Proof. done. Qed.

Lemma load_aggregate_outcome s g :
  ledger (run_outcome env s (load_aggregate g)).2 = ledger s
  ∧ ∀ a, (run_outcome env s (load_aggregate g)).1 = Ok a → rehydrate_repair g (ledger s g) = Ok a.
Proof.
  unfold load_aggregate. rewrite outcome_bind, (outcome_ask _ (LoadGroup g)).
  pose proof (contract_other s (LoadGroup g)) as Hs. pose proof (contract_load s g) as Hl.
  destruct (env (LoadGroup g) s) as [[stream|e] s1]; simpl in *.
  - split; [by apply Hs|]. intros a Ha%map_err_ok. by rewrite <-(Hl stream).
  - split; [by apply Hs|done].
Qed.

Lemma load_operation_outcome s g op :
  ledger (run_outcome env s (load_operation g op)).2 = ledger s
  ∧ ∀ o, (run_outcome env s (load_operation g op)).1 = Ok o → o = scan_operation g op (ledger s g).
Proof.
  unfold load_operation. rewrite outcome_bind, (outcome_ask _ (LoadOperation g op)).
  pose proof (contract_other s (LoadOperation g op)) as Hs.
  destruct (env (LoadOperation g op) s) as [[indexed|e] s1]; cbn [fst snd map_err] in *; [|split; [by apply Hs|done]].
  rewrite <-Hs by done. rewrite outcome_bind, (outcome_ask _ (LoadGroup g)).
  pose proof (contract_other s1 (LoadGroup g)) as Hs1. pose proof (contract_load s1 g) as Hl.
  destruct (env (LoadGroup g) s1) as [[stream|e] s2]; cbn [fst snd map_err] in *; [|split; [by apply Hs1|done]].
  rewrite outcome_bind. unfold olift. rewrite outcome_done.
  destruct (rehydrate_repair g stream); cbn [map_err];
    [|split; [by apply Hs1|done]].
  rewrite outcome_bind. unfold ofail_if. rewrite outcome_done.
  destruct (fail_if _ _); simpl; (split; [by apply Hs1|]); [|done].
  intros o [= <-]. by rewrite <-(Hl stream).
Qed.

Lemma operation_events_app op l k :
  operation_events op (l ++ k) = operation_events op l ++ operation_events op k.
Proof. unfold operation_events. by rewrite filter_app, fmap_app. Qed.

Lemma operation_events_batch g op v events : operation_events op (commit_batch g op v events) = events.
Proof.
  revert v. induction events as [|e events IH]; intros v; [done|]. simpl.
  unfold operation_events in *. rewrite filter_cons_True by done. simpl. by rewrite IH.
Qed.

Lemma scan_operation_None g op stream :
  scan_operation g op stream = None ↔ operation_events op stream = [].
Proof. unfold scan_operation. by destruct (operation_events op stream). Qed.
Lemma scan_operation_Some g op stream o :
  scan_operation g op stream = Some o → rlp_events o = operation_events op stream.
Proof. unfold scan_operation. destruct (operation_events op stream) eqn:E; [done|]. by intros [= <-]. Qed.

(** Versions count events. *)
Lemma fold_version l a a' :
  fold_res fold_committed a l = Ok a' → rag_ledger_version a + len l ≤ u64_max →
  rag_ledger_version a' = rag_ledger_version a + len l.
Proof.
  unfold len. revert a. induction l as [|e l IH]; intros a; cbn [fold_res length]; [intros [= <-]; lia|].
  destruct (fold_committed a e) as [a1|] eqn:Hf; [|done]. intros Hl Hb.
  assert (rag_ledger_version a1 = rag_ledger_version a + 1) as Hv.
  { unfold fold_committed in Hf. res_inv Hf. boolify. subst. simpl.
    match goal with E : cre_ledger_sequence e = _ |- _ => rewrite E end. unfold saturating_add. lia. }
  rewrite (IH a1 Hl) by lia. lia.
Qed.
Lemma rehydrate_version g l a :
  rehydrate_repair g l = Ok a → len l ≤ u64_max → rag_ledger_version a = len l.
Proof. intros Hr Hb. apply fold_version in Hr; simpl in *; lia. Qed.
Lemma preview_version events a p :
  preview a events = Ok p → rag_ledger_version a + len events ≤ u64_max →
  rag_ledger_version p = rag_ledger_version a + len events.
Proof.
  unfold preview, len. revert a. induction events as [|e events IH]; intros a; cbn [fold_res length]; [intros [= <-]; lia|].
  unfold preview_event at 1. destruct (apply_repair_event a e) as [a1|] eqn:Ha; [|done]. simpl.
  apply apply_repair_event_frame in Ha as [Hv _]. intros Hp Hb. rewrite (IH _ Hp); simpl; unfold saturating_add; lia.
Qed.

(** What an append of a command does.  [l] is the stream the aggregate was
    loaded from, which may have grown since. *)
Lemma append_facts s a op events l :
  rehydrate_repair (rag_group_id a) l = Ok a → l `prefix_of` ledger s (rag_group_id a) →
  len (ledger s (rag_group_id a)) + len events ≤ u64_max →
  let g := rag_group_id a in
  let '(r, s') := run_outcome env s (append_and_reload a op events) in
  (ledger s' g = ledger s g
   ∨ operation_events op (ledger s g) = [] ∧ l = ledger s g
     ∧ ledger s' g = ledger s g ++ commit_batch g op (rag_ledger_version a) events
     ∧ is_ok (rehydrate_repair g (ledger s' g)) = true)
  ∧ ∀ res, r = Ok res → l = ledger s g ∨ operation_events op (ledger s g) ≠ [] →
      operation_events op (ledger s' g) = events
      ∧ rehydrate_repair g (ledger s' g) = Ok (apr_aggregate res).
Proof.
  intros Hre Hpre Hb. cbv zeta. set (g := rag_group_id a) in *. unfold append_and_reload. fold g.
  assert (rag_ledger_version a = len l) as Hver.
  { apply (rehydrate_version g); [done|]. apply prefix_length in Hpre. unfold len in *. lia. }
  rewrite outcome_bind. unfold ofail_if at 1. rewrite outcome_done.
  destruct (is_nil events) eqn:Hnil; simpl fail_if; cbv iota beta; [by split; [left|]|].
  assert (0 < len events) as Hpos by (destruct events; [discriminate Hnil|unfold len; simpl; lia]).
  rewrite outcome_bind. destruct (load_operation_outcome s g op) as [Hs1 Hop].
  destruct (run_outcome env s (load_operation g op)) as [[o|e] s1]; cbn [fst snd] in *;
    [|split; [left; by rewrite Hs1|done]].
  specialize (Hop o eq_refl). destruct o as [existing|].
  - destruct (negb _) eqn:Hex; [unfold ofail; rewrite outcome_done; by split; [left; rewrite Hs1|]|].
    boolify. rewrite outcome_bind. destruct (load_aggregate_outcome s1 g) as [Hs2 Ha].
    destruct (run_outcome env s1 (load_aggregate g)) as [[a'|e] s2]; cbn [fst snd] in *.
    + rewrite outcome_ret, Hs1 in *. split; [left; by rewrite Hs2|]. intros res [= <-] _. rewrite Hs2. simpl.
      split; [|by apply Ha]. symmetry in Hop. by rewrite <-(scan_operation_Some _ _ _ _ Hop).
    + split; [left; by rewrite Hs2, Hs1|done].
  - rewrite outcome_bind. unfold olift at 1. rewrite outcome_done.
    destruct (preview a events) as [p|e] eqn:Hpv; cbn [map_err]; [|split; [left; by rewrite Hs1|done]].
    symmetry in Hop. apply scan_operation_None in Hop.
    rewrite outcome_bind, (outcome_ask _ (Append _)).
    pose proof (contract_append s1 op g (rag_ledger_version a) events) as Hap. cbv zeta in Hap. rewrite Hs1 in Hap.
    assert (∀ s2, ledger s2 g = ledger s g
        ∨ (rag_ledger_version a = len (ledger s g)
           ∧ ledger s2 g = ledger s g ++ commit_batch g op (rag_ledger_version a) events) →
      ledger s2 g = ledger s g
      ∨ operation_events op (ledger s g) = [] ∧ l = ledger s g
        ∧ ledger s2 g = ledger s g ++ commit_batch g op (rag_ledger_version a) events
        ∧ rehydrate_repair g (ledger s2 g) = Ok p) as Hadd.
    { intros s2 [?|[Hv Hl]]; [by left|right].
      assert (l = ledger s g) as Heq.
      { apply prefix_length_eq; [done|]. rewrite Hver in Hv. unfold len in Hv. lia. }
      split; [done|]. split; [done|]. split; [done|]. rewrite Hl, <-Heq.
      rewrite replay_is_preview; [done|done|]. rewrite Hver, Heq. lia. }
    apply Hadd in Hap. clear Hadd.
    destruct (env (Append _) s1) as [[out|e] s2]; cbn [fst snd map_err] in *;
      [|split; [destruct Hap as [?|(? & ? & ? & ->)]; auto|done]].
    rewrite outcome_bind. unfold olift. rewrite outcome_done.
    destruct (validate_append_outcome a p out);
      [|split; [destruct Hap as [?|(? & ? & ? & ->)]; auto|done]].
    rewrite outcome_bind. destruct (load_aggregate_outcome s2 g) as [Hs3 Ha].
    destruct (run_outcome env s2 (load_aggregate g)) as [[a'|e] s3]; cbn [fst snd] in *; rewrite <-Hs3 in Hap;
      [|split; [destruct Hap as [?|(? & ? & ? & ->)]; auto|done]].
    rewrite outcome_bind. unfold ofail_if. rewrite outcome_done. rewrite <-Hs3 in Ha. specialize (Ha a' eq_refl).
    destruct (rag_ledger_version a' <? rag_ledger_version p) eqn:Hlt; cbn [fail_if];
      [split; [destruct Hap as [?|(? & ? & ? & ->)]; auto|done]|].
    rewrite outcome_ret. split; [destruct Hap as [?|(? & ? & ? & ->)]; auto|].
    intros res [= <-] [Hl|Hne]; [|done]. simpl. split; [|done].
    destruct Hap as [Heq|(_ & _ & Heq & _)].
    + exfalso. rewrite Heq, <-Hl, Hre in Ha. injection Ha as <-. apply N.ltb_ge in Hlt.
      rewrite (preview_version _ _ _ Hpv) in Hlt; [lia|]. rewrite Hver, Hl. lia.
    + by rewrite Heq, operation_events_app, Hop, operation_events_batch.
Qed.

(** C11: An operation enters the stream at most once, whatever the ledger
    acknowledges.  When a command appends a batch, on an aggregate loaded from
    the stream or from an earlier state of it, the stream stays as it is, or it
    held nothing of the operation, had not grown since, and gets the batch
    once; the new stream folds.  When the call succeeds, and the aggregate was
    current or the operation was committed before, the stream holds exactly the
    batch under the operation and folds to the aggregate returned. *)
Theorem append_exactly_once s a op events l :
  rehydrate_repair (rag_group_id a) l = Ok a → l `prefix_of` ledger s (rag_group_id a) →
  len (ledger s (rag_group_id a)) + len events ≤ u64_max →
  let g := rag_group_id a in
  let '(r, s') := run_outcome env s (append_and_reload a op events) in
  (ledger s' g = ledger s g
   ∨ operation_events op (ledger s g) = [] ∧ l = ledger s g
     ∧ ledger s' g = ledger s g ++ commit_batch g op (rag_ledger_version a) events
     ∧ is_ok (rehydrate_repair g (ledger s' g)) = true)
  ∧ ∀ res, r = Ok res → l = ledger s g ∨ operation_events op (ledger s g) ≠ [] →
      operation_events op (ledger s' g) = events
      ∧ rehydrate_repair g (ledger s' g) = Ok (apr_aggregate res).
Proof. apply append_facts. Qed.

(** ** Sending a command again *)

Lemma outcome_bind_ok {A B} (m : orc A) (f : A → orc B) s b s' :
  run_outcome env s (m ≫= f) = (Ok b, s') →
  ∃ a s1, run_outcome env s m = (Ok a, s1) ∧ run_outcome env s1 (f a) = (Ok b, s').
Proof. rewrite outcome_bind. destruct (run_outcome env s m) as [[a|e] s1]; [eauto|done]. Qed.

Lemma verify_artifacts_outcome s op purpose artifacts :
  ledger (run_outcome env s (verify_artifacts op purpose artifacts)).2 = ledger s.
Proof.
  revert s. induction artifacts as [|x artifacts IH]; intros s; [done|]. cbn [verify_artifacts].
  rewrite outcome_bind, (outcome_ask _ (VerifyReady _)).
  pose proof (contract_other s (VerifyReady (MkVerificationRequest op purpose x))) as Hs.
  destruct (env (VerifyReady _) s) as [[v|e] s1]; cbn [fst snd map_err] in *; [|by apply Hs].
  rewrite outcome_bind. unfold olift. rewrite outcome_done.
  destruct (check_readiness x v); [|by apply Hs]. rewrite IH. by apply Hs.
Qed.

Lemma regression_events_exact a o events :
  regression_events a o = Ok events → recorded_failure_exact o (FailureRecorded o :: events) = true.
Proof.
  unfold regression_events. destruct (verified_build a) as [[c r]|].
  - intros Hr. res_inv Hr. simpl. by rewrite !bool_decide_eq_true_2.
  - intros [= <-]. simpl. by rewrite bool_decide_eq_true_2.
Qed.

Lemma regression_events_length a o events : regression_events a o = Ok events → len events ≤ 1.
Proof.
  unfold regression_events. destruct (verified_build a) as [[c r]|]; [|by intros [= <-]].
  intros Hr. res_inv Hr. done.
Qed.

Lemma record_failure_committed s command a s1 :
  len (ledger s (rrf_group_id command)) + 2 ≤ u64_max →
  run_outcome env s (record_recurring_failure command) = (Ok a, s1) →
  recorded_failure_exact (rrf_occurrence command)
    (operation_events (rrf_operation_id command) (ledger s1 (rrf_group_id command))) = true
  ∧ rehydrate_repair (rrf_group_id command) (ledger s1 (rrf_group_id command)) = Ok a.
Proof.
  set (g := rrf_group_id command). set (op := rrf_operation_id command).
  unfold record_recurring_failure. fold g op. intros Hb Ho.
  apply outcome_bind_ok in Ho as (grp & s2 & Hg & Ho). injection Hg as Hg <-.
  apply outcome_bind_ok in Ho as ([] & s2 & Hm & Ho). injection Hm as Hm <-.
  apply outcome_bind_ok in Ho as (o & s2 & Hop & Ho).
  destruct (load_operation_outcome s g op) as [Hs2 Hscan]. rewrite Hop in *. cbn [fst snd] in *.
  specialize (Hscan o eq_refl). destruct o as [existing|].
  - destruct (recorded_failure_exact _ (rlp_events existing)) eqn:Hex; cbn [negb] in Ho; [|done].
    destruct (load_aggregate_outcome s2 g) as [Hs3 Ha]. rewrite Ho in *. cbn [fst snd] in *.
    rewrite Hs3, Hs2 in *. symmetry in Hscan. apply scan_operation_Some in Hscan.
    rewrite <-Hscan. auto.
  - apply outcome_bind_ok in Ho as ([] & s3 & Hv & Ho). injection Hv as Hv <-.
    apply outcome_bind_ok in Ho as ([] & s3 & Hart & Ho).
    apply outcome_bind_ok in Ho as (a0 & s4 & Hl & Ho).
    destruct (load_aggregate_outcome s3 g) as [Hs4 Ha]. rewrite Hl in *. cbn [fst snd] in *.
    specialize (Ha a0 eq_refl). pose proof Ha as Hre0. apply rehydrate_inv in Ha as [Hga _].
    apply outcome_bind_ok in Ho as (evs & s5 & Hr & Ho). injection Hr as Hr <-.
    apply outcome_bind_ok in Ho as ([] & s5 & He & Ho). injection He as He <-.
    apply outcome_bind_ok in Ho as (res & s6 & Happ & Ho). injection Ho as <- <-.
    assert (ledger s4 g = ledger s g) as Hs.
    { pose proof (verify_artifacts_outcome s2 op VpErrorOccurrence (eoc_evidence (rrf_occurrence command))) as Hx.
      unfold verify_occurrence_artifacts in Hart. rewrite Hart in Hx. simpl in Hx. by rewrite Hs4, Hx, Hs2. }
    pose proof (append_facts s4 a0 op (FailureRecorded (rrf_occurrence command) :: evs) (ledger s4 g)) as Hx.
    rewrite Happ in Hx. cbv zeta in Hx. rewrite Hga in Hx.
    destruct Hx as [_ Hx]; [by rewrite Hs4|done| |].
    { apply regression_events_length in Hr. rewrite Hs. unfold len in *. cbn [length]. fold g in Hb. lia. }
    destruct (Hx res eq_refl) as [-> Hre]; [by left|]. split; [|done]. by eapply regression_events_exact.
Qed.

(** Once a failure was recorded, sending the command again changes nothing in
    the ledger and, when it answers, answers with the same aggregate. *)
Theorem record_failure_retry s command a s1 :
  len (ledger s (rrf_group_id command)) + 2 ≤ u64_max →
  run_outcome env s (record_recurring_failure command) = (Ok a, s1) →
  let '(r, s2) := run_outcome env s1 (record_recurring_failure command) in
  ledger s2 = ledger s1 ∧ ∀ a', r = Ok a' → a' = a.
Proof.
  intros Hb Ho. pose proof (record_failure_committed _ _ _ _ Hb Ho) as [Hex Hre].
  set (g := rrf_group_id command) in *. set (op := rrf_operation_id command) in *.
  unfold record_recurring_failure in *. fold g op in Ho |- *.
  apply outcome_bind_ok in Ho as (grp & s2 & Hg & Ho). unfold olift in Hg. injection Hg as Hg <-.
  apply outcome_bind_ok in Ho as ([] & s2 & Hm & _). injection Hm as Hm <-.
  rewrite outcome_bind. unfold olift at 1. rewrite outcome_done, Hg.
  rewrite outcome_bind. unfold ofail_if at 1. rewrite outcome_done, Hm.
  rewrite outcome_bind. destruct (load_operation_outcome s1 g op) as [Hs2 Hscan].
  destruct (run_outcome env s1 (load_operation g op)) as [[o|e] s2]; cbn [fst snd] in *; [|done].
  specialize (Hscan o eq_refl). destruct o as [existing|].
  - symmetry in Hscan. apply scan_operation_Some in Hscan. rewrite Hscan, Hex. cbn [negb].
    destruct (load_aggregate_outcome s2 g) as [Hs3 Ha].
    destruct (run_outcome env s2 (load_aggregate g)) as [[a'|e] s3]; cbn [fst snd] in *.
    + split; [by rewrite Hs3|]. intros a2 [= <-]. specialize (Ha a' eq_refl). rewrite Hs2 in Ha. congruence.
    + split; [by rewrite Hs3|done].
  - symmetry in Hscan. apply scan_operation_None in Hscan. by rewrite Hscan in Hex.
Qed.
End retry.

(** ** Rejecting during an enrollment *)

Section wedge.
Context `{Sha256, RepairSerialize}.

Lemma preview_wedged a events a' :
  preview a events = Ok a' → enrollment_wedged a →
  Forall (λ e, ∀ p, e ≠ EnrollmentPrepared p) events → enrollment_wedged a'.
Proof.
  unfold preview. revert a. induction events as [|e events IH]; intros a; cbn [fold_res].
  { by intros [= <-]. }
  unfold preview_event at 1. destruct (apply_repair_event a e) as [a1|] eqn:Ha; [|done].
  intros Hp Hw [He Hne]%Forall_cons. apply apply_repair_event_step in Ha.
  apply (IH _ Hp); [|done]. exact (step_wedged _ _ _ Ha Hw He).
Qed.

(** A candidate rejected between the request and the preparation of its
    enrollment leaves the group stuck: the enrollment cannot be continued, with
    no call made to the helper, and no batch without the preparation (which only
    the continuation appends) ever unlocks it. *)
Theorem rejected_enrollment_wedges a d a' :
  enrollment_pending a = true →
  decide_candidate a d = Ok a' →
  (∀ request op, continue_enrollment a' request op = ofail OperationConflict)
  ∧ ∀ events a'', Forall (λ e, ∀ p, e ≠ EnrollmentPrepared p) events → preview a' events = Ok a'' →
      enrollment_pending a'' = true
      ∧ ∀ request op, continue_enrollment a'' request op = ofail OperationConflict.
Proof.
  intros Hp Hd%decide_candidate_step.
  assert (∀ x, enrollment_wedged x →
    ∀ request op, continue_enrollment x request op = ofail OperationConflict) as Hstuck.
  { intros x (Hx & _ & Hph) request op. unfold continue_enrollment, enrollment_pending in *.
    boolify. match goal with E : is_some (rag_enrollment_prepared x) = false |- _ =>
      apply is_some_false in E; rewrite E end.
    destruct (negb _); [done|]. by rewrite bool_decide_eq_false_2. }
  assert (enrollment_wedged a') as Hw.
  { inversion Hd; subst. split_and!; [done|done|done]. }
  split; [by apply Hstuck|]. intros events a'' Hne Hpre.
  pose proof (preview_wedged _ _ _ Hpre Hw Hne) as Hw'. split; [by destruct Hw'|by apply Hstuck].
Qed.
End wedge.

(** ** Investigations under a frozen manifest *)

Lemma contains_duplicate_from_NoDup seen ids :
  NoDup ids → Forall (λ i, as_str i ∉ seen) ids → contains_duplicate_from seen ids = false.
Proof.
  revert seen. induction ids as [|i ids IH]; intros seen; simpl; [done|].
  intros [Hi Hnd]%NoDup_cons [Hs Hids]%Forall_cons. apply orb_false_iff. split.
  - unfold bs_contains. by apply bool_decide_eq_false_2.
  - apply IH; [done|]. rewrite Forall_forall in *. intros j Hj.
    assert (as_str j ≠ as_str i) by (intros ->%as_str_inj; done). set_solver.
Qed.
Lemma contains_duplicate_ids_NoDup ids : contains_duplicate_ids ids = false ↔ NoDup ids.
Proof.
  split; [apply contains_duplicate_ids_false|]. intros Hnd.
  apply contains_duplicate_from_NoDup; [done|]. apply Forall_forall. set_solver.
Qed.

(** Sorting distinct identifiers puts them in the order receipts must have. *)
Lemma sorted_strictly_increasing ids :
  NoDup ids → sorted_by (id_cmp id) ids → strictly_increasing ids = true.
Proof.
  intros Hnd Hs. induction Hs as [|a l Hl IH Ha]; [done|].
  apply NoDup_cons in Hnd as [Hin Hnd]. specialize (IH Hnd).
  destruct l as [|b l]; [done|]. cbn [strictly_increasing] in *. rewrite IH, andb_true_r.
  apply Forall_cons in Ha as [Hab _]. unfold cmp_leb, id_cmp, on_key, id in Hab.
  destruct (String.compare (as_str a) (as_str b)) eqn:E; [|done|done].
  apply String.compare_eq_iff in E. apply as_str_inj in E. subst. set_solver.
Qed.

Section repair_authority.
Context `{Sha256, !Sha256Laws, RepairSerialize} `{Serialize graph} `{Serialize WorkerFrozenRunSnapshotV1}.
Variable simplified : string → string.
Variable resolve_workspace_v1 : string → result ProjectError WorkspaceBindingV1.

(** The manifest carries its own hash and the identifier derived from it. *)
Lemma frozen_manifest_sealed request s m :
  freeze_v1 simplified resolve_workspace_v1 request = Ok (s, m) →
  authority_manifest_hash_v1 (mv_capability_bindings m) = Ok (mv_manifest_hash m)
  ∧ as_str (mv_manifest_id m) = "manifest." +:+ str_take 32 (mv_manifest_hash m)
  ∧ ws_authority_manifest_ref s = mv_manifest_id m
  ∧ ws_authority_manifest_hash s = mv_manifest_hash m
  ∧ ∀ b, b ∈ mv_capability_bindings m → cv_enabled b = true ∧ cv_compatible b = true.
Proof.
  intros Hf. unfold freeze_v1 in Hf. res_inv Hf.
  match goal with E : fold_res _ _ _ = Ok _ |- _ => apply freeze_bindings_ok in E as (_ & _ & Hval) end.
  simplify_eq/=.
  match goal with E : StableId_parse _ = Ok _ |- _ => apply StableId_parse_ok in E end.
  unfold authority_manifest_hash_v1.
  match goal with E : jcs_to_vec _ = Some _ |- _ => rewrite E end.
  split_and!; [done..|]. intros b Hb. by apply validate_binding_on, Hval.
Qed.

(** What an investigation gets is a sorted selection, without repetition, of
    capabilities the manifest holds enabled and compatible. *)
Lemma freeze_investigation_authority_within m requested auth :
  freeze_investigation_authority m requested = Ok auth →
  fra_capability_ids auth ≡ₚ requested ∧ strictly_increasing (fra_capability_ids auth) = true
  ∧ ∀ i, i ∈ fra_capability_ids auth →
      ∃ b, b ∈ mv_capability_bindings m ∧ cv_capability_id b = i
        ∧ cv_enabled b = true ∧ cv_compatible b = true.
Proof.
  unfold freeze_investigation_authority. intros Hf. handler_inv Hf. split_and!.
  - apply sort_by_perm.
  - apply sorted_strictly_increasing; [|apply sort_by_sorted; apply _].
    rewrite sort_by_perm. by apply contains_duplicate_ids_false.
  - intros i Hi. rewrite elem_of_sort_by in Hi.
    match goal with E : Forall _ requested |- _ =>
      rewrite Forall_forall in E; specialize (E i Hi); simpl in E end.
    boolify. match goal with E : existsb _ _ = true |- _ =>
      apply existsb_true_Exists, Exists_exists in E as (b & Hb & ?) end.
    boolify. eauto.
Qed.

(** A manifest the core froze for a run is accepted for an investigation of any
    of its capabilities, and the authority the investigation gets names that
    manifest, is exactly the requested set in the order execution receipts must
    have, and holds only capabilities the manifest enables. *)
Theorem frozen_manifest_investigable request s m requested :
  freeze_v1 simplified resolve_workspace_v1 request = Ok (s, m) →
  requested ≠ [] → len requested ≤ 256 → NoDup requested →
  requested ⊆ (cv_capability_id <$> mv_capability_bindings m) →
  ∃ auth, freeze_investigation_authority m requested = Ok auth
    ∧ fra_authority_manifest_id auth = ws_authority_manifest_ref s
    ∧ fra_authority_manifest_hash auth = ws_authority_manifest_hash s
    ∧ fra_capability_ids auth ≡ₚ requested
    ∧ strictly_increasing (fra_capability_ids auth) = true
    ∧ ∀ i, i ∈ fra_capability_ids auth →
        ∃ b, b ∈ mv_capability_bindings m ∧ cv_capability_id b = i
          ∧ cv_enabled b = true ∧ cv_compatible b = true.
Proof.
  intros (Hh & Hid & Hms & Hhs & Hon)%frozen_manifest_sealed Hne Hlen Hnd Hsub.
  assert (freeze_investigation_authority m requested
          = Ok (MkRepairAuthority (mv_manifest_id m) (mv_manifest_hash m)
                  (sort_by (id_cmp id) requested))) as Hf.
  { unfold freeze_investigation_authority. rewrite Hh. simpl.
    rewrite (proj2 (contains_duplicate_ids_NoDup requested) Hnd).
    rewrite (proj2 (N.ltb_ge _ _) Hlen).
    assert (is_nil requested = false) as -> by by destruct requested. simpl.
    rewrite (bool_decide_eq_true_2 (mv_manifest_hash m = _) eq_refl).
    rewrite (bool_decide_eq_true_2 (as_str _ = _) Hid). simpl.
    rewrite (proj2 (existsb_false_Forall _ requested)); [done|].
    apply Forall_forall. intros i Hi. apply negb_false_iff, existsb_true_Exists, Exists_exists.
    apply Hsub in Hi. apply list_elem_of_fmap in Hi as (b & -> & Hb). exists b. split; [done|].
    destruct (Hon b Hb) as [-> ->]. by rewrite bool_decide_eq_true_2. }
  eexists. split; [exact Hf|]. split_and!; try done.
  all: apply (freeze_investigation_authority_within _ _ _ Hf).
Qed.
End repair_authority.
