(* ===== verification/RepairWitness.v ===== *)
(** * A repair from the failure to its verification

    A concrete group: a failure, an investigation, a candidate, a capability
    report, the activation with its admission, quiescence, evidence and receipt;
    an enrollment that is rejected while pending; and a ledger in memory.  The
    theorems on repair applied to them. *)
From S2P Require Import RepairRetry AuthorityProofs.

Local Open Scope repair_scope.

Module DemoRepair.
#[export] Instance sha : Sha256 := demo_sha256.
Definition constant_serializer {T} : Serialize T := {|
  to_vec _ := Some []; jcs_to_vec _ := Some [] |}.
#[export] Instance serializers : RepairSerialize := {|
  rs_bindings := constant_serializer; rs_provenance := constant_serializer;
  rs_disclosure := constant_serializer; rs_candidate := constant_serializer;
  rs_receipt := constant_serializer; rs_report := constant_serializer;
  rs_baton := constant_serializer; rs_admission := constant_serializer;
  rs_quiescence := constant_serializer; rs_plan := constant_serializer;
  rs_evidence := constant_serializer; rs_result := constant_serializer |}.

Definition hex : string := Eval vm_compute in sha256_hex [].
Definition hash : string := "sha256:" +:+ hex.
Definition group : StableId := Eval vm_compute in
  match repair_group_id_for_fingerprint_v1 hash with Ok g => g | Err _ => id:"none" end.

Definition artifact (i : StableId) : RepairArtifactRefV1 :=
  MkRepairArtifact i hash 1 "text/plain" "artifact".
Definition bundle (i : StableId) : BuildBundleRefV1 := MkBundle (artifact i) "manifest.json".
Definition plan : FocusedVerificationPlanV1 :=
  MkFocusedPlan id:"plan" [MkFocusedCheck id:"check" "starts" id:"cap.a" 1000] hash.
Definition evidence : FocusedVerificationEvidenceV1 :=
  MkFocusedEvidence id:"plan" hash
    [MkFocusedResult id:"check" true "it starts" [artifact id:"log"]] hash.
Definition none_declared : DisclosureItemsV1 := MkDisclosureItems [] true.
Definition shown (i : StableId) : RepairEvidenceDisclosureV1 := EdEvidence "shown" [artifact i].
Definition candidate : RepairCandidateV1 :=
  MkCandidate id:"candidate" group 1 "a fix" (bundle id:"build.new")
    (MkBuildProvenance "rev" hash hash hash hash hash) hex
    (MkDisclosure (shown id:"diff") (EdNoneDeclared "none") (shown id:"tests")
       (EdNotPerformed "not performed") none_declared none_declared none_declared none_declared
       none_declared none_declared DcRollbackCompatible (bundle id:"build.old") plan hash) hash.
Definition occurrence : ErrorOccurrenceV1 :=
  MkOccurrence id:"occurrence" hash "it fails" id:"event" None None [] 10.
Definition investigation : RepairInvestigationV1 :=
  MkInvestigation id:"investigation" id:"user.1" group id:"chat" id:"run"
    (MkRepairAuthority id:"manifest" hex [id:"cap.a"]) (MkInvestigationBudget 1 10 100 1000).
Definition receipt : AuthenticatedInvestigationExecutionReceiptV1 :=
  MkAuthenticatedReceipt
    (MkExecutionReceipt 1 id:"execution" id:"investigation" group id:"chat" id:"run"
       id:"candidate" 1 hash id:"manifest" hex [id:"cap.a"] [id:"cap.a"]
       (MkInvestigationBudget 1 10 100 1000) (MkInvestigationUsage 1 1 50 500) 20 hash)
    (MkExecutionPeer true hash hash).
Definition report (origin : BuildOriginV1) (eligibility : ActivationEligibilityV1) :
    PlatformCapabilityReportV1 :=
  MkCapabilityReport 1 id:"report" id:"candidate" 1 hash 1 origin eligibility
    (MkPlatformReason "ok" "supported" ["activate"]) (bundle id:"build.old")
    (Some (bundle id:"build.old")) 25 1000 hash.
Definition deadlines : BootstrapDeadlinesV1 := MkDeadlines 10 10 10 10 10 10.
Definition decision : RepairActivationDecisionV1 :=
  MkActivationDecision id:"activation" id:"user.2" id:"candidate" 1 hash id:"report" hash 30.
Definition checkpoint : ManagementCheckpointRefV1 :=
  MkManagementCheckpoint id:"checkpoint" id:"chat" id:"run" 7 hash hash.
Definition baton : RepairActivationBatonV1 :=
  MkBaton 1 id:"baton" id:"activation" group id:"candidate" 1 hash (bundle id:"build.new") hash
    hash hash id:"report" 1 hash (bundle id:"build.old") checkpoint plan 4 5 6 deadlines 90 hash.
Definition admission : BootstrapAcceptedAdmissionV1 :=
  MkAdmission id:"admission" id:"activation" hash 5 6 hash.
Definition facts : CoreQuiescenceFactsV1 :=
  MkQuiescence id:"quiescence" id:"activation" 4 2 1 0 false false hash.
Definition verified : AuthenticatedBootstrapResultV1 :=
  MkAuthenticatedResult
    (MkBootstrapResult 1 id:"receipt" id:"activation" hash id:"checkpoint" 5 60
       (BrActivatedVerified evidence) hash)
    (MkPeerProof true 5 hash hash).

(** The events up to the candidate, the handoff, and its end. *)
Definition prepared : list RepairEventV1 :=
  [FailureRecorded occurrence; InvestigationStarted investigation;
   CandidateRegistered candidate receipt].
Definition activated : list RepairEventV1 :=
  prepared ++ [CapabilityReported 26 (report (BoManagedLocal hash hash) AeSupportedManagedLocal);
               ActivationPrepared decision checkpoint baton].
Definition handoff : list RepairEventV1 :=
  [BootstrapAdmissionAccepted admission; CoreQuiesced facts;
   FocusedVerificationSubmitted id:"activation" 5 evidence].
Definition repair : list RepairEventV1 :=
  activated ++ handoff ++ [BootstrapResultReconciled 70 verified].
Definition stream (events : list RepairEventV1) : list CommittedRepairEventV1 :=
  commit_batch group id:"op" 0 events.

(** An enrollment on its way. *)
Definition enrolling : list RepairEventV1 :=
  prepared ++ [CapabilityReported 26 (report (BoSourceCheckout hash) AeEnrollmentRequired);
               EnrollmentRequested 27 (MkEnrollmentRequest id:"request" id:"user.3" group
                 id:"candidate" 1 hash hash (bundle id:"build.new") id:"report" hash)].
Definition rejection : RepairCandidateDecisionV1 :=
  MkCandidateDecision id:"decision" id:"candidate" 1 RdRejected "not now".

(** A second version of the candidate, reported on after the first, and an
    activation that still names the first. *)
Definition candidate_2 : RepairCandidateV1 :=
  MkCandidate id:"candidate" group 2 "another fix" (bundle id:"build.newer")
    (rcv_provenance candidate) hex (rcv_disclosure candidate) hash.
Definition receipt_2 : AuthenticatedInvestigationExecutionReceiptV1 :=
  MkAuthenticatedReceipt
    (MkExecutionReceipt 1 id:"execution.2" id:"investigation" group id:"chat" id:"run"
       id:"candidate" 2 hash id:"manifest" hex [id:"cap.a"] [id:"cap.a"]
       (MkInvestigationBudget 1 10 100 1000) (MkInvestigationUsage 1 1 50 500) 20 hash)
    (MkExecutionPeer true hash hash).
Definition report_2 : PlatformCapabilityReportV1 :=
  MkCapabilityReport 1 id:"report" id:"candidate" 2 hash 1 (BoManagedLocal hash hash) AeSupportedManagedLocal
    (MkPlatformReason "ok" "supported" ["activate"]) (bundle id:"build.old")
    (Some (bundle id:"build.old")) 25 1000 hash.
Definition superseded : list RepairEventV1 :=
  prepared ++ [CandidateRegistered candidate_2 receipt_2; CapabilityReported 26 report_2;
               ActivationPrepared decision checkpoint baton] ++ handoff ++ [BootstrapResultReconciled 70 verified].

Definition folded (events : list RepairEventV1) : RepairAggregateV1 :=
  match rehydrate_repair group (stream events) with Ok a => a | Err _ => empty_aggregate group end.
End DemoRepair.

(** ** A ledger in memory *)

Module MemoryLedger.
Import (hints) DemoRepair.

Definition group_stream (s : list CommittedRepairEventV1) (g : StableId) :
    list CommittedRepairEventV1 := filter (λ e, cre_group_id e = g) s.

Definition unavailable {A} : result RepairPortErrorV1 A :=
  Err (MkRepairPortError "unavailable" "unavailable" true).

Definition append (request : RepairLedgerAppendV1) (s : list CommittedRepairEventV1) :
    result RepairPortErrorV1 RepairLedgerAppendOutcomeV1 * list CommittedRepairEventV1 :=
  let g := rla_group_id request in
  let recorded := operation_events (rla_operation_id request) (group_stream s g) in
  if negb (is_nil recorded) then
    if bool_decide (recorded = rla_events request)
    then (Ok (MkAppendOutcome (len (group_stream s g)) true), s) else (unavailable, s)
  else if len (group_stream s g) =? rla_expected_ledger_version request
  then (Ok (MkAppendOutcome (len (group_stream s g) + len (rla_events request)) false),
        s ++ commit_batch g (rla_operation_id request) (rla_expected_ledger_version request)
               (rla_events request))
  else (unavailable, s).

(** The helper and the other ports do not answer; every artifact is ready. *)
Definition env (c : port_call) (s : list CommittedRepairEventV1) :
    port_reply c * list CommittedRepairEventV1 :=
  match c return port_reply c * list CommittedRepairEventV1 with
  | LoadGroup g => (Ok (group_stream s g), s)
  | LoadOperation g op => (Ok (scan_operation g op (group_stream s g)), s)
  | Append request => append request s
  | VerifyReady request =>
      (Ok (ArReady (rar_artifact_id (ravr_artifact request))
             (rar_content_hash (ravr_artifact request)) (rar_byte_size (ravr_artifact request))), s)
  | _ => (unavailable, s)
  end.

Lemma group_stream_batch s g op v events :
  group_stream (s ++ commit_batch g op v events) g
  = group_stream s g ++ commit_batch g op v events.
Proof.
  unfold group_stream. rewrite filter_app. f_equal. revert v.
  induction events as [|e events IH]; intros v; [done|]. simpl.
  rewrite filter_cons_True by done. by rewrite IH.
Qed.

#[export] Instance memory_contract : LedgerContract env group_stream.
Proof.
  split.
  - by intros s g stream [= <-].
  - intros s op g v events. cbv zeta. simpl. unfold append. simpl.
    destruct (operation_events op (group_stream s g)) as [|e es]; simpl; [|left; by case_bool_decide].
    destruct (N.eqb_spec (len (group_stream s g)) v) as [<-|]; simpl; [right; by rewrite group_stream_batch|by left].
  - intros s c Hc. destruct c; try done. by destruct (Hc request).
Qed.
End MemoryLedger.

Section repair_witnesses.
Import (hints) DemoRepair MemoryLedger.
Import DemoRepair.

Lemma verified_repair_custody_witness : ∃ a c r,
  rehydrate_repair group (stream repair) = Ok a ∧ verified_build a = Some (c, r)
  ∧ ∃ b rep e, bat_candidate_bundle b = rcv_build_bundle c ∧ report_binds rep c
      ∧ bsr_result (abr_receipt r) = BrActivatedVerified e
      ∧ Forall (λ x, fvr_passed x = true) (fve_results e).
Proof.
  assert (rehydrate_repair group (stream repair) = Ok (folded repair)) as Ha
    by (vm_compute; reflexivity).
  assert (verified_build (folded repair) = Some (candidate, verified)) as Hv
    by (vm_compute; reflexivity).
  assert (stream_activates_active group (stream repair) = true) as Hact by (vm_compute; reflexivity).
  exists (folded repair), candidate, verified. split; [exact Ha|]. split; [exact Hv|].
  destruct (verified_repair_custody _ _ _ _ _ Ha Hact ltac:(apply N.leb_le; vm_compute; reflexivity) Hv)
    as (d & ck & b & i & rep & rc & adm & f & e & t & _ & _ & _ & Hbb & _ & Hrb & Hx).
  exists b, rep, e. split; [apply Hbb|]. split; [exact Hrb|]. split; apply Hx.
Defined.

(** Without that discipline the fold accepts the activation of a version the
    capability report is not about, and reports another version as verified:
    the baton carries the first build, the report is on the second, and the
    second is the verified build. *)
Theorem superseded_activation_folds :
  rehydrate_repair group (stream superseded) = Ok (folded superseded)
  ∧ verified_build (folded superseded) = Some (candidate_2, verified)
  ∧ bat_candidate_bundle <$> rag_activation_baton (folded superseded) = Some (rcv_build_bundle candidate)
  ∧ rcv_build_bundle candidate ≠ rcv_build_bundle candidate_2
  ∧ pcr_candidate_version <$> rag_latest_capability_report (folded superseded) = Some 2
  ∧ stream_activates_active group (stream superseded) = false.
Proof.
  split; [vm_compute; reflexivity|]. split; [vm_compute; reflexivity|]. split; [vm_compute; reflexivity|].
  split; [intros E; apply (f_equal (λ b, bool_decide (b = rcv_build_bundle candidate))) in E; vm_compute in E; discriminate E|].
  split; vm_compute; reflexivity.
Qed.

Lemma handoff_exclusive_witness : ∃ a',
  preview (folded activated) handoff = Ok a' ∧ rag_bootstrap_result a' = None
  ∧ (same_handoff (folded activated) a' ∨ ∃ t r adm, BootstrapResultReconciled t r ∈ handoff
       ∧ t ≤ bat_expires_at_epoch_ms baton ∧ validate_authenticated_result r baton adm = Ok ()).
Proof.
  assert (is_ok (preview (folded activated) handoff) = true) as Hok by (vm_compute; reflexivity).
  destruct (preview (folded activated) handoff) as [a'|] eqn:E; [|discriminate Hok].
  exists a'. split; [reflexivity|]. split.
  - assert (match preview (folded activated) handoff with Ok a => rag_bootstrap_result a | Err _ => None end
            = None) as Hn by (vm_compute; reflexivity).
    rewrite E in Hn. exact Hn.
  - apply (handoff_exclusive _ _ _ baton E); vm_compute; reflexivity.
Defined.

Lemma replay_is_preview_witness :
  rehydrate_repair group
    (stream activated ++ commit_batch group id:"op.2" (rag_ledger_version (folded activated)) handoff)
  = preview (folded activated) handoff
  ∧ is_ok (preview (folded activated) handoff) = true.
Proof.
  split; [|vm_compute; reflexivity].
  apply (replay_is_preview group (stream activated) (folded activated)); [vm_compute; reflexivity|].
  apply N.leb_le. vm_compute. reflexivity.
Defined.

Lemma rejected_enrollment_wedges_witness : ∃ a',
  decide_candidate (folded enrolling) rejection = Ok a'
  ∧ ∀ request op, continue_enrollment a' request op = ofail OperationConflict.
Proof.
  assert (is_ok (decide_candidate (folded enrolling) rejection) = true) as Hok
    by (vm_compute; reflexivity).
  destruct (decide_candidate (folded enrolling) rejection) as [a'|] eqn:E; [|discriminate Hok].
  exists a'. split; [reflexivity|].
  refine (proj1 (rejected_enrollment_wedges (folded enrolling) rejection a' _ E)).
  vm_compute. reflexivity.
Defined.

(** Recording the failure in an empty ledger. *)
Lemma append_exactly_once_witness :
  let g := group in
  let '(r, s') := run_outcome MemoryLedger.env []
      (append_and_reload (empty_aggregate group) id:"op" [FailureRecorded occurrence]) in
  ∃ res, r = Ok res
  ∧ operation_events id:"op" (MemoryLedger.group_stream s' g) = [FailureRecorded occurrence]
  ∧ rehydrate_repair g (MemoryLedger.group_stream s' g) = Ok (apr_aggregate res).
Proof.
  pose proof (append_exactly_once MemoryLedger.env MemoryLedger.group_stream []
    (empty_aggregate group) id:"op" [FailureRecorded occurrence] [] eq_refl (prefix_nil _)
    ltac:(apply N.leb_le; vm_compute; reflexivity)) as Hx.
  assert (is_ok (run_outcome MemoryLedger.env []
    (append_and_reload (empty_aggregate group) id:"op" [FailureRecorded occurrence])).1 = true) as Hok
    by (vm_compute; reflexivity).
  cbv zeta in *. destruct (run_outcome MemoryLedger.env [] _) as [[res|e] s']; [|discriminate Hok].
  exists res. split; [reflexivity|]. exact (proj2 Hx res eq_refl (or_introl eq_refl)).
Defined.

Definition failure_command : RecordRecurringFailureV1 :=
  MkRecordFailure id:"op" group 0 occurrence.

Lemma record_failure_retry_witness : ∃ a s1,
  run_outcome MemoryLedger.env [] (record_recurring_failure failure_command) = (Ok a, s1)
  ∧ let '(r, s2) := run_outcome MemoryLedger.env s1 (record_recurring_failure failure_command) in
    MemoryLedger.group_stream s2 = MemoryLedger.group_stream s1 ∧ ∀ a', r = Ok a' → a' = a.
Proof.
  assert (is_ok (run_outcome MemoryLedger.env [] (record_recurring_failure failure_command)).1 = true)
    as Hok by (vm_compute; reflexivity).
  destruct (run_outcome MemoryLedger.env [] (record_recurring_failure failure_command)) as [[a|e] s1] eqn:E;
    [|discriminate Hok].
  exists a, s1. split; [reflexivity|].
  exact (record_failure_retry MemoryLedger.env MemoryLedger.group_stream [] failure_command a s1
    ltac:(apply N.leb_le; vm_compute; reflexivity) E).
Defined.

(** A call of a conversation: an activation that is sent again after its baton
    was committed asks the helper for admission. *)
Definition activation_command : ActivateAndRestartV1 :=
  MkActivate id:"op" 0 group id:"activation" id:"baton" id:"user.2" id:"candidate" 1 hash id:"report"
    hash 4 deadlines 30.
Definition committed : list CommittedRepairEventV1 :=
  commit_batch group id:"op.0" 0 (take 4 activated)
  ++ commit_batch group id:"op" 4 [ActivationPrepared decision checkpoint baton].

Lemma outbox_discipline_example :
  existsb (λ e, match e with Exchange (AdmitActivation b) _ => bool_decide (b = baton) | _ => false end)
    (run_prog MemoryLedger.env committed (execute (ActivateAndRestart activation_command))).1.1 = true.
Proof. vm_compute. reflexivity. Qed.
End repair_witnesses.

Section repair_authority_witness.
Import (hints) Demo DemoRepair.

Definition repair_frozen : result SnapshotErrorV1 (WorkerFrozenRunSnapshotV1 * AuthorityManifestV1) :=
  @freeze_v1 _ DemoAuthority.graph_ser rs_bindings _ id (λ _, Ok DemoAuthority.workspace)
    DemoAuthority.request.

Lemma frozen_manifest_investigable_witness : ∃ s m auth,
  repair_frozen = Ok (s, m) ∧ freeze_investigation_authority m [id:"cap.b"; id:"cap.a"] = Ok auth
  ∧ fra_capability_ids auth ≡ₚ [id:"cap.b"; id:"cap.a"].
Proof.
  assert (is_ok repair_frozen = true) as Hok by (vm_compute; reflexivity).
  assert (match repair_frozen with Ok (_, m) => cv_capability_id <$> mv_capability_bindings m | Err _ => [] end
          = [id:"cap.a"; id:"cap.b"]) as Hids by (vm_compute; reflexivity).
  destruct repair_frozen as [[s m]|e] eqn:E; [|discriminate Hok].
  destruct (frozen_manifest_investigable id (λ _, Ok DemoAuthority.workspace) DemoAuthority.request s m
              [id:"cap.b"; id:"cap.a"] E) as (auth & Ha & _ & _ & Hp & _).
  - discriminate.
  - vm_compute. discriminate.
  - apply (bool_decide_unpack _). vm_compute. exact I.
  - rewrite Hids. intros x Hx%list_elem_of_In. apply list_elem_of_In. cbn [In] in *. tauto.
  - exists s, m, auth. split; [reflexivity|]. split; [exact Ha|exact Hp].
Defined.
End repair_authority_witness.
