(* ===== verification/HelperJournal.v ===== *)
(** * The bootstrap helper's journal
      ([crates/aworkit-bootstrap-helper/src/journal/])

    The durable record of one enrollment or activation: [model.rs] (records,
    seals, recovery facts), [phase.rs] (the two phase machines), [hashing.rs],
    [storage.rs] (the journal root on disk) and [journal.rs] (the operations of
    [ActivationJournal]).  A storage call may fail before or after it took
    effect; which ones fail is part of the state ([jh_fates]). *)
From S2P Require Export RepairValidation.

Local Open Scope repair_scope.

(** ** Data *)

Definition JOURNAL_SCHEMA_VERSION_V1 : N := 1.
Definition JOURNAL_HELPER_VERSION_V1 : N := 1.
Definition MAX_JOURNAL_RECORDS : N := 512.
Definition MAX_RECOVERY_INSTRUCTIONS : N := 32.

Inductive ReasonCodeV1 : Type :=
| RcUnsupportedPlatform | RcUnsupportedVolume | RcUnsupportedSelector
| RcUnsupportedProcessCleanup | RcDataMigrationRequired | RcOriginUnverifiable
| RcEnrollmentMismatch | RcCapabilityDrift | RcCandidateFailure | RcRollbackFailure
| RcTornJournal | RcChainBroken | RcGenerationProofMissing | RcAmbiguousSelectorState
| RcDiskFull | RcSyncFailure | RcOwnershipLost.
#[export] Instance ReasonCodeV1_eq_dec : EqDecision ReasonCodeV1.
Proof. solve_decision. Defined.

Record ManualRecoveryNoticeV1 : Type := MkNotice {
  mrn_notice_id : StableId;
  mrn_activation_id : StableId;
  mrn_reason : ReasonCodeV1;
  mrn_observed_slot_state_hash : string;
  mrn_diagnostic_id : StableId;
  mrn_instructions : list string
}.
#[export] Instance ManualRecoveryNoticeV1_eq_dec : EqDecision ManualRecoveryNoticeV1.
Proof. solve_decision. Defined.

Inductive JournalTransactionKindV1 : Type := JkEnrollment | JkActivation.
#[export] Instance JournalTransactionKindV1_eq_dec : EqDecision JournalTransactionKindV1.
Proof. solve_decision. Defined.

Inductive EnrollmentPhaseV1 : Type := EpIntent | EpPublished | EpPrepared.
#[export] Instance EnrollmentPhaseV1_eq_dec : EqDecision EnrollmentPhaseV1.
Proof. solve_decision. Defined.

Inductive BootstrapPhaseV1 : Type :=
| BpIdle | BpAdmittingBaton | BpUnsupported | BpBatonDurable | BpSlotsVerified
| BpQuiescingCurrent | BpAbortedBeforeSwitch | BpCandidateSelected | BpCandidateLaunching
| BpAwaitingCandidateIdentity | BpCandidateVerifying | BpVerified | BpResultAvailable
| BpRollingBack | BpPreviousSelected | BpPreviousRelaunching | BpRolledBack
| BpManualRecoveryRequired | BpRecovering.
#[export] Instance BootstrapPhaseV1_eq_dec : EqDecision BootstrapPhaseV1.
Proof. solve_decision. Defined.

Record CommandAdmittedV1 : Type := MkCommandAdmitted {
  cad_activation_id : StableId;
  cad_command_id : StableId;
  cad_command_kind : string;
  cad_command_hash : string;
  cad_process_generation : ProcessGeneration;
  cad_durable_phase : BootstrapPhaseV1
}.
#[export] Instance CommandAdmittedV1_eq_dec : EqDecision CommandAdmittedV1.
Proof. solve_decision. Defined.

Record EnrollmentIdentitiesV1 : Type := MkEnrollmentIdentities {
  eid_managed_root_identity_hash : string;
  eid_launcher_identity_hash : string;
  eid_journal_identity_hash : string;
  eid_selector_identity_hash : string
}.

Record EnrollmentIntentV1 : Type := MkEnrollmentIntent {
  ein_request : ManagedLocalEnrollmentRequestV1;
  ein_managed_root_identity_hash : string;
  ein_launcher_identity_hash : string;
  ein_journal_identity_hash : string;
  ein_selector_identity_hash : string
}.
#[export] Instance EnrollmentIntentV1_eq_dec : EqDecision EnrollmentIntentV1.
Proof. solve_decision. Defined.

Record EnrollmentObservationV1 : Type := MkEnrollmentObservation {
  eob_initial_active_bundle_hash : string;
  eob_published_slot_verified : bool
}.
#[export] Instance EnrollmentObservationV1_eq_dec : EqDecision EnrollmentObservationV1.
Proof. solve_decision. Defined.

Record BatonAcceptedV1 : Type := MkBatonAccepted {
  bac_activation_id : StableId;
  bac_baton_id : StableId;
  bac_baton_hash : string;
  bac_command_hash : string;
  bac_challenge_id : StableId;
  bac_challenge_hash : string;
  bac_peer_executable_hash : string;
  bac_peer_os_identity_hash : string;
  bac_admission_id : StableId;
  bac_admission_hash : string;
  bac_management_checkpoint_id : StableId;
  bac_profile_version : N;
  bac_provenance_digest : string;
  bac_enrollment_digest : string;
  bac_capability_generation : N;
  bac_capability_digest : string;
  bac_candidate_slot_hash : string;
  bac_previous_slot_hash : string;
  bac_verification_plan_hash : string;
  bac_current_process_generation : ProcessGeneration;
  bac_candidate_process_generation : ProcessGeneration;
  bac_rollback_process_generation : ProcessGeneration;
  bac_deadlines : BootstrapDeadlinesV1
}.
#[export] Instance BatonAcceptedV1_eq_dec : EqDecision BatonAcceptedV1.
Proof. solve_decision. Defined.

Record BootstrapEffectV1 : Type := MkEffect {
  bef_current_slot_hash : string;
  bef_target_slot_hash : string;
  bef_capability_generation : N;
  bef_process_generation : ProcessGeneration;
  bef_observation_hash : string
}.
#[export] Instance BootstrapEffectV1_eq_dec : EqDecision BootstrapEffectV1.
Proof. solve_decision. Defined.

Inductive JournalRecordPayloadV1 : Type :=
| JpEnrollmentIntent (intent : EnrollmentIntentV1)
| JpEnrollmentObservation (observation : EnrollmentObservationV1)
| JpBatonAccepted (baton : BatonAcceptedV1)
| JpEffectIntent (effect : BootstrapEffectV1)
| JpObservedEffect (effect : BootstrapEffectV1)
| JpPhaseAdvance (phase : BootstrapPhaseV1)
| JpCommandAdmitted (command : CommandAdmittedV1).
#[export] Instance JournalRecordPayloadV1_eq_dec : EqDecision JournalRecordPayloadV1.
Proof. solve_decision. Defined.

Record JournalRecordV1 : Type := MkHelperRecord {
  jrec_ordinal : N;
  jrec_previous_record_hash : option string;
  jrec_payload : JournalRecordPayloadV1;
  jrec_record_hash : string
}.
#[export] Instance JournalRecordV1_eq_dec : EqDecision JournalRecordV1.
Proof. solve_decision. Defined.

(** Mutations, fenced by ordinal and phase. *)
Record EnrollmentJournalMutationV1 : Type := MkEnrollmentMutation {
  ejm_enrollment_id : StableId;
  ejm_expected_ordinal : N;
  ejm_expected_phase : EnrollmentPhaseV1;
  ejm_observation : EnrollmentObservationV1
}.
Record BootstrapJournalMutationV1 : Type := MkBootstrapMutation {
  bjm_activation_id : StableId;
  bjm_expected_ordinal : N;
  bjm_expected_phase : BootstrapPhaseV1;
  bjm_effect : BootstrapEffectV1
}.
Record BootstrapPhaseAdvanceV1 : Type := MkPhaseAdvance {
  bpa_activation_id : StableId;
  bpa_expected_ordinal : N;
  bpa_expected_phase : BootstrapPhaseV1;
  bpa_next_phase : BootstrapPhaseV1
}.
Record JournalDurableAckV1 : Type := MkDurableAck {
  jda_transaction_kind : JournalTransactionKindV1;
  jda_transaction_id : StableId;
  jda_ordinal : N;
  jda_record_hash : string
}.

Inductive JournalPhaseV1 : Type :=
| JfEnrollment (phase : EnrollmentPhaseV1)
| JfBootstrap (phase : BootstrapPhaseV1).
Record JournalSnapshotV1 : Type := MkJournalSnapshot {
  jsn_transaction_kind : JournalTransactionKindV1;
  jsn_transaction_id : StableId;
  jsn_head_ordinal : N;
  jsn_head_record_hash : string;
  jsn_phase : JournalPhaseV1
}.

Record EnrollmentTerminalSealV1 : Type := MkEnrollmentSeal {
  ets_receipt : EnrollmentPreparedV1;
  ets_head_ordinal : N;
  ets_head_record_hash : string;
  ets_seal_hash : string
}.
Record BootstrapTerminalSealV1 : Type := MkBootstrapSeal {
  bts_receipt : BootstrapResultV1;
  bts_head_ordinal : N;
  bts_head_record_hash : string;
  bts_manual_recovery_notice_hash : option string;
  bts_seal_hash : string
}.
Inductive TerminalReceiptV1 : Type :=
| TrEnrollmentPrepared (seal : EnrollmentTerminalSealV1)
| TrBootstrapResult (seal : BootstrapTerminalSealV1).

Record EnrollmentJournalHeaderV1 : Type := MkEnrollmentHeader {
  ejh_schema_version : N;
  ejh_enrollment_id : StableId;
  ejh_helper_version : N;
  ejh_protocol_version : N;
  ejh_header_hash : string
}.
#[export] Instance EnrollmentJournalHeaderV1_eq_dec : EqDecision EnrollmentJournalHeaderV1.
Proof. solve_decision. Defined.
Record ActivationJournalHeaderV1 : Type := MkActivationHeader {
  ajh_schema_version : N;
  ajh_activation_id : StableId;
  ajh_baton_hash : string;
  ajh_profile_version : N;
  ajh_helper_version : N;
  ajh_protocol_version : N;
  ajh_header_hash : string
}.
#[export] Instance ActivationJournalHeaderV1_eq_dec : EqDecision ActivationJournalHeaderV1.
Proof. solve_decision. Defined.
Inductive JournalHeaderV1 : Type :=
| JhEnrollment (header : EnrollmentJournalHeaderV1)
| JhActivation (header : ActivationJournalHeaderV1).
#[export] Instance JournalHeaderV1_eq_dec : EqDecision JournalHeaderV1.
Proof. solve_decision. Defined.

Record EnrollmentRecoveryStateV1 : Type := MkEnrollmentRecovery {
  ers_enrollment_id : StableId;
  ers_phase : EnrollmentPhaseV1;
  ers_head_ordinal : N;
  ers_head_record_hash : string;
  ers_terminal : option EnrollmentPreparedV1
}.
Record BootstrapRecoveryStateV1 : Type := MkBootstrapRecovery {
  brs_activation_id : StableId;
  brs_phase : BootstrapPhaseV1;
  brs_head_ordinal : N;
  brs_head_record_hash : string;
  brs_terminal : option BootstrapResultV1;
  brs_manual_recovery : option ManualRecoveryNoticeV1;
  brs_open_effect : option BootstrapEffectV1;
  brs_baton : option BatonAcceptedV1;
  brs_admitted_commands : list CommandAdmittedV1
}.

Inductive BootstrapJournalError : Type :=
| BjEncoding
| BjBusy
| BjNotLocked
| BjKindConflict
| BjIdentityConflict
| BjStaleOrdinal (expected actual : N)
| BjStalePhase (expected actual : string)
| BjIllegalPhaseTransition (from to : string)
| BjTerminalImmutable
| BjTerminalSealed
| BjTerminalMissing
| BjChainBroken (ordinal : N)
| BjHeaderCorrupt
| BjRecordCapExceeded
| BjInvalid (text : string)
| BjIo.

(** [{phase:?}] *)
Definition enrollment_phase_debug (phase : EnrollmentPhaseV1) : string :=
  match phase with
  | EpIntent => "Intent" | EpPublished => "Published" | EpPrepared => "Prepared"
  end.
Definition bootstrap_phase_debug (phase : BootstrapPhaseV1) : string :=
  match phase with
  | BpIdle => "Idle" | BpAdmittingBaton => "AdmittingBaton" | BpUnsupported => "Unsupported"
  | BpBatonDurable => "BatonDurable" | BpSlotsVerified => "SlotsVerified"
  | BpQuiescingCurrent => "QuiescingCurrent" | BpAbortedBeforeSwitch => "AbortedBeforeSwitch"
  | BpCandidateSelected => "CandidateSelected" | BpCandidateLaunching => "CandidateLaunching"
  | BpAwaitingCandidateIdentity => "AwaitingCandidateIdentity"
  | BpCandidateVerifying => "CandidateVerifying" | BpVerified => "Verified"
  | BpResultAvailable => "ResultAvailable" | BpRollingBack => "RollingBack"
  | BpPreviousSelected => "PreviousSelected" | BpPreviousRelaunching => "PreviousRelaunching"
  | BpRolledBack => "RolledBack" | BpManualRecoveryRequired => "ManualRecoveryRequired"
  | BpRecovering => "Recovering"
  end.

(** ** The phase machines *)

Definition enrollment_can_advance (from to : EnrollmentPhaseV1) : bool :=
  match from, to with
  | EpIntent, EpPublished | EpPublished, EpPrepared => true
  | _, _ => false
  end.
Definition enrollment_is_terminal (phase : EnrollmentPhaseV1) : bool :=
  match phase with EpPrepared => true | _ => false end.

Definition bootstrap_can_advance (from to : BootstrapPhaseV1) : bool :=
  if from ≟ to then false else
  match from, to with
  | BpIdle, BpAdmittingBaton
  | BpAdmittingBaton, BpUnsupported
  | BpAdmittingBaton, BpBatonDurable
  | BpBatonDurable, BpSlotsVerified
  | BpBatonDurable, BpUnsupported
  | BpSlotsVerified, BpQuiescingCurrent
  | BpSlotsVerified, BpUnsupported
  | BpQuiescingCurrent, BpAbortedBeforeSwitch
  | BpQuiescingCurrent, BpCandidateSelected
  | BpCandidateSelected, BpCandidateLaunching
  | BpCandidateSelected, BpRollingBack
  | BpCandidateLaunching, BpAwaitingCandidateIdentity
  | BpCandidateLaunching, BpRollingBack
  | BpAwaitingCandidateIdentity, BpCandidateVerifying
  | BpAwaitingCandidateIdentity, BpRollingBack
  | BpCandidateVerifying, BpVerified
  | BpCandidateVerifying, BpRollingBack
  | BpVerified, BpResultAvailable
  | BpRollingBack, BpPreviousSelected
  | BpRollingBack, BpManualRecoveryRequired
  | BpPreviousSelected, BpPreviousRelaunching
  | BpPreviousRelaunching, BpRolledBack
  | BpPreviousRelaunching, BpManualRecoveryRequired
  | BpRolledBack, BpResultAvailable
  | BpUnsupported, BpResultAvailable
  | BpAbortedBeforeSwitch, BpResultAvailable
  | BpManualRecoveryRequired, BpResultAvailable
  | BpRecovering, BpBatonDurable
  | BpRecovering, BpRollingBack
  | BpRecovering, BpResultAvailable
  | BpRecovering, BpManualRecoveryRequired
  | BpRecovering, BpAbortedBeforeSwitch
  | BpVerified, BpRecovering => true
  | (BpBatonDurable | BpSlotsVerified | BpQuiescingCurrent | BpCandidateSelected
    | BpCandidateLaunching | BpAwaitingCandidateIdentity | BpCandidateVerifying
    | BpRollingBack | BpPreviousSelected | BpPreviousRelaunching), BpRecovering => true
  | _, _ => false
  end.

Definition bootstrap_is_terminal (phase : BootstrapPhaseV1) : bool :=
  match phase with
  | BpVerified | BpRolledBack | BpUnsupported | BpAbortedBeforeSwitch
  | BpManualRecoveryRequired | BpResultAvailable => true
  | _ => false
  end.

Definition result_can_seal (phase : BootstrapPhaseV1) (kind : BootstrapResultKindV1) : bool :=
  match kind with
  | BrActivatedVerified _ => phase ≟ BpVerified
  | BrRolledBack _ _ => phase ≟ BpRolledBack
  | BrUnsupported _ => (phase ≟ BpUnsupported) || (phase ≟ BpAbortedBeforeSwitch)
  | BrManualRecoveryRequired _ _ _ => phase ≟ BpManualRecoveryRequired
  end.

(** ** Hashing *)

Definition enrollment_header_key : Type := N * string * N * N.
Definition activation_header_key : Type := N * string * string * N * N * N.
Definition record_key : Type := N * option string * JournalRecordPayloadV1.
Definition enrollment_seal_key : Type := EnrollmentPreparedV1 * N * string.
Definition bootstrap_seal_key : Type := BootstrapResultV1 * N * string * option string.

(** [serde_jcs::to_vec] at what the journal hashes. *)
Class JournalSerialize : Type := {
  js_enrollment_header :: Serialize enrollment_header_key;
  js_activation_header :: Serialize activation_header_key;
  js_record :: Serialize record_key;
  js_enrollment_seal :: Serialize enrollment_seal_key;
  js_bootstrap_seal :: Serialize bootstrap_seal_key;
  js_notice :: Serialize ManualRecoveryNoticeV1
}.

(** ** The journal root *)

(** A file of the root: what it decodes to, or bytes that do not decode. *)
Inductive stored (T : Type) : Type := Intact (value : T) | Garbled.
Arguments Intact {T} value.
Arguments Garbled {T}.

(** The files of a root; the records by the ordinal in their names, ascending.
    [jr_locked] is the exclusive lock on the root's [LOCK] file. *)
Record JournalRoot : Type := MkRoot {
  jr_locked : bool;
  jr_header : option (stored JournalHeaderV1);
  jr_records : list (N * stored JournalRecordV1);
  jr_snapshot : option (stored JournalSnapshotV1);
  jr_receipt : option (stored TerminalReceiptV1);
  jr_notice : option (stored ManualRecoveryNoticeV1)
}.
Definition empty_root : JournalRoot := MkRoot false None [] None None None.

(** What becomes of a storage call: it works, or it fails before or after it
    changed the root (the rename succeeds, the directory sync does not). *)
Inductive storage_fate : Type := CallWorks | CallFails | CallUnconfirmed.

(** An [ActivationJournal] with its storage: the open lock file of the
    process, the [held] flag, and the fates of the calls to come. *)
Record ActivationJournal : Type := MkActivationJournal {
  aj_root : JournalRoot;
  aj_lock_file : bool;
  aj_held : bool;
  aj_fates : list storage_fate
}.
Abbreviation hj := (stm ActivationJournal BootstrapJournalError).

Definition set_root (root : JournalRoot) (j : ActivationJournal) : ActivationJournal :=
  MkActivationJournal root (aj_lock_file j) (aj_held j) (aj_fates j).
Definition set_held (held : bool) (j : ActivationJournal) : ActivationJournal :=
  MkActivationJournal (aj_root j) (aj_lock_file j) held (aj_fates j).

Definition next_fate (j : ActivationJournal) : storage_fate * ActivationJournal :=
  match aj_fates j with
  | [] => (CallWorks, j)
  | fate :: fates => (fate, MkActivationJournal (aj_root j) (aj_lock_file j) (aj_held j) fates)
  end.
(** A storage call: its answer and the root it leaves. *)
Definition storage_call {A} (op : JournalRoot → JournalRoot * result BootstrapJournalError A) :
    hj A := λ j,
  let '(fate, j) := next_fate j in
  match fate with
  | CallWorks => let '(root, answer) := op (aj_root j) in (set_root root j, answer)
  | CallFails => (j, Err BjIo)
  | CallUnconfirmed => (set_root (op (aj_root j)).1 j, Err BjIo)
  end.
(** The result of a call whose error is not propagated. *)
Definition caught {S E A} (m : stm S E A) : stm S E (result E A) := λ s,
  let '(s', r) := m s in (s', Ok r).

Definition set_jr_header (v : option (stored JournalHeaderV1)) (r : JournalRoot) : JournalRoot :=
  MkRoot (jr_locked r) v (jr_records r) (jr_snapshot r) (jr_receipt r) (jr_notice r).
Definition set_jr_records (v : list (N * stored JournalRecordV1)) (r : JournalRoot) : JournalRoot :=
  MkRoot (jr_locked r) (jr_header r) v (jr_snapshot r) (jr_receipt r) (jr_notice r).
Definition set_jr_snapshot (v : option (stored JournalSnapshotV1)) (r : JournalRoot) : JournalRoot :=
  MkRoot (jr_locked r) (jr_header r) (jr_records r) v (jr_receipt r) (jr_notice r).
Definition set_jr_receipt (v : option (stored TerminalReceiptV1)) (r : JournalRoot) : JournalRoot :=
  MkRoot (jr_locked r) (jr_header r) (jr_records r) (jr_snapshot r) v (jr_notice r).
Definition set_jr_notice (v : option (stored ManualRecoveryNoticeV1)) (r : JournalRoot) :
    JournalRoot :=
  MkRoot (jr_locked r) (jr_header r) (jr_records r) (jr_snapshot r) (jr_receipt r) v.

(** [FilesystemJournalStorage::try_acquire_lock]: a failed call leaves the
    file closed, and with it the lock free. *)
Definition try_acquire_lock : hj () := λ j,
  let '(fate, j) := next_fate j in
  match fate with
  | CallWorks =>
      let r := aj_root j in
      if jr_locked r then (j, Err BjBusy) else
      (MkActivationJournal (MkRoot true (jr_header r) (jr_records r) (jr_snapshot r) (jr_receipt r)
                    (jr_notice r)) true (aj_held j) (aj_fates j), Ok ())
  | _ => (j, Err BjIo)
  end.
Definition release_lock : hj () := modify (λ j,
  if aj_lock_file j then
    let r := aj_root j in
    MkActivationJournal (MkRoot false (jr_header r) (jr_records r) (jr_snapshot r) (jr_receipt r)
                 (jr_notice r)) false (aj_held j) (aj_fates j)
  else j).

(** [read_opt] and the decoding of what it found. *)
Definition read_file {A} (get : JournalRoot → option (stored A)) (corrupt : BootstrapJournalError) :
    hj (option A) :=
  storage_call (λ r, (r, match get r with
                         | None => Ok None
                         | Some (Intact value) => Ok (Some value)
                         | Some Garbled => Err corrupt
                         end)).
(** [atomic_create_once] *)
Definition create_once {A} (get : JournalRoot → option (stored A))
    (set : option (stored A) → JournalRoot → JournalRoot) (value : A)
    (already_exists : BootstrapJournalError) : hj () :=
  storage_call (λ r, match get r with
                     | Some _ => (r, Err already_exists)
                     | None => (set (Some (Intact value)) r, Ok ())
                     end).

Definition write_header (header : JournalHeaderV1) : hj () :=
  create_once jr_header set_jr_header header BjIdentityConflict.
Definition read_header : hj (option JournalHeaderV1) := read_file jr_header BjHeaderCorrupt.

(** The files in ascending order of their names, with one more. *)
Fixpoint insert_record_file (ordinal : N) (f : stored JournalRecordV1)
    (files : list (N * stored JournalRecordV1)) : list (N * stored JournalRecordV1) :=
  match files with
  | [] => [(ordinal, f)]
  | (n, g) :: rest => if ordinal <? n then (ordinal, f) :: files
                      else (n, g) :: insert_record_file ordinal f rest
  end.
Definition append_record (record : JournalRecordV1) : hj () :=
  storage_call (λ r,
    if existsb (λ f, f.1 =? jrec_ordinal record) (jr_records r)
    then (r, Err (BjInvalid "record ordinal is already durable"))
    else (set_jr_records (insert_record_file (jrec_ordinal record) (Intact record) (jr_records r)) r,
          Ok ())).

(** The loop of [load_chain]: the records, and whether the last file is a torn
    tail to remove. *)
Fixpoint load_entries (expected : N) (files : list (N * stored JournalRecordV1)) :
    result BootstrapJournalError (list JournalRecordV1 * bool) :=
  match files with
  | [] => Ok ([], false)
  | (ordinal, f) :: rest =>
      if ordinal ≠? expected then Err (BjChainBroken expected) else
      match f with
      | Intact record =>
          if jrec_ordinal record =? ordinal then
            '(records, torn) ← load_entries (expected + 1) rest; Ok (record :: records, torn)
          else if is_nil rest then Ok ([], true) else Err (BjChainBroken ordinal)
      | Garbled => if is_nil rest then Ok ([], true) else Err (BjChainBroken ordinal)
      end
  end.
Definition load_chain : hj (list JournalRecordV1) :=
  storage_call (λ r, match load_entries 0 (jr_records r) with
                     | Ok (records, true) => (set_jr_records (removelast (jr_records r)) r, Ok records)
                     | Ok (records, false) => (r, Ok records)
                     | Err e => (r, Err e)
                     end).

Definition storage_write_snapshot (snapshot : JournalSnapshotV1) : hj () :=
  storage_call (λ r, (set_jr_snapshot (Some (Intact snapshot)) r, Ok ())).
Definition read_snapshot : hj (option JournalSnapshotV1) :=
  read_file jr_snapshot (BjInvalid "snapshot is corrupt").
Definition seal_receipt (receipt : TerminalReceiptV1) : hj () :=
  create_once jr_receipt set_jr_receipt receipt BjTerminalSealed.
Definition read_receipt : hj (option TerminalReceiptV1) :=
  read_file jr_receipt (BjInvalid "receipt is corrupt").
Definition read_notice : hj (option ManualRecoveryNoticeV1) :=
  read_file jr_notice (BjInvalid "manual-recovery notice is corrupt").
Definition write_notice (notice : ManualRecoveryNoticeV1) : hj () :=
  present ← read;
  if is_some (jr_notice (aj_root present)) then
    existing ← read_notice;
    if existing ≟ Some notice then mret ()
    else throw (BjInvalid "a manual-recovery notice is already durable")
  else create_once jr_notice set_jr_notice notice
         (BjInvalid "a manual-recovery notice is already durable").

(** ** Operations *)

Definition derive_bootstrap_phase_from (phase : BootstrapPhaseV1) (record : JournalRecordV1) :
    BootstrapPhaseV1 :=
  match jrec_payload record with
  | JpBatonAccepted _ => BpAdmittingBaton
  | JpPhaseAdvance next => next
  | _ => phase
  end.
Definition derive_bootstrap_phase (records : list JournalRecordV1) : BootstrapPhaseV1 :=
  foldl derive_bootstrap_phase_from BpIdle records.

Definition derive_enrollment_phase_from (phase : EnrollmentPhaseV1) (record : JournalRecordV1) :
    EnrollmentPhaseV1 :=
  match jrec_payload record with JpEnrollmentObservation _ => EpPublished | _ => phase end.
Definition derive_enrollment_phase (records : list JournalRecordV1) : EnrollmentPhaseV1 :=
  foldl derive_enrollment_phase_from EpIntent records.

Definition open_effect_from (open : option BootstrapEffectV1) (record : JournalRecordV1) :
    option BootstrapEffectV1 :=
  match jrec_payload record with
  | JpEffectIntent effect => Some effect
  | JpObservedEffect _ => None
  | _ => open
  end.
Definition open_effect (records : list JournalRecordV1) : option BootstrapEffectV1 :=
  foldl open_effect_from None records.

Definition effects_match (intent observation : BootstrapEffectV1) : bool :=
  (bef_current_slot_hash intent ≟ bef_current_slot_hash observation)
  && (bef_target_slot_hash intent ≟ bef_target_slot_hash observation)
  && (bef_capability_generation intent ≟ bef_capability_generation observation)
  && (bef_process_generation intent ≟ bef_process_generation observation).

Definition journal_ack (kind : JournalTransactionKindV1) (id : StableId) (record : JournalRecordV1) :
    JournalDurableAckV1 :=
  MkDurableAck kind id (jrec_ordinal record) (jrec_record_hash record).

(** [matches!((header, &record.payload), ...)] *)
Definition payload_fits (header : JournalHeaderV1) (payload : JournalRecordPayloadV1) : bool :=
  match header, payload with
  | JhEnrollment _, (JpEnrollmentIntent _ | JpEnrollmentObservation _) => true
  | JhActivation _, (JpBatonAccepted _ | JpEffectIntent _ | JpObservedEffect _ | JpPhaseAdvance _
                     | JpCommandAdmitted _) => true
  | _, _ => false
  end.

(** The record a command was admitted with. *)
Definition admitted_command (record : JournalRecordV1) : option CommandAdmittedV1 :=
  match jrec_payload record with JpCommandAdmitted command => Some command | _ => None end.
Definition accepted_baton (record : JournalRecordV1) : option BatonAcceptedV1 :=
  match jrec_payload record with JpBatonAccepted baton => Some baton | _ => None end.

Definition head_ordinal (records : list JournalRecordV1) : N :=
  match last records with Some record => jrec_ordinal record | None => 0 end.
Definition head_record_hash (records : list JournalRecordV1) : string :=
  match last records with Some record => jrec_record_hash record | None => "" end.

Section journal.
Context `{Sha256, RepairSerialize, JournalSerialize}.

Definition canonical_hash {T} `{Serialize T} (value : T) : result BootstrapJournalError string :=
  bytes ← ok_or (jcs_to_vec value) BjEncoding;
  Ok ("sha256:" +:+ sha256_hex bytes).

Definition record_hash (record : JournalRecordV1) : result BootstrapJournalError string :=
  canonical_hash ((jrec_ordinal record, jrec_previous_record_hash record, jrec_payload record)
                  : record_key).

Definition require_held : hj () :=
  j ← read; if aj_held j then mret () else throw BjNotLocked.
Definition require_capacity (records : list JournalRecordV1) : result BootstrapJournalError () :=
  fail_if (MAX_JOURNAL_RECORDS <=? len records) BjRecordCapExceeded.

(** The record [append] writes at the next ordinal. *)
Definition next_record (records : list JournalRecordV1) (payload : JournalRecordPayloadV1) :
    result BootstrapJournalError JournalRecordV1 :=
  let record := MkHelperRecord (len records) (jrec_record_hash <$> last records) payload "" in
  hash ← record_hash record;
  Ok (MkHelperRecord (jrec_ordinal record) (jrec_previous_record_hash record) payload hash).
Definition journal_append (records : list JournalRecordV1) (payload : JournalRecordPayloadV1) :
    hj JournalRecordV1 :=
  _ ← lift (require_capacity records);
  record ← lift (next_record records payload);
  _ ← append_record record;
  mret record.

Definition header_hash (header : JournalHeaderV1) : result BootstrapJournalError string :=
  match header with
  | JhEnrollment h =>
      canonical_hash ((ejh_schema_version h, as_str (ejh_enrollment_id h), ejh_helper_version h,
                       ejh_protocol_version h) : enrollment_header_key)
  | JhActivation h =>
      canonical_hash ((ajh_schema_version h, as_str (ajh_activation_id h), ajh_baton_hash h,
                       ajh_profile_version h, ajh_helper_version h, ajh_protocol_version h)
                      : activation_header_key)
  end.
Definition verify_header (header : JournalHeaderV1) : result BootstrapJournalError () :=
  expected ← header_hash header;
  let '(schema, helper, protocol, stored_hash) :=
    match header with
    | JhEnrollment h => (ejh_schema_version h, ejh_helper_version h, ejh_protocol_version h,
                         ejh_header_hash h)
    | JhActivation h => (ajh_schema_version h, ajh_helper_version h, ajh_protocol_version h,
                         ajh_header_hash h)
    end in
  fail_if ((schema ≠? JOURNAL_SCHEMA_VERSION_V1) || (helper ≠? JOURNAL_HELPER_VERSION_V1)
           || (protocol ≠? JOURNAL_HELPER_VERSION_V1) || (stored_hash ≠? expected))
    BjHeaderCorrupt.

Definition activation_id : hj StableId :=
  header ← read_header;
  match header with
  | Some (JhActivation h) => _ ← lift (verify_header (JhActivation h)); mret (ajh_activation_id h)
  | _ => throw BjKindConflict
  end.
Definition enrollment_id : hj StableId :=
  header ← read_header;
  match header with
  | Some (JhEnrollment h) => _ ← lift (verify_header (JhEnrollment h)); mret (ejh_enrollment_id h)
  | _ => throw BjKindConflict
  end.

(** The loop of [verify_chain]: one record at its index, after the hash before
    it, and the rest. *)
Definition verify_record (header : JournalHeaderV1) (index : N) (previous : option string)
    (record : JournalRecordV1) : result BootstrapJournalError () :=
  _ ← fail_if (jrec_ordinal record ≠? index) (BjChainBroken index);
  expected_previous ←
    (if index =? 0 then Ok None
     else hash ← ok_or previous (BjChainBroken (jrec_ordinal record)); Ok (Some hash));
  _ ← fail_if (jrec_previous_record_hash record ≠? expected_previous)
        (BjChainBroken (jrec_ordinal record));
  hash ← record_hash record;
  _ ← fail_if (hash ≠? jrec_record_hash record) (BjChainBroken (jrec_ordinal record));
  fail_if (negb (payload_fits header (jrec_payload record))) BjKindConflict.
Fixpoint verify_records (header : JournalHeaderV1) (index : N) (previous : option string)
    (records : list JournalRecordV1) : result BootstrapJournalError () :=
  match records with
  | [] => Ok ()
  | record :: rest =>
      _ ← verify_record header index previous record;
      verify_records header (index + 1) (Some (jrec_record_hash record)) rest
  end.
Definition verify_chain (header : JournalHeaderV1) (records : list JournalRecordV1) :
    result BootstrapJournalError () :=
  _ ← verify_header header;
  _ ← fail_if (MAX_JOURNAL_RECORDS <? len records) BjRecordCapExceeded;
  verify_records header 0 None records.

(** [load_chain], [read_header] and [verify_chain] in the order most operations
    make them. *)
Definition load_verified : hj (JournalHeaderV1 * list JournalRecordV1) :=
  records ← load_chain;
  header ← read_header;
  header ← lift (ok_or header BjHeaderCorrupt);
  _ ← lift (verify_chain header records);
  mret (header, records).

Definition snapshot_phase (records : list JournalRecordV1) : hj JournalPhaseV1 :=
  header ← caught read_header;
  mret (match header with
        | Ok (Some (JhEnrollment _)) => JfEnrollment (derive_enrollment_phase records)
        | Ok (Some (JhActivation _)) => JfBootstrap (derive_bootstrap_phase records)
        | _ => JfBootstrap BpIdle
        end).
Definition write_snapshot (records : list JournalRecordV1) : hj () :=
  header ← read_header;
  match header with
  | None => mret ()
  | Some header =>
      phase ← snapshot_phase records;
      let '(kind, id) := match header with
                         | JhEnrollment h => (JkEnrollment, ejh_enrollment_id h)
                         | JhActivation h => (JkActivation, ajh_activation_id h)
                         end in
      storage_write_snapshot
        (MkJournalSnapshot kind id (head_ordinal records) (head_record_hash records) phase)
  end.

(** [append] with the snapshot after it and the acknowledgement. *)
Definition append_acknowledged (kind : JournalTransactionKindV1) (id : StableId)
    (records : list JournalRecordV1) (payload : JournalRecordPayloadV1) : hj JournalDurableAckV1 :=
  record ← journal_append records payload;
  _ ← write_snapshot (records ++ [record]);
  mret (journal_ack kind id record).

Definition append_effect (mutation : BootstrapJournalMutationV1) (is_intent : bool) :
    hj JournalDurableAckV1 :=
  _ ← require_held;
  id ← activation_id;
  _ ← reject_if (bjm_activation_id mutation ≠? id) BjIdentityConflict;
  '(_, records) ← load_verified;
  _ ← lift (require_capacity records);
  _ ← reject_if (bjm_expected_ordinal mutation ≠? len records)
        (BjStaleOrdinal (bjm_expected_ordinal mutation) (len records));
  let current := derive_bootstrap_phase records in
  _ ← reject_if (bjm_expected_phase mutation ≠? current)
        (BjStalePhase (bootstrap_phase_debug (bjm_expected_phase mutation))
           (bootstrap_phase_debug current));
  let has_observation := bef_observation_hash (bjm_effect mutation) ≠? "" in
  _ ← reject_if (Bool.eqb is_intent has_observation)
        (BjInvalid "effect intent and observed effect must differ by their observation hash");
  _ ← match is_intent, open_effect records with
      | true, Some _ => throw (BjInvalid "an earlier effect intent has no durable observation")
      | false, Some intent =>
          reject_if (negb (effects_match intent (bjm_effect mutation)))
            (BjInvalid "observed effect does not close the durable intent")
      | false, None => throw (BjInvalid "observed effect has no durable intent")
      | true, None => mret ()
      end;
  append_acknowledged JkActivation id records
    (if is_intent then JpEffectIntent (bjm_effect mutation)
     else JpObservedEffect (bjm_effect mutation)).

Definition journal_drop : hj () :=
  j ← read;
  if aj_held j then _ ← modify (set_held false); release_lock else mret ().

Definition acquire_single_flight : hj () :=
  j ← read;
  if aj_held j then throw BjBusy else
  _ ← try_acquire_lock;
  modify (set_held true).

(** The header of a new transaction is written, or found there and checked. *)
Definition establish_header (header : JournalHeaderV1) : hj () :=
  existing ← read_header;
  match existing with
  | None => write_header header
  | Some existing => if existing ≟ header then lift (verify_header existing)
                     else throw BjKindConflict
  end.

Definition append_enrollment_intent (request : ManagedLocalEnrollmentRequestV1)
    (identities : EnrollmentIdentitiesV1) : hj JournalDurableAckV1 :=
  _ ← require_held;
  records ← load_chain;
  _ ← reject_if (negb (is_nil records)) (BjStaleOrdinal 0 (len records));
  hash ← lift (canonical_hash ((JOURNAL_SCHEMA_VERSION_V1, as_str (mer_request_id request),
                 JOURNAL_HELPER_VERSION_V1, JOURNAL_HELPER_VERSION_V1) : enrollment_header_key));
  _ ← establish_header (JhEnrollment (MkEnrollmentHeader JOURNAL_SCHEMA_VERSION_V1
        (mer_request_id request) JOURNAL_HELPER_VERSION_V1 JOURNAL_HELPER_VERSION_V1 hash));
  append_acknowledged JkEnrollment (mer_request_id request) []
    (JpEnrollmentIntent (MkEnrollmentIntent request
       (eid_managed_root_identity_hash identities) (eid_launcher_identity_hash identities)
       (eid_journal_identity_hash identities) (eid_selector_identity_hash identities))).

Definition append_enrollment_observation (mutation : EnrollmentJournalMutationV1) :
    hj JournalDurableAckV1 :=
  _ ← require_held;
  id ← enrollment_id;
  _ ← reject_if (ejm_enrollment_id mutation ≠? id) BjIdentityConflict;
  '(_, records) ← load_verified;
  _ ← lift (require_capacity records);
  _ ← reject_if (ejm_expected_ordinal mutation ≠? len records)
        (BjStaleOrdinal (ejm_expected_ordinal mutation) (len records));
  let current := derive_enrollment_phase records in
  _ ← reject_if (ejm_expected_phase mutation ≠? current)
        (BjStalePhase (enrollment_phase_debug (ejm_expected_phase mutation))
           (enrollment_phase_debug current));
  _ ← reject_if (negb (enrollment_can_advance current EpPublished))
        (BjIllegalPhaseTransition (enrollment_phase_debug current)
           (enrollment_phase_debug EpPublished));
  append_acknowledged JkEnrollment id records (JpEnrollmentObservation (ejm_observation mutation)).

Definition store_enrollment_prepared (receipt : EnrollmentPreparedV1) : hj JournalDurableAckV1 :=
  _ ← require_held;
  id ← enrollment_id;
  _ ← reject_if (enp_request_id receipt ≠? id) BjIdentityConflict;
  sealed ← read_receipt;
  _ ← reject_if (is_some sealed) BjTerminalSealed;
  '(_, records) ← load_verified;
  let current := derive_enrollment_phase records in
  _ ← reject_if (enrollment_is_terminal current) BjTerminalImmutable;
  _ ← reject_if (negb (enrollment_can_advance current EpPrepared))
        (BjStalePhase "published" (enrollment_phase_debug current));
  last_record ← lift (ok_or (last records) (BjInvalid "enrollment has no durable observation"));
  hash ← lift (canonical_hash ((receipt, jrec_ordinal last_record, jrec_record_hash last_record)
                               : enrollment_seal_key));
  _ ← seal_receipt (TrEnrollmentPrepared (MkEnrollmentSeal receipt (jrec_ordinal last_record)
        (jrec_record_hash last_record) hash));
  mret (journal_ack JkEnrollment id last_record).

Definition append_baton_accepted (baton : BatonAcceptedV1) : hj JournalDurableAckV1 :=
  _ ← require_held;
  records ← load_chain;
  _ ← reject_if (negb (is_nil records)) (BjStaleOrdinal 0 (len records));
  hash ← lift (canonical_hash ((JOURNAL_SCHEMA_VERSION_V1, as_str (bac_activation_id baton),
                 bac_baton_hash baton, bac_profile_version baton, JOURNAL_HELPER_VERSION_V1,
                 JOURNAL_HELPER_VERSION_V1) : activation_header_key));
  _ ← establish_header (JhActivation (MkActivationHeader JOURNAL_SCHEMA_VERSION_V1
        (bac_activation_id baton) (bac_baton_hash baton) (bac_profile_version baton)
        JOURNAL_HELPER_VERSION_V1 JOURNAL_HELPER_VERSION_V1 hash));
  append_acknowledged JkActivation (bac_activation_id baton) [] (JpBatonAccepted baton).

Definition append_effect_intent (mutation : BootstrapJournalMutationV1) : hj JournalDurableAckV1 :=
  append_effect mutation true.
Definition append_observed_effect (mutation : BootstrapJournalMutationV1) :
    hj JournalDurableAckV1 :=
  append_effect mutation false.

Definition advance_phase (mutation : BootstrapPhaseAdvanceV1) : hj JournalDurableAckV1 :=
  _ ← require_held;
  id ← activation_id;
  _ ← reject_if (bpa_activation_id mutation ≠? id) BjIdentityConflict;
  '(_, records) ← load_verified;
  _ ← lift (require_capacity records);
  _ ← reject_if (bpa_expected_ordinal mutation ≠? len records)
        (BjStaleOrdinal (bpa_expected_ordinal mutation) (len records));
  let current := derive_bootstrap_phase records in
  let next := bpa_next_phase mutation in
  _ ← reject_if (bpa_expected_phase mutation ≠? current)
        (BjStalePhase (bootstrap_phase_debug (bpa_expected_phase mutation))
           (bootstrap_phase_debug current));
  _ ← reject_if (bootstrap_is_terminal current
                 && negb ((current ≟ BpVerified) && (next ≟ BpRecovering))) BjTerminalImmutable;
  _ ← reject_if (is_some (open_effect records))
        (BjInvalid "phase cannot advance before the intended effect is observed");
  _ ← reject_if (negb (bootstrap_can_advance current next))
        (BjIllegalPhaseTransition (bootstrap_phase_debug current) (bootstrap_phase_debug next));
  append_acknowledged JkActivation id records (JpPhaseAdvance next).

Definition append_command_admitted (record : CommandAdmittedV1) : hj JournalDurableAckV1 :=
  _ ← require_held;
  id ← activation_id;
  _ ← reject_if (cad_activation_id record ≠? id) BjIdentityConflict;
  '(_, records) ← load_verified;
  _ ← lift (require_capacity records);
  let current := derive_bootstrap_phase records in
  _ ← reject_if (bootstrap_is_terminal current) BjTerminalImmutable;
  _ ← reject_if (cad_durable_phase record ≠? current)
        (BjStalePhase (bootstrap_phase_debug (cad_durable_phase record))
           (bootstrap_phase_debug current));
  _ ← match List.find (λ c, cad_command_id c ≟ cad_command_id record)
              (omap admitted_command records) with
      | Some existing =>
          if cad_command_hash existing ≟ cad_command_hash record
          then throw (BjInvalid "command id is already durably admitted")
          else throw (BjChainBroken (len records))
      | None => mret ()
      end;
  append_acknowledged JkActivation id records (JpCommandAdmitted record).

Definition store_manual_recovery_notice (notice : ManualRecoveryNoticeV1) :
    hj JournalDurableAckV1 :=
  _ ← require_held;
  id ← activation_id;
  _ ← reject_if (mrn_activation_id notice ≠? id) BjIdentityConflict;
  _ ← reject_if (is_nil (mrn_instructions notice)
                 || (MAX_RECOVERY_INSTRUCTIONS <? len (mrn_instructions notice))
                 || existsb (λ i, (i ≟ "") || (512 <? str_len i)) (mrn_instructions notice))
        (BjInvalid "manual-recovery instructions exceed their bound");
  '(_, records) ← load_verified;
  _ ← reject_if (derive_bootstrap_phase records ≠? BpManualRecoveryRequired)
        (BjStalePhase (bootstrap_phase_debug BpManualRecoveryRequired)
           (bootstrap_phase_debug (derive_bootstrap_phase records)));
  _ ← write_notice notice;
  last_record ← lift (ok_or (last records)
    (BjInvalid "activation has no durable record to anchor the notice"));
  mret (journal_ack JkActivation id last_record).

(** [read_notice()?.map(canonical_hash).transpose()?] *)
Definition read_notice_hash : hj (option string) :=
  notice ← read_notice;
  match notice with
  | None => mret None
  | Some notice => hash ← lift (canonical_hash notice); mret (Some hash)
  end.
Definition is_manual_recovery (kind : BootstrapResultKindV1) : bool :=
  match kind with BrManualRecoveryRequired _ _ _ => true | _ => false end.

Definition store_bootstrap_result (result : BootstrapResultV1) : hj JournalDurableAckV1 :=
  _ ← require_held;
  id ← activation_id;
  _ ← reject_if (bsr_activation_id result ≠? id) BjIdentityConflict;
  _ ← reject_if (negb (match bootstrap_result_hash_v1 result with
                       | Ok hash => hash ≟ bsr_receipt_hash result
                       | Err _ => false
                       end)) (BjInvalid "bootstrap receipt hash is invalid");
  sealed ← read_receipt;
  _ ← reject_if (is_some sealed) BjTerminalSealed;
  '(_, records) ← load_verified;
  _ ← reject_if (is_some (open_effect records))
        (BjInvalid "terminal result cannot be sealed with an unobserved effect");
  let current := derive_bootstrap_phase records in
  _ ← reject_if (negb (result_can_seal current (bsr_result result)))
        (BjStalePhase "phase compatible with result disposition" (bootstrap_phase_debug current));
  last_record ← lift (ok_or (last records) (BjInvalid "activation has no durable record"));
  notice_hash ← read_notice_hash;
  _ ← reject_if (is_manual_recovery (bsr_result result) && negb (is_some notice_hash))
        (BjInvalid "manual-recovery result requires a durable notice");
  hash ← lift (canonical_hash ((result, jrec_ordinal last_record, jrec_record_hash last_record,
                                notice_hash) : bootstrap_seal_key));
  _ ← seal_receipt (TrBootstrapResult (MkBootstrapSeal result (jrec_ordinal last_record)
        (jrec_record_hash last_record) notice_hash hash));
  mret (journal_ack JkActivation id last_record).

Definition load_enrollment_recovery (id : StableId) : hj (option EnrollmentRecoveryStateV1) :=
  header ← read_header;
  match header with
  | Some (JhEnrollment h) =>
      if ejh_enrollment_id h ≠? id then mret None else
      records ← load_chain;
      _ ← lift (verify_chain (JhEnrollment h) records);
      receipt ← read_receipt;
      terminal ← match receipt with
                 | Some (TrEnrollmentPrepared seal) =>
                     expected ← lift (canonical_hash ((ets_receipt seal, ets_head_ordinal seal,
                                        ets_head_record_hash seal) : enrollment_seal_key));
                     head ← lift (ok_or (last records) (BjChainBroken 0));
                     _ ← reject_if ((ets_seal_hash seal ≠? expected)
                                    || (ets_head_ordinal seal ≠? jrec_ordinal head)
                                    || (ets_head_record_hash seal ≠? jrec_record_hash head)
                                    || (enp_request_id (ets_receipt seal) ≠? id))
                           (BjChainBroken (jrec_ordinal head));
                     mret (Some (ets_receipt seal))
                 | Some (TrBootstrapResult _) => throw BjKindConflict
                 | None => mret None
                 end;
      mret (Some (MkEnrollmentRecovery id
        (if is_some terminal then EpPrepared else derive_enrollment_phase records)
        (head_ordinal records) (head_record_hash records) terminal))
  | _ => mret None
  end.

Definition load_activation_recovery (id : StableId) : hj (option BootstrapRecoveryStateV1) :=
  header ← read_header;
  match header with
  | Some (JhActivation h) =>
      if ajh_activation_id h ≠? id then mret None else
      records ← load_chain;
      _ ← lift (verify_chain (JhActivation h) records);
      receipt ← read_receipt;
      terminal ← match receipt with
                 | Some (TrBootstrapResult seal) =>
                     expected ← lift (canonical_hash ((bts_receipt seal, bts_head_ordinal seal,
                                        bts_head_record_hash seal,
                                        bts_manual_recovery_notice_hash seal) : bootstrap_seal_key));
                     head ← lift (ok_or (last records) (BjChainBroken 0));
                     notice_hash ← read_notice_hash;
                     _ ← reject_if ((bts_seal_hash seal ≠? expected)
                                    || (bts_head_ordinal seal ≠? jrec_ordinal head)
                                    || (bts_head_record_hash seal ≠? jrec_record_hash head)
                                    || (bsr_activation_id (bts_receipt seal) ≠? id)
                                    || (bts_manual_recovery_notice_hash seal ≠? notice_hash))
                           (BjChainBroken (jrec_ordinal head));
                     mret (Some (bts_receipt seal))
                 | Some (TrEnrollmentPrepared _) => throw BjKindConflict
                 | None => mret None
                 end;
      manual_recovery ← read_notice;
      mret (Some (MkBootstrapRecovery id
        (if is_some terminal then BpResultAvailable else derive_bootstrap_phase records)
        (head_ordinal records) (head_record_hash records) terminal manual_recovery
        (open_effect records) (head (omap accepted_baton records))
        (omap admitted_command records)))
  | _ => mret None
  end.

Definition read_enrollment_prepared (id : StableId) : hj EnrollmentPreparedV1 :=
  receipt ← read_receipt;
  receipt ← lift (ok_or receipt BjTerminalMissing);
  match receipt with
  | TrEnrollmentPrepared seal =>
      if enp_request_id (ets_receipt seal) ≠? id then throw BjIdentityConflict else
      recovery ← load_enrollment_recovery id;
      lift (ok_or (recovery ≫= ers_terminal) BjTerminalMissing)
  | TrBootstrapResult _ => throw BjKindConflict
  end.
Definition journal_read_bootstrap_result (id : StableId) : hj BootstrapResultV1 :=
  receipt ← read_receipt;
  receipt ← lift (ok_or receipt BjTerminalMissing);
  match receipt with
  | TrBootstrapResult seal =>
      if bsr_activation_id (bts_receipt seal) ≠? id then throw BjIdentityConflict else
      recovery ← load_activation_recovery id;
      lift (ok_or (recovery ≫= brs_terminal) BjTerminalMissing)
  | TrEnrollmentPrepared _ => throw BjKindConflict
  end.

Definition seal_terminal : hj () :=
  _ ← require_held;
  header ← read_header;
  _ ← match header with
      | Some (JhEnrollment h) =>
          recovery ← load_enrollment_recovery (ejh_enrollment_id h);
          recovery ← lift (ok_or recovery BjTerminalMissing);
          reject_if (negb (is_some (ers_terminal recovery))) BjTerminalMissing
      | Some (JhActivation h) =>
          recovery ← load_activation_recovery (ajh_activation_id h);
          recovery ← lift (ok_or recovery BjTerminalMissing);
          reject_if (negb (is_some (brs_terminal recovery))) BjTerminalMissing
      | None => throw BjTerminalMissing
      end;
  _ ← release_lock;
  modify (set_held false).
End journal.
