(* ===== verification/HelperJournalProofs.v ===== *)
(** * What the bootstrap journal guarantees

    The state of a journal root as a value ([root_view]) and the changes an
    operation may make to it ([journal_step]).  Every operation of
    [HelperJournal], whatever its arguments and whichever storage calls fail,
    leaves the root in a state a sequence of such changes leads to; so every
    chain on disk verifies, walks the phase machine and pairs each effect's
    intent with its observation, and no durable file is ever replaced. *)
From S2P Require Export HelperJournal.

Local Open Scope repair_scope.

(** ** Weakest preconditions of the state-and-error monad *)

Definition wp {S E A} (m : stm S E A) (Q : A → S → Prop) (X : E → S → Prop) (s : S) : Prop :=
  match m s with
  | (s', Ok a) => Q a s'
  | (s', Err e) => X e s'
  end.

Section wp.
Context {S E : Type}.
Implicit Types (s : S).
Lemma wp_mono {A} (m : stm S E A) (Q Q' : A → S → Prop) (X X' : E → S → Prop) s :
  wp m Q X s → (∀ a s, Q a s → Q' a s) → (∀ e s, X e s → X' e s) → wp m Q' X' s.
Proof. unfold wp. destruct (m s) as [s' []]; auto. Qed.
Lemma wp_bind {A B} (m : stm S E A) (k : A → stm S E B) Q X s :
  wp m (λ a s, wp (k a) Q X s) X s → wp (m ≫= k) Q X s.
Proof. unfold wp, mbind, stm_bind. by destruct (m s) as [s' []]. Qed.
Lemma wp_ret {A} (a : A) (Q : A → S → Prop) (X : E → S → Prop) s : Q a s → wp (mret a) Q X s.
Proof. done. Qed.
Lemma wp_throw {A} (e : E) (Q : A → S → Prop) (X : E → S → Prop) s : X e s → wp (throw e) Q X s.
Proof. done. Qed.
Lemma wp_lift {A} (r : result E A) (Q : A → S → Prop) (X : E → S → Prop) s :
  (∀ a, r = Ok a → Q a s) → (∀ e, r = Err e → X e s) → wp (lift r) Q X s.
Proof. destruct r; cbn; auto. Qed.
Lemma wp_reject (b : bool) (e : E) (Q : () → S → Prop) (X : E → S → Prop) s :
  (b = false → Q () s) → (b = true → X e s) → wp (reject_if b e) Q X s.
Proof. destruct b; cbn; auto. Qed.
Lemma wp_read (Q : S → S → Prop) (X : E → S → Prop) s : Q s s → wp read Q X s.
Proof. done. Qed.
Lemma wp_modify f (Q : () → S → Prop) (X : E → S → Prop) s : Q () (f s) → wp (modify f) Q X s.
Proof. done. Qed.
End wp.

(** ** The state of a root *)

Record root_view : Type := MkRootView {
  jv_header : option JournalHeaderV1;
  jv_records : list JournalRecordV1;
  jv_receipt : option TerminalReceiptV1;
  jv_notice : option ManualRecoveryNoticeV1
}.
Definition empty_view : root_view := MkRootView None [] None None.

Definition contiguous (rs : list JournalRecordV1) : Prop :=
  ∀ i r, rs !! i = Some r → jrec_ordinal r = N.of_nat i.
Record stored_as (r : JournalRoot) (v : root_view) : Prop := {
  sa_header : jr_header r = Intact <$> jv_header v;
  sa_records : jr_records r = (λ x, (jrec_ordinal x, Intact x)) <$> jv_records v;
  sa_contiguous : contiguous (jv_records v);
  sa_receipt : jr_receipt r = Intact <$> jv_receipt v;
  sa_notice : jr_notice r = Intact <$> jv_notice v
}.

Lemma stored_as_unique r v v' : stored_as r v → stored_as r v' → v = v'.
Proof.
  assert (∀ T (x y : option T), Intact <$> x = Intact <$> y → x = y) as Hi by (intros T [] []; naive_solver).
  intros [I1 I2 _ I3 I4] [K1 K2 _ K3 K4]. destruct v as [h rs x n], v' as [h' rs' x' n']. cbn in *.
  rewrite I1 in K1. rewrite I2 in K2. rewrite I3 in K3. rewrite I4 in K4.
  apply Hi in K1, K3, K4. subst. f_equal. eapply list_fmap_eq_inj in K2; [done|]. by intros ? ? [= _ ?].
Qed.
Lemma contiguous_snoc rs r : contiguous rs → jrec_ordinal r = len rs → contiguous (rs ++ [r]).
Proof.
  intros Hc Hr i x. rewrite lookup_app_Some. intros [Hx|[Hle [Hi ->]%list_lookup_singleton_Some]]; [by apply Hc|].
  rewrite Hr. unfold len. f_equal. lia.
Qed.
Lemma contiguous_app_l rs rs' : contiguous (rs ++ rs') → contiguous rs.
Proof. intros Hc i r Hr. apply Hc. by apply lookup_app_l_Some. Qed.

Lemma load_entries_contiguous_from rs n :
  (∀ i r, rs !! i = Some r → jrec_ordinal r = n + N.of_nat i) →
  load_entries n ((λ x, (jrec_ordinal x, Intact x)) <$> rs) = Ok (rs, false).
Proof.
  revert n. induction rs as [|r rs IH]; intros n Hr; [done|]. cbn.
  assert (jrec_ordinal r = n) as Hn by (specialize (Hr 0%nat r eq_refl); lia).
  rewrite bool_decide_eq_true_2 by done. cbn. rewrite N.eqb_refl. rewrite IH; [done|].
  intros i x Hx. specialize (Hr (S i) x Hx). lia.
Qed.
Lemma load_entries_contiguous rs :
  contiguous rs → load_entries 0 ((λ x, (jrec_ordinal x, Intact x)) <$> rs) = Ok (rs, false).
Proof. intros Hc. apply load_entries_contiguous_from. intros i r Hr. rewrite (Hc i r Hr). lia. Qed.

Lemma existsb_record_file rs n :
  contiguous rs → len rs ≤ n →
  existsb (λ f, f.1 =? n) ((λ x, (jrec_ordinal x, Intact x)) <$> rs) = false.
Proof.
  intros Hc Hn. apply not_true_is_false. rewrite existsb_exists. intros [x [Hx Heq]].
  apply list_elem_of_In in Hx. apply list_elem_of_fmap in Hx as [r [-> [i Hi]%list_elem_of_lookup]].
  apply N.eqb_eq in Heq. cbn in Heq. apply Hc in Hi as Ho. apply lookup_lt_Some in Hi.
  unfold len in Hn. lia.
Qed.
Lemma insert_record_file_snoc rs r :
  contiguous rs → jrec_ordinal r = len rs →
  insert_record_file (jrec_ordinal r) (Intact r) ((λ x, (jrec_ordinal x, Intact x)) <$> rs) =
  (λ x, (jrec_ordinal x, Intact x)) <$> (rs ++ [r]).
Proof.
  intros Hc Hr. assert (∀ x, x ∈ rs → jrec_ordinal x ≤ jrec_ordinal r) as Hlt.
  { intros x [i Hi]%list_elem_of_lookup. rewrite (Hc _ _ Hi), Hr. apply lookup_lt_Some in Hi.
    unfold len. lia. }
  clear Hc Hr. induction rs as [|x rs IH]; cbn; [done|].
  assert (jrec_ordinal x ≤ jrec_ordinal r) as Hx by set_solver.
  destruct (N.ltb_spec (jrec_ordinal r) (jrec_ordinal x)); [lia|]. f_equal. apply IH. set_solver.
Qed.

(** A journal that stores [v], whose process holds the lock ([b]); when it is
    [calm], no storage call fails. *)
Record journal_at (calm b : bool) (v : root_view) (j : ActivationJournal) : Prop := {
  ja_stored : stored_as (aj_root j) v;
  ja_held : aj_held j = b;
  ja_calm : calm = true → aj_fates j = []
}.

Lemma journal_at_fate c b v j :
  journal_at c b v j → journal_at c b v (next_fate j).2
    ∧ (c = true → (next_fate j).1 = CallWorks) ∧ aj_root (next_fate j).2 = aj_root j.
Proof.
  intros [Hs Hh Hc]. unfold next_fate. destruct (aj_fates j) as [|f l] eqn:E; cbn.
  - by split_and!; [split; naive_solver|..].
  - split_and!; [split; cbn; naive_solver|naive_solver|done].
Qed.

(** A storage call that answers [a] and leads from [v] to [v']. *)
Lemma wp_storage_call {A} c b v v' op (a : result BootstrapJournalError A) (Q : A → ActivationJournal → Prop)
    (X : BootstrapJournalError → ActivationJournal → Prop) j :
  journal_at c b v j → (∀ r, stored_as r v → (op r).2 = a ∧ stored_as (op r).1 v') →
  (∀ x j', a = Ok x → journal_at c b v' j' → Q x j') →
  (∀ e j', a = Err e → journal_at c b v' j' → X e j') →
  (∀ j', c = false → journal_at c b v j' ∨ journal_at c b v' j' → X BjIo j') →
  wp (storage_call op) Q X j.
Proof.
  intros Hj Hop HQ HE HX. unfold wp, storage_call.
  destruct (journal_at_fate c b v j Hj) as (Hj' & Hcalm & Hroot).
  destruct (next_fate j) as [f j']. cbn [fst snd] in *. destruct Hj' as [Hs Hh Hf].
  destruct (Hop _ Hs) as [Ha Hs'].
  assert (journal_at c b v' (set_root (op (aj_root j')).1 j')) as Hnew by by split.
  destruct f.
  - destruct (op (aj_root j')) as [root ans]. cbn in *. subst ans. destruct a; eauto.
  - apply HX; [destruct c; [by specialize (Hcalm eq_refl)|done]|left; by split].
  - apply HX; [destruct c; [by specialize (Hcalm eq_refl)|done]|by right].
Qed.

Definition failed (c b : bool) (v : root_view) (e : BootstrapJournalError) (j : ActivationJournal) : Prop :=
  e = BjIo ∧ c = false ∧ journal_at c b v j.

Lemma wp_read_file {A} c b v (get : JournalRoot → option (stored A)) corrupt x
    (Q : option A → ActivationJournal → Prop) (X : BootstrapJournalError → ActivationJournal → Prop) j :
  journal_at c b v j → (∀ r, stored_as r v → get r = Intact <$> x) →
  (∀ j', journal_at c b v j' → Q x j') → (∀ e j', failed c b v e j' → X e j') →
  wp (read_file get corrupt) Q X j.
Proof.
  intros Hj Hg HQ HX. eapply (wp_storage_call c b v v _ (Ok x)); [done| | |done|].
  - intros r Hr. rewrite (Hg r Hr). by destruct x.
  - intros y j' [= <-]. auto.
  - intros j' Hc [?|?]; by apply HX.
Qed.
Lemma wp_read_header c b v Q X j :
  journal_at c b v j → (∀ j', journal_at c b v j' → Q (jv_header v) j') →
  (∀ e j', failed c b v e j' → X e j') → wp read_header Q X j.
Proof. intros Hj. eapply wp_read_file; [done|]. by intros r []. Qed.
Lemma wp_read_receipt c b v Q X j :
  journal_at c b v j → (∀ j', journal_at c b v j' → Q (jv_receipt v) j') →
  (∀ e j', failed c b v e j' → X e j') → wp read_receipt Q X j.
Proof. intros Hj. eapply wp_read_file; [done|]. by intros r []. Qed.
Lemma wp_read_notice c b v Q X j :
  journal_at c b v j → (∀ j', journal_at c b v j' → Q (jv_notice v) j') →
  (∀ e j', failed c b v e j' → X e j') → wp read_notice Q X j.
Proof. intros Hj. eapply wp_read_file; [done|]. by intros r []. Qed.
Lemma wp_load_chain c b v Q X j :
  journal_at c b v j → (∀ j', journal_at c b v j' → Q (jv_records v) j') →
  (∀ e j', failed c b v e j' → X e j') → wp load_chain Q X j.
Proof.
  intros Hj HQ HX. eapply (wp_storage_call c b v v _ (Ok (jv_records v))); [done| | |done|].
  - intros r Hr. rewrite (sa_records _ _ Hr), load_entries_contiguous by apply Hr. by cbn.
  - intros y j' [= <-]. auto.
  - intros j' Hc [?|?]; by apply HX.
Qed.
Lemma wp_snapshot c b v s Q X j :
  journal_at c b v j → (∀ j', journal_at c b v j' → Q () j') →
  (∀ e j', failed c b v e j' → X e j') → wp (storage_write_snapshot s) Q X j.
Proof.
  intros Hj HQ HX. eapply (wp_storage_call c b v v _ (Ok ())); [done| | |done|].
  - intros r [????]. by split; [|split].
  - intros y j' [= <-]. auto.
  - intros j' Hc [?|?]; by apply HX.
Qed.

Definition with_header (h : JournalHeaderV1) (v : root_view) : root_view :=
  MkRootView (Some h) (jv_records v) (jv_receipt v) (jv_notice v).
Definition with_record (r : JournalRecordV1) (v : root_view) : root_view :=
  MkRootView (jv_header v) (jv_records v ++ [r]) (jv_receipt v) (jv_notice v).
Definition with_receipt (r : TerminalReceiptV1) (v : root_view) : root_view :=
  MkRootView (jv_header v) (jv_records v) (Some r) (jv_notice v).
Definition with_notice (n : ManualRecoveryNoticeV1) (v : root_view) : root_view :=
  MkRootView (jv_header v) (jv_records v) (jv_receipt v) (Some n).

(** A file is created once: the answers of the three writers. *)
Lemma wp_write_header c b v h (Q : () → ActivationJournal → Prop) X j :
  journal_at c b v j → jv_header v = None →
  (∀ j', journal_at c b (with_header h v) j' → Q () j') →
  (∀ j' v', c = false → v' = v ∨ v' = with_header h v → journal_at c b v' j' → X BjIo j') →
  wp (write_header h) Q X j.
Proof.
  intros Hj Hn HQ HX. eapply (wp_storage_call c b v (with_header h v) _ (Ok ())); [done| | |done|].
  - intros r [Hh ????]. rewrite Hh, Hn. by split.
  - intros y j' [= <-]. auto.
  - intros j' Hc [?|?]; (eapply HX; [done| |done]); auto.
Qed.
Lemma wp_seal_receipt c b v x (Q : () → ActivationJournal → Prop) X j :
  journal_at c b v j → jv_receipt v = None →
  (∀ j', journal_at c b (with_receipt x v) j' → Q () j') →
  (∀ j' v', c = false → v' = v ∨ v' = with_receipt x v → journal_at c b v' j' → X BjIo j') →
  wp (seal_receipt x) Q X j.
Proof.
  intros Hj Hn HQ HX. eapply (wp_storage_call c b v (with_receipt x v) _ (Ok ())); [done| | |done|].
  - intros r [??? Hh ?]. rewrite Hh, Hn. by split.
  - intros y j' [= <-]. auto.
  - intros j' Hc [?|?]; (eapply HX; [done| |done]); auto.
Qed.
Lemma wp_write_notice c b v x (Q : () → ActivationJournal → Prop) X j :
  journal_at c b v j →
  (∀ j', (jv_notice v = None ∨ jv_notice v = Some x) → journal_at c b (with_notice x v) j' → Q () j') →
  (∀ j' e v', c = false ∨ (∃ y, jv_notice v = Some y ∧ y ≠ x) →
     v' = v ∨ jv_notice v = None ∧ v' = with_notice x v → journal_at c b v' j' → X e j') →
  wp (write_notice x) Q X j.
Proof.
  intros Hj HQ HX. unfold write_notice. apply wp_bind, wp_read.
  rewrite (sa_notice _ _ (ja_stored _ _ _ _ Hj)). destruct (jv_notice v) as [y|] eqn:E; cbn.
  - apply wp_bind. eapply wp_read_notice; [done| |].
    + intros j' Hj'. rewrite E. case_bool_decide as Hy; simplify_eq.
      * apply wp_ret, HQ; [by right|]. destruct v; cbn in *; by subst.
      * apply wp_throw. eapply HX; [| |done]; naive_solver.
    + intros e j' (-> & ? & ?). eapply HX; [| |done]; naive_solver.
  - eapply (wp_storage_call c b v (with_notice x v) _ (Ok ())); [done| | |done|].
    + intros r [???? Hh]. rewrite Hh, E. by split.
    + intros [] j' _ ?. apply HQ; auto.
    + intros j' Hc [?|?]; (eapply HX; [by left| |done]); auto.
Qed.

Section specs.
Context `{Sha256, RepairSerialize, JournalSerialize}.

(** ** Changes of a root *)

Lemma next_record_spec rs p r :
  next_record rs p = Ok r →
  jrec_ordinal r = len rs ∧ jrec_previous_record_hash r = jrec_record_hash <$> last rs
  ∧ jrec_payload r = p ∧ record_hash r = Ok (jrec_record_hash r).
Proof.
  unfold next_record. intros Hr. res_inv Hr. simplify_eq/=. split_and!; try done.
Qed.

(** The first record fits the header: its identity is the header's. *)
Definition first_fits (h : JournalHeaderV1) (p : JournalRecordPayloadV1) : Prop :=
  match h, p with
  | JhEnrollment h, JpEnrollmentIntent i => ejh_enrollment_id h = mer_request_id (ein_request i)
  | JhActivation h, JpBatonAccepted b =>
      ajh_activation_id h = bac_activation_id b ∧ ajh_baton_hash h = bac_baton_hash b
  | _, _ => False
  end.
(** When a later record may follow [rs]. *)
Definition legal_next (rs : list JournalRecordV1) (p : JournalRecordPayloadV1) : Prop :=
  match p with
  | JpEnrollmentIntent _ | JpBatonAccepted _ => False
  | JpEnrollmentObservation _ => derive_enrollment_phase rs = EpIntent
  | JpEffectIntent e => open_effect rs = None ∧ bef_observation_hash e = ""
  | JpObservedEffect e =>
      ∃ i, open_effect rs = Some i ∧ effects_match i e = true ∧ bef_observation_hash e ≠ ""
  | JpPhaseAdvance next =>
      open_effect rs = None ∧ bootstrap_can_advance (derive_bootstrap_phase rs) next = true
      ∧ (bootstrap_is_terminal (derive_bootstrap_phase rs) = true →
         derive_bootstrap_phase rs = BpVerified ∧ next = BpRecovering)
  | JpCommandAdmitted c =>
      bootstrap_is_terminal (derive_bootstrap_phase rs) = false
      ∧ cad_durable_phase c = derive_bootstrap_phase rs
      ∧ cad_command_id c ∉ cad_command_id <$> omap admitted_command rs
  end.

Inductive journal_step : root_view → root_view → Prop :=
| step_header h v :
    jv_header v = None → jv_records v = [] → verify_header h = Ok () →
    journal_step v (with_header h v)
| step_first h v p r :
    jv_header v = Some h → verify_header h = Ok () → jv_records v = [] → first_fits h p →
    next_record [] p = Ok r → journal_step v (with_record r v)
| step_record h v p r :
    jv_header v = Some h → verify_chain h (jv_records v) = Ok () →
    len (jv_records v) < MAX_JOURNAL_RECORDS → payload_fits h p = true →
    legal_next (jv_records v) p → next_record (jv_records v) p = Ok r →
    journal_step v (with_record r v)
| step_prepared h v receipt head hash :
    jv_header v = Some (JhEnrollment h) → verify_chain (JhEnrollment h) (jv_records v) = Ok () →
    jv_receipt v = None → enp_request_id receipt = ejh_enrollment_id h →
    derive_enrollment_phase (jv_records v) = EpPublished → last (jv_records v) = Some head →
    canonical_hash ((receipt, jrec_ordinal head, jrec_record_hash head) : enrollment_seal_key)
      = Ok hash →
    journal_step v (with_receipt (TrEnrollmentPrepared
      (MkEnrollmentSeal receipt (jrec_ordinal head) (jrec_record_hash head) hash)) v)
| step_result h v receipt head notice_hash hash :
    jv_header v = Some (JhActivation h) → verify_chain (JhActivation h) (jv_records v) = Ok () →
    jv_receipt v = None → bsr_activation_id receipt = ajh_activation_id h →
    bootstrap_result_hash_v1 receipt = Ok (bsr_receipt_hash receipt) →
    open_effect (jv_records v) = None →
    result_can_seal (derive_bootstrap_phase (jv_records v)) (bsr_result receipt) = true →
    last (jv_records v) = Some head →
    match jv_notice v with
    | None => notice_hash = None
    | Some n => canonical_hash n = default (Err BjEncoding) (Ok <$> notice_hash)
    end →
    (is_manual_recovery (bsr_result receipt) = true → is_Some notice_hash) →
    canonical_hash ((receipt, jrec_ordinal head, jrec_record_hash head, notice_hash)
                    : bootstrap_seal_key) = Ok hash →
    journal_step v (with_receipt (TrBootstrapResult
      (MkBootstrapSeal receipt (jrec_ordinal head) (jrec_record_hash head) notice_hash hash)) v)
| step_notice h v n :
    jv_header v = Some (JhActivation h) → verify_chain (JhActivation h) (jv_records v) = Ok () →
    mrn_activation_id n = ajh_activation_id h →
    derive_bootstrap_phase (jv_records v) = BpManualRecoveryRequired →
    jv_notice v = None → journal_step v (with_notice n v).

(** ** The parts the operations share *)

Lemma wp_require_held c b v (Q : () → ActivationJournal → Prop) X j :
  journal_at c b v j → (b = true → Q () j) → (b = false → X BjNotLocked j) → wp require_held Q X j.
Proof.
  intros Hj HQ HX. unfold require_held. apply wp_bind, wp_read.
  rewrite (ja_held _ _ _ _ Hj). destruct b; [by apply HQ|by apply HX].
Qed.
Lemma wp_activation_id c b v (Q : StableId → ActivationJournal → Prop) X j :
  journal_at c b v j →
  (∀ h j', jv_header v = Some (JhActivation h) → verify_header (JhActivation h) = Ok () →
     journal_at c b v j' → Q (ajh_activation_id h) j') →
  (∀ e j', (c = true → ∀ h, jv_header v = Some (JhActivation h) →
                        verify_header (JhActivation h) ≠ Ok ()) →
     journal_at c b v j' → X e j') →
  wp activation_id Q X j.
Proof.
  intros Hj HQ HX. unfold activation_id. apply wp_bind. eapply wp_read_header; [done| |].
  2: { intros e j' (-> & -> & ?). by apply HX. }
  intros j' Hj'. destruct (jv_header v) as [[h|h]|] eqn:E; [by apply wp_throw, HX| |by apply wp_throw, HX].
  apply wp_bind, wp_lift; [intros [] Hv; by apply wp_ret, HQ|].
  intros e He. apply HX; [|done]. intros _ ? [= <-]. by rewrite He.
Qed.
Lemma wp_enrollment_id c b v (Q : StableId → ActivationJournal → Prop) X j :
  journal_at c b v j →
  (∀ h j', jv_header v = Some (JhEnrollment h) → verify_header (JhEnrollment h) = Ok () →
     journal_at c b v j' → Q (ejh_enrollment_id h) j') →
  (∀ e j', journal_at c b v j' → X e j') → wp enrollment_id Q X j.
Proof.
  intros Hj HQ HX. unfold enrollment_id. apply wp_bind. eapply wp_read_header; [done| |].
  2: { intros e j' (-> & -> & ?). by apply HX. }
  intros j' Hj'. destruct (jv_header v) as [[h|h]|] eqn:E; [|by apply wp_throw, HX|by apply wp_throw, HX].
  apply wp_bind, wp_lift; [intros [] Hv; by apply wp_ret, HQ|]. intros e He. by apply HX.
Qed.
Lemma wp_load_verified c b v (Q : JournalHeaderV1 * list JournalRecordV1 → ActivationJournal → Prop) X j :
  journal_at c b v j →
  (∀ h j', jv_header v = Some h → verify_chain h (jv_records v) = Ok () →
     journal_at c b v j' → Q (h, jv_records v) j') →
  (∀ e j', (c = true → ∀ h, jv_header v = Some h → verify_chain h (jv_records v) ≠ Ok ()) →
     journal_at c b v j' → X e j') →
  wp load_verified Q X j.
Proof.
  intros Hj HQ HX. unfold load_verified. apply wp_bind. eapply wp_load_chain; [done| |].
  2: { intros e j' (-> & -> & ?). by apply HX. }
  intros j1 Hj1. apply wp_bind. eapply wp_read_header; [done| |].
  2: { intros e j' (-> & -> & ?). by apply HX. }
  intros j2 Hj2. apply wp_bind, wp_lift.
  2: { intros e He. apply HX; [|done]. intros _ h Hh. by rewrite Hh in He. }
  intros h Hh. destruct (jv_header v) as [h'|]; simplify_eq/=.
  apply wp_bind, wp_lift; [intros [] Hv; by apply wp_ret, HQ|].
  intros e He. apply HX; [|done]. intros _ ? [= <-]. by rewrite He.
Qed.
Lemma wp_write_snapshot c b v rs (Q : () → ActivationJournal → Prop) X j :
  journal_at c b v j → (∀ j', journal_at c b v j' → Q () j') →
  (∀ e j', failed c b v e j' → X e j') → wp (write_snapshot rs) Q X j.
Proof.
  intros Hj HQ HX. unfold write_snapshot. apply wp_bind. eapply wp_read_header; [done| |done].
  intros j1 Hj1. destruct (jv_header v) as [h|]; [|by apply wp_ret, HQ].
  assert (∀ s j', journal_at c b v j' → wp (storage_write_snapshot s) Q X j') as Hw.
  { intros s j' Hj'. by eapply wp_snapshot. }
  apply wp_bind. unfold snapshot_phase. apply wp_bind.
  assert (wp read_header (λ _, journal_at c b v) (λ _, journal_at c b v) j1) as Hr.
  { eapply wp_read_header; [done|done|]. by intros e j' (_ & _ & ?). }
  unfold wp, caught in Hr |- *. destruct (read_header j1) as [j2 [o|e]]; cbn; destruct h; by apply Hw.
Qed.
Lemma wp_append_acknowledged c b v kind id p (Q : JournalDurableAckV1 → ActivationJournal → Prop) X j :
  journal_at c b v j → len (jv_records v) < MAX_JOURNAL_RECORDS →
  (∀ a r j', next_record (jv_records v) p = Ok r → journal_at c b (with_record r v) j' → Q a j') →
  (∀ e j', (c = true → ∀ r, next_record (jv_records v) p ≠ Ok r) → journal_at c b v j' → X e j') →
  (∀ e r j', c = false → next_record (jv_records v) p = Ok r →
     journal_at c b (with_record r v) j' → X e j') →
  wp (append_acknowledged kind id (jv_records v) p) Q X j.
Proof.
  intros Hj Hlen HQ HX HX'. unfold append_acknowledged, journal_append. apply wp_bind, wp_bind, wp_lift.
  2: { unfold require_capacity. destruct (N.leb_spec MAX_JOURNAL_RECORDS (len (jv_records v))); [lia|done]. }
  intros _ _. apply wp_bind, wp_lift; [|intros e He; apply HX; [by rewrite He|done]]. intros r Hr.
  destruct (next_record_spec _ _ _ Hr) as (Hord & _). apply wp_bind.
  eapply (wp_storage_call c b v (with_record r v) _ (Ok ())); [done| | |done|].
  - intros root Hs. destruct Hs as [Hh Hrs Hc ??]. rewrite Hrs, Hord, existsb_record_file by (done || lia).
    split; [done|]. split; cbn; try done.
    + by rewrite <-Hord, insert_record_file_snoc.
    + by apply contiguous_snoc.
  - intros [] j1 _ Hj1. apply wp_ret, wp_bind. eapply wp_write_snapshot; [done| |].
    + intros j2 Hj2. by eapply wp_ret, HQ.
    + intros e j2 (-> & -> & ?). by eapply HX'.
  - intros j' -> [?|?]; [by apply HX|by eapply HX'].
Qed.

(** ** The operations *)

Lemma wp_require_capacity {S} rs (Q : () → S → Prop) X s :
  (len rs < MAX_JOURNAL_RECORDS → Q () s) → (MAX_JOURNAL_RECORDS ≤ len rs → X BjRecordCapExceeded s) →
  wp (lift (require_capacity rs)) Q X s.
Proof.
  intros HQ HX. unfold require_capacity. destruct (N.leb_spec MAX_JOURNAL_RECORDS (len rs)); [by apply HX|by apply HQ].
Qed.
Lemma wp_reject_unless {S E A} `{EqDecision A} (x y : A) (e : E) (Q : () → S → Prop) X s :
  (x = y → Q () s) → (x ≠ y → X e s) → wp (reject_if (x ≠? y) e) Q X s.
Proof. intros HQ HX. apply wp_reject; case_bool_decide; naive_solver. Qed.
Lemma verify_chain_header h rs : verify_chain h rs = Ok () → verify_header h = Ok ().
Proof. unfold verify_chain. by destruct (verify_header h) as [[]|]. Qed.

(** What every activation mutation asks of the root. *)
Definition ready_for (id : StableId) (v : root_view) : Prop :=
  ∃ h, jv_header v = Some (JhActivation h) ∧ verify_chain (JhActivation h) (jv_records v) = Ok ()
  ∧ id = ajh_activation_id h.
Lemma wp_fenced {A} c b v id (k : StableId → list JournalRecordV1 → hj A) Q X j :
  journal_at c b v j →
  (∀ j', b = true → ready_for id v → journal_at c b v j' → wp (k id (jv_records v)) Q X j') →
  (∀ e j', (c = true → b = true → ¬ ready_for id v) → journal_at c b v j' → X e j') →
  wp (_ ← require_held; current ← activation_id; _ ← reject_if (id ≠? current) BjIdentityConflict;
      '(_, records) ← load_verified; k current records) Q X j.
Proof.
  intros Hj HQ HX. apply wp_bind. eapply wp_require_held; [done| |].
  2: { intros ->. by apply HX. }
  intros ->. apply wp_bind. eapply wp_activation_id; [done| |].
  2: { intros e j' Hr ?. apply HX; [|done]. intros -> _ (h & Hh & Hv & _).
       by destruct (Hr eq_refl h Hh), (verify_chain_header _ _ Hv). }
  intros h j1 Hh Hvh Hj1. apply wp_bind, wp_reject_unless; cycle 1.
  { intros Hid. apply HX; [|done]. intros _ _ (h' & Hh' & _ & ->). naive_solver. }
  intros ->. apply wp_bind. eapply wp_load_verified; [done| |].
  2: { intros e j' Hr ?. apply HX; [|done]. intros -> _ (h' & Hh' & Hv & _). by apply (Hr eq_refl _ Hh'). }
  intros h' j2 Hh' Hv Hj2. simplify_eq/=. apply HQ; [done|by exists h|done].
Qed.

(** An operation that appends: what it reports, and the root it leaves. *)
Definition appended (c : bool) (v : root_view) (admissible : Prop) (p : JournalRecordPayloadV1)
    (j : ActivationJournal) : Prop :=
  admissible ∧ ∃ r, next_record (jv_records v) p = Ok r ∧ journal_at c true (with_record r v) j.
Definition not_appended (c b : bool) (v : root_view) (admissible : Prop) (p : JournalRecordPayloadV1)
    (j : ActivationJournal) : Prop :=
  journal_at c b v j ∧ (c = true → b = true → admissible → ∀ r, next_record (jv_records v) p ≠ Ok r)
  ∨ c = false ∧ b = true ∧ appended c v admissible p j.

Lemma wp_append_admitted c v kind id p admissible j :
  journal_at c true v j → len (jv_records v) < MAX_JOURNAL_RECORDS → (admissible : Prop) →
  wp (append_acknowledged kind id (jv_records v) p) (λ _ j', true = true ∧ appended c v admissible p j')
    (λ _ j', not_appended c true v admissible p j') j.
Proof.
  intros Hj Hlen Hadm. eapply wp_append_acknowledged; [done|done|..].
  - intros a r j' Hr Hj'. split; [done|]. split; [done|]. by exists r.
  - intros e j' Hr ?. left. split; [done|]. intros Hc _ _. by apply Hr.
  - intros e r j' Hc Hr ?. right. split_and!; [done|done|]. split; [done|]. by exists r.
Qed.
Lemma not_appended_refused c b v (admissible : Prop) p j :
  journal_at c b v j → (c = true → b = true → ¬ admissible) → not_appended c b v admissible p j.
Proof. intros Hj Hn. left. split; [done|]. intros. by destruct Hn. Qed.

Definition effect_payload (is_intent : bool) (e : BootstrapEffectV1) : JournalRecordPayloadV1 :=
  if is_intent then JpEffectIntent e else JpObservedEffect e.
Definition effect_admissible (m : BootstrapJournalMutationV1) (is_intent : bool) (v : root_view) : Prop :=
  ready_for (bjm_activation_id m) v ∧ len (jv_records v) < MAX_JOURNAL_RECORDS
  ∧ bjm_expected_ordinal m = len (jv_records v)
  ∧ bjm_expected_phase m = derive_bootstrap_phase (jv_records v)
  ∧ legal_next (jv_records v) (effect_payload is_intent (bjm_effect m)).

Lemma wp_match_effect c v is_intent e (admissible : Prop) j :
  journal_at c true v j → Bool.eqb is_intent (bef_observation_hash e ≠? "") = false →
  (admissible → legal_next (jv_records v) (effect_payload is_intent e)) →
  wp (match is_intent, open_effect (jv_records v) with
      | true, Some _ => throw (BjInvalid "an earlier effect intent has no durable observation")
      | false, Some intent =>
          reject_if (negb (effects_match intent e))
            (BjInvalid "observed effect does not close the durable intent")
      | false, None => throw (BjInvalid "observed effect has no durable intent")
      | true, None => mret ()
      end : hj ())
    (λ _ j', journal_at c true v j' ∧ legal_next (jv_records v) (effect_payload is_intent e))
    (λ _ j', not_appended c true v admissible (effect_payload is_intent e) j') j.
Proof.
  intros Hj Hobs Hadm. apply eqb_false_iff in Hobs.
  assert (¬ legal_next (jv_records v) (effect_payload is_intent e) →
          not_appended c true v admissible (effect_payload is_intent e) j) as Hno.
  { intros Hn. apply not_appended_refused; [done|]. intros _ _ ?. by apply Hn, Hadm. }
  destruct is_intent, (open_effect (jv_records v)) as [i|] eqn:Eo.
  - apply wp_throw, Hno. intros [Hl _]. congruence.
  - apply wp_ret. split; [done|]. split; [done|]. case_bool_decide; naive_solver.
  - apply wp_reject; [intros Hm%negb_false_iff|intros Hm%negb_true_iff].
    + split; [done|]. exists i. split_and!; [done|done|]. intros He. by rewrite He in Hobs.
    + apply Hno. intros (i' & Hi & Hm' & _). congruence.
  - apply wp_throw, Hno. intros (i' & Hi & _). congruence.
Qed.
Lemma legal_effect_observation rs is_intent e :
  legal_next rs (effect_payload is_intent e) → Bool.eqb is_intent (bef_observation_hash e ≠? "") = false.
Proof.
  destruct is_intent; cbn; [intros [_ ->]; done|]. intros (_ & _ & _ & Hne). by rewrite bool_decide_eq_false_2.
Qed.
Lemma wp_append_effect c b v m is_intent j :
  journal_at c b v j →
  wp (append_effect m is_intent)
    (λ _ j', b = true ∧ appended c v (effect_admissible m is_intent v)
                          (effect_payload is_intent (bjm_effect m)) j')
    (λ _ j', not_appended c b v (effect_admissible m is_intent v)
               (effect_payload is_intent (bjm_effect m)) j') j.
Proof.
  intros Hj. apply (wp_fenced c b v); [done| |].
  2: { intros e j' Hr ?. apply not_appended_refused; [done|]. intros ?? [? _]. by apply Hr. }
  intros j1 -> Hready Hj1. apply wp_bind, wp_require_capacity; cycle 1.
  { intros ?. apply not_appended_refused; [done|]. intros _ _ (_ & ? & _). lia. }
  intros Hcap. apply wp_bind, wp_reject_unless; cycle 1.
  { intros ?. apply not_appended_refused; [done|]. by intros _ _ (_ & _ & ? & _). }
  intros Hord. apply wp_bind, wp_reject_unless; cycle 1.
  { intros ?. apply not_appended_refused; [done|]. by intros _ _ (_ & _ & _ & ? & _). }
  intros Hph. apply wp_bind, wp_reject; cycle 1.
  { intros Ho. apply not_appended_refused; [done|].
    intros _ _ (_ & _ & _ & _ & Hl%legal_effect_observation). congruence. }
  intros Hobs. apply wp_bind. eapply wp_mono;
    [apply (wp_match_effect c v is_intent (bjm_effect m) (effect_admissible m is_intent v))| |done].
  { done. }
  { done. }
  { by intros (_ & _ & _ & _ & ?). }
  intros [] j2 [Hj2 Hlegal]. by apply wp_append_admitted.
Qed.

Definition advance_admissible (m : BootstrapPhaseAdvanceV1) (v : root_view) : Prop :=
  ready_for (bpa_activation_id m) v ∧ len (jv_records v) < MAX_JOURNAL_RECORDS
  ∧ bpa_expected_ordinal m = len (jv_records v)
  ∧ bpa_expected_phase m = derive_bootstrap_phase (jv_records v)
  ∧ legal_next (jv_records v) (JpPhaseAdvance (bpa_next_phase m)).
Lemma wp_advance_phase c b v m j :
  journal_at c b v j →
  wp (advance_phase m)
    (λ _ j', b = true ∧ appended c v (advance_admissible m v) (JpPhaseAdvance (bpa_next_phase m)) j')
    (λ _ j', not_appended c b v (advance_admissible m v) (JpPhaseAdvance (bpa_next_phase m)) j') j.
Proof.
  intros Hj. apply (wp_fenced c b v); [done| |].
  2: { intros e j' Hr ?. apply not_appended_refused; [done|]. intros ?? [? _]. by apply Hr. }
  intros j1 -> Hready Hj1. apply wp_bind, wp_require_capacity; cycle 1.
  { intros ?. apply not_appended_refused; [done|]. intros _ _ (_ & ? & _). lia. }
  intros Hcap. apply wp_bind, wp_reject_unless; cycle 1.
  { intros ?. apply not_appended_refused; [done|]. by intros _ _ (_ & _ & ? & _). }
  intros Hord. apply wp_bind, wp_reject_unless; cycle 1.
  { intros ?. apply not_appended_refused; [done|]. by intros _ _ (_ & _ & _ & ? & _). }
  intros Hph. apply wp_bind, wp_reject; cycle 1.
  { intros [Ht Hn]%andb_true_iff. apply not_appended_refused; [done|].
    intros _ _ (_ & _ & _ & _ & (_ & _ & Hl)). destruct (Hl Ht) as [Hv Hx]. by rewrite Hv, Hx in Hn. }
  intros Ht. apply wp_bind, wp_reject; cycle 1.
  { intros Ho. apply not_appended_refused; [done|].
    intros _ _ (_ & _ & _ & _ & (Hl & _)). by rewrite Hl in Ho. }
  intros Ho. apply wp_bind, wp_reject; cycle 1.
  { intros Ha%negb_true_iff. apply not_appended_refused; [done|].
    intros _ _ (_ & _ & _ & _ & (_ & Hl & _)). congruence. }
  intros Ha%negb_false_iff. apply wp_append_admitted; [done|done|]. split_and!; try done.
  split_and!; [by destruct (open_effect (jv_records v))|done|]. intros Htt. rewrite Htt in Ht.
  apply negb_false_iff, andb_true_iff in Ht as [Hv%bool_decide_eq_true Hx%bool_decide_eq_true]. done.
Qed.

Definition command_admissible (r : CommandAdmittedV1) (v : root_view) : Prop :=
  ready_for (cad_activation_id r) v ∧ len (jv_records v) < MAX_JOURNAL_RECORDS
  ∧ legal_next (jv_records v) (JpCommandAdmitted r).
Lemma find_command_None r l :
  List.find (λ c, cad_command_id c ≟ cad_command_id r) l = None →
  cad_command_id r ∉ cad_command_id <$> l.
Proof.
  intros Hn [c [Heq Hin]]%list_elem_of_fmap. apply list_elem_of_In in Hin.
  apply (List.find_none _ _ Hn) in Hin. cbn in Hin. by rewrite bool_decide_eq_true_2 in Hin.
Qed.
Lemma find_command_Some r l c :
  List.find (λ c, cad_command_id c ≟ cad_command_id r) l = Some c →
  cad_command_id r ∈ cad_command_id <$> l.
Proof.
  intros [Hin Heq%bool_decide_eq_true]%List.find_some. rewrite <-Heq. apply list_elem_of_fmap.
  exists c. by rewrite list_elem_of_In.
Qed.
Lemma wp_append_command_admitted c b v r j :
  journal_at c b v j →
  wp (append_command_admitted r)
    (λ _ j', b = true ∧ appended c v (command_admissible r v) (JpCommandAdmitted r) j')
    (λ _ j', not_appended c b v (command_admissible r v) (JpCommandAdmitted r) j') j.
Proof.
  intros Hj. apply (wp_fenced c b v); [done| |].
  2: { intros e j' Hr ?. apply not_appended_refused; [done|]. intros ?? [? _]. by apply Hr. }
  intros j1 -> Hready Hj1. apply wp_bind, wp_require_capacity; cycle 1.
  { intros ?. apply not_appended_refused; [done|]. intros _ _ (_ & ? & _). lia. }
  intros Hcap. apply wp_bind, wp_reject; cycle 1.
  { intros Ht. apply not_appended_refused; [done|]. intros _ _ (_ & _ & Hl & _). congruence. }
  intros Ht. apply wp_bind, wp_reject_unless; cycle 1.
  { intros ?. apply not_appended_refused; [done|]. by intros _ _ (_ & _ & _ & ? & _). }
  intros Hph. apply wp_bind. destruct (List.find _ _) as [x|] eqn:Ef.
  - apply find_command_Some in Ef. case_bool_decide; (apply wp_throw, not_appended_refused; [done|]);
      by intros _ _ (_ & _ & _ & _ & ?).
  - apply find_command_None in Ef. apply wp_ret, wp_append_admitted; [done|done|]. by split_and!.
Qed.

(** *** The first record *)

Lemma verify_new_enrollment id hash :
  canonical_hash ((JOURNAL_SCHEMA_VERSION_V1, as_str id, JOURNAL_HELPER_VERSION_V1,
                   JOURNAL_HELPER_VERSION_V1) : enrollment_header_key) = Ok hash →
  verify_header (JhEnrollment (MkEnrollmentHeader JOURNAL_SCHEMA_VERSION_V1 id
    JOURNAL_HELPER_VERSION_V1 JOURNAL_HELPER_VERSION_V1 hash)) = Ok ().
Proof.
  intros Hh. unfold verify_header, header_hash. cbn [ejh_schema_version ejh_enrollment_id ejh_helper_version ejh_protocol_version ejh_header_hash]. rewrite Hh. cbn [mbind result_bind].
  by rewrite !bool_decide_eq_true_2 by done.
Qed.
Lemma verify_new_activation id baton_hash profile hash :
  canonical_hash ((JOURNAL_SCHEMA_VERSION_V1, as_str id, baton_hash, profile, JOURNAL_HELPER_VERSION_V1,
                   JOURNAL_HELPER_VERSION_V1) : activation_header_key) = Ok hash →
  verify_header (JhActivation (MkActivationHeader JOURNAL_SCHEMA_VERSION_V1 id baton_hash profile
    JOURNAL_HELPER_VERSION_V1 JOURNAL_HELPER_VERSION_V1 hash)) = Ok ().
Proof.
  intros Hh. unfold verify_header, header_hash. cbn [ajh_schema_version ajh_activation_id ajh_baton_hash ajh_profile_version ajh_helper_version ajh_protocol_version ajh_header_hash]. rewrite Hh. cbn [mbind result_bind].
  by rewrite !bool_decide_eq_true_2 by done.
Qed.

(** What the two operations that start a transaction leave behind: nothing, the
    header, or the header and the first record. *)
Definition tx_opened (c : bool) (v : root_view) (h : JournalHeaderV1) (p : JournalRecordPayloadV1)
    (j : ActivationJournal) : Prop :=
  ∃ r, jv_records v = [] ∧ (jv_header v = None ∨ jv_header v = Some h) ∧ verify_header h = Ok ()
    ∧ next_record [] p = Ok r ∧ journal_at c true (with_record r (with_header h v)) j.
Definition tx_not_opened (c b : bool) (v : root_view) (h : JournalHeaderV1) (p : JournalRecordPayloadV1)
    (j : ActivationJournal) : Prop :=
  journal_at c b v j
  ∨ jv_records v = [] ∧ jv_header v = None ∧ verify_header h = Ok ()
    ∧ journal_at c b (with_header h v) j
  ∨ b = true ∧ tx_opened c v h p j.
Lemma wp_open_transaction c v kind id h p j :
  journal_at c true v j → jv_records v = [] → verify_header h = Ok () →
  wp (_ ← establish_header h; append_acknowledged kind id [] p)
    (λ _ j', tx_opened c v h p j') (λ _ j', tx_not_opened c true v h p j') j.
Proof.
  intros Hj Hnil Hv.
  assert (∀ j', (jv_header v = None ∨ jv_header v = Some h) → journal_at c true (with_header h v) j' →
    wp (append_acknowledged kind id [] p) (λ _ j', tx_opened c v h p j') (λ _ j', tx_not_opened c true v h p j') j') as Happ.
  { intros j' Hh Hj'. replace [] with (jv_records (with_header h v)) by by cbn.
    eapply wp_append_acknowledged; [done|by cbn; rewrite Hnil|..]; cbn; rewrite Hnil.
    - intros _ r j2 Hr Hj2. by exists r.
    - intros e j2 _ Hj2. destruct Hh as [Hh|Hh]; [right; left; by split_and!|left].
      destruct v; cbn in *; by subst.
    - intros e r j2 _ Hr Hj2. right; right. split; [done|]. by exists r. }
  apply wp_bind. unfold establish_header. apply wp_bind. eapply wp_read_header; [done| |].
  2: { intros e j' (_ & _ & ?). by left. }
  intros j1 Hj1. destruct (jv_header v) as [h'|] eqn:Eh.
  - case_bool_decide; [|by apply wp_throw; left]. subst h'. apply wp_lift; [|congruence].
    intros _ _. apply Happ; [by right|]. destruct v; cbn in *; by subst.
  - eapply wp_write_header; [done|done| |].
    + intros j2 Hj2. apply Happ; [by left|done].
    + intros j2 v' _ [->| ->] ?; [by left|right; left; by split_and!].
Qed.
Lemma wp_append_baton_accepted c b v baton j :
  journal_at c b v j →
  wp (append_baton_accepted baton)
    (λ _ j', b = true ∧ ∃ h, ajh_activation_id h = bac_activation_id baton
       ∧ ajh_baton_hash h = bac_baton_hash baton
       ∧ tx_opened c v (JhActivation h) (JpBatonAccepted baton) j')
    (λ _ j', journal_at c b v j' ∨ ∃ h, ajh_activation_id h = bac_activation_id baton
       ∧ ajh_baton_hash h = bac_baton_hash baton
       ∧ tx_not_opened c b v (JhActivation h) (JpBatonAccepted baton) j') j.
Proof.
  intros Hj. unfold append_baton_accepted. apply wp_bind. eapply wp_require_held; [done| |by left].
  intros ->. apply wp_bind. eapply wp_load_chain; [done| |intros e j' (_ & _ & ?); by left].
  intros j1 Hj1. apply wp_bind, wp_reject; [|by left]. intros Hnil%negb_false_iff.
  destruct (jv_records v) eqn:Enil; [|done]. apply wp_bind, wp_lift; [|by left].
  intros hash Hhash. eapply wp_mono; [eapply wp_open_transaction; [done|done|by apply verify_new_activation]|..].
  - intros a j' Ho. split; [done|]. eexists. split; [|split]; [| |exact Ho]; done.
  - intros e j' Ho. right. eexists. split; [|split]; [| |exact Ho]; done.
Qed.
Lemma wp_append_enrollment_intent c b v request ids j :
  journal_at c b v j →
  wp (append_enrollment_intent request ids)
    (λ _ j', b = true ∧ ∃ h i, ejh_enrollment_id h = mer_request_id request ∧ ein_request i = request
       ∧ tx_opened c v (JhEnrollment h) (JpEnrollmentIntent i) j')
    (λ _ j', journal_at c b v j' ∨ ∃ h i, ejh_enrollment_id h = mer_request_id request
       ∧ ein_request i = request ∧ tx_not_opened c b v (JhEnrollment h) (JpEnrollmentIntent i) j') j.
Proof.
  intros Hj. unfold append_enrollment_intent. apply wp_bind. eapply wp_require_held; [done| |by left].
  intros ->. apply wp_bind. eapply wp_load_chain; [done| |intros e j' (_ & _ & ?); by left].
  intros j1 Hj1. apply wp_bind, wp_reject; [|by left]. intros Hnil%negb_false_iff.
  destruct (jv_records v) eqn:Enil; [|done]. apply wp_bind, wp_lift; [|by left].
  intros hash Hhash. eapply wp_mono; [eapply wp_open_transaction; [done|done|by apply verify_new_enrollment]|..].
  - intros a j' Ho. split; [done|]. eexists _, _. split; [|split]; [| |exact Ho]; done.
  - intros e j' Ho. right. eexists _, _. split; [|split]; [| |exact Ho]; done.
Qed.

(** *** Enrollment *)

Lemma wp_append_enrollment_observation c b v m j :
  journal_at c b v j →
  wp (append_enrollment_observation m)
    (λ _ j', ∃ v', journal_step v v' ∧ journal_at c b v' j')
    (λ _ j', journal_at c b v j' ∨ ∃ v', journal_step v v' ∧ journal_at c b v' j') j.
Proof.
  intros Hj. unfold append_enrollment_observation. apply wp_bind. eapply wp_require_held; [done| |by left].
  intros ->. apply wp_bind. eapply wp_enrollment_id; [done| |by left]. intros h j1 Hh Hvh Hj1.
  apply wp_bind, wp_reject_unless; [|by left]. intros _. apply wp_bind.
  eapply wp_load_verified; [done| |by left]. intros h' j2 Hh' Hv Hj2.
  apply wp_bind, wp_require_capacity; [|by left]. intros Hcap.
  apply wp_bind, wp_reject_unless; [|by left]. intros _.
  apply wp_bind, wp_reject_unless; [|by left]. intros _.
  apply wp_bind, wp_reject; [|by left]. intros Ha%negb_false_iff.
  assert (legal_next (jv_records v) (JpEnrollmentObservation (ejm_observation m))) as Hl.
  { cbn. by destruct (derive_enrollment_phase (jv_records v)). }
  simplify_eq. eapply wp_append_acknowledged; [done|done| |by left|].
  - intros _ r j3 Hr Hj3. eexists. split; [|exact Hj3]. by eapply (step_record (JhEnrollment h) v (JpEnrollmentObservation (ejm_observation m))).
  - intros _ r j3 _ Hr Hj3. right. eexists. split; [|exact Hj3]. by eapply (step_record (JhEnrollment h) v (JpEnrollmentObservation (ejm_observation m))).
Qed.
Lemma wp_store_enrollment_prepared c b v x j :
  journal_at c b v j →
  wp (store_enrollment_prepared x)
    (λ _ j', ∃ v', journal_step v v' ∧ journal_at c b v' j'
       ∧ ∃ s, jv_receipt v' = Some (TrEnrollmentPrepared s) ∧ ets_receipt s = x)
    (λ _ j', journal_at c b v j' ∨ ∃ v', journal_step v v' ∧ journal_at c b v' j') j.
Proof.
  intros Hj. unfold store_enrollment_prepared. apply wp_bind. eapply wp_require_held; [done| |by left].
  intros ->. apply wp_bind. eapply wp_enrollment_id; [done| |by left]. intros h j1 Hh Hvh Hj1.
  apply wp_bind, wp_reject_unless; [|by left]. intros Hid. apply wp_bind.
  eapply wp_read_receipt; [done| |intros e j' (_ & _ & ?); by left]. intros j2 Hj2.
  apply wp_bind, wp_reject; [|by left]. intros Hnone. apply wp_bind.
  eapply wp_load_verified; [done| |by left]. intros h' j3 Hh' Hv Hj3. simplify_eq.
  apply wp_bind, wp_reject; [|by left]. intros _.
  apply wp_bind, wp_reject; [|by left]. intros Ha%negb_false_iff.
  apply wp_bind, wp_lift; [|by left]. intros head Hhead. apply wp_bind, wp_lift; [|by left].
  intros hash Hhash. apply wp_bind.
  assert (jv_receipt v = None) as Hr by by destruct (jv_receipt v).
  assert (journal_step v (with_receipt (TrEnrollmentPrepared
    (MkEnrollmentSeal x (jrec_ordinal head) (jrec_record_hash head) hash)) v)) as Hstep.
  { eapply step_prepared; try done; [by destruct (derive_enrollment_phase (jv_records v))|].
    by destruct (last (jv_records v)); simplify_eq/=. }
  eapply wp_seal_receipt; [done|done| |].
  - intros j4 Hj4. apply wp_ret. eexists. split_and!; [exact Hstep|exact Hj4|]. by eexists.
  - intros j4 v' _ [->| ->] ?; [by left|right; by eexists].
Qed.

(** *** Receipts and notices of an activation *)

Definition notice_admissible (n : ManualRecoveryNoticeV1) (v : root_view) : Prop :=
  ready_for (mrn_activation_id n) v
  ∧ derive_bootstrap_phase (jv_records v) = BpManualRecoveryRequired ∧ jv_notice v = None.
Definition bounded_instructions (instructions : list string) : bool :=
  negb (is_nil instructions || (MAX_RECOVERY_INSTRUCTIONS <? len instructions)
        || existsb (λ i, (i ≟ "") || (512 <? str_len i)) instructions).
Lemma derive_phase_last rs ph :
  derive_bootstrap_phase rs = ph → ph ≠ BpIdle → is_Some (last rs).
Proof. intros <- Hne. destruct rs as [|r rs] using rev_ind; [done|]. by rewrite last_snoc. Qed.
Lemma wp_store_notice c b v n j :
  journal_at c b v j →
  wp (store_manual_recovery_notice n)
    (λ _ j', b = true ∧ ready_for (mrn_activation_id n) v
       ∧ derive_bootstrap_phase (jv_records v) = BpManualRecoveryRequired
       ∧ (jv_notice v = None ∨ jv_notice v = Some n) ∧ journal_at c b (with_notice n v) j')
    (λ _ j', journal_at c b v j' ∧ (c = true → b = true → bounded_instructions (mrn_instructions n) = true →
                                     ¬ notice_admissible n v)
       ∨ c = false ∧ notice_admissible n v ∧ journal_at c b (with_notice n v) j') j.
Proof.
  intros Hj. unfold store_manual_recovery_notice. apply wp_bind. eapply wp_require_held; [done| |intros ->; left; by split].
  intros ->. apply wp_bind. eapply wp_activation_id; [done| |].
  2: { intros e j' Hr ?. left. split; [done|]. intros -> _ _ ((h & Hh & Hv & _) & _).
       by destruct (Hr eq_refl h Hh), (verify_chain_header _ _ Hv). }
  intros h j1 Hh Hvh Hj1. apply wp_bind, wp_reject_unless; cycle 1.
  { intros Hid. left. split; [done|]. intros _ _ _ ((h' & Hh' & _ & ?) & _). naive_solver. }
  intros Hid. apply wp_bind, wp_reject; cycle 1.
  { intros Hb. left. split; [done|]. intros _ _ Hb'%negb_true_iff. congruence. }
  intros Hb. apply wp_bind. eapply wp_load_verified; [done| |].
  2: { intros e j' Hr ?. left. split; [done|]. intros -> _ _ ((h' & Hh' & Hv & _) & _).
       by apply (Hr eq_refl _ Hh'). }
  intros h' j2 Hh' Hv Hj2. simplify_eq. apply wp_bind, wp_reject_unless; cycle 1.
  { intros Hp. left. split; [done|]. by intros _ _ _ (_ & ? & _). }
  intros Hp. apply wp_bind. assert (ready_for (mrn_activation_id n) v) as Hready by by exists h.
  eapply wp_write_notice; [done| |].
  - intros j3 Hnone Hj3. apply wp_bind, wp_lift; [|intros e He].
    + intros head _. apply wp_ret. by split_and!.
    + by destruct (derive_phase_last _ _ Hp) as [x Hx]; [|rewrite Hx in He].
  - intros j3 e v' Hc Hv' Hj3. destruct Hv' as [->|[Hnone ->]].
    + left. split; [done|]. intros -> _ _ (_ & _ & Hn). destruct Hc as [|(y & Hy & _)]; congruence.
    + right. destruct Hc as [->|(y & Hy & _)]; [|congruence]. by split_and!.
Qed.

Definition notice_hash_of (v : root_view) : result BootstrapJournalError (option string) :=
  match jv_notice v with
  | None => Ok None
  | Some n => hash ← canonical_hash n; Ok (Some hash)
  end.
Lemma wp_read_notice_hash c b v (Q : option string → ActivationJournal → Prop) X j :
  journal_at c b v j → (∀ x j', notice_hash_of v = Ok x → journal_at c b v j' → Q x j') →
  (∀ e j', (c = true → notice_hash_of v = Err e) → journal_at c b v j' → X e j') →
  wp read_notice_hash Q X j.
Proof.
  intros Hj HQ HX. unfold read_notice_hash. apply wp_bind. eapply wp_read_notice; [done| |].
  2: { intros e j' (-> & -> & ?). by apply HX. }
  intros j1 Hj1. unfold notice_hash_of in *. destruct (jv_notice v) as [n|]; [|by apply HQ].
  apply wp_bind, wp_lift; [intros hash Hhash|intros e He].
  - apply wp_ret, HQ; [by rewrite Hhash|done].
  - apply HX; [by rewrite He|done].
Qed.

Definition result_admissible (x : BootstrapResultV1) (v : root_view) : Prop :=
  ready_for (bsr_activation_id x) v ∧ bootstrap_result_hash_v1 x = Ok (bsr_receipt_hash x)
  ∧ jv_receipt v = None ∧ open_effect (jv_records v) = None
  ∧ result_can_seal (derive_bootstrap_phase (jv_records v)) (bsr_result x) = true
  ∧ ∃ head notice_hash, last (jv_records v) = Some head ∧ notice_hash_of v = Ok notice_hash
    ∧ (is_manual_recovery (bsr_result x) = true → is_Some notice_hash).
(** The seal over [x] at the head of [v]. *)
Definition seal_over (x : BootstrapResultV1) (v : root_view) (s : BootstrapTerminalSealV1) : Prop :=
  bts_receipt s = x ∧ bts_head_ordinal s = head_ordinal (jv_records v)
  ∧ bts_head_record_hash s = head_record_hash (jv_records v)
  ∧ notice_hash_of v = Ok (bts_manual_recovery_notice_hash s)
  ∧ canonical_hash ((x, bts_head_ordinal s, bts_head_record_hash s,
                     bts_manual_recovery_notice_hash s) : bootstrap_seal_key) = Ok (bts_seal_hash s).
Lemma wp_store_result c b v x j :
  journal_at c b v j →
  wp (store_bootstrap_result x)
    (λ _ j', b = true ∧ result_admissible x v
       ∧ ∃ s, seal_over x v s ∧ journal_at c b (with_receipt (TrBootstrapResult s) v) j')
    (λ _ j', journal_at c b v j' ∧ (c = true → b = true → result_admissible x v → ∀ s, ¬ seal_over x v s)
       ∨ c = false ∧ result_admissible x v
         ∧ ∃ s, seal_over x v s ∧ journal_at c b (with_receipt (TrBootstrapResult s) v) j') j.
Proof.
  intros Hj. unfold store_bootstrap_result. apply wp_bind. eapply wp_require_held; [done| |intros ->; left; by split].
  intros ->. apply wp_bind. eapply wp_activation_id; [done| |].
  2: { intros e j' Hr ?. left. split; [done|]. intros -> _ ((h & Hh & Hv & _) & _).
       by destruct (Hr eq_refl h Hh), (verify_chain_header _ _ Hv). }
  intros h j1 Hh Hvh Hj1. apply wp_bind, wp_reject_unless; cycle 1.
  { intros Hid. left. split; [done|]. intros _ _ ((h' & Hh' & _ & ?) & _). naive_solver. }
  intros Hid. apply wp_bind, wp_reject; cycle 1.
  { intros Hb. left. split; [done|]. intros _ _ (_ & Hx & _). rewrite Hx in Hb. by case_bool_decide. }
  intros Hhash. apply wp_bind. eapply wp_read_receipt; [done| |intros e j' (_ & -> & ?); left; by split].
  intros j2 Hj2. apply wp_bind, wp_reject; cycle 1.
  { intros Hs. left. split; [done|]. intros _ _ (_ & _ & Hn & _). by rewrite Hn in Hs. }
  intros Hnone. apply wp_bind. eapply wp_load_verified; [done| |].
  2: { intros e j' Hr ?. left. split; [done|]. intros -> _ ((h' & Hh' & Hv & _) & _).
       by destruct (Hr eq_refl _ Hh'). }
  intros h' j3 Hh' Hv Hj3. simplify_eq. apply wp_bind, wp_reject; cycle 1.
  { intros Ho. left. split; [done|]. intros _ _ (_ & _ & _ & Hn & _). by rewrite Hn in Ho. }
  intros Ho. apply wp_bind, wp_reject; cycle 1.
  { intros Hs%negb_true_iff. left. split; [done|]. intros _ _ (_ & _ & _ & _ & Hn & _). congruence. }
  intros Hs%negb_false_iff. apply wp_bind, wp_lift; cycle 1.
  { intros e He. left. split; [done|]. intros _ _ (_ & _ & _ & _ & _ & (? & ? & Hl & _)). by rewrite Hl in He. }
  intros head Hhead. apply wp_bind. eapply wp_read_notice_hash; [done| |].
  2: { intros e j' He ?. left. split; [done|]. intros Hc _ (_ & _ & _ & _ & _ & (? & ? & _ & Hl & _)).
       rewrite He in Hl by done. congruence. }
  intros nh j4 Hnh Hj4. apply wp_bind, wp_reject; cycle 1.
  { intros [Hm Hn]%andb_true_iff. left. split; [done|].
    intros _ _ (_ & _ & _ & _ & _ & (? & ? & _ & Hl & Hx)). rewrite Hnh in Hl. simplify_eq.
    by destruct (Hx Hm) as [? ->]. }
  intros Hman. assert (last (jv_records v) = Some head) as Hl by (destruct (last (jv_records v)); by simplify_eq/=).
  assert (result_admissible x v) as Hadm.
  { split_and!; [by exists h| |by destruct (jv_receipt v)|by destruct (open_effect (jv_records v))|done|].
    - destruct (bootstrap_result_hash_v1 x) as [hx|]; [|done]. apply negb_false_iff, bool_decide_eq_true in Hhash.
      by subst.
    - exists head, nh. split_and!; [done|done|]. intros Hm. rewrite Hm in Hman. by destruct nh. }
  assert (head_ordinal (jv_records v) = jrec_ordinal head ∧ head_record_hash (jv_records v) = jrec_record_hash head)
    as [Ho1 Ho2] by (unfold head_ordinal, head_record_hash; by rewrite Hl).
  apply wp_bind, wp_lift; cycle 1.
  { intros e He. left. split; [done|]. intros _ _ _ s (Hs1 & Hs2 & Hs3 & Hs4 & Hs5).
    rewrite Hnh in Hs4. simplify_eq. rewrite Hs2, Hs3, Ho1, Ho2 in Hs5. congruence. }
  intros hash Hhash'. apply wp_bind.
  assert (seal_over x v (MkBootstrapSeal x (jrec_ordinal head) (jrec_record_hash head) nh hash)) as Hseal by by split_and!.
  eapply wp_seal_receipt; [done|by destruct (jv_receipt v)| |].
  - intros j5 Hj5. apply wp_ret. split_and!; [done|done|]. by eexists.
  - intros j5 v' -> [->| ->] ?; [by left|right]. split_and!; [done|done|]. by eexists.
Qed.

(** *** Recovery *)

(** The receipt a root hands out: sealed over its present head and notice. *)
Definition terminal_of (id : StableId) (v : root_view) : result BootstrapJournalError (option BootstrapResultV1) :=
  match jv_receipt v with
  | None => Ok None
  | Some (TrEnrollmentPrepared _) => Err BjKindConflict
  | Some (TrBootstrapResult s) =>
      expected ← canonical_hash ((bts_receipt s, bts_head_ordinal s, bts_head_record_hash s,
                                  bts_manual_recovery_notice_hash s) : bootstrap_seal_key);
      head ← ok_or (last (jv_records v)) (BjChainBroken 0);
      notice_hash ← notice_hash_of v;
      if (bts_seal_hash s ≠? expected) || (bts_head_ordinal s ≠? jrec_ordinal head)
         || (bts_head_record_hash s ≠? jrec_record_hash head)
         || (bsr_activation_id (bts_receipt s) ≠? id)
         || (bts_manual_recovery_notice_hash s ≠? notice_hash)
      then Err (BjChainBroken (jrec_ordinal head)) else Ok (Some (bts_receipt s))
  end.
Definition recovery_of (id : StableId) (v : root_view) : result BootstrapJournalError (option BootstrapRecoveryStateV1) :=
  match jv_header v with
  | Some (JhActivation h) =>
      if ajh_activation_id h ≠? id then Ok None else
      _ ← verify_chain (JhActivation h) (jv_records v);
      terminal ← terminal_of id v;
      Ok (Some (MkBootstrapRecovery id
        (if is_some terminal then BpResultAvailable else derive_bootstrap_phase (jv_records v))
        (head_ordinal (jv_records v)) (head_record_hash (jv_records v)) terminal (jv_notice v)
        (open_effect (jv_records v)) (head (omap accepted_baton (jv_records v)))
        (omap admitted_command (jv_records v))))
  | _ => Ok None
  end.
(** An operation that only reads: what it answers when the storage works. *)
Definition answers {A} (m : hj A) (answer : root_view → result BootstrapJournalError A) : Prop :=
  ∀ c b v j, journal_at c b v j →
  wp m (λ a j', answer v = Ok a ∧ journal_at c b v j')
    (λ e j', (c = true → answer v = Err e) ∧ journal_at c b v j') j.
Lemma wp_answers {A} (m : hj A) answer c b v (Q : A → ActivationJournal → Prop) X j :
  answers m answer → journal_at c b v j →
  (∀ a j', answer v = Ok a → journal_at c b v j' → Q a j') →
  (∀ e j', (c = true → answer v = Err e) → journal_at c b v j' → X e j') → wp m Q X j.
Proof. intros Hm Hj HQ HX. eapply wp_mono; [by apply Hm|naive_solver|naive_solver]. Qed.

Lemma load_activation_recovery_answers id : answers (load_activation_recovery id) (recovery_of id).
Proof.
  intros c b v j Hj. unfold load_activation_recovery, recovery_of. apply wp_bind. eapply wp_read_header; [done| |].
  2: { intros e j' (-> & -> & ?). by split. }
  intros j1 Hj1. destruct (jv_header v) as [[h|h]|]; [by apply wp_ret| |by apply wp_ret].
  destruct (ajh_activation_id h ≠? id); [by apply wp_ret|]. apply wp_bind. eapply wp_load_chain; [done| |].
  2: { intros e j' (-> & -> & ?). by split. }
  intros j2 Hj2. apply wp_bind, wp_lift; [|by intros e ->]. intros [] ->. cbn [mbind result_bind].
  apply wp_bind. eapply wp_read_receipt; [done| |].
  2: { intros e j' (-> & -> & ?). by split. }
  intros j3 Hj3. apply wp_bind.
  assert (∀ (m : hj (option BootstrapResultV1)) Q X,
    wp m (λ a j', terminal_of id v = Ok a ∧ journal_at c b v j')
         (λ e j', (c = true → terminal_of id v = Err e) ∧ journal_at c b v j') j3 →
    (∀ a j', terminal_of id v = Ok a → journal_at c b v j' → Q a j') →
    (∀ e j', (c = true → terminal_of id v = Err e) → journal_at c b v j' → X e j') → wp m Q X j3) as Hcut.
  { intros m Q X Hm HQ HX. eapply wp_mono; [exact Hm|naive_solver|naive_solver]. }
  apply Hcut; clear Hcut.
  - unfold terminal_of. destruct (jv_receipt v) as [[s|s]|]; [by apply wp_throw| |by apply wp_ret].
    apply wp_bind, wp_lift; [|by intros e ->]. intros expected ->. cbn [mbind result_bind].
    apply wp_bind, wp_lift; [|by intros e ->]. intros head ->. cbn [mbind result_bind]. apply wp_bind.
    eapply wp_read_notice_hash; [done| |].
    + intros nh j4 -> Hj4. cbn [mbind result_bind]. apply wp_bind, wp_reject; intros ->; [|done]. by apply wp_ret.
    + intros e j4 He ?. split; [|done]. intros Hc. by rewrite He.
  - intros terminal j4 -> Hj4. cbn [mbind result_bind]. apply wp_bind. eapply wp_read_notice; [done| |].
    + intros j5 Hj5. by apply wp_ret.
    + intros e j5 (-> & -> & ?). by split.
  - intros e j4 He ?. split; [|done]. intros Hc. by rewrite He.
Qed.

Definition prepared_of (id : StableId) (v : root_view) : result BootstrapJournalError (option EnrollmentPreparedV1) :=
  match jv_receipt v with
  | None => Ok None
  | Some (TrBootstrapResult _) => Err BjKindConflict
  | Some (TrEnrollmentPrepared s) =>
      expected ← canonical_hash ((ets_receipt s, ets_head_ordinal s, ets_head_record_hash s)
                                 : enrollment_seal_key);
      head ← ok_or (last (jv_records v)) (BjChainBroken 0);
      if (ets_seal_hash s ≠? expected) || (ets_head_ordinal s ≠? jrec_ordinal head)
         || (ets_head_record_hash s ≠? jrec_record_hash head)
         || (enp_request_id (ets_receipt s) ≠? id)
      then Err (BjChainBroken (jrec_ordinal head)) else Ok (Some (ets_receipt s))
  end.
Definition enrollment_recovery_of (id : StableId) (v : root_view) : result BootstrapJournalError (option EnrollmentRecoveryStateV1) :=
  match jv_header v with
  | Some (JhEnrollment h) =>
      if ejh_enrollment_id h ≠? id then Ok None else
      _ ← verify_chain (JhEnrollment h) (jv_records v);
      terminal ← prepared_of id v;
      Ok (Some (MkEnrollmentRecovery id
        (if is_some terminal then EpPrepared else derive_enrollment_phase (jv_records v))
        (head_ordinal (jv_records v)) (head_record_hash (jv_records v)) terminal))
  | _ => Ok None
  end.
Lemma load_enrollment_recovery_answers id : answers (load_enrollment_recovery id) (enrollment_recovery_of id).
Proof.
  intros c b v j Hj. unfold load_enrollment_recovery, enrollment_recovery_of. apply wp_bind. eapply wp_read_header; [done| |].
  2: { intros e j' (-> & -> & ?). by split. }
  intros j1 Hj1. destruct (jv_header v) as [[h|h]|]; [|by apply wp_ret|by apply wp_ret].
  destruct (ejh_enrollment_id h ≠? id); [by apply wp_ret|]. apply wp_bind. eapply wp_load_chain; [done| |].
  2: { intros e j' (-> & -> & ?). by split. }
  intros j2 Hj2. apply wp_bind, wp_lift; [|by intros e ->]. intros [] ->. cbn [mbind result_bind].
  apply wp_bind. eapply wp_read_receipt; [done| |].
  2: { intros e j' (-> & -> & ?). by split. }
  intros j3 Hj3. apply wp_bind. unfold prepared_of. destruct (jv_receipt v) as [[s|s]|]; [|by apply wp_throw|by apply wp_ret].
  apply wp_bind, wp_lift; [|by intros e ->]. intros expected ->. cbn [mbind result_bind].
  apply wp_bind, wp_lift; [|by intros e ->]. intros head ->. cbn [mbind result_bind].
  apply wp_bind, wp_reject; intros ->; [|done]. by apply wp_ret.
Qed.

Lemma journal_read_result_answers id :
  answers (journal_read_bootstrap_result id) (λ v,
    match jv_receipt v with
    | None => Err BjTerminalMissing
    | Some (TrEnrollmentPrepared _) => Err BjKindConflict
    | Some (TrBootstrapResult s) =>
        if bsr_activation_id (bts_receipt s) ≠? id then Err BjIdentityConflict else
        recovery ← recovery_of id v; ok_or (recovery ≫= brs_terminal) BjTerminalMissing
    end).
Proof.
  intros c b v j Hj. unfold journal_read_bootstrap_result. apply wp_bind. eapply wp_read_receipt; [done| |].
  2: { intros e j' (-> & -> & ?). by split. }
  intros j1 Hj1. destruct (jv_receipt v) as [[s|s]|] eqn:E; apply wp_bind; [by apply wp_lift; [intros ? [= <-]; apply wp_throw|]| |by apply wp_lift; [|intros ? [= <-]]].
  apply wp_lift; [|done]. intros ? [= <-]. destruct (bsr_activation_id (bts_receipt s) ≠? id); [by apply wp_throw|].
  apply wp_bind. eapply wp_answers; [apply load_activation_recovery_answers|done|..].
  - intros a j2 -> Hj2. cbn [mbind result_bind]. apply wp_lift; by intros ? ->.
  - intros e j2 He ?. split; [|done]. intros Hc. by rewrite He.
Qed.
Lemma read_enrollment_prepared_answers id :
  answers (read_enrollment_prepared id) (λ v,
    match jv_receipt v with
    | None => Err BjTerminalMissing
    | Some (TrBootstrapResult _) => Err BjKindConflict
    | Some (TrEnrollmentPrepared s) =>
        if enp_request_id (ets_receipt s) ≠? id then Err BjIdentityConflict else
        recovery ← enrollment_recovery_of id v; ok_or (recovery ≫= ers_terminal) BjTerminalMissing
    end).
Proof.
  intros c b v j Hj. unfold read_enrollment_prepared. apply wp_bind. eapply wp_read_receipt; [done| |].
  2: { intros e j' (-> & -> & ?). by split. }
  intros j1 Hj1. destruct (jv_receipt v) as [[s|s]|] eqn:E; apply wp_bind; [|by apply wp_lift; [intros ? [= <-]; apply wp_throw|]|by apply wp_lift; [|intros ? [= <-]]].
  apply wp_lift; [|done]. intros ? [= <-]. destruct (enp_request_id (ets_receipt s) ≠? id); [by apply wp_throw|].
  apply wp_bind. eapply wp_answers; [apply load_enrollment_recovery_answers|done|..].
  - intros a j2 -> Hj2. cbn [mbind result_bind]. apply wp_lift; by intros ? ->.
  - intros e j2 He ?. split; [|done]. intros Hc. by rewrite He.
Qed.

(** *** The lock *)

Lemma stored_as_locked r v b :
  stored_as r v →
  stored_as (MkRoot b (jr_header r) (jr_records r) (jr_snapshot r) (jr_receipt r) (jr_notice r)) v.
Proof. intros [????]. by split. Qed.
Lemma journal_at_held c b b' v j : journal_at c b v j → journal_at c b' v (set_held b' j).
Proof. intros [???]. by split. Qed.
Lemma wp_release_lock c b v (Q : () → ActivationJournal → Prop) X j :
  journal_at c b v j → (∀ j', journal_at c b v j' → Q () j') → wp release_lock Q X j.
Proof.
  intros Hj HQ. apply wp_modify. destruct (aj_lock_file j); [|by apply HQ].
  apply HQ. destruct Hj. split; [by apply stored_as_locked|done|done].
Qed.
Lemma wp_acquire c b v j :
  journal_at c b v j →
  wp acquire_single_flight (λ _ j', b = false ∧ journal_at c true v j') (λ _ j', journal_at c b v j') j.
Proof.
  intros Hj. unfold acquire_single_flight. apply wp_bind, wp_read. rewrite (ja_held _ _ _ _ Hj).
  destruct b; [by apply wp_throw|]. apply wp_bind.
  assert (wp try_acquire_lock (λ _, journal_at c false v) (λ _, journal_at c false v) j) as Hl.
  { destruct (journal_at_fate _ _ _ _ Hj) as (Hj' & Hcalm & Hroot). unfold wp, try_acquire_lock.
    destruct (next_fate j) as [f j']. cbn in *. destruct Hj' as [Hs ??].
    destruct f; [destruct (jr_locked (aj_root j'))|..]; split; cbn; try done. by apply stored_as_locked. }
  eapply wp_mono; [exact Hl| |done]. intros [] j' Hj'. apply wp_modify. split; [done|]. by eapply journal_at_held.
Qed.
Lemma wp_journal_drop c b v j :
  journal_at c b v j → wp journal_drop (λ _ j', journal_at c false v j') (λ _ _, False) j.
Proof.
  intros Hj. unfold journal_drop. apply wp_bind, wp_read. rewrite (ja_held _ _ _ _ Hj).
  destruct b; [|by apply wp_ret]. apply wp_bind, wp_modify. eapply wp_release_lock; [by eapply journal_at_held|done].
Qed.

Definition receipt_sealed (v : root_view) : Prop :=
  match jv_header v with
  | Some (JhActivation h) =>
      ∃ r x, recovery_of (ajh_activation_id h) v = Ok (Some r) ∧ brs_terminal r = Some x
  | Some (JhEnrollment h) =>
      ∃ r x, enrollment_recovery_of (ejh_enrollment_id h) v = Ok (Some r) ∧ ers_terminal r = Some x
  | None => False
  end.
Lemma wp_require_terminal {R T} (m : hj (option R)) answer (terminal : R → option T) c b v j :
  answers m answer → journal_at c b v j →
  wp (recovery ← m; recovery ← lift (ok_or recovery BjTerminalMissing);
      reject_if (negb (is_some (terminal recovery))) BjTerminalMissing)
    (λ _ j', (∃ r x, answer v = Ok (Some r) ∧ terminal r = Some x) ∧ journal_at c b v j')
    (λ _ j', journal_at c b v j' ∧ (c = true → ¬ ∃ r x, answer v = Ok (Some r) ∧ terminal r = Some x)) j.
Proof.
  intros Hm Hj. apply wp_bind. eapply wp_answers; [done|done|..].
  2: { intros e j2 He ?. split; [done|]. intros Hc (r & x & Hr & _). rewrite He in Hr by done. done. }
  intros [r|] j2 Hr Hj2; apply wp_bind, wp_lift; [|done|done|].
  - intros ? [= <-]. apply wp_reject; intros Ht.
    + split; [|done]. destruct (terminal r) as [x|] eqn:E; [|done]. by exists r, x.
    + split; [done|]. intros _ (r' & x & Hr' & Hx). rewrite Hr in Hr'. simplify_eq. by rewrite Hx in Ht.
  - intros _ _. split; [done|]. intros _ (r' & x & Hr' & _). congruence.
Qed.
Lemma wp_seal_terminal c b v j :
  journal_at c b v j →
  wp seal_terminal (λ _ j', b = true ∧ receipt_sealed v ∧ journal_at c false v j')
    (λ _ j', journal_at c b v j' ∧ (c = true → b = true → ¬ receipt_sealed v)) j.
Proof.
  intros Hj. unfold seal_terminal. apply wp_bind. eapply wp_require_held; [done| |by intros ->].
  intros ->. apply wp_bind. eapply wp_read_header; [done| |by intros e j' (_ & -> & ?)].
  intros j1 Hj1. apply wp_bind. eapply (wp_mono _ (λ _ j', receipt_sealed v ∧ journal_at c true v j') _
    (λ _ j', journal_at c true v j' ∧ (c = true → ¬ receipt_sealed v))).
  - unfold receipt_sealed. destruct (jv_header v) as [[h|h]|].
    + by apply wp_require_terminal; [apply load_enrollment_recovery_answers|].
    + by apply wp_require_terminal; [apply load_activation_recovery_answers|].
    + apply wp_throw. split; [done|]. by intros _ [].
  - intros [] j2 [Hs Hj2]. apply wp_bind. eapply wp_release_lock; [done|]. intros j3 Hj3. apply wp_modify.
    split_and!; [done|done|]. by eapply journal_at_held.
  - intros e j2 [? Hs]. split; [done|]. intros Hc _. by apply Hs.
Qed.
End specs.
