(* ===== verification/HelperJournalTheorems.v ===== *)
(** * The custody of an activation

    The chain on disk after any sequence of journal operations, failures and
    restarts ([journal_custody]), and what an append after the seal does
    ([append_after_seal_loses_receipt]). *)
From S2P Require Export HelperJournalProofs.

Local Open Scope repair_scope.

(** ** Sequences of operations *)

Inductive journal_op : Type :=
| OpAcquire
| OpEnrollmentIntent (request : ManagedLocalEnrollmentRequestV1) (ids : EnrollmentIdentitiesV1)
| OpEnrollmentObservation (m : EnrollmentJournalMutationV1)
| OpEnrollmentPrepared (receipt : EnrollmentPreparedV1)
| OpBatonAccepted (baton : BatonAcceptedV1)
| OpEffectIntent (m : BootstrapJournalMutationV1)
| OpObservedEffect (m : BootstrapJournalMutationV1)
| OpAdvancePhase (m : BootstrapPhaseAdvanceV1)
| OpCommandAdmitted (r : CommandAdmittedV1)
| OpManualRecoveryNotice (n : ManualRecoveryNoticeV1)
| OpBootstrapResult (x : BootstrapResultV1)
| OpLoadEnrollment (id : StableId)
| OpLoadActivation (id : StableId)
| OpReadPrepared (id : StableId)
| OpReadResult (id : StableId)
| OpSealTerminal
| OpDrop.

(** The process ends: the operating system frees the lock of its open file. *)
Definition restart (fates : list storage_fate) (j : ActivationJournal) : ActivationJournal :=
  let r := aj_root j in
  MkActivationJournal
    (MkRoot (jr_locked r && negb (aj_lock_file j)) (jr_header r) (jr_records r) (jr_snapshot r)
       (jr_receipt r) (jr_notice r)) false false fates.

Section theorems.
Context `{Sha256, RepairSerialize, JournalSerialize}.

Definition run_journal_op (op : journal_op) : hj () :=
  match op with
  | OpAcquire => acquire_single_flight
  | OpEnrollmentIntent request ids => _ ← append_enrollment_intent request ids; mret ()
  | OpEnrollmentObservation m => _ ← append_enrollment_observation m; mret ()
  | OpEnrollmentPrepared receipt => _ ← store_enrollment_prepared receipt; mret ()
  | OpBatonAccepted baton => _ ← append_baton_accepted baton; mret ()
  | OpEffectIntent m => _ ← append_effect_intent m; mret ()
  | OpObservedEffect m => _ ← append_observed_effect m; mret ()
  | OpAdvancePhase m => _ ← advance_phase m; mret ()
  | OpCommandAdmitted r => _ ← append_command_admitted r; mret ()
  | OpManualRecoveryNotice n => _ ← store_manual_recovery_notice n; mret ()
  | OpBootstrapResult x => _ ← store_bootstrap_result x; mret ()
  | OpLoadEnrollment id => _ ← load_enrollment_recovery id; mret ()
  | OpLoadActivation id => _ ← load_activation_recovery id; mret ()
  | OpReadPrepared id => _ ← read_enrollment_prepared id; mret ()
  | OpReadResult id => _ ← journal_read_bootstrap_result id; mret ()
  | OpSealTerminal => seal_terminal
  | OpDrop => journal_drop
  end.

(** Operations, whatever they answer, and restarts. *)
Inductive journal_reaches : ActivationJournal → ActivationJournal → Prop :=
| reaches_refl j : journal_reaches j j
| reaches_op op j j' : journal_reaches (run_journal_op op j).1 j' → journal_reaches j j'
| reaches_restart fates j j' : journal_reaches (restart fates j) j' → journal_reaches j j'.

(** ** Every operation is a sequence of changes *)

Definition moves (v : root_view) (j : ActivationJournal) : Prop :=
  ∃ c b v', rtc journal_step v v' ∧ journal_at c b v' j.
Lemma moves_at c b v j : journal_at c b v j → moves v j.
Proof. intros Hj. by exists c, b, v. Qed.
Lemma moves_step c b v v' j : journal_step v v' → journal_at c b v' j → moves v j.
Proof. intros Hs Hj. exists c, b, v'. split; [by apply rtc_once|done]. Qed.
Lemma moves_wp {A} (m : hj A) v Q X j :
  wp m Q X j → (∀ a j', Q a j' → moves v j') → (∀ e j', X e j' → moves v j') → moves v (m j).1.
Proof. unfold wp. destruct (m j) as [j' [a|e]]; naive_solver. Qed.
Lemma moves_ignore {A} (m : hj A) v j : moves v (m j).1 → moves v ((_ ← m; mret ()) j).1.
Proof. unfold mbind, stm_bind. by destruct (m j) as [j' [a|e]]. Qed.
#[local] Hint Resolve moves_at moves_step : core.

Lemma with_header_same h v : jv_header v = Some h → with_header h v = v.
Proof. destruct v; cbn. by intros ->. Qed.
Lemma opened_moves c v h p j : first_fits h p → tx_opened c v h p j → moves v j.
Proof.
  intros Hf (r & Hnil & Hh & Hv & Hr & Hj). destruct Hh as [Hh|Hh].
  - exists c, true, (with_record r (with_header h v)). split; [|done].
    eapply rtc_l; [by eapply step_header|]. apply rtc_once.
    apply (step_first h (with_header h v) p); try done.
  - rewrite (with_header_same h v Hh) in Hj. eapply moves_step; [|done]. by apply (step_first h v p).
Qed.
Lemma not_opened_moves c b v h p j : first_fits h p → tx_not_opened c b v h p j → moves v j.
Proof.
  intros Hf [Hj|[(Hnil & Hh & Hv & Hj)|[_ Ho]]]; [eauto| |by eapply opened_moves].
  eapply moves_step; [by eapply step_header|done].
Qed.
Lemma appended_moves c v (P : Prop) p j :
  (P → ∃ h, jv_header v = Some (JhActivation h) ∧ verify_chain (JhActivation h) (jv_records v) = Ok ()
        ∧ len (jv_records v) < MAX_JOURNAL_RECORDS ∧ payload_fits (JhActivation h) p = true
        ∧ legal_next (jv_records v) p) →
  appended c v P p j → moves v j.
Proof.
  intros HP [Hadm (r & Hr & Hj)]. destruct (HP Hadm) as (h & Hh & Hv & Hlen & Hfit & Hl).
  eapply moves_step; [|done]. by eapply step_record.
Qed.
Lemma not_appended_moves c b v (P : Prop) p j :
  (P → ∃ h, jv_header v = Some (JhActivation h) ∧ verify_chain (JhActivation h) (jv_records v) = Ok ()
        ∧ len (jv_records v) < MAX_JOURNAL_RECORDS ∧ payload_fits (JhActivation h) p = true
        ∧ legal_next (jv_records v) p) →
  not_appended c b v P p j → moves v j.
Proof. intros HP [[Hj _]|(_ & _ & Ha)]; [eauto|by eapply appended_moves]. Qed.
Lemma result_step x v s :
  result_admissible x v → seal_over x v s → journal_step v (with_receipt (TrBootstrapResult s) v).
Proof.
  intros ((h & Hh & Hv & Hid) & Hhash & Hnone & Ho & Hs & (hd & nh & Hl & Hn & Hm))
    (Hs1 & Hs2 & Hs3 & Hs4 & Hs5). destruct s as [x' o hh nh' sh]. cbn in *. subst x'.
  unfold head_ordinal in Hs2. unfold head_record_hash in Hs3. rewrite Hl in Hs2, Hs3. subst.
  rewrite Hn in Hs4. simplify_eq. eapply step_result; try done.
  unfold notice_hash_of in Hn. destruct (jv_notice v) as [n|]; [|by simplify_eq].
  destruct (canonical_hash n); by simplify_eq/=.
Qed.

Ltac by_appending spec :=
  let Ha := fresh "Ha" in let h := fresh "h" in
  eapply moves_wp; [by apply spec|intros ? ? [_ Ha]|intros ? ? Ha];
  [eapply appended_moves; [|exact Ha]|eapply not_appended_moves; [|exact Ha]];
  intros ((h & ? & ? & _) & ? & ?); exists h; split_and!; try done; tauto.
Lemma journal_op_moves op c b v j : journal_at c b v j → moves v (run_journal_op op j).1.
Proof.
  intros Hj. destruct op; cbn [run_journal_op]; try apply moves_ignore.
  - eapply moves_wp; [by apply wp_acquire|naive_solver eauto|naive_solver eauto].
  - eapply moves_wp; [by apply wp_append_enrollment_intent|..].
    + intros a j' (_ & h & i & Hh & Hi & Ho). eapply opened_moves; [|exact Ho]. cbn. congruence.
    + intros e j' [?|(h & i & Hh & Hi & Ho)]; [eauto|]. eapply not_opened_moves; [|exact Ho]. cbn. congruence.
  - eapply moves_wp; [by apply wp_append_enrollment_observation|naive_solver eauto|naive_solver eauto].
  - eapply moves_wp; [by apply wp_store_enrollment_prepared|naive_solver eauto|naive_solver eauto].
  - eapply moves_wp; [by apply wp_append_baton_accepted|..].
    + intros a j' (_ & h & Hh & Hb & Ho). by eapply opened_moves; [|exact Ho].
    + intros e j' [?|(h & Hh & Hb & Ho)]; [eauto|]. by eapply not_opened_moves; [|exact Ho].
  - by_appending (wp_append_effect c b v m true).
  - by_appending (wp_append_effect c b v m false).
  - by_appending (wp_advance_phase c b v m).
  - by_appending (wp_append_command_admitted c b v r).
  - assert (∀ j', ready_for (mrn_activation_id n) v →
      derive_bootstrap_phase (jv_records v) = BpManualRecoveryRequired →
      jv_notice v = None ∨ jv_notice v = Some n → journal_at c b (with_notice n v) j' → moves v j') as Hn.
    { intros j' (h & Hh & Hv & Hid) Hp [Hn|Hn] Hj'; [eapply moves_step; [by eapply step_notice|done]|].
      apply (moves_at c b). destruct v; cbn in *; by subst. }
    eapply moves_wp; [by apply wp_store_notice|..].
    + intros a j' (_ & ? & ? & ? & ?). by apply Hn.
    + intros e j' [[? _]|(_ & (? & ? & ?) & ?)]; [eauto|]. by apply Hn; auto.
  - eapply moves_wp; [by apply wp_store_result|..].
    + intros a j' (_ & ? & s & ? & ?). eapply moves_step; [by eapply result_step|done].
    + intros e j' [[? _]|(_ & ? & s & ? & ?)]; [eauto|]. eapply moves_step; [by eapply result_step|done].
  - eapply moves_wp; [by eapply load_enrollment_recovery_answers|naive_solver eauto|naive_solver eauto].
  - eapply moves_wp; [by eapply load_activation_recovery_answers|naive_solver eauto|naive_solver eauto].
  - eapply moves_wp; [by eapply read_enrollment_prepared_answers|naive_solver eauto|naive_solver eauto].
  - eapply moves_wp; [by eapply journal_read_result_answers|naive_solver eauto|naive_solver eauto].
  - eapply moves_wp; [by apply wp_seal_terminal|naive_solver eauto|naive_solver eauto].
  - eapply moves_wp; [by eapply wp_journal_drop|naive_solver eauto|done].
Qed.
Lemma reaches_moves c b v j j' : journal_at c b v j → journal_reaches j j' → moves v j'.
Proof.
  intros Hj Hr. revert c b v Hj. induction Hr as [j|op j j' _ IH|fates j j' _ IH]; intros c b v Hj; [eauto|..].
  - destruct (journal_op_moves op c b v j Hj) as (c1 & b1 & v1 & Hs1 & Hj1).
    destruct (IH _ _ _ Hj1) as (c2 & b2 & v2 & Hs2 & Hj2). exists c2, b2, v2. split; [by etrans|done].
  - apply (IH false false). destruct Hj as [Hs ??]. split; [by apply stored_as_locked|done|done].
Qed.

(** ** The chain on disk *)

Lemma verify_records_app h n prev rs rs' :
  verify_records h n prev (rs ++ rs') =
  (_ ← verify_records h n prev rs;
   verify_records h (n + len rs) (match last rs with Some x => Some (jrec_record_hash x) | None => prev end) rs').
Proof.
  revert n prev. induction rs as [|x rs IH]; intros n prev.
  - cbn. unfold len. cbn. by rewrite N.add_0_r.
  - cbn [verify_records app]. destruct (verify_record h n prev x) as [[]|]; [|done].
    cbn [mbind result_bind]. rewrite IH. destruct (verify_records h (n + 1) _ rs) as [[]|]; [|done].
    cbn [mbind result_bind]. replace (n + 1 + len rs) with (n + len (x :: rs)) by (unfold len; cbn [length]; lia).
    destruct rs as [|y rs]; [done|]. change (last (x :: y :: rs)) with (last (y :: rs)).
    destruct (last (y :: rs)) eqn:E; [done|]. by apply last_None in E.
Qed.
Lemma verify_record_next h rs p r :
  next_record rs p = Ok r → payload_fits h p = true →
  verify_record h (len rs) (jrec_record_hash <$> last rs) r = Ok ().
Proof.
  intros (Hord & Hprev & Hp & Hhash)%next_record_spec Hfit. unfold verify_record. rewrite Hord, Hprev, Hhash, Hp, Hfit.
  rewrite bool_decide_eq_true_2 by done. cbn [negb fail_if mbind result_bind].
  destruct rs as [|x rs _] using rev_ind; [by cbn; rewrite !bool_decide_eq_true_2 by done|]. rewrite last_snoc.
  destruct (N.eqb_spec (len (rs ++ [x])) 0) as [He|]; [unfold len in He; rewrite length_app in He; cbn in He; lia|].
  cbn. rewrite !bool_decide_eq_true_2 by done. done.
Qed.
Lemma verify_chain_snoc h rs p r :
  verify_chain h rs = Ok () → len rs < MAX_JOURNAL_RECORDS → next_record rs p = Ok r →
  payload_fits h p = true → verify_chain h (rs ++ [r]) = Ok ().
Proof.
  unfold verify_chain. intros Hv Hlen Hr Hfit. destruct (verify_header h) as [[]|]; [|done]. cbn [mbind result_bind] in *.
  apply rbind_ok in Hv as ([] & _ & Hv).
  destruct (N.ltb_spec MAX_JOURNAL_RECORDS (len (rs ++ [r]))) as [Hlt|];
    [unfold len in *; rewrite length_app in Hlt; cbn in Hlt; lia|].
  cbn [fail_if mbind result_bind]. rewrite verify_records_app, Hv. cbn [mbind result_bind verify_records].
  rewrite N.add_0_l. pose proof (verify_record_next h rs p r Hr Hfit) as Hx.
  replace (match last rs with Some x => Some (jrec_record_hash x) | None => None end)
    with (jrec_record_hash <$> last rs) by by destruct (last rs). by rewrite Hx.
Qed.

(** Every record was legal where it stands: it opens the transaction, or the
    records before it allow it. *)
Definition legal_at (h : JournalHeaderV1) (pre : list JournalRecordV1) (p : JournalRecordPayloadV1) : Prop :=
  pre = [] ∧ first_fits h p ∨ payload_fits h p = true ∧ legal_next pre p.
Definition records_legal (h : JournalHeaderV1) (rs : list JournalRecordV1) : Prop :=
  ∀ pre r suf, rs = pre ++ r :: suf → legal_at h pre (jrec_payload r).
Lemma records_legal_snoc h rs r :
  records_legal h rs → legal_at h rs (jrec_payload r) → records_legal h (rs ++ [r]).
Proof.
  intros Hl Hn pre x suf Heq. destruct suf as [|y suf _] using rev_ind.
  - by apply app_inj_tail in Heq as [-> ->].
  - rewrite app_comm_cons, app_assoc in Heq. apply app_inj_tail in Heq as [-> ->]. by eapply Hl.
Qed.
Lemma first_fits_payload h p : first_fits h p → payload_fits h p = true.
Proof. by destruct h, p. Qed.

Record journal_sound (v : root_view) : Prop := {
  so_started : jv_header v = None → jv_records v = [] ∧ jv_receipt v = None ∧ jv_notice v = None;
  so_chain : ∀ h, jv_header v = Some h →
    verify_chain h (jv_records v) = Ok () ∧ records_legal h (jv_records v);
  so_result : ∀ s, jv_receipt v = Some (TrBootstrapResult s) →
    ∃ h pre suf, jv_header v = Some (JhActivation h) ∧ jv_records v = pre ++ suf
      ∧ bts_head_ordinal s = head_ordinal pre ∧ bts_head_record_hash s = head_record_hash pre
      ∧ bsr_activation_id (bts_receipt s) = ajh_activation_id h
      ∧ bootstrap_result_hash_v1 (bts_receipt s) = Ok (bsr_receipt_hash (bts_receipt s))
      ∧ open_effect pre = None
      ∧ result_can_seal (derive_bootstrap_phase pre) (bsr_result (bts_receipt s)) = true
      ∧ (is_manual_recovery (bsr_result (bts_receipt s)) = true → is_Some (jv_notice v));
  so_notice : ∀ n, jv_notice v = Some n →
    derive_bootstrap_phase (jv_records v) = BpManualRecoveryRequired
    ∧ ∃ h, jv_header v = Some (JhActivation h) ∧ mrn_activation_id n = ajh_activation_id h
}.
Record extends (v v' : root_view) : Prop := {
  ex_header : ∀ h, jv_header v = Some h → jv_header v' = Some h;
  ex_records : jv_records v `prefix_of` jv_records v';
  ex_receipt : ∀ x, jv_receipt v = Some x → jv_receipt v' = Some x;
  ex_notice : ∀ n, jv_notice v = Some n → jv_notice v' = Some n
}.
#[export] Instance extends_preorder : PreOrder extends.
Proof.
  split; [by split|]. intros v1 v2 v3 [????] [????]. split; [naive_solver| |naive_solver..]. by etrans.
Qed.

Lemma derive_phase_snoc rs r :
  derive_bootstrap_phase (rs ++ [r]) = derive_bootstrap_phase_from (derive_bootstrap_phase rs) r.
Proof. unfold derive_bootstrap_phase. by rewrite foldl_app. Qed.
Lemma open_effect_snoc rs r : open_effect (rs ++ [r]) = open_effect_from (open_effect rs) r.
Proof. unfold open_effect. by rewrite foldl_app. Qed.
(** Manual recovery is the last phase of its chain. *)
Lemma manual_phase_stays rs r :
  derive_bootstrap_phase rs = BpManualRecoveryRequired → legal_next rs (jrec_payload r) →
  derive_bootstrap_phase (rs ++ [r]) = BpManualRecoveryRequired.
Proof.
  intros Hp Hl. rewrite derive_phase_snoc. unfold derive_bootstrap_phase_from.
  destruct (jrec_payload r); try done. destruct Hl as (_ & _ & Ht). rewrite Hp in Ht. by destruct Ht.
Qed.
(** A record may only follow when nothing of the activation is finished in the
    chain it was legal for; so notices and receipts are where they were. *)
Lemma journal_sound_record h v p r :
  journal_sound v → jv_header v = Some h → next_record (jv_records v) p = Ok r →
  len (jv_records v) < MAX_JOURNAL_RECORDS → legal_at h (jv_records v) p →
  journal_sound (with_record r v).
Proof.
  intros [Hst Hch Hrs Hno] Hh Hr Hlen Hcase. destruct (Hch _ Hh) as [Hv Hl].
  pose proof (next_record_spec _ _ _ Hr) as (_ & _ & Hp & _). split; cbn.
  - congruence.
  - intros h' Hh'. rewrite Hh in Hh'. simplify_eq. split.
    + eapply verify_chain_snoc; [done|done|done|]. destruct Hcase as [[_ ?%first_fits_payload]|[? _]]; done.
    + by apply records_legal_snoc.
  - intros s Hs. destruct (Hrs s Hs) as (h' & pre & suf & ? & Heq & ?). exists h', pre, (suf ++ [r]).
    split_and!; try done; try tauto. by rewrite Heq, app_assoc.
  - intros n Hn. destruct (Hno n Hn) as [Hph ?]. split; [|done]. destruct Hcase as [[Hnil _]|[_ Hl']].
    + by rewrite Hnil in Hph.
    + apply manual_phase_stays; by rewrite ?Hp.
Qed.
Lemma journal_step_sound v v' : journal_step v v' → journal_sound v → journal_sound v'.
Proof.
  intros Hs Hv. destruct Hs as [h v Hh Hnil Hvh|h v p r Hh Hvh Hnil Hf Hr|h v p r Hh Hch Hlen Hfit Hl Hr
    |h v x hd hash Hh Hch Hnone Hid Hp Hlast Hhash|h v x hd nh hash Hh Hch Hnone Hid Hx Ho Hs Hlast Hnh Hm Hhash
    |h v n Hh Hch Hid Hp Hnone].
  - destruct (so_started _ Hv Hh) as (_ & Hr & Hn). split; cbn; try congruence. intros h' [= <-]. rewrite Hnil.
    split; [unfold verify_chain; by rewrite Hvh|]. intros pre r suf Heq. by destruct pre.
  - rewrite <-Hnil in Hr. eapply journal_sound_record; [done|done|exact Hr|by rewrite Hnil|by left].
  - eapply journal_sound_record; [done|done|exact Hr|done|by right].
  - destruct Hv as [Hst Hcs Hrs Hno]. split; cbn; [congruence|done|congruence|done].
  - destruct Hv as [Hst Hcs Hrs Hno]. split; cbn; [congruence|done| |done]. intros s [= <-]. cbn.
    exists h, (jv_records v), []. rewrite app_nil_r. unfold head_ordinal, head_record_hash. rewrite Hlast.
    split_and!; try done. intros Hman. destruct (Hm Hman) as [? ->]. by destruct (jv_notice v).
  - destruct Hv as [Hst Hcs Hrs Hno]. split; cbn; [congruence|done| |].
    + intros s Hs. destruct (Hrs s Hs) as (h' & pre & suf & ? & Heq & ?). exists h', pre, suf.
      split_and!; try done; try tauto.
    + intros ? [= <-]. split; [done|]. by exists h.
Qed.
Lemma journal_step_extends v v' : journal_step v v' → extends v v'.
Proof.
  destruct 1; split; cbn; try done; try congruence; try (intros ? Hx; by rewrite ?Hx; congruence).
  all: by eexists.
Qed.
Lemma journal_steps v v' : rtc journal_step v v' → journal_sound v → journal_sound v' ∧ extends v v'.
Proof.
  induction 1 as [|v1 v2 v3 Hs _ IH]; [done|]. intros Hv. destruct IH as [? IH]; [by eapply journal_step_sound|].
  split; [done|]. etrans; [by apply journal_step_extends|done].
Qed.
Lemma empty_view_sound : journal_sound empty_view.
Proof. by split. Qed.
Lemma empty_root_at fates : journal_at false false empty_view (MkActivationJournal empty_root false false fates).
Proof. by split. Qed.

(** ** Theorems *)

(** C15: From an empty root, after any operations with any arguments, any storage
    failures (before or after a call took effect) and any restarts: the root
    holds a chain that verifies, each record of which was legal after the
    records before it (an effect's intent only when no effect is open, an
    observation only for the open intent, a phase only along an edge of the
    machine and with no effect open, a command once), a receipt only over a
    phase that carries its disposition; and whatever was durable stays as it
    was: header, records, receipt and notice. *)
Theorem journal_custody fates j j' :
  journal_reaches (MkActivationJournal empty_root false false fates) j → journal_reaches j j' →
  ∃ v v', stored_as (aj_root j) v ∧ stored_as (aj_root j') v' ∧ journal_sound v'
    ∧ extends v v'.
Proof.
  intros Hr Hr'. destruct (reaches_moves _ _ _ _ _ (empty_root_at fates) Hr) as (c & b & v & Hs & Hj).
  destruct (journal_steps _ _ Hs empty_view_sound) as [Hv _].
  destruct (reaches_moves _ _ _ _ _ Hj Hr') as (c' & b' & v' & Hs' & Hj').
  destruct (journal_steps _ _ Hs' Hv) as [Hv' He]. exists v, v'. split_and!; [by apply Hj|by apply Hj'|done|done].
Qed.

Lemma sealed_terminal id v s head :
  jv_receipt v = Some (TrBootstrapResult s) → last (jv_records v) = Some head →
  seal_over (bts_receipt s) v s → bsr_activation_id (bts_receipt s) = id →
  terminal_of id v = Ok (Some (bts_receipt s)).
Proof.
  intros Hr Hl (_ & Ho & Hh & Hn & Hs) Hid. unfold terminal_of. rewrite Hr, Hs. cbn [mbind result_bind].
  rewrite Hl, Hn. cbn [ok_or mbind result_bind]. unfold head_ordinal in Ho. unfold head_record_hash in Hh.
  rewrite Hl in Ho, Hh. by rewrite !bool_decide_eq_true_2 by done.
Qed.
Lemma moved_terminal id v s head :
  jv_receipt v = Some (TrBootstrapResult s) → last (jv_records v) = Some head →
  bts_head_ordinal s ≠ jrec_ordinal head → is_ok (terminal_of id v) = false.
Proof.
  intros Hr Hl Hne. unfold terminal_of. rewrite Hr. destruct (canonical_hash _); [|done]. cbn [mbind result_bind].
  rewrite Hl. cbn [ok_or mbind result_bind]. destruct (notice_hash_of v); [|done]. cbn [mbind result_bind].
  by rewrite (bool_decide_eq_false_2 (bts_head_ordinal s = _)), orb_true_r.
Qed.
Lemma wp_calm_ok {A} (m : hj A) (Q : A → ActivationJournal → Prop) j :
  wp m Q (λ _ _, False) j → ∃ a, (m j).2 = Ok a ∧ Q a (m j).1.
Proof. unfold wp. destruct (m j) as [j' [a|e]]; [|done]. by exists a. Qed.
Lemma reads_calm {A} (m : hj A) answer b v j :
  answers m answer → journal_at true b v j → (m j).2 = answer v ∧ journal_at true b v (m j).1.
Proof.
  intros Hm Hj. pose proof (Hm true b v j Hj) as Hw. unfold wp in Hw. destruct (m j) as [j' [a|e]]; cbn.
  - by destruct Hw as [-> ?].
  - destruct Hw as [He ?]. by rewrite He.
Qed.

(** The phase [Verified] is terminal and a receipt may be sealed over it, yet
    [advance_phase] still accepts [Recovering] after it, receipt or not: the
    receipt that was readable before is refused from then on. *)
Theorem append_after_seal_loses_receipt v j h s head r :
  journal_at true true v j → jv_header v = Some (JhActivation h) →
  verify_chain (JhActivation h) (jv_records v) = Ok () →
  jv_receipt v = Some (TrBootstrapResult s) → seal_over (bts_receipt s) v s →
  bsr_activation_id (bts_receipt s) = ajh_activation_id h →
  last (jv_records v) = Some head → jrec_ordinal head < len (jv_records v) →
  derive_bootstrap_phase (jv_records v) = BpVerified → open_effect (jv_records v) = None →
  len (jv_records v) < MAX_JOURNAL_RECORDS →
  next_record (jv_records v) (JpPhaseAdvance BpRecovering) = Ok r →
  let id := ajh_activation_id h in
  let advanced := advance_phase (MkPhaseAdvance id (len (jv_records v)) BpVerified BpRecovering) j in
  (journal_read_bootstrap_result id j).2 = Ok (bts_receipt s) ∧ is_ok advanced.2 = true
  ∧ is_ok (journal_read_bootstrap_result id advanced.1).2 = false.
Proof.
  intros Hj Hh Hv Hr Hseal Hid Hl Hord Hp Ho Hlen Hn id advanced.
  destruct (reads_calm _ _ _ _ _ (journal_read_result_answers id) Hj) as [Hread _].
  assert (∃ a, advanced.2 = Ok a ∧ journal_at true true (with_record r v) advanced.1) as (a & Ha & Hj').
  { apply (wp_calm_ok (advance_phase _) (λ _ j', journal_at true true (with_record r v) j') j). eapply wp_mono; [by apply wp_advance_phase|..].
    - intros _ j' (_ & _ & r' & Hr' & Hj'). cbn in Hr'. congruence.
    - intros e j' [[_ Hno]|[? _]]; [|done]. eapply Hno; [done|done| |exact Hn].
      split_and!; cbn; try done; [by exists h|]. rewrite Hp. by split_and!. }
  destruct (reads_calm _ _ _ _ _ (journal_read_result_answers id) Hj') as [Hread' _].
  rewrite Hread, Hread', Ha. cbn. rewrite Hr, Hid, bool_decide_eq_true_2 by done. cbn.
  unfold recovery_of. cbn [jv_header jv_records with_record]. rewrite Hh, bool_decide_eq_true_2, Hv by done.
  cbn [negb mbind result_bind]. rewrite (sealed_terminal id v s head) by done. split_and!; [done|done|].
  rewrite (verify_chain_snoc _ _ (JpPhaseAdvance BpRecovering) r) by done. cbn [mbind result_bind].
  assert (is_ok (terminal_of id (with_record r v)) = false) as Hm; [|by destruct (terminal_of id (with_record r v))].
  apply (moved_terminal id (with_record r v) s r Hr); [by cbn; rewrite last_snoc|].
  destruct (next_record_spec _ _ _ Hn) as [-> _]. destruct Hseal as (_ & -> & _). unfold head_ordinal. rewrite Hl. lia.
Qed.
End theorems.
