(* ===== verification/HelperCoordinator.v ===== *)
(** * Activation and rollback
      ([crates/aworkit-bootstrap-helper/src/coordinator/])

    [ActivationRollbackCoordinator] over the journal ([HelperJournal]) and its
    three other ports: build slots, the platform's selector and the launch
    watchdog ([HelperPorts], arbitrary functions of an environment).  Every call
    that acts on the platform is noted in [co_trace] with the journal root as
    it was when the call was made. *)
From S2P Require Export HelperJournal Wire.

Local Open Scope repair_scope.

(** ** Data of the ports *)

Inductive SlotDataCompatibilityV1 : Type :=
| ScRollbackCompatible | ScDeferredUntilVerified | ScForwardOnlyMigrationRequired.
#[export] Instance SlotDataCompatibilityV1_eq_dec : EqDecision SlotDataCompatibilityV1.
Proof. solve_decision. Defined.
Record OpenBuildSlotHandleV1 : Type := MkSlotHandle {
  osh_handle_id : StableId;
  osh_build_content_hash : string;
  osh_root_identity_hash : string;
  osh_manifest_hash : string;
  osh_verification_generation : N
}.
#[export] Instance OpenBuildSlotHandleV1_eq_dec : EqDecision OpenBuildSlotHandleV1.
Proof. solve_decision. Defined.
Record VerifiedBuildSlotV1 : Type := MkSlot {
  vbs_build_content_hash : string;
  vbs_manifest_hash : string;
  vbs_root_identity_hash : string;
  vbs_owner_identity_hash : string;
  vbs_volume_identity_hash : string;
  vbs_expected_core_entry : string;
  vbs_data_compatibility : SlotDataCompatibilityV1;
  vbs_handle : OpenBuildSlotHandleV1
}.
#[export] Instance VerifiedBuildSlotV1_eq_dec : EqDecision VerifiedBuildSlotV1.
Proof. solve_decision. Defined.
Inductive BuildSlotError : Type :=
| SeBounded (what : string)
| SeManifest (what : string)
| SeUnsafePath (path : string)
| SeIntegrity (what : string)
| SeProvenanceMismatch
| SeUnsupported (what : string)
| SeIdentityChanged
| SeStorageGuaranteeAbsent
| SeIllegalRoleTransition
| SeNotFound
| SeArtifact (what : string)
| SeStorage (what : string).
Definition slot_error_text (e : BuildSlotError) : string :=
  match e with
  | SeBounded what => "slot input exceeds a bounded quota: " +:+ what
  | SeManifest what => "slot manifest is malformed or not self-consistent: " +:+ what
  | SeUnsafePath path => "slot entry path is unsafe or collides: " +:+ path
  | SeIntegrity what => "slot content integrity failed for " +:+ what
  | SeProvenanceMismatch => "slot provenance does not match the admitted build"
  | SeUnsupported what => "slot is incompatible with this helper or platform: " +:+ what
  | SeIdentityChanged => "anchored slot identity changed after verification"
  | SeStorageGuaranteeAbsent =>
      "slot ownership, volume, immutability, or no-follow guarantee is absent"
  | SeIllegalRoleTransition => "slot role transition is not legal"
  | SeNotFound => "slot or artifact was not found"
  | SeArtifact what => "artifact port failed: " +:+ what
  | SeStorage what => "slot storage port failed: " +:+ what
  end.

Record ActiveSelectorObservationV1 : Type := MkSelectorObservation {
  aso_selector_identity_hash : string;
  aso_selected_build_content_hash : string;
  aso_selected_root_identity_hash : string;
  aso_capability_generation : N;
  aso_observation_hash : string
}.
Record ActivationPlanV1 : Type := MkActivationPlan {
  apl_activation_id : StableId;
  apl_capability_generation : N;
  apl_capability_digest : string;
  apl_selector_identity_hash : string;
  apl_current : VerifiedBuildSlotV1;
  apl_candidate : VerifiedBuildSlotV1;
  apl_previous : VerifiedBuildSlotV1;
  apl_current_process_generation : ProcessGeneration;
  apl_candidate_process_generation : ProcessGeneration;
  apl_rollback_process_generation : ProcessGeneration;
  apl_deadlines : BootstrapDeadlinesV1
}.
Inductive SelectorMutationKindV1 : Type := SmSelectCandidate | SmRestorePrevious.
Record SelectorMutationReceiptV1 : Type := MkSelectorReceipt {
  smr_mutation_id : StableId;
  smr_activation_id : StableId;
  smr_kind : SelectorMutationKindV1;
  smr_before : ActiveSelectorObservationV1;
  smr_after : ActiveSelectorObservationV1;
  smr_mutation_hash : string;
  smr_receipt_hash : string
}.
Inductive ProfileError : Type :=
| PeInvalid (what : string)
| PeUnsupported (what : string)
| PeCapabilityDrift
| PeSelectorDrift
| PeAmbiguousSelector
| PeMutationReplay
| PeObservation (what : string)
| PeSelector (what : string)
| PeSlot (what : string).
Definition profile_error_text (e : ProfileError) : string :=
  match e with
  | PeInvalid what => "managed-local profile input is invalid: " +:+ what
  | PeUnsupported what => "managed-local profile is unsupported: " +:+ what
  | PeCapabilityDrift => "capability generation or digest is stale"
  | PeSelectorDrift => "selector source, destination, or identity is stale"
  | PeAmbiguousSelector => "selector mutation outcome is ambiguous"
  | PeMutationReplay => "selector mutation replay changed bytes"
  | PeObservation what => "profile observation failed: " +:+ what
  | PeSelector what => "native selector port failed: " +:+ what
  | PeSlot what => "build-slot verification failed: " +:+ what
  end.

Inductive GenerationRoleV1 : Type := GrCandidate | GrPrevious.
Record ProcessTreeHandleV1 : Type := MkProcessTree {
  pth_handle_id : StableId;
  pth_process_generation : ProcessGeneration;
  pth_root_process_identity_hash : string;
  pth_containment_identity_hash : string
}.
Record ProcessTreeCleanupV1 : Type := MkCleanup {
  ptc_process_generation : ProcessGeneration;
  ptc_cooperative_requested : bool;
  ptc_forced_termination_used : bool;
  ptc_descendants_observed : N;
  ptc_tree_empty : bool;
  ptc_orphan_risk : bool;
  ptc_proof_hash : string
}.
Record GenerationLaunchSpecV1 : Type := MkLaunchSpec {
  gls_activation_id : StableId;
  gls_attempt_id : StableId;
  gls_role : GenerationRoleV1;
  gls_installation_id : StableId;
  gls_enrollment_digest : string;
  gls_capability_generation : N;
  gls_capability_digest : string;
  gls_verification_plan_hash : string;
  gls_verification_plan : FocusedVerificationPlanV1;
  gls_process_generation : ProcessGeneration;
  gls_expected_prior_process_generation : ProcessGeneration;
  gls_slot : VerifiedBuildSlotV1;
  gls_selector : ActiveSelectorObservationV1;
  gls_prior_cleanup : ProcessTreeCleanupV1;
  gls_helper_detached_and_surviving : bool;
  gls_deadlines : BootstrapDeadlinesV1
}.
Record LaunchObservationV1 : Type := MkLaunchObservation {
  lob_attempt_id : StableId;
  lob_process_tree : ProcessTreeHandleV1;
  lob_executable_hash : string;
  lob_slot_root_identity_hash : string;
  lob_observed_at_monotonic_ms : N;
  lob_observation_hash : string
}.
Record GenerationHandshakeV1 : Type := MkGenerationHandshake {
  ghs_activation_id : StableId;
  ghs_attempt_id : StableId;
  ghs_installation_id : StableId;
  ghs_enrollment_digest : string;
  ghs_capability_generation : N;
  ghs_capability_digest : string;
  ghs_launch_nonce_hash : string;
  ghs_executable_hash : string;
  ghs_slot_root_identity_hash : string;
  ghs_helper_protocol_version : N;
  ghs_verification_plan_hash : string;
  ghs_process_generation : ProcessGeneration;
  ghs_handshake_hash : string
}.
Record GenerationHealthV1 : Type := MkHealth {
  ghe_attempt_id : StableId;
  ghe_process_generation : ProcessGeneration;
  ghe_healthy : bool;
  ghe_heartbeat_sequence : N;
  ghe_observation_hash : string
}.
Record FocusedVerificationResultV1 : Type := MkFocusedVerificationResult {
  fvr_activation_id : StableId;
  fvr_attempt_id : StableId;
  fvr_process_generation : ProcessGeneration;
  fvr_verification_plan_hash : string;
  fvr_passed : bool;
  fvr_outcome : CapabilityOutcomeV1;
  fvr_focused_verification : FocusedVerificationEvidenceV1;
  fvr_result_hash : string
}.
Inductive GenerationWatchdogSuccessV1 : Type :=
| GwCandidateVerified (launch : LaunchObservationV1) (handshake : GenerationHandshakeV1)
    (health : GenerationHealthV1) (verification : FocusedVerificationResultV1)
| GwPreviousHealthy (launch : LaunchObservationV1) (handshake : GenerationHandshakeV1)
    (health : GenerationHealthV1).
Inductive WatchdogFailureStageV1 : Type :=
| WsPreconditions | WsCleanup | WsSpawn | WsStartup | WsIdentity | WsHealth | WsFocusedVerification.
Record WatchdogFailureV1 : Type := MkWatchdogFailure {
  wdf_activation_id : StableId;
  wdf_attempt_id : StableId;
  wdf_role : GenerationRoleV1;
  wdf_stage : WatchdogFailureStageV1;
  wdf_reason_code : string;
  wdf_diagnostic_id : StableId;
  wdf_rollback_required : bool
}.

Record ActivationExecutionV1 : Type := MkExecution {
  aex_plan : ActivationPlanV1;
  aex_installation_id : StableId;
  aex_management_checkpoint_id : StableId;
  aex_verification_plan : FocusedVerificationPlanV1;
  aex_helper_detached_and_surviving : bool;
  aex_sealed_at_epoch_ms : N
}.

(** [EnrollmentPlanV1] and [EnrollmentPreparationV1] of [protocol/model.rs]. *)
Record EnrollmentPlanV1 : Type := MkEnrollmentPlan {
  epl_plan_id : StableId;
  epl_installation_id : StableId;
  epl_profile_version : N;
  epl_helper_root_identity_hash : string;
  epl_initial_active_slot_root_hash : string;
  epl_selector_identity_hash : string;
  epl_journal_identity_hash : string;
  epl_plan_hash : string
}.
Definition clear_plan_hash (p : EnrollmentPlanV1) : EnrollmentPlanV1 :=
  MkEnrollmentPlan (epl_plan_id p) (epl_installation_id p) (epl_profile_version p)
    (epl_helper_root_identity_hash p) (epl_initial_active_slot_root_hash p)
    (epl_selector_identity_hash p) (epl_journal_identity_hash p) "".
Record EnrollmentPreparationV1 : Type := MkEnrollmentPreparation {
  epr_observation : EnrollmentObservationV1;
  epr_prepared : EnrollmentPreparedV1
}.

(** The [Journal], [Slot] and [Selector] variants of the code carry the text of
    the error they wrap; here they carry the error. *)
Inductive CoordinatorError : Type :=
| CoBusy
| CoFence (what : string)
| CoMissingBaton
| CoMissingJournal
| CoJournal (error : BootstrapJournalError)
| CoSlot (error : BuildSlotError)
| CoSelector (error : ProfileError)
| CoMissingRecoveryContext.

(** ** Ports *)

(** [BuildSlotVerifyPortV1], [PlatformActivationPortV1] and
    [ApplicationLaunchWatchdogPortV1]: what the coordinator calls of them. *)
Record HelperPorts (S : Type) : Type := MkHelperPorts {
  hp_reverify_opened_slot : OpenBuildSlotHandleV1 → S → S * result BuildSlotError VerifiedBuildSlotV1;
  hp_mark_candidate_activated_verified : S → S * result BuildSlotError ();
  hp_materialize_immutable_slot :
    BuildBundleRefV1 → BuildProvenanceV1 → S → S * result BuildSlotError VerifiedBuildSlotV1;
  hp_set_initial_active : VerifiedBuildSlotV1 → S → S * result BuildSlotError ();
  hp_observe_active_selector :
    ActivationPlanV1 → S → S * result ProfileError ActiveSelectorObservationV1;
  hp_apply_candidate_selector :
    ActivationPlanV1 → BootstrapPhaseV1 → S → S * result ProfileError SelectorMutationReceiptV1;
  hp_restore_previous_selector :
    ActivationPlanV1 → BootstrapPhaseV1 → S → S * result ProfileError SelectorMutationReceiptV1;
  hp_verify_selector :
    ActivationPlanV1 → OpenBuildSlotHandleV1 → S → S * result ProfileError ActiveSelectorObservationV1;
  hp_cleanup_generation :
    StableId → StableId → ProcessGeneration → BootstrapDeadlinesV1 → bool →
    S → S * result WatchdogFailureV1 ProcessTreeCleanupV1;
  hp_launch_and_watch :
    GenerationLaunchSpecV1 → S → S * result WatchdogFailureV1 GenerationWatchdogSuccessV1;
  hp_stable_launcher_notice : ManualRecoveryNoticeV1 → S → S
}.
Arguments hp_reverify_opened_slot {S}.
Arguments hp_mark_candidate_activated_verified {S}.
Arguments hp_materialize_immutable_slot {S}.
Arguments hp_set_initial_active {S}.
Arguments hp_observe_active_selector {S}.
Arguments hp_apply_candidate_selector {S}.
Arguments hp_restore_previous_selector {S}.
Arguments hp_verify_selector {S}.
Arguments hp_cleanup_generation {S}.
Arguments hp_launch_and_watch {S}.
Arguments hp_stable_launcher_notice {S}.

(** A call that acts on the platform, with its answer. *)
Inductive platform_call : Type :=
| PcCleanup (generation : ProcessGeneration)
    (answer : result WatchdogFailureV1 ProcessTreeCleanupV1)
| PcApplyCandidate (plan : ActivationPlanV1) (phase : BootstrapPhaseV1)
    (answer : result ProfileError SelectorMutationReceiptV1)
| PcRestorePrevious (plan : ActivationPlanV1) (phase : BootstrapPhaseV1)
    (answer : result ProfileError SelectorMutationReceiptV1)
| PcLaunch (spec : GenerationLaunchSpecV1)
    (answer : result WatchdogFailureV1 GenerationWatchdogSuccessV1)
| PcMarkVerified (answer : result BuildSlotError ())
| PcNotice (notice : ManualRecoveryNoticeV1).

(** [co_flight] is the coordinator's mutex. *)
Record CoordinatorState (S : Type) : Type := MkCoordinatorState {
  co_journal : ActivationJournal;
  co_env : S;
  co_trace : list (platform_call * JournalRoot);
  co_flight : bool
}.
Arguments MkCoordinatorState {S}.
Arguments co_journal {S}.
Arguments co_env {S}.
Arguments co_trace {S}.
Arguments co_flight {S}.

Definition rollback_key : Type := StableId * string * string * N.
Definition enrollment_key : Type :=
  ManagedLocalEnrollmentRequestV1 * EnrollmentPlanV1 * string * string.
Class HelperSerialize : Type := {
  hs_label :: Serialize (StableId * string);
  hs_flagged :: Serialize (bool * string);
  hs_watchdog :: Serialize (bool * option string);
  hs_text :: Serialize string;
  hs_selector :: Serialize (result string ActiveSelectorObservationV1);
  hs_rollback :: Serialize rollback_key;
  hs_enrollment_plan :: Serialize EnrollmentPlanV1;
  hs_enrollment :: Serialize enrollment_key
}.

(** ** Observations *)

Definition watchdog_observation (r : result WatchdogFailureV1 GenerationWatchdogSuccessV1) :
    bool * option string :=
  match r with Ok _ => (true, None) | Err f => (false, Some (wdf_reason_code f)) end.
Definition cleanup_observation (r : result WatchdogFailureV1 ProcessTreeCleanupV1) : bool * string :=
  match r with Ok proof => (true, ptc_proof_hash proof) | Err f => (false, wdf_reason_code f) end.
Definition selector_observation (r : result ProfileError SelectorMutationReceiptV1) : bool * string :=
  match r with
  | Ok receipt => (true, smr_receipt_hash receipt) | Err e => (false, profile_error_text e)
  end.
Definition selector_state_observation (r : result ProfileError ActiveSelectorObservationV1) :
    bool * string :=
  match r with
  | Ok o => (true, aso_observation_hash o) | Err e => (false, profile_error_text e)
  end.

Definition slot_effect (current target : VerifiedBuildSlotV1) (capability_generation : N)
    (process_generation : ProcessGeneration) : BootstrapEffectV1 :=
  MkEffect (vbs_build_content_hash current) (vbs_build_content_hash target) capability_generation
    process_generation "".
Definition with_observation (hash : string) (e : BootstrapEffectV1) : BootstrapEffectV1 :=
  MkEffect (bef_current_slot_hash e) (bef_target_slot_hash e) (bef_capability_generation e)
    (bef_process_generation e) hash.
(** The selector points at [slot]. *)
Definition selects (o : ActiveSelectorObservationV1) (slot : VerifiedBuildSlotV1) : bool :=
  aso_selected_build_content_hash o ≟ vbs_build_content_hash slot.
Definition selects_root (o : ActiveSelectorObservationV1) (slot : VerifiedBuildSlotV1) : bool :=
  selects o slot && (aso_selected_root_identity_hash o ≟ vbs_root_identity_hash slot).

Definition launch_spec (execution : ActivationExecutionV1) (baton : BatonAcceptedV1)
    (role : GenerationRoleV1) (slot : VerifiedBuildSlotV1) (selector : ActiveSelectorObservationV1)
    (cleanup : ProcessTreeCleanupV1) (attempt_id : StableId) : GenerationLaunchSpecV1 :=
  let '(generation, prior) :=
    match role with
    | GrCandidate => (bac_candidate_process_generation baton, bac_current_process_generation baton)
    | GrPrevious => (bac_rollback_process_generation baton, bac_candidate_process_generation baton)
    end in
  MkLaunchSpec (bac_activation_id baton) attempt_id role (aex_installation_id execution)
    (bac_enrollment_digest baton) (bac_capability_generation baton) (bac_capability_digest baton)
    (bac_verification_plan_hash baton) (aex_verification_plan execution) generation prior slot
    selector cleanup (aex_helper_detached_and_surviving execution) (bac_deadlines baton).

(** ** The coordinator *)

Section coordinator.
Context `{Sha256, RepairSerialize, JournalSerialize, HelperSerialize}.
Context {S : Type} (ports : HelperPorts S).
Abbreviation co := (stm (CoordinatorState S) CoordinatorError).

Definition on_journal {A} (m : hj A) : co A := λ w,
  let '(j, r) := m (co_journal w) in
  (MkCoordinatorState j (co_env w) (co_trace w) (co_flight w), map_err CoJournal r).
(** A call that observes the platform, and one that acts on it. *)
Definition probe {A} (f : S → S * A) : co A := λ w,
  let '(s, a) := f (co_env w) in
  (MkCoordinatorState (co_journal w) s (co_trace w) (co_flight w), Ok a).
Definition act {A} (f : S → S * A) (call : A → platform_call) : co A := λ w,
  let '(s, a) := f (co_env w) in
  (MkCoordinatorState (co_journal w) s (co_trace w ++ [(call a, aj_root (co_journal w))]) (co_flight w),
   Ok a).

Definition co_state (activation_id : StableId) : co BootstrapRecoveryStateV1 :=
  state ← on_journal (load_activation_recovery activation_id);
  lift (ok_or state CoMissingJournal).
Definition co_advance (activation_id : StableId) (next_phase : BootstrapPhaseV1) : co () :=
  state ← co_state activation_id;
  _ ← on_journal (advance_phase (MkPhaseAdvance activation_id (brs_head_ordinal state + 1)
        (brs_phase state) next_phase));
  mret ().
Definition co_intent (activation_id : StableId) (effect : BootstrapEffectV1) : co () :=
  state ← co_state activation_id;
  _ ← on_journal (append_effect_intent (MkBootstrapMutation activation_id (brs_head_ordinal state + 1)
        (brs_phase state) effect));
  mret ().
Definition co_observe {T} `{Serialize T} (activation_id : StableId) (effect : BootstrapEffectV1)
    (observation : T) : co () :=
  hash ← on_journal (lift (canonical_hash observation));
  state ← co_state activation_id;
  _ ← on_journal (append_observed_effect (MkBootstrapMutation activation_id
        (brs_head_ordinal state + 1) (brs_phase state) (with_observation hash effect)));
  mret ().

(** [&hash[7..31]] is in the digits of the hash. *)
Definition co_stable_id (activation_id : StableId) (label : string) : co StableId :=
  hash ← on_journal (lift (canonical_hash (activation_id, label)));
  lift (map_err (λ _, CoFence "derived stable id")
          (StableId_parse ("bootstrap." +:+ label +:+ "." +:+ String.substring 7 24 hash))).

Definition validate_execution (execution : ActivationExecutionV1) (baton : BatonAcceptedV1) :
    result CoordinatorError () :=
  let plan := aex_plan execution in
  fail_if ((apl_activation_id plan ≠? bac_activation_id baton)
    || (apl_capability_generation plan ≠? bac_capability_generation baton)
    || (apl_capability_digest plan ≠? bac_capability_digest baton)
    || (vbs_build_content_hash (apl_candidate plan) ≠? bac_candidate_slot_hash baton)
    || (vbs_build_content_hash (apl_previous plan) ≠? bac_previous_slot_hash baton)
    || (apl_current_process_generation plan ≠? bac_current_process_generation baton)
    || (apl_candidate_process_generation plan ≠? bac_candidate_process_generation baton)
    || (apl_rollback_process_generation plan ≠? bac_rollback_process_generation baton)
    || (apl_deadlines plan ≠? bac_deadlines baton)
    || (aex_management_checkpoint_id execution ≠? bac_management_checkpoint_id baton)
    || (fvp_plan_hash (aex_verification_plan execution) ≠? bac_verification_plan_hash baton)
    || negb (match focused_verification_plan_hash_v1 (aex_verification_plan execution) with
             | Ok hash => hash ≟ bac_verification_plan_hash baton
             | Err _ => false
             end)
    || negb (aex_helper_detached_and_surviving execution))
    (CoFence "execution differs from durable baton").

Definition reverify_slot (slot : VerifiedBuildSlotV1) : co () :=
  observed ← probe (hp_reverify_opened_slot ports (vbs_handle slot));
  observed ← lift (map_err CoSlot observed);
  reject_if (observed ≠? slot) (CoFence "slot identity drift").
Definition reverify_plan (plan : ActivationPlanV1) : co () :=
  _ ← reverify_slot (apl_current plan);
  _ ← reverify_slot (apl_candidate plan);
  _ ← reverify_slot (apl_previous plan);
  selector ← probe (hp_verify_selector ports plan (vbs_handle (apl_current plan)));
  _ ← lift (map_err CoSelector selector);
  mret ().

Definition co_receipt (execution : ActivationExecutionV1) (baton : BatonAcceptedV1)
    (recipient : ProcessGeneration) (result : BootstrapResultKindV1) (label : string) :
    co BootstrapResultV1 :=
  receipt_id ← co_stable_id (bac_activation_id baton) label;
  let unhashed := MkBootstrapResult 1 receipt_id (bac_activation_id baton) (bac_baton_hash baton)
    (aex_management_checkpoint_id execution) recipient (aex_sealed_at_epoch_ms execution) result "" in
  hash ← lift (map_err (λ _, CoJournal BjEncoding) (bootstrap_result_hash_v1 unhashed));
  mret (MkBootstrapResult 1 receipt_id (bac_activation_id baton) (bac_baton_hash baton)
    (aex_management_checkpoint_id execution) recipient (aex_sealed_at_epoch_ms execution) result hash).
Definition co_seal (receipt : BootstrapResultV1) : co BootstrapResultV1 :=
  _ ← on_journal (store_bootstrap_result receipt);
  _ ← on_journal seal_terminal;
  mret receipt.

Definition unsupported (execution : ActivationExecutionV1) (baton : BatonAcceptedV1)
    (aborted : bool) (code : string) : co BootstrapResultV1 :=
  _ ← co_advance (bac_activation_id baton) (if aborted then BpAbortedBeforeSwitch else BpUnsupported);
  result ← co_receipt execution baton (bac_current_process_generation baton)
    (BrUnsupported (MkPlatformReason code "Activation stopped before the selector changed."
       ["Continue using the current verified build."])) "unsupported";
  co_seal result.

(** [observed] is the value whose hash the notice and the receipt carry. *)
Definition manual {T} `{Serialize T} (execution : ActivationExecutionV1) (baton : BatonAcceptedV1)
    (reason : ReasonCodeV1) (observed : T) : co BootstrapResultV1 :=
  let id := bac_activation_id baton in
  state ← co_state id;
  _ ← (if brs_phase state ≠? BpManualRecoveryRequired then co_advance id BpManualRecoveryRequired
       else mret ());
  observed_slot_state_hash ← on_journal (lift (canonical_hash observed));
  diagnostic_id ← co_stable_id id "diagnostic";
  let instructions := ["Exit all application processes.";
    "Start the application only through the stable launcher.";
    "Preserve the diagnostic identifier for support."] in
  notice_id ← co_stable_id id "notice";
  let notice := MkNotice notice_id id reason observed_slot_state_hash diagnostic_id instructions in
  _ ← on_journal (store_manual_recovery_notice notice);
  _ ← act (λ s, (hp_stable_launcher_notice ports notice s, ())) (λ _, PcNotice notice);
  result ← co_receipt execution baton (bac_rollback_process_generation baton)
    (BrManualRecoveryRequired diagnostic_id observed_slot_state_hash instructions) "manual";
  co_seal result.

Definition rollback_evidence (baton : BatonAcceptedV1) : co RepairArtifactRefV1 :=
  content_hash ← on_journal (lift (canonical_hash ((bac_activation_id baton,
    bac_candidate_slot_hash baton, bac_previous_slot_hash baton,
    bac_rollback_process_generation baton) : rollback_key)));
  artifact_id ← co_stable_id (bac_activation_id baton) "rollback-evidence";
  mret (MkRepairArtifact artifact_id content_hash 1
    "application/vnd.aworkit.bootstrap-rollback+json" "bootstrap-rollback-evidence.json").

Definition cleanup (baton : BatonAcceptedV1) (label : string) (generation : ProcessGeneration)
    (rollback_required : bool) : co (result WatchdogFailureV1 ProcessTreeCleanupV1) :=
  attempt_id ← co_stable_id (bac_activation_id baton) label;
  act (hp_cleanup_generation ports (bac_activation_id baton) attempt_id generation
         (bac_deadlines baton) rollback_required) (PcCleanup generation).

(** The selector as [rollback] finds or makes it. *)
Definition restore_selector (plan : ActivationPlanV1) :
    co (result ProfileError ActiveSelectorObservationV1) :=
  before ← probe (hp_observe_active_selector ports plan);
  match before with
  | Ok observation =>
      if selects_root observation (apl_previous plan) then mret (Ok observation)
      else if selects_root observation (apl_candidate plan) then
        restored ← act (hp_restore_previous_selector ports plan BpRollingBack)
                       (PcRestorePrevious plan BpRollingBack);
        mret (smr_after <$> restored)
      else mret (Err PeAmbiguousSelector)
  | Err error => mret (Err error)
  end.

(** The second half of [rollback]: the previous build is selected again. *)
Definition relaunch_previous (execution : ActivationExecutionV1) (baton : BatonAcceptedV1)
    (reason : string) (restored : ActiveSelectorObservationV1) (proof : ProcessTreeCleanupV1) :
    co BootstrapResultV1 :=
  let id := bac_activation_id baton in
  let plan := aex_plan execution in
  _ ← co_advance id BpPreviousSelected;
  let launch_effect := slot_effect (apl_previous plan) (apl_previous plan)
    (bac_capability_generation baton) (bac_rollback_process_generation baton) in
  _ ← co_intent id launch_effect;
  attempt_id ← co_stable_id id "rollback-launch";
  let spec := launch_spec execution baton GrPrevious (apl_previous plan) restored proof attempt_id in
  launch ← act (hp_launch_and_watch ports spec) (PcLaunch spec);
  _ ← co_observe id launch_effect (watchdog_observation launch);
  _ ← co_advance id BpPreviousRelaunching;
  match launch with
  | Ok (GwPreviousHealthy _ _ _) =>
      _ ← co_advance id BpRolledBack;
      evidence ← rollback_evidence baton;
      result ← co_receipt execution baton (bac_rollback_process_generation baton)
        (BrRolledBack reason [evidence]) "rollback";
      co_seal result
  | _ => manual execution baton RcRollbackFailure (watchdog_observation launch)
  end.

Definition rollback (execution : ActivationExecutionV1) (baton : BatonAcceptedV1)
    (reason : string) : co BootstrapResultV1 :=
  let id := bac_activation_id baton in
  let plan := aex_plan execution in
  state ← co_state id;
  _ ← (if brs_phase state ≠? BpRollingBack then co_advance id BpRollingBack else mret ());
  let cleanup_effect := slot_effect (apl_candidate plan) (apl_previous plan)
    (bac_capability_generation baton) (bac_candidate_process_generation baton) in
  _ ← co_intent id cleanup_effect;
  cleaned ← cleanup baton "candidate-cleanup" (bac_candidate_process_generation baton) true;
  _ ← co_observe id cleanup_effect (cleanup_observation cleaned);
  match cleaned with
  | Err failure => manual execution baton RcGenerationProofMissing (wdf_reason_code failure)
  | Ok proof =>
      let restore_effect := slot_effect (apl_candidate plan) (apl_previous plan)
        (bac_capability_generation baton) (bac_rollback_process_generation baton) in
      _ ← co_intent id restore_effect;
      restored ← restore_selector plan;
      _ ← co_observe id restore_effect (selector_state_observation restored);
      match restored with
      | Err error => manual execution baton RcAmbiguousSelectorState (profile_error_text error)
      | Ok observation =>
          reverified ← probe (hp_reverify_opened_slot ports (vbs_handle (apl_previous plan)));
          match reverified with
          | Err error => manual execution baton RcOwnershipLost (slot_error_text error)
          | Ok _ =>
              verified ← probe (hp_verify_selector ports plan (vbs_handle (apl_previous plan)));
              match verified with
              | Err error =>
                  manual execution baton RcAmbiguousSelectorState (profile_error_text error)
              | Ok _ => relaunch_previous execution baton reason observation proof
              end
          end
      end
  end.

(** The last part of [execute_locked]: the candidate is selected. *)
Definition launch_candidate (execution : ActivationExecutionV1) (baton : BatonAcceptedV1)
    (selected : ActiveSelectorObservationV1) (proof : ProcessTreeCleanupV1) : co BootstrapResultV1 :=
  let id := bac_activation_id baton in
  let plan := aex_plan execution in
  _ ← co_advance id BpCandidateSelected;
  let launch_effect := slot_effect (apl_candidate plan) (apl_candidate plan)
    (bac_capability_generation baton) (bac_candidate_process_generation baton) in
  _ ← co_intent id launch_effect;
  attempt_id ← co_stable_id id "candidate-launch";
  let spec := launch_spec execution baton GrCandidate (apl_candidate plan) selected proof attempt_id in
  launch ← act (hp_launch_and_watch ports spec) (PcLaunch spec);
  _ ← co_observe id launch_effect (watchdog_observation launch);
  _ ← co_advance id BpCandidateLaunching;
  match launch with
  | Ok (GwCandidateVerified _ _ _ verification) =>
      _ ← co_advance id BpAwaitingCandidateIdentity;
      _ ← co_advance id BpCandidateVerifying;
      _ ← co_advance id BpVerified;
      result ← co_receipt execution baton (bac_candidate_process_generation baton)
        (BrActivatedVerified (fvr_focused_verification verification)) "verified";
      _ ← on_journal (store_bootstrap_result result);
      marked ← act (hp_mark_candidate_activated_verified ports) PcMarkVerified;
      _ ← lift (map_err CoSlot marked);
      _ ← on_journal seal_terminal;
      mret result
  | _ => rollback execution baton "candidate verification failed"
  end.

(** From the switch of the selector on. *)
Definition switch_selector (execution : ActivationExecutionV1) (baton : BatonAcceptedV1)
    (proof : ProcessTreeCleanupV1) : co BootstrapResultV1 :=
  let id := bac_activation_id baton in
  let plan := aex_plan execution in
  let switch_effect := slot_effect (apl_current plan) (apl_candidate plan)
    (bac_capability_generation baton) (bac_candidate_process_generation baton) in
  _ ← co_intent id switch_effect;
  switched ← act (hp_apply_candidate_selector ports plan BpQuiescingCurrent)
                 (PcApplyCandidate plan BpQuiescingCurrent);
  _ ← co_observe id switch_effect (selector_observation switched);
  match switched with
  | Ok selected => launch_candidate execution baton (smr_after selected) proof
  | Err error =>
      observed ← probe (hp_observe_active_selector ports plan);
      if match observed with Ok value => selects value (apl_current plan) | Err _ => false end
      then unsupported execution baton true "candidate_selector_not_applied"
      else
        _ ← co_advance id BpCandidateSelected;
        rollback execution baton (profile_error_text error)
  end.

Definition execute_locked (execution : ActivationExecutionV1) : co BootstrapResultV1 :=
  let plan := aex_plan execution in
  state ← co_state (apl_activation_id plan);
  match brs_terminal state with
  | Some terminal => mret terminal
  | None =>
      baton ← lift (ok_or (brs_baton state) CoMissingBaton);
      _ ← lift (validate_execution execution baton);
      _ ← reject_if (brs_phase state ≠? BpBatonDurable) (CoFence "activation is not ready to execute");
      reverified ← caught (reverify_plan plan);
      if is_err reverified
      then unsupported execution baton false "activation_precondition_changed"
      else
        let id := bac_activation_id baton in
        _ ← co_advance id BpSlotsVerified;
        _ ← co_advance id BpQuiescingCurrent;
        let cleanup_effect := slot_effect (apl_current plan) (apl_candidate plan)
          (bac_capability_generation baton) (bac_current_process_generation baton) in
        _ ← co_intent id cleanup_effect;
        cleaned ← cleanup baton "current-cleanup" (bac_current_process_generation baton) false;
        _ ← co_observe id cleanup_effect (cleanup_observation cleaned);
        match cleaned with
        | Err _ => unsupported execution baton true "current_cleanup_unproven"
        | Ok proof => switch_selector execution baton proof
        end
  end.

(** ** Recovery *)

Definition reconcile_cleanup (baton : BatonAcceptedV1) (effect : BootstrapEffectV1) (label : string)
    (generation : ProcessGeneration) (rollback_required : bool) : co () :=
  cleaned ← cleanup baton label generation rollback_required;
  co_observe (bac_activation_id baton) effect (cleanup_observation cleaned).
Definition reconcile_open_effect (execution : ActivationExecutionV1) (baton : BatonAcceptedV1)
    (phase : BootstrapPhaseV1) (effect : BootstrapEffectV1) : co () :=
  if (phase ≟ BpQuiescingCurrent)
     && (bef_process_generation effect ≟ bac_current_process_generation baton)
  then reconcile_cleanup baton effect "recover-current-cleanup"
         (bac_current_process_generation baton) false
  else if match phase with
          | BpCandidateSelected | BpCandidateLaunching | BpAwaitingCandidateIdentity
          | BpCandidateVerifying => true
          | BpRollingBack =>
              bef_process_generation effect ≟ bac_candidate_process_generation baton
          | _ => false
          end
  then reconcile_cleanup baton effect "recover-candidate-cleanup"
         (bac_candidate_process_generation baton) true
  else if match phase with BpPreviousSelected | BpPreviousRelaunching => true | _ => false end
  then reconcile_cleanup baton effect "recover-rollback-cleanup"
         (bac_rollback_process_generation baton) true
  else
    selector ← probe (hp_observe_active_selector ports (aex_plan execution));
    co_observe (bac_activation_id baton) effect (selector_state_observation selector).

(** The last part of [recover_locked]: what the selector says decides. *)
Definition resolve_recovery (execution : ActivationExecutionV1) (baton : BatonAcceptedV1) :
    co BootstrapResultV1 :=
  let plan := aex_plan execution in
  observed ← probe (hp_observe_active_selector ports plan);
  let ambiguous := manual execution baton RcAmbiguousSelectorState
                     (map_err profile_error_text observed) in
  match observed with
  | Ok value =>
      if selects value (apl_current plan)
      then unsupported execution baton true "recovered_before_switch"
      else if selects value (apl_candidate plan) || selects value (apl_previous plan)
      then rollback execution baton "recovered incomplete activation"
      else ambiguous
  | Err _ => ambiguous
  end.
Definition recover_locked (activation_id : StableId) (execution : option ActivationExecutionV1) :
    co BootstrapResultV1 :=
  state ← co_state activation_id;
  match brs_terminal state with
  | Some terminal => mret terminal
  | None =>
      execution ← lift (ok_or execution CoMissingRecoveryContext);
      baton ← lift (ok_or (brs_baton state) CoMissingBaton);
      _ ← lift (validate_execution execution baton);
      match brs_phase state with
      | BpRolledBack =>
          evidence ← rollback_evidence baton;
          result ← co_receipt execution baton (bac_rollback_process_generation baton)
            (BrRolledBack "recovered completed rollback" [evidence]) "rollback";
          co_seal result
      | BpUnsupported | BpAbortedBeforeSwitch =>
          result ← co_receipt execution baton (bac_current_process_generation baton)
            (BrUnsupported (MkPlatformReason "recovered_pre_switch_terminal"
               "Activation previously stopped before a verified switch."
               ["Continue using the current verified build."])) "unsupported";
          co_seal result
      | BpManualRecoveryRequired =>
          notice ← lift (ok_or (brs_manual_recovery state) CoMissingRecoveryContext);
          result ← co_receipt execution baton (bac_rollback_process_generation baton)
            (BrManualRecoveryRequired (mrn_diagnostic_id notice)
               (mrn_observed_slot_state_hash notice) (mrn_instructions notice)) "manual";
          co_seal result
      | phase =>
          _ ← match brs_open_effect state with
              | Some effect => reconcile_open_effect execution baton phase effect
              | None => mret ()
              end;
          again ← co_state activation_id;
          _ ← (if brs_phase again ≠? BpRecovering then co_advance activation_id BpRecovering
               else mret ());
          resolve_recovery execution baton
      end
  end.

(** [flight.try_lock()]; the guard is dropped when the call returns. *)
Definition in_flight {A} (m : co A) : co A := λ w,
  if co_flight w then (w, Err CoBusy) else
  let '(w, r) := m (MkCoordinatorState (co_journal w) (co_env w) (co_trace w) true) in
  (MkCoordinatorState (co_journal w) (co_env w) (co_trace w) false, r).
Definition execute_activation (execution : ActivationExecutionV1) : co BootstrapResultV1 :=
  in_flight (execute_locked execution).
Definition recover_activation (activation_id : StableId) (execution : option ActivationExecutionV1) :
    co BootstrapResultV1 :=
  in_flight (recover_locked activation_id execution).

(** ** Enrollment *)

(** [materialize] reports a failure as text; here it keeps the error, or the
    text the function makes itself. *)
Inductive MaterializeError : Type :=
| MeText (text : string)
| MeCoordinator (error : CoordinatorError)
| MeSlot (error : BuildSlotError)
| MeJournal (error : BootstrapJournalError).
Abbreviation mt := (stm (CoordinatorState S) MaterializeError).
Definition on_coordinator {A} (m : co A) : mt A := λ w,
  let '(w, r) := m w in (w, map_err MeCoordinator r).
Definition on_slots {A} (f : S → S * result BuildSlotError A) : mt A := λ w,
  let '(s, a) := f (co_env w) in
  (MkCoordinatorState (co_journal w) s (co_trace w) (co_flight w), map_err MeSlot a).
Definition materialize (request : ManagedLocalEnrollmentRequestV1) (plan : EnrollmentPlanV1) :
    mt EnrollmentPreparationV1 :=
  w ← read;
  _ ← reject_if (co_flight w) (MeCoordinator CoBusy);
  _ ← reject_if (match canonical_hash (clear_plan_hash plan) with
                 | Ok hash => hash ≠? epl_plan_hash plan
                 | Err _ => true
                 end) (MeText "enrollment plan hash is invalid");
  let provenance := MkBuildProvenance "projected" (mer_projected_provenance_hash request)
    "managed-local-enrollment" "projected" (mer_candidate_hash request)
    (mer_projected_provenance_hash request) in
  slot ← on_slots (hp_materialize_immutable_slot ports (mer_whole_bundle request) provenance);
  _ ← reject_if ((vbs_build_content_hash slot ≠? mer_candidate_hash request)
                 || (vbs_root_identity_hash slot ≠? epl_initial_active_slot_root_hash plan))
        (MeText "materialized enrollment slot does not match its fixed plan");
  _ ← on_slots (hp_set_initial_active ports slot);
  enrollment_digest ← lift (map_err MeJournal (canonical_hash ((request, plan,
    vbs_build_content_hash slot, vbs_root_identity_hash slot) : enrollment_key)));
  preparation_id ← on_coordinator (co_stable_id (mer_request_id request) "enrollment");
  mret (MkEnrollmentPreparation
    (MkEnrollmentObservation (vbs_build_content_hash slot) true)
    (MkEnrollmentPrepared preparation_id (mer_request_id request) enrollment_digest
       "managed-local-stable-launcher"
       ["Close the current source-checkout application.";
        "Restart through the stable managed-local launcher."])).
End coordinator.
