(* ===== verification/HelperCoordinatorProofs.v ===== *)
(** * What an activation does, and how it ends

    The history of an activation is the journal and the calls the coordinator
    made on the platform.  [helper_inv] relates the two, whatever the ports
    answer and wherever a run stops: each call was made under its journaled
    intent, each launch after a proven cleanup, and a phase or a receipt says
    no more than the watchdog reported. *)
From S2P Require Export HelperJournalTheorems HelperCoordinator.

Local Open Scope repair_scope.

(** ** The invariant *)

Definition trace : Type := list (platform_call * JournalRoot).

(** The generations whose effect may be open in a phase. *)
Definition pending_generations (baton : BatonAcceptedV1) (phase : BootstrapPhaseV1) : list ProcessGeneration :=
  match phase with
  | BpQuiescingCurrent => [bac_current_process_generation baton; bac_candidate_process_generation baton]
  | BpCandidateSelected => [bac_candidate_process_generation baton]
  | BpRollingBack => [bac_candidate_process_generation baton; bac_rollback_process_generation baton]
  | BpPreviousSelected => [bac_rollback_process_generation baton]
  | _ => []
  end.

(** The proof a launch presents was the watchdog's answer to the cleanup of the
    generation before. *)
Definition cleaned_in (t : trace) (generation : ProcessGeneration) (proof : ProcessTreeCleanupV1) : Prop :=
  ∃ root, (PcCleanup generation (Ok proof), root) ∈ t.
Definition verified_in (baton : BatonAcceptedV1) (t : trace) (evidence : FocusedVerificationEvidenceV1) : Prop :=
  ∃ spec launch handshake health verification root,
    (PcLaunch spec (Ok (GwCandidateVerified launch handshake health verification)), root) ∈ t
    ∧ gls_role spec = GrCandidate ∧ gls_process_generation spec = bac_candidate_process_generation baton
    ∧ fvr_focused_verification verification = evidence.
Definition healthy_in (baton : BatonAcceptedV1) (t : trace) : Prop :=
  ∃ spec launch handshake health root,
    (PcLaunch spec (Ok (GwPreviousHealthy launch handshake health)), root) ∈ t
    ∧ gls_role spec = GrPrevious ∧ gls_process_generation spec = bac_rollback_process_generation baton.

(** When the journal [v], after the calls [t], entitles the coordinator to a
    call. *)
Definition call_justified (baton : BatonAcceptedV1) (t : trace) (call : platform_call) (v : root_view) : Prop :=
  let phase := derive_bootstrap_phase (jv_records v) in
  let open_on slot target generation :=
    open_effect (jv_records v) = Some (slot_effect slot target (bac_capability_generation baton) generation) in
  match call with
  | PcCleanup generation _ => ∃ e, open_effect (jv_records v) = Some e ∧ bef_process_generation e = generation
  | PcApplyCandidate plan _ _ =>
      phase = BpQuiescingCurrent
      ∧ open_on (apl_current plan) (apl_candidate plan) (bac_candidate_process_generation baton)
      ∧ ∃ proof, cleaned_in t (bac_current_process_generation baton) proof
  | PcRestorePrevious plan _ _ =>
      phase = BpRollingBack
      ∧ open_on (apl_candidate plan) (apl_previous plan) (bac_rollback_process_generation baton)
      ∧ ∃ proof, cleaned_in t (bac_candidate_process_generation baton) proof
  | PcLaunch spec _ =>
      open_on (gls_slot spec) (gls_slot spec) (gls_process_generation spec)
      ∧ cleaned_in t (gls_expected_prior_process_generation spec) (gls_prior_cleanup spec)
      ∧ match gls_role spec with
        | GrCandidate => phase = BpCandidateSelected
            ∧ gls_process_generation spec = bac_candidate_process_generation baton
            ∧ gls_expected_prior_process_generation spec = bac_current_process_generation baton
        | GrPrevious => phase = BpPreviousSelected
            ∧ gls_process_generation spec = bac_rollback_process_generation baton
            ∧ gls_expected_prior_process_generation spec = bac_candidate_process_generation baton
        end
  | PcMarkVerified _ =>
      ∃ s evidence, jv_receipt v = Some (TrBootstrapResult s)
        ∧ bsr_result (bts_receipt s) = BrActivatedVerified evidence ∧ verified_in baton t evidence
  | PcNotice n => jv_notice v = Some n
  end.
Definition trace_justified (baton : BatonAcceptedV1) (t : trace) : Prop :=
  ∀ t1 call root t2, t = t1 ++ (call, root) :: t2 → ∃ v, stored_as root v ∧ call_justified baton t1 call v.

(** What a receipt claims happened. *)
Definition result_backed (baton : BatonAcceptedV1) (t : trace) (kind : BootstrapResultKindV1) : Prop :=
  match kind with
  | BrActivatedVerified evidence => verified_in baton t evidence
  | BrRolledBack _ _ => healthy_in baton t
  | _ => True
  end.

Section inv.
Context `{Sha256, RepairSerialize, JournalSerialize}.
Variable baton : BatonAcceptedV1.
Abbreviation id := (bac_activation_id baton).

Definition helper_phase (phase : BootstrapPhaseV1) : Prop :=
  phase ≠ BpIdle ∧ phase ≠ BpAdmittingBaton ∧ phase ≠ BpResultAvailable.
Record helper_inv (v : root_view) (t : trace) : Prop := {
  hi_sound : journal_sound v;
  hi_ready : ready_for id v;
  hi_baton : head (omap accepted_baton (jv_records v)) = Some baton;
  hi_phase : helper_phase (derive_bootstrap_phase (jv_records v));
  hi_open : ∀ e, open_effect (jv_records v) = Some e →
    bef_process_generation e ∈ pending_generations baton (derive_bootstrap_phase (jv_records v));
  hi_sealed : ∀ x, jv_receipt v = Some x → ∃ s, x = TrBootstrapResult s ∧ seal_over (bts_receipt s) v s
    ∧ bsr_activation_id (bts_receipt s) = id ∧ result_backed baton t (bsr_result (bts_receipt s));
  hi_verified : derive_bootstrap_phase (jv_records v) = BpVerified → ∃ evidence, verified_in baton t evidence;
  hi_rolled : derive_bootstrap_phase (jv_records v) = BpRolledBack → healthy_in baton t;
  hi_trace : trace_justified baton t
}.

Lemma verified_in_app t t' x : verified_in baton t x → verified_in baton (t ++ t') x.
Proof. unfold verified_in. set_solver. Qed.
Lemma healthy_in_app t t' : healthy_in baton t → healthy_in baton (t ++ t').
Proof. unfold healthy_in. set_solver. Qed.
Lemma result_backed_app t t' kind : result_backed baton t kind → result_backed baton (t ++ t') kind.
Proof. destruct kind; cbn; [done|apply verified_in_app|apply healthy_in_app|done]. Qed.
Lemma trace_justified_snoc t call root v :
  trace_justified baton t → stored_as root v → call_justified baton t call v →
  trace_justified baton (t ++ [(call, root)]).
Proof.
  intros Ht Hs Hc t1 call' root' t2 Heq. destruct t2 as [|x t2 _] using rev_ind.
  - apply app_inj_tail in Heq as [-> Heq]. simplify_eq. by exists v.
  - rewrite app_comm_cons, app_assoc in Heq. apply app_inj_tail in Heq as [-> _]. by eapply Ht.
Qed.
(** A justified call keeps the invariant. *)
Lemma helper_inv_call v t call root :
  helper_inv v t → stored_as root v → call_justified baton t call v → helper_inv v (t ++ [(call, root)]).
Proof.
  intros [] Hs Hc. split; try done.
  - intros x Hx. destruct (hi_sealed0 x Hx) as (s & -> & ? & ? & ?). exists s. split_and!; try done.
    by apply result_backed_app.
  - intros Hp. destruct (hi_verified0 Hp) as [x ?]. exists x. by apply verified_in_app.
  - intros Hp. by apply healthy_in_app, hi_rolled0.
  - by eapply trace_justified_snoc.
Qed.

(** What must hold of a phase for a chain to enter it. *)
Definition phase_backed (phase : BootstrapPhaseV1) (t : trace) : Prop :=
  helper_phase phase ∧ (phase = BpVerified → ∃ evidence, verified_in baton t evidence)
  ∧ (phase = BpRolledBack → healthy_in baton t).
Definition record_backed (v : root_view) (t : trace) (p : JournalRecordPayloadV1) : Prop :=
  match p with
  | JpPhaseAdvance phase => phase_backed phase t
  | JpEffectIntent e =>
      bef_process_generation e ∈ pending_generations baton (derive_bootstrap_phase (jv_records v))
  | JpObservedEffect _ | JpCommandAdmitted _ => True
  | _ => False
  end.
Lemma accepted_baton_app rs r b :
  head (omap accepted_baton rs) = Some b → head (omap accepted_baton (rs ++ [r])) = Some b.
Proof. rewrite omap_app. by destruct (omap accepted_baton rs). Qed.
Lemma ready_for_record v r p :
  ready_for id v → len (jv_records v) < MAX_JOURNAL_RECORDS → next_record (jv_records v) p = Ok r →
  (∀ h, payload_fits (JhActivation h) p = true) → ready_for id (with_record r v).
Proof.
  intros (h & Hh & Hv & Hid) Hlen Hr Hfit. exists h. split_and!; [done| |done]. by eapply verify_chain_snoc.
Qed.
Lemma helper_inv_record v t p r :
  helper_inv v t → jv_receipt v = None → len (jv_records v) < MAX_JOURNAL_RECORDS →
  legal_next (jv_records v) p → next_record (jv_records v) p = Ok r → record_backed v t p →
  helper_inv (with_record r v) t.
Proof.
  intros Hi Hnone Hlen Hl Hr Hb. destruct (next_record_spec _ _ _ Hr) as (_ & _ & Hp & _).
  assert (∀ h, payload_fits (JhActivation h) p = true) as Hfit by by destruct p.
  destruct Hi as [Hsound Hready Hbaton Hphase Hopen Hsealed Hver Hrol Htr]. split; cbn.
  - destruct Hready as (h & Hh & _). by eapply journal_sound_record; [..|right].
  - by eapply ready_for_record.
  - by apply accepted_baton_app.
  - rewrite derive_phase_snoc. unfold derive_bootstrap_phase_from. rewrite Hp. destruct p; try done. by destruct Hb.
  - rewrite derive_phase_snoc, open_effect_snoc. unfold derive_bootstrap_phase_from, open_effect_from. rewrite Hp.
    destruct p; try done; [by intros ? [= <-]|]. destruct Hl as [Ho _]. by rewrite Ho.
  - by rewrite Hnone.
  - rewrite derive_phase_snoc. unfold derive_bootstrap_phase_from. rewrite Hp. destruct p; try done. apply Hb.
  - rewrite derive_phase_snoc. unfold derive_bootstrap_phase_from. rewrite Hp. destruct p; try done. apply Hb.
  - done.
Qed.
Lemma helper_inv_notice v t n :
  helper_inv v t → jv_receipt v = None → jv_notice v = None → mrn_activation_id n = id →
  derive_bootstrap_phase (jv_records v) = BpManualRecoveryRequired → helper_inv (with_notice n v) t.
Proof.
  intros Hi Hnone Hn Hid Hp. destruct Hi as [Hsound Hready Hbaton Hphase Hopen Hsealed Hver Hrol Htr].
  split; try done; [|by cbn; rewrite Hnone].
  destruct Hready as (h & Hh & Hv & He). eapply journal_step_sound; [|done]. eapply step_notice; try done. congruence.
Qed.
Lemma helper_inv_result v t x s :
  helper_inv v t → result_admissible x v → seal_over x v s → result_backed baton t (bsr_result x) →
  bsr_activation_id x = id → helper_inv (with_receipt (TrBootstrapResult s) v) t.
Proof.
  intros Hi Hadm Hs Hb Hid. pose proof Hs as (Hx & _). destruct Hi as [Hsound Hready Hbaton Hphase Hopen Hsealed Hver Hrol Htr].
  split; try done; cbn.
  - eapply journal_step_sound; [by eapply result_step|done].
  - intros ? [= <-]. exists s. rewrite Hx. by split_and!.
Qed.
End inv.

(** ** The steps of a run *)

Definition Encodes (T : Type) `{Serialize T} : Prop := ∀ x : T, is_Some (jcs_to_vec x).
(** [serde_jcs] encodes what the helper hashes. *)
Class HelperEncodes `{RepairSerialize, JournalSerialize, HelperSerialize} : Prop := {
  he_result : Encodes result_key;
  he_record : Encodes record_key;
  he_seal : Encodes bootstrap_seal_key;
  he_notice : Encodes ManualRecoveryNoticeV1;
  he_label : Encodes (StableId * string);
  he_flagged : Encodes (bool * string);
  he_watchdog : Encodes (bool * option string);
  he_text : Encodes string;
  he_selector : Encodes (result string ActiveSelectorObservationV1);
  he_rollback : Encodes rollback_key
}.

Section steps.
Context `{Sha256, RepairSerialize, JournalSerialize, HelperSerialize}.
Context {S : Type} (ports : HelperPorts S) (baton : BatonAcceptedV1).
(** Whether the run is free of storage failures; then the encoders and the
    digest behave as documented. *)
Variable c : bool.
Hypothesis calm_encodes : c = true → HelperEncodes.
Hypothesis calm_sha : c = true → Sha256Laws.
Abbreviation id := (bac_activation_id baton).
Abbreviation co := (stm (CoordinatorState S) CoordinatorError).
Implicit Types (w : CoordinatorState S) (v : root_view).

(** The journal holds [v] with room for [n] more records. *)
Record at_view (v : root_view) (n : N) (w : CoordinatorState S) : Prop := {
  av_at : journal_at c true v (co_journal w);
  av_inv : helper_inv baton v (co_trace w);
  av_unsealed : jv_receipt v = None;
  av_room : c = true → len (jv_records v) + n ≤ MAX_JOURNAL_RECORDS
}.
Definition at_phase (phase : BootstrapPhaseV1) (open : option BootstrapEffectV1) (n : N)
    (w : CoordinatorState S) : Prop :=
  ∃ v, at_view v n w ∧ derive_bootstrap_phase (jv_records v) = phase
    ∧ open_effect (jv_records v) = open ∧ jv_notice v = None.
(** A run stopped: the invariant holds of what it left. *)
Definition stopped (w : CoordinatorState S) : Prop :=
  ∃ b v, journal_at c b v (co_journal w) ∧ helper_inv baton v (co_trace w).
Definition halted (e : CoordinatorError) (w : CoordinatorState S) : Prop := c = false ∧ stopped w.

Lemma calm_cases : c = true ∨ c = false.
Proof. destruct c; auto. Qed.
Lemma at_view_stopped v n w : at_view v n w → stopped w.
Proof. intros []. by exists true, v. Qed.
Lemma at_phase_stopped ph o n w : at_phase ph o n w → stopped w.
Proof. intros (v & Hv & _). by eapply at_view_stopped. Qed.

Definition on (w : CoordinatorState S) (j : ActivationJournal) : CoordinatorState S :=
  MkCoordinatorState j (co_env w) (co_trace w) (co_flight w).
Lemma wp_on_journal {A} (m : hj A) (Q : A → CoordinatorState S → Prop) X w :
  wp m (λ a j, Q a (on w j)) (λ e j, X (CoJournal e) (on w j)) (co_journal w) → wp (on_journal m) Q X w.
Proof. unfold wp, on_journal. by destruct (m (co_journal w)) as [j [a|e]]. Qed.
Lemma at_view_on v n w j : at_view v n w → journal_at c true v j → at_view v n (on w j).
Proof. intros [] Hj. by split. Qed.

Lemma head_ordinal_len v j : journal_at c true v j → jv_records v ≠ [] → head_ordinal (jv_records v) + 1 = len (jv_records v).
Proof.
  intros [[_ _ Hc _ _] _ _] Hne. destruct (jv_records v) as [|r rs _] using rev_ind; [done|].
  unfold head_ordinal. rewrite last_snoc. rewrite (Hc (length rs) r).
  - unfold len. rewrite length_app. cbn. lia.
  - by rewrite lookup_app_r, Nat.sub_diag.
Qed.
Lemma records_nonempty v t : helper_inv baton v t → jv_records v ≠ [].
Proof. intros [_ _ Hb _ _ _ _ _ _] He. by rewrite He in Hb. Qed.

(** What the journal reports of an activation that is not sealed. *)
Definition reported (v : root_view) (st : BootstrapRecoveryStateV1) : Prop :=
  brs_terminal st = None ∧ brs_phase st = derive_bootstrap_phase (jv_records v)
  ∧ brs_open_effect st = open_effect (jv_records v) ∧ brs_manual_recovery st = jv_notice v
  ∧ brs_baton st = Some baton ∧ brs_head_ordinal st + 1 = len (jv_records v).
Lemma wp_co_state v n (Q : BootstrapRecoveryStateV1 → CoordinatorState S → Prop) X w :
  at_view v n w →
  (∀ st j, reported v st → at_view v n (on w j) → Q st (on w j)) →
  (∀ e w', halted e w' → X e w') → wp (co_state id) Q X w.
Proof.
  intros Hw HQ HX. unfold co_state. apply wp_bind, wp_on_journal.
  destruct Hw as [Hj Hi Hn Hr]. pose proof (hi_ready _ _ _ Hi) as (h & Hh & Hv & Hid).
  assert (∃ st, recovery_of id v = Ok (Some st) ∧ reported v st) as (st & Hst & Hrep).
  { unfold recovery_of, terminal_of. rewrite Hh, Hn, Hid, bool_decide_eq_true_2, Hv by done. cbn.
    eexists. split; [done|]. split_and!; cbn; try done; [by apply Hi|].
    eapply head_ordinal_len; [done|by eapply records_nonempty]. }
  eapply wp_answers; [apply load_activation_recovery_answers|done|..].
  - intros a j Ha Hj'. rewrite Hst in Ha. simplify_eq. apply wp_lift; [|done].
    intros ? [= <-]. apply HQ; [done|]. by split.
  - intros e j He Hj'. apply HX. destruct calm_cases as [Hc|Hc]; [by rewrite He in Hst|].
    split; [done|]. exists true, v. by split.
Qed.

Lemma next_record_calm rs p : c = true → ∃ r, next_record rs p = Ok r.
Proof.
  intros Hc. unfold next_record, record_hash, canonical_hash. cbn [jrec_ordinal jrec_previous_record_hash jrec_payload].
  destruct (calm_encodes Hc) as [_ Hrec _ _ _ _ _ _ _ _].
  destruct (Hrec (len rs, jrec_record_hash <$> last rs, p)) as [x ->]. cbn. by eexists.
Qed.
Lemma canonical_hash_calm {T} `{Serialize T} (x : T) : Encodes T → ∃ hash, canonical_hash x = Ok hash.
Proof. intros He. unfold canonical_hash. destruct (He x) as [y ->]. cbn. by eexists. Qed.

(** An append of the coordinator, admitted in a calm run. *)
Lemma appended_view v n w p (P : Prop) j :
  at_view v (n + 1) w → (P → legal_next (jv_records v) p) → (P → len (jv_records v) < MAX_JOURNAL_RECORDS) →
  record_backed baton v (co_trace w) p → appended c v P p j → ∃ r, jrec_payload r = p ∧ at_view (with_record r v) n (on w j).
Proof.
  intros [Hj Hi Hn Hr] Hl Hlen Hb [HP (r & Hr' & Hj')]. exists r.
  destruct (next_record_spec _ _ _ Hr') as (_ & _ & Hp & _). split; [done|]. split; [done| |done|].
  - eapply helper_inv_record; eauto.
  - intros Hc. cbn. unfold len. rewrite length_app. specialize (Hr Hc). unfold len in Hr. cbn. lia.
Qed.
Lemma not_appended_halted v n w p (P : Prop) j :
  at_view v (n + 1) w → (P → legal_next (jv_records v) p) → (P → len (jv_records v) < MAX_JOURNAL_RECORDS) →
  (c = true → P) → record_backed baton v (co_trace w) p → not_appended c true v P p j → c = false ∧ stopped (on w j).
Proof.
  intros Hw Hl Hlen HP Hb [[Hj Hno]|(Hc & _ & Ha)].
  - destruct calm_cases as [Hc|Hc]; [|split; [done|]; exists true, v; split; [done|apply Hw]].
    destruct (next_record_calm (jv_records v) p Hc) as [r Hr]. by destruct (Hno Hc eq_refl (HP Hc) r).
  - split; [done|]. destruct (appended_view _ _ _ _ _ _ Hw Hl Hlen Hb Ha) as (r & _ & Hv). by eapply at_view_stopped.
Qed.

(** *** The journal, the platform and names *)

Lemma wp_appending v n (m : hj JournalDurableAckV1) (P : Prop) p (Q : () → CoordinatorState S → Prop) X w :
  at_view v (n + 1) w →
  wp m (λ _ j, true = true ∧ appended c v P p j) (λ _ j, not_appended c true v P p j) (co_journal w) →
  (P → legal_next (jv_records v) p) → (P → len (jv_records v) < MAX_JOURNAL_RECORDS) → (c = true → P) →
  record_backed baton v (co_trace w) p →
  (∀ r w', jrec_payload r = p → at_view (with_record r v) n w' → co_trace w' = co_trace w → Q () w') →
  (∀ e w', halted e w' → X e w') → wp (_ ← on_journal m; mret ()) Q X w.
Proof.
  intros Hw Hm Hl Hlen HP Hb HQ HX. apply wp_bind, wp_on_journal. eapply wp_mono; [exact Hm|..].
  - intros a j (_ & Happ). apply wp_ret.
    destruct (appended_view _ _ _ _ _ _ Hw Hl Hlen Hb Happ) as (r & Hr & Hw'). by eapply HQ.
  - intros e j Hno. apply HX. by eapply not_appended_halted.
Qed.
Lemma wp_co_advance ph next n (Q : () → CoordinatorState S → Prop) X w :
  at_phase ph None (n + 1) w → bootstrap_can_advance ph next = true →
  (bootstrap_is_terminal ph = true → ph = BpVerified ∧ next = BpRecovering) →
  phase_backed baton next (co_trace w) →
  (∀ w', at_phase next None n w' → co_trace w' = co_trace w → Q () w') →
  (∀ e w', halted e w' → X e w') → wp (co_advance id next) Q X w.
Proof.
  intros (v & Hw & Hp & Ho & Hn) Ha Ht Hb HQ HX. unfold co_advance. apply wp_bind.
  eapply wp_co_state; [done| |done]. intros st j (_ & Hph & _ & _ & _ & Hord) Hw1.
  eapply (wp_appending v n); [exact Hw1|apply wp_advance_phase, Hw1|..]; cbn.
  - by intros (_ & _ & _ & _ & ?).
  - by intros (_ & ? & _).
  - intros Hc. pose proof (av_room _ _ _ Hw Hc). split_and!; cbn; rewrite ?Hp, ?Hph, ?Hord; try done; [apply Hw|lia].
  - done.
  - intros r w' Hr Hw' Htr. apply HQ; [|done]. eexists. split; [exact Hw'|]. cbn.
    rewrite derive_phase_snoc, open_effect_snoc. unfold derive_bootstrap_phase_from, open_effect_from. by rewrite Hr.
  - done.
Qed.
Lemma wp_co_intent ph e n (Q : () → CoordinatorState S → Prop) X w :
  at_phase ph None (n + 1) w → bef_observation_hash e = "" →
  bef_process_generation e ∈ pending_generations baton ph →
  (∀ w', at_phase ph (Some e) n w' → co_trace w' = co_trace w → Q () w') →
  (∀ e w', halted e w' → X e w') → wp (co_intent id e) Q X w.
Proof.
  intros (v & Hw & Hp & Ho & Hn) He Hb HQ HX. unfold co_intent. apply wp_bind.
  eapply wp_co_state; [done| |done]. intros st j (_ & Hph & _ & _ & _ & Hord) Hw1.
  eapply (wp_appending v n); [exact Hw1|apply wp_append_effect, Hw1|..]; cbn.
  - by intros (_ & _ & _ & _ & ?).
  - by intros (_ & ? & _).
  - intros Hc. pose proof (av_room _ _ _ Hw Hc). split_and!; cbn; rewrite ?Hph, ?Hord; try done; [apply Hw|lia].
  - by rewrite Hp.
  - intros r w' Hr Hw' Htr. apply HQ; [|done]. eexists. split; [exact Hw'|]. cbn.
    rewrite derive_phase_snoc, open_effect_snoc. unfold derive_bootstrap_phase_from, open_effect_from. by rewrite Hr.
  - done.
Qed.
Lemma on_same w : on w (co_journal w) = w.
Proof. by destruct w. Qed.
Lemma wp_hash {T} `{Serialize T} (x : T) (Q : string → CoordinatorState S → Prop) X w :
  (c = true → Encodes T) → (∀ hash, canonical_hash x = Ok hash → Q hash w) → (∀ e, c = false → X e w) →
  wp (on_journal (lift (canonical_hash x))) Q X w.
Proof.
  intros He HQ HX. apply wp_on_journal, wp_lift; rewrite on_same; [done|]. intros e Hx. apply HX.
  destruct calm_cases as [Hc|Hc]; [|done]. destruct (canonical_hash_calm x (He Hc)). congruence.
Qed.
Lemma wp_co_observe {T} `{Serialize T} ph e n (x : T) (Q : () → CoordinatorState S → Prop) X w :
  at_phase ph (Some e) (n + 1) w → (c = true → Encodes T) →
  (∀ w', at_phase ph None n w' → co_trace w' = co_trace w → Q () w') →
  (∀ e w', halted e w' → X e w') → wp (co_observe id e x) Q X w.
Proof.
  intros Hat He HQ HX. unfold co_observe. apply wp_bind, wp_hash; [done| |].
  2: { intros e' Hc. apply HX. split; [done|by eapply at_phase_stopped]. }
  intros hash Hhash. destruct Hat as (v & Hw & Hp & Ho & Hn). apply wp_bind.
  eapply wp_co_state; [done| |done]. intros st j (_ & Hph & _ & _ & _ & Hord) Hw1.
  assert (legal_next (jv_records v) (JpObservedEffect (with_observation hash e))) as Hl.
  { exists e. split_and!; [done| |].
    - unfold effects_match. cbn. by rewrite !bool_decide_eq_true_2 by done.
    - cbn. unfold canonical_hash in Hhash. destruct (jcs_to_vec x); by simplify_eq/=. }
  eapply (wp_appending v n); [exact Hw1|apply wp_append_effect, Hw1|..]; cbn [effect_payload bjm_effect].
  - by intros _.
  - by intros (_ & ? & _).
  - intros Hc. pose proof (av_room _ _ _ Hw Hc). split_and!; cbn; rewrite ?Hph, ?Hord; try done; [apply Hw|lia].
  - done.
  - intros r w' Hr Hw' Htr. apply HQ; [|done]. eexists. split; [exact Hw'|]. cbn.
    rewrite derive_phase_snoc, open_effect_snoc. unfold derive_bootstrap_phase_from, open_effect_from. by rewrite Hr.
  - done.
Qed.

Lemma wp_probe {A} (f : S → S * A) ph o n (Q : A → CoordinatorState S → Prop) X w :
  at_phase ph o n w → (∀ a w', at_phase ph o n w' → co_trace w' = co_trace w → Q a w') → wp (probe f) Q X w.
Proof.
  intros (v & [] & Hv) HQ. unfold wp, probe. destruct (f (co_env w)) as [s a]. apply HQ; [|done]. exists v. by split.
Qed.
Lemma wp_act {A} (f : S → S * A) call ph o n (Q : A → CoordinatorState S → Prop) X w :
  at_phase ph o n w →
  (∀ a v, derive_bootstrap_phase (jv_records v) = ph → open_effect (jv_records v) = o →
     call_justified baton (co_trace w) (call a) v) →
  (∀ a root w', at_phase ph o n w' → co_trace w' = co_trace w ++ [(call a, root)] → Q a w') →
  wp (act f call) Q X w.
Proof.
  intros (v & [Hj Hi Hn Hr] & Hp & Ho & Hnt) Hcall HQ. unfold wp, act. destruct (f (co_env w)) as [s a].
  eapply HQ; [|done]. exists v. split; [|done]. split; [done| |done|done].
  eapply helper_inv_call; [done|apply Hj|by apply Hcall].
Qed.

Definition label_ok (label : string) : bool :=
  all_bytes (λ b, is_ascii_alphanumeric b || (b =? 95) || (b =? 45) || (b =? 46)) label
  && (String.length label <=? 90)%nat.
Lemma str_append_assoc a b d : (a +:+ b) +:+ d = a +:+ (b +:+ d).
Proof.
  induction a as [|x a IH]; [done|].
  change (String x ((a +:+ b) +:+ d) = String x (a +:+ (b +:+ d))). by rewrite IH.
Qed.
Lemma substring_take n s : String.substring 0 n s = str_take n s.
Proof. revert s. induction n as [|n IH]; intros [|x s]; cbn; try done. by rewrite IH. Qed.
Lemma wp_stable_id x label (Q : StableId → CoordinatorState S → Prop) X w :
  label_ok label = true → (∀ i, Q i w) → (∀ e, c = false → X e w) → wp (co_stable_id x label) Q X w.
Proof.
  intros Hl HQ HX. unfold co_stable_id. apply wp_bind, wp_hash; [|intros hash Hhash|done].
  { intros Hc. by destruct (calm_encodes Hc). }
  apply wp_lift; [by intros|]. intros e He. apply HX. destruct calm_cases as [Hc|Hc]; [exfalso|done].
  pose proof (calm_sha Hc) as Hsha. unfold canonical_hash in Hhash. destruct (jcs_to_vec (x, label)) as [m|]; [|done]. simplify_eq/=.
  apply andb_true_iff in Hl as [Hl Hlen]. apply Nat.leb_le in Hlen.
  destruct (digest_id_total ("bootstrap." +:+ label +:+ ".") 24 m) as [i Hi].
  - rewrite !all_bytes_app, Hl. done.
  - done.
  - rewrite !str_length_app. apply Nat.leb_le. cbn. lia.
  - change ("" +:+ sha256_hex m) with (sha256_hex m) in He. rewrite substring_take in He.
    rewrite !str_append_assoc in Hi. by rewrite Hi in He.
Qed.

(** *** Receipts *)

Lemma wp_co_receipt execution recipient kind label (Q : BootstrapResultV1 → CoordinatorState S → Prop) X w :
  label_ok label = true →
  (∀ x, bsr_activation_id x = id → bsr_result x = kind →
     bootstrap_result_hash_v1 x = Ok (bsr_receipt_hash x) → Q x w) →
  (∀ e, c = false → X e w) → wp (co_receipt execution baton recipient kind label) Q X w.
Proof.
  intros Hl HQ HX. unfold co_receipt. apply wp_bind, wp_stable_id; [done| |done]. intros i.
  apply wp_bind, wp_lift.
  - intros hash Hhash. apply wp_ret, HQ; [done|done|]. cbn.
    unfold bootstrap_result_hash_v1 in *. cbn in *. by destruct (repair_canonical_hash _); simplify_eq/=.
  - intros e He. apply HX. destruct calm_cases as [Hc|Hc]; [exfalso|done].
    unfold bootstrap_result_hash_v1, repair_canonical_hash in He. cbn in He.
    destruct (calm_encodes Hc) as [Hres _ _ _ _ _ _ _ _ _].
    by match type of He with context [jcs_to_vec ?k] => destruct (Hres k) as [y Hy]; rewrite Hy in He end.
Qed.

(** The run ended: the receipt is durable and the lock is free. *)
Definition ended (x : BootstrapResultV1) (w : CoordinatorState S) : Prop :=
  ∃ v s, journal_at c false v (co_journal w) ∧ helper_inv baton v (co_trace w)
    ∧ jv_receipt v = Some (TrBootstrapResult s) ∧ bts_receipt s = x.
Lemma receipt_sealed_over v t s :
  helper_inv baton v t → jv_receipt v = Some (TrBootstrapResult s) → receipt_sealed v.
Proof.
  intros Hi Hr. destruct (hi_ready _ _ _ Hi) as (h & Hh & Hv & Hid). unfold receipt_sealed. rewrite Hh.
  destruct (hi_sealed _ _ _ Hi _ Hr) as (s' & [= <-] & Hs & Hid' & _).
  assert (is_Some (last (jv_records v))) as [hd Hl].
  { destruct (hi_phase _ _ _ Hi) as [Hne _]. by eapply derive_phase_last. }
  unfold recovery_of. rewrite Hh, bool_decide_eq_true_2, Hv by done. cbn [negb mbind result_bind].
  rewrite (sealed_terminal (ajh_activation_id h) v s hd) by (done || congruence). cbn. by do 2 eexists.
Qed.
Lemma notice_hash_calm v : c = true → ∃ nh, notice_hash_of v = Ok nh ∧ (is_Some (jv_notice v) → is_Some nh).
Proof.
  intros Hc. unfold notice_hash_of. destruct (jv_notice v) as [n|]; [|exists None; split; [done|by intros []]].
  destruct (calm_encodes Hc) as [_ _ _ Hn _ _ _ _ _ _]. destruct (canonical_hash_calm n Hn) as [x ->]. cbn. by exists (Some x).
Qed.
Lemma seal_over_calm x v : c = true → ∃ s, seal_over x v s.
Proof.
  intros Hc. destruct (notice_hash_calm v Hc) as (nh & Hnh & _). destruct (calm_encodes Hc) as [_ _ Hs _ _ _ _ _ _ _].
  destruct (canonical_hash_calm ((x, head_ordinal (jv_records v), head_record_hash (jv_records v), nh) : bootstrap_seal_key) Hs) as [hash Hhash].
  by exists (MkBootstrapSeal x (head_ordinal (jv_records v)) (head_record_hash (jv_records v)) nh hash).
Qed.
Definition sealable (x : BootstrapResultV1) (v : root_view) (t : trace) : Prop :=
  bsr_activation_id x = id ∧ bootstrap_result_hash_v1 x = Ok (bsr_receipt_hash x)
  ∧ open_effect (jv_records v) = None
  ∧ result_can_seal (derive_bootstrap_phase (jv_records v)) (bsr_result x) = true
  ∧ (is_manual_recovery (bsr_result x) = true → is_Some (jv_notice v)) ∧ result_backed baton t (bsr_result x).
Lemma sealable_admissible x v n w : c = true → at_view v n w → sealable x v (co_trace w) → result_admissible x v.
Proof.
  intros Hc [Hj Hi Hn Hr] (Hid & Hhash & Ho & Hcs & Hm & _). split_and!; try done; [by rewrite Hid; apply Hi|].
  destruct (notice_hash_calm v Hc) as (nh & Hnh & Hsome).
  assert (is_Some (last (jv_records v))) as [hd Hl].
  { destruct (hi_phase _ _ _ Hi) as [Hne _]. by eapply derive_phase_last. }
  exists hd, nh. split_and!; [done|done|]. intros Hman. by apply Hsome, Hm.
Qed.
(** The receipt of [sealable] is stored; the lock is still held. *)
Definition stored_receipt (x : BootstrapResultV1) (w : CoordinatorState S) : Prop :=
  ∃ v s, journal_at c true v (co_journal w) ∧ helper_inv baton v (co_trace w)
    ∧ jv_receipt v = Some (TrBootstrapResult s) ∧ bts_receipt s = x.
Lemma wp_store_receipt x v n (Q : JournalDurableAckV1 → CoordinatorState S → Prop) X w :
  at_view v n w → sealable x v (co_trace w) →
  (∀ a w', stored_receipt x w' → co_trace w' = co_trace w → Q a w') →
  (∀ e w', halted e w' → X e w') → wp (on_journal (store_bootstrap_result x)) Q X w.
Proof.
  intros Hw Hs HQ HX. pose proof Hs as (Hid & _ & _ & _ & _ & Hb). apply wp_on_journal.
  eapply wp_mono; [apply wp_store_result, Hw|..].
  - intros a j (_ & Hadm & s & Hseal & Hj). pose proof Hseal as (Hx & _). apply HQ; [|done]. eexists _, s.
    split_and!; [exact Hj| |done|done]. eapply helper_inv_result; [apply Hw|done|done|done|done].
  - intros e j [[Hj Hno]|(Hc & Hadm & s & Hseal & Hj)]; apply HX.
    + destruct calm_cases as [Hc|Hc]; [|split; [done|]; exists true, v; split; [done|apply Hw]].
      destruct (seal_over_calm x v Hc) as [s Hseal]. edestruct Hno; [done|done|by eapply sealable_admissible|done].
    + split; [done|]. eexists true, _. split; [exact Hj|]. eapply helper_inv_result; [apply Hw|done|done|done|done].
Qed.
Lemma wp_co_finish x (Q : () → CoordinatorState S → Prop) X w :
  stored_receipt x w → (∀ w', ended x w' → co_trace w' = co_trace w → Q () w') →
  (∀ e w', halted e w' → X e w') → wp (on_journal seal_terminal) Q X w.
Proof.
  intros (v & s & Hj & Hi & Hr & Hx) HQ HX. apply wp_on_journal. eapply wp_mono; [apply wp_seal_terminal, Hj|..].
  - intros [] j (_ & _ & Hj'). apply HQ; [|done]. by exists v, s.
  - intros e j [Hj' Hno]. apply HX. destruct calm_cases as [Hc|Hc].
    + destruct (Hno Hc eq_refl). by eapply receipt_sealed_over.
    + split; [done|]. by exists true, v.
Qed.
Lemma wp_co_seal x v n (Q : BootstrapResultV1 → CoordinatorState S → Prop) X w :
  at_view v n w → sealable x v (co_trace w) → (∀ w', ended x w' → co_trace w' = co_trace w → Q x w') →
  (∀ e w', halted e w' → X e w') → wp (co_seal x) Q X w.
Proof.
  intros Hw Hs HQ HX. unfold co_seal. apply wp_bind. eapply wp_store_receipt; [done|done| |done].
  intros _ w1 Hw1 Ht1. apply wp_bind. eapply wp_co_finish; [done| |done]. intros w2 Hw2 Ht2. apply wp_ret, HQ; [done|congruence].
Qed.

(** A run that ends with a receipt of [kind]. *)
Definition ends_with (kind : BootstrapResultKindV1 → Prop) (x : BootstrapResultV1) (w : CoordinatorState S) : Prop :=
  kind (bsr_result x) ∧ ended x w.
Lemma phase_backed_plain phase t :
  helper_phase phase → phase ≠ BpVerified → phase ≠ BpRolledBack → phase_backed baton phase t.
Proof. intros ???. by split; [|split]. Qed.
Lemma wp_unsupported execution (aborted : bool) code ph n w :
  at_phase ph None (n + 1) w → bootstrap_is_terminal ph = false →
  bootstrap_can_advance ph (if aborted then BpAbortedBeforeSwitch else BpUnsupported) = true →
  wp (unsupported execution baton aborted code) (λ x w', ended x w') halted w.
Proof.
  intros Hw Ht Ha. unfold unsupported. apply wp_bind. eapply wp_co_advance; [done|done|by rewrite Ht| | |done].
  { apply phase_backed_plain; by destruct aborted. }
  intros w1 Hw1 _. apply wp_bind, wp_co_receipt; [done| |].
  2: { intros e Hc. split; [done|by eapply at_phase_stopped]. }
  intros x Hid Hk Hh. destruct Hw1 as (v & Hv & Hp & Ho & Hn). eapply wp_co_seal; [done| |by intros|done].
  split_and!; try done; rewrite ?Hk; try done. rewrite Hp. by destruct aborted.
Qed.

(** *** Manual recovery *)

Lemma wp_act_view {A} (f : S → S * A) call v n (Q : A → CoordinatorState S → Prop) X w :
  at_view v n w → (∀ a, call_justified baton (co_trace w) (call a) v) →
  (∀ a root w', at_view v n w' → co_trace w' = co_trace w ++ [(call a, root)] → Q a w') →
  wp (act f call) Q X w.
Proof.
  intros [Hj Hi Hn Hr] Hcall HQ. unfold wp, act. destruct (f (co_env w)) as [s a].
  eapply HQ; [|done]. split; [done| |done|done]. eapply helper_inv_call; [done|apply Hj|by apply Hcall].
Qed.
Lemma wp_co_notice notice v n (Q : JournalDurableAckV1 → CoordinatorState S → Prop) X w :
  at_view v n w → derive_bootstrap_phase (jv_records v) = BpManualRecoveryRequired → jv_notice v = None →
  mrn_activation_id notice = id → bounded_instructions (mrn_instructions notice) = true →
  (∀ a w', at_view (with_notice notice v) n w' → co_trace w' = co_trace w → Q a w') →
  (∀ e w', halted e w' → X e w') → wp (on_journal (store_manual_recovery_notice notice)) Q X w.
Proof.
  intros [Hj Hi Hu Hr] Hp Hn Hid Hb HQ HX. apply wp_on_journal.
  assert (helper_inv baton (with_notice notice v) (co_trace w)) as Hi' by by apply helper_inv_notice.
  eapply wp_mono; [apply wp_store_notice, Hj|..].
  - intros a j (_ & _ & _ & _ & Hj'). apply HQ; [|done]. by split.
  - intros e j [[Hj' Hno]|(Hc & _ & Hj')]; apply HX.
    + destruct calm_cases as [Hc|Hc]; [|split; [done|]; by exists true, v].
      destruct (Hno Hc eq_refl Hb). split_and!; [rewrite Hid; apply Hi|done|done].
    + split; [done|]. eexists true, _. by split; [exact Hj'|].
Qed.
Definition rollback_phase (ph : BootstrapPhaseV1) : Prop :=
  ph = BpRollingBack ∨ ph = BpPreviousRelaunching ∨ ph = BpRecovering.
Lemma wp_manual {T} `{Serialize T} execution reason (observed : T) ph n w :
  at_phase ph None (n + 1) w → rollback_phase ph → (c = true → Encodes T) →
  wp (manual ports execution baton reason observed) (λ x w', ended x w') halted w.
Proof.
  intros Hw Hph He. unfold manual. apply wp_bind. destruct Hw as (v & Hv & Hp & Ho & Hn).
  eapply wp_co_state; [done| |done]. intros st j (_ & Hst & _) Hv1. apply wp_bind.
  rewrite Hst, Hp, bool_decide_eq_false_2 by (by destruct Hph as [->|[->| ->]]). cbn [negb].
  eapply (wp_co_advance ph BpManualRecoveryRequired n); [by exists v| | | | |done].
  { by destruct Hph as [->|[->| ->]]. }
  { by destruct Hph as [->|[->| ->]]. }
  { by apply phase_backed_plain. }
  intros w1 Hw1 _. assert (∀ e, c = false → halted e w1) as Hstop.
  { intros e Hc. split; [done|by eapply at_phase_stopped]. }
  destruct Hw1 as (v1 & Hv2 & Hp1 & Ho1 & Hn1). apply wp_bind, wp_hash; [done| |done]. intros hash _.
  apply wp_bind, wp_stable_id; [done| |done]. intros diagnostic. apply wp_bind, wp_stable_id; [done| |done]. intros ni.
  apply wp_bind. eapply wp_co_notice; [done|done|done|done|done| |done]. intros _ w2 Hw2 _.
  apply wp_bind. eapply wp_act_view; [done|done|]. intros _ root w3 Hw3 _.
  apply wp_bind, wp_co_receipt; [done| |].
  2: { intros e Hc. split; [done|by eapply at_view_stopped]. }
  intros x Hid Hk Hh. eapply wp_co_seal; [done| |by intros|done].
  split_and!; try done; rewrite ?Hk; try done. cbn [jv_records with_notice result_can_seal]. by rewrite Hp1.
Qed.

(** *** Rolling back *)

Lemma wp_cleanup label generation (b : bool) ph o n (Q : result WatchdogFailureV1 ProcessTreeCleanupV1 → CoordinatorState S → Prop) X w :
  at_phase ph (Some o) n w → bef_process_generation o = generation → label_ok label = true →
  (∀ r root w', at_phase ph (Some o) n w' → co_trace w' = co_trace w ++ [(PcCleanup generation r, root)] → Q r w') →
  (∀ e w', halted e w' → X e w') → wp (cleanup ports baton label generation b) Q X w.
Proof.
  intros Hw Ho Hl HQ HX. unfold cleanup. apply wp_bind, wp_stable_id; [done| |].
  2: { intros e Hc. apply HX. split; [done|by eapply at_phase_stopped]. }
  intros i. eapply wp_act; [done| |done]. intros a v _ Hov. exists o. by split.
Qed.
Lemma cleaned_in_snoc t generation proof root : cleaned_in (t ++ [(PcCleanup generation (Ok proof), root)]) generation proof.
Proof. exists root. set_solver. Qed.
Lemma cleaned_in_app t t' generation proof : cleaned_in t generation proof → cleaned_in (t ++ t') generation proof.
Proof. intros [root ?]. exists root. set_solver. Qed.

Lemma wp_relaunch_previous execution reason restored proof n w :
  at_phase BpRollingBack None (n + 5) w →
  cleaned_in (co_trace w) (bac_candidate_process_generation baton) proof →
  wp (relaunch_previous ports execution baton reason restored proof) (λ x w', ended x w') halted w.
Proof.
  intros Hw Hclean. replace (n + 5) with (n + 4 + 1) in Hw by lia. unfold relaunch_previous. apply wp_bind.
  eapply wp_co_advance; [done|done|done|by apply phase_backed_plain| |done]. intros w1 Hw1 Ht1.
  replace (n + 4) with (n + 3 + 1) in Hw1 by lia. apply wp_bind.
  eapply wp_co_intent; [done|done|by apply list_elem_of_here| |done]. intros w2 Hw2 Ht2.
  apply wp_bind, wp_stable_id; [done| |]; cycle 1.
  { intros e Hc. split; [done|by eapply at_phase_stopped]. }
  intros i. apply wp_bind. eapply wp_act; [exact Hw2| |].
  { intros a v Hp Ho. cbn. split_and!; try done. rewrite Ht2, Ht1. done. }
  intros launch root w3 Hw3 Ht3. replace (n + 3) with (n + 2 + 1) in Hw3 by lia. apply wp_bind.
  eapply wp_co_observe; [done| | |done].
  { intros Hc. by destruct (calm_encodes Hc). }
  intros w4 Hw4 Ht4. replace (n + 2) with (n + 1 + 1) in Hw4 by lia. apply wp_bind.
  eapply wp_co_advance; [done|done|done|by apply phase_backed_plain| |done]. intros w5 Hw5 Ht5.
  destruct launch as [[l h g ver|l h g]|failure].
  - eapply wp_manual; [done|by right; left|]. intros Hc. by destruct (calm_encodes Hc).
  - assert (healthy_in baton (co_trace w5)) as Hh.
    { rewrite Ht5, Ht4, Ht3. eexists _, l, h, g, root. split_and!; [by apply elem_of_app; right; apply list_elem_of_singleton|done|done]. }
    apply wp_bind. eapply wp_co_advance; [done|done|done| | |done].
    { split; [done|]. by split. }
    intros w6 Hw6 Ht6. assert (∀ e, c = false → halted e w6) as Hstop.
    { intros e Hc. split; [done|by eapply at_phase_stopped]. }
    apply wp_bind. unfold rollback_evidence. apply wp_bind, wp_hash; [|intros hash _|done].
    { intros Hc. by destruct (calm_encodes Hc). }
    apply wp_bind, wp_stable_id; [done| |done]. intros ai. apply wp_ret, wp_bind, wp_co_receipt; [done| |done].
    intros x Hid Hk Hhash. destruct Hw6 as (v & Hv & Hp & Ho & Hn). eapply wp_co_seal; [done| |by intros|done].
    split_and!; try done; rewrite ?Hk; try done; [by rewrite Hp|]. cbn. by rewrite Ht6.
  - eapply wp_manual; [done|by right; left|]. intros Hc. by destruct (calm_encodes Hc).
Qed.

Lemma wp_restore_selector plan n (Q : result ProfileError ActiveSelectorObservationV1 → CoordinatorState S → Prop) X w :
  let o := slot_effect (apl_candidate plan) (apl_previous plan) (bac_capability_generation baton)
             (bac_rollback_process_generation baton) in
  at_phase BpRollingBack (Some o) n w →
  (∃ proof, cleaned_in (co_trace w) (bac_candidate_process_generation baton) proof) →
  (∀ r w' t, at_phase BpRollingBack (Some o) n w' → co_trace w' = co_trace w ++ t → Q r w') →
  wp (restore_selector ports plan) Q X w.
Proof.
  intros o Hw Hproof HQ. unfold restore_selector. apply wp_bind. eapply wp_probe; [done|]. intros before w1 Hw1 Ht1.
  assert (∀ r, Q r w1) as Hplain by by intros r; apply (HQ r w1 []); rewrite ?app_nil_r.
  destruct before as [observation|error]; [|by apply wp_ret].
  destruct (selects_root observation (apl_previous plan)); [by apply wp_ret|].
  destruct (selects_root observation (apl_candidate plan)); [|by apply wp_ret].
  apply wp_bind. eapply wp_act; [done| |].
  { intros a v Hp Ho. cbn. split_and!; [done|done|]. by rewrite Ht1. }
  intros a root w2 Hw2 Ht2. apply wp_ret. eapply HQ; [done|]. by rewrite Ht2, Ht1.
Qed.
Lemma wp_rollback execution reason ph n w :
  at_phase ph None (n + 10) w → bootstrap_can_advance ph BpRollingBack = true → bootstrap_is_terminal ph = false →
  wp (rollback ports execution baton reason) (λ x w', ended x w') halted w.
Proof.
  intros Hw Ha Ht. unfold rollback. apply wp_bind. pose proof Hw as (v & Hv & Hp & Ho & Hn).
  eapply wp_co_state; [done| |done]. intros st j (_ & Hst & _) Hv1. rewrite Hst, Hp.
  rewrite bool_decide_eq_false_2 by (intros ->; done). cbn [negb]. apply wp_bind.
  eapply (wp_co_advance ph BpRollingBack (n + 9)); [exists v; by replace (n + 9 + 1) with (n + 10) by lia|done|by rewrite Ht|by apply phase_backed_plain| |done].
  intros w1 Hw1 Ht1. replace (n + 9) with (n + 8 + 1) in Hw1 by lia. apply wp_bind.
  eapply wp_co_intent; [done|done|by apply list_elem_of_here| |done]. intros w2 Hw2 Ht2. apply wp_bind.
  eapply wp_cleanup; [done|done|done| |done]. intros cleaned root w3 Hw3 Ht3.
  replace (n + 8) with (n + 7 + 1) in Hw3 by lia. apply wp_bind. eapply wp_co_observe; [done| | |done].
  { intros Hc. by destruct (calm_encodes Hc). }
  intros w4 Hw4 Ht4. destruct cleaned as [proof|failure]; cycle 1.
  { replace (n + 7) with (n + 6 + 1) in Hw4 by lia. eapply wp_manual; [done|by left|]. intros Hc. by destruct (calm_encodes Hc). }
  assert (cleaned_in (co_trace w4) (bac_candidate_process_generation baton) proof) as Hclean
    by (rewrite Ht4, Ht3; apply cleaned_in_snoc).
  replace (n + 7) with (n + 6 + 1) in Hw4 by lia. apply wp_bind.
  eapply wp_co_intent; [done|done|by apply list_elem_of_further, list_elem_of_here| |done]. intros w5 Hw5 Ht5. apply wp_bind.
  eapply wp_restore_selector; [done|by exists proof; rewrite Ht5|]. intros restored w6 t6 Hw6 Ht6.
  replace (n + 6) with (n + 5 + 1) in Hw6 by lia. apply wp_bind. eapply wp_co_observe; [done| | |done].
  { intros Hc. by destruct (calm_encodes Hc). }
  intros w7 Hw7 Ht7.
  assert (cleaned_in (co_trace w7) (bac_candidate_process_generation baton) proof) as Hclean7
    by (rewrite Ht7, Ht6, Ht5; by apply cleaned_in_app).
  assert (∀ reason' (x : string) w', at_phase BpRollingBack None (n + 5) w' →
    wp (manual ports execution baton reason' x) (λ x w', ended x w') halted w') as Hmanual.
  { intros reason' x w' Hw'. replace (n + 5) with (n + 4 + 1) in Hw' by lia.
    eapply wp_manual; [done|by left|]. intros Hc. by destruct (calm_encodes Hc). }
  destruct restored as [observation|error]; [|by apply Hmanual].
  apply wp_bind. eapply wp_probe; [done|]. intros reverified w8 Hw8 Ht8. destruct reverified as [slot|error]; [|by apply Hmanual].
  apply wp_bind. eapply wp_probe; [done|]. intros verified w9 Hw9 Ht9. destruct verified as [o|error]; [|by apply Hmanual].
  eapply wp_relaunch_previous; [done|]. by rewrite Ht9, Ht8.
Qed.

(** *** Activating the candidate *)

(** A run of [execute_locked] may also stop on a slot error, with the receipt
    durable. *)
Definition left (e : CoordinatorError) (w : CoordinatorState S) : Prop := stopped w.
Lemma halted_left e w : halted e w → left e w.
Proof. by intros [_ ?]. Qed.
Lemma wp_left {A} (m : co A) (Q : A → CoordinatorState S → Prop) w : wp m Q halted w → wp m Q left w.
Proof. intros Hm. eapply wp_mono; [done|done|apply halted_left]. Qed.
Lemma wp_launch_candidate execution selected proof n w :
  at_phase BpQuiescingCurrent None (n + 14) w →
  cleaned_in (co_trace w) (bac_current_process_generation baton) proof →
  wp (launch_candidate ports execution baton selected proof) (λ x w', ended x w') left w.
Proof.
  intros Hw Hclean. replace (n + 14) with (n + 13 + 1) in Hw by lia. unfold launch_candidate. apply wp_bind.
  eapply wp_co_advance; [done|done|done|by apply phase_backed_plain| |apply halted_left]. intros w1 Hw1 Ht1.
  replace (n + 13) with (n + 12 + 1) in Hw1 by lia. apply wp_bind.
  eapply wp_co_intent; [done|done|by apply list_elem_of_here| |apply halted_left]. intros w2 Hw2 Ht2.
  apply wp_bind, wp_stable_id; [done| |]; cycle 1.
  { intros e Hc. by eapply at_phase_stopped. }
  intros i. apply wp_bind. eapply wp_act; [exact Hw2| |].
  { intros a v Hp Ho. cbn. split_and!; try done. by rewrite Ht2, Ht1. }
  intros launch root w3 Hw3 Ht3. replace (n + 12) with (n + 11 + 1) in Hw3 by lia. apply wp_bind.
  eapply wp_co_observe; [done| | |apply halted_left].
  { intros Hc. by destruct (calm_encodes Hc). }
  intros w4 Hw4 Ht4. replace (n + 11) with (n + 10 + 1) in Hw4 by lia. apply wp_bind.
  eapply wp_co_advance; [done|done|done|by apply phase_backed_plain| |apply halted_left]. intros w5 Hw5 Ht5.
  destruct launch as [[l h g ver|l h g]|failure]; [|by apply wp_left; eapply wp_rollback..].
  assert (verified_in baton (co_trace w5) (fvr_focused_verification ver)) as Hver.
  { rewrite Ht5, Ht4, Ht3. eexists _, l, h, g, ver, root.
    split_and!; [by apply elem_of_app; right; apply list_elem_of_singleton|done|done|done]. }
  replace (n + 10) with (n + 9 + 1) in Hw5 by lia. apply wp_bind.
  eapply wp_co_advance; [done|done|done|by apply phase_backed_plain| |apply halted_left]. intros w6 Hw6 Ht6.
  replace (n + 9) with (n + 8 + 1) in Hw6 by lia. apply wp_bind.
  eapply wp_co_advance; [done|done|done|by apply phase_backed_plain| |apply halted_left]. intros w7 Hw7 Ht7.
  replace (n + 8) with (n + 7 + 1) in Hw7 by lia. apply wp_bind.
  rewrite <-Ht6, <-Ht7 in Hver.
  eapply wp_co_advance; [done|done|done| | |apply halted_left].
  { split; [done|]. split; [by eexists|done]. }
  intros w8 Hw8 Ht8. rewrite <-Ht8 in Hver. apply wp_bind, wp_co_receipt; [done| |].
  2: { intros e Hc. by eapply at_phase_stopped. }
  intros x Hid Hk Hh. destruct Hw8 as (v & Hv & Hp & Ho & Hn). apply wp_bind.
  eapply wp_store_receipt; [done| | |apply halted_left].
  { split_and!; try done; rewrite ?Hk; try done. by rewrite Hp. }
  intros _ w9 (v9 & s & Hj9 & Hi9 & Hr9 & Hx9) Ht9. apply wp_bind. unfold act, wp at 1.
  destruct (hp_mark_candidate_activated_verified ports (co_env w9)) as [e9 marked].
  set (w10 := MkCoordinatorState _ _ _ _).
  assert (helper_inv baton v9 (co_trace w10)) as Hi10.
  { eapply helper_inv_call; [done|apply Hj9|]. exists s, (fvr_focused_verification ver). split_and!; [done|congruence|].
    by rewrite Ht9. }
  apply wp_bind, wp_lift; [intros [] _|intros e _; by exists true, v9].
  apply wp_bind. eapply (wp_co_finish x); [by exists v9, s| |apply halted_left]. intros w11 Hw11 _. by apply wp_ret.
Qed.

Lemma wp_switch_selector execution proof n w :
  at_phase BpQuiescingCurrent None (n + 16) w →
  cleaned_in (co_trace w) (bac_current_process_generation baton) proof →
  wp (switch_selector ports execution baton proof) (λ x w', ended x w') left w.
Proof.
  intros Hw Hclean. replace (n + 16) with (n + 15 + 1) in Hw by lia. unfold switch_selector. apply wp_bind.
  eapply wp_co_intent; [done|done|by apply list_elem_of_further, list_elem_of_here| |apply halted_left]. intros w1 Hw1 Ht1.
  apply wp_bind. eapply wp_act; [done| |].
  { intros a v Hp Ho. cbn. split_and!; [done|done|]. exists proof. by rewrite Ht1. }
  intros switched root w2 Hw2 Ht2. replace (n + 15) with (n + 14 + 1) in Hw2 by lia. apply wp_bind.
  eapply wp_co_observe; [done| | |apply halted_left].
  { intros Hc. by destruct (calm_encodes Hc). }
  intros w3 Hw3 Ht3. destruct switched as [selected|error].
  - eapply wp_launch_candidate; [done|]. rewrite Ht3, Ht2, Ht1. by apply cleaned_in_app.
  - apply wp_bind. eapply wp_probe; [done|]. intros observed w4 Hw4 Ht4.
    replace (n + 14) with (n + 13 + 1) in Hw4 by lia.
    destruct (match observed with Ok value => selects value (apl_current (aex_plan execution)) | Err _ => false end).
    + apply wp_left. by eapply wp_unsupported.
    + apply wp_bind. eapply wp_co_advance; [done|done|done|by apply phase_backed_plain| |apply halted_left].
      intros w5 Hw5 Ht5. apply wp_left. replace (n + 13) with (n + 3 + 10) in Hw5 by lia. by eapply wp_rollback.
Qed.

(** *** Whole runs *)

(** The receipt a run returns is the durable one. *)
Definition settled (x : BootstrapResultV1) (w : CoordinatorState S) : Prop :=
  ∃ b v s, journal_at c b v (co_journal w) ∧ helper_inv baton v (co_trace w)
    ∧ jv_receipt v = Some (TrBootstrapResult s) ∧ bts_receipt s = x.
Lemma ended_settled x w : ended x w → settled x w.
Proof. intros (v & s & ? & ? & ? & ?). by exists false, v, s. Qed.
Definition held_view (v : root_view) (n : N) (w : CoordinatorState S) : Prop :=
  journal_at c true v (co_journal w) ∧ helper_inv baton v (co_trace w)
  ∧ (c = true → len (jv_records v) + n ≤ MAX_JOURNAL_RECORDS).
Lemma held_view_stopped v n w : held_view v n w → stopped w.
Proof. intros (? & ? & _). by exists true, v. Qed.

(** The state the run starts from: sealed, or not. *)
Lemma wp_co_state_first x v n (Q : BootstrapRecoveryStateV1 → CoordinatorState S → Prop) X w :
  held_view v n w →
  (∀ st s j, jv_receipt v = Some (TrBootstrapResult s) → brs_terminal st = Some (bts_receipt s) →
     held_view v n (on w j) → Q st (on w j)) →
  (∀ st j, jv_receipt v = None → reported v st → x = id → at_view v n (on w j) → Q st (on w j)) →
  (∀ e j, (c = true → x ≠ id) → held_view v n (on w j) → X e (on w j)) → wp (co_state x) Q X w.
Proof.
  intros (Hj & Hi & Hr) HQs HQ HX. unfold co_state. apply wp_bind, wp_on_journal.
  pose proof (hi_ready _ _ _ Hi) as (h & Hh & Hv & Hid).
  assert (recovery_of x v = if ajh_activation_id h ≠? x then Ok None else
    terminal ← terminal_of x v;
    Ok (Some (MkBootstrapRecovery x
        (if is_some terminal then BpResultAvailable else derive_bootstrap_phase (jv_records v))
        (head_ordinal (jv_records v)) (head_record_hash (jv_records v)) terminal (jv_notice v)
        (open_effect (jv_records v)) (head (omap accepted_baton (jv_records v)))
        (omap admitted_command (jv_records v))))) as Hrec.
  { unfold recovery_of. by rewrite Hh, Hv. }
  assert (x = id → ∃ st, recovery_of x v = Ok (Some st)
    ∧ (∀ j, journal_at c true v j → Q st (on w j))) as Hgood.
  { intros ->. rewrite Hrec, <-Hid, bool_decide_eq_true_2 by done. cbn [negb].
    destruct (jv_receipt v) as [rc|] eqn:Erc.
    - destruct (hi_sealed _ _ _ Hi _ Erc) as (s & -> & Hs & Hsid & _).
      assert (is_Some (last (jv_records v))) as [hd Hl].
      { destruct (hi_phase _ _ _ Hi) as [Hne _]. by eapply derive_phase_last. }
      rewrite (sealed_terminal id v s hd) by done. eexists. split; [done|]. intros j Hj'. by eapply HQs.
    - unfold terminal_of. rewrite Erc. eexists. split; [done|]. intros j Hj'. apply HQ; [done| |done|by split].
      split_and!; cbn; try done; [by apply Hi|]. eapply head_ordinal_len; [done|by eapply records_nonempty]. }
  eapply wp_answers; [apply load_activation_recovery_answers|done|..].
  - intros a j Ha Hj'. destruct (decide (x = id)) as [->|Hne].
    + destruct Hgood as (st & Hst & HQ'); [done|]. rewrite Hst in Ha. simplify_eq. apply wp_lift; [|done].
      intros ? [= <-]. by apply HQ'.
    + rewrite Hrec, <-Hid, bool_decide_eq_false_2 in Ha by done. simplify_eq/=. apply wp_lift; [done|]. intros e _.
      by apply HX.
  - intros e j He Hj'. apply HX; [|done]. intros Hc ->. destruct Hgood as (st & Hst & _); [done|].
    rewrite He in Hst by done. done.
Qed.
Lemma wp_reverify_slot slot ph o n w :
  at_phase ph o n w → wp (reverify_slot ports slot) (λ _ w', at_phase ph o n w') (λ _ w', at_phase ph o n w') w.
Proof.
  intros Hw. unfold reverify_slot. apply wp_bind. eapply wp_probe; [done|]. intros a w1 Hw1 _.
  apply wp_bind, wp_lift; [|done]. intros s _. by apply wp_reject.
Qed.
Lemma wp_reverify_plan plan ph o n w :
  at_phase ph o n w → wp (reverify_plan ports plan) (λ _ w', at_phase ph o n w') (λ _ w', at_phase ph o n w') w.
Proof.
  intros Hw. unfold reverify_plan. do 3 (apply wp_bind; eapply wp_mono; [by apply wp_reverify_slot| |done]; clear dependent w; intros [] w Hw).
  apply wp_bind. eapply wp_probe; [done|]. intros a w1 Hw1 _. apply wp_bind, wp_lift; [|done]. intros ? _. by apply wp_ret.
Qed.
Lemma wp_caught {A} (m : co A) (P : CoordinatorState S → Prop) (Q : result CoordinatorError A → CoordinatorState S → Prop) X w :
  wp m (λ _, P) (λ _, P) w → (∀ r w', P w' → Q r w') → wp (caught m) Q X w.
Proof. unfold wp, caught. intros Hm HQ. destruct (m w) as [w' [a|e]]; by apply HQ. Qed.
Lemma reported_baton st v : reported v st → ok_or (brs_baton st) CoMissingBaton = Ok baton.
Proof. by intros (_ & _ & _ & _ & -> & _). Qed.

Lemma wp_execute_locked execution v n w :
  held_view v (n + 20) w → wp (execute_locked ports execution) settled left w.
Proof.
  intros Hw. unfold execute_locked. apply wp_bind. eapply wp_co_state_first; [exact Hw| | |].
  3: { intros e j _ ?. by eapply held_view_stopped. }
  { intros st s j Hr -> (Hj & Hi & _). apply wp_ret. by exists true, v, s. }
  intros st j Hnone Hst Hid Hv. pose proof Hst as (-> & Hph & Hop & Hnt & _). apply wp_bind.
  rewrite (reported_baton _ _ Hst). apply wp_ret. assert (stopped (on w j)) as Hstop by by eapply at_view_stopped.
  apply wp_bind, wp_lift; [intros [] _|by intros]. apply wp_bind, wp_reject_unless; [|by intros].
  intros Hdur. rewrite Hdur in Hph.
  assert (at_phase BpBatonDurable None (n + 20) (on w j)) as Hat.
  { exists v. split_and!; [done|done| |].
    - destruct (open_effect (jv_records v)) as [e|] eqn:E; [|done].
      pose proof (hi_open _ _ _ (av_inv _ _ _ Hv) e E) as He. rewrite <-Hph in He. by apply elem_of_nil in He.
    - destruct (jv_notice v) as [nt|] eqn:E; [|done].
      destruct (so_notice _ (hi_sound _ _ _ (av_inv _ _ _ Hv)) nt E) as [Hm _]. congruence. }
  clear Hv. apply wp_bind. eapply wp_caught; [by apply wp_reverify_plan|]. intros reverified w1 Hw1.
  destruct (is_err reverified).
  { apply wp_left. replace (n + 20) with (n + 19 + 1) in Hw1 by lia. eapply wp_mono; [by eapply wp_unsupported|apply ended_settled|done]. }
  replace (n + 20) with (n + 19 + 1) in Hw1 by lia. apply wp_bind.
  eapply wp_co_advance; [done|done|done|by apply phase_backed_plain| |apply halted_left]. intros w2 Hw2 _.
  replace (n + 19) with (n + 18 + 1) in Hw2 by lia. apply wp_bind.
  eapply wp_co_advance; [done|done|done|by apply phase_backed_plain| |apply halted_left]. intros w3 Hw3 _.
  replace (n + 18) with (n + 17 + 1) in Hw3 by lia. apply wp_bind.
  eapply wp_co_intent; [done|done|by apply list_elem_of_here| |apply halted_left]. intros w4 Hw4 _. apply wp_bind.
  eapply wp_cleanup; [done|done|done| |apply halted_left]. intros cleaned root w5 Hw5 Ht5.
  replace (n + 17) with (n + 16 + 1) in Hw5 by lia. apply wp_bind. eapply wp_co_observe; [done| | |apply halted_left].
  { intros Hc. by destruct (calm_encodes Hc). }
  intros w6 Hw6 Ht6. eapply (wp_mono _ (λ x w', ended x w') _ left); [|apply ended_settled|done].
  destruct cleaned as [proof|failure].
  - eapply wp_switch_selector; [done|]. rewrite Ht6, Ht5. apply cleaned_in_snoc.
  - apply wp_left. replace (n + 16) with (n + 15 + 1) in Hw6 by lia. by eapply wp_unsupported.
Qed.

Lemma wp_reconcile_cleanup e label generation b ph n w :
  at_phase ph (Some e) (n + 1) w → bef_process_generation e = generation → label_ok label = true →
  wp (reconcile_cleanup ports baton e label generation b) (λ _ w', at_phase ph None n w') halted w.
Proof.
  intros Hw He Hl. unfold reconcile_cleanup. apply wp_bind. eapply wp_cleanup; [done|done|done| |done].
  intros cleaned root w1 Hw1 _. eapply wp_co_observe; [done| |by intros|done]. intros Hc. by destruct (calm_encodes Hc).
Qed.
Lemma wp_reconcile_open_effect execution ph e n w :
  at_phase ph (Some e) (n + 1) w → bef_process_generation e ∈ pending_generations baton ph →
  wp (reconcile_open_effect ports execution baton ph e) (λ _ w', at_phase ph None n w') halted w.
Proof.
  intros Hw Hpend. unfold reconcile_open_effect.
  assert (wp (selector ← probe (hp_observe_active_selector ports (aex_plan execution));
              co_observe id e (selector_state_observation selector)) (λ _ w', at_phase ph None n w') halted w) as Hsel.
  { apply wp_bind. eapply wp_probe; [done|]. intros a w1 Hw1 _. eapply wp_co_observe; [done| |by intros|done].
    intros Hc. by destruct (calm_encodes Hc). }
  destruct ph; try (by apply elem_of_nil in Hpend); cbn [pending_generations] in Hpend.
  - rewrite bool_decide_eq_true_2 by done. cbn [andb]. case_bool_decide; [|done].
    by eapply wp_reconcile_cleanup.
  - apply list_elem_of_singleton in Hpend. by eapply wp_reconcile_cleanup.
  - rewrite bool_decide_eq_false_2 by done. cbn [andb]. case_bool_decide; [by eapply wp_reconcile_cleanup|done].
  - apply list_elem_of_singleton in Hpend. by eapply wp_reconcile_cleanup.
Qed.
Lemma wp_resolve_recovery execution n w :
  at_phase BpRecovering None (n + 10) w →
  wp (resolve_recovery ports execution baton) (λ x w', ended x w') halted w.
Proof.
  intros Hw. unfold resolve_recovery. apply wp_bind. eapply wp_probe; [done|]. intros observed w1 Hw1 _.
  assert (wp (manual ports execution baton RcAmbiguousSelectorState (map_err profile_error_text observed))
    (λ x w', ended x w') halted w1) as Hmanual.
  { replace (n + 10) with (n + 9 + 1) in Hw1 by lia. eapply wp_manual; [done|by right; right|].
    intros Hc. by destruct (calm_encodes Hc). }
  destruct observed as [value|error]; [|done].
  destruct (selects value (apl_current (aex_plan execution))).
  { replace (n + 10) with (n + 9 + 1) in Hw1 by lia. by eapply wp_unsupported. }
  destruct (selects value (apl_candidate (aex_plan execution)) || selects value (apl_previous (aex_plan execution))); [|done].
  by eapply wp_rollback.
Qed.

(** When a recovery without storage failures is refused. *)
Definition recovery_refused (x : StableId) (execution : option ActivationExecutionV1) (v : root_view) : Prop :=
  x ≠ id ∨ execution = None ∨ (∃ ex, execution = Some ex ∧ validate_execution ex baton ≠ Ok ())
  ∨ derive_bootstrap_phase (jv_records v) = BpManualRecoveryRequired ∧ jv_notice v = None.
Definition resume_phase (ph : BootstrapPhaseV1) : Prop :=
  ph = BpRecovering ∨ bootstrap_can_advance ph BpRecovering = true.
Lemma wp_resume execution st v n w :
  at_view v (n + 12) w → reported v st → resume_phase (derive_bootstrap_phase (jv_records v)) → jv_notice v = None →
  wp (_ ← match brs_open_effect st with
          | Some effect => reconcile_open_effect ports execution baton (derive_bootstrap_phase (jv_records v)) effect
          | None => mret ()
          end;
      again ← co_state id;
      _ ← (if brs_phase again ≠? BpRecovering then co_advance id BpRecovering else mret ());
      resolve_recovery ports execution baton) (λ x w', ended x w') halted w.
Proof.
  intros Hw (_ & _ & Hop & _) Hph Hnt. set (ph := derive_bootstrap_phase (jv_records v)) in *. apply wp_bind.
  assert (wp (match brs_open_effect st with
          | Some effect => reconcile_open_effect ports execution baton ph effect
          | None => mret ()
          end) (λ _ w', at_phase ph None (n + 11) w') halted w) as Hrec.
  { rewrite Hop. replace (n + 12) with (n + 11 + 1) in Hw by lia. destruct (open_effect (jv_records v)) as [e|] eqn:E.
    - apply wp_reconcile_open_effect; [by exists v|]. by apply (hi_open _ _ _ (av_inv _ _ _ Hw)).
    - apply wp_ret. exists v. split_and!; try done. destruct Hw as [??? Hroom]. split; try done. intros Hc.
      specialize (Hroom Hc). lia. }
  eapply wp_mono; [exact Hrec| |done]. intros [] w1 Hw1. pose proof Hw1 as (v1 & Hv1 & Hp1 & Ho1 & Hn1). apply wp_bind.
  eapply wp_co_state; [done| |done]. intros again j (_ & Hag & _) Hv2. rewrite Hag, Hp1. apply wp_bind.
  replace (n + 11) with (n + 10 + 1) in Hv2 by lia. case_bool_decide as Hr; cbn [negb].
  - apply wp_ret. eapply (wp_resolve_recovery _ (n + 1)). exists v1. replace (n + 1 + 10) with (n + 10 + 1) by lia.
    by rewrite <-Hr.
  - eapply (wp_co_advance ph); [by exists v1| | |by apply phase_backed_plain| |done].
    + by destruct Hph.
    + destruct Hph as [|Hadv]; [done|]. by destruct ph.
    + intros w2 Hw2 _. by eapply wp_resolve_recovery.
Qed.
Lemma wp_recover_locked x execution v n w :
  held_view v (n + 12) w →
  wp (recover_locked ports x execution) settled
    (λ _ w', stopped w' ∧ (c = true → jv_receipt v = None ∧ recovery_refused x execution v
                           ∨ jv_receipt v ≠ None ∧ x ≠ id)) w.
Proof.
  intros Hw. unfold recover_locked. apply wp_bind. eapply wp_co_state_first; [exact Hw| | |].
  3: { intros e j Hx Hw'. split; [by eapply held_view_stopped|]. intros Hc. specialize (Hx Hc).
       destruct (jv_receipt v); [by right|left]. split; [done|]. by left. }
  { intros st s j Hr -> (Hj & Hi & _). apply wp_ret. by exists true, v, s. }
  intros st j Hnone Hst -> Hv. pose proof Hst as (-> & Hph & Hop & Hnt & _).
  assert (stopped (on w j)) as Hstop by by eapply at_view_stopped.
  set (X := λ (_ : CoordinatorError) w', stopped w' ∧ _).
  assert (recovery_refused id execution v → X CoBusy (on w j)) as Hno by by split; auto.
  assert (∀ e w', halted e w' → X e w') as Hhalt by (intros e w' [Hc ?]; split; [done|]; intros; congruence).
  assert (∀ e, c = false → X e (on w j)) as Hfault by (intros e Hc; split; [done|]; intros; congruence).
  apply wp_bind, wp_lift; [intros ex Hex|intros e He; apply Hno; right; left; by destruct execution].
  destruct execution as [?|]; simplify_eq/=. apply wp_bind. rewrite (reported_baton _ _ Hst). apply wp_ret.
  apply wp_bind, wp_lift; cycle 1.
  { intros e He. apply Hno. right; right; left. exists ex. by rewrite He. }
  intros [] _. set (ph := derive_bootstrap_phase (jv_records v)) in *. rewrite Hph.
  assert (ph ≠ BpManualRecoveryRequired → jv_notice v = None) as Hnotice.
  { intros Hne. destruct (jv_notice v) as [nt|] eqn:E; [|done].
    by destruct (so_notice _ (hi_sound _ _ _ (av_inv _ _ _ Hv)) nt E). }
  assert (pending_generations baton ph = [] → open_effect (jv_records v) = None) as Hopen.
  { intros Hp. destruct (open_effect (jv_records v)) as [e|] eqn:E; [|done].
    pose proof (hi_open _ _ _ (av_inv _ _ _ Hv) e E) as He. fold ph in He. rewrite Hp in He. by apply elem_of_nil in He. }
  assert (∀ y, sealable y v (co_trace (on w j)) → wp (co_seal y) settled X (on w j)) as Hseal.
  { intros y Hy. eapply wp_co_seal; [done|done| |done]. intros w' Hw' _. by apply ended_settled. }
  assert (resume_phase ph → jv_notice v = None → ∀ Y, Y = wp (_ ← match brs_open_effect st with
          | Some effect => reconcile_open_effect ports ex baton ph effect | None => mret () end;
      again ← co_state id;
      _ ← (if brs_phase again ≠? BpRecovering then co_advance id BpRecovering else mret ());
      resolve_recovery ports ex baton) settled X (on w j) → Y) as Hresume.
  { intros Hr Hn Y ->. eapply wp_mono; [by apply wp_resume with (v := v) (n := n)|apply ended_settled|done]. }
  pose proof (hi_phase _ _ _ (av_inv _ _ _ Hv)) as (Hp1 & Hp2 & Hp3). fold ph in Hp1, Hp2, Hp3.
  destruct ph eqn:Eph; try done; try (eapply Hresume; [by right|by apply Hnotice|done]).
  - apply wp_bind, wp_co_receipt; [done|intros y Hid Hk Hh|done]. apply Hseal.
    split_and!; try done; rewrite ?Hk; try done; [by apply Hopen|]. fold ph. by rewrite Eph.
  - apply wp_bind, wp_co_receipt; [done|intros y Hid Hk Hh|done]. apply Hseal.
    split_and!; try done; rewrite ?Hk; try done; [by apply Hopen|]. fold ph. by rewrite Eph.
  - apply wp_bind. unfold rollback_evidence. apply wp_bind, wp_hash; [|intros hash _|done].
    { intros Hc. by destruct (calm_encodes Hc). }
    apply wp_bind, wp_stable_id; [done|intros i|done]. apply wp_ret, wp_bind, wp_co_receipt; [done|intros y Hid Hk Hh|done].
    apply Hseal. split_and!; try done; rewrite ?Hk; try done; [by apply Hopen|fold ph; by rewrite Eph|].
    cbn. apply (hi_rolled _ _ _ (av_inv _ _ _ Hv)). by fold ph.
  - rewrite Hnt. destruct (jv_notice v) as [nt|] eqn:En; cycle 1.
    { apply wp_bind, wp_lift; [done|]. intros e _. apply Hno. right; right; right. split; [by fold ph|done]. }
    apply wp_bind, wp_ret, wp_bind, wp_co_receipt; [done|intros y Hid Hk Hh|done]. apply Hseal.
    split_and!; try done; rewrite ?Hk; try done; [by apply Hopen|fold ph; by rewrite Eph].
  - eapply Hresume; [by left|by apply Hnotice|done].
Qed.
End steps.
