(* ===== verification/HelperTheorems.v ===== *)
(** * Activations from admission to receipt

    Histories of the helper: a baton is admitted into an empty journal, then
    the coordinator executes and recovers, storage calls fail, processes end
    and start again ([helper_reaches]).  Every history is disciplined
    ([activation_disciplined]), and a recovery on working storage ends the
    activation with a durable receipt ([recovery_completes]). *)
From S2P Require Export HelperCoordinatorProofs.

Local Open Scope repair_scope.

Section theorems.
Context `{Sha256, RepairSerialize, JournalSerialize, HelperSerialize}.
Context {S : Type} (ports : HelperPorts S) (baton : BatonAcceptedV1).
Abbreviation id := (bac_activation_id baton).

(** What the gateway journals before it acknowledges a baton. *)
Definition admit_baton : hj JournalDurableAckV1 :=
  _ ← acquire_single_flight;
  _ ← append_baton_accepted baton;
  advance_phase (MkPhaseAdvance id 1 BpAdmittingBaton BpBatonDurable).

(** The coordinator runs while its journal holds the lock; the calls on the
    platform so far are part of the history. *)
Inductive helper_reaches : CoordinatorState S → CoordinatorState S → Prop :=
| helper_refl w : helper_reaches w w
| helper_execute execution w w' :
    aj_held (co_journal w) = true →
    helper_reaches (execute_activation ports execution w).1 w' → helper_reaches w w'
| helper_recover x execution w w' :
    aj_held (co_journal w) = true →
    helper_reaches (recover_activation ports x execution w).1 w' → helper_reaches w w'
| helper_acquire w w' : helper_reaches (on_journal acquire_single_flight w).1 w' → helper_reaches w w'
| helper_restart fates env w w' :
    helper_reaches (MkCoordinatorState (restart fates (co_journal w)) env (co_trace w) false) w' →
    helper_reaches w w'.

(** ** The invariant of a history *)

Lemma admit_baton_view fates j a :
  admit_baton (MkActivationJournal empty_root false false fates) = (j, Ok a) →
  ∃ v, journal_at false true v j ∧ helper_inv baton v [].
Proof.
  intros Hrun.
  assert (wp admit_baton (λ _ j, ∃ v, journal_at false true v j ∧ helper_inv baton v []) (λ _ _, True)
    (MkActivationJournal empty_root false false fates)) as Hw; [|unfold wp in Hw; by rewrite Hrun in Hw].
  unfold admit_baton. apply wp_bind. eapply wp_mono; [apply wp_acquire, empty_root_at| |done]. intros [] j1 [_ Hj1].
  apply wp_bind. eapply wp_mono; [by apply wp_append_baton_accepted| |done].
  intros _ j2 (_ & h & Hid & Hbh & r & Hnil & _ & Hvh & Hr & Hj2). cbn in Hr.
  set (v1 := with_record r _) in Hj2. destruct (next_record_spec _ _ _ Hr) as (_ & _ & Hp & _).
  assert (journal_sound v1) as Hsound.
  { eapply (journal_sound_record (JhActivation h) (with_header (JhActivation h) empty_view) (JpBatonAccepted baton));
      [|done|done|done|by left]. eapply journal_step_sound; [by apply step_header|apply empty_view_sound]. }
  eapply wp_mono; [by apply wp_advance_phase| |done].
  intros _ j3 (_ & (Hready & Hlen & _ & Hph & Hl) & r' & Hr' & Hj3). cbn [bpa_next_phase] in Hl, Hr'.
  eexists. split; [exact Hj3|]. destruct (next_record_spec _ _ _ Hr') as (_ & _ & Hp' & _).
  assert (derive_bootstrap_phase (jv_records (with_record r' v1)) = BpBatonDurable) as Hphase.
  { cbn [jv_records with_record]. rewrite derive_phase_snoc. unfold derive_bootstrap_phase_from. by rewrite Hp'. }
  split; rewrite ?Hphase; try done.
  - destruct Hready as (h' & Hh' & _). by eapply journal_sound_record; [done|exact Hh'|done|done|right].
  - by eapply ready_for_record.
  - cbn. unfold accepted_baton at 1. rewrite Hp. done.
  - intros e. cbn [jv_records with_record]. rewrite open_effect_snoc. unfold open_effect_from. rewrite Hp'.
    destruct Hl as [Ho _]. by rewrite Ho.
  - intros [|] ? ? ? [=].
Qed.

Lemma in_flight_spec {A} (m : stm (CoordinatorState S) CoordinatorError A) Q X w :
  co_flight w = false →
  wp m (λ a w', Q a (MkCoordinatorState (co_journal w') (co_env w') (co_trace w') false))
    (λ e w', X e (MkCoordinatorState (co_journal w') (co_env w') (co_trace w') false))
    (MkCoordinatorState (co_journal w) (co_env w) (co_trace w) true) →
  wp (in_flight m) Q X w.
Proof. unfold wp, in_flight. intros ->. by destruct (m _) as [w' [a|e]]. Qed.
Lemma in_flight_stopped {A} (m : stm (CoordinatorState S) CoordinatorError A) w :
  stopped baton false w →
  (∀ w1, co_journal w1 = co_journal w → co_trace w1 = co_trace w →
     wp m (λ _, stopped baton false) (λ _, stopped baton false) w1) →
  stopped baton false (in_flight m w).1.
Proof.
  intros Hw Hm. unfold in_flight. destruct (co_flight w); [done|].
  specialize (Hm (MkCoordinatorState (co_journal w) (co_env w) (co_trace w) true) eq_refl eq_refl). unfold wp in Hm.
  by destruct (m _) as [w' [a|e]].
Qed.
Lemma settled_stopped c x (w : CoordinatorState S) : settled baton c x w → stopped baton c w.
Proof. intros (b & v & s & ? & ? & _). by exists b, v. Qed.
Lemma stopped_held (w : CoordinatorState S) :
  stopped baton false w → aj_held (co_journal w) = true → ∃ v, ∀ n, held_view baton false v n w.
Proof.
  intros (b & v & Hj & Hi) Hh. assert (b = true) as -> by (destruct Hj; congruence). exists v. intros n. by split_and!.
Qed.
Lemma held_view_same c v n (w w' : CoordinatorState S) :
  co_journal w' = co_journal w → co_trace w' = co_trace w → held_view baton c v n w → held_view baton c v n w'.
Proof. unfold held_view. by intros -> ->. Qed.
Lemma reaches_stopped w w' : helper_reaches w w' → stopped baton false w → stopped baton false w'.
Proof.
  induction 1 as [w|execution w w' Hh _ IH|x execution w w' Hh _ IH|w w' _ IH|fates env w w' _ IH]; intros Hw;
    [done|apply IH..].
  - destruct (stopped_held w Hw Hh) as [v Hv]. apply in_flight_stopped; [done|]. intros w1 Hj Ht.
    eapply wp_mono; [eapply (wp_execute_locked ports baton false) with (n := 0); [done..|]; by eapply held_view_same
      |intros ? ?; apply settled_stopped|done].
  - destruct (stopped_held w Hw Hh) as [v Hv]. apply in_flight_stopped; [done|]. intros w1 Hj Ht.
    eapply wp_mono; [eapply (wp_recover_locked ports baton false) with (n := 0); [done..|]; by eapply held_view_same
      |intros ? ?; apply settled_stopped|by intros ? ? [? _]].
  - destruct Hw as (b & v & Hj & Hi). pose proof (wp_acquire _ _ _ _ Hj) as Ha. unfold wp in Ha. unfold on_journal.
    destruct (acquire_single_flight (co_journal w)) as [j [a|e]]; [exists true, v|exists b, v]; naive_solver.
  - destruct Hw as (b & v & [Hs _ _] & Hi). exists false, v. split; [|done]. split; [by apply stored_as_locked|done|done].
Qed.
Lemma admitted_reaches_stopped fates j a env w :
  admit_baton (MkActivationJournal empty_root false false fates) = (j, Ok a) →
  helper_reaches (MkCoordinatorState j env [] false) w → stopped baton false w.
Proof.
  intros Hrun Hr. apply (reaches_stopped _ _ Hr). destruct (admit_baton_view _ _ _ Hrun) as (v & Hj & Hi).
  by exists true, v.
Qed.
(** ** The theorems *)

(** C13: Whatever the ports answer, whichever storage calls fail and however often
    the process ends, from the admission of a baton on: every call the
    coordinator made on the platform was entitled by the journal as it was on
    disk at that moment (a cleanup by an open intent of its generation; a
    switch and a launch by the open intent that names it, in the phase for it;
    a launch by the watchdog's proof that
    the generation before is gone; the candidate is marked good only under a
    durable receipt that says so); the journal is sound and still names the
    baton; and a receipt claims only what the watchdog reported. *)
Theorem activation_disciplined fates j a env w :
  admit_baton (MkActivationJournal empty_root false false fates) = (j, Ok a) →
  helper_reaches (MkCoordinatorState j env [] false) w →
  trace_justified baton (co_trace w)
  ∧ ∃ v, stored_as (aj_root (co_journal w)) v ∧ journal_sound v
    ∧ head (omap accepted_baton (jv_records v)) = Some baton
    ∧ ∀ s, jv_receipt v = Some (TrBootstrapResult s) →
        bsr_activation_id (bts_receipt s) = id ∧ result_backed baton (co_trace w) (bsr_result (bts_receipt s)).
Proof.
  intros Hrun Hr. destruct (admitted_reaches_stopped _ _ _ _ _ Hrun Hr) as (b & v & [Hs _ _] & Hi).
  split; [apply Hi|]. exists v. split_and!; [done|apply Hi|apply Hi|].
  intros s Hx. destruct (hi_sealed _ _ _ Hi _ Hx) as (s' & [= <-] & _ & ? & ?). done.
Qed.

(** C14: Recovery ends an activation: on storage that works, with the lock held, with
    room for twelve records and an execution that matches the baton, from every
    state a history can leave (but the one between a manual-recovery phase and
    its notice), recovery returns a receipt, which is then durable and backed
    by what the watchdog reported, whatever the platform answers. *)
Theorem recovery_completes `{!HelperEncodes, !Sha256Laws} fates j a env w v execution :
  admit_baton (MkActivationJournal empty_root false false fates) = (j, Ok a) →
  helper_reaches (MkCoordinatorState j env [] false) w →
  aj_held (co_journal w) = true → aj_fates (co_journal w) = [] → co_flight w = false →
  stored_as (aj_root (co_journal w)) v → len (jv_records v) + 12 ≤ MAX_JOURNAL_RECORDS →
  (derive_bootstrap_phase (jv_records v) = BpManualRecoveryRequired → is_Some (jv_notice v)) →
  validate_execution execution baton = Ok () →
  ∃ x w' v' s, recover_activation ports id (Some execution) w = (w', Ok x)
    ∧ stored_as (aj_root (co_journal w')) v' ∧ jv_receipt v' = Some (TrBootstrapResult s) ∧ bts_receipt s = x
    ∧ result_backed baton (co_trace w') (bsr_result x).
Proof.
  intros Hrun Hr Hheld Hfates Hflight Hs Hlen Hman Hval.
  destruct (admitted_reaches_stopped _ _ _ _ _ Hrun Hr) as (b & v' & [Hs' Hb _] & Hi).
  assert (v' = v) as -> by by eapply stored_as_unique.
  set (w1 := MkCoordinatorState (co_journal w) (co_env w) (co_trace w) true).
  assert (held_view baton true v (0 + 12) w1) as Hv by (split_and!; [by split|done|lia]).
  pose proof (wp_recover_locked ports baton true (λ _, _) (λ _, _) id (Some execution) v 0 w1 Hv) as Hw.
  assert (wp (recover_activation ports id (Some execution))
    (λ x w', ∃ v' s, stored_as (aj_root (co_journal w')) v' ∧ jv_receipt v' = Some (TrBootstrapResult s)
       ∧ bts_receipt s = x ∧ result_backed baton (co_trace w') (bsr_result x)) (λ _ _, False) w) as Hrec.
  { apply in_flight_spec; [done|]. eapply wp_mono; [exact Hw|..].
    - intros x w' (b' & v' & s & [Hs'' _ _] & Hi' & Hx & Heq). exists v', s. split_and!; try done.
      destruct (hi_sealed _ _ _ Hi' _ Hx) as (s' & [= <-] & _ & _ & ?). by subst.
    - intros e w' [_ Hno]. destruct (Hno eq_refl) as [[_ Hre]|[_ ?]]; [|done].
      destruct Hre as [?|[?|[(ex & ? & ?)|[Hp Hn]]]]; try done; [by simplify_eq|].
      rewrite Hn in Hman. by destruct (Hman Hp). }
  unfold wp in Hrec. destruct (recover_activation ports id (Some execution) w) as [w' [x|e]]; [|done].
  destruct Hrec as (v' & s & ?). by exists x, w', v', s.
Qed.

(** ** Manual recovery without its notice *)

(** The phase is journaled before the notice is stored; what a failure between
    the two leaves. *)
Definition notice_lost (v : root_view) : Prop :=
  derive_bootstrap_phase (jv_records v) = BpManualRecoveryRequired ∧ jv_notice v = None ∧ jv_receipt v = None.
Definition unmoved (v : root_view) (t : trace) (w : CoordinatorState S) : Prop :=
  ∃ b, journal_at false b v (co_journal w) ∧ helper_inv baton v t ∧ co_trace w = t.
Lemma held_unmoved v w j : held_view baton false v 0 (on w j) → unmoved v (co_trace w) (on w j).
Proof. intros (? & ? & _). by exists true. Qed.
Lemma wp_lost_state {A} x (k : BootstrapRecoveryStateV1 → stm (CoordinatorState S) CoordinatorError A) v w :
  notice_lost v → held_view baton false v 0 w →
  (∀ st, reported baton v st → ∀ w', unmoved v (co_trace w) w' →
     wp (k st) (λ _ _, False) (λ _, unmoved v (co_trace w)) w') →
  wp (co_state x ≫= k) (λ _ _, False) (λ _, unmoved v (co_trace w)) w.
Proof.
  intros (Hp & Hn & Hr) Hw Hk. apply wp_bind. eapply wp_co_state_first; [done| | |].
  - intros st s j Hs. congruence.
  - intros st j _ Hst _ [Hj Hi _ _]. apply Hk; [done|]. by exists true.
  - intros e j _ Hv. by apply held_unmoved.
Qed.
Lemma wp_lost_step {A B} (r : result CoordinatorError A) (k : A → stm (CoordinatorState S) CoordinatorError B) v t w :
  unmoved v t w → (∀ a, r = Ok a → wp (k a) (λ _ _, False) (λ _, unmoved v t) w) →
  wp (a ← lift r; k a) (λ _ _, False) (λ _, unmoved v t) w.
Proof. intros Hw Hk. by apply wp_bind, wp_lift. Qed.
Lemma wp_lost_execute execution v w :
  notice_lost v → held_view baton false v 0 w →
  wp (execute_locked ports execution) (λ _ _, False) (λ _, unmoved v (co_trace w)) w.
Proof.
  intros Hl Hw. apply wp_lost_state; [done|done|]. intros st (-> & Hp & _ & _ & -> & _) w1 Hw1.
  apply wp_lost_step; [done|]. intros b [= <-]. apply wp_lost_step; [done|]. intros [] _. rewrite Hp, (proj1 Hl).
  by apply wp_bind.
Qed.
Lemma wp_lost_recover x execution v w :
  notice_lost v → held_view baton false v 0 w →
  wp (recover_locked ports x execution) (λ _ _, False) (λ _, unmoved v (co_trace w)) w.
Proof.
  intros Hl Hw. apply wp_lost_state; [done|done|]. intros st (-> & Hp & _ & Hn & -> & _) w1 Hw1.
  apply wp_lost_step; [done|]. intros ex _. apply wp_lost_step; [done|]. intros b [= <-].
  apply wp_lost_step; [done|]. intros [] _. rewrite Hp, (proj1 Hl), Hn, (proj1 (proj2 Hl)). by apply wp_lost_step.
Qed.
Lemma in_flight_lost {A} (m : stm (CoordinatorState S) CoordinatorError A) v w :
  unmoved v (co_trace w) w →
  (∀ w1, co_journal w1 = co_journal w → co_trace w1 = co_trace w →
     wp m (λ _ _, False) (λ _, unmoved v (co_trace w1)) w1) →
  is_ok (in_flight m w).2 = false ∧ unmoved v (co_trace w) (in_flight m w).1.
Proof.
  intros Hw Hm. unfold in_flight. destruct (co_flight w); [done|].
  specialize (Hm (MkCoordinatorState (co_journal w) (co_env w) (co_trace w) true) eq_refl eq_refl). unfold wp in Hm.
  by destruct (m _) as [w' [a|e]].
Qed.
Lemma unmoved_held v w :
  unmoved v (co_trace w) w → aj_held (co_journal w) = true →
  ∀ w1 : CoordinatorState S, co_journal w1 = co_journal w → co_trace w1 = co_trace w → held_view baton false v 0 w1.
Proof.
  intros (b & Hj & Hi & _) Hh w1 Hj1 Ht1. assert (b = true) as -> by (destruct Hj; congruence).
  split_and!; [by rewrite Hj1|by rewrite Ht1|done].
Qed.
Lemma lost_execute execution v w :
  notice_lost v → unmoved v (co_trace w) w → aj_held (co_journal w) = true →
  is_ok (execute_activation ports execution w).2 = false
  ∧ unmoved v (co_trace w) (execute_activation ports execution w).1.
Proof.
  intros Hl Hw Hh. apply in_flight_lost; [done|]. intros w1 Hj Ht. apply wp_lost_execute; [done|].
  by eapply unmoved_held.
Qed.
Lemma lost_recover x execution v w :
  notice_lost v → unmoved v (co_trace w) w → aj_held (co_journal w) = true →
  is_ok (recover_activation ports x execution w).2 = false
  ∧ unmoved v (co_trace w) (recover_activation ports x execution w).1.
Proof.
  intros Hl Hw Hh. apply in_flight_lost; [done|]. intros w1 Hj Ht. apply wp_lost_recover; [done|].
  by eapply unmoved_held.
Qed.
Lemma reaches_unmoved w w' v t :
  helper_reaches w w' → notice_lost v → unmoved v t w → unmoved v t w'.
Proof.
  intros Hr Hl. induction Hr as [w|execution w w' Hh _ IH|x execution w w' Hh _ IH|w w' _ IH|fates env w w' _ IH];
    intros Hw; [done|apply IH..]; pose proof Hw as (b & Hj & Hi & Ht).
  - rewrite <-Ht in Hw |- *. by apply lost_execute.
  - rewrite <-Ht in Hw |- *. by apply lost_recover.
  - pose proof (wp_acquire _ _ _ _ Hj) as Ha. unfold wp in Ha. unfold on_journal.
    destruct (acquire_single_flight (co_journal w)) as [j [a|e]]; [exists true|exists b]; naive_solver.
  - destruct Hj as [Hs _ _]. exists false. split_and!; [|done|done]. split; [by apply stored_as_locked|done|done].
Qed.

(** Once the phase of manual recovery is journaled and its notice is not, no
    later call changes the journal or acts on the platform, and no recovery
    ever returns a receipt. *)
Theorem manual_without_notice_wedges fates j a env w v w' :
  admit_baton (MkActivationJournal empty_root false false fates) = (j, Ok a) →
  helper_reaches (MkCoordinatorState j env [] false) w →
  stored_as (aj_root (co_journal w)) v → notice_lost v → helper_reaches w w' →
  stored_as (aj_root (co_journal w')) v ∧ co_trace w' = co_trace w
  ∧ (aj_held (co_journal w') = true → ∀ x execution, is_ok (recover_activation ports x execution w').2 = false).
Proof.
  intros Hrun Hr Hs Hl Hr'. destruct (admitted_reaches_stopped _ _ _ _ _ Hrun Hr) as (b & v' & Hj & Hi).
  assert (v' = v) as -> by (eapply stored_as_unique; [apply Hj|done]).
  assert (unmoved v (co_trace w) w') as Hw' by (eapply reaches_unmoved; [done|done|]; by exists b).
  pose proof Hw' as (b' & [Hs' _ _] & _ & Ht). split_and!; [done|done|]. intros Hh x execution.
  rewrite <-Ht in Hw'. by apply (lost_recover x execution v).
Qed.
End theorems.
