(* ===== verification/HelperGateway.v ===== *)
(** * The bootstrap gateway
      ([crates/aworkit-bootstrap-helper/src/protocol/])

    [BootstrapGateway], the helper's boundary to the trusted core, over the
    journal ([HelperJournal]) and three ports: the profile's preflight, the
    preparer of enrollments and the entropy of the operating system
    ([GatewayPorts], arbitrary functions of an environment).  Its state lives
    in memory; a mutex makes each call atomic, and what a call changed before
    it failed stays changed. *)
From S2P Require Export HelperCoordinator.

Local Open Scope repair_scope.

Definition BOOTSTRAP_PROTOCOL_VERSION_V1 : N := 1.
Definition MAX_SEEN_COMMAND_IDS : N := 256.
Definition MAX_BOOTSTRAP_DTO_BYTES : N := 262144.
Definition MAX_BOOTSTRAP_DEADLINE_MS : N := 600000.
Definition CHALLENGE_TTL_MS : N := 300000.

(** ** Data *)

Record PeerIdentityV1 : Type := MkPeerIdentity {
  peer_process_generation : ProcessGeneration;
  peer_executable_hash : string;
  peer_os_identity_hash : string
}.
#[export] Instance PeerIdentityV1_eq_dec : EqDecision PeerIdentityV1.
Proof. solve_decision. Defined.
Record BootstrapChallengeV1 : Type := MkChallenge {
  bch_challenge_id : StableId;
  bch_protocol_version : N;
  bch_nonce : string;
  bch_helper_identity_hash : string;
  bch_expected_peer : PeerIdentityV1;
  bch_issued_at_epoch_ms : N;
  bch_expires_at_epoch_ms : N;
  bch_challenge_hash : string
}.
Inductive LocalBuildEnrollmentStateV1 : Type := LeEnrolled | LeNotEnrolled | LeMismatched.
#[export] Instance LocalBuildEnrollmentStateV1_eq_dec : EqDecision LocalBuildEnrollmentStateV1.
Proof. solve_decision. Defined.
Record OwnershipFactsV1 : Type := MkOwnershipFacts {
  own_per_user_owned : bool;
  own_same_volume : bool;
  own_selector_atomic : bool;
  own_helper_survives_outside_slots : bool
}.
Record LocalBuildEnrollmentV1 : Type := MkLocalEnrollment {
  lbe_installation_id : StableId;
  lbe_profile_version : N;
  lbe_enrollment_digest : string;
  lbe_active_slot_hash : string;
  lbe_current_bundle_hash : string;
  lbe_selector_identity_hash : string;
  lbe_helper_identity_hash : string;
  lbe_launcher_identity_hash : string;
  lbe_journal_identity_hash : string;
  lbe_ownership : OwnershipFactsV1;
  lbe_state : LocalBuildEnrollmentStateV1
}.
Inductive BootstrapCommandV1 : Type :=
| BcBeginActivation (command_id activation_id challenge_id : StableId) (expected_phase : BootstrapPhaseV1)
| BcCandidateGenerationReady (command_id activation_id : StableId) (generation : ProcessGeneration)
| BcFocusedVerificationCompleted (command_id activation_id : StableId) (generation : ProcessGeneration)
    (verification_plan_hash : string) (outcome : CapabilityOutcomeV1)
| BcReadResult (command_id activation_id : StableId) (recipient_process_generation : ProcessGeneration).
Record BootstrapCommandAckV1 : Type := MkCommandAck {
  bca_command_id : StableId;
  bca_activation_id : StableId;
  bca_command_hash : string;
  bca_phase : BootstrapPhaseV1;
  bca_durable : bool
}.
Record HelperIdentityV1 : Type := MkHelperIdentity {
  hid_helper_identity_hash : string;
  hid_profile_version : N;
  hid_enrollment_identities : EnrollmentIdentitiesV1
}.
Record BootstrapSessionV1 : Type := MkSession {
  bss_activation_id : StableId;
  bss_protocol_version : N;
  bss_peer : PeerIdentityV1;
  bss_challenge_id : StableId;
  bss_challenge_nonce : string;
  bss_challenge_hash : string;
  bss_helper_identity_hash : string;
  bss_provenance_digest : string;
  bss_enrollment_digest : string;
  bss_capability_generation : N;
  bss_capability_digest : string;
  bss_accepted_baton_hash : string;
  bss_verification_plan_hash : string;
  bss_current_process_generation : ProcessGeneration;
  bss_candidate_process_generation : ProcessGeneration;
  bss_rollback_process_generation : ProcessGeneration
}.
Inductive ActiveTransactionV1 : Type :=
| AtEnrollment (enrollment_id : StableId)
| AtActivation (activation_id : StableId).

(** [GePanicked] stands for a failed [expect]. *)
Inductive GatewayError : Type :=
| GeBounded (what : string)
| GePeerMismatch
| GeChallengeInvalid
| GeChallengeConsumed
| GeCommandReplayed
| GeStaleGeneration
| GeCapabilityDrift
| GeUnsupported (reason : PlatformReasonV1)
| GeTransactionActive
| GeNoActiveTransaction
| GeIllegalPhase
| GeRecipientMismatch
| GeJournal (error : BootstrapJournalError)
| GePort (what : string)
| GePanicked.

Definition gateway_error_is_unsupported (e : GatewayError) : bool :=
  match e with GeUnsupported _ => true | _ => false end.

(** ** State and ports *)

Record GatewayState : Type := MkGatewayState {
  gs_challenge : option BootstrapChallengeV1;
  gs_consumed_challenge : option StableId;
  gs_active : option ActiveTransactionV1;
  gs_session : option BootstrapSessionV1;
  gs_baton_admissions : gmap string (string * BootstrapAdmissionV1);
  gs_command_seen : gmap string (string * BootstrapCommandAckV1)
}.
Definition default_state : GatewayState := MkGatewayState None None None None ∅ ∅.

Record GatewayPorts (S : Type) : Type := MkGatewayPorts {
  gp_capability_report :
    BuildProvenanceV1 → LocalBuildEnrollmentV1 → BuildBundleRefV1 → option BuildBundleRefV1 →
    S → S * result string PlatformCapabilityReportV1;
  gp_revalidate_baton_binding :
    RepairActivationBatonV1 → S → S * result string PlatformCapabilityReportV1;
  gp_enrollment_plan : ManagedLocalEnrollmentRequestV1 → S → S * result string EnrollmentPlanV1;
  gp_materialize :
    ManagedLocalEnrollmentRequestV1 → EnrollmentPlanV1 → S → S * result string EnrollmentPreparationV1;
  gp_entropy : S → S * option bytes
}.
Arguments gp_capability_report {S}.
Arguments gp_revalidate_baton_binding {S}.
Arguments gp_enrollment_plan {S}.
Arguments gp_materialize {S}.
Arguments gp_entropy {S}.

Record BootstrapGateway (S : Type) : Type := MkGateway {
  bg_journal : ActivationJournal;
  bg_env : S;
  bg_state : GatewayState;
  bg_id_counter : N
}.
Arguments MkGateway {S}.
Arguments bg_journal {S}.
Arguments bg_env {S}.
Arguments bg_state {S}.
Arguments bg_id_counter {S}.

Definition challenge_key : Type := StableId * N * string * string * PeerIdentityV1 * N * N.
Definition baton_command_key : Type := RepairActivationBatonV1 * string * string * string.
Class GatewaySerialize : Type := {
  gz_entropy :: Serialize bytes;
  gz_challenge :: Serialize challenge_key;
  gz_baton_command :: Serialize baton_command_key;
  gz_command :: Serialize BootstrapCommandV1;
  gz_report :: Serialize PlatformCapabilityReportV1;
  gz_request :: Serialize ManagedLocalEnrollmentRequestV1;
  gz_enrollment :: Serialize LocalBuildEnrollmentV1;
  gz_provenance :: Serialize BuildProvenanceV1;
  gz_bundle :: Serialize BuildBundleRefV1;
  gz_preparation :: Serialize EnrollmentPreparationV1
}.

(** ** Validation *)

Definition gateway_is_hash (value : string) : bool :=
  match strip_prefix "sha256:" value with
  | Some digits => (str_len value =? 71) && all_bytes is_ascii_hexdigit digits
  | None => false
  end.
Definition validate_dto_size {T} `{Serialize T} (value : T) : result GatewayError () :=
  encoded ← ok_or (to_vec value) (GeBounded "DTO cannot be encoded");
  fail_if (MAX_BOOTSTRAP_DTO_BYTES <? len encoded) (GeBounded "DTO exceeds bootstrap byte bound").
Definition validate_peer (peer : PeerIdentityV1) : result GatewayError () :=
  fail_if ((peer_process_generation peer =? 0) || negb (gateway_is_hash (peer_executable_hash peer))
           || negb (gateway_is_hash (peer_os_identity_hash peer)))
    (GeBounded "peer identity must carry executable and OS hashes").

Definition gateway_reason (code message : string) : PlatformReasonV1 :=
  MkPlatformReason code message ["restart through the stable launcher"].
Definition clear_digest (r : PlatformCapabilityReportV1) : PlatformCapabilityReportV1 :=
  MkCapabilityReport (pcr_schema_version r) (pcr_report_id r) (pcr_candidate_id r)
    (pcr_candidate_version r) (pcr_candidate_hash r) (pcr_capability_generation r)
    (pcr_build_origin r) (pcr_eligibility r) (pcr_reason r) (pcr_current_build r)
    (pcr_previous_working_build r) (pcr_valid_from_epoch_ms r) (pcr_expires_at_epoch_ms r) "".

(** ** Commands *)

Definition command_binding (command : BootstrapCommandV1) :
    StableId * StableId * option ProcessGeneration * string :=
  match command with
  | BcBeginActivation command_id activation_id _ _ =>
      (command_id, activation_id, None, "begin_activation")
  | BcCandidateGenerationReady command_id activation_id generation =>
      (command_id, activation_id, Some generation, "candidate_generation_ready")
  | BcFocusedVerificationCompleted command_id activation_id generation _ _ =>
      (command_id, activation_id, Some generation, "focused_verification_completed")
  | BcReadResult command_id activation_id recipient =>
      (command_id, activation_id, Some recipient, "read_result")
  end.
Definition command_legal_in_phase (kind : string) (phase : BootstrapPhaseV1) : bool :=
  if kind ≟ "begin_activation" then phase ≟ BpBatonDurable
  else if kind ≟ "candidate_generation_ready"
  then match phase with BpAwaitingCandidateIdentity | BpPreviousRelaunching => true | _ => false end
  else if kind ≟ "focused_verification_completed" then phase ≟ BpCandidateVerifying
  else if kind ≟ "read_result"
  then match phase with
       | BpResultAvailable | BpVerified | BpRolledBack | BpManualRecoveryRequired => true
       | _ => false
       end
  else false.
Definition generation_matches (session : BootstrapSessionV1) (kind : string)
    (phase : BootstrapPhaseV1) (generation : option ProcessGeneration) : bool :=
  match generation with
  | None => true
  | Some generation =>
      if (kind ≟ "candidate_generation_ready") && (phase ≟ BpPreviousRelaunching)
      then generation ≟ bss_rollback_process_generation session
      else if (kind ≟ "candidate_generation_ready") || (kind ≟ "focused_verification_completed")
      then generation ≟ bss_candidate_process_generation session
      else if kind ≟ "read_result"
      then (generation ≟ bss_current_process_generation session)
           || (generation ≟ bss_candidate_process_generation session)
           || (generation ≟ bss_rollback_process_generation session)
      else true
  end.

Section gateway.
Context `{Sha256, RepairSerialize, JournalSerialize, HelperSerialize, GatewaySerialize}.
Context {S : Type} (ports : GatewayPorts S) (helper : HelperIdentityV1).
Abbreviation gw := (stm (BootstrapGateway S) GatewayError).

Definition validate_baton (baton : RepairActivationBatonV1) : result GatewayError () :=
  let deadlines := bat_deadlines baton in
  let current := bat_current_process_generation baton in
  let candidate := bat_candidate_process_generation baton in
  let rollback := bat_rollback_process_generation baton in
  _ ← validate_dto_size baton;
  _ ← fail_if (negb (gateway_is_hash (bat_baton_hash baton))
    || negb (gateway_is_hash (bat_candidate_hash baton))
    || negb (gateway_is_hash (bat_disclosure_hash baton))
    || negb (gateway_is_hash (bat_provenance_hash baton))
    || negb (gateway_is_hash (bat_enrollment_digest baton))
    || negb (gateway_is_hash (bat_capability_digest baton))
    || negb (gateway_is_hash (fvp_plan_hash (bat_verification_plan baton)))
    || (bat_candidate_version baton =? 0)
    || (bat_schema_version baton ≠? BOOTSTRAP_PROTOCOL_VERSION_V1)
    || (current =? 0) || (candidate =? 0) || (rollback =? 0)
    || (current ≟ candidate) || (current ≟ rollback) || (candidate ≟ rollback)
    || existsb (λ deadline, (deadline =? 0) || (MAX_BOOTSTRAP_DEADLINE_MS <? deadline))
         [bdl_admission_ms deadlines; bdl_cleanup_ms deadlines; bdl_startup_ms deadlines;
          bdl_focused_verification_ms deadlines; bdl_rollback_ms deadlines; bdl_result_read_ms deadlines])
    (GeBounded "baton is missing a required bound value");
  hash ← map_err GeJournal (canonical_hash (with_baton_hash "" baton));
  fail_if (hash ≠? bat_baton_hash baton) (GeBounded "baton hash does not cover the baton bytes").
Definition gateway_validate_enrollment_request (request : ManagedLocalEnrollmentRequestV1) :
    result GatewayError () :=
  let artifact := bbr_artifact (mer_whole_bundle request) in
  _ ← validate_dto_size request;
  fail_if (negb (gateway_is_hash (mer_candidate_hash request))
    || negb (gateway_is_hash (mer_capability_digest request))
    || negb (gateway_is_hash (mer_projected_provenance_hash request))
    || negb (gateway_is_hash (rar_content_hash artifact)) || (rar_byte_size artifact =? 0))
    (GeBounded "enrollment request is missing a bound value").
Definition validate_enrollment (e : LocalBuildEnrollmentV1) : result GatewayError () :=
  _ ← validate_dto_size e;
  fail_if ((lbe_profile_version e ≠? BOOTSTRAP_PROTOCOL_VERSION_V1)
    || negb (gateway_is_hash (lbe_enrollment_digest e)) || negb (gateway_is_hash (lbe_active_slot_hash e))
    || negb (gateway_is_hash (lbe_current_bundle_hash e))
    || negb (gateway_is_hash (lbe_selector_identity_hash e))
    || negb (gateway_is_hash (lbe_helper_identity_hash e))
    || negb (gateway_is_hash (lbe_launcher_identity_hash e))
    || negb (gateway_is_hash (lbe_journal_identity_hash e)))
    (GeBounded "local build enrollment is missing a bound value").

Definition with_journal {A} (m : hj A) : gw A := λ g,
  let '(j, r) := m (bg_journal g) in
  (MkGateway j (bg_env g) (bg_state g) (bg_id_counter g), map_err GeJournal r).
Definition with_port {A} (f : S → S * A) : gw A := λ g,
  let '(s, a) := f (bg_env g) in (MkGateway (bg_journal g) s (bg_state g) (bg_id_counter g), Ok a).
Definition set_state (f : GatewayState → GatewayState) : gw () :=
  modify (λ g, MkGateway (bg_journal g) (bg_env g) (f (bg_state g)) (bg_id_counter g)).
Definition gateway_state : gw GatewayState := λ g, (g, Ok (bg_state g)).

Definition set_challenge (c : option BootstrapChallengeV1) (s : GatewayState) : GatewayState :=
  MkGatewayState c (gs_consumed_challenge s) (gs_active s) (gs_session s) (gs_baton_admissions s)
    (gs_command_seen s).
Definition set_consumed (c : option StableId) (s : GatewayState) : GatewayState :=
  MkGatewayState (gs_challenge s) c (gs_active s) (gs_session s) (gs_baton_admissions s)
    (gs_command_seen s).
Definition set_active (a : option ActiveTransactionV1) (s : GatewayState) : GatewayState :=
  MkGatewayState (gs_challenge s) (gs_consumed_challenge s) a (gs_session s) (gs_baton_admissions s)
    (gs_command_seen s).
Definition set_session (x : BootstrapSessionV1) (s : GatewayState) : GatewayState :=
  MkGatewayState (gs_challenge s) (gs_consumed_challenge s) (gs_active s) (Some x)
    (gs_baton_admissions s) (gs_command_seen s).
Definition remember_admission (baton_id : StableId) (hash : string) (a : BootstrapAdmissionV1)
    (s : GatewayState) : GatewayState :=
  MkGatewayState (gs_challenge s) (gs_consumed_challenge s) (gs_active s) (gs_session s)
    (<[as_str baton_id := (hash, a)]> (gs_baton_admissions s)) (gs_command_seen s).
Definition remember_commands (seen : gmap string (string * BootstrapCommandAckV1)) (s : GatewayState) :
    GatewayState :=
  MkGatewayState (gs_challenge s) (gs_consumed_challenge s) (gs_active s) (gs_session s)
    (gs_baton_admissions s) seen.

(** [fetch_add] wraps around. *)
Definition next_id (prefix : string) : gw StableId := λ g,
  let value := bg_id_counter g in
  (MkGateway (bg_journal g) (bg_env g) (bg_state g) ((value + 1) mod 2 ^ 64),
   map_err (λ _, GeBounded "stable id") (StableId_parse (prefix +:+ "." +:+ pretty value))).
(** [expect]. *)
Definition expect {E A} (r : result E A) : gw A := lift (map_err (λ _, GePanicked) r).

(** ** Admission *)

Definition baton_record (baton : RepairActivationBatonV1) (command_hash : string)
    (challenge : BootstrapChallengeV1) (peer : PeerIdentityV1) (admission_id : StableId)
    (admission_hash : string) : BatonAcceptedV1 :=
  MkBatonAccepted (bat_activation_id baton) (bat_baton_id baton) (bat_baton_hash baton) command_hash
    (bch_challenge_id challenge) (bch_challenge_hash challenge) (peer_executable_hash peer)
    (peer_os_identity_hash peer) admission_id admission_hash
    (mck_checkpoint_id (bat_management_checkpoint baton)) (hid_profile_version helper)
    (bat_provenance_hash baton) (bat_enrollment_digest baton) (bat_capability_generation baton)
    (bat_capability_digest baton) (bat_candidate_hash baton)
    (rar_content_hash (bbr_artifact (bat_previous_working_build baton)))
    (fvp_plan_hash (bat_verification_plan baton)) (bat_current_process_generation baton)
    (bat_candidate_process_generation baton) (bat_rollback_process_generation baton)
    (bat_deadlines baton).
Definition baton_session (baton : RepairActivationBatonV1) (challenge : BootstrapChallengeV1)
    (peer : PeerIdentityV1) : BootstrapSessionV1 :=
  MkSession (bat_activation_id baton) BOOTSTRAP_PROTOCOL_VERSION_V1 peer (bch_challenge_id challenge)
    (bch_nonce challenge) (bch_challenge_hash challenge) (hid_helper_identity_hash helper)
    (bat_provenance_hash baton) (bat_enrollment_digest baton) (bat_capability_generation baton)
    (bat_capability_digest baton) (bat_baton_hash baton) (fvp_plan_hash (bat_verification_plan baton))
    (bat_current_process_generation baton) (bat_candidate_process_generation baton)
    (bat_rollback_process_generation baton).

Definition unsupported_receipt (now : N) (peer : PeerIdentityV1) (baton : RepairActivationBatonV1)
    (reason : PlatformReasonV1) : gw AuthenticatedBootstrapResultV1 :=
  receipt_id ← (λ g, let '(g, r) := next_id "receipt" g in (g, map_err (λ _, GePanicked) r));
  let unhashed := MkBootstrapResult 1 receipt_id (bat_activation_id baton) (bat_baton_hash baton)
    (mck_checkpoint_id (bat_management_checkpoint baton)) (bat_current_process_generation baton) now
    (BrUnsupported reason) "" in
  hash ← expect (bootstrap_result_hash_v1 unhashed);
  mret (MkAuthenticatedResult
    (MkBootstrapResult 1 receipt_id (bat_activation_id baton) (bat_baton_hash baton)
       (mck_checkpoint_id (bat_management_checkpoint baton)) (bat_current_process_generation baton) now
       (BrUnsupported reason) hash)
    (MkPeerProof true (bat_current_process_generation baton) (hid_helper_identity_hash helper)
       (peer_os_identity_hash peer))).

Definition seal_unsupported (now : N) (peer : PeerIdentityV1) (baton : RepairActivationBatonV1)
    (challenge : BootstrapChallengeV1) (command_hash : string) (reason : PlatformReasonV1) :
    gw BootstrapAdmissionV1 :=
  receipt ← unsupported_receipt now peer baton reason;
  _ ← with_journal acquire_single_flight;
  _ ← set_state (set_active (Some (AtActivation (bat_activation_id baton))));
  _ ← with_journal (append_baton_accepted (baton_record baton command_hash challenge peer
        (bsr_receipt_id (abr_receipt receipt)) (bsr_receipt_hash (abr_receipt receipt))));
  _ ← with_journal (advance_phase
        (MkPhaseAdvance (bat_activation_id baton) 1 BpAdmittingBaton BpUnsupported));
  _ ← with_journal (store_bootstrap_result (abr_receipt receipt));
  _ ← with_journal seal_terminal;
  _ ← set_state (set_session (baton_session baton challenge peer));
  _ ← set_state (set_active None);
  _ ← set_state (remember_admission (bat_baton_id baton) (bat_baton_hash baton) (BaUnsupported receipt));
  mret (BaUnsupported receipt).

Definition admission_hash_of (a : BootstrapAcceptedAdmissionV1) : result BootstrapJournalError string :=
  canonical_hash (adm_admission_id a, adm_activation_id a, adm_baton_hash a,
    adm_candidate_process_generation a, adm_rollback_process_generation a).

(** The last part of [submit_repair_activation_baton]: the binding is fresh. *)
Definition admit_fresh (peer : PeerIdentityV1) (baton : RepairActivationBatonV1)
    (challenge : BootstrapChallengeV1) (command_hash : string) : gw BootstrapAdmissionV1 :=
  _ ← with_journal acquire_single_flight;
  _ ← set_state (set_active (Some (AtActivation (bat_activation_id baton))));
  admission_id ← next_id "adm";
  let unhashed := MkAdmission admission_id (bat_activation_id baton) (bat_baton_hash baton)
    (bat_candidate_process_generation baton) (bat_rollback_process_generation baton) "" in
  hash ← with_journal (lift (admission_hash_of unhashed));
  let admission := MkAdmission admission_id (bat_activation_id baton) (bat_baton_hash baton)
    (bat_candidate_process_generation baton) (bat_rollback_process_generation baton) hash in
  _ ← with_journal (append_baton_accepted
        (baton_record baton command_hash challenge peer admission_id hash));
  _ ← with_journal (advance_phase
        (MkPhaseAdvance (bat_activation_id baton) 1 BpAdmittingBaton BpBatonDurable));
  _ ← set_state (remember_admission (bat_baton_id baton) (bat_baton_hash baton) (BaAccepted admission));
  _ ← set_state (set_session (baton_session baton challenge peer));
  mret (BaAccepted admission).

Definition drifted (now : N) (baton : RepairActivationBatonV1) (fresh : PlatformCapabilityReportV1) :
    result BootstrapJournalError bool :=
  if (pcr_eligibility fresh ≠? AeSupportedManagedLocal)
     || (pcr_capability_digest fresh ≠? bat_capability_digest baton)
     || (pcr_capability_generation fresh ≠? bat_capability_generation baton)
     || (pcr_candidate_id fresh ≠? bat_candidate_id baton)
     || (pcr_candidate_version fresh ≠? bat_candidate_version baton)
     || (pcr_candidate_hash fresh ≠? bat_candidate_hash baton)
     || (now <? pcr_valid_from_epoch_ms fresh) || (pcr_expires_at_epoch_ms fresh <=? now)
  then Ok true
  else hash ← canonical_hash (clear_digest fresh); Ok (hash ≠? pcr_capability_digest fresh).

Definition take_challenge : gw BootstrapChallengeV1 :=
  state ← gateway_state;
  match gs_challenge state with
  | Some challenge => _ ← set_state (set_challenge None); mret challenge
  | None => throw (if is_some (gs_consumed_challenge state) then GeChallengeConsumed
                   else GeChallengeInvalid)
  end.
Definition submit_repair_activation_baton (now : N) (peer : PeerIdentityV1)
    (baton : RepairActivationBatonV1) : gw BootstrapAdmissionV1 :=
  _ ← lift (validate_baton baton);
  _ ← lift (validate_peer peer);
  state ← gateway_state;
  match gs_baton_admissions state !! as_str (bat_baton_id baton) with
  | Some (seen, admission) =>
      if seen ≠? bat_baton_hash baton then throw GeCommandReplayed else mret admission
  | None =>
      _ ← reject_if (is_some (gs_active state)) GeTransactionActive;
      challenge ← take_challenge;
      _ ← reject_if ((bch_expected_peer challenge ≠? peer)
                     || (bch_protocol_version challenge ≠? BOOTSTRAP_PROTOCOL_VERSION_V1)) GePeerMismatch;
      _ ← reject_if ((now <? bch_issued_at_epoch_ms challenge)
                     || (bch_expires_at_epoch_ms challenge <=? now)) GeChallengeInvalid;
      _ ← set_state (set_consumed (Some (bch_challenge_id challenge)));
      command_hash ← with_journal (lift (canonical_hash ((baton, bch_challenge_hash challenge,
        peer_executable_hash peer, peer_os_identity_hash peer) : baton_command_key)));
      _ ← reject_if (peer_process_generation peer ≠? bat_current_process_generation baton)
            GeStaleGeneration;
      if bat_expires_at_epoch_ms baton <=? now
      then seal_unsupported now peer baton challenge command_hash
             (gateway_reason "capability_drift" "activation baton expired before admission")
      else
        fresh ← with_port (gp_revalidate_baton_binding ports baton);
        fresh ← lift (map_err GePort fresh);
        _ ← lift (validate_dto_size fresh);
        changed ← with_journal (lift (drifted now baton fresh));
        if changed : bool
        then seal_unsupported now peer baton challenge command_hash
               (gateway_reason "capability_drift" "capability generation changed or expired")
        else admit_fresh peer baton challenge command_hash
  end.

(** ** Recovery of the session *)

Definition recovered_session (baton : BatonAcceptedV1) (peer : PeerIdentityV1) : BootstrapSessionV1 :=
  MkSession (bac_activation_id baton) BOOTSTRAP_PROTOCOL_VERSION_V1 peer (bac_challenge_id baton) ""
    (bac_challenge_hash baton) (hid_helper_identity_hash helper) (bac_provenance_digest baton)
    (bac_enrollment_digest baton) (bac_capability_generation baton) (bac_capability_digest baton)
    (bac_baton_hash baton) (bac_verification_plan_hash baton) (bac_current_process_generation baton)
    (bac_candidate_process_generation baton) (bac_rollback_process_generation baton).
Definition is_unsupported_result (kind : BootstrapResultKindV1) : bool :=
  match kind with BrUnsupported _ => true | _ => false end.
Definition recovered_admission (recovery : BootstrapRecoveryStateV1) (baton : BatonAcceptedV1)
    (accepted : BootstrapAcceptedAdmissionV1) : BootstrapAdmissionV1 :=
  match brs_terminal recovery with
  | Some receipt =>
      if is_unsupported_result (bsr_result receipt)
      then BaUnsupported (MkAuthenticatedResult receipt
             (MkPeerProof true (bsr_recipient_process_generation receipt)
                (hid_helper_identity_hash helper) (bac_challenge_hash baton)))
      else BaAccepted accepted
  | None => BaAccepted accepted
  end.
Definition command_ack (command : CommandAdmittedV1) : BootstrapCommandAckV1 :=
  MkCommandAck (cad_command_id command) (cad_activation_id command) (cad_command_hash command)
    (cad_durable_phase command) true.
Definition remember_durable (seen : gmap string (string * BootstrapCommandAckV1))
    (command : CommandAdmittedV1) : gmap string (string * BootstrapCommandAckV1) :=
  <[as_str (cad_command_id command) := (cad_command_hash command, command_ack command)]> seen.
Definition rebuild_session (activation_id : StableId) (peer : PeerIdentityV1) : gw BootstrapSessionV1 :=
  recovery ← with_journal (load_activation_recovery activation_id);
  recovery ← lift (ok_or recovery GeNoActiveTransaction);
  baton ← lift (ok_or (brs_baton recovery) GeNoActiveTransaction);
  let accepted := MkAdmission (bac_admission_id baton) (bac_activation_id baton) (bac_baton_hash baton)
    (bac_candidate_process_generation baton) (bac_rollback_process_generation baton)
    (bac_admission_hash baton) in
  expected ← with_journal (lift (admission_hash_of accepted));
  _ ← reject_if (adm_admission_hash accepted ≠? expected) (GeJournal (BjChainBroken 0));
  _ ← set_state (remember_admission (bac_baton_id baton) (bac_baton_hash baton)
        (recovered_admission recovery baton accepted));
  _ ← set_state (set_active (if is_some (brs_terminal recovery) then None
                             else Some (AtActivation (bac_activation_id baton))));
  _ ← set_state (remember_commands ∅);
  _ ← reject_if (MAX_SEEN_COMMAND_IDS <? len (brs_admitted_commands recovery))
        (GeBounded "durable command deduplication bound exceeded");
  _ ← set_state (remember_commands (foldl remember_durable ∅ (brs_admitted_commands recovery)));
  _ ← set_state (set_session (recovered_session baton peer));
  mret (recovered_session baton peer).
Definition gateway_recover_activation (activation_id : StableId) (peer : PeerIdentityV1) :
    gw BootstrapSessionV1 :=
  _ ← lift (validate_peer peer);
  rebuild_session activation_id peer.

(** ** The other calls *)

Definition begin_bootstrap_challenge (now : N) (peer : PeerIdentityV1) : gw BootstrapChallengeV1 :=
  _ ← lift (validate_peer peer);
  state ← gateway_state;
  _ ← reject_if (is_some (gs_active state)) GeTransactionActive;
  challenge_id ← next_id "bch";
  random ← with_port (gp_entropy ports);
  random ← lift (ok_or random (GePort "OS challenge entropy is unavailable"));
  nonce ← with_journal (lift (canonical_hash random));
  let expires := saturating_add u64_max now CHALLENGE_TTL_MS in
  hash ← with_journal (lift (canonical_hash ((challenge_id, BOOTSTRAP_PROTOCOL_VERSION_V1, nonce,
    hid_helper_identity_hash helper, peer, now, expires) : challenge_key)));
  let challenge := MkChallenge challenge_id BOOTSTRAP_PROTOCOL_VERSION_V1 nonce
    (hid_helper_identity_hash helper) peer now expires hash in
  _ ← set_state (set_challenge (Some challenge));
  _ ← set_state (set_consumed None);
  mret challenge.

Definition gateway_query_activation_capability (provenance : BuildProvenanceV1)
    (enrollment : LocalBuildEnrollmentV1) (candidate : BuildBundleRefV1)
    (previous : option BuildBundleRefV1) : gw PlatformCapabilityReportV1 :=
  _ ← lift (validate_dto_size provenance);
  _ ← lift (validate_dto_size candidate);
  _ ← match previous with Some previous => lift (validate_dto_size previous) | None => mret () end;
  _ ← lift (validate_enrollment enrollment);
  report ← with_port (gp_capability_report ports provenance enrollment candidate previous);
  report ← lift (map_err GePort report);
  _ ← lift (validate_dto_size report);
  _ ← reject_if (negb (gateway_is_hash (pcr_capability_digest report))
        || str_is_empty (as_str (pcr_candidate_id report)) || (pcr_candidate_version report =? 0)
        || negb (gateway_is_hash (pcr_candidate_hash report))
        || (pcr_expires_at_epoch_ms report <=? pcr_valid_from_epoch_ms report))
        (GeBounded "capability report lacks a digest");
  hash ← with_journal (lift (canonical_hash (clear_digest report)));
  _ ← reject_if (hash ≠? pcr_capability_digest report)
        (GeBounded "capability digest does not cover the report bytes");
  mret report.

Definition prepare_managed_local_enrollment (request : ManagedLocalEnrollmentRequestV1) :
    gw EnrollmentPreparedV1 :=
  _ ← lift (gateway_validate_enrollment_request request);
  state ← gateway_state;
  _ ← reject_if (is_some (gs_active state)) GeTransactionActive;
  plan ← with_port (gp_enrollment_plan ports request);
  plan ← lift (map_err GePort plan);
  _ ← lift (validate_dto_size plan);
  _ ← reject_if ((epl_profile_version plan ≠? BOOTSTRAP_PROTOCOL_VERSION_V1)
        || negb (gateway_is_hash (epl_helper_root_identity_hash plan))
        || negb (gateway_is_hash (epl_initial_active_slot_root_hash plan))
        || negb (gateway_is_hash (epl_selector_identity_hash plan))
        || negb (gateway_is_hash (epl_journal_identity_hash plan))
        || negb (gateway_is_hash (epl_plan_hash plan)))
        (GeBounded "enrollment plan is not a bounded v1 plan");
  hash ← with_journal (lift (canonical_hash (clear_plan_hash plan)));
  _ ← reject_if (hash ≠? epl_plan_hash plan)
        (GeBounded "enrollment plan hash does not cover the plan bytes");
  _ ← with_journal acquire_single_flight;
  _ ← set_state (set_active (Some (AtEnrollment (mer_request_id request))));
  _ ← with_journal (append_enrollment_intent request (hid_enrollment_identities helper));
  preparation ← with_port (gp_materialize ports request plan);
  preparation ← lift (map_err GePort preparation);
  _ ← lift (validate_dto_size preparation);
  let prepared := epr_prepared preparation in
  let observation := epr_observation preparation in
  _ ← reject_if ((enp_request_id prepared ≠? mer_request_id request)
        || negb (eob_published_slot_verified observation)
        || negb (gateway_is_hash (eob_initial_active_bundle_hash observation))
        || negb (gateway_is_hash (enp_enrollment_digest prepared)))
        (GeBounded "enrollment preparation does not match the admitted request");
  _ ← with_journal (append_enrollment_observation
        (MkEnrollmentMutation (mer_request_id request) 1 EpIntent observation));
  _ ← with_journal (store_enrollment_prepared prepared);
  _ ← with_journal seal_terminal;
  _ ← set_state (set_active None);
  mret prepared.

(** What a command asks of the session it names. *)
Definition command_fenced (session : BootstrapSessionV1) (phase : BootstrapPhaseV1)
    (command : BootstrapCommandV1) : result GatewayError () :=
  match command with
  | BcBeginActivation _ _ challenge_id expected_phase =>
      _ ← fail_if (bss_challenge_id session ≠? challenge_id) GeChallengeInvalid;
      fail_if (expected_phase ≠? phase) GeIllegalPhase
  | BcFocusedVerificationCompleted _ _ _ plan_hash _ =>
      fail_if (plan_hash ≠? bss_verification_plan_hash session)
        (GeBounded "verification plan hash does not match the admitted baton")
  | _ => Ok ()
  end.
Definition remember_ack (ack : BootstrapCommandAckV1) : gw () :=
  set_state (λ s, remember_commands
    (<[as_str (bca_command_id ack) := (bca_command_hash ack, ack)]> (gs_command_seen s)) s).
Definition submit_bootstrap_command (command : BootstrapCommandV1) : gw BootstrapCommandAckV1 :=
  _ ← lift (validate_dto_size command);
  let '(command_id, activation_id, generation, kind) := command_binding command in
  state ← gateway_state;
  command_hash ← with_journal (lift (canonical_hash command));
  match gs_command_seen state !! as_str command_id with
  | Some (seen, ack) => if seen ≠? command_hash then throw GeCommandReplayed else mret ack
  | None =>
      _ ← reject_if (MAX_SEEN_COMMAND_IDS <=? N.of_nat (size (gs_command_seen state)))
            (GeBounded "command deduplication bound exceeded");
      session ← lift (ok_or (gs_session state) GeNoActiveTransaction);
      _ ← reject_if (bss_activation_id session ≠? activation_id) GePeerMismatch;
      recovery ← with_journal (load_activation_recovery activation_id);
      recovery ← lift (ok_or recovery GeNoActiveTransaction);
      let durable_phase := brs_phase recovery in
      _ ← reject_if (negb (command_legal_in_phase kind durable_phase)) GeIllegalPhase;
      _ ← reject_if (negb (generation_matches session kind durable_phase generation)) GeStaleGeneration;
      _ ← lift (command_fenced session durable_phase command);
      match command with
      | BcReadResult _ _ recipient =>
          receipt ← with_journal (journal_read_bootstrap_result activation_id);
          _ ← reject_if (bsr_recipient_process_generation receipt ≠? recipient) GeRecipientMismatch;
          let ack := MkCommandAck command_id activation_id command_hash durable_phase false in
          _ ← remember_ack ack;
          mret ack
      | _ =>
          _ ← with_journal (append_command_admitted (MkCommandAdmitted activation_id command_id kind
                command_hash (default (bss_current_process_generation session) generation) durable_phase));
          let ack := MkCommandAck command_id activation_id command_hash durable_phase true in
          _ ← remember_ack ack;
          mret ack
      end
  end.

Definition read_bootstrap_result (recipient : ProcessGeneration) : gw AuthenticatedBootstrapResultV1 :=
  state ← gateway_state;
  session ← lift (ok_or (gs_session state) GeNoActiveTransaction);
  receipt ← with_journal (journal_read_bootstrap_result (bss_activation_id session));
  _ ← reject_if (bsr_recipient_process_generation receipt ≠? recipient) GeRecipientMismatch;
  mret (MkAuthenticatedResult receipt
    (MkPeerProof true (bsr_recipient_process_generation receipt) (hid_helper_identity_hash helper)
       (bss_accepted_baton_hash session))).
End gateway.
