(* ===== verification/HelperGatewayProofs.v ===== *)
(** * What the gateway acknowledges is durable

    Histories of the gateway: calls with any arguments, whatever its ports
    answer; operations of others on the journal it shares; storage calls that
    fail; processes that end ([gateway_reaches]).  Whatever the gateway ever
    answered is in the journal, then and in every later state
    ([acknowledgements_durable]).  An admission was fenced to the peer that was
    challenged ([admission_fenced]).  The last part is about digests on which
    the gateway and its neighbours do not agree. *)
From S2P Require Export HelperGateway HelperJournalTheorems.

Local Open Scope repair_scope.

(** ** Durability *)

Definition accepted_by (b : BatonAcceptedV1) : BootstrapAcceptedAdmissionV1 :=
  MkAdmission (bac_admission_id b) (bac_activation_id b) (bac_baton_hash b)
    (bac_candidate_process_generation b) (bac_rollback_process_generation b) (bac_admission_hash b).
Definition journaled (v : root_view) (p : JournalRecordPayloadV1) : Prop :=
  ∃ r, r ∈ jv_records v ∧ jrec_payload r = p.
Definition sealed_with (v : root_view) (x : BootstrapResultV1) : Prop :=
  ∃ s, jv_receipt v = Some (TrBootstrapResult s) ∧ bts_receipt s = x.
Definition admission_durable (v : root_view) (a : BootstrapAdmissionV1) : Prop :=
  match a with
  | BaAccepted a => ∃ b, journaled v (JpBatonAccepted b) ∧ a = accepted_by b
  | BaUnsupported x => sealed_with v (abr_receipt x)
  end.
Definition ack_durable (v : root_view) (ack : BootstrapCommandAckV1) : Prop :=
  bca_durable ack = true → ∃ c, journaled v (JpCommandAdmitted c) ∧ ack = command_ack c.

Record memory_durable (v : root_view) (s : GatewayState) : Prop := {
  md_admissions : ∀ k hash a, gs_baton_admissions s !! k = Some (hash, a) → admission_durable v a;
  md_commands : ∀ k hash ack, gs_command_seen s !! k = Some (hash, ack) → ack_durable v ack
}.

Inductive gateway_call : Type :=
| GcBeginChallenge (now : N) (peer : PeerIdentityV1)
| GcQueryCapability (provenance : BuildProvenanceV1) (enrollment : LocalBuildEnrollmentV1)
    (candidate : BuildBundleRefV1) (previous : option BuildBundleRefV1)
| GcPrepareEnrollment (request : ManagedLocalEnrollmentRequestV1)
| GcSubmitBaton (now : N) (peer : PeerIdentityV1) (baton : RepairActivationBatonV1)
| GcSubmitCommand (command : BootstrapCommandV1)
| GcReadResult (recipient : ProcessGeneration)
| GcRecover (activation_id : StableId) (peer : PeerIdentityV1).
Inductive gateway_answer : Type :=
| GaChallenge (challenge : BootstrapChallengeV1)
| GaReport (report : PlatformCapabilityReportV1)
| GaPrepared (prepared : EnrollmentPreparedV1)
| GaAdmission (admission : BootstrapAdmissionV1)
| GaAck (ack : BootstrapCommandAckV1)
| GaResult (result : AuthenticatedBootstrapResultV1)
| GaSession (session : BootstrapSessionV1).
Definition answer_durable (v : root_view) (a : gateway_answer) : Prop :=
  match a with
  | GaPrepared p => ∃ s, jv_receipt v = Some (TrEnrollmentPrepared s) ∧ ets_receipt s = p
  | GaAdmission a => admission_durable v a
  | GaAck ack => ack_durable v ack
  | GaResult x => sealed_with v (abr_receipt x)
  | GaChallenge _ | GaReport _ | GaSession _ => True
  end.

Section monotone.
Context (v v' : root_view) (Hext : extends v v').

Lemma journaled_later p : journaled v p → journaled v' p.
Proof.
  intros (r & Hr & Hp). exists r. split; [|done]. destruct (ex_records _ _ Hext) as [l ->]. set_solver.
Qed.
Lemma sealed_later x : sealed_with v x → sealed_with v' x.
Proof. intros (s & Hs & Hx). exists s. split; [|done]. by apply (ex_receipt _ _ Hext). Qed.
Lemma admission_later a : admission_durable v a → admission_durable v' a.
Proof.
  destruct a as [a|x]; [|apply sealed_later]. intros (b & Hb & ->). exists b. split; [by apply journaled_later|done].
Qed.
Lemma ack_later ack : ack_durable v ack → ack_durable v' ack.
Proof. intros Ha Hd. destruct (Ha Hd) as (c & Hc & ->). exists c. split; [by apply journaled_later|done]. Qed.
Lemma memory_later s : memory_durable v s → memory_durable v' s.
Proof.
  intros [Ha Hc]. split; intros * Hk; [eapply admission_later, Ha|eapply ack_later, Hc]; exact Hk.
Qed.
Lemma answer_later a : answer_durable v a → answer_durable v' a.
Proof.
  destruct a; cbn; [done|done| |apply admission_later|apply ack_later|apply sealed_later|done].
  intros (s & Hs & Hp). exists s. split; [|done]. by apply (ex_receipt _ _ Hext).
Qed.
End monotone.

(** ** Histories *)

Section gateway.
Context `{Sha256, RepairSerialize, JournalSerialize, HelperSerialize, GatewaySerialize}.
Context {S : Type} (ports : GatewayPorts S) (helper : HelperIdentityV1).
Abbreviation gw := (stm (BootstrapGateway S) GatewayError).
Implicit Types (g : BootstrapGateway S) (v : root_view).

Definition answered {A} (f : A → gateway_answer) (m : gw A) : gw gateway_answer := a ← m; mret (f a).
Definition run_gateway_call (call : gateway_call) : gw gateway_answer :=
  match call with
  | GcBeginChallenge now peer => answered GaChallenge (begin_bootstrap_challenge ports helper now peer)
  | GcQueryCapability provenance enrollment candidate previous =>
      answered GaReport (gateway_query_activation_capability ports provenance enrollment candidate previous)
  | GcPrepareEnrollment request => answered GaPrepared (prepare_managed_local_enrollment ports helper request)
  | GcSubmitBaton now peer baton =>
      answered GaAdmission (submit_repair_activation_baton ports helper now peer baton)
  | GcSubmitCommand command => answered GaAck (submit_bootstrap_command command)
  | GcReadResult recipient => answered GaResult (read_bootstrap_result helper recipient)
  | GcRecover activation_id peer => answered GaSession (gateway_recover_activation helper activation_id peer)
  end.

(** Calls, operations of the coordinator or another process on the same root,
    and new processes. *)
Inductive gateway_reaches : BootstrapGateway S → BootstrapGateway S → Prop :=
| gateway_refl g : gateway_reaches g g
| gateway_calls call g g' : gateway_reaches (run_gateway_call call g).1 g' → gateway_reaches g g'
| gateway_shares op g g' :
    gateway_reaches (MkGateway (run_journal_op op (bg_journal g)).1 (bg_env g) (bg_state g) (bg_id_counter g)) g' →
    gateway_reaches g g'
| gateway_restarts fates env g g' :
    gateway_reaches (MkGateway (restart fates (bg_journal g)) env default_state 0) g' → gateway_reaches g g'.

(** ** The invariant *)

Record durable_at (v : root_view) (g : BootstrapGateway S) : Prop := {
  da_at : ∃ b, journal_at false b v (bg_journal g);
  da_sound : journal_sound v;
  da_memory : memory_durable v (bg_state g)
}.
(** What a call left: the state [g] stores an extension of [v]. *)
Definition left_durable (v : root_view) (g : BootstrapGateway S) : Prop :=
  ∃ v', extends v v' ∧ durable_at v' g.
Lemma durable_left v g : durable_at v g → left_durable v g.
Proof. intros Hg. by exists v. Qed.
Lemma left_trans v v' g : extends v v' → left_durable v' g → left_durable v g.
Proof. intros He (w & Hw & Hg). exists w. split; [by etrans|done]. Qed.

(** A journal operation of the gateway; [F] is what its success tells. *)
Definition tells {A} (m : hj A) (F : A → root_view → Prop) : Prop :=
  ∀ b v j, journal_at false b v j →
  wp m (λ a j', ∃ b' v', rtc journal_step v v' ∧ journal_at false b' v' j' ∧ F a v') (λ _ j', moves v j') j.
Lemma wp_with_journal {A} (m : hj A) F v (Q : A → BootstrapGateway S → Prop) g :
  tells m F → durable_at v g →
  (∀ a v' g', extends v v' → F a v' → durable_at v' g' → bg_state g' = bg_state g → Q a g') →
  wp (with_journal m) Q (λ _, left_durable v) g.
Proof.
  intros Hm [[b Hj] Hs Hmem] HQ. pose proof (Hm b v _ Hj) as Hw. unfold wp, with_journal in *.
  destruct (m (bg_journal g)) as [j' [a|e]]; cbn.
  - destruct Hw as (b' & v' & Hsteps & Hj' & HF). destruct (journal_steps _ _ Hsteps Hs) as [Hs' He].
    apply (HQ a v'); try done. split; [by exists b'|done|by eapply memory_later].
  - destruct Hw as (c' & b' & v' & Hsteps & Hj'). destruct (journal_steps _ _ Hsteps Hs) as [Hs' He].
    exists v'. split; [done|]. split; [|done|by eapply memory_later]. exists b'. destruct Hj'. by split.
Qed.

Lemma moves_ignored {A} (m : hj A) v j : moves v ((_ ← m; mret ()) j).1 → moves v (m j).1.
Proof. unfold mbind, stm_bind. by destruct (m j) as [j' [a|e]]. Qed.
Lemma tells_intro {A} (m : hj A) F :
  (∀ b v j, journal_at false b v j → moves v (m j).1) →
  (∀ b v j, journal_at false b v j → wp m (λ a j', ∃ c b' v', journal_at c b' v' j' ∧ F a v') (λ _ _, True) j) →
  tells m F.
Proof.
  intros Hm HF b v j Hj. specialize (Hm b v j Hj). specialize (HF b v j Hj). unfold wp in *.
  destruct (m j) as [j' [a|e]]; cbn in *; [|done]. destruct Hm as (c & b' & v' & Hs & Hj'), HF as (c2 & b2 & v2 & Hj2 & HF).
  assert (v2 = v') as -> by (eapply stored_as_unique; [apply Hj2|apply Hj']).
  exists b', v'. split_and!; [done| |done]. destruct Hj'. by split.
Qed.
Lemma tells_lift {A} (r : result BootstrapJournalError A) : tells (lift r) (λ a _, r = Ok a).
Proof.
  intros b v j Hj. apply wp_lift; [|intros; by apply (moves_at false b)]. intros a ->. by exists b, v.
Qed.
Lemma tells_op {A} (m : hj A) op :
  (∀ j, (run_journal_op op j).1 = ((_ ← m; mret ()) j).1) → tells m (λ _ _, True).
Proof.
  intros Hop. assert (∀ b v j, journal_at false b v j → moves v (m j).1) as Hm.
  { intros b v j Hj. apply moves_ignored. rewrite <-Hop. by eapply journal_op_moves. }
  apply tells_intro; [done|]. intros b v j Hj. specialize (Hm b v j Hj). unfold wp.
  destruct (m j) as [j' [a|e]]; [|done]. destruct Hm as (c & b' & v' & _ & Hj'). by exists c, b', v'.
Qed.
Lemma tells_answers {A} (m : hj A) answer : answers m answer → tells m (λ a v, answer v = Ok a).
Proof.
  intros Hm b v j Hj. eapply wp_mono; [by apply Hm|..].
  - intros a j' [Ha Hj']. by exists b, v.
  - intros e j' [_ Hj']. by apply (moves_at false b).
Qed.

Lemma tells_acquire : tells acquire_single_flight (λ _ _, True).
Proof. apply (tells_op _ OpAcquire). intros j. cbn. unfold mbind, stm_bind. by destruct (acquire_single_flight j) as [? [[]|]]. Qed.
Lemma tells_seal : tells seal_terminal (λ _ _, True).
Proof. apply (tells_op _ OpSealTerminal). intros j. cbn. unfold mbind, stm_bind. by destruct (seal_terminal j) as [? [[]|]]. Qed.
Lemma tells_advance m : tells (advance_phase m) (λ _ _, True).
Proof. by apply (tells_op _ (OpAdvancePhase m)). Qed.
Lemma tells_enrollment_intent request ids : tells (append_enrollment_intent request ids) (λ _ _, True).
Proof. by apply (tells_op _ (OpEnrollmentIntent request ids)). Qed.
Lemma tells_enrollment_observation m : tells (append_enrollment_observation m) (λ _ _, True).
Proof. by apply (tells_op _ (OpEnrollmentObservation m)). Qed.

Lemma op_moves {A} (m : hj A) op b v j :
  (run_journal_op op j).1 = ((_ ← m; mret ()) j).1 → journal_at false b v j → moves v (m j).1.
Proof. intros Hop Hj. apply moves_ignored. rewrite <-Hop. by eapply journal_op_moves. Qed.
Lemma journaled_last v r p : jrec_payload r = p → journaled (with_record r v) p.
Proof. intros Hp. exists r. split; [cbn; set_solver|done]. Qed.
Lemma tells_baton baton : tells (append_baton_accepted baton) (λ _ v, journaled v (JpBatonAccepted baton)).
Proof.
  apply tells_intro; [intros b v j; by apply (op_moves _ (OpBatonAccepted baton))|].
  intros b v j Hj. eapply wp_mono; [by apply wp_append_baton_accepted| |done].
  intros a j' (_ & h & _ & _ & r & _ & _ & _ & Hr & Hj'). eexists _, _, _. split; [exact Hj'|].
  destruct (next_record_spec _ _ _ Hr) as (_ & _ & Hp & _). by apply journaled_last.
Qed.
Lemma tells_command c : tells (append_command_admitted c) (λ _ v, journaled v (JpCommandAdmitted c)).
Proof.
  apply tells_intro; [intros b v j; by apply (op_moves _ (OpCommandAdmitted c))|].
  intros b v j Hj. eapply wp_mono; [by apply wp_append_command_admitted| |done].
  intros a j' (_ & _ & r & Hr & Hj'). eexists _, _, _. split; [exact Hj'|].
  destruct (next_record_spec _ _ _ Hr) as (_ & _ & Hp & _). by apply journaled_last.
Qed.
Lemma tells_result x : tells (store_bootstrap_result x) (λ _ v, sealed_with v x).
Proof.
  apply tells_intro; [intros b v j; by apply (op_moves _ (OpBootstrapResult x))|].
  intros b v j Hj. eapply wp_mono; [by apply wp_store_result| |done].
  intros a j' (_ & _ & s & (Hx & _) & Hj'). eexists _, _, _. split; [exact Hj'|]. by exists s.
Qed.
Lemma tells_prepared p :
  tells (store_enrollment_prepared p) (λ _ v, ∃ s, jv_receipt v = Some (TrEnrollmentPrepared s) ∧ ets_receipt s = p).
Proof.
  apply tells_intro; [intros b v j; by apply (op_moves _ (OpEnrollmentPrepared p))|].
  intros b v j Hj. eapply wp_mono; [by apply wp_store_enrollment_prepared| |done].
  intros a j' (v' & _ & Hj' & Hs). by exists false, b, v'.
Qed.

(** *** Steps of a call *)

Definition reached (v0 v : root_view) (s : GatewayState) (g : BootstrapGateway S) : Prop :=
  extends v0 v ∧ durable_at v g ∧ bg_state g = s.
Definition failed (v0 : root_view) (e : GatewayError) (g : BootstrapGateway S) : Prop := left_durable v0 g.
Lemma reached_left v0 v s g : reached v0 v s g → left_durable v0 g.
Proof. intros (He & Hg & _). by exists v. Qed.
Lemma wp_gw_journal {A B} (m : hj A) F (k : A → gw B) v0 v s Q g :
  tells m F → reached v0 v s g →
  (∀ a v' g', extends v v' → F a v' → reached v0 v' s g' → wp (k a) Q (failed v0) g') →
  wp (with_journal m ≫= k) Q (failed v0) g.
Proof.
  intros Hm (He & Hg & Hs) Hk. apply wp_bind.
  eapply wp_mono; [apply (wp_with_journal m F v (λ a g', wp (k a) Q (failed v0) g')); [done|done|]|done|].
  - intros a v' g' He' HF Hg' Hs'. apply (Hk a v' g'); [done|done|]. split_and!; [by etrans|done|congruence].
  - intros e g' Hl. by eapply left_trans.
Qed.
Lemma wp_gw_lift {A B} (r : result GatewayError A) (k : A → gw B) v0 v s Q g :
  reached v0 v s g → (∀ a, r = Ok a → wp (k a) Q (failed v0) g) → wp (a ← lift r; k a) Q (failed v0) g.
Proof. intros Hg Hk. apply wp_bind, wp_lift; [done|]. intros e _. by eapply reached_left. Qed.
Lemma wp_gw_reject {B} (b : bool) (e : GatewayError) (k : () → gw B) v0 v s Q g :
  reached v0 v s g → (b = false → wp (k ()) Q (failed v0) g) → wp (a ← reject_if b e; k a) Q (failed v0) g.
Proof. intros Hg Hk. apply wp_bind, wp_reject; [done|]. intros _. by eapply reached_left. Qed.
Lemma wp_gw_throw {A} (e : GatewayError) (Q : A → BootstrapGateway S → Prop) v0 v s g :
  reached v0 v s g → wp (throw e) Q (failed v0) g.
Proof. intros Hg. apply wp_throw. by eapply reached_left. Qed.
Lemma wp_gw_port {A B} (f : S → S * A) (k : A → gw B) v0 v s Q g :
  reached v0 v s g → (∀ a g', reached v0 v s g' → wp (k a) Q (failed v0) g') →
  wp (with_port f ≫= k) Q (failed v0) g.
Proof.
  intros (He & [Hj Hs Hm] & Hst) Hk. apply wp_bind. unfold wp at 1, with_port. destruct (f (bg_env g)) as [s' a].
  apply Hk. by split_and!.
Qed.
Lemma wp_gw_next_id {B} prefix (k : StableId → gw B) v0 v s Q g :
  reached v0 v s g → (∀ i g', reached v0 v s g' → wp (k i) Q (failed v0) g') →
  wp (next_id prefix ≫= k) Q (failed v0) g.
Proof.
  intros (He & [Hj Hs Hm] & Hst) Hk. apply wp_bind. unfold wp at 1, next_id.
  destruct (map_err _ (StableId_parse _)) as [i|e]; [apply Hk; by split_and!|]. by exists v.
Qed.
Lemma wp_gw_state {B} (k : GatewayState → gw B) v0 v s Q g :
  reached v0 v s g → (memory_durable v s → wp (k s) Q (failed v0) g) →
  wp (gateway_state ≫= k) Q (failed v0) g.
Proof. intros (He & [Hj Hs Hm] & <-) Hk. by apply wp_bind, Hk. Qed.
Lemma wp_gw_set {B} f (k : () → gw B) v0 v s Q g :
  reached v0 v s g → (memory_durable v s → memory_durable v (f s)) →
  (∀ g', reached v0 v (f s) g' → wp (k ()) Q (failed v0) g') →
  wp (set_state f ≫= k) Q (failed v0) g.
Proof.
  intros (He & [Hj Hs Hm] & <-) Hf Hk. apply wp_bind, wp_modify, Hk. split_and!; [done| |done].
  split; [done|done|by apply Hf].
Qed.

Lemma memory_admission v baton_id hash a s :
  admission_durable v a → memory_durable v s → memory_durable v (remember_admission baton_id hash a s).
Proof.
  intros Ha [Hm Hc]. split; [|done]. intros k h a' Hk. cbn in Hk.
  apply lookup_insert_Some in Hk as [[_ Hk]|[_ Hk]]; [by simplify_eq|by eapply Hm].
Qed.
Lemma memory_commands v seen s :
  (∀ k hash ack, seen !! k = Some (hash, ack) → ack_durable v ack) → memory_durable v s →
  memory_durable v (remember_commands seen s).
Proof. intros Hs [Hm _]. by split. Qed.
Lemma memory_same v s s' :
  gs_baton_admissions s' = gs_baton_admissions s → gs_command_seen s' = gs_command_seen s →
  memory_durable v s → memory_durable v s'.
Proof. intros Ha Hc [Hm Hs]. split; [by rewrite Ha|by rewrite Hc]. Qed.

(** *** Calls *)

Definition told (v0 : root_view) (a : gateway_answer) (g : BootstrapGateway S) : Prop :=
  ∃ v s, reached v0 v s g ∧ answer_durable v a.
Lemma wp_told {A} (f : A → gateway_answer) v0 v s (a : A) g :
  reached v0 v s g → answer_durable v (f a) → wp (mret a) (λ a, told v0 (f a)) (failed v0) g.
Proof. intros Hg Ha. apply wp_ret. by exists v, s. Qed.

Ltac gw_step :=
  match goal with
  | Hg : reached _ _ _ ?g |- wp (gateway_state ≫= _) _ _ ?g => eapply wp_gw_state; [exact Hg|intros ?]
  | Hg : reached _ _ _ ?g |- wp (lift _ ≫= _) _ _ ?g => eapply wp_gw_lift; [exact Hg|intros ? ?]
  | Hg : reached _ _ _ ?g |- wp (reject_if _ _ ≫= _) _ _ ?g => eapply wp_gw_reject; [exact Hg|intros ?]
  | Hg : reached _ _ _ ?g |- wp (with_port _ ≫= _) _ _ ?g =>
      eapply wp_gw_port; [exact Hg|clear Hg; intros ? ? Hg]
  | Hg : reached _ _ _ ?g |- wp (next_id _ ≫= _) _ _ ?g =>
      eapply wp_gw_next_id; [exact Hg|clear Hg; intros ? ? Hg]
  | Hg : reached _ _ _ ?g |- wp (with_journal (lift _) ≫= _) _ _ ?g =>
      eapply wp_gw_journal; [apply tells_lift|exact Hg|clear Hg; let HF := fresh "HF" in intros ? ? ? ? HF Hg; cbv beta in HF]
  | Hg : reached _ _ _ ?g |- wp (set_state _ ≫= _) _ _ ?g =>
      eapply wp_gw_set; [exact Hg|first [by apply memory_same|idtac]|clear Hg; intros ? Hg]
  | Hg : reached _ _ _ ?g |- wp (throw _) _ _ ?g => by eapply wp_gw_throw
  end.
Ltac gw_journal fact :=
  match goal with
  | Hg : reached _ _ _ ?g |- wp (with_journal _ ≫= _) _ _ ?g =>
      eapply wp_gw_journal; [apply fact|exact Hg|clear Hg; let HF := fresh "HF" in intros ? ? ? ? HF Hg; cbv beta in HF]
  end.

Lemma wp_begin_challenge v0 v s now peer g :
  reached v0 v s g →
  wp (begin_bootstrap_challenge ports helper now peer) (λ a, told v0 (GaChallenge a)) (failed v0) g.
Proof. intros Hg. unfold begin_bootstrap_challenge. repeat gw_step. by eapply (wp_told GaChallenge). Qed.
Lemma wp_query v0 v s provenance enrollment candidate previous g :
  reached v0 v s g →
  wp (gateway_query_activation_capability ports provenance enrollment candidate previous)
    (λ a, told v0 (GaReport a)) (failed v0) g.
Proof.
  intros Hg. unfold gateway_query_activation_capability. do 2 gw_step.
  destruct previous; [gw_step|apply wp_bind, wp_ret]; repeat gw_step; by eapply (wp_told GaReport).
Qed.
Lemma wp_prepare v0 v s request g :
  reached v0 v s g →
  wp (prepare_managed_local_enrollment ports helper request) (λ a, told v0 (GaPrepared a)) (failed v0) g.
Proof.
  intros Hg. unfold prepare_managed_local_enrollment. repeat gw_step.
  gw_journal tells_acquire. gw_step. gw_journal tells_enrollment_intent. repeat gw_step.
  gw_journal tells_enrollment_observation. gw_journal tells_prepared. gw_journal tells_seal. gw_step.
  eapply (wp_told GaPrepared); [done|]. by eapply answer_later with (a := GaPrepared _).
Qed.
Lemma wp_unsupported_receipt {B} (k : AuthenticatedBootstrapResultV1 → gw B) v0 v s now peer baton reason Q g :
  reached v0 v s g → (∀ x g', reached v0 v s g' → wp (k x) Q (failed v0) g') →
  wp (unsupported_receipt helper now peer baton reason ≫= k) Q (failed v0) g.
Proof.
  intros (He & [Hj Hs Hm] & Hst) Hk. apply wp_bind. unfold unsupported_receipt. apply wp_bind.
  unfold wp at 1, next_id. destruct (map_err _ (StableId_parse _)) as [i|e]; [|by exists v]. cbn [map_err].
  apply wp_bind, wp_lift; [|by exists v]. intros hash _. apply wp_ret, Hk. by split_and!.
Qed.
Lemma wp_seal_unsupported v0 v s now peer baton challenge hash reason g :
  reached v0 v s g →
  wp (seal_unsupported helper now peer baton challenge hash reason) (λ a, told v0 (GaAdmission a)) (failed v0) g.
Proof.
  intros Hg. unfold seal_unsupported. eapply wp_unsupported_receipt; [exact Hg|]. clear Hg. intros x g1 Hg.
  gw_journal tells_acquire. gw_step. gw_journal tells_baton. gw_journal tells_advance. gw_journal tells_result.
  gw_journal tells_seal.
  assert (admission_durable v'3 (BaUnsupported x)) as Hx by by eapply sealed_later.
  do 2 gw_step. gw_step; [by apply memory_admission|]. by eapply (wp_told GaAdmission).
Qed.
Lemma wp_admit_fresh v0 v s peer baton challenge hash g :
  reached v0 v s g →
  wp (admit_fresh helper peer baton challenge hash) (λ a, told v0 (GaAdmission a)) (failed v0) g.
Proof.
  intros Hg. unfold admit_fresh. gw_journal tells_acquire. do 2 gw_step. gw_step. gw_journal tells_baton.
  gw_journal tells_advance.
  match goal with |- wp (set_state (remember_admission _ _ ?a) ≫= _) _ _ _ =>
    match type of Hg with reached _ ?v _ _ => assert (admission_durable v a) as Hx end end.
  { eexists. split; [eapply journaled_later; [|eassumption]; done|done]. }
  gw_step; [by apply memory_admission|]. gw_step. by eapply (wp_told GaAdmission).
Qed.
Lemma wp_submit_baton v0 v s now peer baton g :
  reached v0 v s g →
  wp (submit_repair_activation_baton ports helper now peer baton) (λ a, told v0 (GaAdmission a)) (failed v0) g.
Proof.
  intros Hg. unfold submit_repair_activation_baton. do 3 gw_step.
  destruct (gs_baton_admissions s !! _) as [[seen admission]|] eqn:E.
  { destruct (seen ≠? bat_baton_hash baton); [gw_step|]. eapply (wp_told GaAdmission); [done|]. by eapply md_admissions. }
  gw_step. unfold take_challenge. apply wp_bind. gw_step. destruct (gs_challenge s) as [challenge|]; [|gw_step].
  gw_step. apply wp_ret. do 2 gw_step. gw_step. do 2 gw_step.
  destruct (bat_expires_at_epoch_ms baton <=? now); [by eapply wp_seal_unsupported|]. do 4 gw_step.
  match goal with |- wp (if ?b then _ else _) _ _ _ => destruct b end; [by eapply wp_seal_unsupported|by eapply wp_admit_fresh].
Qed.

(** What a recovery reports is in the journal. *)
Lemma terminal_sealed id v x : terminal_of id v = Ok (Some x) → sealed_with v x.
Proof.
  unfold terminal_of. destruct (jv_receipt v) as [[|s]|] eqn:E; [done| |done]. intros Ht.
  apply rbind_ok in Ht as (? & _ & Ht). apply rbind_ok in Ht as (? & _ & Ht). apply rbind_ok in Ht as (? & _ & Ht).
  case_match; simplify_eq. by exists s.
Qed.
Lemma recovery_reports id v st :
  recovery_of id v = Ok (Some st) →
  (∀ b, brs_baton st = Some b → journaled v (JpBatonAccepted b))
  ∧ (∀ x, brs_terminal st = Some x → sealed_with v x)
  ∧ (∀ c, c ∈ brs_admitted_commands st → journaled v (JpCommandAdmitted c)).
Proof.
  unfold recovery_of. destruct (jv_header v) as [[h|h]|]; [done| |done]. case_match; [done|]. intros Hr.
  apply rbind_ok in Hr as ([] & _ & Hr). apply rbind_ok in Hr as (terminal & Ht & Hr). simplify_eq/=.
  split_and!.
  - intros b Hb. assert (b ∈ omap accepted_baton (jv_records v)) as Hin
      by (destruct (omap accepted_baton (jv_records v)); simplify_eq/=; set_solver).
    apply list_elem_of_omap in Hin as (r & Hr & Hp). exists r. split; [done|].
    unfold accepted_baton in Hp. destruct (jrec_payload r); by simplify_eq.
  - intros x ->. by eapply terminal_sealed.
  - intros c Hc. apply list_elem_of_omap in Hc as (r & Hr & Hp). exists r. split; [done|].
    unfold admitted_command in Hp. destruct (jrec_payload r); by simplify_eq.
Qed.
Lemma remembered_durable v cs seen :
  (∀ c, c ∈ cs → journaled v (JpCommandAdmitted c)) →
  (∀ k hash ack, seen !! k = Some (hash, ack) → ack_durable v ack) →
  ∀ k hash ack, foldl remember_durable seen cs !! k = Some (hash, ack) → ack_durable v ack.
Proof.
  revert seen. induction cs as [|c cs IH]; intros seen Hcs Hseen; [done|]. apply IH; [set_solver|].
  intros k hash ack Hk. unfold remember_durable in Hk.
  apply lookup_insert_Some in Hk as [[_ Hk]|[_ Hk]]; [|by eapply Hseen]. simplify_eq. intros _.
  exists c. split; [|done]. apply Hcs. set_solver.
Qed.
Lemma wp_recover v0 v s id peer g :
  reached v0 v s g →
  wp (gateway_recover_activation helper id peer) (λ a, told v0 (GaSession a)) (failed v0) g.
Proof.
  intros Hg. unfold gateway_recover_activation, rebuild_session. gw_step.
  eapply wp_gw_journal; [apply tells_answers, load_activation_recovery_answers|exact Hg|]. clear Hg.
  intros recovery v1 g1 _ Hr Hg. eapply wp_gw_lift; [exact Hg|]. intros st Hst. destruct recovery; cbn in Hst; [|done].
  injection Hst as ->. destruct (recovery_reports _ _ _ Hr) as (Hb & Ht & Hc). eapply wp_gw_lift; [exact Hg|]. intros b Eb.
  assert (brs_baton st = Some b) as Hbaton by (by destruct (brs_baton st); simplify_eq/=).
  eapply wp_gw_journal; [apply tells_lift|exact Hg|]. clear Hg. intros expected v2 g2 He _ Hg. gw_step.
  assert (admission_durable v2 (recovered_admission helper st b (accepted_by b))) as Hadm.
  { unfold recovered_admission. destruct (brs_terminal st) as [x|]; [destruct (is_unsupported_result _)|]; cbn.
    - eapply sealed_later; [done|]. by apply Ht.
    - exists b. split; [|done]. eapply journaled_later; [done|]. by apply Hb.
    - exists b. split; [|done]. eapply journaled_later; [done|]. by apply Hb. }
  gw_step; [by apply memory_admission|]. gw_step. gw_step; [by apply memory_commands|]. gw_step.
  gw_step. { apply memory_commands, remembered_durable; [|done]. intros c Hin. eapply journaled_later; [done|]. by apply Hc. }
  gw_step. by eapply (wp_told GaSession).
Qed.
Lemma wp_command v0 v s command g :
  reached v0 v s g →
  wp (submit_bootstrap_command command) (λ a, told v0 (GaAck a)) (failed v0) g.
Proof.
  intros Hg. unfold submit_bootstrap_command. gw_step.
  destruct (command_binding command) as [[[command_id activation_id] generation] kind]. gw_step.
  eapply wp_gw_journal; [apply tells_lift|exact Hg|]. clear Hg. intros hash v1 g1 He _ Hg.
  destruct (gs_command_seen s !! _) as [[seen ack]|] eqn:E.
  { destruct (seen ≠? hash); [gw_step|]. eapply (wp_told GaAck); [done|]. eapply ack_later; [done|]. by eapply md_commands. }
  do 3 gw_step. eapply wp_gw_journal; [apply tells_answers, load_activation_recovery_answers|exact Hg|]. clear Hg.
  intros recovery v2 g2 _ _ Hg. do 4 gw_step. unfold remember_ack.
  assert (∀ v s ack, ack_durable v ack → memory_durable v s →
    memory_durable v (remember_commands (<[as_str (bca_command_id ack) := (bca_command_hash ack, ack)]> (gs_command_seen s)) s)) as Hrem.
  { intros v3 s3 ack Ha Hm. apply memory_commands; [|done].
    intros k h a' [[_ Hk]|[_ Hk]]%lookup_insert_Some; [by simplify_eq|by eapply md_commands]. }
  destruct command; try (gw_journal tells_command; gw_step; [apply Hrem|]; [..|eapply (wp_told GaAck); [done|]]; intros _; by eexists).
  eapply wp_gw_journal; [apply tells_answers, journal_read_result_answers|exact Hg|]. clear Hg.
  intros receipt v3 g3 _ _ Hg. gw_step. gw_step; [by apply Hrem|]. by eapply (wp_told GaAck).
Qed.
Lemma wp_read_result v0 v s recipient g :
  reached v0 v s g →
  wp (read_bootstrap_result helper recipient) (λ a, told v0 (GaResult a)) (failed v0) g.
Proof.
  intros Hg. unfold read_bootstrap_result. do 2 gw_step.
  eapply wp_gw_journal; [apply tells_answers, journal_read_result_answers|exact Hg|]. clear Hg.
  intros receipt v3 g3 _ Hr Hg. gw_step. eapply (wp_told GaResult); [done|]. cbn.
  cbv beta in Hr. destruct (jv_receipt v3) as [[|sl]|] eqn:E; [done| |done]. case_match; [done|].
  apply rbind_ok in Hr as ([st|] & Hst & Hr); [|done]. cbn in Hr. destruct (brs_terminal st) eqn:Et; simplify_eq/=.
  by apply (recovery_reports _ _ _ Hst).
Qed.

(** ** The theorems *)

Lemma wp_answered {A} (f : A → gateway_answer) (m : gw A) v0 g :
  wp m (λ a, told v0 (f a)) (failed v0) g → wp (answered f m) (told v0) (failed v0) g.
Proof. intros Hm. unfold answered. by apply wp_bind. Qed.
Lemma wp_gateway_call call v0 v s g :
  reached v0 v s g → wp (run_gateway_call call) (told v0) (failed v0) g.
Proof.
  intros Hg. destruct call; apply wp_answered;
    eauto using wp_begin_challenge, wp_query, wp_prepare, wp_submit_baton, wp_command, wp_read_result, wp_recover.
Qed.
Lemma durable_call call v g : durable_at v g → left_durable v (run_gateway_call call g).1.
Proof.
  intros Hg. assert (reached v v (bg_state g) g) as Hr by done.
  pose proof (wp_gateway_call call _ _ _ _ Hr) as Hw. unfold wp in Hw.
  destruct (run_gateway_call call g) as [g' [a|e]]; [|done]. destruct Hw as (v' & s' & Hv' & _). by eapply reached_left.
Qed.
Lemma durable_reaches g g' : gateway_reaches g g' → ∀ v, durable_at v g → left_durable v g'.
Proof.
  induction 1 as [g|call g g' _ IH|op g g' _ IH|fates env g g' _ IH]; intros v Hg; [by apply durable_left|..].
  - destruct (durable_call call v g Hg) as (v1 & He & Hg1). by eapply left_trans; [|apply IH].
  - destruct Hg as [[b Hj] Hs Hm]. destruct (journal_op_moves op _ _ _ _ Hj) as (c & b' & v1 & Hsteps & Hj1).
    destruct (journal_steps _ _ Hsteps Hs) as [Hs1 He]. eapply left_trans; [done|]. apply IH.
    split; [|done|by eapply memory_later]. exists b'. destruct Hj1. by split.
  - apply IH. destruct Hg as [[b [Hj _ _]] Hs Hm]. split; [|done|by split].
    exists false. split; [by apply stored_as_locked|done|done].
Qed.

Definition fresh_gateway (fates : list storage_fate) (env : S) : BootstrapGateway S :=
  MkGateway (MkActivationJournal empty_root false false fates) env default_state 0.
Lemma fresh_durable fates env : durable_at empty_view (fresh_gateway fates env).
Proof. split; [exists false; apply empty_root_at|apply empty_view_sound|by split]. Qed.

(** C16: Whatever the gateway answered is in the journal, then and after any further
    calls, operations of others on the journal, storage failures and restarts:
    an accepted admission as the baton it was computed from, a durable
    acknowledgement as its command, a prepared enrollment and a bootstrap result
    as the sealed receipt. *)
Theorem acknowledgements_durable fates env g call g1 a g2 :
  gateway_reaches (fresh_gateway fates env) g → run_gateway_call call g = (g1, Ok a) → gateway_reaches g1 g2 →
  ∃ v, stored_as (aj_root (bg_journal g2)) v ∧ journal_sound v ∧ answer_durable v a.
Proof.
  intros Hr Hcall Hr2. destruct (durable_reaches _ _ Hr _ (fresh_durable _ _)) as (v & _ & Hg).
  assert (reached v v (bg_state g) g) as Hat by done. pose proof (wp_gateway_call call _ _ _ _ Hat) as Hw.
  unfold wp in Hw. rewrite Hcall in Hw. destruct Hw as (v1 & s1 & (_ & Hg1 & _) & Ha).
  destruct (durable_reaches _ _ Hr2 _ Hg1) as (v2 & He & [[b [Hst _ _]] Hs _]). exists v2.
  split_and!; [done|done|by eapply answer_later].
Qed.

(** *** The challenge *)

(** Computations that leave the challenge as it is, whatever they answer. *)
Definition keeps_challenge {A} (m : gw A) : Prop :=
  ∀ g, gs_challenge (bg_state (m g).1) = gs_challenge (bg_state g)
       ∧ gs_consumed_challenge (bg_state (m g).1) = gs_consumed_challenge (bg_state g).
Lemma keeps_challenge_bind {A B} (m : gw A) (k : A → gw B) :
  keeps_challenge m → (∀ a, keeps_challenge (k a)) → keeps_challenge (m ≫= k).
Proof.
  intros Hm Hk g. unfold mbind, stm_bind. destruct (Hm g) as [H5 H6]. destruct (m g) as [g1 [a|e]]; cbn in *; [|done].
  destruct (Hk a g1) as [-> ->]. done.
Qed.
Lemma keeps_ret {A} (a : A) : keeps_challenge (mret a).
Proof. done. Qed.
Lemma keeps_journal {A} (m : hj A) : keeps_challenge (with_journal m).
Proof. intros g. unfold with_journal. by destruct (m (bg_journal g)). Qed.
Lemma keeps_next_id prefix : keeps_challenge (next_id prefix).
Proof. done. Qed.
Lemma keeps_expect {E A} (r : result E A) : keeps_challenge (expect r).
Proof. done. Qed.
Lemma keeps_set f :
  (∀ s, gs_challenge (f s) = gs_challenge s ∧ gs_consumed_challenge (f s) = gs_consumed_challenge s) →
  keeps_challenge (set_state f).
Proof. intros Hf g. apply Hf. Qed.
Lemma keeps_seal_unsupported now peer baton challenge hash reason :
  keeps_challenge (seal_unsupported helper now peer baton challenge hash reason).
Proof.
  unfold seal_unsupported, unsupported_receipt.
  repeat (apply keeps_challenge_bind; [|intros ?]); try apply keeps_journal; try apply keeps_ret; try (by apply keeps_set);
    [|apply keeps_expect]. intros g. unfold next_id. by destruct (StableId_parse _).
Qed.
Lemma keeps_admit_fresh peer baton challenge hash : keeps_challenge (admit_fresh helper peer baton challenge hash).
Proof.
  unfold admit_fresh.
  repeat (apply keeps_challenge_bind; [|intros ?]); try apply keeps_journal; try apply keeps_ret; try apply keeps_next_id;
    by apply keeps_set.
Qed.
Lemma wp_keeps {A} (m : gw A) c i g :
  keeps_challenge m → gs_challenge (bg_state g) = c → gs_consumed_challenge (bg_state g) = i →
  wp m (λ _ g', gs_challenge (bg_state g') = c ∧ gs_consumed_challenge (bg_state g') = i) (λ _ _, True) g.
Proof. intros Hm <- <-. specialize (Hm g). unfold wp. by destruct (m g) as [g' [a|e]]. Qed.
Lemma wp_seal_answers now peer baton challenge hash reason g :
  wp (seal_unsupported helper now peer baton challenge hash reason) (λ a _, ∃ x, a = BaUnsupported x) (λ _ _, True) g.
Proof.
  unfold seal_unsupported. repeat (apply wp_bind; apply (wp_mono _ (λ _ _, True) _ (λ _ _, True));
    [by unfold wp; case_match; case_match|intros ? ? _|done]). apply wp_ret. by eexists.
Qed.
Lemma wp_and {A} (m : gw A) (Q Q' : A → BootstrapGateway S → Prop) g :
  wp m Q (λ _ _, True) g → wp m Q' (λ _ _, True) g → wp m (λ a g', Q a g' ∧ Q' a g') (λ _ _, True) g.
Proof. unfold wp. by destruct (m g) as [g' [a|e]]. Qed.

(** The profile, asked in environment [env], reports a binding of the candidate
    of an unexpired baton. *)
Definition freshly_bound (now : N) (baton : RepairActivationBatonV1) (env : S) : Prop :=
  now < bat_expires_at_epoch_ms baton
  ∧ ∃ env' report, gp_revalidate_baton_binding ports baton env = (env', Ok report)
      ∧ drifted now baton report = Ok false.
(** The answer a later submission of the same baton gets. *)
Definition remembered (baton : RepairActivationBatonV1) (a : BootstrapAdmissionV1) (g : BootstrapGateway S) : Prop :=
  gs_baton_admissions (bg_state g) !! as_str (bat_baton_id baton) = Some (bat_baton_hash baton, a).
Lemma remembered_fun baton a1 a2 g : remembered baton a1 g → remembered baton a2 g → a1 = a2.
Proof. unfold remembered. congruence. Qed.
Lemma remembered_known baton a g :
  remembered baton a g → gs_baton_admissions (bg_state g) !! as_str (bat_baton_id baton) ≠ None.
Proof. unfold remembered. congruence. Qed.
Definition accepts_fresh (now : N) (baton : RepairActivationBatonV1) (env : S) (a : BootstrapAdmissionV1)
    (g : BootstrapGateway S) : Prop :=
  remembered baton a g ∧ ∀ x, a = BaAccepted x → freshly_bound now baton env.

(** Steps before the last ones, whatever they do. *)
Lemma wp_any_bind {A B} (m : gw A) (k : A → gw B) (Q : B → BootstrapGateway S → Prop) g :
  (∀ a g1, wp (k a) Q (λ _ _, True) g1) → wp (m ≫= k) Q (λ _ _, True) g.
Proof. intros Hk. apply wp_bind. unfold wp at 1. destruct (m g) as [g1 [a|e]]; [apply Hk|done]. Qed.
Lemma wp_seal_remembers now peer baton c hash reason g :
  wp (seal_unsupported helper now peer baton c hash reason)
    (λ a g', remembered baton a g' ∧ ∃ x, a = BaUnsupported x) (λ _ _, True) g.
Proof.
  unfold seal_unsupported. do 9 (apply wp_any_bind; intros ? ?). apply wp_bind, wp_modify, wp_ret.
  split; [|by eexists]. unfold remembered. simpl. apply lookup_insert_eq.
Qed.
Lemma wp_admit_remembers peer baton c hash g :
  wp (admit_fresh helper peer baton c hash) (λ a g', remembered baton a g') (λ _ _, True) g.
Proof.
  unfold admit_fresh. do 6 (apply wp_any_bind; intros ? ?).
  apply wp_bind, wp_modify. apply wp_bind, wp_modify, wp_ret. unfold remembered. simpl. apply lookup_insert_eq.
Qed.
Lemma wp_seal_accepts now peer baton c hash reason env g :
  wp (seal_unsupported helper now peer baton c hash reason) (accepts_fresh now baton env) (λ _ _, True) g.
Proof. eapply wp_mono; [apply wp_seal_remembers| |done]. intros a g' [Hr [x ->]]. split; [done|]. by intros y [=]. Qed.
(** What follows the checks of the challenge and of the peer. *)
Lemma wp_bound_admission now peer baton c hash i g :
  gs_challenge (bg_state g) = None → gs_consumed_challenge (bg_state g) = i →
  wp (if bat_expires_at_epoch_ms baton <=? now
      then seal_unsupported helper now peer baton c hash
             (gateway_reason "capability_drift" "activation baton expired before admission")
      else
        fresh ← with_port (gp_revalidate_baton_binding ports baton);
        fresh ← lift (map_err GePort fresh);
        _ ← lift (validate_dto_size fresh);
        changed ← with_journal (lift (drifted now baton fresh));
        if changed : bool
        then seal_unsupported helper now peer baton c hash
               (gateway_reason "capability_drift" "capability generation changed or expired")
        else admit_fresh helper peer baton c hash)
    (λ a g', accepts_fresh now baton (bg_env g) a g' ∧ gs_challenge (bg_state g') = None
       ∧ gs_consumed_challenge (bg_state g') = i) (λ _ _, True) g.
Proof.
  intros Hc Hi. destruct (bat_expires_at_epoch_ms baton <=? now) eqn:Ex.
  { apply wp_and; [apply wp_seal_accepts|]. by apply wp_keeps; [apply keeps_seal_unsupported|..]. }
  apply wp_bind. unfold wp at 1, with_port.
  destruct (gp_revalidate_baton_binding ports baton (bg_env g)) as [env' [report|]] eqn:Ep; [|done].
  apply wp_bind, wp_ret, wp_bind, wp_lift; [intros [] _|done]. apply wp_bind. unfold wp at 1, with_journal, lift.
  destruct (drifted now baton report) as [[|]|] eqn:Ed; cbn; [| |done].
  { apply wp_and; [apply wp_seal_accepts|]. by apply wp_keeps; [apply keeps_seal_unsupported|..]. }
  apply wp_and; [|by apply wp_keeps; [apply keeps_admit_fresh|..]].
  eapply wp_mono; [apply wp_admit_remembers| |done]. intros a g' Hr. split; [done|].
  intros y _. apply N.leb_gt in Ex. split; [done|]. by exists env', report.
Qed.

(** C17: A baton is admitted once per challenge, to the peer that was challenged,
    while the challenge holds, for the generation that peer runs; an acceptance
    needs a report of the profile, asked for in this call, that binds the same
    candidate.  The answer is remembered, and the only other way to an answer
    is a replay: a baton with the identity and the hash of one that was
    answered before gets that answer again, from any peer and without a
    challenge, and nothing else happens. *)
Theorem admission_fenced now peer baton g g' a :
  submit_repair_activation_baton ports helper now peer baton g = (g', Ok a) →
  (remembered baton a g ∧ g' = g)
  ∨ (gs_baton_admissions (bg_state g) !! as_str (bat_baton_id baton) = None
     ∧ gs_active (bg_state g) = None
     ∧ remembered baton a g'
     ∧ (∀ x, a = BaAccepted x → freshly_bound now baton (bg_env g))
     ∧ ∃ c, gs_challenge (bg_state g) = Some c ∧ bch_expected_peer c = peer
       ∧ bch_issued_at_epoch_ms c ≤ now < bch_expires_at_epoch_ms c
       ∧ peer_process_generation peer = bat_current_process_generation baton
       ∧ gs_challenge (bg_state g') = None ∧ gs_consumed_challenge (bg_state g') = Some (bch_challenge_id c)).
Proof.
  intros Hrun. match goal with |- ?P => set (goal := P) end.
  assert (∀ Q : BootstrapAdmissionV1 → BootstrapGateway S → Prop,
    wp (submit_repair_activation_baton ports helper now peer baton) Q (λ _ _, True) g → Q a g') as Hwp.
  { intros Q. unfold wp. by rewrite Hrun. }
  apply (Hwp (λ a0 g0, a0 = a → g0 = g' → goal)); [|done|done]. clear Hrun Hwp.
  unfold submit_repair_activation_baton. do 2 (apply wp_bind, wp_lift; [intros [] _|done]).
  apply wp_bind. unfold wp at 1, gateway_state.
  destruct (gs_baton_admissions (bg_state g) !! as_str (bat_baton_id baton)) as [[seen adm]|] eqn:Hnew.
  { case_bool_decide as Hseen; [|by apply wp_throw]. apply wp_ret. intros -> ->. left. unfold remembered.
    by rewrite Hnew, Hseen. }
  apply wp_bind, wp_reject; [|done]. intros Hactive. apply wp_bind. unfold take_challenge.
  apply wp_bind. unfold wp at 1, gateway_state. destruct (gs_challenge (bg_state g)) as [c|] eqn:Ec; [|done].
  apply wp_bind, wp_modify, wp_ret. apply wp_bind, wp_reject; [|done]. intros [Hpeer _]%orb_false_iff.
  apply wp_bind, wp_reject; [|done]. intros [Hissued Hexpires]%orb_false_iff. apply wp_bind, wp_modify.
  apply wp_bind. unfold wp at 1, with_journal, lift. destruct (canonical_hash _) as [hash|]; [|done]. cbn.
  apply wp_bind, wp_reject; [|done]. intros Hgen.
  eapply wp_mono; [by apply (wp_bound_admission _ _ _ _ _ (Some (bch_challenge_id c)))| |done].
  intros a0 g0 ([Hr Hx] & Hc0 & Hi0) -> ->. right.
  apply negb_false_iff, bool_decide_eq_true in Hpeer, Hgen. apply N.ltb_ge in Hissued. apply N.leb_gt in Hexpires.
  split_and!; [done|by destruct (gs_active (bg_state g))|done|exact Hx|]. by exists c.
Qed.

(** *** The digest of a capability report *)

Lemma wp_query_digest provenance enrollment candidate previous g :
  wp (gateway_query_activation_capability ports provenance enrollment candidate previous)
    (λ report _, canonical_hash (clear_digest report) = Ok (pcr_capability_digest report)) (λ _ _, True) g.
Proof.
  unfold gateway_query_activation_capability. do 2 (apply wp_bind, wp_lift; [intros ? _|done]). apply wp_bind.
  apply (wp_mono _ (λ _ _, True) _ (λ _ _, True)); [by destruct previous; [apply wp_lift|apply wp_ret]| |done].
  intros [] g1 _. apply wp_bind, wp_lift; [intros ? _|done]. apply wp_bind. unfold wp at 1, with_port.
  destruct (gp_capability_report _ _ _ _ _ _) as [env report]. apply wp_bind, wp_lift; [|done]. intros r _.
  apply wp_bind, wp_lift; [intros ? _|done]. apply wp_bind, wp_reject; [intros _|done]. apply wp_bind.
  unfold wp at 1, with_journal, lift. destruct (canonical_hash (clear_digest r)) as [hash|] eqn:Eh; [|done]. cbn.
  apply wp_bind, wp_reject; [|done]. intros Hd%negb_false_iff%bool_decide_eq_true. apply wp_ret. congruence.
Qed.

(** The core digests the fields of a report as a tuple, the gateway (and the
    profile adapter) the report with an empty digest.  Where the two encodings
    never share a digest, the core refuses every report the gateway passes on. *)
Theorem no_report_passes_both provenance enrollment candidate previous g g' report :
  (∀ (r : PlatformCapabilityReportV1) (fields : report_key) x y,
     jcs_to_vec r = Some x → jcs_to_vec fields = Some y → sha256_hex x ≠ sha256_hex y) →
  gateway_query_activation_capability ports provenance enrollment candidate previous g = (g', Ok report) →
  is_ok (validate_capability_report_shape report) = false.
Proof.
  intros Hapart Hq. pose proof (wp_query_digest provenance enrollment candidate previous g) as Hd. unfold wp in Hd.
  rewrite Hq in Hd. destruct (validate_capability_report_shape report) as [[]|] eqn:Ev; [|done]. exfalso.
  unfold validate_capability_report_shape in Ev. apply rbind_ok in Ev as ([] & _ & Ev).
  apply rbind_ok in Ev as (differs & Hdiff & Ev). destruct differs; [done|]. unfold hash_differs in Hdiff.
  unfold capability_report_digest_v1, repair_canonical_hash in Hdiff. unfold canonical_hash in Hd.
  destruct (jcs_to_vec (clear_digest report)) as [x|] eqn:Ex; [|done]. cbn in Hd.
  match type of Hdiff with context [jcs_to_vec ?k] => destruct (jcs_to_vec k) as [y|] eqn:Ey; [|done] end.
  cbn in Hdiff. injection Hdiff as Hdiff. apply negb_false_iff, bool_decide_eq_true in Hdiff.
  injection Hd as Hd. rewrite <-Hd in Hdiff. apply (inj (String.app "sha256:")) in Hdiff.
  by apply (Hapart _ _ _ _ Ex Ey).
Qed.
End gateway.
