(* ===== verification/HelperWitness.v ===== *)
(** * An activation from its baton to its receipt

    A concrete baton, three slots and a platform whose candidate starts or not.
    The theorems on the helper applied to an activation that verifies, to one
    that is interrupted after the switch and recovered, and to the
    interruptions that leave no way on; then a gateway, its challenge and the
    admission of a baton. *)
From S2P Require Import HelperTheorems HelperGatewayProofs RepairWitness.

Local Open Scope repair_scope.

Module DemoHelper.
Import (hints) DemoRepair.
Import DemoRepair.

#[export] Instance journal_serializers : JournalSerialize := {|
  js_enrollment_header := constant_serializer; js_activation_header := constant_serializer;
  js_record := constant_serializer; js_enrollment_seal := constant_serializer;
  js_bootstrap_seal := constant_serializer; js_notice := constant_serializer |}.
#[export] Instance helper_serializers : HelperSerialize := {|
  hs_label := constant_serializer; hs_flagged := constant_serializer;
  hs_watchdog := constant_serializer; hs_text := constant_serializer;
  hs_selector := constant_serializer; hs_rollback := constant_serializer;
  hs_enrollment_plan := constant_serializer; hs_enrollment := constant_serializer |}.
#[export] Instance helper_encodes : HelperEncodes.
Proof. by split; intros x; eexists. Qed.

Definition accepted : BatonAcceptedV1 :=
  MkBatonAccepted id:"activation" id:"baton" hash hash id:"challenge" hash hash hash id:"admission" hash
    id:"checkpoint" 1 hash hash 1 hash "build.new" "build.old" hash 4 5 6 deadlines.

Definition slot (build : string) : VerifiedBuildSlotV1 :=
  MkSlot build hash build hash hash "core" ScRollbackCompatible
    (MkSlotHandle id:"slot" build build hash 1).
Definition selector (build : string) : ActiveSelectorObservationV1 :=
  MkSelectorObservation hash build build 1 hash.
Definition activation : ActivationPlanV1 :=
  MkActivationPlan id:"activation" 1 hash hash (slot "build.old") (slot "build.new") (slot "build.old")
    4 5 6 deadlines.
Definition execution : ActivationExecutionV1 :=
  MkExecution activation id:"installation" id:"checkpoint" plan true 50.

Definition tree (g : ProcessGeneration) : ProcessTreeCleanupV1 := MkCleanup g true false 0 true false hash.
Definition launched (spec : GenerationLaunchSpecV1) : GenerationWatchdogSuccessV1 :=
  let g := gls_process_generation spec in
  let attempt := gls_attempt_id spec in
  let launch := MkLaunchObservation attempt (MkProcessTree id:"tree" g hash hash) hash hash 1 hash in
  let handshake := MkGenerationHandshake id:"activation" attempt id:"installation" hash 1 hash hash hash
    hash 1 hash g hash in
  let health := MkHealth attempt g true 1 hash in
  match gls_role spec with
  | GrCandidate => GwCandidateVerified launch handshake health
      (MkFocusedVerificationResult id:"activation" attempt g hash true (MkOutcome id:"outcome" id:"invocation" CoSuccess false JNull None) evidence hash)
  | GrPrevious => GwPreviousHealthy launch handshake health
  end.
Definition failure (spec : GenerationLaunchSpecV1) : WatchdogFailureV1 :=
  MkWatchdogFailure id:"activation" (gls_attempt_id spec) (gls_role spec) WsStartup "startup"
    id:"diagnostic" true.

(** The environment is the build the selector names; [starts] says which builds
    start. *)
Definition ports (starts : string → bool) : HelperPorts string := {|
  hp_reverify_opened_slot h s := (s, Ok (slot (osh_build_content_hash h)));
  hp_mark_candidate_activated_verified s := (s, Ok ());
  hp_materialize_immutable_slot _ _ s := (s, Err SeNotFound);
  hp_set_initial_active _ s := (s, Ok ());
  hp_observe_active_selector _ s := (s, Ok (selector s));
  hp_apply_candidate_selector p _ s :=
    let next := vbs_build_content_hash (apl_candidate p) in
    (next, Ok (MkSelectorReceipt id:"mutation" id:"activation" SmSelectCandidate (selector s)
                 (selector next) hash hash));
  hp_restore_previous_selector p _ s :=
    let next := vbs_build_content_hash (apl_previous p) in
    (next, Ok (MkSelectorReceipt id:"mutation" id:"activation" SmRestorePrevious (selector s)
                 (selector next) hash hash));
  hp_verify_selector _ h s :=
    (s, if osh_build_content_hash h ≟ s then Ok (selector s) else Err PeSelectorDrift);
  hp_cleanup_generation _ _ g _ _ s := (s, Ok (tree g));
  hp_launch_and_watch spec s :=
    (s, if starts (vbs_build_content_hash (gls_slot spec)) then Ok (launched spec) else Err (failure spec));
  hp_stable_launcher_notice _ s := s
|}.

(** An activation whose storage fails at its [n]th call, up to the end of the
    process, and the process after it. *)
Definition fresh (fates : list storage_fate) : ActivationJournal :=
  MkActivationJournal empty_root false false fates.
Definition failing (n : nat) : list storage_fate := repeat CallWorks n ++ [CallFails].
Definition accepted_at (fates : list storage_fate) : CoordinatorState string :=
  MkCoordinatorState (admit_baton accepted (fresh fates)).1 "build.old" [] false.
Definition executed (starts : string → bool) (fates : list storage_fate) : CoordinatorState string :=
  (execute_activation (ports starts) execution (accepted_at fates)).1.
Definition restarted (w : CoordinatorState string) : CoordinatorState string :=
  (on_journal acquire_single_flight
     (MkCoordinatorState (restart [] (co_journal w)) (co_env w) (co_trace w) false)).1.

Definition intact {T} (x : option (stored T)) : option T :=
  match x with Some (Intact y) => Some y | _ => None end.
Definition view_of (w : CoordinatorState string) : root_view :=
  let r := aj_root (co_journal w) in
  MkRootView (intact (jr_header r)) (omap (λ x, intact (Some x.2)) (jr_records r)) (intact (jr_receipt r))
    (intact (jr_notice r)).
Lemma contiguous_check rs : jrec_ordinal <$> rs = N.of_nat <$> seq 0 (length rs) → contiguous rs.
Proof.
  intros Hs i x Hx. assert ((jrec_ordinal <$> rs) !! i = Some (jrec_ordinal x)) as Hl by by rewrite list_lookup_fmap, Hx.
  rewrite Hs, list_lookup_fmap in Hl. apply fmap_Some in Hl as (k & Hk & ->).
  apply lookup_seq in Hk as [-> _]. done.
Qed.

Lemma executed_reached starts fates :
  aj_held (co_journal (accepted_at fates)) = true →
  helper_reaches (ports starts) (accepted_at fates) (executed starts fates).
Proof. intros Hh. eapply helper_execute; [exact Hh|]. apply helper_refl. Qed.
Lemma restarted_reached starts w w' :
  helper_reaches (ports starts) w w' → helper_reaches (ports starts) w (restarted w').
Proof.
  induction 1; [|by econstructor..]. eapply helper_restart, helper_acquire, helper_refl.
Qed.
End DemoHelper.

(** What the root of a concrete state stores. *)
Ltac stored_by_computation :=
  split; [..|apply DemoHelper.contiguous_check| |]; vm_compute; reflexivity.

Section helper_witnesses.
Import (hints) DemoRepair DemoHelper.
Import DemoRepair DemoHelper.

(** The candidate starts and verifies. *)
Lemma activation_disciplined_witness : ∃ s,
  jv_receipt (view_of (executed (λ _, true) [])) = Some (TrBootstrapResult s)
  ∧ bsr_result (bts_receipt s) = BrActivatedVerified evidence
  ∧ trace_justified accepted (co_trace (executed (λ _, true) []))
  ∧ length (co_trace (executed (λ _, true) [])) = 4%nat.
Proof.
  assert (is_ok (admit_baton accepted (fresh [])).2 = true) as Hok by (vm_compute; reflexivity).
  destruct (admit_baton accepted (fresh [])) as [j [a|]] eqn:E; [|discriminate Hok].
  assert (accepted_at [] = MkCoordinatorState j "build.old" [] false) as Hs by (unfold accepted_at; rewrite E; reflexivity).
  destruct (activation_disciplined (ports (λ _, true)) accepted [] j a "build.old" (executed (λ _, true) []) E) as [Ht _].
  { rewrite <-Hs. apply executed_reached. vm_compute. reflexivity. }
  assert (match jv_receipt (view_of (executed (λ _, true) [])) with
          | Some (TrBootstrapResult s) => bool_decide (bsr_result (bts_receipt s) = BrActivatedVerified evidence)
          | _ => false
          end = true) as Hr by (vm_compute; reflexivity).
  destruct (jv_receipt (view_of (executed (λ _, true) []))) as [[|s]|]; try discriminate Hr.
  exists s. split; [reflexivity|]. split; [exact (bool_decide_eq_true_1 _ Hr)|]. split; [exact Ht|].
  vm_compute. reflexivity.
Defined.

(** The storage fails as the launch of the candidate is to be journaled as
    observed; the process ends; recovery rolls back to the previous build. *)
Definition interrupted : CoordinatorState string :=
  restarted (executed (λ build, build ≟ "build.old") (failing 107)).
Lemma recovery_completes_witness : ∃ x w' v' s,
  derive_bootstrap_phase (jv_records (view_of interrupted)) = BpCandidateSelected
  ∧ recover_activation (ports (λ build, build ≟ "build.old")) id:"activation" (Some execution) interrupted
    = (w', Ok x)
  ∧ stored_as (aj_root (co_journal w')) v' ∧ jv_receipt v' = Some (TrBootstrapResult s) ∧ bts_receipt s = x
  ∧ result_backed accepted (co_trace w') (bsr_result x)
  ∧ (∃ reason evidence, bsr_result x = BrRolledBack reason evidence) ∧ co_env w' = "build.old".
Proof.
  assert (is_ok (admit_baton accepted (fresh (failing 107))).2 = true) as Hok by (vm_compute; reflexivity).
  destruct (admit_baton accepted (fresh (failing 107))) as [j [a|]] eqn:E; [|discriminate Hok].
  assert (accepted_at (failing 107) = MkCoordinatorState j "build.old" [] false) as Hs
    by (unfold accepted_at; rewrite E; reflexivity).
  destruct (recovery_completes (ports (λ build, build ≟ "build.old")) accepted (failing 107) j a "build.old"
    interrupted (view_of interrupted) execution E) as (x & w' & v' & s & Hr & Hv' & Hx & Hs' & Hb).
  { rewrite <-Hs. apply restarted_reached, executed_reached. vm_compute. reflexivity. }
  1-3: vm_compute; reflexivity.
  { stored_by_computation. }
  { apply N.leb_le. vm_compute. reflexivity. }
  { intros Hp. vm_compute in Hp. discriminate Hp. }
  { vm_compute. reflexivity. }
  exists x, w', v', s. split; [vm_compute; reflexivity|]. split; [exact Hr|].
  assert (let r := recover_activation (ports (λ build, build ≟ "build.old")) id:"activation" (Some execution)
                     interrupted in
          match r.2 with Ok y => match bsr_result y with BrRolledBack _ _ => true | _ => false end | Err _ => false end
          && (co_env r.1 ≟ "build.old") = true) as Hc by (vm_compute; reflexivity).
  cbv zeta in Hc. change id:"activation" with (bac_activation_id accepted) in Hc. rewrite Hr in Hc. cbn [fst snd] in Hc.
  apply andb_prop in Hc as [Hc He]. repeat (split; [assumption|]). split; [|exact (bool_decide_eq_true_1 _ He)].
  destruct (bsr_result x) as [|?|reason evidence|] eqn:Ex; try discriminate Hc. exists reason, evidence. reflexivity.
Defined.

(** No build starts, and the storage fails between the phase of manual recovery
    and its notice: the processes after it never end the activation. *)
Definition stranded : CoordinatorState string := executed (λ _, false) (failing 247).
Lemma manual_without_notice_wedges_witness :
  notice_lost (view_of stranded)
  ∧ ∀ execution, is_ok (recover_activation (ports (λ _, false)) id:"activation" execution (restarted stranded)).2 = false.
Proof.
  assert (notice_lost (view_of stranded)) as Hl by (split; [|split]; vm_compute; reflexivity).
  split; [exact Hl|]. intros ex.
  assert (is_ok (admit_baton accepted (fresh (failing 247))).2 = true) as Hok by (vm_compute; reflexivity).
  destruct (admit_baton accepted (fresh (failing 247))) as [j [a|]] eqn:E; [|discriminate Hok].
  assert (accepted_at (failing 247) = MkCoordinatorState j "build.old" [] false) as Hs
    by (unfold accepted_at; rewrite E; reflexivity).
  apply (manual_without_notice_wedges (ports (λ _, false)) accepted (failing 247) j a "build.old" stranded
    (view_of stranded) (restarted stranded) E).
  - rewrite <-Hs. apply executed_reached. vm_compute. reflexivity.
  - stored_by_computation.
  - exact Hl.
  - apply restarted_reached, helper_refl.
  - vm_compute. reflexivity.
Defined.

(** A sealed activation, its lock acquired again. *)
Definition sealed : CoordinatorState string := restarted (executed (λ _, true) []).
Lemma append_after_seal_loses_receipt_witness : ∃ x,
  (journal_read_bootstrap_result id:"activation" (co_journal sealed)).2 = Ok x
  ∧ is_ok (journal_read_bootstrap_result id:"activation"
      (advance_phase (MkPhaseAdvance id:"activation" (len (jv_records (view_of sealed))) BpVerified BpRecovering)
         (co_journal sealed)).1).2 = false.
Proof.
  destruct (jv_header (view_of sealed)) as [[|h]|] eqn:Eh; [vm_compute in Eh; discriminate Eh| |vm_compute in Eh; discriminate Eh].
  destruct (jv_receipt (view_of sealed)) as [[|s]|] eqn:Es; [vm_compute in Es; discriminate Es| |vm_compute in Es; discriminate Es].
  destruct (last (jv_records (view_of sealed))) as [head|] eqn:El; [|vm_compute in El; discriminate El].
  destruct (next_record (jv_records (view_of sealed)) (JpPhaseAdvance BpRecovering)) as [r|] eqn:Er;
    [|vm_compute in Er; discriminate Er].
  assert (ajh_activation_id h = id:"activation") as Hid.
  { vm_compute in Eh. injection Eh as <-. reflexivity. }
  exists (bts_receipt s). rewrite <-Hid.
  refine (let H := append_after_seal_loses_receipt (view_of sealed) (co_journal sealed) h s head r _ Eh _ Es _ _ El _ _ _ _ Er in
    conj (proj1 H) (proj2 (proj2 H))).
  - split; [stored_by_computation|vm_compute; reflexivity|intros _; vm_compute; reflexivity].
  - vm_compute in Eh. injection Eh as <-. vm_compute. reflexivity.
  - vm_compute in Es. injection Es as <-. repeat split; vm_compute; reflexivity.
  - rewrite Hid. vm_compute in Es. injection Es as <-. reflexivity.
  - vm_compute in El. injection El as <-. vm_compute. reflexivity.
  - vm_compute. reflexivity.
  - vm_compute. reflexivity.
  - vm_compute. reflexivity.
Defined.

(** A baton journaled before the process ends is there afterwards. *)
Definition first_record : ActivationJournal :=
  (run_journal_op (OpBatonAccepted accepted) (run_journal_op OpAcquire (fresh [])).1).1.
Lemma journal_custody_witness : ∃ v v',
  stored_as (aj_root first_record) v
  ∧ stored_as (aj_root (run_journal_op OpAcquire (restart [] first_record)).1) v'
  ∧ journal_sound v' ∧ extends v v' ∧ length (jr_records (aj_root first_record)) = 1%nat.
Proof.
  destruct (journal_custody [] first_record (run_journal_op OpAcquire (restart [] first_record)).1)
    as (v & v' & Hv & Hv' & Hs & He).
  - apply (reaches_op OpAcquire). apply (reaches_op (OpBatonAccepted accepted)). apply reaches_refl.
  - apply (reaches_restart []). apply (reaches_op OpAcquire). apply reaches_refl.
  - exists v, v'. split; [exact Hv|]. split; [exact Hv'|]. split; [exact Hs|]. split; [exact He|].
    vm_compute. reflexivity.
Defined.

(** The process ends after the baton is journaled and before the phase
    [BatonDurable] is: the activation can be neither executed nor recovered,
    and its baton is not accepted a second time. *)
Definition half_admitted : CoordinatorState string :=
  restarted (MkCoordinatorState first_record "build.old" [] false).
Theorem interrupted_admission_wedges :
  (execute_activation (ports (λ _, true)) execution half_admitted).2
    = Err (CoFence "activation is not ready to execute")
  ∧ (recover_activation (ports (λ _, true)) id:"activation" (Some execution) half_admitted).2
    = Err (CoJournal (BjIllegalPhaseTransition "AdmittingBaton" "Recovering"))
  ∧ (append_baton_accepted accepted (co_journal half_admitted)).2 = Err (BjStaleOrdinal 0 1).
Proof. split; [|split]; vm_compute; reflexivity. Qed.
End helper_witnesses.

(** ** A gateway *)

Module DemoGateway.
(** Every type has an encoding of its own, the same for all its values. *)
Definition tagged {T} (tag : Byte.byte) : Serialize T := {|
  to_vec _ := Some [tag]; jcs_to_vec _ := Some [tag] |}.
#[export] Instance sha : Sha256 := demo_sha256.
#[export] Instance repair_serializers : RepairSerialize := {|
  rs_bindings := tagged Byte.x01; rs_provenance := tagged Byte.x02;
  rs_disclosure := tagged Byte.x03; rs_candidate := tagged Byte.x04;
  rs_receipt := tagged Byte.x05; rs_report := tagged Byte.x06;
  rs_baton := tagged Byte.x07; rs_admission := tagged Byte.x08;
  rs_quiescence := tagged Byte.x09; rs_plan := tagged Byte.x0a;
  rs_evidence := tagged Byte.x0b; rs_result := tagged Byte.x0c |}.
#[export] Instance journal_serializers : JournalSerialize := {|
  js_enrollment_header := tagged Byte.x0d; js_activation_header := tagged Byte.x0e;
  js_record := tagged Byte.x0f; js_enrollment_seal := tagged Byte.x10;
  js_bootstrap_seal := tagged Byte.x11; js_notice := tagged Byte.x12 |}.
#[export] Instance helper_serializers : HelperSerialize := {|
  hs_label := tagged Byte.x13; hs_flagged := tagged Byte.x14; hs_watchdog := tagged Byte.x15;
  hs_text := tagged Byte.x16; hs_selector := tagged Byte.x17; hs_rollback := tagged Byte.x18;
  hs_enrollment_plan := tagged Byte.x19; hs_enrollment := tagged Byte.x1a |}.
#[export] Instance gateway_serializers : GatewaySerialize := {|
  gz_entropy := tagged Byte.x1b; gz_challenge := tagged Byte.x1c; gz_baton_command := tagged Byte.x1d;
  gz_command := tagged Byte.x1e; gz_report := tagged Byte.x1f; gz_request := tagged Byte.x20;
  gz_enrollment := tagged Byte.x21; gz_provenance := tagged Byte.x22; gz_bundle := tagged Byte.x23;
  gz_preparation := tagged Byte.x24 |}.

Definition tag_digest (tag : Byte.byte) : string := "sha256:" +:+ sha256_hex [tag].
Definition report : PlatformCapabilityReportV1 :=
  MkCapabilityReport 1 id:"report" id:"candidate" 1 DemoRepair.hash 1
    (BoManagedLocal DemoRepair.hash DemoRepair.hash) AeSupportedManagedLocal
    (MkPlatformReason "ok" "supported" ["activate"]) (DemoRepair.bundle id:"build.old")
    (Some (DemoRepair.bundle id:"build.old")) 25 1000 (tag_digest Byte.x1f).
Definition baton : RepairActivationBatonV1 :=
  MkBaton 1 id:"baton" id:"activation" DemoRepair.group id:"candidate" 1 DemoRepair.hash
    (DemoRepair.bundle id:"build.new") DemoRepair.hash DemoRepair.hash DemoRepair.hash id:"report" 1
    (tag_digest Byte.x1f) (DemoRepair.bundle id:"build.old") DemoRepair.checkpoint DemoRepair.plan 4 5 6
    DemoRepair.deadlines 90 (tag_digest Byte.x07).
Definition peer : PeerIdentityV1 := MkPeerIdentity 4 DemoRepair.hash DemoRepair.hash.
Definition helper : HelperIdentityV1 :=
  MkHelperIdentity DemoRepair.hash 1
    (MkEnrollmentIdentities DemoRepair.hash DemoRepair.hash DemoRepair.hash DemoRepair.hash).
Definition ports : GatewayPorts () := {|
  gp_capability_report _ _ _ _ s := (s, Ok report);
  gp_revalidate_baton_binding _ s := (s, Ok report);
  gp_enrollment_plan _ s := (s, Err "none");
  gp_materialize _ _ s := (s, Err "none");
  gp_entropy s := (s, Some [])
|}.
Definition challenged : BootstrapGateway () :=
  (run_gateway_call ports helper (GcBeginChallenge 30 peer) (fresh_gateway [] ())).1.
Definition enrollment : LocalBuildEnrollmentV1 :=
  MkLocalEnrollment id:"installation" 1 DemoRepair.hash DemoRepair.hash DemoRepair.hash DemoRepair.hash
    DemoRepair.hash DemoRepair.hash DemoRepair.hash (MkOwnershipFacts true true true true) LeEnrolled.
(** A baton submitted, and the process after that. *)
Definition submitted (now : N) : BootstrapGateway () * result GatewayError gateway_answer :=
  run_gateway_call ports helper (GcSubmitBaton now peer baton) challenged.
Definition successor (g : BootstrapGateway ()) : BootstrapGateway () :=
  MkGateway (restart [] (bg_journal g)) () default_state 0.
End DemoGateway.

Section gateway_witnesses.
Import (hints) DemoGateway.
Import DemoGateway.

(** A baton is accepted, the process ends, the session is recovered: the
    acceptance is still in the journal. *)
Lemma acknowledgements_durable_witness : ∃ a v,
  (submitted 31).2 = Ok (GaAdmission (BaAccepted a))
  ∧ stored_as (aj_root (bg_journal (run_gateway_call ports helper (GcRecover id:"activation" peer)
                                      (successor (submitted 31).1)).1)) v
  ∧ journal_sound v ∧ ∃ b, journaled v (JpBatonAccepted b) ∧ a = accepted_by b.
Proof.
  assert (match (submitted 31).2 with Ok (GaAdmission (BaAccepted _)) => true | _ => false end = true) as Hok
    by (vm_compute; reflexivity).
  destruct (submitted 31) as [g1 [[| | |[a|x]| | |]|e]] eqn:E; try discriminate Hok.
  destruct (acknowledgements_durable ports helper [] () challenged (GcSubmitBaton 31 peer baton) g1 (GaAdmission (BaAccepted a))
    (run_gateway_call ports helper (GcRecover id:"activation" peer) (successor g1)).1) as (v & Hv & Hs & Ha).
  - eapply (gateway_calls ports helper (GcBeginChallenge 30 peer)). apply gateway_refl.
  - exact E.
  - eapply (gateway_restarts ports helper [] ()). eapply (gateway_calls ports helper (GcRecover id:"activation" peer)).
    apply gateway_refl.
  - exists a, v. split; [reflexivity|]. split; [exact Hv|]. split; [exact Hs|exact Ha].
Defined.

(** A baton is admitted against a challenge, and submitted again by a peer that
    has none. *)
Lemma admission_fenced_witness : ∃ c g' a,
  submit_repair_activation_baton ports helper 31 peer baton challenged = (g', Ok a)
  ∧ gs_challenge (bg_state challenged) = Some c ∧ bch_expected_peer c = peer
  ∧ gs_challenge (bg_state g') = None ∧ gs_consumed_challenge (bg_state g') = Some (bch_challenge_id c)
  ∧ remembered baton a g'
  ∧ submit_repair_activation_baton ports helper 99 (MkPeerIdentity 8 DemoRepair.hash DemoRepair.hash) baton g' = (g', Ok a).
Proof.
  assert (is_ok (submit_repair_activation_baton ports helper 31 peer baton challenged).2 = true) as Hok
    by (vm_compute; reflexivity).
  assert (is_ok (submit_repair_activation_baton ports helper 99 (MkPeerIdentity 8 DemoRepair.hash DemoRepair.hash) baton
    (submit_repair_activation_baton ports helper 31 peer baton challenged).1).2 = true) as Hagain
    by (vm_compute; reflexivity).
  destruct (submit_repair_activation_baton ports helper 31 peer baton challenged) as [g' [a|e]] eqn:E;
    [|discriminate Hok].
  destruct (admission_fenced ports helper 31 peer baton challenged g' a E)
    as [[Hr _]|(_ & _ & Hr & _ & c & Hc & Hp & _ & _ & Hn & Hi)].
  { vm_compute in Hr. discriminate Hr. }
  exists c, g', a. split; [reflexivity|]. split; [exact Hc|]. split; [exact Hp|]. split; [exact Hn|]. split; [exact Hi|].
  split; [exact Hr|]. cbv beta iota delta [fst] in Hagain.
  destruct (submit_repair_activation_baton ports helper 99 (MkPeerIdentity 8 DemoRepair.hash DemoRepair.hash) baton g')
    as [g2 [a2|e]] eqn:E2; [|discriminate Hagain].
  destruct (admission_fenced ports helper 99 _ baton g' g2 a2 E2) as [[Hr2 ->]|(Hnone & _)].
  - rewrite (remembered_fun baton a a2 g' Hr Hr2). reflexivity.
  - destruct (remembered_known baton a g' Hr Hnone).
Defined.

Definition provenance : BuildProvenanceV1 := MkBuildProvenance "revision" "tree" "env" "tools" "build" "hash".
Definition queried : BootstrapGateway () * result GatewayError PlatformCapabilityReportV1 :=
  gateway_query_activation_capability ports provenance enrollment (DemoRepair.bundle id:"build.new") None
    (fresh_gateway [] ()).
Lemma no_report_passes_both_witness : ∃ g' report,
  queried = (g', Ok report) ∧ is_ok (validate_capability_report_shape report) = false.
Proof.
  assert (is_ok queried.2 = true) as Hok by (vm_compute; reflexivity).
  destruct queried as [g' [r|e]] eqn:E; [|discriminate Hok]. exists g', r. split; [reflexivity|].
  refine (no_report_passes_both ports provenance enrollment (DemoRepair.bundle id:"build.new") None
    (fresh_gateway [] ()) g' r _ E).
  intros r' fields x y Hx Hy. cbn in Hx, Hy. injection Hx as <-. injection Hy as <-. vm_compute. discriminate.
Defined.

(** A baton that is refused as unsupported is journaled with the hash of the
    receipt where the hash of an admission is expected: the process after it
    cannot recover the session. *)
Theorem unsupported_admission_unrecoverable :
  (∃ x, (submitted 95).2 = Ok (GaAdmission (BaUnsupported x)))
  ∧ (run_gateway_call ports helper (GcRecover id:"activation" peer) (successor (submitted 95).1)).2
    = Err (GeJournal (BjChainBroken 0)).
Proof.
  split; [|vm_compute; reflexivity].
  assert (match (submitted 95).2 with Ok (GaAdmission (BaUnsupported _)) => true | _ => false end = true) as Hok
    by (vm_compute; reflexivity).
  destruct (submitted 95).2 as [[| | |[a|x]| | |]|e]; try discriminate Hok. exists x. reflexivity.
Qed.
End gateway_witnesses.
